(* ===== verification/_CoqProject ===== *)
-Q . S2P
Prelude.v
MathUtils.v
OrderedDict.v
Request.v
BlockHash.v
BlockHashFacts.v
FreeQueue.v
FreeQueueFacts.v
BlockPool.v
BlockPoolFacts.v
BlockPoolSpec.v
BlockPoolTheorems.v
Managers.v
ManagerFacts.v
AllocationFacts.v
ReleaseFacts.v
HitFacts.v
WindowFacts.v
ManagerTheorems.v
EncoderCache.v
EncoderCacheFacts.v
RequestQueue.v
RequestQueueFacts.v
SchedUtils.v
SchedUtilsFacts.v
SearchFacts.v
RegistrationFacts.v
Coordinator.v
CoordinatorFacts.v
CoordinatorSteps.v
CommonHitFacts.v
CoordinatorTheorems.v
KVCacheManager.v
KVCacheFacts.v
KVCacheSteps.v
KVCacheLookup.v
KVCacheTheorems.v
KVCacheService.v
SchedulerState.v
Scheduler.v
SchedulerUpdate.v
SchedulerQueues.v
SchedulerFrame.v
SchedulerInv.v
SchedulerRequests.v
SchedulerSteps.v
SchedulerRunning.v
SchedulerWaiting.v
SchedulerSchedule.v
SchedulerTokens.v
SchedulerProcess.v
SchedulerLoop.v
EngineCore.v
EngineFacts.v
EngineTheorems.v
PyFloat.v
Offload.v
OffloadFacts.v
OffloadArc.v
OffloadManager.v
OffloadSteps.v
OffloadTheorems.v
Detokenizer.v
DetokenizerFacts.v
DetokenizerTheorems.v
Ngram.v
NgramFacts.v
BlockTable.v
BlockTableFacts.v
BlockTableTheorems.v
LayerSpec.v
CacheConfig.v
LayoutFacts.v
PlacementFacts.v
PlacementTheorems.v
CacheMemory.v
GroupingFacts.v
CacheConfigTheorems.v
CacheWitness.v
StartupTheorems.v
