(* ===== verification/Prelude.v ===== *)
(** * The scheduler and the KV cache of vLLM

    This library verifies the part of vLLM that decides which tokens run in which step and which
    GPU memory block holds their key/value state, under [src/vllm/v1/core]: block hashing, the
    free list, the block pool with its prefix cache, the per-attention-type cache managers, the
    coordinators over several groups, the KV cache manager; the encoder output cache, the
    request queues, the stop conditions, the scheduler; the engine loop around it
    ([src/vllm/v1/engine/core.py]); the second-level cache of blocks in CPU memory
    ([src/vllm/v1/kv_offload]); the configuration of the cache at start-up, from the formats of
    the layers to the views of the workers ([v1/kv_cache_interface.py], the second half of
    [core/kv_cache_utils.py]); and three parts next to it, the block tables of the workers
    ([v1/worker/block_table.py]), the n-gram proposer of draft tokens
    ([v1/spec_decode/ngram_proposer.py]) and the detokenizer ([v1/engine/detokenizer.py]).

    ** The program

    The KV cache is an array of fixed-size blocks.  A request owns, per KV-cache group (a set
    of layers with the same kind of attention), a table of blocks covering its tokens.  Full
    blocks are registered in a prefix cache under a hash of all tokens up to their end, so a
    later request with the same prefix shares them.  Blocks are reference counted; a block
    without references stays registered but becomes a candidate for eviction, kept in a doubly
    linked free list in eviction order.  Sliding-window, chunked and recurrent (mamba) layers
    release blocks that left their window and need only part of a prefix for a hit.

    The scheduler keeps the running requests and two waiting queues.  A step gives tokens to the
    running requests within a budget, preempting the last or the least important request when no
    blocks are left, then admits waiting requests with the prefix the cache holds.  The workers
    run the step; the sampled tokens are appended, drafts that were rejected are rolled back, and
    requests that stop are freed.  The engine interleaves such steps with adding and aborting
    requests, draft tokens, resets and pauses.

    Blocks can be offloaded to CPU memory.  The offloading manager hands out slots of a buffer,
    counts the transfers that read a block, and asks an exchangeable policy (least recently used
    or adaptive replacement) which idle blocks to evict.

    At start-up every worker reports the cache format of its layers and its memory.  The layers
    are grouped so that the layers of a group can share a block table; every group overlays the
    same allocation, in which a block id stands for as many bytes as the largest group needs.
    The number of blocks is that of the smallest worker; a model length left open is fitted to
    the memory by a binary search, and otherwise checked against it.  A physical layout that all
    workers support decides how layers, blocks, heads and states are nested.

    The workers keep the block ids they are sent in tables, split into smaller blocks if the
    attention kernel asks for them, and a kernel computes the memory slot of every scheduled
    token.  Draft tokens can come from an earlier occurrence of the last tokens in the text.  The
    front end turns output tokens into text, looks for stop strings, and streams what no stop
    string can take back.

    ** Files

    - [Prelude.v]: the effect monad [M] (explicit state, Python exceptions as values of
      [exn]), its weakest-precondition rules and tactics, Python list indexing, slices and
      ranges, the hint databases.
    - [MathUtils.v]: [vllm/utils/math_utils.py].
    - [OrderedDict.v]: dictionaries whose order matters; [PyFloat.v]: Python's floats as binary64
      numbers, with the bounds the cache policies need.
    - [Request.v]: [vllm/v1/request.py] with the data of [lora/request.py] and
      [multimodal/inputs.py] it carries.
    - [BlockHash.v]: the hashing half of [core/kv_cache_utils.py]: packed keys, extra keys,
      [hash_block_tokens], the request hasher, coarser views of a hash list.  The digest and
      the hash function are section parameters.
    - [BlockHashFacts.v]: the hash lists of requests, fingerprints, two collisions.
    - [FreeQueue.v], [FreeQueueFacts.v]: [KVCacheBlock] and [FreeKVCacheBlockQueue], the
      linked list over a store of block objects, and its refinement of a plain sequence.
    - [BlockPool.v]: [core/block_pool.py] ([BlockHashToBlockMap], [BlockPool]).
    - [BlockPoolFacts.v], [BlockPoolSpec.v], [BlockPoolTheorems.v]: the pool invariant
      [pool_inv], a specification per operation, reachable states, and the pool's properties.
    - [Managers.v]: [core/single_type_kv_cache_manager.py]; the manager subclasses are the
      constructors of [SpecKind], overridden methods are matches on it.
    - [ManagerFacts.v], [AllocationFacts.v], [ReleaseFacts.v]: the reference accounting
      [group_inv] (the count of a block is the number of its occurrences in the tables and
      pending copies), kept by allocation, admission, release.
    - [HitFacts.v], [WindowFacts.v]: prefix-cache searches and registration masks.
    - [ManagerTheorems.v]: the managers' properties.
    - [EncoderCache.v], [EncoderCacheFacts.v]: [core/encoder_cache_manager.py], the shared cache
      of encoder outputs, its slot accounting and eviction.
    - [RequestQueue.v], [RequestQueueFacts.v]: [core/sched/request_queue.py] with the heapq
      algorithms; the heap refines a sorted list.
    - [SchedUtils.v], [SchedUtilsFacts.v]: [core/sched/utils.py], stop conditions and
      repetition detection.
    - [Coordinator.v]: [core/kv_cache_coordinator.py], the groups of a model on one pool.
    - [CoordinatorFacts.v]: the accounting of all groups together ([coord_inv]), lifted from
      [group_inv] with the other groups as its frame, and the two-phase admission.
    - [SearchFacts.v], [CommonHitFacts.v]: the interface [search_laws] every per-group search
      satisfies, and the fixed-point search proved against it.
    - [RegistrationFacts.v], [CoordinatorSteps.v]: which blocks wait for registration ([reg_ok]),
      kept by every step; extension, trimming, release and registration over all groups.
    - [CoordinatorTheorems.v]: the coordinators' properties.
    - [KVCacheManager.v]: [core/kv_cache_manager.py], with the counters of
      [v1/metrics/stats.py].
    - [KVCacheFacts.v]: the invariant [kvm_inv] and the specification of [allocate_slots] and
      [free]; [KVCacheSteps.v]: construction and the other calls; [KVCacheLookup.v]: what a
      lookup returns is what an admission expects.
    - [KVCacheTheorems.v]: sequences of calls ([reachable]) and the manager's properties.
    - [KVCacheService.v]: the class [KVService], what the KV cache manager promises to the
      scheduler (state predicate and a law per call), and its instance for [KVCacheManager.v].
    - [SchedulerState.v]: configuration, request objects and state of [core/sched/scheduler.py];
      [Scheduler.v]: [schedule] and the functions it calls, with the overrides of
      [core/sched/async_scheduler.py]; [SchedulerUpdate.v]: [update_from_output], adding,
      finishing, drafts, resets, pauses.
    - [SchedulerQueues.v]: the two waiting queues as one list; [SchedulerInv.v]: the invariant
      [sched_inv] (every request in one place, tables of running requests cover their computed
      tokens, others hold nothing); [SchedulerFrame.v]: what a step leaves alone.
    - [SchedulerRequests.v]: adding, finishing, preempting, resetting; [SchedulerSteps.v],
      [SchedulerRunning.v], [SchedulerWaiting.v], [SchedulerSchedule.v]: the budget accounting of
      a step ([balanced], [charged]), its two loops and the whole of [schedule], proved against
      [KVService].
    - [SchedulerTokens.v]: the class [Hashing], what the block hasher promises, and appending
      tokens; [SchedulerProcess.v], [SchedulerLoop.v]: the output of one request and
      [update_from_output].
    - [EngineCore.v], [EngineFacts.v]: [v1/engine/core.py] and its calls against the interfaces.
    - [EngineTheorems.v]: the engine on the real KV cache manager and hasher: sequences of calls
      ([engine_reach]) and their properties.
    - [Offload.v]: keys and results of [v1/kv_offload/base.py], block status, the class
      [CachePolicy] and the two policies of [v1/kv_offload/cpu/policies] (modules [LRU], [ARC]);
      [OffloadManager.v]: [v1/kv_offload/cpu/manager.py] over any policy.
    - [OffloadFacts.v], [OffloadArc.v]: the class [PolicyLaws], what a policy promises to the
      manager, and its instances; [OffloadSteps.v]: the invariant [off_inv] and a specification
      per operation, proved against [PolicyLaws]; [OffloadTheorems.v]: sequences of calls
      ([off_reach]) and the properties.
    - [Detokenizer.v]: [v1/engine/detokenizer.py] and [tokenizers/detokenizer_utils.py]; the
      class [Decoder] is what the subclasses add to the common code.  [DetokenizerFacts.v]: the
      class [DecoderLaws] and the search for stop strings as a scan of the text;
      [DetokenizerTheorems.v]: chunks of tokens, streaming, and both kinds of decoder.
    - [Ngram.v], [NgramFacts.v]: [v1/spec_decode/ngram_proposer.py] and its correctness.
    - [BlockTable.v]: [v1/worker/block_table.py] with its kernel; [BlockTableFacts.v]: tables as
      lists of ids ([table_rep]) and where a position is stored ([slot_in]);
      [BlockTableTheorems.v]: sequences of row operations and the kernel.
    - [LayerSpec.v]: [v1/kv_cache_interface.py], [v1/kv_cache_layout.py] and the registered specs:
      page sizes, merging, uniformity tests, memory of a request, strides.
    - [CacheConfig.v]: the configuration half of [core/kv_cache_utils.py] with the choice of a
      layout ([v1/attention/backends/utils.py]) and the views of [v1/worker/utils.py].
    - [LayoutFacts.v]: the address of a byte of a layer in each layout; [PlacementFacts.v]: the
      plan of a worker as regions and views ([planned], [placed]); [PlacementTheorems.v]:
      views cut into the blocks of the attention kernels ([cuts_view]), and that no two layers
      overlap.
    - [CacheMemory.v]: the need of a request ([need]) and the search for a length;
      [GroupingFacts.v]: which layers the groups have ([covers], [group_inv]);
      [CacheConfigTheorems.v]: all workers together, and the layout; [CacheWitness.v]: concrete
      models, and layers the code does not expect; [StartupTheorems.v]: a new KV cache manager on
      the configured cache.

    ** Modelling choices

    Integers are unbounded as in Python, except the fields of an offloaded block and the entries
    of a worker's block table, which are C integers ([c_int]).  A string is a list of code points.  Block objects are references ([ref]) into a store,
    so aliasing is explicit; dictionaries are [gmap]s, except where iteration order matters.
    An operation is a function from a state to an exception or a value and a new state, with
    the [assert]s, index errors and raises of the source; [wp m Q s] says that [m] returns
    normally with [Q], so every such theorem includes termination without an exception.
    [while] loops are structural where a bound is evident.  The hasher loop runs with the
    number of tokens as fuel, enough since every iteration consumes at least one token; list
    traversals run with the size of the store as fuel, enough since the invariant makes the
    list acyclic; the search for a common hit runs with one more round than its token limit,
    enough since each further round shortens the hit.  The loops of a scheduling step run with
    one more round than there are running (or waiting) requests: each round of the first loop
    moves on or removes a running request, each round of the second takes a request out of the
    queues.  The n-gram search runs with two rounds per token: a round that does not advance
    lowers the length of the current match.  The binary search for a model length runs with that
    length as fuel: every round makes the interval shorter.  The theorems show that [OutOfFuel] never occurs.

    A cache format is a value of [KVCacheSpec] with the subclasses as constructors; its page size
    can fail an assertion, so it is computed in the exception monad.  Views are in bytes: a first
    byte, a shape and strides.  A layer is a name, and a dictionary of layers an association list
    in insertion order.  Block sizes are positive, as the configuration checks; divisions by
    computed page sizes and block counts raise [ZeroDivisionError].

    A request object is its key in [requests]; the queues hold keys.  The order in which a
    Python set is visited is a parameter ([iter_order], [set_order]) of which only the elements
    are assumed; so is the order in which the programs of a kernel run.  The outputs of the workers, the grammars and the draft tokens are arguments;
    the theorems assume that the workers answer for every scheduled request with at most one
    token more than its drafts, as the interface of the model runner documents.

    ** Theorems

    - Hashing: a request holds exactly one chained hash per full block, incrementally or in
      one go; for requests hashed by [request_block_hasher] from construction on ([hashed_by]) and
      under an ideal hash function (injective, never empty, never [NONE_HASH]) equal hashes mean
      equal positions and token prefixes; two requests that should differ but do not are
      exhibited.
    - Free list: every sequence of operations behaves as on a plain sequence; misuse raises.
    - Pool: in every reachable state the free list is the set of unreferenced blocks and the
      prefix index agrees with the blocks; allocation, touching, freeing, lookup,
      registration, reset and copy-on-write moves do what they promise.
    - Managers: if as many blocks are free as predicted, admission and extension cannot fail;
      freeing and trimming account for every reference and respect the attention window;
      masks keep exactly the blocks a search can need.  The searches, at alignments that are
      multiples of the block (so without partial hits), return the longest hit: for full
      attention the longest aligned prefix cached with the block EAGLE drops, if it is used, and
      with any number of decode context ranks; for a sliding window likewise, without context
      parallelism, except that EAGLE at an alignment coarser than a block can lose one alignment
      unit of a prefix shorter than the window ([eagle_loses_aligned_hit]).
    - Coordinators: construction yields a partition of the groups; admission to all groups
      succeeds when the predicted blocks are free; the search for a common hit terminates with
      the longest prefix every group can serve, when no group uses EAGLE, partial hash hits are
      off, there is one decode context rank, at most one attention group is full attention and
      the request has hashes for the whole limit; a second full-attention group is not trimmed,
      and no coordinator can be made for a group with attention sinks.
    - KV cache manager: [allocate_slots] refuses exactly for lack of blocks and otherwise gives
      every group its slots; a lookup and the following admission compose; over any sequence of
      supported calls the counts balance, nothing leaks, no call raises and no table outgrows
      the model length.  Supported are attention groups (full, reference window, sliding
      window, chunked) without sinks, at one decode context rank, with full attention at the
      granularity of the hashes, hits at block boundaries and no EAGLE group in the lookup
      ([lookup_cfg]).
    - Encoder cache: the counters always equal the sizes of the cached and of the unreferenced
      entries; announced allocations succeed; eviction takes unreferenced entries, oldest first.
    - Queues and stop conditions: the priority queue answers as a sorted list; a request stops
      exactly when a stop condition holds; the repetition detector is exact.
    - Scheduler and engine: a step keeps within its budgets, schedules no request twice and gives
      every scheduled request slots for all its tokens; over any sequence of engine calls no call
      raises, every request is in exactly one queue, and no block is held by a request that does
      not run; refused calls change nothing; a request that asks for more [min_tokens] than the
      model length allows is never stopped nor scheduled.  The step is proved for both
      schedulers, the loop with the model output for the synchronous one; the KV cache is a
      supported one (above, so without EAGLE groups), the requests are text or pooling requests,
      without LoRA, and [min_tokens] fits the model length.
    - Offloading: over any sequence of calls and with any policy that keeps [PolicyLaws] no call
      raises, no slot is shared, nothing in use is evicted and the counters are exact; what a
      store evicts and writes, and that it can be read back; LRU refuses a store exactly when it
      must and evicts the least recently used blocks; ARC evicts the oldest blocks of each list,
      and refuses some stores it could grant.
    - Detokenizer: the stop check is a left-to-right scan; several tokens at once give what they
      give one by one; the streamed pieces add up to the final text; incremental decoding gives
      the text of decoding everything.  A decoder is assumed not to raise; decoding in Python is
      proved for tokenizers that satisfy [context_laws]: what tokens add to a text depends on the
      tokens before them (a space, say), but only on a window that itself adds text, which is
      why the code decodes with the tokens from [prefix_offset] on.  The kept end of the prompt
      must carry text that ends in a whole character.
    - N-gram proposer: the search returns what follows the first occurrence of the longest
      repeated suffix, and a batch returns each request's own draft.
    - Block tables: operations on rows refine operations on lists of ids; the kernel stores every
      token at its position in the blocks of its request.  Provided that the positions of a request
      are distinct and a block written to is written by one request at one index
      ([writes_private]), no two tokens share a slot other than the padding slot; other table
      entries may repeat, as the null blocks of a sliding window do.
    - Cache configuration: when the configuration succeeds, every layer of a worker is in exactly
      one of its groups, and the layers of a group need equally many blocks; the grouping itself
      can drop a layer, which an assertion then reports ([grouping_drops_layer]).  For groups that
      list the layers they have specs for, in a layout that is block-compact or with layers of one
      shape, the views of a worker lie in its allocation, no byte of a group has two meanings and
      a byte two groups share is in the same block of both, whatever the kernel block sizes;
      allocation succeeds if no block is split, or in a layer-outermost layout with unpadded pages
      (other layouts refuse to split or, with several heads, run out of bounds:
      [split_heads_misplaced]); a fitted model length is the longest
      that fits; a configuration that succeeds leaves room for the longest request beside the
      null block on every worker, with the same number of blocks on all; a manager made for it lets
      every request up to the model length pass its admission check; a resolved layout is one
      every worker supports.  A pipeline stage without a layer of a group can get memory planned
      for foreign layers, latent layers of different sizes are merged, and two recorded window
      sizes make a test raise.

    ** Not modelled

    The block-lifetime metrics collector and the float usage ratios, event publishing, the
    concurrency figures logged at start-up and cache formats registered by platforms; in the scheduler KV and encoder connectors,
    streaming input, logprobs, routed experts and statistics; in the engine the batch queue of
    pipeline parallelism, data parallelism, sockets and processes; the rest of the front end and
    of the workers, model code, kernels, entry points; tokenizers (parameters); of the offloading the GPU copies, the
    shared memory region and the secondary tiers.  Modelled but not yet part of the
    engine theorems: encoder inputs, LoRA limits, the asynchronous processing of outputs,
    recurrent layers.  The configuration is proved for well-formed formats (positive sizes, a page
    with room for its contents); that grouping keeps them well formed is not. *)

From Stdlib Require Export ZArith Lia.
From Stdlib.Strings Require Export Byte.
From stdpp Require Export base tactics strings list fin_maps sets gmap.

#[global] Open Scope Z_scope.
#[export] Set Default Goal Selector "!".

(** ** Exceptions and the effect monad *)

(** The Python exceptions the modelled code raises or triggers. *)
Inductive exn :=
  | AssertionError | ValueError | RuntimeError | IndexError
  | KeyError | AttributeError | NotImplementedError | OverflowError | TypeError | StopIteration
  | ZeroDivisionError
  | OutOfFuel (** not a Python exception: the fuel given to a modelled [while] loop ran out *).

#[global] Instance exn_eq_dec : EqDecision exn.
Proof. solve_decision. Defined.

(** Code that mutates a state [St] and may raise: the state reached is kept when an
    exception is raised, as in Python. *)
Definition M (St A : Type) : Type := St → (exn + A) * St.

#[global] Instance M_ret {St} : MRet (M St) := λ A a s, (inr a, s).
#[global] Instance M_bind {St} : MBind (M St) := λ A B f m s,
  match m s with
  | (inr a, s') => f a s'
  | (inl e, s') => (inl e, s')
  end.
#[global] Instance M_fmap {St} : FMap (M St) := λ A B f m, a ← m; mret (f a).

Definition raise {St A} (e : exn) : M St A := λ s, (inl e, s).
Definition get {St} : M St St := λ s, (inr s, s).
Definition gets {St A} (f : St → A) : M St A := λ s, (inr (f s), s).
Definition modify {St} (f : St → St) : M St unit := λ s, (inr tt, f s).
(** Python's [assert]. *)
Definition assert {St} (b : bool) : M St unit :=
  if b then mret tt else raise AssertionError.
(** A value that Python obtains by indexing or attribute access and that may be missing. *)
Definition lift_option {St A} (e : exn) (o : option A) : M St A :=
  match o with Some a => mret a | None => raise e end.
(** Pure code that may raise. *)
#[global] Instance result_ret : MRet (sum exn) := λ A a, inr a.
#[global] Instance result_bind : MBind (sum exn) := λ A B f m,
  match m with inr a => f a | inl e => inl e end.
Definition lift_result {St A} (r : exn + A) : M St A := λ s, (r, s).
Definition result_assert (b : bool) : exn + unit := if b then inr tt else inl AssertionError.
(** Before a division by a computed value. *)
Definition result_divisor (b : Z) : exn + unit := if b =? 0 then inl ZeroDivisionError else inr tt.
Definition result_of_option {A} (e : exn) (o : option A) : exn + A :=
  match o with Some a => inr a | None => inl e end.

Definition when {St} (b : bool) (m : M St unit) : M St unit :=
  if b then m else mret tt.

(** [for x in l: body(x)]. *)
Fixpoint for_each {St A} (l : list A) (body : A → M St unit) : M St unit :=
  match l with
  | [] => mret tt
  | x :: l' => body x;; for_each l' body
  end.

(** [acc = a0; for x in l: acc = body(acc, x)]. *)
Fixpoint fold_each {St A B} (l : list A) (body : B → A → M St B) (acc : B) : M St B :=
  match l with
  | [] => mret acc
  | x :: l' => acc' ← body acc x; fold_each l' body acc'
  end.

(** Pure code and stateful code that return normally. *)
Lemma result_bind_inr {A B} (m : exn + A) (f : A → exn + B) b : m ≫= f = inr b ↔ ∃ a, m = inr a ∧ f a = inr b.
Proof. destruct m as [e|a]; simpl; [split; [done|by intros (? & ? & _)]|]. split; [by exists a|]. by intros (? & [= ->] & ?). Qed.
Lemma run_bind_inr {St A B} (m : M St A) (f : A → M St B) s b s' :
  (m ≫= f) s = (inr b, s') ↔ ∃ a s1, m s = (inr a, s1) ∧ f a s1 = (inr b, s').
Proof.
  unfold mbind, M_bind. destruct (m s) as [[e|a] s1].
  - split; [done|]. by intros (? & ? & ? & _).
  - split; [by exists a, s1|]. by intros (? & ? & [= -> ->] & ?).
Qed.

(** Run a computation on a component of the state. *)
Definition zoom {St St' A} (proj : St → St') (upd : St' → St → St) (m : M St' A) : M St A :=
  λ s, let '(r, s') := m (proj s) in (r, upd s' s).

(** ** Weakest preconditions for normal termination *)

(** [wp m Q s]: run from [s], [m] returns normally (no exception) in a state and with
    a value satisfying [Q]. *)
Definition wp {St A} (m : M St A) (Q : A → St → Prop) (s : St) : Prop :=
  ∃ a s', m s = (inr a, s') ∧ Q a s'.

Section wp.
Context {St : Type}.
Implicit Types s : St.

Lemma wp_ret {A} (a : A) (Q : A → St → Prop) s : Q a s → wp (mret a) Q s.
Proof. intros HQ. exists a, s. done. Qed.

Lemma wp_bind {A B} (m : M St A) (f : A → M St B) Q s :
  wp m (λ a s', wp (f a) Q s') s → wp (m ≫= f) Q s.
Proof.
  intros (a & s' & Hm & b & s'' & Hf & HQ). exists b, s''. split; [|done].
  unfold mbind, M_bind. by rewrite Hm.
Qed.

Lemma wp_fmap {A B} (g : A → B) (m : M St A) Q s :
  wp m (λ a s', Q (g a) s') s → wp (g <$> m) Q s.
Proof.
  intros (a & s' & Hm & HQ). exists (g a), s'. split; [|done].
  unfold fmap, M_fmap, mbind, M_bind. by rewrite Hm.
Qed.

Lemma wp_mono {A} (m : M St A) (Q Q' : A → St → Prop) s :
  wp m Q s → (∀ a s', Q a s' → Q' a s') → wp m Q' s.
Proof. intros (a & s' & Hm & HQ) HQQ. exists a, s'. eauto. Qed.

Lemma wp_get Q s : Q s s → wp get Q s.
Proof. intros HQ. by exists s, s. Qed.

Lemma wp_gets {A} (f : St → A) Q s : Q (f s) s → wp (gets f) Q s.
Proof. intros HQ. by exists (f s), s. Qed.

Lemma wp_modify (f : St → St) Q s : Q tt (f s) → wp (modify f) Q s.
Proof. intros HQ. by exists tt, (f s). Qed.

Lemma wp_assert (b : bool) Q s : b = true → Q tt s → wp (assert b) Q s.
Proof. intros -> HQ. by exists tt, s. Qed.

Lemma wp_lift_option {A} e (o : option A) a Q s :
  o = Some a → Q a s → wp (lift_option e o) Q s.
Proof. intros -> HQ. by exists a, s. Qed.

Lemma wp_lift_result {A} (r : exn + A) a Q s :
  r = inr a → Q a s → wp (lift_result r) Q s.
Proof. intros -> HQ. by exists a, s. Qed.

Lemma wp_when (b : bool) (m : M St unit) Q s :
  (b = true → wp m Q s) → (b = false → Q tt s) → wp (when b m) Q s.
Proof. destruct b; intros Ht Hf; [by apply Ht|]. apply wp_ret. by apply Hf. Qed.

(** Loop rule: an invariant indexed by the elements already processed. *)
Lemma wp_for_each_ix {A} (body : A → M St unit) (I : list A → St → Prop) l done' s :
  I done' s →
  (∀ pre x post s', done' ++ l = pre ++ x :: post → I pre s' →
     wp (body x) (λ _ s'', I (pre ++ [x]) s'') s') →
  wp (for_each l body) (λ _ s', I (done' ++ l) s') s.
Proof.
  revert done' s. induction l as [|x l IH]; intros done' s HI Hb; simpl.
  - apply wp_ret. by rewrite app_nil_r.
  - apply wp_bind. eapply wp_mono; [by apply (Hb done' x l)|].
    intros ? s' HI'. change (x :: l) with ([x] ++ l). rewrite (assoc_L (++) done' [x] l).
    apply IH; [done|]. intros pre y post s'' Heq. apply Hb with post.
    by rewrite <-(assoc_L (++)) in Heq.
Qed.

Lemma wp_for_each {A} (body : A → M St unit) (I : list A → St → Prop) l s :
  I [] s →
  (∀ pre x post s', l = pre ++ x :: post → I pre s' →
     wp (body x) (λ _ s'', I (pre ++ [x]) s'') s') →
  wp (for_each l body) (λ _ s', I l s') s.
Proof. intros HI Hb. by apply (wp_for_each_ix body I l []). Qed.

Lemma wp_fold_each_ix {A B} (body : B → A → M St B) (I : list A → B → St → Prop) l done' b s :
  I done' b s →
  (∀ pre x post b' s', done' ++ l = pre ++ x :: post → I pre b' s' →
     wp (body b' x) (λ b'' s'', I (pre ++ [x]) b'' s'') s') →
  wp (fold_each l body b) (λ b' s', I (done' ++ l) b' s') s.
Proof.
  revert done' b s. induction l as [|x l IH]; intros done' b s HI Hb; simpl.
  - apply wp_ret. by rewrite app_nil_r.
  - apply wp_bind. eapply wp_mono; [by apply (Hb done' x l)|].
    intros b' s' HI'. change (x :: l) with ([x] ++ l). rewrite (assoc_L (++) done' [x] l).
    apply IH; [done|]. intros pre y post b'' s'' Heq. apply Hb with post.
    by rewrite <-(assoc_L (++)) in Heq.
Qed.

Lemma wp_fold_each {A B} (body : B → A → M St B) (I : list A → B → St → Prop) l b s :
  I [] b s →
  (∀ pre x post b' s', l = pre ++ x :: post → I pre b' s' →
     wp (body b' x) (λ b'' s'', I (pre ++ [x]) b'' s'') s') →
  wp (fold_each l body b) (λ b' s', I l b' s') s.
Proof. intros HI Hb. by apply (wp_fold_each_ix body I l []). Qed.
End wp.

Lemma wp_zoom {St St' A} (proj : St → St') upd (m : M St' A) Q s :
  wp m (λ a s', Q a (upd s' s)) (proj s) → wp (zoom proj upd m) Q s.
Proof.
  intros (a & s' & Hm & HQ). exists a, (upd s' s). unfold zoom. by rewrite Hm.
Qed.

(** Reduce one effect of the goal [wp m Q s]. *)
Ltac wp_step :=
  lazymatch goal with
  | |- wp (mbind _ _) _ _ => apply wp_bind
  | |- wp (mret _) _ _ => apply wp_ret
  | |- wp (fmap _ _) _ _ => apply wp_fmap
  | |- wp get _ _ => apply wp_get
  | |- wp (gets _) _ _ => apply wp_gets
  | |- wp (modify _) _ _ => apply wp_modify
  | |- wp (zoom _ _ _) _ _ => apply wp_zoom
  end.
Ltac wp_steps := repeat (wp_step; cbn beta).

(** The exceptional outcome, for the theorems about error paths. *)
Definition raises {St A} (m : M St A) (e : exn) (s : St) : Prop := ∃ s', m s = (inl e, s').

(** ** Machine integers *)

(** A signed C integer of the given width. *)
Definition c_int (width n : Z) : Z := (n + 2 ^ (width - 1)) mod 2 ^ width - 2 ^ (width - 1).

Lemma c_int32_id n : - 2 ^ 31 ≤ n < 2 ^ 31 → c_int 32 n = n.
Proof. intros H. unfold c_int. change (32 - 1) with 31. rewrite Z.mod_small; lia. Qed.
Lemma c_int64_id n : - 2 ^ 63 ≤ n < 2 ^ 63 → c_int 64 n = n.
Proof. intros H. unfold c_int. change (64 - 1) with 63. rewrite Z.mod_small; lia. Qed.

(** ** Python lists *)

(** Index [i] of a list as Python reads it: negative indices count from the end. *)
Definition py_index (len i : Z) : option nat :=
  let j := if i <? 0 then i + len else i in
  if (0 <=? j) && (j <? len) then Some (Z.to_nat j) else None.
Definition py_get {A} (l : list A) (i : Z) : option A :=
  j ← py_index (Z.of_nat (length l)) i; l !! j.

(** [l[a:b]] with non-negative bounds. *)
Definition py_slice {A} (l : list A) (a b : Z) : list A :=
  take (Z.to_nat b - Z.to_nat a) (drop (Z.to_nat a) l).

(** [range(a, b)]. *)
Definition py_range (a b : Z) : list Z :=
  (λ i, a + Z.of_nat i) <$> seq 0 (Z.to_nat (b - a)).

(** [range(a, b, s)] for [s > 0], and [range(b - 1, a - 1, -1)]. *)
Definition py_range_step (a b s : Z) : list Z :=
  (λ i, a + Z.of_nat i * s) <$> seq 0 (Z.to_nat ((b - a + s - 1) / s)).
Definition py_range_down (a b : Z) : list Z := rev (py_range a b).

Definition zlen {A} (l : list A) : Z := Z.of_nat (length l).

Lemma zlen_nil {A} : zlen (@nil A) = 0.
Proof. done. Qed.
Lemma zlen_cons {A} (x : A) l : zlen (x :: l) = 1 + zlen l.
Proof. unfold zlen. simpl. lia. Qed.
Lemma filter_all {A} (P : A → Prop) `{∀ x, Decision (P x)} (l : list A) :
  (∀ x, x ∈ l → P x) → filter P l = l.
Proof.
  induction l as [|x l IH]; intros Hl; [done|]. rewrite filter_cons_True by (apply Hl; by left).
  by rewrite IH by (intros y Hy; apply Hl; by right).
Qed.
Lemma zlen_app {A} (l k : list A) : zlen (l ++ k) = zlen l + zlen k.
Proof. unfold zlen. rewrite length_app. lia. Qed.
Lemma zlen_nonneg {A} (l : list A) : 0 ≤ zlen l.
Proof. unfold zlen. lia. Qed.

Lemma py_get_nonneg {A} (l : list A) i : 0 ≤ i → py_get l i = l !! Z.to_nat i.
Proof.
  intros Hi. unfold py_get, py_index. destruct (Z.ltb_spec i 0); [lia|].
  destruct (_ && _) eqn:E; simpl; [done|]. symmetry. apply lookup_ge_None_2.
  apply andb_false_iff in E as [E|E]; [apply Z.leb_gt in E|apply Z.ltb_ge in E]; lia.
Qed.

Lemma elem_of_py_range a b i : i ∈ py_range a b ↔ a ≤ i < b.
Proof.
  unfold py_range. rewrite list_elem_of_fmap. split.
  - intros (j & -> & Hj%elem_of_seq). lia.
  - intros Hi. exists (Z.to_nat (i - a)). rewrite elem_of_seq. lia.
Qed.

Lemma length_py_range a b : length (py_range a b) = Z.to_nat (b - a).
Proof. unfold py_range. by rewrite length_fmap, length_seq. Qed.

Lemma py_range_nil a b : b ≤ a → py_range a b = [].
Proof. intros H. unfold py_range. by replace (Z.to_nat (b - a)) with 0%nat by lia. Qed.

Lemma py_range_cons a b : a < b → py_range a b = a :: py_range (a + 1) b.
Proof.
  intros H. unfold py_range.
  replace (Z.to_nat (b - a)) with (S (Z.to_nat (b - (a + 1)))) by lia.
  simpl. f_equal; [lia|]. rewrite <-fmap_S_seq, <-list_fmap_compose.
  apply list_fmap_ext. intros i x _. simpl. lia.
Qed.

Lemma py_range_snoc a b : a ≤ b → py_range a (b + 1) = py_range a b ++ [b].
Proof.
  intros H. unfold py_range.
  replace (Z.to_nat (b + 1 - a)) with (Z.to_nat (b - a) + 1)%nat by lia.
  rewrite seq_app, fmap_app. simpl. repeat f_equal. lia.
Qed.

(** ** Automation *)

Create HintDb vllm discriminated.
Create Rewrite HintDb zlen.
#[export] Hint Resolve zlen_nonneg : vllm.
#[export] Hint Rewrite @zlen_nil @zlen_cons @zlen_app : zlen.

(** Split a boolean condition of the code into propositions. *)
Ltac bool_hyps :=
  repeat match goal with
  | H : _ && _ = true |- _ => apply andb_prop in H as [? ?]
  | H : _ && _ = false |- _ => apply andb_false_iff in H as [?|?]
  | H : _ || _ = false |- _ => apply orb_false_iff in H as [? ?]
  | H : _ || _ = true |- _ => apply orb_true_iff in H as [?|?]
  | H : negb _ = true |- _ => apply negb_true_iff in H
  | H : negb _ = false |- _ => apply negb_false_iff in H
  | H : (_ <=? _) = true |- _ => apply Z.leb_le in H
  | H : (_ <=? _) = false |- _ => apply Z.leb_gt in H
  | H : (_ <? _) = true |- _ => apply Z.ltb_lt in H
  | H : (_ <? _) = false |- _ => apply Z.ltb_ge in H
  | H : (_ =? _) = true |- _ => apply Z.eqb_eq in H
  | H : (_ =? _) = false |- _ => apply Z.eqb_neq in H
  | H : bool_decide _ = true |- _ => apply bool_decide_eq_true in H
  | H : bool_decide _ = false |- _ => apply bool_decide_eq_false in H
  end.
