(* ===== verification/MathUtils.v ===== *)
(** Integer helpers of [vllm/utils/math_utils.py]: ceiling division, rounding and powers
    of two, with the arithmetic facts the cache managers rely on.  Python integers are
    unbounded, so [Z] is exact; [//] and [%] are [Z.div] and [Z.modulo] (floor division). *)

From S2P Require Import Prelude.

(** [cdiv(a, b) = -(a // -b)]. *)
Definition cdiv (a b : Z) : Z := - (a / - b).

(** [int.bit_length] on non-negative integers. *)
Definition bit_length (n : Z) : Z := if n =? 0 then 0 else Z.log2 (Z.abs n) + 1.

Definition next_power_of_2 (n : Z) : Z := if n <? 1 then 1 else Z.shiftl 1 (bit_length (n - 1)).
Definition round_up (x y : Z) : Z := ((x + y - 1) / y) * y.
Definition round_down (x y : Z) : Z := (x / y) * y.
Definition largest_power_of_2_divisor (n : Z) : Z := Z.land n (- n).

Section cdiv.
Context (b : Z) (Hb : 0 < b).

(** [cdiv] is the least [q] with [a <= q * b]. *)
Lemma cdiv_spec a : a ≤ cdiv a b * b < a + b.
Proof.
  unfold cdiv. pose proof (Z.div_mod a (- b)) as Hdm.
  pose proof (Z.mod_neg_bound a (- b)). nia.
Qed.

Lemma cdiv_unique a q : a ≤ q * b < a + b → cdiv a b = q.
Proof. intros ?. pose proof (cdiv_spec a). nia. Qed.

Lemma cdiv_le_iff a q : cdiv a b ≤ q ↔ a ≤ q * b.
Proof. pose proof (cdiv_spec a). split; nia. Qed.

Lemma cdiv_mono a a' : a ≤ a' → cdiv a b ≤ cdiv a' b.
Proof. intros ?. pose proof (cdiv_spec a). pose proof (cdiv_spec a'). nia. Qed.

Lemma cdiv_nonneg a : 0 ≤ a → 0 ≤ cdiv a b.
Proof. intros ?. pose proof (cdiv_spec a). nia. Qed.

Lemma cdiv_0 : cdiv 0 b = 0.
Proof. apply cdiv_unique. lia. Qed.

Lemma cdiv_mul q : cdiv (q * b) b = q.
Proof. apply cdiv_unique. lia. Qed.

Lemma cdiv_div_le a : a / b ≤ cdiv a b.
Proof. pose proof (cdiv_spec a). pose proof (Z.div_mod a b). pose proof (Z.mod_pos_bound a b). nia. Qed.

Lemma round_up_cdiv x : round_up x b = cdiv x b * b.
Proof.
  unfold round_up. f_equal. symmetry. apply cdiv_unique.
  pose proof (Z.div_mod (x + b - 1) b). pose proof (Z.mod_pos_bound (x + b - 1) b). nia.
Qed.

Lemma round_down_spec x : round_down x b ≤ x < round_down x b + b.
Proof. unfold round_down. pose proof (Z.div_mod x b). pose proof (Z.mod_pos_bound x b). nia. Qed.

Lemma round_down_divide x : (b | round_down x b).
Proof. exists (x / b). done. Qed.

Lemma round_down_greatest x y : (b | x) → x ≤ y → x ≤ round_down y b.
Proof.
  intros [q ->] Hle. unfold round_down. apply Z.mul_le_mono_nonneg_r; [lia|].
  apply Z.div_le_lower_bound; lia.
Qed.
End cdiv.

#[export] Hint Resolve cdiv_nonneg cdiv_mono cdiv_0 cdiv_mul : vllm.

(** [next_power_of_2 n] is the least power of two that is at least [n]. *)
Lemma next_power_of_2_spec n :
  ∃ k, 0 ≤ k ∧ next_power_of_2 n = 2 ^ k ∧ n ≤ 2 ^ k ∧ (∀ j, 0 ≤ j → n ≤ 2 ^ j → k ≤ j).
Proof.
  unfold next_power_of_2, bit_length. destruct (Z.ltb_spec n 1).
  { exists 0. repeat split; [lia..|]. intros; lia. }
  destruct (Z.eqb_spec (n - 1) 0).
  { exists 0. repeat split; [lia|lia|]. intros; lia. }
  rewrite Z.abs_eq by lia. rewrite Z.shiftl_1_l.
  pose proof (Z.log2_spec (n - 1)) as Hl. pose proof (Z.log2_nonneg (n - 1)).
  replace (Z.succ (Z.log2 (n - 1))) with (Z.log2 (n - 1) + 1) in Hl by lia.
  exists (Z.log2 (n - 1) + 1). repeat split; [lia|lia|].
  intros j Hj Hn. destruct (Z.le_gt_cases (Z.log2 (n - 1) + 1) j) as [|Hlt]; [done|].
  pose proof (Z.pow_le_mono_r 2 j (Z.log2 (n - 1))). lia.
Qed.
