(* ===== verification/OrderedDict.v ===== *)
(** Python's insertion-ordered dictionaries ([dict] where the order matters, [OrderedDict]) as
    association lists with distinct keys, oldest entry first. *)

From S2P Require Import Prelude.

Section operations.
Context {K V : Type} `{EqDecision K}.
Implicit Types (d : list (K * V)) (k : K) (v : V).

Definition od_get d k : option V := snd <$> head (filter (λ e, e.1 = k) d).
(** [d.pop(k, None)]. *)
Definition od_del d k : list (K * V) := filter (λ e, e.1 ≠ k) d.
(** [d[k] = v]: an existing key keeps its place. *)
Fixpoint od_set d k v : list (K * V) :=
  match d with
  | [] => [(k, v)]
  | e :: d' => if decide (e.1 = k) then (k, v) :: d' else e :: od_set d' k v
  end.
(** [d.move_to_end(k)]. *)
Definition od_move_to_end d k : exn + list (K * V) :=
  match od_get d k with
  | Some v => inr (od_del d k ++ [(k, v)])
  | None => inl KeyError
  end.
End operations.

Section facts.
Context {K V : Type} `{EqDecision K}.
Implicit Types (d : list (K * V)) (k : K) (v : V).

Lemma od_del_fresh d k : k ∉ d.*1 → od_del d k = d.
Proof.
  intros H. unfold od_del. induction d as [|e d IH]; [done|]. simpl in *.
  apply not_elem_of_cons in H as [H1 H2]. rewrite filter_cons, decide_True by done. by rewrite IH.
Qed.

Lemma elem_of_od_del d k e : e ∈ od_del d k ↔ e ∈ d ∧ e.1 ≠ k.
Proof. unfold od_del. rewrite list_elem_of_filter. tauto. Qed.

Lemma od_del_keys d k : (od_del d k).*1 = filter (λ x, x ≠ k) d.*1.
Proof.
  unfold od_del. induction d as [|e d IH]; [done|]. rewrite fmap_cons, !filter_cons. repeat case_decide; try done.
  by rewrite fmap_cons, IH.
Qed.

Lemma od_del_nodup d k : NoDup d.*1 → NoDup (od_del d k).*1.
Proof.
  unfold od_del. induction d as [|e d IH]; [done|]. simpl. intros [He Hnd]%NoDup_cons.
  rewrite filter_cons. case_decide; [|by apply IH]. simpl. apply NoDup_cons. split; [|by apply IH].
  intros (e' & E & [_ He']%list_elem_of_filter)%list_elem_of_fmap. apply He. rewrite E.
  by apply list_elem_of_fmap_2.
Qed.

Lemma od_get_split d k v :
  od_get d k = Some v ∧ NoDup d.*1 →
  ∃ d1 d2, d = d1 ++ (k, v) :: d2 ∧ od_del d k = d1 ++ d2 ∧ k ∉ (d1 ++ d2).*1.
Proof.
  unfold od_get, od_del. intros [H Hnd]. induction d as [|[k' v'] d IH]; [done|]. simpl in *.
  apply NoDup_cons in Hnd as [Hk Hnd]. rewrite !filter_cons in *. simpl in *.
  destruct (decide (k' = k)) as [->|Hne]; simpl in *.
  - simplify_eq. exists [], d. rewrite decide_False by (intros Hn; by apply Hn).
    fold (od_del d k). rewrite od_del_fresh by done. done.
  - destruct (IH H Hnd) as (d1 & d2 & -> & E & Hn). exists ((k', v') :: d1), d2.
    rewrite decide_True by done. rewrite E. split_and!; [done|done|].
    simpl. apply not_elem_of_cons. done.
Qed.

Lemma od_get_Some d k : k ∈ d.*1 → is_Some (od_get d k).
Proof.
  intros (e & -> & He)%list_elem_of_fmap. unfold od_get.
  destruct (filter (λ x, x.1 = e.1) d) as [|x l] eqn:E; [|by eexists].
  assert (e ∈ filter (λ x, x.1 = e.1) d) as Hin by (apply list_elem_of_filter; done).
  rewrite E in Hin. by apply elem_of_nil in Hin.
Qed.

Lemma od_get_elem d k v : od_get d k = Some v → (k, v) ∈ d.
Proof.
  unfold od_get. intros H. destruct (filter (λ e, e.1 = k) d) as [|e l] eqn:E; [done|]. simpl in H.
  injection H as <-. assert (e ∈ filter (λ e, e.1 = k) d) as Hin by (rewrite E; by left).
  apply list_elem_of_filter in Hin as [<- Hin]. by destruct e.
Qed.

Lemma od_get_in d k v : NoDup d.*1 → (k, v) ∈ d → od_get d k = Some v.
Proof.
  unfold od_get. induction d as [|[k' v'] d IH]; simpl; [by intros _ ?%elem_of_nil|].
  intros [Hn Hnd]%NoDup_cons [[= <- <-]|Hin]%elem_of_cons.
  - by rewrite filter_cons_True.
  - rewrite filter_cons_False; [by apply IH|]. simpl. intros ->. apply Hn. by apply (list_elem_of_fmap_2 fst) in Hin.
Qed.

Lemma od_set_fresh d k v : k ∉ d.*1 → od_set d k v = d ++ [(k, v)].
Proof.
  induction d as [|e d IH]; [done|]. simpl. intros [H1 H2]%not_elem_of_cons.
  rewrite decide_False by done. by rewrite IH.
Qed.

Lemma od_set_keys d k v : k ∈ d.*1 → (od_set d k v).*1 = d.*1.
Proof.
  induction d as [|e d IH]; [by intros ?%elem_of_nil|]. simpl. case_decide as E; [by rewrite <-E|].
  intros [->|H]%elem_of_cons; [done|]. by rewrite !fmap_cons, IH.
Qed.

Lemma od_get_None d k : od_get d k = None ↔ k ∉ d.*1.
Proof.
  split; [|intros Hk; destruct (od_get d k) as [v|] eqn:E; [|done]].
  - intros E Hk. destruct (od_get_Some d k Hk) as [v Ev]. congruence.
  - apply od_get_elem, (list_elem_of_fmap_2 fst) in E. done.
Qed.

Lemma od_get_app d d' k : od_get (d ++ d') k = match od_get d k with Some v => Some v | None => od_get d' k end.
Proof. unfold od_get. rewrite filter_app. by destruct (filter (λ e, e.1 = k) d). Qed.

Lemma od_get_cons k' v d k : od_get ((k', v) :: d) k = if decide (k' = k) then Some v else od_get d k.
Proof. unfold od_get. rewrite filter_cons. simpl. by case_decide. Qed.

Lemma od_get_del d k k' : od_get (od_del d k) k' = if decide (k' = k) then None else od_get d k'.
Proof.
  case_decide as E.
  - subst. apply od_get_None. intros (e & -> & [_ He]%elem_of_od_del)%list_elem_of_fmap. done.
  - unfold od_get, od_del. f_equal. rewrite list_filter_filter_l; [done|]. intros e ->. exact E.
Qed.

Lemma od_get_set d k v k' : od_get (od_set d k v) k' = if decide (k' = k) then Some v else od_get d k'.
Proof.
  induction d as [|[k0 v0] d IH]; cbn [od_set fst].
  - rewrite od_get_cons. by repeat case_decide; subst.
  - destruct (decide (k0 = k)) as [->|E]; rewrite !od_get_cons, ?IH; by repeat case_decide; subst.
Qed.

Lemma od_move_perm d k d' : NoDup d.*1 → od_move_to_end d k = inr d' → d' ≡ₚ d ∧ ∀ k', od_get d' k' = od_get d k'.
Proof.
  unfold od_move_to_end. intros Hn. destruct (od_get d k) as [v|] eqn:E; [|done]. intros [= <-].
  destruct (od_get_split d k v (conj E Hn)) as (d1 & d2 & Ed & Edel & _). split.
  - rewrite Edel, Ed. solve_Permutation.
  - intros k'. rewrite od_get_app, od_get_del, od_get_cons. case_decide as E'; [subst; by rewrite decide_True|].
    rewrite decide_False by done. by destruct (od_get d k').
Qed.

Lemma od_del_perm d k v : NoDup d.*1 → od_get d k = Some v → d ≡ₚ (k, v) :: od_del d k.
Proof.
  intros Hn E. destruct (od_get_split d k v (conj E Hn)) as (d1 & d2 & -> & -> & _). solve_Permutation.
Qed.

Lemma od_get_snoc d k v k' :
  k ∉ d.*1 → od_get (d ++ [(k, v)]) k' = if decide (k' = k) then Some v else od_get d k'.
Proof. intros Hk. by rewrite <-od_set_fresh, od_get_set. Qed.
End facts.
