(* ===== verification/Request.v ===== *)
(** The request object ([vllm/v1/request.py]) and the multi-modal and LoRA metadata it
    carries ([vllm/multimodal/inputs.py], [vllm/lora/request.py]): the fields the cache
    managers, the block hasher and the scheduler utilities read or write, the status
    enumeration with its finish reasons, and the priority order on requests. *)

From S2P Require Import Prelude.

Abbreviation bytes := (list byte).

#[global] Instance byte_eq_dec : EqDecision byte := Byte.byte_eq_dec.
#[global] Instance byte_countable : Countable byte :=
  inj_countable Byte.to_N Byte.of_N Byte.of_to_N.

(** ** Metadata *)

Record LoRARequest := { lora_name : string; lora_int_id : Z }.
Definition adapter_id (l : LoRARequest) : Z := lora_int_id l.
Definition lora_request_name (l : LoRARequest) : string := lora_name l.

Record PlaceholderRange := {
  offset : Z;
  pr_length : Z;
  is_embed : option (list bool);
}.

(** [is_embed.cumsum(dim=0).tolist()]. *)
Fixpoint cumsum (acc : Z) (m : list bool) : list Z :=
  match m with
  | [] => []
  | b :: m' => let acc' := acc + Z.b2z b in acc' :: cumsum acc' m'
  end.
Definition embeds_cumsum (p : PlaceholderRange) : option (list Z) := cumsum 0 <$> is_embed p.

Definition get_num_embeds (p : PlaceholderRange) : Z :=
  match embeds_cumsum p with
  | None => pr_length p
  | Some c => default 0 (last c)
  end.

(** [get_embeds_indices_in_range]; [None] is Python's IndexError. *)
Definition get_embeds_indices_in_range (p : PlaceholderRange) (start_idx end_idx : Z)
    : option (Z * Z) :=
  match embeds_cumsum p with
  | None => Some (start_idx, end_idx)
  | Some c =>
      s ← (if 0 <? start_idx then py_get c (start_idx - 1) else Some 0);
      e ← (if 0 <? end_idx then py_get c (end_idx - 1) else Some 0);
      Some (s, e)
  end.

Record MultiModalFeatureSpec := { identifier : string; mm_position : PlaceholderRange }.

(** ** Status *)

Inductive RequestStatus :=
  | WAITING | WAITING_FOR_STRUCTURED_OUTPUT_GRAMMAR | WAITING_FOR_REMOTE_KVS
  | WAITING_FOR_STREAMING_REQ | RUNNING | PREEMPTED
  | FINISHED_STOPPED | FINISHED_LENGTH_CAPPED | FINISHED_ABORTED
  | FINISHED_IGNORED | FINISHED_ERROR | FINISHED_REPETITION.

#[global] Instance status_eq_dec : EqDecision RequestStatus.
Proof. solve_decision. Defined.

(** [enum.auto()] numbers the members from 1 in declaration order. *)
Definition status_value (s : RequestStatus) : Z :=
  match s with
  | WAITING => 1 | WAITING_FOR_STRUCTURED_OUTPUT_GRAMMAR => 2
  | WAITING_FOR_REMOTE_KVS => 3 | WAITING_FOR_STREAMING_REQ => 4
  | RUNNING => 5 | PREEMPTED => 6 | FINISHED_STOPPED => 7
  | FINISHED_LENGTH_CAPPED => 8 | FINISHED_ABORTED => 9
  | FINISHED_IGNORED => 10 | FINISHED_ERROR => 11 | FINISHED_REPETITION => 12
  end.

Definition status_is_finished (s : RequestStatus) : bool :=
  status_value PREEMPTED <? status_value s.

Inductive FinishReason := STOP | LENGTH | ABORT | ERROR | REPETITION.

(** [_FINISHED_REASON_MAP.get(status)]. *)
Definition status_get_finished_reason (s : RequestStatus) : option FinishReason :=
  match s with
  | FINISHED_STOPPED => Some STOP
  | FINISHED_LENGTH_CAPPED => Some LENGTH
  | FINISHED_ABORTED => Some ABORT
  | FINISHED_IGNORED => Some LENGTH
  | FINISHED_ERROR => Some ERROR
  | WAITING_FOR_STREAMING_REQ => Some STOP
  | FINISHED_REPETITION => Some REPETITION
  | _ => None
  end.

(** ** The request *)

Record RepetitionDetectionParams := {
  max_pattern_size : Z; min_pattern_size : Z; min_count : Z }.

Record SamplingParams := {
  sp_max_tokens : option Z;
  sp_structured_outputs : bool; (** some structured-output constraint is set *)
  min_tokens : Z;
  eos_token_id : option Z;
  stop_token_ids : list Z; (** [sampling_params.stop_token_ids or ()] *)
  repetition_detection : option RepetitionDetectionParams;
  sp_skip_reading_prefix_cache : option bool;
  sp_kv_cache_report_mode : option string; (** [extra_args.get("kv_cache_report_mode")] *)
}.
Record PoolingParams := { pp_skip_reading_prefix_cache : option bool }.

Inductive StopReason := StopToken (t : Z) | StopString (s : string).

Record Request := mkRequest {
  request_id : string;
  priority : Z;
  arrival_time : Z;
  sampling_params : option SamplingParams;
  pooling_params : option PoolingParams;
  max_tokens : Z;
  num_prompt_tokens : Z;
  _output_token_ids : list Z;
  _all_token_ids : list Z;
  spec_token_ids : list Z;
  num_computed_tokens : Z;
  num_preemptions : Z;
  mm_features : list MultiModalFeatureSpec;
  lora_request : option LoRARequest;
  cache_salt : option string;
  prompt_embeds : option (list bytes); (** the tensor, as the raw bytes of its rows *)
  block_hashes : list bytes;
  shared_prefix_boundary : Z;
  status : RequestStatus;
  stop_reason : option StopReason;
  num_in_flight_tokens : Z;
  kv_cache_report_mode : string;
}.

Definition num_tokens (r : Request) : Z := zlen (_all_token_ids r).
Definition num_tokens_with_spec (r : Request) : Z :=
  zlen (_all_token_ids r) + zlen (spec_token_ids r).
Definition num_output_tokens (r : Request) : Z := zlen (_output_token_ids r).
Definition num_encoder_inputs (r : Request) : Z := zlen (mm_features r).
Definition has_encoder_inputs (r : Request) : bool := 0 <? num_encoder_inputs r.

Definition get_skip_reading_prefix_cache (r : Request) : bool :=
  match sampling_params r ≫= sp_skip_reading_prefix_cache with
  | Some b => b
  | None => match pooling_params r ≫= pp_skip_reading_prefix_cache with
            | Some b => b
            | None => false
            end
  end.

Definition is_finished (r : Request) : bool := status_is_finished (status r).
Definition get_finished_reason (r : Request) : option FinishReason :=
  status_get_finished_reason (status r).

(** [assert input_id < len(self.mm_features)], then [self.mm_features[input_id]]: a
    negative index counts from the end. *)
Definition get_num_encoder_embeds (r : Request) (input_id : Z) : exn + Z :=
  result_assert (input_id <? zlen (mm_features r)) ≫= λ _,
  f ← result_of_option IndexError (py_get (mm_features r) input_id);
  mret (get_num_embeds (mm_position f)).

Definition set_block_hashes (r : Request) (hs : list bytes) : Request :=
  {| request_id := request_id r; priority := priority r; arrival_time := arrival_time r;
     sampling_params := sampling_params r; pooling_params := pooling_params r;
     max_tokens := max_tokens r; num_prompt_tokens := num_prompt_tokens r;
     _output_token_ids := _output_token_ids r; _all_token_ids := _all_token_ids r;
     spec_token_ids := spec_token_ids r; num_computed_tokens := num_computed_tokens r;
     num_preemptions := num_preemptions r; mm_features := mm_features r;
     lora_request := lora_request r; cache_salt := cache_salt r;
     prompt_embeds := prompt_embeds r; block_hashes := hs;
     shared_prefix_boundary := shared_prefix_boundary r; status := status r;
     stop_reason := stop_reason r; num_in_flight_tokens := num_in_flight_tokens r;
     kv_cache_report_mode := kv_cache_report_mode r |}.

Definition set_tokens (r : Request) (out all : list Z) : Request :=
  {| request_id := request_id r; priority := priority r; arrival_time := arrival_time r;
     sampling_params := sampling_params r; pooling_params := pooling_params r;
     max_tokens := max_tokens r; num_prompt_tokens := num_prompt_tokens r;
     _output_token_ids := out; _all_token_ids := all;
     spec_token_ids := spec_token_ids r; num_computed_tokens := num_computed_tokens r;
     num_preemptions := num_preemptions r; mm_features := mm_features r;
     lora_request := lora_request r; cache_salt := cache_salt r;
     prompt_embeds := prompt_embeds r; block_hashes := block_hashes r;
     shared_prefix_boundary := shared_prefix_boundary r; status := status r;
     stop_reason := stop_reason r; num_in_flight_tokens := num_in_flight_tokens r;
     kv_cache_report_mode := kv_cache_report_mode r |}.

Definition set_status (r : Request) (st : RequestStatus) (why : option StopReason) : Request :=
  {| request_id := request_id r; priority := priority r; arrival_time := arrival_time r;
     sampling_params := sampling_params r; pooling_params := pooling_params r;
     max_tokens := max_tokens r; num_prompt_tokens := num_prompt_tokens r;
     _output_token_ids := _output_token_ids r; _all_token_ids := _all_token_ids r;
     spec_token_ids := spec_token_ids r; num_computed_tokens := num_computed_tokens r;
     num_preemptions := num_preemptions r; mm_features := mm_features r;
     lora_request := lora_request r; cache_salt := cache_salt r;
     prompt_embeds := prompt_embeds r; block_hashes := block_hashes r;
     shared_prefix_boundary := shared_prefix_boundary r; status := st;
     stop_reason := why; num_in_flight_tokens := num_in_flight_tokens r;
     kv_cache_report_mode := kv_cache_report_mode r |}.

(** [update_block_hashes] extends [block_hashes] with what the hasher returns; the hasher
    is the optional callable stored in [_block_hasher]. *)
Definition update_block_hashes (hasher : option (Request → exn + list bytes)) (r : Request)
    : exn + Request :=
  match hasher with
  | None => mret r
  | Some h => new ← h r; mret (set_block_hashes r (block_hashes r ++ new))
  end.

(** [append_output_token_ids] (a single token is the one-element list). *)
Definition append_output_token_ids (hasher : option (Request → exn + list bytes))
    (token_ids : list Z) (r : Request) : exn + Request :=
  update_block_hashes hasher
    (set_tokens r (_output_token_ids r ++ token_ids) (_all_token_ids r ++ token_ids)).

(** [length_from_prompt_token_ids_or_embeds] of [vllm/utils/__init__.py]. *)
Definition length_from_prompt_token_ids_or_embeds (toks : option (list Z))
    (embeds : option (list bytes)) : exn + Z :=
  match toks, embeds with
  | None, None => inl ValueError
  | None, Some e => inr (zlen e)
  | Some t, None => inr (zlen t)
  | Some t, Some e => if zlen e =? zlen t then inr (zlen t) else inl ValueError
  end.

(** The constructor arguments that reach a field of [Request]. *)
Record RequestArgs := {
  a_request_id : string;
  a_prompt_token_ids : option (list Z);
  a_sampling_params : option SamplingParams;
  a_pooling_params : option PoolingParams;
  a_arrival_time : Z;
  a_prompt_embeds : option (list bytes);
  a_prompt_is_token_ids : option (list bool);
  a_mm_features : list MultiModalFeatureSpec;
  a_lora_request : option LoRARequest;
  a_cache_salt : option string;
  a_priority : Z;
}.

(** [max_tokens] and the initial status: pooling requests decode one token; generative
    requests need [max_tokens] and wait for the grammar when output is constrained. *)
Definition init_max_tokens_status (a : RequestArgs) : exn + (Z * RequestStatus) :=
  match a_pooling_params a, a_sampling_params a with
  | Some _, _ => inr (1, WAITING)
  | None, Some sp =>
      m ← result_of_option AssertionError (sp_max_tokens sp);
      mret (m, if sp_structured_outputs sp
               then WAITING_FOR_STRUCTURED_OUTPUT_GRAMMAR else WAITING)
  | None, None => inl ValueError
  end.

(** [_all_token_ids] at construction: zeros without token ids, the prompt itself, or, for a
    mixed prompt, the prompt with the positions covered by [prompt_embeds] zeroed. *)
Definition init_all_token_ids (a : RequestArgs) (n : Z) : list Z :=
  match a_prompt_token_ids a, a_prompt_is_token_ids a with
  | None, _ => replicate (Z.to_nat n) 0
  | Some t, None => t
  | Some t, Some is_tok => zip_with (λ t b, if (b : bool) then t else 0) t is_tok
  end.

(** [Request.__init__]. *)
Definition Request_init (hasher : option (Request → exn + list bytes)) (a : RequestArgs)
    : exn + Request :=
  mt ← init_max_tokens_status a;
  n ← length_from_prompt_token_ids_or_embeds (a_prompt_token_ids a) (a_prompt_embeds a);
  update_block_hashes hasher
    {| request_id := a_request_id a; priority := a_priority a;
       arrival_time := a_arrival_time a;
       sampling_params := a_sampling_params a; pooling_params := a_pooling_params a;
       max_tokens := mt.1; num_prompt_tokens := n;
       _output_token_ids := []; _all_token_ids := init_all_token_ids a n;
       spec_token_ids := []; num_computed_tokens := 0;
       num_preemptions := 0; mm_features := a_mm_features a;
       lora_request := a_lora_request a; cache_salt := a_cache_salt a;
       prompt_embeds := a_prompt_embeds a; block_hashes := [];
       shared_prefix_boundary := 0; status := mt.2; stop_reason := None;
       num_in_flight_tokens := 0;
       kv_cache_report_mode :=
         match a_pooling_params a with
         | Some _ => "incremental"
         | None => default "incremental" (a_sampling_params a ≫= sp_kv_cache_report_mode)
         end |}.

(** [Request.__lt__] of the objects [a] and [b] at the addresses [ia] and [ib] ([id()]):
    priority, then arrival time, then request id, then address. *)
Definition request_lt (ia : Z) (a : Request) (ib : Z) (b : Request) : bool :=
  if negb (priority a =? priority b) then priority a <? priority b
  else if negb (arrival_time a =? arrival_time b) then arrival_time a <? arrival_time b
  else if negb (bool_decide (request_id a = request_id b))
  then String.ltb (request_id a) (request_id b)
  else ia <? ib.
