(* ===== verification/BlockHash.v ===== *)
(** Block hashing for the prefix cache ([vllm/v1/core/kv_cache_utils.py]): the packed
    (hash, group id) keys, the extra keys of a block, the chained block hashes of a request
    and the views of those hashes at coarser block sizes.

    The hash function, SHA-256 and the process-wide [NONE_HASH] come from libraries and
    configuration and are section variables. *)

From S2P Require Import Prelude MathUtils Request.

(** ** Packed keys *)

(** One byte of a non-negative integer. *)
Definition byte_of_Z (z : Z) : byte := default x00 (Byte.of_N (Z.to_N (z mod 256))).
Definition Z_of_byte (b : byte) : Z := Z.of_N (Byte.to_N b).

(** [g.to_bytes(4, "big", signed=False)]. *)
Definition to_bytes4 (g : Z) : exn + bytes :=
  if (0 <=? g) && (g <? 2 ^ 32)
  then inr [byte_of_Z (Z.shiftr g 24); byte_of_Z (Z.shiftr g 16);
            byte_of_Z (Z.shiftr g 8); byte_of_Z g]
  else inl OverflowError.

(** [int.from_bytes(bs, "big", signed=False)]. *)
Definition from_bytes_big (bs : bytes) : Z := foldl (λ acc b, acc * 256 + Z_of_byte b) 0 bs.

Definition make_block_hash_with_group_id (block_hash : bytes) (group_id : Z) : exn + bytes :=
  g ← to_bytes4 group_id; mret (block_hash ++ g).

(** [key[:-4]] and [key[-4:]]. *)
Definition get_block_hash (key : bytes) : bytes := take (length key - 4) key.
Definition get_group_id (key : bytes) : Z := from_bytes_big (drop (length key - 4) key).

(** [ExternalBlockHash = bytes | int]. *)
Inductive ExternalBlockHash := ExtBytes (b : bytes) | ExtInt (z : Z).

(** [use_int] is the environment switch VLLM_KV_EVENTS_USE_INT_BLOCK_HASHES. *)
Definition maybe_convert_block_hash (use_int : bool) (hash_bytes : bytes) : ExternalBlockHash :=
  if negb use_int then ExtBytes hash_bytes
  else ExtInt (Z.land (from_bytes_big hash_bytes) (Z.shiftl 1 64 - 1)).

(** ** Extra keys *)

(** An element of the extra-key tuple: a multi-modal [(identifier, offset)] pair, a string
    (LoRA name or cache salt) or a prompt-embedding digest. *)
Inductive ExtraKey :=
  | EKMM (ident : string) (off : Z)
  | EKStr (s : string)
  | EKBytes (b : bytes).

#[global] Instance extra_key_eq_dec : EqDecision ExtraKey.
Proof. solve_decision. Defined.
#[global] Instance extra_key_countable : Countable ExtraKey.
Proof.
  refine (inj_countable'
    (λ k, match k with
          | EKMM i o => inl (i, o) | EKStr s => inr (inl s) | EKBytes b => inr (inr b) end)
    (λ x, match x with
          | inl (i, o) => EKMM i o | inr (inl s) => EKStr s | inr (inr b) => EKBytes b end) _).
  by intros [].
Defined.

(** The [while] loop of [_gen_mm_extra_hash_keys], on the features from [curr_mm_idx] on. *)
Fixpoint gen_mm_loop (feats : list MultiModalFeatureSpec) (start_token_idx end_token_idx : Z)
    (curr_mm_idx : Z) : list ExtraKey * Z :=
  match feats with
  | [] => ([], curr_mm_idx)
  | f :: feats' =>
      let off := offset (mm_position f) in
      let len := pr_length (mm_position f) in
      if off <? end_token_idx then
        if off + len <=? start_token_idx then
          gen_mm_loop feats' start_token_idx end_token_idx (curr_mm_idx + 1)
        else
          let key := EKMM (identifier f) (off - start_token_idx) in
          if off + len <=? end_token_idx then
            let '(keys, idx) :=
              gen_mm_loop feats' start_token_idx end_token_idx (curr_mm_idx + 1) in
            (key :: keys, idx)
          else ([key], curr_mm_idx)
      else ([], curr_mm_idx)
  end.

Definition _gen_mm_extra_hash_keys (request : Request)
    (start_token_idx end_token_idx start_mm_idx : Z) : exn + (list ExtraKey * Z) :=
  match last (mm_features request) with
  | None => inr ([], start_mm_idx)
  | Some f =>
      let last_pos := mm_position f in
      if offset last_pos + pr_length last_pos <=? start_token_idx
      then inr ([], start_mm_idx)
      else
        start ← (if start_mm_idx <? 0
                 then result_assert (- start_mm_idx <=? zlen (mm_features request)) ≫= λ _,
                      inr (zlen (mm_features request) + start_mm_idx)
                 else inr start_mm_idx);
        inr (gen_mm_loop (drop (Z.to_nat start) (mm_features request))
               start_token_idx end_token_idx start)
  end.

Definition _gen_lora_extra_hash_keys (request : Request) : list ExtraKey :=
  match lora_request request with
  | None => []
  | Some l => [EKStr (lora_name l)]
  end.

(** [[request.cache_salt] if (start_token_idx == 0 and request.cache_salt) else []]; the
    empty string is falsy. *)
Definition cache_salt_keys (request : Request) (start_token_idx : Z) : list ExtraKey :=
  match cache_salt request with
  | Some s => if (start_token_idx =? 0) && negb (bool_decide (s = ""%string))
              then [EKStr s] else []
  | None => []
  end.

Section hashing.
(** [hashlib.sha256(data).digest()] *)
Context (sha256 : bytes → bytes).
(** The configured hash of a (parent hash, token ids, extra keys) tuple. *)
Context (hash_function : bytes * list Z * option (list ExtraKey) → bytes).
Context (NONE_HASH : bytes).

(** The digest of a slice of the prompt embeddings: [tensor_data] is the raw bytes of
    the flattened rows. *)
Definition embeds_digest (embeds : list bytes) (start_token_idx end_token_idx : Z) : bytes :=
  sha256 (concat (py_slice embeds start_token_idx end_token_idx)).

(** [_gen_prompt_embeds_extra_hash_keys] with its per-request memo table
    [_prompt_embeds_per_block_hashes]. *)
Definition _gen_prompt_embeds_extra_hash_keys (request : Request) (memo : gmap (Z * Z) bytes)
    (start_token_idx end_token_idx : Z) : list ExtraKey * gmap (Z * Z) bytes :=
  match prompt_embeds request with
  | None => ([], memo)
  | Some e =>
      match memo !! (start_token_idx, end_token_idx) with
      | Some h => ([EKBytes h], memo)
      | None => let h := embeds_digest e start_token_idx end_token_idx in
                ([EKBytes h], <[(start_token_idx, end_token_idx) := h]> memo)
      end
  end.

(** The keys it returns when the memo table is consistent (see [memo_transparent]): the
    rest of the model uses this form, since [prompt_embeds] is never reassigned. *)
Definition prompt_embeds_keys (request : Request) (start_token_idx end_token_idx : Z)
    : list ExtraKey :=
  match prompt_embeds request with
  | None => []
  | Some e => [EKBytes (embeds_digest e start_token_idx end_token_idx)]
  end.

Definition generate_block_hash_extra_keys (request : Request)
    (start_token_idx end_token_idx start_mm_idx : Z)
    : exn + (option (list ExtraKey) * Z) :=
  mm ← _gen_mm_extra_hash_keys request start_token_idx end_token_idx start_mm_idx;
  let extra_keys :=
    _gen_lora_extra_hash_keys request ++ mm.1 ++ cache_salt_keys request start_token_idx
    ++ prompt_embeds_keys request start_token_idx end_token_idx in
  mret (if decide (extra_keys = []) then None else Some extra_keys, mm.2).

(** ** Chained block hashes *)

(** [if not parent_block_hash: parent_block_hash = NONE_HASH] (empty bytes are falsy). *)
Definition hash_block_tokens (parent_block_hash : option bytes) (toks : list Z)
    (extra_keys : option (list ExtraKey)) : bytes :=
  let parent := match parent_block_hash with
                | Some (b :: bs) => b :: bs
                | _ => NONE_HASH
                end in
  hash_function (parent, toks, extra_keys).

(** The [while True] loop of [request_block_hasher]. *)
Fixpoint hasher_loop (fuel : nat) (hash_block_size : Z) (request : Request)
    (start_token_idx curr_mm_idx : Z) (prev : option bytes) : exn + list bytes :=
  match fuel with
  | O => inl OutOfFuel
  | S fuel' =>
      let end_token_idx := start_token_idx + hash_block_size in
      if num_tokens request <? end_token_idx then mret []
      else
        ek ← generate_block_hash_extra_keys request start_token_idx end_token_idx curr_mm_idx;
        let block_tokens := py_slice (_all_token_ids request) start_token_idx end_token_idx in
        let block_hash := hash_block_tokens prev block_tokens ek.1 in
        rest ← hasher_loop fuel' hash_block_size request end_token_idx ek.2 (Some block_hash);
        mret (block_hash :: rest)
  end.

(** [get_request_block_hasher(hash_block_size, hash_function)], applied to a request.
    The loop makes at most one iteration per token when [hash_block_size > 0]. *)
Definition request_block_hasher (hash_block_size : Z) (request : Request) : exn + list bytes :=
  let start_token_idx := zlen (block_hashes request) * hash_block_size in
  if num_tokens request <? start_token_idx + hash_block_size then mret []
  else
    let curr_mm_idx := if 0 <? start_token_idx then -1 else 0 in
    hasher_loop (S (length (_all_token_ids request))) hash_block_size request
      start_token_idx curr_mm_idx (last (block_hashes request)).
End hashing.

(** ** Views at a coarser block size *)

(** [BlockHashList = list[BlockHash] | BlockHashListWithBlockSize]. *)
Inductive BlockHashList :=
  | RawHashes (hs : list bytes)
  | ScaledHashes (hs : list bytes) (scale_factor : Z).

(** [BlockHashListWithBlockSize.__init__]. *)
Definition BlockHashListWithBlockSize (hs : list bytes) (hash_block_size target_block_size : Z)
    : exn + BlockHashList :=
  result_assert (target_block_size mod hash_block_size =? 0) ≫= λ _,
  inr (ScaledHashes hs (target_block_size / hash_block_size)).

Definition bhl_len (b : BlockHashList) : Z :=
  match b with
  | RawHashes hs => zlen hs
  | ScaledHashes hs k => zlen hs / k
  end.

(** [_get_value_at] (and plain list indexing), for [idx >= 0]. *)
Definition bhl_get (b : BlockHashList) (idx : Z) : option bytes :=
  match b with
  | RawHashes hs => py_get hs idx
  | ScaledHashes hs k => py_get hs ((idx + 1) * k - 1)
  end.

Definition resolve_block_hashes (b : BlockHashList) (hash_block_size block_size : Z)
    (supports_fine_grained_hash_lookup : bool) (alignment_tokens : option Z)
    : exn + BlockHashList :=
  if block_size =? hash_block_size then mret b
  else match b with
  | ScaledHashes _ k =>
      result_assert (k =? block_size / hash_block_size) ≫= λ _, mret b
  | RawHashes hs =>
      let fine := match alignment_tokens with
                  | Some a => (a <? block_size) && (block_size mod a =? 0)
                  | None => false
                  end in
      if supports_fine_grained_hash_lookup && fine then mret b
      else result_assert (block_size mod hash_block_size =? 0) ≫= λ _,
           BlockHashListWithBlockSize hs hash_block_size block_size
  end.
