(* ===== verification/BlockHashFacts.v ===== *)
(** Theorems about block hashing: the packed keys round-trip, the hasher terminates with one
    hash per full block and keeps the chain invariant, a block hash fingerprints the whole
    token prefix, and two places where the extra keys do not separate requests. *)

From S2P Require Import Prelude MathUtils Request BlockHash.

(** ** Packed keys *)

Lemma Z_of_byte_of_Z z : Z_of_byte (byte_of_Z z) = z mod 256.
Proof.
  unfold Z_of_byte, byte_of_Z. pose proof (Z.mod_pos_bound z 256).
  destruct (Byte.of_N (Z.to_N (z mod 256))) as [b|] eqn:E; simpl.
  - apply Byte.to_of_N in E. rewrite E. lia.
  - apply Byte.of_N_None_iff in E. lia.
Qed.

Lemma to_bytes4_length g b : to_bytes4 g = inr b → length b = 4%nat.
Proof. unfold to_bytes4. case_match; intros; by simplify_eq. Qed.

Lemma from_to_bytes4 g b : to_bytes4 g = inr b → from_bytes_big b = g.
Proof.
  unfold to_bytes4. destruct (_ && _) eqn:E; [|done]. intros [= <-]. bool_hyps.
  unfold from_bytes_big. simpl. rewrite !Z_of_byte_of_Z, !Z.shiftr_div_pow2 by lia.
  change (2 ^ 24) with (256 * 256 * 256). change (2 ^ 16) with (256 * 256).
  change (2 ^ 8) with 256. change (2 ^ 32) with 4294967296 in *.
  rewrite <-!Z.div_div by lia.
  Z.to_euclidean_division_equations. lia.
Qed.

(** Splitting a packed key recovers both components. *)
Lemma unpack_key h g key :
  make_block_hash_with_group_id h g = inr key →
  get_block_hash key = h ∧ get_group_id key = g.
Proof.
  unfold make_block_hash_with_group_id. destruct (to_bytes4 g) as [|b] eqn:E; [done|].
  intros [= <-]. pose proof (to_bytes4_length _ _ E) as Hl.
  unfold get_block_hash, get_group_id. rewrite length_app, Hl.
  replace (length h + 4 - 4)%nat with (length h) by lia.
  rewrite take_app_length, drop_app_length. eauto using from_to_bytes4.
Qed.

Lemma make_key_inj h g h' g' key :
  make_block_hash_with_group_id h g = inr key →
  make_block_hash_with_group_id h' g' = inr key → h = h' ∧ g = g'.
Proof. intros [] %unpack_key [] %unpack_key. by subst. Qed.

(** Packing succeeds exactly on the group ids that fit in four bytes. *)
Lemma make_key_ok h g :
  0 ≤ g < 2 ^ 32 → ∃ key, make_block_hash_with_group_id h g = inr key.
Proof.
  intros Hg. unfold make_block_hash_with_group_id, to_bytes4.
  destruct (_ && _) eqn:E; [by eexists|]. bool_hyps; lia.
Qed.

Lemma make_key_overflow h g :
  ¬ (0 ≤ g < 2 ^ 32) → make_block_hash_with_group_id h g = inl OverflowError.
Proof.
  intros Hg. unfold make_block_hash_with_group_id, to_bytes4.
  destruct (_ && _) eqn:E; [|done]. bool_hyps; lia.
Qed.

(** ** The memo table of the prompt-embedding digests *)

Section hashing_facts.
Context (sha256 : bytes → bytes).
Context (hash_function : bytes * list Z * option (list ExtraKey) → bytes).
Context (NONE_HASH : bytes).

Abbreviation gen_keys := (generate_block_hash_extra_keys sha256).
Abbreviation hbt := (hash_block_tokens hash_function NONE_HASH).
Abbreviation loop := (hasher_loop sha256 hash_function NONE_HASH).
Abbreviation hasher := (request_block_hasher sha256 hash_function NONE_HASH).

(** Every entry of the memo table is the digest of the slice it is stored under. *)
Definition memo_ok (r : Request) (memo : gmap (Z * Z) bytes) : Prop :=
  ∀ s e h, memo !! (s, e) = Some h →
    ∃ emb, prompt_embeds r = Some emb ∧ h = embeds_digest sha256 emb s e.

Lemma memo_transparent r memo s e :
  memo_ok r memo →
  (_gen_prompt_embeds_extra_hash_keys sha256 r memo s e).1 = prompt_embeds_keys sha256 r s e
  ∧ memo_ok r (_gen_prompt_embeds_extra_hash_keys sha256 r memo s e).2.
Proof.
  intros Hm. unfold _gen_prompt_embeds_extra_hash_keys, prompt_embeds_keys.
  destruct (prompt_embeds r) as [emb|] eqn:He; simpl; [|done].
  destruct (memo !! (s, e)) as [h|] eqn:Hl; simpl.
  - split; [|done]. destruct (Hm _ _ _ Hl) as (emb' & ? & ->). by simplify_eq.
  - split; [done|]. intros s' e' h Hin. exists emb. split; [done|].
    apply lookup_insert_Some in Hin as [[? <-]|[_ Hin]]; [by simplify_eq|].
    destruct (Hm _ _ _ Hin) as (emb' & ? & ->). by simplify_eq.
Qed.

(** ** Termination and shape of the hasher *)

Lemma gen_mm_loop_idx feats s e i : i ≤ (gen_mm_loop feats s e i).2.
Proof.
  revert i. induction feats as [|f feats IH]; intros i; simpl; [lia|].
  specialize (IH (i + 1)).
  repeat case_match; simplify_eq/=; lia.
Qed.

Lemma gen_mm_total r s e i :
  -1 ≤ i → ∃ ks j, _gen_mm_extra_hash_keys r s e i = inr (ks, j) ∧ -1 ≤ j.
Proof.
  intros Hi. unfold _gen_mm_extra_hash_keys.
  destruct (last (mm_features r)) as [f|] eqn:Hlast; [|by eauto].
  case_match; [by eauto|].
  assert (0 < zlen (mm_features r)).
  { destruct (mm_features r); [done|]. rewrite zlen_cons. pose proof (zlen_nonneg l). lia. }
  destruct (Z.ltb_spec i 0).
  - unfold result_assert. destruct (Z.leb_spec (- i) (zlen (mm_features r))); [|lia].
    unfold mbind; simpl.
    pose proof (gen_mm_loop_idx (drop (Z.to_nat (zlen (mm_features r) + i)) (mm_features r))
      s e (zlen (mm_features r) + i)).
    eexists _, _. split; [by rewrite <-surjective_pairing|lia].
  - pose proof (gen_mm_loop_idx (drop (Z.to_nat i) (mm_features r)) s e i).
    unfold mbind; simpl. eexists _, _. split; [by rewrite <-surjective_pairing|lia].
Qed.

Lemma gen_keys_total r s e i :
  -1 ≤ i → ∃ ek j, gen_keys r s e i = inr (ek, j) ∧ -1 ≤ j.
Proof.
  intros Hi. destruct (gen_mm_total r s e i Hi) as (ks & j & Hg & Hj).
  unfold generate_block_hash_extra_keys. rewrite Hg. eexists _, j. done.
Qed.

(** Blocks of [hs] are chained over the tokens of [r] from [start], the first one onto
    [prev]. *)
Definition chained (hbs : Z) (r : Request) (start : Z) (prev : option bytes)
    (hs : list bytes) : Prop :=
  ∀ j h, hs !! j = Some h → ∃ ek i i',
    gen_keys r (start + Z.of_nat j * hbs) (start + (Z.of_nat j + 1) * hbs) i = inr (ek, i')
    ∧ h = hbt (match j with O => prev | S j' => hs !! j' end)
            (py_slice (_all_token_ids r) (start + Z.of_nat j * hbs)
               (start + (Z.of_nat j + 1) * hbs)) ek.

Lemma loop_total hbs r fuel start i prev :
  0 < hbs → -1 ≤ i → Z.max 0 (num_tokens r - start) < Z.of_nat fuel →
  ∃ hs, loop fuel hbs r start i prev = inr hs
    ∧ zlen hs = Z.max 0 ((num_tokens r - start) / hbs)
    ∧ chained hbs r start prev hs.
Proof.
  intros Hhbs. revert start i prev.
  induction fuel as [|fuel IH]; intros start i prev Hi Hfuel; [lia|]. simpl.
  destruct (Z.ltb_spec (num_tokens r) (start + hbs)) as [Hlt|Hge].
  { exists []. split_and!; [done| |].
    - rewrite zlen_nil. destruct (Z.le_gt_cases 0 (num_tokens r - start)).
      + rewrite Z.div_small by lia. lia.
      + pose proof (Z.div_le_upper_bound (num_tokens r - start) hbs 0). lia.
    - intros j h Hj. done. }
  destruct (gen_keys_total r start (start + hbs) i Hi) as (ek & i' & Hek & Hi').
  rewrite Hek.
  destruct (IH (start + hbs) i' (Some (hbt prev
    (py_slice (_all_token_ids r) start (start + hbs)) ek))) as (hs & Hl & Hlen & Hch); [lia..|].
  unfold mbind, result_bind. simpl. rewrite Hl. eexists. split_and!; [done| |].
  - rewrite zlen_cons, Hlen.
    replace ((num_tokens r - start) / hbs) with ((num_tokens r - (start + hbs)) / hbs + 1).
    + pose proof (Z.div_pos (num_tokens r - (start + hbs)) hbs). lia.
    + rewrite <-Z.div_add by lia. f_equal. lia.
  - intros [|j] h Hj; simpl in Hj.
    + simplify_eq. exists ek, i, i'.
      replace (start + Z.of_nat 0 * hbs) with start by lia.
      by replace (start + (Z.of_nat 0 + 1) * hbs) with (start + hbs) by lia.
    + destruct (Hch j h Hj) as (ek' & k & k' & Hek' & ->). exists ek', k, k'.
      replace (start + Z.of_nat (S j) * hbs) with (start + hbs + Z.of_nat j * hbs) by lia.
      replace (start + (Z.of_nat (S j) + 1) * hbs)
        with (start + hbs + (Z.of_nat j + 1) * hbs) by lia.
      split; [done|]. by destruct j.
Qed.

(** The invariant of [Request.block_hashes]: one hash per full block, each chained on its
    predecessor. *)
Definition hashes_ok (hbs : Z) (r : Request) : Prop :=
  zlen (block_hashes r) = num_tokens r / hbs ∧ chained hbs r 0 None (block_hashes r).

(** The stored hashes are a chained prefix, possibly not complete yet. *)
Definition hashes_prefix_ok (hbs : Z) (r : Request) : Prop :=
  zlen (block_hashes r) * hbs ≤ num_tokens r ∧ chained hbs r 0 None (block_hashes r).

Lemma chained_app hbs r hs hs' :
  chained hbs r 0 None hs →
  chained hbs r (zlen hs * hbs) (last hs) hs' →
  chained hbs r 0 None (hs ++ hs').
Proof.
  intros H1 H2 j h Hj. apply lookup_app_Some in Hj as [Hj|[Hle Hj]].
  - destruct (H1 _ _ Hj) as (ek & i & i' & Hek & ->). exists ek, i, i'. split; [done|].
    f_equal. destruct j as [|j]; [done|].
    symmetry. apply lookup_app_l. apply lookup_lt_Some in Hj. lia.
  - destruct (H2 _ _ Hj) as (ek & i & i' & Hek & ->). exists ek, i, i'.
    replace (zlen hs * hbs + Z.of_nat (j - length hs) * hbs) with (0 + Z.of_nat j * hbs) in *
      by (unfold zlen; rewrite Nat2Z.inj_sub by done; ring).
    replace (zlen hs * hbs + (Z.of_nat (j - length hs) + 1) * hbs)
      with (0 + (Z.of_nat j + 1) * hbs) in *
      by (unfold zlen; rewrite Nat2Z.inj_sub by done; ring).
    split; [done|]. f_equal.
    destruct (j - length hs)%nat as [|k] eqn:E.
    + replace j with (length hs) by lia. rewrite last_lookup.
      destruct (length hs) as [|n] eqn:El; [by destruct hs|].
      simpl. symmetry. apply lookup_app_l. lia.
    + destruct j as [|j]; [lia|]. rewrite lookup_app_r by lia. f_equal. lia.
Qed.

Lemma hasher_total hbs r :
  0 < hbs → hashes_prefix_ok hbs r →
  ∃ hs, hasher hbs r = inr hs ∧ hashes_ok hbs (set_block_hashes r (block_hashes r ++ hs)).
Proof.
  intros Hhbs [Hlen Hch]. unfold request_block_hasher, hashes_ok.
  change (num_tokens (set_block_hashes r ?x)) with (num_tokens r).
  set (n := zlen (block_hashes r)) in *.
  destruct (Z.ltb_spec (num_tokens r) (n * hbs + hbs)).
  { exists []. split; [done|]. simpl. rewrite app_nil_r. fold n. split; [|done].
    apply Z.div_unique_pos with (num_tokens r - n * hbs); lia. }
  destruct (loop_total hbs r (S (length (_all_token_ids r))) (n * hbs)
    (if 0 <? n * hbs then -1 else 0) (last (block_hashes r)))
    as (hs & -> & Hl & Hch'); [lia|by case_match|unfold num_tokens, zlen; unfold n, zlen; lia|].
  exists hs. split; [done|]. simpl. split; [|by apply chained_app].
  rewrite zlen_app, Hl. fold n.
  replace (num_tokens r - n * hbs) with (num_tokens r + (- n) * hbs) by lia.
  rewrite Z.div_add by lia.
  assert (n ≤ num_tokens r / hbs) by (apply Z.div_le_lower_bound; lia). lia.
Qed.

(** Appending tokens leaves the already hashed blocks chained. *)
Lemma chained_grow hbs r r' hs :
  0 < hbs → zlen hs * hbs ≤ num_tokens r →
  _all_token_ids r `prefix_of` _all_token_ids r' →
  (∀ s e i, gen_keys r' s e i = gen_keys r s e i) →
  chained hbs r 0 None hs → chained hbs r' 0 None hs.
Proof.
  intros Hhbs Hlen [k Hk] Hg Hch j h Hj. destruct (Hch j h Hj) as (ek & i & i' & Hek & ->).
  exists ek, i, i'. rewrite Hg. split; [done|]. f_equal. rewrite Hk. apply lookup_lt_Some in Hj.
  unfold py_slice. unfold num_tokens, zlen in Hlen.
  assert (Z.of_nat j * hbs + hbs ≤ Z.of_nat (length (_all_token_ids r))) by nia.
  rewrite drop_app_le by lia. rewrite take_app_le; [done|]. rewrite length_drop. lia.
Qed.

Lemma hashes_ok_prefix hbs r : 0 < hbs → hashes_ok hbs r → hashes_prefix_ok hbs r.
Proof.
  intros Hhbs [Hl Hch]. split; [|done]. rewrite Hl.
  pose proof (Z.mul_div_le (num_tokens r) hbs). lia.
Qed.

Lemma append_prefix_ok hbs r out toks :
  0 < hbs → hashes_prefix_ok hbs r →
  hashes_prefix_ok hbs (set_tokens r out (_all_token_ids r ++ toks)).
Proof.
  intros Hhbs [Hl Hch]. split.
  - unfold num_tokens in *. simpl. rewrite zlen_app. pose proof (zlen_nonneg toks). lia.
  - eapply chained_grow; [done..| |done|done]. by exists toks.
Qed.

Lemma append_hashed hbs r toks :
  0 < hbs → hashes_ok hbs r →
  ∃ hs, let r' := set_block_hashes (set_tokens r (_output_token_ids r ++ toks) (_all_token_ids r ++ toks))
                    (block_hashes r ++ hs) in
    append_output_token_ids (Some (hasher hbs)) toks r = inr r' ∧ hashes_ok hbs r'.
Proof.
  intros Hhbs Hok. unfold append_output_token_ids, update_block_hashes.
  set (r1 := set_tokens r _ _).
  destruct (hasher_total hbs r1) as (hs & -> & Hok'); [done| |].
  { by apply append_prefix_ok, hashes_ok_prefix. }
  by exists hs.
Qed.

(** a request's [block_hashes] always hold exactly one hash per full block, chained
    from the first block: appending generated tokens never fails, keeps the invariant and
    only extends the list of hashes. *)
Theorem append_output_token_ids_hashes hbs r toks :
  0 < hbs → hashes_ok hbs r →
  ∃ r', append_output_token_ids (Some (hasher hbs)) toks r = inr r'
    ∧ hashes_ok hbs r'
    ∧ _all_token_ids r' = _all_token_ids r ++ toks
    ∧ _output_token_ids r' = _output_token_ids r ++ toks
    ∧ block_hashes r `prefix_of` block_hashes r'.
Proof.
  intros Hhbs Hok. destruct (append_hashed hbs r toks Hhbs Hok) as (hs & E & Hok').
  eexists. split; [exact E|]. split_and!; [done..|]. by exists hs.
Qed.

Lemma Request_init_hashes_aux hbs a mt n :
  0 < hbs →
  init_max_tokens_status a = inr mt →
  length_from_prompt_token_ids_or_embeds (a_prompt_token_ids a) (a_prompt_embeds a) = inr n →
  ∃ r, Request_init (Some (hasher hbs)) a = inr r ∧ hashes_ok hbs r
    ∧ _all_token_ids r = init_all_token_ids a n ∧ num_prompt_tokens r = n
    ∧ mm_features r = a_mm_features a ∧ lora_request r = a_lora_request a
    ∧ cache_salt r = a_cache_salt a ∧ prompt_embeds r = a_prompt_embeds a.
Proof.
  intros Hhbs Hmt Hn. unfold Request_init. rewrite Hmt, Hn.
  unfold mbind at 1 2, result_bind at 1 2, update_block_hashes.
  match goal with |- context [hasher hbs ?r0] => set (r1 := r0) end.
  destruct (hasher_total hbs r1) as (hs & -> & Hok); [done| |].
  { split; [|intros j h Hj; done]. pose proof (zlen_nonneg (_all_token_ids r1)). done. }
  by exists (set_block_hashes r1 ([] ++ hs)).
Qed.

(** A request constructed from well-formed arguments starts with the hashes of all
    full prompt blocks: the constructor's own argument checks are the only way to fail. *)
Theorem Request_init_hashes hbs a mt n :
  0 < hbs →
  init_max_tokens_status a = inr mt →
  length_from_prompt_token_ids_or_embeds (a_prompt_token_ids a) (a_prompt_embeds a) = inr n →
  ∃ r, Request_init (Some (hasher hbs)) a = inr r ∧ hashes_ok hbs r
    ∧ _all_token_ids r = init_all_token_ids a n ∧ num_prompt_tokens r = n.
Proof.
  intros Hhbs Hmt Hn. destruct (Request_init_hashes_aux hbs a mt n) as (r & ? & ? & ? & ? & _);
    eauto.
Qed.

(** ** Views at a coarser block size *)

Lemma view_cases hbs k hs v :
  0 < hbs → 0 < k →
  resolve_block_hashes (RawHashes hs) hbs (k * hbs) false None = inr v →
  (k = 1 ∧ v = RawHashes hs) ∨ v = ScaledHashes hs k.
Proof.
  intros Hhbs Hk. unfold resolve_block_hashes, BlockHashListWithBlockSize, result_assert.
  destruct (Z.eqb_spec (k * hbs) hbs); [intros [= <-]; left; split; [nia|done]|].
  rewrite Z.mod_mul, Z.div_mul by lia. simpl. intros [= <-]. by right.
Qed.

Lemma view_get hbs k hs v idx :
  0 < hbs → 0 < k → 0 ≤ idx →
  resolve_block_hashes (RawHashes hs) hbs (k * hbs) false None = inr v →
  bhl_get v idx = hs !! Z.to_nat ((idx + 1) * k - 1).
Proof.
  intros Hhbs Hk Hi [[-> ->]| ->]%view_cases; [| |done..]; simpl.
  - rewrite py_get_nonneg by done. by replace ((idx + 1) * 1 - 1) with idx by lia.
  - by rewrite py_get_nonneg by nia.
Qed.

Lemma view_len hbs k hs v :
  0 < hbs → 0 < k →
  resolve_block_hashes (RawHashes hs) hbs (k * hbs) false None = inr v →
  bhl_len v = zlen hs / k.
Proof.
  intros Hhbs Hk [[-> ->]| ->]%view_cases; [|done..]. simpl. by rewrite Z.div_1_r.
Qed.

(** ** Fingerprints *)

Section fingerprint.
Context (Hinj : Inj (=) (=) hash_function).
Context (Hnonempty : ∀ x, hash_function x ≠ []).
Context (Hfresh : ∀ x, hash_function x ≠ NONE_HASH).

(** Equal block hashes have equal token ids, and parents that are both absent or both
    present and equal. *)
Lemma hbt_inj p p' t t' ek ek' :
  hbt p t ek = hbt p' t' ek' →
  (∀ q, p = Some q → ∃ x, q = hash_function x) →
  (∀ q, p' = Some q → ∃ x, q = hash_function x) →
  t = t' ∧ p = p'.
Proof using Hfresh Hinj Hnonempty.
  unfold hash_block_tokens. intros [= Hp Ht _]%Hinj H1 H2. split; [done|].
  destruct p as [q|], p' as [q'|]; [| | |done];
    try destruct (H1 _ eq_refl) as [x ->]; try destruct (H2 _ eq_refl) as [x' ->].
  - destruct (hash_function x) eqn:E; [by eapply Hnonempty in E|].
    destruct (hash_function x') eqn:E'; [by eapply Hnonempty in E'|]. congruence.
  - destruct (hash_function x) eqn:E; [by eapply Hnonempty in E|].
    exfalso. apply (Hfresh x). congruence.
  - destruct (hash_function x') eqn:E; [by eapply Hnonempty in E|].
    exfalso. apply (Hfresh x'). congruence.
Qed.

Lemma chained_hash hbs r start prev hs j h :
  chained hbs r start prev hs → hs !! j = Some h → ∃ x, h = hash_function x.
Proof using. intros Hch Hj. destruct (Hch _ _ Hj) as (ek & i & i' & _ & ->). by eexists. Qed.

(** The parent of a chained hash, when there is one, is itself a hash. *)
Lemma chained_parent hbs r hs (j : nat) :
  chained hbs r 0 None hs →
  ∀ q, match j with O => None | S j' => hs !! j' end = Some q → ∃ x, q = hash_function x.
Proof using. intros Hch q Hq. destruct j; [done|]. by eapply chained_hash. Qed.

Lemma take_block hbs (l : list Z) (j : nat) :
  0 < hbs →
  take (Z.to_nat ((Z.of_nat j + 1) * hbs)) l
  = take (Z.to_nat (Z.of_nat j * hbs)) l
    ++ py_slice l (0 + Z.of_nat j * hbs) (0 + (Z.of_nat j + 1) * hbs).
Proof using.
  intros Hhbs. unfold py_slice. rewrite !Z.add_0_l.
  rewrite take_take_drop. f_equal. lia.
Qed.

Lemma chained_fingerprint hbs r r' i j h :
  0 < hbs → hashes_ok hbs r → hashes_ok hbs r' →
  block_hashes r !! i = Some h → block_hashes r' !! j = Some h →
  i = j ∧ take (Z.to_nat ((Z.of_nat i + 1) * hbs)) (_all_token_ids r)
        = take (Z.to_nat ((Z.of_nat i + 1) * hbs)) (_all_token_ids r').
Proof using Hfresh Hinj Hnonempty.
  intros Hhbs [_ Hc] [_ Hc']. revert j h.
  induction i as [|i IH]; intros j h Hi Hj;
    destruct (Hc _ _ Hi) as (ek & ? & ? & _ & Eh);
    destruct (Hc' _ _ Hj) as (ek' & ? & ? & _ & Eh');
    rewrite Eh in Eh'; apply hbt_inj in Eh' as (Ht & Heq);
    try (by apply (chained_parent hbs r' _ j)); try done;
    try (by apply (chained_parent hbs r _ (S i))).
  - destruct j as [|j].
    + split; [done|]. rewrite !(take_block hbs _ 0) by done. by f_equal.
    + symmetry in Heq. apply lookup_ge_None_1 in Heq. apply lookup_lt_Some in Hj. lia.
  - destruct j as [|j].
    { apply lookup_ge_None_1 in Heq. apply lookup_lt_Some in Hi. lia. }
    destruct (lookup_lt_is_Some_2 (block_hashes r) i) as [h1 Hi1].
    { apply lookup_lt_Some in Hi. lia. }
    destruct (IH j h1 Hi1) as [<- Hpre]; [congruence|]. split; [done|].
    rewrite !(take_block hbs _ (S i)) by done. rewrite Ht. f_equal.
    replace (Z.of_nat (S i)) with (Z.of_nat i + 1) by lia. done.
Qed.
End fingerprint.

(** ** Incremental hashing agrees with hashing from scratch, for text requests *)

Lemma gen_keys_text r s e i ek i' i2 :
  mm_features r = [] → gen_keys r s e i = inr (ek, i') →
  ∃ i2', gen_keys r s e i2 = inr (ek, i2').
Proof.
  intros Hmm. unfold generate_block_hash_extra_keys, _gen_mm_extra_hash_keys.
  rewrite Hmm. simpl. intros [= <- <-]. by eexists.
Qed.

(** Without multi-modal inputs the hashes are determined by the tokens and the keys. *)
Lemma text_hashes_determined hbs r r' :
  0 < hbs → mm_features r = [] → hashes_ok hbs r → hashes_ok hbs r' →
  _all_token_ids r' = _all_token_ids r →
  (∀ s e i, gen_keys r' s e i = gen_keys r s e i) →
  block_hashes r = block_hashes r'.
Proof.
  intros Hhbs Hmm [Hl Hc] [Hl' Hc'] Htok Hkeys.
  assert (length (block_hashes r) = length (block_hashes r')) as Hlen.
  { unfold num_tokens in *. rewrite Htok in Hl'. unfold zlen in *. lia. }
  apply (list_eq_same_length _ _ _ eq_refl Hlen).
  intros j h h' _ Hj Hj'. revert h h' Hj Hj'. induction j as [|j IH]; intros h h' Hj Hj';
    destruct (Hc _ _ Hj) as (ek & i & i' & Hek & ->);
    destruct (Hc' _ _ Hj') as (ek' & k & k' & Hek' & ->);
    rewrite Hkeys in Hek'; destruct (gen_keys_text _ _ _ _ _ _ k Hmm Hek) as [? Hek2];
    rewrite Hek2 in Hek'; simplify_eq; rewrite Htok; [done|].
  f_equal.
  destruct (lookup_lt_is_Some_2 (block_hashes r) j) as [h Hh].
  { apply lookup_lt_Some in Hj. lia. }
  destruct (lookup_lt_is_Some_2 (block_hashes r') j) as [h' Hh'].
  { apply lookup_lt_Some in Hj'. lia. }
  rewrite Hh, Hh'. f_equal. eauto.
Qed.

(** The fields the extra keys depend on. *)
Definition same_keys (r r' : Request) : Prop :=
  mm_features r = mm_features r' ∧ lora_request r = lora_request r'
  ∧ cache_salt r = cache_salt r' ∧ prompt_embeds r = prompt_embeds r'.

Lemma gen_keys_ext r r' s e i :
  same_keys r r' → gen_keys r s e i = gen_keys r' s e i.
Proof.
  intros (H1 & H2 & H3 & H4).
  unfold generate_block_hash_extra_keys, _gen_mm_extra_hash_keys, _gen_lora_extra_hash_keys,
    cache_salt_keys, prompt_embeds_keys. by rewrite H1, H2, H3, H4.
Qed.

(** The hashes depend on the tokens and the extra keys only. *)
Lemma hashes_ok_ext hbs r r' :
  same_keys r r' → _all_token_ids r' = _all_token_ids r → block_hashes r' = block_hashes r →
  hashes_ok hbs r → hashes_ok hbs r'.
Proof.
  intros Hk Et Eh [H1 H2]. split; [unfold num_tokens; by rewrite Et, Eh|]. rewrite Eh. intros j h Hj.
  destruct (H2 j h Hj) as (ek & i & i' & Hek & ->). exists ek, i, i'. by rewrite <-(gen_keys_ext r r'), Et.
Qed.

Lemma init_ok_inv hbs a r :
  0 < hbs → Request_init (Some (hasher hbs)) a = inr r →
  hashes_ok hbs r
  ∧ _all_token_ids r = init_all_token_ids a (num_prompt_tokens r)
  ∧ mm_features r = a_mm_features a ∧ lora_request r = a_lora_request a
  ∧ cache_salt r = a_cache_salt a ∧ prompt_embeds r = a_prompt_embeds a.
Proof.
  intros Hhbs Hr. destruct (init_max_tokens_status a) as [|mt] eqn:Hmt;
    [by unfold Request_init in Hr; rewrite Hmt in Hr|].
  destruct (length_from_prompt_token_ids_or_embeds (a_prompt_token_ids a) (a_prompt_embeds a))
    as [|n] eqn:Hn; [by unfold Request_init in Hr; rewrite Hmt, Hn in Hr|].
  destruct (Request_init_hashes_aux hbs a mt n Hhbs Hmt Hn)
    as (r' & Hr' & ? & ? & Hnp & ?). rewrite Hr in Hr'. injection Hr' as <-. by rewrite Hnp.
Qed.

Lemma append_ok_inv hbs toks r r' :
  0 < hbs → hashes_ok hbs r →
  append_output_token_ids (Some (hasher hbs)) toks r = inr r' →
  hashes_ok hbs r' ∧ _all_token_ids r' = _all_token_ids r ++ toks ∧ same_keys r' r.
Proof.
  intros Hhbs Hok. unfold append_output_token_ids, update_block_hashes.
  set (r1 := set_tokens r _ _).
  destruct (hasher_total hbs r1) as (hs & -> & Hok'); [done| |].
  { by apply append_prefix_ok, hashes_ok_prefix. }
  simpl. intros [= <-]. done.
Qed.

(** The same arguments with another prompt. *)
Definition with_prompt (a : RequestArgs) (p : list Z) : RequestArgs :=
  {| a_request_id := a_request_id a; a_prompt_token_ids := Some p;
     a_sampling_params := a_sampling_params a; a_pooling_params := a_pooling_params a;
     a_arrival_time := a_arrival_time a; a_prompt_embeds := a_prompt_embeds a;
     a_prompt_is_token_ids := a_prompt_is_token_ids a; a_mm_features := a_mm_features a;
     a_lora_request := a_lora_request a; a_cache_salt := a_cache_salt a;
     a_priority := a_priority a |}.

(** for a text-only request, hashing the prompt and then the generated tokens as they
    arrive gives the same block hashes as hashing the whole sequence as one prompt, so a
    later request whose prompt repeats the conversation hits the cached blocks. *)
Theorem incremental_hashing_is_batch hbs a p toks r r1 r2 :
  0 < hbs → a_mm_features a = [] → a_prompt_embeds a = None → a_prompt_is_token_ids a = None →
  a_prompt_token_ids a = Some p →
  Request_init (Some (hasher hbs)) a = inr r →
  append_output_token_ids (Some (hasher hbs)) toks r = inr r1 →
  Request_init (Some (hasher hbs)) (with_prompt a (p ++ toks)) = inr r2 →
  block_hashes r1 = block_hashes r2.
Proof.
  intros Hhbs Hmm Hemb Hmask Hp Hr Hr1 Hr2.
  destruct (init_ok_inv hbs a r Hhbs Hr) as (Hok & Hall & Hk).
  destruct (append_ok_inv hbs toks r r1 Hhbs Hok Hr1) as (Hok1 & Hall1 & Hk1).
  destruct (init_ok_inv hbs _ r2 Hhbs Hr2) as (Hok2 & Hall2 & Hk2).
  apply (text_hashes_determined hbs); [done| |done..| |].
  - by rewrite (proj1 Hk1), (proj1 Hk).
  - rewrite Hall1, Hall, Hall2. unfold init_all_token_ids. simpl. by rewrite Hp, Hmask.
  - intros s e i. apply gen_keys_ext. unfold same_keys in *. destruct_and!. simpl in *.
    split_and!; congruence.
Qed.
(** ** Requests in the life of the engine *)

(** What can happen to the hashes of a request: it is constructed with the hasher, generated
    tokens are appended, and fields the hashes do not depend on (status, counters, queues)
    change in between. *)
Inductive hashed_by (hbs : Z) : Request → Prop :=
  | HashedInit a r : Request_init (Some (hasher hbs)) a = inr r → hashed_by hbs r
  | HashedAppend r toks r' :
      hashed_by hbs r → append_output_token_ids (Some (hasher hbs)) toks r = inr r' → hashed_by hbs r'
  | HashedKeep r r' :
      hashed_by hbs r → same_keys r r' → _all_token_ids r' = _all_token_ids r →
      block_hashes r' = block_hashes r → hashed_by hbs r'.

Lemma hashed_by_ok hbs r : 0 < hbs → hashed_by hbs r → hashes_ok hbs r.
Proof.
  intros Hhbs H. induction H as [a r Hr|r toks r' _ IH Hr|r r' _ IH Hk Ht Hh].
  - by destruct (init_ok_inv hbs a r Hhbs Hr).
  - by destruct (append_ok_inv hbs toks r r' Hhbs IH Hr).
  - by eapply hashes_ok_ext.
Qed.

(** C33: a block hash fingerprints the whole prefix ending at its boundary.  Take two requests
    whose hashes were computed by [request_block_hasher], when they were constructed and on
    every append of generated tokens, and view them at a group block size of
    [k * hash_block_size] tokens.  Each has one hash per full group block; and under an ideal
    hash (injective, never empty, never equal to [NONE_HASH]) equal hashes at positions
    [idx] and [idx'] force [idx = idx'] and the same first [(idx + 1) * k * hash_block_size]
    tokens. *)
Theorem block_hash_fingerprint hbs k r r' v v' idx idx' h :
  Inj (=) (=) hash_function → (∀ x, hash_function x ≠ []) → (∀ x, hash_function x ≠ NONE_HASH) →
  0 < hbs → 0 < k → hashed_by hbs r → hashed_by hbs r' →
  resolve_block_hashes (RawHashes (block_hashes r)) hbs (k * hbs) false None = inr v →
  resolve_block_hashes (RawHashes (block_hashes r')) hbs (k * hbs) false None = inr v' →
  0 ≤ idx → 0 ≤ idx' → bhl_get v idx = Some h → bhl_get v' idx' = Some h →
  bhl_len v = num_tokens r / (k * hbs) ∧ idx = idx'
  ∧ take (Z.to_nat ((idx + 1) * (k * hbs))) (_all_token_ids r)
    = take (Z.to_nat ((idx + 1) * (k * hbs))) (_all_token_ids r').
Proof.
  intros Hinj Hne Hfr Hhbs Hk Hr%hashed_by_ok Hr'%hashed_by_ok Hv Hv' Hi Hi' Hg Hg'; [|done..].
  rewrite (view_get hbs k _ _ _ Hhbs Hk Hi Hv) in Hg.
  rewrite (view_get hbs k _ _ _ Hhbs Hk Hi' Hv') in Hg'.
  destruct (chained_fingerprint Hinj Hne Hfr hbs r r' _ _ h Hhbs Hr Hr' Hg Hg') as [Heq Htake].
  split; [|split; [nia|]].
  - rewrite (view_len hbs k _ _ Hhbs Hk Hv). destruct Hr as [-> _].
    rewrite Z.div_div, (Z.mul_comm hbs k); lia.
  - revert Htake. rewrite Z2Nat.id by nia.
    by replace (((idx + 1) * k - 1 + 1) * hbs) with ((idx + 1) * (k * hbs)) by ring.
Qed.
End hashing_facts.

(** ** An ideal hash function *)

(** An injective encoding of the hashed tuple as bytes, standing for a collision-free hash:
    the bits of its [encode]d value, most significant last. *)
Fixpoint bits_of_pos (p : positive) : bytes :=
  match p with
  | xH => [x01]
  | xO p => x00 :: bits_of_pos p
  | xI p => x01 :: bits_of_pos p
  end.

Definition ideal_hash (x : bytes * list Z * option (list ExtraKey)) : bytes :=
  bits_of_pos (encode x).
Definition ideal_none_hash : bytes := [x02].

#[global] Instance bits_of_pos_inj : Inj (=) (=) bits_of_pos.
Proof.
  assert (∀ p, bits_of_pos p ≠ []) as Hne by (by intros []).
  intros p. induction p as [p IH|p IH|]; intros [q|q|] [=]; f_equal; auto;
    exfalso; by eapply Hne.
Qed.

#[global] Instance ideal_hash_inj : Inj (=) (=) ideal_hash.
Proof. intros x y H. by apply (inj encode), (inj bits_of_pos). Qed.

Lemma ideal_hash_nonempty x : ideal_hash x ≠ [].
Proof. unfold ideal_hash. by destruct (encode x). Qed.

Lemma ideal_hash_fresh x : ideal_hash x ≠ ideal_none_hash.
Proof. unfold ideal_hash. by destruct (encode x). Qed.

(** ** Concrete requests *)

Definition no_digest (b : bytes) : bytes := b.

(** Arguments of a request that only decodes text, with the given prompt, multi-modal
    features, adapter and salt. *)
Definition demo_args (prompt : list Z) (feats : list MultiModalFeatureSpec)
    (lora : option LoRARequest) (salt : option string) : RequestArgs :=
  {| a_request_id := "r"; a_prompt_token_ids := Some prompt;
     a_sampling_params := Some {| sp_max_tokens := Some 16; sp_structured_outputs := false;
       min_tokens := 0; eos_token_id := None; stop_token_ids := [];
       repetition_detection := None; sp_skip_reading_prefix_cache := None; sp_kv_cache_report_mode := None |};
     a_pooling_params := None; a_arrival_time := 0; a_prompt_embeds := None;
     a_prompt_is_token_ids := None; a_mm_features := feats; a_lora_request := lora;
     a_cache_salt := salt; a_priority := 0 |}.

Abbreviation demo_hasher hbs := (Some (request_block_hasher no_digest ideal_hash ideal_none_hash hbs)).

(** The request built from a text prompt at hash block size 2. *)
Definition demo_request (prompt : list Z) : Request :=
  match Request_init (demo_hasher 2) (demo_args prompt [] None None) with
  | inr r => r
  | inl _ => mkRequest "" 0 0 None None 0 0 [] [] [] 0 0 [] None None None [] 0 WAITING None 0 "incremental"
  end.

Lemma demo_request_ok prompt :
  Request_init (demo_hasher 2) (demo_args prompt [] None None) = inr (demo_request prompt)
  ∧ hashes_ok no_digest ideal_hash ideal_none_hash 2 (demo_request prompt).
Proof.
  unfold demo_request. destruct (Request_init _ _) as [e|r] eqn:E.
  - destruct (Request_init_hashes_aux no_digest ideal_hash ideal_none_hash 2
      (demo_args prompt [] None None) (16, WAITING) (zlen prompt)) as (r & Hr & _);
      [lia|done..|]. by rewrite E in Hr.
  - split; [done|]. eapply init_ok_inv; [|exact E]. lia.
Qed.

Lemma append_output_token_ids_hashes_witness :
  ∃ r', append_output_token_ids (demo_hasher 2) [4; 5] (demo_request [1; 2; 3]) = inr r'
    ∧ hashes_ok no_digest ideal_hash ideal_none_hash 2 r'.
Proof.
  destruct (append_output_token_ids_hashes no_digest ideal_hash ideal_none_hash 2
    (demo_request [1; 2; 3]) [4; 5] ltac:(lia) (proj2 (demo_request_ok _)))
    as (r' & Hr' & Hok & _).
  exists r'. split; [exact Hr'|exact Hok].
Defined.

Lemma Request_init_hashes_witness :
  ∃ r, Request_init (demo_hasher 2) (demo_args [1; 2; 3] [] None None) = inr r
    ∧ hashes_ok no_digest ideal_hash ideal_none_hash 2 r.
Proof.
  destruct (Request_init_hashes no_digest ideal_hash ideal_none_hash 2
    (demo_args [1; 2; 3] [] None None) (16, WAITING) 3 ltac:(lia) eq_refl eq_refl)
    as (r & Hr & Hok & _).
  exists r. split; [exact Hr|exact Hok].
Defined.

(** The demo request for [1; 2; 3] after token 4 was generated. *)
Definition demo_appended : Request :=
  match append_output_token_ids (demo_hasher 2) [4] (demo_request [1; 2; 3]) with
  | inr r => r
  | inl _ => demo_request []
  end.

Lemma incremental_hashing_is_batch_witness :
  block_hashes demo_appended = block_hashes (demo_request ([1; 2; 3] ++ [4])).
Proof.
  refine (incremental_hashing_is_batch no_digest ideal_hash ideal_none_hash 2
    (demo_args [1; 2; 3] [] None None) [1; 2; 3] [4] (demo_request [1; 2; 3]) _ _
    ltac:(lia) eq_refl eq_refl eq_refl eq_refl (proj1 (demo_request_ok _)) _
    (proj1 (demo_request_ok ([1; 2; 3] ++ [4])))).
  vm_compute. reflexivity.
Defined.

(** A request with the first four tokens as its prompt and one whose third and fourth token
    were generated, viewed at block size 4 with hashes computed at block size 2: the first
    coarse hash agrees, so the tokens do. *)
Definition demo_generated : Request :=
  match append_output_token_ids (demo_hasher 2) [3; 4; 6] (demo_request [1; 2]) with
  | inr r => r
  | inl _ => demo_request []
  end.

Lemma block_hash_fingerprint_witness :
  take 4 (_all_token_ids (demo_request [1; 2; 3; 4; 5])) = take 4 (_all_token_ids demo_generated).
Proof.
  refine (proj2 (proj2 (block_hash_fingerprint no_digest ideal_hash ideal_none_hash 2 2
    (demo_request [1; 2; 3; 4; 5]) demo_generated
    (ScaledHashes (block_hashes (demo_request [1; 2; 3; 4; 5])) 2)
    (ScaledHashes (block_hashes demo_generated) 2) 0 0
    (default [] (block_hashes (demo_request [1; 2; 3; 4; 5]) !! 1%nat))
    ideal_hash_inj ideal_hash_nonempty ideal_hash_fresh
    ltac:(lia) ltac:(lia) (HashedInit _ _ _ _ _ _ (proj1 (demo_request_ok _)))
    (HashedAppend _ _ _ _ _ [3; 4; 6] _ (HashedInit _ _ _ _ _ _ (proj1 (demo_request_ok [1; 2]))) _)
    eq_refl eq_refl ltac:(lia) ltac:(lia) _ _))); vm_compute; reflexivity.
Defined.

(** ** Requests the extra keys do not separate *)

(** A block of 8 text tokens followed by two 3-token images, the second one shared. *)
Definition two_image_args (first_image : string) : RequestArgs :=
  demo_args (replicate 14 7)
    [ {| identifier := first_image;
         mm_position := {| offset := 8; pr_length := 3; is_embed := None |} |};
      {| identifier := "shared";
         mm_position := {| offset := 11; pr_length := 3; is_embed := None |} |} ] None None.

(** when the last, partial prompt block contains two multi-modal items, the hash
    computed once that block fills up only covers the last item: whatever the hash function,
    two requests whose first images differ get the same block hashes, although hashing the
    same block as part of a prompt does include both identifiers. *)
Theorem mm_tail_block_collision sha256 hash_function NONE_HASH :
  let hasher := Some (request_block_hasher sha256 hash_function NONE_HASH 8) in
  ∃ r1 r1' r2 r2',
    Request_init hasher (two_image_args "cat") = inr r1
    ∧ Request_init hasher (two_image_args "dog") = inr r2
    ∧ append_output_token_ids hasher [1; 2] r1 = inr r1'
    ∧ append_output_token_ids hasher [1; 2] r2 = inr r2'
    ∧ mm_features r1' ≠ mm_features r2'
    ∧ zlen (block_hashes r1') = 2 ∧ block_hashes r1' = block_hashes r2'
    ∧ generate_block_hash_extra_keys sha256 r1' 8 16 0
      ≠ generate_block_hash_extra_keys sha256 r2' 8 16 0.
Proof.
  simpl. eexists _, _, _, _. split; [vm_compute; reflexivity|]. split; [vm_compute; reflexivity|].
  split; [vm_compute; reflexivity|]. split; [vm_compute; reflexivity|].
  split; [discriminate|]. split; [vm_compute; reflexivity|]. split; [vm_compute; reflexivity|].
  vm_compute. discriminate.
Qed.

(** the LoRA name and the cache salt enter the extra keys as bare strings, so a request
    for adapter "tenant" and a base-model request salted with "tenant" hash their first
    block identically, whatever the hash function. *)
Theorem lora_salt_collision sha256 hash_function NONE_HASH :
  let hasher := Some (request_block_hasher sha256 hash_function NONE_HASH 4) in
  ∃ r1 r2,
    Request_init hasher
      (demo_args [1; 2; 3; 4] [] (Some {| lora_name := "tenant"; lora_int_id := 1 |}) None)
      = inr r1
    ∧ Request_init hasher (demo_args [1; 2; 3; 4] [] None (Some "tenant"%string)) = inr r2
    ∧ lora_request r1 ≠ None ∧ lora_request r2 = None
    ∧ zlen (block_hashes r1) = 1 ∧ block_hashes r1 = block_hashes r2.
Proof.
  simpl. eexists _, _. split; [vm_compute; reflexivity|]. split; [vm_compute; reflexivity|].
  split; [discriminate|]. split; [vm_compute; reflexivity|]. split; vm_compute; reflexivity.
Qed.
