(* ===== verification/FreeQueue.v ===== *)
(** The KV-cache block objects and the free list that threads them
    ([KVCacheBlock] and [FreeKVCacheBlockQueue] of [vllm/v1/core/kv_cache_utils.py]).

    The queue is the intrusive doubly linked list of the source: block objects live in a
    store and point to each other; object identity is a [ref].  The refinement theorems
    relate it to a plain list of references in eviction order. *)

From S2P Require Import Prelude Request.

(** ** Block objects *)

(** The block objects of a pool: the two sentinels of the free list and block [i] of
    [BlockPool.blocks]. *)
Inductive ref := Head | Tail | Blk (i : nat).

#[global] Instance ref_eq_dec : EqDecision ref.
Proof. solve_decision. Defined.
#[global] Instance ref_countable : Countable ref.
Proof.
  refine (inj_countable'
    (λ r, match r with Head => inl true | Tail => inl false | Blk i => inr i end)
    (λ x, match x with inl true => Head | inl false => Tail | inr i => Blk i end) _).
  by intros [].
Defined.

(** [block_id] is set by the constructor and never assigned afterwards, so it is a function
    of the object: the sentinels carry -1. *)
Definition block_id (r : ref) : Z :=
  match r with Head | Tail => -1 | Blk i => Z.of_nat i end.

(** The mutable attributes. *)
Record KVCacheBlock := mkBlock {
  ref_cnt : Z;
  _block_hash : option bytes;
  _block_hash_num_tokens : option Z;
  prev_free_block : option ref;
  next_free_block : option ref;
  is_null : bool;
}.

(** [KVCacheBlock(block_id)]. *)
Definition new_block : KVCacheBlock := mkBlock 0 None None None None false.

Definition with_ref_cnt (n : Z) (b : KVCacheBlock) : KVCacheBlock :=
  mkBlock n (_block_hash b) (_block_hash_num_tokens b) (prev_free_block b)
    (next_free_block b) (is_null b).
Definition with_hash (h : option bytes) (n : option Z) (b : KVCacheBlock) : KVCacheBlock :=
  mkBlock (ref_cnt b) h n (prev_free_block b) (next_free_block b) (is_null b).
Definition with_prev (p : option ref) (b : KVCacheBlock) : KVCacheBlock :=
  mkBlock (ref_cnt b) (_block_hash b) (_block_hash_num_tokens b) p
    (next_free_block b) (is_null b).
Definition with_next (p : option ref) (b : KVCacheBlock) : KVCacheBlock :=
  mkBlock (ref_cnt b) (_block_hash b) (_block_hash_num_tokens b) (prev_free_block b) p
    (is_null b).
Definition with_null (n : bool) (b : KVCacheBlock) : KVCacheBlock :=
  mkBlock (ref_cnt b) (_block_hash b) (_block_hash_num_tokens b) (prev_free_block b)
    (next_free_block b) n.

Abbreviation store := (gmap ref KVCacheBlock).

(** The queue: the store it threads and its counter. *)
Record queue := mkQueue { q_store : store; num_free_blocks : Z }.

(** ** Attribute access *)

(** Reading an attribute of an object; a reference outside the store does not occur in
    Python and reads as [AttributeError] here. *)
Definition load (r : ref) : M queue KVCacheBlock := λ q,
  match q_store q !! r with
  | Some b => (inr b, q)
  | None => (inl AttributeError, q)
  end.

Definition update (r : ref) (f : KVCacheBlock → KVCacheBlock) : M queue unit :=
  load r ≫= λ b, modify (λ q, mkQueue (<[r := f b]> (q_store q)) (num_free_blocks q)).

Definition get_prev (r : ref) : M queue (option ref) := prev_free_block <$> load r.
Definition get_next (r : ref) : M queue (option ref) := next_free_block <$> load r.
Definition set_prev (r : ref) (p : option ref) : M queue unit := update r (with_prev p).
Definition set_next (r : ref) (p : option ref) : M queue unit := update r (with_next p).
Definition add_free (n : Z) : M queue unit :=
  modify (λ q, mkQueue (q_store q) (num_free_blocks q + n)).

(** [set_block_hash] asserts that the block has no hash yet. *)
Definition set_block_hash (r : ref) (h : bytes) (num_tokens : option Z) : M queue unit :=
  b ← load r;
  assert (bool_decide (_block_hash b = None) && bool_decide (_block_hash_num_tokens b = None));;
  update r (with_hash (Some h) num_tokens).

Definition reset_hash (r : ref) : M queue unit := update r (with_hash None None).

(** ** Queue operations *)

(** [FreeKVCacheBlockQueue(blocks)] over freshly created blocks 0 .. n-1: link consecutive
    blocks, then connect the sentinels. *)
Definition init_links (n : nat) (i : nat) : KVCacheBlock :=
  mkBlock 0 None None
    (Some (if decide (i = 0%nat) then Head else Blk (i - 1)))
    (Some (if decide (S i = n) then Tail else Blk (S i))) false.

Definition init_store (n : nat) : store :=
  <[Head := with_next (Some (if decide (n = 0%nat) then Tail else Blk 0)) new_block]>
  (<[Tail := with_prev (Some (if decide (n = 0%nat) then Head else Blk (n - 1))) new_block]>
   (list_to_map ((λ i, (Blk i, init_links n i)) <$> seq 0 n))).

Definition FreeKVCacheBlockQueue (n : nat) : queue := mkQueue (init_store n) (Z.of_nat n).

Definition popleft : M queue ref :=
  h ← get_next Head;
  match h with
  | None | Some Tail =>
      n ← gets num_free_blocks;
      assert (n =? 0);; raise ValueError
  | Some first_block =>
      nx ← get_next first_block;
      match nx with
      | None => raise RuntimeError
      | Some next =>
          set_next Head (Some next);;
          set_prev next (Some Head);;
          set_next first_block None;;
          set_prev first_block None;;
          add_free (-1);;
          mret first_block
      end
  end.

(** The loop of [popleft_n]: [n] more blocks from [curr_block]; returns the blocks popped and
    the block reached. *)
Fixpoint popleft_loop (n : nat) (curr_block : option ref) : M queue (list ref * option ref) :=
  match n with
  | O => mret ([], curr_block)
  | S n' =>
      match curr_block with
      | None => raise AssertionError
      | Some last_block =>
          nx ← get_next last_block;
          set_prev last_block None;;
          set_next last_block None;;
          r ← popleft_loop n' nx;
          mret (last_block :: r.1, r.2)
      end
  end.

Definition popleft_n (n : Z) : M queue (list ref) :=
  if n =? 0 then mret []
  else
    free ← gets num_free_blocks;
    assert (n <=? free);;
    add_free (- n);;
    curr_block ← get_next Head;
    r ← popleft_loop (Z.to_nat n) curr_block;
    match r.2 with
    | Some curr => set_next Head (Some curr);; set_prev curr (Some Head)
    | None => mret tt
    end;;
    mret r.1.

Definition remove (block : ref) : M queue unit :=
  p ← get_prev block;
  n ← get_next block;
  match p, n with
  | Some prev, Some next =>
      set_next prev (Some next);;
      set_prev next (Some prev);;
      set_next block None;;
      set_prev block None;;
      add_free (-1)
  | _, _ => raise RuntimeError
  end.

Definition append (block : ref) : M queue unit :=
  l ← get_prev Tail;
  match l with
  | None => raise RuntimeError
  | Some last_block =>
      set_next last_block (Some block);;
      set_prev block (Some last_block);;
      set_next block (Some Tail);;
      set_prev Tail (Some block);;
      add_free 1
  end.

(** The shared loop of [prepend_n] and [append_n]: link [blocks] after [prev_block], return
    the last one. *)
Fixpoint link_after (prev_block : ref) (blocks : list ref) : M queue ref :=
  match blocks with
  | [] => mret prev_block
  | block :: blocks' =>
      set_prev block (Some prev_block);;
      set_next prev_block (Some block);;
      link_after block blocks'
  end.

Definition prepend_n (blocks : list ref) : M queue unit :=
  if decide (blocks = []) then mret tt
  else
    f ← get_next Head;
    first_block ← lift_option AssertionError f;
    prev_block ← link_after Head blocks;
    set_next prev_block (Some first_block);;
    set_prev first_block (Some prev_block);;
    add_free (zlen blocks).

Definition append_n (blocks : list ref) : M queue unit :=
  if decide (blocks = []) then mret tt
  else
    l ← get_prev Tail;
    last0 ← lift_option AssertionError l;
    last_block ← link_after last0 blocks;
    set_next last_block (Some Tail);;
    set_prev Tail (Some last_block);;
    add_free (zlen blocks).

(** The [while curr_block.next_free_block is not None] loop of [get_all_free_blocks]. *)
Fixpoint all_free_loop (fuel : nat) (curr_block : ref) : M queue (list ref) :=
  match fuel with
  | O => raise OutOfFuel
  | S fuel' =>
      nx ← get_next curr_block;
      match nx with
      | None => mret []
      | Some next => rest ← all_free_loop fuel' next; mret (curr_block :: rest)
      end
  end.

(** The loop visits each object of the store at most once. *)
Definition get_all_free_blocks : M queue (list ref) :=
  f ← get_next Head;
  match f with
  | None => raise RuntimeError
  | Some curr_block => q ← get; all_free_loop (size (q_store q)) curr_block
  end.

(** The loop of [iter_blocks_after]: stops at the tail sentinel or at a null link. *)
Fixpoint iter_loop (fuel : nat) (curr_block : option ref) : M queue (list ref) :=
  match fuel with
  | O => raise OutOfFuel
  | S fuel' =>
      match curr_block with
      | None | Some Tail => mret []
      | Some c => nx ← get_next c; rest ← iter_loop fuel' nx; mret (c :: rest)
      end
  end.

Definition iter_blocks_after (cursor : option ref) : M queue (list ref) :=
  c ← get_next (default Head cursor);
  q ← get; iter_loop (size (q_store q)) c.
