(* ===== verification/FreeQueueFacts.v ===== *)
(** The free list refines a plain list of references in eviction order: every operation of
    [FreeKVCacheBlockQueue] terminates normally on its documented domain, has the expected
    effect on that list, touches only the link attributes, and raises otherwise. *)

From S2P Require Import Prelude Request FreeQueue.

Set Warnings "-level-tolerance,-clear-no-such-hyp".

(** ** Links in the store *)

Definition nxt (σ : store) (r : ref) : option ref := σ !! r ≫= next_free_block.
Definition prv (σ : store) (r : ref) : option ref := σ !! r ≫= prev_free_block.
Definition link (σ : store) (a b : ref) : Prop := nxt σ a = Some b ∧ prv σ b = Some a.

(** [linked σ L]: the objects of [L] are linked one after the other, in both directions. *)
Fixpoint linked (σ : store) (L : list ref) : Prop :=
  match L with
  | a :: ((b :: _) as L') => link σ a b ∧ linked σ L'
  | _ => True
  end.

(** Everything but the links. *)
Definition meta (b : KVCacheBlock) : Z * option bytes * option Z * bool :=
  (ref_cnt b, _block_hash b, _block_hash_num_tokens b, is_null b).
Definition same_meta (σ σ' : store) : Prop := ∀ r, meta <$> σ !! r = meta <$> σ' !! r.

#[global] Instance same_meta_equivalence : Equivalence same_meta.
Proof.
  split; repeat intro; [done|by symmetry|]. etrans; eauto.
Qed.

(** The state of a well-formed queue holding [l], first to be evicted first. *)
Record queue_rep (q : queue) (l : list ref) : Prop := {
  rep_linked : linked (q_store q) (Head :: l ++ [Tail]);
  rep_nodup : NoDup (Head :: l ++ [Tail]);
  rep_num : num_free_blocks q = zlen l;
  rep_tail : nxt (q_store q) Tail = None;
  rep_head : prv (q_store q) Head = None;
  rep_out : ∀ r, r ≠ Head → r ≠ Tail → r ∉ l →
    nxt (q_store q) r = None ∧ prv (q_store q) r = None;
}.

(** ** Updates of a link *)

Definition upd_next (r : ref) (v : option ref) (σ : store) : store := alter (with_next v) r σ.
Definition upd_prev (r : ref) (v : option ref) (σ : store) : store := alter (with_prev v) r σ.

Section links.
Implicit Types (σ : store) (r p x : ref).

Lemma nxt_upd_next_eq σ r v : is_Some (σ !! r) → nxt (upd_next r v σ) r = v.
Proof. intros [b Hb]. unfold nxt, upd_next. by rewrite lookup_alter_eq, Hb. Qed.
Lemma nxt_upd_next_ne σ r r' v : r ≠ r' → nxt (upd_next r v σ) r' = nxt σ r'.
Proof. intros. unfold nxt, upd_next. by rewrite lookup_alter_ne. Qed.
Lemma nxt_upd_prev σ r r' v : nxt (upd_prev r v σ) r' = nxt σ r'.
Proof.
  unfold nxt, upd_prev. rewrite lookup_alter. case_decide; [subst|done].
  by destruct (σ !! r').
Qed.
Lemma prv_upd_prev_eq σ r v : is_Some (σ !! r) → prv (upd_prev r v σ) r = v.
Proof. intros [b Hb]. unfold prv, upd_prev. by rewrite lookup_alter_eq, Hb. Qed.
Lemma prv_upd_prev_ne σ r r' v : r ≠ r' → prv (upd_prev r v σ) r' = prv σ r'.
Proof. intros. unfold prv, upd_prev. by rewrite lookup_alter_ne. Qed.
Lemma prv_upd_next σ r r' v : prv (upd_next r v σ) r' = prv σ r'.
Proof.
  unfold prv, upd_next. rewrite lookup_alter. case_decide; [subst|done].
  by destruct (σ !! r').
Qed.

Lemma same_meta_upd_next σ r v : same_meta σ (upd_next r v σ).
Proof.
  intros r'. unfold upd_next. rewrite lookup_alter. case_decide; [subst|done].
  by destruct (σ !! r').
Qed.
Lemma same_meta_upd_prev σ r v : same_meta σ (upd_prev r v σ).
Proof.
  intros r'. unfold upd_prev. rewrite lookup_alter. case_decide; [subst|done].
  by destruct (σ !! r').
Qed.

Lemma same_meta_is_Some σ σ' r : same_meta σ σ' → is_Some (σ !! r) ↔ is_Some (σ' !! r).
Proof. intros H. rewrite <-(fmap_is_Some meta (σ !! r)), (H r). apply fmap_is_Some. Qed.

Lemma is_Some_upd_next σ r r' v : is_Some (upd_next r v σ !! r') ↔ is_Some (σ !! r').
Proof. symmetry. apply same_meta_is_Some, same_meta_upd_next. Qed.
Lemma is_Some_upd_prev σ r r' v : is_Some (upd_prev r v σ !! r') ↔ is_Some (σ !! r').
Proof. symmetry. apply same_meta_is_Some, same_meta_upd_prev. Qed.

Lemma nxt_Some_in σ r r' : nxt σ r = Some r' → is_Some (σ !! r).
Proof. unfold nxt. destruct (σ !! r); [by eexists|done]. Qed.
Lemma prv_Some_in σ r r' : prv σ r = Some r' → is_Some (σ !! r).
Proof. unfold prv. destruct (σ !! r); [by eexists|done]. Qed.

(** ** Linked sequences *)

Lemma linked_app σ A a B : linked σ (A ++ a :: B) ↔ linked σ (A ++ [a]) ∧ linked σ (a :: B).
Proof.
  induction A as [|x A IH]; [simpl; tauto|].
  destruct A as [|y A]; simpl in *; [|rewrite IH]; tauto.
Qed.

Lemma linked_link σ A a b B : linked σ (A ++ a :: b :: B) → link σ a b.
Proof. rewrite linked_app. simpl. tauto. Qed.

(** The links of [A ++ [a]] use the [next] of [A] and the [prev] of all but the first. *)
Lemma linked_frame σ σ' A a :
  (∀ r, r ∈ A → nxt σ' r = nxt σ r) →
  (∀ r, r ∈ tail (A ++ [a]) → prv σ' r = prv σ r) →
  linked σ (A ++ [a]) → linked σ' (A ++ [a]).
Proof.
  induction A as [|x A IH]; intros Hn Hp; [done|].
  assert (linked σ (A ++ [a]) → linked σ' (A ++ [a])) as IH'.
  { apply IH; [intros r Hr; apply Hn; by right|].
    intros r Hr. apply Hp. simpl. destruct (A ++ [a]); [done|by right]. }
  destruct (A ++ [a]) as [|y L] eqn:E; [by destruct A|]. simpl in *. rewrite E.
  unfold link. rewrite Hn by left. rewrite Hp by (rewrite E; left).
  intros [? ?]. split; [done|by apply IH'].
Qed.

Lemma linked_in_store σ A a B : A ++ B ≠ [] → linked σ (A ++ a :: B) → is_Some (σ !! a).
Proof.
  intros Hne Hl. destruct B as [|b B].
  - destruct A as [|x A _] using rev_ind; [done|].
    rewrite <-(assoc_L (++)) in Hl. apply linked_link in Hl as [_ ?]. eauto using prv_Some_in.
  - apply linked_link in Hl as [? _]. eauto using nxt_Some_in.
Qed.
End links.

(** Compute a link of an updated store; disequalities come from the context. *)
Ltac ne_solve := solve [done | congruence | by intros -> | by intros <-].
Ltac upd_some := repeat first [rewrite is_Some_upd_next | rewrite is_Some_upd_prev].
Ltac links :=
  repeat first
    [ rewrite nxt_upd_prev | rewrite prv_upd_next
    | rewrite nxt_upd_next_eq by (upd_some; done)
    | rewrite prv_upd_prev_eq by (upd_some; done)
    | rewrite nxt_upd_next_ne by ne_solve
    | rewrite prv_upd_prev_ne by ne_solve ].
Ltac metas := repeat first [ done | etrans; [|apply same_meta_upd_next]
  | etrans; [|apply same_meta_upd_prev] ].

(** ** Rules for the attribute accesses *)

Section wp_links.
Implicit Types q : queue.

Lemma wp_get_next r Q q : is_Some (q_store q !! r) → Q (nxt (q_store q) r) q → wp (get_next r) Q q.
Proof.
  intros [b Hb] HQ. unfold get_next, load. apply wp_fmap. exists b, q. rewrite Hb.
  split; [done|]. unfold nxt in HQ. by rewrite Hb in HQ.
Qed.
Lemma wp_get_prev r Q q : is_Some (q_store q !! r) → Q (prv (q_store q) r) q → wp (get_prev r) Q q.
Proof.
  intros [b Hb] HQ. unfold get_prev, load. apply wp_fmap. exists b, q. rewrite Hb.
  split; [done|]. unfold prv in HQ. by rewrite Hb in HQ.
Qed.

Lemma insert_alter (f : KVCacheBlock → KVCacheBlock) (σ : store) r b :
  σ !! r = Some b → <[r := f b]> σ = alter f r σ.
Proof.
  intros Hb. apply map_eq. intros r'. rewrite lookup_insert, lookup_alter.
  case_decide; [subst; by rewrite Hb|done].
Qed.

Lemma wp_update r f Q q :
  is_Some (q_store q !! r) →
  Q tt (mkQueue (alter f r (q_store q)) (num_free_blocks q)) → wp (update r f) Q q.
Proof.
  intros [b Hb] HQ. unfold update, load. apply wp_bind. exists b, q. rewrite Hb.
  split; [done|]. apply wp_modify. by rewrite (insert_alter f _ _ _ Hb).
Qed.
Lemma wp_set_next r v Q q :
  is_Some (q_store q !! r) →
  Q tt (mkQueue (upd_next r v (q_store q)) (num_free_blocks q)) → wp (set_next r v) Q q.
Proof. apply wp_update. Qed.
Lemma wp_set_prev r v Q q :
  is_Some (q_store q !! r) →
  Q tt (mkQueue (upd_prev r v (q_store q)) (num_free_blocks q)) → wp (set_prev r v) Q q.
Proof. apply wp_update. Qed.
End wp_links.

Ltac in_store := simpl; upd_some; eauto using nxt_Some_in, prv_Some_in.
(** Run the link accesses at the head of the goal. *)
Ltac wp_link :=
  lazymatch goal with
  | |- wp (get_next _) _ _ => apply wp_get_next; [in_store|]
  | |- wp (get_prev _) _ _ => apply wp_get_prev; [in_store|]
  | |- wp (set_next _ _) _ _ => apply wp_set_next; [in_store|]
  | |- wp (set_prev _ _) _ _ => apply wp_set_prev; [in_store|]
  | |- wp (add_free _) _ _ => apply wp_modify
  | |- _ => wp_step
  end.
Ltac wp_links := repeat (wp_link; simpl).

(** ** Operations *)

Section ops.
Implicit Types (q : queue) (l : list ref) (σ : store).

(** The objects a well-formed queue can hold: the non-sentinel objects of its store. *)
Definition free_candidates q (bs l : list ref) : Prop :=
  NoDup bs ∧ ∀ r, r ∈ bs → is_Some (q_store q !! r) ∧ r ≠ Head ∧ r ≠ Tail ∧ r ∉ l.

Lemma rep_in q l r : queue_rep q l → r ∈ Head :: l ++ [Tail] → is_Some (q_store q !! r).
Proof.
  intros H (A & B & E)%list_elem_of_split. pose proof (rep_linked _ _ H) as Hl.
  rewrite E in Hl. apply linked_in_store in Hl; [done|].
  intros [-> ->]%app_eq_nil. by destruct l.
Qed.

Lemma rep_elem_ne q l r : queue_rep q l → r ∈ l → r ≠ Head ∧ r ≠ Tail.
Proof.
  intros H Hr. pose proof (rep_nodup _ _ H) as [HH Hnd]%NoDup_cons.
  apply NoDup_app in Hnd as (_ & HT & _). split; intros ->.
  - apply HH. apply elem_of_app. by left.
  - apply (HT Tail); [done|by left].
Qed.

Lemma nodup_mid (A : list ref) x B :
  NoDup (A ++ x :: B) → NoDup (A ++ B) ∧ x ∉ A ∧ x ∉ B.
Proof.
  rewrite <-Permutation_middle, NoDup_cons, elem_of_app. tauto.
Qed.

(** Splitting a queue at one of its elements: it has neighbours, possibly sentinels. *)
Lemma rep_split q l1 x l2 :
  queue_rep q (l1 ++ x :: l2) →
  ∃ A a b B, Head :: l1 = A ++ [a] ∧ l2 ++ [Tail] = b :: B
    ∧ linked (q_store q) (A ++ a :: x :: b :: B) ∧ NoDup (A ++ a :: x :: b :: B).
Proof.
  intros H. destruct (exists_last (l := Head :: l1)) as (A & a & EA); [done|].
  destruct (l2 ++ [Tail]) as [|b B] eqn:EB; [by destruct l2|].
  exists A, a, b, B.
  assert (Head :: (l1 ++ x :: l2) ++ [Tail] = A ++ a :: x :: b :: B) as E.
  { rewrite <-(assoc_L (++)). simpl. rewrite EB.
    change (Head :: l1 ++ ?k) with ((Head :: l1) ++ k). by rewrite EA, <-(assoc_L (++)). }
  rewrite <-E. split_and!; [done..|apply H|apply H].
Qed.

Lemma nodup_sentinels l : NoDup l → Head ∉ l → Tail ∉ l → NoDup (Head :: l ++ [Tail]).
Proof.
  intros. rewrite NoDup_cons, NoDup_app, elem_of_app, list_elem_of_singleton.
  split_and!; [naive_solver|done| |apply NoDup_singleton].
  intros x Hx ->%list_elem_of_singleton. done.
Qed.

(** Unlinking [x] between its neighbours. *)
Lemma linked_unlink σ A a x b B :
  linked σ (A ++ a :: x :: b :: B) → NoDup (A ++ a :: x :: b :: B) →
  let σ' := upd_prev x None (upd_next x None (upd_prev b (Some a) (upd_next a (Some b) σ))) in
  linked σ' (A ++ a :: b :: B).
Proof.
  intros Hl Hnd σ'.
  assert (is_Some (σ !! a) ∧ is_Some (σ !! b)) as [Ha Hb].
  { pose proof (linked_link _ _ _ _ _ Hl) as [? _]. split; [by eapply nxt_Some_in|].
    rewrite (linked_app σ A) in Hl. destruct Hl as [_ Hl].
    apply (linked_link σ [a]) in Hl as [_ ?]. by eapply prv_Some_in. }
  rewrite linked_app in Hl. destruct Hl as [HA Hl].
  change (a :: x :: b :: B) with ([a; x] ++ b :: B) in Hl. rewrite linked_app in Hl.
  destruct Hl as [_ HB].
  pose proof (nodup_mid _ _ _ Hnd) as (Hnd' & HaA & HaB).
  pose proof (nodup_mid _ _ _ Hnd') as (Hnd'' & HxA & HxB).
  pose proof (nodup_mid _ _ _ Hnd'') as (_ & HbA & HbB).
  rewrite !not_elem_of_cons in *. destruct_and!.
  rewrite linked_app. split; [|split].
  - revert HA. apply linked_frame; intros r Hr; unfold σ'.
    + by links.
    + assert (r ∈ A ++ [a]) as [?| ->%list_elem_of_singleton]%elem_of_app
        by (destruct (A ++ [a]); [done|by right]); by links.
  - unfold link, σ'. by links.
  - destruct (exists_last (l := b :: B)) as (B' & c & EB); [done|].
    rewrite EB in HB |- *. revert HB. apply linked_frame; intros r Hr; unfold σ'.
    + assert (r ∈ b :: B) as [->|?]%elem_of_cons
        by (rewrite EB; apply elem_of_app; by left); by links.
    + rewrite <-EB in Hr. simpl in Hr. by links.
Qed.

(** The state after unlinking [x] is a queue without [x]. *)
Lemma rep_unlink q l1 x l2 A a b B :
  queue_rep q (l1 ++ x :: l2) →
  Head :: l1 = A ++ [a] → l2 ++ [Tail] = b :: B →
  let σ' := upd_prev x None (upd_next x None
              (upd_prev b (Some a) (upd_next a (Some b) (q_store q)))) in
  queue_rep (mkQueue σ' (num_free_blocks q + -1)) (l1 ++ l2)
  ∧ same_meta (q_store q) σ'.
Proof.
  intros H EA EB σ'.
  assert (∀ y k, Head :: (l1 ++ y ++ l2) ++ [Tail] = A ++ a :: k ↔ k = y ++ b :: B) as E.
  { intros y k. rewrite <-!(assoc_L (++)), EB.
    change (Head :: l1 ++ ?k) with ((Head :: l1) ++ k). rewrite EA, <-(assoc_L (++)). simpl.
    split; [by intros [= ->]%app_inv_head|by intros ->]. }
  pose proof (proj2 (E [x] _) eq_refl) as Ex. pose proof (proj2 (E [] _) eq_refl) as E0.
  simpl in Ex, E0.
  pose proof (rep_linked _ _ H) as Hl. pose proof (rep_nodup _ _ H) as Hnd.
  rewrite Ex in Hl, Hnd.
  pose proof (linked_unlink _ _ _ _ _ _ Hl Hnd) as Hl'.
  pose proof (nodup_mid _ _ _ Hnd) as (Hnd' & HaA & HaB).
  pose proof (nodup_mid _ _ _ Hnd') as (Hnd'' & HxA & HxB).
  assert (is_Some (q_store q !! x)) as Hx.
  { apply (rep_in _ _ _ H). right. rewrite !elem_of_app. left. right. left. }
  assert (a ∈ Head :: l1) as Ha by (rewrite EA; apply elem_of_app; right; left).
  assert (b ∈ l2 ++ [Tail]) as Hb by (rewrite EB; left).
  assert (Tail ∈ b :: B) as HT by (rewrite <-EB; apply elem_of_app; right; left).
  assert (x ∈ l1 ++ x :: l2) as Hxl by (apply elem_of_app; right; left).
  destruct (rep_elem_ne _ _ _ H Hxl).
  assert (a ≠ Tail ∧ b ≠ Head ∧ a ≠ x ∧ b ≠ x) as (? & ? & ? & ?).
  { split_and!; intros ->; [| |apply HaB; left|apply HxB; left].
    - apply HaB. by right.
    - pose proof (rep_nodup _ _ H) as [HH _]%NoDup_cons. apply HH.
      rewrite <-(assoc_L (++)). apply elem_of_app. right. by right. }
  split; [|unfold σ'; metas]. split; cbn [q_store num_free_blocks].
  - rewrite E0. done.
  - rewrite E0. pose proof (nodup_mid (A ++ [a]) x (b :: B)) as Hm.
    rewrite <-!(assoc_L (++)) in Hm. by apply Hm.
  - rewrite (rep_num _ _ H), !zlen_app, zlen_cons. lia.
  - unfold σ'. links. apply H.
  - unfold σ'. links. apply H.
  - intros r HrH HrT Hr. unfold σ'. destruct (decide (r = x)) as [->|Hrx]; [by links|].
    rewrite elem_of_app in Hr.
    assert (r ≠ a ∧ r ≠ b) as [? ?].
    { split; intros ->.
      - apply elem_of_cons in Ha as [?|?]; tauto.
      - apply elem_of_app in Hb as [?|?%list_elem_of_singleton]; tauto. }
    links. apply (rep_out _ _ H); [done..|].
    rewrite elem_of_app, elem_of_cons. tauto.
Qed.

(** [remove] unlinks a block of the queue wherever it is. *)
Lemma remove_spec q l1 x l2 :
  queue_rep q (l1 ++ x :: l2) →
  wp (remove x) (λ _ q', queue_rep q' (l1 ++ l2) ∧ same_meta (q_store q) (q_store q')) q.
Proof.
  intros H. destruct (rep_split _ _ _ _ H) as (A & a & b & B & EA & EB & Hl & Hnd).
  pose proof (linked_link _ _ _ _ _ Hl) as [Hax Hxa].
  change (A ++ a :: x :: b :: B) with (A ++ [a] ++ x :: b :: B) in Hl.
  rewrite (assoc_L (++)) in Hl. pose proof (linked_link _ _ _ _ _ Hl) as [Hxb Hbx].
  unfold remove. wp_links. rewrite Hxa, Hxb. simpl. wp_links.
  apply (rep_unlink q l1 x l2 A a b B); done.
Qed.

Lemma remove_invalid q l x :
  queue_rep q l → x ∉ l → x ≠ Head → x ≠ Tail → is_Some (q_store q !! x) →
  remove x q = (inl RuntimeError, q).
Proof.
  intros H Hx HH HT [c Hc]. destruct (rep_out _ _ H x HH HT Hx) as [Hn Hp].
  unfold remove, get_prev, get_next, load, fmap, M_fmap, mbind, M_bind.
  unfold nxt, prv in Hn, Hp. rewrite Hc in *. simpl in *. rewrite Hc. simpl.
  rewrite Hp. done.
Qed.

Lemma popleft_spec q x l :
  queue_rep q (x :: l) →
  wp popleft (λ r q', r = x ∧ queue_rep q' l ∧ same_meta (q_store q) (q_store q')) q.
Proof.
  intros H. destruct (rep_split q [] x l H) as (A & a & b & B & EA & EB & Hl & Hnd).
  assert (A = [] ∧ a = Head) as [-> ->].
  { destruct A as [|? [|]]; simplify_eq/=. done. }
  pose proof (linked_link _ [] _ _ _ Hl) as [Hax Hxa].
  pose proof (linked_link _ [Head] _ _ _ Hl) as [Hxb Hbx].
  unfold popleft. wp_links. rewrite Hax.
  destruct (rep_elem_ne _ _ x H); [left|].
  destruct x as [| |i]; [done..|]. simpl. wp_links. rewrite Hxb. simpl. wp_links.
  split; [done|]. by apply (rep_unlink q [] _ l [] Head b B).
Qed.

Lemma popleft_empty q :
  queue_rep q [] → popleft q = (inl ValueError, q).
Proof.
  intros H. pose proof (rep_linked _ _ H) as [[Hn _] _]. pose proof (rep_num _ _ H) as Hnum.
  unfold popleft, get_next, load, fmap, M_fmap, mbind, M_bind. unfold nxt in Hn.
  destruct (q_store q !! Head) as [c|] eqn:E; [|done]. simpl in *. rewrite Hn. simpl.
  unfold gets. rewrite Hnum. done.
Qed.

Lemma head_app_cons (xs : list ref) c L : head (xs ++ c :: L) = Some (default c (head xs)).
Proof. by destruct xs. Qed.

(** The loop of [popleft_n] detaches the blocks [xs] and stops at the block [c] after
    them; every other link is untouched. *)
Lemma popleft_loop_spec q xs c L :
  linked (q_store q) (xs ++ c :: L) → NoDup (xs ++ c :: L) →
  wp (popleft_loop (length xs) (Some (default c (head xs))))
    (λ res q', res = (xs, Some c) ∧ num_free_blocks q' = num_free_blocks q
      ∧ same_meta (q_store q) (q_store q')
      ∧ (∀ r, r ∉ xs → nxt (q_store q') r = nxt (q_store q) r
                    ∧ prv (q_store q') r = prv (q_store q) r)
      ∧ (∀ r, r ∈ xs → nxt (q_store q') r = None ∧ prv (q_store q') r = None)) q.
Proof.
  revert q. induction xs as [|x xs IH]; intros q Hl Hnd; simpl.
  { wp_links. split_and!; try done. by intros r ?%elem_of_nil. }
  simpl in Hnd. apply NoDup_cons in Hnd as [Hx Hnd].
  assert (link (q_store q) x (default c (head xs)) ∧ linked (q_store q) (xs ++ c :: L))
    as [[Hn _] Hl'] by (destruct xs; simpl in *; tauto).
  assert (is_Some (q_store q !! x)) as Hxs by eauto using nxt_Some_in.
  wp_links. rewrite Hn.
  destruct (exists_last (l := xs ++ c :: L)) as (B & t & EB); [by destruct xs|].
  eapply wp_mono; [apply IH; [|done]|].
  { simpl. rewrite EB in *. revert Hl'. apply linked_frame; intros r Hr.
    - assert (x ≠ r) by (intros ->; apply Hx, elem_of_app; by left). by links.
    - assert (x ≠ r) by (intros ->; apply Hx; destruct (B ++ [t]); [done|by right]).
      by links. }
  simpl. intros [ys c'] q' (Hres & Hnum & Hm & Hout & Hin). simplify_eq/=. wp_links.
  split_and!; [done|done| | |].
  - etrans; [|done]. by metas.
  - intros r [Hrx Hr]%not_elem_of_cons. destruct (Hout r Hr) as [-> ->]. simpl. by links.
  - intros r [->|Hr]%elem_of_cons; [|by apply Hin].
    destruct (Hout x) as [-> ->]; [|simpl; by links].
    intros ?. apply Hx, elem_of_app. by left.
Qed.

(** Connecting the head sentinel to the first remaining block closes the queue again. *)
Lemma rep_reconnect q q' xs c L l :
  queue_rep q (xs ++ l) → l ++ [Tail] = c :: L →
  same_meta (q_store q) (q_store q') →
  (∀ r, r ∉ xs → nxt (q_store q') r = nxt (q_store q) r
               ∧ prv (q_store q') r = prv (q_store q) r) →
  (∀ r, r ∈ xs → nxt (q_store q') r = None ∧ prv (q_store q') r = None) →
  queue_rep (mkQueue (upd_prev c (Some Head) (upd_next Head (Some c) (q_store q'))) (zlen l)) l.
Proof.
  intros H E Hm Hout Hin.
  assert (∀ r, r ∈ c :: L → r ∉ xs ∧ r ≠ Head) as Hdisj.
  { pose proof (rep_nodup _ _ H) as [HH Hnd]%NoDup_cons.
    rewrite <-(assoc_L (++)), E in HH, Hnd. apply NoDup_app in Hnd as (_ & Hd & _).
    intros r Hr. split; [naive_solver|]. intros ->. apply HH, elem_of_app. by right. }
  assert (∀ r, r ∈ Head :: (xs ++ l) ++ [Tail] → is_Some (q_store q' !! r)) as Hin'.
  { intros r Hr. apply (same_meta_is_Some _ _ _ Hm). by eapply rep_in. }
  assert (is_Some (q_store q' !! Head)) as HHs by (apply Hin'; left).
  assert (is_Some (q_store q' !! c)) as Hcs.
  { apply Hin'. right. rewrite <-(assoc_L (++)), E. apply elem_of_app. right. left. }
  assert (c ≠ Head) by (apply Hdisj; left).
  assert (Tail ∈ c :: L) as HT by (rewrite <-E; apply elem_of_app; right; left).
  assert (Head ∉ xs) as HHx.
  { pose proof (rep_nodup _ _ H) as [HH _]%NoDup_cons. rewrite !elem_of_app in HH. tauto. }
  pose proof (rep_linked _ _ H) as Hl. pose proof (rep_nodup _ _ H) as Hnd.
  rewrite <-(assoc_L (++)), E in Hl, Hnd.
  change (Head :: xs ++ c :: L) with ((Head :: xs) ++ c :: L) in Hl.
  apply linked_app in Hl as [_ Hl].
  destruct (exists_last (l := c :: L)) as (B & t & EB); [done|].
  apply NoDup_cons in Hnd as [_ (_ & _ & Hnd)%NoDup_app].
  split; cbn [q_store num_free_blocks].
  - rewrite E. split; [unfold link; by links|].
    fold (linked (upd_prev c (Some Head) (upd_next Head (Some c) (q_store q'))) (c :: L)).
    rewrite EB in Hl |- *. revert Hl.
    apply linked_frame; intros r Hr.
    + assert (r ∈ c :: L) as Hrc by (rewrite EB; apply elem_of_app; by left).
      destruct (Hdisj r Hrc). links. by apply Hout.
    + assert (r ∈ L) as HrL by (by rewrite <-EB in Hr).
      assert (r ≠ c) by (intros ->; by apply NoDup_cons in Hnd as [? _]).
      links. apply Hout, Hdisj. by right.
  - pose proof (rep_nodup _ _ H) as [HH Hnd']%NoDup_cons. rewrite NoDup_cons.
    rewrite <-(assoc_L (++)) in HH, Hnd'. apply NoDup_app in Hnd' as (_ & _ & Hnd').
    split; [|done]. intros ?. apply HH, elem_of_app. by right.
  - done.
  - destruct (Hdisj Tail HT). links. rewrite (proj1 (Hout Tail ltac:(done))). apply H.
  - links. rewrite (proj2 (Hout Head HHx)). apply H.
  - intros r HrH HrT Hr.
    assert (c ≠ r).
    { intros ->. assert (r ∈ l ++ [Tail]) as [?|?%list_elem_of_singleton]%elem_of_app
        by (rewrite E; left); done. }
    links. destruct (decide (r ∈ xs)); [by apply Hin|].
    destruct (Hout r) as [-> ->]; [done|]. apply (rep_out _ _ H); [done..|].
    rewrite elem_of_app. tauto.
Qed.

Lemma popleft_n_spec q n l :
  queue_rep q l → 0 ≤ n ≤ zlen l →
  wp (popleft_n n) (λ res q', res = take (Z.to_nat n) l ∧ queue_rep q' (drop (Z.to_nat n) l)
    ∧ same_meta (q_store q) (q_store q')) q.
Proof.
  intros H Hn. unfold popleft_n. destruct (Z.eqb_spec n 0) as [->|Hn0].
  { wp_links. done. }
  wp_links. apply wp_assert. { rewrite (rep_num _ _ H). apply Z.leb_le. lia. }
  set (xs := take (Z.to_nat n) l). set (ys := drop (Z.to_nat n) l).
  assert (l = xs ++ ys) as El by (symmetry; apply take_drop).
  destruct (ys ++ [Tail]) as [|c L] eqn:E; [by destruct ys|].
  assert (length xs = Z.to_nat n) as Hxs.
  { unfold xs. rewrite length_take. unfold zlen in Hn. lia. }
  assert (Head :: l ++ [Tail] = Head :: xs ++ c :: L) as EL
    by (by rewrite El, <-(assoc_L (++)), E).
  pose proof (rep_linked _ _ H) as Hl. rewrite EL in Hl.
  assert (nxt (q_store q) Head = Some (default c (head xs))) as Hh.
  { destruct xs; destruct Hl as [[? _] _]; done. }
  wp_links. rewrite Hh, <-Hxs.
  eapply wp_mono; [apply popleft_loop_spec with (L := L)|].
  { simpl. destruct xs; simpl in *; tauto. }
  { pose proof (rep_nodup _ _ H) as Hnd. rewrite EL in Hnd. by apply NoDup_cons in Hnd as [_ ?]. }
  simpl. intros [? ?] q' (Hres & Hnum & Hm & Hout & Hin). simplify_eq/=.
  assert (is_Some (q_store q' !! Head)) by (apply (same_meta_is_Some _ _ _ Hm),
    (rep_in _ _ _ H); left).
  assert (is_Some (q_store q' !! c)) by (apply (same_meta_is_Some _ _ _ Hm),
    (rep_in _ _ _ H); rewrite EL; right; apply elem_of_app; right; left).
  wp_links.
  split_and!; [done| |etrans; [done|]; by metas].
  replace (num_free_blocks q') with (zlen ys).
  { rewrite El in H. by eapply (rep_reconnect q q' xs c L ys). }
  rewrite Hnum, (rep_num _ _ H), El, zlen_app. unfold zlen. lia.
Qed.

(** [spliced σ σ' a bs f]: [σ'] is [σ] with the detached blocks [bs] linked between [a]
    and [f]. *)
Definition spliced σ σ' a bs f : Prop :=
  same_meta σ σ' ∧ linked σ' (a :: bs ++ [f])
  ∧ (∀ r, r ∉ a :: bs → nxt σ' r = nxt σ r) ∧ (∀ r, r ∉ bs ++ [f] → prv σ' r = prv σ r).

Lemma link_after_spec q p bs :
  is_Some (q_store q !! p) → (∀ b, b ∈ bs → is_Some (q_store q !! b)) → NoDup (p :: bs) →
  wp (link_after p bs) (λ t q', num_free_blocks q' = num_free_blocks q
    ∧ is_Some (q_store q' !! t)
    ∧ same_meta (q_store q) (q_store q')
    ∧ ∀ f, is_Some (q_store q !! f) → f ∉ bs →
        spliced (q_store q) (upd_prev f (Some t) (upd_next t (Some f) (q_store q'))) p bs f) q.
Proof.
  revert q p. induction bs as [|b bs IH]; intros q p Hp Hin Hnd; simpl.
  { wp_links. split_and!; [done..|]. intros f Hf _. split_and!.
    - by metas.
    - simpl. unfold link. by links.
    - intros r [? _]%not_elem_of_cons. by links.
    - intros r [? _]%not_elem_of_cons. by links. }
  assert (is_Some (q_store q !! b)) as Hb by (apply Hin; left).
  apply NoDup_cons in Hnd as [[Hpb Hpbs]%not_elem_of_cons Hnd].
  wp_links. eapply wp_mono; [apply IH|]; simpl.
  { by upd_some. }
  { intros c Hc. upd_some. apply Hin. by right. }
  { done. }
  intros t q' (Hnum & Ht & Hm & Hs). split_and!; [done|done|etrans; [|done]; by metas|].
  intros f Hf [Hfb Hfbs]%not_elem_of_cons.
  destruct (Hs f) as (Hm' & Hl & Hn & Hv); [by upd_some|done|].
  apply NoDup_cons in Hnd as [Hbbs _].
  split_and!.
  - etrans; [|done]. by metas.
  - split; [|done]. split.
    + rewrite Hn by (by apply not_elem_of_cons). by links.
    + rewrite Hv; [by links|]. rewrite elem_of_app, list_elem_of_singleton. intros [?| ->]; done.
  - intros r [Hrp [Hrb Hr]%not_elem_of_cons]%not_elem_of_cons.
    rewrite Hn by (by apply not_elem_of_cons). by links.
  - intros r [Hrb Hr]%not_elem_of_cons. rewrite Hv by done. by links.
Qed.

(** Splicing detached blocks into a well-formed queue. *)
Lemma rep_splice q l l' bs A a f B σ' :
  queue_rep q l → free_candidates q bs l →
  Head :: l ++ [Tail] = A ++ a :: f :: B → Head :: l' ++ [Tail] = A ++ a :: bs ++ f :: B →
  spliced (q_store q) σ' a bs f →
  queue_rep (mkQueue σ' (num_free_blocks q + zlen bs)) l'.
Proof.
  intros H [Hbs Hc] E E' (Hm & Hls & Hn & Hv).
  pose proof (rep_linked _ _ H) as Hl. pose proof (rep_nodup _ _ H) as Hnd.
  rewrite E in Hl, Hnd.
  assert (∀ r, r ∈ A ++ a :: f :: B → r ∉ bs) as Hdisj.
  { rewrite <-E. intros r Hr Hrb. destruct (Hc r Hrb) as (_ & ? & ? & ?).
    rewrite elem_of_cons, elem_of_app, list_elem_of_singleton in Hr. tauto. }
  setoid_rewrite elem_of_app in Hdisj. setoid_rewrite elem_of_cons in Hdisj.
  setoid_rewrite elem_of_cons in Hdisj.
  pose proof (nodup_mid _ _ _ Hnd) as (Hnd' & HaA & [Haf HaB]%not_elem_of_cons).
  pose proof (nodup_mid _ _ _ Hnd') as (_ & HfA & HfB).
  apply NoDup_app in Hnd' as (HndA & HAB & HndB).
  assert (∀ r, r ≠ Head → r ≠ Tail → r ∈ A ++ a :: bs ++ f :: B → r ∈ l') as Hl'.
  { rewrite <-E'. intros r ? ?. rewrite elem_of_cons, elem_of_app, list_elem_of_singleton. tauto. }
  assert (nxt (q_store q) Tail = None ∧ prv (q_store q) Head = None) as [HT HH] by (split; apply H).
  split; cbn [q_store num_free_blocks].
  - rewrite E'. rewrite linked_app in Hl. destruct Hl as [HA Hl].
    change (a :: f :: B) with ([a] ++ f :: B) in Hl. rewrite linked_app in Hl.
    destruct Hl as [_ HB]. rewrite linked_app. split.
    + revert HA. apply linked_frame; intros r Hr.
      * apply Hn. rewrite not_elem_of_cons. split; [by intros ->|apply Hdisj; tauto].
      * assert (r ∈ A ++ [a]) as Hr' by (destruct (A ++ [a]); [done|by right]).
        rewrite elem_of_app, list_elem_of_singleton in Hr'.
        apply Hv. rewrite elem_of_app, list_elem_of_singleton.
        intros [Hrb| ->]; [eapply Hdisj; [|done]; tauto|]. destruct Hr' as [?| ->]; done.
    + change (a :: bs ++ f :: B) with ((a :: bs) ++ f :: B). rewrite linked_app.
      split; [done|]. destruct (exists_last (l := f :: B)) as (B' & c & EB); [done|].
      rewrite EB in HB |- *. revert HB. apply linked_frame; intros r Hr.
      * assert (r ∈ f :: B) as Hr' by (rewrite EB; apply elem_of_app; by left).
        apply Hn. rewrite not_elem_of_cons. apply elem_of_cons in Hr'.
        split; [destruct Hr' as [->|?]; [done|by intros ->]|apply Hdisj; tauto].
      * rewrite <-EB in Hr. simpl in Hr. apply Hv.
        rewrite elem_of_app, list_elem_of_singleton.
        intros [Hrb| ->]; [eapply Hdisj; [|done]; tauto|done].
  - rewrite E'. change (a :: bs ++ f :: B) with ([a] ++ bs ++ f :: B).
    rewrite (assoc_L (++)), (Permutation_app_swap_app (A ++ [a]) bs), <-(assoc_L (++)).
    apply NoDup_app. split_and!; [done| |done].
    intros r Hr Hr'. eapply Hdisj; [|done]. simpl in Hr'.
    rewrite elem_of_app, !elem_of_cons in Hr'. tauto.
  - apply (f_equal length) in E. apply (f_equal length) in E'.
    simpl in E, E'. rewrite !length_app in E, E'. simpl in E, E'. rewrite length_app in E'.
    rewrite (rep_num _ _ H). unfold zlen. simpl in E'. lia.
  - rewrite Hn; [done|]. rewrite not_elem_of_cons. split.
    + intros <-. destruct (linked_link _ _ _ _ _ Hl) as [Hx _]. congruence.
    + intros ?%Hc. naive_solver.
  - rewrite Hv; [done|]. rewrite elem_of_app, list_elem_of_singleton. intros [?%Hc| <-].
    + naive_solver.
    + destruct (linked_link _ _ _ _ _ Hl) as [_ Hx]. congruence.
  - intros r HrH HrT Hr.
    assert (r ∉ A ++ a :: bs ++ f :: B) as Hr' by (intros ?; by apply Hr, Hl').
    rewrite elem_of_app, elem_of_cons, elem_of_app, elem_of_cons in Hr'.
    rewrite Hn by (rewrite elem_of_cons; tauto).
    rewrite Hv by (rewrite elem_of_app, list_elem_of_singleton; tauto).
    apply (rep_out _ _ H); [done..|]. intros Hrl. apply Hr'.
    assert (r ∈ A ++ a :: f :: B) as Hx by (rewrite <-E; right; apply elem_of_app; by left).
    rewrite elem_of_app, !elem_of_cons in Hx. tauto.
Qed.

Lemma prepend_n_spec q bs l :
  queue_rep q l → free_candidates q bs l →
  wp (prepend_n bs) (λ _ q', queue_rep q' (bs ++ l) ∧ same_meta (q_store q) (q_store q')) q.
Proof.
  intros H Hc. unfold prepend_n. case_decide as Hbs; [subst; by wp_links|].
  destruct (l ++ [Tail]) as [|f B] eqn:E; [by destruct l|].
  pose proof (rep_linked _ _ H) as Hl. rewrite E in Hl.
  destruct (linked_link _ [] _ _ _ Hl) as [Hh Hf].
  assert (is_Some (q_store q !! Head)) as HHs by eauto using nxt_Some_in.
  wp_links. rewrite Hh. eapply wp_lift_option; [done|]. wp_links.
  eapply wp_mono; [apply link_after_spec; [done| |]|]; simpl.
  { intros b Hb. by apply Hc. }
  { apply NoDup_cons. split; [intros ?%Hc; naive_solver|apply Hc]. }
  intros t q' (Hnum & Ht & Hm & Hs).
  assert (is_Some (q_store q !! f)) as Hfs by eauto using prv_Some_in.
  assert (f ∉ bs) as Hfb.
  { intros (_ & _ & HfT & Hfl)%Hc.
    assert (f ∈ l ++ [Tail]) as [?|?%list_elem_of_singleton]%elem_of_app
      by (rewrite E; left); done. }
  assert (is_Some (q_store q' !! f)) by (by apply (same_meta_is_Some _ _ _ Hm)).
  specialize (Hs f Hfs Hfb). wp_links. split; [|apply Hs].
  rewrite Hnum. eapply (rep_splice q l _ bs [] Head f B); [done..| | |done].
  - by rewrite E.
  - by rewrite <-(assoc_L (++)), E.
Qed.

Lemma append_n_spec q bs l :
  queue_rep q l → free_candidates q bs l →
  wp (append_n bs) (λ _ q', queue_rep q' (l ++ bs) ∧ same_meta (q_store q) (q_store q')) q.
Proof.
  intros H Hc. unfold append_n. case_decide as Hbs; [subst; rewrite app_nil_r; by wp_links|].
  destruct (exists_last (l := Head :: l)) as (A & a & E); [done|].
  pose proof (rep_linked _ _ H) as Hl. rewrite app_comm_cons, E, <-(assoc_L (++)) in Hl.
  destruct (linked_link _ _ _ _ _ Hl) as [Ha Ht].
  assert (is_Some (q_store q !! Tail)) as HTs by eauto using prv_Some_in.
  wp_links. rewrite Ht. eapply wp_lift_option; [done|]. wp_links.
  assert (a ∉ bs) as Hab.
  { intros (_ & HaH & _ & Hal)%Hc.
    assert (a ∈ Head :: l) as [?|?]%elem_of_cons
      by (rewrite E; apply elem_of_app; right; left); done. }
  eapply wp_mono; [apply link_after_spec; [by eapply nxt_Some_in| |]|]; simpl.
  { intros b Hb. by apply Hc. }
  { apply NoDup_cons. split; [done|apply Hc]. }
  intros t q' (Hnum & Hts & Hm & Hs).
  assert (Tail ∉ bs) as HTb by (intros ?%Hc; naive_solver).
  assert (is_Some (q_store q' !! Tail)) by (by apply (same_meta_is_Some _ _ _ Hm)).
  specialize (Hs Tail HTs HTb). wp_links. split; [|apply Hs].
  rewrite Hnum. eapply (rep_splice q l _ bs A a Tail []); [done..| | |done].
  - by rewrite app_comm_cons, E, <-(assoc_L (++)).
  - by rewrite <-(assoc_L (++)), app_comm_cons, E, <-(assoc_L (++)).
Qed.

Lemma append_spec q b l :
  queue_rep q l → free_candidates q [b] l →
  wp (append b) (λ _ q', queue_rep q' (l ++ [b]) ∧ same_meta (q_store q) (q_store q')) q.
Proof.
  intros H Hc. unfold append.
  destruct (exists_last (l := Head :: l)) as (A & a & E); [done|].
  pose proof (rep_linked _ _ H) as Hl. rewrite app_comm_cons, E, <-(assoc_L (++)) in Hl.
  destruct (linked_link _ _ _ _ _ Hl) as [Ha Ht].
  destruct (proj2 Hc b) as (Hbs & HbH & HbT & Hbl); [left|].
  assert (a ≠ b ∧ a ≠ Tail) as [? ?].
  { assert (a ∈ Head :: l) as Hal by (rewrite E; apply elem_of_app; right; left).
    split; intros ->; apply elem_of_cons in Hal as [?|Hal]; try done.
    by destruct (rep_elem_ne _ _ _ H Hal). }
  assert (is_Some (q_store q !! a)) by eauto using nxt_Some_in.
  assert (is_Some (q_store q !! Tail)) by eauto using prv_Some_in.
  wp_links. rewrite Ht. simpl. wp_links.
  match goal with |- queue_rep (mkQueue ?σ _) _ ∧ _ => set (σ' := σ) end.
  assert (spliced (q_store q) σ' a [b] Tail) as Hs.
  { unfold σ'. split_and!; [by metas| | |].
    - simpl. unfold link. by links.
    - intros r [? [? _]%not_elem_of_cons]%not_elem_of_cons. by links.
    - intros r [? [? _]%not_elem_of_cons]%not_elem_of_cons. by links. }
  split; [|apply Hs]. eapply (rep_splice q l _ [b] A a Tail []); [done..| | |done].
  - by rewrite app_comm_cons, E, <-(assoc_L (++)).
  - by rewrite <-(assoc_L (++)), app_comm_cons, E, <-(assoc_L (++)).
Qed.

(** ** Traversals *)

Lemma rep_size q l : queue_rep q l → (length l + 2 ≤ size (q_store q))%nat.
Proof.
  intros H. pose proof (rep_nodup _ _ H) as Hnd.
  pose proof (size_list_to_set (C := gset ref) (Head :: l ++ [Tail]) Hnd) as Hsz.
  simpl in Hsz. rewrite length_app in Hsz. simpl in Hsz.
  rewrite <-(size_dom (D := gset ref)).
  assert (list_to_set (Head :: l ++ [Tail]) ⊆ dom (q_store q)) as Hsub.
  { intros r Hr%elem_of_list_to_set. apply elem_of_dom. by eapply rep_in. }
  apply subseteq_size in Hsub. simpl in Hsub. lia.
Qed.

Lemma all_free_loop_spec q xs fuel :
  linked (q_store q) (xs ++ [Tail]) → is_Some (q_store q !! Tail) →
  nxt (q_store q) Tail = None → (length xs < fuel)%nat →
  wp (all_free_loop fuel (default Tail (head xs))) (λ res q', res = xs ∧ q' = q) q.
Proof.
  revert fuel. induction xs as [|x xs IH]; intros fuel Hl HTs HT Hf;
    destruct fuel as [|fuel]; simpl in *; try lia.
  { wp_links. rewrite HT. by wp_links. }
  assert (link (q_store q) x (default Tail (head xs)) ∧ linked (q_store q) (xs ++ [Tail]))
    as [[Hn _] Hl'] by (destruct xs; simpl in *; tauto).
  wp_links. rewrite Hn. wp_links.
  eapply wp_mono; [apply IH; [done..|lia]|]. simpl. intros ? ? [-> ->]. by wp_links.
Qed.

Lemma rep_first q l : queue_rep q l → nxt (q_store q) Head = Some (default Tail (head l)).
Proof. intros H. pose proof (rep_linked _ _ H) as Hl. destruct l; by destruct Hl as [[? _] _]. Qed.

Lemma rep_linked_rest q l : queue_rep q l → linked (q_store q) (l ++ [Tail]).
Proof. intros H. pose proof (rep_linked _ _ H) as Hl. destruct l; [done|apply Hl]. Qed.

(** [get_all_free_blocks] terminates and reads the queue in eviction order. *)
Lemma get_all_free_blocks_spec q l :
  queue_rep q l → wp get_all_free_blocks (λ res q', res = l ∧ q' = q) q.
Proof.
  intros H. unfold get_all_free_blocks. pose proof (rep_first _ _ H) as Hh.
  wp_links. rewrite Hh. simpl. wp_links.
  apply all_free_loop_spec; [by apply rep_linked_rest| |apply H|].
  - apply (rep_in _ _ _ H). right. apply elem_of_app. right. left.
  - pose proof (rep_size _ _ H). lia.
Qed.

Lemma iter_loop_spec q xs fuel :
  linked (q_store q) (xs ++ [Tail]) → Tail ∉ xs → (length xs < fuel)%nat →
  wp (iter_loop fuel (Some (default Tail (head xs)))) (λ res q', res = xs ∧ q' = q) q.
Proof.
  revert fuel. induction xs as [|x xs IH]; intros fuel Hl HT Hf;
    destruct fuel as [|fuel]; simpl in *; try lia; [by wp_links|].
  apply not_elem_of_cons in HT as [HxT HT].
  assert (link (q_store q) x (default Tail (head xs)) ∧ linked (q_store q) (xs ++ [Tail]))
    as [[Hn _] Hl'] by (destruct xs; simpl in *; tauto).
  destruct x; [|done|]; wp_links; rewrite Hn;
    (eapply wp_mono; [apply IH; [done..|lia]|]); simpl; intros ? ? [-> ->]; by wp_links.
Qed.

(** [iter_blocks_after] enumerates the blocks after the cursor (all of them without one). *)
Lemma iter_blocks_after_spec q l1 x l2 :
  queue_rep q (l1 ++ x :: l2) →
  wp (iter_blocks_after (Some x)) (λ res q', res = l2 ∧ q' = q) q
  ∧ wp (iter_blocks_after None) (λ res q', res = l1 ++ x :: l2 ∧ q' = q) q.
Proof.
  intros H. unfold iter_blocks_after. pose proof (rep_size _ _ H) as Hsz.
  rewrite length_app in Hsz. simpl in Hsz.
  assert (Tail ∉ l1 ++ x :: l2) as HT.
  { intros Hr. by destruct (rep_elem_ne _ _ _ H Hr). }
  pose proof (rep_linked_rest _ _ H) as Hl. split.
  - assert (nxt (q_store q) x = Some (default Tail (head l2))) as Hn.
    { rewrite <-(assoc_L (++)) in Hl. simpl in Hl. apply linked_app in Hl as [_ Hl].
      destruct l2; by destruct Hl as [[? _] _]. }
    simpl. wp_links. rewrite Hn. apply iter_loop_spec; [| |lia].
    + rewrite <-(assoc_L (++)) in Hl. simpl in Hl. apply linked_app in Hl as [_ Hl].
      destruct l2; [done|apply Hl].
    + rewrite elem_of_app, elem_of_cons in HT. tauto.
  - simpl. pose proof (rep_first _ _ H) as Hn. wp_links. rewrite Hn.
    apply iter_loop_spec; [done|done|]. rewrite length_app. simpl. lia.
Qed.

(** ** Construction *)

Lemma init_store_blk n i : init_store n !! Blk i = if decide (i < n)%nat then Some (init_links n i) else None.
Proof.
  unfold init_store. rewrite !lookup_insert_ne by done. case_decide as Hi.
  - apply elem_of_list_to_map.
    + rewrite <-list_fmap_compose. simpl. rewrite NoDup_fmap; [apply NoDup_seq|].
      intros ? ? [= ->]. done.
    + apply list_elem_of_fmap. exists i. split; [done|]. apply elem_of_seq. lia.
  - apply not_elem_of_list_to_map. rewrite <-list_fmap_compose.
    intros (j & [= ->] & Hj%elem_of_seq)%list_elem_of_fmap. lia.
Qed.

Lemma init_links_linked n i k :
  (i + k = n)%nat → (0 < k)%nat →
  linked (init_store n) ((Blk <$> seq i k) ++ [Tail]).
Proof.
  revert i. induction k as [|k IH]; intros i Hik Hk; [lia|].
  assert (init_store n !! Blk i = Some (init_links n i)) as Hi.
  { rewrite init_store_blk. rewrite decide_True; [done|lia]. }
  destruct (decide (k = 0%nat)) as [->|Hk0].
  - simpl. split; [|done]. split; unfold nxt, prv.
    + rewrite Hi. simpl. by rewrite decide_True by lia.
    + unfold init_store. rewrite lookup_insert_ne, lookup_insert_eq by done. simpl.
      rewrite decide_False by lia. do 2 f_equal. lia.
  - specialize (IH (S i)). destruct k as [|k]; [done|]. split; [|by apply IH; lia].
    split; unfold nxt, prv.
    + rewrite Hi. simpl. by rewrite decide_False by lia.
    + rewrite init_store_blk, decide_True by lia. simpl. do 2 f_equal. lia.
Qed.

(** A new queue holds all blocks in block-id order. *)
Lemma init_rep n : queue_rep (FreeKVCacheBlockQueue n) (Blk <$> seq 0 n).
Proof.
  unfold FreeKVCacheBlockQueue. split; cbn [q_store num_free_blocks].
  - destruct (decide (n = 0%nat)) as [->|Hn]; [by repeat split|].
    pose proof (init_links_linked n 0 n ltac:(lia) ltac:(lia)) as Hl.
    destruct n as [|n]; [done|]. split; [|done]. split; unfold nxt, prv.
    + unfold init_store. by rewrite lookup_insert_eq.
    + by rewrite init_store_blk, decide_True by lia.
  - apply nodup_sentinels.
    + apply NoDup_fmap_2; [intros ? ? [= ->]; done|apply NoDup_seq].
    + by intros (? & ? & _)%list_elem_of_fmap.
    + by intros (? & ? & _)%list_elem_of_fmap.
  - unfold zlen. by rewrite length_fmap, length_seq.
  - unfold nxt, init_store. by rewrite lookup_insert_ne, lookup_insert_eq.
  - unfold prv, init_store. by rewrite lookup_insert_eq.
  - intros [| |i] HH HT Hi; [done..|]. unfold nxt, prv. rewrite init_store_blk.
    case_decide as Hin; [|done]. exfalso. apply Hi. apply list_elem_of_fmap.
    exists i. split; [done|]. apply elem_of_seq. lia.
Qed.
End ops.

(** ** Refinement: the linked list implements a sequence *)

(** A call of a queue operation. *)
Inductive qop :=
  | OpPopleft | OpPopleftN (n : Z) | OpRemove (r : ref)
  | OpAppend (b : ref) | OpPrependN (bs : list ref) | OpAppendN (bs : list ref).

(** The call on the linked list, with the blocks it returns. *)
Definition run_op (op : qop) : M queue (list ref) :=
  match op with
  | OpPopleft => r ← popleft; mret [r]
  | OpPopleftN n => popleft_n n
  | OpRemove r => remove r;; mret []
  | OpAppend b => append b;; mret []
  | OpPrependN bs => prepend_n bs;; mret []
  | OpAppendN bs => append_n bs;; mret []
  end.

(** The specification on the sequence of free blocks of a pool of [n] blocks; [None] when the
    call is outside the documented domain of the operation. *)
Definition detached (n : nat) (l bs : list ref) : Prop :=
  NoDup bs ∧ Forall (λ b, b ∈ Blk <$> seq 0 n ∧ b ∉ l) bs.
#[global] Instance detached_dec n l bs : Decision (detached n l bs).
Proof. unfold detached. apply _. Defined.

Definition abs_op (n : nat) (op : qop) (l : list ref) : option (list ref * list ref) :=
  match op with
  | OpPopleft => match l with x :: l' => Some ([x], l') | [] => None end
  | OpPopleftN k =>
      if decide (0 ≤ k ≤ zlen l) then Some (take (Z.to_nat k) l, drop (Z.to_nat k) l) else None
  | OpRemove r => if decide (r ∈ l) then Some ([], filter (.≠ r) l) else None
  | OpAppend b => if decide (detached n l [b]) then Some ([], l ++ [b]) else None
  | OpPrependN bs => if decide (detached n l bs) then Some ([], bs ++ l) else None
  | OpAppendN bs => if decide (detached n l bs) then Some ([], l ++ bs) else None
  end.

Fixpoint run_ops (ops : list qop) : M queue (list (list ref)) :=
  match ops with
  | [] => mret []
  | op :: ops' => r ← run_op op; rs ← run_ops ops'; mret (r :: rs)
  end.
Fixpoint abs_ops (n : nat) (ops : list qop) (l : list ref) : option (list (list ref) * list ref) :=
  match ops with
  | [] => Some ([], l)
  | op :: ops' =>
      r ← abs_op n op l; rs ← abs_ops n ops' r.2; Some (r.1 :: rs.1, rs.2)
  end.

(** The store of a pool of [n] blocks. *)
Definition store_of (n : nat) (q : queue) : Prop :=
  ∀ r, is_Some (q_store q !! r) ↔ r = Head ∨ r = Tail ∨ r ∈ Blk <$> seq 0 n.

Lemma store_of_meta n q q' :
  same_meta (q_store q) (q_store q') → store_of n q → store_of n q'.
Proof. intros Hm H r. rewrite <-(same_meta_is_Some _ _ r Hm). apply H. Qed.

Lemma detached_candidates n q l bs :
  store_of n q → detached n l bs → free_candidates q bs l.
Proof.
  intros Hs [Hnd Hall]. split; [done|]. intros r Hr. rewrite Forall_forall in Hall.
  destruct (Hall r Hr) as [Hin Hout]. split_and!; [|by intros ->; apply list_elem_of_fmap in Hin
    as (? & ? & _)..|done].
  apply Hs. tauto.
Qed.

Lemma filter_ne_id (l : list ref) x : x ∉ l → filter (.≠ x) l = l.
Proof.
  induction l as [|y l IH]; [done|]. rewrite not_elem_of_cons. intros [Hne Hx].
  rewrite filter_cons_True by congruence. by rewrite IH.
Qed.

Lemma filter_ne_app (l1 : list ref) x l2 :
  x ∉ l1 → x ∉ l2 → filter (.≠ x) (l1 ++ x :: l2) = l1 ++ l2.
Proof.
  intros H1 H2. rewrite filter_app, filter_cons_False by (intros Hx; by apply Hx).
  by rewrite !filter_ne_id.
Qed.

Lemma run_op_refines n q l op res l' :
  store_of n q → queue_rep q l → abs_op n op l = Some (res, l') →
  wp (run_op op) (λ res' q', res' = res ∧ queue_rep q' l' ∧ store_of n q') q.
Proof.
  intros Hst H Habs.
  assert (∀ q', same_meta (q_store q) (q_store q') → store_of n q') as Hst'
    by eauto using store_of_meta.
  destruct op as [|k|r|b|bs|bs]; simpl in *; repeat case_decide; simplify_eq/=.
  - destruct l as [|x l1]; simplify_eq/=. wp_steps.
    eapply wp_mono; [by apply popleft_spec|]. simpl. intros r q' (-> & ? & ?).
    wp_steps. eauto.
  - eapply wp_mono; [by apply popleft_n_spec|]. simpl. intros r q' (-> & ? & ?). eauto.
  - apply list_elem_of_split in H0 as (l1 & l2 & ->).
    pose proof (rep_nodup _ _ H) as [_ Hnd]%NoDup_cons. apply NoDup_app in Hnd as (Hnd & _).
    apply nodup_mid in Hnd as (_ & ? & ?). rewrite filter_ne_app by done.
    wp_steps. eapply wp_mono; [by apply remove_spec|]. simpl. intros _ q' [? ?]. wp_steps. eauto.
  - wp_steps. eapply wp_mono; [apply append_spec; [done|by eapply detached_candidates]|].
    simpl. intros _ q' [? ?]. wp_steps. eauto.
  - wp_steps. eapply wp_mono; [apply prepend_n_spec; [done|by eapply detached_candidates]|].
    simpl. intros _ q' [? ?]. wp_steps. eauto.
  - wp_steps. eapply wp_mono; [apply append_n_spec; [done|by eapply detached_candidates]|].
    simpl. intros _ q' [? ?]. wp_steps. eauto.
Qed.

Lemma run_ops_refines n ops q l res l' :
  store_of n q → queue_rep q l → abs_ops n ops l = Some (res, l') →
  wp (run_ops ops) (λ res' q', res' = res ∧ queue_rep q' l' ∧ store_of n q') q.
Proof.
  revert q l res l'. induction ops as [|op ops IH]; intros q l res l' Hst H Habs; simpl in *.
  { simplify_eq. by wp_steps. }
  destruct (abs_op n op l) as [[r l1]|] eqn:E1; [|done]. simpl in Habs.
  destruct (abs_ops n ops l1) as [[rs l2]|] eqn:E2; [|done]. simplify_eq/=.
  wp_steps. eapply wp_mono; [by eapply run_op_refines|]. simpl. intros r' q' (-> & ? & ?).
  wp_steps. eapply wp_mono; [by eapply IH|]. simpl. intros rs' q'' (-> & ? & ?). by wp_steps.
Qed.

Lemma init_store_of n : store_of n (FreeKVCacheBlockQueue n).
Proof.
  intros [| |i]; simpl.
  - unfold init_store. rewrite lookup_insert_eq. naive_solver.
  - unfold init_store. rewrite lookup_insert_ne, lookup_insert_eq by done. naive_solver.
  - rewrite init_store_blk, list_elem_of_fmap. setoid_rewrite elem_of_seq.
    case_decide as Hi; split.
    + intros _. right. right. exists i. split; [done|lia].
    + intros _. by eexists.
    + by intros [? ?].
    + intros [?|[?|(j & [= ->] & ?)]]; [done..|lia].
Qed.

(** C30: the free list refines a sequence.  For every sequence of queue calls inside the
    documented domain, started on a new queue of [n] blocks, the linked-list code raises no
    exception, returns exactly the blocks the sequence specification returns, and
    [get_all_free_blocks] then terminates and reads back the specified sequence. *)
Theorem free_queue_refines_sequence n ops res l :
  abs_ops n ops (Blk <$> seq 0 n) = Some (res, l) →
  wp (rs ← run_ops ops; all ← get_all_free_blocks; mret (rs, all))
    (λ out q, out = (res, l) ∧ num_free_blocks q = zlen l) (FreeKVCacheBlockQueue n).
Proof.
  intros Habs. apply wp_bind.
  eapply wp_mono; [eapply run_ops_refines; [apply init_store_of|apply init_rep|done]|].
  simpl. intros r q (-> & H & _). wp_steps.
  eapply wp_mono; [by apply get_all_free_blocks_spec|]. simpl. intros ? ? [-> ->]. wp_steps.
  split; [done|apply H].
Qed.

Lemma free_queue_refines_sequence_witness :
  wp (rs ← run_ops [OpPopleft; OpRemove (Blk 2); OpAppend (Blk 0); OpPrependN [Blk 2];
        OpPopleftN 2];
      all ← get_all_free_blocks; mret (rs, all))
    (λ out q, out = ([[Blk 0]; []; []; []; [Blk 2; Blk 1]], [Blk 3; Blk 0])
       ∧ num_free_blocks q = 2)
    (FreeKVCacheBlockQueue 4).
Proof.
  apply (free_queue_refines_sequence 4
    [OpPopleft; OpRemove (Blk 2); OpAppend (Blk 0); OpPrependN [Blk 2]; OpPopleftN 2]
    [[Blk 0]; []; []; []; [Blk 2; Blk 1]] [Blk 3; Blk 0]).
  vm_compute. reflexivity.
Defined.

(** Misuse of the free list is detected and changes nothing: popping from an empty queue
    raises [ValueError], popping more blocks than it holds raises [AssertionError], and
    removing a block that is not in the queue raises [RuntimeError]. *)
Theorem free_queue_errors n q l :
  store_of n q → queue_rep q l →
  (l = [] → popleft q = (inl ValueError, q))
  ∧ (∀ k, zlen l < k → popleft_n k q = (inl AssertionError, q))
  ∧ (∀ i, (i < n)%nat → Blk i ∉ l → remove (Blk i) q = (inl RuntimeError, q)).
Proof.
  intros Hst H. split_and!.
  - intros ->. by apply popleft_empty.
  - intros k Hk. unfold popleft_n. pose proof (zlen_nonneg l).
    rewrite (proj2 (Z.eqb_neq k 0)) by lia. unfold mbind, M_bind, gets. simpl.
    rewrite (rep_num _ _ H). unfold assert. by rewrite (proj2 (Z.leb_gt k (zlen l))) by lia.
  - intros i Hi Hin. eapply remove_invalid; [done..|]. apply Hst.
    right. right. apply list_elem_of_fmap. exists i. rewrite elem_of_seq. split; [done|lia].
Qed.

Lemma free_queue_errors_witness :
  popleft (FreeKVCacheBlockQueue 0) = (inl ValueError, FreeKVCacheBlockQueue 0)
  ∧ popleft_n 1 (FreeKVCacheBlockQueue 0) = (inl AssertionError, FreeKVCacheBlockQueue 0).
Proof.
  destruct (free_queue_errors 0 (FreeKVCacheBlockQueue 0) [] (init_store_of 0) (init_rep 0))
    as (H1 & H2 & _).
  split; [apply H1; reflexivity|apply H2; reflexivity].
Defined.
