(* ===== verification/BlockPool.v ===== *)
(** The block pool ([vllm/v1/core/block_pool.py]): reference-counted KV-cache blocks, the
    free list in eviction order, the prefix-cache index from packed hashes to blocks and the
    KV-cache event log ([vllm/distributed/kv_events.py]).

    The pool is modelled as built without a metrics collector (the default), which only
    observes it.  Python iterates sets in an unspecified order; the model uses the canonical
    enumeration [elements], and the theorems do not depend on it. *)

From S2P Require Import Prelude Request BlockHash FreeQueue.

(** ** The prefix-cache index *)

(** [KVCacheBlock | dict[int, KVCacheBlock]]: dicts keep insertion order. *)
Inductive CacheEntry := Single (b : ref) | Multi (d : list (Z * ref)).

Abbreviation BlockHashToBlockMap := (gmap bytes CacheEntry).

Implicit Types m : BlockHashToBlockMap.

(** [d[i] = b]: an existing key keeps its position. *)
Fixpoint dict_set (d : list (Z * ref)) (i : Z) (b : ref) : list (Z * ref) :=
  match d with
  | [] => [(i, b)]
  | (j, c) :: d' => if j =? i then (j, b) :: d' else (j, c) :: dict_set d' i b
  end.
(** [d.get(i)] and the dict after [d.pop(i, None)]. *)
Fixpoint dict_get (d : list (Z * ref)) (i : Z) : option ref :=
  match d with
  | [] => None
  | (j, c) :: d' => if j =? i then Some c else dict_get d' i
  end.
Definition dict_del (d : list (Z * ref)) (i : Z) : list (Z * ref) := filter (λ x, x.1 ≠ i) d.

Definition get_one_block m (key : bytes) : option ref :=
  match m !! key with
  | None => None
  | Some (Single b) => Some b
  | Some (Multi d) => snd <$> head d
  end.

Definition contain m (key : bytes) (i : Z) : bool :=
  match m !! key with
  | None => false
  | Some (Single b) => block_id b =? i
  | Some (Multi d) => bool_decide (is_Some (dict_get d i))
  end.

Definition map_insert m (key : bytes) (block : ref) : BlockHashToBlockMap :=
  match m !! key with
  | None => <[key := Single block]> m
  | Some (Single b) => <[key := Multi (dict_set [(block_id b, b)] (block_id block) block)]> m
  | Some (Multi d) => <[key := Multi (dict_set d (block_id block) block)]> m
  end.

Definition map_pop m (key : bytes) (i : Z) : option ref * BlockHashToBlockMap :=
  match m !! key with
  | None => (None, m)
  | Some (Single b) => if block_id b =? i then (Some b, delete key m) else (None, m)
  | Some (Multi d) =>
      let d' := dict_del d i in
      (dict_get d i, if decide (d' = []) then delete key m else <[key := Multi d']> m)
  end.

(** ** Events *)

Definition MEDIUM_GPU : string := "GPU".

Inductive KVCacheEvent :=
  | BlockStored (block_hashes : option (list ExternalBlockHash))
      (parent_block_hash : option ExternalBlockHash) (token_ids : list Z) (block_size : Z)
      (lora_id : option Z) (medium : string) (lora_name : option string)
      (extra_keys : option (list (option (list ExtraKey)))) (group_idx : Z)
  | BlockRemoved (block_hashes : list ExternalBlockHash) (medium : string) (group_idx : Z)
  | AllBlocksCleared.

(** ** The pool *)

Record BlockPool := mkPool {
  num_gpu_blocks : Z;
  enable_caching : bool;
  hash_block_size : Z;
  free_block_queue : queue; (** the block objects, as the store the queue threads *)
  cached_block_hash_to_block : BlockHashToBlockMap;
  cached_block_hashes_by_block : gmap Z (gset bytes);
  null_block : ref;
  enable_kv_cache_events : bool;
  kv_event_queue : list KVCacheEvent;
}.

Definition set_queue (q : queue) (p : BlockPool) : BlockPool :=
  mkPool (num_gpu_blocks p) (enable_caching p) (hash_block_size p) q
    (cached_block_hash_to_block p) (cached_block_hashes_by_block p) (null_block p)
    (enable_kv_cache_events p) (kv_event_queue p).
Definition set_cached m (p : BlockPool) : BlockPool :=
  mkPool (num_gpu_blocks p) (enable_caching p) (hash_block_size p) (free_block_queue p)
    m (cached_block_hashes_by_block p) (null_block p)
    (enable_kv_cache_events p) (kv_event_queue p).
Definition set_by_block (x : gmap Z (gset bytes)) (p : BlockPool) : BlockPool :=
  mkPool (num_gpu_blocks p) (enable_caching p) (hash_block_size p) (free_block_queue p)
    (cached_block_hash_to_block p) x (null_block p)
    (enable_kv_cache_events p) (kv_event_queue p).
Definition set_events (es : list KVCacheEvent) (p : BlockPool) : BlockPool :=
  mkPool (num_gpu_blocks p) (enable_caching p) (hash_block_size p) (free_block_queue p)
    (cached_block_hash_to_block p) (cached_block_hashes_by_block p) (null_block p)
    (enable_kv_cache_events p) es.

(** Operations of the free list and accesses to block attributes. *)
Definition on_queue {A} (op : M queue A) : M BlockPool A := zoom free_block_queue set_queue op.
Definition block (r : ref) : M BlockPool KVCacheBlock := on_queue (load r).
Definition set_block (r : ref) (f : KVCacheBlock → KVCacheBlock) : M BlockPool unit :=
  on_queue (update r f).
Definition add_event (e : KVCacheEvent) : M BlockPool unit :=
  modify (λ p, set_events (kv_event_queue p ++ [e]) p).

(** [self.blocks]: block [i] of the pool at index [i]. *)
Definition blocks (p : BlockPool) : list ref := Blk <$> seq 0 (Z.to_nat (num_gpu_blocks p)).

(** [BlockPool.__init__]: block 0 becomes the null block. *)
Definition BlockPool_init (num_gpu_blocks : Z) (enable_caching : bool) (hash_block_size : Z)
    (enable_kv_cache_events : bool) : exn + BlockPool :=
  result_assert (0 <? num_gpu_blocks) ≫= λ _,
  let '(r, q) := popleft (FreeKVCacheBlockQueue (Z.to_nat num_gpu_blocks)) in
  b ← r;
  let p := mkPool num_gpu_blocks enable_caching hash_block_size q ∅ ∅ b
             enable_kv_cache_events [] in
  let '(r', p') := set_block b (with_null true) p in
  r' ≫= λ _, inr p'.

(** The loop of [get_cached_block]. *)
Fixpoint get_cached_block_loop m (block_hash : bytes) (group_ids : list Z)
    : exn + option (list ref) :=
  match group_ids with
  | [] => mret (Some [])
  | g :: gs =>
      key ← make_block_hash_with_group_id block_hash g;
      match get_one_block m key with
      | None => mret None
      | Some b => rest ← get_cached_block_loop m block_hash gs;
                  mret (cons b <$> rest)
      end
  end.

Definition get_cached_block (block_hash : bytes) (kv_cache_group_ids : list Z)
    : M BlockPool (option (list ref)) :=
  p ← get;
  lift_result (get_cached_block_loop (cached_block_hash_to_block p) block_hash kv_cache_group_ids).

(** The pops of [_remove_cached_block_hashes]. *)
Definition pop_cached (key : bytes) (i : Z) : M BlockPool (option ref) := λ p,
  let '(r, m) := map_pop (cached_block_hash_to_block p) key i in (inr r, set_cached m p).

Definition _remove_cached_block_hashes (b : ref) : M BlockPool (list bytes) :=
  blk ← block b;
  p ← get;
  let block_hashes := option_list (_block_hash blk)
    ++ elements (default ∅ (cached_block_hashes_by_block p !! block_id b)) in
  modify (set_by_block (delete (block_id b) (cached_block_hashes_by_block p)));;
  if decide (block_hashes = []) then mret []
  else
    removed_hashes ← fold_each block_hashes (λ acc h,
      r ← pop_cached h (block_id b);
      mret (if decide (is_Some r) then acc ++ [h] else acc)) [];
    on_queue (reset_hash b);;
    mret removed_hashes.

Definition _insert_block_hash (key : bytes) (b : ref) (num_tokens : option Z)
    : M BlockPool unit :=
  blk ← block b;
  if decide (_block_hash blk = Some key) then mret tt
  else
    m ← gets cached_block_hash_to_block;
    if contain m key (block_id b) then mret tt
    else
      match _block_hash blk with
      | None => on_queue (set_block_hash b key num_tokens)
      | Some _ => modify (λ p, set_by_block
          (<[block_id b := {[key]} ∪ default ∅ (cached_block_hashes_by_block p !! block_id b)]>
             (cached_block_hashes_by_block p)) p)
      end;;
      modify (λ p, set_cached (map_insert (cached_block_hash_to_block p) key b) p).

(** The value of [blk.is_null or (block_mask is not None and not block_mask[i])]; the mask
    has the length of the blocks it is indexed with. *)
Definition masked_out (block_mask : option (list bool)) (i : nat) : bool :=
  match block_mask with None => false | Some m => negb (default true (m !! i)) end.

Section events.
(** SHA-256 and the switch VLLM_KV_EVENTS_USE_INT_BLOCK_HASHES. *)
Context (sha256 : bytes → bytes) (use_int : bool).
Implicit Types request : Request.

Definition _emit_block_removed_events (hs : list bytes) : M BlockPool unit :=
  on ← gets enable_kv_cache_events;
  when on (for_each hs (λ h, add_event (BlockRemoved
    [maybe_convert_block_hash use_int (get_block_hash h)] MEDIUM_GPU (get_group_id h)))).

Definition _build_block_stored_event request (hs : option (list ExternalBlockHash))
    (parent : option ExternalBlockHash) (start_token_idx end_token_idx bsz gid : Z)
    (extra_keys_list : list (option (list ExtraKey))) : KVCacheEvent :=
  BlockStored hs parent (py_slice (_all_token_ids request) start_token_idx end_token_idx) bsz
    (adapter_id <$> lora_request request) MEDIUM_GPU (lora_request_name <$> lora_request request)
    (if decide (extra_keys_list = []) then None else Some extra_keys_list) gid.

(** [block_hashes[start:]]. *)
Definition bhl_from (b : BlockHashList) (start : Z) : option (list bytes) :=
  match b with
  | RawHashes hs => Some (drop (Z.to_nat start) hs)
  | ScaledHashes _ _ => mapM (bhl_get b) (py_range start (bhl_len b))
  end.

(** One iteration of the caching loop of [cache_full_blocks]. *)
Definition cache_full_block (new_block_hashes : list bytes) (num_cached_blocks bsz gid : Z)
    (block_mask : option (list bool)) (new_hashes : option (list ExternalBlockHash))
    (ib : nat * ref) : M BlockPool (option (list ExternalBlockHash)) :=
  let '(i, b) := ib in
  blk ← block b;
  if is_null blk || masked_out block_mask i then mret new_hashes
  else
    block_hash ← lift_option IndexError (new_block_hashes !! i);
    let num_hash_tokens := (num_cached_blocks + Z.of_nat i + 1) * bsz in
    key ← lift_result (make_block_hash_with_group_id block_hash gid);
    when (bool_decide (is_Some (_block_hash blk)))
      (assert (match _block_hash_num_tokens blk with
               | Some n => n <? num_hash_tokens | None => false end);;
       removed_hashes ← _remove_cached_block_hashes b;
       _emit_block_removed_events removed_hashes);;
    _insert_block_hash key b (Some num_hash_tokens);;
    mret ((λ l, l ++ [maybe_convert_block_hash use_int block_hash]) <$> new_hashes).

(** The extra keys of the blocks [cache_full_blocks] reports. *)
Definition stored_extra_keys request (bs : list ref) (num_cached_blocks num_full_blocks bsz : Z)
    (block_mask : option (list bool)) : M BlockPool (list (option (list ExtraKey)) * Z) :=
  fold_each (py_range num_cached_blocks num_full_blocks) (λ acc i,
    b ← lift_option IndexError (py_get bs i);
    blk ← block b;
    if is_null blk || masked_out block_mask (Z.to_nat (i - num_cached_blocks)) then mret acc
    else
      ek ← lift_result (generate_block_hash_extra_keys sha256 request
                          (i * bsz) (i * bsz + bsz) acc.2);
      mret (acc.1 ++ [ek.1], ek.2)) ([], 0).

Definition cache_full_blocks request (bs : list ref)
    (num_cached_blocks num_full_blocks bsz gid : Z) (block_mask : option (list bool))
    : M BlockPool unit :=
  if num_full_blocks <=? num_cached_blocks then mret tt
  else
    let new_full_blocks := py_slice bs num_cached_blocks num_full_blocks in
    assert (match block_mask with
            | None => true | Some m => zlen m =? zlen new_full_blocks end);;
    hbs ← gets hash_block_size;
    bhs ← lift_result (resolve_block_hashes (RawHashes (block_hashes request)) hbs bsz false None);
    new_block_hashes ← lift_option IndexError (bhl_from bhs num_cached_blocks);
    on ← gets enable_kv_cache_events;
    new_hashes ← fold_each (imap pair new_full_blocks)
      (cache_full_block new_block_hashes num_cached_blocks bsz gid block_mask)
      (if on then Some [] else None);
    when on (
      parent ← (if num_cached_blocks =? 0 then mret None
                else h ← lift_option IndexError (bhl_get bhs (num_cached_blocks - 1));
                     mret (Some (maybe_convert_block_hash use_int h)));
      eks ← stored_extra_keys request bs num_cached_blocks num_full_blocks bsz block_mask;
      add_event (_build_block_stored_event request new_hashes parent
        (num_cached_blocks * bsz) (num_full_blocks * bsz) bsz gid eks.1)).

Definition emit_cached_block_events request (num_cached_blocks bsz gid : Z)
    : M BlockPool unit :=
  on ← gets enable_kv_cache_events;
  if negb on || (num_cached_blocks =? 0) then mret tt
  else
    hbs ← gets hash_block_size;
    bhs ← lift_result (resolve_block_hashes (RawHashes (block_hashes request)) hbs bsz false None);
    acc ← fold_each (py_range 0 num_cached_blocks) (λ acc i,
      h ← lift_option IndexError (bhl_get bhs i);
      ek ← lift_result (generate_block_hash_extra_keys sha256 request
                          (i * bsz) (i * bsz + bsz) acc.2);
      mret (acc.1 ++ [(maybe_convert_block_hash use_int h, ek.1)], ek.2)) ([], 0);
    if decide (acc.1 = []) then mret tt
    else add_event (_build_block_stored_event request (Some acc.1.*1) None
           0 (num_cached_blocks * bsz) bsz gid acc.1.*2).

Definition _get_partial_block_hash request (num_tokens : Z) : M BlockPool bytes :=
  hbs ← gets hash_block_size;
  assert (num_tokens mod hbs =? 0);;
  let num_hash_blocks := num_tokens / hbs in
  assert ((0 <? num_hash_blocks) && (num_hash_blocks <=? zlen (block_hashes request)));;
  lift_option IndexError (py_get (block_hashes request) (num_hash_blocks - 1)).

Definition _get_partial_block_parent_hash_and_start request (num_tokens : Z)
    : M BlockPool (option bytes * Z) :=
  hbs ← gets hash_block_size;
  let num_hash_blocks := num_tokens / hbs in
  parent_hash ← (if 1 <? num_hash_blocks
    then Some <$> lift_option IndexError (py_get (block_hashes request) (num_hash_blocks - 2))
    else mret None);
  mret (parent_hash, (num_hash_blocks - 1) * hbs).

Definition cache_partial_block request (b : ref) (num_tokens gid bsz : Z)
    : M BlockPool (option bytes) :=
  blk ← block b;
  if is_null blk then mret None
  else
    hbs ← gets hash_block_size;
    assert (hbs <? bsz);;
    assert (bsz mod hbs =? 0);;
    assert (negb (num_tokens mod bsz =? 0));;
    block_hash ← _get_partial_block_hash request num_tokens;
    let num_hash_blocks := num_tokens / hbs in
    key ← lift_result (make_block_hash_with_group_id block_hash gid);
    m ← gets cached_block_hash_to_block;
    let already_cached :=
      bool_decide (_block_hash blk = Some key) || contain m key (block_id b) in
    when (negb already_cached && bool_decide (is_Some (_block_hash blk))
          && match _block_hash_num_tokens blk with
             | Some n => n <? num_hash_blocks * hbs | None => false end)
      (removed_hashes ← _remove_cached_block_hashes b;
       _emit_block_removed_events removed_hashes);;
    _insert_block_hash key b (Some (num_hash_blocks * hbs));;
    on ← gets enable_kv_cache_events;
    when (on && negb already_cached) (
      ps ← _get_partial_block_parent_hash_and_start request num_tokens;
      let block_start := ps.2 in
      let curr_mm_idx := if 0 <? block_start then -1 else 0 in
      ek ← lift_result (generate_block_hash_extra_keys sha256 request
                          block_start num_tokens curr_mm_idx);
      add_event (BlockStored (Some [maybe_convert_block_hash use_int block_hash])
        (maybe_convert_block_hash use_int <$> ps.1)
        (py_slice (_all_token_ids request) block_start num_tokens) (num_tokens - block_start)
        (adapter_id <$> lora_request request) MEDIUM_GPU
        (lora_request_name <$> lora_request request) (Some [ek.1]) gid));;
    mret (Some key).

Definition move_block_hashes (src_block dst_block : ref) : M BlockPool unit :=
  dst ← block dst_block;
  assert (bool_decide (_block_hash dst = None));;
  p ← get;
  assert (bool_decide (cached_block_hashes_by_block p !! block_id dst_block = None));;
  src ← block src_block;
  hs ← _remove_cached_block_hashes src_block;
  for_each hs (λ h, _insert_block_hash h dst_block (_block_hash_num_tokens src)).

Definition _maybe_evict_cached_block (b : ref) : M BlockPool bool :=
  evicted_hashes ← _remove_cached_block_hashes b;
  if decide (evicted_hashes = []) then mret false
  else _emit_block_removed_events evicted_hashes;; mret true.

(** [assert block.ref_cnt == 0; block.ref_cnt += 1]. *)
Definition acquire (b : ref) : M BlockPool unit :=
  blk ← block b;
  assert (ref_cnt blk =? 0);;
  set_block b (λ blk, with_ref_cnt (ref_cnt blk + 1) blk).

Definition get_num_free_blocks (p : BlockPool) : Z := num_free_blocks (free_block_queue p).

Definition get_new_blocks (num_blocks : Z) : M BlockPool (list ref) :=
  free ← gets get_num_free_blocks;
  if free <? num_blocks then raise ValueError
  else
    ret ← on_queue (popleft_n num_blocks);
    caching ← gets enable_caching;
    (if (caching : bool)
     then for_each ret (λ b, _maybe_evict_cached_block b;; acquire b)
     else for_each ret acquire);;
    mret ret.

Definition touch (bs : list ref) : M BlockPool unit :=
  for_each bs (λ b,
    blk ← block b;
    when ((ref_cnt blk =? 0) && negb (is_null blk)) (on_queue (remove b));;
    set_block b (λ blk, with_ref_cnt (ref_cnt blk + 1) blk)).

(** The classification loop of [free_blocks]: (evict first, evict last). *)
Definition free_block (acc : list ref * list ref) (b : ref)
    : M BlockPool (list ref * list ref) :=
  set_block b (λ blk, with_ref_cnt (ref_cnt blk - 1) blk);;
  blk ← block b;
  if (ref_cnt blk =? 0) && negb (is_null blk) then
    caching ← gets enable_caching;
    mret (if bool_decide (_block_hash blk = None) || negb caching
          then (acc.1 ++ [b], acc.2) else (acc.1, acc.2 ++ [b]))
  else mret acc.

Definition free_blocks (ordered_blocks : list ref) : M BlockPool unit :=
  acc ← fold_each ordered_blocks free_block ([], []);
  on_queue (prepend_n acc.1);;
  on_queue (append_n acc.2).

(** [block_ids] is the set in its iteration order. *)
Definition evict_blocks (block_ids : list Z) : M BlockPool unit :=
  for_each block_ids (λ i,
    p ← get;
    assert (i <? zlen (blocks p));;
    b ← lift_option IndexError (py_get (blocks p) i);
    _maybe_evict_cached_block b;; mret tt).

Definition reset_prefix_cache : M BlockPool bool :=
  p ← get;
  let num_used_blocks := num_gpu_blocks p - get_num_free_blocks p in
  if negb (num_used_blocks =? 1) then mret false
  else
    modify (set_cached ∅);;
    modify (set_by_block ∅);;
    for_each (blocks p) (λ b, on_queue (reset_hash b));;
    when (enable_kv_cache_events p) (add_event AllBlocksCleared);;
    mret true.

Definition take_events : M BlockPool (list KVCacheEvent) :=
  p ← get;
  if negb (enable_kv_cache_events p) then mret []
  else modify (set_events []);; mret (kv_event_queue p).
End events.
