(* ===== verification/BlockPoolFacts.v ===== *)
(** Correctness of the block pool: the prefix-cache index is a set of blocks per key, the
    pool invariant ties free list, reference counts and index together, every operation has
    a total-correctness specification that preserves it, and the reachable states of a pool
    satisfy it. *)

From S2P Require Import Prelude Request BlockHash BlockHashFacts FreeQueue FreeQueueFacts.
From S2P Require Import BlockPool.

Set Warnings "-level-tolerance,-clear-no-such-hyp".
Implicit Types m : BlockHashToBlockMap.

(** ** The index as blocks per key *)

Definition is_blk (r : ref) : Prop := ∃ i, r = Blk i.

Lemma block_id_inj r r' : is_blk r → is_blk r' → block_id r = block_id r' → r = r'.
Proof. intros [i ->] [j ->]. simpl. intros. f_equal. lia. Qed.

(** The blocks of a key, in dict order. *)
Definition entry_refs (o : option CacheEntry) : list ref :=
  match o with None => [] | Some (Single b) => [b] | Some (Multi d) => d.*2 end.
Definition refs_at m (k : bytes) : list ref := entry_refs (m !! k).

Definition wf_dict (d : list (Z * ref)) : Prop :=
  NoDup d.*2 ∧ Forall (λ x, x.1 = block_id x.2 ∧ is_blk x.2) d.
Definition wf_entry (e : CacheEntry) : Prop :=
  match e with Single b => is_blk b | Multi d => d ≠ [] ∧ wf_dict d end.
Definition wf_map m : Prop := map_Forall (λ _, wf_entry) m.

Section index.
Implicit Types (d : list (Z * ref)) (k : bytes) (r : ref).

Lemma wf_dict_cons x d :
  wf_dict (x :: d) ↔ x.2 ∉ d.*2 ∧ x.1 = block_id x.2 ∧ is_blk x.2 ∧ wf_dict d.
Proof. unfold wf_dict. rewrite fmap_cons, NoDup_cons, Forall_cons. tauto. Qed.

Lemma dict_get_spec d r :
  wf_dict d → is_blk r → dict_get d (block_id r) = if decide (r ∈ d.*2) then Some r else None.
Proof.
  intros Hd Hr. induction d as [|[j c] d IH]; [done|].
  apply wf_dict_cons in Hd as (Hc & Hj & Hb & Hd). simpl in *. subst j.
  destruct (Z.eqb_spec (block_id c) (block_id r)) as [E|E].
  - apply block_id_inj in E as ->; [|done..]. rewrite decide_True by left. done.
  - rewrite IH by done. destruct (decide (r ∈ d.*2)).
    + rewrite decide_True by (by right). done.
    + rewrite decide_False; [done|]. rewrite elem_of_cons. intros [->|?]; done.
Qed.

Lemma dict_set_spec d r :
  wf_dict d → is_blk r → r ∉ d.*2 →
  dict_set d (block_id r) r = d ++ [(block_id r, r)].
Proof.
  intros Hd Hr Hnin. induction d as [|[j c] d IH]; [done|].
  apply wf_dict_cons in Hd as (Hc & Hj & Hb & Hd). simpl in *. subst j.
  apply not_elem_of_cons in Hnin as [Hne Hnin].
  destruct (Z.eqb_spec (block_id c) (block_id r)) as [E|E].
  - apply block_id_inj in E as ->; done.
  - by rewrite IH.
Qed.

Lemma dict_del_spec d r :
  wf_dict d → is_blk r →
  (dict_del d (block_id r)).*2 = filter (.≠ r) d.*2 ∧ wf_dict (dict_del d (block_id r)).
Proof.
  intros Hd Hr. unfold dict_del. induction d as [|[j c] d IH]; [done|].
  apply wf_dict_cons in Hd as (Hc & Hj & Hb & Hd). destruct (IH Hd) as [IH1 IH2].
  rewrite fmap_cons, !filter_cons. simpl in *. subst j.
  destruct (decide (c = r)) as [->|Hne].
  - rewrite !decide_False by (intros H; by apply H). done.
  - rewrite (decide_True (P := c ≠ r)) by done. rewrite decide_True.
    + rewrite fmap_cons, wf_dict_cons. simpl. rewrite IH1. split_and!; [done| |done..].
      rewrite list_elem_of_filter. tauto.
    + intros E. by apply Hne, block_id_inj.
Qed.

Lemma refs_at_nodup m k : wf_map m → NoDup (refs_at m k).
Proof.
  intros Hm. unfold refs_at. destruct (m !! k) as [[b|d]|] eqn:E; simpl.
  - apply NoDup_singleton.
  - apply (Hm _ _ E).
  - constructor.
Qed.

Lemma refs_at_blk m k r : wf_map m → r ∈ refs_at m k → is_blk r.
Proof.
  intros Hm. unfold refs_at. destruct (m !! k) as [[b|d]|] eqn:E; simpl.
  - intros ->%list_elem_of_singleton. apply (Hm _ _ E).
  - destruct (Hm _ _ E) as [_ [_ Hd]]. intros (x & -> & Hx)%list_elem_of_fmap.
    rewrite Forall_forall in Hd. by apply Hd.
  - by intros ?%elem_of_nil.
Qed.

Lemma get_one_block_spec m k : wf_map m → get_one_block m k = head (refs_at m k).
Proof.
  intros Hm. unfold get_one_block, refs_at. destruct (m !! k) as [[b|d]|] eqn:E; [done| |done].
  by destruct d.
Qed.

Lemma contain_spec m k r :
  wf_map m → is_blk r → contain m k (block_id r) = bool_decide (r ∈ refs_at m k).
Proof.
  intros Hm Hr. unfold contain, refs_at. destruct (m !! k) as [[b|d]|] eqn:E; simpl.
  - destruct (Z.eqb_spec (block_id b) (block_id r)) as [Eb|Eb]; symmetry.
    + apply block_id_inj in Eb as ->; [|apply (Hm _ _ E)|done].
      apply bool_decide_eq_true. left.
    + apply bool_decide_eq_false. intros ->%list_elem_of_singleton. done.
  - rewrite dict_get_spec; [|apply (Hm _ _ E)|done]. apply bool_decide_ext.
    case_decide; split; try done; by intros [? ?].
  - done.
Qed.

Lemma wf_map_insert m k e : wf_map m → wf_entry e → wf_map (<[k := e]> m).
Proof. intros ? ?. by apply map_Forall_insert_2. Qed.

Lemma refs_at_insert m k k' e :
  refs_at (<[k := e]> m) k' = if decide (k = k') then entry_refs (Some e) else refs_at m k'.
Proof. unfold refs_at. rewrite lookup_insert. by case_decide. Qed.
Lemma refs_at_delete m k k' :
  refs_at (delete k m) k' = if decide (k = k') then [] else refs_at m k'.
Proof. unfold refs_at. rewrite lookup_delete. by case_decide. Qed.

(** [insert] adds the block at the end of its key. *)
Lemma map_insert_spec m k r :
  wf_map m → is_blk r → r ∉ refs_at m k →
  wf_map (map_insert m k r)
  ∧ ∀ k', refs_at (map_insert m k r) k' = if decide (k = k') then refs_at m k ++ [r] else refs_at m k'.
Proof.
  intros Hm Hr Hnin. unfold map_insert. unfold refs_at in Hnin at 1.
  assert (∀ d, wf_dict d → r ∉ d.*2 → wf_entry (Multi (dict_set d (block_id r) r))) as Hdict.
  { intros d Hd Hn. rewrite dict_set_spec by done. split; [by destruct d|].
    destruct Hd as [Hnd Hf]. split.
    - rewrite fmap_app. apply NoDup_app. split_and!; [done| |apply NoDup_singleton].
      intros x Hx ->%list_elem_of_singleton. done.
    - rewrite Forall_app, Forall_singleton. done. }
  destruct (m !! k) as [[b|d]|] eqn:E; simpl in Hnin.
  - assert (wf_dict [(block_id b, b)]) as Hb.
    { rewrite wf_dict_cons. split_and!; [apply not_elem_of_nil|done|apply (Hm _ _ E)|].
      split; constructor. }
    split; [apply wf_map_insert; [done|by apply Hdict]|]. intros k'. rewrite refs_at_insert.
    case_decide; [|done]. rewrite dict_set_spec by done. unfold refs_at. by rewrite E.
  - pose proof (Hm _ _ E) as [? Hd].
    split; [apply wf_map_insert; [done|by apply Hdict]|]. intros k'. rewrite refs_at_insert.
    case_decide; [|done]. rewrite dict_set_spec by done. unfold refs_at. rewrite E.
    simpl. by rewrite fmap_app.
  - split; [by apply wf_map_insert|]. intros k'. rewrite refs_at_insert.
    case_decide; [|done]. unfold refs_at. by rewrite E.
Qed.

(** [pop] removes the block from its key and returns it if it was there. *)
Lemma map_pop_spec m k r :
  wf_map m → is_blk r →
  let res := map_pop m k (block_id r) in
  res.1 = (if decide (r ∈ refs_at m k) then Some r else None) ∧ wf_map res.2
  ∧ ∀ k', refs_at res.2 k' = if decide (k = k') then filter (.≠ r) (refs_at m k) else refs_at m k'.
Proof.
  intros Hm Hr. unfold map_pop.
  assert (wf_map (delete k m)) as Hdel by by apply map_Forall_delete.
  destruct (m !! k) as [[b|d]|] eqn:E; simpl.
  - assert (refs_at m k = [b]) as Hk by (unfold refs_at; by rewrite E).
    pose proof (Hm _ _ E) as Hb. simpl in Hb. rewrite Hk.
    destruct (Z.eqb_spec (block_id b) (block_id r)) as [Eb|Eb]; simpl.
    + apply block_id_inj in Eb as ->; [|done..]. rewrite decide_True by left.
      split_and!; [done..|]. intros k'. rewrite refs_at_delete.
      by rewrite filter_cons_False by (intros H; by apply H).
    + rewrite decide_False by (intros ->%list_elem_of_singleton; done).
      split_and!; [done..|]. intros k'. case_decide as Hkk; [|done]. subst k'.
      by rewrite filter_cons_True by congruence.
  - assert (refs_at m k = d.*2) as Hk by (unfold refs_at; by rewrite E).
    pose proof (Hm _ _ E) as [Hne Hd]. rewrite Hk.
    destruct (dict_del_spec d r Hd Hr) as [Hs Hwf]. rewrite dict_get_spec by done.
    split; [done|]. case_decide as Hemp; simpl.
    + split; [done|]. intros k'. rewrite refs_at_delete. case_decide; [|done].
      by rewrite <-Hs, Hemp.
    + split; [by apply wf_map_insert|]. intros k'. rewrite refs_at_insert.
      by case_decide.
  - assert (refs_at m k = []) as Hk by (unfold refs_at; by rewrite E).
    rewrite Hk. split_and!; [|done|].
    + rewrite decide_False; [done|apply not_elem_of_nil].
    + intros k'. by case_decide; [subst|].
Qed.
End index.

(** ** Views of the pool and its invariant *)

Definition bk (p : BlockPool) (r : ref) : option KVCacheBlock := q_store (free_block_queue p) !! r.
Definition rc (p : BlockPool) (r : ref) : Z := from_option ref_cnt 0 (bk p r).
Definition hash_of (p : BlockPool) (r : ref) : option bytes := bk p r ≫= _block_hash.
Definition ntok_of (p : BlockPool) (r : ref) : option Z := bk p r ≫= _block_hash_num_tokens.
Definition extra_of (p : BlockPool) (r : ref) : gset bytes :=
  default ∅ (cached_block_hashes_by_block p !! block_id r).
(** The blocks the index maps a key to. *)
Definition cached_at (p : BlockPool) (k : bytes) : list ref :=
  refs_at (cached_block_hash_to_block p) k.
(** The keys recorded on a block: its primary hash and its further (partial) hashes. *)
Definition owns (p : BlockPool) (r : ref) (k : bytes) : Prop :=
  hash_of p r = Some k ∨ k ∈ extra_of p r.
#[global] Instance owns_dec p r k : Decision (owns p r k).
Proof. unfold owns. apply _. Defined.

(** A block of the pool that is not the null block. *)
Definition usable (p : BlockPool) (r : ref) : Prop :=
  ∃ i, r = Blk i ∧ (0 < i)%nat ∧ Z.of_nat i < num_gpu_blocks p.
Definition in_pool (p : BlockPool) (r : ref) : Prop :=
  ∃ i, r = Blk i ∧ Z.of_nat i < num_gpu_blocks p.

(** What the attributes of block [i] satisfy when [z] are the blocks without references. *)
Record block_ok (z : list ref) (i : nat) (b : KVCacheBlock) : Prop := {
  ok_null : is_null b = bool_decide (i = 0%nat);
  ok_null_hash : i = 0%nat → _block_hash b = None ∧ Blk 0 ∉ z;
  ok_rc : i ≠ 0%nat → 0 ≤ ref_cnt b ∧ (Blk i ∈ z ↔ ref_cnt b = 0);
  ok_ntok : is_Some (_block_hash b) ↔ is_Some (_block_hash_num_tokens b);
}.

(** The representation invariant: the free list is [l] and the blocks without references are
    [z].  Inside an operation the two can differ; between operations they agree. *)
Record pool_rep (p : BlockPool) (l z : list ref) : Prop := {
  inv_size : 0 < num_gpu_blocks p;
  inv_store : store_of (Z.to_nat (num_gpu_blocks p)) (free_block_queue p);
  inv_queue : queue_rep (free_block_queue p) l;
  inv_null : null_block p = Blk 0;
  inv_blocks : ∀ i b, bk p (Blk i) = Some b → block_ok z i b;
  inv_extra : ∀ j s, cached_block_hashes_by_block p !! j = Some s →
    s ≠ ∅ ∧ ∃ i h, j = Z.of_nat i ∧ hash_of p (Blk i) = Some h ∧ h ∉ s;
  inv_wf : wf_map (cached_block_hash_to_block p);
  inv_index : ∀ k r, r ∈ cached_at p k ↔ is_blk r ∧ owns p r k;
}.

(** The pool invariant, with the free list [l] in eviction order. *)
Definition pool_inv (p : BlockPool) (l : list ref) : Prop := pool_rep p l l.

(** The configuration, which no operation changes. *)
Definition same_conf (p p' : BlockPool) : Prop :=
  num_gpu_blocks p' = num_gpu_blocks p ∧ enable_caching p' = enable_caching p
  ∧ hash_block_size p' = hash_block_size p ∧ null_block p' = null_block p
  ∧ enable_kv_cache_events p' = enable_kv_cache_events p.
#[global] Instance same_conf_equivalence : Equivalence same_conf.
Proof. split; repeat intro; unfold same_conf in *; naive_solver congruence. Qed.

(** Reference counts are unchanged. *)
Definition same_rc (p p' : BlockPool) : Prop := ∀ r, rc p' r = rc p r.
(** Hashes and index are unchanged. *)
Definition same_hashes (p p' : BlockPool) : Prop :=
  (∀ r, hash_of p' r = hash_of p r ∧ ntok_of p' r = ntok_of p r ∧ extra_of p' r = extra_of p r)
  ∧ ∀ k, cached_at p' k = cached_at p k.

#[global] Instance same_rc_equivalence : Equivalence same_rc.
Proof. split; repeat intro; unfold same_rc in *; congruence. Qed.
#[global] Instance same_hashes_equivalence : Equivalence same_hashes.
Proof.
  split.
  - split; done.
  - intros p p' [H1 H2]. split; [|done]. intros r. destruct (H1 r) as (? & ? & ?). done.
  - intros p p' p'' [H1 H2] [H3 H4]. split; [|congruence].
    intros r. destruct (H1 r) as (? & ? & ?), (H3 r) as (? & ? & ?). split_and!; congruence.
Qed.

Section views.
Context (p : BlockPool) (l z : list ref) (Hinv : pool_rep p l z).

Lemma inv_in_pool r : in_pool p r ↔ is_blk r ∧ is_Some (bk p r).
Proof.
  unfold bk. rewrite (inv_store _ _ _ Hinv r), list_elem_of_fmap. split.
  - intros (i & -> & Hi). split; [by exists i|]. right. right. exists i.
    rewrite elem_of_seq. pose proof (inv_size _ _ _ Hinv). split; [done|lia].
  - intros [[i ->] [?|[?|(j & [= ->] & Hj%elem_of_seq)]]]; [done..|]. exists j. split; [done|].
    pose proof (inv_size _ _ _ Hinv). lia.
Qed.

Lemma usable_in_pool r : usable p r → in_pool p r.
Proof. intros (i & -> & ? & ?). by exists i. Qed.

Lemma usable_ok r : usable p r → ∃ i b, r = Blk i ∧ bk p r = Some b ∧ block_ok z i b ∧ is_null b = false
  ∧ 0 ≤ ref_cnt b ∧ (r ∈ z ↔ ref_cnt b = 0).
Proof.
  intros Hu. pose proof (proj1 (inv_in_pool r) (usable_in_pool _ Hu)) as [_ [b Hb]].
  destruct Hu as (i & -> & Hi & _). exists i, b.
  pose proof (inv_blocks _ _ _ Hinv _ _ Hb) as Hok.
  split_and!; [done..| |apply (ok_rc _ _ _ Hok); lia|apply (ok_rc _ _ _ Hok); lia].
  rewrite (ok_null _ _ _ Hok). apply bool_decide_eq_false. lia.
Qed.

Lemma in_pool_null r b : in_pool p r → bk p r = Some b → is_null b = bool_decide (r = null_block p).
Proof.
  intros (i & -> & _) Hb. rewrite (ok_null _ _ _ (inv_blocks _ _ _ Hinv _ _ Hb)), (inv_null _ _ _ Hinv).
  apply bool_decide_ext. split; [by intros ->|by intros [= ->]].
Qed.

Lemma in_pool_usable r : in_pool p r → r ≠ null_block p → usable p r.
Proof.
  rewrite (inv_null _ _ _ Hinv). intros (i & -> & Hi) Hne. exists i. split_and!; [done| |done].
  destruct i; [done|lia].
Qed.

Lemma extra_usable r : is_blk r → extra_of p r ≠ ∅ → ∃ h, hash_of p r = Some h ∧ h ∉ extra_of p r.
Proof.
  intros [i ->] He. unfold extra_of in *.
  destruct (cached_block_hashes_by_block p !! block_id (Blk i)) as [s|] eqn:E; [|done].
  apply (inv_extra _ _ _ Hinv) in E as (_ & j & h & E & Hh & Hn). simpl in E.
  replace j with i in * by lia. eauto.
Qed.

Lemma owns_hash r k : is_blk r → owns p r k → is_Some (hash_of p r).
Proof.
  intros Hr [?|He]; [by eexists|]. destruct (extra_usable r Hr) as (h & ? & _); [|by exists h].
  intros H. by rewrite H in He.
Qed.

Lemma hash_usable r k : is_blk r → owns p r k → usable p r.
Proof.
  intros Hr Ho. destruct (owns_hash _ _ Hr Ho) as [h Hh]. destruct Hr as [i ->].
  unfold hash_of in Hh. destruct (bk p (Blk i)) as [b|] eqn:Hb; [|done].
  assert (in_pool p (Blk i)) as (j & [= <-] & Hj).
  { apply inv_in_pool. split; [by exists i|by exists b]. }
  exists i. split_and!; [done| |done]. destruct i; [|lia]. simpl in Hh.
  pose proof (inv_blocks _ _ _ Hinv _ _ Hb) as Hok.
  destruct (ok_null_hash _ _ _ Hok eq_refl). congruence.
Qed.

Lemma cached_usable k r : r ∈ cached_at p k → usable p r ∧ owns p r k.
Proof. intros [Hr Ho]%(inv_index _ _ _ Hinv). split; [by eapply hash_usable|done]. Qed.

Lemma inv_num_free : get_num_free_blocks p = zlen l.
Proof. apply (inv_queue _ _ _ Hinv). Qed.

Lemma inv_nodup : NoDup l.
Proof.
  pose proof (rep_nodup _ _ (inv_queue _ _ _ Hinv)) as [_ Hnd]%NoDup_cons.
  by apply NoDup_app in Hnd as (Hnd & _).
Qed.
End views.

(** The free blocks are exactly the usable blocks without references. *)
Lemma free_iff p l r : pool_inv p l →  r ∈ l ↔ usable p r ∧ rc p r = 0.
Proof.
  intros Hinv. split.
  - intros Hr. assert (is_Some (bk p r)) as [b Hb].
    { apply (rep_in _ _ _ (inv_queue _ _ _ Hinv)). right. apply elem_of_app. by left. }
    destruct (rep_elem_ne _ _ _ (inv_queue _ _ _ Hinv) Hr) as [HH HT].
    destruct r as [| |i]; [done..|].
    pose proof (inv_blocks _ _ _ Hinv _ _ Hb) as Hok.
    assert (i ≠ 0%nat) as Hi by (intros ->; by apply (ok_null_hash _ _ _ Hok)).
    assert (in_pool p (Blk i)) as (j & [= <-] & Hj).
    { apply (inv_in_pool _ _ _ Hinv). split; [by exists i|by exists b]. }
    split; [exists i; split_and!; [done|lia|done]|].
    unfold rc. rewrite Hb. simpl. by apply (ok_rc _ _ _ Hok).
  - intros [Hu Hrc]. destruct (usable_ok _ _ _ Hinv _ Hu) as (i & b & -> & Hb & _ & _ & _ & ->).
    unfold rc in Hrc. by rewrite Hb in Hrc.
Qed.

(** ** Updates of one block *)

Definition upd_block (r : ref) (f : KVCacheBlock → KVCacheBlock) (p : BlockPool) : BlockPool :=
  set_queue (mkQueue (alter f r (q_store (free_block_queue p)))
               (num_free_blocks (free_block_queue p))) p.

(** Updates that leave the links of the free list alone. *)
Definition keeps_links (f : KVCacheBlock → KVCacheBlock) : Prop :=
  ∀ b, prev_free_block (f b) = prev_free_block b ∧ next_free_block (f b) = next_free_block b.

Lemma keeps_links_rc (g : KVCacheBlock → Z) : keeps_links (λ b, with_ref_cnt (g b) b).
Proof. done. Qed.
Lemma keeps_links_hash h n : keeps_links (with_hash h n).
Proof. done. Qed.
Lemma keeps_links_null x : keeps_links (with_null x).
Proof. done. Qed.
#[export] Hint Resolve keeps_links_rc keeps_links_hash keeps_links_null : vllm.

Section updates.
Implicit Types (p : BlockPool) (l : list ref).

Lemma bk_upd_block p r f r' :
  bk (upd_block r f p) r' = if decide (r = r') then f <$> bk p r' else bk p r'.
Proof. unfold bk. simpl. rewrite lookup_alter. by case_decide; subst. Qed.

Lemma linked_ext σ σ' L :
  (∀ r, nxt σ' r = nxt σ r) → (∀ r, prv σ' r = prv σ r) → linked σ L → linked σ' L.
Proof.
  intros Hn Hp. induction L as [|a L IH]; [done|]. destruct L as [|b L]; [done|].
  intros [[? ?] ?]. split; [|by apply IH]. split; [by rewrite Hn|by rewrite Hp].
Qed.

Lemma links_alter f r σ :
  keeps_links f → (∀ r', nxt (alter f r σ) r' = nxt σ r') ∧ (∀ r', prv (alter f r σ) r' = prv σ r').
Proof.
  intros Hf. split; intros r'; unfold nxt, prv; rewrite lookup_alter; case_decide; try done;
    subst; destruct (σ !! r') as [b|]; simpl; try done; apply Hf.
Qed.

Lemma rep_upd_block r f q l :
  keeps_links f → queue_rep q l →
  queue_rep (mkQueue (alter f r (q_store q)) (num_free_blocks q)) l.
Proof.
  intros Hf [Hl Hnd Hnum Ht Hh Ho]. destruct (links_alter f r (q_store q) Hf) as [Hn Hp].
  split; cbn [q_store num_free_blocks]; try done.
  - by eapply linked_ext.
  - by rewrite Hn.
  - by rewrite Hp.
  - intros r' ? ? ?. rewrite Hn, Hp. by apply Ho.
Qed.

Lemma store_of_upd_block n r f q :
  store_of n q → store_of n (mkQueue (alter f r (q_store q)) (num_free_blocks q)).
Proof.
  intros H r'. rewrite <-(H r'). simpl. rewrite lookup_alter. case_decide; [subst|done].
  by rewrite fmap_is_Some.
Qed.

Lemma set_queue_id p : set_queue (free_block_queue p) p = p.
Proof. by destruct p. Qed.

Lemma wp_block r b Q p : bk p r = Some b → Q b p → wp (block r) Q p.
Proof.
  intros Hb HQ. apply wp_zoom. unfold load. exists b, (free_block_queue p).
  unfold bk in Hb. rewrite Hb, set_queue_id. done.
Qed.

Lemma wp_set_block r f Q p :
  is_Some (bk p r) → Q tt (upd_block r f p) → wp (set_block r f) Q p.
Proof. intros Hb HQ. apply wp_zoom, wp_update; done. Qed.

Lemma wp_reset_hash r Q p :
  is_Some (bk p r) → Q tt (upd_block r (with_hash None None) p) →
  wp (on_queue (reset_hash r)) Q p.
Proof. apply wp_set_block. Qed.

Lemma wp_set_block_hash r b h n Q p :
  bk p r = Some b → _block_hash b = None → _block_hash_num_tokens b = None →
  Q tt (upd_block r (with_hash (Some h) n) p) → wp (on_queue (set_block_hash r h n)) Q p.
Proof.
  intros Hb Hh Hn HQ. apply wp_zoom. unfold set_block_hash, load. apply wp_bind.
  exists b, (free_block_queue p). unfold bk in Hb. rewrite Hb. split; [done|]. simpl.
  apply wp_bind, wp_assert; [by rewrite !bool_decide_eq_true_2|].
  apply wp_update; [by exists b|]. done.
Qed.

(** The part of the invariant that hash updates must re-establish. *)
Lemma pool_inv_hashes p p' l z :
  pool_rep p l z → same_conf p p' → queue_rep (free_block_queue p') l →
  store_of (Z.to_nat (num_gpu_blocks p)) (free_block_queue p') →
  (∀ i b', bk p' (Blk i) = Some b' → ∃ b, bk p (Blk i) = Some b
     ∧ ref_cnt b' = ref_cnt b ∧ is_null b' = is_null b
     ∧ (is_Some (_block_hash b') ↔ is_Some (_block_hash_num_tokens b'))
     ∧ (i = 0%nat → _block_hash b' = None)) →
  (∀ j s, cached_block_hashes_by_block p' !! j = Some s →
    s ≠ ∅ ∧ ∃ i h, j = Z.of_nat i ∧ hash_of p' (Blk i) = Some h ∧ h ∉ s) →
  wf_map (cached_block_hash_to_block p') →
  (∀ k r, r ∈ cached_at p' k ↔ is_blk r ∧ owns p' r k) →
  pool_rep p' l z.
Proof.
  intros Hinv (Hn & _ & _ & Hnull & _) Hq Hs Hb He Hwf Hix. split; try done.
  - rewrite Hn. apply Hinv.
  - by rewrite Hn.
  - rewrite Hnull. apply Hinv.
  - intros i b' Hb'. destruct (Hb i b' Hb') as (b & Hb0 & Hrc & Hnl & Hnt & Hz).
    pose proof (inv_blocks _ _ _ Hinv _ _ Hb0) as Hok. split.
    + rewrite Hnl. apply Hok.
    + intros Hi. split; [by apply Hz|]. by apply (ok_null_hash _ _ _ Hok).
    + rewrite Hrc. apply Hok.
    + done.
Qed.

(** Events do not matter to the invariant. *)
Lemma pool_inv_events p l z es : pool_rep p l z → pool_rep (set_events es p) l z.
Proof. intros [Hn Hs Hq Hnull Hb He Hwf Hix]. by split. Qed.
End updates.

(** [p'] is [p] up to its event queue. *)
Definition up_to_events (p p' : BlockPool) : Prop := ∃ es, p' = set_events es p.
#[global] Instance up_to_events_equivalence : Equivalence up_to_events.
Proof.
  split.
  - intros p. exists (kv_event_queue p). by destruct p.
  - intros p p' [es ->]. exists (kv_event_queue p). by destruct p.
  - intros p p' p'' [es ->] [es' ->]. by exists es'.
Qed.

Lemma up_to_events_inv p p' l z : up_to_events p p' → pool_rep p l z → pool_rep p' l z.
Proof. intros [es ->]. apply pool_inv_events. Qed.
Lemma up_to_events_views p p' :
  up_to_events p p' → same_conf p p' ∧ same_rc p p' ∧ same_hashes p p'.
Proof. intros [es ->]. split_and!; [done..|]. split; done. Qed.

(** ** Removing the entries of a block *)

Section remove.
Implicit Types (p : BlockPool) (l : list ref) (r b : ref) (k h : bytes).

Lemma pop_loop_spec p b hs acc :
  wf_map (cached_block_hash_to_block p) → is_blk b → NoDup hs →
  wp (fold_each hs (λ acc h,
        r ← pop_cached h (block_id b);
        mret (if decide (is_Some r) then acc ++ [h] else acc)) acc)
    (λ acc' p', acc' = acc ++ filter (λ h, b ∈ cached_at p h) hs
      ∧ ∃ m', p' = set_cached m' p ∧ wf_map m'
      ∧ ∀ k, refs_at m' k = if decide (k ∈ hs) then filter (.≠ b) (cached_at p k) else cached_at p k) p.
Proof.
  revert p acc. induction hs as [|h hs IH]; intros p acc Hwf Hb Hnd; simpl.
  { apply wp_ret. rewrite app_nil_r. split; [done|].
    exists (cached_block_hash_to_block p). by destruct p. }
  apply NoDup_cons in Hnd as [Hh Hnd].
  pose proof (map_pop_spec (cached_block_hash_to_block p) h b Hwf Hb) as (Hres & Hwf' & Hk).
  destruct (map_pop (cached_block_hash_to_block p) h (block_id b)) as [o m1] eqn:E. simpl in *.
  apply wp_bind, wp_bind. exists o, (set_cached m1 p). unfold pop_cached. rewrite E.
  split; [done|]. apply wp_ret.
  eapply wp_mono; [apply (IH (set_cached m1 p)); done|].
  intros acc' p' (-> & m' & -> & Hm' & Hk'). split.
  - rewrite filter_cons.
    replace (filter (λ h0, b ∈ cached_at (set_cached m1 p) h0) hs)
      with (filter (λ h0, b ∈ cached_at p h0) hs).
    + subst o. unfold cached_at at 3.
      destruct (decide (b ∈ refs_at (cached_block_hash_to_block p) h)).
      * rewrite decide_True by eauto. by rewrite <-(assoc_L (++)).
      * rewrite decide_False by (by intros [? ?]). done.
    + clear -Hh Hk. induction hs as [|x hs IH]; [done|].
      apply not_elem_of_cons in Hh as [Hne Hh]. rewrite !filter_cons, (IH Hh).
      assert (cached_at (set_cached m1 p) x = cached_at p x) as Hx.
      { unfold cached_at. simpl. by rewrite (Hk x), decide_False. }
      by repeat case_decide; rewrite ?Hx in *.
  - exists m'. split_and!; [done..|]. intros k. rewrite Hk'. unfold cached_at. simpl.
    rewrite (Hk k). destruct (decide (h = k)) as [<-|Hne].
    + rewrite (decide_True (P := h ∈ h :: hs)) by left. by rewrite decide_False.
    + destruct (decide (k ∈ hs)).
      * by rewrite decide_True by (by right).
      * rewrite decide_False; [done|]. rewrite elem_of_cons. naive_solver.
Qed.

(** The keys a block is registered under, as the code enumerates them. *)
Definition keys_of p r : list bytes := option_list (hash_of p r) ++ elements (extra_of p r).

Lemma elem_of_keys_of p r k : k ∈ keys_of p r ↔ owns p r k.
Proof.
  unfold keys_of, owns. rewrite elem_of_app, elem_of_elements.
  destruct (hash_of p r); simpl; rewrite ?list_elem_of_singleton, ?elem_of_nil; naive_solver.
Qed.

Lemma keys_of_nodup p l z r : pool_rep p l z → is_blk r → NoDup (keys_of p r).
Proof.
  intros Hinv Hr. unfold keys_of.
  destruct (hash_of p r) as [h|] eqn:E; simpl; [|apply NoDup_elements].
  apply NoDup_cons. split; [|apply NoDup_elements]. rewrite elem_of_elements. intros Hh.
  destruct (extra_usable _ _ _ Hinv r Hr) as (h' & ? & ?); [|by simplify_eq].
  intros H. by rewrite H in Hh.
Qed.

(** [p'] is [p] with the blocks [xs] unregistered from the prefix cache. *)
Record forgotten p (xs : list ref) p' : Prop := {
  fg_conf : same_conf p p';
  fg_self : ∀ r, r ∈ xs → hash_of p' r = None ∧ ntok_of p' r = None ∧ extra_of p' r = ∅;
  fg_other : ∀ r, is_blk r → r ∉ xs →
    hash_of p' r = hash_of p r ∧ ntok_of p' r = ntok_of p r ∧ extra_of p' r = extra_of p r;
  fg_cached : ∀ k, cached_at p' k = filter (.∉ xs) (cached_at p k);
}.

Lemma filter_singleton (ls : list ref) b : filter (.≠ b) ls = filter (.∉ [b]) ls.
Proof. apply list_filter_iff. intros r. by rewrite list_elem_of_singleton. Qed.

Lemma extra_of_delete p b r :
  is_blk b → is_blk r →
  default ∅ (delete (block_id b) (cached_block_hashes_by_block p) !! block_id r)
  = if decide (r = b) then ∅ else extra_of p r.
Proof.
  intros Hb Hr. unfold extra_of. rewrite lookup_delete. destruct (decide (r = b)) as [->|Hne].
  - by rewrite decide_True.
  - rewrite decide_False; [done|]. intros E. by apply Hne, block_id_inj.
Qed.

Lemma hash_of_upd p b f r :
  hash_of (upd_block b f p) r = if decide (b = r) then (f <$> bk p r) ≫= _block_hash else hash_of p r.
Proof. unfold hash_of. rewrite bk_upd_block. by case_decide. Qed.
Lemma ntok_of_upd p b f r :
  ntok_of (upd_block b f p) r
  = if decide (b = r) then (f <$> bk p r) ≫= _block_hash_num_tokens else ntok_of p r.
Proof. unfold ntok_of. rewrite bk_upd_block. by case_decide. Qed.

Lemma same_rc_upd_hash p b o n : same_rc p (upd_block b (with_hash o n) p).
Proof.
  intros r. unfold rc. rewrite bk_upd_block. case_decide; [|done]. by destruct (bk p r).
Qed.

(** The state after the pops and the reset. *)
Lemma forget_state p l z b m' :
  pool_rep p l z → in_pool p b → wf_map m' →
  (∀ k, refs_at m' k = if decide (k ∈ keys_of p b) then filter (.≠ b) (cached_at p k) else cached_at p k) →
  let p' := upd_block b (with_hash None None)
              (set_cached m' (set_by_block (delete (block_id b) (cached_block_hashes_by_block p)) p)) in
  pool_rep p' l z ∧ forgotten p [b] p' ∧ same_rc p p'.
Proof.
  intros Hinv Hpool Hwf Hm'.
  pose proof (proj1 (inv_in_pool _ _ _ Hinv b) Hpool) as [Hb [blk Hblk]].
  assert (∀ k, refs_at m' k = filter (.≠ b) (cached_at p k)) as Hm.
  { intros k. rewrite Hm'. case_decide as Hk; [done|]. rewrite elem_of_keys_of in Hk.
    rewrite filter_ne_id; [done|]. rewrite (inv_index _ _ _ Hinv). tauto. }
  intros p'.
  assert (forgotten p [b] p') as Hfg.
  { split; [done| | |].
    - intros r ->%list_elem_of_singleton. split_and!.
      + unfold p'. rewrite hash_of_upd, decide_True by done. by destruct (bk _ b).
      + unfold p'. rewrite ntok_of_upd, decide_True by done. by destruct (bk _ b).
      + unfold extra_of. simpl. rewrite extra_of_delete by done. by rewrite decide_True.
    - intros r Hr Hne%not_elem_of_cons. destruct Hne as [Hne _]. split_and!.
      + unfold p'. by rewrite hash_of_upd, decide_False.
      + unfold p'. by rewrite ntok_of_upd, decide_False.
      + unfold extra_of at 1. simpl. rewrite extra_of_delete by done. by rewrite decide_False.
    - intros k. unfold cached_at at 1. simpl. rewrite Hm. apply filter_singleton. }
  split; [|split; [done|exact (same_rc_upd_hash (set_cached m' (set_by_block _ p)) b None None)]].
  destruct Hfg as [Hc Hself Ho' Hca'].
  destruct (Hself b) as (Hh & Hn & He); [left|].
  assert (∀ r, is_blk r → r ≠ b →
    hash_of p' r = hash_of p r ∧ ntok_of p' r = ntok_of p r ∧ extra_of p' r = extra_of p r) as Ho.
  { intros r Hr Hne. apply Ho'; [done|]. by intros ?%list_elem_of_singleton. }
  assert (∀ k, cached_at p' k = filter (.≠ b) (cached_at p k)) as Hca.
  { intros k. by rewrite Hca', filter_singleton. }
  eapply pool_inv_hashes; [done|done| | | | |done|].
  - apply rep_upd_block; [apply keeps_links_hash|apply Hinv].
  - apply store_of_upd_block, Hinv.
  - intros i b'. unfold p'. rewrite bk_upd_block. unfold bk. simpl. fold (bk p (Blk i)).
    case_decide as Hbi.
    + destruct (bk p (Blk i)) as [b0|] eqn:E; [|done]. intros [= <-]. exists b0. simpl.
      split_and!; try done; split; by intros [? ?].
    + intros E. exists b'. pose proof (inv_blocks _ _ _ Hinv _ _ E) as Hok.
      split_and!; [done..|apply Hok|apply Hok].
  - intros j s Hs. simpl in Hs. apply lookup_delete_Some in Hs as [Hne Hs].
    destruct (inv_extra _ _ _ Hinv _ _ Hs) as (Hemp & i & h & -> & Hh' & Hn').
    split; [done|]. exists i, h. split_and!; [done| |done].
    destruct (Ho (Blk i)) as [-> _]; [by exists i|by intros <-|done].
  - intros k r. rewrite Hca, list_elem_of_filter, (inv_index _ _ _ Hinv). unfold owns.
    destruct (decide (r = b)) as [->|Hne].
    + rewrite Hh, He. split; [naive_solver|]. intros [_ [?|?%not_elem_of_empty]]; done.
    + split.
      * intros (_ & Hr & Hor). split; [done|]. by destruct (Ho r Hr Hne) as (-> & _ & ->).
      * intros (Hr & Hor). split_and!; [done..|]. by destruct (Ho r Hr Hne) as (<- & _ & <-).
Qed.

Lemma remove_cached_spec p l z b :
  pool_rep p l z → in_pool p b →
  wp (_remove_cached_block_hashes b)
    (λ hs p', hs = keys_of p b ∧ pool_rep p' l z ∧ forgotten p [b] p' ∧ same_rc p p'
      ∧ kv_event_queue p' = kv_event_queue p) p.
Proof.
  intros Hinv Hpool.
  pose proof (proj1 (inv_in_pool _ _ _ Hinv b) Hpool) as [Hb [blk Hblk]].
  unfold _remove_cached_block_hashes. apply wp_bind. eapply wp_block; [done|].
  wp_steps. set (p1 := set_by_block _ p).
  assert (option_list (_block_hash blk)
    ++ elements (default ∅ (cached_block_hashes_by_block p !! block_id b)) = keys_of p b) as E.
  { unfold keys_of, hash_of, extra_of. by rewrite Hblk. }
  rewrite E. case_decide as Hemp.
  - wp_steps. split; [done|].
    assert (cached_block_hashes_by_block p !! block_id b = None) as Hnone.
    { destruct (_ !! _) as [s|] eqn:Es; [|done].
      destruct (inv_extra _ _ _ Hinv _ _ Es) as (_ & i & h & Ei & Hh & _).
      destruct Hb as [j ->]. simpl in Ei. replace i with j in * by lia.
      assert (h ∈ keys_of p (Blk j)) as Hin by (apply elem_of_keys_of; by left).
      rewrite Hemp in Hin. by apply elem_of_nil in Hin. }
    assert (p1 = p) as ->.
    { unfold p1. rewrite delete_id by done. by destruct p. }
    split; [done|]. split; [|done]. unfold keys_of in Hemp. apply app_eq_nil in Hemp as [Hh He].
    assert (hash_of p b = None) as Hh0 by (by destruct (hash_of p b)).
    assert (∀ k, ¬ owns p b k) as Hno.
    { intros k [?|Hk]; [congruence|]. apply elem_of_elements in Hk. rewrite He in Hk.
      by apply elem_of_nil in Hk. }
    split; try done.
    + intros r ->%list_elem_of_singleton.
      split_and!; [done| |by apply elements_empty_inv, leibniz_equiv in He].
      destruct Hb as [i ->]. unfold ntok_of, hash_of in *. rewrite Hblk in *. simpl in *.
      pose proof (ok_ntok _ _ _ (inv_blocks _ _ _ Hinv _ _ Hblk)) as [_ Hi].
      destruct (_block_hash_num_tokens blk); [|done]. destruct Hi as [? ?]; [by eexists|].
      congruence.
    + intros k. rewrite <-filter_singleton, filter_ne_id; [done|].
      rewrite (inv_index _ _ _ Hinv). intros [_ ?]. by eapply Hno.
  - wp_steps. eapply wp_mono.
    { apply (pop_loop_spec p1 b (keys_of p b)); [apply Hinv|done|by eapply keys_of_nodup]. }
    simpl. intros hs p2 (-> & m' & -> & Hwf & Hm'). wp_steps.
    apply wp_reset_hash; [by exists blk|]. wp_steps.
    split; [|by destruct (forget_state p l z b m') as (? & ? & ?)].
    clear -Hinv Hb. assert (Forall (λ h, b ∈ cached_at p1 h) (keys_of p b)) as Hall.
    { apply Forall_forall. intros k Hk%elem_of_keys_of. by apply (inv_index _ _ _ Hinv). }
    induction Hall as [|h hs Hh Hall IH]; [done|]. by rewrite filter_cons_True, IH.
Qed.

(** ** Registering a key on a block *)

(** [p'] is [p] with block [b] registered under [key]. *)
Record registered p b k n p' : Prop := {
  rg_conf : same_conf p p';
  rg_rc : same_rc p p';
  rg_self : (hash_of p b = None ∧ hash_of p' b = Some k ∧ ntok_of p' b = n ∧ extra_of p' b = ∅)
    ∨ (is_Some (hash_of p b) ∧ hash_of p' b = hash_of p b ∧ ntok_of p' b = ntok_of p b
       ∧ extra_of p' b = {[k]} ∪ extra_of p b);
  rg_other : ∀ r, is_blk r → r ≠ b →
    hash_of p' r = hash_of p r ∧ ntok_of p' r = ntok_of p r ∧ extra_of p' r = extra_of p r;
  rg_cached : ∀ k', cached_at p' k' = if decide (k = k') then cached_at p k ++ [b] else cached_at p k';
}.

Lemma registered_index p l z b k n p' :
  pool_rep p l z → is_blk b → registered p b k n p' →
  ∀ k' r, r ∈ cached_at p' k' ↔ is_blk r ∧ owns p' r k'.
Proof.
  intros Hinv Hb Hrg k' r. rewrite (rg_cached _ _ _ _ _ Hrg).
  assert (r ∈ (if decide (k = k') then cached_at p k ++ [b] else cached_at p k')
    ↔ r ∈ cached_at p k' ∨ (k = k' ∧ r = b)) as ->.
  { case_decide; [subst; rewrite elem_of_app, list_elem_of_singleton|]; tauto. }
  rewrite (inv_index _ _ _ Hinv). destruct (decide (r = b)) as [->|Hne].
  - unfold owns. destruct (rg_self _ _ _ _ _ Hrg) as [(Hn & -> & _ & He)|(Hs & -> & _ & ->)].
    + rewrite He, Hn. assert (extra_of p b = ∅) as ->.
      { destruct (decide (extra_of p b = ∅)) as [|Hx]; [done|].
        destruct (extra_usable _ _ _ Hinv b Hb Hx) as (? & ? & _). congruence. }
      rewrite elem_of_empty. naive_solver.
    + rewrite elem_of_union, elem_of_singleton. naive_solver.
  - split.
    + intros [[Hr Ho]|[_ ?]]; [|done]. split; [done|]. unfold owns.
      by destruct (rg_other _ _ _ _ _ Hrg r Hr Hne) as (-> & _ & ->).
    + intros [Hr Ho]. left. split; [done|]. unfold owns.
      by destruct (rg_other _ _ _ _ _ Hrg r Hr Hne) as (<- & _ & <-).
Qed.

(** First key: it becomes the primary hash of the block. *)
Lemma register_primary p l z b k n :
  pool_rep p l z → usable p b → hash_of p b = None → is_Some n →
  let p' := set_cached (map_insert (cached_block_hash_to_block p) k b)
              (upd_block b (with_hash (Some k) n) p) in
  pool_rep p' l z ∧ registered p b k n p'.
Proof.
  intros Hinv Hu Hh Hn p'.
  destruct (usable_ok _ _ _ Hinv b Hu) as (i & blk & Hbi & Hblk & Hok & Hnull & _).
  assert (is_blk b) as Hb by (by exists i).
  assert (extra_of p b = ∅) as He.
  { destruct (decide (extra_of p b = ∅)) as [|Hx]; [done|].
    destruct (extra_usable _ _ _ Hinv b Hb Hx) as (? & ? & _). congruence. }
  assert (b ∉ cached_at p k) as Hnin.
  { rewrite (inv_index _ _ _ Hinv). intros [_ Ho].
    apply (owns_hash _ _ _ Hinv) in Ho as [? ?]; [congruence|done]. }
  destruct (map_insert_spec (cached_block_hash_to_block p) k b) as [Hwf Hk];
    [apply Hinv|done|done|].
  assert (registered p b k n p') as Hrg.
  { split; [done|exact (same_rc_upd_hash p b (Some k) n)| | |done].
    - left. split_and!; [done|..|done].
      + unfold p'. change (hash_of (upd_block b (with_hash (Some k) n) p) b = Some k).
        by rewrite hash_of_upd, decide_True, Hblk.
      + unfold p'. change (ntok_of (upd_block b (with_hash (Some k) n) p) b = n).
        by rewrite ntok_of_upd, decide_True, Hblk.
    - intros r Hr Hne. split_and!; [| |done].
      + change (hash_of (upd_block b (with_hash (Some k) n) p) r = hash_of p r).
        by rewrite hash_of_upd, decide_False.
      + change (ntok_of (upd_block b (with_hash (Some k) n) p) r = ntok_of p r).
        by rewrite ntok_of_upd, decide_False. }
  split; [|done].
  eapply pool_inv_hashes; [done|done| | | | |done|by eapply registered_index].
  - apply rep_upd_block; [apply keeps_links_hash|apply Hinv].
  - apply store_of_upd_block, Hinv.
  - intros j b' Hb'. change (bk (upd_block b (with_hash (Some k) n) p) (Blk j) = Some b') in Hb'.
    rewrite bk_upd_block in Hb'. case_decide as Hbj.
    + rewrite <-Hbj, Hblk in *. simplify_eq/=. exists blk.
      split_and!; [done..|split; [done|by eexists]|]. intros ->.
      destruct Hu as (? & [= <-] & ? & _). lia.
    + exists b'. pose proof (inv_blocks _ _ _ Hinv _ _ Hb') as Hok'.
      split_and!; [done..|apply Hok'|apply Hok'].
  - intros j s Hs. destruct (inv_extra _ _ _ Hinv _ _ Hs) as (Hemp & i' & h & -> & Hh' & Hn').
    split; [done|]. exists i', h. split_and!; [done| |done].
    destruct (rg_other _ _ _ _ _ Hrg (Blk i')) as [-> _]; [by exists i'|intros <-; congruence|done].
Qed.

(** Further keys are tracked beside the primary hash. *)
Lemma register_extra p l z b k n :
  pool_rep p l z → usable p b → is_Some (hash_of p b) → ¬ owns p b k →
  let p' := set_cached (map_insert (cached_block_hash_to_block p) k b)
              (set_by_block (<[block_id b := {[k]} ∪ extra_of p b]> (cached_block_hashes_by_block p)) p) in
  pool_rep p' l z ∧ registered p b k n p'.
Proof.
  intros Hinv Hu [h Hh] Hno p'.
  destruct (usable_ok _ _ _ Hinv b Hu) as (i & blk & Hbi & Hblk & Hok & Hnull & _).
  assert (is_blk b) as Hb by (by exists i).
  assert (b ∉ cached_at p k) as Hnin.
  { rewrite (inv_index _ _ _ Hinv). tauto. }
  destruct (map_insert_spec (cached_block_hash_to_block p) k b) as [Hwf Hk];
    [apply Hinv|done|done|].
  assert (h ∉ extra_of p b) as Hhx.
  { intros Hx. destruct (extra_usable _ _ _ Hinv b Hb) as (h' & ? & ?); [|congruence].
    intros E. by rewrite E in Hx. }
  assert (registered p b k n p') as Hrg.
  { split; [done..| | |done].
    - right. split_and!; [by exists h|done..|]. unfold extra_of at 1. simpl.
      by rewrite lookup_insert_eq.
    - intros r Hr Hne. split_and!; [done..|]. unfold extra_of. simpl.
      rewrite lookup_insert_ne; [done|]. intros E. by apply Hne, block_id_inj. }
  split; [|done].
  eapply pool_inv_hashes; [done|done| | | | |done|by eapply registered_index].
  - apply Hinv.
  - apply Hinv.
  - intros j b' Hb'. exists b'. pose proof (inv_blocks _ _ _ Hinv _ _ Hb') as Hok'.
    split_and!; [done..|apply Hok'|apply Hok'].
  - intros j s Hs. simpl in Hs. apply lookup_insert_Some in Hs as [[<- <-]|[Hne Hs]].
    + split; [intros E; assert (k ∈ (∅ : gset bytes)) as Hk0 by (rewrite <-E; apply elem_of_union_l,
        elem_of_singleton; done); by apply elem_of_empty in Hk0|].
      exists i, h. subst b. split_and!; [done..|].
      rewrite elem_of_union, elem_of_singleton. intros [->|?]; [|done]. apply Hno. by left.
    + apply (inv_extra _ _ _ Hinv _ _ Hs).
Qed.

Lemma insert_hash_spec p l z b k n :
  pool_rep p l z → usable p b → is_Some n →
  wp (_insert_block_hash k b n)
    (λ _ p', pool_rep p' l z ∧ kv_event_queue p' = kv_event_queue p
      ∧ ((owns p b k ∧ p' = p) ∨ (¬ owns p b k ∧ registered p b k n p'))) p.
Proof.
  intros Hinv Hu Hn. unfold _insert_block_hash.
  destruct (usable_ok _ _ _ Hinv b Hu) as (i & blk & Hbi & Hblk & Hok & Hnull & _).
  assert (is_blk b) as Hb by (by exists i).
  assert (hash_of p b = _block_hash blk) as Hhb by (unfold hash_of; by rewrite Hblk).
  apply wp_bind. eapply wp_block; [done|]. case_decide as Hk.
  { wp_steps. split; [done|]. split; [done|]. left. split; [|done]. left. congruence. }
  wp_steps. rewrite contain_spec; [|apply Hinv|done].
  assert (bool_decide (b ∈ refs_at (cached_block_hash_to_block p) k) = bool_decide (owns p b k)) as ->.
  { apply bool_decide_ext. fold (cached_at p k). rewrite (inv_index _ _ _ Hinv). tauto. }
  destruct (bool_decide_reflect (owns p b k)) as [Ho|Ho]; [wp_steps; by eauto|].
  destruct (_block_hash blk) as [h|] eqn:Eh.
  - wp_steps. destruct (register_extra p l z b k n Hinv Hu) as [? ?]; [by exists h|done|]. eauto.
  - wp_steps. apply (wp_set_block_hash b blk); [done..| |].
    + pose proof (ok_ntok _ _ _ Hok) as [_ Hi]. rewrite Eh in Hi.
      destruct (_block_hash_num_tokens blk); [|done]. destruct Hi as [? ?]; [by eexists|done].
    + wp_steps. destruct (register_primary p l z b k n Hinv Hu) as [? ?]; [congruence|done|]. eauto.
Qed.
End remove.

Section relations.
Implicit Types (p : BlockPool) (l z xs : list ref) (r b : ref) (k h : bytes).

Lemma forgotten_nil p : forgotten p [] p.
Proof.
  split; [done|by intros r ?%elem_of_nil|done|]. intros k. symmetry.
  induction (cached_at p k) as [|r ls IH]; [done|].
  rewrite filter_cons_True by apply not_elem_of_nil. by rewrite IH.
Qed.

Lemma filter_not_elem_app (ls xs ys : list ref) :
  filter (.∉ ys) (filter (.∉ xs) ls) = filter (.∉ xs ++ ys) ls.
Proof.
  rewrite list_filter_filter. apply list_filter_iff. intros r. rewrite not_elem_of_app. tauto.
Qed.

Lemma forgotten_trans p xs p1 ys p2 :
  Forall is_blk xs → forgotten p xs p1 → forgotten p1 ys p2 → forgotten p (xs ++ ys) p2.
Proof.
  intros Hblk [Hc1 Hs1 Ho1 Hk1] [Hc2 Hs2 Ho2 Hk2]. split.
  - by etrans.
  - intros r Hr. destruct (decide (r ∈ ys)) as [|Hy]; [by apply Hs2|].
    apply elem_of_app in Hr as [Hr|]; [|done]. rewrite Forall_forall in Hblk.
    destruct (Ho2 r) as (-> & -> & ->); [by apply Hblk|done|]. by apply Hs1.
  - intros r Hr [Hx Hy]%not_elem_of_app.
    destruct (Ho2 r) as (-> & -> & ->); [done..|]. by apply Ho1.
  - intros k. by rewrite Hk2, Hk1, filter_not_elem_app.
Qed.

(** Steps that keep hashes and index can follow or precede. *)
Lemma forgotten_same p xs p1 p2 :
  forgotten p xs p1 → same_conf p1 p2 → same_hashes p1 p2 → forgotten p xs p2.
Proof.
  intros [Hc Hs Ho Hk] Hc' [Hh Hi]. split.
  - by etrans.
  - intros r Hr. destruct (Hh r) as (-> & -> & ->). by apply Hs.
  - intros r Hr Hx. destruct (Hh r) as (-> & -> & ->). by apply Ho.
  - intros k. by rewrite Hi, Hk.
Qed.
Lemma same_forgotten p p1 xs p2 :
  same_conf p p1 → same_hashes p p1 → forgotten p1 xs p2 → forgotten p xs p2.
Proof.
  intros Hc' [Hh Hi] [Hc Hs Ho Hk]. split.
  - by etrans.
  - done.
  - intros r Hr Hx. destruct (Hh r) as (<- & <- & <-). by apply Ho.
  - intros k. by rewrite Hk, Hi.
Qed.

(** ** Queue operations and reference counts in the pool *)

Lemma meta_views p q' :
  same_meta (q_store (free_block_queue p)) (q_store q') →
  same_conf p (set_queue q' p) ∧ same_rc p (set_queue q' p) ∧ same_hashes p (set_queue q' p).
Proof.
  intros Hm. split; [done|].
  assert (∀ r, meta <$> bk (set_queue q' p) r = meta <$> bk p r) as H by (intros r; symmetry; apply (Hm r)).
  split; [|split; [|done]]; intros r; specialize (H r);
    unfold rc, hash_of, ntok_of in *; destruct (bk p r), (bk (set_queue q' p) r);
    simplify_eq/=; auto.
Qed.

Lemma pool_rep_queue p l z q' l' :
  pool_rep p l z → queue_rep q' l' → same_meta (q_store (free_block_queue p)) (q_store q') →
  pool_rep (set_queue q' p) l' z.
Proof.
  intros Hinv Hq Hm. destruct (meta_views p q' Hm) as (Hc & Hrc & Hh & Hi).
  destruct Hinv as [Hn Hs _ Hnull Hb He Hwf Hix]. split; simpl; try done.
  - by eapply store_of_meta.
  - intros i b' Hb'. pose proof (Hm (Blk i)) as E. unfold bk in Hb'. simpl in Hb'.
    rewrite Hb' in E. fold (bk p (Blk i)) in E. destruct (bk p (Blk i)) as [b|] eqn:Eb; [|done].
    injection E as E1 E2 E3 E4. destruct (Hb _ _ Eb). split; by rewrite <-?E1, <-?E2, <-?E3, <-?E4.
  - intros j s Hjs. destruct (He j s Hjs) as (? & i & h & -> & ? & ?). split; [done|].
    exists i, h. destruct (Hh (Blk i)) as (-> & _). done.
  - intros k r. rewrite (Hi k), (Hix k r). unfold owns. by destruct (Hh r) as (-> & _ & ->).
Qed.

Lemma wp_on_queue {A} (op : M queue A) p l z (Q' : A → queue → list ref → Prop) (Q : A → BlockPool → Prop) :
  pool_rep p l z →
  wp op (λ a q', ∃ l', Q' a q' l' ∧ queue_rep q' l'
    ∧ same_meta (q_store (free_block_queue p)) (q_store q')) (free_block_queue p) →
  (∀ a p' l', (∃ q', Q' a q' l') → pool_rep p' l' z → same_conf p p' → same_rc p p' →
     same_hashes p p' → kv_event_queue p' = kv_event_queue p → Q a p') →
  wp (on_queue op) Q p.
Proof.
  intros Hinv Hop HQ. apply wp_zoom. eapply wp_mono; [done|].
  simpl. intros a q' (l' & HQ' & Hq & Hm). destruct (meta_views p q' Hm) as (? & ? & ?).
  eapply HQ; [by exists q'| |done..]. by eapply pool_rep_queue.
Qed.

Lemma rc_upd p b f r :
  rc (upd_block b (λ blk, with_ref_cnt (f blk) blk) p) r
  = if decide (b = r) then from_option f 0 (bk p r) else rc p r.
Proof. unfold rc. rewrite bk_upd_block. case_decide; [|done]. by destruct (bk p r). Qed.

Lemma hashes_upd_rc p b f : same_hashes p (upd_block b (λ blk, with_ref_cnt (f blk) blk) p).
Proof.
  split; [|done]. intros r. rewrite hash_of_upd, ntok_of_upd. unfold hash_of, ntok_of, extra_of.
  case_decide; [|done]. by destruct (bk p r).
Qed.

(** Changing the reference count of [b] by [d]. *)
Lemma pool_rep_rc p l z z' b d :
  pool_rep p l z → in_pool p b →
  (∀ r, r ≠ b → r ∈ z' ↔ r ∈ z) → (b = null_block p → b ∉ z') →
  (usable p b → 0 ≤ rc p b + d ∧ (b ∈ z' ↔ rc p b + d = 0)) →
  pool_rep (upd_block b (λ blk, with_ref_cnt (ref_cnt blk + d) blk) p) l z'.
Proof.
  intros Hinv Hb Hz Hnull Hu.
  destruct (hashes_upd_rc p b (λ blk, ref_cnt blk + d)) as [Hh Hi]. set (p' := upd_block _ _ _) in *.
  pose proof Hinv as [Hn Hs Hq Hnb Hblk He Hwf Hix]. split; try done.
  - by apply store_of_upd_block.
  - by apply rep_upd_block; [apply keeps_links_rc|].
  - intros i b' Hb'. unfold p' in Hb'. rewrite bk_upd_block in Hb'. case_decide as Hbi.
    + subst b. destruct (bk p (Blk i)) as [blk|] eqn:E; [|done]. simplify_eq/=.
      destruct (Hblk _ _ E) as [H1 H2 H3 H4]. split; simpl; try done.
      * intros ->. split; [by apply H2|]. by apply Hnull.
      * intros Hi0. assert (usable p (Blk i)) as Hus
          by (apply (in_pool_usable _ _ _ Hinv); [done|rewrite Hnb; naive_solver]).
        destruct (Hu Hus) as [? ?]. unfold rc in *. rewrite E in *. done.
    + destruct (Hblk _ _ Hb') as [H1 H2 H3 H4]. split; try done.
      * intros ->. split; [by apply H2|]. rewrite Hz by done. by apply H2.
      * intros Hi0. rewrite Hz by done. by apply H3.
  - intros j s Hjs. destruct (He j s Hjs) as (? & i & h & -> & ? & ?). split; [done|].
    exists i, h. destruct (Hh (Blk i)) as (-> & _). done.
  - intros k r. rewrite (Hi k), (Hix k r). unfold owns. by destruct (Hh r) as (-> & _ & ->).
Qed.
End relations.
