(* ===== verification/BlockPoolSpec.v ===== *)
(** Total-correctness specifications of the block-pool operations, against the invariant of
    BlockPoolFacts: allocation with eviction, touching, freeing, explicit eviction and reset,
    registering full and partial blocks, and lookup. *)

From S2P Require Import Prelude MathUtils Request BlockHash BlockHashFacts FreeQueue.
From S2P Require Import FreeQueueFacts BlockPool BlockPoolFacts.

Set Warnings "-level-tolerance,-clear-no-such-hyp".

(** Occurrences of a block in a list of blocks. *)
Definition occ (r : ref) (bs : list ref) : Z := zlen (filter (.= r) bs).

Section occ.
Implicit Types (r : ref) (bs : list ref).

Lemma occ_nil r : occ r [] = 0.
Proof. done. Qed.
Lemma occ_app r bs bs' : occ r (bs ++ bs') = occ r bs + occ r bs'.
Proof. unfold occ. by rewrite filter_app, zlen_app. Qed.
Lemma occ_cons r x bs : occ r (x :: bs) = (if decide (x = r) then 1 else 0) + occ r bs.
Proof. unfold occ. rewrite filter_cons. case_decide; rewrite ?zlen_cons; lia. Qed.
Lemma occ_snoc r x bs : occ r (bs ++ [x]) = occ r bs + if decide (x = r) then 1 else 0.
Proof. rewrite occ_app, occ_cons, occ_nil. lia. Qed.
Lemma occ_nonneg r bs : 0 ≤ occ r bs.
Proof. apply zlen_nonneg. Qed.
Lemma occ_pos r bs : r ∈ bs ↔ 0 < occ r bs.
Proof.
  induction bs as [|x bs IH]; [rewrite occ_nil; split; [by intros ?%elem_of_nil|lia]|].
  rewrite occ_cons, elem_of_cons, IH. pose proof (occ_nonneg r bs).
  case_decide; split; [lia|auto|naive_solver|intros; right; lia].
Qed.
Lemma occ_not_elem r bs : r ∉ bs → occ r bs = 0.
Proof. intros H. pose proof (occ_nonneg r bs). rewrite occ_pos in H. lia. Qed.
Lemma occ_nodup r bs : NoDup bs → occ r bs = if decide (r ∈ bs) then 1 else 0.
Proof.
  induction 1 as [|x bs Hx _ IH]; [done|]. rewrite occ_cons, IH.
  rewrite (decide_ext (r ∈ x :: bs) (r = x ∨ r ∈ bs)) by apply elem_of_cons.
  repeat case_decide; subst; naive_solver.
Qed.
Lemma filter_not_elem_nil bs : filter (.∉ []) bs = bs.
Proof.
  induction bs as [|r bs IH]; [done|]. rewrite filter_cons_True by apply not_elem_of_nil.
  by rewrite IH.
Qed.
End occ.

Section ops.
Context (sha256 : bytes → bytes) (use_int : bool).
Implicit Types (p : BlockPool) (l z xs : list ref) (r b : ref) (k h : bytes).

(** ** Eviction *)

(** The events of removing the keys [hs]. *)
Definition removed_events p (hs : list bytes) : list KVCacheEvent :=
  if enable_kv_cache_events p
  then (λ h, BlockRemoved [maybe_convert_block_hash use_int (get_block_hash h)] MEDIUM_GPU
               (get_group_id h)) <$> hs
  else [].

Lemma emit_removed_spec p hs :
  wp (_emit_block_removed_events use_int hs)
    (λ _ p', p' = set_events (kv_event_queue p ++ removed_events p hs) p) p.
Proof.
  unfold _emit_block_removed_events, removed_events. wp_steps.
  destruct (enable_kv_cache_events p); simpl.
  - eapply wp_mono; [apply (wp_for_each _ (λ pre p', p' = set_events (kv_event_queue p
      ++ ((λ h, BlockRemoved [maybe_convert_block_hash use_int (get_block_hash h)] MEDIUM_GPU
                  (get_group_id h)) <$> pre)) p))|done].
    + simpl. rewrite app_nil_r. by destruct p.
    + intros pre x post p' _ ->. unfold add_event. wp_steps. simpl.
      by rewrite fmap_app, <-(assoc_L (++)).
  - apply wp_ret. rewrite app_nil_r. by destruct p.
Qed.

Lemma evict_spec p l z b :
  pool_rep p l z → in_pool p b →
  wp (_maybe_evict_cached_block use_int b)
    (λ res p', res = bool_decide (keys_of p b ≠ []) ∧ pool_rep p' l z ∧ forgotten p [b] p'
      ∧ same_rc p p' ∧ kv_event_queue p' = kv_event_queue p ++ removed_events p (keys_of p b)) p.
Proof.
  intros Hinv Hb. unfold _maybe_evict_cached_block. apply wp_bind.
  eapply wp_mono; [by eapply remove_cached_spec|]. simpl.
  intros hs p1 (-> & Hinv1 & Hfg & Hrc & Hev). case_decide as Hk.
  - wp_steps. rewrite Hk. unfold removed_events. destruct (enable_kv_cache_events p);
      rewrite app_nil_r; done.
  - wp_steps. eapply wp_mono; [apply emit_removed_spec|]. simpl. intros _ p' ->. wp_steps.
    split_and!.
    + by rewrite bool_decide_eq_true_2.
    + by apply pool_inv_events.
    + eapply forgotten_same; [done|done|]. by split.
    + done.
    + simpl. rewrite Hev. f_equal. unfold removed_events.
      by destruct (fg_conf _ _ _ Hfg) as (_ & _ & _ & _ & ->).
Qed.

(** ** Allocation *)

Lemma acquire_spec p l z z' b :
  pool_rep p l z → usable p b → rc p b = 0 → (∀ r, r ∈ z' ↔ r ∈ z ∧ r ≠ b) →
  wp (acquire b) (λ _ p', pool_rep p' l z' ∧ same_conf p p' ∧ same_hashes p p'
    ∧ kv_event_queue p' = kv_event_queue p
    ∧ ∀ r, rc p' r = if decide (r = b) then 1 else rc p r) p.
Proof.
  intros Hinv Hu Hrc Hz.
  destruct (usable_ok _ _ _ Hinv b Hu) as (i & blk & Hbi & Hblk & Hok & Hnull & _).
  assert (ref_cnt blk = 0) as H0 by (unfold rc in Hrc; by rewrite Hblk in Hrc).
  unfold acquire. apply wp_bind. eapply wp_block; [done|]. wp_steps.
  apply wp_assert; [by rewrite H0|]. apply wp_set_block; [by exists blk|].
  split_and!; [|done|apply hashes_upd_rc|done|].
  - apply (pool_rep_rc p l z z' b 1); [done|by apply usable_in_pool|..].
    + intros r Hr. rewrite Hz. tauto.
    + rewrite Hz. tauto.
    + intros _. rewrite Hrc, Hz. split; [lia|]. split; [tauto|lia].
  - intros r. rewrite rc_upd. destruct (decide (r = b)) as [->|Hne].
    + by rewrite decide_True, Hblk; simpl; [lia|].
    + by rewrite decide_False.
Qed.

(** What evicting (if caching is on) did to hashes and events. *)
Definition evicted p xs p' : Prop :=
  if enable_caching p
  then forgotten p xs p'
       ∧ kv_event_queue p' = kv_event_queue p ++ concat ((λ x, removed_events p (keys_of p x)) <$> xs)
  else same_hashes p p' ∧ kv_event_queue p' = kv_event_queue p.

Lemma removed_events_conf p p' hs : same_conf p p' → removed_events p' hs = removed_events p hs.
Proof. intros (_ & _ & _ & _ & H). unfold removed_events. by rewrite H. Qed.

Lemma keys_of_same p p' r :
  hash_of p' r = hash_of p r → extra_of p' r = extra_of p r → keys_of p' r = keys_of p r.
Proof. intros H1 H2. unfold keys_of. by rewrite H1, H2. Qed.

Lemma usable_conf p p' r : same_conf p p' → usable p r → usable p' r.
Proof. intros (E & _) (i & ? & ? & ?). exists i. by rewrite E. Qed.
Lemma in_pool_conf p p' r : same_conf p p' → in_pool p r → in_pool p' r.
Proof. intros (E & _) (i & ? & ?). exists i. by rewrite E. Qed.

Lemma evicted_step p xs p1 b p2 p3 :
  Forall is_blk xs → is_blk b → b ∉ xs → enable_caching p = true →
  evicted p xs p1 → forgotten p1 [b] p2 →
  kv_event_queue p2 = kv_event_queue p1 ++ removed_events p1 (keys_of p1 b) →
  same_conf p2 p3 → same_hashes p2 p3 → kv_event_queue p3 = kv_event_queue p2 →
  evicted p (xs ++ [b]) p3.
Proof.
  unfold evicted. intros Hxs Hb Hnin -> [Hfg Hev] Hfg2 Hev2 Hc Hh Hev3. split.
  - eapply forgotten_same; [|done..]. by eapply forgotten_trans.
  - rewrite Hev3, Hev2, Hev, fmap_app, concat_app. simpl. rewrite app_nil_r, (assoc_L (++)).
    f_equal. rewrite (removed_events_conf p p1) by apply Hfg. f_equal.
    destruct (fg_other _ _ _ Hfg b) as (? & _ & ?); [done..|]. by apply keys_of_same.
Qed.

(** One round of the allocation loop, with or without eviction. *)
Definition alloc_body (caching : bool) b : M BlockPool unit :=
  if caching then _maybe_evict_cached_block use_int b;; acquire b else acquire b.

Definition alloc_inv p xs l (pre : list ref) p' : Prop :=
  pool_rep p' l (drop (length pre) xs ++ l) ∧ same_conf p p' ∧ evicted p pre p'
  ∧ ∀ r, rc p' r = if decide (r ∈ pre) then 1 else rc p r.

Lemma alloc_body_spec p xs l pre x post p' :
  xs = pre ++ x :: post → NoDup (xs ++ l) →
  Forall (λ r, usable p r ∧ rc p r = 0) xs → alloc_inv p xs l pre p' →
  wp (alloc_body (enable_caching p) x) (λ _ p'', alloc_inv p xs l (pre ++ [x]) p'') p'.
Proof.
  intros Hxs Hnd Hall (Hrep & Hc & Hev & Hrc).
  assert (usable p x ∧ rc p x = 0) as [Hux Hx0].
  { rewrite Forall_forall in Hall. apply Hall. rewrite Hxs. apply elem_of_app. right. left. }
  assert (x ∉ pre ∧ x ∉ post ++ l) as [Hxpre Hxpost].
  { rewrite Hxs, <-(assoc_L (++)) in Hnd. simpl in Hnd.
    apply NoDup_app in Hnd as (_ & H1 & [H2 _]%NoDup_cons). split; [|done].
    intros H. apply (H1 x H). left. }
  assert (usable p' x) as Hux' by by eapply usable_conf.
  assert (rc p' x = 0) as Hx0' by (rewrite Hrc; by rewrite decide_False).
  assert (∀ r, r ∈ drop (length (pre ++ [x])) xs ++ l
    ↔ r ∈ drop (length pre) xs ++ l ∧ r ≠ x) as Hz.
  { intros r. rewrite Hxs, drop_app_length, length_app. simpl.
    change (pre ++ x :: post) with (pre ++ [x] ++ post).
    rewrite (assoc_L (++)). replace (length pre + 1)%nat with (length (pre ++ [x]))
      by (rewrite length_app; simpl; lia). rewrite drop_app_length.
    rewrite elem_of_cons. naive_solver. }
  assert (Forall is_blk pre) as Hblk.
  { rewrite Hxs in Hall. apply Forall_app in Hall as [Hall _].
    eapply Forall_impl; [done|]. intros r [(i & -> & _) _]. by exists i. }
  assert (is_blk x) as Hbx by (destruct Hux as (i & -> & _); by exists i).
  assert (∀ p2 p3, same_rc p' p2 → (∀ r, rc p3 r = if decide (r = x) then 1 else rc p2 r) →
    ∀ r, rc p3 r = if decide (r ∈ pre ++ [x]) then 1 else rc p r) as Hrc3.
  { intros p2 p3 H2 H3 r. rewrite H3, H2, Hrc. rewrite (decide_ext (r ∈ pre ++ [x]) (r ∈ pre ∨ r = x))
      by (rewrite elem_of_app, list_elem_of_singleton; done).
    repeat case_decide; naive_solver. }
  unfold alloc_body. destruct (enable_caching p) eqn:Ecache.
  - wp_steps. eapply wp_mono; [eapply evict_spec; [done|by apply usable_in_pool]|]. simpl.
    intros _ p2 (_ & Hrep2 & Hfg2 & Hrc2 & Hev2).
    eapply wp_mono; [eapply (acquire_spec p2); [done|by eapply usable_conf; [apply Hfg2|]|
      by rewrite Hrc2|done]|]. simpl.
    intros _ p3 (Hrep3 & Hc3 & Hh3 & Hev3 & Hrc3'). split_and!; [done| | |by eauto].
    + etrans; [done|]. etrans; [apply Hfg2|done].
    + by eapply evicted_step.
  - eapply wp_mono; [by eapply (acquire_spec p')|]. simpl.
    intros _ p3 (Hrep3 & Hc3 & Hh3 & Hev3 & Hrc3'). split_and!; [done|by etrans| |by eapply Hrc3].
    unfold evicted in *. rewrite Ecache in *. destruct Hev as [? ?]. split; [by etrans|congruence].
Qed.

Lemma alloc_loop_eq (caching : bool) xs :
  (if caching then for_each xs (λ b, _maybe_evict_cached_block use_int b;; acquire b)
   else for_each xs acquire) = for_each xs (alloc_body caching).
Proof. by destruct caching. Qed.

Lemma get_new_blocks_spec p l n :
  pool_inv p l → 0 ≤ n ≤ zlen l →
  let xs := take (Z.to_nat n) l in
  wp (get_new_blocks use_int n)
    (λ res p', res = xs ∧ pool_inv p' (drop (Z.to_nat n) l) ∧ same_conf p p' ∧ evicted p xs p'
      ∧ ∀ r, rc p' r = if decide (r ∈ xs) then 1 else rc p r) p.
Proof.
  intros Hinv Hn xs. unfold get_new_blocks. wp_steps. rewrite (inv_num_free _ _ _ Hinv).
  rewrite (proj2 (Z.ltb_ge (zlen l) n)) by lia. wp_steps.
  eapply (wp_on_queue _ p l l (λ a q' l', a = xs ∧ l' = drop (Z.to_nat n) l)); [done| |].
  { eapply wp_mono; [apply popleft_n_spec; [apply Hinv|done]|]. simpl.
    intros a q' (-> & ? & ?). by exists (drop (Z.to_nat n) l). }
  intros a p1 l' (q' & -> & ->) Hrep1 Hc1 Hrc1 Hh1 Hev1. wp_steps.
  rewrite alloc_loop_eq.
  assert (l = xs ++ drop (Z.to_nat n) l) as El by (symmetry; apply take_drop).
  set (rest := drop (Z.to_nat n) l) in *. clearbody xs rest.
  assert (Forall (λ r, usable p1 r ∧ rc p1 r = 0) xs) as Hall.
  { apply Forall_forall. intros r Hr. rewrite Hrc1. destruct (proj1 (free_iff p l r Hinv)) as [? ?].
    - rewrite El. apply elem_of_app. by left.
    - split; [by eapply usable_conf|done]. }
  eapply wp_mono.
  { apply (wp_for_each _ (alloc_inv p1 xs rest)).
    - unfold alloc_inv, evicted. simpl. rewrite drop_0, <-El. split_and!; [done..| |].
      + destruct (enable_caching p1); [|done]. split; [apply forgotten_nil|by rewrite app_nil_r].
      + done.
    - intros pre x post p' Hxs HI. eapply alloc_body_spec; [done| |done..].
      rewrite <-El. by eapply inv_nodup. }
  simpl. intros _ p' (Hrep' & Hc' & Hev' & Hrc'). wp_steps. split; [done|].
  rewrite drop_all in Hrep'. split_and!; [done|by etrans| |].
  - unfold evicted in *. pose proof Hc1 as (_ & Hca & _). rewrite Hca in Hev'.
    destruct (enable_caching p) eqn:E.
    + destruct Hev' as [Hfg Hev']. split; [by eapply same_forgotten|].
      rewrite Hev', Hev1. f_equal. f_equal. apply list_fmap_ext. intros i x Hx.
      rewrite (removed_events_conf p p1) by done. f_equal. destruct Hh1 as [Hh1 _].
      destruct (Hh1 x) as (? & _ & ?). by apply keys_of_same.
    + destruct Hev' as [? ?]. split; [by etrans|congruence].
  - intros r. rewrite Hrc'. case_decide; [done|apply Hrc1].
Qed.

Lemma get_new_blocks_error p n :
  get_num_free_blocks p < n → get_new_blocks use_int n p = (inl ValueError, p).
Proof.
  intros Hn. unfold get_new_blocks, mbind, M_bind, gets.
  by rewrite (proj2 (Z.ltb_lt _ _) Hn).
Qed.

(** ** Touching *)

Lemma pool_rep_zero p l z z' : (∀ r, r ∈ z ↔ r ∈ z') → pool_rep p l z → pool_rep p l z'.
Proof.
  intros Hz [Hn Hs Hq Hnb Hblk He Hwf Hix]. split; try done.
  intros i b Hb. destruct (Hblk i b Hb) as [H1 H2 H3 H4]. split; try done; by rewrite <-Hz.
Qed.

Lemma null_not_free p l : pool_inv p l → null_block p ∉ l.
Proof.
  intros Hinv Hr. apply (free_iff p l _ Hinv) in Hr as [(i & E & ? & _) _].
  rewrite (inv_null _ _ _ Hinv) in E. simplify_eq. lia.
Qed.

(** [bs] have been touched: they left the free list and gained a reference each time. *)
Definition touched p l bs p' : Prop :=
  pool_inv p' (filter (.∉ bs) l) ∧ same_conf p p' ∧ same_hashes p p'
  ∧ kv_event_queue p' = kv_event_queue p ∧ ∀ r, rc p' r = rc p r + occ r bs.

Lemma touch_spec p l bs :
  pool_inv p l → Forall (in_pool p) bs → wp (touch bs) (λ _ p', touched p l bs p') p.
Proof.
  intros Hinv Hall. unfold touch. apply (wp_for_each _ (touched p l)).
  { split_and!; try done.
    - rewrite filter_not_elem_nil. done.
    - intros r. rewrite occ_nil. lia. }
  intros pre x post p1 Hbs (Hinv1 & Hc1 & Hh1 & Hev1 & Hrc1).
  assert (in_pool p1 x) as Hx.
  { eapply in_pool_conf; [done|]. rewrite Forall_forall in Hall. apply Hall. rewrite Hbs.
    apply elem_of_app. right. left. }
  pose proof (proj1 (inv_in_pool _ _ _ Hinv1 x) Hx) as [Hbx [blk Hblk]].
  assert (rc p1 x = ref_cnt blk) as Hrcx by (unfold rc; by rewrite Hblk).
  pose proof (in_pool_null _ _ _ Hinv1 x blk Hx Hblk) as Hnull.
  wp_steps. eapply wp_block; [done|].
  assert (∀ p2 l2, pool_rep p2 l2 (filter (.∉ pre) l) → l2 = filter (.∉ pre ++ [x]) l →
    same_conf p1 p2 → same_rc p1 p2 → same_hashes p1 p2 → kv_event_queue p2 = kv_event_queue p1 →
    wp (set_block x (λ blk, with_ref_cnt (ref_cnt blk + 1) blk))
     (λ _ p', touched p l (pre ++ [x]) p') p2) as Hfin.
  { intros p2 l2 Hrep2 -> Hc2 Hrc2 Hh2 Hev2.
    assert (in_pool p2 x) as Hx2 by by eapply in_pool_conf.
    pose proof (proj1 (inv_in_pool _ _ _ Hrep2 x) Hx2) as [_ [blk2 Hblk2]].
    apply wp_set_block; [by exists blk2|]. split_and!.
    - eapply pool_rep_rc; [done|done|..].
      + intros r Hr. rewrite !list_elem_of_filter, not_elem_of_app, list_elem_of_singleton. tauto.
      + intros _. rewrite list_elem_of_filter, not_elem_of_app, list_elem_of_singleton. tauto.
      + intros Hu. destruct (usable_ok _ _ _ Hrep2 x Hu) as (i & b' & _ & Hb' & _ & _ & ? & _).
        assert (0 ≤ rc p2 x) by (unfold rc; by rewrite Hb').
        split; [lia|]. rewrite list_elem_of_filter, not_elem_of_app, list_elem_of_singleton.
        split; [tauto|lia].
    - etrans; [done|]. by etrans.
    - etrans; [done|]. etrans; [done|]. apply hashes_upd_rc.
    - simpl. congruence.
    - intros r. rewrite rc_upd, occ_snoc. destruct (decide (x = r)) as [<-|Hne].
      + rewrite Hblk2. simpl. pose proof (Hrc2 x) as E. unfold rc in E at 1. rewrite Hblk2 in E.
        simpl in E. rewrite E, Hrc1. lia.
      + rewrite Hrc2, Hrc1. lia. }
  apply wp_bind, wp_when; intros Hcond.
  - rewrite Hnull in Hcond. bool_hyps.
    assert (x ∈ filter (.∉ pre) l) as Hxl.
    { apply (free_iff p1); [done|]. split; [by apply (in_pool_usable _ _ _ Hinv1)|congruence]. }
    pose proof Hxl as (l1 & l2 & El)%list_elem_of_split.
    eapply (wp_on_queue _ p1 _ _ (λ _ _ l', l' = l1 ++ l2)); [done| |].
    { eapply wp_mono; [eapply remove_spec; rewrite <-El; apply Hinv1|]. simpl.
      intros _ q' [? ?]. by exists (l1 ++ l2). }
    intros _ p2 l' (_ & ->) Hrep2 ? ? ? ?. eapply Hfin; [done| |done..].
    rewrite <-filter_not_elem_app, <-filter_singleton, El.
    assert (NoDup (l1 ++ x :: l2)) as Hnd by (rewrite <-El; by eapply inv_nodup).
    apply nodup_mid in Hnd as (_ & ? & ?). by rewrite filter_ne_app.
  - eapply (Hfin p1); [done| |done..].
    rewrite <-filter_not_elem_app, <-filter_singleton, filter_ne_id; [done|].
    intros Hxl. pose proof Hxl as [Hux H0]%(free_iff p1); [|done].
    apply andb_false_iff in Hcond as [Hcond|Hcond]; bool_hyps; [lia|].
    rewrite Hnull in Hcond. bool_hyps. subst x. by eapply null_not_free.
Qed.

(** ** Freeing *)

(** The blocks of [bs] that lose their last reference, each at its last occurrence. *)
Definition freed p bs : list ref :=
  filter (λ r, r ≠ null_block p ∧ rc p r = occ r bs) (remove_dups bs).
(** Uncached blocks are reused first. *)
Definition evict_first p r : Prop := hash_of p r = None ∨ enable_caching p = false.
#[local] Instance evict_first_dec p r : Decision (evict_first p r) := _.
Definition freed_first p bs : list ref := filter (evict_first p) (freed p bs).
Definition freed_last p bs : list ref := filter (λ r, ¬ evict_first p r) (freed p bs).

(** Enough references are held: the caller's obligation. *)
Definition held p bs : Prop :=
  Forall (in_pool p) bs ∧ ∀ r, usable p r → occ r bs ≤ rc p r.

Lemma remove_dups_snoc (bs : list ref) x :
  remove_dups (bs ++ [x]) = filter (.≠ x) (remove_dups bs) ++ [x].
Proof.
  induction bs as [|y bs IH]; [done|]. simpl. rewrite IH.
  destruct (decide_rel elem_of y (bs ++ [x])) as [H|H], (decide_rel elem_of y bs) as [H'|H'];
    rewrite elem_of_app, list_elem_of_singleton in H.
  - done.
  - destruct H as [H| ->]; [done|]. by rewrite filter_cons_False by (intros H; by apply H).
  - tauto.
  - rewrite filter_cons_True by tauto. done.
Qed.

Lemma freed_snoc p bs x :
  (x ≠ null_block p → occ x (bs ++ [x]) ≤ rc p x) →
  freed p (bs ++ [x]) = freed p bs
    ++ if decide (x ≠ null_block p ∧ rc p x = occ x (bs ++ [x])) then [x] else [].
Proof.
  intros Hle. unfold freed. rewrite remove_dups_snoc, filter_app. f_equal.
  rewrite list_filter_filter. apply list_filter_iff. intros r.
  rewrite !occ_snoc in *. destruct (decide (x = r)) as [->|Hne].
  - rewrite decide_True in Hle by done. split; [naive_solver|]. intros [? E].
    specialize (Hle ltac:(done)). lia.
  - rewrite Z.add_0_r. naive_solver.
Qed.

Lemma elem_of_freed p bs r : r ∈ freed p bs ↔ r ∈ bs ∧ r ≠ null_block p ∧ rc p r = occ r bs.
Proof. unfold freed. rewrite list_elem_of_filter, elem_of_remove_dups. tauto. Qed.
Lemma freed_nodup p bs : NoDup (freed p bs).
Proof. apply NoDup_filter, NoDup_remove_dups. Qed.
Lemma elem_of_freed_parts p bs r : r ∈ freed_first p bs ++ freed_last p bs ↔ r ∈ freed p bs.
Proof.
  unfold freed_first, freed_last. rewrite elem_of_app, !list_elem_of_filter.
  destruct (decide (evict_first p r)); tauto.
Qed.

(** The state of the classification loop after [pre]. *)
Definition freeing p l pre (acc : list ref * list ref) p' : Prop :=
  pool_rep p' l (l ++ freed p pre) ∧ same_conf p p' ∧ same_hashes p p'
  ∧ kv_event_queue p' = kv_event_queue p ∧ (∀ r, rc p' r = rc p r - occ r pre)
  ∧ acc = (freed_first p pre, freed_last p pre).

Lemma held_pre p pre x post : held p (pre ++ x :: post) → held p (pre ++ [x]).
Proof.
  intros [Hall Hle]. split.
  - rewrite Forall_app, Forall_cons in Hall. rewrite Forall_app, Forall_singleton. tauto.
  - intros r Hr. specialize (Hle r Hr). rewrite occ_app, occ_cons in Hle.
    rewrite occ_snoc. pose proof (occ_nonneg r post). lia.
Qed.

Lemma free_block_spec p l pre x acc p1 :
  pool_inv p l → held p (pre ++ [x]) → freeing p l pre acc p1 →
  wp (free_block acc x) (λ acc' p', freeing p l (pre ++ [x]) acc' p') p1.
Proof.
  intros Hinv [Hall Hle] (Hrep & Hc & Hh & Hev & Hrc & ->).
  assert (in_pool p x) as Hx0 by (rewrite Forall_app, Forall_singleton in Hall; tauto).
  assert (in_pool p1 x) as Hx by by eapply in_pool_conf.
  pose proof (proj1 (inv_in_pool _ _ _ Hrep x) Hx) as [Hbx [blk Hblk]].
  pose proof (in_pool_null _ _ _ Hrep x blk Hx Hblk) as Hnull.
  assert (null_block p1 = null_block p) as Hnb by apply Hc. rewrite Hnb in Hnull.
  assert (ref_cnt blk = rc p x - occ x pre) as Hrb.
  { rewrite <-Hrc. unfold rc. by rewrite Hblk. }
  assert (hash_of p x = _block_hash blk) as Hhx.
  { destruct Hh as [Hh _]. destruct (Hh x) as (<- & _). unfold hash_of. by rewrite Hblk. }
  assert (x ≠ null_block p → occ x (pre ++ [x]) ≤ rc p x) as Hlex.
  { intros Hne. apply Hle. by apply (in_pool_usable _ _ _ Hinv). }
  pose proof (freed_snoc p pre x Hlex) as Hfr.
  assert (occ x (pre ++ [x]) = occ x pre + 1) as Hox by (rewrite occ_snoc, decide_True; done).
  unfold free_block. wp_steps. apply wp_set_block; [by exists blk|]. set (p2 := upd_block _ _ p1).
  assert (pool_rep p2 l (l ++ freed p (pre ++ [x]))) as Hrep2.
  { apply (pool_rep_rc p1 l (l ++ freed p pre) (l ++ freed p (pre ++ [x])) x (-1)); [done..| | |].
    - intros r Hr. rewrite Hfr, !elem_of_app. case_decide; rewrite ?list_elem_of_singleton, ?elem_of_nil;
        tauto.
    - rewrite Hnb. intros ->. rewrite elem_of_app, elem_of_freed.
      pose proof (null_not_free _ _ Hinv). tauto.
    - intros Hu. rewrite Hrc, elem_of_app, elem_of_freed, Hox.
      assert (x ≠ null_block p) as Hne.
      { destruct Hu as (i & -> & ? & _). rewrite (inv_null _ _ _ Hinv). intros [= ->]. lia. }
      specialize (Hlex Hne). rewrite Hox in Hlex. split; [lia|]. split.
      + intros [Hl|(_ & _ & E)]; [|lia]. apply (free_iff p l _ Hinv) in Hl as [_ Hl].
        pose proof (occ_nonneg x pre). lia.
      + intros E. right. split_and!; [|done|lia]. apply elem_of_app. right. left. }
  assert (∀ r, rc p2 r = rc p r - occ r (pre ++ [x])) as Hrc2.
  { intros r. unfold p2. rewrite rc_upd, occ_snoc. destruct (decide (x = r)) as [<-|].
    - rewrite Hblk. simpl. lia.
    - rewrite Hrc. lia. }
  assert (same_hashes p p2) as Hh2 by (etrans; [done|apply hashes_upd_rc]).
  apply (wp_bind (block x)). eapply wp_block; [unfold p2; by rewrite bk_upd_block, decide_True, Hblk|].
  simpl. rewrite Hnull.
  assert (∀ acc', acc' = (freed_first p (pre ++ [x]), freed_last p (pre ++ [x])) →
    freeing p l (pre ++ [x]) acc' p2) as Hfin by done.
  destruct (decide (x ≠ null_block p ∧ rc p x = occ x (pre ++ [x]))) as [[Hne Hz]|Hnz].
  - rewrite (proj2 (Z.eqb_eq (ref_cnt blk - 1) 0)) by lia. rewrite bool_decide_eq_false_2 by done.
    simpl. wp_steps. apply Hfin. unfold freed_first, freed_last. rewrite Hfr, !filter_app.
    replace (enable_caching p2) with (enable_caching p) by (symmetry; apply Hc).
    assert (bool_decide (_block_hash blk = None) || negb (enable_caching p)
      = bool_decide (evict_first p x)) as ->.
    { apply eq_true_iff_eq. rewrite orb_true_iff, !bool_decide_eq_true, negb_true_iff, <-Hhx. done. }
    destruct (bool_decide_reflect (evict_first p x)) as [Hef|Hef].
    + rewrite filter_cons_True, filter_cons_False by tauto. by rewrite !filter_nil, app_nil_r.
    + rewrite filter_cons_False, filter_cons_True by tauto. by rewrite !filter_nil, app_nil_r.
  - assert ((ref_cnt blk - 1 =? 0) && negb (bool_decide (x = null_block p)) = false) as ->.
    { apply andb_false_iff. destruct (decide (x = null_block p)).
      - right. by rewrite bool_decide_eq_true_2.
      - left. apply Z.eqb_neq. intros E. apply Hnz. split; [done|lia]. }
    wp_steps. apply Hfin. unfold freed_first, freed_last. by rewrite Hfr, app_nil_r.
Qed.

Lemma free_blocks_spec p l bs :
  pool_inv p l → held p bs →
  wp (free_blocks bs)
    (λ _ p', pool_inv p' (freed_first p bs ++ l ++ freed_last p bs) ∧ same_conf p p'
      ∧ same_hashes p p' ∧ kv_event_queue p' = kv_event_queue p
      ∧ ∀ r, rc p' r = rc p r - occ r bs) p.
Proof.
  intros Hinv Hheld. unfold free_blocks. apply wp_bind.
  eapply wp_mono.
  { apply (wp_fold_each _ (freeing p l)).
    - split_and!; try done; [by rewrite app_nil_r|]. intros r. rewrite occ_nil. lia.
    - intros pre x post acc p1 Hbs HI. eapply free_block_spec; [done| |done].
      eapply held_pre. by rewrite <-Hbs. }
  simpl. intros acc p1 (Hrep & Hc & Hh & Hev & Hrc & ->).
  assert (∀ r, r ∈ freed p bs → is_Some (bk p1 r) ∧ r ≠ Head ∧ r ≠ Tail ∧ r ∉ l) as Hcand.
  { intros r (Hr & Hne & Hz)%elem_of_freed. destruct Hheld as [Hall Hle].
    rewrite Forall_forall in Hall. pose proof (Hall r Hr) as Hp.
    assert (in_pool p1 r) as Hp1 by by eapply in_pool_conf.
    apply (inv_in_pool _ _ _ Hrep) in Hp1 as [[i ->] ?]. split_and!; [done..|].
    intros [_ Hl]%(free_iff p l _ Hinv). apply occ_pos in Hr. lia. }
  pose proof (freed_nodup p bs) as Hnd.
  wp_steps. eapply (wp_on_queue _ p1 _ _ (λ _ _ l', l' = freed_first p bs ++ l)); [done| |].
  { eapply wp_mono; [eapply prepend_n_spec; [apply Hrep|]|].
    - split; [by apply NoDup_filter|]. intros r Hr. apply Hcand.
      apply list_elem_of_filter in Hr. tauto.
    - simpl. intros _ q' [? ?]. eauto. }
  intros _ p2 l2 (_ & ->) Hrep2 Hc2 Hrc2 Hh2 Hev2.
  eapply (wp_on_queue _ p2 _ _ (λ _ _ l', l' = freed_first p bs ++ l ++ freed_last p bs)); [done| |].
  { eapply wp_mono; [eapply append_n_spec; [apply Hrep2|]|].
    - split; [by apply NoDup_filter|]. intros r Hr.
      apply list_elem_of_filter in Hr as [Hne Hr]. destruct (Hcand r Hr) as (? & ? & ? & ?).
      split_and!; [|done..|].
      + apply (inv_in_pool _ _ _ Hrep2). eapply in_pool_conf; [done|].
        apply (inv_in_pool _ _ _ Hrep). split; [|done]. destruct r; [done..|by eexists].
      + unfold freed_first. rewrite elem_of_app, list_elem_of_filter. tauto.
    - simpl. intros _ q' [? ?]. eexists. split; [done|]. by rewrite <-(assoc_L (++)) in *. }
  intros _ p3 l3 (_ & ->) Hrep3 Hc3 Hrc3 Hh3 Hev3. split_and!.
  - eapply pool_rep_zero; [|done]. intros r. rewrite !elem_of_app, <-elem_of_freed_parts, elem_of_app.
    tauto.
  - etrans; [done|]. by etrans.
  - etrans; [done|]. by etrans.
  - congruence.
  - intros r. by rewrite Hrc3, Hrc2, Hrc.
Qed.

(** ** Registering full blocks *)

(** [p'] differs from [p] in the registration of block [b] only: it now has the single key
    [k], at prefix length [n]. *)
Definition rekeyed p l z b k n p' : Prop :=
  pool_rep p' l z ∧ same_conf p p' ∧ same_rc p p'
  ∧ hash_of p' b = Some k ∧ ntok_of p' b = Some n ∧ extra_of p' b = ∅
  ∧ ∀ r, is_blk r → r ≠ b →
      hash_of p' r = hash_of p r ∧ ntok_of p' r = ntok_of p r ∧ extra_of p' r = extra_of p r.

Lemma insert_fresh_spec p l z b k n :
  pool_rep p l z → usable p b → hash_of p b = None →
  wp (_insert_block_hash k b (Some n))
    (λ _ p', rekeyed p l z b k n p' ∧ kv_event_queue p' = kv_event_queue p) p.
Proof.
  intros Hinv Hu Hh. assert (is_blk b) as Hb by (destruct Hu as (i & -> & _); by exists i).
  eapply wp_mono; [by eapply insert_hash_spec|]. simpl.
  intros _ p' (Hinv' & Hev & [[Ho _]|[_ Hrg]]).
  - apply (owns_hash _ _ _ Hinv) in Ho as [? ?]; [congruence|done].
  - split; [|done]. destruct Hrg as [Hc Hrc Hself Hoth _].
    destruct Hself as [(_ & ? & ? & ?)|([? ?] & _)]; [|congruence]. done.
Qed.

(** The promotion step: drop what the block had, then register the new key. *)
Lemma promote_spec p l z b blk k n :
  pool_rep p l z → usable p b → bk p b = Some blk →
  (∀ n', _block_hash_num_tokens blk = Some n' → n' < n) →
  wp (when (bool_decide (is_Some (_block_hash blk)))
        (assert (match _block_hash_num_tokens blk with Some n' => n' <? n | None => false end);;
         removed_hashes ← _remove_cached_block_hashes b;
         _emit_block_removed_events use_int removed_hashes))
    (λ _ p1, wp (_insert_block_hash k b (Some n)) (λ _ p', rekeyed p l z b k n p') p1) p.
Proof.
  intros Hinv Hu Hblk Hn. assert (is_blk b) as Hb by (destruct Hu as (i & -> & _); by exists i).
  assert (hash_of p b = _block_hash blk) as Hh by (unfold hash_of; by rewrite Hblk).
  apply wp_when; intros Hs; bool_hyps.
  - assert (is_Some (_block_hash_num_tokens blk)) as [n' Hn'].
    { destruct Hb as [i ->]. by apply (ok_ntok _ _ _ (inv_blocks _ _ _ Hinv _ _ Hblk)). }
    rewrite Hn'. wp_steps. apply wp_assert; [apply Z.ltb_lt; by apply Hn|]. wp_steps.
    eapply wp_mono; [eapply remove_cached_spec; [done|by apply usable_in_pool]|]. simpl.
    intros hs p1 (_ & Hinv1 & Hfg & Hrc1 & Hev1).
    eapply wp_mono; [apply emit_removed_spec|]. simpl. intros _ p2 ->.
    set (p2 := set_events _ _).
    assert (pool_rep p2 l z) as Hinv2 by by apply pool_inv_events.
    destruct (fg_self _ _ _ Hfg b) as (Hh1 & Hn1 & He1); [left|].
    eapply wp_mono; [eapply (insert_fresh_spec p2); [done|by eapply usable_conf; [apply Hfg|]|done]|].
    simpl. intros _ p3 ((Hinv3 & Hc3 & Hrc3 & ? & ? & ? & Ho3) & _).
    split_and!; try done.
    + etrans; [apply Hfg|]. done.
    + etrans; [done|]. done.
    + intros r Hr Hne. destruct (Ho3 r Hr Hne) as (-> & -> & ->).
      apply (fg_other _ _ _ Hfg); [done|]. by intros ?%list_elem_of_singleton.
  - destruct (_block_hash blk) as [h'|] eqn:Eh; [by destruct Hs|].
    eapply wp_mono; [by eapply insert_fresh_spec|]. by simpl; intros _ p' [? _].
Qed.

(** The blocks [cache_full_blocks] registers, with their positions. *)
Definition targets p (block_mask : option (list bool)) (L : list (nat * ref)) : list (nat * ref) :=
  filter (λ ib, ib.2 ≠ null_block p ∧ masked_out block_mask ib.1 = false) L.

Section full.
Context (p : BlockPool) (l : list ref) (nbh : list bytes) (nc bsz gid : Z)
  (block_mask : option (list bool)).

Definition full_key (i : nat) : exn + bytes :=
  make_block_hash_with_group_id (default [] (nbh !! i)) gid.
Definition ext_hash (ib : nat * ref) : ExternalBlockHash :=
  maybe_convert_block_hash use_int (default [] (nbh !! ib.1)).
Definition full_tokens (i : nat) : Z := (nc + Z.of_nat i + 1) * bsz.

(** The targets of [L] are registered, all other blocks are as in [p]. *)
Definition registered_full (acc0 : option (list ExternalBlockHash)) (L : list (nat * ref))
    (acc : option (list ExternalBlockHash)) p' : Prop :=
  pool_inv p' l ∧ same_conf p p' ∧ same_rc p p'
  ∧ acc = (λ hs, hs ++ (ext_hash <$> targets p block_mask L)) <$> acc0
  ∧ (∀ i b, (i, b) ∈ targets p block_mask L → ∃ k, full_key i = inr k
       ∧ is_blk b ∧ hash_of p' b = Some k ∧ ntok_of p' b = Some (full_tokens i)
       ∧ extra_of p' b = ∅)
  ∧ (∀ r, is_blk r → r ∉ (targets p block_mask L).*2 →
       hash_of p' r = hash_of p r ∧ ntok_of p' r = ntok_of p r ∧ extra_of p' r = extra_of p r).

Lemma targets_snoc L x : targets p block_mask (L ++ [x])
  = targets p block_mask L
    ++ if decide (x.2 ≠ null_block p ∧ masked_out block_mask x.1 = false) then [x] else [].
Proof using. unfold targets. rewrite filter_app, filter_cons. done. Qed.

Lemma cache_full_block_spec acc0 pre x acc p1 :
  in_pool p x.2 → 0 ≤ gid < 2 ^ 32 →
  NoDup (targets p block_mask (pre ++ [x])).*2 →
  (x ∈ targets p block_mask [x] →
     is_Some (nbh !! x.1) ∧ ∀ n, ntok_of p x.2 = Some n → n < full_tokens x.1) →
  registered_full acc0 pre acc p1 →
  wp (cache_full_block use_int nbh nc bsz gid block_mask acc x)
    (λ acc' p', registered_full acc0 (pre ++ [x]) acc' p') p1.
Proof using.
  destruct x as [i b]. simpl. intros Hb Hgid Hnd Hx (Hinv & Hc & Hrc & -> & Hdone & Hoth).
  assert (in_pool p1 b) as Hb1 by by eapply in_pool_conf.
  pose proof (proj1 (inv_in_pool _ _ _ Hinv b) Hb1) as [Hbb [blk Hblk]].
  pose proof (in_pool_null _ _ _ Hinv b blk Hb1 Hblk) as Hnull.
  assert (null_block p1 = null_block p) as Hnb by apply Hc. rewrite Hnb in Hnull.
  wp_steps. eapply wp_block; [done|]. rewrite Hnull.
  destruct (decide (b ≠ null_block p ∧ masked_out block_mask i = false)) as [[Hne Hm]|Hskip].
  - rewrite bool_decide_eq_false_2, Hm by done. simpl.
    assert (targets p block_mask (pre ++ [(i, b)]) = targets p block_mask pre ++ [(i, b)]) as Ht
      by (rewrite targets_snoc; by rewrite decide_True).
    destruct Hx as [[h Hh] Hn].
    { apply list_elem_of_filter. split; [done|left]. }
    rewrite Hh. wp_steps. eapply wp_lift_option; [done|]. cbn beta.
    destruct (make_key_ok h gid Hgid) as [k Hk]. wp_steps. eapply wp_lift_result; [done|].
    assert (b ∉ (targets p block_mask pre).*2) as Hnin.
    { rewrite Ht, fmap_app in Hnd. apply NoDup_app in Hnd as (_ & Hd & _).
      intros H. apply (Hd b H). left. }
    destruct (Hoth b Hbb Hnin) as (Hhb & Hnb' & Heb).
    apply wp_bind. eapply wp_mono.
    { apply (promote_spec p1 l l b blk k (full_tokens i)); [done| |done|].
      - by apply (in_pool_usable _ _ _ Hinv); [|rewrite Hnb].
      - intros n' Hn'. apply Hn. rewrite <-Hnb'. unfold ntok_of. by rewrite Hblk. }
    simpl. intros _ p2 Hins. apply wp_bind. eapply wp_mono; [exact Hins|]. simpl.
    intros _ p3 (Hinv3 & Hc3 & Hrc3 & Hh3 & Hn3 & He3 & Ho3). apply wp_ret.
    split_and!; [done|by etrans|by etrans| | |].
    + destruct acc0; [|done]. simpl. rewrite Ht, fmap_app. simpl.
      unfold ext_hash at 3. simpl. by rewrite Hh, <-(assoc_L (++)).
    + intros j c Hj. rewrite Ht, elem_of_app in Hj. destruct Hj as [Hj|Hj].
      * destruct (Hdone j c Hj) as (k' & Hk' & Hd). exists k'. split; [done|].
        assert (c ∈ (targets p block_mask pre).*2) as Hc'
          by (apply list_elem_of_fmap; by exists (j, c)).
        destruct (Ho3 c) as (-> & -> & ->); [apply Hd|by intros ->|done].
      * apply list_elem_of_singleton in Hj. simplify_eq. exists k.
        split_and!; [|done..]. unfold full_key. by rewrite Hh.
    + intros r Hr Hnr. rewrite Ht, fmap_app, not_elem_of_app in Hnr. simpl in Hnr.
      destruct Hnr as [Hnr Hrb]. destruct (Ho3 r Hr) as (-> & -> & ->).
      { by intros ->; apply Hrb; left. }
      by apply Hoth.
  - assert (bool_decide (b = null_block p) || masked_out block_mask i = true) as ->.
    { destruct (masked_out block_mask i); [by rewrite orb_true_r|].
      rewrite bool_decide_eq_true_2; [done|]. destruct (decide (b = null_block p)); naive_solver. }
    assert (targets p block_mask (pre ++ [(i, b)]) = targets p block_mask pre) as Ht
      by (rewrite targets_snoc; rewrite decide_False by done; by rewrite app_nil_r).
    apply wp_ret. unfold registered_full. rewrite Ht. done.
Qed.
End full.

(** [block_hashes[nc:]] at scale [k]. *)
Lemma bhl_from_spec hbs (k : Z) hs v nc :
  0 < hbs → 0 < k → 0 ≤ nc →
  resolve_block_hashes (RawHashes hs) hbs (k * hbs) false None = inr v →
  ∃ nbh, bhl_from v nc = Some nbh
    ∧ ∀ i : nat, (nc + Z.of_nat i + 1) * k ≤ zlen hs →
        nbh !! i = hs !! Z.to_nat ((nc + Z.of_nat i + 1) * k - 1).
Proof using.
  intros Hhbs Hk Hnc Hv.
  assert (∀ j, 0 ≤ j → bhl_get v j = hs !! Z.to_nat ((j + 1) * k - 1)) as Hget
    by (intros; by apply (view_get hbs)).
  destruct (view_cases _ _ _ _ Hhbs Hk Hv) as [[-> ->]| ->]; simpl.
  - eexists. split; [done|]. intros i _. rewrite lookup_drop. f_equal. lia.
  - destruct (mapM_is_Some_2 (bhl_get (ScaledHashes hs k)) (py_range nc (zlen hs / k))) as [nbh Hnbh].
    { apply Forall_forall. intros j Hj%elem_of_py_range.
      change (is_Some (bhl_get (ScaledHashes hs k) j)). rewrite Hget by lia.
      apply lookup_lt_is_Some. pose proof (Z.mul_div_le (zlen hs) k Hk). unfold zlen in *. nia. }
    exists nbh. split; [done|]. intros i Hi. apply mapM_Some in Hnbh.
    assert (nc + Z.of_nat i < zlen hs / k) as Hi'.
    { apply Z.lt_le_trans with (nc + Z.of_nat i + 1); [lia|].
      apply Z.div_le_lower_bound; lia. }
    assert (py_range nc (zlen hs / k) !! i = Some (nc + Z.of_nat i)) as Hr.
    { unfold py_range. rewrite list_lookup_fmap, lookup_seq_lt by lia. simpl. f_equal. }
    destruct (Forall2_lookup_l _ _ _ _ _ Hnbh Hr) as (h & Hh & E).
    rewrite Hh, <-E. rewrite Hget by lia. f_equal.
Qed.

(** What the caller of [cache_full_blocks] provides: blocks of the pool, at least as many
    hashes as full blocks, a mask of the right length, and no block to register twice or
    already registered for a prefix that is not shorter. *)
Record full_pre p request (bs : list ref) (nc nf k gid : Z) (block_mask : option (list bool))
    : Prop := {
  fp_hbs : 0 < hash_block_size p;
  fp_k : 0 < k;
  fp_gid : 0 ≤ gid < 2 ^ 32;
  fp_range : 0 ≤ nc < nf ∧ nf ≤ zlen bs;
  fp_hashes : nf * k ≤ zlen (block_hashes request);
  fp_blocks : Forall (in_pool p) bs;
  fp_mask : match block_mask with None => True | Some m => zlen m = nf - nc end;
  fp_nodup : NoDup (targets p block_mask (imap pair (py_slice bs nc nf))).*2;
  fp_promote : ∀ i b n, (i, b) ∈ targets p block_mask (imap pair (py_slice bs nc nf)) →
    ntok_of p b = Some n → n < (nc + Z.of_nat i + 1) * (k * hash_block_size p);
}.

Definition prefix_key request (k gid idx : Z) : exn + bytes :=
  make_block_hash_with_group_id
    (default [] (block_hashes request !! Z.to_nat ((idx + 1) * k - 1))) gid.

(** The effect of [cache_full_blocks] on the pool. *)
Definition full_cached p l request (bs : list ref) (nc nf k gid : Z)
    (block_mask : option (list bool)) p' : Prop :=
  pool_inv p' l ∧ same_conf p p' ∧ same_rc p p'
  ∧ (∀ i b, (i, b) ∈ targets p block_mask (imap pair (py_slice bs nc nf)) →
       ∃ key, prefix_key request k gid (nc + Z.of_nat i) = inr key ∧ is_blk b
       ∧ hash_of p' b = Some key
       ∧ ntok_of p' b = Some ((nc + Z.of_nat i + 1) * (k * hash_block_size p))
       ∧ extra_of p' b = ∅)
  ∧ (∀ r, is_blk r → r ∉ (targets p block_mask (imap pair (py_slice bs nc nf))).*2 →
       hash_of p' r = hash_of p r ∧ ntok_of p' r = ntok_of p r ∧ extra_of p' r = extra_of p r).

Lemma resolve_ok hbs (k : Z) hs : 0 < hbs → 0 < k →
  ∃ v, resolve_block_hashes (RawHashes hs) hbs (k * hbs) false None = inr v.
Proof using.
  intros Hhbs Hk. unfold resolve_block_hashes, BlockHashListWithBlockSize, result_assert.
  destruct (_ =? _); [by eexists|]. simpl. rewrite Z.mod_mul by lia. simpl. by eexists.
Qed.

Lemma stored_extra_keys_total p l z request bs (nc nf bsz : Z) block_mask :
  pool_rep p l z → 0 ≤ nc → nf ≤ zlen bs → Forall (in_pool p) bs →
  wp (stored_extra_keys sha256 request bs nc nf bsz block_mask) (λ _ p', p' = p) p.
Proof using.
  intros Hinv Hnc Hnf Hall. unfold stored_extra_keys.
  eapply wp_mono; [apply (wp_fold_each _ (λ _ acc p', p' = p ∧ -1 ≤ acc.2))|by intros ? ? [? _]].
  { split; [done|simpl; lia]. }
  intros pre i post acc p' Hr [-> Hacc].
  assert (i ∈ py_range nc nf) as Hi by (rewrite Hr; apply elem_of_app; right; left).
  apply elem_of_py_range in Hi. destruct (lookup_lt_is_Some_2 bs (Z.to_nat i)) as [b Hb].
  { unfold zlen in *. lia. }
  assert (in_pool p b) as Hbp by (eapply Forall_lookup_1; eauto).
  apply (inv_in_pool _ _ _ Hinv) in Hbp as [_ [blk Hblk]].
  wp_steps. eapply wp_lift_option; [by rewrite py_get_nonneg by lia|]. apply wp_bind.
  eapply wp_block; [done|]. case_match; [by wp_steps|].
  destruct (gen_keys_total sha256 request (i * bsz) (i * bsz + bsz) acc.2 Hacc) as (ek & j & E & Hj).
  wp_steps. eapply wp_lift_result; [done|]. by wp_steps.
Qed.

Lemma elem_of_imap_pair (bs : list ref) i b : (i, b) ∈ imap pair bs ↔ bs !! i = Some b.
Proof using.
  rewrite list_elem_of_lookup. split.
  - intros [j Hj]. rewrite list_lookup_imap in Hj. destruct (bs !! j) eqn:E; by simplify_eq/=.
  - intros Hi. exists i. by rewrite list_lookup_imap, Hi.
Qed.

Lemma py_slice_lookup {A} (xs : list A) (a b : Z) i x :
  0 ≤ a → py_slice xs a b !! i = Some x → xs !! Z.to_nat (a + Z.of_nat i) = Some x ∧ a + Z.of_nat i < b.
Proof using.
  intros Ha. unfold py_slice. rewrite lookup_take_Some, lookup_drop. intros [Hx Hi].
  split; [|lia]. rewrite <-Hx. f_equal. lia.
Qed.

Lemma zlen_py_slice {A} (xs : list A) (a b : Z) : 0 ≤ a ≤ b → b ≤ zlen xs → zlen (py_slice xs a b) = b - a.
Proof using. intros Ha Hb. unfold py_slice, zlen in *. rewrite length_take, length_drop. lia. Qed.

(** The registration loop, run on the whole slice. *)
Lemma full_loop_spec p l request bs (nc nf k gid : Z) block_mask nbh acc0 :
  pool_inv p l → full_pre p request bs nc nf k gid block_mask →
  (∀ i : nat, (nc + Z.of_nat i + 1) * k ≤ zlen (block_hashes request) →
     nbh !! i = block_hashes request !! Z.to_nat ((nc + Z.of_nat i + 1) * k - 1)) →
  wp (fold_each (imap pair (py_slice bs nc nf))
        (cache_full_block use_int nbh nc (k * hash_block_size p) gid block_mask) acc0)
    (λ acc p', full_cached p l request bs nc nf k gid block_mask p'
       ∧ registered_full p l nbh nc (k * hash_block_size p) gid block_mask acc0
           (imap pair (py_slice bs nc nf)) acc p') p.
Proof using.
  intros Hinv [Hhbs Hk Hgid [Hnc Hnf] Hhs Hall Hmask Hnd Hpro] Hnbh.
  assert (∀ i b, (i, b) ∈ imap pair (py_slice bs nc nf) → in_pool p b
    ∧ (nc + Z.of_nat i + 1) * k ≤ zlen (block_hashes request)) as Hin.
  { intros i b Hib%elem_of_imap_pair. apply py_slice_lookup in Hib as [Hb Hlt]; [|lia].
    split; [by eapply Forall_lookup_1|nia]. }
  eapply wp_mono.
  { apply (wp_fold_each _ (registered_full p l nbh nc (k * hash_block_size p) gid block_mask acc0)).
    - split_and!; try done.
      + destruct acc0; simpl; by rewrite ?app_nil_r.
      + by intros i b ?%elem_of_nil.
    - intros pre [i b] post acc p' Hl HI.
      assert ((i, b) ∈ imap pair (py_slice bs nc nf)) as Hib
        by (rewrite Hl; apply elem_of_app; right; left).
      destruct (Hin i b Hib) as [Hb Hle].
      eapply cache_full_block_spec; [done|done| | |done].
      + rewrite Hl in Hnd. unfold targets in *. change ((i, b) :: post) with ([(i, b)] ++ post) in Hnd.
        rewrite (assoc_L (++)), filter_app, fmap_app in Hnd. by apply NoDup_app in Hnd as (? & _).
      + intros Ht. simpl. split.
        * rewrite Hnbh by done. apply lookup_lt_is_Some. unfold zlen in *. nia.
        * intros n Hn. eapply Hpro; [|done]. apply list_elem_of_filter in Ht as [Ht _].
          by apply list_elem_of_filter. }
  simpl. intros acc p' Hreg. split; [|done].
  destruct Hreg as (? & ? & ? & _ & Hdone & Hoth). split_and!; try done.
  intros i b Hib. destruct (Hdone i b Hib) as (key & Hkey & Hrest). exists key. split; [|done].
  apply list_elem_of_filter in Hib as [_ Hib]. unfold full_key in Hkey.
  rewrite Hnbh in Hkey by (by eapply Hin). done.
Qed.

Lemma cache_full_blocks_spec p l request bs (nc nf k gid : Z) block_mask :
  pool_inv p l → full_pre p request bs nc nf k gid block_mask →
  wp (cache_full_blocks sha256 use_int request bs nc nf (k * hash_block_size p) gid block_mask)
    (λ _ p', full_cached p l request bs nc nf k gid block_mask p') p.
Proof using.
  intros Hinv Hpre. pose proof Hpre as [Hhbs Hk Hgid [Hnc Hnf] Hhs Hall Hmask Hnd Hpro].
  unfold cache_full_blocks. rewrite (proj2 (Z.leb_gt nf nc)) by lia.
  wp_steps. apply wp_assert.
  { destruct block_mask as [m|]; [|done]. rewrite zlen_py_slice by lia. by apply Z.eqb_eq. }
  wp_steps. destruct (resolve_ok (hash_block_size p) k (block_hashes request) Hhbs Hk) as [v Hv].
  eapply wp_lift_result; [done|].
  destruct (bhl_from_spec (hash_block_size p) k (block_hashes request) v nc) as (nbh & Hf & Hnbh);
    [done|done|lia|done|].
  wp_steps. eapply wp_lift_option; [done|]. wp_steps.
  eapply wp_mono; [by eapply full_loop_spec|]. simpl.
  intros acc p1 [Hfc Hreg]. apply wp_when; intros Hon; [|done].
  assert (wp (if nc =? 0 then mret None
              else h ← lift_option IndexError (bhl_get v (nc - 1));
                   mret (Some (maybe_convert_block_hash use_int h)))
            (λ (_ : option ExternalBlockHash) p', p' = p1) p1) as Hparent.
  { destruct (Z.eqb_spec nc 0); [by wp_steps|]. wp_steps.
    destruct (lookup_lt_is_Some_2 (block_hashes request) (Z.to_nat ((nc - 1 + 1) * k - 1))) as [h Hh].
    { unfold zlen in *. nia. }
    eapply wp_lift_option; [|by wp_steps].
    rewrite (view_get (hash_block_size p) k (block_hashes request)) by (done || lia). done. }
  wp_steps. eapply wp_mono; [exact Hparent|]. simpl. intros parent ? ->. wp_steps.
  pose proof Hfc as (Hinv1 & Hc1 & _).
  eapply wp_mono; [eapply stored_extra_keys_total; [exact Hinv1|lia|lia|]|].
  { eapply Forall_impl; [done|]. intros b Hb. by eapply in_pool_conf. }
  simpl. intros eks ? ->. unfold add_event. wp_steps.
  destruct Hfc as (? & ? & ? & ? & ?). split_and!; try done. by apply pool_inv_events.
Qed.
End ops.
