(* ===== verification/BlockPoolTheorems.v ===== *)
(** The remaining block-pool specifications (lookup, moving, partial entries, explicit
    eviction, reset, construction), the pool as a state machine, and the properties of the
    pool that hold in every reachable state. *)

From S2P Require Import Prelude MathUtils Request BlockHash BlockHashFacts FreeQueue.
From S2P Require Import FreeQueueFacts BlockPool BlockPoolFacts BlockPoolSpec.

Set Warnings "-level-tolerance,-clear-no-such-hyp".

Section lookup.
Implicit Types (p : BlockPool) (l z xs : list ref) (r b : ref) (k h : bytes).

(** ** Lookup *)

(** A hit: one registered block per group, the oldest of its key. *)
Definition hit p h (gs : list Z) (bs : list ref) : Prop :=
  Forall2 (λ g b, ∃ key, make_block_hash_with_group_id h g = inr key
    ∧ usable p b ∧ owns p b key ∧ head (cached_at p key) = Some b) gs bs.
Definition miss p h (gs : list Z) : Prop :=
  ∃ g key, g ∈ gs ∧ make_block_hash_with_group_id h g = inr key ∧ ∀ r, is_blk r → ¬ owns p r key.

Lemma get_cached_block_spec p l h gs :
  pool_inv p l → Forall (λ g, 0 ≤ g < 2 ^ 32) gs →
  wp (get_cached_block h gs) (λ res p', p' = p
    ∧ match res with Some bs => hit p h gs bs | None => miss p h gs end) p.
Proof.
  intros Hinv Hgs. unfold get_cached_block. wp_steps.
  assert (∃ res, get_cached_block_loop (cached_block_hash_to_block p) h gs = inr res
    ∧ match res with Some bs => hit p h gs bs | None => miss p h gs end) as (res & E & H).
  { induction Hgs as [|g gs Hg _ IH]; simpl; [eexists; split; [done|]; constructor|].
    destruct (make_key_ok h g Hg) as [key Hkey]. rewrite Hkey. simpl.
    rewrite get_one_block_spec by apply Hinv. fold (cached_at p key).
    destruct (head (cached_at p key)) as [b|] eqn:Eb.
    - destruct IH as (res & -> & Hres). simpl. eexists. split; [done|].
      destruct res as [bs|]; simpl.
      + constructor; [|done]. exists key. split; [done|].
        destruct (cached_usable _ _ _ Hinv key b) as [? ?]; [|done].
        destruct (cached_at p key); [done|]. simplify_eq/=. left.
      + destruct Hres as (g' & key' & ? & ?). exists g', key'. split; [by right|done].
    - eexists. split; [done|]. exists g, key. split; [left|]. split; [done|].
      intros r Hr Ho. assert (r ∈ cached_at p key) as Hin by (by apply (inv_index _ _ _ Hinv)).
      destruct (cached_at p key); [by apply elem_of_nil in Hin|done]. }
  rewrite E. by eapply wp_lift_result.
Qed.

Lemma blocks_lookup p i : 0 ≤ i < num_gpu_blocks p → py_get (blocks p) i = Some (Blk (Z.to_nat i)).
Proof.
  intros Hi. rewrite py_get_nonneg by lia. unfold blocks. rewrite list_lookup_fmap, lookup_seq_lt by lia.
  done.
Qed.

(** ** Reset *)

(** The hashes of the blocks [bs] are reset. *)
Definition hashes_reset p l (bs : list ref) p' : Prop :=
  queue_rep (free_block_queue p') l ∧ (∃ q', p' = set_queue q' p)
  ∧ ∀ r, bk p' r = if decide (r ∈ bs) then with_hash None None <$> bk p r else bk p r.

Lemma reset_loop_spec p l bs :
  queue_rep (free_block_queue p) l → Forall (λ r, is_Some (bk p r)) bs →
  wp (for_each bs (λ b, on_queue (reset_hash b))) (λ _ p', hashes_reset p l bs p') p.
Proof.
  intros Hq Hall.
  apply (wp_for_each _ (hashes_reset p l)).
  { split_and!; [done|exists (free_block_queue p); by rewrite set_queue_id|done]. }
  intros pre b post p1 Hbs (Hq1 & [q1 Hq1'] & Hbk).
  apply wp_reset_hash.
  { rewrite Hbk. rewrite Forall_forall in Hall.
    assert (is_Some (bk p b)) by (apply Hall; rewrite Hbs; apply elem_of_app; right; left).
    case_decide; [by rewrite fmap_is_Some|done]. }
  split_and!.
  - by apply rep_upd_block; [apply keeps_links_hash|].
  - rewrite Hq1'. by eexists.
  - intros r. rewrite bk_upd_block, Hbk.
    rewrite (decide_ext (r ∈ pre ++ [b]) (r ∈ pre ∨ b = r))
      by (rewrite elem_of_app, list_elem_of_singleton; naive_solver).
    destruct (bk p r); repeat case_decide; naive_solver.
Qed.

Lemma elem_of_blocks p l r : pool_inv p l → r ∈ blocks p ↔ in_pool p r.
Proof.
  intros Hinv. pose proof (inv_size _ _ _ Hinv). unfold blocks, in_pool.
  rewrite list_elem_of_fmap. setoid_rewrite elem_of_seq. split.
  - intros (i & -> & ?). exists i. split; [done|lia].
  - intros (i & -> & ?). exists i. split; [done|lia].
Qed.

(** All hashes are gone. *)
Definition cleared p p' : Prop :=
  same_conf p p' ∧ same_rc p p'
  ∧ (∀ r, is_blk r → hash_of p' r = None ∧ extra_of p' r = ∅) ∧ ∀ k, cached_at p' k = [].

Lemma reset_prefix_cache_spec p l :
  pool_inv p l →
  if decide (zlen l = num_gpu_blocks p - 1)
  then wp reset_prefix_cache (λ res p', res = true ∧ pool_inv p' l ∧ cleared p p') p
  else wp reset_prefix_cache (λ res p', res = false ∧ p' = p) p.
Proof.
  intros Hinv. unfold reset_prefix_cache.
  pose proof (inv_num_free _ _ _ Hinv) as Hnum. case_decide as Hall; wp_steps; rewrite Hnum.
  - rewrite (proj2 (Z.eqb_eq (num_gpu_blocks p - zlen l) 1)) by lia. simpl. wp_steps.
    set (p1 := set_by_block ∅ (set_cached ∅ p)).
    eapply wp_mono; [apply (reset_loop_spec p1 l (blocks p)); [apply Hinv|]|].
    { apply Forall_forall. intros r Hr%(elem_of_blocks p l _ Hinv).
      by apply (inv_in_pool _ _ _ Hinv). }
    simpl. intros _ p2 (Hq2 & [q2 ->] & Hbk).
    assert (∀ r, is_blk r → bk (set_queue q2 p1) r = with_hash None None <$> bk p r) as Hbk'.
    { intros r Hr. rewrite Hbk. change (bk p1 r) with (bk p r). case_decide as Hin; [done|].
      destruct (bk p r) eqn:E; [|done]. exfalso. apply Hin, (elem_of_blocks p l _ Hinv).
      apply (inv_in_pool _ _ _ Hinv). by rewrite E. }
    assert (pool_inv (set_queue q2 p1) l ∧ cleared p (set_queue q2 p1)) as [Hinv2 Hcl].
    { assert (cleared p (set_queue q2 p1)) as Hcl.
      { split_and!; [done|..].
        - intros r. unfold rc. rewrite Hbk. change (bk p1 r) with (bk p r).
          case_decide; [|done]. by destruct (bk p r).
        - intros r Hr. unfold hash_of. rewrite Hbk' by done. by destruct (bk p r).
        - done. }
      split; [|done]. destruct Hcl as (Hc & _ & Hno & Hca).
      eapply pool_inv_hashes; [done..| | | | |].
      - intros r. rewrite <-(inv_store _ _ _ Hinv r). fold (bk (set_queue q2 p1) r) (bk p r).
        rewrite Hbk. change (bk p1 r) with (bk p r). case_decide; [|done]. apply fmap_is_Some.
      - intros i b' Hb'. rewrite Hbk' in Hb' by (by exists i).
        destruct (bk p (Blk i)) as [b|]; [|done]. simplify_eq/=. exists b.
        split_and!; try done; split; by intros [? ?].
      - intros j s Hs. simpl in Hs. by rewrite lookup_empty in Hs.
      - by apply map_Forall_empty.
      - intros k r. rewrite Hca. split; [by intros ?%elem_of_nil|]. intros [Hr [Ho|Ho]];
          destruct (Hno r Hr) as [E1 E2]; [congruence|]. rewrite E2 in Ho. by apply elem_of_empty in Ho. }
    wp_steps. apply wp_when; intros _; unfold add_event; wp_steps.
    + split_and!; [done|by apply pool_inv_events|]. destruct Hcl as (? & ? & ? & ?). done.
    + done.
  - rewrite (proj2 (Z.eqb_neq (num_gpu_blocks p - zlen l) 1)) by lia. simpl. by wp_steps.
Qed.

(** ** Moving entries *)

(** The entries of [src] now belong to [dst]; nothing else changed. *)
Definition moved p l src dst p' : Prop :=
  pool_inv p' l ∧ same_conf p p' ∧ same_rc p p' ∧ kv_event_queue p' = kv_event_queue p
  ∧ (∀ k, owns p' dst k ↔ owns p src k) ∧ (∀ k, ¬ owns p' src k)
  ∧ ∀ r, is_blk r → r ≠ src → r ≠ dst →
      hash_of p' r = hash_of p r ∧ ntok_of p' r = ntok_of p r ∧ extra_of p' r = extra_of p r.

Lemma registered_owns p l z b k n p' :
  pool_rep p l z → is_blk b → registered p b k n p' → ∀ k', owns p' b k' ↔ owns p b k' ∨ k' = k.
Proof.
  intros Hinv Hb Hrg k'. unfold owns.
  destruct (rg_self _ _ _ _ _ Hrg) as [(Hn & -> & _ & ->)|(Hs & -> & _ & ->)].
  - rewrite Hn. assert (extra_of p b = ∅) as ->.
    { destruct (decide (extra_of p b = ∅)) as [|Hx]; [done|].
      destruct (extra_usable _ _ _ Hinv b Hb Hx) as (? & ? & _). congruence. }
    rewrite elem_of_empty. split; [intros [[= ->]|[]]; by right|].
    intros [[?|[]]| ->]; [done|by left].
  - rewrite elem_of_union, elem_of_singleton. tauto.
Qed.

Lemma move_spec p l src dst :
  pool_inv p l → in_pool p src → usable p dst → src ≠ dst → hash_of p dst = None →
  wp (move_block_hashes src dst) (λ _ p', moved p l src dst p') p.
Proof.
  intros Hinv Hsrc Hdst Hne Hh.
  assert (is_blk dst) as Hbd by (destruct Hdst as (i & -> & _); by exists i).
  pose proof (proj1 (inv_in_pool _ _ _ Hinv src) Hsrc) as [Hbs [sblk Hsblk]].
  destruct (usable_ok _ _ _ Hinv dst Hdst) as (i & dblk & Hdi & Hdblk & _).
  assert (hash_of p dst = _block_hash dblk) as Hd0 by (unfold hash_of; by rewrite Hdblk).
  assert (∀ k, ¬ owns p dst k) as Hno.
  { intros k Ho. apply (owns_hash _ _ _ Hinv) in Ho as [? ?]; [congruence|done]. }
  unfold move_block_hashes. wp_steps. eapply wp_block; [done|]. wp_steps.
  apply wp_assert; [by rewrite bool_decide_eq_true_2 by congruence|]. wp_steps. apply wp_assert.
  { apply bool_decide_eq_true. destruct (_ !! _) as [s|] eqn:Es; [|done]. exfalso.
    destruct (inv_extra _ _ _ Hinv _ _ Es) as (_ & j & h & Ej & Hj & _). subst dst. simpl in Ej.
    replace j with i in * by lia. congruence. }
  wp_steps. eapply wp_block; [done|]. wp_steps.
  eapply wp_mono; [by eapply remove_cached_spec|]. simpl.
  intros hs p1 (-> & Hinv1 & Hfg & Hrc1 & Hev1).
  assert (∀ r, is_blk r → r ≠ src → hash_of p1 r = hash_of p r ∧ ntok_of p1 r = ntok_of p r
    ∧ extra_of p1 r = extra_of p r) as Ho1.
  { intros r Hr Hr'. apply (fg_other _ _ _ Hfg); [done|]. by intros ?%list_elem_of_singleton. }
  assert (∀ k, ¬ owns p1 src k) as Hsrc1.
  { intros k [Ho|Ho]; destruct (fg_self _ _ _ Hfg src) as (E1 & _ & E2); try left; [congruence|].
    rewrite E2 in Ho. by apply elem_of_empty in Ho. }
  eapply wp_mono.
  { apply (wp_for_each _ (λ pre p', pool_inv p' l ∧ same_conf p p' ∧ same_rc p p'
      ∧ kv_event_queue p' = kv_event_queue p
      ∧ (∀ k, owns p' dst k ↔ k ∈ pre) ∧ (∀ k, ¬ owns p' src k)
      ∧ ∀ r, is_blk r → r ≠ src → r ≠ dst →
        hash_of p' r = hash_of p r ∧ ntok_of p' r = ntok_of p r ∧ extra_of p' r = extra_of p r)).
    - split_and!; [done|apply Hfg|done|done| |done|by intros; apply Ho1].
      intros k. split; [|by intros ?%elem_of_nil]. intros Ho. exfalso. apply (Hno k).
      unfold owns in *. by destruct (Ho1 dst) as (<- & _ & <-).
    - intros pre k post p2 Hks (Hinv2 & Hc2 & Hrc2 & Hev2 & Hown2 & Hsrc2 & Ho2).
      eapply wp_mono; [eapply insert_hash_spec; [done|by eapply usable_conf|]|].
      { assert (owns p src k) as Ho.
        { apply elem_of_keys_of. rewrite Hks. apply elem_of_app. right. left. }
        apply (owns_hash _ _ _ Hinv) in Ho as [h Hh']; [|done].
        unfold hash_of in Hh'. rewrite Hsblk in Hh'. destruct Hbs as [j ->].
        apply (ok_ntok _ _ _ (inv_blocks _ _ _ Hinv _ _ Hsblk)). by exists h. }
      simpl. intros _ p3 (Hinv3 & Hev3 & Hcase).
      destruct Hcase as [[Ho ->]|[_ Hrg]].
      + split_and!; try done. intros k'. rewrite Hown2, elem_of_app, list_elem_of_singleton.
        apply Hown2 in Ho. split; [tauto|]. intros [?| ->]; done.
      + pose proof Hrg as [Hc3 Hrc3 _ Hoth3 _]. split_and!; [done|by etrans|by etrans|congruence|..].
        * intros k'. rewrite (registered_owns _ _ _ _ _ _ _ Hinv2 Hbd Hrg).
          by rewrite Hown2, elem_of_app, list_elem_of_singleton.
        * intros k'. unfold owns. destruct (Hoth3 src) as (-> & _ & ->); [done..|]. apply Hsrc2.
        * intros r Hr Hr1 Hr2. destruct (Hoth3 r) as (-> & -> & ->); [done..|]. by apply Ho2. }
  simpl. intros _ p' (? & ? & ? & ? & Hown & ? & ?). split_and!; try done.
  intros k. rewrite Hown. apply elem_of_keys_of.
Qed.
End lookup.

Section ops.
Context (sha256 : bytes → bytes) (use_int : bool).
Implicit Types (p : BlockPool) (l z xs : list ref) (r b : ref) (k h : bytes).

(** ** Explicit eviction *)

Lemma evict_blocks_spec p l ids :
  pool_inv p l → Forall (λ i, 0 ≤ i < num_gpu_blocks p) ids →
  wp (evict_blocks use_int ids)
    (λ _ p', pool_inv p' l ∧ forgotten p ((λ i, Blk (Z.to_nat i)) <$> ids) p' ∧ same_rc p p') p.
Proof.
  intros Hinv Hall. unfold evict_blocks.
  apply (wp_for_each _ (λ pre p', pool_inv p' l
    ∧ forgotten p ((λ i, Blk (Z.to_nat i)) <$> pre) p' ∧ same_rc p p')).
  { split_and!; [done|apply forgotten_nil|done]. }
  intros pre i post p1 Hids (Hinv1 & Hfg & Hrc).
  assert (0 ≤ i < num_gpu_blocks p) as Hi.
  { rewrite Forall_forall in Hall. apply Hall. rewrite Hids. apply elem_of_app. right. left. }
  assert (num_gpu_blocks p1 = num_gpu_blocks p) as Hn by apply Hfg.
  wp_steps. apply wp_assert.
  { unfold blocks, zlen. rewrite length_fmap, length_seq. apply Z.ltb_lt. lia. }
  wp_steps. eapply wp_lift_option; [apply blocks_lookup; lia|]. wp_steps.
  eapply wp_mono; [eapply evict_spec; [done|exists (Z.to_nat i); split; [done|lia]]|].
  simpl. intros _ p2 (_ & Hinv2 & Hfg2 & Hrc2 & _). wp_steps. split_and!; [done| |by etrans].
  rewrite fmap_app. eapply forgotten_trans; [|done..]. apply Forall_fmap, Forall_true.
  intros j. by eexists.
Qed.

(** ** Partial entries *)

Record partial_pre p request (num_toks gid bsz : Z) : Prop := {
  pp_hbs : 0 < hash_block_size p < bsz;
  pp_div : bsz mod hash_block_size p = 0;
  pp_partial : num_toks mod bsz ≠ 0;
  pp_aligned : num_toks mod hash_block_size p = 0;
  pp_hashes : 0 < num_toks / hash_block_size p ≤ zlen (block_hashes request);
  pp_gid : 0 ≤ gid < 2 ^ 32;
}.

(** The key a partial entry of [num_toks] tokens gets. *)
Definition partial_key p request (num_toks gid : Z) : exn + bytes :=
  make_block_hash_with_group_id
    (default [] (block_hashes request !! Z.to_nat (num_toks / hash_block_size p - 1))) gid.

Definition partially_cached p l b (key : bytes) (n : Z) p' : Prop :=
  pool_inv p' l ∧ same_conf p p' ∧ same_rc p p' ∧ owns p' b key
  ∧ (ntok_of p' b = ntok_of p b ∨ ntok_of p' b = Some n)
  ∧ ∀ r, is_blk r → r ≠ b →
      hash_of p' r = hash_of p r ∧ ntok_of p' r = ntok_of p r ∧ extra_of p' r = extra_of p r.

Lemma partially_cached_events p l b key n p' es :
  partially_cached p l b key n p' → partially_cached p l b key n (set_events es p').
Proof. intros (? & ? & ? & ? & ? & ?). split_and!; try done. by apply pool_inv_events. Qed.

(** Registering a key after possibly dropping the shorter ones. *)
Lemma partial_insert_spec p l b blk (key : bytes) (n : Z) (drop_old : bool) :
  pool_inv p l → usable p b → bk p b = Some blk →
  wp (when drop_old
        (removed_hashes ← _remove_cached_block_hashes b;
         _emit_block_removed_events use_int removed_hashes))
    (λ _ p1, wp (_insert_block_hash key b (Some n)) (λ _ p', partially_cached p l b key n p') p1) p.
Proof.
  intros Hinv Hu Hblk. assert (is_blk b) as Hb by (destruct Hu as (i & -> & _); by exists i).
  assert (∀ p1, pool_inv p1 l → same_conf p p1 → same_rc p p1 →
    (∀ r, is_blk r → r ≠ b →
      hash_of p1 r = hash_of p r ∧ ntok_of p1 r = ntok_of p r ∧ extra_of p1 r = extra_of p r) →
    (hash_of p1 b = None ∨ ntok_of p1 b = ntok_of p b) →
    wp (_insert_block_hash key b (Some n)) (λ _ p', partially_cached p l b key n p') p1) as Hins.
  { intros p1 Hinv1 Hc1 Hrc1 Ho1 Hnt1.
    eapply wp_mono; [eapply insert_hash_spec; [done|by eapply usable_conf|done]|]. simpl.
    intros _ p2 (Hinv2 & _ & [[Ho ->]|[_ Hrg]]).
    { split_and!; try done. destruct Hnt1 as [Hno|]; [|by left]. exfalso.
      assert (is_Some (hash_of p1 b)) as [? ?]; [|congruence]. by eapply owns_hash. }
    split_and!; [done|etrans; [done|apply Hrg]|etrans; [done|apply Hrg]| | |].
    - eapply registered_owns; [exact Hinv1|done|done|]. by right.
    - destruct (rg_self _ _ _ _ _ Hrg) as [(_ & _ & E & _)|([? Hs] & _ & E & _)]; [by right|left].
      destruct Hnt1; congruence.
    - intros r Hr Hne. destruct (rg_other _ _ _ _ _ Hrg r) as (-> & -> & ->); [done..|].
      by apply Ho1. }
  apply wp_when; intros _; [|by apply Hins; [..|right]]. wp_steps.
  eapply wp_mono; [eapply remove_cached_spec; [done|by apply usable_in_pool]|]. simpl.
  intros hs p1 (_ & Hinv1 & Hfg & Hrc1 & _).
  eapply wp_mono; [apply emit_removed_spec|]. simpl. intros _ p2 ->.
  apply Hins; [by apply pool_inv_events|apply Hfg|done| |].
  2: { left. change (hash_of p1 b = None). by apply (fg_self _ _ _ Hfg); left. }
  intros r Hr Hne. apply (fg_other _ _ _ Hfg); [done|]. by intros ?%list_elem_of_singleton.
Qed.

Lemma cache_partial_block_spec p l request b (num_toks gid bsz : Z) :
  pool_inv p l → usable p b → partial_pre p request num_toks gid bsz →
  wp (cache_partial_block sha256 use_int request b num_toks gid bsz)
    (λ res p', ∃ key, res = Some key ∧ partial_key p request num_toks gid = inr key
      ∧ partially_cached p l b key num_toks p') p.
Proof.
  intros Hinv Hu [[Hhbs Hlt] Hdiv Hpart Hal Hhs Hgid].
  destruct (usable_ok _ _ _ Hinv b Hu) as (i & blk & Hbi & Hblk & Hok & Hnull & _).
  unfold cache_partial_block, _get_partial_block_hash. wp_steps. eapply wp_block; [done|].
  rewrite Hnull. wp_steps. apply wp_assert; [by apply Z.ltb_lt|]. wp_steps.
  apply wp_assert; [by apply Z.eqb_eq|]. wp_steps.
  apply wp_assert; [by apply negb_true_iff, Z.eqb_neq|]. wp_steps.
  apply wp_assert; [by apply Z.eqb_eq|]. wp_steps.
  apply wp_assert; [apply andb_true_iff; split; [apply Z.ltb_lt; lia|apply Z.leb_le; lia]|].
  set (n := num_toks / hash_block_size p) in *.
  destruct (lookup_lt_is_Some_2 (block_hashes request) (Z.to_nat (n - 1))) as [h Hh].
  { unfold zlen in *. lia. }
  eapply wp_lift_option; [by rewrite py_get_nonneg by lia|]. wp_steps.
  destruct (make_key_ok h gid Hgid) as [key Hkey]. eapply wp_lift_result; [done|]. wp_steps.
  assert (partial_key p request num_toks gid = inr key) as Hpk.
  { unfold partial_key. fold n. by rewrite Hh. }
  eapply wp_mono; [by eapply (partial_insert_spec p l b blk key)|]. simpl.
  intros _ p1 Hins. wp_steps. eapply wp_mono; [exact Hins|]. simpl.
  assert (n * hash_block_size p = num_toks) as ->.
  { unfold n. rewrite Z.mul_comm. symmetry. by apply Z_div_exact_full_2; [lia|]. }
  intros _ p2 Hpc. wp_steps.
  assert (hash_block_size p2 = hash_block_size p) as Hhb2 by apply Hpc.
  apply wp_when; intros _; [|wp_steps; by eauto].
  unfold _get_partial_block_parent_hash_and_start. wp_steps. rewrite Hhb2. fold n.
  assert (wp (if 1 <? n then Some <$> lift_option IndexError (py_get (block_hashes request) (n - 2))
              else mret None) (λ (_ : option bytes) p', p' = p2) p2) as Hpar.
  { destruct (Z.ltb_spec 1 n); [|by wp_steps]. wp_steps.
    destruct (lookup_lt_is_Some_2 (block_hashes request) (Z.to_nat (n - 2))) as [h' Hh'].
    { unfold zlen in *. lia. }
    eapply wp_lift_option; [by rewrite py_get_nonneg by lia|]. done. }
  eapply wp_mono; [exact Hpar|]. simpl. intros par ? ->. wp_steps. simpl.
  destruct (gen_keys_total sha256 request ((n - 1) * hash_block_size p) num_toks
    (if 0 <? (n - 1) * hash_block_size p then -1 else 0)) as (ek & j & E & _);
    [destruct (0 <? _); lia|].
  eapply wp_lift_result; [done|]. unfold add_event. wp_steps.
  exists key. split_and!; [done..|]. by apply partially_cached_events.
Qed.
End ops.

(** ** Construction *)

(** A pool nobody has used yet. *)
Definition fresh_pool (n : Z) (caching : bool) (hbs : Z) (ev : bool) (p : BlockPool) : Prop :=
  pool_inv p (Blk <$> seq 1 (Z.to_nat n - 1))
  ∧ num_gpu_blocks p = n ∧ enable_caching p = caching ∧ hash_block_size p = hbs
  ∧ enable_kv_cache_events p = ev ∧ kv_event_queue p = []
  ∧ ∀ r, rc p r = 0 ∧ hash_of p r = None ∧ extra_of p r = ∅.

Lemma init_meta n r b : init_store n !! r = Some b → meta b = (0, None, None, false).
Proof.
  destruct r as [| |i].
  - unfold init_store. rewrite lookup_insert_eq. by intros [= <-].
  - unfold init_store. rewrite lookup_insert_ne, lookup_insert_eq by done. by intros [= <-].
  - rewrite init_store_blk. case_decide; [|done]. by intros [= <-].
Qed.

Lemma BlockPool_init_spec n caching hbs ev :
  0 < n → ∃ p, BlockPool_init n caching hbs ev = inr p ∧ fresh_pool n caching hbs ev p.
Proof.
  intros Hn. unfold BlockPool_init, result_assert. rewrite (proj2 (Z.ltb_lt 0 n)) by done.
  destruct (Z.to_nat n) as [|m] eqn:Em; [lia|].
  pose proof (init_rep (S m)) as Hrep. pose proof (init_store_of (S m)) as Hst.
  simpl in Hrep. destruct (popleft_spec _ _ _ Hrep) as (r & q & Hpop & -> & Hq & Hm).
  simpl. rewrite Hpop. simpl. set (p0 := mkPool n caching hbs q ∅ ∅ (Blk 0) ev []).
  assert (store_of (S m) q) as Hst' by by eapply store_of_meta.
  assert (∀ r b, bk p0 r = Some b → meta b = (0, None, None, false)) as Hmeta.
  { intros r b Hb. pose proof (Hm r) as E. unfold bk in Hb. simpl in Hb. rewrite Hb in E.
    destruct (q_store (FreeKVCacheBlockQueue (S m)) !! r) as [b0|] eqn:Eb; [|done].
    simpl in E. injection E as E1 E2 E3 E4. apply init_meta in Eb. unfold meta in *. congruence. }
  assert (is_Some (bk p0 (Blk 0))) as Hb0.
  { apply Hst'. right. right. apply list_elem_of_fmap. exists 0%nat. split; [done|apply elem_of_seq; lia]. }
  destruct (wp_set_block (Blk 0) (with_null true) (λ _ p', p' = upd_block (Blk 0) (with_null true) p0)
    p0 Hb0 eq_refl) as (u & p' & Hset & ->).
  rewrite Hset. simpl. eexists. split; [done|].
  assert (∀ r b, bk (upd_block (Blk 0) (with_null true) p0) r = Some b →
    ref_cnt b = 0 ∧ _block_hash b = None ∧ _block_hash_num_tokens b = None
    ∧ is_null b = bool_decide (r = Blk 0)) as Hall.
  { intros r b Hb. rewrite bk_upd_block in Hb. case_decide as Hr.
    - subst r. destruct (bk p0 (Blk 0)) as [b0|] eqn:E; [|done]. simplify_eq/=.
      apply Hmeta in E. injection E as ? ? ? ?. by split_and!.
    - apply Hmeta in Hb. injection Hb as ? ? ? ?. split_and!; [done..|].
      rewrite bool_decide_eq_false_2; congruence. }
  assert (∀ r, rc (upd_block (Blk 0) (with_null true) p0) r = 0
    ∧ hash_of (upd_block (Blk 0) (with_null true) p0) r = None) as Hzero.
  { intros r. unfold rc, hash_of. destruct (bk _ r) as [b|] eqn:E; [|done].
    apply Hall in E as (? & ? & _). done. }
  split; [|split_and!; try done; intros r; by destruct (Hzero r)].
  rewrite Em. replace (S m - 1)%nat with m by lia. split; simpl; try done.
  - rewrite Em. by apply store_of_upd_block.
  - by apply rep_upd_block; [apply keeps_links_null|].
  - intros i b Hb. pose proof Hb as (Hrc & Hh & Hnt & Hnull)%Hall. split.
    + rewrite Hnull. apply bool_decide_ext. split; [by intros [= ->]|by intros ->].
    + intros _. split; [done|]. intros (j & [= <-] & Hj%elem_of_seq)%list_elem_of_fmap. lia.
    + intros Hi. rewrite Hrc. split; [done|]. split; [done|]. intros _. apply list_elem_of_fmap.
      exists i. split; [done|]. apply elem_of_seq.
      assert (is_Some (bk (upd_block (Blk 0) (with_null true) p0) (Blk i))) as Hs by by exists b.
      apply (store_of_upd_block (S m) (Blk 0) (with_null true) q Hst') in Hs
        as [?|[?|(j & [= <-] & Hj%elem_of_seq)%list_elem_of_fmap]]; [done..|lia].
    + rewrite Hh, Hnt. split; by intros [? ?].
  - intros k r. unfold cached_at, refs_at. simpl. rewrite lookup_empty. simpl.
    split; [by intros ?%elem_of_nil|]. intros [_ [Ho|Ho]].
    + destruct (Hzero r) as [_ E]. congruence.
    + unfold extra_of in Ho. simpl in Ho. rewrite lookup_empty in Ho. by apply elem_of_empty in Ho.
Qed.

(** ** The pool as a state machine *)

Section machine.
Context (sha256 : bytes → bytes) (use_int : bool).

(** The calls of the cache managers, each under the obligation of its caller. *)
Inductive pool_step : BlockPool → BlockPool → Prop :=
  | step_alloc p n res p' :
      0 ≤ n → get_new_blocks use_int n p = (inr res, p') → pool_step p p'
  | step_touch p bs p' :
      Forall (in_pool p) bs → touch bs p = (inr tt, p') → pool_step p p'
  | step_free p bs p' :
      held p bs → free_blocks bs p = (inr tt, p') → pool_step p p'
  | step_cache_full p request bs nc nf k gid mask p' :
      full_pre p request bs nc nf k gid mask →
      cache_full_blocks sha256 use_int request bs nc nf (k * hash_block_size p) gid mask p
        = (inr tt, p') → pool_step p p'
  | step_cache_partial p request b num_toks gid bsz res p' :
      usable p b → partial_pre p request num_toks gid bsz →
      cache_partial_block sha256 use_int request b num_toks gid bsz p = (inr res, p') →
      pool_step p p'
  | step_move p src dst p' :
      in_pool p src → usable p dst → src ≠ dst → hash_of p dst = None →
      move_block_hashes src dst p = (inr tt, p') → pool_step p p'
  | step_evict p ids p' :
      Forall (λ i, 0 ≤ i < num_gpu_blocks p) ids → evict_blocks use_int ids p = (inr tt, p') →
      pool_step p p'
  | step_reset p res p' : reset_prefix_cache p = (inr res, p') → pool_step p p'
  | step_take_events p res p' : take_events p = (inr res, p') → pool_step p p'.

Definition pool_reachable (p : BlockPool) : Prop :=
  ∃ n caching hbs ev p0, BlockPool_init n caching hbs ev = inr p0 ∧ rtc pool_step p0 p.

(** A specification applied to a run. *)
Lemma wp_run {St A} (m : M St A) Q s r s' : wp m Q s → m s = (inr r, s') → Q r s'.
Proof. intros (a & s'' & E & HQ) E'. rewrite E in E'. by simplify_eq. Qed.

Lemma pool_step_inv p p' : pool_step p p' → (∃ l, pool_inv p l) → ∃ l', pool_inv p' l'.
Proof.
  intros Hstep [l Hinv]. inversion Hstep as
    [? n res ? Hn E|? bs ? Hb E|? bs ? Hh E|? rq bs nc nf k gid mk ? Hpre E
    |? rq b nt gid bsz res ? Hu Hpre E|? src dst ? H1 H2 H3 H4 E|? ids ? Hi E|? res ? E|? res ? E];
    subst.
  - destruct (Z.le_gt_cases n (zlen l)) as [Hle|Hgt].
    + destruct (wp_run _ _ _ _ _ (get_new_blocks_spec use_int p l n Hinv (conj Hn Hle)) E)
        as (_ & ? & _). eauto.
    + rewrite get_new_blocks_error in E; [done|]. rewrite (inv_num_free _ _ _ Hinv). lia.
  - destruct (wp_run _ _ _ _ _ (touch_spec p l bs Hinv Hb) E) as (? & _). eauto.
  - destruct (wp_run _ _ _ _ _ (free_blocks_spec p l bs Hinv Hh) E) as (? & _). eauto.
  - destruct (wp_run _ _ _ _ _ (cache_full_blocks_spec sha256 use_int p l rq bs nc nf k gid mk
      Hinv Hpre) E) as (? & _). eauto.
  - destruct (wp_run _ _ _ _ _ (cache_partial_block_spec sha256 use_int p l rq b nt gid bsz
      Hinv Hu Hpre) E) as (key & _ & _ & ? & _). eauto.
  - destruct (wp_run _ _ _ _ _ (move_spec p l src dst Hinv H1 H2 H3 H4) E) as (? & _). eauto.
  - destruct (wp_run _ _ _ _ _ (evict_blocks_spec use_int p l ids Hinv Hi) E) as (? & _). eauto.
  - pose proof (reset_prefix_cache_spec p l Hinv) as H. case_decide.
    + destruct (wp_run _ _ _ _ _ H E) as (_ & ? & _). eauto.
    + destruct (wp_run _ _ _ _ _ H E) as (_ & ->). eauto.
  - assert (wp take_events (λ _ p', up_to_events p p') p) as H.
    { unfold take_events. wp_steps. case_match; wp_steps; [done|by eexists]. }
    exists l. eapply up_to_events_inv; [by eapply (wp_run _ _ _ _ _ H)|done].
Qed.

Lemma pool_reachable_inv p : pool_reachable p → ∃ l, pool_inv p l.
Proof.
  intros (n & caching & hbs & ev & p0 & E & Hrtc).
  assert (∃ l, pool_inv p0 l) as H0.
  { unfold BlockPool_init, result_assert in E. destruct (Z.ltb_spec 0 n) as [Hn|]; [|done].
    destruct (BlockPool_init_spec n caching hbs ev Hn) as (p1 & E1 & Hf & _).
    unfold BlockPool_init, result_assert in E1. rewrite (proj2 (Z.ltb_lt 0 n) Hn) in E1.
    rewrite E in E1. simplify_eq. eauto. }
  clear E. induction Hrtc as [|p1 p2 p3 Hs _ IH]; [done|]. apply IH. by eapply pool_step_inv.
Qed.
End machine.

(** The free list has every block but the null block exactly when no block is referenced. *)
Lemma all_free_iff p l :
  pool_inv p l → zlen l = num_gpu_blocks p - 1 ↔ ∀ r, usable p r → rc p r = 0.
Proof.
  intros Hinv. set (us := Blk <$> seq 1 (Z.to_nat (num_gpu_blocks p) - 1)).
  assert (∀ r, r ∈ us ↔ usable p r) as Hus.
  { intros r. unfold us, usable. rewrite list_elem_of_fmap. setoid_rewrite elem_of_seq.
    pose proof (inv_size _ _ _ Hinv).
    split; intros (i & -> & ?); exists i; split_and!; (done || lia). }
  assert (NoDup us) as Hnd by (apply NoDup_fmap_2; [intros ? ? [= ->]; done|apply NoDup_seq]).
  assert (zlen us = num_gpu_blocks p - 1) as Hlen.
  { unfold us, zlen. rewrite length_fmap, length_seq. pose proof (inv_size _ _ _ Hinv). lia. }
  assert (l ⊆+ us) as Hsub.
  { apply NoDup_submseteq; [by eapply inv_nodup|]. intros r Hr. apply Hus.
    by apply (free_iff p l r Hinv). }
  split.
  - intros Hl r Hr%Hus. apply (free_iff p l r Hinv).
    rewrite (submseteq_length_Permutation l us Hsub); [done|]. unfold zlen in *. lia.
  - intros Hall. rewrite <-Hlen. unfold zlen. f_equal. apply Permutation_length, NoDup_Permutation.
    + by eapply inv_nodup.
    + done.
    + intros r. rewrite Hus, (free_iff p l r Hinv). naive_solver.
Qed.

(** ** Properties *)

Section properties.
Context (sha256 : bytes → bytes) (use_int : bool).
Implicit Types (p : BlockPool) (l : list ref).

(** C29: safety of the pool in every reachable state.  The free list can be read back, has no
    duplicates and the recorded length; a block is in it exactly when it is not the null
    block and has no references; and the prefix-cache index maps a key to a block exactly
    when the block records that key, so lookups only ever return usable blocks. *)
Theorem pool_reachable_safe p :
  pool_reachable sha256 use_int p →
  ∃ l, wp get_all_free_blocks (λ res q, res = l ∧ q = free_block_queue p) (free_block_queue p)
    ∧ NoDup l ∧ get_num_free_blocks p = zlen l
    ∧ (∀ r, r ∈ l ↔ usable p r ∧ rc p r = 0)
    ∧ (∀ k r, r ∈ cached_at p k ↔ is_blk r ∧ owns p r k)
    ∧ (∀ k r, r ∈ cached_at p k → usable p r).
Proof.
  intros [l Hinv]%pool_reachable_inv. exists l. split_and!.
  - apply get_all_free_blocks_spec, Hinv.
  - by eapply inv_nodup.
  - by eapply inv_num_free.
  - intros r. by apply free_iff.
  - apply Hinv.
  - intros k r Hr. by eapply cached_usable.
Qed.

(** allocation.  When enough blocks are free, [get_new_blocks n] returns the first [n]
    blocks of the eviction order, removes them from the free list, gives each exactly one
    reference and leaves all other counts alone; with caching on, none of them is
    registered any more and every other registration is kept, while with caching off no
    registration changes.  Otherwise it raises [ValueError] and changes nothing. *)
Theorem get_new_blocks_correct p l n :
  pool_inv p l → 0 ≤ n →
  if decide (n ≤ zlen l)
  then wp (get_new_blocks use_int n)
    (λ res p', res = take (Z.to_nat n) l ∧ pool_inv p' (drop (Z.to_nat n) l)
      ∧ (∀ r, rc p' r = if decide (r ∈ res) then 1 else rc p r)
      ∧ (∀ k, cached_at p' k = if enable_caching p then filter (.∉ res) (cached_at p k)
                               else cached_at p k)) p
  else get_new_blocks use_int n p = (inl ValueError, p).
Proof.
  intros Hinv Hn. case_decide as Hle.
  - eapply wp_mono; [by apply get_new_blocks_spec|]. simpl.
    intros res p' (-> & Hinv' & _ & Hev & Hrc). split_and!; try done. intros k.
    unfold evicted in Hev. destruct (enable_caching p), Hev as [Hev _]; apply Hev.
  - apply get_new_blocks_error. rewrite (inv_num_free _ _ _ Hinv). lia.
Qed.

(** freeing.  For blocks that hold the references being dropped, [free_blocks] returns
    normally, lowers each count by the number of occurrences, keeps every registration, and
    queues the blocks that lost their last reference: unregistered ones (or all, with
    caching off) before the current free list, registered ones after it. *)
Theorem free_blocks_correct p l bs :
  pool_inv p l → held p bs →
  wp (free_blocks bs)
    (λ _ p', pool_inv p' (freed_first p bs ++ l ++ freed_last p bs)
      ∧ (∀ r, rc p' r = rc p r - occ r bs) ∧ same_hashes p p'
      ∧ (∀ r, r ∈ freed_first p bs ++ freed_last p bs
           ↔ r ∈ bs ∧ r ≠ null_block p ∧ rc p' r = 0)) p.
Proof.
  intros Hinv Hh. eapply wp_mono; [by apply free_blocks_spec|]. simpl.
  intros _ p' (? & ? & ? & _ & Hrc). split_and!; try done. intros r.
  rewrite elem_of_freed_parts, elem_of_freed, Hrc.
  split; intros (? & ? & ?); split_and!; (done || lia).
Qed.

(** Touching blocks and freeing them again restores every reference count and every
    registration, and frees exactly the blocks that were free before. *)
Theorem touch_free_roundtrip p l bs :
  pool_inv p l → Forall (in_pool p) bs →
  wp (touch bs;; free_blocks bs)
    (λ _ p', ∃ l', pool_inv p' l' ∧ l' ≡ₚ l ∧ same_rc p p' ∧ same_hashes p p') p.
Proof.
  intros Hinv Hall. apply wp_bind. eapply wp_mono; [by apply touch_spec|]. simpl.
  intros _ p1 (Hinv1 & Hc1 & Hh1 & _ & Hrc1).
  assert (held p1 bs) as Hheld.
  { split; [eapply Forall_impl; [done|]; intros r Hr; by eapply in_pool_conf|].
    intros r Hr. rewrite Hrc1. assert (usable p r) as Hu.
    { destruct Hc1 as (E & _). destruct Hr as (i & ? & ? & ?). exists i. by rewrite <-E. }
    destruct (usable_ok _ _ _ Hinv r Hu) as (i & b & _ & Hb & _ & _ & ? & _).
    unfold rc. rewrite Hb. simpl. lia. }
  eapply wp_mono; [by apply free_blocks_spec|]. simpl.
  intros _ p2 (Hinv2 & Hc2 & Hh2 & _ & Hrc2).
  assert (same_rc p p2) as Hrc by (intros r; rewrite Hrc2, Hrc1; lia).
  eexists. split_and!; [done| |done|by etrans].
  apply NoDup_Permutation; [by eapply inv_nodup|by eapply inv_nodup|]. intros r.
  rewrite (free_iff _ _ r Hinv2), (free_iff _ _ r Hinv), Hrc.
  assert (usable p2 r ↔ usable p r) as ->; [|done].
  assert (same_conf p p2) as Hc by (by etrans). split; intros Hr.
  - eapply usable_conf; [symmetry|]; done.
  - by eapply usable_conf.
Qed.

(** lookup.  [get_cached_block] never raises for valid group ids and changes nothing.
    A result contains, for every group, a usable block registered under the packed key of
    the hash and that group; no result means that some group has no such block. *)
Theorem get_cached_block_correct p l h gs :
  pool_inv p l → Forall (λ g, 0 ≤ g < 2 ^ 32) gs →
  wp (get_cached_block h gs) (λ res p', p' = p
    ∧ match res with Some bs => hit p h gs bs | None => miss p h gs end) p.
Proof. apply get_cached_block_spec. Qed.

(** what is cached can be found.  After [cache_full_blocks], looking up the hash of any
    full block it registered hits in that group, with a block registered under that key. *)
Theorem cache_full_blocks_hit p l request bs nc nf k gid mask i b :
  pool_inv p l → full_pre p request bs nc nf k gid mask →
  (i, b) ∈ targets p mask (imap pair (py_slice bs nc nf)) →
  wp (cache_full_blocks sha256 use_int request bs nc nf (k * hash_block_size p) gid mask;;
      get_cached_block
        (default [] (block_hashes request !! Z.to_nat ((nc + Z.of_nat i + 1) * k - 1))) [gid])
    (λ res p', ∃ c key, res = Some [c] ∧ prefix_key request k gid (nc + Z.of_nat i) = inr key
       ∧ owns p' b key ∧ owns p' c key ∧ same_rc p p') p.
Proof.
  intros Hinv Hpre Hib. apply wp_bind. eapply wp_mono; [by eapply cache_full_blocks_spec|]. simpl.
  intros _ p1 (Hinv1 & Hc1 & Hrc1 & Hdone & _).
  destruct (Hdone i b Hib) as (key & Hkey & Hb & Hh & _).
  eapply wp_mono; [eapply get_cached_block_spec; [done|]|].
  { apply Forall_singleton, (fp_gid _ _ _ _ _ _ _ _ Hpre). }
  simpl. intros res ? (-> & Hres). assert (owns p1 b key) as Ho by by left.
  destruct res as [cs|].
  - apply Forall2_cons_inv_l in Hres as (c & cs' & (key' & Hkey' & _ & Hoc & _) & Hcs & ->).
    apply Forall2_nil_inv_l in Hcs as ->. exists c, key. unfold prefix_key in *.
    rewrite Hkey in Hkey'. simplify_eq. done.
  - destruct Hres as (g & key' & ->%list_elem_of_singleton & Hkey' & Hno).
    unfold prefix_key in Hkey. rewrite Hkey in Hkey'. simplify_eq. by destruct (Hno b Hb).
Qed.

(** [reset_prefix_cache] succeeds exactly when every block but the null block is free,
    and then no block is registered under any key, with counts and free list unchanged;
    otherwise it returns [False] and changes nothing. *)
Theorem reset_prefix_cache_correct p l :
  pool_inv p l →
  wp reset_prefix_cache (λ res p', pool_inv p' l ∧ same_rc p p'
    ∧ (res = true ↔ ∀ r, usable p r → rc p r = 0)
    ∧ (res = true → (∀ k, cached_at p' k = []) ∧ ∀ r, is_blk r → hash_of p' r = None)
    ∧ (res = false → p' = p)) p.
Proof.
  intros Hinv. pose proof (reset_prefix_cache_spec p l Hinv) as H.
  assert (zlen l = num_gpu_blocks p - 1 ↔ ∀ r, usable p r → rc p r = 0) as Hall.
  { apply all_free_iff, Hinv. }
  case_decide as Hl; (eapply wp_mono; [exact H|]); simpl.
  - intros res p' (-> & Hinv' & _ & Hrc & Hno & Hca). split_and!; try done.
    + tauto.
    + intros _. split; [done|]. intros r Hr. by apply Hno.
  - intros res p' (-> & ->). split_and!; try done. split; [done|tauto].
Qed.

(** Moving a block's entries to a private copy keeps every lookup alive: each key of
    the source block is now registered on the destination and not on the source, all other
    registrations, the counts, the free list and the event log are unchanged. *)
Theorem move_block_hashes_correct p l src dst :
  pool_inv p l → in_pool p src → usable p dst → src ≠ dst → hash_of p dst = None →
  wp (move_block_hashes src dst) (λ _ p', moved p l src dst p') p.
Proof. apply move_spec. Qed.
End properties.

(** ** Concrete pools *)

(** A pool of four blocks, caching and events on, hashes every two tokens. *)
Definition demo_pool : BlockPool :=
  match BlockPool_init 4 true 2 true with
  | inr p => p
  | inl _ => mkPool 0 false 0 (FreeKVCacheBlockQueue 0) ∅ ∅ Head false []
  end.

Lemma demo_pool_init : BlockPool_init 4 true 2 true = inr demo_pool.
Proof. vm_compute. reflexivity. Qed.

Lemma demo_pool_fresh : fresh_pool 4 true 2 true demo_pool.
Proof.
  destruct (BlockPool_init_spec 4 true 2 true) as (p & E & H); [done|].
  rewrite demo_pool_init in E. by simplify_eq.
Qed.

Lemma demo_pool_inv : pool_inv demo_pool [Blk 1; Blk 2; Blk 3].
Proof. apply demo_pool_fresh. Qed.

(** The same pool after two blocks were allocated. *)
Definition demo_used : BlockPool := (get_new_blocks false 2 demo_pool).2.

Lemma demo_used_run : get_new_blocks false 2 demo_pool = (inr [Blk 1; Blk 2], demo_used).
Proof. vm_compute. reflexivity. Qed.

Lemma demo_used_inv : pool_inv demo_used [Blk 3] ∧ same_conf demo_pool demo_used
  ∧ (∀ r, hash_of demo_used r = None) ∧ ∀ r, rc demo_used r = if decide (r ∈ [Blk 1; Blk 2]) then 1 else 0.
Proof.
  destruct (wp_run _ _ _ _ _ (get_new_blocks_spec false demo_pool _ 2 demo_pool_inv ltac:(done))
    demo_used_run) as (_ & Hinv & Hc & Hev & Hrc).
  destruct demo_pool_fresh as (_ & _ & Hca & _ & _ & _ & Hz). split_and!; [done|done| |].
  - intros r. unfold evicted in Hev. rewrite Hca in Hev. destruct Hev as [Hfg _].
    destruct r as [| |i]; [vm_compute; reflexivity..|].
    destruct (decide (Blk i ∈ [Blk 1; Blk 2])).
    + by apply (fg_self _ _ _ Hfg).
    + destruct (fg_other _ _ _ Hfg (Blk i)) as (-> & _); [by exists i|done|]. apply Hz.
  - intros r. rewrite Hrc. change (take _ _) with [Blk 1; Blk 2]. case_decide; [done|]. apply Hz.
Qed.

Lemma demo_used_pool i : (i < 4)%nat → in_pool demo_used (Blk i).
Proof. intros Hi. exists i. split; [done|]. change (num_gpu_blocks demo_used) with 4. lia. Qed.
Lemma demo_used_usable i : (0 < i < 4)%nat → usable demo_used (Blk i).
Proof. intros Hi. exists i. change (num_gpu_blocks demo_used) with 4. split_and!; [done|lia..]. Qed.

Lemma pool_reachable_safe_witness :
  ∃ l, NoDup l ∧ get_num_free_blocks demo_pool = zlen l
    ∧ (∀ r, r ∈ l ↔ usable demo_pool r ∧ rc demo_pool r = 0).
Proof.
  destruct (pool_reachable_safe no_digest false demo_pool) as (l & _ & Hnd & Hlen & Hl & _).
  { exists 4, true, 2, true, demo_pool. split; [apply demo_pool_init|done]. }
  exists l. auto.
Defined.

Lemma get_new_blocks_correct_witness :
  wp (get_new_blocks false 2) (λ res p', res = [Blk 1; Blk 2] ∧ pool_inv p' [Blk 3]) demo_pool
  ∧ get_new_blocks false 4 demo_pool = (inl ValueError, demo_pool).
Proof.
  split.
  - pose proof (get_new_blocks_correct false demo_pool [Blk 1; Blk 2; Blk 3] 2 demo_pool_inv
      ltac:(done)) as H. rewrite decide_True in H by done.
    eapply wp_mono; [exact H|]. intros res p' (-> & Hinv & _). split; [done|exact Hinv].
  - pose proof (get_new_blocks_correct false demo_pool [Blk 1; Blk 2; Blk 3] 4 demo_pool_inv
      ltac:(done)) as H. by rewrite decide_False in H by (unfold zlen; simpl; lia).
Defined.

Lemma free_blocks_correct_witness :
  wp (free_blocks [Blk 2; Blk 1]) (λ _ p', pool_inv p' [Blk 2; Blk 1; Blk 3]) demo_used.
Proof.
  eapply wp_mono; [apply (free_blocks_correct demo_used [Blk 3] [Blk 2; Blk 1])|].
  - apply demo_used_inv.
  - split; [repeat constructor; apply demo_used_pool; lia|]. intros r _.
    destruct demo_used_inv as (_ & _ & _ & ->). rewrite occ_nodup by (repeat constructor; set_solver).
    repeat case_decide; set_solver.
  - intros _ p' (Hinv & _). exact Hinv.
Defined.

Lemma touch_free_roundtrip_witness :
  wp (touch [Blk 1; Blk 3; Blk 3];; free_blocks [Blk 1; Blk 3; Blk 3])
    (λ _ p', same_rc demo_used p') demo_used.
Proof.
  eapply wp_mono; [apply (touch_free_roundtrip demo_used [Blk 3] [Blk 1; Blk 3; Blk 3])|].
  - apply demo_used_inv.
  - repeat constructor; apply demo_used_pool; lia.
  - intros _ p' (l' & _ & _ & H & _). exact H.
Defined.

Lemma get_cached_block_correct_witness :
  wp (get_cached_block [] [0]) (λ res p', p' = demo_pool ∧ res = None) demo_pool.
Proof.
  eapply wp_mono; [apply (get_cached_block_correct demo_pool _ [] [0] demo_pool_inv)|].
  - apply Forall_singleton. done.
  - intros [bs|] p' [-> H]; [|done]. exfalso.
    apply Forall2_cons_inv_l in H as (c & cs' & (key' & _ & _ & Ho & _) & _ & _).
    destruct demo_pool_fresh as (_ & _ & _ & _ & _ & _ & Hz). destruct (Hz c) as (_ & E1 & E2).
    destruct Ho as [Ho|Ho]; [congruence|]. rewrite E2 in Ho. by apply elem_of_empty in Ho.
Defined.

Lemma demo_full_pre :
  full_pre demo_used (demo_request [1; 2; 3; 4; 5]) [Blk 1; Blk 2] 0 2 1 0 None.
Proof.
  destruct demo_used_inv as (_ & _ & Hh & _). split; try done.
  - repeat constructor; apply demo_used_pool; lia.
  - vm_compute. repeat constructor; set_solver.
  - intros i b n Hib. assert (b = Blk 1 ∨ b = Blk 2) as [-> | ->].
    { apply list_elem_of_filter in Hib as [_ Hib]. vm_compute in Hib. set_solver. }
    all: vm_compute; discriminate.
Qed.

Lemma cache_full_blocks_hit_witness :
  wp (cache_full_blocks no_digest false (demo_request [1; 2; 3; 4; 5]) [Blk 1; Blk 2] 0 2
        (1 * hash_block_size demo_used) 0 None;;
      get_cached_block (default [] (block_hashes (demo_request [1; 2; 3; 4; 5]) !! 1%nat)) [0])
    (λ res _, ∃ c, res = Some [c]) demo_used.
Proof.
  eapply wp_mono; [apply (cache_full_blocks_hit no_digest false demo_used [Blk 3]
    (demo_request [1; 2; 3; 4; 5]) [Blk 1; Blk 2] 0 2 1 0 None 1 (Blk 2))|].
  - apply demo_used_inv.
  - apply demo_full_pre.
  - apply list_elem_of_filter. vm_compute. split; [split; [discriminate|done]|set_solver].
  - intros res p' (c & key & -> & _). by exists c.
Defined.

Lemma reset_prefix_cache_correct_witness :
  wp reset_prefix_cache (λ res p', res = true ∧ ∀ k, cached_at p' k = []) demo_pool.
Proof.
  eapply wp_mono; [apply (reset_prefix_cache_correct demo_pool _ demo_pool_inv)|].
  intros res p' (_ & _ & Hres & Hca & _). destruct demo_pool_fresh as (_ & _ & _ & _ & _ & _ & Hz).
  assert (res = true) as ->.
  { apply Hres. intros r _. apply Hz. }
  split; [done|]. by apply Hca.
Defined.

Lemma move_block_hashes_correct_witness :
  wp (move_block_hashes (Blk 1) (Blk 2)) (λ _ p', moved demo_used [Blk 3] (Blk 1) (Blk 2) p') demo_used.
Proof.
  destruct demo_used_inv as (Hinv & _ & Hh & _).
  apply (move_block_hashes_correct demo_used [Blk 3] (Blk 1) (Blk 2));
    [done|apply demo_used_pool; lia|apply demo_used_usable; lia|done|apply Hh].
Defined.
