(* ===== verification/Managers.v ===== *)
(** The per-attention-type cache managers ([vllm/v1/core/single_type_kv_cache_manager.py]):
    block tables of the running requests of one KV-cache group, allocation, prefix-cache
    hits, registration of full blocks, and release of blocks outside the attention window.

    A manager shares the block pool with the other groups: an operation is a computation on
    the pair of the pool and the manager's own state.  The subclasses of the source are the
    constructors of [SpecKind]; an overridden method is a match on it.  [req_to_blocks] is a
    [defaultdict(list)]: reading a missing key with [d[k]] inserts the empty list. *)

From S2P Require Import Prelude MathUtils Request BlockHash FreeQueue BlockPool.

(** ** Specs *)

(** The KV-cache specs a manager class is registered for, with the attributes the managers
    read.  MLA and hidden-state specs use the full-attention manager. *)
Inductive SpecKind :=
  | FullAttentionSpec
  | RSWASpec (rswa_window : Z)
  | SinkFullAttentionSpec (sink_len : Z)
  | SlidingWindowSpec (sliding_window extra_retained_tokens : Z)
  | ChunkedLocalAttentionSpec (attention_chunk_size : Z)
  | MambaSpec (align : bool) (num_speculative_blocks num_prefill_checkpoint_blocks : Z)
  | CrossAttentionSpec.

Record KVCacheSpec := { spec_block_size : Z; spec_kind : SpecKind }.

(** [max_admission_blocks_per_request] of the specs that recycle blocks
    ([get_manager_for_kv_cache_spec]). *)
Definition max_admission_blocks_per_request (spec : KVCacheSpec)
    (max_in_flight_tokens max_model_len : Z) : option Z :=
  match spec_kind spec with
  | SlidingWindowSpec w extra =>
      Some (cdiv (Z.min (w - 1 + extra + max_in_flight_tokens) max_model_len)
              (spec_block_size spec) + 1)
  | ChunkedLocalAttentionSpec c =>
      Some (cdiv (Z.min (c + max_in_flight_tokens) max_model_len) (spec_block_size spec))
  | _ => None
  end.

(** ** State *)

Record Manager := mkManager {
  kv_cache_spec : KVCacheSpec;
  scheduler_block_size : Z;
  block_size : Z;
  mgr_enable_caching : bool;
  _max_admission_blocks_per_request : option Z;
  _record_new_block_ids : bool;
  new_block_ids : list Z;
  req_to_blocks : gmap string (list ref);
  num_cached_block : gmap string Z;
  kv_cache_group_id : Z;
  use_eagle : bool;
  _partial_hit_reqs : gmap string (Z * ref);
  _pending_cow_copies : list (ref * ref);
  _pending_partial_tail_offloads : list (string * Z * ref * Z);
  (* mamba "align" *)
  cached_blocks_this_step : gset bytes;
  last_state_block_idx : gmap string Z;
  _allocated_block_reqs : gset string;
  _num_checkpoint_blocks : gmap string Z;
  _producer_partial_tail_reqs : gmap string Z;
}.

(** The mutable attributes, one setter each. *)
Definition set_new_block_ids x (s : Manager) : Manager :=
  mkManager (kv_cache_spec s) (scheduler_block_size s) (block_size s) (mgr_enable_caching s)
    (_max_admission_blocks_per_request s) (_record_new_block_ids s) x (req_to_blocks s)
    (num_cached_block s) (kv_cache_group_id s) (use_eagle s) (_partial_hit_reqs s)
    (_pending_cow_copies s) (_pending_partial_tail_offloads s) (cached_blocks_this_step s)
    (last_state_block_idx s) (_allocated_block_reqs s) (_num_checkpoint_blocks s)
    (_producer_partial_tail_reqs s).
Definition set_req_to_blocks x (s : Manager) : Manager :=
  mkManager (kv_cache_spec s) (scheduler_block_size s) (block_size s) (mgr_enable_caching s)
    (_max_admission_blocks_per_request s) (_record_new_block_ids s) (new_block_ids s) x
    (num_cached_block s) (kv_cache_group_id s) (use_eagle s) (_partial_hit_reqs s)
    (_pending_cow_copies s) (_pending_partial_tail_offloads s) (cached_blocks_this_step s)
    (last_state_block_idx s) (_allocated_block_reqs s) (_num_checkpoint_blocks s)
    (_producer_partial_tail_reqs s).
Definition set_num_cached_block x (s : Manager) : Manager :=
  mkManager (kv_cache_spec s) (scheduler_block_size s) (block_size s) (mgr_enable_caching s)
    (_max_admission_blocks_per_request s) (_record_new_block_ids s) (new_block_ids s)
    (req_to_blocks s) x (kv_cache_group_id s) (use_eagle s) (_partial_hit_reqs s)
    (_pending_cow_copies s) (_pending_partial_tail_offloads s) (cached_blocks_this_step s)
    (last_state_block_idx s) (_allocated_block_reqs s) (_num_checkpoint_blocks s)
    (_producer_partial_tail_reqs s).
Definition set_use_eagle x (s : Manager) : Manager :=
  mkManager (kv_cache_spec s) (scheduler_block_size s) (block_size s) (mgr_enable_caching s)
    (_max_admission_blocks_per_request s) (_record_new_block_ids s) (new_block_ids s)
    (req_to_blocks s) (num_cached_block s) (kv_cache_group_id s) x (_partial_hit_reqs s)
    (_pending_cow_copies s) (_pending_partial_tail_offloads s) (cached_blocks_this_step s)
    (last_state_block_idx s) (_allocated_block_reqs s) (_num_checkpoint_blocks s)
    (_producer_partial_tail_reqs s).
Definition set_partial_hit_reqs x (s : Manager) : Manager :=
  mkManager (kv_cache_spec s) (scheduler_block_size s) (block_size s) (mgr_enable_caching s)
    (_max_admission_blocks_per_request s) (_record_new_block_ids s) (new_block_ids s)
    (req_to_blocks s) (num_cached_block s) (kv_cache_group_id s) (use_eagle s) x
    (_pending_cow_copies s) (_pending_partial_tail_offloads s) (cached_blocks_this_step s)
    (last_state_block_idx s) (_allocated_block_reqs s) (_num_checkpoint_blocks s)
    (_producer_partial_tail_reqs s).
Definition set_pending_cow_copies x (s : Manager) : Manager :=
  mkManager (kv_cache_spec s) (scheduler_block_size s) (block_size s) (mgr_enable_caching s)
    (_max_admission_blocks_per_request s) (_record_new_block_ids s) (new_block_ids s)
    (req_to_blocks s) (num_cached_block s) (kv_cache_group_id s) (use_eagle s)
    (_partial_hit_reqs s) x (_pending_partial_tail_offloads s) (cached_blocks_this_step s)
    (last_state_block_idx s) (_allocated_block_reqs s) (_num_checkpoint_blocks s)
    (_producer_partial_tail_reqs s).
Definition set_pending_partial_tail_offloads x (s : Manager) : Manager :=
  mkManager (kv_cache_spec s) (scheduler_block_size s) (block_size s) (mgr_enable_caching s)
    (_max_admission_blocks_per_request s) (_record_new_block_ids s) (new_block_ids s)
    (req_to_blocks s) (num_cached_block s) (kv_cache_group_id s) (use_eagle s)
    (_partial_hit_reqs s) (_pending_cow_copies s) x (cached_blocks_this_step s)
    (last_state_block_idx s) (_allocated_block_reqs s) (_num_checkpoint_blocks s)
    (_producer_partial_tail_reqs s).
Definition set_cached_blocks_this_step x (s : Manager) : Manager :=
  mkManager (kv_cache_spec s) (scheduler_block_size s) (block_size s) (mgr_enable_caching s)
    (_max_admission_blocks_per_request s) (_record_new_block_ids s) (new_block_ids s)
    (req_to_blocks s) (num_cached_block s) (kv_cache_group_id s) (use_eagle s)
    (_partial_hit_reqs s) (_pending_cow_copies s) (_pending_partial_tail_offloads s) x
    (last_state_block_idx s) (_allocated_block_reqs s) (_num_checkpoint_blocks s)
    (_producer_partial_tail_reqs s).
Definition set_last_state_block_idx x (s : Manager) : Manager :=
  mkManager (kv_cache_spec s) (scheduler_block_size s) (block_size s) (mgr_enable_caching s)
    (_max_admission_blocks_per_request s) (_record_new_block_ids s) (new_block_ids s)
    (req_to_blocks s) (num_cached_block s) (kv_cache_group_id s) (use_eagle s)
    (_partial_hit_reqs s) (_pending_cow_copies s) (_pending_partial_tail_offloads s)
    (cached_blocks_this_step s) x (_allocated_block_reqs s) (_num_checkpoint_blocks s)
    (_producer_partial_tail_reqs s).
Definition set_allocated_block_reqs x (s : Manager) : Manager :=
  mkManager (kv_cache_spec s) (scheduler_block_size s) (block_size s) (mgr_enable_caching s)
    (_max_admission_blocks_per_request s) (_record_new_block_ids s) (new_block_ids s)
    (req_to_blocks s) (num_cached_block s) (kv_cache_group_id s) (use_eagle s)
    (_partial_hit_reqs s) (_pending_cow_copies s) (_pending_partial_tail_offloads s)
    (cached_blocks_this_step s) (last_state_block_idx s) x (_num_checkpoint_blocks s)
    (_producer_partial_tail_reqs s).
Definition set_num_checkpoint_blocks x (s : Manager) : Manager :=
  mkManager (kv_cache_spec s) (scheduler_block_size s) (block_size s) (mgr_enable_caching s)
    (_max_admission_blocks_per_request s) (_record_new_block_ids s) (new_block_ids s)
    (req_to_blocks s) (num_cached_block s) (kv_cache_group_id s) (use_eagle s)
    (_partial_hit_reqs s) (_pending_cow_copies s) (_pending_partial_tail_offloads s)
    (cached_blocks_this_step s) (last_state_block_idx s) (_allocated_block_reqs s) x
    (_producer_partial_tail_reqs s).
Definition set_producer_partial_tail_reqs x (s : Manager) : Manager :=
  mkManager (kv_cache_spec s) (scheduler_block_size s) (block_size s) (mgr_enable_caching s)
    (_max_admission_blocks_per_request s) (_record_new_block_ids s) (new_block_ids s)
    (req_to_blocks s) (num_cached_block s) (kv_cache_group_id s) (use_eagle s)
    (_partial_hit_reqs s) (_pending_cow_copies s) (_pending_partial_tail_offloads s)
    (cached_blocks_this_step s) (last_state_block_idx s) (_allocated_block_reqs s)
    (_num_checkpoint_blocks s) x.

(** A manager next to the pool it shares. *)
Record GroupState := mkGroup { g_pool : BlockPool; g_mgr : Manager }.

Definition on_pool {A} (op : M BlockPool A) : M GroupState A :=
  zoom g_pool (λ p s, mkGroup p (g_mgr s)) op.
Definition self {A} (f : Manager → A) : M GroupState A := gets (f ∘ g_mgr).
Definition update_self (f : Manager → Manager) : M GroupState unit :=
  modify (λ s, mkGroup (g_pool s) (f (g_mgr s))).

(** [self.req_to_blocks[request_id]], which inserts a missing key, and an assignment to the
    list it returns. *)
Definition req_blocks (request_id : string) : M GroupState (list ref) :=
  t ← self req_to_blocks;
  match t !! request_id with
  | Some bs => mret bs
  | None => update_self (set_req_to_blocks (<[request_id := []]> t));; mret []
  end.
Definition set_req_blocks (request_id : string) (bs : list ref) : M GroupState unit :=
  t ← self req_to_blocks; update_self (set_req_to_blocks (<[request_id := bs]> t)).

(** [get_manager_for_kv_cache_spec]: the constructors of the manager classes.  DCP scales the
    block size of every group but mamba's. *)
Definition new_manager (spec : KVCacheSpec) (max_in_flight_tokens max_model_len : Z)
    (caching : bool) (group_id sched_block_size dcp_world_size : Z)
    (needs_kv_cache_zeroing : bool) : Manager :=
  let is_mamba := match spec_kind spec with MambaSpec _ _ _ => true | _ => false end in
  mkManager spec sched_block_size
    (if (1 <? dcp_world_size) && negb is_mamba then spec_block_size spec * dcp_world_size
     else spec_block_size spec)
    caching
    (max_admission_blocks_per_request spec max_in_flight_tokens max_model_len)
    (needs_kv_cache_zeroing && negb is_mamba)
    [] ∅ ∅ group_id false ∅ [] [] ∅ ∅ ∅ ∅ ∅.

(** [SinkFullAttentionManager.__init__] additionally takes the sink blocks out of the free
    list for good. *)
Definition take_sink_blocks (spec : KVCacheSpec) (bsz : Z) : M BlockPool (list ref) :=
  match spec_kind spec with
  | SinkFullAttentionSpec sink_len =>
      assert ((0 <? sink_len) && (sink_len mod bsz =? 0));;
      on_queue (popleft_n (sink_len / bsz))
  | _ => mret []
  end.

(** ** The attention window *)

(** [get_num_skipped_tokens] and its overrides. *)
Definition get_num_skipped_tokens (kind : SpecKind) (num_computed_tokens : Z) : Z :=
  match kind with
  | SlidingWindowSpec w extra => Z.max 0 (num_computed_tokens - w + 1 - extra)
  | ChunkedLocalAttentionSpec c => num_computed_tokens / c * c
  | MambaSpec _ _ _ => num_computed_tokens - 1
  | _ => 0
  end.

Definition mgr_kind (s : Manager) : SpecKind := spec_kind (kv_cache_spec s).
Definition is_align (s : Manager) : bool :=
  match mgr_kind s with MambaSpec align _ _ => align | _ => false end.
Definition num_speculative_blocks (s : Manager) : Z :=
  match mgr_kind s with MambaSpec _ n _ => n | _ => 0 end.

(** ** Allocation *)

Fixpoint _get_num_evictable_blocks (bs : list ref) : M BlockPool Z :=
  match bs with
  | [] => mret 0
  | b :: bs' =>
      blk ← block b;
      n ← _get_num_evictable_blocks bs';
      mret (Z.b2z ((ref_cnt blk =? 0) && negb (is_null blk)) + n)
  end.

Definition _has_partial_local_hit (s : Manager) (new_computed_blocks : list ref)
    (num_local_computed_tokens : Z) : bool :=
  (0 <? zlen new_computed_blocks) && negb (num_local_computed_tokens mod block_size s =? 0).

(** [SingleTypeKVCacheManager.get_num_blocks_to_allocate]. *)
Definition base_get_num_blocks_to_allocate (request_id : string) (num_tokens : Z)
    (new_computed_blocks : list ref)
    (total_computed_tokens num_local_computed_tokens num_tokens_main_model : Z)
    (apply_admission_cap : bool) : M GroupState Z :=
  s ← self id;
  let num_required_blocks0 := cdiv num_tokens (block_size s) in
  let num_required_blocks :=
    match _max_admission_blocks_per_request s with
    | Some cap => if apply_admission_cap then Z.min num_required_blocks0 cap
                  else num_required_blocks0
    | None => num_required_blocks0
    end in
  let num_req_blocks := zlen (default [] (req_to_blocks s !! request_id)) in
  match num_cached_block s !! request_id with
  | Some _ =>
      assert (zlen new_computed_blocks =? 0);;
      mret (Z.max (num_required_blocks - num_req_blocks) 0)
  | None =>
      let num_skipped_tokens := get_num_skipped_tokens (mgr_kind s) total_computed_tokens in
      let num_local_computed_blocks := zlen new_computed_blocks + num_req_blocks in
      let num_skipped_blocks := num_skipped_tokens / block_size s in
      let num_new_blocks :=
        Z.max (num_required_blocks - Z.max num_skipped_blocks num_local_computed_blocks) 0 in
      let num_skipped_new_computed_blocks := Z.max 0 (num_skipped_blocks - num_req_blocks) in
      num_evictable_blocks ← on_pool (_get_num_evictable_blocks
        (drop (Z.to_nat num_skipped_new_computed_blocks) new_computed_blocks));
      mret ((if _has_partial_local_hit s new_computed_blocks num_local_computed_tokens
             then num_new_blocks + 1 else num_new_blocks) + num_evictable_blocks)
  end.

Definition _needs_internal_checkpoint (request_id : string) (num_tokens num_computed_tokens : Z)
    : M GroupState bool :=
  s ← self id;
  let checkpoint_idx := cdiv num_tokens (block_size s) - 2 in
  bs ← req_blocks request_id;
  let num_prefill_checkpoint_blocks :=
    match mgr_kind s with MambaSpec _ _ n => n | _ => 0 end in
  if (0 <? num_prefill_checkpoint_blocks) && negb (num_tokens mod block_size s =? 0)
     && (num_computed_tokens mod block_size s =? 0) && (0 <=? checkpoint_idx)
  then
    if zlen bs <=? checkpoint_idx then mret true
    else b ← lift_option IndexError (py_get bs checkpoint_idx);
         blk ← on_pool (block b); mret (is_null blk)
  else mret false.

(** [MambaManager.get_num_blocks_to_allocate]. *)
Definition mamba_get_num_blocks_to_allocate (request_id : string) (num_tokens : Z)
    (new_computed_blocks : list ref)
    (total_computed_tokens num_local_computed_tokens num_tokens_main_model : Z)
    (apply_admission_cap : bool) : M GroupState Z :=
  s ← self id;
  same_step ← match last new_computed_blocks with
              | None => mret false
              | Some b =>
                  blk ← on_pool (block b);
                  mret (match _block_hash blk with
                        | Some h => bool_decide (h ∈ cached_blocks_this_step s)
                        | None => false end)
              end;
  if (same_step : bool) then n ← gets (num_gpu_blocks ∘ g_pool); mret (n + 1)
  else if negb (is_align s) then
    let num_tokens' :=
      if 0 <? num_speculative_blocks s
      then num_tokens + spec_block_size (kv_cache_spec s) * num_speculative_blocks s
      else num_tokens in
    base_get_num_blocks_to_allocate request_id num_tokens' new_computed_blocks
      total_computed_tokens num_local_computed_tokens num_tokens_main_model apply_admission_cap
  else
    let num_tokens' := num_tokens_main_model in
    let num_required_blocks := cdiv num_tokens' (block_size s) + num_speculative_blocks s in
    bs ← req_blocks request_id;
    let num_new_blocks0 := num_required_blocks - zlen new_computed_blocks - zlen bs in
    let has_partial_hit :=
      _has_partial_local_hit s new_computed_blocks num_local_computed_tokens
      || bool_decide (is_Some (_partial_hit_reqs s !! request_id)) in
    let num_new_blocks1 :=
      if has_partial_hit then Z.max num_new_blocks0 0 + 1 else num_new_blocks0 in
    chk ← _needs_internal_checkpoint request_id num_tokens' total_computed_tokens;
    let checkpoint_block := Z.b2z chk in
    when (negb apply_admission_cap)
      (update_self (λ s, set_num_checkpoint_blocks
         (<[request_id := checkpoint_block]> (_num_checkpoint_blocks s)) s));;
    let num_new_blocks :=
      if 0 <? num_new_blocks1
      then 1 + Z.b2z has_partial_hit + checkpoint_block
           + (if bool_decide (request_id ∈ _allocated_block_reqs s)
              then 0 else num_speculative_blocks s)
      else num_new_blocks1 in
    num_evictable ← on_pool (_get_num_evictable_blocks new_computed_blocks);
    mret (num_new_blocks + num_evictable).

Definition get_num_blocks_to_allocate (request_id : string) (num_tokens : Z)
    (new_computed_blocks : list ref)
    (total_computed_tokens num_local_computed_tokens num_tokens_main_model : Z)
    (apply_admission_cap : bool) : M GroupState Z :=
  k ← self mgr_kind;
  match k with
  | MambaSpec _ _ _ => mamba_get_num_blocks_to_allocate request_id num_tokens new_computed_blocks
      total_computed_tokens num_local_computed_tokens num_tokens_main_model apply_admission_cap
  | _ => base_get_num_blocks_to_allocate request_id num_tokens new_computed_blocks
      total_computed_tokens num_local_computed_tokens num_tokens_main_model apply_admission_cap
  end.

(** [SingleTypeKVCacheManager.add_local_computed_blocks]. *)
Definition base_add_local_computed_blocks (request_id : string) (new_computed_blocks : list ref)
    (num_local_computed_tokens num_external_computed_tokens : Z) : M GroupState unit :=
  bs ← req_blocks request_id;
  assert (zlen bs =? 0);;
  s ← self id;
  let num_total_computed_tokens := num_local_computed_tokens + num_external_computed_tokens in
  let num_skipped_tokens := get_num_skipped_tokens (mgr_kind s) num_total_computed_tokens in
  let num_skipped_blocks := num_skipped_tokens / block_size s in
  let ncb := if 0 <? num_skipped_blocks
             then drop (Z.to_nat num_skipped_blocks) new_computed_blocks
             else new_computed_blocks in
  (if mgr_enable_caching s then on_pool (touch ncb) else assert (bool_decide (ncb = [])));;
  null ← gets (null_block ∘ g_pool);
  let bs' := bs ++ replicate (Z.to_nat num_skipped_blocks) null ++ ncb in
  set_req_blocks request_id bs';;
  update_self (λ s, set_num_cached_block (<[request_id := zlen bs']> (num_cached_block s)) s);;
  match last ncb with
  | Some tail =>
      when (_has_partial_local_hit s ncb num_local_computed_tokens)
        (let block_idx := num_local_computed_tokens / block_size s in
         update_self (λ s, set_partial_hit_reqs
           (<[request_id := (block_idx, tail)]> (_partial_hit_reqs s)) s);;
         update_self (λ s, set_num_cached_block
           (<[request_id := block_idx]> (num_cached_block s)) s))
  | None => mret tt
  end.

(** The cross-attention override only checks that there is nothing to add. *)
Definition add_local_computed_blocks (request_id : string) (new_computed_blocks : list ref)
    (num_local_computed_tokens num_external_computed_tokens : Z) : M GroupState unit :=
  k ← self mgr_kind;
  match k with
  | CrossAttentionSpec => assert (zlen new_computed_blocks =? 0)
  | _ => base_add_local_computed_blocks request_id new_computed_blocks
           num_local_computed_tokens num_external_computed_tokens
  end.

Section effects.
Context (sha256 : bytes → bytes) (use_int : bool).

(** [SingleTypeKVCacheManager.allocate_external_computed_blocks]. *)
Definition base_allocate_external_computed_blocks (request_id : string)
    (num_local_computed_tokens num_external_computed_tokens : Z) : M GroupState unit :=
  s ← self id;
  let num_total_computed_tokens := num_local_computed_tokens + num_external_computed_tokens in
  let num_skipped_tokens := get_num_skipped_tokens (mgr_kind s) num_total_computed_tokens in
  let ext := if 0 <? num_skipped_tokens
             then Z.min (num_total_computed_tokens - num_skipped_tokens)
                    num_external_computed_tokens
             else num_external_computed_tokens in
  if ext <=? 0 then mret tt
  else
    bs ← req_blocks request_id;
    allocated_blocks ← on_pool (get_new_blocks use_int
      (cdiv num_total_computed_tokens (block_size s) - zlen bs));
    set_req_blocks request_id (bs ++ allocated_blocks);;
    when (_record_new_block_ids s)
      (update_self (λ s, set_new_block_ids
         (new_block_ids s ++ (block_id <$> allocated_blocks)) s)).

(** Cross attention has no external computed tokens. *)
Definition allocate_external_computed_blocks (request_id : string)
    (num_local_computed_tokens num_external_computed_tokens : Z) : M GroupState unit :=
  k ← self mgr_kind;
  match k with
  | CrossAttentionSpec => mret tt
  | _ => base_allocate_external_computed_blocks request_id
           num_local_computed_tokens num_external_computed_tokens
  end.

(** Redirect a partial prefix-cache hit to a private copy. *)
Definition _apply_cow (request_id : string) (block_idx : Z) (source_block cow_block : ref)
    : M GroupState unit :=
  bs ← req_blocks request_id;
  assert (block_idx <? zlen bs);;
  b ← lift_option IndexError (py_get bs block_idx);
  assert (bool_decide (b = source_block));;
  src ← on_pool (block source_block);
  assert (negb (is_null src) && (0 <? ref_cnt src));;
  i ← lift_option IndexError (py_index (zlen bs) block_idx);
  set_req_blocks request_id (<[i := cow_block]> bs);;
  update_self (λ s, set_pending_cow_copies
    (_pending_cow_copies s ++ [(source_block, cow_block)]) s);;
  on_pool (set_block cow_block (λ blk, with_ref_cnt (ref_cnt blk + 1) blk)).

(** [SingleTypeKVCacheManager.allocate_new_blocks]. *)
Definition base_allocate_new_blocks (request_id : string) (num_tokens num_tokens_main_model : Z)
    : M GroupState (list ref) :=
  ph ← self (λ s, _partial_hit_reqs s !! request_id);
  cow_blocks ← match ph with
    | Some (block_idx, source_block) =>
        update_self (λ s, set_partial_hit_reqs (delete request_id (_partial_hit_reqs s)) s);;
        cow ← on_pool (get_new_blocks use_int 1);
        cow_block ← lift_option IndexError (head cow);
        _apply_cow request_id block_idx source_block cow_block;;
        update_self (λ s, set_new_block_ids (new_block_ids s ++ [block_id cow_block]) s);;
        mret [cow_block]
    | None => mret []
    end;
  bs ← req_blocks request_id;
  s ← self id;
  let num_required_blocks := cdiv num_tokens (block_size s) in
  let num_new_blocks := num_required_blocks - zlen bs in
  if num_new_blocks <=? 0 then mret cow_blocks
  else
    new_blocks ← on_pool (get_new_blocks use_int num_new_blocks);
    set_req_blocks request_id (bs ++ new_blocks);;
    when (_record_new_block_ids s)
      (update_self (λ s, set_new_block_ids (new_block_ids s ++ (block_id <$> new_blocks)) s));;
    mret (cow_blocks ++ new_blocks).

(** The loop that reuses the speculative blocks of the previous step: positions below
    [num_skipped_blocks] move to the end of the table and leave a null block. *)
Fixpoint reuse_speculative (null : ref) (num_skipped_blocks : Z) (idxs : list Z)
    (bs : list ref) : exn + list ref :=
  match idxs with
  | [] => mret bs
  | i :: idxs' =>
      if i <? num_skipped_blocks then
        j ← result_of_option IndexError (py_index (zlen bs) i);
        b ← result_of_option IndexError (bs !! j);
        reuse_speculative null num_skipped_blocks idxs' (<[j := null]> bs ++ [b])
      else mret bs
  end.

(** The copy-on-write step of the "align" mode: a running request stays on the source block
    and the cache entries move to the copy; a new request is redirected to the copy. *)
Definition mamba_cow (request_id : string) (blocks_allocated : bool) (block_idx : Z)
    (source_block cow_block : ref) : M GroupState unit :=
  if blocks_allocated then
    bs ← req_blocks request_id;
    b ← lift_option IndexError (py_get bs block_idx);
    assert (bool_decide (b = source_block));;
    on_pool (move_block_hashes source_block cow_block);;
    update_self (λ s, set_pending_cow_copies
      (_pending_cow_copies s ++ [(source_block, cow_block)]) s);;
    on_pool (set_block source_block (λ blk, with_ref_cnt (ref_cnt blk + 1) blk));;
    s ← self id;
    match _producer_partial_tail_reqs s !! request_id with
    | Some boundary_tokens =>
        update_self (set_producer_partial_tail_reqs
          (delete request_id (_producer_partial_tail_reqs s)));;
        update_self (λ s, set_pending_partial_tail_offloads
          (_pending_partial_tail_offloads s
           ++ [(request_id, kv_cache_group_id s, cow_block, boundary_tokens)]) s)
    | None => mret tt
    end;;
    cow ← on_pool (block cow_block);
    match _block_hash cow with
    | Some h => update_self (λ s, set_cached_blocks_this_step
                  ({[h]} ∪ cached_blocks_this_step s) s)
    | None => mret tt
    end
  else _apply_cow request_id block_idx source_block cow_block.

(** [MambaManager.allocate_new_blocks]. *)
Definition mamba_allocate_new_blocks (request_id : string)
    (num_tokens num_tokens_main_model : Z) : M GroupState (list ref) :=
  s ← self id;
  if negb (is_align s) then
    base_allocate_new_blocks request_id
      (if 0 <? num_speculative_blocks s
       then num_tokens + block_size s * num_speculative_blocks s else num_tokens)
      num_tokens_main_model
  else
    bs ← req_blocks request_id;
    null ← gets (null_block ∘ g_pool);
    let spec := num_speculative_blocks s in
    let num_required_blocks := cdiv num_tokens_main_model (block_size s) + spec in
    let checkpoint_block := default 0 (_num_checkpoint_blocks s !! request_id) in
    let partial_hit := _partial_hit_reqs s !! request_id in
    let has_partial_hit := bool_decide (is_Some partial_hit) in
    let mark_allocated :=
      update_self (λ s, set_allocated_block_reqs
        ({[request_id]} ∪ _allocated_block_reqs s) s) in
    if (num_required_blocks <=? zlen bs) && negb has_partial_hit
    then mark_allocated;; mret []
    else
      let prev_block_len := zlen bs in
      let blocks_allocated := bool_decide (request_id ∈ _allocated_block_reqs s) in
      (if blocks_allocated
       then update_self (λ s, set_last_state_block_idx
              (<[request_id := prev_block_len - 1 - spec]> (last_state_block_idx s)) s)
       else when (0 <? prev_block_len) (update_self (λ s, set_last_state_block_idx
              (<[request_id := prev_block_len - 1]> (last_state_block_idx s)) s)));;
      let num_skipped_blocks := num_required_blocks - spec - 1 in
      let bs1 :=
        if prev_block_len <? num_skipped_blocks
        then bs ++ replicate (Z.to_nat (num_skipped_blocks - checkpoint_block - prev_block_len)) null
        else bs in
      set_req_blocks request_id bs1;;
      bs2 ← (if blocks_allocated
             then lift_result (reuse_speculative null num_skipped_blocks
                    (py_range (prev_block_len - spec) prev_block_len) bs1)
             else mret bs1);
      set_req_blocks request_id bs2;;
      let num_new_blocks0 := num_required_blocks - zlen bs2 in
      let num_new_blocks :=
        if has_partial_hit then Z.max num_new_blocks0 0 + 1 else num_new_blocks0 in
      let max_new_blocks := 1 + Z.b2z has_partial_hit + checkpoint_block
                            + (if blocks_allocated then 0 else spec) in
      assert (num_new_blocks <=? max_new_blocks);;
      new_blocks ← on_pool (get_new_blocks use_int num_new_blocks);
      let returned_blocks := drop (Z.to_nat prev_block_len) bs2 in
      rn ← match partial_hit with
           | Some (block_idx, source_block) =>
               cow_block ← lift_option IndexError (head new_blocks);
               mamba_cow request_id blocks_allocated block_idx source_block cow_block;;
               mret (if blocks_allocated then returned_blocks else cow_block :: returned_blocks,
                     tail new_blocks)
           | None => mret (returned_blocks, new_blocks)
           end;
      bs3 ← req_blocks request_id;
      set_req_blocks request_id (bs3 ++ rn.2);;
      mark_allocated;;
      update_self (λ s, set_partial_hit_reqs (delete request_id (_partial_hit_reqs s)) s);;
      mret (rn.1 ++ rn.2).

Definition allocate_new_blocks (request_id : string) (num_tokens num_tokens_main_model : Z)
    : M GroupState (list ref) :=
  k ← self mgr_kind;
  match k with
  | MambaSpec _ _ _ => mamba_allocate_new_blocks request_id num_tokens num_tokens_main_model
  | _ => base_allocate_new_blocks request_id num_tokens num_tokens_main_model
  end.

Definition take_new_block_ids : M GroupState (list Z) :=
  ids ← self new_block_ids; update_self (set_new_block_ids []);; mret ids.
Definition take_pending_cow_copies : M GroupState (list (ref * ref)) :=
  cs ← self _pending_cow_copies; update_self (set_pending_cow_copies []);; mret cs.
Definition take_pending_partial_tail_offloads : M GroupState (list (string * Z * ref * Z)) :=
  os ← self _pending_partial_tail_offloads;
  update_self (set_pending_partial_tail_offloads []);; mret os.
End effects.

(** ** Which full blocks to register *)

Definition _contiguous_blocks_for_hit (window_size bsz : Z) (eagle : bool) : Z :=
  let blocks := cdiv (window_size - 1) bsz in
  if eagle then blocks + 1 else blocks.

(** [mask[j] = True]. *)
Definition mask_set (mask : list bool) (j : Z) : list bool := <[Z.to_nat j := true]> mask.

(** [SlidingWindowManager.reachable_block_mask]. *)
Definition swa_reachable_block_mask (start_block end_block : Z) (alignment_tokens : option Z)
    (sliding_window bsz : Z) (eagle : bool) (retention_interval : option Z)
    (reachable_boundaries : list Z) : exn + option (list bool) :=
  match alignment_tokens with
  | None => mret None
  | Some al =>
      result_assert (al mod bsz =? 0) ≫= λ _,
      let need := _contiguous_blocks_for_hit sliding_window bsz eagle in
      let shift := if eagle then 1 else 0 in
      let mask0 := replicate (Z.to_nat (end_block - start_block)) false in
      let segment_tokens := match retention_interval with
                            | None => Some al
                            | Some r => if r =? 0 then None else Some r
                            end in
      let all_reachable := match segment_tokens with
                           | Some st => st / bsz <=? need | None => false end in
      if all_reachable then mret None
      else
        let mask1 := match segment_tokens with
          | Some st =>
              let per_segment := st / bsz in
              foldl (λ m i, if (shift <=? i) && (per_segment - need <=? (i - shift) mod per_segment)
                            then mask_set m (i - start_block) else m)
                mask0 (py_range start_block end_block)
          | None => mask0
          end in
        let mask2 := match retention_interval with
          | None => mask1
          | Some _ =>
              foldl (λ m boundary_tokens,
                let aligned := boundary_tokens / al * al in
                let end_ := aligned / bsz + shift in
                foldl (λ m j, mask_set m (j - start_block)) m
                  (py_range (Z.max start_block (end_ - need)) (Z.min end_block end_)))
                mask1 reachable_boundaries
          end in
        mret (Some mask2)
  end.

(** [MambaManager.reachable_block_mask]. *)
Definition mamba_reachable_block_mask (start_block end_block : Z) (alignment_tokens : option Z)
    (bsz : Z) (retention_interval : option Z) (reachable_boundaries : list Z)
    : option (list bool) :=
  match retention_interval, alignment_tokens with
  | Some r, Some al =>
      let mask0 := replicate (Z.to_nat (end_block - start_block)) false in
      let per_segment := r / bsz in
      if negb (r =? 0) && (per_segment <=? 1) then None
      else
        let mask1 :=
          if r =? 0 then mask0
          else
            let first_boundary := (start_block + per_segment) / per_segment * per_segment - 1 in
            foldl mask_set mask0
              (py_range_step (first_boundary - start_block) (zlen mask0) per_segment) in
        Some (foldl (λ m boundary_tokens,
                let aligned := boundary_tokens / al * al in
                let boundary_block := aligned / bsz - 1 in
                if (start_block <=? boundary_block) && (boundary_block <? end_block)
                then mask_set m (boundary_block - start_block) else m)
                mask1 reachable_boundaries)
  | _, _ => None
  end.

Definition reachable_block_mask (spec : KVCacheSpec) (start_block end_block : Z)
    (alignment_tokens : option Z) (eagle : bool) (retention_interval : option Z)
    (reachable_boundaries : list Z) : exn + option (list bool) :=
  match spec_kind spec with
  | SlidingWindowSpec w _ =>
      swa_reachable_block_mask start_block end_block alignment_tokens w (spec_block_size spec)
        eagle retention_interval reachable_boundaries
  | MambaSpec _ _ _ =>
      mret (mamba_reachable_block_mask start_block end_block alignment_tokens
              (spec_block_size spec) retention_interval reachable_boundaries)
  | _ => mret None
  end.

(** ** Registration, release *)

Section registration.
Context (sha256 : bytes → bytes) (use_int : bool).

(** [SingleTypeKVCacheManager.cache_blocks]. *)
Definition base_cache_blocks (request : Request) (num_toks : Z)
    (retention_interval : option Z) : M GroupState unit :=
  s ← self id;
  let rid := request_id request in
  let num_cached_blocks := default 0 (num_cached_block s !! rid) in
  let num_full_blocks := num_toks / block_size s in
  if num_full_blocks <=? num_cached_blocks then mret tt
  else
    let reachable_boundaries :=
      (num_prompt_tokens request - 1)
      :: (if shared_prefix_boundary request =? 0 then [] else [shared_prefix_boundary request]) in
    block_mask ← lift_result (reachable_block_mask (kv_cache_spec s) num_cached_blocks
      num_full_blocks (Some (scheduler_block_size s)) (use_eagle s) retention_interval
      reachable_boundaries);
    bs ← req_blocks rid;
    on_pool (cache_full_blocks sha256 use_int request bs num_cached_blocks num_full_blocks
      (block_size s) (kv_cache_group_id s) block_mask);;
    update_self (λ s, set_num_cached_block (<[rid := num_full_blocks]> (num_cached_block s)) s).

(** [FullAttentionManager._cache_partial_tail_block]. *)
Definition full_cache_partial_tail_block (request : Request) (num_toks : Z)
    : M GroupState unit :=
  hbs ← gets (hash_block_size ∘ g_pool);
  s ← self id;
  let boundary_tokens := num_prompt_tokens request / hbs * hbs in
  if (boundary_tokens =? 0) || (num_toks <? boundary_tokens) then mret tt
  else if boundary_tokens mod block_size s =? 0 then mret tt
  else
    bs ← req_blocks (request_id request);
    let block_idx := boundary_tokens / block_size s in
    if zlen bs <=? block_idx then mret tt
    else
      b ← lift_option IndexError (py_get bs block_idx);
      on_pool (cache_partial_block sha256 use_int request b boundary_tokens
        (kv_cache_group_id s) (block_size s));;
      mret tt.

(** [FullAttentionManager.cache_blocks]. *)
Definition full_cache_blocks (request : Request) (num_toks : Z)
    (retention_interval : option Z) : M GroupState unit :=
  base_cache_blocks request num_toks retention_interval;;
  hbs ← gets (hash_block_size ∘ g_pool);
  s ← self id;
  if block_size s =? hbs then mret tt
  else full_cache_partial_tail_block request num_toks.

(** [MambaManager._cache_partial_tail_block]. *)
Definition mamba_cache_partial_tail_block (request : Request) (num_toks : Z)
    : M GroupState (option bytes) :=
  hbs ← gets (hash_block_size ∘ g_pool);
  s ← self id;
  if block_size s =? hbs then mret None
  else if num_toks mod block_size s =? 0 then mret None
  else if negb (num_toks mod hbs =? 0) then mret None
  else if negb (num_toks =? num_prompt_tokens request / hbs * hbs) then mret None
  else
    let rid := request_id request in
    let block_idx := num_toks / block_size s in
    bs ← req_blocks rid;
    if zlen bs <=? block_idx then mret None
    else
      source_block ← lift_option IndexError (py_get bs block_idx);
      src ← on_pool (block source_block);
      if is_null src then mret None
      else
        partial_hash ← on_pool (cache_partial_block sha256 use_int request source_block num_toks
          (kv_cache_group_id s) (block_size s));
        match partial_hash with
        | Some h =>
            update_self (λ s, set_partial_hit_reqs
              (<[rid := (block_idx, source_block)]> (_partial_hit_reqs s)) s);;
            update_self (λ s, set_num_cached_block
              (<[rid := block_idx]> (num_cached_block s)) s);;
            update_self (λ s, set_producer_partial_tail_reqs
              (<[rid := num_toks]> (_producer_partial_tail_reqs s)) s);;
            mret (Some h)
        | None => mret None
        end.

Definition note_cached_this_step (h : bytes) : M GroupState unit :=
  update_self (λ s, set_cached_blocks_this_step ({[h]} ∪ cached_blocks_this_step s) s).

(** [MambaManager.cache_blocks]. *)
Definition mamba_cache_blocks (request : Request) (num_toks : Z)
    (retention_interval : option Z) : M GroupState unit :=
  let rid := request_id request in
  before ← self (λ s, default 0 (num_cached_block s !! rid));
  base_cache_blocks request num_toks retention_interval;;
  after ← self (λ s, default 0 (num_cached_block s !! rid));
  s ← self id;
  when (is_align s) (
    partial_hash ← mamba_cache_partial_tail_block request num_toks;
    match partial_hash with Some h => note_cached_this_step h | None => mret tt end);;
  if before <? after then
    bs ← req_blocks rid;
    for_each (py_slice bs before after) (λ b,
      blk ← on_pool (block b);
      match _block_hash blk with
      | Some h => when (negb (is_null blk)) (note_cached_this_step h)
      | None => mret tt
      end)
  else mret tt.

Definition cache_blocks (request : Request) (num_toks : Z) (retention_interval : option Z)
    : M GroupState unit :=
  k ← self mgr_kind;
  match k with
  | FullAttentionSpec | RSWASpec _ | SinkFullAttentionSpec _ =>
      full_cache_blocks request num_toks retention_interval
  | MambaSpec _ _ _ => mamba_cache_blocks request num_toks retention_interval
  | CrossAttentionSpec => raise ValueError
  | _ => base_cache_blocks request num_toks retention_interval
  end.

(** [pop_blocks_for_free] with the mamba override. *)
Definition pop_blocks_for_free (rid : string) : M GroupState (list ref) :=
  s ← self id;
  when (is_align s) (update_self (λ s,
    set_allocated_block_reqs (_allocated_block_reqs s ∖ {[rid]})
   (set_last_state_block_idx (delete rid (last_state_block_idx s))
   (set_num_checkpoint_blocks (delete rid (_num_checkpoint_blocks s))
   (set_producer_partial_tail_reqs (delete rid (_producer_partial_tail_reqs s))
   (set_pending_partial_tail_offloads
      (filter (λ e, e.1.1.1 ≠ rid) (_pending_partial_tail_offloads s)) s))))));;
  bs ← self (λ s, default [] (req_to_blocks s !! rid));
  update_self (λ s, set_req_to_blocks (delete rid (req_to_blocks s)) s);;
  update_self (λ s, set_num_cached_block (delete rid (num_cached_block s)) s);;
  update_self (λ s, set_partial_hit_reqs (delete rid (_partial_hit_reqs s)) s);;
  mret bs.

Definition free (rid : string) : M GroupState unit :=
  bs ← pop_blocks_for_free rid; on_pool (free_blocks (rev bs)).

(** The backward loop of [_remove_blocks_in_range]: stops at the first null block; returns
    the freed blocks and the table. *)
Fixpoint remove_loop (null : ref) (idxs : list Z) (bs : list ref) : exn + (list ref * list ref) :=
  match idxs with
  | [] => mret ([], bs)
  | i :: idxs' =>
      j ← result_of_option IndexError (py_index (zlen bs) i);
      b ← result_of_option IndexError (bs !! j);
      if decide (b = null) then mret ([], bs)
      else r ← remove_loop null idxs' (<[j := null]> bs); mret (b :: r.1, r.2)
  end.

Definition _remove_blocks_in_range (rid : string) (first_block last_block : Z)
    : M GroupState unit :=
  t ← self req_to_blocks;
  match t !! rid with
  | None => mret tt
  | Some bs =>
      if last_block <=? first_block then mret tt
      else
        null ← gets (null_block ∘ g_pool);
        let last := Z.min last_block (zlen bs) in
        r ← lift_result (remove_loop null (py_range_down first_block last) bs);
        set_req_blocks rid r.2;;
        if decide (r.1 = []) then mret tt else on_pool (free_blocks r.1)
  end.

(** [SingleTypeKVCacheManager.remove_skipped_blocks]. *)
Definition base_remove_skipped_blocks (rid : string) (processed_computed_tokens : Z)
    : M GroupState unit :=
  s ← self id;
  let num_skipped_tokens := get_num_skipped_tokens (mgr_kind s) processed_computed_tokens in
  if num_skipped_tokens <=? 0 then mret tt
  else
    bs ← req_blocks rid;
    let num_skipped_blocks := Z.min (num_skipped_tokens / block_size s) (zlen bs) in
    _remove_blocks_in_range rid 0 num_skipped_blocks.

(** The override of the "align" mode: the state block of two steps ago is not needed any
    more. *)
Definition mamba_drop_last_state (rid : string) (processed_computed_tokens : Z)
    : M GroupState unit :=
  s ← self id;
  match last_state_block_idx s !! rid with
  | Some idx =>
      if idx <? cdiv processed_computed_tokens (block_size s) - 1 then
        bs ← req_blocks rid;
        b ← lift_option IndexError (py_get bs idx);
        null ← gets (null_block ∘ g_pool);
        if decide (b = null) then mret tt
        else
          on_pool (free_blocks [b]);;
          j ← lift_option IndexError (py_index (zlen bs) idx);
          set_req_blocks rid (<[j := null]> bs)
      else mret tt
  | None => mret tt
  end.

Definition remove_skipped_blocks (rid : string) (processed_computed_tokens : Z)
    (num_prompt : option Z) : M GroupState unit :=
  s ← self id;
  match mgr_kind s, num_prompt with
  | RSWASpec rswa_window, Some np =>
      let first_gap_block := cdiv np (block_size s) in
      let window_start := Z.max np (processed_computed_tokens - rswa_window) in
      _remove_blocks_in_range rid first_gap_block (window_start / block_size s)
  | MambaSpec align _ _, _ =>
      base_remove_skipped_blocks rid processed_computed_tokens;;
      when align (mamba_drop_last_state rid processed_computed_tokens)
  | _, _ => base_remove_skipped_blocks rid processed_computed_tokens
  end.

(** The counting loop of [FullAttentionManager.get_num_common_prefix_blocks]. *)
Fixpoint common_prefix_loop (num_reqs : Z) (bs : list ref) : M GroupState Z :=
  match bs with
  | [] => mret 0
  | b :: bs' =>
      blk ← on_pool (block b);
      if ref_cnt blk =? num_reqs then n ← common_prefix_loop num_reqs bs'; mret (1 + n)
      else mret 0
  end.

Definition get_num_common_prefix_blocks (running_request_id : string) : M GroupState Z :=
  k ← self mgr_kind;
  match k with
  | FullAttentionSpec | RSWASpec _ | SinkFullAttentionSpec _ =>
      bs ← req_blocks running_request_id;
      num_reqs ← self (λ s, Z.of_nat (size (req_to_blocks s)));
      common_prefix_loop num_reqs bs
  | _ => mret 0
  end.

Definition new_step_starts : M GroupState unit :=
  k ← self mgr_kind;
  match k with
  | MambaSpec _ _ _ => update_self (set_cached_blocks_this_step ∅)
  | _ => mret tt
  end.
End registration.

(** ** Prefix-cache hits *)

(** A result of [find_longest_cache_hit]: the blocks per group and the hit length. *)
Abbreviation Hit := (list (list ref) * Z)%type.

(** [if cached_block := block_pool.get_cached_block(...)]: [None] and the empty list are
    falsy. *)
Definition lookup_hit (h : bytes) (gids : list Z) : M BlockPool (option (list ref)) :=
  r ← get_cached_block h gids;
  mret (match r with Some [] => None | _ => r end).

(** [for computed, cached in zip(computed_blocks, bs): computed.append(cached)]. *)
Definition append_each (computed : list (list ref)) (bs : list ref) : list (list ref) :=
  zip_with (λ c b, c ++ [b]) computed bs ++ drop (length bs) computed.

(** [for computed, cached in zip(computed_blocks, bs): computed[i] = cached]. *)
Definition set_each (i : Z) (computed : list (list ref)) (bs : list ref) : list (list ref) :=
  zip_with (λ c b, <[Z.to_nat i := b]> c) computed bs ++ drop (length bs) computed.

(** Phase 1 of the full-attention search: the longest run of cached full blocks. *)
Fixpoint full_run (hs : list bytes) (gids : list Z) (computed : list (list ref))
    : M BlockPool (list (list ref)) :=
  match hs with
  | [] => mret computed
  | h :: hs' =>
      r ← lookup_hit h gids;
      match r with
      | None => mret computed
      | Some bs => full_run hs' gids (append_each computed bs)
      end
  end.

(** Phase 2: probe the boundaries [idxs] in order and take the first hit. *)
Fixpoint probe (hs : list bytes) (gids : list Z) (idxs : list Z)
    : M BlockPool (option (Z * list ref)) :=
  match idxs with
  | [] => mret None
  | i :: idxs' =>
      h ← lift_option IndexError (py_get hs i);
      r ← lookup_hit h gids;
      match r with
      | Some bs => mret (Some (i, bs))
      | None => probe hs gids idxs'
      end
  end.

(** The hashes an iteration over a hash list yields. *)
Definition bhl_iter (b : BlockHashList) : option (list bytes) := bhl_from b 0.

(** [FullAttentionManager.find_longest_cache_hit]. *)
Definition full_find_longest_cache_hit (bhs : BlockHashList) (max_length : Z) (gids : list Z)
    (spec_bsz : Z) (drop_eagle_block : bool) (alignment_tokens dcp_world_size : Z)
    : M BlockPool Hit :=
  let bsz := if 1 <? dcp_world_size then spec_bsz * dcp_world_size else spec_bsz in
  hbs ← gets hash_block_size;
  bhs' ← lift_result (resolve_block_hashes bhs hbs bsz true (Some alignment_tokens));
  let fine_grained := (alignment_tokens <? bsz) && (bsz mod alignment_tokens =? 0) in
  full_hashes ← (if fine_grained
    then match bhs' with
         | RawHashes hs => lift_result (BlockHashListWithBlockSize hs alignment_tokens bsz)
         | ScaledHashes _ _ => raise AssertionError
         end
    else mret bhs');
  iter ← lift_option IndexError (bhl_iter full_hashes);
  if max_length / bsz <? 0 then raise ValueError
  else
    computed ← full_run (take (Z.to_nat (max_length / bsz)) iter) gids (replicate (length gids) []);
    first ← lift_option IndexError (head computed);
    ch ← (if fine_grained
      then match bhs' with
           | RawHashes hs =>
               let scale_factor := bsz / alignment_tokens in
               let first_partial_idx := zlen first * scale_factor in
               let max_partial_idx :=
                 Z.min (Z.min (first_partial_idx + scale_factor - 1) (max_length / alignment_tokens))
                   (zlen hs) in
               r ← probe hs gids (py_range_down first_partial_idx max_partial_idx);
               match r with
               | Some (i, bs) => mret (append_each computed bs, (i + 1) * alignment_tokens)
               | None => mret (computed, zlen first * bsz)
               end
           | ScaledHashes _ _ => raise AssertionError
           end
      else mret (computed, zlen first * bsz));
    let hit0 := if drop_eagle_block && (0 <? ch.2)
                then ch.2 - Z.min alignment_tokens bsz else ch.2 in
    let hit_length := hit0 - hit0 mod alignment_tokens in
    let num_blocks := cdiv hit_length bsz in
    mret (take (Z.to_nat num_blocks) <$> ch.1, hit_length).

(** The right-to-left loop of the sliding-window search.  [computed] starts as null blocks;
    returns the tables, the contiguous count and whether a match was found. *)
Fixpoint swa_loop (bhs : BlockHashList) (gids : list Z) (bsz al need : Z) (eagle : bool)
    (idxs : list Z) (computed : list (list ref)) (contiguous : Z)
    : M BlockPool (list (list ref) * Z * bool) :=
  match idxs with
  | [] => mret (computed, contiguous, false)
  | i :: idxs' =>
      h ← lift_option IndexError (bhl_get bhs i);
      r ← lookup_hit h gids;
      match r with
      | None => swa_loop bhs gids bsz al need eagle idxs' computed 0
      | Some bs =>
          if (contiguous =? 0) && negb (bsz =? al)
             && negb (((if eagle then i else i + 1) * bsz) mod al =? 0)
          then swa_loop bhs gids bsz al need eagle idxs' computed contiguous
          else
            let computed' := set_each i computed bs in
            let contiguous' := contiguous + 1 in
            if need <=? contiguous'
            then mret (take (Z.to_nat (i + contiguous')) <$> computed', contiguous', true)
            else swa_loop bhs gids bsz al need eagle idxs' computed' contiguous'
      end
  end.

(** [while block_size != alignment_tokens and len(computed_blocks[0]) * block_size %
    alignment_tokens != 0: pop]: the length to cut to, at most [n] pops from length [n]. *)
Fixpoint align_len (n : nat) (bsz al : Z) : nat :=
  match n with
  | O => O
  | S n' => if negb (bsz =? al) && negb ((Z.of_nat n * bsz) mod al =? 0)
            then align_len n' bsz al else n
  end.

(** [SlidingWindowManager.find_longest_cache_hit]. *)
Definition swa_find_longest_cache_hit (bhs : BlockHashList) (max_length : Z) (gids : list Z)
    (bsz sliding_window : Z) (drop_eagle_block : bool)
    (al dcp_world_size pcp_world_size : Z) : M BlockPool Hit :=
  assert (dcp_world_size =? 1);;
  assert (pcp_world_size =? 1);;
  assert (al mod bsz =? 0);;
  hbs ← gets hash_block_size;
  bhs' ← lift_result (resolve_block_hashes bhs hbs bsz false (Some al));
  null ← gets null_block;
  let need := _contiguous_blocks_for_hit sliding_window bsz drop_eagle_block in
  let max_num_blocks := max_length / bsz in
  r ← swa_loop bhs' gids bsz al need drop_eagle_block (py_range_down 0 max_num_blocks)
        (replicate (length gids) (replicate (Z.to_nat max_num_blocks) null)) 0;
  let '(computed, contiguous, match_found) := r in
  computed1 ← (if (match_found : bool) then mret computed
    else
      let cut := take (Z.to_nat contiguous) <$> computed in
      first ← lift_option IndexError (head cut);
      mret (take (align_len (length first) bsz al) <$> cut));
  first ← lift_option IndexError (head computed1);
  let computed2 :=
    if drop_eagle_block && (0 <? zlen first)
    then take (align_len (length first - 1) bsz al) <$> computed1
    else computed1 in
  first2 ← lift_option IndexError (head computed2);
  mret (computed2, zlen first2 * bsz).

(** The left-to-right loop of the chunked-local search. *)
Fixpoint chunk_loop (bhs : BlockHashList) (gids : list Z) (idxs : list Z)
    (computed : list (list ref)) : M BlockPool (list (list ref)) :=
  match idxs with
  | [] => mret computed
  | i :: idxs' =>
      h ← lift_option IndexError (bhl_get bhs i);
      r ← lookup_hit h gids;
      match r with
      | Some bs => chunk_loop bhs gids idxs' (append_each computed bs)
      | None => mret computed
      end
  end.

(** [ChunkedLocalAttentionManager.find_longest_cache_hit]. *)
Definition chunked_find_longest_cache_hit (bhs : BlockHashList) (max_length : Z) (gids : list Z)
    (bsz attention_chunk_size : Z) (drop_eagle_block : bool)
    (al dcp_world_size pcp_world_size : Z) : M BlockPool Hit :=
  assert (negb drop_eagle_block);;
  assert (dcp_world_size =? 1);;
  assert (pcp_world_size =? 1);;
  assert (bsz =? al);;
  hbs ← gets hash_block_size;
  bhs' ← lift_result (resolve_block_hashes bhs hbs bsz false (Some al));
  null ← gets null_block;
  let max_num_blocks := max_length / bsz in
  let local_attention_start_idx :=
    if 0 <? max_length then max_length / attention_chunk_size * attention_chunk_size else 0 in
  let start_block := local_attention_start_idx / bsz in
  computed ← chunk_loop bhs' gids (py_range start_block max_num_blocks)
    (replicate (length gids) (replicate (Z.to_nat start_block) null));
  first ← lift_option IndexError (head computed);
  mret (computed, zlen first * bsz).

(** The right-to-left loop of the mamba search at block granularity. *)
Fixpoint mamba_loop (bhs : BlockHashList) (gids : list Z) (bsz al : Z) (idxs : list Z)
    : M BlockPool (option (Z * list ref)) :=
  match idxs with
  | [] => mret None
  | i :: idxs' =>
      h ← lift_option IndexError (bhl_get bhs i);
      r ← lookup_hit h gids;
      match r with
      | Some bs =>
          if negb (bsz =? al) && negb (((i + 1) * bsz) mod al =? 0)
          then mamba_loop bhs gids bsz al idxs'
          else mret (Some (i, bs))
      | None => mamba_loop bhs gids bsz al idxs'
      end
  end.

(** [computed.extend([null] * n); computed.append(b)] for every group. *)
Definition null_padded (null : ref) (n : Z) (ngroups : nat) (bs : list ref) : list (list ref) :=
  append_each (replicate ngroups (replicate (Z.to_nat n) null)) bs.

(** [MambaManager.find_longest_cache_hit]. *)
Definition mamba_find_longest_cache_hit (bhs : BlockHashList) (max_length : Z) (gids : list Z)
    (bsz al dcp_world_size pcp_world_size : Z) : M BlockPool Hit :=
  assert (dcp_world_size =? 1);;
  assert (pcp_world_size =? 1);;
  hbs ← gets hash_block_size;
  bhs' ← lift_result (resolve_block_hashes bhs hbs bsz true (Some al));
  null ← gets null_block;
  let miss := (replicate (length gids) [], 0) in
  if (al <? bsz) && (bsz mod al =? 0) then
    match bhs' with
    | RawHashes hs =>
        let scale_factor := bsz / al in
        let units := Z.min (max_length / al) (zlen hs) in
        r ← probe hs gids (py_range_down 0 units);
        match r with
        | Some (i, bs) => mret (null_padded null (i / scale_factor) (length gids) bs, (i + 1) * al)
        | None => mret miss
        end
    | ScaledHashes _ _ => raise AssertionError
    end
  else
    r ← mamba_loop bhs' gids bsz al (py_range_down 0 (max_length / bsz));
    match r with
    | Some (i, bs) => mret (null_padded null i (length gids) bs, (i + 1) * bsz)
    | None => mret miss
    end.

(** Dispatch on the manager class of a spec. *)
Definition find_longest_cache_hit (spec : KVCacheSpec) (bhs : BlockHashList) (max_length : Z)
    (gids : list Z) (drop_eagle_block : bool) (al dcp_world_size pcp_world_size : Z)
    : M BlockPool Hit :=
  match spec_kind spec with
  | FullAttentionSpec | RSWASpec _ | SinkFullAttentionSpec _ =>
      full_find_longest_cache_hit bhs max_length gids (spec_block_size spec) drop_eagle_block al
        dcp_world_size
  | SlidingWindowSpec w _ =>
      swa_find_longest_cache_hit bhs max_length gids (spec_block_size spec) w drop_eagle_block al
        dcp_world_size pcp_world_size
  | ChunkedLocalAttentionSpec c =>
      chunked_find_longest_cache_hit bhs max_length gids (spec_block_size spec) c drop_eagle_block
        al dcp_world_size pcp_world_size
  | MambaSpec _ _ _ =>
      mamba_find_longest_cache_hit bhs max_length gids (spec_block_size spec) al dcp_world_size
        pcp_world_size
  | CrossAttentionSpec => raise NotImplementedError
  end.
