(* ===== verification/ManagerFacts.v ===== *)
(** Reference accounting for the cache managers: at any time the reference count of a block
    is the number of its occurrences in the block tables and pending copies of the managers.
    Each operation of the attention managers preserves this, and the number of blocks
    predicted by [get_num_blocks_to_allocate] is enough for the allocation that follows. *)

From S2P Require Import Prelude MathUtils Request BlockHash BlockHashFacts FreeQueue.
From S2P Require Import FreeQueueFacts BlockPool BlockPoolFacts BlockPoolSpec BlockPoolTheorems.
From S2P Require Import Managers.

Set Warnings "-level-tolerance,-clear-no-such-hyp".

(** ** Counting references *)

Abbreviation tables := (gmap string (list ref)).

Definition table_refs (t : tables) (r : ref) : Z := map_fold (λ _ bs n, occ r bs + n) 0 t.
Definition pend_refs (cs : list (ref * ref)) (r : ref) : Z := occ r cs.*1 + occ r cs.*2.
Definition mgr_refs (s : Manager) (r : ref) : Z :=
  table_refs (req_to_blocks s) r + pend_refs (_pending_cow_copies s) r.
Definition table (s : Manager) (id : string) : list ref := default [] (req_to_blocks s !! id).

Section refs.
Implicit Types (t : tables) (r : ref) (id : string).

Lemma table_refs_fresh t id bs r :
  t !! id = None → table_refs (<[id := bs]> t) r = occ r bs + table_refs t r.
Proof.
  intros H. unfold table_refs. rewrite map_fold_insert_L; [done|intros; lia|done].
Qed.

(** Replacing the table of a request. *)
Lemma table_refs_insert t id bs r :
  table_refs (<[id := bs]> t) r = table_refs t r - occ r (default [] (t !! id)) + occ r bs.
Proof.
  destruct (t !! id) as [bs0|] eqn:E; simpl.
  - rewrite <-(insert_delete_eq t id bs). rewrite table_refs_fresh by apply lookup_delete_eq.
    assert (table_refs t r = occ r bs0 + table_refs (delete id t) r) as ->; [|lia].
    rewrite <-(table_refs_fresh _ id) by apply lookup_delete_eq. by rewrite insert_delete_id.
  - rewrite table_refs_fresh by done. rewrite occ_nil. lia.
Qed.

Lemma table_refs_delete t id r :
  table_refs (delete id t) r = table_refs t r - occ r (default [] (t !! id)).
Proof.
  destruct (t !! id) as [bs0|] eqn:E; simpl.
  - assert (table_refs t r = occ r bs0 + table_refs (delete id t) r) as ->; [|lia].
    rewrite <-(table_refs_fresh _ id) by apply lookup_delete_eq. by rewrite insert_delete_id.
  - rewrite delete_id by done. rewrite occ_nil. lia.
Qed.

Lemma table_refs_nonneg t r : 0 ≤ table_refs t r.
Proof.
  unfold table_refs. apply (map_fold_weak_ind (λ n _, 0 ≤ n)); [lia|].
  intros id bs m n _ ?. pose proof (occ_nonneg r bs). lia.
Qed.

Lemma table_refs_le t id r : occ r (default [] (t !! id)) ≤ table_refs t r.
Proof.
  pose proof (table_refs_nonneg (delete id t) r). rewrite table_refs_delete in *. lia.
Qed.

Lemma pend_refs_nonneg cs r : 0 ≤ pend_refs cs r.
Proof. unfold pend_refs. pose proof (occ_nonneg r cs.*1). pose proof (occ_nonneg r cs.*2). lia. Qed.
End refs.

(** ** The invariant *)

(** The references of one manager plus those of the rest of the system, [F]. *)
Record group_inv (F : ref → Z) (s : GroupState) (l : list ref) : Prop := {
  gi_pool : pool_inv (g_pool s) l;
  gi_bsz : 0 < block_size (g_mgr s);
  gi_tables : ∀ id, Forall (in_pool (g_pool s)) (table (g_mgr s) id);
  gi_refs : ∀ r, usable (g_pool s) r → rc (g_pool s) r = mgr_refs (g_mgr s) r + F r;
  gi_frame : ∀ r, 0 ≤ F r;
  gi_partial : ∀ id i b, _partial_hit_reqs (g_mgr s) !! id = Some (i, b) →
    usable (g_pool s) b ∧ 0 ≤ i ∧ table (g_mgr s) id !! Z.to_nat i = Some b;
}.

(** The attributes the invariant and the allocation depend on. *)
Definition same_core (s s' : Manager) : Prop :=
  kv_cache_spec s' = kv_cache_spec s ∧ block_size s' = block_size s
  ∧ mgr_enable_caching s' = mgr_enable_caching s
  ∧ req_to_blocks s' = req_to_blocks s ∧ _pending_cow_copies s' = _pending_cow_copies s
  ∧ _partial_hit_reqs s' = _partial_hit_reqs s.

Section inv.
Implicit Types (F : ref → Z) (s : GroupState) (l : list ref) (r : ref) (id : string).

Lemma group_inv_core F p m m' l :
  same_core m m' → group_inv F (mkGroup p m) l → group_inv F (mkGroup p m') l.
Proof.
  intros (E1 & E2 & E3 & E4 & E5 & E6) [H1 H2 H3 H4 H5 H6]; simpl in *. split; simpl; try done.
  - by rewrite E2.
  - intros id. unfold table. rewrite E4. apply H3.
  - intros r Hr. unfold mgr_refs. rewrite E4, E5. by apply H4.
  - intros id i b. unfold table. rewrite E4, E6. apply H6.
Qed.

(** The table of [id] becomes [bs]; the pool's counts follow. *)
Lemma group_inv_table F s l p' l' id bs :
  group_inv F s l → pool_inv p' l' → same_conf (g_pool s) p' → Forall (in_pool p') bs →
  (∀ r, usable p' r → rc p' r = rc (g_pool s) r + occ r bs - occ r (table (g_mgr s) id)) →
  (∀ i b, _partial_hit_reqs (g_mgr s) !! id = Some (i, b) → bs !! Z.to_nat i = Some b) →
  group_inv F (mkGroup p' (set_req_to_blocks (<[id := bs]> (req_to_blocks (g_mgr s))) (g_mgr s))) l'.
Proof.
  intros [H1 H2 H3 H4 H5 H6] Hp Hc Hbs Hrc Hpart. split; simpl; try done.
  - intros id'. unfold table. simpl. rewrite lookup_insert. case_decide; [done|].
    eapply Forall_impl; [apply H3|]. intros b Hb. by eapply in_pool_conf.
  - intros r Hr. rewrite Hrc by done. unfold mgr_refs. simpl. rewrite table_refs_insert.
    fold (table (g_mgr s) id). rewrite H4; [unfold mgr_refs; lia|].
    by eapply usable_conf; [symmetry|].
  - intros id' i b Hib. destruct (H6 id' i b Hib) as (Hu & Hi & Hl).
    split_and!; [by eapply usable_conf|done|]. unfold table. simpl. rewrite lookup_insert.
    case_decide; [subst; by apply Hpart|done].
Qed.

(** Recording a partial hit. *)
Lemma group_inv_partial F p m l id i b m' :
  group_inv F (mkGroup p m) l →
  (block_size m', req_to_blocks m', _pending_cow_copies m', _partial_hit_reqs m')
  = (block_size m, req_to_blocks m, _pending_cow_copies m, <[id := (i, b)]> (_partial_hit_reqs m)) →
  usable p b → 0 ≤ i → table m id !! Z.to_nat i = Some b →
  group_inv F (mkGroup p m') l.
Proof.
  intros [H1 H2 H3 H4 H5 H6] [= E1 E2 E3 E4] Hb Hi Hl; simpl in *. split; simpl; try done.
  - by rewrite E1.
  - intros id'. unfold table. rewrite E2. apply H3.
  - intros r Hr. unfold mgr_refs. rewrite E2, E3. by apply H4.
  - intros id' i' b'. unfold table. rewrite E2, E4, lookup_insert_Some.
    intros [[<- [= <- <-]]|[_ ?]]; [done|by apply H6].
Qed.

(** Reading [req_to_blocks[id]]. *)
Lemma req_blocks_spec s id :
  wp (req_blocks id) (λ bs s', bs = table (g_mgr s) id
    ∧ s' = mkGroup (g_pool s) (set_req_to_blocks
             (<[id := table (g_mgr s) id]> (req_to_blocks (g_mgr s))) (g_mgr s))) s.
Proof.
  unfold req_blocks, self, table. wp_steps. simpl.
  destruct (req_to_blocks (g_mgr s) !! id) as [bs|] eqn:E; simpl.
  - wp_steps. split; [done|]. rewrite insert_id by done. by destruct s as [p []].
  - unfold update_self. wp_steps. done.
Qed.

Lemma group_inv_read F s l id :
  group_inv F s l →
  group_inv F (mkGroup (g_pool s) (set_req_to_blocks
             (<[id := table (g_mgr s) id]> (req_to_blocks (g_mgr s))) (g_mgr s))) l.
Proof.
  intros H. apply group_inv_table with l; [done|apply H|done|apply H| |].
  - intros r Hr. lia.
  - intros i b Hib. by apply (gi_partial _ _ _ H).
Qed.
End inv.

(** ** Allocation steps *)

(** Attention managers: everything but mamba and cross attention. *)
Definition is_attention (k : SpecKind) : bool :=
  match k with MambaSpec _ _ _ | CrossAttentionSpec => false | _ => true end.

(** Taking the blocks [xs] out of the free list clears their registrations and no other. *)
Definition recycled (p : BlockPool) (xs : list ref) (p' : BlockPool) : Prop :=
  (∀ r, is_blk r → r ∉ xs → ntok_of p' r = ntok_of p r)
  ∧ (enable_caching p = true → ∀ r, r ∈ xs → ntok_of p' r = None).

Lemma evicted_recycled use_int p xs p' : evicted use_int p xs p' → recycled p xs p'.
Proof.
  unfold evicted, recycled. destruct (enable_caching p).
  - intros [[_ H1 H2 _] _]. split; [intros r Hr Hx; by apply H2|intros _ r Hr; by apply H1].
  - intros [[H _] _]. split; [intros r _ _; by apply H|done].
Qed.

(** The pool after allocating [n] blocks. *)
Record allocated (p : BlockPool) (l : list ref) (n : Z) (xs : list ref) (p' : BlockPool) : Prop := {
  al_take : xs = take (Z.to_nat n) l;
  al_inv : pool_inv p' (drop (Z.to_nat n) l);
  al_conf : same_conf p p';
  al_rc : ∀ r, rc p' r = rc p r + occ r xs;
  al_usable : Forall (usable p) xs;
  al_nodup : NoDup xs;
  al_len : zlen xs = n;
  al_ntok : recycled p xs p';
}.

Section alloc.
Context (use_int : bool).
Implicit Types (F : ref → Z) (s : GroupState) (l : list ref) (r : ref) (id : string).

Lemma get_new_blocks_allocated p l n :
  pool_inv p l → 0 ≤ n ≤ zlen l →
  wp (get_new_blocks use_int n) (λ xs p', allocated p l n xs p') p.
Proof.
  intros Hinv Hn. eapply wp_mono; [by apply get_new_blocks_spec|]. simpl.
  intros xs p' (-> & Hinv' & Hc & Hev & Hrc). apply evicted_recycled in Hev.
  assert (Forall (λ r, usable p r ∧ rc p r = 0) (take (Z.to_nat n) l)) as Hall.
  { apply Forall_forall. intros r Hr. apply (free_iff p l r Hinv).
    by eapply elem_of_submseteq, sublist_submseteq, sublist_take. }
  assert (NoDup (take (Z.to_nat n) l)) as Hnd.
  { eapply sublist_NoDup; [|apply sublist_take]. by eapply inv_nodup. }
  split; try done.
  - intros r. rewrite Hrc, (occ_nodup r) by done. case_decide as Hr; [|lia].
    rewrite Forall_forall in Hall. destruct (Hall r Hr). lia.
  - eapply Forall_impl; [done|]. by intros r [? _].
  - unfold zlen in *. rewrite length_take. lia.
Qed.

Lemma wp_on_pool {A} (op : M BlockPool A) (Q : A → GroupState → Prop) s :
  wp op (λ a p', Q a (mkGroup p' (g_mgr s))) (g_pool s) → wp (on_pool op) Q s.
Proof. intros H. by apply wp_zoom. Qed.

Lemma usable_blk p b : usable p b → in_pool p b.
Proof. intros (i & ? & ? & ?). by exists i. Qed.

(** The table of [id] grows by freshly allocated blocks. *)
Lemma group_inv_extend F s l n xs p' id :
  group_inv F s l → allocated (g_pool s) l n xs p' →
  group_inv F (mkGroup p' (set_req_to_blocks
    (<[id := table (g_mgr s) id ++ xs]> (req_to_blocks (g_mgr s))) (g_mgr s)))
    (drop (Z.to_nat n) l).
Proof.
  intros H [Htake Hinv Hc Hrc Hu Hnd Hlen]. apply group_inv_table with l; try done.
  - apply Forall_app. split.
    + eapply Forall_impl; [apply H|]. intros b Hb. by eapply in_pool_conf.
    + eapply Forall_impl; [done|]. intros b Hb. eapply in_pool_conf; [done|]. by apply usable_blk.
  - intros r Hr. rewrite Hrc, occ_app. lia.
  - intros i b Hib. destruct (gi_partial _ _ _ H id i b Hib) as (_ & _ & Hl).
    by apply lookup_app_l_Some.
Qed.

(** What an allocation step does to the rest of the manager. *)
Definition grown s id (xs : list ref) s' : Prop :=
  same_conf (g_pool s) (g_pool s')
  ∧ kv_cache_spec (g_mgr s') = kv_cache_spec (g_mgr s)
  ∧ block_size (g_mgr s') = block_size (g_mgr s)
  ∧ _pending_cow_copies (g_mgr s') = _pending_cow_copies (g_mgr s)
  ∧ num_cached_block (g_mgr s') = num_cached_block (g_mgr s)
  ∧ table (g_mgr s') id = table (g_mgr s) id ++ xs
  ∧ (∀ id', id' ≠ id → table (g_mgr s') id' = table (g_mgr s) id')
  ∧ recycled (g_pool s) xs (g_pool s').

Lemma table_insert (m : Manager) id id' bs :
  table (set_req_to_blocks (<[id := bs]> (req_to_blocks m)) m) id'
  = if decide (id = id') then bs else table m id'.
Proof. unfold table. simpl. rewrite lookup_insert. by case_decide. Qed.

(** Allocating [n] blocks for [id] when [n] are free. *)
Lemma extend_spec F s l id n (record : bool) :
  group_inv F s l → 0 ≤ n ≤ zlen l →
  wp (xs ← on_pool (get_new_blocks use_int n);
      set_req_blocks id (table (g_mgr s) id ++ xs);;
      when record (update_self (λ m, set_new_block_ids (new_block_ids m ++ (block_id <$> xs)) m)))
    (λ _ s', ∃ xs, zlen xs = n ∧ xs = take (Z.to_nat n) l
       ∧ group_inv F s' (drop (Z.to_nat n) l) ∧ grown s id xs s'
       ∧ _partial_hit_reqs (g_mgr s') = _partial_hit_reqs (g_mgr s)) s.
Proof.
  intros H Hn. apply wp_bind, wp_on_pool.
  eapply wp_mono; [apply get_new_blocks_allocated; [apply H|done]|]. simpl.
  intros xs p' Hal. unfold set_req_blocks, self, update_self. wp_steps. simpl.
  pose proof (group_inv_extend F s l n xs p' id H Hal) as Hg.
  apply wp_when; intros _; wp_steps; exists xs; (do 2 (split; [apply Hal|])).
  - split; [|split; [|done]].
    + eapply group_inv_core; [|exact Hg]. done.
    + split_and!; try done; [apply Hal|..|apply Hal].
      * unfold table at 1. simpl. by rewrite lookup_insert_eq.
      * intros id' Hne. unfold table. simpl. by rewrite lookup_insert_ne.
  - split; [exact Hg|split; [|done]]. split_and!; try done; [apply Hal|..|apply Hal].
    + unfold table at 1. simpl. by rewrite lookup_insert_eq.
    + intros id' Hne. unfold table. simpl. by rewrite lookup_insert_ne.
Qed.

(** ** Copy on write *)

Lemma occ_insert r (bs : list ref) i b x :
  bs !! i = Some b → occ r (<[i := x]> bs) = occ r bs - occ r [b] + occ r [x].
Proof.
  intros Hi. rewrite insert_take_drop by (by apply lookup_lt_is_Some; eexists).
  rewrite <-(take_drop_middle bs i b Hi) at 3. rewrite !occ_app, !occ_cons, !occ_nil. lia.
Qed.

Lemma py_get_some {A} (bs : list A) (i : Z) b :
  0 ≤ i → bs !! Z.to_nat i = Some b →
  i < zlen bs ∧ py_get bs i = Some b ∧ py_index (zlen bs) i = Some (Z.to_nat i).
Proof.
  intros Hi Hb. pose proof (lookup_lt_Some _ _ _ Hb). unfold zlen in *.
  split_and!; [lia|by rewrite py_get_nonneg|]. unfold py_index.
  destruct (Z.ltb_spec i 0); [lia|]. destruct (_ && _) eqn:E; [done|].
  apply andb_false_iff in E as [E|E]; bool_hyps; lia.
Qed.

Definition redirect s (id : string) (i : Z) (src cow : ref) (p' : BlockPool) : GroupState :=
  mkGroup p' (set_pending_cow_copies (_pending_cow_copies (g_mgr s) ++ [(src, cow)])
    (set_req_to_blocks (<[id := <[Z.to_nat i := cow]> (table (g_mgr s) id)]>
       (req_to_blocks (g_mgr s)))
    (set_partial_hit_reqs (delete id (_partial_hit_reqs (g_mgr s))) (g_mgr s)))).

Lemma redirect_inv F s l id i src cow p1 :
  group_inv F s l → _partial_hit_reqs (g_mgr s) !! id = Some (i, src) →
  allocated (g_pool s) l 1 [cow] p1 →
  let p2 := upd_block cow (λ blk, with_ref_cnt (ref_cnt blk + 1) blk) p1 in
  group_inv F (redirect s id i src cow p2) (drop 1 l).
Proof.
  intros H Hph [Htake Hinv1 Hc1 Hrc1 Hu1 Hnd1 _] p2.
  destruct (gi_partial _ _ _ H id i src Hph) as (Husrc & Hi & Hsrc).
  rewrite Forall_singleton in Hu1.
  assert (usable p1 cow) as Hucow by by eapply usable_conf.
  destruct (usable_ok _ _ _ Hinv1 cow Hucow) as (j & cblk & Hcj & Hcblk & _).
  assert (rc p1 cow = 1) as Hrccow.
  { rewrite Hrc1, occ_cons, occ_nil, decide_True by done.
    assert (cow ∈ l) as Hl.
    { destruct l as [|x l']; [done|]. injection Htake as <-. left. }
    apply (free_iff _ _ _ (gi_pool _ _ _ H)) in Hl as [_ ->]. lia. }
  assert (pool_inv p2 (drop 1 l)) as Hinv2.
  { apply (pool_rep_rc p1 (drop 1 l) (drop 1 l) (drop 1 l) cow 1); [done|by apply usable_blk| | |].
    - done.
    - intros ->. destruct Hucow as (? & E & ? & _). rewrite (inv_null _ _ _ Hinv1) in E. simplify_eq. lia.
    - intros _. rewrite Hrccow. split; [lia|]. split; [|lia].
      intros Hl. apply (free_iff _ _ _ Hinv1) in Hl. lia. }
  assert (∀ r, rc p2 r = rc (g_pool s) r + 2 * occ r [cow]) as Hrc2.
  { intros r. unfold p2. rewrite rc_upd. destruct (decide (cow = r)) as [<-|Hne].
    - rewrite Hcblk. simpl. assert (ref_cnt cblk = rc p1 cow) as -> by (unfold rc; by rewrite Hcblk).
      rewrite Hrc1, occ_cons, occ_nil, decide_True by done. lia.
    - rewrite Hrc1, occ_cons, occ_nil, decide_False by done. lia. }
  destruct H as [H1 H2 H3 H4 H5 H6]. split; simpl; try done.
  - intros id'. unfold table. simpl. rewrite lookup_insert. case_decide.
    + apply Forall_insert.
      * eapply Forall_impl; [apply H3|]. intros b Hb. by eapply in_pool_conf.
      * by apply (usable_blk p1).
    + eapply Forall_impl; [apply H3|]. intros b Hb. by eapply in_pool_conf.
  - intros r Hr. rewrite Hrc2. unfold mgr_refs. simpl. rewrite table_refs_insert.
    fold (table (g_mgr s) id). rewrite (occ_insert _ _ _ _ _ Hsrc). unfold pend_refs.
    rewrite !fmap_app, !occ_app. simpl.
    rewrite H4; [unfold mgr_refs, pend_refs; lia|]. eapply usable_conf; [symmetry; exact Hc1|done].
  - intros id' i' b'. rewrite lookup_delete_Some. intros [Hne Hib].
    destruct (H6 id' i' b' Hib) as (Hu & Hi' & Hl).
    split_and!; [by eapply usable_conf|done|]. unfold table. simpl. by rewrite lookup_insert_ne.
Qed.

Lemma allocated_one p l xs p' : allocated p l 1 xs p' → ∃ cow, xs = [cow].
Proof.
  intros H. pose proof (al_len _ _ _ _ _ H). destruct xs as [|x [|]]; [done|by exists x|].
  unfold zlen in *. simpl in *. lia.
Qed.

(** The partial-hit branch of [allocate_new_blocks]. *)
Lemma cow_spec F s l id i src :
  group_inv F s l → _partial_hit_reqs (g_mgr s) !! id = Some (i, src) → 1 ≤ zlen l →
  wp (update_self (λ m, set_partial_hit_reqs (delete id (_partial_hit_reqs m)) m);;
      cow ← on_pool (get_new_blocks use_int 1);
      cow_block ← lift_option IndexError (head cow);
      _apply_cow id i src cow_block;;
      update_self (λ m, set_new_block_ids (new_block_ids m ++ [block_id cow_block]) m);;
      mret [cow_block])
    (λ cs s', ∃ cow p', cs = [cow] ∧ same_conf (g_pool s) p'
       ∧ group_inv F (redirect s id i src cow p') (drop 1 l)
       ∧ g_pool s' = p' ∧ same_core (g_mgr (redirect s id i src cow p')) (g_mgr s')
       ∧ num_cached_block (g_mgr s') = num_cached_block (g_mgr s)) s.
Proof.
  intros H Hph Hl. destruct (gi_partial _ _ _ H id i src Hph) as (Husrc & Hi & Hsrc).
  unfold update_self. wp_steps. apply wp_on_pool. simpl.
  eapply wp_mono; [apply get_new_blocks_allocated; [apply H|lia]|]. simpl.
  intros xs p1 Hal. destruct (allocated_one _ _ _ _ Hal) as [cow ->]. simpl.
  pose proof (redirect_inv F s l id i src cow p1 H Hph Hal) as Hg. wp_steps.
  unfold _apply_cow. wp_steps.
  set (s1 := mkGroup _ _).
  eapply wp_mono; [apply req_blocks_spec|]. simpl. intros bs s2 (-> & ->). unfold s1. simpl.
  change (table _ id) with (table (g_mgr s) id).
  destruct (py_get_some _ _ _ Hi Hsrc) as (Hlt & Hget & Hidx).
  wp_steps. apply wp_assert; [by apply Z.ltb_lt|]. wp_steps.
  eapply wp_lift_option; [done|]. wp_steps. apply wp_assert; [by rewrite bool_decide_eq_true_2|].
  wp_steps. apply wp_on_pool. simpl.
  assert (usable p1 src) as Hus1 by (eapply usable_conf; [apply Hal|done]).
  destruct (usable_ok _ _ _ (al_inv _ _ _ _ _ Hal) src Hus1) as (j & sblk & _ & Hsblk & _ & Hnull & _).
  eapply wp_block; [done|]. wp_steps. apply wp_assert.
  { rewrite Hnull. simpl. apply Z.ltb_lt.
    assert (ref_cnt sblk = rc p1 src) as -> by (unfold rc; by rewrite Hsblk).
    rewrite (al_rc _ _ _ _ _ Hal). pose proof (occ_nonneg src [cow]).
    rewrite (gi_refs _ _ _ H) by done. pose proof (gi_frame _ _ _ H src).
    pose proof (pend_refs_nonneg (_pending_cow_copies (g_mgr s)) src).
    pose proof (table_refs_le (req_to_blocks (g_mgr s)) id src).
    assert (0 < occ src (table (g_mgr s) id)) by (apply occ_pos; by eapply list_elem_of_lookup_2).
    unfold mgr_refs, table in *. lia. }
  wp_steps. eapply wp_lift_option; [done|]. unfold set_req_blocks, self, update_self. wp_steps.
  apply wp_on_pool. simpl.
  assert (usable p1 cow) as Hucow.
  { eapply usable_conf; [apply Hal|]. pose proof (al_usable _ _ _ _ _ Hal) as Hu.
    by rewrite Forall_singleton in Hu. }
  apply wp_set_block.
  { destruct (usable_ok _ _ _ (al_inv _ _ _ _ _ Hal) cow Hucow) as (? & cb & _ & -> & _). by eexists. }
  wp_steps. exists cow, (upd_block cow (λ blk, with_ref_cnt (ref_cnt blk + 1) blk) p1).
  split_and!; try done; [apply Hal|]. split_and!; try done. simpl. by rewrite insert_insert_eq.
Qed.

(** ** [allocate_new_blocks] *)

(** The blocks an allocation needs: the copy-on-write block and the missing tail. *)
Definition new_demand (m : Manager) id (num_tokens : Z) : Z :=
  (if decide (is_Some (_partial_hit_reqs m !! id)) then 1 else 0)
  + Z.max 0 (cdiv num_tokens (block_size m) - zlen (table m id)).

(** The manager after an allocation for [id]: its table has the length the tokens need. *)
Record provided F s l id (num_tokens demand : Z) s' : Prop := {
  pv_inv : group_inv F s' (drop (Z.to_nat demand) l);
  pv_conf : same_conf (g_pool s) (g_pool s');
  pv_spec : kv_cache_spec (g_mgr s') = kv_cache_spec (g_mgr s);
  pv_bsz : block_size (g_mgr s') = block_size (g_mgr s);
  pv_len : zlen (table (g_mgr s') id)
           = Z.max (zlen (table (g_mgr s) id)) (cdiv num_tokens (block_size (g_mgr s)));
  pv_other : ∀ id', id' ≠ id → table (g_mgr s') id' = table (g_mgr s) id';
  pv_partial : _partial_hit_reqs (g_mgr s') = delete id (_partial_hit_reqs (g_mgr s));
  pv_cached : num_cached_block (g_mgr s') = num_cached_block (g_mgr s);
  pv_table : _partial_hit_reqs (g_mgr s) !! id = None →
    table (g_mgr s') id = table (g_mgr s) id ++ take (Z.to_nat demand) l;
  pv_ntok : _partial_hit_reqs (g_mgr s) !! id = None →
    recycled (g_pool s) (take (Z.to_nat demand) l) (g_pool s');
  pv_pending : _partial_hit_reqs (g_mgr s) !! id = None →
    _pending_cow_copies (g_mgr s') = _pending_cow_copies (g_mgr s);
}.

(** The growing part, without a partial hit. *)
Lemma grow_spec F s l id (num_tokens : Z) (cows : list ref) :
  group_inv F s l → Z.max 0 (cdiv num_tokens (block_size (g_mgr s)) - zlen (table (g_mgr s) id)) ≤ zlen l →
  wp (bs ← req_blocks id;
      s0 ← self (λ x, x);
      let num_new_blocks := cdiv num_tokens (block_size s0) - zlen bs in
      if num_new_blocks <=? 0 then mret cows
      else
        new_blocks ← on_pool (get_new_blocks use_int num_new_blocks);
        set_req_blocks id (bs ++ new_blocks);;
        when (_record_new_block_ids s0)
          (update_self (λ m, set_new_block_ids (new_block_ids m ++ (block_id <$> new_blocks)) m));;
        mret (cows ++ new_blocks))
    (λ res s', ∃ xs, res = cows ++ xs
       ∧ xs = take (Z.to_nat (cdiv num_tokens (block_size (g_mgr s)) - zlen (table (g_mgr s) id))) l
       ∧ group_inv F s' (drop (Z.to_nat (cdiv num_tokens (block_size (g_mgr s))
         - zlen (table (g_mgr s) id))) l)
       ∧ grown s id xs s' ∧ _partial_hit_reqs (g_mgr s') = _partial_hit_reqs (g_mgr s)
       ∧ zlen xs = Z.max 0 (cdiv num_tokens (block_size (g_mgr s)) - zlen (table (g_mgr s) id))) s.
Proof.
  intros H Hl. apply wp_bind. eapply wp_mono; [apply req_blocks_spec|]. simpl.
  intros bs s1 (-> & ->). pose proof (group_inv_read F s l id H) as H1.
  set (s1 := mkGroup _ _) in *. unfold self. wp_steps. simpl.
  assert (table (g_mgr s1) id = table (g_mgr s) id) as Ht.
  { unfold table at 1. simpl. by rewrite lookup_insert_eq. }
  assert (∀ id', table (g_mgr s1) id' = table (g_mgr s) id') as Hts.
  { intros id'. destruct (decide (id = id')) as [<-|]; [done|].
    unfold table. simpl. by rewrite lookup_insert_ne. }
  destruct (Z.leb_spec (cdiv num_tokens (block_size (g_mgr s)) - zlen (table (g_mgr s) id)) 0).
  - wp_steps. exists []. rewrite Z2Nat.nonpos, drop_0, app_nil_r by lia. split_and!; try done.
    + split_and!; try done; [by rewrite app_nil_r|].
      split; [done|]. by intros _ r ?%elem_of_nil.
    + rewrite zlen_nil. lia.
  - set (n := cdiv num_tokens (block_size (g_mgr s)) - zlen (table (g_mgr s) id)) in *.
    apply wp_bind, wp_on_pool.
    eapply wp_mono; [apply get_new_blocks_allocated; [apply H1|lia]|]. simpl.
    intros xs p' Hal. unfold set_req_blocks, self, update_self. wp_steps. simpl.
    pose proof (group_inv_extend F s1 l n xs p' id H1 Hal) as Hg. rewrite Ht in Hg.
    set (m' := set_req_to_blocks _ (g_mgr s1)) in Hg.
    assert (∀ m2, same_core m' m2 → num_cached_block m2 = num_cached_block (g_mgr s) →
      ∃ ys, cows ++ xs = cows ++ ys ∧ ys = take (Z.to_nat n) l
        ∧ group_inv F (mkGroup p' m2) (drop (Z.to_nat n) l) ∧ grown s id ys (mkGroup p' m2)
        ∧ _partial_hit_reqs m2 = _partial_hit_reqs (g_mgr s) ∧ zlen ys = Z.max 0 n) as Hfin.
    { intros m2 Hcore Hnc. exists xs. split; [done|]. split; [apply Hal|].
      split; [by eapply group_inv_core|].
      destruct Hcore as (E1 & E2 & E3 & E4 & E5 & E6). split_and!.
      - split_and!; try done; [apply Hal| | |apply Hal]; unfold table; simpl; rewrite E4; simpl.
        + by rewrite lookup_insert_eq.
        + intros id' Hne. by rewrite !lookup_insert_ne.
      - done.
      - rewrite (al_len _ _ _ _ _ Hal). lia. }
    apply wp_when; intros _; wp_steps; by apply Hfin.
Qed.

Lemma allocate_new_blocks_spec F s l id (num_tokens main : Z) :
  group_inv F s l → new_demand (g_mgr s) id num_tokens ≤ zlen l →
  wp (base_allocate_new_blocks use_int id num_tokens main)
    (λ res s', provided F s l id num_tokens (new_demand (g_mgr s) id num_tokens) s'
       ∧ (_partial_hit_reqs (g_mgr s) !! id = None →
          res = take (Z.to_nat (new_demand (g_mgr s) id num_tokens)) l)) s.
Proof.
  intros H Hdem. unfold base_allocate_new_blocks, new_demand in *.
  assert (∀ m, wp (self (λ m, _partial_hit_reqs m !! id)) (λ o s', s' = m
    ∧ o = _partial_hit_reqs (g_mgr m) !! id) m) as Hself by (intros m; unfold self; by wp_steps).
  apply wp_bind. eapply wp_mono; [apply Hself|]. simpl. intros o ? (-> & ->).
  apply wp_bind.
  destruct (_partial_hit_reqs (g_mgr s) !! id) as [[i src]|] eqn:Eph.
  - rewrite decide_True in * by done.
    eapply wp_mono; [apply (cow_spec F s l id i src H Eph); lia|]. simpl.
    intros cs s1 (cow & p' & -> & Hc & Hg & Hp & Hcore & Hnc).
    assert (group_inv F s1 (drop 1 l)) as H1.
    { destruct s1 as [p1 m1]. simpl in Hp. subst p1. by eapply group_inv_core. }
    pose proof Hcore as (E1 & E2 & E3 & E4 & E5 & E6). simpl in *.
    assert (∀ id', table (g_mgr s1) id' = if decide (id = id')
      then <[Z.to_nat i := cow]> (table (g_mgr s) id) else table (g_mgr s) id') as Ht.
    { intros id'. unfold table at 1. rewrite E4, lookup_insert. by case_decide. }
    assert (zlen (table (g_mgr s1) id) = zlen (table (g_mgr s) id)) as Hlen.
    { rewrite Ht, decide_True by done. unfold zlen. by rewrite length_insert. }
    eapply wp_mono; [apply (grow_spec F s1 (drop 1 l) id num_tokens [cow] H1)|].
    { rewrite Hlen, E2. unfold zlen in *. rewrite length_drop. lia. }
    simpl. intros res s2 (xs & Hres & Hxs & Hg2 & (Hc2 & Hs2 & Hb2 & He2 & Hn2 & Ht2 & Ho2 & Hrec2) & Hph2 & Hlx).
    rewrite Hlen, E2 in *. split; [|congruence]. split.
    + rewrite drop_drop in Hg2. replace (Z.to_nat (1 + Z.max 0 _)) with
        (1 + Z.to_nat (cdiv num_tokens (block_size (g_mgr s)) - zlen (table (g_mgr s) id)))%nat by lia.
      done.
    + etrans; [exact Hc|]. by rewrite <-Hp.
    + congruence.
    + congruence.
    + rewrite Ht2, zlen_app, Hlen. lia.
    + intros id' Hne. rewrite Ho2, Ht, decide_False by done. done.
    + rewrite Hph2, E6. done.
    + congruence.
    + congruence.
    + congruence.
    + congruence.
  - rewrite decide_False in * by (by intros [? ?]). apply wp_ret.
    eapply wp_mono; [apply (grow_spec F s l id num_tokens [] H); lia|].
    simpl. intros res s2 (xs & Hres & Hxs & Hg2 & (Hc2 & Hs2 & Hb2 & He2 & Hn2 & Ht2 & Ho2 & Hrec2) & Hph2 & Hlx).
    replace (Z.to_nat (0 + Z.max 0 _)) with
      (Z.to_nat (cdiv num_tokens (block_size (g_mgr s)) - zlen (table (g_mgr s) id))) by lia.
    split; [|intros _; by rewrite Hres, Hxs]. split; try done.
    + replace (Z.to_nat (0 + Z.max 0 _)) with
        (Z.to_nat (cdiv num_tokens (block_size (g_mgr s)) - zlen (table (g_mgr s) id))) by lia. done.
    + rewrite Ht2, zlen_app. lia.
    + rewrite Hph2, delete_id by done. done.
    + intros _. rewrite Ht2, Hxs. by replace (Z.to_nat (0 + Z.max 0 _)) with
        (Z.to_nat (cdiv num_tokens (block_size (g_mgr s)) - zlen (table (g_mgr s) id))) by lia.
    + intros _. rewrite Hxs in Hrec2. by replace (Z.to_nat (0 + Z.max 0 _)) with
        (Z.to_nat (cdiv num_tokens (block_size (g_mgr s)) - zlen (table (g_mgr s) id))) by lia.
Qed.
End alloc.
