(* ===== verification/AllocationFacts.v ===== *)
(** The block count predicted by [get_num_blocks_to_allocate] is enough: when that many
    blocks are free, the sequence of calls that admits a request to an attention group
    (touch the hits, allocate for externally computed tokens, allocate for the new tokens)
    cannot fail, and every step keeps the reference accounting. *)

From S2P Require Import Prelude MathUtils Request BlockHash BlockHashFacts FreeQueue.
From S2P Require Import FreeQueueFacts BlockPool BlockPoolFacts BlockPoolSpec BlockPoolTheorems.
From S2P Require Import Managers ManagerFacts.

Set Warnings "-level-tolerance,-clear-no-such-hyp".

(** Window parameters the model configuration guarantees. *)
Definition kind_ok (k : SpecKind) : Prop :=
  match k with
  | SlidingWindowSpec w extra => 1 ≤ w ∧ 0 ≤ extra
  | ChunkedLocalAttentionSpec c => 0 < c
  | _ => True
  end.

Lemma skipped_bounds k total :
  kind_ok k → is_attention k = true → 0 ≤ total → 0 ≤ get_num_skipped_tokens k total ≤ total.
Proof.
  destruct k; simpl; intros Hk Ha Ht; try done; try lia.
  pose proof (Z.mul_div_le total attention_chunk_size Hk).
  pose proof (Z.div_pos total attention_chunk_size Ht Hk). nia.
Qed.

(** Blocks skipped by the attention window after [total] computed tokens. *)
Definition skipped_blocks (m : Manager) (total : Z) : Z :=
  get_num_skipped_tokens (mgr_kind m) total / block_size m.

Section evictable.
Implicit Types (p : BlockPool) (l bs : list ref).

Lemma evictable_spec p l bs :
  pool_inv p l → Forall (in_pool p) bs →
  wp (_get_num_evictable_blocks bs) (λ n p', p' = p ∧ n = zlen (filter (.∈ l) bs)) p.
Proof.
  intros Hinv Hall. induction Hall as [|b bs Hb _ IH]; simpl; [by wp_steps|].
  pose proof (proj1 (inv_in_pool _ _ _ Hinv b) Hb) as [_ [blk Hblk]].
  wp_steps. eapply wp_block; [done|]. wp_steps. eapply wp_mono; [exact IH|]. simpl.
  intros n p' [-> ->]. wp_steps. split; [done|].
  assert ((ref_cnt blk =? 0) && negb (is_null blk) = bool_decide (b ∈ l)) as ->.
  { apply eq_true_iff_eq. rewrite andb_true_iff, negb_true_iff, bool_decide_eq_true, Z.eqb_eq.
    rewrite (in_pool_null _ _ _ Hinv b blk Hb Hblk), bool_decide_eq_false, (free_iff p l b Hinv).
    assert (rc p b = ref_cnt blk) as -> by (unfold rc; by rewrite Hblk). split.
    - intros [-> ?]. split; [by apply (in_pool_usable _ _ _ Hinv)|done].
    - intros [(i & -> & ? & _) ->]. split; [done|]. rewrite (inv_null _ _ _ Hinv). intros [= ->]. lia. }
  rewrite filter_cons. case_bool_decide; case_decide; try done; rewrite ?zlen_cons; simpl; lia.
Qed.

(** Touching takes at most the evictable blocks out of the free list. *)
Lemma touch_consumes l bs :
  NoDup l → zlen l - zlen (filter (.∈ l) bs) ≤ zlen (filter (.∉ bs) l).
Proof.
  intros Hnd.
  assert (length l = (length (filter (.∉ bs) l) + length (filter (.∈ bs) l))%nat) as Hsplit.
  { clear Hnd. induction l as [|r l IH]; [done|]. rewrite !filter_cons. simpl.
    repeat case_decide; simpl; try done; lia. }
  assert (filter (.∈ bs) l ⊆+ filter (.∈ l) bs) as Hsub%submseteq_length.
  { apply NoDup_submseteq; [by apply NoDup_filter|]. intros r. rewrite !list_elem_of_filter. tauto. }
  unfold zlen. lia.
Qed.

Lemma filter_drop_le l bs n : zlen (filter (.∈ l) (drop n bs)) ≤ zlen (filter (.∈ l) bs).
Proof.
  rewrite <-(take_drop n bs) at 2. rewrite filter_app, zlen_app.
  pose proof (zlen_nonneg (filter (.∈ l) (take n bs))). lia.
Qed.
End evictable.

Section admission.
Context (use_int : bool).
Implicit Types (F : ref → Z) (s : GroupState) (l ncb : list ref) (id : string).

(** ** Touching the hits *)

(** What a client provides with a new request: prefix-cache hits [ncb] that cover exactly
    the locally computed tokens. *)
Record hits_ok s id ncb (loc ext : Z) : Prop := {
  ho_kind : is_attention (mgr_kind (g_mgr s)) = true ∧ kind_ok (mgr_kind (g_mgr s));
  ho_new : table (g_mgr s) id = [] ∧ num_cached_block (g_mgr s) !! id = None
           ∧ _partial_hit_reqs (g_mgr s) !! id = None;
  ho_pool : Forall (in_pool (g_pool s)) ncb;
  ho_caching : mgr_enable_caching (g_mgr s) = false → ncb = [];
  ho_tokens : 0 ≤ loc ∧ 0 ≤ ext;
  ho_len : zlen ncb = cdiv loc (block_size (g_mgr s));
  ho_tail : loc mod block_size (g_mgr s) ≠ 0 → ∀ b, last ncb = Some b → usable (g_pool s) b;
}.

Definition kept_hits (m : Manager) ncb (total : Z) : list ref :=
  drop (Z.to_nat (skipped_blocks m total)) ncb.

(** The counters of other requests stay. *)
Definition keeps_counts (id : string) (m m' : Manager) : Prop :=
  ∀ id', id' ≠ id → num_cached_block m' !! id' = num_cached_block m !! id'.

(** The state after the hits were added. *)
Record admitted F s l id ncb (loc ext : Z) s' : Prop := {
  ad_inv : group_inv F s' (filter (.∉ kept_hits (g_mgr s) ncb (loc + ext)) l);
  ad_conf : same_conf (g_pool s) (g_pool s');
  ad_spec : kv_cache_spec (g_mgr s') = kv_cache_spec (g_mgr s);
  ad_bsz : block_size (g_mgr s') = block_size (g_mgr s);
  ad_table : table (g_mgr s') id
    = replicate (Z.to_nat (skipped_blocks (g_mgr s) (loc + ext))) (null_block (g_pool s))
      ++ kept_hits (g_mgr s) ncb (loc + ext);
  ad_other : ∀ id', id' ≠ id → table (g_mgr s') id' = table (g_mgr s) id';
  ad_cached : is_Some (num_cached_block (g_mgr s') !! id);
  ad_partial : is_Some (_partial_hit_reqs (g_mgr s') !! id) →
    _has_partial_local_hit (g_mgr s) ncb loc = true;
  ad_hashes : same_hashes (g_pool s) (g_pool s');
  ad_count : _has_partial_local_hit (g_mgr s) ncb loc = false →
    num_cached_block (g_mgr s') = <[id := zlen (table (g_mgr s') id)]> (num_cached_block (g_mgr s));
  ad_same_partial : _has_partial_local_hit (g_mgr s) ncb loc = false →
    _partial_hit_reqs (g_mgr s') = _partial_hit_reqs (g_mgr s);
  ad_counts : keeps_counts id (g_mgr s) (g_mgr s');
  ad_pending : _pending_cow_copies (g_mgr s') = _pending_cow_copies (g_mgr s);
}.

Lemma kept_hits_last (m : Manager) ncb total b :
  last (kept_hits m ncb total) = Some b → last ncb = Some b.
Proof.
  unfold kept_hits. intros H.
  rewrite <-(take_drop (Z.to_nat (skipped_blocks m total)) ncb), last_app, H. done.
Qed.

(** A partial tail sits at the position the code computes for it. *)
Lemma partial_tail_index (m : Manager) ncb loc total null b :
  0 < block_size m → 0 ≤ loc → 0 ≤ skipped_blocks m total →
  zlen ncb = cdiv loc (block_size m) → last (kept_hits m ncb total) = Some b →
  loc mod block_size m ≠ 0 →
  (replicate (Z.to_nat (skipped_blocks m total)) null ++ kept_hits m ncb total)
    !! Z.to_nat (loc / block_size m) = Some b.
Proof.
  intros Hb Hloc Hsk Hlen Hlast Hmod. set (sk := skipped_blocks m total) in *.
  set (kh := kept_hits m ncb total) in *.
  assert (cdiv loc (block_size m) = loc / block_size m + 1) as Hcd.
  { apply cdiv_unique; [done|]. pose proof (Z.div_mod loc (block_size m)).
    pose proof (Z.mod_pos_bound loc (block_size m)). lia. }
  assert (zlen kh = zlen ncb - sk ∧ 0 < zlen kh) as [Hkl Hkp].
  { assert (kh ≠ []) as Hne by (intros E; by rewrite E in Hlast).
    assert (zlen kh = Z.max 0 (zlen ncb - sk)).
    { unfold kh, kept_hits, zlen. rewrite length_drop. unfold sk. lia. }
    destruct kh as [|x kh']; [done|]. rewrite zlen_cons in *. pose proof (zlen_nonneg kh'). lia. }
  rewrite lookup_app_r by (rewrite length_replicate; unfold zlen in *; lia).
  rewrite length_replicate. rewrite last_lookup in Hlast. rewrite <-Hlast. f_equal.
  unfold zlen in *. lia.
Qed.

Lemma dispatch_attention {A} (a b : M GroupState A) k :
  is_attention k = true → match k with CrossAttentionSpec => a | _ => b end = b.
Proof. by destruct k. Qed.

Lemma kept_hits_if (m : Manager) ncb total :
  (if 0 <? skipped_blocks m total then drop (Z.to_nat (skipped_blocks m total)) ncb else ncb)
  = kept_hits m ncb total.
Proof.
  unfold kept_hits. destruct (Z.ltb_spec 0 (skipped_blocks m total)); [done|].
  by rewrite Z2Nat.nonpos, drop_0 by lia.
Qed.

Lemma add_local_spec F s l id ncb loc ext :
  group_inv F s l → hits_ok s id ncb loc ext →
  wp (add_local_computed_blocks id ncb loc ext)
    (λ _ s', admitted F s l id ncb loc ext s') s.
Proof.
  intros H [[Hatt Hkok] (Hnew & Hnc & Hph) Hpool Hcach [Hloc Hext] Hlen Htail].
  pose proof (gi_bsz _ _ _ H) as Hbsz.
  pose proof (skipped_bounds _ (loc + ext) Hkok Hatt ltac:(lia)) as Hskt.
  assert (0 ≤ skipped_blocks (g_mgr s) (loc + ext)) as Hsk by (apply Z.div_pos; lia).
  unfold add_local_computed_blocks, self. wp_steps. simpl. rewrite dispatch_attention by done.
  unfold base_add_local_computed_blocks, self. apply wp_bind.
  eapply wp_mono; [apply req_blocks_spec|]. simpl. intros bs s1 (-> & ->). rewrite Hnew.
  wp_steps. apply wp_assert; [done|]. wp_steps. simpl.
  change (mgr_kind (set_req_to_blocks _ _)) with (mgr_kind (g_mgr s)).
  fold (skipped_blocks (g_mgr s) (loc + ext)). rewrite kept_hits_if.
  set (kh := kept_hits (g_mgr s) ncb (loc + ext)) in *.
  set (m1 := set_req_to_blocks _ (g_mgr s)).
  assert (Forall (in_pool (g_pool s)) kh) as Hkh by (by apply Forall_drop).
  assert (wp (if mgr_enable_caching (g_mgr s) then on_pool (touch kh)
              else assert (bool_decide (kh = [])))
    (λ _ s', ∃ p', s' = mkGroup p' m1 ∧ touched (g_pool s) l kh p') (mkGroup (g_pool s) m1)) as Htouch.
  { destruct (mgr_enable_caching (g_mgr s)).
    - apply wp_on_pool. simpl. eapply wp_mono; [apply touch_spec; [apply H|done]|]. simpl. eauto.
    - assert (kh = []) as E by (unfold kh, kept_hits; rewrite Hcach by done; apply drop_nil).
      rewrite E. apply wp_assert; [done|]. exists (g_pool s). split; [done|].
      split_and!; try done.
      + rewrite filter_not_elem_nil. apply H.
      + intros r. rewrite occ_nil. lia. }
  eapply wp_mono; [exact Htouch|]. simpl.
  intros _ s2 (p' & -> & (Hinv' & Hc' & Hh' & _ & Hrc')). clear Htouch.
  unfold set_req_blocks, self, update_self. wp_steps. simpl.
  assert (null_block p' = null_block (g_pool s)) as Hnb by apply Hc'.
  set (bs' := replicate _ (null_block p') ++ kh).
  assert (group_inv F (mkGroup p' (set_req_to_blocks
    (<[id := bs']> (req_to_blocks (g_mgr s))) (g_mgr s))) (filter (.∉ kh) l)) as Hg.
  { apply group_inv_table with l; try done.
    - apply Forall_app. split.
      + apply Forall_replicate. rewrite (inv_null _ _ _ Hinv'). exists 0%nat. split; [done|].
        apply (inv_size _ _ _ Hinv').
      + eapply Forall_impl; [done|]. intros b Hb. by eapply in_pool_conf.
    - intros r Hr. rewrite Hrc', Hnew, occ_nil. unfold bs'. rewrite occ_app.
      assert (occ r (replicate (Z.to_nat (skipped_blocks (g_mgr s) (loc + ext))) (null_block p')) = 0)
        as ->; [|lia].
      apply occ_not_elem. intros [E _]%elem_of_replicate. rewrite E in Hr.
      destruct Hr as (i & E' & ? & _). rewrite (inv_null _ _ _ Hinv') in E'. simplify_eq. lia.
    - intros i b Hib. congruence. }
  assert (∀ m2 nc, kv_cache_spec m2 = kv_cache_spec (g_mgr s) → block_size m2 = block_size (g_mgr s) →
    req_to_blocks m2 = <[id := bs']> (<[id := []]> (req_to_blocks (g_mgr s))) →
    num_cached_block m2 = <[id := nc]> (num_cached_block (g_mgr s)) →
    (_has_partial_local_hit (g_mgr s) ncb loc = false → nc = zlen bs') →
    group_inv F (mkGroup p' m2) (filter (.∉ kh) l) →
    (is_Some (_partial_hit_reqs m2 !! id) → _has_partial_local_hit (g_mgr s) ncb loc = true) →
    (_has_partial_local_hit (g_mgr s) ncb loc = false →
       _partial_hit_reqs m2 = _partial_hit_reqs (g_mgr s)) →
    _pending_cow_copies m2 = _pending_cow_copies (g_mgr s) →
    admitted F s l id ncb loc ext (mkGroup p' m2)) as Hfin.
  { intros m2 nc E1 E2 E3 E4 En Hg2 Hpt Hsp Hpc. split; simpl; try done.
    - unfold table. rewrite E3, lookup_insert_eq. simpl. unfold bs'. by rewrite Hnb.
    - intros id' Hne. unfold table. by rewrite E3, !lookup_insert_ne.
    - by rewrite E4, lookup_insert_eq.
    - intros Hnp. rewrite E4, (En Hnp). unfold table. by rewrite E3, lookup_insert_eq.
    - intros id' Hne. simpl. by rewrite E4, lookup_insert_ne. }
  rewrite insert_insert_eq in *.
  assert (∀ nc, group_inv F (mkGroup p' (set_num_cached_block nc (set_req_to_blocks
    (<[id := bs']> (req_to_blocks (g_mgr s))) m1))) (filter (.∉ kh) l)) as Hg'.
  { intros nc. eapply group_inv_core; [|exact Hg]. done. }
  destruct (last kh) as [b|] eqn:Elast.
  - apply wp_when; intros Hpart; wp_steps; simpl.
    + assert (_has_partial_local_hit (g_mgr s) ncb loc = true) as Hpart'.
      { unfold _has_partial_local_hit in *. bool_hyps. apply andb_true_iff.
        split; [|by apply negb_true_iff, Z.eqb_neq].
        apply kept_hits_last in Elast. destruct ncb; [done|]. apply Z.ltb_lt. rewrite zlen_cons.
        pose proof (zlen_nonneg ncb). lia. }
      eapply Hfin; [done|done|done|simpl; by rewrite insert_insert_eq|congruence| |done|congruence|done].
      * eapply group_inv_partial; [exact Hg|done|..].
        -- unfold _has_partial_local_hit in Hpart. bool_hyps.
           eapply usable_conf; [exact Hc'|]. apply Htail; [done|].
           by eapply kept_hits_last.
        -- apply Z.div_pos; lia.
        -- unfold _has_partial_local_hit in Hpart. bool_hyps.
           unfold table. simpl. rewrite lookup_insert_eq. by apply partial_tail_index.
    + eapply Hfin; [done|done|done|done|done|apply Hg'| |done|done].
      simpl. rewrite Hph. by intros [? ?].
  - wp_steps. eapply Hfin; [done|done|done|done|done|apply Hg'| |done|done].
    simpl. rewrite Hph. by intros [? ?].
Qed.

(** ** External tokens *)

Definition external_demand (m : Manager) id (loc ext : Z) : Z :=
  let total := loc + ext in
  let skipped := get_num_skipped_tokens (mgr_kind m) total in
  let ext' := if 0 <? skipped then Z.min (total - skipped) ext else ext in
  if ext' <=? 0 then 0 else cdiv total (block_size m) - zlen (table m id).

Lemma external_spec F s l id loc ext :
  group_inv F s l → is_attention (mgr_kind (g_mgr s)) = true →
  0 ≤ external_demand (g_mgr s) id loc ext ≤ zlen l →
  wp (allocate_external_computed_blocks use_int id loc ext)
    (λ _ s', ∃ xs, zlen xs = external_demand (g_mgr s) id loc ext
       ∧ xs = take (Z.to_nat (external_demand (g_mgr s) id loc ext)) l
       ∧ group_inv F s' (drop (Z.to_nat (external_demand (g_mgr s) id loc ext)) l)
       ∧ grown s id xs s' ∧ _partial_hit_reqs (g_mgr s') = _partial_hit_reqs (g_mgr s)) s.
Proof.
  intros H Hatt Hdem. unfold allocate_external_computed_blocks, self. wp_steps. simpl.
  rewrite dispatch_attention by done.
  unfold base_allocate_external_computed_blocks, self. wp_steps. simpl.
  unfold external_demand in *. simpl in *. set (ext' := if _ <? _ then _ else _) in *.
  destruct (ext' <=? 0).
  - wp_steps. exists []. rewrite drop_0. split_and!; try done.
    split_and!; try done; [by rewrite app_nil_r|]. split; [done|]. by intros _ r ?%elem_of_nil.
  - apply wp_bind. eapply wp_mono; [apply req_blocks_spec|]. simpl. intros bs s1 (-> & ->).
    pose proof (group_inv_read F s l id H) as H1. set (s1 := mkGroup _ _) in *.
    assert (∀ id', table (g_mgr s1) id' = table (g_mgr s) id') as Hts.
    { intros id'. unfold table. simpl. rewrite lookup_insert. case_decide as E; [|done].
      rewrite <-E. unfold table. done. }
    set (n := cdiv _ _ - _) in *.
    pose proof (extend_spec use_int F s1 l id n (_record_new_block_ids (g_mgr s)) H1 Hdem) as Hext.
    rewrite Hts in Hext. eapply wp_mono; [exact Hext|]. simpl.
    intros _ s' (xs & Hlen & Htake & Hg & (Hc & E1 & E2 & E3 & E4 & Ht & Ho & Hrec) & Hph).
    exists xs. split_and!; try done. split_and!; try done.
    + by rewrite Ht, Hts.
    + intros id' Hne. by rewrite Ho, Hts.
Qed.

(** ** The prediction *)

Definition predicted (m : Manager) l ncb (num_tokens loc ext : Z) : Z :=
  Z.max (cdiv num_tokens (block_size m) - Z.max (skipped_blocks m (loc + ext)) (zlen ncb)) 0
  + (if _has_partial_local_hit m ncb loc then 1 else 0)
  + zlen (filter (.∈ l) (kept_hits m ncb (loc + ext))).

Lemma get_num_new_spec F s l id ncb (num_tokens loc ext main : Z) :
  group_inv F s l → hits_ok s id ncb loc ext →
  wp (get_num_blocks_to_allocate id num_tokens ncb (loc + ext) loc main false)
    (λ n s', s' = s ∧ n = predicted (g_mgr s) l ncb num_tokens loc ext) s.
Proof.
  intros H [[Hatt Hkok] (Hnew & Hnc & Hph) Hpool Hcach [Hloc Hext] Hlen Htail].
  pose proof (gi_bsz _ _ _ H) as Hbsz.
  pose proof (skipped_bounds _ (loc + ext) Hkok Hatt ltac:(lia)) as Hskt.
  assert (0 ≤ skipped_blocks (g_mgr s) (loc + ext)) as Hsk by (apply Z.div_pos; lia).
  unfold get_num_blocks_to_allocate, self. wp_steps. simpl.
  assert (∀ a b : M GroupState Z, match mgr_kind (g_mgr s) with MambaSpec _ _ _ => a | _ => b end = b)
    as -> by (intros; by destruct (mgr_kind (g_mgr s))).
  unfold base_get_num_blocks_to_allocate, self. wp_steps. simpl. rewrite Hnc.
  fold (table (g_mgr s) id). rewrite Hnew. rewrite zlen_nil.
  fold (skipped_blocks (g_mgr s) (loc + ext)).
  rewrite Z.sub_0_r, Z.add_0_r, (Z.max_r 0) by lia.
  fold (kept_hits (g_mgr s) ncb (loc + ext)).
  apply wp_bind, wp_on_pool. eapply wp_mono; [apply (evictable_spec _ l); [apply H|by apply Forall_drop]|].
  simpl. intros n p' [-> ->]. wp_steps. split; [by destruct s|]. unfold predicted.
  destruct (_max_admission_blocks_per_request (g_mgr s)), (_has_partial_local_hit (g_mgr s) ncb loc); lia.
Qed.

(** ** Admission *)

Lemma admission_spec F s l id ncb (num_tokens loc ext main : Z) :
  group_inv F s l → hits_ok s id ncb loc ext → loc + ext ≤ num_tokens →
  predicted (g_mgr s) l ncb num_tokens loc ext ≤ zlen l →
  wp (add_local_computed_blocks id ncb loc ext;;
      allocate_external_computed_blocks use_int id loc ext;;
      allocate_new_blocks use_int id num_tokens main)
    (λ _ s', ∃ l', group_inv F s' l'
       ∧ zlen (table (g_mgr s') id) = cdiv num_tokens (block_size (g_mgr s))
       ∧ _partial_hit_reqs (g_mgr s') !! id = None
       ∧ (_has_partial_local_hit (g_mgr s) ncb loc = false →
          replicate (Z.to_nat (skipped_blocks (g_mgr s) (loc + ext))) (null_block (g_pool s))
            ++ kept_hits (g_mgr s) ncb (loc + ext) `prefix_of` table (g_mgr s') id)
       ∧ (∀ id', id' ≠ id → table (g_mgr s') id' = table (g_mgr s) id')) s.
Proof.
  intros H Hok Hle Hpred. pose proof Hok as [[Hatt Hkok] _ _ _ [Hloc Hext] Hlen _].
  pose proof (gi_bsz _ _ _ H) as Hbsz.
  pose proof (skipped_bounds _ (loc + ext) Hkok Hatt ltac:(lia)) as Hskt.
  assert (0 ≤ skipped_blocks (g_mgr s) (loc + ext)
    ≤ cdiv (loc + ext) (block_size (g_mgr s))) as Hsk.
  { split; [apply Z.div_pos; lia|]. etrans; [|apply cdiv_div_le; done].
    apply Z.div_le_mono; lia. }
  pose proof (cdiv_mono _ Hbsz loc (loc + ext) ltac:(lia)) as Hcl.
  pose proof (cdiv_mono _ Hbsz (loc + ext) num_tokens Hle) as Hct.
  set (sk := skipped_blocks (g_mgr s) (loc + ext)) in *.
  set (kh := kept_hits (g_mgr s) ncb (loc + ext)) in *.
  assert (zlen kh = Z.max 0 (zlen ncb - sk)) as Hkl.
  { unfold kh, kept_hits, zlen. rewrite length_drop. fold sk. lia. }
  pose proof (touch_consumes l kh (inv_nodup _ _ _ (gi_pool _ _ _ H))) as Htc.
  unfold predicted in Hpred. fold sk kh in Hpred.
  apply wp_bind. eapply wp_mono; [by apply add_local_spec|]. simpl.
  intros _ s1 [Hg1 Hc1 Hs1 Hb1 Ht1 Ho1 _ Hp1 _ _ _ _ _]. fold sk kh in Hg1, Ht1.
  assert (zlen (table (g_mgr s1) id) = Z.max sk (zlen ncb)) as Hl1.
  { rewrite Ht1, zlen_app, Hkl. unfold zlen at 1. rewrite length_replicate. lia. }
  assert (mgr_kind (g_mgr s1) = mgr_kind (g_mgr s)) as Hk1 by (unfold mgr_kind; by rewrite Hs1).
  assert (external_demand (g_mgr s1) id loc ext = 0
    ∨ external_demand (g_mgr s1) id loc ext = cdiv (loc + ext) (block_size (g_mgr s)) - Z.max sk (zlen ncb))
    as Hed.
  { unfold external_demand. rewrite Hb1, Hl1. simpl. destruct (_ <=? 0); [by left|by right]. }
  set (l1 := filter (.∉ kh) l) in *.
  set (pt := if _has_partial_local_hit (g_mgr s) ncb loc then 1 else 0) in *.
  assert (0 ≤ pt) as Hpt by (unfold pt; by destruct (_has_partial_local_hit _ _ _)).
  pose proof (zlen_nonneg l1).
  apply wp_bind. eapply wp_mono; [apply (external_spec F s1 l1); [done|by rewrite Hk1|lia]|].
  simpl. intros _ s2 (xs & Hlx & _ & Hg2 & (Hc2 & Hs2 & Hb2 & _ & _ & Ht2 & Ho2 & _) & Hp2).
  set (e := external_demand (g_mgr s1) id loc ext) in *.
  assert (zlen (table (g_mgr s2) id) = Z.max sk (zlen ncb) + e) as Hl2.
  { rewrite Ht2, zlen_app, Hl1. lia. }
  assert (zlen (drop (Z.to_nat e) l1) = zlen l1 - e) as Hl3.
  { unfold zlen in *. rewrite length_drop. lia. }
  unfold allocate_new_blocks, self. wp_steps. simpl.
  assert (mgr_kind (g_mgr s2) = mgr_kind (g_mgr s)) as Hk2 by (unfold mgr_kind; by rewrite Hs2, Hs1).
  assert (∀ a b : M GroupState (list ref),
    match mgr_kind (g_mgr s2) with MambaSpec _ _ _ => a | _ => b end = b) as ->
    by (intros; rewrite Hk2; by destruct (mgr_kind (g_mgr s))).
  assert (new_demand (g_mgr s2) id num_tokens ≤ pt + (cdiv num_tokens (block_size (g_mgr s)) - Z.max sk (zlen ncb) - e)) as Hnd.
  { unfold new_demand. rewrite Hb2, Hb1, Hl2. case_decide as Hph.
    - rewrite Hp2 in Hph. unfold pt. rewrite (Hp1 Hph). lia.
    - lia. }
  assert (new_demand (g_mgr s2) id num_tokens ≤ zlen (drop (Z.to_nat e) l1)) as Hnl.
  { etrans; [exact Hnd|]. rewrite Hl3. clear -Hpred Htc. clearbody pt e sk l1. lia. }
  eapply wp_mono; [apply (allocate_new_blocks_spec use_int F s2 _ id num_tokens main Hg2 Hnl)|].
  simpl. intros res s3 [[Hg3 Hc3 Hs3 Hb3 Hl4 Ho3 Hp3 _ Ht3 _ _] _]. eexists. split_and!; [done| | | |].
  - rewrite Hl4, Hb2, Hb1, Hl2. lia.
  - by rewrite Hp3, lookup_delete_eq.
  - intros Hnp. rewrite Ht3, Ht2, Ht1.
    + rewrite <-(assoc_L (++) _ xs). by apply prefix_app_r.
    + rewrite Hp2. apply eq_None_not_Some. intros Hs. by rewrite (Hp1 Hs) in Hnp.
  - intros id' Hne. by rewrite Ho3, Ho2, Ho1.
Qed.
End admission.
