(* ===== verification/ReleaseFacts.v ===== *)
(** Releasing blocks: freeing a request, dropping the blocks that left the attention window,
    and registering full blocks keep the reference accounting, and the window is never cut
    into. *)

From S2P Require Import Prelude MathUtils Request BlockHash BlockHashFacts FreeQueue.
From S2P Require Import FreeQueueFacts BlockPool BlockPoolFacts BlockPoolSpec BlockPoolTheorems.
From S2P Require Import Managers ManagerFacts AllocationFacts.

Set Warnings "-level-tolerance,-clear-no-such-hyp".

Section release.
Implicit Types (F : ref → Z) (s : GroupState) (l bs : list ref) (id : string) (r : ref).

(** The references a table holds may be dropped. *)
Lemma table_held F s l id bs :
  group_inv F s l → (∀ r, usable (g_pool s) r → occ r bs ≤ occ r (table (g_mgr s) id)) →
  Forall (in_pool (g_pool s)) bs → held (g_pool s) bs.
Proof.
  intros H Hle Hin. split; [done|]. intros r Hr. rewrite (gi_refs _ _ _ H r Hr).
  pose proof (gi_frame _ _ _ H r). pose proof (table_refs_le (req_to_blocks (g_mgr s)) id r) as Ht.
  pose proof (pend_refs_nonneg (_pending_cow_copies (g_mgr s)) r). specialize (Hle r Hr).
  unfold mgr_refs, table in *. lia.
Qed.

Lemma occ_rev r bs : occ r (rev bs) = occ r bs.
Proof.
  unfold occ, zlen. f_equal. apply Permutation_length, filter_Permutation.
  symmetry. apply Permutation_rev.
Qed.

(** ** Freeing a request *)

(** The bookkeeping of [id] is gone, the other tables are unchanged. *)
Definition forgot s id s' : Prop :=
  req_to_blocks (g_mgr s') = delete id (req_to_blocks (g_mgr s))
  ∧ num_cached_block (g_mgr s') = delete id (num_cached_block (g_mgr s))
  ∧ _partial_hit_reqs (g_mgr s') = delete id (_partial_hit_reqs (g_mgr s))
  ∧ kv_cache_spec (g_mgr s') = kv_cache_spec (g_mgr s)
  ∧ block_size (g_mgr s') = block_size (g_mgr s)
  ∧ _pending_cow_copies (g_mgr s') = _pending_cow_copies (g_mgr s).

Lemma pop_blocks_spec s id :
  wp (pop_blocks_for_free id) (λ bs s', bs = table (g_mgr s) id ∧ g_pool s' = g_pool s
    ∧ forgot s id s') s.
Proof.
  unfold pop_blocks_for_free, self, update_self. wp_steps. simpl.
  apply wp_when; intros _; wp_steps; simpl; done.
Qed.

Lemma free_spec F s l id :
  group_inv F s l →
  wp (free id) (λ _ s', forgot s id s' ∧ same_conf (g_pool s) (g_pool s')
    ∧ same_hashes (g_pool s) (g_pool s')
    ∧ group_inv F s' (freed_first (g_pool s) (rev (table (g_mgr s) id)) ++ l
                      ++ freed_last (g_pool s) (rev (table (g_mgr s) id)))) s.
Proof.
  intros H. unfold free. apply wp_bind. eapply wp_mono; [apply pop_blocks_spec|]. simpl.
  intros bs s1 (-> & Hp & Hfg). apply wp_on_pool. rewrite Hp.
  assert (held (g_pool s) (rev (table (g_mgr s) id))) as Hheld.
  { apply table_held with F l id; [done| |].
    - intros r _. by rewrite occ_rev.
    - apply Forall_rev, H. }
  eapply wp_mono; [apply free_blocks_spec; [apply H|done]|]. simpl.
  intros _ p' (Hinv & Hc & Hh & _ & Hrc). split_and!; try done.
  pose proof Hfg as (E1 & E2 & E3 & E4 & E5 & E6).
  destruct H as [H1 H2 H3 H4 H5 H6]. split; simpl; try done.
  - by rewrite E5.
  - intros id'. unfold table. rewrite E1, lookup_delete. case_decide; [constructor|].
    eapply Forall_impl; [apply H3|]. intros b Hb. by eapply in_pool_conf.
  - intros r Hr. rewrite Hrc, occ_rev. unfold mgr_refs. rewrite E1, E6, table_refs_delete.
    fold (table (g_mgr s) id). rewrite H4; [unfold mgr_refs; lia|].
    eapply usable_conf; [symmetry; exact Hc|done].
  - intros id' i b. rewrite E3, lookup_delete_Some. intros [Hne Hib].
    destruct (H6 id' i b Hib) as (Hu & Hi & Hl).
    split_and!; [by eapply usable_conf|done|]. unfold table. by rewrite E1, lookup_delete_ne.
Qed.

(** ** Dropping a range of blocks *)

(** [bs'] is [bs] with some positions of [[lo, hi)] nulled; [freed] are the blocks that
    were there. *)
Record nulled (null : ref) (lo hi : Z) bs freed bs' : Prop := {
  nl_len : length bs' = length bs;
  nl_keep : ∀ i : nat, ¬ (lo ≤ Z.of_nat i < hi) → bs' !! i = bs !! i;
  nl_range : ∀ (i : nat) b, bs' !! i = Some b → b = null ∨ bs !! i = Some b;
  nl_occ : ∀ r, r ≠ null → occ r bs = occ r bs' + occ r freed;
  nl_freed : ∀ r, r ∈ freed → r ∈ bs ∧ r ≠ null;
}.

Lemma nulled_refl null lo hi bs : nulled null lo hi bs [] bs.
Proof.
  split; try done; [naive_solver| |by intros r ?%elem_of_nil].
  intros r _. rewrite occ_nil. lia.
Qed.

Lemma py_range_down_snoc (a b : Z) : a < b → py_range_down a b = (b - 1) :: py_range_down a (b - 1).
Proof.
  intros Hab. unfold py_range_down. replace b with (b - 1 + 1) at 1 by lia.
  rewrite py_range_snoc by lia. by rewrite rev_app_distr.
Qed.

Lemma remove_loop_spec null (lo hi : Z) bs :
  0 ≤ lo → hi ≤ zlen bs →
  ∃ freed bs', remove_loop null (py_range_down lo hi) bs = inr (freed, bs')
    ∧ nulled null lo hi bs freed bs'.
Proof.
  intros Hlo. remember (Z.to_nat (hi - lo)) as n eqn:En. revert hi bs En.
  induction n as [|n IH]; intros hi bs En Hhi.
  - exists [], bs. unfold py_range_down. rewrite py_range_nil by lia.
    split; [done|apply nulled_refl].
  - rewrite py_range_down_snoc by lia. simpl.
    destruct (lookup_lt_is_Some_2 bs (Z.to_nat (hi - 1))) as [b Hb]; [unfold zlen in *; lia|].
    destruct (py_get_some bs (hi - 1) b) as (_ & _ & Hidx); [lia|done|].
    rewrite Hidx. simpl. rewrite Hb. simpl. case_decide as Hnull.
    { exists [], bs. split; [done|apply nulled_refl]. }
    destruct (IH (hi - 1) (<[Z.to_nat (hi - 1) := null]> bs)) as (fr & bs' & E & Hn);
      [lia|unfold zlen in *; rewrite length_insert; lia|].
    rewrite E. simpl. exists (b :: fr), bs'. split; [done|].
    destruct Hn as [N1 N2 N3 N4 N5]. split.
    + by rewrite N1, length_insert.
    + intros i Hi. rewrite N2 by lia. rewrite list_lookup_insert_ne; [done|lia].
    + intros i c Hc. destruct (N3 i c Hc) as [?|Hc']; [by left|].
      apply list_lookup_insert_Some in Hc' as [(? & ? & _)|[_ ?]]; [by left|by right].
    + intros r Hr. specialize (N4 r Hr). rewrite (occ_insert _ _ _ _ _ Hb) in N4.
      rewrite (occ_cons r b fr). rewrite !(occ_cons _ _ []), occ_nil in N4.
      rewrite (decide_False (P := null = r)) in N4 by done. lia.
    + intros r [->|Hr]%elem_of_cons.
      * split; [by eapply list_elem_of_lookup_2|done].
      * destruct (N5 r Hr) as [Hin Hne]. split; [|done].
        apply list_elem_of_lookup in Hin as [i Hi].
        apply list_lookup_insert_Some in Hi as [(_ & E' & _)|[_ Hi]]; [by destruct Hne|].
        by eapply list_elem_of_lookup_2.
Qed.

(** A table whose blocks in a range were released. *)
Definition cut s id (lo hi : Z) s' : Prop :=
  same_conf (g_pool s) (g_pool s') ∧ same_hashes (g_pool s) (g_pool s')
  ∧ zlen (table (g_mgr s') id) = zlen (table (g_mgr s) id)
  ∧ (∀ i : nat, ¬ (lo ≤ Z.of_nat i < hi) → table (g_mgr s') id !! i = table (g_mgr s) id !! i)
  ∧ (∀ (i : nat) b, table (g_mgr s') id !! i = Some b →
       b = null_block (g_pool s) ∨ table (g_mgr s) id !! i = Some b)
  ∧ (∀ id', id' ≠ id → table (g_mgr s') id' = table (g_mgr s) id')
  ∧ _pending_cow_copies (g_mgr s') = _pending_cow_copies (g_mgr s)
  ∧ block_size (g_mgr s') = block_size (g_mgr s)
  ∧ _partial_hit_reqs (g_mgr s') = _partial_hit_reqs (g_mgr s)
  ∧ num_cached_block (g_mgr s') = num_cached_block (g_mgr s).

Lemma cut_refl s id lo hi : cut s id lo hi s.
Proof. split_and!; try done. naive_solver. Qed.

Lemma usable_not_null p l r : pool_inv p l → usable p r → r ≠ null_block p.
Proof.
  intros Hinv (i & -> & ? & _). rewrite (inv_null _ _ _ Hinv). intros [= ->]. lia.
Qed.

Lemma cut_step F s l id (lo hi : Z) freed bs' p' l' :
  group_inv F s l → _partial_hit_reqs (g_mgr s) !! id = None →
  nulled (null_block (g_pool s)) lo hi (table (g_mgr s) id) freed bs' →
  pool_inv p' l' → same_conf (g_pool s) p' → same_hashes (g_pool s) p' →
  (∀ r, rc p' r = rc (g_pool s) r - occ r freed) →
  let s' := mkGroup p' (set_req_to_blocks (<[id := bs']> (req_to_blocks (g_mgr s))) (g_mgr s)) in
  group_inv F s' l' ∧ cut s id lo hi s'.
Proof.
  intros H Hph [N1 N2 N3 N4 N5] Hinv Hc Hh Hrc s'. split.
  - apply group_inv_table with l; try done.
    + apply Forall_lookup_2. intros i b Hb. destruct (N3 i b Hb) as [->|Hb'].
      * eapply in_pool_conf; [done|]. rewrite (inv_null _ _ _ (gi_pool _ _ _ H)). exists 0%nat.
        split; [done|]. apply (inv_size _ _ _ (gi_pool _ _ _ H)).
      * eapply in_pool_conf; [done|]. eapply Forall_lookup_1; [apply H|done].
    + intros r Hr. rewrite Hrc, (N4 r); [lia|].
      assert (null_block (g_pool s) = null_block p') as -> by (symmetry; apply Hc).
      by eapply usable_not_null.
    + intros i b Hib. congruence.
  - assert (table (g_mgr s') id = bs') as Ht by (unfold table; simpl; by rewrite lookup_insert_eq).
    split_and!; try done.
    + rewrite Ht. unfold zlen. by rewrite N1.
    + intros i Hi. rewrite Ht. by apply N2.
    + intros i b. rewrite Ht. apply N3.
    + intros id' Hne. unfold table. simpl. by rewrite lookup_insert_ne.
Qed.

Lemma remove_range_spec F s l id (lo hi : Z) :
  group_inv F s l → _partial_hit_reqs (g_mgr s) !! id = None → 0 ≤ lo →
  wp (_remove_blocks_in_range id lo hi)
    (λ _ s', ∃ l', group_inv F s' l' ∧ cut s id lo hi s') s.
Proof.
  intros H Hph Hlo. unfold _remove_blocks_in_range, self. wp_steps. simpl.
  destruct (req_to_blocks (g_mgr s) !! id) as [bs|] eqn:Et.
  2: { wp_steps. exists l. split; [done|apply cut_refl]. }
  destruct (Z.leb_spec hi lo); [wp_steps; exists l; split; [done|apply cut_refl]|].
  assert (table (g_mgr s) id = bs) as Htb by (unfold table; by rewrite Et).
  destruct (remove_loop_spec (null_block (g_pool s)) lo (Z.min hi (zlen bs)) bs)
    as (freed & bs' & E & Hn); [done|lia|].
  assert (nulled (null_block (g_pool s)) lo hi (table (g_mgr s) id) freed bs') as Hn'.
  { rewrite Htb. destruct Hn as [N1 N2 N3 N4 N5]. split; try done.
    intros i Hi. destruct (decide (Z.of_nat i < zlen bs)); [apply N2; lia|].
    rewrite !lookup_ge_None_2 by (unfold zlen in *; lia). done. }
  wp_steps. eapply wp_lift_result; [exact E|]. unfold set_req_blocks, self, update_self.
  wp_steps. simpl. case_decide as Hfr.
  - wp_steps. subst freed.
    destruct (cut_step F s l id lo hi [] bs' (g_pool s) l H Hph Hn') as [? ?]; try done; [apply H| |].
    + intros r. rewrite occ_nil. lia.
    + eauto.
  - apply wp_on_pool. simpl.
    eapply wp_mono; [apply (free_blocks_spec (g_pool s) l freed); [apply H|]|].
    + apply table_held with F l id; [done| |].
      * intros r Hr. rewrite (nl_occ _ _ _ _ _ _ Hn' r).
        -- pose proof (occ_nonneg r bs'). lia.
        -- by eapply usable_not_null; [apply H|].
      * apply Forall_forall. intros r Hr. apply (nl_freed _ _ _ _ _ _ Hn') in Hr as [Hr _].
        pose proof (gi_tables _ _ _ H id) as Hall. rewrite Forall_forall in Hall. by apply Hall.
    + simpl. intros _ p' (Hinv & Hc & Hh & _ & Hrc). eexists.
      by apply (cut_step F s l id lo hi freed bs' p' _ H Hph Hn').
Qed.

(** ** Leaving the attention window *)

Lemma cut_read F s l id (lo hi : Z) s' :
  let s1 := mkGroup (g_pool s) (set_req_to_blocks
    (<[id := table (g_mgr s) id]> (req_to_blocks (g_mgr s))) (g_mgr s)) in
  cut s1 id lo hi s' → cut s id lo hi s'.
Proof.
  intros s1 (? & ? & ? & ? & ? & ? & ? & ? & ? & ?).
  assert (∀ id', table (g_mgr s1) id' = table (g_mgr s) id') as Ht.
  { intros id'. unfold table. simpl. rewrite lookup_insert. case_decide as E; [|done].
    rewrite <-E. unfold table. done. }
  rewrite !Ht in *. split_and!; try done. intros id' Hne. rewrite <-Ht. auto.
Qed.

Lemma remove_skipped_spec F s l id (processed : Z) (np : option Z) :
  group_inv F s l → is_attention (mgr_kind (g_mgr s)) = true → kind_ok (mgr_kind (g_mgr s)) →
  (∀ w, mgr_kind (g_mgr s) = RSWASpec w → np = None) →
  _partial_hit_reqs (g_mgr s) !! id = None → 0 ≤ processed →
  wp (remove_skipped_blocks id processed np)
    (λ _ s', ∃ l', group_inv F s' l' ∧ cut s id 0 (skipped_blocks (g_mgr s) processed) s') s.
Proof.
  intros H Hatt Hkok Hnr Hph Hproc. pose proof (gi_bsz _ _ _ H) as Hbsz.
  assert (wp (base_remove_skipped_blocks id processed)
    (λ _ s', ∃ l', group_inv F s' l' ∧ cut s id 0 (skipped_blocks (g_mgr s) processed) s') s) as Hbase.
  { unfold base_remove_skipped_blocks, self. wp_steps. simpl.
    destruct (_ <=? 0); [wp_steps; exists l; split; [done|apply cut_refl]|].
    apply wp_bind. eapply wp_mono; [apply req_blocks_spec|]. simpl. intros bs s1 (-> & ->).
    eapply wp_mono; [apply (remove_range_spec F _ l id 0); [by apply group_inv_read|done|lia]|].
    simpl. intros _ s' (l' & Hg & Hcut%(cut_read F s l)). exists l'. split; [done|].
    fold (skipped_blocks (g_mgr s) processed) in Hcut.
    destruct Hcut as (? & ? & ? & Hk & ? & ? & ? & ? & ? & ?). split_and!; try done.
    intros i Hi. apply Hk. lia. }
  unfold remove_skipped_blocks, self. wp_steps. simpl.
  destruct (mgr_kind (g_mgr s)) as [|w| | | | |] eqn:Ek; try done.
  rewrite (Hnr w eq_refl). done.
Qed.

(** The gap of a reference sliding window. *)
Lemma remove_gap_spec F s l id (processed np w : Z) :
  group_inv F s l → mgr_kind (g_mgr s) = RSWASpec w →
  _partial_hit_reqs (g_mgr s) !! id = None → 0 ≤ np →
  wp (remove_skipped_blocks id processed (Some np))
    (λ _ s', ∃ l', group_inv F s' l'
      ∧ cut s id (cdiv np (block_size (g_mgr s)))
          (Z.max np (processed - w) / block_size (g_mgr s)) s') s.
Proof.
  intros H Ek Hph Hnp. unfold remove_skipped_blocks, self. wp_steps. simpl. rewrite Ek.
  apply (remove_range_spec F s l); [done|done|]. apply cdiv_nonneg; [|done].
  by apply (gi_bsz _ _ _ H).
Qed.

(** The block of token [t] is outside the cut. *)
Lemma cut_window s id (processed t : Z) s' :
  cut s id 0 (skipped_blocks (g_mgr s) processed) s' → 0 < block_size (g_mgr s) → 0 ≤ t →
  get_num_skipped_tokens (mgr_kind (g_mgr s)) processed ≤ t →
  table (g_mgr s') id !! Z.to_nat (t / block_size (g_mgr s))
  = table (g_mgr s) id !! Z.to_nat (t / block_size (g_mgr s)).
Proof.
  intros (_ & _ & _ & Hkeep & _) Hb H0 Ht. apply Hkeep.
  pose proof (Z.div_pos t (block_size (g_mgr s)) H0 Hb).
  rewrite Z2Nat.id by done. unfold skipped_blocks.
  pose proof (Z.div_le_mono _ t (block_size (g_mgr s)) Hb Ht). lia.
Qed.

Lemma cut_gap s id (processed np w t : Z) s' :
  cut s id (cdiv np (block_size (g_mgr s)))
    (Z.max np (processed - w) / block_size (g_mgr s)) s' →
  0 < block_size (g_mgr s) → 0 ≤ t → t < np ∨ processed - w ≤ t →
  table (g_mgr s') id !! Z.to_nat (t / block_size (g_mgr s))
  = table (g_mgr s) id !! Z.to_nat (t / block_size (g_mgr s)).
Proof.
  intros (_ & _ & _ & Hkeep & _) Hb Ht Hin. apply Hkeep.
  pose proof (Z.div_pos t (block_size (g_mgr s)) Ht Hb) as Hd.
  rewrite Z2Nat.id by done. set (b := block_size (g_mgr s)) in *. intros [Hlo Hhi].
  apply (cdiv_le_iff b Hb) in Hlo.
  pose proof (Z.mul_div_le (Z.max np (processed - w)) b Hb).
  pose proof (Z.mul_div_le t b Hb). pose proof (Z.mul_succ_div_gt t b Hb). nia.
Qed.
End release.
