(* ===== verification/HitFacts.v ===== *)
(** Prefix-cache hits: the searches of the attention managers terminate without error, return
    blocks that hold the content of the request's prefix, respect the length limit and the
    alignment, and (for full attention) find the longest such prefix. *)

From S2P Require Import Prelude MathUtils Request BlockHash BlockHashFacts FreeQueue.
From S2P Require Import FreeQueueFacts BlockPool BlockPoolFacts BlockPoolSpec BlockPoolTheorems.
From S2P Require Import Managers ManagerFacts AllocationFacts ReleaseFacts.

Set Warnings "-level-tolerance,-clear-no-such-hyp".

Definition valid_groups (gids : list Z) : Prop := gids ≠ [] ∧ Forall (λ g, 0 ≤ g < 2 ^ 32) gids.

(** The row of blocks a lookup of [h] returns: one per group. *)
Definition row_of (p : BlockPool) (gids : list Z) (h : bytes) : option (list ref) :=
  match get_cached_block_loop (cached_block_hash_to_block p) h gids with
  | inr (Some (b :: bs)) => Some (b :: bs)
  | _ => None
  end.

(** [b] holds the KV of the prefix with hash [h], for group [g]. *)
Definition holds (p : BlockPool) (h : bytes) (g : Z) (b : ref) : Prop :=
  ∃ key, make_block_hash_with_group_id h g = inr key ∧ usable p b ∧ owns p b key.

Lemma holds_blk p h g b : holds p h g b → is_blk b.
Proof. intros (key & _ & (i & -> & _) & _). by exists i. Qed.

Section rows.
Context (p : BlockPool) (l : list ref) (Hinv : pool_inv p l).
Context (gids : list Z) (Hg : valid_groups gids).

Lemma lookup_hit_spec h : lookup_hit h gids p = (inr (row_of p gids h), p).
Proof using Hinv Hg.
  destruct Hg as [Hne Hall].
  destruct (get_cached_block_spec p l h gids Hinv Hall) as (res & p' & E & -> & _).
  unfold lookup_hit, row_of. unfold mbind at 1, M_bind. rewrite E.
  unfold get_cached_block, mbind, M_bind, get, lift_result in E. simplify_eq.
  destruct (get_cached_block_loop _ h gids) as [|[[|]|]]; by simplify_eq.
Qed.

Lemma wp_lookup_hit h Q : Q (row_of p gids h) p → wp (lookup_hit h gids) Q p.
Proof using Hinv Hg. intros HQ. exists (row_of p gids h), p. by rewrite lookup_hit_spec. Qed.

Lemma row_sound h row :
  row_of p gids h = Some row →
  length row = length gids ∧ ∀ i g b, gids !! i = Some g → row !! i = Some b → holds p h g b.
Proof using Hinv Hg.
  intros Hr. destruct Hg as [Hne Hall].
  destruct (get_cached_block_spec p l h gids Hinv Hall) as (res & p' & E & -> & Hres).
  unfold get_cached_block, mbind, M_bind, get, lift_result in E. unfold row_of in Hr.
  destruct (get_cached_block_loop _ h gids) as [|[[|b bs]|]]; simplify_eq.
  split; [symmetry; by eapply Forall2_length|]. intros i g c Hgi Hci.
  destruct (Forall2_lookup_lr _ _ _ _ _ _ Hres Hgi Hci) as (key & ? & ? & ? & _). by exists key.
Qed.

(** A miss: some group has no block for the hash. *)
Lemma row_complete h :
  row_of p gids h = None → ∃ g, g ∈ gids ∧ ∀ b, is_blk b → ¬ holds p h g b.
Proof using Hinv Hg.
  intros Hr. destruct Hg as [Hne Hall].
  destruct (get_cached_block_spec p l h gids Hinv Hall) as (res & p' & E & -> & Hres).
  unfold get_cached_block, mbind, M_bind, get, lift_result in E. unfold row_of in Hr.
  destruct (get_cached_block_loop _ h gids) as [|[[|b bs]|]]; simplify_eq.
  - apply Forall2_nil_inv_r in Hres. done.
  - destruct Hres as (g & key & Hin & Hk & Hno). exists g. split; [done|].
    intros b Hb (key' & Hk' & _ & Ho). rewrite Hk in Hk'. simplify_eq. by eapply Hno.
Qed.

(** A hit: every group has a block for the hash. *)
Lemma row_cached_all h row :
  row_of p gids h = Some row → ∀ g, g ∈ gids → ∃ b, is_blk b ∧ holds p h g b.
Proof using Hinv Hg.
  intros Hr g [i Hi]%list_elem_of_lookup. destruct (row_sound h row Hr) as [Hl Hrow].
  destruct (lookup_lt_is_Some_2 row i) as [b Hb]; [apply lookup_lt_Some in Hi; lia|].
  pose proof (Hrow i g b Hi Hb). exists b. split; [by eapply holds_blk|done].
Qed.

(** ** Tables built row by row *)

(** The columns [cs] are [n] columns, column [i] being [f i]. *)
Lemma append_each_lookup (cs : list (list ref)) (row : list ref) i c b :
  length row = length cs → cs !! i = Some c → row !! i = Some b →
  append_each cs row !! i = Some (c ++ [b]).
Proof using.
  intros Hlen Hc Hb. unfold append_each. rewrite lookup_app_l.
  - rewrite lookup_zip_with, Hc. simpl. by rewrite Hb.
  - rewrite length_zip_with. apply lookup_lt_Some in Hc. lia.
Qed.
Lemma length_append_each (cs : list (list ref)) row :
  length row = length cs → length (append_each cs row) = length cs.
Proof using.
  intros Hlen. unfold append_each. rewrite length_app, length_zip_with, length_drop. lia.
Qed.

(** Column [i] holds the hashes [hs] (one block each), for group [gids !! i]. *)
Definition columns (hs : list bytes) (cs : list (list ref)) : Prop :=
  length cs = length gids
  ∧ ∀ i g c, gids !! i = Some g → cs !! i = Some c → Forall2 (λ h b, holds p h g b) hs c.

Lemma columns_nil : columns [] (replicate (length gids) []).
Proof using.
  split; [apply length_replicate|]. intros i g c _ Hc.
  apply lookup_replicate in Hc as [-> _]. constructor.
Qed.

Lemma columns_snoc hs cs h row :
  columns hs cs → row_of p gids h = Some row → columns (hs ++ [h]) (append_each cs row).
Proof using Hinv Hg.
  intros [Hlen Hc] Hr. destruct (row_sound h row Hr) as [Hrl Hrow].
  split; [rewrite length_append_each; congruence|]. intros i g c' Hgi Hc'.
  destruct (lookup_lt_is_Some_2 cs i) as [c Hci];
    [apply lookup_lt_Some in Hgi; lia|].
  destruct (lookup_lt_is_Some_2 row i) as [b Hbi]; [apply lookup_lt_Some in Hgi; lia|].
  rewrite (append_each_lookup cs row i c b) in Hc' by (done || lia). simplify_eq.
  apply Forall2_app; [by eapply Hc|]. constructor; [by eapply Hrow|constructor].
Qed.

Lemma columns_take hs cs n : columns hs cs → columns (take n hs) (take n <$> cs).
Proof using.
  intros [Hlen Hc]. split; [by rewrite length_fmap|]. intros i g c Hgi Hci.
  rewrite list_lookup_fmap in Hci. destruct (cs !! i) as [c0|] eqn:E; [|done]. simplify_eq/=.
  apply Forall2_take. by eapply Hc.
Qed.

Lemma columns_head hs cs : columns hs cs → ∃ c, head cs = Some c ∧ length c = length hs.
Proof using Hg.
  intros [Hlen Hc]. destruct Hg as [Hne _]. destruct cs as [|c cs]; [by destruct gids|].
  exists c. split; [done|]. destruct gids as [|g gs] eqn:E; [done|].
  symmetry. eapply Forall2_length, (Hc 0%nat); by rewrite ?E.
Qed.

(** The number of leading hashes with a hit in every group. *)
Fixpoint leading (hs : list bytes) : nat :=
  match hs with
  | [] => 0
  | h :: hs' => match row_of p gids h with Some _ => S (leading hs') | None => 0 end
  end.

Lemma leading_le hs : (leading hs ≤ length hs)%nat.
Proof using. induction hs as [|h hs IH]; simpl; [lia|]. case_match; lia. Qed.

Lemma leading_max hs m :
  (m ≤ length hs)%nat → (∀ j h, (j < m)%nat → hs !! j = Some h → is_Some (row_of p gids h)) →
  (m ≤ leading hs)%nat.
Proof using.
  revert m. induction hs as [|h hs IH]; intros m Hm Hall; simpl in *; [done|].
  destruct m as [|m]; [lia|]. destruct (Hall 0%nat h) as [row ->]; [lia|done|].
  apply le_n_S, IH; [lia|]. intros j h' Hj Hh. apply (Hall (S j)); [lia|done].
Qed.

Lemma leading_rows hs j :
  (j < leading hs)%nat → ∃ h row, hs !! j = Some h ∧ row_of p gids h = Some row.
Proof using.
  revert j. induction hs as [|h hs IH]; intros j Hj; simpl in *; [lia|].
  destruct (row_of p gids h) as [row|] eqn:E; [|lia].
  destruct j as [|j]; [by exists h, row|]. apply IH. lia.
Qed.

Lemma full_run_spec hs pre cs :
  columns pre cs →
  wp (full_run hs gids cs) (λ cs' p', p' = p ∧ columns (pre ++ take (leading hs) hs) cs') p.
Proof using Hinv Hg.
  revert pre cs. induction hs as [|h hs IH]; intros pre cs Hc; simpl.
  { wp_steps. rewrite app_nil_r. done. }
  apply wp_bind, wp_lookup_hit. destruct (row_of p gids h) as [row|] eqn:Hr; simpl.
  - eapply wp_mono; [apply (IH (pre ++ [h])); by apply columns_snoc|]. simpl.
    intros cs' p' [-> Hc']. split; [done|]. by rewrite <-(assoc_L (++)) in Hc'.
  - wp_steps. rewrite app_nil_r. done.
Qed.
End rows.

(** ** Full attention *)

Lemma resolve_coarse hs hbs bsz sup al :
  bsz ≤ al → resolve_block_hashes (RawHashes hs) hbs bsz sup (Some al)
             = resolve_block_hashes (RawHashes hs) hbs bsz false None.
Proof.
  intros H. unfold resolve_block_hashes. destruct (bsz =? hbs); [done|].
  rewrite (proj2 (Z.ltb_ge al bsz)) by done. simpl. by rewrite andb_false_r.
Qed.

Lemma bhl_iter_spec hbs k hs v :
  0 < hbs → 0 < k → resolve_block_hashes (RawHashes hs) hbs (k * hbs) false None = inr v →
  ∃ it, bhl_iter v = Some it ∧ zlen it = zlen hs / k
    ∧ ∀ j h, it !! j = Some h → hs !! Z.to_nat ((Z.of_nat j + 1) * k - 1) = Some h.
Proof.
  intros Hhbs Hk Hv.
  destruct (bhl_from_spec hbs k hs v 0 Hhbs Hk ltac:(lia) Hv) as (it & Hit & Hl).
  assert (zlen it = zlen hs / k) as Hlen.
  { unfold bhl_iter in *. destruct (view_cases _ _ _ _ Hhbs Hk Hv) as [[-> ->]| ->]; simpl in Hit.
    - simplify_eq. by rewrite Z.div_1_r.
    - apply length_mapM in Hit. unfold zlen at 1. rewrite <-Hit, length_py_range.
      pose proof (Z.div_pos (zlen hs) k (zlen_nonneg hs) Hk). lia. }
  exists it. split_and!; [done..|]. intros j h Hj. rewrite <-Hj. symmetry.
  replace (Z.of_nat j + 1) with (0 + Z.of_nat j + 1) by lia. apply Hl.
  apply lookup_lt_Some in Hj. pose proof (Z.mul_div_le (zlen hs) k Hk). unfold zlen in *. nia.
Qed.

(** The hash of the [j]-th block of [k * hbs] tokens. *)
Definition block_hash_at (hs : list bytes) (k : Z) (j : nat) : option bytes :=
  hs !! Z.to_nat ((Z.of_nat j + 1) * k - 1).

(** What a hit of [len] tokens promises: per group one block for each block of the prefix. *)
Definition hit_sound p (gids : list Z) (hs : list bytes) (k bsz : Z) (res : Hit) : Prop :=
  length res.1 = length gids
  ∧ ∀ i g c, gids !! i = Some g → res.1 !! i = Some c →
      zlen c * bsz = res.2
      ∧ ∀ j b, c !! j = Some b → ∃ h, block_hash_at hs k j = Some h ∧ holds p h g b.

(** Every block of the first [len] tokens is cached for every group. *)
Definition prefix_cached p (gids : list Z) (hs : list bytes) (k bsz len : Z) : Prop :=
  ∀ j : nat, Z.of_nat j * bsz < len →
    ∃ h, block_hash_at hs k j = Some h ∧ ∀ g, g ∈ gids → ∃ b, is_blk b ∧ holds p h g b.

(** Decode context parallelism only makes the blocks larger. *)
Lemma full_find_dcp bhs max_length gids spec_bsz drop al dcp :
  1 ≤ dcp → full_find_longest_cache_hit bhs max_length gids spec_bsz drop al dcp
            = full_find_longest_cache_hit bhs max_length gids (spec_bsz * dcp) drop al 1.
Proof.
  intros Hd. unfold full_find_longest_cache_hit. rewrite (proj2 (Z.ltb_ge 1 1)) by lia.
  destruct (Z.ltb_spec 1 dcp); [done|]. replace dcp with 1 by lia. by rewrite Z.mul_1_r.
Qed.

(** The tokens of the block EAGLE drops from a hit. *)
Definition eagle_tokens (drop_eagle_block : bool) (bsz : Z) : Z := if drop_eagle_block then bsz else 0.

Section full.
Context (p : BlockPool) (l : list ref) (Hinv : pool_inv p l).
Context (gids : list Z) (Hg : valid_groups gids).
Context (hs : list bytes) (k c max_length : Z).
Context (Hhbs : 0 < hash_block_size p) (Hk : 0 < k) (Hc : 0 < c) (Hmax : 0 ≤ max_length).

Let bsz := k * hash_block_size p.
Let al := c * bsz.

(** The tokens of the leading run of cached blocks, with EAGLE's block dropped and rounded
    to the alignment. *)
Definition full_hit_length (drop : bool) (n : Z) : Z :=
  round_down (if drop && (0 <? n) then (n - 1) * bsz else n * bsz) al.

Lemma full_find_spec (drop : bool) it v :
  resolve_block_hashes (RawHashes hs) (hash_block_size p) bsz false None = inr v →
  bhl_iter v = Some it →
  let run := take (Z.to_nat (max_length / bsz)) it in
  let hit := full_hit_length drop (Z.of_nat (leading p gids run)) in
  wp (full_find_longest_cache_hit (RawHashes hs) max_length gids bsz drop al 1)
    (λ res p', p' = p ∧ res.2 = hit ∧ 0 ≤ hit ≤ Z.of_nat (leading p gids run) * bsz
       ∧ columns p gids (take (Z.to_nat (hit / bsz)) run) res.1) p.
Proof using Hinv Hg Hhbs Hk Hc Hmax.
  intros Hv Hit run hit. assert (0 < bsz) as Hb by (unfold bsz; nia).
  assert (0 < al) as Hal by (unfold al; nia). assert (bsz ≤ al) as Hba by (unfold al; nia).
  unfold full_find_longest_cache_hit. simpl.
  wp_steps. rewrite resolve_coarse by done. eapply wp_lift_result; [exact Hv|].
  rewrite (proj2 (Z.ltb_ge al bsz)) by done. simpl. wp_steps. rewrite Hit.
  eapply wp_lift_option; [done|]. pose proof (Z.div_pos max_length bsz Hmax Hb).
  rewrite (proj2 (Z.ltb_ge (max_length / bsz) 0)) by done. wp_steps.
  eapply wp_mono; [apply (full_run_spec p l Hinv gids Hg run [] _ (columns_nil p gids))|]. simpl.
  intros cs p' [-> Hcs]. destruct (columns_head p gids Hg _ _ Hcs) as (first & Hf & Hfl).
  wp_steps. rewrite Hf. eapply wp_lift_option; [done|]. wp_steps. simpl.
  assert (zlen first = Z.of_nat (leading p gids run)) as Hzf.
  { unfold zlen. rewrite Hfl, length_take. pose proof (leading_le p gids run). lia. }
  rewrite Hzf, (Z.min_r al bsz) by done. set (n := Z.of_nat (leading p gids run)) in *.
  assert (0 ≤ n) as Hn by (unfold n; lia).
  set (h0 := if drop && (0 <? n * bsz) then n * bsz - bsz else n * bsz).
  assert (h0 = if drop && (0 <? n) then (n - 1) * bsz else n * bsz) as Eh0.
  { unfold h0. destruct drop; simpl; [|done]. destruct (Z.ltb_spec 0 n).
    - rewrite (proj2 (Z.ltb_lt 0 (n * bsz))) by nia. lia.
    - rewrite (proj2 (Z.ltb_ge 0 (n * bsz))) by nia. done. }
  assert (h0 - h0 mod al = hit) as Ehit.
  { unfold hit, full_hit_length. rewrite <-Eh0. unfold round_down.
    pose proof (Z.div_mod h0 al ltac:(lia)). lia. }
  assert (0 ≤ h0 ≤ n * bsz) as Hh0.
  { rewrite Eh0. destruct drop; simpl; [|nia]. destruct (Z.ltb_spec 0 n); nia. }
  assert (0 ≤ hit ≤ n * bsz) as Hhit.
  { unfold hit, full_hit_length. rewrite <-Eh0.
    pose proof (round_down_spec al Hal h0). split; [|lia].
    unfold round_down. pose proof (Z.div_pos h0 al). nia. }
  assert (hit mod bsz = 0) as Hmod.
  { unfold hit, full_hit_length, round_down, al. rewrite Z.mul_assoc. by apply Z.mod_mul; lia. }
  rewrite Ehit. split_and!; [done|done|lia|lia|].
  assert (cdiv hit bsz = hit / bsz) as ->.
  { apply cdiv_unique; [done|]. pose proof (Z.div_mod hit bsz). lia. }
  pose proof (columns_take p gids _ _ (Z.to_nat (hit / bsz)) Hcs) as Ht.
  rewrite take_take in Ht. rewrite Nat.min_l in Ht; [done|].
  assert (hit / bsz ≤ n) by (apply Z.div_le_upper_bound; lia).
  unfold n in *. lia.
Qed.

(** The leading run is exactly the prefix of blocks cached in every group, up to the limit. *)
Lemma leading_run it v (m : nat) :
  resolve_block_hashes (RawHashes hs) (hash_block_size p) bsz false None = inr v →
  bhl_iter v = Some it →
  let run := take (Z.to_nat (max_length / bsz)) it in
  (m ≤ leading p gids run)%nat
  ↔ Z.of_nat m * bsz ≤ max_length ∧ prefix_cached p gids hs k bsz (Z.of_nat m * bsz).
Proof using Hinv Hg Hhbs Hk Hmax.
  clear Hc al c. intros Hv Hit run. assert (0 < bsz) as Hb by (unfold bsz; nia).
  destruct (bhl_iter_spec _ k hs v Hhbs Hk Hv) as (it' & Hit' & Hilen & Hih). simplify_eq.
  pose proof (Z.div_pos max_length bsz Hmax Hb). pose proof (Z.mul_div_le max_length bsz Hb). split.
  - intros Hm. pose proof (leading_le p gids run) as Hnr.
    assert (length run ≤ Z.to_nat (max_length / bsz))%nat as Hrl by (unfold run; rewrite length_take; lia).
    split; [nia|]. intros j Hj. destruct (leading_rows p gids run j) as (h & row & Hh & Hr); [nia|].
    exists h. split; [|by eapply row_cached_all].
    apply Hih. unfold run in Hh. by apply lookup_take_Some in Hh as [Hh _].
  - intros [Hle Hpc]. apply leading_max.
    + unfold run. rewrite length_take. apply Nat.min_glb.
      * assert (Z.of_nat m ≤ max_length / bsz); [|lia]. apply Z.div_le_lower_bound; [done|lia].
      * destruct m as [|m]; [lia|]. destruct (Hpc m) as (h & Hh & _); [nia|].
        unfold block_hash_at in Hh. apply lookup_lt_Some in Hh.
        assert (Z.of_nat (S m) ≤ zlen hs / k); [|unfold zlen in *; lia].
        apply Z.div_le_lower_bound; [done|]. unfold zlen. nia.
    + intros j h Hj Hh. destruct (Hpc j) as (h' & Hh' & Hall); [nia|].
      unfold run in Hh. apply lookup_take_Some in Hh as [Hh _]. apply Hih in Hh.
      unfold block_hash_at in Hh'. rewrite Hh in Hh'. simplify_eq.
      destruct (row_of p gids h') eqn:Er; [by eexists|].
      destruct (row_complete p l Hinv gids Hg h' Er) as (g & Hin & Hno).
      destruct (Hall g Hin) as (b & Hb' & Hhold). by destruct (Hno b Hb').
Qed.

(** The search with EAGLE drops one cached block: the hit is the longest aligned prefix that
    is still cached with [eagle_tokens] more tokens. *)
Lemma full_hit_correct (drop : bool) :
  let d := eagle_tokens drop bsz in
  wp (full_find_longest_cache_hit (RawHashes hs) max_length gids bsz drop al 1)
    (λ res p', p' = p ∧ (al | res.2) ∧ 0 ≤ res.2 ≤ max_length
       ∧ hit_sound p gids hs k bsz res
       ∧ (0 < res.2 → res.2 + d ≤ max_length ∧ prefix_cached p gids hs k bsz (res.2 + d))
       ∧ (∀ len, (al | len) → len + d ≤ max_length →
            prefix_cached p gids hs k bsz (len + d) → len ≤ res.2)) p.
Proof using Hinv Hg Hhbs Hk Hc Hmax.
  intros d. assert (0 < bsz) as Hb by (unfold bsz; nia). assert (0 < al) as Hal by (unfold al; nia).
  destruct (resolve_ok (hash_block_size p) k hs Hhbs Hk) as [v Hv].
  destruct (bhl_iter_spec _ k hs v Hhbs Hk Hv) as (it & Hit & Hilen & Hih).
  eapply wp_mono; [by apply (full_find_spec drop it v)|]. simpl.
  intros [cs hit0] p' (-> & Eres & Hhit & Hcols). simpl in *. subst hit0.
  pose proof (λ m, leading_run it v m Hv Hit) as Hrun. cbn zeta in Hrun.
  set (run := take (Z.to_nat (max_length / bsz)) it) in *. set (n := leading p gids run) in *.
  assert (Z.of_nat n * bsz ≤ max_length) as Hnm by (by apply (Hrun n)).
  set (hit := full_hit_length drop (Z.of_nat n)) in *.
  assert (hit mod bsz = 0) as Hmod.
  { unfold hit, full_hit_length, round_down, al. rewrite Z.mul_assoc. by apply Z.mod_mul; lia. }
  assert (hit = hit / bsz * bsz) as Hdb by (pose proof (Z.div_mod hit bsz); lia).
  assert (hit / bsz ≤ Z.of_nat n) as Hdn by (apply Z.div_le_upper_bound; lia).
  pose proof (Z.div_pos hit bsz ltac:(lia) Hb) as Hq.
  split_and!; [done|by apply round_down_divide|lia|lia| | |].
  - destruct Hcols as [Hlen Hc']. split; [done|]. simpl. intros i g col Hgi Hci.
    pose proof (Hc' i g col Hgi Hci) as HF. split.
    + apply Forall2_length in HF. rewrite length_take in HF. unfold zlen.
      pose proof (leading_le p gids run). rewrite <-HF, Nat.min_l by lia. lia.
    + intros j b Hj. destruct (Forall2_lookup_r _ _ _ _ _ HF Hj) as (h & Hh & Hhold).
      exists h. split; [|done]. apply Hih. apply lookup_take_Some in Hh as [Hh _].
      unfold run in Hh. by apply lookup_take_Some in Hh as [Hh _].
  - intros Hpos. set (m := (Z.to_nat (hit / bsz) + (if drop then 1 else 0))%nat).
    assert (hit + d = Z.of_nat m * bsz) as -> by (unfold m, d, eagle_tokens; destruct drop; lia).
    apply Hrun. fold n.
    assert (hit ≤ if drop then (Z.of_nat n - 1) * bsz else Z.of_nat n * bsz) as Hup.
    { unfold hit, full_hit_length in Hpos |- *. etrans; [apply (round_down_spec al Hal)|].
      destruct drop; simpl; [|done]. destruct (Z.ltb_spec 0 (Z.of_nat n)); [done|].
      simpl in Hpos. replace (Z.of_nat n) with 0 in Hpos by lia. unfold round_down in Hpos.
      rewrite (Z.div_small (0 * bsz)) in Hpos; lia. }
    unfold m. destruct drop; nia.
  - intros len [q ->] Hle Hpc. destruct (Z.le_gt_cases q 0) as [|Hqp]; [nia|].
    set (m := (Z.to_nat (q * c) + (if drop then 1 else 0))%nat).
    assert (q * al + d = Z.of_nat m * bsz) as E by (unfold m, d, eagle_tokens, al; destruct drop; nia).
    rewrite E in Hle, Hpc. assert (m ≤ n)%nat as Hmn by (by apply Hrun).
    unfold hit, full_hit_length. apply round_down_greatest; [done|by exists q|].
    unfold m, al in *. destruct drop; simpl; [|nia]. rewrite (proj2 (Z.ltb_lt 0 _)) by lia. nia.
Qed.
End full.
