(* ===== verification/WindowFacts.v ===== *)
(** Sliding-window prefix-cache hits: the right-to-left search returns an aligned prefix whose
    attention window is cached in every group, and it returns the longest one.  The mask of
    blocks worth registering keeps exactly the windows such a search can ask for. *)

From S2P Require Import Prelude MathUtils Request BlockHash BlockHashFacts FreeQueue.
From S2P Require Import FreeQueueFacts BlockPool BlockPoolFacts BlockPoolSpec BlockPoolTheorems.
From S2P Require Import Managers ManagerFacts AllocationFacts ReleaseFacts HitFacts.

Set Warnings "-level-tolerance,-clear-no-such-hyp".

(** ** Cutting to the alignment *)

Definition aligned (bsz al n : Z) : Prop := (n * bsz) mod al = 0.

Lemma aligned_same b n : aligned b b n.
Proof.
  unfold aligned. destruct (decide (b = 0)) as [->|]; [by rewrite Z.mul_0_r|]. by apply Z.mod_mul.
Qed.

Lemma align_len_spec n bsz al :
  (align_len n bsz al ≤ n)%nat ∧ aligned bsz al (Z.of_nat (align_len n bsz al)).
Proof.
  unfold aligned. induction n as [|n IH]; [done|]. cbn [align_len].
  destruct (_ && _) eqn:E; [destruct IH; split; [lia|done]|]. split; [done|].
  bool_hyps; [|done]. subst. apply aligned_same.
Qed.

Lemma align_len_id n bsz al : aligned bsz al (Z.of_nat n) → align_len n bsz al = n.
Proof.
  unfold aligned. destruct n as [|n]; [done|]. intros E. cbn [align_len].
  rewrite E. by rewrite andb_false_r.
Qed.

Lemma align_len_ge n bsz al (m : nat) :
  aligned bsz al (Z.of_nat m) → (m ≤ n)%nat → (m ≤ align_len n bsz al)%nat.
Proof.
  intros Ha. induction n as [|n IH]; intros Hm; [done|]. destruct (decide (m = S n)) as [->|].
  - by rewrite align_len_id.
  - cbn [align_len]. destruct (_ && _); [apply IH; lia|lia].
Qed.

(** ** The search *)

(** With EAGLE the match ends one block past the boundary. *)
Definition eagle_shift (eagle : bool) : Z := if eagle then 1 else 0.

(** The contiguous blocks a match takes: at least one, even when no earlier token is
    attended. *)
Definition run_length (need : Z) : Z := Z.max 1 need.

Section search.
Context (p : BlockPool) (l : list ref) (Hinv : pool_inv p l).
Context (gids : list Z) (Hg : valid_groups gids).
Context (bhs : BlockHashList) (bsz al need N : Z) (eagle : bool).
Context (Hhash : ∀ i, 0 ≤ i < N → is_Some (bhl_get bhs i)).

#[local] Abbreviation shift := (eagle_shift eagle).
#[local] Abbreviation run := (run_length need).

(** Block [j] of the request is cached in every group. *)
Definition cached_block j : Prop := ∃ h, bhl_get bhs j = Some h ∧ is_Some (row_of p gids h).

(** [b] holds block [j] of the request for group [g]. *)
Definition holds_block (j g : Z) (b : ref) : Prop :=
  ∃ h, bhl_get bhs j = Some h ∧ holds p h g b.

(** Columns of [n] entries: null or the block of the request at that position, and the
    latter between [lo] and [hi]. *)
Record window_table (n lo hi : Z) (cs : list (list ref)) : Prop := {
  wt_groups : length cs = length gids;
  wt_len : ∀ c, c ∈ cs → zlen c = n;
  wt_entry : ∀ i g c (j : nat) b, gids !! i = Some g → cs !! i = Some c → c !! j = Some b →
    holds_block (Z.of_nat j) g b ∨ (b = null_block p ∧ ¬ (lo ≤ Z.of_nat j < hi));
}.

(** No boundary above [n] has a fully cached window. *)
Definition none_above (n : Z) : Prop :=
  ∀ e, n < e ≤ N → aligned bsz al (e - shift) →
    ∃ j, Z.max 0 (e - run) ≤ j < e ∧ ¬ cached_block j.

(** Before position [m - 1] is probed, with a run of [c] cached blocks to its right. *)
Record searching (m c : Z) (cs : list (list ref)) : Prop := {
  se_bounds : 0 ≤ m ∧ 0 ≤ c < run ∧ m + c ≤ N;
  se_table : window_table N m (m + c) cs;
  se_aligned : 0 < c → aligned bsz al (m + c - shift);
  se_none : none_above (m + c);
  se_cached : ∀ j, m ≤ j < m + c → cached_block j;
}.

Lemma set_each_lookup (cs : list (list ref)) (row : list ref) i k c b :
  length row = length cs → cs !! k = Some c → row !! k = Some b →
  set_each i cs row !! k = Some (<[Z.to_nat i := b]> c).
Proof using.
  intros Hlen Hc Hb. unfold set_each. rewrite lookup_app_l.
  - rewrite lookup_zip_with, Hc. simpl. by rewrite Hb.
  - rewrite length_zip_with. apply lookup_lt_Some in Hc. lia.
Qed.

Lemma set_each_table n lo hi cs row i h :
  window_table n lo hi cs → 0 ≤ i < n → i + 1 = lo → bhl_get bhs i = Some h →
  row_of p gids h = Some row → window_table n i hi (set_each i cs row).
Proof using Hinv Hg.
  intros [W1 W2 W3] Hi Hlo Hh Hr. destruct (row_sound p l Hinv gids Hg h row Hr) as [Hrl Hrow].
  assert (length (set_each i cs row) = length cs) as Hlen.
  { unfold set_each. rewrite length_app, length_zip_with, length_drop. lia. }
  assert (∀ k c, set_each i cs row !! k = Some c →
    ∃ c0 b, cs !! k = Some c0 ∧ row !! k = Some b ∧ c = <[Z.to_nat i := b]> c0) as Hcol.
  { intros k c Hk. pose proof (lookup_lt_Some _ _ _ Hk) as Hlt.
    destruct (lookup_lt_is_Some_2 cs k) as [c0 Hc0]; [lia|].
    destruct (lookup_lt_is_Some_2 row k) as [b Hb]; [lia|].
    rewrite (set_each_lookup cs row i k c0 b) in Hk by (done || lia).
    exists c0, b. by simplify_eq. }
  split; [lia| |].
  - intros c [k Hk]%list_elem_of_lookup. destruct (Hcol k c Hk) as (c0 & b & Hc0 & _ & ->).
    unfold zlen. rewrite length_insert. apply W2. by eapply list_elem_of_lookup_2.
  - intros k g c j b Hgk Hk Hj. destruct (Hcol k c Hk) as (c0 & b0 & Hc0 & Hb0 & ->).
    apply list_lookup_insert_Some in Hj as [(<- & <- & _)|[Hne Hj]].
    + left. rewrite Z2Nat.id by lia. exists h. split; [done|]. by eapply Hrow.
    + destruct (W3 k g c0 j b Hgk Hc0 Hj) as [?|[? ?]]; [by left|]. right. split; [done|]. lia.
Qed.

Lemma window_table_take n m lo hi cs :
  window_table n lo hi cs → 0 ≤ m ≤ n → window_table m lo hi (take (Z.to_nat m) <$> cs).
Proof using.
  intros [W1 W2 W3] Hm. split; [by rewrite length_fmap| |].
  - intros c (c0 & -> & Hc0)%list_elem_of_fmap. specialize (W2 _ Hc0).
    unfold zlen in *. rewrite length_take. lia.
  - intros i g c j b Hgi Hci Hj. rewrite list_lookup_fmap in Hci.
    destruct (cs !! i) as [c0|] eqn:E; [|done]. simplify_eq/=.
    apply lookup_take_Some in Hj as [Hj _]. by eapply W3.
Qed.

(** What the loop returns: a table cut to [e] blocks with a run of cached blocks, or the
    run that reaches position 0. *)
Definition loop_result (res : list (list ref) * Z * bool) : Prop :=
  let '(cs, c, found) := res in
  if (found : bool)
  then ∃ e, c = run ∧ run ≤ e ≤ N ∧ window_table e (e - run) e cs
       ∧ aligned bsz al (e - shift) ∧ none_above e ∧ (∀ j, e - run ≤ j < e → cached_block j)
  else searching 0 c cs.

Lemma miss_step m c cs :
  searching (m + 1) c cs → 0 ≤ m → ¬ cached_block m → searching m 0 cs.
Proof using.
  intros [(H1 & H2 & H3) [W1 W2 W3] H5 H6 _] Hm Hmiss. split; [split_and!; lia| |lia| |intros; lia].
  - split; [done|done|]. intros i g col j b Hgi Hci Hj.
    destruct (W3 i g col j b Hgi Hci Hj) as [?|[? ?]]; [by left|]. right. split; [done|lia].
  - intros e He Hal. destruct (decide (m + 1 + c < e)); [apply H6; [lia|done]|].
    exists m. split; [lia|done].
Qed.

Lemma skip_step m cs :
  searching (m + 1) 0 cs → 0 ≤ m → ¬ aligned bsz al (m + 1 - shift) → searching m 0 cs.
Proof using.
  intros [(H1 & H2 & H3) [W1 W2 W3] H5 H6 _] Hm Hna. split; [split_and!; lia| |lia| |intros; lia].
  - split; [done|done|]. intros i g col j b Hgi Hci Hj.
    destruct (W3 i g col j b Hgi Hci Hj) as [?|[? ?]]; [by left|]. right. split; [done|lia].
  - intros e He Hal. destruct (decide (e = m + 1)) as [->|]; [done|]. apply H6; [lia|done].
Qed.

Lemma wp_lookup_block i h Q :
  bhl_get bhs i = Some h → wp (lookup_hit h gids) Q p →
  wp (h ← lift_option IndexError (bhl_get bhs i); lookup_hit h gids) Q p.
Proof using. intros -> H. apply wp_bind. by eapply wp_lift_option. Qed.

Lemma swa_loop_spec (m : nat) c cs :
  searching (Z.of_nat m) c cs →
  wp (swa_loop bhs gids bsz al need eagle (py_range_down 0 (Z.of_nat m)) cs c)
    (λ res p', p' = p ∧ loop_result res) p.
Proof using Hinv Hg Hhash.
  revert c cs. induction m as [|m IH]; intros c cs Hs.
  { unfold py_range_down. rewrite py_range_nil by lia. simpl. by wp_steps. }
  rewrite py_range_down_snoc by lia. rewrite Nat2Z.inj_succ in *.
  replace (Z.succ (Z.of_nat m) - 1) with (Z.of_nat m) by lia.
  pose proof Hs as [(H1 & H2 & H3) H4 H5 H6 H7].
  destruct (Hhash (Z.of_nat m)) as [h Hh]; [lia|]. simpl. apply wp_bind.
  eapply wp_lift_option; [done|]. apply wp_bind, (wp_lookup_hit p l Hinv gids Hg).
  destruct (row_of p gids h) as [row|] eqn:Hr.
  2: { apply IH, (miss_step _ c); [done|lia|]. intros (h' & Hh' & Hrow').
       rewrite Hh in Hh'. simplify_eq. rewrite Hr in Hrow'. by destruct Hrow'. }
  assert ((if eagle then Z.of_nat m else Z.of_nat m + 1) = Z.of_nat m + 1 - shift) as Ei
    by (unfold eagle_shift; destruct eagle; lia).
  rewrite Ei. destruct (_ && _ && _) eqn:Esk.
  { bool_hyps. subst c. apply IH, skip_step; [done|lia|]. done. }
  assert (aligned bsz al (Z.of_nat m + (c + 1) - shift)) as Hal.
  { destruct (decide (c = 0)) as [->|]; [|replace (Z.of_nat m + (c + 1)) with (Z.succ (Z.of_nat m) + c)
      by lia; apply H5; lia].
    replace (Z.of_nat m + (0 + 1) - shift) with (Z.of_nat m + 1 - shift) by lia.
    simpl in Esk. apply andb_false_iff in Esk as [Eb|Ea]; bool_hyps; [|done].
    rewrite Eb. apply aligned_same. }
  pose proof (set_each_table N (Z.succ (Z.of_nat m)) (Z.succ (Z.of_nat m) + c) cs row (Z.of_nat m) h
    H4 ltac:(lia) ltac:(lia) Hh Hr) as Ht.
  replace (Z.succ (Z.of_nat m) + c) with (Z.of_nat m + (c + 1)) in * by lia.
  assert (∀ j, Z.of_nat m ≤ j < Z.of_nat m + (c + 1) → cached_block j) as Hcb.
  { intros j Hj. destruct (decide (j = Z.of_nat m)) as [->|]; [|apply H7; lia]. exists h. by rewrite Hr. }
  destruct (Z.leb_spec need (c + 1)) as [Hfound|Hmore].
  - wp_steps. split; [done|]. exists (Z.of_nat m + (c + 1)).
    assert (c + 1 = run) as Hrun by (unfold run_length in *; lia).
    split_and!; [done|lia|lia| |done|done|intros j Hj; apply Hcb; lia].
    apply window_table_take with N; [|lia].
    replace (Z.of_nat m + (c + 1) - run) with (Z.of_nat m) by lia. done.
  - apply IH. split; [unfold run_length in *; lia|done|done|done|done].
Qed.
End search.

(** ** The result *)

Section finish.
Context (p : BlockPool) (gids : list Z) (bhs : BlockHashList) (bsz al N : Z).
Context (Hne : gids ≠ []).

Lemma window_table_sub n lo hi lo' hi' cs :
  window_table p gids bhs n lo hi cs →
  (∀ j, 0 ≤ j < n → lo' ≤ j < hi' → lo ≤ j < hi) →
  window_table p gids bhs n lo' hi' cs.
Proof using.
  intros [W1 W2 W3] Hsub. split; [done|done|]. intros i g c j b Hgi Hci Hj.
  destruct (W3 i g c j b Hgi Hci Hj) as [?|[? Hout]]; [by left|]. right. split; [done|].
  intros Hin. apply Hout, Hsub; [|done]. apply lookup_lt_Some in Hj.
  specialize (W2 c (list_elem_of_lookup_2 _ _ _ Hci)). unfold zlen in *. lia.
Qed.

Lemma window_table_head n lo hi cs :
  window_table p gids bhs n lo hi cs → ∃ c, head cs = Some c ∧ zlen c = n.
Proof using Hne.
  intros [W1 W2 _]. destruct cs as [|c cs]; [by destruct gids|].
  exists c. split; [done|]. apply W2. left.
Qed.

(** A table cut to an aligned length [e] whose last [need] entries are cached blocks. *)
Definition cut_table (need e : Z) (cs : list (list ref)) : Prop :=
  0 ≤ e ≤ N ∧ window_table p gids bhs e (e - need) e cs ∧ aligned bsz al e.

(** Without a match, the run at position 0 is cut to the alignment. *)
Lemma cut_run need eagle c cs :
  searching p gids bhs bsz al need N eagle 0 c cs →
  let cs' := take (Z.to_nat c) <$> cs in
  let e := Z.of_nat (align_len (Z.to_nat c) bsz al) in
  e ≤ c ∧ cut_table (run_length need) e (take (Z.to_nat e) <$> cs')
  ∧ (∃ first, head cs' = Some first ∧ length first = Z.to_nat c)
  ∧ (eagle = false → e = c).
Proof using Hne.
  intros [(H1 & H2 & H3) H4 H5 H6 _] cs' e.
  destruct (align_len_spec (Z.to_nat c) bsz al) as [Hle Hal].
  assert (e ≤ c) as He by (unfold e; lia).
  pose proof (window_table_take _ _ _ _ _ _ _ _ H4 (conj (proj1 H2) (proj2 (conj H1 (H3 : c ≤ N))))) as Ht.
  split; [done|]. split; [|split].
  1: split_and!; [unfold e; lia|etrans; [exact He|lia]| |exact Hal].
  - apply window_table_sub with 0 c.
    + apply window_table_take with c; [exact Ht|unfold e; lia].
    + intros j Hj1 Hj2. split; [apply Hj1|]. by eapply Z.lt_le_trans; [apply Hj1|].
  - destruct (window_table_head _ _ _ _ Ht) as (first & Hf & Hfl). exists first.
    split; [done|]. unfold zlen in Hfl. lia.
  - intros ->. unfold e. destruct (decide (c = 0)) as [->|]; [done|].
    rewrite align_len_id; [lia|]. rewrite Z2Nat.id by lia.
    specialize (H5 ltac:(lia)). simpl in H5. by replace (0 + c - 0) with c in H5 by lia.
Qed.

(** With EAGLE the last block is dropped and the rest aligned again. *)
Lemma cut_eagle need e cs :
  0 ≤ need → 0 < e ≤ N → window_table p gids bhs e (e - (need + 1)) e cs →
  (aligned bsz al (e - 1) ∨ e < need + 1) →
  let e' := Z.of_nat (align_len (Z.to_nat e - 1) bsz al) in
  cut_table need e' (take (Z.to_nat e') <$> cs).
Proof using.
  intros Hneed He Ht Hcase e'. destruct (align_len_spec (Z.to_nat e - 1) bsz al) as [Hle Hal].
  split_and!; [unfold e'; lia|unfold e'; lia| |exact Hal].
  apply window_table_sub with (e - (need + 1)) e.
  - apply window_table_take with e; [done|unfold e'; lia].
  - intros j Hj1 Hj2. destruct Hcase as [Hc|Hc]; [|lia].
    assert (e' = e - 1); [|lia]. unfold e'. rewrite align_len_id; [lia|].
    by replace (Z.of_nat (Z.to_nat e - 1)) with (e - 1) by lia.
Qed.

(** The run of a match of [e] blocks, with the block EAGLE drops, is cached. *)
Definition run_cached (need : Z) (eagle : bool) (e : Z) : Prop :=
  ∀ j, Z.max 0 (e + eagle_shift eagle - run_length need) ≤ j < e + eagle_shift eagle →
    cached_block p gids bhs j.

(** What the EAGLE branch loses when no full run was found and the alignment is coarser than
    a block: it aligns the table, drops a block and aligns again. *)
Definition lost_blocks (need0 : Z) (eagle : bool) (e : Z) : Z :=
  if eagle && negb (bsz =? al) && (e <? need0) then al / bsz else 0.

(** [e] has its run cached, and nothing longer does up to [lost_blocks]. *)
Definition exact_hit (need0 : Z) (eagle : bool) (e : Z) : Prop :=
  let need := need0 + eagle_shift eagle in
  (0 < e → e + eagle_shift eagle ≤ N ∧ run_cached need eagle e)
  ∧ ∀ e', 0 ≤ e' → aligned bsz al e' → e' + eagle_shift eagle ≤ N → run_cached need eagle e' →
      e' - lost_blocks need0 eagle e' ≤ e.

(** The length after EAGLE's drop. *)
Definition popped (eagle : bool) (e : Z) : Z :=
  if eagle && (0 <? e) then Z.of_nat (align_len (Z.to_nat e - 1) bsz al) else e.

Lemma lost_nonneg need0 eagle e : 0 < bsz → 0 < al → 0 ≤ lost_blocks need0 eagle e.
Proof using. intros. unfold lost_blocks. case_match; [|done]. apply Z.div_pos; lia. Qed.

Lemma none_above_le need0 eagle n e' :
  none_above p gids bhs bsz al (need0 + eagle_shift eagle) N eagle n → aligned bsz al e' →
  e' + eagle_shift eagle ≤ N → run_cached (need0 + eagle_shift eagle) eagle e' → e' + eagle_shift eagle ≤ n.
Proof using.
  intros Hno Ha HN Hrun. apply Z.le_ngt. intros Hgt.
  destruct (Hno (e' + eagle_shift eagle)) as (j & Hj & Hmiss); [lia| |].
  - by replace (e' + eagle_shift eagle - eagle_shift eagle) with e' by lia.
  - by apply Hmiss, Hrun.
Qed.

Lemma found_exact need0 eagle e :
  0 < bsz → 0 < al → 0 ≤ need0 → let need := need0 + eagle_shift eagle in
  run_length need ≤ e ≤ N → aligned bsz al (e - eagle_shift eagle) →
  none_above p gids bhs bsz al need N eagle e →
  (∀ j, e - run_length need ≤ j < e → cached_block p gids bhs j) →
  exact_hit need0 eagle (popped eagle e).
Proof using.
  intros Hb Hal Hn0 need He Ha Hno Hcb. assert (1 ≤ e) as He1 by (unfold run_length in He; lia).
  assert (popped eagle e = e - eagle_shift eagle) as ->.
  { unfold popped, eagle_shift in *. destruct eagle; simpl; [|lia].
    rewrite (proj2 (Z.ltb_lt 0 e)) by lia. rewrite align_len_id; [lia|].
    by replace (Z.of_nat (Z.to_nat e - 1)) with (e - 1) by lia. }
  split.
  - intros _. split; [lia|]. intros j Hj. apply Hcb. fold need in Hj. lia.
  - intros e' _ Ha' HN Hrun. pose proof (none_above_le need0 eagle e e' Hno Ha' HN Hrun).
    pose proof (lost_nonneg need0 eagle e' Hb Hal). lia.
Qed.

Lemma run_exact need0 eagle c cs :
  0 < bsz → (bsz | al) → 0 < al → 0 ≤ need0 →
  searching p gids bhs bsz al (need0 + eagle_shift eagle) N eagle 0 c cs →
  exact_hit need0 eagle (popped eagle (Z.of_nat (align_len (Z.to_nat c) bsz al))).
Proof using.
  intros Hb [c0 Ec0] Hal Hn0 [(_ & H2 & H3) _ H5 H6 H7]. set (need := need0 + eagle_shift eagle) in *.
  set (e := align_len (Z.to_nat c) bsz al). destruct (align_len_spec (Z.to_nat c) bsz al) as [Hle _].
  fold e in Hle. destruct (align_len_spec (e - 1) bsz al) as [Hle2 _].
  assert (al / bsz = c0) as Ediv by (rewrite Ec0; apply Z.div_mul; lia). assert (1 ≤ c0) by nia.
  split.
  - intros Hpos. assert (popped eagle (Z.of_nat e) + eagle_shift eagle ≤ c) as Hc.
    { unfold popped, eagle_shift in *. destruct eagle; simpl in *; [|lia].
      destruct (Z.ltb_spec 0 (Z.of_nat e)); [rewrite Nat2Z.id in *|]; lia. }
    split; [lia|]. intros j Hj. apply H7. lia.
  - intros e' He' Ha' HN Hrun. pose proof (none_above_le need0 eagle (0 + c) e' H6 Ha' HN Hrun) as Hc.
    assert (Z.to_nat e' ≤ e)%nat as Hee.
    { apply align_len_ge; [by rewrite Z2Nat.id|]. unfold eagle_shift in Hc. destruct eagle; lia. }
    unfold popped, lost_blocks, eagle_shift in *. destruct eagle; simpl in *; [|lia].
    rewrite Ediv. destruct (Z.eqb_spec bsz al) as [Eb|Hba]; simpl.
    + assert (e = Z.to_nat c) as -> by (apply align_len_id; rewrite Eb; apply aligned_same).
      rewrite (proj2 (Z.ltb_lt 0 _)), Nat2Z.id by lia.
      rewrite align_len_id by (rewrite Eb; apply aligned_same). lia.
    + rewrite (proj2 (Z.ltb_lt e' need0)) by (unfold run_length, need in H2; lia).
      destruct (Z.ltb_spec 0 (Z.of_nat e)); [|lia]. rewrite Nat2Z.id.
      destruct (Z.le_gt_cases (e' - c0) 0); [lia|].
      pose proof (align_len_ge (e - 1) bsz al (Z.to_nat (e' - c0))) as Hge.
      rewrite Z2Nat.id in Hge by lia.
      assert (aligned bsz al (e' - c0)) as Ha2.
      { unfold aligned in *. apply Z.mod_divide in Ha' as [q Eq]; [|lia]. apply Z.mod_divide; [lia|].
        exists (q - 1). lia. }
      specialize (Hge Ha2). lia.
Qed.
End finish.

(** What a sliding-window hit promises: every entry of the tables is a null block or the block
    of the request at that position, and every block that overlaps the window of the next
    token (its [w - 1] predecessors) is present. *)
Record window_hit p (gids : list Z) (hs : list bytes) (k bsz w : Z) (res : Hit) : Prop := {
  wh_groups : length res.1 = length gids;
  wh_len : ∀ c, c ∈ res.1 → zlen c * bsz = res.2;
  wh_entry : ∀ i g c (j : nat) b, gids !! i = Some g → res.1 !! i = Some c → c !! j = Some b →
    (∃ h, block_hash_at hs k j = Some h ∧ holds p h g b)
    ∨ (b = null_block p ∧ (Z.of_nat j + 1) * bsz ≤ res.2 - (w - 1));
}.

(** The window before token [len] is cached for every group. *)
Definition window_cached p (gids : list Z) (hs : list bytes) (k bsz w len : Z) : Prop :=
  ∀ j : nat, Z.of_nat j * bsz < len → len - Z.max 1 (w - 1) < (Z.of_nat j + 1) * bsz →
    ∃ h, block_hash_at hs k j = Some h ∧ ∀ g, g ∈ gids → ∃ b, is_blk b ∧ holds p h g b.

Section swa.
Context (p : BlockPool) (l : list ref) (Hinv : pool_inv p l).
Context (gids : list Z) (Hg : valid_groups gids).
Context (hs : list bytes) (k c max_length w : Z).
Context (Hhbs : 0 < hash_block_size p) (Hk : 0 < k) (Hc : 0 < c) (Hmax : 0 ≤ max_length).
Context (Hw : 1 ≤ w).

#[local] Abbreviation bsz := (k * hash_block_size p).
#[local] Abbreviation al := (c * bsz).
#[local] Abbreviation N := (max_length / bsz).
Context (Henough : N ≤ zlen hs / k).

Lemma swa_hashes v :
  resolve_block_hashes (RawHashes hs) (hash_block_size p) bsz false None = inr v →
  (∀ j : nat, bhl_get v (Z.of_nat j) = block_hash_at hs k j)
  ∧ ∀ i, 0 ≤ i < N → is_Some (bhl_get v i).
Proof using Hhbs Hk Henough.
  intros Hv. split.
  - intros j. by rewrite (view_get _ _ _ _ (Z.of_nat j) Hhbs Hk ltac:(lia) Hv).
  - intros i Hi. rewrite (view_get _ _ _ _ i Hhbs Hk ltac:(lia) Hv).
    apply lookup_lt_is_Some_2. pose proof (Z.mul_div_le (zlen hs) k Hk).
    assert ((i + 1) * k ≤ zlen hs) by nia. unfold zlen in *. lia.
Qed.

(** The loop followed by the trimming. *)
Definition swa_finish (eagle : bool) (cs : list (list ref)) (n : Z) (found : bool)
    : M BlockPool Hit :=
  computed1 ← (if (found : bool) then mret cs
    else
      let cut := take (Z.to_nat n) <$> cs in
      first ← lift_option IndexError (head cut);
      mret (take (align_len (length first) bsz al) <$> cut));
  first ← lift_option IndexError (head computed1);
  let computed2 :=
    if eagle && (0 <? zlen first)
    then take (align_len (length first - 1) bsz al) <$> computed1
    else computed1 in
  first2 ← lift_option IndexError (head computed2);
  mret (computed2, zlen first2 * bsz).

Lemma swa_finish_spec v (eagle : bool) (need0 : Z) cs n (found : bool) :
  0 ≤ need0 →
  loop_result p gids v bsz al (need0 + eagle_shift eagle) N eagle (cs, n, found) →
  wp (swa_finish eagle cs n found)
    (λ (res : Hit) p', p' = p ∧ ∃ e, res.2 = e * bsz ∧ cut_table p gids v bsz al N need0 e res.1
       ∧ exact_hit p gids v bsz al N need0 eagle e) p.
Proof using Hg Hhbs Hk Hc.
  intros Hneed Hres. assert (0 < bsz) as Hb by nia. assert (0 < al) as Hal by nia.
  set (need := need0 + eagle_shift eagle) in *.
  assert (∃ e, 0 ≤ e ≤ N ∧ exact_hit p gids v bsz al N need0 eagle (popped bsz al eagle e) ∧
    wp (if found then mret cs
        else let cut := take (Z.to_nat n) <$> cs in
             first ← lift_option IndexError (head cut);
             mret (take (align_len (length first) bsz al) <$> cut))
    (λ cs1 p', p' = p ∧ window_table p gids v e (e - run_length need) e cs1
      ∧ (aligned bsz al (e - eagle_shift eagle) ∨ e < run_length need)
      ∧ (eagle = false → aligned bsz al e)) p)
    as (e & He & Hex & Hwp).
  { destruct found; simpl in Hres.
    - destruct Hres as (e & -> & He & Ht & Ha & Hn & Hcb). exists e. unfold run_length in *.
      split; [lia|]. split; [by apply found_exact|].
      wp_steps. split_and!; [done|done|by left|]. intros ->. simpl in Ha. by rewrite Z.sub_0_r in Ha.
    - pose proof Hres as [(_ & Hn & HN) _ _ _ _].
      destruct (cut_run p gids v bsz al N (proj1 Hg) _ _ _ _ Hres) as (Hle & [He [Ht Ha]] & (first & Hf & Hfl) & _).
      eexists. split; [exact He|]. split; [apply run_exact with cs; try done; by exists c|].
      cbn zeta. wp_steps. eapply wp_lift_option; [exact Hf|].
      wp_steps. rewrite Hfl. rewrite Nat2Z.id in Ht. split_and!; [done|done|right; lia|done]. }
  unfold swa_finish. apply wp_bind. eapply wp_mono; [exact Hwp|]. simpl.
  intros cs1 p' (-> & Ht & Hor & Hse).
  destruct (window_table_head p gids v (proj1 Hg) _ _ _ _ Ht) as (first & Hf & Hfl).
  wp_steps. eapply wp_lift_option; [done|]. rewrite Hfl.
  assert (length first = Z.to_nat e) as -> by (unfold zlen in Hfl; lia).
  assert (∀ cs2, cut_table p gids v bsz al N need0 (popped bsz al eagle e) cs2 →
    wp (first2 ← lift_option IndexError (head cs2); mret (cs2, zlen first2 * bsz))
      (λ (res : Hit) p', p' = p ∧ ∃ e, res.2 = e * bsz ∧ cut_table p gids v bsz al N need0 e res.1
       ∧ exact_hit p gids v bsz al N need0 eagle e) p) as Hfin.
  { intros cs2 Hct. pose proof Hct as (_ & Ht2 & _).
    destruct (window_table_head p gids v (proj1 Hg) _ _ _ _ Ht2) as (f2 & Hf2 & Hfl2).
    wp_steps. eapply wp_lift_option; [done|]. wp_steps. split; [done|]. eexists.
    simpl. by rewrite Hfl2. }
  apply Hfin. unfold popped. destruct eagle; simpl in *.
  - assert (run_length need = need0 + 1) as Er by (unfold run_length, need; simpl; lia).
    rewrite Er in *. destruct (Z.ltb_spec 0 e) as [Hpos|Hz].
    + pose proof (cut_eagle p gids v bsz al N need0 e cs1 Hneed (conj Hpos (proj2 He)) Ht Hor) as Hce.
      cbn zeta in Hce. by rewrite Nat2Z.id in Hce.
    + replace e with 0 in * by lia. split_and!; [lia|lia| |done].
      apply window_table_sub with (0 - (need0 + 1)) 0; [done|]. intros; lia.
  - split_and!; [lia|lia| |by apply Hse].
    apply window_table_sub with (e - run_length need) e; [done|].
    intros j _ Hj. unfold run_length, need. simpl. lia.
Qed.

Lemma swa_find_spec eagle v :
  resolve_block_hashes (RawHashes hs) (hash_block_size p) bsz false None = inr v →
  wp (swa_find_longest_cache_hit (RawHashes hs) max_length gids bsz w eagle al 1 1)
    (λ (res : Hit) p', p' = p ∧ ∃ e, res.2 = e * bsz
       ∧ cut_table p gids v bsz al N (cdiv (w - 1) bsz) e res.1
       ∧ exact_hit p gids v bsz al N (cdiv (w - 1) bsz) eagle e) p.
Proof using Hinv Hg Hhbs Hk Hc Hmax Hw Henough.
  intros Hv. assert (0 < bsz) as Hb by nia. assert (bsz ≤ al) as Hba by nia.
  destruct (swa_hashes v Hv) as [_ Hhash].
  pose proof (Z.div_pos max_length bsz Hmax Hb) as HN.
  unfold swa_find_longest_cache_hit. wp_steps. apply wp_assert; [done|].
  wp_steps. apply wp_assert; [done|]. wp_steps.
  apply wp_assert; [by rewrite Z.mod_mul by lia|]. wp_steps.
  rewrite resolve_coarse by done. eapply wp_lift_result; [exact Hv|]. wp_steps.
  pose proof (cdiv_nonneg bsz Hb (w - 1) ltac:(lia)) as Hneed.
  assert (_contiguous_blocks_for_hit w bsz eagle
    = cdiv (w - 1) bsz + eagle_shift eagle) as ->
    by (unfold _contiguous_blocks_for_hit, eagle_shift; destruct eagle; lia).
  set (need := _ + eagle_shift eagle).
  replace (py_range_down 0 N) with (py_range_down 0 (Z.of_nat (Z.to_nat N)))
    by (by rewrite Z2Nat.id). eapply wp_mono.
  - apply (swa_loop_spec p l Hinv gids Hg v bsz al need N eagle Hhash).
    rewrite Z2Nat.id by done. split; [unfold run_length; lia| |lia|intros e; lia|intros; lia].
    split; [apply length_replicate| |].
    + intros col [-> _]%elem_of_replicate. unfold zlen. rewrite length_replicate. lia.
    + intros i g col j b _ [-> _]%lookup_replicate [-> _]%lookup_replicate. right.
      split; [done|lia].
  - simpl. intros [[cs n] found] p' [-> Hres].
    by apply (swa_finish_spec v eagle (cdiv (w - 1) bsz) cs n found).
Qed.

Lemma window_reaches e (j : nat) :
  0 < bsz → e * bsz - (w - 1) < (Z.of_nat j + 1) * bsz → e - cdiv (w - 1) bsz ≤ Z.of_nat j.
Proof using Hw Hhbs Hk.
  intros Hb H. pose proof (cdiv_spec bsz Hb (w - 1)). nia.
Qed.

(** A run of blocks, in terms of the window of tokens they overlap. *)
Lemma window_blocks eagle e (j : Z) :
  let d := eagle_tokens eagle bsz in
  Z.max 0 (e + eagle_shift eagle - run_length (cdiv (w - 1) bsz + eagle_shift eagle)) ≤ j
    < e + eagle_shift eagle
  ↔ 0 ≤ j ∧ j * bsz < e * bsz + d ∧ e * bsz + d - Z.max 1 (w + d - 1) < (j + 1) * bsz.
Proof using Hw Hhbs Hk.
  assert (0 < bsz) as Hb by nia. pose proof (cdiv_spec bsz Hb (w - 1)) as Hcd.
  pose proof (cdiv_nonneg bsz Hb (w - 1) ltac:(lia)) as Hn.
  unfold eagle_tokens, eagle_shift, run_length. destruct eagle; simpl.
  - rewrite (Z.max_r 1 (cdiv _ _ + 1)), (Z.max_r 1 (w + _ - 1)) by lia. nia.
  - rewrite !Z.add_0_r. destruct (decide (w = 1)) as [->|].
    + replace (cdiv (1 - 1) bsz) with 0 in * by nia. simpl. nia.
    + assert (1 ≤ cdiv (w - 1) bsz) by nia. rewrite (Z.max_r 1 (cdiv _ _)), (Z.max_r 1 (w - 1)) by lia. nia.
Qed.

Lemma run_cached_window v eagle e :
  resolve_block_hashes (RawHashes hs) (hash_block_size p) bsz false None = inr v →
  let d := eagle_tokens eagle bsz in
  run_cached p gids v (cdiv (w - 1) bsz + eagle_shift eagle) eagle e
  ↔ window_cached p gids hs k bsz (w + d) (e * bsz + d).
Proof using Hinv Hg Hw Hhbs Hk Henough.
  intros Hv d. destruct (swa_hashes v Hv) as [Hget _]. pose proof (window_blocks eagle e) as Hwb.
  cbn zeta in Hwb. fold d in Hwb. split.
  - intros Hrun j Hj1 Hj2. destruct (Hrun (Z.of_nat j)) as (h & Hh & [row Hr]); [apply Hwb; lia|].
    exists h. rewrite <-Hget. split; [done|]. by eapply row_cached_all.
  - intros Hwc j (H0 & H1 & H2)%Hwb. destruct (Hwc (Z.to_nat j)) as (h & Hh & Hall);
      [rewrite Z2Nat.id; lia..|]. exists h. split; [by rewrite <-(Z2Nat.id j), Hget by lia|].
    destruct (row_of p gids h) eqn:Er; [by eexists|].
    destruct (row_complete p l Hinv gids Hg h Er) as (g & Hin & Hnone).
    destruct (Hall g Hin) as (b & Hb' & Hhold). by destruct (Hnone b Hb').
Qed.

(** What is lost, in tokens. *)
Definition eagle_loss (eagle : bool) (len : Z) : Z :=
  if eagle && negb (c =? 1) && (len <? w - 1) then al else 0.

Lemma swa_hit_correct eagle :
  let d := eagle_tokens eagle bsz in
  wp (swa_find_longest_cache_hit (RawHashes hs) max_length gids bsz w eagle al 1 1)
    (λ (res : Hit) p', p' = p ∧ (al | res.2) ∧ 0 ≤ res.2 ≤ max_length
       ∧ window_hit p gids hs k bsz w res
       ∧ (0 < res.2 → res.2 + d ≤ max_length ∧ window_cached p gids hs k bsz (w + d) (res.2 + d))
       ∧ (∀ len, (al | len) → len + d ≤ max_length →
            window_cached p gids hs k bsz (w + d) (len + d) → len - eagle_loss eagle len ≤ res.2)) p.
Proof using Hinv Hg Hhbs Hk Hc Hmax Hw Henough.
  intros d. assert (0 < bsz) as Hb by nia. assert (0 < al) as Hal by nia.
  destruct (resolve_ok (hash_block_size p) k hs Hhbs Hk) as [v Hv].
  destruct (swa_hashes v Hv) as [Hget Hhash].
  eapply wp_mono; [by apply (swa_find_spec eagle v)|]. simpl.
  intros [cs hit] p' (-> & e & Ehit & (He & [W1 W2 W3] & Ha) & Hex1 & Hex2). simpl in *. subst hit.
  pose proof (Z.mul_div_le max_length bsz Hb).
  assert (d = eagle_shift eagle * bsz) as Ed by (unfold d, eagle_tokens, eagle_shift; destruct eagle; lia).
  assert (∀ n, n * bsz + d ≤ max_length ↔ n + eagle_shift eagle ≤ N) as HdN.
  { intros n. rewrite Ed, <-Z.mul_add_distr_r. split; [intros; apply Z.div_le_lower_bound; lia|nia]. }
  split_and!; [done|by apply (proj1 (Z.mod_divide (e * bsz) al ltac:(lia)))|nia|nia| | |].
  - split; simpl; [done| |].
    + intros col Hcol. by rewrite (W2 col Hcol).
    + intros i g col j b Hgi Hci Hj.
      destruct (W3 i g col j b Hgi Hci Hj) as [(h & Hh & Hhold)|[-> Hout]].
      * left. exists h. by rewrite <-Hget.
      * right. split; [done|]. apply Z.le_ngt. intros Hin. apply Hout.
        split; [by apply window_reaches|]. apply lookup_lt_Some in Hj.
        specialize (W2 col (list_elem_of_lookup_2 _ _ _ Hci)). unfold zlen in W2. lia.
  - intros Hpos. destruct Hex1 as [HN Hrun]; [nia|]. split; [by apply HdN|].
    by apply (run_cached_window v).
  - intros len [q ->] Hle Hwc. destruct (Z.le_gt_cases q 0); [unfold eagle_loss; case_match; nia|].
    replace (q * al) with (q * c * bsz) in * by ring.
    pose proof (Hex2 (q * c) ltac:(nia)) as Hmax'. unfold lost_blocks in Hmax'.
    assert (aligned bsz al (q * c)) as Haq
      by (unfold aligned; replace (q * c * bsz) with (q * al) by ring; apply Z.mod_mul; lia).
    specialize (Hmax' Haq (proj1 (HdN _) Hle) (proj2 (run_cached_window v eagle _ Hv) Hwc)).
    pose proof (cdiv_spec bsz Hb (w - 1)) as Hcd. unfold eagle_loss.
    destruct eagle; simpl in *; [|nia].
    destruct (Z.eqb_spec c 1) as [->|]; simpl.
    + rewrite Z.mul_1_l, Z.eqb_refl in Hmax'. simpl in Hmax'. nia.
    + destruct (Z.ltb_spec (q * c * bsz) (w - 1)).
      * destruct (_ && _); [rewrite Z.div_mul in Hmax' by lia; nia|nia].
      * rewrite (proj2 (Z.ltb_ge (q * c) (cdiv (w - 1) bsz))), andb_false_r in Hmax' by nia. nia.
Qed.
End swa.

(** ** Which blocks to register *)

Section masks.
(** [g] sets the positions of [S a], and the fold those of all elements. *)
Lemma fold_mask {A} (g : list bool → A → list bool) (S : A → nat → Prop) xs m :
  (∀ m a, length (g m a) = length m) →
  (∀ m a n, g m a !! n = Some true ↔ m !! n = Some true ∨ (n < length m)%nat ∧ S a n) →
  length (foldl g m xs) = length m
  ∧ ∀ n, foldl g m xs !! n = Some true
         ↔ m !! n = Some true ∨ (n < length m)%nat ∧ ∃ a, a ∈ xs ∧ S a n.
Proof.
  intros Hlen Hset. revert m. induction xs as [|x xs IH]; intros m; simpl.
  - split; [done|]. intros n. split; [by left|]. intros [?|(_ & a & []%elem_of_nil & _)]; done.
  - destruct (IH (g m x)) as [IHl IHs]. rewrite Hlen in *. split; [done|]. intros n.
    rewrite IHs, Hset. setoid_rewrite elem_of_cons. naive_solver.
Qed.

Lemma length_mask_set m j : length (mask_set m j) = length m.
Proof. apply length_insert. Qed.

Lemma mask_set_spec m j n :
  mask_set m j !! n = Some true ↔ m !! n = Some true ∨ (n < length m)%nat ∧ n = Z.to_nat j.
Proof.
  unfold mask_set. rewrite list_lookup_insert_Some. split.
  - intros [(<- & _ & ?)|[_ ?]]; [by right|by left].
  - intros [Hm|[Hn ->]]; [|by left]. destruct (decide (Z.to_nat j = n)) as [<-|]; [|by right].
    left. split_and!; [done..|]. by apply lookup_lt_Some in Hm.
Qed.

Lemma mask_set_if_spec (b : bool) m j n :
  (if b then mask_set m j else m) !! n = Some true
  ↔ m !! n = Some true ∨ (n < length m)%nat ∧ b = true ∧ n = Z.to_nat j.
Proof. destruct b; [rewrite mask_set_spec|]; naive_solver. Qed.
End masks.

(** Block [i] is among the [need] blocks a match ending at block boundary [b] takes. *)
Definition in_tail (need : Z) (eagle : bool) (b i : Z) : Prop :=
  b + eagle_shift eagle - need ≤ i < b + eagle_shift eagle.

(** The spacing of the boundaries whose tails are kept. *)
Definition segment_tokens (al : Z) (retention_interval : option Z) : option Z :=
  match retention_interval with
  | None => Some al
  | Some r => if r =? 0 then None else Some r
  end.

(** The blocks worth registering: the tail of a segment boundary, or under sparse retention
    of one of the explicit boundaries. *)
Definition worth_keeping (need bsz al : Z) (eagle : bool) (retention_interval : option Z)
    (boundaries : list Z) (i : Z) : Prop :=
  (∃ st m, segment_tokens al retention_interval = Some st ∧ 1 ≤ m ∧ in_tail need eagle (m * (st / bsz)) i)
  ∨ (is_Some retention_interval ∧ ∃ b, b ∈ boundaries ∧ in_tail need eagle (b / al * al / bsz) i).

Section swa_mask.
Context (start end_ al w bsz : Z) (eagle : bool) (ri : option Z) (bounds : list Z).
Context (Hstart : 0 ≤ start) (Hb : 0 < bsz) (Hw : 1 ≤ w) (Hal : al mod bsz = 0).

#[local] Abbreviation need := (_contiguous_blocks_for_hit w bsz eagle).

Lemma tail_of_segment per i :
  0 ≤ need < per →
  (eagle_shift eagle ≤ i ∧ per - need ≤ (i - eagle_shift eagle) mod per)
  ↔ ∃ m, 1 ≤ m ∧ in_tail need eagle (m * per) i.
Proof using.
  intros Hper. unfold in_tail. set (sh := eagle_shift eagle). clearbody sh.
  pose proof (Z.div_mod (i - sh) per ltac:(lia)) as Hdm.
  pose proof (Z.mod_pos_bound (i - sh) per ltac:(lia)) as Hmb. split.
  - intros [Hi Hm]. exists ((i - sh) / per + 1). pose proof (Z.div_pos (i - sh) per). nia.
  - intros (m & Hm & Hlo & Hhi).
    assert ((i - sh) / per = m - 1) as Eq by (symmetry; apply Z.div_unique with (i - sh - (m - 1) * per); nia).
    split; [nia|]. rewrite Eq in Hdm. nia.
Qed.

Definition mask_result (om : option (list bool)) : Prop :=
  match om with
  | None => ∃ st, segment_tokens al ri = Some st ∧ st / bsz ≤ need
  | Some mask => length mask = Z.to_nat (end_ - start)
      ∧ ∀ i, start ≤ i < end_ →
          (mask !! Z.to_nat (i - start) = Some true ↔ worth_keeping need bsz al eagle ri bounds i)
  end.

(** The segment part of the mask. *)
Lemma segment_mask_spec per :
  0 ≤ need < per →
  let mask := foldl (λ m i, if (eagle_shift eagle <=? i)
      && (per - need <=? (i - eagle_shift eagle) mod per) then mask_set m (i - start) else m)
    (replicate (Z.to_nat (end_ - start)) false) (py_range start end_) in
  length mask = Z.to_nat (end_ - start)
  ∧ ∀ i, start ≤ i < end_ →
      (mask !! Z.to_nat (i - start) = Some true ↔ ∃ m, 1 ≤ m ∧ in_tail need eagle (m * per) i).
Proof using Hstart.
  intros Hper. set (cond := λ i, (eagle_shift eagle <=? i) && (per - need <=? (i - eagle_shift eagle) mod per)).
  destruct (fold_mask (λ m i, if cond i then mask_set m (i - start) else m)
    (λ i n, cond i = true ∧ n = Z.to_nat (i - start)) (py_range start end_)
    (replicate (Z.to_nat (end_ - start)) false)) as [Hl Hs].
  - intros m a. destruct (cond a); [apply length_mask_set|done].
  - intros m a n. apply mask_set_if_spec.
  - rewrite length_replicate in *. split; [exact Hl|]. intros i Hi.
    rewrite <-tail_of_segment by done. etrans; [apply Hs|].
    assert (cond i = true ↔ eagle_shift eagle ≤ i ∧ per - need ≤ (i - eagle_shift eagle) mod per) as <-.
    { unfold cond. by rewrite andb_true_iff, !Z.leb_le. }
    rewrite lookup_replicate. split.
    + intros [[? _]|(_ & a & Ha%elem_of_py_range & Hc & En)]; [done|].
      by replace i with a by lia.
    + intros Hc. right. split; [lia|]. exists i. rewrite elem_of_py_range. done.
Qed.

(** The tails of the explicit boundaries. *)
Lemma boundary_mask_spec mask :
  length mask = Z.to_nat (end_ - start) →
  let mask' := foldl (λ m boundary_tokens,
      let aligned := boundary_tokens / al * al in
      let e := aligned / bsz + eagle_shift eagle in
      foldl (λ m j, mask_set m (j - start)) m (py_range (Z.max start (e - need)) (Z.min end_ e)))
    mask bounds in
  length mask' = Z.to_nat (end_ - start)
  ∧ ∀ i, start ≤ i < end_ →
      (mask' !! Z.to_nat (i - start) = Some true ↔ mask !! Z.to_nat (i - start) = Some true
       ∨ ∃ b, b ∈ bounds ∧ in_tail need eagle (b / al * al / bsz) i).
Proof using Hstart.
  intros Hlen. cbn zeta. set (e := λ b, b / al * al / bsz + eagle_shift eagle).
  assert (∀ m b, length (foldl (λ m j, mask_set m (j - start)) m
        (py_range (Z.max start (e b - need)) (Z.min end_ (e b)))) = length m
    ∧ ∀ n, foldl (λ m j, mask_set m (j - start)) m
        (py_range (Z.max start (e b - need)) (Z.min end_ (e b))) !! n = Some true
      ↔ m !! n = Some true ∨ (n < length m)%nat
        ∧ ∃ j, j ∈ py_range (Z.max start (e b - need)) (Z.min end_ (e b)) ∧ n = Z.to_nat (j - start)) as Hin.
  { intros m b. apply (fold_mask _ (λ j n, n = Z.to_nat (j - start))).
    - intros; apply length_mask_set.
    - intros; apply mask_set_spec. }
  destruct (fold_mask (λ m b, foldl (λ m j, mask_set m (j - start)) m
      (py_range (Z.max start (e b - need)) (Z.min end_ (e b))))
    (λ b n, ∃ j, j ∈ py_range (Z.max start (e b - need)) (Z.min end_ (e b)) ∧ n = Z.to_nat (j - start))
    bounds mask) as [Hl Hs].
  - intros m b. apply Hin.
  - intros m b. apply Hin.
  - rewrite Hlen in *. split; [exact Hl|]. intros i Hi.
    etrans; [apply Hs|]. apply or_iff_compat_l. unfold in_tail. fold (e i). split.
    + intros (_ & b & Hb' & j & Hj%elem_of_py_range & En). exists b. split; [done|].
      replace i with j by lia. unfold e in *. lia.
    + intros (b & Hb' & Hi'). split; [lia|]. exists b. split; [done|]. exists i.
      rewrite elem_of_py_range. unfold e. lia.
Qed.

Lemma swa_mask_spec :
  ∃ om, swa_reachable_block_mask start end_ (Some al) w bsz eagle ri bounds = inr om
    ∧ mask_result om.
Proof using Hstart Hb Hw Hal.
  unfold swa_reachable_block_mask, result_assert, mask_result, worth_keeping. rewrite Hal. simpl.
  change (if eagle then 1 else 0) with (eagle_shift eagle).
  assert (0 ≤ need) as Hneed.
  { unfold _contiguous_blocks_for_hit. pose proof (cdiv_nonneg bsz Hb (w - 1) ltac:(lia)).
    destruct eagle; lia. }
  destruct ri as [r|]; simpl; [destruct (Z.eqb_spec r 0); simpl|].
  - pose proof (boundary_mask_spec (replicate (Z.to_nat (end_ - start)) false)
      (length_replicate _ _)) as [Hl Hs].
    eexists. split; [done|]. split; [exact Hl|]. intros i Hi. etrans; [by apply Hs|].
    rewrite lookup_replicate. naive_solver.
  - destruct (Z.leb_spec (r / bsz) need); [exists None; eauto|].
    destruct (segment_mask_spec (r / bsz)) as [Hl1 Hs1]; [lia|].
    destruct (boundary_mask_spec _ Hl1) as [Hl Hs].
    eexists. split; [done|]. split; [exact Hl|]. intros i Hi. etrans; [by apply Hs|].
    rewrite Hs1 by done. naive_solver.
  - destruct (Z.leb_spec (al / bsz) need); [exists None; eauto|].
    destruct (segment_mask_spec (al / bsz)) as [Hl1 Hs1]; [lia|].
    eexists. split; [done|]. split; [exact Hl1|]. intros i Hi. etrans; [by apply Hs1|].
    split; [naive_solver|]. intros [(st & m & [= <-] & ?)|[[? ?] _]]; [eauto|done].
Qed.
End swa_mask.

(** ** Registration and search together *)

(** Block [i] of the request is cached for every group. *)
Definition block_cached p (gids : list Z) (hs : list bytes) (k : Z) (i : nat) : Prop :=
  ∃ h, block_hash_at hs k i = Some h ∧ ∀ g, g ∈ gids → ∃ b, is_blk b ∧ holds p h g b.

Lemma dense_window_cached p gids hs (k c max_length w bsz : Z) om bounds :
  0 < bsz → 0 < c → 0 ≤ max_length → 2 ≤ w →
  swa_reachable_block_mask 0 (max_length / bsz) (Some (c * bsz)) w bsz false None bounds = inr om →
  (∀ i : nat, Z.of_nat i < max_length / bsz →
     match om with Some mask => mask !! i = Some true | None => True end →
     block_cached p gids hs k i) →
  window_cached p gids hs k bsz w (round_down max_length (c * bsz)).
Proof.
  intros Hb Hc Hm Hw Hom Hreg j Hlo Hhi.
  destruct (swa_mask_spec 0 (max_length / bsz) (c * bsz) w bsz false None bounds) as (om' & E & Hmask);
    [lia|lia|lia|apply Z.mod_mul; lia|].
  rewrite Hom in E. simplify_eq.
  set (q := max_length / (c * bsz)). assert (round_down max_length (c * bsz) = q * (c * bsz)) as Erd by done.
  rewrite Erd in *. pose proof (Z.mul_div_le max_length (c * bsz) ltac:(nia)) as Hq. fold q in Hq.
  assert (Z.of_nat j < max_length / bsz) as Hj.
  { assert (q * c ≤ max_length / bsz); [|nia]. apply Z.div_le_lower_bound; [done|]. nia. }
  apply Hreg; [done|]. destruct om' as [mask|]; [|done]. destruct Hmask as [_ Hmask].
  specialize (Hmask (Z.of_nat j) ltac:(lia)). rewrite Z.sub_0_r, Nat2Z.id in Hmask. apply Hmask. left.
  exists (c * bsz), q. split; [done|]. split; [nia|]. unfold in_tail. simpl. rewrite Z.div_mul by lia.
  pose proof (cdiv_spec bsz Hb (w - 1)). unfold _contiguous_blocks_for_hit. nia.
Qed.
