(* ===== verification/ManagerTheorems.v ===== *)
(** What the cache managers guarantee: admission never runs out of blocks after its own
    prediction, freeing and window trimming account for every reference and never touch a
    block the attention window still needs, and prefix-cache searches return the longest
    sound hit. *)

From S2P Require Import Prelude MathUtils Request BlockHash BlockHashFacts FreeQueue.
From S2P Require Import FreeQueueFacts BlockPool BlockPoolFacts BlockPoolSpec BlockPoolTheorems.
From S2P Require Import Managers ManagerFacts AllocationFacts ReleaseFacts HitFacts WindowFacts.

Set Warnings "-level-tolerance,-clear-no-such-hyp".

Section properties.
Context (use_int : bool).
Implicit Types (F : ref → Z) (s : GroupState) (l ncb : list ref) (id : string).

(** C6: admission cannot fail after its own check.  For a request that is new to an
    attention group and comes with prefix-cache hits for its locally computed tokens,
    [get_num_blocks_to_allocate] returns a number without changing the state, and when at
    least that many blocks are free, adding the hits, allocating for the externally
    computed tokens and allocating for the new tokens all succeed.  The request's table then
    covers exactly its tokens and starts with the null padding and the hits; the tables of
    all other requests and the reference accounting are kept. *)
Theorem admission_prediction_suffices F s l id ncb (num_tokens loc ext main : Z) :
  group_inv F s l → hits_ok s id ncb loc ext → loc + ext ≤ num_tokens →
  ∃ n, get_num_blocks_to_allocate id num_tokens ncb (loc + ext) loc main false s = (inr n, s)
    ∧ (n ≤ get_num_free_blocks (g_pool s) →
       wp (add_local_computed_blocks id ncb loc ext;;
           allocate_external_computed_blocks use_int id loc ext;;
           allocate_new_blocks use_int id num_tokens main)
         (λ _ s', ∃ l', group_inv F s' l'
            ∧ zlen (table (g_mgr s') id) = cdiv num_tokens (block_size (g_mgr s))
            ∧ (_has_partial_local_hit (g_mgr s) ncb loc = false →
               replicate (Z.to_nat (skipped_blocks (g_mgr s) (loc + ext))) (null_block (g_pool s))
                 ++ kept_hits (g_mgr s) ncb (loc + ext) `prefix_of` table (g_mgr s') id)
            ∧ (∀ id', id' ≠ id → table (g_mgr s') id' = table (g_mgr s) id')) s).
Proof.
  intros H Hok Hle.
  destruct (get_num_new_spec F s l id ncb num_tokens loc ext main H Hok) as (n & s' & E & -> & ->).
  exists (predicted (g_mgr s) l ncb num_tokens loc ext). split; [done|].
  rewrite (inv_num_free _ _ _ (gi_pool _ _ _ H)). intros Hn.
  eapply wp_mono; [by eapply admission_spec|]. simpl. intros _ s' (l' & ? & ? & _ & ? & ?). eauto.
Qed.

(** a running request can always be extended by what was predicted.  For a request the
    group already tracks (and that has no pending copy-on-write), the prediction is the
    number of missing blocks, and when that many are free, [allocate_new_blocks] returns
    exactly the first blocks of the eviction order and appends them to the table; no other
    table changes and the reference accounting is kept. *)
Theorem running_prediction_suffices F s l id (num_tokens total loc main nc : Z) :
  group_inv F s l → is_attention (mgr_kind (g_mgr s)) = true →
  num_cached_block (g_mgr s) !! id = Some nc → _partial_hit_reqs (g_mgr s) !! id = None →
  let n := Z.max (cdiv num_tokens (block_size (g_mgr s)) - zlen (table (g_mgr s) id)) 0 in
  get_num_blocks_to_allocate id num_tokens [] total loc main false s = (inr n, s)
  ∧ (n ≤ get_num_free_blocks (g_pool s) →
     wp (allocate_new_blocks use_int id num_tokens main)
       (λ res s', res = take (Z.to_nat n) l ∧ group_inv F s' (drop (Z.to_nat n) l)
          ∧ table (g_mgr s') id = table (g_mgr s) id ++ res
          ∧ (∀ id', id' ≠ id → table (g_mgr s') id' = table (g_mgr s) id')) s).
Proof.
  intros H Hatt Hnc Hph n. split.
  - unfold get_num_blocks_to_allocate, base_get_num_blocks_to_allocate, self, mbind, M_bind, gets. simpl.
    destruct (mgr_kind (g_mgr s)); try done; rewrite Hnc; simpl; unfold n, table;
      by destruct (_max_admission_blocks_per_request (g_mgr s)).
  - rewrite (inv_num_free _ _ _ (gi_pool _ _ _ H)). intros Hn.
    assert (new_demand (g_mgr s) id num_tokens = n) as Hd.
    { unfold new_demand, n. rewrite Hph, decide_False by (by intros [? ?]). lia. }
    unfold allocate_new_blocks, self. wp_steps. simpl.
    assert (∀ a b : M GroupState (list ref), match mgr_kind (g_mgr s) with MambaSpec _ _ _ => a | _ => b end = b)
      as -> by (intros; by destruct (mgr_kind (g_mgr s))).
    eapply wp_mono; [apply (allocate_new_blocks_spec use_int F s l id num_tokens main H); lia|].
    rewrite Hd. simpl. intros res s' [[Hg _ _ _ _ Ho _ _ Ht _] Hres]. rewrite (Hres Hph), (Ht Hph). done.
Qed.

(** C34: freeing a request.  [free] always succeeds, forgets the request, leaves the tables
    of the others and every cached hash in place, and afterwards a block is free exactly
    when no remaining table, pending copy or other group refers to it. *)
Theorem free_request_correct F s l id :
  group_inv F s l →
  wp (free id) (λ _ s', ∃ l', group_inv F s' l' ∧ same_hashes (g_pool s) (g_pool s')
    ∧ (∀ id', table (g_mgr s') id' = if decide (id' = id) then [] else table (g_mgr s) id')
    ∧ (∀ r, usable (g_pool s) r → (r ∈ l' ↔ mgr_refs (g_mgr s') r + F r = 0))) s.
Proof.
  intros H. eapply wp_mono; [by apply free_spec|]. simpl.
  intros _ s' ((E & _) & Hc & Hh & Hg). eexists. split_and!; [exact Hg|done| |].
  - intros id'. unfold table. rewrite E, lookup_delete. repeat case_decide; by subst.
  - intros r Hr. assert (usable (g_pool s') r) as Hr' by by eapply usable_conf.
    rewrite (free_iff _ _ _ (gi_pool _ _ _ Hg)), (gi_refs _ _ _ Hg) by done. tauto.
Qed.

(** trimming never cuts into the attention window.  [remove_skipped_blocks] of an
    attention group succeeds; the block of every token the kind of attention can still
    reach keeps its place in the table, every other entry is kept or replaced by the null
    block, and the released references are accounted for. *)
Theorem remove_skipped_blocks_window F s l id (processed : Z) :
  group_inv F s l → is_attention (mgr_kind (g_mgr s)) = true → kind_ok (mgr_kind (g_mgr s)) →
  _partial_hit_reqs (g_mgr s) !! id = None → 0 ≤ processed →
  wp (remove_skipped_blocks id processed None)
    (λ _ s', ∃ l', group_inv F s' l'
      ∧ (∀ t, get_num_skipped_tokens (mgr_kind (g_mgr s)) processed ≤ t →
           table (g_mgr s') id !! Z.to_nat (t / block_size (g_mgr s))
           = table (g_mgr s) id !! Z.to_nat (t / block_size (g_mgr s)))
      ∧ (∀ (i : nat) b, table (g_mgr s') id !! i = Some b →
           b = null_block (g_pool s) ∨ table (g_mgr s) id !! i = Some b)
      ∧ (∀ id', id' ≠ id → table (g_mgr s') id' = table (g_mgr s) id')
      ∧ same_hashes (g_pool s) (g_pool s')) s.
Proof.
  intros H Hatt Hk Hph Hp. pose proof (gi_bsz _ _ _ H) as Hb.
  pose proof (skipped_bounds _ processed Hk Hatt Hp) as Hsk.
  eapply wp_mono; [by apply (remove_skipped_spec F s l id processed None)|]. simpl.
  intros _ s' (l' & Hg & Hcut). pose proof Hcut as (_ & Hh & _ & _ & Hr & Ho & _).
  exists l'. split_and!; try done. intros t Ht. apply (cut_window s id processed); [done..|lia|done].
Qed.

(** a reference sliding window keeps the whole prompt and the last [w] processed
    tokens: trimming leaves every block that overlaps either of them untouched. *)
Theorem remove_skipped_blocks_rswa F s l id (processed np w : Z) :
  group_inv F s l → mgr_kind (g_mgr s) = RSWASpec w →
  _partial_hit_reqs (g_mgr s) !! id = None → 0 ≤ np →
  wp (remove_skipped_blocks id processed (Some np))
    (λ _ s', ∃ l', group_inv F s' l'
      ∧ (∀ t, 0 ≤ t → t < np ∨ processed - w ≤ t →
           table (g_mgr s') id !! Z.to_nat (t / block_size (g_mgr s))
           = table (g_mgr s) id !! Z.to_nat (t / block_size (g_mgr s)))
      ∧ (∀ id', id' ≠ id → table (g_mgr s') id' = table (g_mgr s) id')) s.
Proof.
  intros H Ek Hph Hnp. pose proof (gi_bsz _ _ _ H) as Hb.
  eapply wp_mono; [by eapply remove_gap_spec|]. simpl.
  intros _ s' (l' & Hg & Hcut). pose proof Hcut as (_ & _ & _ & _ & _ & Ho & _).
  exists l'. split_and!; try done. intros t Ht Hin. by eapply cut_gap.
Qed.

(** C31: the full-attention search finds the longest cached prefix, also under EAGLE and
    decode context parallelism.  Take block hashes at the granularity of the pool, a block
    (the spec's block size times [dcp]) that is a multiple of it, and an alignment that is a
    multiple of the block, so that no partial hits are searched.  The search succeeds without
    changing the pool; the hit is aligned and within the limit, and every group gets one block
    per block of the hit, each registered under the hash of that position.  Let [d] be the
    tokens of the block EAGLE drops, one block or nothing: a non-empty hit is cached in all
    groups together with the [d] tokens after it, and no longer aligned prefix is. *)
Theorem full_attention_hit_longest p l gids hs (k c max_length spec_bsz dcp : Z) (eagle : bool) :
  pool_inv p l → valid_groups gids → 0 < hash_block_size p → 0 < k → 0 < c → 0 ≤ max_length →
  1 ≤ dcp → let bsz := spec_bsz * dcp in bsz = k * hash_block_size p →
  let d := eagle_tokens eagle bsz in
  wp (full_find_longest_cache_hit (RawHashes hs) max_length gids spec_bsz eagle (c * bsz) dcp)
    (λ (res : Hit) p', p' = p ∧ (c * bsz | res.2) ∧ 0 ≤ res.2 ≤ max_length
       ∧ hit_sound p gids hs k bsz res
       ∧ (0 < res.2 → res.2 + d ≤ max_length ∧ prefix_cached p gids hs k bsz (res.2 + d))
       ∧ (∀ len, (c * bsz | len) → len + d ≤ max_length →
            prefix_cached p gids hs k bsz (len + d) → len ≤ res.2)) p.
Proof.
  intros Hinv Hg Hh Hk Hc Hm Hdcp bsz Eb d. rewrite full_find_dcp by done. fold bsz.
  unfold d. rewrite Eb. by eapply full_hit_correct.
Qed.

(** C32: the sliding-window search finds the longest usable prefix, also under EAGLE.  Take an
    alignment that is a multiple of the block size and no context parallelism, which the code
    asserts.  The result is aligned and within the limit; every block that overlaps the window
    of the next token is present and registered under the hash of its position, other entries
    may be null.  Let [d] be the tokens of the block EAGLE drops, one block or nothing: the
    window of a non-empty hit is cached in all groups together with the [d] tokens after it,
    and no longer aligned prefix has that, with one exception: under EAGLE with an alignment
    coarser than a block, for a prefix shorter than the window the hit may be one alignment
    unit shorter than the longest ([eagle_loss]). *)
Theorem sliding_window_hit_longest p l gids hs (k c max_length w : Z) (eagle : bool) :
  pool_inv p l → valid_groups gids → 0 < hash_block_size p → 0 < k → 0 < c → 0 ≤ max_length →
  1 ≤ w → max_length / (k * hash_block_size p) ≤ zlen hs / k →
  let bsz := k * hash_block_size p in let d := eagle_tokens eagle bsz in
  wp (swa_find_longest_cache_hit (RawHashes hs) max_length gids bsz w eagle (c * bsz) 1 1)
    (λ (res : Hit) p', p' = p ∧ (c * bsz | res.2) ∧ 0 ≤ res.2 ≤ max_length
       ∧ window_hit p gids hs k bsz w res
       ∧ (0 < res.2 → res.2 + d ≤ max_length ∧ window_cached p gids hs k bsz (w + d) (res.2 + d))
       ∧ (∀ len, (c * bsz | len) → len + d ≤ max_length →
            window_cached p gids hs k bsz (w + d) (len + d) →
            len - (if eagle && negb (c =? 1) && (len <? w - 1) then c * bsz else 0) ≤ res.2)) p.
Proof. intros. by eapply swa_hit_correct. Qed.

(** the registration mask of a sliding-window group is exact.  [reachable_block_mask]
    either keeps everything, which it does only when every block lies in some tail, or
    marks exactly the blocks a search can need at a segment boundary, or under sparse
    retention at one of the given boundaries. *)
Theorem swa_mask_exact (start end_ al w bsz : Z) (eagle : bool) (ri : option Z) (bounds : list Z) :
  0 ≤ start → 0 < bsz → 1 ≤ w → al mod bsz = 0 →
  ∃ om, swa_reachable_block_mask start end_ (Some al) w bsz eagle ri bounds = inr om
    ∧ mask_result start end_ al w bsz eagle ri bounds om.
Proof. apply swa_mask_spec. Qed.

(** registering only the blocks the mask keeps loses nothing.  When a sliding-window
    group's cache holds (for every group id searched) each block of a request that the
    dense mask keeps, the search reaches the largest aligned length within the limit. *)
Theorem dense_mask_loses_no_hit p l gids hs (k c max_length w : Z) om bounds :
  pool_inv p l → valid_groups gids → 0 < hash_block_size p → 0 < k → 0 < c → 0 ≤ max_length →
  2 ≤ w → max_length / (k * hash_block_size p) ≤ zlen hs / k →
  let bsz := k * hash_block_size p in
  swa_reachable_block_mask 0 (max_length / bsz) (Some (c * bsz)) w bsz false None bounds = inr om →
  (∀ i : nat, Z.of_nat i < max_length / bsz →
     match om with Some mask => mask !! i = Some true | None => True end →
     block_cached p gids hs k i) →
  wp (swa_find_longest_cache_hit (RawHashes hs) max_length gids bsz w false (c * bsz) 1 1)
    (λ (res : Hit) p', p' = p ∧ res.2 = round_down max_length (c * bsz)) p.
Proof.
  intros Hinv Hg Hh Hk Hc Hm Hw Hen bsz Hom Hreg. assert (0 < bsz) as Hb by (unfold bsz; nia).
  eapply wp_mono; [by eapply swa_hit_correct; [..|lia|]|]. simpl.
  intros res p' (-> & Hdiv & Hle & _ & _ & Hmax). split; [done|].
  pose proof (round_down_spec (c * bsz) ltac:(nia) max_length) as Hrd.
  apply Z.le_antisymm; [apply round_down_greatest; [nia|done|lia]|].
  rewrite <-(Z.sub_0_r (round_down _ _)). apply Hmax; rewrite ?Z.add_0_r; [apply round_down_divide|lia|].
  by eapply dense_window_cached.
Qed.
End properties.

(** ** Concrete groups *)

(** A group with blocks of two tokens on the pool of four blocks. *)
Definition demo_manager (kind : SpecKind) : Manager :=
  new_manager {| spec_block_size := 2; spec_kind := kind |} 8 100 true 0 2 1 false.
Definition demo_group (kind : SpecKind) : GroupState := mkGroup demo_pool (demo_manager kind).

Lemma demo_group_inv kind : group_inv (λ _, 0) (demo_group kind) [Blk 1; Blk 2; Blk 3].
Proof.
  split; simpl; try done.
  - apply demo_pool_inv.
  - intros r _. destruct demo_pool_fresh as (_ & _ & _ & _ & _ & _ & Hz). by destruct (Hz r) as (-> & _).
Qed.

Lemma demo_pool_usable i : (0 < i < 4)%nat → usable demo_pool (Blk i).
Proof. intros Hi. exists i. change (num_gpu_blocks demo_pool) with 4. split_and!; [done|lia..]. Qed.

(** A state of the group in which request ["r"] holds two blocks for four tokens. *)
Definition holding_two (kind : SpecKind) (s : GroupState) : Prop :=
  group_inv (λ _, 0) s [Blk 3] ∧ table (g_mgr s) "r" = [Blk 1; Blk 2]
  ∧ num_cached_block (g_mgr s) !! "r" = Some 0 ∧ _partial_hit_reqs (g_mgr s) !! "r" = None
  ∧ block_size (g_mgr s) = 2 ∧ mgr_kind (g_mgr s) = kind.

Lemma demo_running kind : ∃ s, holding_two kind s.
Proof.
  destruct (allocate_new_blocks_spec false (λ _, 0) (demo_group kind) _ "r" 4 4 (demo_group_inv kind))
    as (a & s & _ & [Hg _ Hs Hb _ _ Hp _ Ht _] & _); [by destruct kind|].
  assert (Z.to_nat (new_demand (g_mgr (demo_group kind)) "r" 4) = 2%nat) as En by (by destruct kind).
  rewrite En in Hg, Ht. destruct s as [p m].
  exists (mkGroup p (set_num_cached_block (<["r" := 0]> (num_cached_block m)) m)). split_and!.
  - eapply group_inv_core; [|exact Hg]. done.
  - change (table m "r" = [Blk 1; Blk 2]). simpl in Ht. by rewrite Ht by (by destruct kind).
  - simpl. by rewrite lookup_insert_eq.
  - simpl in *. rewrite Hp. by destruct kind.
  - simpl in *. rewrite Hb. by destruct kind.
  - unfold mgr_kind. simpl in *. rewrite Hs. by destruct kind.
Qed.

Lemma admission_prediction_suffices_witness :
  ∃ n, get_num_blocks_to_allocate "r" 5 [Blk 2] 2 2 5 false (demo_group FullAttentionSpec) = (inr n, demo_group FullAttentionSpec)
    ∧ n = 3
    ∧ wp (add_local_computed_blocks "r" [Blk 2] 2 0;;
          allocate_external_computed_blocks false "r" 2 0;;
          allocate_new_blocks false "r" 5 5)
        (λ _ s', zlen (table (g_mgr s') "r") = 3) (demo_group FullAttentionSpec).
Proof.
  destruct (admission_prediction_suffices false (λ _, 0) (demo_group FullAttentionSpec) _ "r" [Blk 2] 5 2 0 5
    (demo_group_inv _)) as (n & E & Hwp).
  - split; simpl; try done.
    + apply Forall_singleton, usable_blk, demo_pool_usable. lia.
  - done.
  - exists n. assert (n = 3) as -> by (vm_compute in E; by simplify_eq).
    split_and!; [exact E|done|]. eapply wp_mono; [apply Hwp; vm_compute; discriminate|].
    simpl. intros _ s' (l' & _ & Hl & _). exact Hl.
Defined.

Lemma running_prediction_suffices_witness :
  ∃ s, holding_two FullAttentionSpec s
    ∧ wp (allocate_new_blocks false "r" 6 6)
        (λ res s', res = [Blk 3] ∧ table (g_mgr s') "r" = [Blk 1; Blk 2; Blk 3]) s.
Proof.
  destruct (demo_running FullAttentionSpec) as (s & Hs). exists s. split; [exact Hs|].
  destruct Hs as (Hg & Ht & Hn & Hp & Hb & Hk).
  destruct (running_prediction_suffices false (λ _, 0) s [Blk 3] "r" 6 4 4 6 0 Hg)
    as [_ Hwp]; [by rewrite Hk|done|done|]. rewrite Ht, Hb in Hwp.
  eapply wp_mono; [apply Hwp; by rewrite (inv_num_free _ _ _ (gi_pool _ _ _ Hg))|]. simpl.
  intros res s' (-> & _ & -> & _). done.
Defined.

Lemma free_request_correct_witness :
  ∃ s, holding_two FullAttentionSpec s ∧ wp (free "r") (λ _ s', table (g_mgr s') "r" = []) s.
Proof.
  destruct (demo_running FullAttentionSpec) as (s & Hs). exists s. split; [exact Hs|].
  eapply wp_mono; [apply (free_request_correct (λ _, 0) s [Blk 3] "r"), Hs|].
  simpl. intros _ s' (l' & _ & _ & Ht & _). by rewrite Ht, decide_True.
Defined.

Lemma remove_skipped_blocks_window_witness :
  ∃ s, holding_two (SlidingWindowSpec 2 0) s
    ∧ wp (remove_skipped_blocks "r" 4 None)
        (λ _ s', table (g_mgr s') "r" !! 1%nat = Some (Blk 2)) s.
Proof.
  destruct (demo_running (SlidingWindowSpec 2 0)) as (s & Hs). exists s. split; [exact Hs|].
  destruct Hs as (Hg & Ht & Hn & Hp & Hb & Hk).
  eapply wp_mono; [apply (remove_skipped_blocks_window (λ _, 0) s [Blk 3] "r" 4 Hg)|].
  - by rewrite Hk.
  - rewrite Hk. simpl. lia.
  - done.
  - lia.
  - simpl. intros _ s' (l' & _ & Hkeep & _). specialize (Hkeep 3). rewrite Hk, Hb, Ht in Hkeep.
    apply Hkeep. simpl. lia.
Defined.

Lemma remove_skipped_blocks_rswa_witness :
  ∃ s, holding_two (RSWASpec 1) s
    ∧ wp (remove_skipped_blocks "r" 4 (Some 2))
        (λ _ s', table (g_mgr s') "r" !! 0%nat = Some (Blk 1)) s.
Proof.
  destruct (demo_running (RSWASpec 1)) as (s & Hs). exists s. split; [exact Hs|].
  destruct Hs as (Hg & Ht & Hn & Hp & Hb & Hk).
  eapply wp_mono; [apply (remove_skipped_blocks_rswa (λ _, 0) s [Blk 3] "r" 4 2 1 Hg Hk Hp)|].
  - lia.
  - simpl. intros _ s' (l' & _ & Hkeep & _). specialize (Hkeep 1). rewrite Hb, Ht in Hkeep.
    apply Hkeep; [lia|left; lia].
Defined.

(** The pool after the two blocks of a five-token request were registered. *)
Definition demo_hashes : list bytes := block_hashes (demo_request [1; 2; 3; 4; 5]).
Definition demo_cached : BlockPool :=
  (cache_full_blocks no_digest false (demo_request [1; 2; 3; 4; 5]) [Blk 1; Blk 2] 0 2
     (1 * hash_block_size demo_used) 0 None demo_used).2.

Lemma demo_targets i :
  (i < 2)%nat → (i, Blk (S i)) ∈ targets demo_used None (imap pair (py_slice [Blk 1; Blk 2] 0 2)).
Proof.
  intros Hi. apply list_elem_of_filter. destruct i as [|[|]]; [..|lia].
  - vm_compute. split; [split; [discriminate|done]|set_solver].
  - vm_compute. split; [split; [discriminate|done]|set_solver].
Qed.

Lemma demo_cached_inv : pool_inv demo_cached [Blk 3]
  ∧ ∀ i : nat, (i < 2)%nat → block_cached demo_cached [0] demo_hashes 1 i.
Proof.
  destruct (cache_full_blocks_spec no_digest false demo_used [Blk 3] _ _ _ _ _ _ _
    (proj1 demo_used_inv) demo_full_pre) as (a & p' & E & Hinv & Hc & Hrc & Hdone & _).
  assert (p' = demo_cached) as -> by (unfold demo_cached; by rewrite E).
  split; [done|]. intros i Hi.
  destruct (Hdone i (Blk (S i))) as (key & Hkey & Hb & Hh & _).
  - by apply demo_targets.
  - exists (default [] (demo_hashes !! i)). split; [|intros g ->%list_elem_of_singleton].
    + destruct i as [|[|]]; [vm_compute; reflexivity..|lia].
    + exists (Blk (S i)). split; [done|]. exists key. split_and!; [|..|by left].
      * unfold prefix_key in Hkey. rewrite <-Hkey. f_equal.
        destruct i as [|[|]]; [vm_compute; reflexivity..|lia].
      * eapply usable_conf; [exact Hc|]. apply demo_used_usable. lia.
Qed.

Lemma demo_groups_valid : valid_groups [0].
Proof. split; [done|]. by apply Forall_singleton. Qed.

(** Two blocks are cached: the hit is both of them, or one with EAGLE; in the second search the
    block of two tokens is made of one token on each of two ranks. *)
Lemma full_attention_hit_longest_witness :
  ∃ p, pool_inv p [Blk 3]
    ∧ wp (full_find_longest_cache_hit (RawHashes demo_hashes) 4 [0] 2 false 2 1)
        (λ (res : Hit) p', p' = p ∧ res.2 = 4) p
    ∧ wp (full_find_longest_cache_hit (RawHashes demo_hashes) 4 [0] 1 true 2 2)
        (λ (res : Hit) p', p' = p ∧ res.2 = 2) p.
Proof.
  exists demo_cached. destruct demo_cached_inv as [Hinv Hc]. split; [exact Hinv|].
  assert (∀ len, len ≤ 4 → prefix_cached demo_cached [0] demo_hashes 1 2 len) as Hpc
    by (intros len Hlen j Hj; apply Hc; lia).
  split.
  - eapply wp_mono; [apply (full_attention_hit_longest demo_cached [Blk 3] [0] demo_hashes 1 1 4 2 1 false Hinv
      demo_groups_valid); done|]. simpl.
    intros res p' (-> & _ & Hle & _ & _ & Hmax). split; [done|]. apply Z.le_antisymm; [lia|].
    apply (Hmax 4); [by exists 2|done|]. by apply Hpc.
  - eapply wp_mono; [apply (full_attention_hit_longest demo_cached [Blk 3] [0] demo_hashes 1 1 4 1 2 true Hinv
      demo_groups_valid); done|]. simpl.
    intros res p' (-> & _ & Hle & _ & Hin & Hmax). split; [done|].
    assert (2 ≤ res.2) by (apply (Hmax 2); [by exists 1|done|by apply Hpc]).
    destruct Hin as [? _]; [lia|]. unfold eagle_tokens in *. lia.
Defined.

Lemma sliding_window_hit_longest_witness :
  ∃ p, pool_inv p [Blk 3]
    ∧ wp (swa_find_longest_cache_hit (RawHashes demo_hashes) 4 [0] 2 2 false 2 1 1)
        (λ (res : Hit) p', p' = p ∧ res.2 = 4) p
    ∧ wp (swa_find_longest_cache_hit (RawHashes demo_hashes) 4 [0] 2 2 true 2 1 1)
        (λ (res : Hit) p', p' = p ∧ res.2 = 2) p.
Proof.
  exists demo_cached. destruct demo_cached_inv as [Hinv Hc]. split; [exact Hinv|].
  assert (∀ w len, len ≤ 4 → window_cached demo_cached [0] demo_hashes 1 2 w len) as Hpc
    by (intros w len Hlen j Hj _; apply Hc; lia).
  split.
  - eapply wp_mono; [apply (sliding_window_hit_longest demo_cached [Blk 3] [0] demo_hashes 1 1 4 2 false Hinv
      demo_groups_valid); done|]. simpl.
    intros res p' (-> & _ & Hle & _ & _ & Hmax). split; [done|]. apply Z.le_antisymm; [lia|].
    apply (Hmax 4); [by exists 2|done|]. by apply Hpc.
  - eapply wp_mono; [apply (sliding_window_hit_longest demo_cached [Blk 3] [0] demo_hashes 1 1 4 2 true Hinv
      demo_groups_valid); done|]. simpl.
    intros res p' (-> & _ & Hle & _ & Hin & Hmax). split; [done|].
    assert (2 ≤ res.2) by (apply (Hmax 2); [by exists 1|done|by apply Hpc]).
    destruct Hin as [? _]; [lia|]. unfold eagle_tokens in *.
    change (hash_block_size demo_cached) with 2 in *. lia.
Defined.

(** The exception of the sliding-window search: three cached blocks of two tokens, an alignment
    of four tokens and EAGLE.  With a window of three tokens the hit is four tokens; with one of
    twenty tokens, which the prefix does not fill, the same four tokens are not found, because
    the table is aligned both before and after the EAGLE block is dropped. *)
Example eagle_loses_aligned_hit :
  let hs := block_hashes (demo_request [1; 2; 3; 4; 5; 6]) in
  let pool := (cache_full_blocks no_digest false (demo_request [1; 2; 3; 4; 5; 6]) [Blk 1; Blk 2; Blk 3]
                 0 3 2 0 None demo_used).2 in
  let hit w := match (swa_find_longest_cache_hit (RawHashes hs) 6 [0] 2 w true 4 1 1 pool).1 with
               | inr res => Some res.2 | inl _ => None end in
  hit 3 = Some 4 ∧ hit 20 = Some 0.
Proof. vm_compute. done. Qed.

Lemma swa_mask_exact_witness :
  swa_reachable_block_mask 0 8 (Some 8) 5 2 false None [] = inr (Some [false; false; true; true; false; false; true; true])
  ∧ worth_keeping (_contiguous_blocks_for_hit 5 2 false) 2 8 false None [] 6.
Proof.
  destruct (swa_mask_exact 0 8 8 5 2 false None []) as (om & E & Hm); [done..|].
  assert (om = Some [false; false; true; true; false; false; true; true]) as ->.
  { vm_compute in E. by simplify_eq. }
  split; [exact E|]. apply Hm; [lia|done].
Defined.

Lemma dense_mask_loses_no_hit_witness :
  ∃ p, pool_inv p [Blk 3]
    ∧ wp (swa_find_longest_cache_hit (RawHashes demo_hashes) 4 [0] 2 2 false 4 1 1)
        (λ (res : Hit) p', p' = p ∧ res.2 = 4) p.
Proof.
  exists demo_cached. destruct demo_cached_inv as [Hinv Hc]. split; [exact Hinv|].
  apply (dense_mask_loses_no_hit demo_cached [Blk 3] [0] demo_hashes 1 2 4 2 (Some [false; true]) [] Hinv
    demo_groups_valid); try done.
  intros i Hi _. apply Hc. change (4 / (1 * hash_block_size demo_cached)) with 2 in Hi. lia.
Defined.
