(* ===== verification/EncoderCache.v ===== *)
(** The cache of multi-modal encoder outputs ([vllm/v1/core/encoder_cache_manager.py]):
    [EncoderCacheManager], which shares outputs between requests by content hash and evicts
    unreferenced ones when space is needed, the bookkeeping-only manager of encoder-decoder
    models, and the encoder budgets.

    [freeable] is an [OrderedDict]: an association list in insertion order.  [free] iterates
    over a Python set; the order it visits the elements in is a parameter. *)

From S2P Require Import Prelude OrderedDict Request.

(** ** State *)

Record EncoderCacheManager := mkEncoderCache {
  cache_size : Z;
  num_free_slots : Z;
  num_freeable_slots : Z;
  cached : gmap string (gset string);
  request_cached_ids : gmap string (gset Z);
  freeable : list (string * Z);
  freed_hashes : list string;
}.

Definition EncoderCacheManager_init (size : Z) : EncoderCacheManager :=
  mkEncoderCache size size size ∅ ∅ [] [].

Definition set_slots (free freeable_ : Z) (s : EncoderCacheManager) : EncoderCacheManager :=
  mkEncoderCache (cache_size s) free freeable_ (cached s) (request_cached_ids s) (freeable s)
    (freed_hashes s).
Definition set_cached_hashes (c : gmap string (gset string)) (s : EncoderCacheManager)
    : EncoderCacheManager :=
  mkEncoderCache (cache_size s) (num_free_slots s) (num_freeable_slots s) c
    (request_cached_ids s) (freeable s) (freed_hashes s).
Definition set_request_ids (c : gmap string (gset Z)) (s : EncoderCacheManager)
    : EncoderCacheManager :=
  mkEncoderCache (cache_size s) (num_free_slots s) (num_freeable_slots s) (cached s) c
    (freeable s) (freed_hashes s).
Definition set_freeable (d : list (string * Z)) (s : EncoderCacheManager) : EncoderCacheManager :=
  mkEncoderCache (cache_size s) (num_free_slots s) (num_freeable_slots s) (cached s)
    (request_cached_ids s) d (freed_hashes s).
Definition set_freed (l : list string) (s : EncoderCacheManager) : EncoderCacheManager :=
  mkEncoderCache (cache_size s) (num_free_slots s) (num_freeable_slots s) (cached s)
    (request_cached_ids s) (freeable s) l.

(** ** Operations *)

Definition encoder_reset : M EncoderCacheManager unit :=
  modify (λ s, mkEncoderCache (cache_size s) (cache_size s) (cache_size s) ∅ ∅ [] []).

(** [request.mm_features[input_id].identifier]. *)
Definition input_hash (request : Request) (input_id : Z) : M EncoderCacheManager string :=
  f ← lift_option IndexError (py_get (mm_features request) input_id); mret (identifier f).

(** [self.request_cached_ids.setdefault(request_id, set()).add(input_id)]. *)
Definition note_input (rid : string) (input_id : Z) : M EncoderCacheManager unit :=
  modify (λ s, set_request_ids
    (<[rid := {[input_id]} ∪ default ∅ (request_cached_ids s !! rid)]> (request_cached_ids s)) s).

Definition check_and_update_cache (request : Request) (input_id : Z)
    : M EncoderCacheManager bool :=
  mm_hash ← input_hash request input_id;
  s ← get;
  match cached s !! mm_hash with
  | None => mret false
  | Some refs =>
      when (bool_decide (refs = ∅))
        (num_encoder_embeds ← lift_option KeyError (od_get (freeable s) mm_hash);
         modify (λ s, set_freeable (od_del (freeable s) mm_hash) s);;
         modify (λ s, set_slots (num_free_slots s) (num_freeable_slots s - num_encoder_embeds) s));;
      modify (λ s, set_cached_hashes (<[mm_hash := {[request_id request]} ∪ refs]> (cached s)) s);;
      note_input (request_id request) input_id;;
      mret true
  end.

(** [while num_embeds > self.num_free_slots: popitem(last=False)]; each round removes the
    first entry of [freeable], and popping from an empty dictionary raises [KeyError]. *)
Fixpoint evict_loop (num_embeds : Z) (entries : list (string * Z)) : M EncoderCacheManager unit :=
  free ← gets num_free_slots;
  if free <? num_embeds then
    match entries with
    | [] => raise KeyError
    | (mm_hash, num_free_embeds) :: rest =>
        modify (set_freeable rest);;
        s ← get;
        (if decide (is_Some (cached s !! mm_hash))
         then modify (set_cached_hashes (delete mm_hash (cached s))) else raise KeyError);;
        modify (λ s, set_freed (freed_hashes s ++ [mm_hash]) s);;
        modify (λ s, set_slots (num_free_slots s + num_free_embeds) (num_freeable_slots s) s);;
        evict_loop num_embeds rest
    end
  else mret tt.

Definition can_allocate (request : Request) (input_id encoder_compute_budget
    num_embeds_to_schedule : Z) : M EncoderCacheManager bool :=
  num_embeds0 ← lift_result (get_num_encoder_embeds request input_id);
  if encoder_compute_budget <? num_embeds0 then mret false
  else
    let num_embeds := num_embeds0 + num_embeds_to_schedule in
    s ← get;
    if num_embeds <=? num_free_slots s then mret true
    else if num_freeable_slots s <? num_embeds then mret false
    else evict_loop num_embeds (freeable s);; mret true.

Definition allocate (request : Request) (input_id : Z) : M EncoderCacheManager unit :=
  mm_hash ← input_hash request input_id;
  s ← get;
  when (bool_decide (cached s !! mm_hash = None))
    (modify (set_cached_hashes (<[mm_hash := ∅]> (cached s))));;
  num_encoder_embeds ← lift_result (get_num_encoder_embeds request input_id);
  assert (num_encoder_embeds <=? num_free_slots s);;
  assert (num_encoder_embeds <=? num_freeable_slots s);;
  modify (λ s, set_cached_hashes
    (<[mm_hash := {[request_id request]} ∪ default ∅ (cached s !! mm_hash)]> (cached s)) s);;
  note_input (request_id request) input_id;;
  modify (λ s, set_slots (num_free_slots s - num_encoder_embeds)
                 (num_freeable_slots s - num_encoder_embeds) s).

Definition get_cached_input_ids (s : EncoderCacheManager) (request : Request) : gset Z :=
  default ∅ (request_cached_ids s !! request_id request).

(** The cleanup of [request_cached_ids] in [free_encoder_input]. *)
Definition forget_input (rid : string) (input_id : Z) (ids : gmap string (gset Z))
    : gmap string (gset Z) :=
  match ids !! rid with
  | None => ids
  | Some X => if decide (X ∖ {[input_id]} = ∅) then delete rid ids
              else <[rid := X ∖ {[input_id]}]> ids
  end.

Definition free_encoder_input (request : Request) (input_id : Z) : M EncoderCacheManager unit :=
  let req_id := request_id request in
  mm_hash ← input_hash request input_id;
  modify (λ s, set_request_ids (forget_input req_id input_id (request_cached_ids s)) s);;
  s ← get;
  let refs := default ∅ (cached s !! mm_hash) in
  if decide (refs = ∅) then mret tt
  else
    modify (set_cached_hashes (<[mm_hash := refs ∖ {[req_id]}]> (cached s)));;
    if decide (refs ∖ {[req_id]} = ∅) then
      num_encoder_embeds ← lift_result (get_num_encoder_embeds request input_id);
      modify (λ s, set_freeable (od_set (freeable s) mm_hash num_encoder_embeds) s);;
      modify (λ s, set_slots (num_free_slots s) (num_freeable_slots s + num_encoder_embeds) s)
    else mret tt.

Section set_order.
Context (iter_order : gset Z → list Z).

Definition free_encoder_inputs (request : Request) : M EncoderCacheManager unit :=
  ids ← gets (λ s, iter_order (get_cached_input_ids s request));
  for_each ids (free_encoder_input request).
End set_order.

Definition get_freed_mm_hashes : M EncoderCacheManager (list string) :=
  s ← get;
  modify (set_freed []);;
  mret (filter (λ h, cached s !! h = None) (freed_hashes s)).

(** ** Budgets *)

Record EncoderBudgetConfig := {
  disable_chunked_mm_input : bool;
  max_num_batched_tokens : Z;
  max_num_encoder_input_tokens : Z;
  encoder_cache_size : Z;
}.

Definition compute_mm_encoder_budget (c : EncoderBudgetConfig)
    (mm_max_toks_per_item : gmap string Z) : exn + (Z * Z) :=
  match (map_to_list mm_max_toks_per_item).*2 with
  | [] => mret (0, 0)
  | x :: xs =>
      let max_tokens_per_mm_item := foldl Z.max x xs in
      if disable_chunked_mm_input c && (max_num_batched_tokens c <? max_tokens_per_mm_item)
      then inl ValueError
      else mret (Z.max (max_num_encoder_input_tokens c) max_tokens_per_mm_item,
                 Z.max (encoder_cache_size c) max_tokens_per_mm_item)
  end.

(** ** Encoder-decoder models *)

Record EncoderDecoderCacheManager := mkEncDec {
  ed_cache_size : Z;
  ed_num_free_slots : Z;
  ed_allocated : list string;
  ed_to_free : list string;
}.

Definition EncoderDecoderCacheManager_init (size : Z) : EncoderDecoderCacheManager :=
  mkEncDec size size [] [].

Definition ed_reset : M EncoderDecoderCacheManager unit :=
  modify (λ s, mkEncDec (ed_cache_size s) (ed_cache_size s) [] []).

Definition ed_check_and_update_cache (request : Request) (input_id : Z)
    : M EncoderDecoderCacheManager bool := mret false.

Definition ed_can_allocate (request : Request) (input_id encoder_compute_budget
    num_embeds_to_schedule : Z) : M EncoderDecoderCacheManager bool :=
  n ← lift_result (get_num_encoder_embeds request input_id);
  if encoder_compute_budget <? n then mret false
  else s ← get; mret (n + num_embeds_to_schedule <=? ed_num_free_slots s).

Definition ed_allocate (request : Request) (input_id : Z) : M EncoderDecoderCacheManager unit :=
  n ← lift_result (get_num_encoder_embeds request input_id);
  modify (λ s, mkEncDec (ed_cache_size s) (ed_num_free_slots s - n) (ed_allocated s) (ed_to_free s));;
  f ← lift_option IndexError (py_get (mm_features request) input_id);
  modify (λ s, mkEncDec (ed_cache_size s) (ed_num_free_slots s) (ed_allocated s ++ [identifier f])
                 (ed_to_free s)).

Definition ed_free_encoder_input (request : Request) (input_id : Z)
    : M EncoderDecoderCacheManager unit :=
  n ← lift_result (get_num_encoder_embeds request input_id);
  modify (λ s, mkEncDec (ed_cache_size s) (ed_num_free_slots s + n) (ed_allocated s) (ed_to_free s)).

Definition ed_get_cached_input_ids (request : Request) : gset Z :=
  list_to_set (py_range 0 (zlen (mm_features request))).

Definition ed_free (request : Request) : M EncoderDecoderCacheManager unit :=
  for_each (py_range 0 (zlen (mm_features request))) (ed_free_encoder_input request).

Definition ed_get_freed_mm_hashes : M EncoderDecoderCacheManager (list string) :=
  s ← get;
  modify (λ s, mkEncDec (ed_cache_size s) (ed_num_free_slots s) [] (ed_allocated s));;
  mret (ed_to_free s).
