(* ===== verification/EncoderCacheFacts.v ===== *)
(** The encoder cache: its slot counters always agree with its entries, eviction takes only
    unreferenced entries, oldest first and no more than needed, and an allocation announced by
    [can_allocate] cannot fail. *)

From S2P Require Import Prelude OrderedDict Request BlockHash BlockHashFacts EncoderCache.

Set Warnings "-level-tolerance,-clear-no-such-hyp".

(** ** Sums *)

Section sums.
Context (sz : string → Z).

(** The embeddings of all cached entries, and those listed in an ordered dictionary. *)
Definition total (c : gmap string (gset string)) : Z := map_fold (λ h _ n, sz h + n) 0 c.
Definition od_sum (d : list (string * Z)) : Z := foldr (λ e n, e.2 + n) 0 d.

Lemma total_insert_new c h refs : c !! h = None → total (<[h := refs]> c) = sz h + total c.
Proof. intros H. unfold total. rewrite map_fold_insert_L; [done|intros; lia|done]. Qed.

Lemma total_delete c h : is_Some (c !! h) → total (delete h c) = total c - sz h.
Proof.
  intros [refs H]. pose proof (total_insert_new (delete h c) h refs (lookup_delete_eq _ _)) as E.
  rewrite insert_delete_id in E by done. lia.
Qed.

Lemma total_insert c h refs : is_Some (c !! h) → total (<[h := refs]> c) = total c.
Proof.
  intros H. rewrite <-insert_delete_eq, total_insert_new by apply lookup_delete_eq.
  rewrite total_delete by done. lia.
Qed.

Lemma od_sum_app d d' : od_sum (d ++ d') = od_sum d + od_sum d'.
Proof. induction d as [|e d IH]; simpl; [lia|]. rewrite IH. lia. Qed.
End sums.

(** ** The invariant *)

(** The number of embeddings is a function of the content hash. *)
Definition sized (sz : string → Z) (r : Request) : Prop :=
  ∀ f, f ∈ mm_features r → get_num_embeds (mm_position f) = sz (identifier f).

(** Input [i] of the request exists and has hash [h]. *)
Definition has_input (r : Request) (i : Z) (h : string) : Prop :=
  0 ≤ i ∧ ∃ f, mm_features r !! Z.to_nat i = Some f ∧ identifier f = h.

Section encoder.
Context (sz : string → Z) (Hsz : ∀ h, 0 ≤ sz h).
Implicit Types (s : EncoderCacheManager) (r : Request) (h : string).

Record enc_inv s : Prop := {
  ei_keys : NoDup (freeable s).*1;
  ei_free : ∀ h, h ∈ (freeable s).*1 ↔ cached s !! h = Some ∅;
  ei_size : ∀ h n, (h, n) ∈ freeable s → n = sz h;
  ei_slots : cache_size s - num_free_slots s = total sz (cached s);
  ei_freeable : num_freeable_slots s = num_free_slots s + od_sum (freeable s);
  ei_bound : 0 ≤ num_free_slots s;
}.

Lemma total_nonneg c : 0 ≤ total sz c.
Proof using Hsz.
  unfold total. apply (map_fold_weak_ind (λ n _, 0 ≤ n)); [lia|].
  intros h refs m n _ ?. specialize (Hsz h). lia.
Qed.

Lemma od_sum_nonneg d : (∀ h n, (h, n) ∈ d → n = sz h) → 0 ≤ od_sum d.
Proof using Hsz.
  induction d as [|[h n] d IH]; intros Hd; simpl; [lia|].
  rewrite (Hd h n) by left. specialize (Hsz h).
  assert (0 ≤ od_sum d); [|lia]. apply IH. intros h' n' H'. apply Hd. by right.
Qed.

(** The counters stay between zero and the size of the cache: every unreferenced entry is
    also counted as cached. *)
Lemma od_sum_le_total d c :
  NoDup d.*1 → (∀ h n, (h, n) ∈ d → n = sz h) → (∀ h, h ∈ d.*1 → is_Some (c !! h)) →
  od_sum d ≤ total sz c.
Proof using Hsz.
  revert c. induction d as [|[h n] d IH]; intros c Hnd Hd Hc; simpl; [apply total_nonneg|].
  apply NoDup_cons in Hnd as [Hh Hnd]. rewrite (Hd h n) by left.
  assert (od_sum d ≤ total sz (delete h c)) as H.
  { apply IH; [done| |].
    - intros h' n' H'. apply Hd. by right.
    - intros h' H'. rewrite lookup_delete_ne; [|by intros ->]. apply Hc. by right. }
  rewrite total_delete in H; [lia|]. apply Hc. left.
Qed.

Lemma enc_bounds s :
  enc_inv s → 0 ≤ num_free_slots s ≤ num_freeable_slots s ∧ num_freeable_slots s ≤ cache_size s.
Proof using Hsz.
  intros [H1 H2 H3 H4 H5 H6]. pose proof (od_sum_nonneg _ H3).
  assert (od_sum (freeable s) ≤ total sz (cached s)); [|lia].
  apply od_sum_le_total; [done|done|]. intros h Hh. apply H2 in Hh. by eexists.
Qed.

(** ** Reading the request *)

Lemma input_size r i h :
  sized sz r → has_input r i h → get_num_encoder_embeds r i = inr (sz h).
Proof.
  intros Hs (Hi & f & Hf & <-). unfold get_num_encoder_embeds, result_assert.
  pose proof (lookup_lt_Some _ _ _ Hf) as Hlt.
  rewrite (proj2 (Z.ltb_lt _ _)) by (unfold zlen; lia). simpl.
  rewrite py_get_nonneg, Hf by done. simpl. unfold mret, result_ret. f_equal. apply Hs.
  by eapply list_elem_of_lookup_2.
Qed.

Lemma wp_input_hash r i h Q s : has_input r i h → Q h s → wp (input_hash r i) Q s.
Proof.
  intros (Hi & f & Hf & <-) HQ. unfold input_hash. wp_steps.
  rewrite py_get_nonneg by done. eapply wp_lift_option; [done|]. by wp_steps.
Qed.

(** ** Operations *)

(** An entry gets a reference. *)
Lemma reference_inv s h refs X ids :
  enc_inv s → cached s !! h = Some refs → X ≠ ∅ →
  enc_inv (mkEncoderCache (cache_size s) (num_free_slots s)
    (num_freeable_slots s - (if decide (refs = ∅) then sz h else 0))
    (<[h := X]> (cached s)) ids (od_del (freeable s) h) (freed_hashes s)).
Proof.
  intros [H1 H2 H3 H4 H5 H6] Hc HX.
  assert (∀ e, e ∈ od_del (freeable s) h ↔ e.1 ≠ h ∧ e ∈ freeable s) as Hdel.
  { intros e. unfold od_del. by rewrite list_elem_of_filter. }
  split; simpl; try done.
  - by apply od_del_nodup.
  - intros h'. rewrite lookup_insert. case_decide as Eh.
    + subst h'. split; [|by intros [= ->]].
      intros (e & -> & [Hne _]%Hdel)%list_elem_of_fmap. done.
    + rewrite <-H2, !list_elem_of_fmap. split; intros (e & -> & He); exists e; (split; [done|]).
      * by apply Hdel in He as [_ ?].
      * apply Hdel. by split.
  - intros h' n Hn. apply H3. by apply Hdel in Hn as [_ ?].
  - by rewrite total_insert.
  - case_decide as Er.
    + subst refs. destruct (od_get_Some (freeable s) h) as [v Hv]; [by apply H2|].
      destruct (od_get_split _ _ _ (conj Hv H1)) as (d1 & d2 & Ed & -> & _).
      rewrite <-(H3 h v) by (rewrite Ed; set_solver). rewrite H5, Ed, !od_sum_app. simpl. lia.
    + rewrite od_del_fresh; [lia|]. rewrite H2, Hc. by intros [= ->].
Qed.

Lemma check_spec r i h s :
  enc_inv s → has_input r i h →
  wp (check_and_update_cache r i)
    (λ b s', enc_inv s' ∧ (b = true ↔ is_Some (cached s !! h))
       ∧ (b = false → s' = s)
       ∧ (b = true → cached s' = <[h := {[request_id r]} ∪ default ∅ (cached s !! h)]> (cached s)
            ∧ i ∈ get_cached_input_ids s' r ∧ num_free_slots s' = num_free_slots s)) s.
Proof.
  intros H Hin. unfold check_and_update_cache, note_input. apply wp_bind.
  eapply wp_input_hash; [done|]. wp_steps.
  destruct (cached s !! h) as [refs|] eqn:Ec.
  2: { wp_steps. split_and!; done. }
  assert ({[request_id r]} ∪ refs ≠ ∅) as HX by set_solver.
  pose proof (reference_inv s h refs _ (<[request_id r := {[i]} ∪ default ∅ (request_cached_ids s !! request_id r)]>
    (request_cached_ids s)) H Ec HX) as Hinv.
  apply wp_bind, wp_when; intros Hb; bool_hyps.
  - subst refs. rewrite decide_True in Hinv by done.
    assert (h ∈ (freeable s).*1) as Hf by by apply (ei_free _ H).
    destruct (od_get_Some _ _ Hf) as [v Hv].
    assert (v = sz h) as ->.
    { destruct (od_get_split _ _ _ (conj Hv (ei_keys _ H))) as (d1 & d2 & Ed & _).
      apply (ei_size _ H). rewrite Ed. set_solver. }
    wp_steps. eapply wp_lift_option; [exact Hv|]. wp_steps. split_and!; [exact Hinv|done|done|].
    intros _. split_and!; [done| |done]. unfold get_cached_input_ids. simpl.
    rewrite lookup_insert_eq. set_solver.
  - rewrite decide_False, Z.sub_0_r in Hinv by done.
    assert (od_del (freeable s) h = freeable s) as Edel.
    { apply od_del_fresh. rewrite (ei_free _ H), Ec. by intros [= ->]. }
    rewrite Edel in Hinv. wp_steps. split_and!; [exact Hinv|done|done|].
    intros _. split_and!; [done| |done]. unfold get_cached_input_ids. simpl.
    rewrite lookup_insert_eq. set_solver.
Qed.

(** ** Eviction *)

(** The state after the first [k] unreferenced entries were evicted. *)
Record evicted s (k : nat) s' : Prop := {
  ev_inv : enc_inv s';
  ev_freeable : freeable s' = drop k (freeable s);
  ev_freed : freed_hashes s' = freed_hashes s ++ take k (freeable s).*1;
  ev_free : num_free_slots s' = num_free_slots s + od_sum (take k (freeable s));
  ev_slots : num_freeable_slots s' = num_freeable_slots s ∧ cache_size s' = cache_size s;
  ev_cached : ∀ h, cached s' !! h = if decide (h ∈ take k (freeable s).*1) then None else cached s !! h;
  ev_ids : request_cached_ids s' = request_cached_ids s;
}.

Lemma evicted_0 s : enc_inv s → evicted s 0 s.
Proof.
  intros H. split; simpl; rewrite ?app_nil_r, ?drop_0; try done. lia.
Qed.

Lemma enc_evicted_step s h n rest :
  enc_inv s → freeable s = (h, n) :: rest →
  evicted s 1 (mkEncoderCache (cache_size s) (num_free_slots s + n) (num_freeable_slots s)
    (delete h (cached s)) (request_cached_ids s) rest (freed_hashes s ++ [h])).
Proof using Hsz.
  intros [H1 H2 H3 H4 H5 H6] E. rewrite E in *. simpl in *. apply NoDup_cons in H1 as [Hh Hnd].
  assert (is_Some (cached s !! h)) as Hc by (exists ∅; apply H2; left).
  assert (n = sz h) as -> by (apply H3; left).
  split; simpl; rewrite ?E; simpl; try done; [|lia|].
  - split; simpl; try done.
    + intros h'. rewrite lookup_delete. case_decide as Eh; [by subst|].
      rewrite <-H2, elem_of_cons. split; [by right|]. by intros [->|?].
    + intros h' n' Hn. apply H3. by right.
    + rewrite total_delete by done. lia.
    + lia.
    + specialize (Hsz h). lia.
  - intros h'. rewrite lookup_delete. repeat case_decide; set_solver.
Qed.

Lemma evicted_trans s s1 s2 k : evicted s 1 s1 → evicted s1 k s2 → evicted s (S k) s2.
Proof.
  intros [A1 A2 A3 A4 A5 A6 A7] [B1 B2 B3 B4 B5 B6 B7]. rewrite A2 in *.
  assert (∀ d : list (string * Z), take (S k) d = take 1 d ++ take k (drop 1 d)) as Et by (intros [|x d]; simpl; rewrite ?take_nil, ?drop_0; done).
  assert (take (S k) (freeable s).*1 = take 1 (freeable s).*1 ++ take k (drop 1 (freeable s)).*1) as Ek.
  { rewrite <-!fmap_take. rewrite Et, fmap_app. done. }
  split; try done.
  - rewrite B2, drop_drop. f_equal.
  - by rewrite B3, A3, Ek, (assoc_L (++)).
  - rewrite B4, A4, Et, od_sum_app. lia.
  - destruct A5, B5. split; congruence.
  - intros h. rewrite B6, A6, Ek. repeat case_decide; set_solver.
  - congruence.
Qed.

Lemma evict_loop_spec (need : Z) s :
  enc_inv s → need ≤ num_freeable_slots s →
  wp (evict_loop need (freeable s))
    (λ _ s', ∃ k, evicted s k s' ∧ need ≤ num_free_slots s'
       ∧ ∀ j, (j < k)%nat → num_free_slots s + od_sum (take j (freeable s)) < need) s.
Proof using Hsz.
  remember (freeable s) as d eqn:Ed. revert s Ed. induction d as [|[h n] rest IH]; intros s Ed H Hn; simpl.
  - wp_steps. pose proof (ei_freeable _ H) as E. rewrite <-Ed in E. simpl in E.
    rewrite (proj2 (Z.ltb_ge _ _)) by lia. wp_steps. exists 0%nat.
    split_and!; [by apply evicted_0|lia|]. intros j Hj. lia.
  - wp_steps. destruct (Z.ltb_spec (num_free_slots s) need) as [Hlt|Hge].
    2: { wp_steps. exists 0%nat. split_and!; [by apply evicted_0|lia|]. intros j Hj. lia. }
    pose proof (enc_evicted_step s h n rest H (eq_sym Ed)) as Hst.
    assert (is_Some (cached s !! h)) as Hc.
    { exists ∅. apply (ei_free _ H). rewrite <-Ed. left. }
    wp_steps. simpl. rewrite decide_True by done. wp_steps. simpl.
    eapply wp_mono; [apply (IH (mkEncoderCache (cache_size s) (num_free_slots s + n) (num_freeable_slots s)
      (delete h (cached s)) (request_cached_ids s) rest (freed_hashes s ++ [h]))); [done|apply Hst|done]|].
    simpl. intros _ s' (k & Hk & Hneed & Hmin). exists (S k). split_and!.
    + by eapply evicted_trans.
    + done.
    + intros [|j] Hj; simpl; [lia|]. specialize (Hmin j ltac:(lia)). lia.
Qed.

(** What [can_allocate] reports and does: it evicts the shortest prefix of the unreferenced
    entries, oldest first, that makes room. *)
Lemma can_allocate_spec r i h (budget sched : Z) s :
  enc_inv s → sized sz r → has_input r i h →
  wp (can_allocate r i budget sched)
    (λ b s', (b = true ↔ sz h ≤ budget ∧ sz h + sched ≤ num_freeable_slots s)
       ∧ (b = false → s' = s)
       ∧ (b = true → sz h + sched ≤ num_free_slots s' ∧
            ∃ k, evicted s k s'
              ∧ ∀ j, (j < k)%nat → num_free_slots s + od_sum (take j (freeable s)) < sz h + sched)) s.
Proof using Hsz.
  intros H Hs Hin. pose proof (enc_bounds s H). unfold can_allocate. wp_steps.
  eapply wp_lift_result; [by apply input_size|].
  destruct (Z.ltb_spec budget (sz h)).
  { wp_steps. split_and!; [|done|done]. split; [done|lia]. }
  wp_steps. destruct (Z.leb_spec (sz h + sched) (num_free_slots s)).
  { wp_steps. split_and!; [split; [lia|done]|done|]. intros _. split; [done|]. exists 0%nat.
    split; [by apply evicted_0|]. intros j Hj. lia. }
  destruct (Z.ltb_spec (num_freeable_slots s) (sz h + sched)).
  { wp_steps. split_and!; [|done|done]. split; [done|lia]. }
  wp_steps. eapply wp_mono; [by apply evict_loop_spec|]. simpl.
  intros _ s' (k & Hk & Hn & Hmin). wp_steps. split_and!; [split; [lia|done]|done|]. eauto.
Qed.

Lemma allocate_spec r i h s :
  enc_inv s → sized sz r → has_input r i h → cached s !! h = None → sz h ≤ num_free_slots s →
  wp (allocate r i)
    (λ _ s', enc_inv s' ∧ cached s' = <[h := {[request_id r]}]> (cached s)
       ∧ i ∈ get_cached_input_ids s' r ∧ freeable s' = freeable s
       ∧ num_free_slots s' = num_free_slots s - sz h
       ∧ num_freeable_slots s' = num_freeable_slots s - sz h) s.
Proof using Hsz.
  intros H Hs Hin Hc Hn. pose proof (enc_bounds s H). unfold allocate, note_input. apply wp_bind.
  eapply wp_input_hash; [done|]. wp_steps. rewrite bool_decide_eq_true_2 by done. simpl.
  wp_steps. eapply wp_lift_result; [by apply input_size|]. wp_steps.
  apply wp_assert; [apply Z.leb_le; lia|]. wp_steps. apply wp_assert; [apply Z.leb_le; lia|].
  wp_steps. simpl. rewrite lookup_insert_eq, insert_insert_eq. simpl. rewrite union_empty_r_L.
  split_and!; try done.
  - destruct H as [H1 H2 H3 H4 H5 H6]. split; simpl; try done; [|rewrite total_insert_new by done; lia|lia|lia].
    intros h'. rewrite H2, lookup_insert. case_decide; [subst|done]. rewrite Hc. split; [done|].
    by intros [= ?].
  - unfold get_cached_input_ids. simpl. rewrite lookup_insert_eq. set_solver.
Qed.

(** ** Release *)

Lemma forget_input_ids rid i ids rid' :
  default ∅ (forget_input rid i ids !! rid')
  = if decide (rid = rid') then default ∅ (ids !! rid') ∖ {[i]} else default ∅ (ids !! rid').
Proof.
  unfold forget_input. destruct (ids !! rid) as [X|] eqn:E.
  - case_decide as HX; case_decide as Hr; subst.
    + rewrite lookup_delete_eq, E. simpl. by rewrite HX.
    + by rewrite lookup_delete_ne.
    + by rewrite lookup_insert_eq, E.
    + by rewrite lookup_insert_ne.
  - case_decide; [subst|done]. rewrite E. simpl. set_solver.
Qed.

Lemma free_input_spec r i h s :
  enc_inv s → sized sz r → has_input r i h →
  wp (free_encoder_input r i)
    (λ _ s', enc_inv s' ∧ num_free_slots s' = num_free_slots s
       ∧ get_cached_input_ids s' r = get_cached_input_ids s r ∖ {[i]}
       ∧ (∀ h', cached s' !! h' = if decide (h' = h) then (.∖ {[request_id r]}) <$> cached s !! h
                                  else cached s !! h')) s.
Proof.
  intros H Hs Hin. unfold free_encoder_input. apply wp_bind. eapply wp_input_hash; [done|].
  wp_steps. simpl.
  assert (∀ s', request_cached_ids s' = forget_input (request_id r) i (request_cached_ids s) →
    get_cached_input_ids s' r = get_cached_input_ids s r ∖ {[i]}) as Hids.
  { intros s' E. unfold get_cached_input_ids. by rewrite E, forget_input_ids, decide_True. }
  assert (enc_inv (set_request_ids (forget_input (request_id r) i (request_cached_ids s)) s)) as H'.
  { destruct H. by split. }
  case_decide as Hr.
  { wp_steps. split_and!; [done|done|by apply Hids|]. intros h'. case_decide; [subst|done]. simpl.
    destruct (cached s !! h) as [X|]; [|done]. simpl in *. subst X. f_equal. set_solver. }
  destruct (cached s !! h) as [X|] eqn:Ec; simpl in *; [|done].
  assert (h ∉ (freeable s).*1) as Hnf by (rewrite (ei_free _ H), Ec; by intros [= ->]).
  wp_steps. simpl. case_decide as HX.
  - wp_steps. eapply wp_lift_result; [by apply input_size|]. wp_steps. simpl.
    split_and!; [|done|by apply Hids|].
    + rewrite od_set_fresh by done. destruct H as [H1 H2 H3 H4 H5 H6]. split; simpl; try done.
      * rewrite fmap_app. apply NoDup_app. split_and!; [done| |apply NoDup_singleton].
        intros x Hx ->%list_elem_of_singleton. done.
      * intros h'. rewrite fmap_app, elem_of_app, H2. simpl. rewrite list_elem_of_singleton, HX, lookup_insert.
        case_decide; [subst; naive_solver|]. naive_solver.
      * intros h' n' [?|[= -> ->]%list_elem_of_singleton]%elem_of_app; [by apply H3|done].
      * by rewrite total_insert.
      * rewrite od_sum_app. simpl. lia.
    + intros h'. rewrite lookup_insert. repeat case_decide; by subst.
  - wp_steps. split_and!; [|done|by apply Hids|].
    + destruct H as [H1 H2 H3 H4 H5 H6]. split; simpl; try done.
      * intros h'. rewrite H2, lookup_insert. case_decide; [subst|done]. rewrite Ec.
        split; intros [= ?]; by subst.
      * by rewrite total_insert.
    + intros h'. simpl. rewrite lookup_insert. repeat case_decide; by subst.
Qed.

(** Releasing all inputs [ids] of a request, in any order. *)
Lemma free_loop_spec r ids s :
  enc_inv s → sized sz r → (∀ i, i ∈ ids → ∃ h, has_input r i h) →
  wp (for_each ids (free_encoder_input r))
    (λ _ s', enc_inv s' ∧ num_free_slots s' = num_free_slots s
       ∧ get_cached_input_ids s' r = get_cached_input_ids s r ∖ list_to_set ids
       ∧ (∀ h rid, rid ∈ default ∅ (cached s' !! h) ↔
            rid ∈ default ∅ (cached s !! h)
            ∧ ¬ (rid = request_id r ∧ ∃ i, i ∈ ids ∧ has_input r i h))) s.
Proof.
  revert s. induction ids as [|i ids IH]; intros s H Hs Hin; simpl.
  { wp_steps. split_and!; [done|done|set_solver|]. intros h rid. set_solver. }
  destruct (Hin i) as [h0 Hh0]; [left|]. apply wp_bind.
  eapply wp_mono; [by apply free_input_spec|]. simpl. intros _ s1 (H1 & En & Eids & Ec).
  eapply wp_mono; [apply IH; [done|done|]|].
  { intros j Hj. apply Hin. by right. }
  simpl. intros _ s2 (H2 & En2 & Eids2 & Ec2). split_and!; [done|congruence| |].
  - rewrite Eids2, Eids. set_solver.
  - assert (∀ h, has_input r i h → h = h0) as Huniq.
    { intros h (_ & f & Hf & <-). destruct Hh0 as (_ & f' & Hf' & <-). congruence. }
    intros h rid. rewrite Ec2, Ec. setoid_rewrite elem_of_cons. case_decide as Eh.
    + subst h. destruct (cached s !! h0) as [X|]; simpl; [|set_solver].
      rewrite elem_of_difference, elem_of_singleton. naive_solver.
    + naive_solver.
Qed.

(** ** Reachable states *)

Inductive enc_step (iter_order : gset Z → list Z) : EncoderCacheManager → EncoderCacheManager → Prop :=
  | step_reset s : enc_step iter_order s (encoder_reset s).2
  | step_check r i h b s s' : sized sz r → has_input r i h →
      check_and_update_cache r i s = (inr b, s') → enc_step iter_order s s'
  | step_can_allocate r i h budget sched b s s' : sized sz r → has_input r i h →
      can_allocate r i budget sched s = (inr b, s') → enc_step iter_order s s'
  | step_allocate r i h s s' : sized sz r → has_input r i h →
      cached s !! h = None → sz h ≤ num_free_slots s →
      allocate r i s = (inr tt, s') → enc_step iter_order s s'
  | step_free_input r i h s s' : sized sz r → has_input r i h →
      free_encoder_input r i s = (inr tt, s') → enc_step iter_order s s'
  | step_free r s s' : sized sz r →
      (∀ i, i ∈ iter_order (get_cached_input_ids s r) → ∃ h, has_input r i h) →
      free_encoder_inputs iter_order r s = (inr tt, s') → enc_step iter_order s s'
  | step_freed l s s' : get_freed_mm_hashes s = (inr l, s') → enc_step iter_order s s'.

Definition enc_reachable iter_order (size : Z) s : Prop :=
  rtc (enc_step iter_order) (EncoderCacheManager_init size) s.

Lemma wp_result {A} (m : M EncoderCacheManager A) Q s a s' : wp m Q s → m s = (inr a, s') → Q a s'.
Proof. intros (a' & s2 & E & HQ) E'. rewrite E in E'. by simplify_eq. Qed.

Lemma init_inv size : 0 ≤ size → enc_inv (EncoderCacheManager_init size).
Proof.
  intros H. split; simpl; try done; [constructor|..].
  - intros h. rewrite elem_of_nil, lookup_empty. split; done.
  - intros h n []%elem_of_nil.
  - unfold total. rewrite map_fold_empty. lia.
  - lia.
Qed.

Lemma enc_step_inv iter_order s s' : enc_step iter_order s s' → enc_inv s → enc_inv s'.
Proof using Hsz.
  destruct 1 as [s|r i h b s s' Hr Hi E|r i h bu sc b s s' Hr Hi E|r i h s s' Hr Hi Hc Hn E
                 |r i h s s' Hr Hi E|r s s' Hr Hi E|l s s' E]; intros Hinv.
  - apply (init_inv (cache_size s)). pose proof (enc_bounds s Hinv). lia.
  - by apply (wp_result _ _ _ _ _ (check_spec r i h s Hinv Hi) E).
  - destruct (wp_result _ _ _ _ _ (can_allocate_spec r i h bu sc s Hinv Hr Hi) E)
      as (_ & Hf & Ht). destruct b; [|by rewrite (Hf eq_refl)]. by destruct (Ht eq_refl) as (_ & k & [] & _).
  - by apply (wp_result _ _ _ _ _ (allocate_spec r i h s Hinv Hr Hi Hc Hn) E).
  - by apply (wp_result _ _ _ _ _ (free_input_spec r i h s Hinv Hr Hi) E).
  - assert (wp (free_encoder_inputs iter_order r) (λ _ s', enc_inv s') s) as Hwp.
    { unfold free_encoder_inputs. wp_steps. eapply wp_mono; [by apply free_loop_spec|]. naive_solver. }
    by apply (wp_result _ _ _ _ _ Hwp E).
  - unfold get_freed_mm_hashes, mbind, M_bind, get, modify in E. simpl in E.
    injection E as <- <-. destruct Hinv. by split.
Qed.

Lemma enc_reachable_inv iter_order size s : 0 ≤ size → enc_reachable iter_order size s → enc_inv s.
Proof using Hsz.
  intros Hsize Hr. assert (enc_inv (EncoderCacheManager_init size)) as H0 by by apply init_inv.
  induction Hr as [|s1 s2 s3 Hst _ IH]; [done|]. apply IH. by eapply enc_step_inv.
Qed.

(** ** Announced allocations *)

(** The scheduler announces the inputs of a step one by one, passing on the embeddings it
    already announced, and allocates the accepted ones afterwards. *)
Fixpoint announce r (budget sched : Z) (inputs : list Z) : M EncoderCacheManager bool :=
  match inputs with
  | [] => mret true
  | i :: inputs' =>
      b ← can_allocate r i budget sched;
      if (b : bool)
      then n ← lift_result (get_num_encoder_embeds r i); announce r budget (sched + n) inputs'
      else mret false
  end.

Definition demand (hs : list string) : Z := foldr (λ h n, sz h + n) 0 hs.

Lemma announce_spec r budget sched inputs hs s :
  enc_inv s → sized sz r → Forall2 (has_input r) inputs hs → 0 ≤ sched ≤ num_free_slots s →
  wp (announce r budget sched inputs)
    (λ b s', enc_inv s' ∧ (∀ h, cached s !! h = None → cached s' !! h = None)
       ∧ (∀ h X, cached s !! h = Some X → X ≠ ∅ → cached s' !! h = Some X)
       ∧ (b = true → sched + demand hs ≤ num_free_slots s')) s.
Proof using Hsz.
  intros H Hs HF. revert sched s H.
  induction HF as [|i h inputs hs Hi HF IH]; intros sched s H Hsched; simpl.
  { wp_steps. split_and!; [done|done|done|lia]. }
  wp_steps. eapply wp_mono; [by apply can_allocate_spec|]. simpl.
  intros b s1 (_ & Hf & Ht). destruct b.
  - destruct (Ht eq_refl) as (Hn & k & [Hinv _ _ _ _ Hc _] & _). wp_steps.
    eapply wp_lift_result; [by apply input_size|].
    eapply wp_mono; [apply (IH (sched + sz h) s1 Hinv)|].
    + specialize (Hsz h). lia.
    + simpl. intros b s2 (H2 & Hnc & Hkeep & Hd). split_and!; [done| | |intros Hb; specialize (Hd Hb); lia].
      * intros h' Hh'. apply Hnc. rewrite Hc. by case_decide.
      * intros h' X HX Hne. apply Hkeep; [|done]. rewrite Hc, decide_False; [done|].
        intros Hin. assert (h' ∈ (freeable s).*1) as Hfr.
        { eapply elem_of_submseteq; [exact Hin|]. apply sublist_submseteq, sublist_take. }
        apply (ei_free _ H) in Hfr. congruence.
  - wp_steps. rewrite (Hf eq_refl). done.
Qed.

Lemma allocate_all_spec r inputs hs s :
  enc_inv s → sized sz r → Forall2 (has_input r) inputs hs → NoDup hs →
  (∀ h, h ∈ hs → cached s !! h = None) → demand hs ≤ num_free_slots s →
  wp (for_each inputs (allocate r))
    (λ _ s', enc_inv s' ∧ num_free_slots s' = num_free_slots s - demand hs
       ∧ (∀ h, h ∈ hs → cached s' !! h = Some {[request_id r]})
       ∧ (∀ h, h ∉ hs → cached s' !! h = cached s !! h)) s.
Proof using Hsz.
  intros H Hs HF. revert s H.
  induction HF as [|i h inputs hs Hi HF IH]; intros s H Hnd Hnc Hd; simpl in *.
  { wp_steps. split_and!; [done|lia|set_solver|done]. }
  apply NoDup_cons in Hnd as [Hh Hnd]. assert (0 ≤ demand hs) as Hd0.
  { clear -Hsz. induction hs as [|x hs IH]; simpl; [lia|]. specialize (Hsz x). lia. }
  apply wp_bind. eapply wp_mono; [apply (allocate_spec r i h s H Hs Hi); [apply Hnc; left|lia]|].
  simpl. intros _ s1 (H1 & Ec & _ & _ & En & _).
  eapply wp_mono; [apply (IH s1 H1 Hnd)|].
  - intros h' Hh'. rewrite Ec, lookup_insert_ne; [|by intros ->]. apply Hnc. by right.
  - lia.
  - simpl. intros _ s2 (H2 & En2 & Hin & Hout). split_and!; [done|lia| |].
    + intros h' [->|Hh']%elem_of_cons; [|by apply Hin]. rewrite Hout, Ec by done. apply lookup_insert_eq.
    + intros h' [Hne Hn]%not_elem_of_cons. by rewrite Hout, Ec, lookup_insert_ne.
Qed.
End encoder.

(** ** Properties *)

Section properties.
Context (sz : string → Z) (Hsz : ∀ h, 0 ≤ sz h).
Implicit Types (s : EncoderCacheManager) (r : Request) (h : string).

(** C37: the slot accounting of the encoder cache.  When the number of embeddings depends only
    on the content hash, then in every reachable state the used slots are exactly the
    embeddings of the cached entries, the reclaimable ones exactly those of the entries no
    request refers to, the counters stay within the cache, and eviction candidates are
    exactly the unreferenced entries. *)
Theorem encoder_cache_accounting iter_order (size : Z) s :
  0 ≤ size → enc_reachable sz iter_order size s →
  cache_size s - num_free_slots s = total sz (cached s)
  ∧ num_freeable_slots s - num_free_slots s = od_sum (freeable s)
  ∧ 0 ≤ num_free_slots s ≤ num_freeable_slots s ∧ num_freeable_slots s ≤ cache_size s
  ∧ (∀ h, h ∈ (freeable s).*1 ↔ cached s !! h = Some ∅).
Proof using Hsz.
  intros Hsize Hr. pose proof (enc_reachable_inv sz Hsz iter_order size s Hsize Hr) as H.
  pose proof (enc_bounds sz Hsz s H). destruct H as [H1 H2 H3 H4 H5 H6].
  split_and!; [done|lia|lia|lia|lia|done].
Qed.

(** [can_allocate].  It answers yes exactly when the input fits the compute budget and
    the free plus reclaimable space.  Then the space is available afterwards, and the entries
    evicted for it are the oldest unreferenced ones and no more than necessary: entries with
    references and the rest of the queue are untouched.  A no changes nothing. *)
Theorem can_allocate_correct r (i budget sched : Z) h s :
  enc_inv sz s → sized sz r → has_input r i h →
  wp (can_allocate r i budget sched)
    (λ b s', (b = true ↔ sz h ≤ budget ∧ sz h + sched ≤ num_freeable_slots s)
       ∧ (b = false → s' = s)
       ∧ (b = true → sz h + sched ≤ num_free_slots s' ∧
            ∃ k, evicted sz s k s'
              ∧ ∀ j, (j < k)%nat → num_free_slots s + od_sum (take j (freeable s)) < sz h + sched)) s.
Proof using Hsz. intros. by apply can_allocate_spec. Qed.

(** announced allocations succeed.  When the scheduler announces inputs with distinct
    uncached hashes one after the other and every announcement is accepted, allocating them
    all afterwards raises nothing, takes exactly their space and leaves the request as their
    only user; no entry that was in use before is evicted or changed. *)
Theorem announced_allocations_succeed r (budget : Z) inputs hs s :
  enc_inv sz s → sized sz r → Forall2 (has_input r) inputs hs → NoDup hs →
  (∀ h, h ∈ hs → cached s !! h = None) →
  wp (b ← announce r budget 0 inputs;
      (if (b : bool) then for_each inputs (allocate r) else mret tt);; mret b)
    (λ b s', enc_inv sz s'
       ∧ (b = true → ∀ h, h ∈ hs → cached s' !! h = Some {[request_id r]})
       ∧ (∀ h X, cached s !! h = Some X → X ≠ ∅ → cached s' !! h = Some X)) s.
Proof using Hsz.
  intros H Hs HF Hnd Hnc. apply wp_bind.
  eapply wp_mono; [apply (announce_spec sz Hsz r budget 0 inputs hs s H Hs HF)|].
  { pose proof (enc_bounds sz Hsz s H). lia. }
  simpl. intros b s1 (H1 & Hnone & Hkeep & Hd). apply wp_bind. destruct b; [|by wp_steps].
  eapply wp_mono; [apply (allocate_all_spec sz Hsz r inputs hs s1 H1 Hs HF Hnd)|].
  - intros h Hh. by apply Hnone, Hnc.
  - specialize (Hd eq_refl). lia.
  - simpl. intros _ s2 (H2 & _ & Hin & Hout). wp_steps. split_and!; [done|by intros _|].
    intros h X HX Hne. rewrite Hout; [by apply Hkeep|]. intros Hh. rewrite Hnc in HX; done.
Qed.

(** Releasing a request.  Whatever order the set of its cached inputs is visited in,
    [free] succeeds, the request holds no input afterwards and refers to none of the entries
    it held, the references of all other requests stay, and no slot is given back before
    eviction. *)
Theorem encoder_free_correct iter_order r s :
  enc_inv sz s → sized sz r → (∀ X, iter_order X ≡ₚ elements X) →
  (∀ i, i ∈ get_cached_input_ids s r → ∃ h, has_input r i h) →
  wp (free_encoder_inputs iter_order r)
    (λ _ s', enc_inv sz s' ∧ get_cached_input_ids s' r = ∅ ∧ num_free_slots s' = num_free_slots s
       ∧ (∀ i h, i ∈ get_cached_input_ids s r → has_input r i h →
            request_id r ∉ default ∅ (cached s' !! h))
       ∧ (∀ h rid, rid ≠ request_id r →
            rid ∈ default ∅ (cached s' !! h) ↔ rid ∈ default ∅ (cached s !! h))) s.
Proof.
  intros H Hs Hord Hin. unfold free_encoder_inputs. wp_steps.
  assert (∀ i, i ∈ iter_order (get_cached_input_ids s r) ↔ i ∈ get_cached_input_ids s r) as Helem.
  { intros i. by rewrite Hord, elem_of_elements. }
  eapply wp_mono; [apply (free_loop_spec sz Hsz r _ s H Hs)|].
  - intros i Hi. by apply Hin, Helem.
  - simpl. intros _ s' (H' & En & Eids & Href). split_and!; [done| |done| |].
    + rewrite Eids. apply set_eq. intros i. rewrite elem_of_difference, elem_of_list_to_set, Helem. set_solver.
    + intros i h Hi Hh. rewrite Href. intros [_ Hn]. apply Hn. split; [done|]. exists i. by rewrite Helem.
    + intros h rid Hne. rewrite Href. naive_solver.
Qed.
End properties.

(** ** Concrete caches *)

(** A request with two images of three embeddings each. *)
Definition image_request (first_image : string) : Request :=
  match Request_init None (two_image_args first_image) with
  | inr r => r
  | inl _ => demo_request []
  end.

Lemma image_request_sized img : sized (λ _, 3) (image_request img).
Proof. intros f [->|[->|[]%elem_of_nil]%elem_of_cons]%elem_of_cons; done. Qed.

Lemma image_request_inputs img :
  has_input (image_request img) 0 img ∧ has_input (image_request img) 1 "shared".
Proof. split; (split; [lia|]); by eexists. Qed.

(** A cache of eight slots in which the request holds its first image. *)
Definition one_image : EncoderCacheManager :=
  (allocate (image_request "cat") 0 (EncoderCacheManager_init 8)).2.

Lemma one_image_reachable : enc_reachable (λ _, 3) elements 8 one_image.
Proof.
  apply rtc_once. apply (step_allocate _ _ (image_request "cat") 0 "cat"); try done.
  - apply image_request_sized.
  - apply image_request_inputs.
Qed.

Lemma one_image_inv : enc_inv (λ _, 3) one_image.
Proof. apply (enc_reachable_inv (λ _, 3) ltac:(done) elements 8); [done|apply one_image_reachable]. Qed.

Lemma encoder_cache_accounting_witness :
  cache_size one_image - num_free_slots one_image = total (λ _, 3) (cached one_image)
  ∧ num_free_slots one_image = 5.
Proof.
  split; [|done].
  apply (encoder_cache_accounting (λ _, 3) ltac:(done) elements 8 one_image ltac:(done) one_image_reachable).
Defined.

Lemma can_allocate_correct_witness :
  wp (can_allocate (image_request "cat") 1 4 2) (λ b _, b = true) one_image.
Proof.
  eapply wp_mono; [apply (can_allocate_correct (λ _, 3) ltac:(done) (image_request "cat") 1 4 2 "shared" one_image
    one_image_inv (image_request_sized _))|].
  - apply image_request_inputs.
  - simpl. intros b s' (Hb & _). apply Hb. split; [lia|]. vm_compute. discriminate.
Defined.

Lemma announced_allocations_succeed_witness :
  wp (b ← announce (image_request "cat") 4 0 [0; 1];
      (if (b : bool) then for_each [0; 1] (allocate (image_request "cat")) else mret tt);; mret b)
    (λ b s', b = true → cached s' !! "shared" = Some {["r"]}) (EncoderCacheManager_init 8).
Proof.
  eapply wp_mono; [apply (announced_allocations_succeed (λ _, 3) ltac:(done) (image_request "cat") 4 [0; 1]
    ["cat"; "shared"] (EncoderCacheManager_init 8))|].
  - by apply init_inv.
  - apply image_request_sized.
  - destruct (image_request_inputs "cat") as [H0 H1].
    apply Forall2_cons. split; [exact H0|]. apply Forall2_cons. split; [exact H1|done].
  - repeat constructor; set_solver.
  - done.
  - simpl. intros b s' (_ & Hb & _) ->. apply (Hb eq_refl). set_solver.
Defined.

Lemma encoder_free_correct_witness :
  wp (free_encoder_inputs elements (image_request "cat"))
    (λ _ s', get_cached_input_ids s' (image_request "cat") = ∅ ∧ num_free_slots s' = 5) one_image.
Proof.
  eapply wp_mono; [apply (encoder_free_correct (λ _, 3) ltac:(done) elements (image_request "cat") one_image
    one_image_inv (image_request_sized _))|].
  - done.
  - intros i Hi. exists "cat". 
    assert (get_cached_input_ids one_image (image_request "cat") = {[0]}) as E by (vm_compute; reflexivity).
    rewrite E in Hi. apply elem_of_singleton in Hi as ->.
    apply image_request_inputs.
  - simpl. intros _ s' (_ & Hids & Hn & _). split; [exact Hids|]. by rewrite Hn.
Defined.

(** ** An input that occurs twice *)

(** references are counted per request, not per input: when a request uses the same image
    twice, releasing the first use makes the entry an eviction candidate although the second
    use is still recorded as cached. *)
Theorem duplicate_input_released_early :
  let r := image_request "shared" in
  ∃ s, (allocate r 0;; check_and_update_cache r 1;; free_encoder_input r 0)
         (EncoderCacheManager_init 8) = (inr tt, s)
    ∧ 1 ∈ get_cached_input_ids s r ∧ cached s !! "shared" = Some ∅ ∧ freeable s = [("shared", 3)].
Proof. eexists. split; [vm_compute; reflexivity|]. split; [set_solver|]. split; vm_compute; reflexivity. Qed.
