(* ===== verification/RequestQueue.v ===== *)
(** The waiting queues of the scheduler ([vllm/v1/core/sched/request_queue.py]) and the
    Python [heapq] they use.

    A queue holds request objects; an object is its identity [A] (equality is [is], as
    [Request] defines no [__eq__]) and [lt] is its [__lt__].  [heapq] is translated from the
    library's Python source: [heappush], [heappop], [heapify] with [_siftdown] and [_siftup];
    the loops move by at least one level, so the length of the heap is enough fuel. *)

From S2P Require Import Prelude Request.

(** ** The order a queue relies on *)

(** What a priority queue needs of [__lt__]: a strict total order on objects. *)
Class StrictTotal {A : Type} (lt : A → A → bool) := {
  lt_irrefl : ∀ a, lt a a = false;
  lt_trans : ∀ a b c, lt a b = true → lt b c = true → lt a c = true;
  lt_total : ∀ a b, lt a b = false → lt b a = false → a = b;
}.

(** ** [heapq] *)

Section heapq.
Context {A : Type} (lt : A → A → bool).

Definition parent (pos : nat) : nat := Nat.div2 (pos - 1).

(** [_siftdown(heap, startpos, pos)] with [newitem] taken out of the heap. *)
Fixpoint siftdown (fuel : nat) (newitem : A) (heap : list A) (startpos pos : nat) : exn + list A :=
  match fuel with
  | O => inl OutOfFuel
  | S fuel' =>
      if (startpos <? pos)%nat then
        p ← result_of_option IndexError (heap !! parent pos);
        if lt newitem p then siftdown fuel' newitem (<[pos := p]> heap) startpos (parent pos)
        else mret (<[pos := newitem]> heap)
      else mret (<[pos := newitem]> heap)
  end.

(** The loop of [_siftup]: bubble the smaller child up until the hole is a leaf. *)
Fixpoint siftup_loop (fuel : nat) (heap : list A) (pos : nat) : exn + (list A * nat) :=
  match fuel with
  | O => inl OutOfFuel
  | S fuel' =>
      let endpos := length heap in
      let childpos := (2 * pos + 1)%nat in
      if (childpos <? endpos)%nat then
        let rightpos := (childpos + 1)%nat in
        child ← result_of_option IndexError (heap !! childpos);
        best ← (if (rightpos <? endpos)%nat
                then right ← result_of_option IndexError (heap !! rightpos);
                     mret (if negb (lt child right) then (rightpos, right) else (childpos, child))
                else mret (childpos, child));
        siftup_loop fuel' (<[pos := best.2]> heap) best.1
      else mret (heap, pos)
  end.

(** [_siftup(heap, pos)]. *)
Definition siftup (heap : list A) (pos : nat) : exn + list A :=
  newitem ← result_of_option IndexError (heap !! pos);
  r ← siftup_loop (S (length heap)) heap pos;
  siftdown (S (length heap)) newitem r.1 pos r.2.

Definition heappush (heap : list A) (item : A) : exn + list A :=
  siftdown (S (length heap)) item (heap ++ [item]) 0 (length heap).

Definition heappop (heap : list A) : exn + (A * list A) :=
  match last heap with
  | None => inl IndexError
  | Some lastelt =>
      let rest := take (length heap - 1) heap in
      match rest with
      | [] => mret (lastelt, [])
      | returnitem :: _ => h ← siftup (<[0%nat := lastelt]> rest) 0; mret (returnitem, h)
      end
  end.

(** [for i in reversed(range(n//2)): _siftup(x, i)]. *)
Fixpoint heapify_loop (n : nat) (x : list A) : exn + list A :=
  match n with
  | O => mret x
  | S i => x' ← siftup x i; heapify_loop i x'
  end.
Definition heapify (x : list A) : exn + list A := heapify_loop (Nat.div2 (length x)) x.

(** [while heap_copy: yield heapq.heappop(heap_copy)]. *)
Fixpoint drain (fuel : nat) (heap : list A) : exn + list A :=
  match fuel with
  | O => mret []
  | S fuel' => r ← heappop heap; xs ← drain fuel' r.2; mret (r.1 :: xs)
  end.
End heapq.

(** ** The queues *)

Inductive SchedulingPolicy := FCFS | PRIORITY.

Section queues.
Context {A : Type} `{EqDecision A} (lt : A → A → bool).

(** [list.remove] and [deque.remove]. *)
Fixpoint remove_first (l : list A) (x : A) : exn + list A :=
  match l with
  | [] => inl ValueError
  | y :: l' => if decide (y = x) then mret l' else l'' ← remove_first l' x; mret (y :: l'')
  end.

(** [FCFSRequestQueue]: a deque; [PriorityRequestQueue]: a heap. *)
Inductive RequestQueue := FCFSQueue (q : list A) | PriorityQueue (heap : list A).

Definition create_request_queue (policy : SchedulingPolicy) : RequestQueue :=
  match policy with PRIORITY => PriorityQueue [] | FCFS => FCFSQueue [] end.

Definition add_request (q : RequestQueue) (request : A) : exn + RequestQueue :=
  match q with
  | FCFSQueue l => mret (FCFSQueue (l ++ [request]))
  | PriorityQueue h => h' ← heappush lt h request; mret (PriorityQueue h')
  end.

Definition pop_request (q : RequestQueue) : exn + (A * RequestQueue) :=
  match q with
  | FCFSQueue [] => inl IndexError
  | FCFSQueue (x :: l) => mret (x, FCFSQueue l)
  | PriorityQueue h => r ← heappop lt h; mret (r.1, PriorityQueue r.2)
  end.

Definition peek_request (q : RequestQueue) : exn + A :=
  match q with FCFSQueue l | PriorityQueue l => result_of_option IndexError (head l) end.

Definition prepend_request (q : RequestQueue) (request : A) : exn + RequestQueue :=
  match q with
  | FCFSQueue l => mret (FCFSQueue (request :: l))
  | PriorityQueue _ => add_request q request
  end.

(** [__iter__]. *)
Definition queue_iter (q : RequestQueue) : exn + list A :=
  match q with
  | FCFSQueue l => mret l
  | PriorityQueue h => drain lt (length h) h
  end.

Fixpoint add_each (q : RequestQueue) (rs : list A) : exn + RequestQueue :=
  match rs with
  | [] => mret q
  | r :: rs' => q' ← add_request q r; add_each q' rs'
  end.

Definition prepend_requests (q requests : RequestQueue) : exn + RequestQueue :=
  rs ← queue_iter requests;
  match q with
  | FCFSQueue l => mret (FCFSQueue (rev rs ++ l))
  | PriorityQueue _ => add_each q rs
  end.

Definition remove_request (q : RequestQueue) (request : A) : exn + RequestQueue :=
  match q with
  | FCFSQueue l => l' ← remove_first l request; mret (FCFSQueue l')
  | PriorityQueue h =>
      h1 ← remove_first h request; h2 ← heapify lt h1; mret (PriorityQueue h2)
  end.

Definition remove_requests (q : RequestQueue) (requests : list A) : exn + RequestQueue :=
  match q with
  | FCFSQueue l => mret (FCFSQueue (filter (.∉ requests) l))
  | PriorityQueue h => h' ← heapify lt (filter (.∉ requests) h); mret (PriorityQueue h')
  end.

Definition queue_len (q : RequestQueue) : Z :=
  match q with FCFSQueue l | PriorityQueue l => zlen l end.
Definition queue_bool (q : RequestQueue) : bool := 0 <? queue_len q.
End queues.
