(* ===== verification/RequestQueueFacts.v ===== *)
(** The heap operations keep the heap order and the elements, so a priority queue behaves
    like a sorted list: it pops the smallest request, iterates in order, and removal keeps
    the rest.  Requests are totally ordered by [Request.__lt__]. *)

From stdpp Require Import sorting.
From S2P Require Import Prelude Request BlockHash BlockHashFacts RequestQueue.

Set Warnings "-level-tolerance,-clear-no-such-hyp".

(** ** Positions *)

Lemma parent_lt i : (0 < i)%nat → (parent i < i)%nat.
Proof. intros H. unfold parent. pose proof (Nat.div2_decr (i - 1) (i - 1)). lia. Qed.

Lemma parent_left i : parent (2 * i + 1) = i.
Proof. unfold parent. replace (2 * i + 1 - 1)%nat with (2 * i)%nat by lia. apply Nat.div2_double. Qed.
Lemma parent_right i : parent (2 * i + 1 + 1) = i.
Proof.
  unfold parent. replace (2 * i + 1 + 1 - 1)%nat with (S (2 * i)) by lia. apply Nat.div2_succ_double.
Qed.

Lemma parent_inv j i : (0 < j)%nat → parent j = i → j = (2 * i + 1)%nat ∨ j = (2 * i + 1 + 1)%nat.
Proof.
  unfold parent. intros Hj <-. pose proof (Nat.div2_odd (j - 1)) as E.
  destruct (Nat.odd (j - 1)); simpl in E; lia.
Qed.

(** [pos] lies in the subtree rooted at [s]. *)
Inductive below (s : nat) : nat → Prop :=
  | below_root : below s s
  | below_child i : (0 < i)%nat → below s (parent i) → below s i.

Lemma below_ge s i : below s i → (s ≤ i)%nat.
Proof. induction 1 as [|i Hi _ IH]; [done|]. pose proof (parent_lt i Hi). lia. Qed.

Lemma below_parent s i : below s i → i ≠ s → (0 < i)%nat ∧ below s (parent i) ∧ (s ≤ parent i)%nat.
Proof. intros [|j Hj Hb] Hne; [done|]. split_and!; [done|done|by apply below_ge]. Qed.

Lemma below_0 i : below 0 i.
Proof.
  induction i as [i IH] using lt_wf_ind. destruct i as [|i]; [constructor|].
  constructor; [lia|]. apply IH, parent_lt. lia.
Qed.

(** ** Elements *)

Lemma insert_perm {A} (l : list A) j z : (j < length l)%nat → <[j := z]> l ≡ₚ z :: delete j l.
Proof.
  intros Hj. rewrite insert_take_drop by done. rewrite delete_take_drop. symmetry. apply Permutation_middle.
Qed.

Lemma swap_perm {A} (l : list A) i j x y :
  i ≠ j → l !! i = Some x → (j < length l)%nat →
  <[i := y]> (<[j := x]> l) ≡ₚ <[j := y]> l.
Proof.
  intros Hij Hi Hj. assert (i < length l)%nat as Hil by by eapply lookup_lt_Some.
  rewrite (insert_perm l j y) by done.
  etrans; [apply insert_perm; by rewrite length_insert|]. f_equiv. assert (<[j := x]> l !! i = Some x) as Hx by (by rewrite list_lookup_insert_ne).
  pose proof (delete_Permutation _ _ _ Hx) as Hd. symmetry in Hd.
  eapply Permutation_cons_inv. etrans; [exact Hd|]. by apply insert_perm.
Qed.

(** ** Heap order *)

Section heap.
Context {A : Type} (lt : A → A → bool) `{Hlt : !StrictTotal lt}.

Definition le (a b : A) : Prop := lt b a = false.

Lemma le_refl a : le a a.
Proof. apply lt_irrefl. Qed.
Lemma lt_le a b : lt a b = true → le a b.
Proof.
  intros H. unfold le. destruct (lt b a) eqn:E; [|done].
  rewrite <-(lt_irrefl a). symmetry. by eapply lt_trans.
Qed.
Lemma le_trans a b c : le a b → le b c → le a c.
Proof.
  unfold le. intros H1 H2. destruct (lt c a) eqn:E; [|done]. rewrite <-H2. symmetry.
  destruct (lt a b) eqn:E1; [by eapply lt_trans|]. by rewrite <-(lt_total a b).
Qed.
Lemma le_antisym a b : le a b → le b a → a = b.
Proof. intros. by apply lt_total. Qed.

(** Every element of the subtrees rooted at [s] and later is at least its parent. *)
Definition heap_from (s : nat) (l : list A) : Prop :=
  ∀ i p c, (0 < i)%nat → (s ≤ parent i)%nat → l !! parent i = Some p → l !! i = Some c → le p c.

(** The same except at the hole [pos], whose children are at least its parent. *)
Record holed (s pos : nat) (l : list A) : Prop := {
  ho_edges : ∀ i p c, (0 < i)%nat → (s ≤ parent i)%nat → i ≠ pos → parent i ≠ pos →
    l !! parent i = Some p → l !! i = Some c → le p c;
  ho_skip : ∀ j g c, (0 < j)%nat → parent j = pos → (0 < pos)%nat → (s ≤ parent pos)%nat →
    l !! parent pos = Some g → l !! j = Some c → le g c;
}.

Lemma siftdown_spec fuel newitem l s pos :
  (pos < fuel)%nat → (pos < length l)%nat → below s pos → holed s pos l →
  (∀ j c, (0 < j)%nat → parent j = pos → l !! j = Some c → le newitem c) →
  ∃ l', siftdown lt fuel newitem l s pos = inr l' ∧ heap_from s l' ∧ l' ≡ₚ <[pos := newitem]> l.
Proof using Hlt.
  revert l pos. induction fuel as [|fuel IH]; intros l pos Hf Hlen Hb [He Hs] Hc; [lia|].
  assert ((∀ p, (0 < pos)%nat → (s ≤ parent pos)%nat → l !! parent pos = Some p → le p newitem) →
    heap_from s (<[pos := newitem]> l)) as Hplace.
  { intros Hup i p c Hi Hsi Hp Hci. pose proof (parent_lt i Hi).
    apply list_lookup_insert_Some in Hp as [(Ep & <- & _)|[Hne Hp]];
      apply list_lookup_insert_Some in Hci as [(Ei & <- & _)|[Hnei Hci]].
    - lia.
    - by eapply Hc.
    - subst i. by apply Hup.
    - by eapply He. }
  cbn [siftdown]. destruct (Nat.ltb_spec s pos) as [Hsp|Hsp].
  2: { eexists. split; [done|]. split; [|done]. apply Hplace. intros p Hpos Hsp'.
       pose proof (below_ge _ _ Hb). pose proof (parent_lt pos Hpos). lia. }
  destruct (below_parent s pos Hb) as (Hpos & Hbp & Hsge); [lia|]. pose proof (parent_lt pos Hpos) as Hplt.
  destruct (lookup_lt_is_Some_2 l (parent pos)) as [p Hp]; [lia|]. rewrite Hp. simpl.
  destruct (lt newitem p) eqn:El.
  2: { eexists. split; [done|]. split; [|done]. apply Hplace. intros p' _ _ Hp'. by simplify_eq. }
  destruct (IH (<[pos := p]> l) (parent pos)) as (l' & E & Hh & Hperm).
  - lia.
  - rewrite length_insert. lia.
  - done.
  - split.
    + intros i q c Hi Hsi Hne1 Hne2 Hq Hci.
      apply list_lookup_insert_Some in Hci as [(-> & <- & _)|[Hnei Hci]]; [done|].
      apply list_lookup_insert_Some in Hq as [(Eq & <- & _)|[Hneq Hq]].
      * by eapply Hs.
      * by eapply He.
    + intros j g c Hj Ej Hpp Hspp Hg Hcj. rewrite list_lookup_insert_ne in Hg by (pose proof (parent_lt (parent pos) Hpp); lia).
      assert (le g p) as Hgp by (eapply (He (parent pos)); [lia|done|lia|pose proof (parent_lt (parent pos) Hpp); lia|done|done]).
      apply list_lookup_insert_Some in Hcj as [(-> & <- & _)|[Hnej Hcj]]; [done|].
      eapply le_trans; [exact Hgp|]. eapply (He j); [done|lia|done| |by rewrite Ej|done]. lia.
  - intros j c Hj Ej Hcj.
    apply list_lookup_insert_Some in Hcj as [(-> & <- & _)|[Hnej Hcj]]; [by apply lt_le|].
    eapply le_trans; [by apply lt_le|]. eapply (He j); [done|lia|done| |by rewrite Ej|done]. lia.
  - exists l'. split_and!; [done|done|]. rewrite Hperm. apply swap_perm; [lia|done|done].
Qed.

Lemma siftup_loop_spec fuel l s pos :
  (length l < fuel + pos)%nat → (pos < length l)%nat → below s pos → holed s pos l →
  ∃ l' pos', siftup_loop lt fuel l pos = inr (l', pos') ∧ holed s pos' l' ∧ below s pos'
    ∧ length l' = length l ∧ (pos' < length l)%nat ∧ (length l ≤ 2 * pos' + 1)%nat
    ∧ ∀ y, <[pos' := y]> l' ≡ₚ <[pos := y]> l.
Proof using Hlt.
  revert l pos. induction fuel as [|fuel IH]; intros l pos Hf Hlen Hb [He Hs]; [lia|].
  cbn [siftup_loop]. destruct (Nat.ltb_spec (2 * pos + 1) (length l)) as [Hch|Hch].
  2: { exists l, pos. split_and!; try done. }
  destruct (lookup_lt_is_Some_2 l (2 * pos + 1) Hch) as [child Hchild]. rewrite Hchild. simpl.
  assert (∃ b v, (if (2 * pos + 1 + 1 <? length l)%nat
      then right ← result_of_option IndexError (l !! (2 * pos + 1 + 1)%nat);
           mret (if negb (lt child right) then ((2 * pos + 1 + 1)%nat, right) else ((2 * pos + 1)%nat, child))
      else mret ((2 * pos + 1)%nat, child)) = inr (b, v)
    ∧ l !! b = Some v ∧ parent b = pos ∧ (pos < b)%nat
    ∧ ∀ j c, (0 < j)%nat → parent j = pos → l !! j = Some c → le v c) as (b & v & Eb & Hv & Hpb & Hlt' & Hmin).
  { destruct (Nat.ltb_spec (2 * pos + 1 + 1) (length l)) as [Hr|Hr].
    - destruct (lookup_lt_is_Some_2 l _ Hr) as [right Hright]. rewrite Hright. simpl.
      destruct (lt child right) eqn:El; simpl.
      + exists (2 * pos + 1)%nat, child. split_and!; [done|done|apply parent_left|lia|].
        intros j c Hj Ej Hc. destruct (parent_inv j pos Hj Ej) as [-> | ->]; simplify_eq; [apply le_refl|by apply lt_le].
      + exists (2 * pos + 1 + 1)%nat, right. split_and!; [done|done|apply parent_right|lia|].
        intros j c Hj Ej Hc. destruct (parent_inv j pos Hj Ej) as [-> | ->]; simplify_eq; [done|apply le_refl].
    - exists (2 * pos + 1)%nat, child. split_and!; [done|done|apply parent_left|lia|].
      intros j c Hj Ej Hc. destruct (parent_inv j pos Hj Ej) as [-> | ->]; simplify_eq; [apply le_refl|].
      apply lookup_lt_Some in Hc. lia. }
  replace (pos + (pos + 0) + 1)%nat with (2 * pos + 1)%nat by lia. unfold mbind, result_bind in *. rewrite Eb. simpl.
  pose proof (lookup_lt_Some _ _ _ Hv) as Hbl.
  destruct (IH (<[pos := v]> l) b) as (l' & pos' & E & Hh & Hb' & Hl' & Hp' & Hleaf & Hperm).
  - rewrite length_insert. lia.
  - rewrite length_insert. lia.
  - constructor; [lia|]. by rewrite Hpb.
  - split.
    + intros i p c Hi Hsi Hne1 Hne2 Hp Hc. pose proof (parent_lt i Hi).
      apply list_lookup_insert_Some in Hp as [(Ep & <- & _)|[Hnep Hp]];
        apply list_lookup_insert_Some in Hc as [(Ei & <- & _)|[Hnei Hc]].
      * lia.
      * by eapply Hmin.
      * subst i. by eapply (Hs b); [lia|..].
      * by eapply He.
    + intros j g c Hj Ej Hb0 Hsb Hg Hc. rewrite Hpb in Hg. pose proof (parent_lt j Hj).
      rewrite list_lookup_insert_eq in Hg by done. simplify_eq.
      rewrite list_lookup_insert_ne in Hc by lia. eapply (He j); [done|lia|lia|lia|done|done].
  - exists l', pos'. rewrite length_insert in *. split_and!; try done.
    intros y. rewrite Hperm. apply swap_perm; [lia|done|done].
Qed.

Lemma siftup_spec l pos :
  (pos < length l)%nat → heap_from (S pos) l →
  ∃ l', siftup lt l pos = inr l' ∧ heap_from pos l' ∧ l' ≡ₚ l.
Proof using Hlt.
  intros Hlen Hh. destruct (lookup_lt_is_Some_2 l pos Hlen) as [x Hx].
  assert (holed pos pos l) as Hhole.
  { split.
    - intros i p c Hi Hsi _ Hne. apply Hh; [done|lia].
    - intros j g c _ _ Hp Hpp. pose proof (parent_lt pos Hp). lia. }
  destruct (siftup_loop_spec (S (length l)) l pos pos) as (l1 & pos' & E1 & Hh1 & Hb1 & Hl1 & Hp1 & Hleaf & Hperm1);
    [lia|done|constructor|done|].
  destruct (siftdown_spec (S (length l)) x l1 pos pos') as (l2 & E2 & Hh2 & Hperm2); [lia|lia|done|done| |].
  { intros j c Hj Ej Hc. apply lookup_lt_Some in Hc. destruct (parent_inv j pos' Hj Ej); lia. }
  exists l2. split_and!; [|done|].
  - unfold siftup. rewrite Hx. unfold mbind, result_bind, result_of_option. rewrite E1. simpl. done.
  - rewrite Hperm2, Hperm1. by rewrite list_insert_id.
Qed.

Abbreviation heap := (heap_from 0).

Lemma heappush_spec l x : heap l → ∃ l', heappush lt l x = inr l' ∧ heap l' ∧ l' ≡ₚ x :: l.
Proof using Hlt.
  intros Hh. destruct (siftdown_spec (S (length l)) x (l ++ [x]) 0 (length l)) as (l' & E & Hh' & Hperm).
  - lia.
  - rewrite length_app. simpl. lia.
  - apply below_0.
  - assert (∀ i c, (l ++ [x]) !! i = Some c → i ≠ length l → l !! i = Some c) as Hl.
    { intros i c Hi Hne. pose proof (lookup_lt_Some _ _ _ Hi) as Hlt'. rewrite length_app in Hlt'. simpl in Hlt'.
      rewrite lookup_app_l in Hi by lia. done. }
    split.
    + intros i p c Hi Hs Hne Hne' Hp Hc. by eapply (Hh i); [..|apply Hl|apply Hl].
    + intros j g c Hj Ej _ _ _ Hc. apply lookup_lt_Some in Hc. rewrite length_app in Hc. simpl in Hc.
      destruct (parent_inv j _ Hj Ej); lia.
  - intros j c Hj Ej Hc. apply lookup_lt_Some in Hc. rewrite length_app in Hc. simpl in Hc.
    destruct (parent_inv j _ Hj Ej); lia.
  - exists l'. split_and!; [done|done|]. rewrite Hperm, list_insert_id.
    + symmetry. apply Permutation_cons_append.
    + rewrite lookup_app_r, Nat.sub_diag by lia. done.
Qed.

Lemma heap_min l m x : heap l → head l = Some m → x ∈ l → le m x.
Proof using Hlt.
  intros Hh Hm [i Hi]%list_elem_of_lookup. revert x Hi. induction i as [i IH] using lt_wf_ind. intros x Hi.
  destruct i as [|i]; [rewrite head_lookup in Hm; simplify_eq; apply le_refl|].
  pose proof (parent_lt (S i) ltac:(lia)) as Hp.
  destruct (lookup_lt_is_Some_2 l (parent (S i))) as [p Hpl]; [apply lookup_lt_Some in Hi; lia|].
  eapply le_trans; [by apply (IH (parent (S i)))|]. eapply (Hh (S i)); [lia|lia|done|done].
Qed.

Lemma heap_take l n : heap l → heap (take n l).
Proof.
  intros Hh i p c Hi Hs Hp%lookup_take_Some Hc%lookup_take_Some. eapply Hh; [done..|apply Hp|apply Hc].
Qed.

Lemma heappop_spec l m :
  heap l → head l = Some m →
  ∃ l', heappop lt l = inr (m, l') ∧ heap l' ∧ l ≡ₚ m :: l'.
Proof using Hlt.
  intros Hh Hm. unfold heappop. destruct (last l) as [z|] eqn:El.
  2: { apply last_None in El. by subst. }
  assert (l = take (length l - 1) l ++ [z]) as Hsplit.
  { apply last_Some in El as [l0 ->]. rewrite length_app. simpl. rewrite Nat.add_sub.
    by rewrite take_app_length. }
  pose proof (heap_take l (length l - 1) Hh) as Ht. set (rest := take (length l - 1) l) in *. clearbody rest.
  destruct rest as [|y rest].
  { exists []. rewrite Hsplit in Hm. simpl in Hm. injection Hm as ->. split_and!; [done| |by rewrite Hsplit].
    intros i p c _ _ Hp. done. }
  rewrite Hsplit in Hm. simpl in Hm. injection Hm as ->. destruct (siftup_spec (<[0%nat := z]> (m :: rest)) 0) as (l' & E & Hh' & Hperm).
  - simpl. lia.
  - intros i p c Hi Hs Hp Hc. pose proof (parent_lt i Hi).
    rewrite list_lookup_insert_ne in Hp by lia. rewrite list_lookup_insert_ne in Hc by lia.
    eapply (Ht i); [done|lia|done|done].
  - exists l'. unfold mbind, result_bind. rewrite E. split_and!; [done|done|].
    rewrite Hsplit. simpl. f_equiv. rewrite Hperm. simpl. symmetry. apply Permutation_cons_append.
Qed.

Lemma heapify_spec l : ∃ l', heapify lt l = inr l' ∧ heap l' ∧ l' ≡ₚ l.
Proof using Hlt.
  unfold heapify.
  assert (heap_from (Nat.div2 (length l)) l) as Hh.
  { intros i p c Hi Hs Hp Hc. apply lookup_lt_Some in Hc. unfold parent in Hs.
    pose proof (Nat.div2_odd (i - 1)) as E1. pose proof (Nat.div2_odd (length l)) as E2.
    destruct (Nat.odd (i - 1)), (Nat.odd (length l)); simpl in *; lia. }
  assert (Nat.div2 (length l) ≤ length l)%nat as Hn by (apply Nat.div2_decr; lia).
  revert Hh Hn. generalize (Nat.div2 (length l)) as n. intros n. revert l.
  induction n as [|n IH]; intros l Hh Hn; simpl.
  { by exists l. }
  destruct (siftup_spec l n) as (l1 & E1 & Hh1 & Hp1); [lia|done|].
  unfold mbind, result_bind. rewrite E1.
  destruct (IH l1 Hh1) as (l2 & E2 & Hh2 & Hp2); [rewrite (Permutation_length Hp1); lia|].
  exists l2. split_and!; [done|done|by rewrite Hp2].
Qed.
End heap.

(** ** Calls on a queue and on a sorted list *)

Inductive queue_op (A : Type) :=
  | QAdd (x : A) | QPop | QPeek | QPrepend (x : A) | QPrependAll (xs : list A)
  | QRemove (x : A) | QRemoveAll (xs : list A) | QIter.
Arguments QAdd {A}. Arguments QPop {A}. Arguments QPeek {A}. Arguments QPrepend {A}.
Arguments QPrependAll {A}. Arguments QRemove {A}. Arguments QRemoveAll {A}. Arguments QIter {A}.

Section calls.
Context {A : Type} `{EqDecision A} (lt : A → A → bool).

(** A call returns the requests it yields and the queue. *)
Definition run_queue_op (q : RequestQueue) (op : queue_op A) : exn + (list A * RequestQueue) :=
  match op with
  | QAdd x => q' ← add_request lt q x; mret ([], q')
  | QPop => r ← pop_request lt q; mret ([r.1], r.2)
  | QPeek => x ← peek_request q; mret ([x], q)
  | QPrepend x => q' ← prepend_request lt q x; mret ([], q')
  | QPrependAll xs => q' ← prepend_requests lt q (FCFSQueue xs); mret ([], q')
  | QRemove x => q' ← remove_request lt q x; mret ([], q')
  | QRemoveAll xs => q' ← remove_requests lt q xs; mret ([], q')
  | QIter => xs ← queue_iter lt q; mret (xs, q)
  end.

Fixpoint run_queue_ops (q : RequestQueue) (ops : list (queue_op A)) : exn + list (list A) :=
  match ops with
  | [] => mret []
  | op :: ops' => r ← run_queue_op q op; rs ← run_queue_ops r.2 ops'; mret (r.1 :: rs)
  end.

(** The specification: a list sorted by [lt]. *)
Fixpoint insert_sorted (l : list A) (x : A) : list A :=
  match l with
  | [] => [x]
  | y :: l' => if lt y x then y :: insert_sorted l' x else x :: y :: l'
  end.

Definition sorted_queue_op (l : list A) (op : queue_op A) : exn + (list A * list A) :=
  match op with
  | QAdd x | QPrepend x => mret ([], insert_sorted l x)
  | QPop => match l with [] => inl IndexError | x :: l' => mret ([x], l') end
  | QPeek => match l with [] => inl IndexError | x :: _ => mret ([x], l) end
  | QPrependAll xs => mret ([], foldl insert_sorted l xs)
  | QRemove x => l' ← remove_first l x; mret ([], l')
  | QRemoveAll xs => mret ([], filter (.∉ xs) l)
  | QIter => mret (l, l)
  end.

Fixpoint sorted_queue_ops (l : list A) (ops : list (queue_op A)) : exn + list (list A) :=
  match ops with
  | [] => mret []
  | op :: ops' => r ← sorted_queue_op l op; rs ← sorted_queue_ops r.2 ops'; mret (r.1 :: rs)
  end.

Context `{Hlt : !StrictTotal lt}.
#[local] Abbreviation le := (le lt).
#[local] Abbreviation heap := (heap_from lt 0).

Definition queue_rep (h l : list A) : Prop := heap h ∧ h ≡ₚ l ∧ StronglySorted le l.

Lemma insert_sorted_perm l x : insert_sorted l x ≡ₚ x :: l.
Proof using.
  induction l as [|y l IH]; [done|]. simpl. destruct (lt y x); [|done]. rewrite IH. apply Permutation_swap.
Qed.

Lemma insert_sorted_sorted l x : StronglySorted le l → StronglySorted le (insert_sorted l x).
Proof using Hlt.
  induction 1 as [|y l Hs IH Hy]; simpl; [by repeat constructor|].
  destruct (lt y x) eqn:E.
  - constructor; [done|]. rewrite insert_sorted_perm. constructor; [by apply lt_le|done].
  - constructor; [by constructor|]. constructor; [done|]. eapply Forall_impl; [exact Hy|].
    intros z Hz. by eapply le_trans.
Qed.

Lemma rep_head h x l : queue_rep h (x :: l) → head h = Some x.
Proof using Hlt.
  intros (Hh & Hp & Hs). destruct h as [|m h]; [by apply Permutation_nil_l in Hp|]. simpl. f_equal.
  apply StronglySorted_cons in Hs as [Hall _].
  assert (le m x) as H1.
  { eapply (heap_min lt (m :: h) m x Hh); [done|]. rewrite Hp. left. }
  assert (m ∈ x :: l) as [->|Hin]%elem_of_cons by (rewrite <-Hp; left); [done|].
  rewrite Forall_forall in Hall. by apply (le_antisym lt m x); [|apply Hall].
Qed.

Lemma rep_add h l x :
  queue_rep h l → ∃ h', heappush lt h x = inr h' ∧ queue_rep h' (insert_sorted l x).
Proof using Hlt.
  intros (Hh & Hp & Hs). destruct (heappush_spec lt h x Hh) as (h' & E & Hh' & Hp').
  exists h'. split; [done|]. split_and!; [done| |by apply insert_sorted_sorted].
  by rewrite Hp', insert_sorted_perm, Hp.
Qed.

Lemma rep_pop h x l :
  queue_rep h (x :: l) → ∃ h', heappop lt h = inr (x, h') ∧ queue_rep h' l.
Proof using Hlt.
  intros Hr. pose proof (rep_head h x l Hr) as Hx. destruct Hr as (Hh & Hp & Hs).
  destruct (heappop_spec lt h x Hh Hx) as (h' & E & Hh' & Hp'). exists h'. split; [done|].
  apply StronglySorted_cons in Hs as [_ Hs]. split_and!; [done| |done].
  apply (Permutation_cons_inv (a := x)). by rewrite <-Hp', Hp.
Qed.

Lemma rep_iter h l : queue_rep h l → drain lt (length h) h = inr l.
Proof using Hlt.
  revert h. induction l as [|x l IH]; intros h Hr.
  { destruct Hr as (_ & ->%Permutation_nil_r & _). done. }
  assert (length h = S (length l)) as Hl by (destruct Hr as (_ & Hp & _); by rewrite (Permutation_length Hp)).
  destruct (rep_pop h x l Hr) as (h' & E & Hr'). rewrite Hl. simpl. unfold mbind, result_bind. rewrite E. simpl.
  assert (length h' = length l) as <- by (destruct Hr' as (_ & Hp & _); by rewrite (Permutation_length Hp)).
  by rewrite (IH h' Hr').
Qed.

Lemma remove_first_spec (l : list A) x :
  match remove_first l x with
  | inr l' => x ∈ l ∧ l ≡ₚ x :: l' ∧ l' `sublist_of` l
  | inl e => e = ValueError ∧ x ∉ l
  end.
Proof using.
  induction l as [|y l IH]; simpl; [split; [done|apply not_elem_of_nil]|].
  case_decide as E; [subst; split_and!; [left|done|by apply sublist_cons]|].
  unfold mbind, result_bind. destruct (remove_first l x) as [e|l']; simpl.
  - destruct IH as [-> Hn]. split; [done|]. by apply not_elem_of_cons.
  - destruct IH as (Hin & Hp & Hsub). split_and!; [by right| |by apply sublist_skip].
    rewrite Hp. apply Permutation_swap.
Qed.

Lemma sorted_sublist l l' : l' `sublist_of` l → StronglySorted le l → StronglySorted le l'.
Proof using.
  induction 1 as [|x l1 l2 Hsub IH|x l1 l2 Hsub IH]; intros Hs; [constructor|..];
    apply StronglySorted_cons in Hs as [Hall Hs]; [|by apply IH].
  constructor; [by apply IH|]. rewrite Forall_forall in *. intros z Hz. apply Hall.
  eapply elem_of_submseteq; [done|]. by apply sublist_submseteq.
Qed.

Lemma rep_heapify h l : h ≡ₚ l → StronglySorted le l → ∃ h', heapify lt h = inr h' ∧ queue_rep h' l.
Proof using Hlt.
  intros Hp Hs. destruct (heapify_spec lt h) as (h' & E & Hh' & Hp'). exists h'. split; [done|].
  split_and!; [done|by rewrite Hp'|done].
Qed.

Lemma rep_add_each h l xs :
  queue_rep h l →
  ∃ h', add_each lt (PriorityQueue h) xs = inr (PriorityQueue h') ∧ queue_rep h' (foldl insert_sorted l xs).
Proof using Hlt.
  revert h l. induction xs as [|x xs IH]; intros h l Hr; simpl; [by exists h|].
  destruct (rep_add h l x Hr) as (h1 & E & Hr1). unfold mbind, result_bind. rewrite E. simpl. by apply IH.
Qed.

Lemma queue_op_refines h l op :
  queue_rep h l →
  match sorted_queue_op l op with
  | inl e => run_queue_op (PriorityQueue h) op = inl e
  | inr (res, l') => ∃ h', run_queue_op (PriorityQueue h) op = inr (res, PriorityQueue h') ∧ queue_rep h' l'
  end.
Proof using Hlt.
  intros Hr. pose proof Hr as (Hh & Hp & Hs).
  destruct op as [x| | |x|xs|x|xs|]; simpl; unfold mbind, result_bind.
  - destruct (rep_add h l x Hr) as (h' & E & Hr'). exists h'. by rewrite E.
  - destruct l as [|x l].
    + apply Permutation_nil_r in Hp as ->. done.
    + destruct (rep_pop h x l Hr) as (h' & E & Hr'). exists h'. by rewrite E.
  - destruct l as [|x l].
    + apply Permutation_nil_r in Hp as ->. done.
    + exists h. by rewrite (rep_head h x l Hr).
  - destruct (rep_add h l x Hr) as (h' & E & Hr'). exists h'. by rewrite E.
  - destruct (rep_add_each h l xs Hr) as (h' & E & Hr'). exists h'.
    unfold prepend_requests, mbind, result_bind. simpl. by rewrite E.
  - pose proof (remove_first_spec l x) as Hl. pose proof (remove_first_spec h x) as Hh0.
    destruct (remove_first l x) as [e|l1], (remove_first h x) as [e'|h1]; simpl.
    + destruct Hl as [-> _], Hh0 as [-> _]. done.
    + destruct Hl as [_ Hn], Hh0 as [Hin _]. rewrite Hp in Hin. done.
    + destruct Hl as [Hin _], Hh0 as [_ Hn]. rewrite <-Hp in Hin. done.
    + destruct Hl as (_ & Hpl & Hsub), Hh0 as (_ & Hph & _).
      destruct (rep_heapify h1 l1) as (h' & E & Hr').
      * apply (Permutation_cons_inv (a := x)). by rewrite <-Hph, <-Hpl.
      * by eapply sorted_sublist.
      * exists h'. by rewrite E.
  - destruct (rep_heapify (filter (.∉ xs) h) (filter (.∉ xs) l)) as (h' & E & Hr').
    + by rewrite Hp.
    + eapply sorted_sublist; [apply sublist_filter|done].
    + exists h'. by rewrite E.
  - exists h. by rewrite (rep_iter h l Hr).
Qed.

Lemma queue_ops_refine h l ops :
  queue_rep h l → run_queue_ops (PriorityQueue h) ops = sorted_queue_ops l ops.
Proof using Hlt.
  revert h l. induction ops as [|op ops IH]; intros h l Hr; simpl; [done|].
  pose proof (queue_op_refines h l op Hr) as Ho. unfold mbind, result_bind.
  destruct (sorted_queue_op l op) as [e|[res l']]; [by rewrite Ho|].
  destruct Ho as (h' & E & Hr'). rewrite E. simpl. by rewrite (IH h' l' Hr').
Qed.
End calls.

(** ** The order on requests *)

Lemma string_compare_trans a b c :
  String.compare a b = Lt → String.compare b c = Lt → String.compare a c = Lt.
Proof.
  revert b c. induction a as [|x a IH]; intros [|y b] [|z c]; simpl; try done.
  unfold Ascii.compare.
  destruct (N.compare_spec (Ascii.N_of_ascii x) (Ascii.N_of_ascii y)) as [E1|E1|E1];
    destruct (N.compare_spec (Ascii.N_of_ascii y) (Ascii.N_of_ascii z)) as [E2|E2|E2]; try done.
  - rewrite E1, E2, N.compare_refl. apply IH.
  - intros _ _. rewrite E1. by rewrite (proj2 (N.compare_lt_iff _ _)).
  - intros _ _. rewrite <-E2. by rewrite (proj2 (N.compare_lt_iff _ _)).
  - intros _ _. rewrite (proj2 (N.compare_lt_iff _ _)); [done|lia].
Qed.

Lemma string_ltb_lt a b : String.ltb a b = true ↔ String.compare a b = Lt.
Proof. unfold String.ltb. destruct (String.compare a b); done. Qed.

(** The objects of a run: their addresses determine the requests. *)
Section request_order.
Context (req : Z → Request).

Definition object_lt (i j : Z) : bool := request_lt i (req i) j (req j).

Lemma string_compare_refl a : String.compare a a = Eq.
Proof. pose proof (String.compare_antisym a a). by destruct (String.compare a a). Qed.

Lemma object_lt_lex i j :
  object_lt i j = true ↔
    priority (req i) < priority (req j)
    ∨ priority (req i) = priority (req j)
      ∧ (arrival_time (req i) < arrival_time (req j)
         ∨ arrival_time (req i) = arrival_time (req j)
           ∧ (String.compare (request_id (req i)) (request_id (req j)) = Lt
              ∨ request_id (req i) = request_id (req j) ∧ i < j)).
Proof.
  unfold object_lt, request_lt.
  destruct (Z.eqb_spec (priority (req i)) (priority (req j))) as [Ep|Np]; simpl; [|rewrite Z.ltb_lt; lia].
  destruct (Z.eqb_spec (arrival_time (req i)) (arrival_time (req j))) as [Et|Nt]; simpl; [|rewrite Z.ltb_lt; lia].
  case_bool_decide as Ei; simpl.
  - rewrite Z.ltb_lt, Ei, string_compare_refl. intuition (try done; lia).
  - rewrite string_ltb_lt. intuition (try done; lia).
Qed.

Lemma object_lt_trans i j k : object_lt i j = true → object_lt j k = true → object_lt i k = true.
Proof.
  rewrite !object_lt_lex. intros [?|[? [?|[? [H1|[E1 ?]]]]]] [?|[? [?|[? [H2|[E2 ?]]]]]];
    try (left; lia); right; (split; [lia|]); try (left; lia); right; (split; [lia|]).
  - left. by eapply string_compare_trans.
  - left. by rewrite <-E2.
  - left. by rewrite E1.
  - right. split; [congruence|lia].
Qed.

Lemma object_lt_tri i j : object_lt i j = true ∨ object_lt j i = true ∨ i = j.
Proof.
  rewrite !object_lt_lex.
  destruct (Z.lt_trichotomy (priority (req i)) (priority (req j))) as [?|[?|?]]; [tauto| |tauto].
  destruct (Z.lt_trichotomy (arrival_time (req i)) (arrival_time (req j))) as [?|[?|?]]; [tauto| |intuition].
  pose proof (String.compare_antisym (request_id (req i)) (request_id (req j))) as Ha.
  destruct (String.compare (request_id (req i)) (request_id (req j))) eqn:E.
  - apply String.compare_eq_iff in E. destruct (Z.lt_trichotomy i j) as [?|[?|?]]; intuition.
  - intuition.
  - destruct (String.compare (request_id (req j)) (request_id (req i))) eqn:E'; try done. intuition.
Qed.

#[global] Instance object_lt_total : StrictTotal object_lt.
Proof.
  split.
  - intros i. destruct (object_lt i i) eqn:E; [|done]. apply object_lt_lex in E.
    rewrite string_compare_refl in E. intuition (try done; lia).
  - apply object_lt_trans.
  - intros i j Hi Hj. destruct (object_lt_tri i j) as [?|[?|?]]; congruence.
Qed.
End request_order.

(** C38: under the priority policy, for every sequence of operations on the waiting queue
    (adding, popping, peeking, prepending, removing one or several, iterating), the binary
    heap answers exactly as a list kept sorted by priority, arrival time, request id and
    address does, the exceptions on an empty queue or a missing request included. *)
Theorem priority_queue_refines_sorted (req : Z → Request) (ops : list (queue_op Z)) :
  run_queue_ops (object_lt req) (create_request_queue PRIORITY) ops
  = sorted_queue_ops (object_lt req) [] ops.
Proof.
  apply (queue_ops_refine (object_lt req) [] []). split_and!; [|done|constructor].
  intros i p c _ _ Hp. by rewrite lookup_nil in Hp.
Qed.
