(* ===== verification/SchedUtils.v ===== *)
(** Stop conditions of the scheduler ([vllm/v1/core/sched/utils.py]). *)

From S2P Require Import Prelude Request.

(** The inner loop of [_has_repeating_pattern]: every earlier repetition agrees with the
    token at distance [n] from the end. *)
Fixpoint repeats_at (token_ids : list Z) (pattern_len n target_token : Z) (ms : list Z) : exn + bool :=
  match ms with
  | [] => mret true
  | m :: ms' =>
      t ← result_of_option IndexError (py_get token_ids (- (pattern_len * m + n)));
      if negb (t =? target_token) then mret false
      else repeats_at token_ids pattern_len n target_token ms'
  end.

Fixpoint pattern_loop (token_ids : list Z) (pattern_len repetition_min_count : Z) (ns : list Z)
    : exn + bool :=
  match ns with
  | [] => mret true
  | n :: ns' =>
      target_token ← result_of_option IndexError (py_get token_ids (- n));
      b ← repeats_at token_ids pattern_len n target_token (py_range 1 repetition_min_count);
      if (b : bool) then pattern_loop token_ids pattern_len repetition_min_count ns'
      else mret false
  end.

Definition _has_repeating_pattern (token_ids : list Z) (pattern_len repetition_min_count : Z)
    : exn + bool :=
  pattern_loop token_ids pattern_len repetition_min_count (py_range 1 (pattern_len + 1)).

(** The loop over pattern lengths of [check_sequence_repetition]. *)
Fixpoint repetition_loop (token_ids : list Z) (count : Z) (lens : list Z) : exn + bool :=
  match lens with
  | [] => mret false
  | pattern_len :: lens' =>
      if zlen token_ids <? pattern_len * count then mret false
      else
        b ← _has_repeating_pattern token_ids pattern_len count;
        if (b : bool) then mret true else repetition_loop token_ids count lens'
  end.

Definition check_sequence_repetition (token_ids : list Z) (params : RepetitionDetectionParams)
    : exn + bool :=
  let min_size := if min_pattern_size params <=? 0 then 1 else min_pattern_size params in
  if (max_pattern_size params <=? 0) || (min_count params <? 2)
     || (max_pattern_size params <? min_size)
  then mret false
  else repetition_loop token_ids (min_count params)
         (py_range min_size (max_pattern_size params + 1)).

(** [remove_all]: the single-item case removes the first occurrence only. *)
Fixpoint remove_one {A} `{EqDecision A} (lst : list A) (x : A) : list A :=
  match lst with
  | [] => []
  | y :: lst' => if decide (y = x) then lst' else y :: remove_one lst' x
  end.
Definition remove_all {A} `{Countable A} (lst : list A) (items_to_remove : gset A) : list A :=
  match elements items_to_remove with
  | [] => lst
  | [item] => remove_one lst item
  | _ => filter (.∉ items_to_remove) lst
  end.

(** [request.status = st], and [request.stop_reason = why] where the code sets it. *)
Definition finish (r : Request) (st : RequestStatus) (why : option StopReason) : Request :=
  set_status r st (match why with Some _ => why | None => stop_reason r end).

Definition check_stop (request : Request) (max_model_len : Z) : exn + (bool * Request) :=
  result_assert (bool_decide (pooling_params request = None)) ≫= λ _,
  sp ← result_of_option AssertionError (sampling_params request);
  if num_output_tokens request <? min_tokens sp then mret (false, request)
  else
    last_token_id ← result_of_option IndexError (last (_output_token_ids request));
    if bool_decide (eos_token_id sp = Some last_token_id)
    then mret (true, finish request FINISHED_STOPPED None)
    else if bool_decide (last_token_id ∈ stop_token_ids sp)
    then mret (true, finish request FINISHED_STOPPED (Some (StopToken last_token_id)))
    else if (max_model_len <=? num_tokens request)
            || (max_tokens request <=? num_output_tokens request)
    then mret (true, finish request FINISHED_LENGTH_CAPPED None)
    else
      rep ← match repetition_detection sp with
            | None => mret false
            | Some params => check_sequence_repetition (_output_token_ids request) params
            end;
      if (rep : bool)
      then mret (true, finish request FINISHED_REPETITION
                         (Some (StopString "repetition_detected")))
      else mret (false, request).
