(* ===== verification/SchedUtilsFacts.v ===== *)
(** The repetition detector finds exactly the repeated suffixes, and [check_stop] finishes a
    request exactly when one of its stop conditions holds. *)

From S2P Require Import Prelude Request SchedUtils.

(** ** Repeated patterns *)

Section patterns.
Context {A : Type}.
Implicit Types l pat : list A.

(** [c] copies of [pat], as a prefix: read position by position. *)
Lemma copies_prefix pat c l :
  (∀ n m, (n < length pat)%nat → (m < c)%nat → l !! (length pat * m + n)%nat = pat !! n)
  ↔ concat (replicate c pat) `prefix_of` l.
Proof using.
  revert l. induction c as [|c IH]; intros l; simpl.
  { split; [intros _; apply prefix_nil|intros _ n m _ Hm; lia]. }
  split.
  - intros H. assert (take (length pat) l = pat) as Et.
    { apply list_eq. intros i. destruct (decide (i < length pat)%nat) as [Hi|Hi].
      - rewrite lookup_take_lt by done. rewrite <-(H i 0%nat) by lia. f_equal. lia.
      - rewrite lookup_take_ge by lia. symmetry. apply lookup_ge_None_2. lia. }
    rewrite <-(take_drop (length pat) l), Et. apply prefix_app, IH.
    intros n m Hn Hm. rewrite lookup_drop, <-(H n (S m)) by lia. f_equal. lia.
  - intros [k ->] n m Hn Hm. rewrite <-(assoc_L (++)). destruct m as [|m].
    + rewrite lookup_app_l by lia. f_equal. lia.
    + rewrite lookup_app_r by lia.
      rewrite <-(proj2 (IH (concat (replicate c pat) ++ k)) (prefix_app_r _ _ _ (reflexivity _)) n m) by lia.
      f_equal. lia.
Qed.

Lemma concat_replicate_snoc c pat :
  concat (replicate (S c) pat) = concat (replicate c pat) ++ pat.
Proof using. rewrite replicate_S_end, concat_app. simpl. by rewrite app_nil_r. Qed.

Lemma reverse_copies c pat :
  reverse (concat (replicate c pat)) = concat (replicate c (reverse pat)).
Proof using.
  induction c as [|c IH]; [done|]. rewrite concat_replicate_snoc, reverse_app, IH. done.
Qed.

Lemma copies_suffix pat c l :
  concat (replicate c pat) `suffix_of` l
  ↔ concat (replicate c (reverse pat)) `prefix_of` reverse l.
Proof using.
  rewrite suffix_prefix_reverse, reverse_copies. done.
Qed.

Lemma length_copies c pat : length (concat (replicate c pat)) = (c * length pat)%nat.
Proof using. induction c as [|c IH]; simpl; [done|]. rewrite length_app. lia. Qed.

Lemma py_get_from_end l k :
  1 ≤ k ≤ zlen l → py_get l (- k) = reverse l !! Z.to_nat (k - 1).
Proof using.
  unfold zlen. intros Hk. unfold py_get, py_index.
  rewrite (proj2 (Z.ltb_lt (- k) 0)) by lia.
  rewrite (proj2 (Z.leb_le 0 _)), (proj2 (Z.ltb_lt _ _)) by lia. simpl.
  rewrite reverse_lookup by lia. f_equal. lia.
Qed.
End patterns.

Section detector.
Context (token_ids : list Z).

Lemma get_from_end k : 1 ≤ k ≤ zlen token_ids → is_Some (py_get token_ids (- k)).
Proof using.
  intros Hk. rewrite py_get_from_end by done. apply lookup_lt_is_Some.
  rewrite length_reverse. unfold zlen in Hk. lia.
Qed.

Lemma repeats_at_spec p n t ms :
  Forall (λ m, 1 ≤ p * m + n ≤ zlen token_ids) ms →
  ∃ b, repeats_at token_ids p n t ms = inr b
    ∧ (b = true ↔ ∀ m, m ∈ ms → py_get token_ids (- (p * m + n)) = Some t).
Proof using.
  induction 1 as [|m ms Hm _ (b & E & IH)]; simpl.
  { exists true. split; [done|]. split; [|done]. by intros _ m ?%elem_of_nil. }
  destruct (get_from_end _ Hm) as [u Hu]. rewrite Hu. simpl.
  destruct (Z.eqb_spec u t) as [->|Hne]; simpl.
  - exists b. split; [done|]. rewrite IH. split.
    + by intros H m' [->|?]%elem_of_cons; [|apply H].
    + intros H m' ?. apply H. by right.
  - exists false. split; [done|]. split; [done|]. intros H.
    specialize (H m (list_elem_of_here _ _)). congruence.
Qed.

Lemma pattern_loop_spec p c ns :
  1 ≤ p → 1 ≤ c → p * c ≤ zlen token_ids → Forall (λ n, 1 ≤ n ≤ p) ns →
  ∃ b, pattern_loop token_ids p c ns = inr b
    ∧ (b = true ↔ ∀ n m, n ∈ ns → 1 ≤ m < c →
         py_get token_ids (- (p * m + n)) = py_get token_ids (- n)).
Proof using.
  intros Hp Hc Hlen. induction 1 as [|n ns Hn _ (b & E & IH)]; simpl.
  { exists true. split; [done|]. split; [|done]. by intros _ n m ?%elem_of_nil. }
  destruct (get_from_end n) as [t Ht]; [nia|]. rewrite Ht. simpl.
  destruct (repeats_at_spec p n t (py_range 1 c)) as (b1 & E1 & H1).
  { apply Forall_forall. intros m Hm%elem_of_py_range. nia. }
  rewrite E1. simpl.
  assert (b1 = true ↔ ∀ m, 1 ≤ m < c → py_get token_ids (- (p * m + n)) = py_get token_ids (- n)) as H1'.
  { rewrite H1, Ht. by setoid_rewrite elem_of_py_range. }
  destruct b1.
  - exists b. split; [done|]. rewrite IH. split.
    + intros H n' m [->|?]%elem_of_cons Hm; [by apply H1'|by apply H].
    + intros H n' m ? Hm. apply H; [by right|done].
  - exists false. split; [done|]. split; [done|]. intros H. apply H1'.
    intros m Hm. by apply H; [left|].
Qed.

(** The tail of [token_ids] is [c] copies of its last [p] tokens. *)
Lemma has_repeating_pattern_spec p c :
  1 ≤ p → 1 ≤ c → p * c ≤ zlen token_ids →
  ∃ b, _has_repeating_pattern token_ids p c = inr b
    ∧ (b = true ↔ ∃ pat, zlen pat = p ∧ concat (replicate (Z.to_nat c) pat) `suffix_of` token_ids).
Proof using.
  intros Hp Hc Hlen. destruct (pattern_loop_spec p c (py_range 1 (p + 1))) as (b & E & Hb);
    [done..| |].
  { apply Forall_forall. intros n Hn%elem_of_py_range. lia. }
  exists b. split; [done|]. rewrite Hb. clear Hb E b.
  setoid_rewrite elem_of_py_range. setoid_rewrite copies_suffix.
  split.
  - intros H. exists (reverse (take (Z.to_nat p) (reverse token_ids))).
    assert (length (take (Z.to_nat p) (reverse token_ids)) = Z.to_nat p) as Hl.
    { rewrite length_take, length_reverse. unfold zlen in Hlen. nia. }
    split; [unfold zlen; rewrite length_reverse; lia|]. rewrite reverse_involutive.
    apply copies_prefix. rewrite Hl. intros n m Hn Hm. rewrite lookup_take_lt by lia.
    destruct m as [|m]; [f_equal; lia|].
    specialize (H (Z.of_nat n + 1) (Z.of_nat (S m)) ltac:(lia) ltac:(lia)).
    rewrite !py_get_from_end in H by nia.
    replace (Z.to_nat (Z.of_nat n + 1 - 1)) with n in H by lia. rewrite <-H. f_equal. nia.
  - intros (pat & Hpat & H) n m Hn Hm. rewrite !py_get_from_end by nia.
    rewrite <-copies_prefix, length_reverse in H. unfold zlen in Hpat.
    replace (Z.to_nat (n - 1)) with (length pat * 0 + Z.to_nat (n - 1))%nat by lia.
    rewrite (H _ 0%nat) by lia.
    rewrite <-(H (Z.to_nat (n - 1)) (Z.to_nat m)) by lia. f_equal. nia.
Qed.

Lemma repetition_loop_spec c a b :
  2 ≤ c → 1 ≤ a →
  ∃ r, repetition_loop token_ids c (py_range a b) = inr r
    ∧ (r = true ↔ ∃ pat, a ≤ zlen pat < b ∧ concat (replicate (Z.to_nat c) pat) `suffix_of` token_ids).
Proof using.
  intros Hc. remember (Z.to_nat (b - a)) as k eqn:Hk. revert a Hk.
  induction k as [|k IH]; intros a Hk Ha.
  { rewrite py_range_nil by lia. exists false. split; [done|]. split; [done|].
    intros (pat & ? & _). lia. }
  rewrite py_range_cons by lia. simpl. destruct (Z.ltb_spec (zlen token_ids) (a * c)) as [Hs|Hs].
  { exists false. split; [done|]. split; [done|]. intros (pat & Hpat & Hsuf%suffix_length).
    rewrite length_copies in Hsuf. unfold zlen in *. nia. }
  destruct (has_repeating_pattern_spec a c) as (r & E & Hr); [lia..|]. rewrite E. simpl.
  destruct r.
  - exists true. split; [done|]. split; [|done]. intros _.
    destruct (proj1 Hr eq_refl) as (pat & ? & ?). exists pat. split; [lia|done].
  - destruct (IH (a + 1)) as (r & E' & Hr'); [lia..|]. exists r. split; [done|]. rewrite Hr'. split.
    + intros (pat & ? & ?). exists pat. split; [lia|done].
    + intros (pat & ? & ?). exists pat. split; [|done].
      assert (zlen pat ≠ a); [|lia]. intros Ea. by assert (false = true) by (apply Hr; eauto).
Qed.
End detector.

(** The repeated suffixes the parameters ask for. *)
Definition repeated_tail (params : RepetitionDetectionParams) (token_ids : list Z) : Prop :=
  2 ≤ min_count params ∧ ∃ pat, pat ≠ []
    ∧ min_pattern_size params ≤ zlen pat ≤ max_pattern_size params
    ∧ concat (replicate (Z.to_nat (min_count params)) pat) `suffix_of` token_ids.

Lemma check_sequence_repetition_spec token_ids params :
  ∃ b, check_sequence_repetition token_ids params = inr b
    ∧ (b = true ↔ repeated_tail params token_ids).
Proof.
  unfold repeated_tail.
  unfold check_sequence_repetition.
  set (a := if min_pattern_size params <=? 0 then 1 else min_pattern_size params).
  assert (1 ≤ a ∧ ∀ pat : list Z, a ≤ zlen pat ↔ pat ≠ [] ∧ min_pattern_size params ≤ zlen pat) as [Ha Hiff].
  { assert (∀ pat : list Z, pat ≠ [] ↔ 1 ≤ zlen pat) as Hne.
    { intros [|x pat]; rewrite ?zlen_cons; [done|]. pose proof (zlen_nonneg pat). split; [lia|done]. }
    unfold a. setoid_rewrite Hne. destruct (Z.leb_spec (min_pattern_size params) 0); split; intros; lia. }
  clearbody a. destruct (_ || _) eqn:Eg.
  - exists false. split; [done|]. split; [done|]. intros (Hc & pat & Hne & [Hmin Hmax] & _).
    pose proof (proj2 (Hiff pat) (conj Hne Hmin)). bool_hyps; lia.
  - bool_hyps.
    destruct (repetition_loop_spec token_ids (min_count params) a (max_pattern_size params + 1))
      as (r & E & Hr); [lia..|].
    exists r. split; [done|]. rewrite Hr. split.
    + intros (pat & [Hl Hu] & Hs). apply Hiff in Hl as [? ?]. split; [lia|]. exists pat. split_and!; [done..|lia|done].
    + intros (_ & pat & Hne & [Hmin Hmax] & Hs). exists pat. split; [|done].
      pose proof (proj2 (Hiff pat) (conj Hne Hmin)). lia.
Qed.

(** the repetition detector never raises, and reports a repetition exactly when the
    output ends in [min_count] (at least two) consecutive copies of a non-empty pattern whose
    length lies between the configured bounds. *)
Theorem check_sequence_repetition_correct (token_ids : list Z) (params : RepetitionDetectionParams) :
  ∃ b, check_sequence_repetition token_ids params = inr b
    ∧ (b = true ↔ 2 ≤ min_count params ∧ ∃ pat, pat ≠ []
         ∧ min_pattern_size params ≤ zlen pat ≤ max_pattern_size params
         ∧ concat (replicate (Z.to_nat (min_count params)) pat) `suffix_of` token_ids).
Proof. apply check_sequence_repetition_spec. Qed.

(** ** Stop conditions *)

(** The request's last token is its end-of-sequence token or one of its stop tokens. *)
Definition stops_on_token (sp : SamplingParams) (out : list Z) : bool :=
  match last out with
  | None => false
  | Some t => bool_decide (eos_token_id sp = Some t ∨ t ∈ stop_token_ids sp)
  end.
Definition length_capped (r : Request) (max_model_len : Z) : bool :=
  bool_decide (max_model_len ≤ num_tokens r ∨ max_tokens r ≤ num_output_tokens r).
(** The configured repetition, as a property of the output. *)
Definition repeats (sp : SamplingParams) (out : list Z) : Prop :=
  ∃ params, repetition_detection sp = Some params ∧ repeated_tail params out.

(** The status [check_stop] must leave, by precedence of the conditions. *)
Definition stop_status (sp : SamplingParams) (r : Request) (max_model_len : Z)
    (st : RequestStatus) : Prop :=
  if stops_on_token sp (_output_token_ids r) then st = FINISHED_STOPPED
  else if length_capped r max_model_len then st = FINISHED_LENGTH_CAPPED
  else repeats sp (_output_token_ids r) ∧ st = FINISHED_REPETITION.

Lemma detector_total sp out :
  ∃ b, match repetition_detection sp with
       | None => mret false
       | Some params => check_sequence_repetition out params
       end = inr b ∧ (b = true ↔ repeats sp out).
Proof.
  unfold repeats. destruct (repetition_detection sp) as [params|].
  - destruct (check_sequence_repetition_spec out params) as (b & E & Hb). exists b.
    split; [done|]. rewrite Hb. naive_solver.
  - exists false. naive_solver.
Qed.

Lemma check_stop_spec (r : Request) (max_model_len : Z) (sp : SamplingParams)
    (Hpool : pooling_params r = None) (Hsp : sampling_params r = Some sp)
    (Hout : _output_token_ids r ≠ []) :
  ∃ b r', check_stop r max_model_len = inr (b, r')
    ∧ r' = set_status r (status r') (stop_reason r')
    ∧ (b = true ↔ min_tokens sp ≤ num_output_tokens r
         ∧ (stops_on_token sp (_output_token_ids r) = true ∨ length_capped r max_model_len = true
            ∨ repeats sp (_output_token_ids r)))
    ∧ (if b then is_finished r' = true ∧ stop_status sp r max_model_len (status r') else r' = r).
Proof.
  unfold check_stop. rewrite bool_decide_eq_true_2, Hsp by done. simpl.
  assert (r = set_status r (status r) (stop_reason r)) as Hr by (by destruct r).
  destruct (Z.ltb_spec (num_output_tokens r) (min_tokens sp)) as [Hmin|Hmin].
  { exists false, r. split_and!; [done..| |done]. split; [done|]. lia. }
  unfold stop_status, stops_on_token. destruct (last (_output_token_ids r)) as [t|] eqn:El.
  2: { by apply last_None in El. }
  simpl. destruct (bool_decide_reflect (eos_token_id sp = Some t)) as [He|He].
  { exists true. eexists. rewrite bool_decide_eq_true_2 by auto. split_and!; [done..| |done|done].
    split; [auto|done]. }
  destruct (bool_decide_reflect (t ∈ stop_token_ids sp)) as [Ht|Ht].
  { exists true. eexists. rewrite bool_decide_eq_true_2 by auto. split_and!; [done..| |done|done].
    split; [auto|done]. }
  rewrite bool_decide_eq_false_2 by tauto.
  unfold length_capped.
  destruct ((max_model_len <=? num_tokens r) || (max_tokens r <=? num_output_tokens r)) eqn:Ec.
  { exists true. eexists. rewrite bool_decide_eq_true_2 by (bool_hyps; auto).
    split_and!; [done..| |done|done]. split; [auto|done]. }
  rewrite bool_decide_eq_false_2 by (bool_hyps; lia).
  destruct (detector_total sp (_output_token_ids r)) as (b & E & Hb). rewrite E. simpl. destruct b.
  - exists true. eexists. split_and!; [done..| |done|naive_solver|done]. naive_solver.
  - exists false, r. split_and!; [done..| |done]. naive_solver.
Qed.

(** C39: for a generative request that has produced a token, the stop check never raises.
    Below [min_tokens] it never stops the request.  Otherwise it stops exactly when the last
    token is the end-of-sequence or a stop token, a length limit is reached, or the configured
    repetition occurs, with the status of the first of these; only status and stop reason
    change, and a request that does not stop is left unchanged. *)
Theorem check_stop_correct (r : Request) (max_model_len : Z) (sp : SamplingParams)
    (Hpool : pooling_params r = None) (Hsp : sampling_params r = Some sp)
    (Hout : _output_token_ids r ≠ []) :
  ∃ b r', check_stop r max_model_len = inr (b, r')
    ∧ r' = set_status r (status r') (stop_reason r')
    ∧ (b = true ↔ min_tokens sp ≤ num_output_tokens r
         ∧ (stops_on_token sp (_output_token_ids r) = true ∨ length_capped r max_model_len = true
            ∨ repeats sp (_output_token_ids r)))
    ∧ (if b then is_finished r' = true ∧ stop_status sp r max_model_len (status r') else r' = r).
Proof. by apply check_stop_spec. Qed.

Definition sample_sampling : SamplingParams :=
  {| sp_max_tokens := Some 16; sp_structured_outputs := false; min_tokens := 2;
     eos_token_id := Some 2; stop_token_ids := [13];
     repetition_detection := Some {| max_pattern_size := 3; min_pattern_size := 0; min_count := 2 |};
     sp_skip_reading_prefix_cache := None; sp_kv_cache_report_mode := None |}.
(** The output ends in [7; 8; 7; 8]. *)
Definition sample_output : Request :=
  {| request_id := "r"; priority := 0; arrival_time := 0;
     sampling_params := Some sample_sampling; pooling_params := None;
     max_tokens := 16; num_prompt_tokens := 2;
     _output_token_ids := [5; 7; 8; 7; 8]; _all_token_ids := [1; 4; 5; 7; 8; 7; 8];
     spec_token_ids := []; num_computed_tokens := 6; num_preemptions := 0; mm_features := [];
     lora_request := None; cache_salt := None; prompt_embeds := None; block_hashes := [];
     shared_prefix_boundary := 0; status := RUNNING; stop_reason := None;
     num_in_flight_tokens := 0; kv_cache_report_mode := "incremental" |}.

Lemma check_stop_correct_witness :
  pooling_params sample_output = None ∧ sampling_params sample_output = Some sample_sampling
  ∧ _output_token_ids sample_output ≠ []
  ∧ check_stop sample_output 100
    = inr (true, set_status sample_output FINISHED_REPETITION (Some (StopString "repetition_detected")))
  ∧ stop_status sample_sampling sample_output 100 FINISHED_REPETITION.
Proof.
  assert (_output_token_ids sample_output ≠ []) as Hne by discriminate.
  split; [reflexivity|]. split; [reflexivity|]. split; [exact Hne|]. split; [vm_compute; reflexivity|].
  destruct (check_stop_correct sample_output 100 sample_sampling eq_refl eq_refl Hne)
    as (b & r' & E & _ & _ & H).
  assert (check_stop sample_output 100
    = inr (true, set_status sample_output FINISHED_REPETITION (Some (StopString "repetition_detected"))))
    as E' by (vm_compute; reflexivity).
  rewrite E' in E. injection E as <- <-. exact (proj2 H).
Defined.

(** ** Removing a set of requests *)

Lemma remove_one_filter {A} `{EqDecision A} (lst : list A) x :
  NoDup lst → remove_one lst x = filter (.≠ x) lst.
Proof.
  induction 1 as [|y lst Hy Hnd IH]; [done|]. simpl. rewrite filter_cons. case_decide as E.
  - subst y. rewrite decide_False by tauto. symmetry. apply filter_all.
    by intros z Hz ->.
  - rewrite decide_True by done. by rewrite IH.
Qed.

(** On a list without duplicates the fast path agrees with the general one. *)
Lemma remove_all_filter {A} `{Countable A} (lst : list A) (items : gset A) :
  NoDup lst → remove_all lst items = filter (.∉ items) lst.
Proof.
  intros Hnd. unfold remove_all. destruct (elements items) as [|x [|y l]] eqn:E; [..|done].
  - apply elements_empty_inv in E. symmetry. apply filter_all.
    intros z _. set_solver.
  - rewrite remove_one_filter by done. apply list_filter_iff. intros z.
    rewrite <-elem_of_elements, E, elem_of_cons, elem_of_nil. tauto.
Qed.
