(* ===== verification/SearchFacts.v ===== *)
(** One interface for the prefix-cache searches of the manager classes: which lengths a group
    accepts, what its tables look like, and that the search returns the longest accepted
    length.  The interface is what the coordinators rely on; full attention, sliding-window
    and recurrent (mamba) groups implement it. *)

From S2P Require Import Prelude MathUtils Request BlockHash BlockHashFacts FreeQueue.
From S2P Require Import FreeQueueFacts BlockPool BlockPoolFacts BlockPoolSpec BlockPoolTheorems.
From S2P Require Import Managers ManagerFacts AllocationFacts ReleaseFacts HitFacts WindowFacts.

Set Warnings "-level-tolerance,-clear-no-such-hyp".

(** ** The interface *)

(** [find n] searches up to [n] tokens for [ngroups] groups; [ok] are the accepted lengths,
    [shape] the tables returned. *)
Record search_laws (p : BlockPool) (limit al : Z) (ngroups : nat) (find : Z → M BlockPool Hit)
    (ok : Z → Prop) (shape : Hit → Prop) : Prop := {
  sl_aligned : ∀ len, ok len → (al | len);
  sl_find : ∀ n, 0 ≤ n ≤ limit →
    wp (find n) (λ res p', p' = p ∧ 0 ≤ res.2 ≤ n ∧ length res.1 = ngroups
      ∧ ok res.2 ∧ shape res ∧ ∀ len, len ≤ n → ok len → len ≤ res.2) p;
}.

(** A search whose accepted lengths are closed under shortening: a found hit can be trimmed. *)
Record trimmable (al bsz : Z) (ok : Z → Prop) (shape : Hit → Prop) : Prop := {
  tr_trim : ∀ cs n len, shape (cs, n) → ok n → (al | len) → 0 ≤ len ≤ n →
    ok len ∧ shape (take (Z.to_nat (cdiv len bsz)) <$> cs, len);
}.

(** Every group of [gids] has the block [j] of the prefix. *)
Definition row_cached p (gids : list Z) (hs : list bytes) (k : Z) (j : nat) : Prop :=
  ∃ h, block_hash_at hs k j = Some h ∧ ∀ g, g ∈ gids → ∃ b, is_blk b ∧ holds p h g b.

Lemma row_cached_columns p gids hs k j :
  gids ≠ [] →
  (∀ i g, gids !! i = Some g → ∃ h b, block_hash_at hs k j = Some h ∧ holds p h g b) →
  row_cached p gids hs k j.
Proof.
  intros Hne Hall. destruct gids as [|g0 gs] eqn:Eg; [done|].
  destruct (Hall 0%nat g0 eq_refl) as (h & b0 & Hh & _). exists h. split; [done|].
  intros g [i Hi]%list_elem_of_lookup. destruct (Hall i g Hi) as (h' & b & Hh' & Hb').
  simplify_eq. exists b. split; [by eapply holds_blk|done].
Qed.

(** ** Full attention *)

Section full.
Context (p : BlockPool) (l : list ref) (Hinv : pool_inv p l).
Context (gids : list Z) (Hg : valid_groups gids) (hs : list bytes) (k c limit : Z).
Context (Hhbs : 0 < hash_block_size p) (Hk : 0 < k) (Hc : 0 < c).

#[local] Abbreviation bsz := (k * hash_block_size p).
#[local] Abbreviation al := (c * bsz).

Definition full_ok (len : Z) : Prop := (al | len) ∧ prefix_cached p gids hs k bsz len.

Lemma hit_sound_cached res :
  0 < bsz → hit_sound p gids hs k bsz res → prefix_cached p gids hs k bsz res.2.
Proof using Hg.
  intros Hb [Hlen Hcol] j Hj. apply row_cached_columns; [apply Hg|]. intros i g Hi.
  { destruct (lookup_lt_is_Some_2 res.1 i) as [col Hci].
    { rewrite Hlen. by eapply lookup_lt_Some. }
    destruct (Hcol i g col Hi Hci) as [Hl Hblk].
    destruct (lookup_lt_is_Some_2 col j) as [b Hbj]; [unfold zlen in Hl; nia|].
    destruct (Hblk j b Hbj) as (h & ? & ?). eauto. }
Qed.

Lemma full_laws :
  search_laws p limit al (length gids)
    (λ n, full_find_longest_cache_hit (RawHashes hs) n gids bsz false al 1)
    full_ok (hit_sound p gids hs k bsz).
Proof using Hinv Hg Hhbs Hk Hc.
  assert (0 < bsz) as Hb by nia. split; [by intros len [? _]|].
  intros n Hn. eapply wp_mono; [apply (full_hit_correct p l Hinv gids Hg hs k c n); [done..|lia]|].
  simpl. intros res p' (-> & Hdiv & Hle & Hs & _ & Hmax). split_and!; try done; [lia|lia|apply Hs| |].
  - split; [done|]. by apply hit_sound_cached.
  - intros len Hlen [Hd Hp]. apply Hmax; rewrite ?Z.add_0_r; done.
Qed.

Lemma full_trimmable : trimmable al bsz full_ok (hit_sound p gids hs k bsz).
Proof using Hhbs Hk Hc.
  assert (0 < bsz) as Hb by nia. split. intros cs n len [Hlen Hcol] [_ Hp] Hd Hle. split.
  { split; [done|]. intros j Hj. apply Hp. lia. }
  assert (len = cdiv len bsz * bsz) as Hcd.
  { destruct Hd as [q ->]. assert (cdiv (q * al) bsz = q * c) as ->; [|lia].
    apply cdiv_unique; [done|]. nia. }
  pose proof (cdiv_spec bsz Hb len).
  split; simpl; [by rewrite length_fmap|]. intros i g col Hgi Hci.
  rewrite list_lookup_fmap in Hci. destruct (cs !! i) as [col0|] eqn:E; [|done]. simplify_eq/=.
  destruct (Hcol i g col0 Hgi E) as [Hz Hblk]. simpl in Hz. split.
  - unfold zlen in *. rewrite length_take. rewrite Hcd at 2. f_equal. nia.
  - intros j b [Hj _]%lookup_take_Some. by apply Hblk.
Qed.
End full.

(** ** Sliding window *)

Section swa.
Context (p : BlockPool) (l : list ref) (Hinv : pool_inv p l).
Context (gids : list Z) (Hg : valid_groups gids) (hs : list bytes) (k c limit w : Z).
Context (Hhbs : 0 < hash_block_size p) (Hk : 0 < k) (Hc : 0 < c) (Hw : 2 ≤ w).
Context (Henough : limit / hash_block_size p ≤ zlen hs).

#[local] Abbreviation bsz := (k * hash_block_size p).
#[local] Abbreviation al := (c * bsz).

Definition swa_ok (len : Z) : Prop := (al | len) ∧ window_cached p gids hs k bsz w len.

Lemma window_hit_cached res :
  0 < bsz → window_hit p gids hs k bsz w res → window_cached p gids hs k bsz w res.2.
Proof using Hg Hw Hk Hhbs.
  intros Hb [Hlen Hz Hent] j Hj Hwin. apply row_cached_columns; [apply Hg|]. intros i g Hi.
  { destruct (lookup_lt_is_Some_2 res.1 i) as [col Hci].
    { rewrite Hlen. by eapply lookup_lt_Some. }
    pose proof (Hz col (list_elem_of_lookup_2 _ _ _ Hci)) as Hl.
    destruct (lookup_lt_is_Some_2 col j) as [b Hbj]; [unfold zlen in Hl; nia|].
    destruct (Hent i g col j b Hi Hci Hbj) as [(h & ? & ?)|[_ ?]]; [eauto|lia]. }
Qed.

Lemma enough_hashes n : 0 ≤ n ≤ limit → n / bsz ≤ zlen hs / k.
Proof using Hhbs Hk Henough.
  intros Hn. rewrite (Z.mul_comm k), <-Z.div_div by lia. apply Z.div_le_mono; [done|].
  etrans; [|exact Henough]. apply Z.div_le_mono; lia.
Qed.

Lemma swa_laws :
  search_laws p limit al (length gids)
    (λ n, swa_find_longest_cache_hit (RawHashes hs) n gids bsz w false al 1 1)
    swa_ok (window_hit p gids hs k bsz w).
Proof using Hinv Hg Hhbs Hk Hc Hw Henough.
  assert (0 < bsz) as Hb by nia. split; [by intros len [? _]|].
  intros n Hn. eapply wp_mono.
  { apply (swa_hit_correct p l Hinv gids Hg hs k c n w); [done..|lia|lia|by apply enough_hashes]. }
  simpl. intros res p' (-> & Hdiv & Hle & Hs & _ & Hmax). split_and!; try done; [lia|lia|apply Hs| |].
  - split; [done|]. by apply window_hit_cached.
  - intros len Hlen [Hd Hp]. rewrite <-(Z.sub_0_r len). apply Hmax; rewrite ?Z.add_0_r; done.
Qed.
End swa.

(** ** Recurrent state *)

Section mamba.
Context (p : BlockPool) (l : list ref) (Hinv : pool_inv p l).
Context (gids : list Z) (Hg : valid_groups gids) (hs : list bytes) (k c limit : Z).
Context (Hhbs : 0 < hash_block_size p) (Hk : 0 < k) (Hc : 0 < c).
Context (Henough : limit / hash_block_size p ≤ zlen hs).

#[local] Abbreviation bsz := (k * hash_block_size p).
#[local] Abbreviation al := (c * bsz).

(** The state after [len] tokens is cached: only the last block of the prefix counts. *)
Definition state_ok (len : Z) : Prop :=
  (al | len) ∧ (len = 0 ∨ ∃ j : nat, len = (Z.of_nat j + 1) * bsz ∧ row_cached p gids hs k j).

(** Null blocks up to the block of the state. *)
Record state_hit (res : Hit) : Prop := {
  sh_groups : length res.1 = length gids;
  sh_len : ∀ col, col ∈ res.1 → zlen col * bsz = res.2;
  sh_entry : ∀ i g col (j : nat) b, gids !! i = Some g → res.1 !! i = Some col → col !! j = Some b →
    if decide (S j = length col) then ∃ h, block_hash_at hs k j = Some h ∧ holds p h g b
    else b = null_block p;
}.

Lemma row_of_cached j h :
  block_hash_at hs k j = Some h → is_Some (row_of p gids h) ↔ row_cached p gids hs k j.
Proof using Hinv Hg.
  intros Hh. split.
  - intros [row Hr]. destruct (row_sound p l Hinv gids Hg h row Hr) as [Hlen Hrow].
    apply row_cached_columns; [apply Hg|]. intros i g Hi.
    destruct (lookup_lt_is_Some_2 row i) as [b Hb]; [rewrite Hlen; by eapply lookup_lt_Some|].
    exists h, b. split; [done|]. by eapply Hrow.
  - intros (h' & Hh' & Hall). rewrite Hh in Hh'. injection Hh' as <-.
    destruct (row_of p gids h) eqn:Er; [by eexists|].
    destruct (row_complete p l Hinv gids Hg h Er) as (g & Hin & Hno).
    destruct (Hall g Hin) as (b & Hb' & Hhold). by destruct (Hno b Hb').
Qed.

(** No aligned block from [lo] on, below [m], is cached. *)
Definition none_cached (lo m : nat) : Prop :=
  ∀ j : nat, (lo ≤ j < m)%nat → (al | (Z.of_nat j + 1) * bsz) → ¬ row_cached p gids hs k j.
(** The last aligned cached block below [m]. *)
Definition last_state (m : nat) (res : option (Z * list ref)) : Prop :=
  match res with
  | Some (i, row) => ∃ j h, i = Z.of_nat j ∧ (j < m)%nat ∧ (al | (i + 1) * bsz)
      ∧ block_hash_at hs k j = Some h ∧ row_of p gids h = Some row ∧ none_cached (S j) m
  | None => none_cached 0 m
  end.

Lemma last_state_skip m res :
  ((al | (Z.of_nat m + 1) * bsz) → ¬ row_cached p gids hs k m) →
  last_state m res → last_state (S m) res.
Proof using.
  intros Hm.
  assert (∀ lo, none_cached lo m → none_cached lo (S m)) as Hnc.
  { intros lo H j Hj Hd. destruct (decide (j = m)) as [->|]; [by apply Hm|]. apply H; [lia|done]. }
  destruct res as [[i row]|]; simpl; [|apply Hnc].
  intros (j & h & ? & ? & ? & ? & ? & ?). exists j, h. split_and!; try done; [lia|by apply Hnc].
Qed.

Lemma mamba_loop_spec v (m : nat) :
  0 < bsz → (∀ j : nat, bhl_get v (Z.of_nat j) = block_hash_at hs k j) →
  (∀ j : nat, (j < m)%nat → is_Some (block_hash_at hs k j)) →
  wp (mamba_loop v gids bsz al (py_range_down 0 (Z.of_nat m)))
    (λ res p', p' = p ∧ last_state m res) p.
Proof using Hinv Hg Hhbs Hk Hc.
  intros Hb Hget Hsome. assert (0 < al) as Hal by nia. induction m as [|m IH].
  { simpl. wp_steps. split; [done|]. intros j Hj. lia. }
  rewrite py_range_down_snoc by lia. replace (Z.of_nat (S m) - 1) with (Z.of_nat m) by lia. simpl.
  rewrite Hget. destruct (Hsome m) as [h Hh]; [lia|]. rewrite Hh. wp_steps.
  eapply wp_lift_option; [done|]. wp_steps. apply (wp_lookup_hit p l Hinv gids Hg).
  assert (wp (mamba_loop v gids bsz al (py_range_down 0 (Z.of_nat m)))
      (λ res p', p' = p ∧ last_state m res) p) as Hrec by (apply IH; intros; apply Hsome; lia).
  destruct (row_of p gids h) as [row|] eqn:Er.
  - destruct (negb (bsz =? al) && negb (((Z.of_nat m + 1) * bsz) mod al =? 0)) eqn:Eal.
    + eapply wp_mono; [exact Hrec|]. simpl. intros res p' [-> Hres]. split; [done|].
      apply last_state_skip; [|done]. intros Hd%Z.mod_divide; [|lia]. bool_hyps. done.
    + wp_steps. split; [done|]. exists m, h. split_and!; try done; [lia| |].
      * apply andb_false_iff in Eal as [E|E]; bool_hyps; [|by apply Z.mod_divide; lia].
        rewrite <-E. apply Z.divide_factor_r.
      * intros j Hj. lia.
  - eapply wp_mono; [exact Hrec|]. simpl. intros res p' [-> Hres]. split; [done|].
    apply last_state_skip; [|done]. intros _ Hr. apply (row_of_cached m h Hh) in Hr.
    rewrite Er in Hr. by destruct Hr.
Qed.

Lemma null_padded_hit j h row :
  0 < bsz → block_hash_at hs k j = Some h → row_of p gids h = Some row →
  state_hit (null_padded (null_block p) (Z.of_nat j) (length gids) row, (Z.of_nat j + 1) * bsz).
Proof using Hinv Hg.
  intros Hb Hh Hr. destruct (row_sound p l Hinv gids Hg h row Hr) as [Hlen Hrow].
  unfold null_padded. rewrite Nat2Z.id.
  assert (∀ i col, append_each (replicate (length gids) (replicate j (null_block p))) row !! i = Some col →
    ∃ b, row !! i = Some b ∧ col = replicate j (null_block p) ++ [b]) as Hcol.
  { intros i col Hi. assert (i < length gids)%nat as Hlt.
    { apply lookup_lt_Some in Hi. rewrite length_append_each, length_replicate in Hi; [done|].
      by rewrite length_replicate. }
    destruct (lookup_lt_is_Some_2 row i) as [b Hbi]; [lia|]. exists b. split; [done|].
    erewrite append_each_lookup in Hi; [by simplify_eq|by rewrite length_replicate| |done].
    by apply lookup_replicate_2. }
  split; simpl.
  - rewrite length_append_each; by rewrite length_replicate.
  - intros col [i Hi]%list_elem_of_lookup. destruct (Hcol i col Hi) as (b & _ & ->).
    unfold zlen. rewrite length_app, length_replicate. simpl. f_equal. lia.
  - intros i g col j' b Hgi Hi Hj'. destruct (Hcol i col Hi) as (b0 & Hb0 & ->).
    rewrite length_app, length_replicate. simpl. case_decide as E.
    + assert (j' = j) as -> by lia. rewrite lookup_app_r, length_replicate, Nat.sub_diag in Hj'
        by (by rewrite length_replicate). simplify_eq/=. exists h. split; [done|]. by eapply Hrow.
    + rewrite lookup_app_l in Hj'.
      * by apply lookup_replicate in Hj' as [-> _].
      * rewrite length_replicate. apply lookup_lt_Some in Hj'.
        rewrite length_app, length_replicate in Hj'. simpl in Hj'. lia.
Qed.

Lemma mamba_laws :
  search_laws p limit al (length gids)
    (λ n, mamba_find_longest_cache_hit (RawHashes hs) n gids bsz al 1 1) state_ok state_hit.
Proof using Hinv Hg Hhbs Hk Hc Henough.
  assert (0 < bsz) as Hb by nia. assert (bsz ≤ al) as Hba by nia. split; [by intros len [? _]|].
  intros n Hn. destruct (resolve_ok (hash_block_size p) k hs Hhbs Hk) as [v Hv].
  destruct (swa_hashes p hs k n Hhbs Hk (enough_hashes p hs k limit Hhbs Hk Henough n Hn) v Hv)
    as [Hget Hsome].
  pose proof (Z.div_pos n bsz ltac:(lia) Hb) as Hn0. pose proof (Z.mul_div_le n bsz Hb) as Hnle.
  unfold mamba_find_longest_cache_hit. wp_steps. simpl. wp_steps. simpl. wp_steps.
  rewrite resolve_coarse by done. eapply wp_lift_result; [exact Hv|]. wp_steps.
  rewrite (proj2 (Z.ltb_ge al bsz)) by done. simpl. wp_steps. rewrite <-(Z2Nat.id (n / bsz)) by done.
  eapply wp_mono; [apply (mamba_loop_spec v); [done..|]|].
  { intros j Hj. rewrite <-Hget. apply Hsome. lia. }
  simpl. intros res p' [-> Hres].
  assert (∀ lo len, none_cached lo (Z.to_nat (n / bsz)) → len ≤ n → state_ok len →
    len ≤ Z.of_nat lo * bsz) as Hmax.
  { intros lo len Hnc Hlen [Hd [->|(j & -> & Hr)]]; [nia|].
    destruct (Z.le_gt_cases ((Z.of_nat j + 1) * bsz) (Z.of_nat lo * bsz)) as [|Hgt]; [done|].
    exfalso. apply (Hnc j); [|done|done].
    assert (Z.of_nat j + 1 ≤ n / bsz) by (apply Z.div_le_lower_bound; lia). nia. }
  destruct res as [[i row]|]; simpl in Hres; wp_steps.
  - destruct Hres as (j & h & -> & Hj & Hd & Hh & Hr & Hnc).
    pose proof (null_padded_hit j h row Hb Hh Hr) as Hs.
    split_and!; simpl; [done|nia|nia|apply Hs| |done|].
    + split; [done|]. right. exists j. split; [done|]. apply (row_of_cached j h Hh). by eexists.
    + intros len Hlen Hok. specialize (Hmax (S j) len Hnc Hlen Hok). lia.
  - split_and!; simpl; [done|lia|lia|by rewrite length_replicate| | |].
    + split; [apply Z.divide_0_r|by left].
    + split; simpl; [by rewrite length_replicate| |].
      * intros col Hcol%list_elem_of_lookup. destruct Hcol as [i [-> _]%lookup_replicate]. done.
      * intros i g col j b _ [-> _]%lookup_replicate Hj. done.
    + intros len Hlen Hok. specialize (Hmax 0%nat len Hres Hlen Hok). lia.
Qed.
End mamba.

(** ** Chunked local attention *)

Section chunked.
Context (p : BlockPool) (l : list ref) (Hinv : pool_inv p l).
Context (gids : list Z) (Hg : valid_groups gids) (hs : list bytes) (k limit q : Z).
Context (Hhbs : 0 < hash_block_size p) (Hk : 0 < k) (Hq : 0 < q).
Context (Henough : limit / hash_block_size p ≤ zlen hs).

#[local] Abbreviation bsz := (k * hash_block_size p).
(** The chunk size is a multiple of the block size. *)
#[local] Abbreviation chunk := (q * bsz).

(** The blocks of the chunk of token [len] up to [len] are cached. *)
Definition chunk_ok (len : Z) : Prop :=
  (bsz | len) ∧ ∀ j : nat, len / chunk * chunk ≤ Z.of_nat j * bsz → Z.of_nat j * bsz < len →
    row_cached p gids hs k j.

(** Null blocks before block [s], the request's blocks from there to block [n]. *)
Definition chunk_table (s n : nat) (cs : list (list ref)) : Prop :=
  length cs = length gids
  ∧ ∀ i g col, gids !! i = Some g → cs !! i = Some col → length col = n
      ∧ ∀ j b, col !! j = Some b →
          if decide (j < s)%nat then b = null_block p
          else ∃ h, block_hash_at hs k j = Some h ∧ holds p h g b.

Definition chunk_hit (res : Hit) : Prop :=
  ∃ n, res.2 = Z.of_nat n * bsz ∧ chunk_table (Z.to_nat (res.2 / chunk * q)) n res.1.

Lemma chunk_table_snoc s n cs h row :
  (s ≤ n)%nat → chunk_table s n cs → block_hash_at hs k n = Some h → row_of p gids h = Some row →
  chunk_table s (S n) (append_each cs row).
Proof using Hinv Hg.
  intros Hs [Hlen Hcol] Hh Hr. destruct (row_sound p l Hinv gids Hg h row Hr) as [Hrl Hrow].
  split; [rewrite length_append_each; congruence|]. intros i g col' Hi Hcol'.
  destruct (lookup_lt_is_Some_2 cs i) as [col Hc]; [rewrite Hlen; by eapply lookup_lt_Some|].
  destruct (lookup_lt_is_Some_2 row i) as [b Hb]; [rewrite Hrl; by eapply lookup_lt_Some|].
  rewrite (append_each_lookup cs row i col b) in Hcol' by (done || lia). simplify_eq.
  destruct (Hcol i g col Hi Hc) as [Hn He]. split; [rewrite length_app; simpl; lia|].
  intros j b' Hj. destruct (decide (j < n)%nat) as [Hjn|Hjn].
  - rewrite lookup_app_l in Hj by lia. by apply He.
  - apply lookup_app_Some in Hj as [Hj|[Hjl Hj]]; [apply lookup_lt_Some in Hj; lia|].
    apply list_lookup_singleton_Some in Hj as [Hj <-]. assert (j = n) as -> by lia.
    rewrite decide_False by lia. exists h. split; [done|]. by eapply Hrow.
Qed.

Lemma chunk_loop_spec v s (m a : nat) cs :
  (∀ j : nat, bhl_get v (Z.of_nat j) = block_hash_at hs k j) →
  (∀ j : nat, (j < a + m)%nat → is_Some (block_hash_at hs k j)) → (s ≤ a)%nat → chunk_table s a cs →
  wp (chunk_loop v gids (py_range (Z.of_nat a) (Z.of_nat (a + m))) cs)
    (λ cs' p', p' = p ∧ ∃ n, (a ≤ n ≤ a + m)%nat ∧ chunk_table s n cs'
       ∧ (∀ j, (a ≤ j < n)%nat → row_cached p gids hs k j)
       ∧ ((n < a + m)%nat → ¬ row_cached p gids hs k n)) p.
Proof using Hinv Hg.
  intros Hget. revert a cs. induction m as [|m IH]; intros a cs Hsome Hs Ht.
  { rewrite py_range_nil by lia. simpl. wp_steps. split; [done|]. exists a. split_and!; try done; lia. }
  rewrite py_range_cons by lia. simpl. rewrite Hget. destruct (Hsome a) as [h Hh]; [lia|]. rewrite Hh.
  wp_steps. eapply wp_lift_option; [done|]. wp_steps. apply (wp_lookup_hit p l Hinv gids Hg).
  pose proof (row_of_cached p l Hinv gids Hg hs k a h Hh) as Hrc.
  destruct (row_of p gids h) as [row|] eqn:Er.
  - replace (Z.of_nat a + 1) with (Z.of_nat (S a)) by lia.
    replace (a + S m)%nat with (S a + m)%nat in * by lia.
    eapply wp_mono; [apply IH; [done|lia|by eapply chunk_table_snoc]|]. simpl.
    intros cs' p' (-> & n & Hn & Ht' & Hall & Hno). split; [done|]. exists n. split_and!; try done; [lia..|].
    intros j Hj. destruct (decide (j = a)) as [->|]; [apply Hrc; by eexists|]. apply Hall. lia.
  - wp_steps. split; [done|]. exists a. split_and!; try done; try lia.
    intros _ Hr. apply Hrc in Hr. by destruct Hr.
Qed.

Lemma same_chunk n (s r : nat) :
  0 < bsz → 0 ≤ n → Z.of_nat s = n / chunk * q → (s ≤ r)%nat → Z.of_nat r * bsz ≤ n →
  Z.of_nat r * bsz / chunk = n / chunk.
Proof using Hq Hk Hhbs.
  intros Hb Hn Hs Hsr Hr. assert (0 < chunk) as Hc by nia.
  pose proof (Z.mul_div_le n chunk Hc). pose proof (Z.mul_succ_div_gt n chunk Hc).
  symmetry. apply Z.div_unique_pos with (Z.of_nat r * bsz - chunk * (n / chunk)); [|lia]. nia.
Qed.

Lemma chunked_laws :
  search_laws p limit bsz (length gids)
    (λ n, chunked_find_longest_cache_hit (RawHashes hs) n gids bsz chunk false bsz 1 1)
    chunk_ok chunk_hit.
Proof using Hinv Hg Hhbs Hk Hq Henough.
  assert (0 < bsz) as Hb by nia. assert (0 < chunk) as Hc by nia. split; [by intros len [? _]|].
  intros n Hn. destruct (resolve_ok (hash_block_size p) k hs Hhbs Hk) as [v Hv].
  destruct (swa_hashes p hs k n Hhbs Hk (enough_hashes p hs k limit Hhbs Hk Henough n Hn) v Hv)
    as [Hget Hsome].
  pose proof (Z.mul_div_le n bsz Hb) as Hnle. pose proof (Z.div_pos n chunk ltac:(lia) Hc) as Hn0.
  pose proof (Z.mul_div_le n chunk Hc) as Hcle.
  unfold chunked_find_longest_cache_hit. wp_steps. simpl. wp_steps. simpl. wp_steps. simpl. wp_steps.
  rewrite Z.eqb_refl. simpl. wp_steps. rewrite resolve_coarse by done.
  eapply wp_lift_result; [exact Hv|]. wp_steps.
  assert ((if 0 <? n then n / chunk * chunk else 0) / bsz = n / chunk * q) as ->.
  { destruct (Z.ltb_spec 0 n).
    - replace (n / chunk * chunk) with (n / chunk * q * bsz) by ring. by apply Z.div_mul; lia.
    - replace n with 0 by lia. rewrite !Z.div_0_l by lia. done. }
  set (s := Z.to_nat (n / chunk * q)). assert (Z.of_nat s = n / chunk * q) as Hs by (unfold s; nia).
  assert (n / chunk * q ≤ n / bsz) as Hsn by (apply Z.div_le_lower_bound; [done|]; nia).
  rewrite <-Hs. replace (n / bsz) with (Z.of_nat (s + (Z.to_nat (n / bsz) - s))) by lia.
  eapply wp_mono; [apply (chunk_loop_spec v s (Z.to_nat (n / bsz) - s) s); [done| |done|]|].
  { intros j Hj. rewrite <-Hget. apply Hsome. lia. }
  { split; [apply length_replicate|]. intros i g col _ [-> _]%lookup_replicate.
    split; [apply length_replicate|]. intros j b [-> Hj]%lookup_replicate. by rewrite decide_True. }
  simpl. intros cs p' (-> & r & Hr & Ht & Hall & Hno). destruct Ht as [Hlen Hcol].
  assert (∃ col, head cs = Some col ∧ length col = r) as (col & Hcol0 & Hl0).
  { destruct Hg as [Hne _]. destruct gids as [|g gs]; [done|]. destruct cs as [|col cs]; [done|].
    exists col. split; [done|]. by apply (Hcol 0%nat g). }
  wp_steps. rewrite Hcol0. eapply wp_lift_option; [done|]. wp_steps. unfold zlen. rewrite Hl0. simpl.
  assert (Z.of_nat r * bsz ≤ n) as Hrn by nia.
  pose proof (same_chunk n s r Hb ltac:(lia) Hs ltac:(lia) Hrn) as Hsame.
  split_and!; [done|nia|done|done| | |].
  - split; [apply Z.divide_factor_r|]. rewrite Hsame. intros j Hj1 Hj2. apply Hall. nia.
  - exists r. split; [done|]. simpl. rewrite Hsame. fold s. by split.
  - intros len Hle [[d ->] Hcached]. destruct (Z.le_gt_cases (d * bsz) (Z.of_nat r * bsz)) as [|Hgt]; [done|].
    exfalso. assert (d ≤ n / bsz) by (apply Z.div_le_lower_bound; lia).
    apply Hno; [nia|]. apply Hcached; [|done].
    rewrite <-(Z2Nat.id d) by nia. rewrite (same_chunk n s (Z.to_nat d)); try done; try nia.
Qed.
End chunked.
