(* ===== verification/RegistrationFacts.v ===== *)
(** Registration of full blocks: the blocks of a table that are not registered yet are private
    and carry no hash, so [cache_blocks] cannot trip over them.  The static configuration of a
    manager is never changed. *)

From S2P Require Import Prelude MathUtils Request BlockHash BlockHashFacts FreeQueue.
From S2P Require Import FreeQueueFacts BlockPool BlockPoolFacts BlockPoolSpec BlockPoolTheorems.
From S2P Require Import Managers ManagerFacts AllocationFacts ReleaseFacts WindowFacts.

Set Warnings "-level-tolerance,-clear-no-such-hyp".

(** ** The configuration of a manager *)

Definition static (m : Manager) :=
  (kv_cache_spec m, scheduler_block_size m, block_size m, mgr_enable_caching m,
   _max_admission_blocks_per_request m, _record_new_block_ids m, kv_cache_group_id m, use_eagle m).

Definition keeps_static {A} (op : M GroupState A) : Prop :=
  ∀ s, static (g_mgr (op s).2) = static (g_mgr s).

Create HintDb static.

Section static.
Context {A B : Type}.
Implicit Types (m : M GroupState A) (f : A → M GroupState B).

Lemma ks_ret (a : A) : keeps_static (mret a).
Proof using. done. Qed.
Lemma ks_raise e : keeps_static (raise (A := A) e).
Proof using. done. Qed.
Lemma ks_self (f : Manager → A) : keeps_static (self f).
Proof using. done. Qed.
Lemma ks_gets (f : GroupState → A) : keeps_static (gets f).
Proof using. done. Qed.
Lemma ks_on_pool (op : M BlockPool A) : keeps_static (on_pool op).
Proof using. intros s. unfold on_pool, zoom. by destruct (op (g_pool s)). Qed.
Lemma ks_lift_option e (o : option A) : keeps_static (lift_option e o).
Proof using. by destruct o. Qed.
Lemma ks_lift_result (r : exn + A) : keeps_static (lift_result r).
Proof using. done. Qed.
Lemma ks_assert b : keeps_static (assert b).
Proof using. by destruct b. Qed.
Lemma ks_update (g : Manager → Manager) : (∀ x, static (g x) = static x) → keeps_static (update_self g).
Proof using. intros H s. apply H. Qed.
Lemma ks_when b (op : M GroupState unit) : keeps_static op → keeps_static (when b op).
Proof using. by destruct b. Qed.
Lemma ks_bind m f : keeps_static m → (∀ a, keeps_static (f a)) → keeps_static (m ≫= f).
Proof using.
  intros Hm Hf s. unfold mbind, M_bind. specialize (Hm s).
  destruct (m s) as [[e|a] s1]; simpl in *; [done|]. by rewrite (Hf a s1).
Qed.
Lemma ks_for_each (l : list A) (body : A → M GroupState unit) :
  (∀ x, keeps_static (body x)) → keeps_static (for_each l body).
Proof using.
  intros H. induction l as [|x l IH]; [done|]. intros s. simpl. unfold mbind, M_bind.
  specialize (H x s). destruct (body x s) as [[e|u] s1]; simpl in *; [done|]. by rewrite IH.
Qed.
End static.

(** Splits a computation into its parts. *)
Ltac static_step :=
  match goal with
  | |- keeps_static (_ ≫= _) => apply ks_bind; [|intros ?]
  | |- keeps_static (when _ _) => apply ks_when
  | |- keeps_static (for_each _ _) => apply ks_for_each; intros ?
  | |- keeps_static (update_self _) => apply ks_update; done
  | |- keeps_static (match ?x with _ => _ end) => destruct x
  | |- keeps_static (let _ := _ in _) => cbv zeta
  | |- _ => solve [auto 1 with static]
  end.
Ltac static_steps := repeat static_step.

#[export] Hint Resolve ks_ret ks_raise ks_self ks_gets ks_on_pool ks_lift_option ks_lift_result
  ks_assert : static.

Section ops_static.
Context (sha256 : bytes → bytes) (use_int : bool).

Lemma ks_req_blocks id : keeps_static (req_blocks id).
Proof using. unfold req_blocks. static_steps. Qed.
Lemma ks_set_req_blocks id bs : keeps_static (set_req_blocks id bs).
Proof using. unfold set_req_blocks. static_steps. Qed.
Hint Resolve ks_req_blocks ks_set_req_blocks : static.
Lemma ks_apply_cow id i a b : keeps_static (_apply_cow id i a b).
Proof using. unfold _apply_cow. static_steps. Qed.
Lemma ks_remove_range id lo hi : keeps_static (_remove_blocks_in_range id lo hi).
Proof using. unfold _remove_blocks_in_range. static_steps. Qed.
Hint Resolve ks_apply_cow ks_remove_range : static.
Lemma ks_pop id : keeps_static (pop_blocks_for_free id).
Proof using. unfold pop_blocks_for_free. static_steps. Qed.
Hint Resolve ks_pop : static.
Lemma ks_free id : keeps_static (free id).
Proof using. unfold free. static_steps. Qed.
Lemma ks_new_step : keeps_static new_step_starts.
Proof using. unfold new_step_starts. static_steps. Qed.
Lemma ks_remove_skipped id n np : keeps_static (remove_skipped_blocks id n np).
Proof using.
  unfold remove_skipped_blocks, base_remove_skipped_blocks, mamba_drop_last_state. static_steps.
Qed.
Lemma ks_add_local id ncb loc ext : keeps_static (add_local_computed_blocks id ncb loc ext).
Proof using. unfold add_local_computed_blocks, base_add_local_computed_blocks. static_steps. Qed.
Lemma ks_external id loc ext : keeps_static (allocate_external_computed_blocks use_int id loc ext).
Proof using.
  unfold allocate_external_computed_blocks, base_allocate_external_computed_blocks. static_steps.
Qed.
Lemma ks_base_allocate id n main : keeps_static (base_allocate_new_blocks use_int id n main).
Proof using. unfold base_allocate_new_blocks. static_steps. Qed.
Hint Resolve ks_base_allocate : static.
Lemma ks_allocate id n main : keeps_static (allocate_new_blocks use_int id n main).
Proof using. unfold allocate_new_blocks, mamba_allocate_new_blocks, mamba_cow. static_steps. Qed.
Lemma ks_base_cache request n ri : keeps_static (base_cache_blocks sha256 use_int request n ri).
Proof using. unfold base_cache_blocks. static_steps. Qed.
Hint Resolve ks_base_cache : static.
Lemma ks_cache request n ri : keeps_static (cache_blocks sha256 use_int request n ri).
Proof using.
  unfold cache_blocks, full_cache_blocks, full_cache_partial_tail_block, mamba_cache_blocks,
    mamba_cache_partial_tail_block, note_cached_this_step. static_steps.
Qed.
End ops_static.

(** ** Blocks waiting for registration *)

Definition cached_blocks (m : Manager) (id : string) : Z := default 0 (num_cached_block m !! id).

(** Position [j] of the table of [id] holds [b] and is not registered yet. *)
Definition uncached_at (m : Manager) (id : string) (j : nat) (b : ref) : Prop :=
  table m id !! j = Some b ∧ cached_blocks m id ≤ Z.of_nat j.

(** Unregistered positions hold private blocks without a hash. *)
Record reg_ok (p : BlockPool) (ms : list Manager) : Prop := {
  ro_unique : ∀ i m i' m' id j id' j' b, ms !! i = Some m → ms !! i' = Some m' → usable p b →
    uncached_at m id j b → uncached_at m' id' j' b → i = i' ∧ id = id' ∧ j = j';
  ro_unreg : ∀ i m id j b, ms !! i = Some m → usable p b → uncached_at m id j b →
    ntok_of p b = None;
  ro_count : ∀ i m id, ms !! i = Some m → 0 ≤ cached_blocks m id;
}.

(** A step of one manager that registers nothing: its new unregistered positions hold blocks
    of the free list [l]. *)
Record advance (p : BlockPool) (m : Manager) (l : list ref) (p' : BlockPool) (m' : Manager)
    : Prop := {
  adv_ntok : ∀ r, usable p r → ntok_of p' r = ntok_of p r ∨ ntok_of p' r = None;
  adv_new : ∀ id j b, uncached_at m' id j b → usable p b →
    uncached_at m id j b
    ∨ (b ∈ l ∧ ntok_of p' b = None ∧ ∀ id' j', uncached_at m' id' j' b → id' = id ∧ j' = j);
  adv_count : (∀ id, 0 ≤ cached_blocks m id) → ∀ id, 0 ≤ cached_blocks m' id;
}.

(** The step that registers the blocks of [id] up to [n]. *)
Record registers (p : BlockPool) (m : Manager) (id : string) (n : Z) (p' : BlockPool)
    (m' : Manager) : Prop := {
  rs_tables : ∀ id', table m' id' = table m id';
  rs_count : cached_blocks m' id = Z.max (cached_blocks m id) n;
  rs_others : keeps_counts id m m';
  rs_ntok : ∀ r, usable p r → ntok_of p' r = ntok_of p r
    ∨ ∃ j, uncached_at m id j r ∧ Z.of_nat j < n;
  rs_partial : _partial_hit_reqs m' = _partial_hit_reqs m;
  rs_pending : _pending_cow_copies m' = _pending_cow_copies m;
}.

Section steps.
Implicit Types (p : BlockPool) (m : Manager) (l : list ref) (ms : list Manager) (id : string).

Lemma reg_ok_advance p ms i m p' m' l :
  reg_ok p ms → ms !! i = Some m → same_conf p p' → advance p m l p' m' →
  (∀ b i1 m1 id, b ∈ l → ms !! i1 = Some m1 → b ∉ table m1 id) →
  reg_ok p' (<[i := m']> ms).
Proof using.
  intros [Hu Hr Hn] Hi Hc [A1 A2 A3] Hfree.
  assert (∀ k mk id j b, <[i := m']> ms !! k = Some mk → usable p b → uncached_at mk id j b →
    (∃ m0, ms !! k = Some m0 ∧ uncached_at m0 id j b)
    ∨ (k = i ∧ mk = m' ∧ b ∈ l ∧ ntok_of p' b = None
       ∧ ∀ id' j', uncached_at m' id' j' b → id' = id ∧ j' = j)) as Hold.
  { intros k mk id j b Hk Hb Hat. apply list_lookup_insert_Some in Hk as [(<- & <- & _)|[Hne Hk]].
    - destruct (A2 id j b Hat Hb) as [H|(? & ? & ?)]; [left; eauto|]. right. done.
    - left. eauto. }
  split.
  - intros i1 m1 i2 m2 id1 j1 id2 j2 b H1 H2 Hb U1 U2.
    assert (usable p b) as Hb' by (eapply usable_conf; [symmetry; exact Hc|done]).
    destruct (Hold _ _ _ _ _ H1 Hb' U1) as [(n1 & Hn1 & O1)|(-> & -> & Hin & _ & Hq)],
      (Hold _ _ _ _ _ H2 Hb' U2) as [(n2 & Hn2 & O2)|(-> & -> & Hin2 & _ & Hq2)].
    + by eapply (Hu i1 n1 i2 n2).
    + destruct O1 as [O1 _]. exfalso. eapply (Hfree b i1 n1 id1); [done..|]. by eapply list_elem_of_lookup_2.
    + destruct O2 as [O2 _]. exfalso. eapply (Hfree b i2 n2 id2); [done..|]. by eapply list_elem_of_lookup_2.
    + destruct (Hq id2 j2 U2) as [-> ->]. done.
  - intros k mk id j b Hk Hb Hat.
    assert (usable p b) as Hb' by (eapply usable_conf; [symmetry; exact Hc|done]).
    destruct (Hold _ _ _ _ _ Hk Hb' Hat) as [(m0 & H0 & Hat0)|(_ & _ & _ & Hnt & _)]; [|done].
    pose proof (Hr k m0 id j b H0 Hb' Hat0). destruct (A1 b Hb'); congruence.
  - intros k mk id Hk. apply list_lookup_insert_Some in Hk as [(<- & <- & _)|[_ Hk]]; [|by eapply Hn].
    apply A3. intros id'. by eapply Hn.
Qed.

Lemma reg_ok_registers p ms i m p' m' id n :
  reg_ok p ms → ms !! i = Some m → same_conf p p' → registers p m id n p' m' →
  reg_ok p' (<[i := m']> ms).
Proof using.
  intros [Hu Hr Hn] Hi Hc [R1 R2 R3' R4 _ _].
  assert (∀ id', id' ≠ id → cached_blocks m' id' = cached_blocks m id') as R3.
  { intros id' Hne. unfold cached_blocks. by rewrite R3'. }
  assert (∀ id1 j b, uncached_at m' id1 j b →
    uncached_at m id1 j b ∧ (id1 = id → n ≤ Z.of_nat j)) as Hback.
  { intros id1 j b [Ht Hj]. unfold uncached_at. rewrite R1 in Ht.
    destruct (decide (id1 = id)) as [->|Hne]; [rewrite R2 in Hj|rewrite R3 in Hj by done];
      (split; [split; [done|lia]|]); [lia|done]. }
  assert (∀ k mk id1 j b, <[i := m']> ms !! k = Some mk → uncached_at mk id1 j b →
    ∃ m0, ms !! k = Some m0 ∧ uncached_at m0 id1 j b ∧ (k = i → id1 = id → n ≤ Z.of_nat j)) as Hold.
  { intros k mk id1 j b Hk Hat. apply list_lookup_insert_Some in Hk as [(<- & <- & _)|[Hne Hk]].
    - destruct (Hback _ _ _ Hat). eauto.
    - exists mk. split_and!; [done..|]. by intros ->. }
  split.
  - intros i1 m1 i2 m2 id1 j1 id2 j2 b H1 H2 Hb U1 U2.
    assert (usable p b) as Hb' by (eapply usable_conf; [symmetry; exact Hc|done]).
    destruct (Hold _ _ _ _ _ H1 U1) as (n1 & Hn1 & O1 & _), (Hold _ _ _ _ _ H2 U2) as (n2 & Hn2 & O2 & _).
    by eapply (Hu i1 n1 i2 n2).
  - intros k mk id1 j b Hk Hb Hat.
    assert (usable p b) as Hb' by (eapply usable_conf; [symmetry; exact Hc|done]).
    destruct (Hold _ _ _ _ _ Hk Hat) as (m0 & H0 & Hat0 & Hlt).
    pose proof (Hr k m0 id1 j b H0 Hb' Hat0) as Hnone.
    destruct (R4 b Hb') as [->|(j' & Hat' & Hj')]; [done|].
    destruct (Hu k m0 i m id1 j id j' b) as (-> & -> & ->); [done..|]. specialize (Hlt eq_refl eq_refl). lia.
  - intros k mk id1 Hk. apply list_lookup_insert_Some in Hk as [(<- & <- & _)|[_ Hk]]; [|by eapply Hn].
    pose proof (Hn i m id1 Hi). destruct (decide (id1 = id)) as [->|]; [|by rewrite R3].
    rewrite R2. lia.
Qed.

(** ** The steps of a manager *)

(** A free block is in no table. *)
Lemma free_not_in_table F s l b id : group_inv F s l → b ∈ l → b ∉ table (g_mgr s) id.
Proof using.
  intros H Hb Hin. apply (free_iff _ _ _ (gi_pool _ _ _ H)) in Hb as [Hu Hrc].
  rewrite (gi_refs _ _ _ H b Hu) in Hrc. pose proof (gi_frame _ _ _ H b).
  pose proof (pend_refs_nonneg (_pending_cow_copies (g_mgr s)) b).
  pose proof (table_refs_le (req_to_blocks (g_mgr s)) id b).
  assert (0 < occ b (table (g_mgr s) id)) by (by apply occ_pos). unfold mgr_refs, table in *. lia.
Qed.

Lemma cached_blocks_eq m m' id :
  num_cached_block m' = num_cached_block m → cached_blocks m' id = cached_blocks m id.
Proof using. unfold cached_blocks. by intros ->. Qed.

Lemma usable_is_blk p r : usable p r → is_blk r.
Proof using. intros (i & -> & _). by exists i. Qed.

Lemma advance_hashes p m l p' m' :
  same_hashes p p' → num_cached_block m' = num_cached_block m →
  (∀ id j b, table m' id !! j = Some b → usable p b → table m id !! j = Some b) →
  advance p m l p' m'.
Proof using.
  intros [Hh _] Hn Ht. split.
  - intros r _. left. apply Hh.
  - intros id j b [Hj Hc] Hb. left. split; [by apply Ht|]. by rewrite <-(cached_blocks_eq m m').
  - intros H id. by rewrite (cached_blocks_eq m m').
Qed.

Lemma advance_grown F p m l p' m' id (n : nat) :
  group_inv F (mkGroup p m) l → enable_caching p = true →
  num_cached_block m' = num_cached_block m →
  table m' id = table m id ++ take n l →
  (∀ id', id' ≠ id → table m' id' = table m id') → recycled p (take n l) p' →
  advance p m l p' m'.
Proof using.
  intros H Hc Hn Ht Ho [Hr1 Hr2].
  assert (∀ r, r ∈ take n l → r ∈ l) as Hsub.
  { intros r Hr. rewrite <-(take_drop n l). apply elem_of_app. by left. }
  assert (NoDup (take n l)) as Hnd.
  { eapply sublist_NoDup; [|apply sublist_take]. eapply inv_nodup, (gi_pool _ _ _ H). }
  assert (∀ id' j b, uncached_at m' id' j b → uncached_at m id' j b ∨ (id' = id ∧
    ∃ k, j = (length (table m id) + k)%nat ∧ take n l !! k = Some b)) as Hcases.
  { intros id' j b [Hj Hcj]. rewrite (cached_blocks_eq m m') in Hcj by done.
    destruct (decide (id' = id)) as [->|Hne]; [|left; split; [by rewrite <-Ho|done]].
    rewrite Ht in Hj. apply lookup_app_Some in Hj as [Hj|[Hlen Hj]]; [by left; split|].
    right. split; [done|]. exists (j - length (table m id))%nat. split; [lia|done]. }
  split.
  - intros r Hu. destruct (decide (r ∈ take n l)); [right; by apply Hr2|left].
    apply Hr1; [|done]. by eapply usable_is_blk.
  - intros id' j b Hat Hb. destruct (Hcases _ _ _ Hat) as [|(-> & k & -> & Hk)]; [by left|right].
    assert (b ∈ take n l) as Hbt by (by eapply list_elem_of_lookup_2).
    split_and!; [by apply Hsub|by apply Hr2|]. intros id2 j2 Hat2.
    destruct (Hcases _ _ _ Hat2) as [[Hj2 _]|(-> & k2 & -> & Hk2)].
    + exfalso. eapply (free_not_in_table F (mkGroup p m) l b id2); [done|by apply Hsub|].
      by eapply list_elem_of_lookup_2.
    + split; [done|]. f_equal. by eapply NoDup_lookup.
  - intros Hcnt id'. by rewrite (cached_blocks_eq m m').
Qed.

(** Adding aligned hits leaves no unregistered position of the request. *)
Lemma advance_admitted F s l id ncb loc ext s' :
  admitted F s l id ncb loc ext s' → _has_partial_local_hit (g_mgr s) ncb loc = false →
  advance (g_pool s) (g_mgr s) l (g_pool s') (g_mgr s').
Proof using.
  intros [_ _ _ _ _ Ho _ _ [Hh _] Hcount _ _ _] Hnp. specialize (Hcount Hnp).
  assert (∀ id', cached_blocks (g_mgr s') id'
    = if decide (id = id') then zlen (table (g_mgr s') id) else cached_blocks (g_mgr s) id') as Hcb.
  { intros id'. unfold cached_blocks. rewrite Hcount, lookup_insert. by case_decide. }
  split.
  - intros r _. left. apply Hh.
  - intros id' j b [Hj Hc] Hb. left. rewrite Hcb in Hc. case_decide as E.
    + subst id'. apply lookup_lt_Some in Hj. unfold zlen in Hc. lia.
    + split; [by rewrite <-Ho|done].
  - intros H id'. rewrite Hcb. case_decide; [apply zlen_nonneg|done].
Qed.

Lemma advance_cut F s l id lo hi s' :
  group_inv F s l → cut s id lo hi s' →
  advance (g_pool s) (g_mgr s) l (g_pool s') (g_mgr s').
Proof using.
  intros H (_ & Hh & _ & _ & Hr & Ho & _ & _ & _ & Hn). apply advance_hashes; [done..|].
  intros id' j b Hj Hb. destruct (decide (id' = id)) as [->|Hne]; [|by rewrite <-Ho].
  destruct (Hr j b Hj) as [->|]; [|done]. exfalso.
  by eapply usable_not_null; [apply (gi_pool _ _ _ H)|exact Hb|].
Qed.

Lemma advance_forgot s id l s' :
  forgot s id s' → same_hashes (g_pool s) (g_pool s') →
  advance (g_pool s) (g_mgr s) l (g_pool s') (g_mgr s').
Proof using.
  intros (Et & En & _) [Hh _]. split.
  - intros r _. left. apply Hh.
  - unfold uncached_at, cached_blocks, table. rewrite Et, En. intros id' j b. rewrite !lookup_delete.
    case_decide; [intros [? _]; done|]. intros [? ?] _. by left.
  - intros H id'. unfold cached_blocks. rewrite En, lookup_delete. case_decide; [done|]. apply H.
Qed.
End steps.

(** ** Registration *)

(** The configurations [cache_blocks] is proved for: attention groups whose blocks are whole
    hash units; full attention registers at the granularity of the hashes. *)
Record register_cfg (p : BlockPool) (m : Manager) : Prop := {
  rc_kind : is_attention (mgr_kind m) = true ∧ kind_ok (mgr_kind m);
  rc_full : match mgr_kind m with
            | FullAttentionSpec | RSWASpec _ | SinkFullAttentionSpec _ =>
                block_size m = hash_block_size p
            | _ => True
            end;
  rc_hbs : 0 < hash_block_size p;
  rc_units : (hash_block_size p | block_size m);
  rc_bsz : 0 < block_size m;
  rc_spec : spec_block_size (kv_cache_spec m) = block_size m;
  rc_sched : scheduler_block_size m mod block_size m = 0;
  rc_gid : 0 ≤ kv_cache_group_id m < 2 ^ 32;
}.

Lemma register_cfg_static p p' m m' :
  same_conf p p' → static m' = static m → register_cfg p m → register_cfg p' m'.
Proof.
  intros (_ & _ & E & _) Hs [H1 H2 H3 H4 H5 H6 H7 H8]. unfold static in Hs.
  injection Hs as E1 E2 E3 E4 E5 E6 E7 E8.
  split; unfold mgr_kind in *; by rewrite ?E, ?E1, ?E2, ?E3, ?E7.
Qed.

Section register.
Context (sha256 : bytes → bytes) (use_int : bool).
Implicit Types (F : ref → Z) (s : GroupState) (l : list ref) (request : Request) (m : Manager).

Lemma mask_ok m (start end_ : Z) ri bounds p :
  register_cfg p m → 0 ≤ start ≤ end_ →
  ∃ om, reachable_block_mask (kv_cache_spec m) start end_ (Some (scheduler_block_size m))
          (use_eagle m) ri bounds = inr om
    ∧ match om with None => True | Some mask => zlen mask = end_ - start end.
Proof using.
  intros [[Hatt Hk] _ _ _ Hb Hs Hal _] Hrange. unfold reachable_block_mask. unfold mgr_kind in *.
  destruct (spec_kind (kv_cache_spec m)) as [| | |w extra| | |]; try (by exists None).
  rewrite Hs. destruct (swa_mask_spec start end_ (scheduler_block_size m) w (block_size m)
    (use_eagle m) ri bounds) as (om & E & Hm); [lia|done|apply Hk|done|].
  exists om. split; [done|]. destruct om as [mask|]; [|done]. destruct Hm as [Hlen _].
  unfold zlen. rewrite Hlen. lia.
Qed.

(** The slice of the table that is registered, by position. *)
Lemma slice_position (bs : list ref) (nc nf : Z) (i : nat) b :
  0 ≤ nc → (i, b) ∈ imap pair (py_slice bs nc nf) →
  bs !! (Z.to_nat nc + i)%nat = Some b ∧ Z.of_nat (Z.to_nat nc + i) < nf.
Proof using.
  intros Hnc (k & Hk)%list_elem_of_lookup. rewrite list_lookup_imap in Hk.
  destruct (py_slice bs nc nf !! k) as [b'|] eqn:E; [|done]. simpl in Hk. simplify_eq.
  unfold py_slice in E. apply lookup_take_Some in E as [E Hlt]. rewrite lookup_drop in E.
  split; [done|]. lia.
Qed.

Lemma imap_pair_nodup (bs : list ref) (Q : nat * ref → Prop) `{!∀ x, Decision (Q x)} :
  (∀ i j b, (i, b) ∈ filter Q (imap pair bs) → (j, b) ∈ filter Q (imap pair bs) → i = j) →
  NoDup (filter Q (imap pair bs)).*2.
Proof using.
  intros Hinj. apply NoDup_fmap_2_strong.
  - intros [i b] [j b'] H1 H2 E. simpl in E. subst b'. f_equal. by eapply Hinj.
  - apply NoDup_filter. apply NoDup_alt. intros i j [x b] Hi Hj.
    rewrite list_lookup_imap in Hi, Hj.
    destruct (bs !! i); simplify_eq/=. destruct (bs !! j); simplify_eq/=. done.
Qed.

(** What registration needs of the request and its table. *)
Record registrable (p : BlockPool) (m : Manager) request (n : Z) : Prop := {
  rg_tokens : 0 ≤ n;
  rg_table : n / block_size m ≤ zlen (table m (request_id request));
  rg_hashes : n / hash_block_size p ≤ zlen (block_hashes request);
}.

Lemma base_cache_spec F s l request (n : Z) ri :
  let m := g_mgr s in let id := request_id request in
  group_inv F s l → register_cfg (g_pool s) m → registrable (g_pool s) m request n →
  (∀ j j' b, usable (g_pool s) b → uncached_at m id j b → uncached_at m id j' b → j = j') →
  (∀ j b, usable (g_pool s) b → uncached_at m id j b → ntok_of (g_pool s) b = None) →
  0 ≤ cached_blocks m id →
  wp (base_cache_blocks sha256 use_int request n ri)
    (λ _ s', group_inv F s' l ∧ same_conf (g_pool s) (g_pool s')
       ∧ registers (g_pool s) m id (n / block_size m) (g_pool s') (g_mgr s')) s.
Proof using.
  intros m id H Hcfg [Hn Htab Hhash] Huniq Hunreg Hnc0.
  unfold base_cache_blocks, self. wp_steps. simpl. fold m id. fold (cached_blocks m id).
  destruct (Z.leb_spec (n / block_size m) (cached_blocks m id)) as [Hle|Hlt].
  { wp_steps. split_and!; [done..|]. split; try done; [fold m; lia|]. intros r _. by left. }
  destruct (mask_ok m (cached_blocks m id) (n / block_size m) ri
    ((num_prompt_tokens request - 1) :: (if shared_prefix_boundary request =? 0 then []
       else [shared_prefix_boundary request])) _ Hcfg) as (om & Eom & Hmask); [lia|].
  wp_steps. eapply wp_lift_result; [exact Eom|]. wp_steps.
  eapply wp_mono; [apply req_blocks_spec|]. simpl. intros bs s1 (-> & ->).
  pose proof (group_inv_read F s l id H) as H1. fold m in H1 |- *.
  set (s1 := mkGroup _ _) in *. wp_steps. apply wp_on_pool. simpl.
  destruct Hcfg as [Hk _ Hhbs [k Hkb] Hb _ _ Hgid].
  set (nc := cached_blocks m id) in *. set (nf := n / block_size m) in *. rewrite Hkb.
  assert (0 < k) by nia.
  assert (∀ i b, (i, b) ∈ targets (g_pool s) om (imap pair (py_slice (table m id) nc nf)) →
    usable (g_pool s) b ∧ uncached_at m id (Z.to_nat nc + i) b ∧ Z.of_nat (Z.to_nat nc + i) < nf) as Htgt.
  { intros i b [[Hnn _] Hin]%list_elem_of_filter. simpl in Hnn.
    apply slice_position in Hin as [Hpos Hlt']; [|lia]. split_and!; [|split; [done|]|done].
    - assert (in_pool (g_pool s) b) as Hbp.
      { eapply Forall_lookup_1; [apply (gi_tables _ _ _ H id)|done]. }
      destruct Hbp as (i' & -> & Hi'). exists i'. split_and!; [done| |done].
      destruct i'; [|lia]. by rewrite (inv_null _ _ _ (gi_pool _ _ _ H)) in Hnn.
    - fold nc. lia. }
  eapply wp_mono.
  { apply (cache_full_blocks_spec sha256 use_int (g_pool s) l request (table m id) nc nf k
      (kv_cache_group_id m) om (gi_pool _ _ _ H)). split; try done.
    - assert (nf = n / (hash_block_size (g_pool s) * k)) as -> by (unfold nf; by rewrite Hkb, Z.mul_comm).
      rewrite <-Z.div_div by lia. pose proof (Z.mul_div_le (n / hash_block_size (g_pool s)) k). nia.
    - apply (gi_tables _ _ _ H).
    - apply imap_pair_nodup. intros i j b Hi Hj.
      destruct (Htgt i b Hi) as (Hu & Hat & _), (Htgt j b Hj) as (_ & Hat' & _).
      pose proof (Huniq _ _ _ Hu Hat Hat'). lia.
    - intros i b n' Hi. destruct (Htgt i b Hi) as (Hu & Hat & _). rewrite (Hunreg _ _ Hu Hat). done. }
  simpl. intros _ p' (Hinv' & Hc & Hrc & _ & Hother). unfold update_self. wp_steps. simpl.
  split_and!.
  - eapply group_inv_core; [|eapply (group_inv_table F s l p' l id (table m id)); try done].
    + done.
    + eapply Forall_impl; [apply (gi_tables _ _ _ H)|]. intros b. by apply in_pool_conf.
    + intros r _. rewrite (Hrc r). unfold m. lia.
    + intros i b Hib. by apply (gi_partial _ _ _ H).
  - done.
  - split; simpl.
    + intros id'. unfold table. simpl. rewrite lookup_insert. case_decide as E; [|done]. by subst.
    + unfold cached_blocks. simpl. rewrite lookup_insert_eq. simpl. unfold nc, cached_blocks in *. lia.
    + intros id' Hne. simpl. by rewrite lookup_insert_ne.
    + intros r Hr. destruct (decide (r ∈ (targets (g_pool s) om
        (imap pair (py_slice (table m id) nc nf))).*2)) as [Hin|Hnin].
      * right. apply list_elem_of_fmap in Hin as ([i b] & -> & Hi). simpl.
        destruct (Htgt i b Hi) as (_ & Hat & Hj). eauto.
      * left. apply Hother; [|done]. by eapply usable_is_blk.
    + done.
    + done.
Qed.

(** At the granularity of the hashes there is no partial tail. *)
Lemma full_cache_spec s request (n : Z) ri (Q : GroupState → Prop) :
  block_size (g_mgr s) = hash_block_size (g_pool s) →
  wp (base_cache_blocks sha256 use_int request n ri)
    (λ _ s', same_conf (g_pool s) (g_pool s') ∧ Q s') s →
  wp (full_cache_blocks sha256 use_int request n ri) (λ _ s', Q s') s.
Proof using.
  intros Hb (u & s' & E & Hc & HQ).
  pose proof (ks_base_cache sha256 use_int request n ri s) as Hs. rewrite E in Hs. simpl in Hs.
  unfold static in Hs. injection Hs as _ _ Eb _ _ _ _ _. destruct Hc as (_ & _ & Eh & _).
  unfold full_cache_blocks, self. apply wp_bind. exists u, s'. split; [done|]. wp_steps. simpl.
  rewrite (proj2 (Z.eqb_eq _ _)) by congruence. by wp_steps.
Qed.

Lemma cache_blocks_spec F s l request (n : Z) ri :
  let m := g_mgr s in let id := request_id request in
  group_inv F s l → register_cfg (g_pool s) m → registrable (g_pool s) m request n →
  (∀ j j' b, usable (g_pool s) b → uncached_at m id j b → uncached_at m id j' b → j = j') →
  (∀ j b, usable (g_pool s) b → uncached_at m id j b → ntok_of (g_pool s) b = None) →
  0 ≤ cached_blocks m id →
  wp (cache_blocks sha256 use_int request n ri)
    (λ _ s', group_inv F s' l ∧ same_conf (g_pool s) (g_pool s')
       ∧ registers (g_pool s) m id (n / block_size m) (g_pool s') (g_mgr s')) s.
Proof using.
  intros m id H Hcfg Hreg H1 H2 H3.
  pose proof (base_cache_spec F s l request n ri H Hcfg Hreg H1 H2 H3) as Hbase.
  assert (block_size m = hash_block_size (g_pool s) →
    wp (full_cache_blocks sha256 use_int request n ri)
      (λ _ s', group_inv F s' l ∧ same_conf (g_pool s) (g_pool s')
         ∧ registers (g_pool s) m id (n / block_size m) (g_pool s') (g_mgr s')) s) as Hfull.
  { intros Hb. apply (full_cache_spec s request n ri _ Hb).
    eapply wp_mono; [exact Hbase|]. simpl. tauto. }
  destruct Hcfg as [[Hatt _] Hf _ _ _ _ _ _]. fold m in Hatt, Hf.
  unfold cache_blocks, self. wp_steps. simpl. fold m. destruct (mgr_kind m); try done; by apply Hfull.
Qed.
End register.
