(* ===== verification/Coordinator.v ===== *)
(** The coordinators of the KV-cache groups ([vllm/v1/core/kv_cache_coordinator.py]): several
    cache managers over one block pool.  A request's blocks are predicted, allocated,
    registered and released group by group; a prefix-cache hit must hold in every group.

    The three coordinator classes are the constructors of [CoordinatorKind]; an overridden
    method is a match on it.  The class of a group's manager is determined by its spec. *)

From S2P Require Import Prelude MathUtils Request BlockHash FreeQueue BlockPool Managers.

(** ** Configuration *)

(** [group_layout] stands for the fields of the spec that only the workers read (head counts,
    data types): they take part in the comparison of specs and in nothing else here. *)
Record KVCacheGroupSpec := {
  group_spec : KVCacheSpec;
  group_layout : list Z;
  is_eagle_group : bool;
}.

Record KVCacheConfig := {
  num_blocks : Z;
  kv_cache_groups : list KVCacheGroupSpec;
  prefix_cache_retention_interval : option Z;
  has_mixed_precision_kv_cache : bool;
}.

#[global] Instance spec_kind_eq_dec : EqDecision SpecKind.
Proof. solve_decision. Defined.
#[global] Instance spec_eq_dec : EqDecision KVCacheSpec.
Proof. solve_decision. Defined.

(** [isinstance] tests on specs; [MLAAttentionSpec], [RSWASpec] and [SinkFullAttentionSpec]
    extend [FullAttentionSpec]. *)
Definition is_full_attention (spec : KVCacheSpec) : bool :=
  match spec_kind spec with
  | FullAttentionSpec | RSWASpec _ | SinkFullAttentionSpec _ => true
  | _ => false
  end.
Definition is_mamba (spec : KVCacheSpec) : bool :=
  match spec_kind spec with MambaSpec _ _ _ => true | _ => false end.
Definition is_sliding_window (spec : KVCacheSpec) : bool :=
  match spec_kind spec with SlidingWindowSpec _ _ => true | _ => false end.
Definition is_cross_attention (spec : KVCacheSpec) : bool :=
  match spec_kind spec with CrossAttentionSpec => true | _ => false end.

(** The class attribute of the manager class of a spec. *)
Definition supports_fine_grained_hash_lookup (spec : KVCacheSpec) : bool :=
  is_full_attention spec || is_mamba spec.

Definition has_mamba_layers (cfg : KVCacheConfig) : bool :=
  existsb (λ g, is_mamba (group_spec g)) (kv_cache_groups cfg).
Definition needs_kv_cache_zeroing (cfg : KVCacheConfig) : bool :=
  has_mamba_layers cfg || has_mixed_precision_kv_cache cfg.

Definition _validate_prefix_cache_retention_interval (retention : option Z)
    (sched_block_size : Z) (cfg : KVCacheConfig) : exn + unit :=
  match retention with
  | None => mret tt
  | Some ri =>
      if negb (existsb (λ g, is_sliding_window (group_spec g) || is_mamba (group_spec g))
                 (kv_cache_groups cfg))
      then if ri =? 0 then mret tt else inl ValueError
      else if (ri <? 0) || negb (ri mod sched_block_size =? 0) then inl ValueError
      else mret tt
  end.

(** ** State *)

Inductive CoordinatorKind :=
  | KVCacheCoordinatorNoPrefixCache
  | UnitaryKVCacheCoordinator
  | HybridKVCacheCoordinator.

#[global] Instance coordinator_kind_eq_dec : EqDecision CoordinatorKind.
Proof. solve_decision. Defined.

Record SpecGroup := mkSpecGroup {
  sg_spec : KVCacheSpec;
  sg_layout : list Z;
  sg_group_ids : list Z;
  sg_use_eagle : bool;
}.

#[global] Instance spec_group_eq_dec : EqDecision SpecGroup.
Proof. solve_decision. Defined.

Record Coordinator := mkCoordinator {
  coord_kind : CoordinatorKind;
  coord_config : KVCacheConfig;
  coord_scheduler_block_size : Z;
  coord_hash_block_size : Z;
  coord_dcp_world_size : Z;
  coord_pcp_world_size : Z;
  num_reprefillable_tokens : Z;
  eagle_group_ids : list Z;
  retention_interval : option Z;
  enable_partial_hash_hits : bool;
  attention_groups : list SpecGroup;
  full_attention_group_id : option Z;
  block_pool : BlockPool;
  single_type_managers : list Manager;
}.

Definition set_state (p : BlockPool) (ms : list Manager) (c : Coordinator) : Coordinator :=
  mkCoordinator (coord_kind c) (coord_config c) (coord_scheduler_block_size c)
    (coord_hash_block_size c) (coord_dcp_world_size c) (coord_pcp_world_size c)
    (num_reprefillable_tokens c) (eagle_group_ids c) (retention_interval c)
    (enable_partial_hash_hits c) (attention_groups c) (full_attention_group_id c) p ms.

(** A call on the manager of group [i]; the pool is shared. *)
Definition on_manager {A} (i : nat) (op : M GroupState A) : M Coordinator A := λ c,
  match single_type_managers c !! i with
  | None => (inl IndexError, c)
  | Some m =>
      let '(r, g) := op (mkGroup (block_pool c) m) in
      (r, set_state (g_pool g) (<[i := g_mgr g]> (single_type_managers c)) c)
  end.

Definition on_block_pool {A} (op : M BlockPool A) : M Coordinator A :=
  zoom block_pool (λ p c, set_state p (single_type_managers c) c) op.

(** [[f(x) for x in l]]. *)
Fixpoint map_each {St A B} (l : list A) (f : A → M St B) : M St (list B) :=
  match l with
  | [] => mret []
  | x :: l' => y ← f x; ys ← map_each l' f; mret (y :: ys)
  end.

(** [for i, manager in enumerate(self.single_type_managers)]. *)
Definition each_manager {A} (op : nat → M GroupState A) : M Coordinator (list A) :=
  n ← gets (length ∘ single_type_managers);
  map_each (seq 0 n) (λ i, on_manager i (op i)).

Definition sum_list (l : list Z) : Z := foldr Z.add 0 l.

(** ** Construction *)

(** Every manager is called with the keyword [needs_kv_cache_zeroing];
    [SinkFullAttentionManager.__init__] has no such parameter. *)
Definition accepts_keywords (spec : KVCacheSpec) : bool :=
  match spec_kind spec with SinkFullAttentionSpec _ => false | _ => true end.

(** The managers, in group order; a sink manager takes its blocks from the pool. *)
Fixpoint new_managers (gs : list KVCacheGroupSpec) (i : Z)
    (max_in_flight_tokens max_model_len : Z) (caching : bool) (sched_block_size dcp : Z)
    (zeroing : bool) : M BlockPool (list Manager) :=
  match gs with
  | [] => mret []
  | g :: gs' =>
      let m := new_manager (group_spec g) max_in_flight_tokens max_model_len caching i
                 sched_block_size dcp zeroing in
      when (negb (accepts_keywords (group_spec g))) (raise TypeError);;
      take_sink_blocks (group_spec g) (block_size m);;
      ms ← new_managers gs' (i + 1) max_in_flight_tokens max_model_len caching sched_block_size
             dcp zeroing;
      mret (m :: ms)
  end.

Definition group_indices (cfg : KVCacheConfig) : list Z :=
  py_range 0 (zlen (kv_cache_groups cfg)).

(** The groups that drop the last block of a hit. *)
Definition init_eagle_group_ids (cfg : KVCacheConfig) (eagle : bool) : list Z :=
  let ids := filter (λ i, default false (is_eagle_group <$> py_get (kv_cache_groups cfg) i))
               (group_indices cfg) in
  if eagle && bool_decide (ids = []) then group_indices cfg else ids.

(** [KVCacheCoordinator.__init__]. *)
Definition base_coordinator (kind : CoordinatorKind) (cfg : KVCacheConfig)
    (max_model_len max_in_flight_tokens : Z) (eagle caching events : bool)
    (dcp pcp sched_block_size hash_bsz num_prefill_lookahead : Z) : exn + Coordinator :=
  result_assert ((sched_block_size mod hash_bsz =? 0)
    && forallb (λ g, sched_block_size mod spec_block_size (group_spec g) =? 0)
         (kv_cache_groups cfg)) ≫= λ _,
  pool ← BlockPool_init (num_blocks cfg) caching hash_bsz events;
  let eagle_ids := init_eagle_group_ids cfg eagle in
  if caching && negb (bool_decide (eagle_ids = [])) && (sched_block_size <? num_prefill_lookahead)
  then inl ValueError
  else
    let '(r, pool') := new_managers (kv_cache_groups cfg) 0 max_in_flight_tokens max_model_len
                         caching sched_block_size dcp (needs_kv_cache_zeroing cfg) pool in
    ms ← r;
    _validate_prefix_cache_retention_interval (prefix_cache_retention_interval cfg)
      sched_block_size cfg ≫= λ _,
    mret (mkCoordinator kind cfg sched_block_size hash_bsz dcp pcp
            (Z.max 0 (num_prefill_lookahead - 1)) eagle_ids
            (prefix_cache_retention_interval cfg) false [] None pool' ms).

(** [UnitaryKVCacheCoordinator.__init__] after the base constructor. *)
Definition unitary_setup (caching : bool) (c : Coordinator) : exn + Coordinator :=
  g ← result_of_option IndexError (head (kv_cache_groups (coord_config c)));
  let bsz := if 1 <? coord_dcp_world_size c
             then spec_block_size (group_spec g) * coord_dcp_world_size c
             else spec_block_size (group_spec g) in
  result_assert (negb caching || (coord_hash_block_size c =? bsz)) ≫= λ _,
  result_assert (zlen (kv_cache_groups (coord_config c)) =? 1) ≫= λ _,
  mret (set_state (block_pool c)
    (alter (set_use_eagle (bool_decide (0 ∈ eagle_group_ids c))) 0%nat
       (single_type_managers c)) c).

(** One iteration of [verify_and_split_kv_cache_groups]: join the group with the same spec or
    start a new one. *)
Fixpoint add_to_spec_group (i : Z) (g : KVCacheGroupSpec) (eagle : bool)
    (groups : list SpecGroup) : list SpecGroup :=
  match groups with
  | [] => [mkSpecGroup (group_spec g) (group_layout g) [i] eagle]
  | sg :: groups' =>
      if bool_decide (sg_spec sg = group_spec g ∧ sg_layout sg = group_layout g)
      then mkSpecGroup (sg_spec sg) (sg_layout sg) (sg_group_ids sg ++ [i])
             (sg_use_eagle sg || eagle) :: groups'
      else sg :: add_to_spec_group i g eagle groups'
  end.

(** [sort(key=lambda g: not isinstance(g.spec, FullAttentionSpec))]: a stable sort on a
    boolean key. *)
Definition full_attention_first (groups : list SpecGroup) : list SpecGroup :=
  filter (λ g, is_full_attention (sg_spec g) = true) groups
  ++ filter (λ g, is_full_attention (sg_spec g) = false) groups.

Definition split_kv_cache_groups (cfg : KVCacheConfig) (eagle_ids : list Z) : list SpecGroup :=
  foldl (λ groups ig, add_to_spec_group ig.1 ig.2 (bool_decide (ig.1 ∈ eagle_ids)) groups) []
    (zip (group_indices cfg) (kv_cache_groups cfg)).

Definition verify_and_split_kv_cache_groups (partial_hits : bool) (c : Coordinator)
    : exn + Coordinator :=
  let groups := split_kv_cache_groups (coord_config c) (eagle_group_ids c) in
  result_assert (1 <? zlen groups) ≫= λ _,
  let groups' := full_attention_first groups in
  first ← result_of_option IndexError (head groups');
  first_id ← result_of_option IndexError (head (sg_group_ids first));
  let eagle_gids := concat (sg_group_ids <$> filter (λ g, sg_use_eagle g = true) groups') in
  mret (mkCoordinator (coord_kind c) (coord_config c) (coord_scheduler_block_size c)
    (coord_hash_block_size c) (coord_dcp_world_size c) (coord_pcp_world_size c)
    (num_reprefillable_tokens c) (eagle_group_ids c) (retention_interval c) partial_hits groups'
    (if is_full_attention (sg_spec first) then Some first_id else None) (block_pool c)
    (imap (λ i m, if bool_decide (Z.of_nat i ∈ eagle_gids) then set_use_eagle true m else m)
       (single_type_managers c))).

(** [HybridKVCacheCoordinator.__init__] after the base constructor. *)
Definition hybrid_setup (c : Coordinator) : exn + Coordinator :=
  let hbs := coord_hash_block_size c in
  let dcp := coord_dcp_world_size c in
  let groups := kv_cache_groups (coord_config c) in
  result_assert (forallb (λ m, block_size m mod hbs =? 0) (single_type_managers c)) ≫= λ _,
  result_assert (coord_pcp_world_size c =? 1) ≫= λ _,
  result_assert (negb (1 <? dcp) ||
    forallb (λ g, is_full_attention (group_spec g) || is_mamba (group_spec g)) groups) ≫= λ _,
  let has_partial_mamba_group :=
    existsb (λ g,
      match spec_kind (group_spec g) with
      | MambaSpec true _ _ =>
          ((dcp =? 1) && (hbs <? spec_block_size (group_spec g)))
          || ((1 <? dcp) && (hbs <=? spec_block_size (group_spec g)))
      | _ => false
      end) groups in
  let unsupported :=
    existsb (λ m, negb (supports_fine_grained_hash_lookup (kv_cache_spec m))
                  && negb (block_size m =? hbs)) (single_type_managers c) in
  verify_and_split_kv_cache_groups (has_partial_mamba_group && negb unsupported) c.

Definition get_kv_cache_coordinator (cfg : KVCacheConfig)
    (max_model_len max_in_flight_tokens : Z) (eagle caching events : bool)
    (dcp pcp sched_block_size hash_bsz num_prefill_lookahead : Z) : exn + Coordinator :=
  let base kind :=
    base_coordinator kind cfg max_model_len max_in_flight_tokens eagle caching events dcp pcp
      sched_block_size hash_bsz num_prefill_lookahead in
  if negb caching then base KVCacheCoordinatorNoPrefixCache
  else if zlen (kv_cache_groups cfg) =? 1
  then base UnitaryKVCacheCoordinator ≫= unitary_setup caching
  else base HybridKVCacheCoordinator ≫= hybrid_setup.

(** ** Allocation *)

Section coordinator.
Context (sha256 : bytes → bytes) (use_int : bool).

(** [new_computed_blocks[i]]. *)
Definition group_blocks (new_computed_blocks : list (list ref)) (i : nat) : M GroupState (list ref) :=
  lift_option IndexError (new_computed_blocks !! i).

Definition coord_get_num_blocks_to_allocate (request_id : string) (num_tokens : Z)
    (new_computed_blocks : list (list ref)) (num_encoder_tokens total_computed_tokens
    num_local_computed_tokens num_tokens_main_model : Z) (apply_admission_cap : bool)
    : M Coordinator Z :=
  ns ← each_manager (λ i,
    spec ← self kv_cache_spec;
    if is_cross_attention spec then
      get_num_blocks_to_allocate request_id num_encoder_tokens [] 0 0 num_encoder_tokens
        apply_admission_cap
    else
      ncb ← group_blocks new_computed_blocks i;
      get_num_blocks_to_allocate request_id num_tokens ncb total_computed_tokens
        num_local_computed_tokens num_tokens_main_model apply_admission_cap);
  mret (sum_list ns).

(** Two phases: the hits of every group are touched before anything is allocated, so no
    allocation evicts the hits of a later group. *)
Definition allocate_new_computed_blocks (request_id : string)
    (new_computed_blocks : list (list ref))
    (num_local_computed_tokens num_external_computed_tokens : Z) : M Coordinator unit :=
  tracked ← gets (λ c, existsb (λ m, bool_decide (is_Some (num_cached_block m !! request_id)))
                         (single_type_managers c));
  if (tracked : bool) then assert (forallb (λ bs, zlen bs =? 0) new_computed_blocks)
  else
    each_manager (λ i,
      ncb ← group_blocks new_computed_blocks i;
      add_local_computed_blocks request_id ncb num_local_computed_tokens
        num_external_computed_tokens);;
    when (0 <? num_external_computed_tokens)
      (each_manager (λ _, allocate_external_computed_blocks use_int request_id
         num_local_computed_tokens num_external_computed_tokens);; mret tt).

Definition coord_allocate_new_blocks (request_id : string)
    (num_tokens num_tokens_main_model num_encoder_tokens : Z) : M Coordinator (list (list ref)) :=
  each_manager (λ _,
    spec ← self kv_cache_spec;
    allocate_new_blocks use_int request_id
      (if is_cross_attention spec then num_encoder_tokens else num_tokens)
      num_tokens_main_model).

(** ** Registration and release *)

Definition _align_cacheable (c : Coordinator) (num_toks : Z) : Z :=
  if enable_partial_hash_hits c then num_toks
  else round_down num_toks (coord_scheduler_block_size c).

(** The number of tokens whose blocks the manager [m] may register. *)
Definition hybrid_tokens_to_cache (c : Coordinator) (m : Manager) (num_computed : Z) : Z :=
  let cached_num_computed_tokens := _align_cacheable c num_computed in
  if use_eagle m && (0 <? cached_num_computed_tokens) then
    let finalized := Z.max 0 (num_computed - num_reprefillable_tokens c) in
    Z.min finalized (_align_cacheable c finalized + block_size m)
  else cached_num_computed_tokens.

Definition coord_cache_blocks (request : Request) (num_computed : Z) : M Coordinator unit :=
  c ← get;
  each_manager (λ _,
    m ← self id;
    cache_blocks sha256 use_int request
      (if decide (coord_kind c = HybridKVCacheCoordinator)
       then hybrid_tokens_to_cache c m num_computed
       else Z.max 0 (num_computed - num_reprefillable_tokens c))
      (retention_interval c));;
  mret tt.

Definition coord_free (request_id : string) : M Coordinator unit :=
  each_manager (λ _, free request_id);; mret tt.

Definition coord_pop_blocks_for_free (request_id : string) : M Coordinator (list ref) :=
  bss ← each_manager (λ _, pop_blocks_for_free request_id); mret (concat bss).

Definition coord_get_num_common_prefix_blocks (running_request_id : string)
    : M Coordinator (list Z) :=
  c ← get;
  if decide (coord_kind c = KVCacheCoordinatorNoPrefixCache)
  then mret (replicate (length (single_type_managers c)) 0)
  else each_manager (λ _, get_num_common_prefix_blocks running_request_id).

Definition coord_remove_skipped_blocks (request_id : string) (processed_computed_tokens : Z)
    (num_prompt : option Z) : M Coordinator unit :=
  each_manager (λ _, remove_skipped_blocks request_id processed_computed_tokens num_prompt);;
  mret tt.

(** [manager.req_to_blocks.get(request_id) or []] for every group. *)
Definition get_blocks (c : Coordinator) (request_id : string) : list (list ref) :=
  (λ m, default [] (req_to_blocks m !! request_id)) <$> single_type_managers c.

Definition coord_new_step_starts : M Coordinator unit :=
  each_manager (λ _, new_step_starts);; mret tt.

(** ** Prefix-cache hits *)

Definition _cache_hit_alignment_tokens (c : Coordinator) : Z :=
  if enable_partial_hash_hits c then coord_hash_block_size c else coord_scheduler_block_size c.

(** [UnitaryKVCacheCoordinator.find_longest_cache_hit]: one group, aligned to its block
    size. *)
Definition unitary_find_longest_cache_hit (c : Coordinator) (hashes : list bytes)
    (max_cache_hit_length : Z) : M BlockPool (list (list ref) * Z * Z) :=
  g ← lift_option IndexError (head (kv_cache_groups (coord_config c)));
  let dcp := coord_dcp_world_size c in
  let bsz := if 1 <? dcp then spec_block_size (group_spec g) * dcp
             else spec_block_size (group_spec g) in
  hit ← find_longest_cache_hit (group_spec g) (RawHashes hashes) max_cache_hit_length [0]
    (bool_decide (0 ∈ eagle_group_ids c)) bsz dcp (coord_pcp_world_size c);
  mret (hit, 0).

(** The local variables of the hybrid search. *)
Record HitSearch := mkSearch {
  curr_hit_length : Z;
  longest_hit_length : Z;
  hit_blocks_by_group : list (option (list ref));
  hit_length_by_group : list Z;
  eagle_verified : gset nat;
}.

(** [for group_id, blocks in zip(group_ids, hit_blocks)]. *)
Definition store_hits (gids : list Z) (hit_blocks : list (list ref)) (len : Z) (st : HitSearch)
    : HitSearch :=
  foldl (λ st gb,
    mkSearch (curr_hit_length st) (longest_hit_length st)
      (<[Z.to_nat gb.1 := Some gb.2]> (hit_blocks_by_group st))
      (<[Z.to_nat gb.1 := len]> (hit_length_by_group st)) (eagle_verified st))
    st (zip gids hit_blocks).

(** The body of the [for] loop over the attention groups. *)
Definition visit_group (c : Coordinator) (hashes : list bytes) (max_cache_hit_length : Z)
    (idx : nat) (g : SpecGroup) (st : HitSearch) : M BlockPool HitSearch :=
  let spec := sg_spec g in
  first_group_id ← lift_option IndexError (head (sg_group_ids g));
  m ← lift_option IndexError (single_type_managers c !! Z.to_nat first_group_id);
  let group_block_size := block_size m in
  cached_blocks ← lift_option IndexError (hit_blocks_by_group st !! Z.to_nat first_group_id);
  first_length ← lift_option IndexError (hit_length_by_group st !! Z.to_nat first_group_id);
  if is_full_attention spec && bool_decide (is_Some cached_blocks) then
    mret (mkSearch (Z.min (curr_hit_length st) first_length) (longest_hit_length st)
            (hit_blocks_by_group st) (hit_length_by_group st) (eagle_verified st))
  else
    let drop_eagle_block := sg_use_eagle g && negb (bool_decide (idx ∈ eagle_verified st)) in
    let eagle_margin :=
      if enable_partial_hash_hits c && supports_fine_grained_hash_lookup spec
         && (coord_hash_block_size c <? group_block_size)
      then coord_hash_block_size c else group_block_size in
    let max_length :=
      if drop_eagle_block && negb (is_mamba spec)
      then Z.min (curr_hit_length st + eagle_margin) max_cache_hit_length
      else curr_hit_length st in
    hit ← find_longest_cache_hit spec (RawHashes hashes) max_length (sg_group_ids g)
      drop_eagle_block (_cache_hit_alignment_tokens c)
      (if is_full_attention spec then coord_dcp_world_size c else 1) 1;
    let '(hit_blocks, new_hit_length) := hit in
    let verified :=
      if drop_eagle_block then {[idx]} ∪ eagle_verified st
      else if new_hit_length <? curr_hit_length st then ∅ else eagle_verified st in
    mret (store_hits (sg_group_ids g) hit_blocks new_hit_length
      (mkSearch new_hit_length (Z.max (longest_hit_length st) new_hit_length)
         (hit_blocks_by_group st) (hit_length_by_group st) verified)).

Fixpoint visit_groups (c : Coordinator) (hashes : list bytes) (max_cache_hit_length : Z)
    (idx : nat) (gs : list SpecGroup) (st : HitSearch) : M BlockPool HitSearch :=
  match gs with
  | [] => mret st
  | g :: gs' =>
      st' ← visit_group c hashes max_cache_hit_length idx g st;
      visit_groups c hashes max_cache_hit_length (S idx) gs' st'
  end.

Definition is_simple_hybrid (c : Coordinator) : bool :=
  match attention_groups c with
  | [g; _] => is_full_attention (sg_spec g)
  | _ => false
  end.

(** The [while True] loop; the length decreases in every round but the last. *)
Fixpoint fixed_point (fuel : nat) (c : Coordinator) (hashes : list bytes)
    (max_cache_hit_length hit_length : Z) (st : HitSearch) : M BlockPool (Z * HitSearch) :=
  match fuel with
  | O => raise OutOfFuel
  | S fuel' =>
      st' ← visit_groups c hashes max_cache_hit_length 0 (attention_groups c)
        (mkSearch hit_length (longest_hit_length st) (hit_blocks_by_group st)
           (hit_length_by_group st) (eagle_verified st));
      if hit_length <=? curr_hit_length st' then mret (hit_length, st')
      else if is_simple_hybrid c then mret (curr_hit_length st', st')
      else fixed_point fuel' c hashes max_cache_hit_length (curr_hit_length st') st'
  end.

(** [del blks[num_blocks:]] for the groups [gids]. *)
Definition truncate_hits (num : Z) (gids : list Z) (hits : list (option (list ref)))
    : list (option (list ref)) :=
  foldl (λ hits gid, alter (fmap (take (Z.to_nat num))) (Z.to_nat gid) hits) hits gids.

Definition hybrid_find_longest_cache_hit (c : Coordinator) (hashes : list bytes)
    (max_cache_hit_length : Z) : M BlockPool (list (list ref) * Z * Z) :=
  let num_groups := length (kv_cache_groups (coord_config c)) in
  r ← fixed_point (S (Z.to_nat max_cache_hit_length)) c hashes max_cache_hit_length
        max_cache_hit_length
        (mkSearch max_cache_hit_length 0 (replicate num_groups None) (replicate num_groups 0) ∅);
  let '(hit_length, st) := r in
  first_group ← lift_option IndexError (head (attention_groups c));
  hits ← (if is_full_attention (sg_spec first_group) then
            first_id ← lift_option IndexError (head (sg_group_ids first_group));
            m ← lift_option IndexError (single_type_managers c !! Z.to_nat first_id);
            mret (truncate_hits (cdiv hit_length (block_size m)) (sg_group_ids first_group)
                    (hit_blocks_by_group st))
          else mret (hit_blocks_by_group st));
  mret (default [] <$> hits, hit_length, longest_hit_length st - hit_length).

Definition coord_find_longest_cache_hit (hashes : list bytes) (max_cache_hit_length : Z)
    : M Coordinator (list (list ref) * Z * Z) :=
  c ← get;
  match coord_kind c with
  | KVCacheCoordinatorNoPrefixCache =>
      mret (replicate (length (single_type_managers c)) [], 0, 0)
  | UnitaryKVCacheCoordinator =>
      on_block_pool (unitary_find_longest_cache_hit c hashes max_cache_hit_length)
  | HybridKVCacheCoordinator =>
      on_block_pool (hybrid_find_longest_cache_hit c hashes max_cache_hit_length)
  end.

(** [find_longest_cache_hit_per_group]: every attention group on its own. *)
Fixpoint per_group_hits (c : Coordinator) (hashes : list bytes) (max_cache_hit_length : Z)
    (gs : list SpecGroup) (acc : list (list ref) * list Z)
    : M BlockPool (list (list ref) * list Z) :=
  match gs with
  | [] => mret acc
  | g :: gs' =>
      hit ← find_longest_cache_hit (sg_spec g) (RawHashes hashes) max_cache_hit_length
        (sg_group_ids g) (sg_use_eagle g) (_cache_hit_alignment_tokens c) 1 1;
      per_group_hits c hashes max_cache_hit_length gs'
        (foldl (λ acc gb, (<[Z.to_nat gb.1 := gb.2]> acc.1, <[Z.to_nat gb.1 := hit.2]> acc.2))
           acc (zip (sg_group_ids g) hit.1))
  end.

Definition find_longest_cache_hit_per_group (hashes : list bytes) (max_cache_hit_length : Z)
    : M Coordinator (list (list ref) * list Z) :=
  c ← get;
  let n := length (kv_cache_groups (coord_config c)) in
  on_block_pool (per_group_hits c hashes max_cache_hit_length (attention_groups c)
    (replicate n [], replicate n 0)).
End coordinator.
