(* ===== verification/CoordinatorFacts.v ===== *)
(** Several groups on one pool: the reference accounting of all managers together, lifted from
    the accounting of one manager with the others as its frame; loops over the managers; and
    the two-phase admission of a request to all groups. *)

From S2P Require Import Prelude MathUtils Request BlockHash BlockHashFacts FreeQueue.
From S2P Require Import FreeQueueFacts BlockPool BlockPoolFacts BlockPoolSpec BlockPoolTheorems.
From S2P Require Import Managers ManagerFacts AllocationFacts ReleaseFacts RegistrationFacts.
From S2P Require Import Coordinator.

Set Warnings "-level-tolerance,-clear-no-such-hyp".

(** ** The invariant *)

Definition total_refs (ms : list Manager) (r : ref) : Z := sum_list ((λ m, mgr_refs m r) <$> ms).

(** What the invariant asks of one manager apart from the counts. *)
Record mgr_ok (p : BlockPool) (m : Manager) : Prop := {
  mo_bsz : 0 < block_size m;
  mo_tables : ∀ id, Forall (in_pool p) (table m id);
  mo_partial : ∀ id i b, _partial_hit_reqs m !! id = Some (i, b) →
    usable p b ∧ 0 ≤ i ∧ table m id !! Z.to_nat i = Some b;
}.

Record coord_inv (F : ref → Z) (c : Coordinator) (l : list ref) : Prop := {
  ci_pool : pool_inv (block_pool c) l;
  ci_frame : ∀ r, 0 ≤ F r;
  ci_refs : ∀ r, usable (block_pool c) r →
    rc (block_pool c) r = total_refs (single_type_managers c) r + F r;
  ci_mgrs : ∀ i m, single_type_managers c !! i = Some m → mgr_ok (block_pool c) m;
}.

(** The references held outside manager [m]. *)
Definition others (F : ref → Z) (ms : list Manager) (m : Manager) (r : ref) : Z :=
  F r + (total_refs ms r - mgr_refs m r).

(** Only the pool and the managers changed. *)
Definition same_coord (c c' : Coordinator) : Prop :=
  c' = set_state (block_pool c') (single_type_managers c') c
  ∧ same_conf (block_pool c) (block_pool c')
  ∧ length (single_type_managers c') = length (single_type_managers c).

Section refs.
Implicit Types (ms : list Manager) (m : Manager) (r : ref).

Lemma sum_list_insert (xs : list Z) i x y :
  xs !! i = Some x → sum_list (<[i := y]> xs) = sum_list xs - x + y.
Proof using.
  revert i. induction xs as [|z xs IH]; intros [|i] Hi; simplify_eq/=; [lia|].
  rewrite (IH i) by done. lia.
Qed.

Lemma sum_list_nonneg (xs : list Z) : Forall (λ x, 0 ≤ x) xs → 0 ≤ sum_list xs.
Proof using. induction 1; simpl; lia. Qed.

Lemma sum_list_ge (xs : list Z) i x : Forall (λ x, 0 ≤ x) xs → xs !! i = Some x → x ≤ sum_list xs.
Proof using.
  intros Hp. revert i. induction Hp as [|z xs Hz Hp IH]; intros [|i] Hi; simplify_eq/=.
  - pose proof (sum_list_nonneg xs Hp). lia.
  - specialize (IH i Hi). lia.
Qed.

Lemma sum_list_app (xs ys : list Z) : sum_list (xs ++ ys) = sum_list xs + sum_list ys.
Proof using. induction xs as [|x xs IH]; simpl; lia. Qed.

Lemma mgr_refs_nonneg m r : 0 ≤ mgr_refs m r.
Proof using.
  unfold mgr_refs. pose proof (table_refs_nonneg (req_to_blocks m) r).
  pose proof (pend_refs_nonneg (_pending_cow_copies m) r). lia.
Qed.

Lemma total_refs_insert ms i m m' r :
  ms !! i = Some m → total_refs (<[i := m']> ms) r = total_refs ms r - mgr_refs m r + mgr_refs m' r.
Proof using.
  intros Hi. unfold total_refs. rewrite list_fmap_insert. apply sum_list_insert.
  by rewrite list_lookup_fmap, Hi.
Qed.

Lemma others_nonneg F ms i m r : (∀ r, 0 ≤ F r) → ms !! i = Some m → 0 ≤ others F ms m r.
Proof using.
  intros HF Hi. unfold others, total_refs. specialize (HF r).
  assert (mgr_refs m r ≤ sum_list ((λ m, mgr_refs m r) <$> ms)); [|lia].
  apply (sum_list_ge _ i); [|by rewrite list_lookup_fmap, Hi].
  apply Forall_fmap, Forall_forall. intros x _. apply mgr_refs_nonneg.
Qed.
End refs.

Section lift.
Implicit Types (F : ref → Z) (c : Coordinator) (l : list ref) (m : Manager) (p : BlockPool).

#[global] Instance same_coord_refl : Reflexive same_coord.
Proof using. intros c. split_and!; [by destruct c|done|done]. Qed.
#[global] Instance same_coord_trans : Transitive same_coord.
Proof using.
  intros c1 c2 c3 (E1 & C1 & L1) (E2 & C2 & L2). split_and!; [|by etrans|congruence].
  rewrite E2, E1. by destruct c1.
Qed.

Lemma mgr_ok_conf p p' m : same_conf p p' → mgr_ok p m → mgr_ok p' m.
Proof using.
  intros Hc [H1 H2 H3]. split; [done| |].
  - intros id. eapply Forall_impl; [apply H2|]. intros b. by apply in_pool_conf.
  - intros id i b Hib. destruct (H3 id i b Hib) as (Hu & ? & ?). split_and!; [|done..].
    by eapply usable_conf.
Qed.

(** A manager sees the pool with the other managers as its frame. *)
Lemma coord_group F c l i m :
  coord_inv F c l → single_type_managers c !! i = Some m →
  group_inv (others F (single_type_managers c) m) (mkGroup (block_pool c) m) l.
Proof using.
  intros [H1 H2 H3 H4] Hi. destruct (H4 i m Hi) as [? ? ?]. split; simpl; try done.
  - intros r Hr. rewrite H3 by done. unfold others. lia.
  - intros r. by eapply others_nonneg.
Qed.

(** What one manager does, seen from all of them. *)
Lemma group_coord F c l i m p' m' l' :
  coord_inv F c l → single_type_managers c !! i = Some m →
  group_inv (others F (single_type_managers c) m) (mkGroup p' m') l' →
  same_conf (block_pool c) p' →
  coord_inv F (set_state p' (<[i := m']> (single_type_managers c)) c) l'.
Proof using.
  intros [H1 H2 H3 H4] Hi [G1 G2 G3 G4 G5 G6] Hc; simpl in *. split; simpl; try done.
  - intros r Hr. rewrite G4 by done. unfold others. erewrite total_refs_insert by done. lia.
  - intros j mj. rewrite list_lookup_insert_Some.
    intros [(<- & <- & _)|(_ & Hj)]; [by split|]. eapply mgr_ok_conf; [done|]. by eapply H4.
Qed.

Lemma wp_on_manager {A} F c l i m (op : M GroupState A) (Q : A → GroupState → list ref → Prop) :
  coord_inv F c l → single_type_managers c !! i = Some m →
  wp op (λ a s', ∃ l', group_inv (others F (single_type_managers c) m) s' l'
                   ∧ same_conf (block_pool c) (g_pool s') ∧ Q a s' l') (mkGroup (block_pool c) m) →
  wp (on_manager i op) (λ a c', ∃ s' l', coord_inv F c' l' ∧ same_coord c c' ∧ Q a s' l'
    ∧ block_pool c' = g_pool s'
    ∧ single_type_managers c' = <[i := g_mgr s']> (single_type_managers c)) c.
Proof using.
  intros H Hi (a & [p' m'] & E & l' & Hg & Hc & HQ).
  exists a, (set_state p' (<[i := m']> (single_type_managers c)) c).
  split; [unfold on_manager; by rewrite Hi, E|]. exists (mkGroup p' m'), l'. split_and!; try done.
  - by eapply group_coord.
  - split_and!; [by destruct c|done|]. simpl. by rewrite length_insert.
Qed.

(** ** Loops over the managers *)

(** A free block is in no table. *)
Lemma coord_free_table F c l b i m id :
  coord_inv F c l → b ∈ l → single_type_managers c !! i = Some m → b ∉ table m id.
Proof using.
  intros H Hb Hi. exact (free_not_in_table _ (mkGroup (block_pool c) m) l b id (coord_group _ _ _ _ _ H Hi) Hb).
Qed.

Definition coord_reg c : Prop := reg_ok (block_pool c) (single_type_managers c).

(** Each manager's step may take [cost i] blocks from the free list; under [Adv] it keeps the
    unregistered blocks private. *)
Definition manager_step {A} c l (op : nat → M GroupState A) (cost : nat → Z)
    (Post : nat → Manager → A → Manager → Prop) (Adv : Prop) : Prop :=
  ∀ i m p l' G, single_type_managers c !! i = Some m → same_conf (block_pool c) p → l' ⊆ l →
    group_inv G (mkGroup p m) l' → cost i ≤ zlen l' →
    wp (op i) (λ a s', ∃ l'', group_inv G s' l'' ∧ same_conf p (g_pool s') ∧ l'' ⊆ l'
      ∧ zlen l' - cost i ≤ zlen l'' ∧ Post i m a (g_mgr s')
      ∧ (Adv → advance p m l' (g_pool s') (g_mgr s'))) (mkGroup p m).

Lemma map_managers_spec {A} F c l (op : nat → M GroupState A) cost Post (Adv : Prop) k n c1 l1 :
  manager_step c l op cost Post Adv →
  coord_inv F c1 l1 → same_coord c c1 → l1 ⊆ l →
  (k + n = length (single_type_managers c))%nat →
  (∀ i, (k ≤ i)%nat → single_type_managers c1 !! i = single_type_managers c !! i) →
  Forall (λ i, 0 ≤ cost i) (seq k n) → sum_list (cost <$> seq k n) ≤ zlen l1 →
  wp (map_each (seq k n) (λ i, on_manager i (op i)))
    (λ xs c', ∃ l', coord_inv F c' l' ∧ same_coord c c' ∧ l' ⊆ l1
       ∧ zlen l1 - sum_list (cost <$> seq k n) ≤ zlen l' ∧ length xs = n
       ∧ (∀ i, (i < k)%nat → single_type_managers c' !! i = single_type_managers c1 !! i)
       ∧ (∀ i m m', (k ≤ i)%nat → single_type_managers c !! i = Some m →
            single_type_managers c' !! i = Some m' → ∃ a, xs !! (i - k)%nat = Some a ∧ Post i m a m')
       ∧ (Adv → coord_reg c1 → coord_reg c')) c1.
Proof using.
  intros Hstep. revert k c1 l1. induction n as [|n IH]; intros k c1 l1 H Hs Hsub Hk Hrest Hpos Hsum; simpl.
  { wp_steps. exists l1. split_and!; try done; [simpl; lia|].
    intros i m m' Hi Hm. apply lookup_lt_Some in Hm. lia. }
  change (cost k + sum_list (cost <$> seq (S k) n) ≤ zlen l1) in Hsum. apply Forall_cons in Hpos as [Hc0 Hpos].
  pose proof (sum_list_nonneg (cost <$> seq (S k) n) ltac:(by apply Forall_fmap)) as Hnn.
  destruct (lookup_lt_is_Some_2 (single_type_managers c) k) as [m Hm]; [lia|].
  assert (single_type_managers c1 !! k = Some m) as Hm1 by (by rewrite Hrest).
  apply wp_bind. eapply wp_mono.
  { eapply (wp_on_manager F c1 l1 k m (op k)
      (λ a s' l', l' ⊆ l1 ∧ zlen l1 - cost k ≤ zlen l' ∧ Post k m a (g_mgr s')
         ∧ (Adv → advance (block_pool c1) m l1 (g_pool s') (g_mgr s'))) H Hm1).
    eapply wp_mono; [apply (Hstep k m (block_pool c1) l1)|].
    - done.
    - apply Hs.
    - done.
    - by eapply coord_group.
    - lia.
    - simpl. intros a s' (l'' & Hg & Hc & ? & ? & ? & ?). eauto 10. }
  simpl. intros a c2 (s' & l2 & H2 & Hs2 & (Hsub2 & Hlen2 & HP & Hadv) & Ep & Em).
  assert (Adv → coord_reg c1 → coord_reg c2) as Hreg2.
  { intros HA Hr. unfold coord_reg. rewrite Ep, Em. eapply reg_ok_advance; [done..| |by apply Hadv|].
    - rewrite <-Ep. apply Hs2.
    - intros b i1 m1 id Hb Hi1. exact (coord_free_table F c1 l1 b i1 m1 id H Hb Hi1). }
  apply wp_bind. eapply wp_mono.
  { apply (IH (S k) c2 l2); [done|by etrans|by etrans|lia| |done|].
    - intros i Hi. rewrite Em, list_lookup_insert_ne by lia. apply Hrest. lia.
    - lia. }
  simpl. intros xs c3 (l3 & H3 & Hs3 & Hsub3 & Hlen3 & Hxs & Hlow & Hhigh & Hreg3). wp_steps.
  exists l3. split_and!; try done.
  - by etrans.
  - change (zlen l1 - (cost k + sum_list (cost <$> seq (S k) n)) ≤ zlen l3). lia.
  - simpl. by rewrite Hxs.
  - intros i Hi. rewrite Hlow, Em, list_lookup_insert_ne by lia. done.
  - intros i mi m' Hi Hmi Hm'. destruct (decide (i = k)) as [->|Hne].
    + rewrite Hlow in Hm' by lia. rewrite Em in Hm'.
      rewrite list_lookup_insert_eq in Hm' by (by eapply lookup_lt_Some).
      simplify_eq. exists a. by rewrite Nat.sub_diag.
    + destruct (Hhigh i mi m') as (b & Hb & HPb); [lia|done..|]. exists b.
      replace (i - k)%nat with (S (i - S k)) by lia. done.
  - auto.
Qed.

Lemma each_manager_spec {A} F c l (op : nat → M GroupState A) cost Post (Adv : Prop) :
  let n := length (single_type_managers c) in
  manager_step c l op cost Post Adv → coord_inv F c l →
  (∀ i, (i < n)%nat → 0 ≤ cost i) → sum_list (cost <$> seq 0 n) ≤ zlen l →
  wp (each_manager op) (λ xs c', ∃ l', coord_inv F c' l' ∧ same_coord c c' ∧ l' ⊆ l
       ∧ zlen l - sum_list (cost <$> seq 0 n) ≤ zlen l' ∧ length xs = n
       ∧ (∀ i m m', single_type_managers c !! i = Some m → single_type_managers c' !! i = Some m' →
            ∃ a, xs !! i = Some a ∧ Post i m a m')
       ∧ (Adv → coord_reg c → coord_reg c')) c.
Proof using.
  intros n Hstep H Hpos Hsum. unfold each_manager. wp_steps. simpl.
  eapply wp_mono; [eapply (map_managers_spec F c l op cost Post Adv 0 n c l); try done|].
  - apply Forall_forall. intros i [_ Hi]%elem_of_seq. by apply Hpos.
  - simpl. intros xs c' (l' & ? & ? & ? & ? & ? & _ & HP & ?). exists l'. split_and!; try done.
    intros i m m' Hm Hm'. destruct (HP i m m') as (a & Ha & ?); [lia|done..|].
    rewrite Nat.sub_0_r in Ha. eauto.
Qed.

(** A loop whose steps only read. *)
Lemma map_managers_pure {A} c (op : nat → M GroupState A) (f : nat → Manager → A) k n :
  (k + n = length (single_type_managers c))%nat →
  (∀ i m, single_type_managers c !! i = Some m →
     op i (mkGroup (block_pool c) m) = (inr (f i m), mkGroup (block_pool c) m)) →
  map_each (seq k n) (λ i, on_manager i (op i)) c
  = (inr (imap (λ j, f (k + j)%nat) (drop k (single_type_managers c))), c).
Proof using.
  intros Hk Hop. revert k Hk. induction n as [|n IH]; intros k Hk; simpl.
  { by rewrite drop_ge by lia. }
  destruct (lookup_lt_is_Some_2 (single_type_managers c) k) as [m Hm]; [lia|].
  unfold mbind, M_bind. unfold on_manager at 1. rewrite Hm, (Hop k m Hm). simpl.
  rewrite list_insert_id by done.
  replace (set_state (block_pool c) (single_type_managers c) c) with c by (by destruct c).
  rewrite (IH (S k)) by lia. simpl. unfold mret, M_ret.
  rewrite (drop_S (single_type_managers c) m k Hm). simpl. rewrite Nat.add_0_r. do 3 f_equal.
  apply imap_ext. intros j x _. simpl. f_equal. lia.
Qed.

Lemma each_manager_pure {A} c (op : nat → M GroupState A) (f : nat → Manager → A) :
  (∀ i m, single_type_managers c !! i = Some m →
     op i (mkGroup (block_pool c) m) = (inr (f i m), mkGroup (block_pool c) m)) →
  each_manager op c = (inr (imap f (single_type_managers c)), c).
Proof using.
  intros Hop. unfold each_manager, mbind, M_bind, gets. simpl.
  rewrite (map_managers_pure c op f 0) by done. by rewrite drop_0.
Qed.
End lift.

(** ** Admission to all groups *)

Section admission.
Context (use_int : bool) (id : string) (num_tokens loc ext : Z).
Implicit Types (F : ref → Z) (c : Coordinator) (l ncb : list ref) (m : Manager) (p : BlockPool).

(** The blocks a group takes from the free list in each phase. *)
Definition hit_cost l m ncb : Z := zlen (filter (.∈ l) (kept_hits m ncb (loc + ext))).
Definition covered m ncb : Z := Z.max (skipped_blocks m (loc + ext)) (zlen ncb).
Definition ext_cost m ncb : Z :=
  let skipped := get_num_skipped_tokens (mgr_kind m) (loc + ext) in
  if (if 0 <? skipped then Z.min (loc + ext - skipped) ext else ext) <=? 0 then 0
  else cdiv (loc + ext) (block_size m) - covered m ncb.
Definition new_cost m ncb : Z :=
  (if _has_partial_local_hit m ncb loc then 1 else 0)
  + (cdiv num_tokens (block_size m) - covered m ncb - ext_cost m ncb).

Lemma hits_ok_conf p p' m ncb :
  same_conf p p' → hits_ok (mkGroup p m) id ncb loc ext → hits_ok (mkGroup p' m) id ncb loc ext.
Proof using.
  intros Hc [H1 H2 H3 H4 H5 H6 H7]. split; simpl in *; try done.
  - eapply Forall_impl; [exact H3|]. intros b. by apply in_pool_conf.
  - intros Hmod b Hb. eapply usable_conf; [done|]. by eapply H7.
Qed.

(** The prediction pays for the three phases. *)
Lemma predicted_split l m p ncb :
  0 < block_size m → hits_ok (mkGroup p m) id ncb loc ext → loc + ext ≤ num_tokens →
  0 ≤ hit_cost l m ncb ∧ 0 ≤ ext_cost m ncb ∧ 0 ≤ new_cost m ncb
  ∧ predicted m l ncb num_tokens loc ext = hit_cost l m ncb + ext_cost m ncb + new_cost m ncb
  ∧ (ext ≤ 0 → ext_cost m ncb = 0)
  ∧ covered m ncb + ext_cost m ncb ≤ cdiv num_tokens (block_size m) ∧ 0 ≤ skipped_blocks m (loc + ext).
Proof using.
  intros Hb [[Hatt Hk] _ _ _ [Hloc Hext] Hlen _] Hle. simpl in *.
  pose proof (skipped_bounds _ (loc + ext) Hk Hatt ltac:(lia)) as Hskt.
  assert (0 ≤ skipped_blocks m (loc + ext) ≤ cdiv (loc + ext) (block_size m)) as Hsk.
  { split; [apply Z.div_pos; lia|]. etrans; [|apply cdiv_div_le; done]. apply Z.div_le_mono; lia. }
  pose proof (cdiv_mono _ Hb loc (loc + ext) ltac:(lia)).
  pose proof (cdiv_mono _ Hb (loc + ext) num_tokens Hle).
  unfold hit_cost, new_cost, predicted, covered in *.
  pose proof (zlen_nonneg (filter (.∈ l) (kept_hits m ncb (loc + ext)))).
  assert (ext ≤ 0 → ext_cost m ncb = 0) as Hz.
  { intros He. unfold ext_cost. destruct (Z.ltb_spec 0 (get_num_skipped_tokens (mgr_kind m) (loc + ext)));
      by rewrite (proj2 (Z.leb_le _ 0)) by lia. }
  assert (0 ≤ ext_cost m ncb ≤ cdiv (loc + ext) (block_size m) - Z.max (skipped_blocks m (loc + ext)) (zlen ncb)).
  { unfold ext_cost, covered. destruct (_ <=? 0); lia. }
  destruct (_has_partial_local_hit m ncb loc); split_and!; try done; lia.
Qed.

(** A manager after each phase. *)
Record after_hits (null : ref) m ncb m1 : Prop := {
  ah_spec : kv_cache_spec m1 = kv_cache_spec m;
  ah_bsz : block_size m1 = block_size m;
  ah_table : table m1 id
    = replicate (Z.to_nat (skipped_blocks m (loc + ext))) null ++ kept_hits m ncb (loc + ext);
  ah_other : ∀ id', id' ≠ id → table m1 id' = table m id';
  ah_tracked : is_Some (num_cached_block m1 !! id);
  ah_partial : is_Some (_partial_hit_reqs m1 !! id) → _has_partial_local_hit m ncb loc = true;
  ah_same_partial : _has_partial_local_hit m ncb loc = false →
    _partial_hit_reqs m1 = _partial_hit_reqs m;
  ah_counts : keeps_counts id m m1;
  ah_pending : _pending_cow_copies m1 = _pending_cow_copies m;
}.
Record after_ext (null : ref) m ncb m2 : Prop := {
  ae_spec : kv_cache_spec m2 = kv_cache_spec m;
  ae_bsz : block_size m2 = block_size m;
  ae_len : zlen (table m2 id) = covered m ncb + ext_cost m ncb;
  ae_table : replicate (Z.to_nat (skipped_blocks m (loc + ext))) null
    ++ kept_hits m ncb (loc + ext) `prefix_of` table m2 id;
  ae_other : ∀ id', id' ≠ id → table m2 id' = table m id';
  ae_tracked : is_Some (num_cached_block m2 !! id);
  ae_partial : is_Some (_partial_hit_reqs m2 !! id) → _has_partial_local_hit m ncb loc = true;
  ae_same_partial : _has_partial_local_hit m ncb loc = false →
    _partial_hit_reqs m2 = _partial_hit_reqs m;
  ae_counts : keeps_counts id m m2;
  ae_pending : _pending_cow_copies m2 = _pending_cow_copies m;
}.
Record placed (null : ref) m ncb m3 : Prop := {
  pl_spec : kv_cache_spec m3 = kv_cache_spec m;
  pl_bsz : block_size m3 = block_size m;
  pl_len : zlen (table m3 id) = cdiv num_tokens (block_size m);
  pl_table : _has_partial_local_hit m ncb loc = false →
    replicate (Z.to_nat (skipped_blocks m (loc + ext))) null
      ++ kept_hits m ncb (loc + ext) `prefix_of` table m3 id;
  pl_other : ∀ id', id' ≠ id → table m3 id' = table m id';
  pl_tracked : is_Some (num_cached_block m3 !! id);
  pl_partial : _partial_hit_reqs m3 !! id = None;
  pl_same_partial : _has_partial_local_hit m ncb loc = false →
    _partial_hit_reqs m3 = _partial_hit_reqs m;
  pl_counts : keeps_counts id m m3;
  pl_pending : _has_partial_local_hit m ncb loc = false → _pending_cow_copies m3 = _pending_cow_copies m;
}.

Lemma after_hits_len null m ncb m1 :
  0 ≤ skipped_blocks m (loc + ext) → after_hits null m ncb m1 → zlen (table m1 id) = covered m ncb.
Proof using.
  intros Hsk H. rewrite (ah_table _ _ _ _ H), zlen_app. unfold covered, kept_hits, zlen.
  rewrite length_replicate, length_drop. lia.
Qed.

Lemma hits_step p l G m ncb :
  group_inv G (mkGroup p m) l → hits_ok (mkGroup p m) id ncb loc ext →
  wp (add_local_computed_blocks id ncb loc ext)
    (λ _ s', ∃ l', group_inv G s' l' ∧ same_conf p (g_pool s') ∧ l' ⊆ l
       ∧ zlen l - hit_cost l m ncb ≤ zlen l' ∧ after_hits (null_block p) m ncb (g_mgr s')
       ∧ (_has_partial_local_hit m ncb loc = false → advance p m l (g_pool s') (g_mgr s'))) (mkGroup p m).
Proof using.
  intros H Hok. eapply wp_mono; [by apply (add_local_spec G _ l)|]. simpl.
  intros _ s' Had. pose proof (advance_admitted _ _ _ _ _ _ _ _ Had) as Hadv.
  destruct Had as [H1 H2 H3 H4 H5 H6 H7 H8 _ _ H9 H10 H11]. simpl in *. eexists.
  split_and!; [exact H1|done| | |done|done].
  - intros r. rewrite list_elem_of_filter. tauto.
  - apply touch_consumes. apply (inv_nodup _ _ _ (gi_pool _ _ _ H)).
Qed.

Lemma drop_sub (n : nat) l : drop n l ⊆ l.
Proof using. intros r Hr. rewrite <-(take_drop n l). apply elem_of_app. by right. Qed.

Lemma zlen_drop_ge (n : Z) l : 0 ≤ n → zlen l - n ≤ zlen (drop (Z.to_nat n) l).
Proof using. unfold zlen. rewrite length_drop. lia. Qed.

Lemma ext_step null p l G m ncb m1 :
  0 ≤ skipped_blocks m (loc + ext) → is_attention (mgr_kind m) = true → 0 ≤ ext_cost m ncb ≤ zlen l →
  group_inv G (mkGroup p m1) l → after_hits null m ncb m1 →
  wp (allocate_external_computed_blocks use_int id loc ext)
    (λ _ s', ∃ l', group_inv G s' l' ∧ same_conf p (g_pool s') ∧ l' ⊆ l
       ∧ zlen l - ext_cost m ncb ≤ zlen l' ∧ after_ext null m ncb (g_mgr s')
       ∧ (enable_caching p = true → advance p m1 l (g_pool s') (g_mgr s'))) (mkGroup p m1).
Proof using.
  intros Hsk Hatt Hc H Ha. pose proof (after_hits_len _ _ _ _ Hsk Ha) as Hlen.
  destruct Ha as [A1 A2 A3 A4 A5 A6 A7 A8 A9].
  assert (external_demand m1 id loc ext = ext_cost m ncb) as Hd.
  { unfold external_demand, ext_cost, mgr_kind. by rewrite A1, A2, Hlen. }
  assert (is_attention (mgr_kind m1) = true) as Hatt1 by (unfold mgr_kind in *; by rewrite A1).
  assert (0 ≤ external_demand m1 id loc ext ≤ zlen l) as Hd' by (by rewrite Hd).
  eapply wp_mono; [exact (external_spec use_int G (mkGroup p m1) l id loc ext H Hatt1 Hd')|].
  simpl. rewrite Hd. intros _ s' (xs & Hxs & Htake & Hg & (C1 & C2 & C3 & C4 & C5 & C6 & C7 & C9) & C8). simpl in *.
  eexists. split_and!; [exact Hg|done|apply drop_sub|apply zlen_drop_ge; lia| |].
  2: { intros Hca. subst xs. by eapply (advance_grown G p m1 l). }
  split.
  - congruence.
  - congruence.
  - rewrite C6, zlen_app, Hlen. lia.
  - rewrite C6, A3. by apply prefix_app_r.
  - intros id' ?. by rewrite C7, A4.
  - by rewrite C5.
  - by rewrite C8.
  - intros Hnp. by rewrite C8, A7.
  - intros id' Hne. by rewrite C5, A8.
  - congruence.
Qed.

(** Without external tokens the second phase is skipped. *)
Lemma after_hits_ext null m ncb m1 :
  0 ≤ skipped_blocks m (loc + ext) → ext_cost m ncb = 0 → after_hits null m ncb m1 →
  after_ext null m ncb m1.
Proof using.
  intros Hsk H0 Ha. pose proof (after_hits_len _ _ _ _ Hsk Ha). destruct Ha. split; try done; [lia|].
  by rewrite ah_table0.
Qed.

Lemma new_step null p l G m ncb m2 main :
  is_attention (mgr_kind m) = true → 0 ≤ new_cost m ncb ≤ zlen l →
  covered m ncb + ext_cost m ncb ≤ cdiv num_tokens (block_size m) →
  group_inv G (mkGroup p m2) l → after_ext null m ncb m2 →
  wp (allocate_new_blocks use_int id num_tokens main)
    (λ _ s', ∃ l', group_inv G s' l' ∧ same_conf p (g_pool s') ∧ l' ⊆ l
       ∧ zlen l - new_cost m ncb ≤ zlen l' ∧ placed null m ncb (g_mgr s')
       ∧ (enable_caching p = true ∧ _has_partial_local_hit m ncb loc = false →
          advance p m2 l (g_pool s') (g_mgr s'))) (mkGroup p m2).
Proof using.
  intros Hatt Hc Hge H [A1 A2 A3 A4 A5 A6 A7 A8 A9 A10].
  assert (mgr_kind m2 = mgr_kind m) as Hk by (unfold mgr_kind; by rewrite A1).
  assert (new_demand m2 id num_tokens ≤ new_cost m ncb ∧ 0 ≤ new_demand m2 id num_tokens) as [Hd Hd0].
  { unfold new_demand, new_cost. rewrite A2, A3. case_decide as Hp; [rewrite (A7 Hp)|];
      destruct (_has_partial_local_hit m ncb loc); lia. }
  unfold allocate_new_blocks, self. wp_steps. simpl. rewrite Hk.
  assert (∀ a b : M GroupState (list ref),
    match mgr_kind m with MambaSpec _ _ _ => a | _ => b end = b) as ->
    by (intros; by destruct (mgr_kind m)).
  eapply wp_mono; [apply (allocate_new_blocks_spec use_int G (mkGroup p m2) l id num_tokens main H); simpl; lia|].
  simpl. intros res s' [[P1 P2 P3 P4 P5 P6 P7 P8 P9 P10 P11] _]. simpl in *.
  assert (_has_partial_local_hit m ncb loc = false → _partial_hit_reqs m2 !! id = None) as Hnone.
  { intros Hnp. apply eq_None_not_Some. intros Hs. by rewrite (A7 Hs) in Hnp. }
  eexists. split_and!; [exact P1|done|apply drop_sub| | |].
  3: { intros [Hca Hnp]. apply (advance_grown G p m2 l _ _ id (Z.to_nat (new_demand m2 id num_tokens)));
         [done..|by apply P9, Hnone|done|by apply P10, Hnone]. }
  - pose proof (zlen_drop_ge (new_demand m2 id num_tokens) l Hd0). lia.
  - split.
    + congruence.
    + congruence.
    + rewrite P5, A2, A3. lia.
    + intros Hnp. rewrite P9; [by apply prefix_app_r|]. by apply Hnone.
    + intros id' ?. by rewrite P6, A5.
    + by rewrite P8.
    + by rewrite P7, lookup_delete_eq.
    + intros Hnp. by rewrite P7, delete_id, A8 by auto.
    + intros id' Hne. by rewrite P8, A9.
    + intros Hnp. by rewrite P11 by auto.
Qed.
End admission.

Lemma sum_list_fmap_add {A} (f g : A → Z) (xs : list A) :
  sum_list ((λ x, f x + g x) <$> xs) = sum_list (f <$> xs) + sum_list (g <$> xs).
Proof. induction xs as [|x xs IH]; [done|]. rewrite !fmap_cons. simpl. lia. Qed.

Lemma sum_list_fmap_ext {A} (f g : A → Z) (xs : list A) :
  (∀ x, x ∈ xs → f x = g x) → sum_list (f <$> xs) = sum_list (g <$> xs).
Proof.
  intros H. f_equal. apply list_fmap_ext. intros i x Hx. apply H. by eapply list_elem_of_lookup_2.
Qed.

Lemma imap_seq {A B} (f : nat → A → B) (d : B) (xs : list A) :
  imap f xs = (λ i, from_option (f i) d (xs !! i)) <$> seq 0 (length xs).
Proof.
  apply list_eq. intros i. rewrite list_lookup_imap, list_lookup_fmap.
  destruct (xs !! i) as [x|] eqn:E; simpl.
  - rewrite lookup_seq_lt by (by eapply lookup_lt_Some). simpl. by rewrite E.
  - rewrite lookup_seq_ge by (by apply lookup_ge_None). done.
Qed.

(** Fewer evictable hits in a smaller free list. *)
Lemma filter_sub_le (l l' bs : list ref) :
  l' ⊆ l → zlen (filter (.∈ l') bs) ≤ zlen (filter (.∈ l) bs).
Proof.
  intros Hsub. induction bs as [|b bs IH]; [done|]. rewrite !filter_cons.
  repeat case_decide; rewrite ?zlen_cons; try lia. exfalso. eauto.
Qed.

Lemma aligned_no_partial m ncb loc : loc mod block_size m = 0 → _has_partial_local_hit m ncb loc = false.
Proof. unfold _has_partial_local_hit. intros ->. by rewrite andb_false_r. Qed.

(** Caching is a constant of the pool. *)
Lemma caching_conf c c1 p :
  same_coord c c1 → same_conf (block_pool c1) p →
  enable_caching p = enable_caching (block_pool c).
Proof. intros (_ & (_ & E & _) & _) (_ & E' & _). congruence. Qed.

Section admission_all.
Context (use_int : bool) (F : ref → Z) (c : Coordinator) (l : list ref) (id : string).
Context (ncbs : list (list ref)) (num_tokens loc ext main enc : Z).
Context (H : coord_inv F c l).
Context (Hhits : ∀ i m, single_type_managers c !! i = Some m →
  ∃ ncb, ncbs !! i = Some ncb ∧ hits_ok (mkGroup (block_pool c) m) id ncb loc ext).
Context (Hle : loc + ext ≤ num_tokens).
Implicit Types (f : Manager → list ref → Z).

(** Caching is on and the local hits end at a block boundary in every group. *)
Definition aligned_hits : Prop :=
  enable_caching (block_pool c) = true
  ∧ ∀ i m, single_type_managers c !! i = Some m → loc mod block_size m = 0.

(** A quantity of the group [i]. *)
Definition at_group f (i : nat) : Z :=
  from_option (λ m, f m (default [] (ncbs !! i))) 0 (single_type_managers c !! i).

#[local] Abbreviation groups := (seq 0 (length (single_type_managers c))).

Lemma at_group_hits f i m :
  single_type_managers c !! i = Some m →
  ∃ ncb, ncbs !! i = Some ncb ∧ hits_ok (mkGroup (block_pool c) m) id ncb loc ext
    ∧ 0 < block_size m ∧ at_group f i = f m ncb.
Proof using H Hhits.
  intros Hi. destruct (Hhits i m Hi) as (ncb & Hn & Hok). exists ncb. split_and!; try done.
  - eapply mo_bsz, ci_mgrs; [exact H|done].
  - unfold at_group. by rewrite Hi, Hn.
Qed.

Lemma at_group_nonneg f i :
  (∀ m ncb, 0 < block_size m → hits_ok (mkGroup (block_pool c) m) id ncb loc ext → 0 ≤ f m ncb) →
  0 ≤ at_group f i.
Proof using H Hhits.
  intros Hf. destruct (single_type_managers c !! i) as [m|] eqn:Hi.
  - destruct (at_group_hits f i m Hi) as (ncb & _ & Hok & Hb & ->). by apply Hf.
  - unfold at_group. rewrite Hi. done.
Qed.

Lemma hits_attention m ncb p :
  hits_ok (mkGroup p m) id ncb loc ext → is_attention (mgr_kind m) = true.
Proof using. intros Hok. apply (ho_kind _ _ _ _ _ Hok). Qed.

(** The prediction is the sum over the groups and reads only. *)
Lemma coord_prediction :
  coord_get_num_blocks_to_allocate id num_tokens ncbs enc (loc + ext) loc main false c
  = (inr (sum_list (at_group (λ m ncb, predicted m l ncb num_tokens loc ext) <$> groups)), c).
Proof using H Hhits.
  unfold coord_get_num_blocks_to_allocate, mbind at 1, M_bind at 1.
  rewrite (each_manager_pure c _ (λ i m, predicted m l (default [] (ncbs !! i)) num_tokens loc ext)).
  - unfold mret, M_ret. repeat f_equal. rewrite (imap_seq _ 0). done.
  - intros i m Hi. destruct (Hhits i m Hi) as (ncb & Hn & Hok).
    pose proof (hits_attention _ _ _ Hok) as Hatt.
    destruct (get_num_new_spec _ _ _ id ncb num_tokens loc ext main (coord_group _ _ _ _ _ H Hi) Hok)
      as (n & s' & E & -> & ->).
    unfold self, group_blocks, mbind, M_bind, gets. simpl.
    assert (is_cross_attention (kv_cache_spec m) = false) as ->.
    { unfold is_cross_attention. unfold mgr_kind in Hatt. by destruct (spec_kind (kv_cache_spec m)). }
    rewrite Hn. simpl. exact E.
Qed.

(** The three phases and what they leave of the free list. *)
Lemma phase_hits :
  sum_list (at_group (hit_cost loc ext l) <$> groups) ≤ zlen l →
  wp (each_manager (λ i, ncb ← group_blocks ncbs i; add_local_computed_blocks id ncb loc ext))
    (λ _ c1, ∃ l1, coord_inv F c1 l1 ∧ same_coord c c1
       ∧ zlen l - sum_list (at_group (hit_cost loc ext l) <$> groups) ≤ zlen l1
       ∧ (∀ i m m1, single_type_managers c !! i = Some m → single_type_managers c1 !! i = Some m1 →
            ∃ ncb, ncbs !! i = Some ncb
              ∧ after_hits id loc ext (null_block (block_pool c)) m ncb m1)
       ∧ (aligned_hits → coord_reg c → coord_reg c1)) c.
Proof using H Hhits.
  intros Hsum. eapply wp_mono.
  { apply (each_manager_spec F c l _ (at_group (hit_cost loc ext l))
      (λ i m _ m1, ∃ ncb, ncbs !! i = Some ncb ∧ after_hits id loc ext (null_block (block_pool c)) m ncb m1) aligned_hits);
      [|done| |done].
    - intros i m p l' G Hi Hc Hsub HG _. destruct (at_group_hits (hit_cost loc ext l) i m Hi) as (ncb & Hn & Hok & Hb & ->).
      unfold group_blocks. apply wp_bind. rewrite Hn. eapply wp_lift_option; [done|].
      eapply wp_mono; [apply (hits_step id loc ext p l' G m ncb HG); by eapply hits_ok_conf|].
      simpl. intros a s' (l'' & G1 & G2 & G3 & G4 & G5 & G6). exists l''. split_and!; try done.
      3: { intros [_ Hal]. by apply G6, aligned_no_partial, (Hal i m). }
      + assert (hit_cost loc ext l' m ncb ≤ hit_cost loc ext l m ncb); [|lia].
        by apply filter_sub_le.
      + exists ncb. split; [done|]. destruct Hc as (_ & _ & _ & <- & _). done.
    - intros i _. apply at_group_nonneg. intros. apply zlen_nonneg. }
  simpl. intros xs c1 (l1 & ? & ? & _ & ? & _ & HP & ?). exists l1. split_and!; try done.
  intros i m m1 Hi Hi1. destruct (HP i m m1 Hi Hi1) as (_ & _ & ?). done.
Qed.

Lemma same_coord_lookup c1 c2 i m2 :
  same_coord c1 c2 → single_type_managers c2 !! i = Some m2 →
  ∃ m1, single_type_managers c1 !! i = Some m1.
Proof using.
  intros (_ & _ & E) Hi. apply lookup_lt_is_Some_2. rewrite <-E. by eapply lookup_lt_Some.
Qed.

Lemma phase_external c1 l1 :
  coord_inv F c1 l1 → same_coord c c1 →
  (∀ i m m1, single_type_managers c !! i = Some m → single_type_managers c1 !! i = Some m1 →
     ∃ ncb, ncbs !! i = Some ncb ∧ after_hits id loc ext (null_block (block_pool c)) m ncb m1) →
  sum_list (at_group (ext_cost loc ext) <$> groups) ≤ zlen l1 →
  wp (when (0 <? ext) (each_manager (λ _, allocate_external_computed_blocks use_int id loc ext);; mret tt))
    (λ _ c2, ∃ l2, coord_inv F c2 l2 ∧ same_coord c c2
       ∧ zlen l1 - sum_list (at_group (ext_cost loc ext) <$> groups) ≤ zlen l2
       ∧ (∀ i m m2, single_type_managers c !! i = Some m → single_type_managers c2 !! i = Some m2 →
            ∃ ncb, ncbs !! i = Some ncb
              ∧ after_ext id loc ext (null_block (block_pool c)) m ncb m2)
       ∧ (aligned_hits → coord_reg c1 → coord_reg c2)) c1.
Proof using H Hhits Hle.
  intros H1 Hs1 Hm1 Hsum.
  assert (length (single_type_managers c1) = length (single_type_managers c)) as El by apply Hs1.
  assert (∀ i, 0 ≤ at_group (ext_cost loc ext) i) as Hnn.
  { intros i. apply at_group_nonneg. intros m ncb Hb Hok. by eapply (predicted_split id num_tokens loc ext l). }
  apply wp_when; intros Hext; bool_hyps.
  - apply wp_bind. eapply wp_mono.
    { apply (each_manager_spec F c1 l1 _ (at_group (ext_cost loc ext))
        (λ i _ _ m2, ∀ m, single_type_managers c !! i = Some m → ∃ ncb, ncbs !! i = Some ncb
           ∧ after_ext id loc ext (null_block (block_pool c)) m ncb m2) aligned_hits);
        [|done|by intros|by rewrite El].
      intros i m1 p l' G Hi1 Hc Hsub HG Hcost.
      destruct (same_coord_lookup _ _ _ _ Hs1 Hi1) as [m Hi].
      destruct (at_group_hits (ext_cost loc ext) i m Hi) as (ncb & Hn & Hok & Hb & Eat). rewrite Eat in *.
      destruct (Hm1 i m m1 Hi Hi1) as (ncb' & Hn' & Hah). simplify_eq.
      destruct (predicted_split id num_tokens loc ext l m _ ncb Hb Hok Hle) as (_ & He & _ & _ & _ & _ & Hsk).
      eapply wp_mono; [apply (ext_step use_int id loc ext (null_block (block_pool c)) p l' G m ncb m1); try done|].
      - by eapply hits_attention.
      - simpl. intros _ s' (l'' & ? & ? & ? & ? & ? & Hadv). exists l''. split_and!; try done.
        + intros m' Hm'. simplify_eq. eauto.
        + intros [Hca _]. apply Hadv. by rewrite (caching_conf _ _ p Hs1 Hc). }
    simpl. intros xs c2 (l2 & ? & ? & _ & Hlen & _ & HP & ?). wp_steps. exists l2. rewrite El in Hlen.
    split_and!; [done|by etrans|done| |done].
    intros i m m2 Hi Hi2. destruct (same_coord_lookup c1 c2 i m2) as [m1 Hi1]; [done..|].
    destruct (HP i m1 m2 Hi1 Hi2) as (_ & _ & HP'). by apply HP'.
  - exists l1. split_and!; [done|done| | |done].
    + assert (0 ≤ sum_list (at_group (ext_cost loc ext) <$> groups)); [|lia].
      apply sum_list_nonneg, Forall_fmap, Forall_forall. intros i _. apply Hnn.
    + intros i m m1 Hi Hi1. destruct (Hm1 i m m1 Hi Hi1) as (ncb & Hn & Hah). exists ncb. split; [done|].
      destruct (at_group_hits (ext_cost loc ext) i m Hi) as (ncb' & Hn' & Hok & Hb & _). simplify_eq.
      destruct (predicted_split id num_tokens loc ext l m _ ncb Hb Hok Hle) as (_ & He & _ & _ & H0 & _ & Hsk).
      by apply after_hits_ext; [|apply H0; lia|].
Qed.

(** Every group covers the tokens of the request and starts with its hits. *)
Definition placed_all c3 : Prop :=
  ∀ i m m3, single_type_managers c !! i = Some m → single_type_managers c3 !! i = Some m3 →
    ∃ ncb, ncbs !! i = Some ncb
      ∧ placed id num_tokens loc ext (null_block (block_pool c)) m ncb m3.

Lemma phase_new c2 l2 :
  coord_inv F c2 l2 → same_coord c c2 →
  (∀ i m m2, single_type_managers c !! i = Some m → single_type_managers c2 !! i = Some m2 →
     ∃ ncb, ncbs !! i = Some ncb ∧ after_ext id loc ext (null_block (block_pool c)) m ncb m2) →
  sum_list (at_group (new_cost num_tokens loc ext) <$> groups) ≤ zlen l2 →
  wp (coord_allocate_new_blocks use_int id num_tokens main enc)
    (λ xs c3, ∃ l3, coord_inv F c3 l3 ∧ same_coord c c3 ∧ placed_all c3
       ∧ length xs = length (single_type_managers c)
       ∧ zlen l2 - sum_list (at_group (new_cost num_tokens loc ext) <$> groups) ≤ zlen l3
       ∧ (aligned_hits → coord_reg c2 → coord_reg c3)) c2.
Proof using H Hhits Hle.
  intros H2 Hs2 Hm2 Hsum.
  assert (length (single_type_managers c2) = length (single_type_managers c)) as El by apply Hs2.
  eapply wp_mono.
  { apply (each_manager_spec F c2 l2 _ (at_group (new_cost num_tokens loc ext))
      (λ i _ _ m3, ∀ m, single_type_managers c !! i = Some m → ∃ ncb, ncbs !! i = Some ncb
         ∧ placed id num_tokens loc ext (null_block (block_pool c)) m ncb m3) aligned_hits);
      [|done| |by rewrite El].
    - intros i m2 p l' G Hi2 Hc Hsub HG Hcost.
      destruct (same_coord_lookup _ _ _ _ Hs2 Hi2) as [m Hi].
      destruct (at_group_hits (new_cost num_tokens loc ext) i m Hi) as (ncb & Hn & Hok & Hb & Eat).
      rewrite Eat in *. destruct (Hm2 i m m2 Hi Hi2) as (ncb' & Hn' & Hae). simplify_eq.
      destruct (predicted_split id num_tokens loc ext l m _ ncb Hb Hok Hle) as (_ & _ & Hn0 & _ & _ & Hge & _).
      pose proof (hits_attention _ _ _ Hok) as Hatt. unfold self. wp_steps. simpl.
      assert (is_cross_attention (kv_cache_spec m2) = false) as ->.
      { unfold is_cross_attention. rewrite (ae_spec _ _ _ _ _ _ _ Hae). unfold mgr_kind in Hatt.
        by destruct (spec_kind (kv_cache_spec m)). }
      eapply wp_mono; [apply (new_step use_int id num_tokens loc ext (null_block (block_pool c)) p l' G m ncb m2 main); done|].
      simpl. intros a s' (l'' & ? & ? & ? & ? & ? & Hadv). exists l''. split_and!; try done.
      + intros m' Hm'. simplify_eq. eauto.
      + intros [Hca Hal]. apply Hadv. rewrite (caching_conf _ _ p Hs2 Hc).
        split; [done|]. by apply aligned_no_partial, (Hal i m).
    - intros i _. apply at_group_nonneg. intros m ncb Hb Hok.
      by eapply (predicted_split id num_tokens loc ext l). }
  simpl. intros xs c3 (l3 & ? & ? & _ & Hl3 & Hxs & HP & ?). exists l3. rewrite El in Hl3.
  split_and!; [done|by etrans| |congruence|done|done].
  intros i m m3 Hi Hi3. destruct (same_coord_lookup c2 c3 i m3) as [m2 Hi2]; [done..|].
  destruct (HP i m2 m3 Hi2 Hi3) as (_ & _ & HP'). by apply HP'.
Qed.

Lemma coord_admission :
  sum_list (at_group (λ m ncb, predicted m l ncb num_tokens loc ext) <$> groups) ≤ zlen l →
  wp (allocate_new_computed_blocks use_int id ncbs loc ext;;
      coord_allocate_new_blocks use_int id num_tokens main enc)
    (λ xs c3, ∃ l3, coord_inv F c3 l3 ∧ same_coord c c3 ∧ placed_all c3
       ∧ length xs = length (single_type_managers c)
       ∧ zlen l - sum_list (at_group (λ m ncb, predicted m l ncb num_tokens loc ext) <$> groups) ≤ zlen l3
       ∧ (aligned_hits → coord_reg c → coord_reg c3)) c.
Proof using H Hhits Hle.
  intros Hsum.
  assert (sum_list (at_group (λ m ncb, predicted m l ncb num_tokens loc ext) <$> groups)
    = sum_list (at_group (hit_cost loc ext l) <$> groups)
      + (sum_list (at_group (ext_cost loc ext) <$> groups)
         + sum_list (at_group (new_cost num_tokens loc ext) <$> groups))) as Esum.
  { rewrite (sum_list_fmap_ext _ (λ i, at_group (hit_cost loc ext l) i
      + (at_group (ext_cost loc ext) i + at_group (new_cost num_tokens loc ext) i)));
      [by rewrite sum_list_fmap_add, sum_list_fmap_add|].
    intros i [_ Hi]%elem_of_seq. destruct (lookup_lt_is_Some_2 (single_type_managers c) i Hi) as [m Hm].
       destruct (Hhits i m Hm) as (ncb & Hn & Hok). unfold at_group. rewrite Hm, Hn. simpl.
       destruct (predicted_split id num_tokens loc ext l m (block_pool c) ncb)
         as (_ & _ & _ & -> & _); [eapply mo_bsz, ci_mgrs; [exact H|done]|done|done|lia]. }
  rewrite Esum in *.
  assert (∀ f, (∀ m ncb, 0 < block_size m → hits_ok (mkGroup (block_pool c) m) id ncb loc ext → 0 ≤ f m ncb) →
    0 ≤ sum_list (at_group f <$> groups)) as Hnn.
  { intros f Hf. apply sum_list_nonneg, Forall_fmap, Forall_forall. intros i _. by apply at_group_nonneg. }
  assert (0 ≤ sum_list (at_group (ext_cost loc ext) <$> groups)) as He.
  { apply Hnn. intros. by eapply (predicted_split id num_tokens loc ext l). }
  assert (0 ≤ sum_list (at_group (new_cost num_tokens loc ext) <$> groups)) as Hn.
  { apply Hnn. intros. by eapply (predicted_split id num_tokens loc ext l). }
  unfold allocate_new_computed_blocks. apply wp_bind. wp_steps.
  assert (existsb (λ m, bool_decide (is_Some (num_cached_block m !! id))) (single_type_managers c) = false) as ->.
  { apply not_true_iff_false. rewrite existsb_exists. intros (m & Hin & Hb).
    apply list_elem_of_In, list_elem_of_lookup in Hin as [i Hi].
    destruct (Hhits i m Hi) as (ncb & _ & Hok). destruct (ho_new _ _ _ _ _ Hok) as (_ & Hnone & _).
    simpl in Hnone. rewrite Hnone in Hb. done. }
  apply wp_bind. eapply wp_mono; [apply phase_hits; lia|].
  simpl. intros _ c1 (l1 & H1 & Hs1 & Hl1 & Hm1 & Hr1).
  eapply wp_mono; [apply (phase_external c1 l1); [done..|lia]|].
  simpl. intros _ c2 (l2 & H2 & Hs2 & Hl2 & Hm2 & Hr2).
  eapply wp_mono; [apply (phase_new c2 l2); [done..|lia]|]. simpl.
  intros xs c3 (l3 & ? & ? & ? & ? & ? & Hr3). exists l3. split_and!; try done; [lia|auto].
Qed.
End admission_all.
