(* ===== verification/CoordinatorSteps.v ===== *)
(** The remaining steps of a coordinator: reading predictions, trimming tables to the attention
    window, extending a request in all groups, registering its full blocks, and releasing it. *)

From S2P Require Import Prelude MathUtils Request BlockHash BlockHashFacts FreeQueue.
From S2P Require Import FreeQueueFacts BlockPool BlockPoolFacts BlockPoolSpec BlockPoolTheorems.
From S2P Require Import Managers ManagerFacts AllocationFacts ReleaseFacts RegistrationFacts.
From S2P Require Import Coordinator CoordinatorFacts.

Set Warnings "-level-tolerance,-clear-no-such-hyp".

Section loops.
Context {A : Type}.
Implicit Types (op : nat → M GroupState A) (c : Coordinator) (F : ref → Z) (l : list ref).

(** A loop over the managers, with an invariant that depends on the progress. *)
Lemma map_each_ind op (I : nat → list A → Coordinator → Prop) (k n : nat) xs c :
  I k xs c →
  (∀ i xs c1, (k ≤ i < k + n)%nat → I i xs c1 →
     wp (on_manager i (op i)) (λ a c2, I (S i) (xs ++ [a]) c2) c1) →
  wp (map_each (seq k n) (λ i, on_manager i (op i))) (λ ys c', I (k + n)%nat (xs ++ ys) c') c.
Proof using.
  revert k xs c. induction n as [|n IH]; intros k xs c HI Hstep; simpl.
  { wp_steps. by rewrite app_nil_r, Nat.add_0_r. }
  apply wp_bind. eapply wp_mono; [apply Hstep; [lia|done]|]. simpl. intros a c1 HI1.
  apply wp_bind. eapply wp_mono; [apply (IH (S k) (xs ++ [a]) c1 HI1)|].
  - intros i ys c2 Hi. apply Hstep. lia.
  - simpl. intros ys c2 HI2. wp_steps. rewrite <-(assoc_L (++)) in HI2. simpl in HI2.
    by replace (k + S n)%nat with (S (k + n)) by lia.
Qed.

Lemma each_manager_ind op (I : nat → list A → Coordinator → Prop) c :
  let n := length (single_type_managers c) in
  I 0%nat [] c →
  (∀ i xs c1, (i < n)%nat → I i xs c1 → wp (on_manager i (op i)) (λ a c2, I (S i) (xs ++ [a]) c2) c1) →
  wp (each_manager op) (λ xs c', I n xs c') c.
Proof using.
  intros n HI Hstep. unfold each_manager. wp_steps. simpl.
  eapply wp_mono; [apply (map_each_ind op I 0 n [] c HI)|].
  - intros i xs c1 Hi. apply Hstep. lia.
  - done.
Qed.

(** A manager's step that keeps the books whatever the free list is. *)
Definition keep_step c op (Post : nat → Manager → A → Manager → Prop) : Prop :=
  ∀ i m p l G, single_type_managers c !! i = Some m → same_conf (block_pool c) p →
    group_inv G (mkGroup p m) l →
    wp (op i) (λ a s', ∃ l', group_inv G s' l' ∧ same_conf p (g_pool s')
      ∧ advance p m l (g_pool s') (g_mgr s') ∧ Post i m a (g_mgr s')) (mkGroup p m).

(** The managers below [k] have done their step, the others have not. *)
Definition progress (Post : nat → Manager → A → Manager → Prop) c (k : nat) (xs : list A) c1 : Prop :=
  length xs = k
  ∧ (∀ i m m1, (i < k)%nat → single_type_managers c !! i = Some m →
       single_type_managers c1 !! i = Some m1 → ∃ a, xs !! i = Some a ∧ Post i m a m1)
  ∧ (∀ i, (k ≤ i)%nat → single_type_managers c1 !! i = single_type_managers c !! i).

Lemma progress_step Post c k xs c1 m a m' :
  progress Post c k xs c1 → single_type_managers c !! k = Some m → Post k m a m' →
  ∀ c2, single_type_managers c2 = <[k := m']> (single_type_managers c1) →
  progress Post c (S k) (xs ++ [a]) c2.
Proof using.
  intros (P1 & P2 & P3) Hk HP c2 E. split_and!.
  - rewrite length_app. simpl. lia.
  - intros i mi m1 Hi Hmi Hm1. rewrite E in Hm1.
    apply list_lookup_insert_Some in Hm1 as [(<- & <- & _)|[Hne Hm1]].
    + assert (mi = m) as -> by congruence. exists a. split; [|done]. rewrite lookup_app_r by lia. by rewrite P1, Nat.sub_diag.
    + destruct (P2 i mi m1) as (b & Hb & HPb); [lia|done..|]. exists b. split; [|done].
      by apply lookup_app_l_Some.
  - intros i Hi. rewrite E, list_lookup_insert_ne by lia. apply P3. lia.
Qed.

Lemma each_manager_keep F c l op Post :
  coord_inv F c l → keep_step c op Post →
  wp (each_manager op) (λ xs c', ∃ l', coord_inv F c' l' ∧ same_coord c c'
     ∧ (coord_reg c → coord_reg c')
     ∧ ∀ i m m', single_type_managers c !! i = Some m → single_type_managers c' !! i = Some m' →
         ∃ a, xs !! i = Some a ∧ Post i m a m') c.
Proof using.
  intros H Hstep. set (n := length (single_type_managers c)).
  eapply wp_mono.
  { apply (each_manager_ind op (λ k xs c1, (∃ l1, coord_inv F c1 l1) ∧ same_coord c c1
      ∧ (coord_reg c → coord_reg c1) ∧ progress Post c k xs c1)).
    - split; [by exists l|]. split; [done|]. split; [done|]. split; [done|]. split; [|done].
      intros i m m1 Hi. lia.
    - intros k xs c1 Hk ([l1 H1] & Hs1 & Hr1 & Hp1). fold n in Hk.
      destruct (lookup_lt_is_Some_2 (single_type_managers c) k) as [m Hm]; [done|].
      assert (single_type_managers c1 !! k = Some m) as Hm1.
      { destruct Hp1 as (_ & _ & ->); [done|lia]. }
      eapply wp_mono.
      { eapply (wp_on_manager F c1 l1 k m (op k)
          (λ a s' l', advance (block_pool c1) m l1 (g_pool s') (g_mgr s') ∧ Post k m a (g_mgr s')) H1 Hm1).
        eapply wp_mono; [apply (Hstep k m (block_pool c1) l1); [done|apply Hs1|by eapply coord_group]|].
        simpl. intros a s' (l' & ? & ? & ? & ?). eauto 10. }
      simpl. intros a c2 (s' & l2 & H2 & Hs2 & (Hadv & HP) & Ep & Em).
      split; [by exists l2|]. split; [by etrans|]. split; [|by eapply progress_step].
      intros Hr. unfold coord_reg. rewrite Ep, Em.
      eapply reg_ok_advance; [by apply Hr1|done| |exact Hadv|].
      + rewrite <-Ep. apply Hs2.
      + intros b i1 m1 id Hb Hi1. exact (coord_free_table F c1 l1 b i1 m1 id H1 Hb Hi1). }
  simpl. intros xs c' ([l' H'] & Hs & Hr & (_ & Hp & _)). exists l'. split_and!; try done.
  intros i m m' Hm Hm'. apply Hp; [|done..]. by eapply lookup_lt_Some.
Qed.

(** No step changes the configuration of a manager. *)
Lemma each_manager_static op c r c' :
  (∀ i, keeps_static (op i)) → each_manager op c = (r, c') →
  Forall2 (λ m m', static m' = static m) (single_type_managers c) (single_type_managers c').
Proof using.
  intros Hop. unfold each_manager, mbind, M_bind, gets. simpl. generalize (seq 0 (length (single_type_managers c))).
  intros idxs. revert c r c'. induction idxs as [|i idxs IH]; intros c r c' E; simpl in E.
  { injection E as _ <-. by apply Forall_Forall2_diag, Forall_forall. }
  unfold mbind, M_bind in E.
  assert (∀ r1 c1, on_manager i (op i) c = (r1, c1) →
    Forall2 (λ m m', static m' = static m) (single_type_managers c) (single_type_managers c1)) as Hone.
  { intros r1 c1 E1. unfold on_manager in E1. destruct (single_type_managers c !! i) as [m|] eqn:Em.
    - pose proof (Hop i (mkGroup (block_pool c) m)) as Hs.
      destruct (op i (mkGroup (block_pool c) m)) as [a s']. injection E1 as _ <-. simpl in *.
      apply Forall2_lookup. intros j. destruct (decide (j = i)) as [->|Hne].
      + rewrite list_lookup_insert_eq by (by eapply lookup_lt_Some). rewrite Em. by constructor.
      + rewrite list_lookup_insert_ne by done. destruct (_ !! j); by constructor.
    - injection E1 as _ <-. by apply Forall_Forall2_diag, Forall_forall. }
  destruct (on_manager i (op i) c) as [[e|a] c1] eqn:E1.
  { injection E as _ <-. by eapply Hone. }
  assert (∃ r2, map_each idxs (λ i, on_manager i (op i)) c1 = (r2, c')) as [r2 E2].
  { destruct (map_each _ _ c1) as [[e|xs] c2]; [|unfold mret, M_ret in E]; injection E as _ <-; eauto. }
  eapply Forall2_trans; [|by eapply Hone|by eapply IH]. simpl. congruence.
Qed.
End loops.

(** ** Predictions *)

Section predict.
Implicit Types (c : Coordinator) (m : Manager) (F : ref → Z) (l : list ref) (id : string).

(** A prediction only reads, with or without the admission cap. *)
Lemma predict_total s l id (num_tokens total loc main : Z) ncb cap :
  pool_inv (g_pool s) l → is_attention (mgr_kind (g_mgr s)) = true → Forall (in_pool (g_pool s)) ncb →
  (is_Some (num_cached_block (g_mgr s) !! id) → ncb = []) →
  ∃ n, get_num_blocks_to_allocate id num_tokens ncb total loc main cap s = (inr n, s).
Proof using.
  intros Hinv Hatt Hin Htr.
  assert (wp (get_num_blocks_to_allocate id num_tokens ncb total loc main cap) (λ _ s', s' = s) s)
    as (n & s' & E & ->); [|eauto].
  unfold get_num_blocks_to_allocate, self. wp_steps. simpl.
  assert (∀ a b : M GroupState Z, match mgr_kind (g_mgr s) with MambaSpec _ _ _ => a | _ => b end = b)
    as -> by (intros; by destruct (mgr_kind (g_mgr s))).
  unfold base_get_num_blocks_to_allocate, self. wp_steps. simpl.
  destruct (num_cached_block (g_mgr s) !! id) as [nc|].
  - rewrite Htr by done. wp_steps. apply wp_assert; [done|]. by wp_steps.
  - wp_steps. apply wp_on_pool. eapply wp_mono; [apply (evictable_spec _ l); [done|by apply Forall_drop]|].
    simpl. intros n p' [-> _]. wp_steps. by destruct s.
Qed.

(** The cost of extending the table of [id] to [num_tokens]. *)
Definition extend_cost id (num_tokens : Z) m : Z :=
  Z.max 0 (cdiv num_tokens (block_size m) - zlen (table m id)).

(** The group holds blocks for the computed tokens, or tracks the request already. *)
Definition holds_computed id (total : Z) m : Prop :=
  is_Some (num_cached_block m !! id) ∨ skipped_blocks m total ≤ zlen (table m id).

Lemma predict_extend s id (num_tokens total loc main : Z) :
  is_attention (mgr_kind (g_mgr s)) = true → holds_computed id total (g_mgr s) →
  get_num_blocks_to_allocate id num_tokens [] total loc main false s
  = (inr (extend_cost id num_tokens (g_mgr s)), s).
Proof using.
  intros Hatt Hh.
  assert (wp (get_num_blocks_to_allocate id num_tokens [] total loc main false)
    (λ n s', n = extend_cost id num_tokens (g_mgr s) ∧ s' = s) s) as (n & s' & E & -> & ->); [|done].
  unfold get_num_blocks_to_allocate, self. wp_steps. simpl.
  assert (∀ a b : M GroupState Z, match mgr_kind (g_mgr s) with MambaSpec _ _ _ => a | _ => b end = b)
    as -> by (intros; by destruct (mgr_kind (g_mgr s))).
  unfold base_get_num_blocks_to_allocate, self. wp_steps. simpl. fold (table (g_mgr s) id).
  destruct (num_cached_block (g_mgr s) !! id) as [nc|] eqn:Enc.
  - wp_steps. split; [|done]. unfold extend_cost.
    destruct (_max_admission_blocks_per_request (g_mgr s)); lia.
  - destruct Hh as [Hs|Hle]; [rewrite Enc in Hs; by destruct Hs|].
    wp_steps. apply wp_on_pool. rewrite drop_nil. simpl. wp_steps. split; [|by destruct s].
    fold (skipped_blocks (g_mgr s) total). unfold extend_cost, _has_partial_local_hit.
    rewrite zlen_nil. simpl. destruct (_max_admission_blocks_per_request (g_mgr s)); lia.
Qed.

Lemma not_cross m : is_attention (mgr_kind m) = true → is_cross_attention (kv_cache_spec m) = false.
Proof using. unfold is_cross_attention, mgr_kind. by destruct (spec_kind (kv_cache_spec m)). Qed.

Lemma coord_predict_total F c l id (num_tokens enc total loc main : Z) ncbs cap :
  coord_inv F c l →
  (∀ i m, single_type_managers c !! i = Some m → is_attention (mgr_kind m) = true
     ∧ ∃ ncb, ncbs !! i = Some ncb ∧ Forall (in_pool (block_pool c)) ncb
       ∧ (is_Some (num_cached_block m !! id) → ncb = [])) →
  ∃ n, coord_get_num_blocks_to_allocate id num_tokens ncbs enc total loc main cap c = (inr n, c).
Proof using.
  intros H Hg. unfold coord_get_num_blocks_to_allocate, mbind at 1, M_bind at 1.
  rewrite (each_manager_pure c _ (λ i m,
    match (get_num_blocks_to_allocate id num_tokens (default [] (ncbs !! i)) total loc main cap
             (mkGroup (block_pool c) m)).1 with inr n => n | inl _ => 0 end)); [by eexists|].
  intros i m Hi. destruct (Hg i m Hi) as (Hatt & ncb & Hn & Hin & Htr).
  unfold self, group_blocks, mbind, M_bind, gets. simpl. rewrite not_cross by done. rewrite Hn. simpl.
  destruct (predict_total (mkGroup (block_pool c) m) l id num_tokens total loc main ncb cap
    (ci_pool _ _ _ H) Hatt Hin Htr) as [n ->]. done.
Qed.

Lemma coord_predict_extend c id (num_tokens enc total loc main : Z) ncbs :
  (∀ i m, single_type_managers c !! i = Some m →
     is_attention (mgr_kind m) = true ∧ holds_computed id total m ∧ ncbs !! i = Some []) →
  coord_get_num_blocks_to_allocate id num_tokens ncbs enc total loc main false c
  = (inr (sum_list (extend_cost id num_tokens <$> single_type_managers c)), c).
Proof using.
  intros Hg. unfold coord_get_num_blocks_to_allocate, mbind at 1, M_bind at 1.
  rewrite (each_manager_pure c _ (λ _ m, extend_cost id num_tokens m)).
  - unfold mret, M_ret. do 2 f_equal. f_equal.
    exact (imap_const (extend_cost id num_tokens) (single_type_managers c)).
  - intros i m Hi. destruct (Hg i m Hi) as (Hatt & Hh & Hn).
    unfold self, group_blocks, mbind, M_bind, gets. simpl. rewrite not_cross by done. rewrite Hn. simpl.
    by rewrite predict_extend.
Qed.
End predict.

(** ** Extending a request *)

Section extend.
Context (use_int : bool) (id : string).
Implicit Types (c : Coordinator) (m : Manager) (F : ref → Z) (l : list ref).

(** The table of [id] was extended by the blocks [x] to cover the tokens. *)
Record extended (num_tokens : Z) m (x : list ref) m' : Prop := {
  ex_len : zlen (table m' id) = Z.max (zlen (table m id)) (cdiv num_tokens (block_size m));
  ex_table : table m' id = table m id ++ x;
  ex_other : ∀ id', id' ≠ id → table m' id' = table m id';
  ex_partial : _partial_hit_reqs m' = _partial_hit_reqs m;
  ex_cached : num_cached_block m' = num_cached_block m;
  ex_pending : _pending_cow_copies m' = _pending_cow_copies m;
}.

Lemma coord_extend F c l (num_tokens main enc : Z) :
  coord_inv F c l →
  (∀ i m, single_type_managers c !! i = Some m →
     is_attention (mgr_kind m) = true ∧ _partial_hit_reqs m !! id = None) →
  sum_list (extend_cost id num_tokens <$> single_type_managers c) ≤ zlen l →
  wp (coord_allocate_new_blocks use_int id num_tokens main enc)
    (λ xs c', ∃ l', coord_inv F c' l' ∧ same_coord c c'
       ∧ zlen l - sum_list (extend_cost id num_tokens <$> single_type_managers c) ≤ zlen l'
       ∧ (enable_caching (block_pool c) = true → coord_reg c → coord_reg c')
       ∧ ∀ i m m', single_type_managers c !! i = Some m → single_type_managers c' !! i = Some m' →
           ∃ x, xs !! i = Some x ∧ extended num_tokens m x m') c.
Proof using.
  intros H Hg Hsum.
  set (cost := λ i, from_option (extend_cost id num_tokens) 0 (single_type_managers c !! i)).
  assert (extend_cost id num_tokens <$> single_type_managers c
    = cost <$> seq 0 (length (single_type_managers c))) as Ecost.
  { etrans; [symmetry; exact (imap_const (extend_cost id num_tokens) (single_type_managers c))|].
    exact (imap_seq (λ _, extend_cost id num_tokens) 0 (single_type_managers c)). }
  eapply wp_mono.
  { apply (each_manager_spec F c l _ cost (λ _ m x m', extended num_tokens m x m')
      (enable_caching (block_pool c) = true)); [|done| |by rewrite <-Ecost].
    - intros i m p l' G Hi Hc Hsub HG Hcost. destruct (Hg i m Hi) as [Hatt Hph].
      unfold cost in Hcost |- *. rewrite Hi in Hcost |- *. simpl in *.
      unfold self. wp_steps. simpl. rewrite not_cross by done.
      unfold allocate_new_blocks, self. wp_steps. simpl.
      assert (∀ a b : M GroupState (list ref),
        match mgr_kind m with MambaSpec _ _ _ => a | _ => b end = b) as ->
        by (intros; by destruct (mgr_kind m)).
      assert (new_demand m id num_tokens = extend_cost id num_tokens m) as Hd.
      { unfold new_demand, extend_cost. rewrite Hph, decide_False by (by intros [? ?]). lia. }
      eapply wp_mono; [apply (allocate_new_blocks_spec use_int G (mkGroup p m) l' id num_tokens main HG);
        simpl; lia|].
      simpl. rewrite Hd. intros res s' [[P1 P2 P3 P4 P5 P6 P7 P8 P9 P10 P11] Hres]. simpl in *.
      specialize (P9 Hph). specialize (P10 Hph). specialize (P11 Hph). rewrite (Hres Hph).
      assert (0 ≤ extend_cost id num_tokens m) by (unfold extend_cost; lia).
      eexists. split_and!; [exact P1|done|apply drop_sub|by apply zlen_drop_ge| |].
      + split; try done. by rewrite P7, delete_id.
      + intros Hca. apply (advance_grown G p m l' _ _ id (Z.to_nat (extend_cost id num_tokens m))); try done.
        by rewrite <-Hca; apply Hc.
    - intros i _. unfold cost. destruct (_ !! i); simpl; unfold extend_cost; lia. }
  simpl. intros xs c' (l' & ? & ? & _ & ? & _ & HP & ?). exists l'. by rewrite Ecost.
Qed.
End extend.

(** ** Trimming to the attention window *)

Section trim.
Context (id : string).
Implicit Types (c : Coordinator) (m : Manager) (F : ref → Z) (l : list ref).

(** Token [t] may still be read after [processed] tokens of a prompt of [np]. *)
Definition still_read (kind : SpecKind) (np processed t : Z) : Prop :=
  match kind with
  | RSWASpec w => t < np ∨ processed - w ≤ t
  | _ => get_num_skipped_tokens kind processed ≤ t
  end.

Record trimmed (null : ref) (np processed : Z) m m' : Prop := {
  tr_len : zlen (table m' id) = zlen (table m id);
  tr_entry : ∀ (i : nat) b, table m' id !! i = Some b → b = null ∨ table m id !! i = Some b;
  tr_window : ∀ t, 0 ≤ t → still_read (mgr_kind m) np processed t →
    table m' id !! Z.to_nat (t / block_size m) = table m id !! Z.to_nat (t / block_size m);
  tr_other : ∀ id', id' ≠ id → table m' id' = table m id';
  tr_partial : _partial_hit_reqs m' = _partial_hit_reqs m;
  tr_cached : num_cached_block m' = num_cached_block m;
  tr_pending : _pending_cow_copies m' = _pending_cow_copies m;
}.

Lemma cut_trimmed p m s' lo hi np processed :
  cut (mkGroup p m) id lo hi s' →
  (∀ t, 0 ≤ t → still_read (mgr_kind m) np processed t →
     table (g_mgr s') id !! Z.to_nat (t / block_size m) = table m id !! Z.to_nat (t / block_size m)) →
  trimmed (null_block p) np processed m (g_mgr s').
Proof using. by intros (_ & _ & ? & _ & ? & ? & ? & _ & ? & ?) ?. Qed.

Lemma coord_trim F c l (processed np : Z) :
  coord_inv F c l → 0 ≤ processed → 0 ≤ np →
  (∀ i m, single_type_managers c !! i = Some m → is_attention (mgr_kind m) = true
     ∧ kind_ok (mgr_kind m) ∧ _partial_hit_reqs m !! id = None) →
  wp (coord_remove_skipped_blocks id processed (Some np))
    (λ _ c', ∃ l', coord_inv F c' l' ∧ same_coord c c' ∧ (coord_reg c → coord_reg c')
       ∧ ∀ i m m', single_type_managers c !! i = Some m → single_type_managers c' !! i = Some m' →
           trimmed (null_block (block_pool c)) np processed m m') c.
Proof using.
  intros H Hpr Hnp Hg. unfold coord_remove_skipped_blocks. apply wp_bind. eapply wp_mono.
  { apply (each_manager_keep F c l _ (λ _ m _ m', trimmed (null_block (block_pool c)) np processed m m') H).
    intros i m p l' G Hi Hc HG. destruct (Hg i m Hi) as (Hatt & Hk & Hph).
    assert (null_block p = null_block (block_pool c)) as <- by apply Hc.
    pose proof (gi_bsz _ _ _ HG) as Hb. simpl in Hb.
    assert (∃ lo hi, wp (remove_skipped_blocks id processed (Some np))
      (λ _ s', ∃ l'', group_inv G s' l'' ∧ cut (mkGroup p m) id lo hi s'
         ∧ trimmed (null_block p) np processed m (g_mgr s')) (mkGroup p m)) as (lo & hi & Hwp).
    { assert ((∃ w, mgr_kind m = RSWASpec w) ∨ ¬ ∃ w, mgr_kind m = RSWASpec w) as [[w Ek]|Hn]
        by (destruct (mgr_kind m); [right|left|right..]; naive_solver).
      - do 2 eexists. eapply wp_mono; [by apply (remove_gap_spec G (mkGroup p m) l' id processed np w)|].
        simpl. intros _ s' (l'' & Hg' & Hcut). exists l''. split_and!; [done..|].
        eapply cut_trimmed; [done|]. intros t Ht. rewrite Ek. simpl. intros Hin.
        by apply (cut_gap (mkGroup p m) id processed np w t s').
      - do 2 eexists. eapply wp_mono; [apply (remove_skipped_spec G (mkGroup p m) l' id processed (Some np));
          try done; intros w Ew; simpl in Ew; by destruct Hn; eexists|].
        simpl. intros _ s' (l'' & Hg' & Hcut). exists l''. split_and!; [done..|].
        eapply cut_trimmed; [done|]. intros t Ht Hin. apply (cut_window (mkGroup p m) id processed t s'); try done.
        simpl. unfold still_read in Hin. by destruct (mgr_kind m). }
    eapply wp_mono; [exact Hwp|]. simpl. intros _ s' (l'' & Hg' & Hcut & Htr). exists l''. split_and!; try done.
    - apply Hcut.
    - by apply (advance_cut G (mkGroup p m) l' id lo hi s'). }
  simpl. intros xs c' (l' & ? & ? & ? & HP). wp_steps. exists l'. split_and!; try done.
  intros i m m' Hm Hm'. by destruct (HP i m m' Hm Hm') as (_ & _ & ?).
Qed.
End trim.

(** ** Releasing a request *)

Lemma coord_release F c l id :
  coord_inv F c l →
  wp (coord_free id)
    (λ _ c', ∃ l', coord_inv F c' l' ∧ same_coord c c' ∧ (coord_reg c → coord_reg c')
       ∧ ∀ i m m', single_type_managers c !! i = Some m → single_type_managers c' !! i = Some m' →
           req_to_blocks m' = delete id (req_to_blocks m)
           ∧ num_cached_block m' = delete id (num_cached_block m)
           ∧ _partial_hit_reqs m' = delete id (_partial_hit_reqs m)
           ∧ _pending_cow_copies m' = _pending_cow_copies m) c.
Proof.
  intros H. unfold coord_free. apply wp_bind. eapply wp_mono.
  { apply (each_manager_keep F c l _ (λ _ m _ m', req_to_blocks m' = delete id (req_to_blocks m)
      ∧ num_cached_block m' = delete id (num_cached_block m)
      ∧ _partial_hit_reqs m' = delete id (_partial_hit_reqs m)
      ∧ _pending_cow_copies m' = _pending_cow_copies m) H).
    intros i m p l' G Hi Hc HG. eapply wp_mono; [by apply (free_spec G (mkGroup p m) l' id)|].
    simpl. intros _ s' (Hfg & Hc' & Hh & HG'). eexists. split_and!; [exact HG'|done| |apply Hfg..].
    by apply (advance_forgot (mkGroup p m) id l' s'). }
  simpl. intros xs c' (l' & ? & ? & ? & HP). wp_steps. exists l'. split_and!; try done.
  intros i m m' Hm Hm'. by destruct (HP i m m' Hm Hm') as (_ & _ & ?).
Qed.

(** ** Registering full blocks *)

Section register.
Context (sha256 : bytes → bytes) (use_int : bool).
Implicit Types (c : Coordinator) (m : Manager) (F : ref → Z) (l : list ref) (request : Request).

(** The tables stay, the blocks of the request are registered up to [n]. *)
Definition same_tables (rid : string) m m' : Prop :=
  (∀ id, table m' id = table m id) ∧ _partial_hit_reqs m' = _partial_hit_reqs m
  ∧ keeps_counts rid m m' ∧ _pending_cow_copies m' = _pending_cow_copies m.

Lemma register_all F c l request (tk : Manager → Z) ri :
  coord_inv F c l → coord_reg c →
  (∀ m m', static m' = static m → tk m' = tk m) →
  (∀ i m, single_type_managers c !! i = Some m →
     register_cfg (block_pool c) m ∧ registrable (block_pool c) m request (tk m)) →
  wp (each_manager (λ _, m ← self (λ m, m); cache_blocks sha256 use_int request (tk m) ri))
    (λ _ c', coord_inv F c' l ∧ same_coord c c' ∧ coord_reg c'
       ∧ ∀ i m m', single_type_managers c !! i = Some m → single_type_managers c' !! i = Some m' →
           same_tables (request_id request) m m') c.
Proof using.
  intros H Hr Htk Hg. set (n := length (single_type_managers c)).
  eapply wp_mono.
  { apply (each_manager_ind _ (λ k xs c1, coord_inv F c1 l ∧ same_coord c c1 ∧ coord_reg c1
      ∧ progress (λ _ m (_ : unit) m', same_tables (request_id request) m m') c k xs c1)).
    - split; [done|]. split; [done|]. split; [done|]. split; [done|]. split; [|done].
      intros i m m1 Hi. lia.
    - intros k xs c1 Hk (H1 & Hs1 & Hr1 & Hp1). fold n in Hk.
      destruct (lookup_lt_is_Some_2 (single_type_managers c) k) as [m Hm]; [done|].
      assert (single_type_managers c1 !! k = Some m) as Hm1.
      { destruct Hp1 as (_ & _ & ->); [done|lia]. }
      destruct (Hg k m Hm) as [Hcfg [R1 R2 R3]].
      assert (same_conf (block_pool c) (block_pool c1)) as Hc by apply Hs1.
      eapply wp_mono.
      { eapply (wp_on_manager F c1 l k m _
          (λ _ s' l', l' = l ∧ registers (block_pool c1) m (request_id request) (tk m / block_size m)
             (g_pool s') (g_mgr s')) H1 Hm1).
        unfold self. wp_steps. simpl.
        eapply wp_mono; [apply (cache_blocks_spec sha256 use_int _ (mkGroup (block_pool c1) m) l request (tk m) ri
          (coord_group _ _ _ _ _ H1 Hm1)); simpl|].
        - by eapply register_cfg_static.
        - split; [done|done|]. by assert (hash_block_size (block_pool c1) = hash_block_size (block_pool c)) as -> by apply Hc.
        - intros j j' b Hb U1 U2. by apply (ro_unique _ _ Hr1 k m k m _ j _ j' b Hm1 Hm1 Hb U1 U2).
        - intros j b Hb U. by eapply (ro_unreg _ _ Hr1).
        - by eapply (ro_count _ _ Hr1).
        - simpl. intros u s' (? & ? & ?). exists l. split_and!; done. }
      simpl. intros a c2 (s' & l2 & H2 & Hs2 & (-> & Hreg) & Ep & Em).
      split; [done|]. split; [by etrans|]. split.
      + unfold coord_reg. rewrite Ep, Em. eapply reg_ok_registers; [exact Hr1|done| |exact Hreg].
        rewrite <-Ep. apply Hs2.
      + eapply progress_step; [done..| |exact Em]. split; [apply Hreg|]. split; [apply Hreg|]. split; apply Hreg. }
  simpl. intros xs c' (? & ? & ? & (_ & Hp & _)). split_and!; try done.
  intros i m m' Hm Hm'. destruct (Hp i m m') as (_ & _ & ?); [by eapply lookup_lt_Some|done..].
Qed.

(** What a coordinator registers of [n] computed tokens. *)
Definition tokens_to_cache c m (n : Z) : Z :=
  if decide (coord_kind c = HybridKVCacheCoordinator) then hybrid_tokens_to_cache c m n
  else Z.max 0 (n - num_reprefillable_tokens c).

Lemma tokens_to_cache_le c m n :
  0 ≤ n → 0 ≤ num_reprefillable_tokens c → 0 < coord_scheduler_block_size c → 0 ≤ block_size m →
  0 ≤ tokens_to_cache c m n ≤ n.
Proof using.
  intros Hn Hr Hs Hb. unfold tokens_to_cache. case_decide; [|lia].
  assert (∀ x, 0 ≤ x → 0 ≤ _align_cacheable c x ≤ x) as Hal.
  { intros x Hx. unfold _align_cacheable. destruct (enable_partial_hash_hits c); [lia|].
    unfold round_down. pose proof (Z.mul_div_le x (coord_scheduler_block_size c) Hs).
    pose proof (Z.div_pos x (coord_scheduler_block_size c) Hx Hs). nia. }
  unfold hybrid_tokens_to_cache. pose proof (Hal n Hn).
  pose proof (Hal (Z.max 0 (n - num_reprefillable_tokens c)) ltac:(lia)).
  destruct (use_eagle m && _); lia.
Qed.

Lemma coord_register F c l request (n : Z) :
  coord_inv F c l → coord_reg c → 0 ≤ n → 0 ≤ num_reprefillable_tokens c →
  0 < coord_scheduler_block_size c → n / hash_block_size (block_pool c) ≤ zlen (block_hashes request) →
  (∀ i m, single_type_managers c !! i = Some m →
     register_cfg (block_pool c) m ∧ n / block_size m ≤ zlen (table m (request_id request))) →
  wp (coord_cache_blocks sha256 use_int request n)
    (λ _ c', coord_inv F c' l ∧ same_coord c c' ∧ coord_reg c'
       ∧ ∀ i m m', single_type_managers c !! i = Some m → single_type_managers c' !! i = Some m' →
           same_tables (request_id request) m m') c.
Proof using.
  intros H Hr Hn Hre Hs Hh Hg. unfold coord_cache_blocks. wp_steps. simpl.
  eapply wp_mono; [apply (register_all F c l request (λ m, tokens_to_cache c m n) (retention_interval c) H Hr)|].
  - intros m m' Hst. unfold static in Hst. injection Hst as _ _ Eb _ _ _ _ Ee.
    unfold tokens_to_cache, hybrid_tokens_to_cache. by rewrite Eb, Ee.
  - intros i m Hm. destruct (Hg i m Hm) as [Hcfg Ht]. split; [done|].
    pose proof (rc_bsz _ _ Hcfg). pose proof (rc_hbs _ _ Hcfg).
    pose proof (tokens_to_cache_le c m n Hn Hre Hs ltac:(lia)) as [Hnn Hle]. split; [done|..].
    + etrans; [|exact Ht]. by apply Z.div_le_mono.
    + etrans; [|exact Hh]. by apply Z.div_le_mono.
  - simpl. intros _ c' ?. by wp_steps.
Qed.
End register.
