(* ===== verification/CommonHitFacts.v ===== *)
(** The fixed-point search for a hit that holds in every group
    ([HybridKVCacheCoordinator.find_longest_cache_hit]): it terminates, every group accepts the
    length it returns, and no longer length is accepted by all groups.  The proof uses the
    searches of the groups only through [search_laws]. *)

From S2P Require Import Prelude MathUtils Request BlockHash BlockHashFacts FreeQueue.
From S2P Require Import FreeQueueFacts BlockPool BlockPoolFacts BlockPoolSpec BlockPoolTheorems.
From S2P Require Import Managers ManagerFacts HitFacts WindowFacts SearchFacts Coordinator.

Set Warnings "-level-tolerance,-clear-no-such-hyp".

Lemma concat_unique {A} (ls : list (list A)) i j l l' x :
  NoDup (concat ls) → ls !! i = Some l → ls !! j = Some l' → x ∈ l → x ∈ l' → i = j.
Proof.
  revert i j. induction ls as [|k ls IH]; intros i j Hnd Hi Hj Hx Hx'; [done|].
  simpl in Hnd. apply NoDup_app in Hnd as (_ & Hdis & Hnd).
  assert (∀ n m, ls !! n = Some m → x ∈ m → x ∈ concat ls) as Hin.
  { intros n m Hn Hm. apply list_elem_of_In, in_concat. exists m.
    rewrite <-!list_elem_of_In. split; [by eapply list_elem_of_lookup_2|done]. }
  destruct i as [|i], j as [|j]; simplify_eq/=; [done|..].
  - exfalso. eapply Hdis; [exact Hx|]. by eapply Hin.
  - exfalso. eapply Hdis; [exact Hx'|]. by eapply Hin.
  - f_equal. by eapply IH.
Qed.

(** ** Storing the hits of a group *)

Section store.
Implicit Types (st : HitSearch) (gids : list Z) (cols : list (list ref)).

(** The arrays of the search have one entry per group. *)
Definition sized (num : nat) st : Prop :=
  length (hit_blocks_by_group st) = num ∧ length (hit_length_by_group st) = num.

Definition in_range (num : nat) gids : Prop := Forall (λ g, 0 ≤ g < Z.of_nat num) gids.

Definition slot st (gid : Z) : option (option (list ref)) * option Z :=
  (hit_blocks_by_group st !! Z.to_nat gid, hit_length_by_group st !! Z.to_nat gid).

Lemma store_hits_spec num gids cols len st :
  NoDup gids → in_range num gids → length cols = length gids → sized num st →
  let st' := store_hits gids cols len st in
  curr_hit_length st' = curr_hit_length st ∧ longest_hit_length st' = longest_hit_length st
  ∧ sized num st'
  ∧ (∀ j gid col, gids !! j = Some gid → cols !! j = Some col →
       slot st' gid = (Some (Some col), Some len))
  ∧ (∀ gid, 0 ≤ gid → gid ∉ gids → slot st' gid = slot st gid).
Proof using.
  unfold store_hits. revert cols st. induction gids as [|g gids IH]; intros cols st Hnd Hr Hlen Hsz; simpl.
  { split_and!; try done. }
  destruct cols as [|col cols]; [done|]. simpl in *.
  apply NoDup_cons in Hnd as [Hg Hnd]. apply Forall_cons in Hr as [Hg0 Hr].
  destruct (IH cols (mkSearch (curr_hit_length st) (longest_hit_length st)
      (<[Z.to_nat g := Some col]> (hit_blocks_by_group st))
      (<[Z.to_nat g := len]> (hit_length_by_group st)) (eagle_verified st)))
    as (E1 & E2 & E3 & E4 & E5); [done|done|lia|by split; simpl; rewrite length_insert; apply Hsz|].
  split_and!; try done.
  - intros [|j] gid c Hj Hc; simplify_eq/=; [|by eapply E4].
    rewrite E5 by (lia || done). unfold slot. simpl. destruct Hsz.
    rewrite !list_lookup_insert_eq by lia. done.
  - intros gid Hgid Hnot. rewrite E5 by (done || set_solver). unfold slot. simpl.
    rewrite !list_lookup_insert_ne; [done|..]; intros E; apply Hnot; assert (gid = g) as -> by lia; left.
Qed.

Lemma truncate_hits_spec num gids (n : Z) (hits : list (option (list ref))) :
  NoDup gids → in_range num gids → length hits = num →
  length (truncate_hits n gids hits) = num
  ∧ (∀ gid, gid ∈ gids → truncate_hits n gids hits !! Z.to_nat gid
       = fmap (take (Z.to_nat n)) <$> hits !! Z.to_nat gid)
  ∧ (∀ gid, 0 ≤ gid → gid ∉ gids → truncate_hits n gids hits !! Z.to_nat gid = hits !! Z.to_nat gid).
Proof using.
  unfold truncate_hits. revert hits. induction gids as [|g gids IH]; intros hits Hnd Hr Hlen; simpl.
  { split_and!; try done. by intros gid ?%elem_of_nil. }
  apply NoDup_cons in Hnd as [Hg Hnd]. apply Forall_cons in Hr as [Hg0 Hr].
  assert (∀ gid, 0 ≤ gid → gid ≠ g → Z.to_nat gid ≠ Z.to_nat g) as Hne by lia.
  destruct (IH (alter (fmap (take (Z.to_nat n))) (Z.to_nat g) hits)) as (E1 & E2 & E3);
    [done|done|by rewrite length_alter|].
  split_and!; [done| |].
  - intros gid [->|Hin]%elem_of_cons.
    + rewrite E3 by (done || lia). apply list_lookup_alter_eq.
    + rewrite E2 by done. rewrite list_lookup_alter_ne; [done|]. apply not_eq_sym, Hne.
      * by apply (proj1 (Forall_forall _ _) Hr).
      * by intros ->.
  - intros gid Hgid Hnot. rewrite E3 by (done || set_solver). apply list_lookup_alter_ne.
    apply not_eq_sym, Hne; [done|]. set_solver.
Qed.
End store.

(** ** The search *)

Section search.
Context (p : BlockPool) (c : Coordinator) (hashes : list bytes) (limit : Z).
Context (okg : SpecGroup → Z → Prop) (shapeg : SpecGroup → Hit → Prop).

#[local] Abbreviation groups := (attention_groups c).
#[local] Abbreviation num := (length (kv_cache_groups (coord_config c))).
#[local] Abbreviation al := (_cache_hit_alignment_tokens c).

(** The configuration the search runs on: the groups partition the group ids, their searches
    obey the interface, full-attention hits can be trimmed, no group is an EAGLE group. *)
Record hybrid_ok : Prop := {
  hy_limit : 0 ≤ limit;
  hy_ids : NoDup (concat (sg_group_ids <$> groups));
  hy_nonempty : ∀ g, g ∈ groups → sg_group_ids g ≠ [];
  hy_range : ∀ g, g ∈ groups → in_range num (sg_group_ids g);
  hy_managers : length (single_type_managers c) = num;
  hy_eagle : ∀ g, g ∈ groups → sg_use_eagle g = false;
  hy_laws : ∀ g, g ∈ groups →
    search_laws p limit al (length (sg_group_ids g))
      (λ n, find_longest_cache_hit (sg_spec g) (RawHashes hashes) n (sg_group_ids g) false al
              (if is_full_attention (sg_spec g) then coord_dcp_world_size c else 1) 1)
      (okg g) (shapeg g);
  hy_trim : ∀ g gid m, g ∈ groups → is_full_attention (sg_spec g) = true →
    head (sg_group_ids g) = Some gid → single_type_managers c !! Z.to_nat gid = Some m →
    0 < block_size m ∧ trimmable al (block_size m) (okg g) (shapeg g);
}.
Context (Hok : hybrid_ok).

Lemma groups_disjoint g g' gid :
  g ∈ groups → g' ∈ groups → gid ∈ sg_group_ids g → gid ∈ sg_group_ids g' → g = g'.
Proof using Hok.
  intros [i Hi]%list_elem_of_lookup [j Hj]%list_elem_of_lookup Hg Hg'.
  assert (i = j) as ->; [|congruence].
  eapply concat_unique; [apply Hok|..|exact Hg|exact Hg']; by rewrite list_lookup_fmap, ?Hi, ?Hj.
Qed.

Lemma group_ids_nodup g : g ∈ groups → NoDup (sg_group_ids g).
Proof using Hok.
  intros Hg. pose proof (hy_ids Hok) as Hnd. induction groups as [|g0 gs IH]; [by apply elem_of_nil in Hg|].
  simpl in Hnd. apply NoDup_app in Hnd as (Hnd0 & _ & Hnd).
  apply elem_of_cons in Hg as [->|Hg]; [done|by apply IH].
Qed.

(** [g] holds a hit of [n] tokens. *)
Record have (st : HitSearch) (g : SpecGroup) (n : Z) (cols : list (list ref)) : Prop := {
  hv_len : length cols = length (sg_group_ids g);
  hv_slot : ∀ j gid col, sg_group_ids g !! j = Some gid → cols !! j = Some col →
    slot st gid = (Some (Some col), Some n);
  hv_ok : okg g n;
  hv_shape : shapeg g (cols, n);
  hv_limit : 0 ≤ n ≤ limit;
  hv_max : ∀ len, len ≤ curr_hit_length st → okg g len → len ≤ n;
  hv_longest : n ≤ longest_hit_length st;
}.
Definition fresh (st : HitSearch) (g : SpecGroup) : Prop :=
  ∀ gid, gid ∈ sg_group_ids g → slot st gid = (Some None, Some 0).

Record search_inv (st : HitSearch) : Prop := {
  si_sized : sized num st;
  si_curr : 0 ≤ curr_hit_length st ≤ limit;
  si_aligned : curr_hit_length st = limit ∨ (al | curr_hit_length st);
  si_groups : ∀ g, g ∈ groups → fresh st g ∨ ∃ n cols, have st g n cols;
}.

(** The state after a group accepted [curr_hit_length st']. *)
Record visited (g : SpecGroup) (st st' : HitSearch) : Prop := {
  vi_inv : search_inv st';
  vi_le : curr_hit_length st' ≤ curr_hit_length st;
  vi_ok : okg g (curr_hit_length st');
  vi_have : ∃ n cols, have st' g n cols ∧ curr_hit_length st' ≤ n
    ∧ (is_full_attention (sg_spec g) = false → n = curr_hit_length st');
  vi_other : ∀ g' n cols, g' ∈ groups → g' ≠ g → have st g' n cols → have st' g' n cols;
  vi_max : ∀ len, len ≤ curr_hit_length st → okg g len → len ≤ curr_hit_length st';
}.

Lemma head_group g : g ∈ groups → ∃ gid m, head (sg_group_ids g) = Some gid
  ∧ sg_group_ids g !! 0%nat = Some gid ∧ single_type_managers c !! Z.to_nat gid = Some m.
Proof using Hok.
  intros Hg. pose proof (hy_nonempty Hok g Hg) as Hne. pose proof (hy_range Hok g Hg) as Hr.
  destruct (sg_group_ids g) as [|gid gids]; [done|]. apply Forall_cons in Hr as [Hr _].
  destruct (lookup_lt_is_Some_2 (single_type_managers c) (Z.to_nat gid)) as [m Hm].
  { rewrite (hy_managers Hok). lia. }
  by exists gid, m.
Qed.

(** Lowering the candidate keeps what the groups hold. *)
Lemma have_lower st g n cols (v longest : Z) ver :
  have st g n cols → v ≤ curr_hit_length st → longest_hit_length st ≤ longest →
  have (mkSearch v longest (hit_blocks_by_group st) (hit_length_by_group st) ver) g n cols.
Proof using.
  intros [H1 H2 H3 H4 H5 H6 H7] Hv Hl. split; try done; simpl; [|lia].
  intros len Hlen. apply H6. lia.
Qed.

(** Full attention, after the first round: trim the stored hit. *)
Lemma visit_trim g st n cols :
  g ∈ groups → is_full_attention (sg_spec g) = true → search_inv st → have st g n cols →
  visited g st (mkSearch (Z.min (curr_hit_length st) n) (longest_hit_length st)
    (hit_blocks_by_group st) (hit_length_by_group st) (eagle_verified st)).
Proof using Hok.
  intros Hg Hf [Hsz Hc Ha Hgr] Hv. destruct (head_group g Hg) as (gid & m & Hh & _ & Hm).
  destruct (hy_trim Hok g gid m Hg Hf Hh Hm) as [Hb [Htrim]].
  pose proof (hv_limit _ _ _ _ Hv) as Hn.
  assert (okg g (Z.min (curr_hit_length st) n)) as Hok'.
  { destruct (Z.min_spec (curr_hit_length st) n) as [[Hlt ->]|[_ ->]]; [|apply Hv].
    destruct Ha as [Ha|Ha]; [lia|].
    apply (Htrim cols n); [apply Hv|apply Hv|done|lia]. }
  assert (∀ g' n' cols', have st g' n' cols' → have (mkSearch (Z.min (curr_hit_length st) n)
    (longest_hit_length st) (hit_blocks_by_group st) (hit_length_by_group st) (eagle_verified st)) g' n' cols') as Hkeep.
  { intros. apply have_lower; [done|lia|done]. }
  split; simpl; [|lia|done| | |].
  - split; simpl; [done|lia|right; by apply (sl_aligned _ _ _ _ _ _ _ (hy_laws Hok g Hg))|].
    intros g' Hg'. destruct (Hgr g' Hg') as [?|(n' & cols' & Hv')]; [by left|right; eauto].
  - exists n, cols. split_and!; [by apply Hkeep|lia|congruence].
  - intros g' n' cols' _ _. apply Hkeep.
  - intros len Hlen Hl. apply Z.min_glb; [done|]. by apply (hv_max _ _ _ _ Hv).
Qed.

(** A search. *)
Lemma visit_search g st res ver :
  g ∈ groups → search_inv st →
  0 ≤ res.2 ≤ curr_hit_length st → length res.1 = length (sg_group_ids g) → okg g res.2 →
  shapeg g res → (∀ len, len ≤ curr_hit_length st → okg g len → len ≤ res.2) →
  visited g st (store_hits (sg_group_ids g) res.1 res.2
    (mkSearch res.2 (Z.max (longest_hit_length st) res.2) (hit_blocks_by_group st)
       (hit_length_by_group st) ver)).
Proof using Hok.
  intros Hg [Hsz Hc Ha Hgr] Hres Hlen Hok' Hsh Hmax. destruct res as [cols n]. simpl in *.
  set (st1 := mkSearch n (Z.max (longest_hit_length st) n) (hit_blocks_by_group st)
       (hit_length_by_group st) ver).
  destruct (store_hits_spec num (sg_group_ids g) cols n st1 (group_ids_nodup g Hg) (hy_range Hok g Hg) Hlen Hsz)
    as (E1 & E2 & E3 & E4 & E5). set (st' := store_hits _ _ _ _) in *. simpl in E1, E2.
  assert (∀ g' gid, g' ∈ groups → g' ≠ g → gid ∈ sg_group_ids g' → slot st' gid = slot st gid) as Hslot.
  { intros g' gid Hg' Hne Hin. rewrite E5; [done| |].
    - by apply (proj1 (Forall_forall _ _) (hy_range Hok g' Hg')).
    - intros Hin'. apply Hne. by eapply groups_disjoint. }
  assert (∀ g' n' cols', g' ∈ groups → g' ≠ g → have st g' n' cols' → have st' g' n' cols') as Hkeep.
  { intros g' n' cols' Hg' Hne [H1 H2 H3 H4 H5 H6 H7]. split; try done.
    - intros j gid col Hj Hcol. rewrite (Hslot g') by (done || by eapply list_elem_of_lookup_2). by eapply H2.
    - intros len. rewrite E1. intros Hl. apply H6. lia.
    - rewrite E2. lia. }
  assert (have st' g n cols) as Hnew.
  { split; try done.
    - lia.
    - intros len. by rewrite E1.
    - rewrite E2. lia. }
  split; rewrite ?E1; try done; [|lia|by exists n, cols].
  split; rewrite ?E1; [done|lia|right; by apply (sl_aligned _ _ _ _ _ _ _ (hy_laws Hok g Hg))|].
  intros g' Hg'. destruct (decide (g' = g)) as [->|Hne]; [right; eauto|].
  destruct (Hgr g' Hg') as [Hf|(n' & cols' & Hv)]; [left|right; eauto].
  intros gid Hgid. rewrite (Hslot g') by done. by apply Hf.
Qed.

Lemma visit_group_spec idx g st :
  g ∈ groups → search_inv st →
  wp (visit_group c hashes limit idx g st) (λ st' p', p' = p ∧ visited g st st') p.
Proof using Hok.
  intros Hg Hinv. destruct (head_group g Hg) as (gid & m & Hh & H0 & Hm).
  unfold visit_group. wp_steps. rewrite Hh. eapply wp_lift_option; [done|]. wp_steps.
  rewrite Hm. eapply wp_lift_option; [done|]. wp_steps.
  assert (∃ ob n, slot st gid = (Some ob, Some n)
    ∧ match ob with
      | Some _ => ∃ cols, have st g n cols
      | None => True
      end) as (ob & n & Hslot & Hob).
  { destruct (si_groups _ Hinv g Hg) as [Hf|(n & cols & Hv)].
    - exists None, 0. split; [|done]. apply Hf. by eapply list_elem_of_lookup_2.
    - destruct (lookup_lt_is_Some_2 cols 0) as [col Hcol].
      { rewrite (hv_len _ _ _ _ Hv). by eapply lookup_lt_Some. }
      exists (Some col), n. split; [by eapply hv_slot|eauto]. }
  unfold slot in Hslot. injection Hslot as -> ->.
  eapply wp_lift_option; [done|]. wp_steps. eapply wp_lift_option; [done|].
  destruct (is_full_attention (sg_spec g) && bool_decide (is_Some ob)) eqn:E.
  - bool_hyps. destruct ob as [?|]; [|by destruct H1 as [? ?]]. destruct Hob as [cols Hv].
    wp_steps. split; [done|]. by eapply visit_trim.
  - rewrite (hy_eagle Hok g Hg). simpl. apply wp_bind.
    eapply wp_mono; [apply (sl_find _ _ _ _ _ _ _ (hy_laws Hok g Hg)); apply Hinv|].
    simpl. intros res p' (-> & ? & ? & ? & ? & ?).
    destruct res as [cols n'] eqn:Er. wp_steps. split; [done|].
    apply (visit_search g st (cols, n')); done.
Qed.

(** A pass over the groups [gs]. *)
Record pass (gs : list SpecGroup) (st st' : HitSearch) : Prop := {
  pa_inv : search_inv st';
  pa_le : curr_hit_length st' ≤ curr_hit_length st;
  pa_aligned : gs = [] ∨ (al | curr_hit_length st');
  pa_have : ∀ g, g ∈ gs → ∃ v n cols, curr_hit_length st' ≤ v ≤ curr_hit_length st ∧ okg g v
    ∧ have st' g n cols ∧ v ≤ n ∧ (is_full_attention (sg_spec g) = false → n = v);
  pa_other : ∀ g n cols, g ∈ groups → g ∉ gs → have st g n cols → have st' g n cols;
  pa_max : ∀ len, len ≤ curr_hit_length st → (∀ g, g ∈ gs → okg g len) → len ≤ curr_hit_length st';
  pa_last : ∀ g, last gs = Some g → okg g (curr_hit_length st') ∧ ∃ n cols, have st' g n cols
    ∧ (is_full_attention (sg_spec g) = false → n = curr_hit_length st');
}.

Lemma visit_groups_spec gs idx st :
  gs ⊆ groups → NoDup gs → search_inv st →
  wp (visit_groups c hashes limit idx gs st) (λ st' p', p' = p ∧ pass gs st st') p.
Proof using Hok.
  revert idx st. induction gs as [|g gs IH]; intros idx st Hsub Hnd Hinv; simpl.
  { wp_steps. split; [done|]. split; try done; [by left|]. by intros g ?%elem_of_nil. }
  apply NoDup_cons in Hnd as [Hng Hnd]. assert (g ∈ groups) as Hg by (apply Hsub; left).
  apply wp_bind. eapply wp_mono; [by apply visit_group_spec|].
  intros st1 p1 (-> & [V1 V2 V3 (n & cols & V4 & V4' & V4'') V5 V6]).
  eapply wp_mono; [apply IH; [intros x Hx; apply Hsub; by right|done|done]|].
  intros st2 p2 (-> & [P1 P2 P3 P4 P5 P6 P7]). split; [done|].
  assert (gs = [] → curr_hit_length st2 = curr_hit_length st1) as Hnil.
  { intros ->. apply Z.le_antisymm; [done|]. apply P6; [done|]. by intros g' ?%elem_of_nil. }
  split.
  - done.
  - lia.
  - right. destruct P3 as [E|?]; [|done].
    apply (sl_aligned _ _ _ _ _ _ _ (hy_laws Hok g Hg)). by rewrite (Hnil E).
  - intros g' [->|Hg']%elem_of_cons.
    + exists (curr_hit_length st1), n, cols. split_and!; try done. by apply P5.
    + destruct (P4 g' Hg') as (v & n' & cols' & Hv & ? & ? & ? & ?). exists v, n', cols'.
      split_and!; try done; lia.
  - intros g' n' cols' Hg' Hnin Hh. apply not_elem_of_cons in Hnin as [Hne Hnin].
    apply P5; [done..|]. by apply V5.
  - intros len Hlen Hall. apply P6; [apply V6; [done|apply Hall; left]|].
    intros g' Hg'. apply Hall. by right.
  - intros g' Hlast. destruct gs as [|g1 gs]; [|by apply P7].
    simplify_eq/=. rewrite (Hnil eq_refl). split; [done|]. exists n, cols. split; [|done].
    apply P5; [done|by apply not_elem_of_nil|done].
Qed.

Lemma groups_nodup : NoDup groups.
Proof using Hok.
  pose proof (hy_ids Hok) as Hnd. pose proof (hy_nonempty Hok) as Hne.
  induction groups as [|g gs IH]; [constructor|]. simpl in Hnd.
  apply NoDup_app in Hnd as (_ & Hdis & Hnd). constructor.
  - intros Hin. pose proof (Hne g (list_elem_of_here _ _)) as Hg.
    destruct (sg_group_ids g) as [|x xs] eqn:E; [done|]. apply (Hdis x); [left|].
    apply list_elem_of_In, in_concat. exists (sg_group_ids g).
    rewrite <-!list_elem_of_In. split; [by apply list_elem_of_fmap_2|rewrite E; left].
  - apply IH; [done|]. intros g' Hg'. apply Hne. by right.
Qed.

(** What the loop returns: every group accepts the length and holds at least that much. *)
Record common_hit (hit : Z) (st : HitSearch) : Prop := {
  ch_range : 0 ≤ hit ≤ limit;
  ch_sized : sized num st;
  ch_longest : hit ≤ longest_hit_length st;
  ch_groups : ∀ g, g ∈ groups → okg g hit ∧ ∃ n cols, have st g n cols ∧ hit ≤ n
    ∧ (is_full_attention (sg_spec g) = false → n = hit);
  ch_max : ∀ len, len ≤ limit → (∀ g, g ∈ groups → okg g len) → len ≤ hit;
}.

(** The pass left the candidate as it was. *)
Lemma pass_stable hit st st' :
  groups ≠ [] → pass groups st st' → curr_hit_length st = hit → hit ≤ curr_hit_length st' →
  (∀ len, len ≤ limit → (∀ g, g ∈ groups → okg g len) → len ≤ hit) → search_inv st →
  common_hit hit st'.
Proof using Hok.
  intros Hne [P1 P2 P3 P4 P5 P6 _] <- Hge Hmax Hinv.
  assert (∀ g, g ∈ groups → okg g (curr_hit_length st) ∧ ∃ n cols, have st' g n cols
    ∧ curr_hit_length st ≤ n ∧ (is_full_attention (sg_spec g) = false → n = curr_hit_length st)) as Hall.
  { intros g Hg. destruct (P4 g Hg) as (v & n & cols & Hv & Hokv & Hh & Hvn & Hn).
    assert (v = curr_hit_length st) as -> by lia. split; [done|]. by exists n, cols. }
  split; try done; [apply Hinv|apply P1|].
  destruct groups as [|g gs]; [done|]. destruct (Hall g) as [_ (n & cols & Hh & Hn & _)]; [left|].
  pose proof (hv_longest _ _ _ _ Hh). lia.
Qed.

(** The short cut for one full-attention and one other group. *)
Lemma pass_simple hit st st' :
  is_simple_hybrid c = true → (∀ g g', groups = [g; g'] → is_full_attention (sg_spec g') = false) →
  pass groups st st' → curr_hit_length st = hit →
  (∀ len, len ≤ limit → (∀ g, g ∈ groups → okg g len) → len ≤ hit) →
  common_hit (curr_hit_length st') st'.
Proof using Hok.
  intros Hs Hother [P1 P2 P3 P4 P5 P6 P7] <- Hmax. unfold is_simple_hybrid in Hs.
  destruct groups as [|g [|g' [|]]] eqn:Eg; try done. specialize (Hother g g' eq_refl).
  assert (g ∈ groups ∧ g' ∈ groups) as [Hg Hg'] by (rewrite Eg; set_solver).
  destruct P3 as [P3|P3]; [done|].
  destruct (P4 g) as (v & n & cols & Hv & Hokv & Hh & Hvn & _); [left|].
  destruct (P7 g' eq_refl) as (Hok2 & n2 & cols2 & Hh2 & Hn2).
  pose proof (si_curr _ P1) as Hc. split; try done.
  - apply P1.
  - rewrite <-(Hn2 Hother). apply Hh2.
  - intros g0 Hg0. rewrite Eg in Hg0. apply elem_of_cons in Hg0 as [->|Hg0].
    + split.
      * destruct (head_group g Hg) as (gid & m & Hhd & _ & Hm).
        destruct (hy_trim Hok g gid m Hg Hs Hhd Hm) as [_ [Htrim]].
        apply (Htrim cols n); [apply Hh|apply Hh|done|lia].
      * exists n, cols. split_and!; [done|lia|congruence].
    + apply elem_of_cons in Hg0 as [->|[]%elem_of_nil].
      split; [done|]. exists n2, cols2. rewrite (Hn2 Hother). split_and!; try done.
      by rewrite <-(Hn2 Hother).
  - intros len Hlen Hall. rewrite Eg in Hall. apply P6; [by apply Hmax|done].
Qed.

(** The candidate [hit] at the start of a round. *)
Lemma fixed_point_spec fuel hit st :
  groups ≠ [] → (∀ g g', groups = [g; g'] → is_full_attention (sg_spec g') = false) →
  (Z.to_nat hit < fuel)%nat → curr_hit_length st = hit → search_inv st →
  (∀ len, len ≤ limit → (∀ g, g ∈ groups → okg g len) → len ≤ hit) →
  wp (fixed_point fuel c hashes limit hit st) (λ res p', p' = p ∧ common_hit res.1 res.2) p.
Proof using Hok.
  intros Hne Hother. revert hit st. induction fuel as [|fuel IH]; intros hit st Hfuel Hhit Hinv Hmax; [lia|].
  simpl. apply wp_bind.
  replace (mkSearch hit _ _ _ _) with st by (by destruct st; simpl in *; subst).
  eapply wp_mono; [by apply visit_groups_spec; [|apply groups_nodup|]|].
  intros st' p' [-> Hp]. pose proof (pa_le _ _ _ Hp). pose proof (si_curr _ (pa_inv _ _ _ Hp)).
  destruct (Z.leb_spec hit (curr_hit_length st')).
  - wp_steps. split; [done|]. by eapply pass_stable.
  - destruct (is_simple_hybrid c) eqn:Es.
    + wp_steps. split; [done|]. by eapply pass_simple.
    + apply IH; [lia|done|apply Hp|]. intros len Hlen Hall. apply (pa_max _ _ _ Hp); [|done].
      rewrite Hhit. by apply Hmax.
Qed.

(** The result of the whole search. *)
Definition common_result (res : list (list ref) * Z * Z) : Prop :=
  let '(blocks, hit, extra) := res in
  length blocks = num ∧ 0 ≤ hit ≤ limit ∧ 0 ≤ extra
  ∧ (∀ g, g ∈ groups → okg g hit ∧ ∃ cols, shapeg g (cols, hit)
       ∧ ∀ j gid, sg_group_ids g !! j = Some gid → blocks !! Z.to_nat gid = cols !! j)
  ∧ (∀ len, len ≤ limit → (∀ g, g ∈ groups → okg g len) → len ≤ hit).

Lemma have_blocks st g n cols j gid :
  have st g n cols → sg_group_ids g !! j = Some gid →
  ∃ col, cols !! j = Some col ∧ hit_blocks_by_group st !! Z.to_nat gid = Some (Some col).
Proof using.
  intros Hh Hj. destruct (lookup_lt_is_Some_2 cols j) as [col Hcol].
  { rewrite (hv_len _ _ _ _ Hh). by eapply lookup_lt_Some. }
  exists col. split; [done|]. pose proof (hv_slot _ _ _ _ Hh j gid col Hj Hcol) as E.
  unfold slot in E. by injection E.
Qed.

(** Trimming the tables of the first group. *)
Lemma trim_result g0 rest gid0 m st hit :
  groups = g0 :: rest → Forall (λ g, is_full_attention (sg_spec g) = false) rest →
  is_full_attention (sg_spec g0) = true → head (sg_group_ids g0) = Some gid0 →
  single_type_managers c !! Z.to_nat gid0 = Some m → common_hit hit st →
  common_result (default [] <$> truncate_hits (cdiv hit (block_size m)) (sg_group_ids g0)
                   (hit_blocks_by_group st), hit, longest_hit_length st - hit).
Proof using Hok.
  intros Eg Hrest Hf Hh Hm [C1 C2 C3 C4 C5].
  assert (g0 ∈ groups) as Hg0 by (rewrite Eg; left).
  destruct (hy_trim Hok g0 gid0 m Hg0 Hf Hh Hm) as [Hb [Htrim]].
  destruct (truncate_hits_spec num (sg_group_ids g0) (cdiv hit (block_size m)) (hit_blocks_by_group st)
    (group_ids_nodup g0 Hg0) (hy_range Hok g0 Hg0) (proj1 C2)) as (T1 & T2 & T3).
  split_and!; [by rewrite length_fmap, T1|lia|lia|lia| |done]. intros g Hg. destruct (C4 g Hg) as (Hokh & n & cols & Hv & Hn & Hnf).
  split; [done|]. destruct (decide (g = g0)) as [->|Hne].
  - exists (take (Z.to_nat (cdiv hit (block_size m))) <$> cols). split.
    + apply (Htrim cols n); [apply Hv|apply Hv| |lia].
      by apply (sl_aligned _ _ _ _ _ _ _ (hy_laws Hok g0 Hg0)).
    + intros j gid Hj. destruct (have_blocks st g0 n cols j gid Hv Hj) as (col & Hcol & Hb').
      rewrite !list_lookup_fmap, Hcol, T2, Hb' by (by eapply list_elem_of_lookup_2). done.
  - assert (is_full_attention (sg_spec g) = false) as Hgf.
    { rewrite Eg in Hg. apply elem_of_cons in Hg as [?|Hg]; [done|].
      by apply (proj1 (Forall_forall _ _) Hrest). }
    rewrite <-(Hnf Hgf). exists cols. split; [apply Hv|].
    intros j gid Hj. destruct (have_blocks st g n cols j gid Hv Hj) as (col & Hcol & Hb').
    pose proof (list_elem_of_lookup_2 _ _ _ Hj) as Hin.
    rewrite list_lookup_fmap, Hcol, (Hnf Hgf), T3, Hb'; [done|..].
    + by apply (proj1 (Forall_forall _ _) (hy_range Hok g Hg)).
    + intros Hin0. apply Hne. by eapply groups_disjoint.
Qed.

Lemma init_search_inv :
  search_inv (mkSearch limit 0 (replicate num None) (replicate num 0) ∅).
Proof using Hok.
  split; simpl.
  - split; simpl; by rewrite length_replicate.
  - pose proof (hy_limit Hok). lia.
  - by left.
  - intros g Hg. left. intros gid Hgid. unfold slot. simpl.
    pose proof (proj1 (Forall_forall _ _) (hy_range Hok g Hg) gid Hgid) as Hr. simpl in Hr.
    by rewrite !lookup_replicate_2 by lia.
Qed.

Lemma hybrid_spec g0 rest :
  groups = g0 :: rest → Forall (λ g, is_full_attention (sg_spec g) = false) rest →
  wp (hybrid_find_longest_cache_hit c hashes limit) (λ res p', p' = p ∧ common_result res) p.
Proof using Hok.
  intros Eg Hrest. pose proof (hy_limit Hok) as Hlim.
  unfold hybrid_find_longest_cache_hit. apply wp_bind. eapply wp_mono.
  { apply fixed_point_spec; [by rewrite Eg| |lia|done|apply init_search_inv|done].
    intros g g' E. rewrite Eg in E. injection E as -> ->. by apply Forall_cons in Hrest as [? _]. }
  intros [hit st] p' [-> Hch]. simpl in Hch. wp_steps. rewrite Eg. eapply wp_lift_option; [done|]. wp_steps.
  assert (g0 ∈ groups) as Hg0 by (rewrite Eg; left).
  destruct (is_full_attention (sg_spec g0)) eqn:Hf.
  - destruct (head_group g0 Hg0) as (gid & m & Hh & _ & Hm). rewrite Hh. wp_steps.
    eapply wp_lift_option; [done|]. wp_steps. rewrite Hm. eapply wp_lift_option; [done|]. wp_steps.
    split; [done|]. by eapply trim_result.
  - wp_steps. split; [done|]. destruct Hch as [C1 C2 C3 C4 C5].
    split_and!; [by rewrite length_fmap, (proj1 C2)|lia|lia|lia| |done]. intros g Hg. destruct (C4 g Hg) as (Hokh & n & cols & Hv & Hn & Hnf).
    assert (is_full_attention (sg_spec g) = false) as Hgf.
    { rewrite Eg in Hg. apply elem_of_cons in Hg as [->|Hg]; [done|].
      by apply (proj1 (Forall_forall _ _) Hrest). }
    split; [done|]. rewrite <-(Hnf Hgf). exists cols. split; [apply Hv|].
    intros j gid Hj. destruct (have_blocks st g n cols j gid Hv Hj) as (col & Hcol & Hb').
    by rewrite list_lookup_fmap, Hcol, Hb'.
Qed.
End search.
