(* ===== verification/CoordinatorTheorems.v ===== *)
(** What the coordinators guarantee: construction splits the groups into a partition;
    admission of a request to all groups cannot fail after its own prediction; and the hybrid
    search returns the longest prefix every group can serve. *)

From S2P Require Import Prelude MathUtils Request BlockHash BlockHashFacts FreeQueue.
From S2P Require Import FreeQueueFacts BlockPool BlockPoolFacts BlockPoolSpec BlockPoolTheorems.
From S2P Require Import Managers ManagerFacts AllocationFacts ReleaseFacts HitFacts WindowFacts.
From S2P Require Import SearchFacts Coordinator CoordinatorFacts CommonHitFacts ManagerTheorems.

Set Warnings "-level-tolerance,-clear-no-such-hyp".

(** ** Splitting the groups *)

Section split.
Implicit Types (g : KVCacheGroupSpec) (sg : SpecGroup) (gs : list SpecGroup) (i : Z).

#[local] Abbreviation ids_of gs := (concat (sg_group_ids <$> gs)).

(** The group ids of [sg] are groups with its spec. *)
Definition spec_group_ok (processed : list (Z * KVCacheGroupSpec)) sg : Prop :=
  sg_group_ids sg ≠ []
  ∧ ∀ i, i ∈ sg_group_ids sg → ∃ g, (i, g) ∈ processed
      ∧ sg_spec sg = group_spec g ∧ sg_layout sg = group_layout g.

Lemma add_group_ids i g eagle gs : ids_of (add_to_spec_group i g eagle gs) ≡ₚ i :: ids_of gs.
Proof using.
  induction gs as [|sg gs IH]; simpl; [done|]. case_bool_decide; simpl.
  - rewrite <-(assoc_L (++)). simpl. by rewrite Permutation_middle.
  - rewrite IH. by rewrite Permutation_middle.
Qed.

Lemma add_group_ok processed i g eagle gs :
  Forall (spec_group_ok processed) gs →
  Forall (spec_group_ok (processed ++ [(i, g)])) (add_to_spec_group i g eagle gs).
Proof using.
  assert (∀ sg, spec_group_ok processed sg → spec_group_ok (processed ++ [(i, g)]) sg) as Hmono.
  { intros sg [Hne H]. split; [done|]. intros j Hj. destruct (H j Hj) as (g' & ? & ?).
    exists g'. split; [|done]. apply elem_of_app. by left. }
  induction 1 as [|sg gs Hsg Hgs IH]; simpl.
  - repeat constructor; simpl; [done|]. intros j ->%list_elem_of_singleton. exists g.
    split; [|done]. apply elem_of_app. right. by left.
  - case_bool_decide as E.
    + constructor; [|by eapply Forall_impl].
      destruct (Hmono sg Hsg) as [Hne H]. split; simpl; [by destruct (sg_group_ids sg)|].
      intros j [Hj| ->%list_elem_of_singleton]%elem_of_app; [by apply H|].
      exists g. split; [|done]. apply elem_of_app. right. by left.
    + constructor; [by apply Hmono|done].
Qed.

Lemma full_first_perm gs : full_attention_first gs ≡ₚ gs.
Proof using.
  unfold full_attention_first. induction gs as [|sg gs IH]; [done|]. rewrite !filter_cons.
  destruct (is_full_attention (sg_spec sg)) eqn:E; simpl.
  - by rewrite IH.
  - by rewrite <-Permutation_middle, IH.
Qed.

Lemma split_spec (igs : list (Z * KVCacheGroupSpec)) (eagle_ids : list Z) processed gs :
  Forall (spec_group_ok processed) gs → ids_of gs ≡ₚ processed.*1 →
  let gs' := foldl (λ groups ig, add_to_spec_group ig.1 ig.2 (bool_decide (ig.1 ∈ eagle_ids)) groups) gs igs in
  Forall (spec_group_ok (processed ++ igs)) gs' ∧ ids_of gs' ≡ₚ (processed ++ igs).*1.
Proof using.
  revert processed gs. induction igs as [|[i g] igs IH]; intros processed gs Hok Hids; simpl.
  { by rewrite app_nil_r. }
  replace (processed ++ (i, g) :: igs) with ((processed ++ [(i, g)]) ++ igs)
    by (by rewrite <-(assoc_L (++))).
  apply IH; [by apply add_group_ok|]. rewrite add_group_ids, Hids, fmap_app. simpl.
  by rewrite Permutation_app_comm.
Qed.
End split.

(** The static structure of a hybrid coordinator. *)
Record hybrid_static (c : Coordinator) : Prop := {
  hs_kind : coord_kind c = HybridKVCacheCoordinator;
  hs_managers : Forall2 (λ g m, kv_cache_spec m = group_spec g
      ∧ (coord_dcp_world_size c ≤ 1 → block_size m = spec_block_size (group_spec g)))
      (kv_cache_groups (coord_config c)) (single_type_managers c);
  hs_ids : concat (sg_group_ids <$> attention_groups c) ≡ₚ group_indices (coord_config c);
  hs_specs : ∀ sg i, sg ∈ attention_groups c → i ∈ sg_group_ids sg →
    ∃ g, kv_cache_groups (coord_config c) !! Z.to_nat i = Some g ∧ group_spec g = sg_spec sg;
  hs_nonempty : ∀ sg, sg ∈ attention_groups c → sg_group_ids sg ≠ [];
  hs_many : (1 < length (attention_groups c))%nat;
  hs_first : ∃ full other, attention_groups c = full ++ other
    ∧ Forall (λ g, is_full_attention (sg_spec g) = true) full
    ∧ Forall (λ g, is_full_attention (sg_spec g) = false) other;
  hs_aligned : ∀ g, g ∈ kv_cache_groups (coord_config c) →
    coord_scheduler_block_size c mod spec_block_size (group_spec g) = 0
    ∧ (coord_dcp_world_size c ≤ 1 → spec_block_size (group_spec g) mod coord_hash_block_size c = 0);
}.

Section construction.
Lemma new_managers_spec gs i mif mml caching sbs dcp zeroing p r p' :
  new_managers gs i mif mml caching sbs dcp zeroing p = (inr r, p') →
  Forall2 (λ g m, kv_cache_spec m = group_spec g
    ∧ (dcp ≤ 1 → block_size m = spec_block_size (group_spec g))) gs r.
Proof using.
  revert i p r p'. induction gs as [|g gs IH]; intros i p r p' H; simpl in H.
  { injection H as <- _. constructor. }
  unfold mbind, M_bind in H.
  destruct (accepts_keywords (group_spec g)); [|done]. simpl in *.
  destruct (take_sink_blocks _ _ p) as [[e|xs] p1]; [done|].
  destruct (new_managers gs (i + 1) _ _ _ _ _ _ p1) as [[e|ms] p2] eqn:E; [done|].
  injection H as <- _. constructor; [|by eapply IH]. split; [done|]. intros Hd. simpl.
  by rewrite (proj2 (Z.ltb_ge 1 dcp)).
Qed.

Lemma group_indices_zip cfg :
  (zip (group_indices cfg) (kv_cache_groups cfg)).*1 = group_indices cfg.
Proof using.
  apply fst_zip. unfold group_indices. rewrite length_py_range. unfold zlen. lia.
Qed.

Lemma group_indices_lookup cfg i g :
  (i, g) ∈ zip (group_indices cfg) (kv_cache_groups cfg) →
  kv_cache_groups cfg !! Z.to_nat i = Some g.
Proof using.
  intros [j Hj]%list_elem_of_lookup. apply lookup_zip_Some in Hj as [Hi Hg].
  unfold group_indices, py_range in Hi. rewrite list_lookup_fmap in Hi.
  destruct (seq 0 _ !! j) as [n|] eqn:E; [|done]. apply lookup_seq in E as [-> _].
  injection Hi as <-. rewrite <-Hg. f_equal. lia.
Qed.

Lemma base_coordinator_spec kind cfg mml mif eagle caching events dcp pcp sbs hbs npl c :
  base_coordinator kind cfg mml mif eagle caching events dcp pcp sbs hbs npl = inr c →
  coord_kind c = kind ∧ coord_config c = cfg ∧ coord_dcp_world_size c = dcp
  ∧ coord_scheduler_block_size c = sbs ∧ coord_hash_block_size c = hbs
  ∧ Forall2 (λ g m, kv_cache_spec m = group_spec g
      ∧ (dcp ≤ 1 → block_size m = spec_block_size (group_spec g)))
      (kv_cache_groups cfg) (single_type_managers c)
  ∧ (∀ g, g ∈ kv_cache_groups cfg → sbs mod spec_block_size (group_spec g) = 0).
Proof using.
  unfold base_coordinator. intros H. destruct (_ && forallb _ _) eqn:Ea; [|done]. simpl in H.
  apply andb_prop in Ea as [_ Ea]. rewrite forallb_forall in Ea.
  destruct (BlockPool_init _ _ _ _) as [|pool]; [done|]. simpl in H.
  destruct (caching && _ && _); [done|].
  destruct (new_managers _ _ _ _ _ _ _ _ pool) as [[e|ms] pool'] eqn:Em; [done|]. simpl in H.
  destruct (_validate_prefix_cache_retention_interval _ _ _); [done|]. simpl in H.
  injection H as <-. simpl. split_and!; try done; [by eapply new_managers_spec|].
  intros g Hg. apply Z.eqb_eq, Ea. by apply list_elem_of_In.
Qed.

Lemma verify_and_split_spec partial c c' :
  verify_and_split_kv_cache_groups partial c = inr c' →
  coord_kind c = HybridKVCacheCoordinator →
  Forall2 (λ g m, kv_cache_spec m = group_spec g
    ∧ (coord_dcp_world_size c ≤ 1 → block_size m = spec_block_size (group_spec g)))
    (kv_cache_groups (coord_config c)) (single_type_managers c) →
  (∀ g, g ∈ kv_cache_groups (coord_config c) →
     coord_scheduler_block_size c mod spec_block_size (group_spec g) = 0
     ∧ (coord_dcp_world_size c ≤ 1 → spec_block_size (group_spec g) mod coord_hash_block_size c = 0)) →
  hybrid_static c'.
Proof using.
  intros H Hkind Hms Hal. unfold verify_and_split_kv_cache_groups in H.
  set (gs := split_kv_cache_groups (coord_config c) (eagle_group_ids c)) in H.
  destruct (1 <? zlen gs) eqn:Elen; [|done]. simpl in H. bool_hyps.
  destruct (head (full_attention_first gs)) as [first|] eqn:Eh; [|done]. simpl in H.
  destruct (head (sg_group_ids first)) as [first_id|]; [|done]. simpl in H. injection H as <-.
  destruct (split_spec (zip (group_indices (coord_config c)) (kv_cache_groups (coord_config c)))
    (eagle_group_ids c) [] []) as [Hok Hids]; [constructor|done|]. simpl in Hok, Hids.
  change (foldl _ [] _) with gs in Hok, Hids. rewrite group_indices_zip in Hids.
  pose proof (full_first_perm gs) as Hperm.
  assert (∀ sg, sg ∈ full_attention_first gs →
    spec_group_ok (zip (group_indices (coord_config c)) (kv_cache_groups (coord_config c))) sg) as Hsg.
  { intros sg Hin. rewrite Hperm in Hin. by apply (proj1 (Forall_forall _ _) Hok). }
  split; simpl; try done.
  - clear -Hms. apply Forall2_lookup. intros i. rewrite list_lookup_imap.
    pose proof (proj1 (Forall2_lookup _ _ _) Hms i) as Hi.
    destruct (single_type_managers c !! i), (kv_cache_groups (coord_config c) !! i); simpl; inv Hi; constructor.
    by case_bool_decide.
  - rewrite <-Hids. by rewrite Hperm.
  - intros sg i Hin Hi. destruct (Hsg sg Hin) as [_ Hg]. destruct (Hg i Hi) as (g & Hz & E & _).
    exists g. split; [by apply group_indices_lookup|done].
  - intros sg Hin. apply (Hsg sg Hin).
  - rewrite Hperm. unfold zlen in *. lia.
  - exists (filter (λ g, is_full_attention (sg_spec g) = true) gs),
      (filter (λ g, is_full_attention (sg_spec g) = false) gs).
    split_and!; [done|..]; apply Forall_forall; intros sg [? _]%list_elem_of_filter; done.
Qed.
End construction.

Lemma hybrid_constructed cfg mml mif eagle events dcp pcp sbs hbs npl c :
  zlen (kv_cache_groups cfg) ≠ 1 →
  get_kv_cache_coordinator cfg mml mif eagle true events dcp pcp sbs hbs npl = inr c →
  hybrid_static c.
Proof.
  intros Hn. unfold get_kv_cache_coordinator. simpl. rewrite (proj2 (Z.eqb_neq _ 1)) by done.
  destruct (base_coordinator _ _ _ _ _ _ _ _ _ _ _ _) as [|c0] eqn:Eb; [done|]. simpl.
  apply base_coordinator_spec in Eb as (E1 & E2 & E3 & E4 & E5 & Hms & Hsb).
  unfold hybrid_setup. intros H. destruct (forallb _ (single_type_managers c0)) eqn:Ebs; [|done].
  simpl in H. destruct (coord_pcp_world_size c0 =? 1); [|done]. simpl in H.
  destruct (negb _ || _); [|done]. simpl in H.
  eapply verify_and_split_spec; [exact H|done|by rewrite E2, E3|].
  rewrite E2, E3, E4, E5. intros g Hg. split; [by apply Hsb|]. intros Hd.
  apply list_elem_of_lookup in Hg as [i Hi].
  destruct (Forall2_lookup_l _ _ _ _ _ Hms Hi) as (m & Hm & _ & Hbsz).
  rewrite forallb_forall in Ebs. rewrite <-(Hbsz Hd), <-E5. apply Z.eqb_eq, Ebs.
  apply list_elem_of_In. by eapply list_elem_of_lookup_2.
Qed.

(** C40: a hybrid coordinator is well formed.  Whenever construction succeeds for a
    configuration with prefix caching and several groups, every group has its manager with
    the group's spec, the attention groups partition the group ids, all members of an
    attention group share its spec, there are at least two of them, full attention comes
    first, and the scheduling granularity is a multiple of every block size. *)
Theorem hybrid_coordinator_well_formed cfg mml mif eagle events dcp pcp sbs hbs npl c :
  zlen (kv_cache_groups cfg) ≠ 1 →
  get_kv_cache_coordinator cfg mml mif eagle true events dcp pcp sbs hbs npl = inr c →
  hybrid_static c.
Proof. apply hybrid_constructed. Qed.

(** ** The longest common hit *)

Section common.
Context (p : BlockPool) (hashes : list bytes) (al : Z).
Implicit Types (g : SpecGroup) (len : Z).

(** Hash units per block. *)
Definition units g : Z := spec_block_size (sg_spec g) / hash_block_size p.

(** The group can serve a prefix of [len] tokens: what its attention needs of the prefix is
    cached for all its members. *)
Definition accepts g len : Prop :=
  let gids := sg_group_ids g in
  let bsz := spec_block_size (sg_spec g) in
  (al | len) ∧
  match spec_kind (sg_spec g) with
  | FullAttentionSpec | RSWASpec _ | SinkFullAttentionSpec _ =>
      prefix_cached p gids hashes (units g) bsz len
  | SlidingWindowSpec w _ => window_cached p gids hashes (units g) bsz w len
  | ChunkedLocalAttentionSpec chunk =>
      ∀ j : nat, len / chunk * chunk ≤ Z.of_nat j * bsz → Z.of_nat j * bsz < len →
        row_cached p gids hashes (units g) j
  | MambaSpec _ _ _ =>
      len = 0 ∨ ∃ j : nat, len = (Z.of_nat j + 1) * bsz ∧ row_cached p gids hashes (units g) j
  | CrossAttentionSpec => False
  end.

(** The tables of a hit, per member. *)
Definition tables_for g (hit : Hit) : Prop :=
  let gids := sg_group_ids g in
  let bsz := spec_block_size (sg_spec g) in
  match spec_kind (sg_spec g) with
  | FullAttentionSpec | RSWASpec _ | SinkFullAttentionSpec _ =>
      hit_sound p gids hashes (units g) bsz hit
  | SlidingWindowSpec w _ => window_hit p gids hashes (units g) bsz w hit
  | ChunkedLocalAttentionSpec chunk => chunk_hit p gids hashes (units g) (chunk / bsz) hit
  | MambaSpec _ _ _ => state_hit p gids hashes (units g) hit
  | CrossAttentionSpec => False
  end.

(** Block sizes and windows the searches support. *)
Definition searchable g : Prop :=
  let bsz := spec_block_size (sg_spec g) in
  0 < bsz ∧ (hash_block_size p | bsz) ∧ (bsz | al) ∧ 0 < al
  ∧ match spec_kind (sg_spec g) with
    | SlidingWindowSpec w _ => 2 ≤ w
    | ChunkedLocalAttentionSpec chunk => al = bsz ∧ 0 < chunk ∧ (bsz | chunk)
    | CrossAttentionSpec => False
    | _ => True
    end.

Context (l : list ref) (Hinv : pool_inv p l) (limit : Z).
Context (Hhbs : 0 < hash_block_size p) (Henough : limit / hash_block_size p ≤ zlen hashes).

Lemma group_laws g :
  searchable g → valid_groups (sg_group_ids g) →
  search_laws p limit al (length (sg_group_ids g))
    (λ n, find_longest_cache_hit (sg_spec g) (RawHashes hashes) n (sg_group_ids g) false al 1 1)
    (accepts g) (tables_for g).
Proof using Hinv Hhbs Henough.
  intros (Hb & [k Hk] & [q Hq] & Hal & Hkind) Hg. unfold accepts, tables_for, find_longest_cache_hit, units.
  assert (spec_block_size (sg_spec g) / hash_block_size p = k) as -> by (rewrite Hk; apply Z.div_mul; lia).
  rewrite Hk in Hb, Hq |- *. rewrite Hq. assert (0 < k) by nia. assert (0 < q) by nia.
  destruct (spec_kind (sg_spec g)) as [| | |w extra|chunk| |]; try done.
  - by eapply (full_laws p l).
  - by eapply (full_laws p l).
  - by eapply (full_laws p l).
  - by eapply (swa_laws p l).
  - destruct Hkind as (E & Hc & [d Hd]). rewrite Hk in Hd, E.
    assert (q = 1) as -> by nia. subst chunk. rewrite Z.mul_1_l, Z.div_mul by lia.
    eapply (chunked_laws p l); try done. nia.
  - by eapply (mamba_laws p l).
Qed.

Lemma group_trimmable g :
  searchable g → is_full_attention (sg_spec g) = true →
  trimmable al (spec_block_size (sg_spec g)) (accepts g) (tables_for g).
Proof using Hhbs.
  intros (Hb & [k Hk] & [q Hq] & Hal & _) Hf. unfold accepts, tables_for, units.
  assert (spec_block_size (sg_spec g) / hash_block_size p = k) as -> by (rewrite Hk; apply Z.div_mul; lia).
  rewrite Hk in Hb, Hq |- *. rewrite Hq. assert (0 < k) by nia. assert (0 < q) by nia.
  unfold is_full_attention in Hf.
  destruct (spec_kind (sg_spec g)); try done; by apply full_trimmable.
Qed.
End common.

Section properties.
Implicit Types (c : Coordinator) (l : list ref).

(** The search runs on a configuration the interface supports. *)
Lemma hybrid_search_ok c l hashes limit :
  hybrid_static c → pool_inv (block_pool c) l → enable_partial_hash_hits c = false →
  coord_dcp_world_size c = 1 → 0 < hash_block_size (block_pool c) → 0 ≤ limit →
  limit / hash_block_size (block_pool c) ≤ zlen hashes →
  zlen (kv_cache_groups (coord_config c)) ≤ 2 ^ 32 →
  (∀ g, g ∈ attention_groups c → sg_use_eagle g = false
     ∧ searchable (block_pool c) (coord_scheduler_block_size c) g) →
  hybrid_ok (block_pool c) c hashes limit
    (accepts (block_pool c) hashes (coord_scheduler_block_size c))
    (tables_for (block_pool c) hashes).
Proof using.
  intros Hst Hinv Hp Hdcp Hhbs Hlim Hen Hnum Hg. destruct Hst as [S1 S2 S3 S4 S5 S6 S7 S8].
  assert (_cache_hit_alignment_tokens c = coord_scheduler_block_size c) as Eal.
  { unfold _cache_hit_alignment_tokens. by rewrite Hp. }
  assert (∀ g i, g ∈ attention_groups c → i ∈ sg_group_ids g →
    0 ≤ i < Z.of_nat (length (kv_cache_groups (coord_config c)))) as Hrange.
  { intros g i Hgin Hi. assert (i ∈ group_indices (coord_config c)) as Hin.
    { rewrite <-S3. apply list_elem_of_In, in_concat. exists (sg_group_ids g).
      rewrite <-!list_elem_of_In. split; [by apply list_elem_of_fmap_2|done]. }
    by apply elem_of_py_range in Hin. }
  assert (∀ g, g ∈ attention_groups c → valid_groups (sg_group_ids g)) as Hvalid.
  { intros g Hgin. split; [by apply S5|]. apply Forall_forall. intros i Hi.
    pose proof (Hrange g i Hgin Hi). unfold zlen in Hnum. lia. }
  split; try done.
  - rewrite S3. unfold group_indices, py_range. apply NoDup_fmap_2; [intros ???; lia|apply NoDup_seq].
  - intros g Hgin. apply Forall_forall. intros i Hi. by eapply Hrange.
  - symmetry. by eapply Forall2_length.
  - intros g Hgin. by apply Hg.
  - intros g Hgin. rewrite Eal, Hdcp.
    assert ((if is_full_attention (sg_spec g) then 1 else 1) = 1) as -> by by destruct (is_full_attention _).
    eapply (group_laws (block_pool c) hashes _ l); [done..|by apply Hg|by apply Hvalid].
  - intros g gid m Hgin Hf Hh Hm. rewrite Eal.
    assert (gid ∈ sg_group_ids g) as Hgid by (by apply head_Some_elem_of).
    destruct (S4 g gid Hgin Hgid) as (gr & Hgr & Espec).
    destruct (Forall2_lookup_lr _ _ _ _ _ _ S2 Hgr Hm) as [_ Hbsz].
    rewrite Hbsz by lia. rewrite Espec. destruct (Hg g Hgin) as [_ Hs].
    split; [apply Hs|]. by apply group_trimmable.
Qed.


(** C7: admission to all groups cannot fail after its own check.  For a request new to every
    (attention) group, with hits for its locally computed tokens in each of them, the
    prediction is a number computed without side effect; when that many blocks are free, the
    two-phase allocation (touch the hits of all groups, then allocate for external tokens) and
    the allocation for new tokens succeed in all groups: no group evicts the hits of another.
    Every table then covers exactly the tokens and starts with the hits, other requests keep
    their tables, and reference counts equal the references of all groups together. *)
Theorem coordinator_admission_suffices (use_int : bool) (F : ref → Z) c l (id : string)
    (ncbs : list (list ref)) (num_tokens loc ext main enc : Z) :
  coord_inv F c l →
  (∀ i m, single_type_managers c !! i = Some m →
     ∃ ncb, ncbs !! i = Some ncb ∧ hits_ok (mkGroup (block_pool c) m) id ncb loc ext) →
  loc + ext ≤ num_tokens →
  ∃ n, coord_get_num_blocks_to_allocate id num_tokens ncbs enc (loc + ext) loc main false c = (inr n, c)
    ∧ (n ≤ get_num_free_blocks (block_pool c) →
       wp (allocate_new_computed_blocks use_int id ncbs loc ext;;
           coord_allocate_new_blocks use_int id num_tokens main enc)
         (λ _ c', ∃ l', coord_inv F c' l' ∧ same_coord c c'
            ∧ ∀ i m m', single_type_managers c !! i = Some m →
                single_type_managers c' !! i = Some m' →
                ∃ ncb, ncbs !! i = Some ncb
                  ∧ placed id num_tokens loc ext (null_block (block_pool c)) m ncb m') c).
Proof using.
  intros H Hhits Hle. eexists. split; [by apply (coord_prediction F c l id ncbs num_tokens loc ext main enc)|].
  rewrite (inv_num_free _ _ _ (ci_pool _ _ _ H)). intros Hn.
  eapply wp_mono; [by apply (coord_admission use_int F c l)|]. simpl.
  intros xs c' (l' & ? & ? & ? & _). eauto.
Qed.
End properties.

(** ** A new coordinator *)

(** A manager that has seen no request. *)
Definition fresh_mgr (m : Manager) : Prop :=
  0 < block_size m ∧ req_to_blocks m = ∅ ∧ num_cached_block m = ∅ ∧ _partial_hit_reqs m = ∅
  ∧ _pending_cow_copies m = [].

Section fresh.
Implicit Types (c : Coordinator) (m : Manager) (p : BlockPool).

Lemma fresh_mgr_ok p m : fresh_mgr m → mgr_ok p m.
Proof using.
  intros (Hb & Et & _ & Ep & _). split; [done|..].
  - intros id. unfold table. by rewrite Et.
  - intros id i b. rewrite Ep. by rewrite lookup_empty.
Qed.

Lemma fresh_mgr_refs m r : fresh_mgr m → mgr_refs m r = 0.
Proof using. intros (_ & Et & _ & _ & Ec). unfold mgr_refs. by rewrite Et, Ec. Qed.

Lemma fresh_set_eagle e m : fresh_mgr m → fresh_mgr (set_use_eagle e m).
Proof using. by intros. Qed.

Lemma fresh_refs ms r : Forall fresh_mgr ms → total_refs ms r = 0.
Proof using.
  induction 1 as [|m ms Hm Hms IH]; [done|].
  change (mgr_refs m r + total_refs ms r = 0). by rewrite IH, fresh_mgr_refs.
Qed.

(** Without attention sinks the managers of a new coordinator leave the pool alone. *)
Lemma new_managers_fresh gs i mif mml caching sbs dcp zeroing p :
  (∀ g, g ∈ gs → 0 < spec_block_size (group_spec g)
     ∧ ∀ n, spec_kind (group_spec g) ≠ SinkFullAttentionSpec n) →
  ∃ ms, new_managers gs i mif mml caching sbs dcp zeroing p = (inr ms, p) ∧ Forall fresh_mgr ms.
Proof using.
  revert i. induction gs as [|g gs IH]; intros i Hg; simpl; [by exists []|].
  destruct (Hg g) as [Hb Hk]; [by left|].
  destruct (IH (i + 1)) as (ms & E & Hms); [intros g' Hg'; apply Hg; by right|].
  unfold mbind, M_bind.
  assert (accepts_keywords (group_spec g) = true) as ->.
  { unfold accepts_keywords. destruct (spec_kind (group_spec g)) as [| |n| | | |]; try done. by destruct (Hk n). }
  assert (∀ b, take_sink_blocks (group_spec g) b p = (inr [], p)) as Es.
  { intros b. unfold take_sink_blocks.
    destruct (spec_kind (group_spec g)) as [| |n| | | |]; try done. by destruct (Hk n). }
  simpl. rewrite Es, E. eexists. split; [done|]. constructor; [|done]. split_and!; try done. simpl.
  destruct (Z.ltb_spec 1 dcp); simpl; [|done]. destruct (spec_kind _); simpl; lia.
Qed.

(** A new coordinator: the books are balanced, all blocks but the null block are free. *)
Lemma coordinator_init_inv cfg mml mif eagle caching events dcp pcp sbs hbs npl c :
  get_kv_cache_coordinator cfg mml mif eagle caching events dcp pcp sbs hbs npl = inr c →
  (∀ g, g ∈ kv_cache_groups cfg → 0 < spec_block_size (group_spec g)
     ∧ ∀ n, spec_kind (group_spec g) ≠ SinkFullAttentionSpec n) →
  coord_inv (λ _, 0) c (Blk <$> seq 1 (Z.to_nat (num_blocks cfg) - 1))
  ∧ Forall fresh_mgr (single_type_managers c)
  ∧ fresh_pool (num_blocks cfg) caching hbs events (block_pool c).
Proof using.
  intros H Hg.
  assert (∀ kind c, base_coordinator kind cfg mml mif eagle caching events dcp pcp sbs hbs npl = inr c →
    fresh_pool (num_blocks cfg) caching hbs events (block_pool c)
    ∧ Forall fresh_mgr (single_type_managers c)) as Hbase.
  { clear c H. intros kind c H. unfold base_coordinator in H.
    destruct (_ && forallb _ _); [|done]. simpl in H.
    destruct (BlockPool_init _ _ _ _) as [|pool] eqn:Ep; [done|]. simpl in H.
    assert (0 < num_blocks cfg) as Hn.
    { unfold BlockPool_init, result_assert in Ep. by destruct (Z.ltb_spec 0 (num_blocks cfg)). }
    destruct (BlockPool_init_spec _ caching hbs events Hn) as (pool1 & E1 & Hfresh).
    rewrite Ep in E1. injection E1 as <-. destruct (caching && _ && _); [done|].
    destruct (new_managers_fresh _ 0 mif mml caching sbs dcp (needs_kv_cache_zeroing cfg) pool Hg)
      as (ms & Em & Hms). rewrite Em in H. simpl in H.
    destruct (_validate_prefix_cache_retention_interval _ _ _); [done|]. simpl in H.
    by injection H as <-. }
  assert (fresh_pool (num_blocks cfg) caching hbs events (block_pool c)
    ∧ Forall fresh_mgr (single_type_managers c)) as [Hp Hms].
  { unfold get_kv_cache_coordinator in H. destruct (negb caching); [by eapply Hbase|].
    destruct (_ =? 1); destruct (base_coordinator _ _ _ _ _ _ _ _ _ _ _ _) as [|c0] eqn:Eb;
      try done; simpl in H; apply Hbase in Eb as [Hp Hms].
    - unfold unitary_setup in H. destruct (result_of_option _ _) as [|g]; [done|]. simpl in H.
      destruct (result_assert (_ || _)); [done|]. simpl in H. destruct (result_assert _); [done|].
      injection H as <-. split; [done|]. simpl. apply Forall_alter; [done|]. by intros; apply fresh_set_eagle.
    - unfold hybrid_setup, verify_and_split_kv_cache_groups in H.
      apply result_bind_inr in H as (_ & _ & H). apply result_bind_inr in H as (_ & _ & H).
      apply result_bind_inr in H as (_ & _ & H). apply result_bind_inr in H as (_ & _ & H).
      apply result_bind_inr in H as (first & _ & H). apply result_bind_inr in H as (gid & _ & H).
      injection H as <-. split; [done|]. simpl. apply Forall_lookup. intros i m.
      rewrite list_lookup_imap. destruct (single_type_managers c0 !! i) as [m0|] eqn:E; [|done].
      intros [= <-]. assert (fresh_mgr m0) by (by eapply Forall_lookup_1).
      case_bool_decide; [by apply fresh_set_eagle|done]. }
  split; [|done]. destruct Hp as (Hinv & _ & _ & _ & _ & _ & Hz). split; try done.
  - intros r _. rewrite fresh_refs by done. by destruct (Hz r) as (-> & _).
  - intros i m Hm. apply fresh_mgr_ok. by eapply Forall_lookup_1.
Qed.
End fresh.

(** ** Concrete coordinators *)

(** Full attention and a sliding window of two tokens, blocks of two tokens. *)
Definition demo_group_spec (kind : SpecKind) : KVCacheGroupSpec :=
  {| group_spec := {| spec_block_size := 2; spec_kind := kind |}; group_layout := []; is_eagle_group := false |}.
Definition demo_config : KVCacheConfig :=
  {| num_blocks := 4;
     kv_cache_groups := [demo_group_spec FullAttentionSpec; demo_group_spec (SlidingWindowSpec 2 0)];
     prefix_cache_retention_interval := None; has_mixed_precision_kv_cache := false |}.
Definition demo_coordinator : Coordinator :=
  match get_kv_cache_coordinator demo_config 100 8 false true true 1 1 2 2 0 with
  | inr c => c
  | inl _ => mkCoordinator KVCacheCoordinatorNoPrefixCache demo_config 0 0 0 0 0 [] None false [] None
               demo_pool []
  end.

Lemma demo_coordinator_init :
  get_kv_cache_coordinator demo_config 100 8 false true true 1 1 2 2 0 = inr demo_coordinator.
Proof. vm_compute. reflexivity. Qed.

Lemma hybrid_coordinator_well_formed_witness :
  hybrid_static demo_coordinator ∧ length (attention_groups demo_coordinator) = 2%nat.
Proof.
  split; [|vm_compute; reflexivity].
  apply (hybrid_coordinator_well_formed demo_config 100 8 false true 1 1 2 2 0 demo_coordinator);
    [vm_compute; discriminate|exact demo_coordinator_init].
Defined.


(** A larger pool: both groups take a hit and new blocks. *)
Definition demo_wide : Coordinator :=
  match get_kv_cache_coordinator
    {| num_blocks := 8; kv_cache_groups := kv_cache_groups demo_config;
       prefix_cache_retention_interval := None; has_mixed_precision_kv_cache := false |}
    100 8 false true true 1 1 2 2 0 with
  | inr c => c
  | inl _ => demo_coordinator
  end.

Lemma demo_wide_inv :
  coord_inv (λ _, 0) demo_wide (Blk <$> seq 1 7) ∧ Forall fresh_mgr (single_type_managers demo_wide).
Proof.
  destruct (get_kv_cache_coordinator
    {| num_blocks := 8; kv_cache_groups := kv_cache_groups demo_config;
       prefix_cache_retention_interval := None; has_mixed_precision_kv_cache := false |}
    100 8 false true true 1 1 2 2 0) as [e|c] eqn:E; [vm_compute in E; discriminate|].
  pose proof E as Hc. apply coordinator_init_inv in E as (Hinv & Hms & _).
  - unfold demo_wide. rewrite Hc. by split.
  - simpl. intros g. rewrite !elem_of_cons. by intros [->|[->|[]%elem_of_nil]].
Qed.

Lemma demo_wide_usable i : (0 < i < 8)%nat → usable (block_pool demo_wide) (Blk i).
Proof.
  intros Hi. exists i. assert (num_gpu_blocks (block_pool demo_wide) = 8) as -> by (vm_compute; reflexivity).
  split_and!; [done|lia..].
Qed.

Lemma coordinator_admission_suffices_witness :
  wp (allocate_new_computed_blocks false "r" [[Blk 1]; [Blk 2]] 2 0;;
      coord_allocate_new_blocks false "r" 5 5 0)
    (λ _ c', ∃ l', coord_inv (λ _, 0) c' l') demo_wide.
Proof.
  destruct (coordinator_admission_suffices false (λ _, 0) demo_wide (Blk <$> seq 1 7) "r"
    [[Blk 1]; [Blk 2]] 5 2 0 5 0) as (n & E & Hwp).
  - exact (proj1 demo_wide_inv).
  - intros i m Hm.
    assert (is_attention (mgr_kind m) = true ∧ kind_ok (mgr_kind m) ∧ block_size m = 2
      ∧ mgr_enable_caching m = true ∧ (i < 2)%nat) as (Hatt & Hk & Hb & Hca & Hi).
    { destruct i as [|[|i]]; vm_compute in Hm; [injection Hm as <-..|discriminate];
        split_and!; try done; lia. }
    destruct (proj1 (Forall_lookup _ _) (proj2 demo_wide_inv) i m Hm) as (_ & Et & En & Ep & _).
    exists [Blk (S i)]. split; [destruct i as [|[|i]]; [done..|lia]|]. split; simpl; try done.
    + unfold table. by rewrite Et, En, Ep.
    + apply Forall_singleton, usable_blk, demo_wide_usable. lia.
    + congruence.
    + by rewrite Hb.
    + by rewrite Hb.
  - done.
  - assert (n = 6) as -> by (vm_compute in E; by simplify_eq).
    eapply wp_mono; [apply Hwp; vm_compute; discriminate|]. simpl.
    intros _ c' (l' & H & _). by exists l'.
Defined.

(** The pool in which the full-attention group has two cached blocks of the request and the
    sliding-window group its first. *)
Definition demo_both : BlockPool :=
  (cache_full_blocks no_digest false (demo_request [1; 2; 3; 4; 5]) [Blk 3] 0 1
     (1 * hash_block_size demo_cached) 1 None demo_cached).2.
Definition demo_cached_coordinator : Coordinator :=
  set_state demo_both (single_type_managers demo_coordinator) demo_coordinator.

Lemma demo_both_inv : pool_inv demo_both [Blk 3].
Proof.
  assert (full_pre demo_cached (demo_request [1; 2; 3; 4; 5]) [Blk 3] 0 1 1 1 None) as Hpre.
  { split; try done.
    - apply Forall_singleton. exists 3%nat. split; [done|].
      change (num_gpu_blocks demo_cached) with 4. lia.
    - vm_compute. repeat constructor; set_solver.
    - intros i b n Hib. assert (b = Blk 3) as ->.
      { apply list_elem_of_filter in Hib as [_ Hib]. vm_compute in Hib. set_solver. }
      vm_compute; discriminate. }
  destruct (cache_full_blocks_spec no_digest false demo_cached [Blk 3] _ _ _ _ _ _ _
    (proj1 demo_cached_inv) Hpre) as (a & p' & E & Hinv & _).
  unfold demo_both. by rewrite E.
Qed.

Lemma demo_cached_static : hybrid_static demo_cached_coordinator.
Proof.
  destruct (hybrid_constructed demo_config 100 8 false true 1 1 2 2 0 demo_coordinator) as [];
    [vm_compute; discriminate|exact demo_coordinator_init|]. by split.
Qed.


(** Two groups of full attention that differ in their layout, and a sliding window. *)
Definition two_full_config : KVCacheConfig :=
  {| num_blocks := 8;
     kv_cache_groups :=
       [demo_group_spec FullAttentionSpec;
        {| group_spec := {| spec_block_size := 2; spec_kind := FullAttentionSpec |};
           group_layout := [1]; is_eagle_group := false |};
        demo_group_spec (SlidingWindowSpec 2 0)];
     prefix_cache_retention_interval := None; has_mixed_precision_kv_cache := true |}.

(** The coordinator after both full-attention groups cached two blocks of a request and the
    sliding-window group one. *)
Definition two_full_cached : exn + Coordinator :=
  c ← get_kv_cache_coordinator two_full_config 100 8 false true true 1 1 2 2 0;
  let r := demo_request [1; 2; 3; 4; 5] in
  match (get_new_blocks false 5;;
         cache_full_blocks no_digest false r [Blk 1; Blk 2] 0 2 2 0 None;;
         cache_full_blocks no_digest false r [Blk 3; Blk 4] 0 2 2 1 None;;
         cache_full_blocks no_digest false r [Blk 5] 0 1 2 2 None) (block_pool c) with
  | (inr _, p) => inr (set_state p (single_type_managers c) c)
  | (inl e, _) => inl e
  end.

(** only the first attention group is cut to the common hit.  With two full-attention
    groups that are not merged (their layouts differ) and a sliding-window group with a
    shorter cached prefix, the search returns a hit of two tokens, one block for the first
    group, but both cached blocks, covering four tokens, for the second. *)
Theorem second_full_group_not_trimmed :
  ∃ c b1 b2 b3, two_full_cached = inr c
    ∧ (coord_find_longest_cache_hit demo_hashes 4 c).1 = inr ([[b1]; [b2; b3]; [Blk 5]], 2, 2).
Proof.
  destruct two_full_cached as [e|c] eqn:E; [vm_compute in E; discriminate|].
  exists c, (Blk 1), (Blk 3), (Blk 4). split; [done|].
  transitivity (match two_full_cached with
    | inr c => (coord_find_longest_cache_hit demo_hashes 4 c).1 | inl e => inl e end).
  - by rewrite E.
  - vm_compute. reflexivity.
Qed.

(** ** Attention sinks *)

Lemma new_managers_keywords gs i mif mml caching sbs dcp zeroing p r p' :
  new_managers gs i mif mml caching sbs dcp zeroing p = (inr r, p') →
  Forall (λ g, accepts_keywords (group_spec g) = true) gs.
Proof.
  revert i p r p'. induction gs as [|g gs IH]; intros i p r p' H; [constructor|]. simpl in H. unfold mbind, M_bind in H.
  destruct (accepts_keywords (group_spec g)) eqn:Ek; [|done]. simpl in H.
  destruct (take_sink_blocks _ _ p) as [[e|xs] p1]; [done|].
  destruct (new_managers gs (i + 1) _ _ _ _ _ _ p1) as [[e|ms] p2] eqn:E; [done|]. constructor; [done|by eapply IH].
Qed.

Lemma base_keywords kind cfg mml mif eagle caching events dcp pcp sbs hbs npl c :
  base_coordinator kind cfg mml mif eagle caching events dcp pcp sbs hbs npl = inr c →
  Forall (λ g, accepts_keywords (group_spec g) = true) (kv_cache_groups cfg).
Proof.
  unfold base_coordinator. intros H. destruct (_ && forallb _ _); [|done]. simpl in H.
  destruct (BlockPool_init _ _ _ _) as [|pool]; [done|]. simpl in H. destruct (caching && _ && _); [done|].
  destruct (new_managers _ _ _ _ _ _ _ _ pool) as [[e|ms] pool'] eqn:Em; [done|]. by eapply new_managers_keywords.
Qed.

(** No coordinator can be made for a model with attention sinks: the coordinator passes
    [needs_kv_cache_zeroing] to every manager, and [SinkFullAttentionManager.__init__] has no such
    parameter. *)
Theorem no_coordinator_with_sinks cfg mml mif eagle caching events dcp pcp sbs hbs npl g n :
  g ∈ kv_cache_groups cfg → spec_kind (group_spec g) = SinkFullAttentionSpec n →
  ∃ e, get_kv_cache_coordinator cfg mml mif eagle caching events dcp pcp sbs hbs npl = inl e.
Proof.
  intros Hg Ek. unfold get_kv_cache_coordinator.
  assert (∀ kind, ∃ e, base_coordinator kind cfg mml mif eagle caching events dcp pcp sbs hbs npl = inl e) as Hb.
  { intros kind. destruct (base_coordinator _ _ _ _ _ _ _ _ _ _ _ _) as [e|c] eqn:E; [by exists e|].
    apply base_keywords in E. rewrite Forall_forall in E. specialize (E g Hg). unfold accepts_keywords in E.
    by rewrite Ek in E. }
  destruct (negb caching); [done|]. destruct (_ =? 1); edestruct Hb as [e ->]; by exists e.
Qed.

(** One group of sink attention with blocks of 16 tokens and a sink of one block. *)
Definition sink_config : KVCacheConfig :=
  {| num_blocks := 8;
     kv_cache_groups := [{| group_spec := {| spec_block_size := 16; spec_kind := SinkFullAttentionSpec 16 |};
                            group_layout := []; is_eagle_group := false |}];
     prefix_cache_retention_interval := None; has_mixed_precision_kv_cache := false |}.

Example sink_config_raises :
  get_kv_cache_coordinator sink_config 128 64 false true false 1 1 16 16 0 = inl TypeError.
Proof. vm_compute. reflexivity. Qed.
