(* ===== verification/KVCacheManager.v ===== *)
(** The KV cache manager ([vllm/v1/core/kv_cache_manager.py]): the interface the scheduler
    uses.  It looks up the cached prefix of a request, decides whether a request fits, gives
    it slots in every group, releases it, and hands block lists and pending copies to the
    workers. *)

From S2P Require Import Prelude MathUtils Request BlockHash FreeQueue BlockPool Managers.
From S2P Require Import Coordinator.

(** ** Results for the scheduler *)

(** [blocks] per group.  [is_empty_object] says that the object is the manager's shared
    [empty_kv_cache_blocks], which [allocate_slots] recognises by identity. *)
Record KVCacheBlocks := mkBlocks {
  kcb_blocks : list (list ref);
  is_empty_object : bool;
}.

(** [__add__]: group by group. *)
Definition kcb_add (a b : KVCacheBlocks) : KVCacheBlocks :=
  mkBlocks (zip_with (++) (kcb_blocks a) (kcb_blocks b)) false.

Definition get_block_ids (allow_none : bool) (bs : KVCacheBlocks) : option (list (list Z)) :=
  if allow_none && forallb (λ group, zlen group =? 0) (kcb_blocks bs) then None
  else Some ((λ group : list ref, block_id <$> group) <$> kcb_blocks bs).

(** The ids of the blocks of a group that have no hash. *)
Definition unhashed (keep_null : bool) (group : list ref) : M BlockPool (list Z) :=
  fold_each group (λ acc b,
    blk ← block b;
    mret (if bool_decide (_block_hash blk = None) && (keep_null || negb (is_null blk))
          then acc ++ [block_id b] else acc)) [].

Definition get_unhashed_block_ids (bs : KVCacheBlocks) : M BlockPool (list Z) :=
  assert (zlen (kcb_blocks bs) =? 1);;
  group ← lift_option IndexError (head (kcb_blocks bs));
  unhashed true group.

Definition get_unhashed_block_ids_all_groups (bs : KVCacheBlocks) : M BlockPool (list (list Z)) :=
  map_each (kcb_blocks bs) (unhashed false).

Definition new_empty (bs : KVCacheBlocks) : KVCacheBlocks :=
  mkBlocks (replicate (length (kcb_blocks bs)) []) false.

(** ** Statistics *)

Record PrefixCacheStats := mkStats {
  stats_reset : bool;
  stats_requests : Z;
  stats_queries : Z;
  stats_hits : Z;
  preempted_requests : Z;
  preempted_queries : Z;
  preempted_hits : Z;
}.

Definition PrefixCacheStats_init : PrefixCacheStats := mkStats false 0 0 0 0 0 0.

Definition record (num_toks num_hits : Z) (preempted : bool) (s : PrefixCacheStats)
    : PrefixCacheStats :=
  if preempted then
    mkStats (stats_reset s) (stats_requests s) (stats_queries s) (stats_hits s)
      (preempted_requests s + 1) (preempted_queries s + num_toks) (preempted_hits s + num_hits)
  else
    mkStats (stats_reset s) (stats_requests s + 1) (stats_queries s + num_toks)
      (stats_hits s + num_hits) (preempted_requests s) (preempted_queries s) (preempted_hits s).

Definition mark_reset (s : PrefixCacheStats) : PrefixCacheStats :=
  mkStats true (stats_requests s) (stats_queries s) (stats_hits s) (preempted_requests s)
    (preempted_queries s) (preempted_hits s).

(** ** State *)

(** [watermark_blocks] is [int(watermark * num_blocks)] for a float that the configuration
    provides; the constructor takes this product and the test [watermark >= 0.0].
    [kv_cache_event_metadata] holds the name of the kind and the
    window of every group's spec.  [prefix_cache_stats] is [None] when statistics are off. *)
Record KVCacheManager := mkKVM {
  kvm_max_model_len : Z;
  kvm_enable_caching : bool;
  kvm_enable_kv_cache_events : bool;
  log_stats : bool;
  prefix_cache_stats : option PrefixCacheStats;
  coordinator : Coordinator;
  watermark_blocks : Z;
  kv_cache_event_metadata : list (string * option Z);
  _partial_tail_pins : gmap string (list ref);
}.

Definition set_coordinator (c : Coordinator) (s : KVCacheManager) : KVCacheManager :=
  mkKVM (kvm_max_model_len s) (kvm_enable_caching s) (kvm_enable_kv_cache_events s) (log_stats s)
    (prefix_cache_stats s) c (watermark_blocks s) (kv_cache_event_metadata s)
    (_partial_tail_pins s).
Definition set_stats (st : option PrefixCacheStats) (s : KVCacheManager) : KVCacheManager :=
  mkKVM (kvm_max_model_len s) (kvm_enable_caching s) (kvm_enable_kv_cache_events s) (log_stats s)
    st (coordinator s) (watermark_blocks s) (kv_cache_event_metadata s) (_partial_tail_pins s).
Definition set_pins (pins : gmap string (list ref)) (s : KVCacheManager) : KVCacheManager :=
  mkKVM (kvm_max_model_len s) (kvm_enable_caching s) (kvm_enable_kv_cache_events s) (log_stats s)
    (prefix_cache_stats s) (coordinator s) (watermark_blocks s) (kv_cache_event_metadata s) pins.

Definition on_coordinator {A} (op : M Coordinator A) : M KVCacheManager A :=
  zoom coordinator set_coordinator op.
Definition on_blocks {A} (op : M BlockPool A) : M KVCacheManager A :=
  on_coordinator (on_block_pool op).
Definition kvm_config (s : KVCacheManager) : KVCacheConfig := coord_config (coordinator s).

Definition KVCacheManager_init (cfg : KVCacheConfig) (max_model_len sched_block_size hash_bsz : Z)
    (max_in_flight_tokens : option Z) (caching eagle : bool) (num_prefill_lookahead : Z)
    (stats events : bool) (dcp pcp : Z) (watermark_ok : bool) (watermark : Z) (metadata : list (string * option Z))
    : exn + KVCacheManager :=
  c ← get_kv_cache_coordinator cfg max_model_len (default max_model_len max_in_flight_tokens)
        eagle caching events dcp pcp sched_block_size hash_bsz num_prefill_lookahead;
  result_assert watermark_ok ≫= λ _,
  mret (mkKVM max_model_len caching events stats
          (if stats then Some PrefixCacheStats_init else None) c watermark metadata ∅).

(** The empty result, [tuple(() for _ in range(self.num_kv_cache_groups))]. *)
Definition empty_kv_cache_blocks (s : KVCacheManager) : KVCacheBlocks :=
  mkBlocks (replicate (length (kv_cache_groups (kvm_config s))) []) true.

Definition create_kv_cache_blocks (s : KVCacheManager) (bs : list (list ref)) : KVCacheBlocks :=
  if existsb (λ group, negb (zlen group =? 0)) bs then mkBlocks bs false
  else empty_kv_cache_blocks s.

Definition make_prefix_cache_stats : M KVCacheManager (option PrefixCacheStats) :=
  s ← get;
  if negb (log_stats s) then mret None
  else modify (set_stats (Some PrefixCacheStats_init));; mret (prefix_cache_stats s).

Definition prefix_cache_lookup_enabled (s : KVCacheManager) (request : Request) : bool :=
  kvm_enable_caching s && negb (get_skip_reading_prefix_cache request).

Definition record_prefix_cache_stats (request : Request) (num_hits : Z) : M KVCacheManager unit :=
  s ← get;
  if negb (log_stats s) || negb (prefix_cache_lookup_enabled s request) then mret tt
  else
    match prefix_cache_stats s with
    | None => raise AssertionError
    | Some st =>
        modify (set_stats (Some (record (num_tokens request) num_hits
          (0 <? num_preemptions request) st)))
    end.

(** ** Lookup *)

Section manager.
Context (sha256 : bytes → bytes) (use_int : bool).

(** [BlockStored] events for the blocks of a hit, group by group. *)
Definition report_hits (request : Request) (computed_blocks : list (list ref))
    : M KVCacheManager unit :=
  cfg ← gets kvm_config;
  for_each (imap pair computed_blocks) (λ '(group_idx, group_blocks),
    when (0 <? zlen group_blocks)
      (group ← lift_option IndexError (kv_cache_groups cfg !! group_idx);
       on_blocks (emit_cached_block_events sha256 use_int request (zlen group_blocks)
         (spec_block_size (group_spec group)) (Z.of_nat group_idx)))).

Definition get_computed_blocks (request : Request) : M KVCacheManager (KVCacheBlocks * Z * Z) :=
  s ← get;
  if negb (prefix_cache_lookup_enabled s request) then mret (empty_kv_cache_blocks s, 0, 0)
  else
    hit ← on_coordinator (coord_find_longest_cache_hit (block_hashes request)
            (num_tokens request - 1));
    let '(computed_blocks, num_new_computed_tokens, num_uncached) := hit in
    when ((0 <? num_new_computed_tokens) && kvm_enable_kv_cache_events s
          && bool_decide (kv_cache_report_mode request = "full"%string))
      (report_hits request computed_blocks);;
    mret (create_kv_cache_blocks s computed_blocks, num_new_computed_tokens,
          if num_uncached =? 0 then 0 else num_new_computed_tokens + num_uncached).

Definition get_computed_blocks_for_connector (request : Request)
    : M KVCacheManager (KVCacheBlocks * Z * Z * bool) :=
  s ← get;
  let c := coordinator s in
  match full_attention_group_id c with
  | Some fa_group_id =>
      if has_mamba_layers (kvm_config s)
         && bool_decide (coord_kind c = HybridKVCacheCoordinator) then
        if negb (prefix_cache_lookup_enabled s request)
        then mret (empty_kv_cache_blocks s, 0, 0, false)
        else
          r ← on_coordinator (find_longest_cache_hit_per_group (block_hashes request)
                (num_tokens request - 1));
          let '(computed, per_group) := r in
          num_local ← lift_option IndexError (py_get per_group fa_group_id);
          if existsb (λ hit, num_local <? hit) per_group
          then triple ← get_computed_blocks request; mret (triple, false)
          else mret (create_kv_cache_blocks s computed, num_local, 0,
                     existsb (λ hit, hit <? num_local) per_group)
      else triple ← get_computed_blocks request; mret (triple, false)
  | None => triple ← get_computed_blocks request; mret (triple, false)
  end.

(** ** Allocation *)

(** The keyword arguments of [allocate_slots]. *)
Record SlotArgs := {
  num_new_tokens : Z;
  num_new_computed_tokens : Z;
  new_computed_blocks : option KVCacheBlocks;
  num_lookahead_tokens : Z;
  num_external_computed_tokens : Z;
  delay_cache_blocks : bool;
  num_encoder_tokens : Z;
  full_sequence_must_fit : bool;
  reserved_blocks : Z;
  has_scheduled_reqs : bool;
}.

(** The blocks to keep free for an admission. *)
Definition applied_watermark (s : KVCacheManager) (request : Request) (a : SlotArgs) : Z :=
  if has_scheduled_reqs a
     && match status request with WAITING | PREEMPTED => true | _ => false end
  then watermark_blocks s else 0.

Definition allocate_slots (request : Request) (a : SlotArgs)
    : M KVCacheManager (option KVCacheBlocks) :=
  s ← get;
  let rid := request_id request in
  let ext := num_external_computed_tokens a in
  if (num_new_tokens a =? 0) && (ext =? 0) then raise ValueError
  else
    let ncb := default (empty_kv_cache_blocks s) (new_computed_blocks a) in
    let loc := num_computed_tokens request + num_new_computed_tokens a in
    let total_computed_tokens := Z.min (loc + ext) (kvm_max_model_len s) in
    let watermark := applied_watermark s request a in
    fits ← (if full_sequence_must_fit a then
              let full_num_tokens := Z.min (num_tokens request) (kvm_max_model_len s) in
              n ← on_coordinator (coord_get_num_blocks_to_allocate rid full_num_tokens
                    (kcb_blocks ncb) (num_encoder_tokens a) total_computed_tokens loc
                    full_num_tokens true);
              free ← on_blocks (gets get_num_free_blocks);
              mret (n + watermark <=? free)
            else mret true);
    if negb fits then mret None
    else
      let num_tokens_main_model := total_computed_tokens + num_new_tokens a in
      let num_tokens_need_slot :=
        Z.min (num_tokens_main_model + num_lookahead_tokens a) (kvm_max_model_len s) in
      on_coordinator (coord_remove_skipped_blocks rid
        (Z.max 0 (total_computed_tokens - num_in_flight_tokens request))
        (Some (num_prompt_tokens request)));;
      n ← on_coordinator (coord_get_num_blocks_to_allocate rid num_tokens_need_slot
            (kcb_blocks ncb) (num_encoder_tokens a) (loc + ext) loc num_tokens_main_model false);
      free ← on_blocks (gets get_num_free_blocks);
      if free - reserved_blocks a <? n + watermark then mret None
      else
        when (negb (is_empty_object ncb) || (0 <? ext))
          (on_coordinator (allocate_new_computed_blocks use_int rid (kcb_blocks ncb) loc ext));;
        new_blocks ← on_coordinator (coord_allocate_new_blocks use_int rid num_tokens_need_slot
          num_tokens_main_model (num_encoder_tokens a));
        when (kvm_enable_caching s && negb (delay_cache_blocks a))
          (on_coordinator (coord_cache_blocks sha256 use_int request
             (Z.min (total_computed_tokens + num_new_tokens a) (num_tokens request))));;
        mret (Some (create_kv_cache_blocks s new_blocks)).

(** ** Release *)

Definition kvm_free (request : Request) : M KVCacheManager unit :=
  s ← get;
  let pins := _partial_tail_pins s !! request_id request in
  modify (set_pins (delete (request_id request) (_partial_tail_pins s)));;
  when (negb (zlen (default [] pins) =? 0)) (on_blocks (free_blocks (default [] pins)));;
  on_coordinator (coord_free (request_id request)).

Definition kvm_remove_skipped_blocks (rid : string) (processed_computed_tokens : Z)
    (num_prompt : option Z) : M KVCacheManager unit :=
  on_coordinator (coord_remove_skipped_blocks rid processed_computed_tokens num_prompt).

Definition kvm_pop_blocks_for_free (request : Request) : M KVCacheManager (list ref) :=
  bs ← on_coordinator (coord_pop_blocks_for_free (request_id request));
  s ← get;
  let pins := _partial_tail_pins s !! request_id request in
  modify (set_pins (delete (request_id request) (_partial_tail_pins s)));;
  mret (default [] pins ++ bs).

Definition kvm_evict_blocks (block_ids : list Z) : M KVCacheManager unit :=
  on_blocks (evict_blocks use_int block_ids).

Definition kvm_reset_prefix_cache : M KVCacheManager bool :=
  ok ← on_blocks reset_prefix_cache;
  if negb ok then mret false
  else
    s ← get;
    when (log_stats s)
      (match prefix_cache_stats s with
       | None => raise AssertionError
       | Some st => modify (set_stats (Some (mark_reset st)))
       end);;
    mret true.
End manager.

(** ** Reading the tables *)

Definition kvm_get_num_common_prefix_blocks (running_request_id : string)
    : M KVCacheManager (list Z) :=
  on_coordinator (coord_get_num_common_prefix_blocks running_request_id).

(** The annotation of an event: the kind and the window of its group's spec. *)
Definition event_metadata (metadata : list (string * option Z)) (e : KVCacheEvent)
    : option (string * option Z) :=
  match e with
  | BlockStored _ _ _ _ _ _ _ _ group_idx =>
      if (group_idx <? 0) || (zlen metadata <=? group_idx) then None
      else metadata !! Z.to_nat group_idx
  | _ => None
  end.

Definition kvm_take_events : M KVCacheManager (list (KVCacheEvent * option (string * option Z))) :=
  events ← on_blocks take_events;
  metadata ← gets kv_cache_event_metadata;
  mret ((λ e, (e, event_metadata metadata e)) <$> events).

Definition kvm_get_blocks (s : KVCacheManager) (rid : string) : KVCacheBlocks :=
  create_kv_cache_blocks s (get_blocks (coordinator s) rid).

Definition kvm_get_block_ids (s : KVCacheManager) (rid : string) : list (list Z) :=
  (λ group : list ref, block_id <$> group) <$> kcb_blocks (kvm_get_blocks s rid).

Definition get_block_ids_for_computed_tokens (s : KVCacheManager) (rid : string)
    (num_computed : Z) : list (list Z) :=
  zip_with (λ g ids,
    if is_mamba (group_spec g) || is_cross_attention (group_spec g) then ids
    else py_slice ids 0 (cdiv num_computed (spec_block_size (group_spec g))))
    (kv_cache_groups (kvm_config s)) (kvm_get_block_ids s rid).

(** The longest registered prefix among the blocks of a group. *)
Definition group_cached_tokens (group : list ref) : M BlockPool Z :=
  fold_each group (λ acc b,
    blk ← block b;
    mret (Z.max acc (default 0 (_block_hash_num_tokens blk)))) 0.

Definition estimate_cached_tokens (request : Request) : M KVCacheManager Z :=
  s ← get;
  cached ← fold_each
    (zip (kv_cache_groups (kvm_config s)) (kcb_blocks (kvm_get_blocks s (request_id request))))
    (λ acc gb,
      if is_cross_attention (group_spec gb.1) then mret acc
      else
        n ← on_blocks (group_cached_tokens gb.2);
        mret (Some (match acc with None => n | Some m => Z.min m n end))) None;
  mret (default 0 cached).

Definition kvm_cache_blocks (sha256 : bytes → bytes) (use_int : bool) (request : Request)
    (num_computed : Z) : M KVCacheManager unit :=
  s ← get;
  when (kvm_enable_caching s) (on_coordinator (coord_cache_blocks sha256 use_int request num_computed)).

(** [zip(blocks, managers, groups, strict=True)]. *)
Fixpoint truncate_groups (num_computed : Z) (bss : list (list ref)) (ms : list Manager)
    (gs : list KVCacheGroupSpec) : exn + list (list ref) :=
  match bss, ms, gs with
  | [], [], [] => mret []
  | bs :: bss', m :: ms', g :: gs' =>
      result_assert (num_computed mod block_size m =? 0) ≫= λ _,
      let num_blocks := num_computed / block_size m in
      n ← (if is_mamba (group_spec g) then mret (Z.min num_blocks (zlen bs))
           else result_assert (num_blocks <=? zlen bs) ≫= λ _, mret num_blocks);
      rest ← truncate_groups num_computed bss' ms' gs';
      mret (py_slice bs 0 n :: rest)
  | _, _, _ => inl ValueError
  end.

Definition truncate_computed_blocks (s : KVCacheManager) (bs : KVCacheBlocks) (num_computed : Z)
    : exn + KVCacheBlocks :=
  truncated ← truncate_groups num_computed (kcb_blocks bs)
    (single_type_managers (coordinator s)) (kv_cache_groups (kvm_config s));
  mret (create_kv_cache_blocks s truncated).

(** ** Hand-over to the workers *)

Definition kvm_take_new_block_ids : M KVCacheManager (list Z) :=
  ids ← on_coordinator (each_manager (λ _, take_new_block_ids)); mret (concat ids).

Definition get_zeroing_block_ids_in_range (rid : string) (start_token end_token : Z)
    : M KVCacheManager (list Z) :=
  ids ← on_coordinator (each_manager (λ _,
    m ← self id;
    if _record_new_block_ids m then
      bs ← req_blocks rid;
      mret (block_id <$> py_slice bs (start_token / block_size m) (cdiv end_token (block_size m)))
    else mret []));
  mret (concat ids).

Definition record_blocks_for_zeroing (rid : string) (start_token : Z) : M KVCacheManager unit :=
  on_coordinator (each_manager (λ _,
    m ← self id;
    when (_record_new_block_ids m)
      (assert (start_token mod block_size m =? 0);;
       bs ← req_blocks rid;
       update_self (λ m, set_new_block_ids
         (new_block_ids m ++ (block_id <$> py_slice bs (start_token / block_size m) (zlen bs))) m)));;
    mret tt).

(** The copies, as pairs of block ids, and the blocks they keep alive. *)
Definition take_kv_cache_block_copies : M KVCacheManager (list (Z * Z) * list ref) :=
  pending ← on_coordinator (each_manager (λ _, take_pending_cow_copies));
  let pairs := concat pending in
  mret ((λ p, (block_id p.1, block_id p.2)) <$> pairs, concat ((λ p, [p.1; p.2]) <$> pairs)).

(** One entry of [mgr.take_pending_partial_tail_offloads()]: the block is pinned. *)
Definition pin_offload (acc : gmap string (list (Z * Z * Z))) (o : string * Z * ref * Z)
    : M KVCacheManager (gmap string (list (Z * Z * Z))) :=
  let '(req_id, group_id, b, boundary_tokens) := o in
  on_blocks (touch [b]);;
  modify (λ s, set_pins (<[req_id := default [] (_partial_tail_pins s !! req_id) ++ [b]]>
                           (_partial_tail_pins s)) s);;
  mret (<[req_id := default [] (acc !! req_id) ++ [(group_id, block_id b, boundary_tokens)]]> acc).

Definition take_partial_tail_offloads : M KVCacheManager (gmap string (list (Z * Z * Z))) :=
  n ← gets (length ∘ single_type_managers ∘ coordinator);
  fold_each (seq 0 n) (λ acc i,
    os ← on_coordinator (on_manager i take_pending_partial_tail_offloads);
    fold_each os pin_offload acc) ∅.

Definition kvm_new_step_starts : M KVCacheManager unit := on_coordinator coord_new_step_starts.
