(* ===== verification/KVCacheFacts.v ===== *)
(** The invariant of the KV cache manager and the specification of [allocate_slots]: the
    sequence of checks, trimming, admission or extension, and registration. *)

From S2P Require Import Prelude MathUtils Request BlockHash BlockHashFacts FreeQueue.
From S2P Require Import FreeQueueFacts BlockPool BlockPoolFacts BlockPoolSpec BlockPoolTheorems.
From S2P Require Import Managers ManagerFacts AllocationFacts ReleaseFacts RegistrationFacts.
From S2P Require Import Coordinator CoordinatorFacts CoordinatorSteps KVCacheManager.

Set Warnings "-level-tolerance,-clear-no-such-hyp".

(** ** The configuration of the managers is constant *)

Definition same_config (c c' : Coordinator) : Prop :=
  Forall2 (λ m m', static m' = static m) (single_type_managers c) (single_type_managers c').

Definition keeps_config {A} (op : M Coordinator A) : Prop := ∀ c, same_config c (op c).2.

#[global] Instance same_config_refl : Reflexive same_config.
Proof. intros c. by apply Forall_Forall2_diag, Forall_forall. Qed.
#[global] Instance same_config_trans : Transitive same_config.
Proof. intros c1 c2 c3. apply Forall2_trans. simpl. congruence. Qed.

Section config.
Implicit Types (c : Coordinator).

Lemma kc_ret {A} (a : A) : keeps_config (mret a).
Proof using. intros c. simpl. reflexivity. Qed.
Lemma kc_raise {A} e : keeps_config (raise (A := A) e).
Proof using. intros c. simpl. reflexivity. Qed.
Lemma kc_gets {A} (f : Coordinator → A) : keeps_config (gets f).
Proof using. intros c. simpl. reflexivity. Qed.
Lemma kc_get : keeps_config get.
Proof using. intros c. simpl. reflexivity. Qed.
Lemma kc_assert b : keeps_config (assert b).
Proof using. destruct b; [apply kc_ret|apply kc_raise]. Qed.
Lemma kc_when b (op : M Coordinator unit) : keeps_config op → keeps_config (when b op).
Proof using. by destruct b; [|intros _; apply kc_ret]. Qed.
Lemma kc_bind {A B} (m : M Coordinator A) (f : A → M Coordinator B) :
  keeps_config m → (∀ a, keeps_config (f a)) → keeps_config (m ≫= f).
Proof using.
  intros Hm Hf c. unfold mbind, M_bind. specialize (Hm c).
  destruct (m c) as [[e|a] c1]; simpl in *; [done|]. by etrans; [|apply Hf].
Qed.
Lemma kc_each {A} (op : nat → M GroupState A) : (∀ i, keeps_static (op i)) → keeps_config (each_manager op).
Proof using.
  intros H c. destruct (each_manager op c) as [r c'] eqn:E. by eapply each_manager_static.
Qed.

Lemma wp_config {A} (op : M Coordinator A) Q c :
  keeps_config op → wp op Q c → wp op (λ a c', same_config c c' ∧ Q a c') c.
Proof using.
  intros Hk (a & c' & E & HQ). exists a, c'. split; [done|]. split; [|done].
  specialize (Hk c). by rewrite E in Hk.
Qed.
End config.

Section ops_config.
Context (sha256 : bytes → bytes) (use_int : bool).

Lemma kc_trim id n np : keeps_config (coord_remove_skipped_blocks id n np).
Proof using.
  unfold coord_remove_skipped_blocks. apply kc_bind; [|intros; apply kc_ret].
  apply kc_each. intros _. apply ks_remove_skipped.
Qed.
Lemma kc_free id : keeps_config (coord_free id).
Proof using.
  unfold coord_free. apply kc_bind; [|intros; apply kc_ret]. apply kc_each. intros _. apply ks_free.
Qed.
Lemma kc_new_computed id ncbs loc ext : keeps_config (allocate_new_computed_blocks use_int id ncbs loc ext).
Proof using.
  unfold allocate_new_computed_blocks. apply kc_bind; [apply kc_gets|]. intros [|]; [apply kc_assert|].
  apply kc_bind; [apply kc_each; intros i; apply ks_bind; [apply ks_lift_option|intros; apply ks_add_local]|].
  intros _. apply kc_when, kc_bind; [|intros; apply kc_ret]. apply kc_each. intros _. apply ks_external.
Qed.
Lemma kc_allocate id n main enc : keeps_config (coord_allocate_new_blocks use_int id n main enc).
Proof using.
  unfold coord_allocate_new_blocks. apply kc_each. intros _.
  apply ks_bind; [apply ks_self|]. intros spec. apply ks_allocate.
Qed.
Lemma kc_cache request n : keeps_config (coord_cache_blocks sha256 use_int request n).
Proof using.
  unfold coord_cache_blocks. apply kc_bind; [apply kc_get|]. intros c.
  apply kc_bind; [|intros; apply kc_ret]. apply kc_each. intros _.
  apply ks_bind; [apply ks_self|]. intros m. apply ks_cache.
Qed.
End ops_config.

(** ** The invariant *)

(** What the manager needs of its groups: attention of a supported kind, no pending partial
    hit, and with caching on, registration at whole blocks. *)
Record group_ok (s : KVCacheManager) (m : Manager) : Prop := {
  go_kind : is_attention (mgr_kind m) = true ∧ kind_ok (mgr_kind m);
  go_caching : mgr_enable_caching m = kvm_enable_caching s;
  go_cfg : kvm_enable_caching s = true → register_cfg (block_pool (coordinator s)) m;
  go_partial : _partial_hit_reqs m = ∅;
}.

Definition managers (s : KVCacheManager) : list Manager := single_type_managers (coordinator s).
Definition pool (s : KVCacheManager) : BlockPool := block_pool (coordinator s).

Record kvm_inv (s : KVCacheManager) (l : list ref) : Prop := {
  ki_coord : coord_inv (table_refs (_partial_tail_pins s)) (coordinator s) l;
  ki_pins : ∀ id bs, _partial_tail_pins s !! id = Some bs → Forall (in_pool (pool s)) bs;
  ki_caching : enable_caching (pool s) = kvm_enable_caching s;
  ki_reg : kvm_enable_caching s = true → coord_reg (coordinator s);
  ki_groups : ∀ i m, managers s !! i = Some m → group_ok s m;
  ki_sched : 0 < coord_scheduler_block_size (coordinator s)
             ∧ 0 ≤ num_reprefillable_tokens (coordinator s) ∧ 0 < hash_block_size (pool s);
  ki_num : length (kv_cache_groups (kvm_config s)) = length (managers s);
  ki_watermark : 0 ≤ watermark_blocks s;
}.

Lemma wp_bind_inv {St A B} (op : M St A) (f : A → M St B) Q (st : St) :
  wp (op ≫= f) Q st → wp op (λ a st', wp (f a) Q st') st.
Proof.
  intros (b & st2 & E & HQ). unfold mbind, M_bind in E. destruct (op st) as [[e|a] st1] eqn:Em; [done|].
  exists a, st1. split; [done|]. by exists b, st2.
Qed.

Section inv.
Implicit Types (s : KVCacheManager) (c : Coordinator) (l : list ref) (m : Manager).

Lemma wp_on_coordinator {A} (op : M Coordinator A) (Q : A → KVCacheManager → Prop) s :
  wp op (λ a c', Q a (set_coordinator c' s)) (coordinator s) → wp (on_coordinator op) Q s.
Proof using. apply wp_zoom. Qed.

(** A step of the coordinator keeps the invariant. *)
Lemma kvm_inv_step s l c' l' :
  kvm_inv s l → coord_inv (table_refs (_partial_tail_pins s)) c' l' → same_coord (coordinator s) c' →
  same_config (coordinator s) c' →
  (kvm_enable_caching s = true → coord_reg c') →
  (∀ i m', single_type_managers c' !! i = Some m' → _partial_hit_reqs m' = ∅) →
  kvm_inv (set_coordinator c' s) l'.
Proof using.
  intros [H1 H2 H3 H4 H5 (H6 & H7 & H10) H8 H9] Hc (E & Hconf & Hlen) Hcfg Hreg Hp.
  split; unfold pool, managers, kvm_config in *; simpl in *; try done.
  - intros id bs Hid. eapply Forall_impl; [by eapply H2|]. intros b. by apply in_pool_conf.
  - rewrite <-H3. apply Hconf.
  - intros i m' Hm'. destruct (Forall2_lookup_r _ _ _ _ _ Hcfg Hm') as (m & Hm & Hst).
    destruct (H5 i m Hm) as [G1 G2 G3 G4]. pose proof Hst as Hst'. unfold static in Hst'.
    injection Hst' as E1 _ _ E4 _ _ _ _. split; simpl.
    + unfold mgr_kind in *. by rewrite E1.
    + congruence.
    + intros Hca. eapply register_cfg_static; [done..|]. by apply G3.
    + by eapply Hp.
  - split_and!; [by rewrite E..|]. by destruct Hconf as (_ & _ & -> & _).
  - rewrite Hlen, <-H8. by rewrite E.
Qed.

Lemma kvm_group s l i m :
  kvm_inv s l → managers s !! i = Some m →
  is_attention (mgr_kind m) = true ∧ kind_ok (mgr_kind m) ∧ ∀ id, _partial_hit_reqs m !! id = None.
Proof using.
  intros H Hi. destruct (ki_groups _ _ H i m Hi) as [[? ?] _ _ Ep]. split_and!; try done.
  intros id. by rewrite Ep, lookup_empty.
Qed.

Lemma free_blocks_len s l : kvm_inv s l → get_num_free_blocks (pool s) = zlen l.
Proof using. intros H. exact (inv_num_free _ _ _ (ci_pool _ _ _ (ki_coord _ _ H))). Qed.
End inv.

(** ** The calls of [allocate_slots] *)

Section slots.
Context (sha256 : bytes → bytes) (use_int : bool) (s : KVCacheManager) (l : list ref).
Context (request : Request) (a : SlotArgs).

#[local] Abbreviation id := (request_id request).
#[local] Abbreviation ext := (num_external_computed_tokens a).

Definition passed_blocks : KVCacheBlocks :=
  default (empty_kv_cache_blocks s) (new_computed_blocks a).
Definition local_tokens : Z := num_computed_tokens request + num_new_computed_tokens a.
Definition total_tokens : Z := Z.min (local_tokens + ext) (kvm_max_model_len s).
Definition main_tokens : Z := total_tokens + num_new_tokens a.
Definition slot_tokens : Z := Z.min (main_tokens + num_lookahead_tokens a) (kvm_max_model_len s).
Definition processed_tokens : Z := Z.max 0 (total_tokens - num_in_flight_tokens request).

(** What holds of every call. *)
Record call_ok : Prop := {
  co_work : ¬ (num_new_tokens a = 0 ∧ ext = 0);
  co_tokens : 0 ≤ num_computed_tokens request ∧ 0 ≤ num_new_computed_tokens a ∧ 0 ≤ ext
              ∧ 0 ≤ num_new_tokens a ∧ 0 ≤ num_lookahead_tokens a;
  co_model_len : local_tokens + ext ≤ kvm_max_model_len s ∧ num_tokens request ≤ kvm_max_model_len s;
  co_prompt : 0 ≤ num_prompt_tokens request;
  co_reserved : 0 ≤ reserved_blocks a;
  co_hashes : num_tokens request / hash_block_size (pool s) ≤ zlen (block_hashes request);
}.

(** A request without hits, new or running: its tables cover its computed tokens. *)
Record extend_call : Prop := {
  ec_blocks : passed_blocks = empty_kv_cache_blocks s;
  ec_tokens : num_new_computed_tokens a = 0 ∧ ext = 0;
  ec_holds : ∀ i m, managers s !! i = Some m → holds_computed id (num_computed_tokens request) m;
}.

(** A new request with hits for its local tokens in every group, at block boundaries. *)
Record admit_call : Prop := {
  ac_blocks : is_empty_object passed_blocks = false ∨ 0 < ext;
  ac_hits : ∀ i m, managers s !! i = Some m →
    ∃ ncb, kcb_blocks passed_blocks !! i = Some ncb
      ∧ hits_ok (mkGroup (pool s) m) id ncb local_tokens ext;
  ac_aligned : ∀ i m, managers s !! i = Some m → local_tokens mod block_size m = 0;
}.

(** The slots of one group after a successful call. *)
Record slots_of (ncb : list ref) (m m' : Manager) : Prop := {
  so_len : cdiv slot_tokens (block_size m) ≤ zlen (table m' id);
  so_max : zlen (table m' id) ≤ Z.max (zlen (table m id)) (cdiv slot_tokens (block_size m));
  so_other : ∀ id', id' ≠ id → table m' id' = table m id';
  so_counts : keeps_counts id m m';
  so_pending : _pending_cow_copies m' = _pending_cow_copies m;
  so_kept : ∀ t b, 0 ≤ t → still_read (mgr_kind m) (num_prompt_tokens request) processed_tokens t →
    table m id !! Z.to_nat (t / block_size m) = Some b →
    table m' id !! Z.to_nat (t / block_size m) = Some b;
  so_hits : ncb ≠ [] →
    replicate (Z.to_nat (skipped_blocks m (local_tokens + ext))) (null_block (pool s))
      ++ kept_hits m ncb (local_tokens + ext) `prefix_of` table m' id;
}.

(** The prediction and the allocation of a call. *)
Definition predict_slots : M Coordinator Z :=
  coord_get_num_blocks_to_allocate id slot_tokens (kcb_blocks passed_blocks)
    (num_encoder_tokens a) (local_tokens + ext) local_tokens main_tokens false.
Definition predict_full : M Coordinator Z :=
  let full := Z.min (num_tokens request) (kvm_max_model_len s) in
  coord_get_num_blocks_to_allocate id full (kcb_blocks passed_blocks) (num_encoder_tokens a)
    total_tokens local_tokens full true.
Definition take_slots : M Coordinator (list (list ref)) :=
  when (negb (is_empty_object passed_blocks) || (0 <? ext))
    (allocate_new_computed_blocks use_int id (kcb_blocks passed_blocks) local_tokens ext);;
  coord_allocate_new_blocks use_int id slot_tokens main_tokens (num_encoder_tokens a).

#[local] Abbreviation pins := (table_refs (_partial_tail_pins s)).
#[local] Abbreviation trims := (trimmed id (null_block (pool s)) (num_prompt_tokens request) processed_tokens).

(** The middle part of a call, from the trimmed state [c1]. *)
Definition takes (c1 : Coordinator) (l1 : list ref) : Prop :=
  ∃ n, predict_slots c1 = (inr n, c1)
    ∧ (n ≤ zlen l1 → wp take_slots (λ xs c2, ∃ l2, coord_inv pins c2 l2 ∧ same_coord c1 c2
         ∧ zlen l1 - n ≤ zlen l2
         ∧ (kvm_enable_caching s = true → coord_reg c1 → coord_reg c2)
         ∧ (∀ i m1 m2, single_type_managers c1 !! i = Some m1 → single_type_managers c2 !! i = Some m2 →
              _partial_hit_reqs m2 = ∅
              ∧ ∀ m, managers s !! i = Some m → trims m m1 →
                  slots_of (default [] (kcb_blocks passed_blocks !! i)) m m2
                  ∧ (extend_call → xs !! i = Some (drop (length (table m id)) (table m2 id))))) c1).

Context (H : kvm_inv s l) (Hcall : call_ok).

Lemma total_tokens_eq : total_tokens = local_tokens + ext.
Proof using Hcall. unfold total_tokens. pose proof (co_model_len Hcall). lia. Qed.

Lemma extend_takes c1 l1 :
  extend_call → coord_inv pins c1 l1 → same_coord (coordinator s) c1 →
  (∀ i m m1, managers s !! i = Some m → single_type_managers c1 !! i = Some m1 →
     static m1 = static m ∧ trims m m1) →
  takes c1 l1.
Proof using H Hcall.
  intros [E1 [E2 E3] E4] H1 Hs1 Hm1.
  assert (∀ i m1, single_type_managers c1 !! i = Some m1 → ∃ m, managers s !! i = Some m
    ∧ is_attention (mgr_kind m1) = true ∧ _partial_hit_reqs m1 = ∅ ∧ holds_computed id local_tokens m1
    ∧ block_size m1 = block_size m ∧ trims m m1) as Hg.
  { intros i m1 Hi. destruct (same_coord_lookup _ _ _ _ Hs1 Hi) as [m Hm].
    destruct (Hm1 i m m1 Hm Hi) as [Hst Htr]. unfold static in Hst. injection Hst as Es _ Eb _ _ _ _ _.
    destruct (ki_groups _ _ H i m Hm) as [[Hatt _] _ _ Ep].
    exists m. split; [done|]. unfold mgr_kind in *. rewrite Es. split_and!; try done.
    - by rewrite (tr_partial _ _ _ _ _ _ Htr).
    - unfold local_tokens. rewrite E2, Z.add_0_r. unfold holds_computed, skipped_blocks, mgr_kind.
      rewrite Es, Eb, (tr_cached _ _ _ _ _ _ Htr), (tr_len _ _ _ _ _ _ Htr). by apply (E4 i). }
  assert (kcb_blocks passed_blocks = replicate (length (managers s)) []) as Eb.
  { rewrite E1. unfold empty_kv_cache_blocks. simpl. by rewrite (ki_num _ _ H). }
  assert (length (single_type_managers c1) = length (managers s)) as El by apply Hs1.
  eexists. split.
  { unfold predict_slots. apply coord_predict_extend. intros i m1 Hi.
    destruct (Hg i m1 Hi) as (m & Hm & Hatt & _ & Hh & _). split_and!; [done| |].
    - by rewrite E3, Z.add_0_r.
    - rewrite Eb. apply lookup_replicate_2. rewrite <-El. by eapply lookup_lt_Some. }
  intros Hn. unfold take_slots. rewrite E1, E3. simpl. wp_steps.
  eapply wp_mono; [apply (coord_extend use_int id pins c1 l1); [done| |exact Hn]|].
  { intros i m1 Hi. destruct (Hg i m1 Hi) as (m & Hm & Hatt & Hp & _). by rewrite Hp, lookup_empty. }
  simpl. intros xs c2 (l2 & H2 & Hs2 & Hl2 & Hr2 & Hx). exists l2. split; [done|]. split; [done|]. split; [done|]. split.
  { intros Hca. apply Hr2. rewrite <-Hca, <-(ki_caching _ _ H). by apply Hs1. }
  intros i m1 m2 Hi1 Hi2. destruct (Hx i m1 m2 Hi1 Hi2) as (x & Hxi & [X1 X2 X3 X4 X5 X6]).
  destruct (Hg i m1 Hi1) as (m & Hm & _ & Hp & _ & Hb & Htr). split; [congruence|].
  intros m' Hm' _. simplify_eq. destruct Htr as [T1 T2 T3 T4 T5 T6 T7]. split.
  2: { intros _. rewrite Hxi, X2, drop_app_length'; [done|]. unfold zlen in T1. lia. }
  split.
  - rewrite X1, Hb. lia.
  - rewrite X1, Hb, T1. lia.
  - intros id' ?. by rewrite X3, T4.
  - intros id' ?. by rewrite X5, T6.
  - congruence.
  - intros t b Ht Hsr Hb'. rewrite X2. apply lookup_app_l_Some. by rewrite T3.
  - rewrite (ki_num _ _ H). destruct (decide (i < length (managers s))%nat).
    + by rewrite lookup_replicate_2.
    + rewrite (proj2 (lookup_ge_None _ _)); [done|]. rewrite length_replicate. lia.
Qed.

(** Hits survive the trimming of an empty table. *)
Lemma hits_trimmed c1 m m1 ncb :
  same_coord (coordinator s) c1 → static m1 = static m → trims m m1 →
  hits_ok (mkGroup (pool s) m) id ncb local_tokens ext →
  hits_ok (mkGroup (block_pool c1) m1) id ncb local_tokens ext.
Proof using.
  intros Hs1 Hst [T1 T2 T3 T4 T5 T6 _] Hok. apply (hits_ok_conf id local_tokens ext (pool s)); [apply Hs1|].
  destruct Hok as [O1 (O2 & O3 & O4) O5 O6 O7 O8 O9]; simpl in *.
  unfold static in Hst. injection Hst as Es _ Eb Ec _ _ _ _.
  split; simpl; unfold mgr_kind in *; rewrite ?Es, ?Eb, ?Ec, ?T5, ?T6; try done.
  split; [|done]. apply length_zero_iff_nil. rewrite O2 in T1. unfold zlen in T1. simpl in T1. lia.
Qed.

Lemma admit_takes c1 l1 :
  admit_call → coord_inv pins c1 l1 → same_coord (coordinator s) c1 →
  (∀ i m m1, managers s !! i = Some m → single_type_managers c1 !! i = Some m1 →
     static m1 = static m ∧ trims m m1) →
  takes c1 l1.
Proof using H Hcall.
  intros [A1 A2 A3] H1 Hs1 Hm1.
  assert (∀ i m1, single_type_managers c1 !! i = Some m1 → ∃ m ncb, managers s !! i = Some m
    ∧ static m1 = static m ∧ trims m m1 ∧ kcb_blocks passed_blocks !! i = Some ncb
    ∧ hits_ok (mkGroup (pool s) m) id ncb local_tokens ext
    ∧ hits_ok (mkGroup (block_pool c1) m1) id ncb local_tokens ext) as Hg.
  { intros i m1 Hi. destruct (same_coord_lookup _ _ _ _ Hs1 Hi) as [m Hm].
    destruct (Hm1 i m m1 Hm Hi) as [Hst Htr]. destruct (A2 i m Hm) as (ncb & Hn & Hok).
    exists m, ncb. split_and!; try done. by eapply hits_trimmed. }
  assert (∀ i m1, single_type_managers c1 !! i = Some m1 → ∃ ncb, kcb_blocks passed_blocks !! i = Some ncb
    ∧ hits_ok (mkGroup (block_pool c1) m1) id ncb local_tokens ext) as Hhits.
  { intros i m1 Hi. destruct (Hg i m1 Hi) as (m & ncb & _ & _ & _ & ? & _ & ?). eauto. }
  assert (local_tokens + ext ≤ slot_tokens) as Hle.
  { unfold slot_tokens, main_tokens. rewrite total_tokens_eq.
    pose proof (co_tokens Hcall). pose proof (co_model_len Hcall). lia. }
  eexists. split; [by apply (coord_prediction pins c1 l1)|]. intros Hn. unfold take_slots.
  assert (negb (is_empty_object passed_blocks) || (0 <? ext) = true) as ->.
  { destruct A1 as [->|A1]; [done|]. by rewrite (proj2 (Z.ltb_lt 0 ext) A1), orb_true_r. }
  eapply wp_mono; [by apply (coord_admission use_int pins c1 l1)|]. simpl.
  intros xs c2 (l2 & H2 & Hs2 & Hpl & _ & Hl2 & Hr2).
  assert (∀ i m1, single_type_managers c1 !! i = Some m1 → local_tokens mod block_size m1 = 0) as Hal.
  { intros i m1 Hi. destruct (Hg i m1 Hi) as (m & ncb & Hm & Hst & _). unfold static in Hst.
    injection Hst as _ _ -> _ _ _ _ _. by apply (A3 i). }
  exists l2. split; [done|]. split; [done|]. split; [done|]. split.
  { intros Hca Hr. apply Hr2; [|done]. split; [|exact Hal].
    rewrite <-Hca, <-(ki_caching _ _ H). by apply Hs1. }
  intros i m1 m2 Hi1 Hi2. destruct (Hg i m1 Hi1) as (m & ncb & Hm & Hst & Htr & Hn' & Hok & Hok1).
  destruct (Hpl i m1 m2 Hi1 Hi2) as (ncb' & Hncb & Hp).
  assert (ncb' = ncb) as -> by congruence.
  destruct Hp as [L1 L2 L3 L4 L5 L6 L7 L8 L9 L10]. pose proof (aligned_no_partial m1 ncb _ (Hal i m1 Hi1)) as Hnp.
  pose proof Hst as Hst'. unfold static in Hst'. injection Hst' as Es _ Eb _ _ _ _ _. split.
  - rewrite L8 by done. rewrite (tr_partial _ _ _ _ _ _ Htr). apply (go_partial _ _ (ki_groups _ _ H i m Hm)).
  - intros m' Hm' _. assert (m' = m) as -> by congruence.
    destruct Htr as [T1 T2 T3 T4 T5 T6 T7]. rewrite Hncb. simpl. split.
    2: { intros [E1 [_ E2] _]. rewrite E1, E2 in A1. by destruct A1. }
    split.
    + rewrite L3, Eb. lia.
    + rewrite L3, Eb. lia.
    + intros id' ?. by rewrite L5, T4.
    + intros id' ?. by rewrite L9, T6.
    + by rewrite L10.
    + intros t b _ _. destruct (ho_new _ _ _ _ _ Hok) as (E0 & _). simpl in E0. by rewrite E0.
    + intros _. specialize (L4 Hnp). unfold kept_hits, skipped_blocks, mgr_kind in *.
      rewrite Es, Eb in L4. assert (null_block (block_pool c1) = null_block (pool s)) as En by apply Hs1.
      by rewrite <-En.
Qed.

(** The tables after a refused call: trimmed, or untouched. *)
Definition refused (s' : KVCacheManager) : Prop :=
  ∀ i m m', managers s !! i = Some m → managers s' !! i = Some m' → m' = m ∨ trims m m'.

(** Why a call was refused. *)
Definition too_small (s' : KVCacheManager) : Prop :=
  (full_sequence_must_fit a = true ∧ s' = s ∧ ∃ n,
     predict_full (coordinator s) = (inr n, coordinator s)
     ∧ get_num_free_blocks (pool s) < n + applied_watermark s request a)
  ∨ ∃ n, predict_slots (coordinator s') = (inr n, coordinator s')
      ∧ get_num_free_blocks (pool s') - reserved_blocks a < n + applied_watermark s request a.

Definition slots_result (res : option KVCacheBlocks) (s' : KVCacheManager) : Prop :=
  match res with
  | None => refused s' ∧ too_small s'
  | Some new => reserved_blocks a + applied_watermark s request a ≤ get_num_free_blocks (pool s')
      ∧ ∀ i m m', managers s !! i = Some m → managers s' !! i = Some m' →
      slots_of (default [] (kcb_blocks passed_blocks !! i)) m m'
      ∧ (extend_call → kcb_blocks new !! i = Some (drop (length (table m id)) (table m' id)))
  end.
End slots.

Lemma wp_free_count (Q : Z → KVCacheManager → Prop) s :
  Q (get_num_free_blocks (pool s)) s → wp (on_blocks (gets get_num_free_blocks)) Q s.
Proof.
  intros HQ. unfold on_blocks, on_coordinator, on_block_pool. wp_steps.
  destruct s as [? ? ? ? ? []]. exact HQ.
Qed.

Lemma seq_on_coordinator {A} b (X : M Coordinator unit) (Y : M Coordinator A)
    (K : A → M KVCacheManager (option KVCacheBlocks)) s :
  (when b (on_coordinator X);; x ← on_coordinator Y; K x) s
  = (x ← on_coordinator (when b X;; Y); K x) s.
Proof.
  unfold on_coordinator, zoom, mbind, M_bind, when, mret, M_ret. destruct b; simpl.
  - destruct (X (coordinator s)) as [[e|u] c1]; [done|]. simpl. destruct (Y c1) as [[e|x] c2]; by destruct s.
  - by destruct (Y (coordinator s)) as [[e|x] c2].
Qed.

Lemma wp_ext {St A} (op op' : M St A) Q (st : St) : op st = op' st → wp op' Q st → wp op Q st.
Proof. intros E (a & st' & E' & HQ). exists a, st'. by rewrite E. Qed.

Section allocate.
Context (sha256 : bytes → bytes) (use_int : bool) (s : KVCacheManager) (l : list ref).
Context (request : Request) (a : SlotArgs).
Context (H : kvm_inv s l) (Hcall : call_ok s request a).

#[local] Abbreviation id := (request_id request).
#[local] Abbreviation np := (num_prompt_tokens request).

(** Registration after a successful allocation. *)
Lemma register_step c2 l2 (n : Z) :
  coord_inv (table_refs (_partial_tail_pins s)) c2 l2 → same_coord (coordinator s) c2 →
  same_config (coordinator s) c2 → (kvm_enable_caching s = true → coord_reg c2) →
  0 ≤ n ≤ num_tokens request → n ≤ slot_tokens s request a →
  (∀ i m m2, managers s !! i = Some m → single_type_managers c2 !! i = Some m2 →
     _partial_hit_reqs m2 = ∅ ∧ cdiv (slot_tokens s request a) (block_size m) ≤ zlen (table m2 id)) →
  wp (when (kvm_enable_caching s && negb (delay_cache_blocks a))
        (on_coordinator (coord_cache_blocks sha256 use_int request n)))
    (λ _ s', kvm_inv s' l2 ∧ ∃ c3, s' = set_coordinator c3 s
       ∧ same_config c2 c3 ∧ same_coord c2 c3 ∧ ∀ i m2 m3, single_type_managers c2 !! i = Some m2 → single_type_managers c3 !! i = Some m3 →
           same_tables id m2 m3) (set_coordinator c2 s).
Proof using H Hcall.
  intros H2 Hs2 Hcfg2 Hr2 Hn Hslot Hm2.
  assert (∀ i m2, single_type_managers c2 !! i = Some m2 → ∃ m, managers s !! i = Some m
    ∧ static m2 = static m) as Hst.
  { intros i m2 Hi. destruct (Forall2_lookup_r _ _ _ _ _ Hcfg2 Hi) as (m & Hm & E). eauto. }
  assert (kvm_inv (set_coordinator c2 s) l2) as Hinv2.
  { eapply kvm_inv_step; try done. intros i m2 Hi. destruct (Hst i m2 Hi) as (m & Hm & _).
    by apply (Hm2 i m). }
  apply wp_when; intros Hon.
  - apply andb_true_iff in Hon as [Hca _]. destruct (ki_sched _ _ H) as (Hsb & Hre & Hhb).
    apply wp_on_coordinator. simpl.
    eapply wp_mono; [apply wp_config; [apply kc_cache|];
      apply (coord_register sha256 use_int (table_refs (_partial_tail_pins s)) c2 l2 request n H2 (Hr2 Hca))|].
    + lia.
    + destruct Hs2 as (-> & _). done.
    + destruct Hs2 as (-> & _). done.
    + assert (hash_block_size (block_pool c2) = hash_block_size (pool s)) as -> by apply Hs2.
      etrans; [|apply (co_hashes _ _ _ Hcall)]. apply Z.div_le_mono; [done|lia].
    + intros i m2 Hi. destruct (Hst i m2 Hi) as (m & Hm & E).
      pose proof (go_cfg _ _ (ki_groups _ _ H i m Hm) Hca) as Hcfg.
      split; [eapply register_cfg_static; [apply Hs2|done|done]|].
      unfold static in E. injection E as _ _ -> _ _ _ _ _. pose proof (rc_bsz _ _ Hcfg) as Hb.
      destruct (Hm2 i m m2 Hm Hi) as [_ Hlen]. etrans; [|exact Hlen].
      etrans; [by apply cdiv_div_le|]. by apply cdiv_mono.
    + simpl. intros _ c3 (Hc3 & H3 & Hs3 & Hr3 & Ht3). split.
      * apply (kvm_inv_step (set_coordinator c2 s) l2); try done.
        intros i m3 Hi. destruct (Forall2_lookup_r _ _ _ _ _ Hc3 Hi) as (m2 & Hm2' & _).
        destruct (Ht3 i m2 m3 Hm2' Hi) as (_ & -> & _). by apply (go_partial _ _ (ki_groups _ _ Hinv2 i m2 Hm2')).
      * exists c3. split; [by destruct s|]. by split_and!.
  - split; [done|]. exists c2. split; [done|]. split; [done|]. split; [done|]. intros i m2 m3 ? ?. simplify_eq. split; done.
Qed.

Lemma no_new_blocks (bss : list (list ref)) i bs :
  existsb (λ group, negb (zlen group =? 0)) bss = false → bss !! i = Some bs → bs = [].
Proof using.
  intros Hno Hi. destruct bs as [|b bs]; [done|]. exfalso. apply not_true_iff_false in Hno. apply Hno.
  apply existsb_exists. exists (b :: bs). split; [apply list_elem_of_In; by eapply list_elem_of_lookup_2|].
  rewrite zlen_cons. pose proof (zlen_nonneg bs). rewrite (proj2 (Z.eqb_neq _ _)); [done|lia].
Qed.

(** The admission check of the whole sequence only reads. *)
Lemma full_check_step :
  extend_call s request a ∨ admit_call s request a →
  wp (if full_sequence_must_fit a then
        let full_num_tokens := Z.min (num_tokens request) (kvm_max_model_len s) in
        n ← on_coordinator (coord_get_num_blocks_to_allocate id full_num_tokens
              (kcb_blocks (passed_blocks s a)) (num_encoder_tokens a) (total_tokens s request a)
              (local_tokens request a) full_num_tokens true);
        free ← on_blocks (gets get_num_free_blocks);
        mret (n + applied_watermark s request a <=? free)
      else mret true)
    (λ fits s', s' = s ∧ (fits = false → too_small s request a s)) s.
Proof using H Hcall.
  intros Hmode. destruct (full_sequence_must_fit a) eqn:Efull; [|by wp_steps].
  destruct (coord_predict_total _ (coordinator s) l id (Z.min (num_tokens request) (kvm_max_model_len s))
    (num_encoder_tokens a) (total_tokens s request a) (local_tokens request a)
    (Z.min (num_tokens request) (kvm_max_model_len s)) (kcb_blocks (passed_blocks s a)) true (ki_coord _ _ H))
    as [n En].
  { intros i m Hm. split; [by apply (kvm_group _ _ _ _ H Hm)|]. destruct Hmode as [[E1 _ _]|[_ E2 _]].
    - exists []. split_and!; [|done|done]. rewrite E1. simpl. apply lookup_replicate_2.
      rewrite (ki_num _ _ H). by eapply lookup_lt_Some.
    - destruct (E2 i m Hm) as (ncb & Hn & Hok). exists ncb. split_and!; [done|apply Hok|].
      destruct (ho_new _ _ _ _ _ Hok) as (_ & Enc & _). simpl in Enc. rewrite Enc. by intros [? ?]. }
  apply wp_bind, wp_on_coordinator. exists n, (coordinator s). split; [exact En|].
  apply wp_bind, wp_free_count. wp_steps. split; [by destruct s|]. intros Hlt%Z.leb_gt.
  left. split_and!; [done..|]. exists n. by split.
Qed.

Lemma allocate_slots_spec :
  extend_call s request a ∨ admit_call s request a →
  wp (allocate_slots sha256 use_int request a)
    (λ res s', ∃ l', kvm_inv s' l' ∧ s' = set_coordinator (coordinator s') s
       ∧ same_config (coordinator s) (coordinator s') ∧ same_coord (coordinator s) (coordinator s')
       ∧ slots_result s request a res s') s.
Proof using H Hcall.
  intros Hmode. unfold allocate_slots. wp_steps.
  assert ((num_new_tokens a =? 0) && (num_external_computed_tokens a =? 0) = false) as ->.
  { pose proof (co_work _ _ _ Hcall). destruct (Z.eqb_spec (num_new_tokens a) 0),
      (Z.eqb_spec (num_external_computed_tokens a) 0); try done. tauto. }
  fold (passed_blocks s a) (local_tokens request a). fold (total_tokens s request a).
  fold (main_tokens s request a). fold (slot_tokens s request a) (processed_tokens s request a).
  apply wp_bind. eapply wp_mono; [by apply full_check_step|]. simpl. intros fits s0 (-> & Hfits).
  destruct fits; simpl.
  2: { wp_steps. exists l. split; [done|]. split; [by destruct s|]. split; [done|]. split; [done|].
       split; [intros i m m' ? ?; left; congruence|auto]. }
  clear Hfits. apply wp_bind, wp_on_coordinator.
  eapply wp_mono; [apply wp_config; [apply kc_trim|];
    apply (coord_trim id _ _ l (processed_tokens s request a) np (ki_coord _ _ H))|].
  { unfold processed_tokens. lia. }
  { apply (co_prompt _ _ _ Hcall). }
  { intros i m Hm. destruct (kvm_group _ _ _ _ H Hm) as (? & ? & ?). auto. }
  simpl. intros _ c1 (Hc1 & l1 & H1 & Hs1 & Hr1 & Ht1).
  assert (∀ i m m1, managers s !! i = Some m → single_type_managers c1 !! i = Some m1 →
    static m1 = static m ∧ trimmed id (null_block (pool s)) np (processed_tokens s request a) m m1) as Hm1.
  { intros i m m1 Hm Hi. split; [by eapply (Forall2_lookup_lr _ _ _ _ _ _ Hc1)|by eapply Ht1]. }
  assert (takes use_int s request a c1 l1) as (n & En & Htake).
  { destruct Hmode; [by eapply extend_takes|by eapply admit_takes]. }
  apply wp_bind, wp_on_coordinator. exists n, c1. split; [exact En|].
  change (set_coordinator c1 (set_coordinator c1 s)) with (set_coordinator c1 s).
  apply wp_bind, wp_free_count.
  change (pool (set_coordinator c1 s)) with (block_pool c1).
  rewrite (inv_num_free _ _ _ (ci_pool _ _ _ H1)).
  assert (∀ i m1, single_type_managers c1 !! i = Some m1 → _partial_hit_reqs m1 = ∅) as Hp1.
  { intros i m1 Hi. destruct (same_coord_lookup _ _ _ _ Hs1 Hi) as [m Hm].
    destruct (Hm1 i m m1 Hm Hi) as [_ Htr]. rewrite (tr_partial _ _ _ _ _ _ Htr).
    apply (go_partial _ _ (ki_groups _ _ H i m Hm)). }
  destruct (Z.ltb_spec (zlen l1 - reserved_blocks a) (n + applied_watermark s request a)) as [Hlt|Hge].
  { wp_steps. exists l1. split; [|split; [done|split; [done|split; [done|]]]].
    - eapply kvm_inv_step; try done. intros Hca. apply Hr1. by apply (ki_reg _ _ H).
    - split.
      + intros i m m1 Hm Hi. right. by apply (Hm1 i).
      + right. exists n. split; [exact En|]. unfold pool. simpl.
        by rewrite (inv_num_free _ _ _ (ci_pool _ _ _ H1)). }
  eapply wp_ext; [apply seq_on_coordinator|]. apply wp_bind, wp_on_coordinator. simpl.
  assert (0 ≤ applied_watermark s request a) as Hw.
  { unfold applied_watermark. pose proof (ki_watermark _ _ H). destruct (_ && _); lia. }
  pose proof (co_reserved _ _ _ Hcall).
  eapply wp_mono; [apply wp_config; [|by apply Htake; lia]|].
  { apply kc_bind; [apply kc_when, kc_new_computed|]. intros _. apply kc_allocate. }
  simpl. intros new_blocks c2 (Hc2 & l2 & H2 & Hs2 & Hl2 & Hr2 & Hm2).
  change (set_coordinator c2 (set_coordinator c1 s)) with (set_coordinator c2 s).
  assert (∀ i m2, single_type_managers c2 !! i = Some m2 → ∃ m1, single_type_managers c1 !! i = Some m1) as Hback.
  { intros i m2 Hi. by eapply same_coord_lookup. }
  apply wp_bind. eapply wp_mono.
  { eapply (register_step c2 l2 (Z.min (main_tokens s request a) (num_tokens request))); [done|by etrans|by etrans|..].
    - intros Hca. apply Hr2; [done|]. by apply Hr1, (ki_reg _ _ H).
    - destruct (co_tokens _ _ _ Hcall). destruct (co_model_len _ _ _ Hcall).
      pose proof (zlen_nonneg (_all_token_ids request)).
      unfold main_tokens, num_tokens in *. rewrite (total_tokens_eq s request a Hcall). unfold local_tokens. lia.
    - destruct (co_tokens _ _ _ Hcall). destruct (co_model_len _ _ _ Hcall). unfold slot_tokens. lia.
    - intros i m m2 Hm Hi. destruct (Hback i m2 Hi) as [m1 Hi1].
      destruct (Hm2 i m1 m2 Hi1 Hi) as [? Hso]. split; [done|].
      destruct (Hso m Hm) as [[] _]; [by apply (Hm1 i)|done]. }
  simpl. intros _ s3 (H3 & c3 & -> & Hc3 & Hs3 & Ht3). wp_steps. exists l2. split; [done|]. split; [done|].
  split; [by etrans; [|etrans]|]. split; [by etrans; [|etrans]|]. split.
  { rewrite (free_blocks_len _ _ H3). lia. }
  intros i m m3 Hm Hi3.
  assert (∃ m2, single_type_managers c2 !! i = Some m2) as [m2 Hi2].
  { apply lookup_lt_is_Some_2. pose proof (lookup_lt_Some _ _ _ Hm) as Hlt.
    destruct Hs1 as (_ & _ & E1). destruct Hs2 as (_ & _ & E2). unfold managers in Hlt. lia. }
  destruct (Hback i m2 Hi2) as [m1 Hi1]. destruct (Hm2 i m1 m2 Hi1 Hi2) as [_ Hso].
  destruct (Hso m Hm) as [[S1 S5 S2 S6 S7 S3 S4] Hnew]; [by apply (Hm1 i)|].
  destruct (Ht3 i m2 m3 Hi2 Hi3) as (T & _ & Tc & Tp). split.
  - split; rewrite ?T; try done.
    + intros id' ?. rewrite T. by apply S2.
    + intros id' ?. by rewrite Tc, S6.
    + congruence.
  - intros Hex. rewrite T. specialize (Hnew Hex). unfold create_kv_cache_blocks.
    destruct (existsb _ new_blocks) eqn:Eb; [done|]. simpl. rewrite (ki_num _ _ H).
    rewrite lookup_replicate_2 by (by eapply lookup_lt_Some). f_equal.
    symmetry. by eapply no_new_blocks.
Qed.
End allocate.

(** ** Changes of the pool *)

Section pool.
Implicit Types (s : KVCacheManager) (c : Coordinator) (l : list ref) (p : BlockPool).

(** Registrations may disappear, never appear. *)
Definition unregisters p p' : Prop :=
  ∀ r, usable p r → ntok_of p' r = ntok_of p r ∨ ntok_of p' r = None.

Lemma reg_ok_unregister p p' ms : same_conf p p' → unregisters p p' → reg_ok p ms → reg_ok p' ms.
Proof using.
  intros Hc Hu [R1 R2 R3].
  assert (∀ b, usable p' b → usable p b) as Hb by (intros b; apply usable_conf; by symmetry).
  split; [|intros i m id j b Hm Hb' Hat|done].
  - intros. eapply R1; eauto.
  - pose proof (R2 i m id j b Hm (Hb b Hb') Hat). destruct (Hu b (Hb b Hb')); congruence.
Qed.

(** The pool releases the references [bs] of the frame. *)
Lemma coord_inv_pool F F' c l p' l' :
  coord_inv F c l → pool_inv p' l' → same_conf (block_pool c) p' → (∀ r, 0 ≤ F' r) →
  (∀ r, usable (block_pool c) r → rc p' r - F' r = rc (block_pool c) r - F r) →
  coord_inv F' (set_state p' (single_type_managers c) c) l'.
Proof using.
  intros [H1 H2 H3 H4] Hinv Hc HF Hrc. split; simpl; try done.
  - intros r Hr. assert (usable (block_pool c) r) as Hu by (eapply usable_conf; [symmetry; exact Hc|done]).
    specialize (Hrc r Hu). rewrite (H3 r Hu) in Hrc. lia.
  - intros i m Hm. eapply mgr_ok_conf; [done|]. by eapply H4.
Qed.

(** A step of the pool alone. *)
Lemma kvm_pool_step s l p' l' pins' :
  kvm_inv s l → pool_inv p' l' → same_conf (pool s) p' → unregisters (pool s) p' →
  (∀ r, usable (pool s) r →
     rc p' r - table_refs pins' r = rc (pool s) r - table_refs (_partial_tail_pins s) r) →
  (∀ id bs, pins' !! id = Some bs → Forall (in_pool (pool s)) bs) →
  kvm_inv (set_pins pins' (set_coordinator (set_state p' (managers s) (coordinator s)) s)) l'.
Proof using.
  intros [H1 H2 H3 H4 H5 (H6 & H7 & H10) H8 H9] Hinv Hc Hu Hrc Hp.
  split; unfold pool, managers, kvm_config in *; simpl in *; try done.
  - eapply coord_inv_pool; [exact H1|done..| |done]. intros r. apply table_refs_nonneg.
  - intros id bs Hid. eapply Forall_impl; [by eapply Hp|]. intros b. by apply in_pool_conf.
  - rewrite <-H3. apply Hc.
  - intros Hca. eapply reg_ok_unregister; [done..|]. by apply H4.
  - intros i m Hm. destruct (H5 i m Hm) as [G1 G2 G3 G4]. split; simpl; try done.
    intros Hca. eapply register_cfg_static; [done..|]. by apply G3.
  - split_and!; [done..|]. by destruct Hc as (_ & _ & -> & _).
Qed.

Lemma same_hashes_unregisters p p' : same_hashes p p' → unregisters p p'.
Proof using. intros [H _] r _. left. apply H. Qed.

Lemma forgotten_unregisters p xs p' : forgotten p xs p' → unregisters p p'.
Proof using.
  intros [_ H1 H2 _] r Hr. destruct (decide (r ∈ xs)) as [Hx|Hx]; [right; by apply H1|left].
  apply H2; [|done]. by eapply usable_is_blk.
Qed.
End pool.

(** ** Releasing a request *)

Lemma kvm_free_spec s l request :
  kvm_inv s l →
  wp (kvm_free request) (λ _ s', ∃ l', kvm_inv s' l'
     ∧ s' = set_pins (delete (request_id request) (_partial_tail_pins s))
              (set_coordinator (coordinator s') s)
     ∧ same_config (coordinator s) (coordinator s') ∧ same_coord (coordinator s) (coordinator s')
     ∧ ∀ i m m', managers s !! i = Some m → managers s' !! i = Some m' →
         (∀ id, table m' id = if decide (id = request_id request) then [] else table m id)
         ∧ num_cached_block m' = delete (request_id request) (num_cached_block m)
         ∧ _pending_cow_copies m' = _pending_cow_copies m) s.
Proof.
  intros H. set (id := request_id request). unfold kvm_free. fold id. wp_steps.
  set (bs := default [] (_partial_tail_pins s !! id)).
  set (pins' := delete id (_partial_tail_pins s)).
  assert (Forall (in_pool (pool s)) bs) as Hbs.
  { unfold bs. destruct (_partial_tail_pins s !! id) as [bs'|] eqn:E; [|constructor].
    by eapply (ki_pins _ _ H). }
  assert (∀ r, table_refs (_partial_tail_pins s) r = occ r bs + table_refs pins' r) as Hsplit.
  { intros r. unfold pins'. rewrite table_refs_delete. unfold bs. lia. }
  assert (∀ id' bs', pins' !! id' = Some bs' → Forall (in_pool (pool s)) bs') as Hp'.
  { intros id' bs' [_ Hid]%lookup_delete_Some. by eapply (ki_pins _ _ H). }
  eapply (wp_mono _ (λ _ s1, ∃ l1, kvm_inv s1 l1
    ∧ s1 = set_pins pins' (set_coordinator (coordinator s1) s) ∧ managers s1 = managers s
    ∧ same_coord (coordinator s) (coordinator s1))).
  { apply wp_when; intros Hne.
    - unfold on_blocks. apply wp_on_coordinator. unfold on_block_pool. apply wp_zoom. simpl.
      eapply wp_mono; [apply (free_blocks_spec _ l); [apply (ki_coord _ _ H)|split; [done|]]|].
      + intros r Hr. rewrite (ci_refs _ _ _ (ki_coord _ _ H) r Hr), Hsplit.
        pose proof (table_refs_nonneg pins' r).
        assert (0 ≤ total_refs (managers s) r); [|unfold managers in *; lia].
        apply sum_list_nonneg, Forall_fmap, Forall_forall. intros m _. apply mgr_refs_nonneg.
      + simpl. intros _ p' (Hinv & Hc & Hh & _ & Hrc). eexists. split_and!; try done.
        * eapply (kvm_pool_step s l p' _ pins' H); [exact Hinv|done|by apply same_hashes_unregisters| |done].
          intros r _. rewrite Hrc, Hsplit. unfold pool. lia.
    - assert (bs = []) as Eb.
      { apply negb_false_iff, Z.eqb_eq in Hne. fold bs in Hne. destruct bs; [done|].
        rewrite zlen_cons in Hne. pose proof (zlen_nonneg bs). lia. }
      exists l. split_and!; try done.
      assert (set_pins pins' s = set_pins pins' (set_coordinator (set_state (pool s) (managers s) (coordinator s)) s)) as ->.
      { unfold set_pins, set_coordinator, managers, pool. simpl. by destruct (coordinator s). }
      apply (kvm_pool_step s l); [done|apply (ki_coord _ _ H)|done|by left| |done].
      intros r _. rewrite Hsplit, Eb, occ_nil. lia. }
  simpl. intros _ s1 (l1 & H1 & Ep1 & Em1 & Hc1). apply wp_on_coordinator.
  eapply wp_mono; [apply wp_config; [apply kc_free|apply (coord_release _ _ l1 id (ki_coord _ _ H1))]|].
  simpl. intros _ c2 (Hcfg & l2 & H2 & Hs2 & Hr2 & Hf). exists l2. split; [|split; [|split; [|split]]].
  - eapply kvm_inv_step; try done.
    + intros Hca. by apply Hr2, (ki_reg _ _ H1).
    + intros i m' Hi. destruct (same_coord_lookup _ _ _ _ Hs2 Hi) as [m Hm].
      destruct (Hf i m m' Hm Hi) as (_ & _ & -> & _).
      rewrite (go_partial _ _ (ki_groups _ _ H1 i m Hm)). apply delete_empty.
  - simpl. by rewrite Ep1.
  - unfold same_config in *. simpl. fold (managers s). by rewrite <-Em1.
  - etrans; [exact Hc1|apply Hs2].
  - intros i m m' Hm Hm'. rewrite <-Em1 in Hm. destruct (Hf i m m' Hm Hm') as (E1 & E2 & _ & E4).
    split_and!; [|done|done].
    intros id'. unfold table. rewrite E1, lookup_delete. repeat case_decide; by subst.
Qed.
