(* ===== verification/KVCacheSteps.v ===== *)
(** The KV cache manager from construction on: the initial state satisfies the invariant, and
    the calls of the scheduler keep it. *)

From S2P Require Import Prelude MathUtils Request BlockHash BlockHashFacts FreeQueue.
From S2P Require Import FreeQueueFacts BlockPool BlockPoolFacts BlockPoolSpec BlockPoolTheorems.
From S2P Require Import Managers ManagerFacts AllocationFacts ReleaseFacts RegistrationFacts.
From S2P Require Import Coordinator CoordinatorFacts CoordinatorSteps CoordinatorTheorems.
From S2P Require Import KVCacheManager KVCacheFacts.

Set Warnings "-level-tolerance,-clear-no-such-hyp".

(** ** Construction *)

(** The configurations the invariant covers: attention groups without sinks, full attention at
    the granularity of the hashes, one decode context rank. *)
Record supported (cfg : KVCacheConfig) (sched_block_size hash_bsz dcp : Z) (caching : bool)
    : Prop := {
  sup_group : ∀ g, g ∈ kv_cache_groups cfg →
    0 < spec_block_size (group_spec g) ∧ is_attention (spec_kind (group_spec g)) = true
    ∧ kind_ok (spec_kind (group_spec g))
    ∧ match spec_kind (group_spec g) with
      | FullAttentionSpec | RSWASpec _ => caching = true → spec_block_size (group_spec g) = hash_bsz
      | SinkFullAttentionSpec _ => False
      | _ => True
      end;
  sup_groups : zlen (kv_cache_groups cfg) < 2 ^ 32;
  sup_sizes : 0 < hash_bsz ∧ 0 < sched_block_size;
  sup_dcp : dcp ≤ 1;
}.

Section init.
Implicit Types (cfg : KVCacheConfig) (c : Coordinator) (m : Manager) (g : KVCacheGroupSpec).

Lemma set_use_eagle_id m : set_use_eagle (use_eagle m) m = m.
Proof using. by destruct m. Qed.

Lemma new_managers_lookup gs i mif mml caching sbs dcp zeroing p ms p' :
  new_managers gs i mif mml caching sbs dcp zeroing p = (inr ms, p') →
  length ms = length gs ∧ ∀ k m, ms !! k = Some m → ∃ g, gs !! k = Some g
    ∧ m = new_manager (group_spec g) mif mml caching (i + Z.of_nat k) sbs dcp zeroing.
Proof using.
  revert i p ms p'. induction gs as [|g gs IH]; intros i p ms p' H; simpl in H.
  { injection H as <- _. split; [done|]. intros k m Hk. by rewrite lookup_nil in Hk. }
  unfold mbind, M_bind in H.
  destruct (accepts_keywords (group_spec g)); [|done]. simpl in *.
  destruct (take_sink_blocks _ _ p) as [[e|xs] p1]; [done|].
  destruct (new_managers gs (i + 1) _ _ _ _ _ _ p1) as [[e|ms0] p2] eqn:E; [done|].
  injection H as <- _. destruct (IH _ _ _ _ E) as [El Hl]. split; [simpl; lia|].
  intros [|k] m Hk; simpl in Hk.
  - injection Hk as <-. exists g. by rewrite Z.add_0_r.
  - destruct (Hl k m Hk) as (g' & Hg' & ->). exists g'. split; [done|].
    by replace (i + 1 + Z.of_nat k) with (i + Z.of_nat (S k)) by lia.
Qed.

(** The managers of a new coordinator: built from the groups, up to the eagle flag. *)
Definition built cfg mif mml caching sbs dcp c : Prop :=
  length (single_type_managers c) = length (kv_cache_groups cfg)
  ∧ ∀ i m, single_type_managers c !! i = Some m → ∃ g e, kv_cache_groups cfg !! i = Some g
    ∧ m = set_use_eagle e (new_manager (group_spec g) mif mml caching (Z.of_nat i) sbs dcp
                             (needs_kv_cache_zeroing cfg)).

(** What the constructor checked. *)
Definition checked cfg sbs c : Prop :=
  coord_config c = cfg ∧ coord_scheduler_block_size c = sbs ∧ 0 ≤ num_reprefillable_tokens c
  ∧ ∀ g, g ∈ kv_cache_groups cfg → sbs mod spec_block_size (group_spec g) = 0.

Lemma base_built kind cfg mml mif eagle caching events dcp pcp sbs hbs npl c :
  base_coordinator kind cfg mml mif eagle caching events dcp pcp sbs hbs npl = inr c →
  built cfg mif mml caching sbs dcp c ∧ checked cfg sbs c
  ∧ coord_hash_block_size c = hbs ∧ coord_dcp_world_size c = dcp.
Proof using.
  unfold base_coordinator. intros H. destruct (_ && forallb _ _) eqn:Ea; [|done]. simpl in H.
  apply andb_prop in Ea as [_ Ea]. rewrite forallb_forall in Ea.
  destruct (BlockPool_init _ _ _ _) as [|pool]; [done|]. simpl in H.
  destruct (caching && _ && _); [done|].
  destruct (new_managers _ _ _ _ _ _ _ _ pool) as [[e|ms] pool'] eqn:Em; [done|]. simpl in H.
  destruct (_validate_prefix_cache_retention_interval _ _ _); [done|]. simpl in H.
  injection H as <-. apply new_managers_lookup in Em as [El Hl]. unfold built, checked. simpl.
  split_and!; try done; [|lia|].
  - intros i m Hm. destruct (Hl i m Hm) as (g & Hg & ->). exists g. eexists. split; [done|].
    rewrite Z.add_0_l. symmetry. apply set_use_eagle_id.
  - intros g Hg. apply Z.eqb_eq, Ea. by apply list_elem_of_In.
Qed.

(** With caching on, every manager's blocks are whole hash units. *)
Lemma coordinator_built cfg mml mif eagle caching events dcp pcp sbs hbs npl c :
  dcp ≤ 1 →
  get_kv_cache_coordinator cfg mml mif eagle caching events dcp pcp sbs hbs npl = inr c →
  built cfg mif mml caching sbs dcp c ∧ checked cfg sbs c
  ∧ (caching = true → ∀ m, m ∈ single_type_managers c → block_size m mod hbs = 0).
Proof using.
  intros Hd H. unfold get_kv_cache_coordinator in H. destruct caching; simpl in H.
  2: { apply base_built in H as (? & ? & _). by split_and!. }
  destruct (_ =? 1); apply result_bind_inr in H as (c0 & Hb & H);
    apply base_built in Hb as ([Hl Hb] & Hc & Eh & Ed).
  - unfold unitary_setup in H.
    apply result_bind_inr in H as (g & Hg & H). apply result_bind_inr in H as (u & Ha & H).
    apply result_bind_inr in H as (u' & Hone & H). injection H as <-.
    assert (built cfg mif mml true sbs dcp (set_state (block_pool c0)
      (alter (set_use_eagle (bool_decide (0 ∈ eagle_group_ids c0))) 0%nat (single_type_managers c0)) c0))
      as [Hl' Hb'].
    { split; simpl; [by rewrite length_alter|]. intros i m. destruct i as [|i].
      - rewrite list_lookup_alter_eq. destruct (single_type_managers c0 !! 0%nat) as [m0|] eqn:E; [|done].
        intros [= <-]. destruct (Hb 0%nat m0 E) as (g' & e & Hg' & ->). by exists g', (bool_decide (0 ∈ eagle_group_ids c0)).
      - rewrite list_lookup_alter_ne by done. apply Hb. }
    split_and!; [by split|done|]. intros _ m Hm. apply list_elem_of_lookup in Hm as [i Hi].
    destruct (Hb' i m Hi) as (g' & e & Hg' & ->). simpl.
    unfold result_assert in Ha, Hone. destruct (zlen _ =? 1) eqn:E1; [|done]. apply Z.eqb_eq in E1.
    destruct (_ || _) eqn:E2; [|done]. simpl in E2. apply Z.eqb_eq in E2.
    destruct Hc as (Ec & _). rewrite Ec in *. destruct (kv_cache_groups cfg) as [|g0 [|g1 gs]]; try done.
    + simpl in Hg. injection Hg as ->. destruct i; [|done]. injection Hg' as ->.
      rewrite (proj2 (Z.ltb_ge 1 dcp)) by done. simpl. rewrite Ed, (proj2 (Z.ltb_ge 1 dcp)) in E2 by done.
      rewrite <-E2, <-Eh. apply Z_mod_same_full.
    + rewrite !zlen_cons in E1. pose proof (zlen_nonneg gs). lia.
  - unfold hybrid_setup, verify_and_split_kv_cache_groups in H.
    apply result_bind_inr in H as (u & Ha & H). apply result_bind_inr in H as (? & _ & H).
    apply result_bind_inr in H as (? & _ & H). apply result_bind_inr in H as (? & _ & H).
    apply result_bind_inr in H as (first & _ & H). apply result_bind_inr in H as (gid & _ & H).
    injection H as <-. unfold result_assert in Ha. destruct (forallb _ _) eqn:E; [|done].
    rewrite forallb_forall in E. split_and!; [split; simpl; [by rewrite length_imap|]|done|].
    + intros i m. rewrite list_lookup_imap. destruct (single_type_managers c0 !! i) as [m0|] eqn:E0; [|done].
      destruct (Hb i m0 E0) as (g & e & Hg & Em). simpl. intros [= <-]. exists g.
      case_bool_decide; [|by exists e]. exists true. split; [done|]. by rewrite Em.
    + intros _ m Hm. simpl in Hm. apply list_elem_of_lookup in Hm as [i Hi]. rewrite list_lookup_imap in Hi.
      destruct (single_type_managers c0 !! i) as [m0|] eqn:E0; [|done]. simpl in Hi. injection Hi as <-.
      assert (block_size m0 mod hbs = 0) as Hm0.
      { rewrite <-Eh. apply Z.eqb_eq, E. apply list_elem_of_In. by eapply list_elem_of_lookup_2. }
      by case_bool_decide.
Qed.

Lemma built_group cfg mif mml caching sbs hbs dcp c i m :
  supported cfg sbs hbs dcp caching → built cfg mif mml caching sbs dcp c → checked cfg sbs c →
  single_type_managers c !! i = Some m →
  is_attention (mgr_kind m) = true ∧ kind_ok (mgr_kind m) ∧ mgr_enable_caching m = caching
  ∧ (caching = true → hash_block_size (block_pool c) = hbs → block_size m mod hbs = 0 →
     register_cfg (block_pool c) m).
Proof using.
  intros [Hg Hn [Hh Hs] Hd] [Hl Hb] (_ & _ & _ & Hmod) Hi. destruct (Hb i m Hi) as (g & e & Hgi & ->).
  assert (g ∈ kv_cache_groups cfg) as Hin by (by eapply list_elem_of_lookup_2).
  destruct (Hg g Hin) as (H1 & H2 & H3 & H4). split_and!; try done. intros -> Eh Hu.
  assert (block_size (set_use_eagle e (new_manager (group_spec g) mif mml true (Z.of_nat i) sbs dcp
    (needs_kv_cache_zeroing cfg))) = spec_block_size (group_spec g)) as Eb.
  { simpl. by rewrite (proj2 (Z.ltb_ge 1 dcp)). }
  split; rewrite ?Eh, ?Eb; try done.
  - unfold mgr_kind. simpl. destruct (spec_kind (group_spec g)); try done; by apply H4.
  - rewrite Eb in Hu. by apply Z.mod_divide; [lia|].
  - by apply Hmod.
  - simpl. apply lookup_lt_Some in Hgi. unfold zlen in Hn. lia.
Qed.

Lemma fresh_reg c : Forall fresh_mgr (single_type_managers c) → coord_reg c.
Proof using.
  intros Hf. rewrite Forall_lookup in Hf.
  assert (∀ i m id j b, single_type_managers c !! i = Some m → uncached_at m id j b → False) as Hno.
  { intros i m id j b Hm [Ht _]. destruct (Hf i m Hm) as (_ & E & _). unfold table in Ht.
    by rewrite E, lookup_empty in Ht. }
  split; [naive_solver..|]. intros i m id Hm. destruct (Hf i m Hm) as (_ & _ & E & _).
  unfold cached_blocks. by rewrite E, lookup_empty.
Qed.

Lemma KVCacheManager_init_inv cfg mml sbs hbs mif caching eagle npl stats events dcp pcp wok wm md s :
  KVCacheManager_init cfg mml sbs hbs mif caching eagle npl stats events dcp pcp wok wm md = inr s →
  supported cfg sbs hbs dcp caching → 0 ≤ wm →
  kvm_inv s (Blk <$> seq 1 (Z.to_nat (num_blocks cfg) - 1))
  ∧ Forall fresh_mgr (managers s) ∧ fresh_pool (num_blocks cfg) caching hbs events (pool s)
  ∧ _partial_tail_pins s = ∅.
Proof using.
  unfold KVCacheManager_init. intros H Hsup Hwm. apply result_bind_inr in H as (c & Hc & H).
  apply result_bind_inr in H as (u & _ & H). injection H as <-. unfold managers, pool. simpl.
  destruct (coordinator_built _ _ _ _ _ _ _ _ _ _ _ _ (sup_dcp _ _ _ _ _ Hsup) Hc) as (Hb & Hch & Hu).
  apply coordinator_init_inv in Hc as (Hinv & Hf & Hp).
  2: { intros g Hg. destruct (sup_group _ _ _ _ _ Hsup g Hg) as (? & _ & _ & Hk). split; [done|].
       intros n E. by rewrite E in Hk. }
  destruct Hp as (Hpi & Hnum & Hca & Hh & Hrest). split_and!; try done. split; unfold managers, pool, kvm_config; simpl.
  - exact Hinv.
  - intros id bs. by rewrite lookup_empty.
  - done.
  - intros _. by apply fresh_reg.
  - intros i m Hm. destruct (built_group _ _ _ _ _ _ _ _ _ _ Hsup Hb Hch Hm) as (G1 & G2 & G3 & G4).
    split; unfold pool; simpl; [done|done| |].
    + intros Ec. apply G4; [done..|]. apply Hu; [done|]. by eapply list_elem_of_lookup_2.
    + rewrite Forall_lookup in Hf. by destruct (Hf i m Hm) as (_ & _ & _ & ? & _).
  - destruct Hch as (_ & -> & ? & _). destruct (sup_sizes _ _ _ _ _ Hsup). rewrite Hh. by split_and!.
  - destruct Hch as (-> & _). by rewrite (proj1 Hb).
  - done.
Qed.
End init.

(** ** The other calls *)

Section calls.
Context (sha256 : bytes → bytes) (use_int : bool).
Implicit Types (s : KVCacheManager) (l : list ref) (p : BlockPool).

(** A step of the pool that keeps the counts. *)
Lemma kvm_pool_keep {A} (op : M BlockPool A) (Q : A → BlockPool → Prop) s l :
  kvm_inv s l →
  wp op (λ a p', Q a p' ∧ pool_inv p' l ∧ same_conf (pool s) p' ∧ unregisters (pool s) p'
                 ∧ same_rc (pool s) p') (pool s) →
  wp (on_blocks op) (λ a s', kvm_inv s' l ∧ Q a (pool s') ∧ managers s' = managers s
    ∧ s' = set_coordinator (coordinator s') s) s.
Proof using.
  intros H (a & p' & E & HQ & Hinv & Hc & Hu & Hrc).
  apply wp_on_coordinator, wp_zoom. exists a, p'. split; [exact E|]. split_and!; try done.
  pose proof (kvm_pool_step s l p' l (_partial_tail_pins s) H Hinv Hc Hu) as K.
  apply K.
  - intros r _. by rewrite Hrc.
  - intros id bs. apply (ki_pins _ _ H).
Qed.

Lemma no_hash_no_ntok p l r : pool_inv p l → is_blk r → hash_of p r = None → ntok_of p r = None.
Proof using.
  intros Hinv [i ->] Hh. unfold hash_of, ntok_of in *. destruct (bk p (Blk i)) as [b|] eqn:E; [|done].
  simpl in *. destruct (ok_ntok _ _ _ (inv_blocks _ _ _ Hinv i b E)) as [_ Hn].
  destruct (_block_hash_num_tokens b); [|done]. destruct Hn as [? ?]; [done|congruence].
Qed.

Lemma kvm_evict_spec s l ids :
  kvm_inv s l → Forall (λ i, 0 ≤ i < num_gpu_blocks (pool s)) ids →
  wp (kvm_evict_blocks use_int ids) (λ _ s', kvm_inv s' l ∧ managers s' = managers s
    ∧ s' = set_coordinator (coordinator s') s) s.
Proof using.
  intros H Hids. eapply wp_mono; [apply (kvm_pool_keep _ (λ _ _, True) s l H)|].
  - eapply wp_mono; [apply (evict_blocks_spec use_int (pool s) l ids); [apply (ki_coord _ _ H)|done]|].
    simpl. intros _ p' (Hinv & Hf & Hrc). split_and!; try done; [apply Hf|by eapply forgotten_unregisters].
  - simpl. tauto.
Qed.

Lemma kvm_inv_stats s l st : kvm_inv s l → kvm_inv (set_stats st s) l.
Proof using. intros [? ? ? ? Hg ? ? ?]. split; try done. intros i m Hm. by destruct (Hg i m Hm). Qed.

(** The pool operations behind the next two calls. *)
Lemma reset_keeps p l :
  pool_inv p l →
  wp reset_prefix_cache (λ ok p', (zlen l = num_gpu_blocks p - 1 → ok = true) ∧ pool_inv p' l
    ∧ same_conf p p' ∧ unregisters p p' ∧ same_rc p p') p.
Proof using.
  intros Hp. pose proof (reset_prefix_cache_spec p l Hp) as Hr. case_decide; (eapply wp_mono; [exact Hr|]); simpl.
  - intros ok p' (-> & Hinv & Hc & Hrc & Hno & _). split_and!; try done. intros r Hr'. right.
    assert (is_blk r) as Hb by (by eapply usable_is_blk).
    eapply no_hash_no_ntok; [done..|]. by apply Hno.
  - intros ok p' (_ & ->). split_and!; try done. by left.
Qed.

Lemma take_events_keeps p l :
  pool_inv p l →
  wp take_events (λ _ p', pool_inv p' l ∧ same_conf p p' ∧ unregisters p p' ∧ same_rc p p') p.
Proof using.
  intros Hinv. unfold take_events. wp_steps. destruct (negb _); wp_steps; split_and!; try done; try (by left).
  by apply pool_inv_events.
Qed.

Lemma kvm_reset_spec s l :
  kvm_inv s l → is_Some (prefix_cache_stats s) ∨ log_stats s = false →
  wp kvm_reset_prefix_cache (λ ok s', kvm_inv s' l ∧ managers s' = managers s
    ∧ kvm_max_model_len s' = kvm_max_model_len s ∧ log_stats s' = log_stats s
    ∧ (is_Some (prefix_cache_stats s) → is_Some (prefix_cache_stats s'))) s.
Proof using.
  intros H Hst. unfold kvm_reset_prefix_cache. apply wp_bind.
  eapply wp_mono; [apply (kvm_pool_keep _ (λ _ _, True) s l H)|].
  - eapply wp_mono; [apply (reset_keeps (pool s) l), (ki_coord _ _ H)|]. simpl. intros ok p' (_ & ?). done.
  - simpl. intros ok s' (H' & _ & Em & Es).
    assert (kvm_max_model_len s' = kvm_max_model_len s ∧ log_stats s' = log_stats s
      ∧ prefix_cache_stats s' = prefix_cache_stats s) as (Ep & El & Et) by (by rewrite Es).
    destruct ok; simpl; [|by wp_steps; rewrite Et]. wp_steps.
    apply wp_when; intros Hl; [|by wp_steps; rewrite Et].
    assert (is_Some (prefix_cache_stats s')) as [st ->].
    { rewrite Et. destruct Hst as [?|E]; [done|]. congruence. }
    wp_steps. split_and!; [by apply kvm_inv_stats|done..|]. by eexists.
Qed.

Lemma kvm_take_events_spec s l :
  kvm_inv s l →
  wp kvm_take_events (λ _ s', kvm_inv s' l ∧ managers s' = managers s
    ∧ s' = set_coordinator (coordinator s') s) s.
Proof using.
  intros H. unfold kvm_take_events. apply wp_bind.
  eapply wp_mono; [apply (kvm_pool_keep _ (λ _ _, True) s l H)|].
  - eapply wp_mono; [apply (take_events_keeps (pool s) l), (ki_coord _ _ H)|]. simpl. intros evs p' ?. done.
  - simpl. intros evs s' (? & _ & ? & ?). by wp_steps.
Qed.

Lemma kvm_trim_spec s l rid processed np :
  kvm_inv s l → 0 ≤ processed → 0 ≤ np →
  wp (kvm_remove_skipped_blocks rid processed (Some np)) (λ _ s', ∃ l', kvm_inv s' l'
    ∧ s' = set_coordinator (coordinator s') s ∧ same_config (coordinator s) (coordinator s')
    ∧ ∀ i m m', managers s !! i = Some m → managers s' !! i = Some m' →
        trimmed rid (null_block (pool s)) np processed m m') s.
Proof using.
  intros H Hp Hnp. apply wp_on_coordinator.
  eapply wp_mono; [apply wp_config; [apply kc_trim|];
    apply (coord_trim rid _ _ l processed np (ki_coord _ _ H) Hp Hnp)|].
  { intros i m Hm. destruct (kvm_group _ _ _ _ H Hm) as (? & ? & ?). auto. }
  simpl. intros _ c1 (Hc1 & l1 & H1 & Hs1 & Hr1 & Ht1). exists l1. split; [|done].
  eapply kvm_inv_step; try done.
  - intros Hca. by apply Hr1, (ki_reg _ _ H).
  - intros i m1 Hi. destruct (same_coord_lookup _ _ _ _ Hs1 Hi) as [m Hm].
    rewrite (tr_partial _ _ _ _ _ _ (Ht1 i m m1 Hm Hi)). apply (go_partial _ _ (ki_groups _ _ H i m Hm)).
Qed.

(** Registration of the blocks of [n] tokens. *)
Record registrable_call s (request : Request) (n : Z) : Prop := {
  rq_tokens : 0 ≤ n;
  rq_hashes : n / hash_block_size (pool s) ≤ zlen (block_hashes request);
  rq_table : ∀ i m, managers s !! i = Some m → n / block_size m ≤ zlen (table m (request_id request));
}.

Lemma kvm_register_spec s l request n :
  kvm_inv s l → registrable_call s request n →
  wp (kvm_cache_blocks sha256 use_int request n) (λ _ s', kvm_inv s' l
    ∧ s' = set_coordinator (coordinator s') s ∧ same_config (coordinator s) (coordinator s')
    ∧ ∀ i m m', managers s !! i = Some m → managers s' !! i = Some m' →
        same_tables (request_id request) m m') s.
Proof using.
  intros H [Hn Hh Ht]. unfold kvm_cache_blocks. wp_steps. apply wp_when; intros Hca.
  - apply wp_on_coordinator. destruct (ki_sched _ _ H) as (Hsb & Hre & Hhb).
    eapply wp_mono; [apply wp_config; [apply kc_cache|];
      apply (coord_register sha256 use_int _ _ l request n (ki_coord _ _ H) (ki_reg _ _ H Hca)); try done|].
    + intros i m Hm. split; [|by apply (Ht i)]. by apply (go_cfg _ _ (ki_groups _ _ H i m Hm)).
    + simpl. intros _ c1 (Hc1 & H1 & Hs1 & Hr1 & Ht1). split; [|done].
      eapply kvm_inv_step; try done. intros i m1 Hi. destruct (same_coord_lookup _ _ _ _ Hs1 Hi) as [m Hm].
      destruct (Ht1 i m m1 Hm Hi) as (_ & -> & _). apply (go_partial _ _ (ki_groups _ _ H i m Hm)).
  - split; [done|]. split; [by destruct s|]. split; [done|]. intros i m m' ? ?. simplify_eq. done.
Qed.
End calls.

(** Nothing holds a block: no table, no pin, no pending copy. *)
Definition idle (s : KVCacheManager) : Prop :=
  _partial_tail_pins s = ∅
  ∧ ∀ m, m ∈ managers s → (∀ rid, table m rid = []) ∧ _pending_cow_copies m = [].

Lemma table_refs_nil (t : tables) r : (∀ id, default [] (t !! id) = []) → table_refs t r = 0.
Proof.
  induction t as [|id bs t Hid IH] using map_ind; [done|]. intros Ht.
  rewrite table_refs_fresh by done. pose proof (Ht id) as Hbs. rewrite lookup_insert_eq in Hbs.
  simpl in Hbs. rewrite Hbs, occ_nil, IH; [done|]. intros id'. specialize (Ht id').
  destruct (decide (id = id')) as [<-|Hne]; [by rewrite Hid|by rewrite lookup_insert_ne in Ht].
Qed.

Lemma idle_refs s r : idle s → total_refs (managers s) r + table_refs (_partial_tail_pins s) r = 0.
Proof.
  intros [-> Hm]. rewrite (table_refs_nil ∅) by done. rewrite Z.add_0_r.
  induction (managers s) as [|m ms IH]; [done|]. change (mgr_refs m r + total_refs ms r = 0).
  rewrite IH by (intros; apply Hm; by right).
  destruct (Hm m) as [Ht Ec]; [by left|]. unfold mgr_refs. rewrite Ec, table_refs_nil by done. done.
Qed.

(** Nothing holds a block, so all blocks but the null block are free. *)
Lemma idle_free s l : kvm_inv s l → idle s → zlen l = num_gpu_blocks (pool s) - 1.
Proof.
  intros H Hid. pose proof (ci_pool _ _ _ (ki_coord _ _ H)) as Hp. apply (all_free_iff _ _ Hp).
  intros r Hu. pose proof (ci_refs _ _ _ (ki_coord _ _ H) r Hu) as E. unfold pool. rewrite E. by apply idle_refs.
Qed.
