(* ===== verification/KVCacheLookup.v ===== *)
(** Lookup and admission together: what [get_computed_blocks] returns is what
    [allocate_slots] expects. *)

From S2P Require Import Prelude MathUtils Request BlockHash BlockHashFacts FreeQueue.
From S2P Require Import FreeQueueFacts BlockPool BlockPoolFacts BlockPoolSpec BlockPoolTheorems.
From S2P Require Import Managers ManagerFacts AllocationFacts ReleaseFacts HitFacts WindowFacts.
From S2P Require Import SearchFacts RegistrationFacts Coordinator CoordinatorFacts CoordinatorSteps.
From S2P Require Import CommonHitFacts CoordinatorTheorems KVCacheManager KVCacheFacts.

Set Warnings "-level-tolerance,-clear-no-such-hyp".

(** ** The tables of a hit *)

Section columns.
Context (p : BlockPool) (l : list ref) (Hinv : pool_inv p l).
Implicit Types (g : SpecGroup) (c : Coordinator).

Lemma null_in_pool : in_pool p (null_block p).
Proof using Hinv. rewrite (inv_null _ _ _ Hinv). exists 0%nat. pose proof (inv_size _ _ _ Hinv). by split. Qed.

Lemma holds_in_pool h gid b : holds p h gid b → in_pool p b.
Proof using. intros (key & _ & Hu & _). by apply usable_blk. Qed.

(** One table per member, of exactly the tokens of the hit, with blocks of the pool. *)
Lemma hit_columns hashes al g cols hit :
  0 < hash_block_size p → searchable p al g → is_attention (spec_kind (sg_spec g)) = true →
  tables_for p hashes g (cols, hit) →
  length cols = length (sg_group_ids g)
  ∧ ∀ j gid col, sg_group_ids g !! j = Some gid → cols !! j = Some col →
      zlen col * spec_block_size (sg_spec g) = hit ∧ Forall (in_pool p) col.
Proof using Hinv.
  intros Hh (Hb & [k Hk] & _ & _ & Hkind) Hatt Ht.
  assert (hit_sound p (sg_group_ids g) hashes (units p g) (spec_block_size (sg_spec g)) (cols, hit) →
    length cols = length (sg_group_ids g)
    ∧ ∀ j gid col, sg_group_ids g !! j = Some gid → cols !! j = Some col →
      zlen col * spec_block_size (sg_spec g) = hit ∧ Forall (in_pool p) col) as Hfull.
  { intros [Hl Hc]. split; [done|]. intros j gid col Hj Hcol. destruct (Hc j gid col Hj Hcol) as [E He].
    split; [done|]. apply Forall_lookup. intros i b Hi.
    destruct (He i b Hi) as (h & _ & Hx). by eapply holds_in_pool. }
  unfold tables_for in Ht. destruct (spec_kind (sg_spec g)) as [| | |w extra|chunk| |]; try done; try by apply Hfull.
  - destruct Ht as [Hl Hlen He]. split; [done|]. intros j gid col Hj Hcol. split.
    { apply Hlen. simpl. by eapply list_elem_of_lookup_2. }
    apply Forall_lookup. intros i b Hi. destruct (He j gid col i b Hj Hcol Hi) as [(h & _ & Hx)|[-> _]];
      [by eapply holds_in_pool|apply null_in_pool].
  - destruct Hkind as (_ & Hc & [d Hd]). destruct Ht as (n & En & Hl & Hc'). simpl in *. split; [done|].
    assert (units p g * hash_block_size p = spec_block_size (sg_spec g)) as Eu.
    { unfold units. rewrite Hk, Z.div_mul by lia. done. }
    intros j gid col Hj Hcol. destruct (Hc' j gid col Hj Hcol) as [En' He]. split.
    { rewrite En, Eu. unfold zlen. by rewrite En'. }
    apply Forall_lookup. intros i b Hi. specialize (He i b Hi). case_decide.
    + subst b. apply null_in_pool.
    + destruct He as (h & _ & Hx). by eapply holds_in_pool.
Qed.
End columns.

(** ** Lookup *)

(** Every manager's table of the hit covers exactly the tokens of the hit. *)
Definition covers (c : Coordinator) (blocks : list (list ref)) (hit : Z) : Prop :=
  length blocks = length (single_type_managers c) ∧ ∀ i m, single_type_managers c !! i = Some m → ∃ col, blocks !! i = Some col
    ∧ zlen col * block_size m = hit ∧ Forall (in_pool (block_pool c)) col
    ∧ hit mod block_size m = 0.

(** The configurations of the lookup: one group, or several without EAGLE and partial hits and
    at most one attention group of full attention. *)
Definition lookup_cfg (c : Coordinator) : Prop :=
  coord_dcp_world_size c = 1 ∧ coord_pcp_world_size c = 1
  ∧ match coord_kind c with
    | KVCacheCoordinatorNoPrefixCache => True
    | UnitaryKVCacheCoordinator => ∃ g m,
        kv_cache_groups (coord_config c) = [g] ∧ single_type_managers c = [m]
        ∧ block_size m = spec_block_size (group_spec g) ∧ 0 ∉ eagle_group_ids c
        ∧ searchable (block_pool c) (spec_block_size (group_spec g))
            (mkSpecGroup (group_spec g) (group_layout g) [0] false)
        ∧ is_attention (spec_kind (group_spec g)) = true
    | HybridKVCacheCoordinator =>
        hybrid_static c ∧ enable_partial_hash_hits c = false
        ∧ zlen (kv_cache_groups (coord_config c)) ≤ 2 ^ 32
        ∧ (∀ g, g ∈ attention_groups c → sg_use_eagle g = false
             ∧ searchable (block_pool c) (coord_scheduler_block_size c) g
             ∧ is_attention (spec_kind (sg_spec g)) = true)
        ∧ ∃ g0 rest, attention_groups c = g0 :: rest
             ∧ Forall (λ g, is_full_attention (sg_spec g) = false) rest
    end.

Section lookup.
Context (c : Coordinator) (l : list ref) (hashes : list bytes) (limit : Z).
Context (Hinv : pool_inv (block_pool c) l) (Hhbs : 0 < hash_block_size (block_pool c)) (Hlim : 0 ≤ limit).
Context (Henough : limit / hash_block_size (block_pool c) ≤ zlen hashes).

Lemma hybrid_lookup :
  coord_kind c = HybridKVCacheCoordinator → lookup_cfg c →
  wp (coord_find_longest_cache_hit hashes limit)
    (λ res c', c' = c ∧ covers c res.1.1 res.1.2 ∧ 0 ≤ res.1.2 ≤ limit ∧ 0 ≤ res.2) c.
Proof using Hinv Hhbs Hlim Henough.
  intros Ek (Hdcp & _ & Hc). rewrite Ek in Hc. destruct Hc as (Hst & Hp & Hnum & Hg & g0 & rest & Eg & Hrest).
  assert (∀ g, g ∈ attention_groups c → sg_use_eagle g = false
    ∧ searchable (block_pool c) (coord_scheduler_block_size c) g) as Hg' by (intros g Hgin; by destruct (Hg g Hgin) as (? & ? & _)).
  pose proof (hybrid_search_ok c l hashes limit Hst Hinv Hp Hdcp Hhbs Hlim Henough Hnum Hg') as Hok.
  unfold coord_find_longest_cache_hit. wp_steps. rewrite Ek. apply wp_zoom.
  eapply wp_mono; [by eapply (hybrid_spec _ _ _ _ _ _ Hok)|]. simpl.
  intros [[blocks hit] extra] p' (-> & Hbl & Hh & He & Hall & _). simpl. split; [by destruct c|]. split; [|done].
  split; [by rewrite Hbl, (hy_managers _ _ _ _ _ _ Hok)|]. intros i m Hm. destruct Hst as [S1 S2 S3 S4 S5 S6 S7 S8].
  destruct (Forall2_lookup_r _ _ _ _ _ S2 Hm) as (gr & Hgr & Espec & Ebsz). specialize (Ebsz ltac:(lia)).
  assert (Z.of_nat i ∈ concat (sg_group_ids <$> attention_groups c)) as Hin.
  { rewrite S3. apply elem_of_py_range. apply lookup_lt_Some in Hgr. unfold zlen. lia. }
  apply list_elem_of_In, in_concat in Hin as (gids & Hgids & Hin). apply list_elem_of_In in Hgids. apply list_elem_of_In in Hin.
  apply list_elem_of_fmap in Hgids as (sg & -> & Hsg).
  destruct (Hall sg Hsg) as ([Hal _] & cols & Ht & Hcols). apply list_elem_of_lookup in Hin as [j Hj].
  destruct (Hg sg Hsg) as (_ & Hse & Hatt).
  destruct (hit_columns (block_pool c) l Hinv hashes _ sg cols hit Hhbs Hse Hatt Ht) as [Hl Hcol].
  destruct (lookup_lt_is_Some_2 cols j) as [col Hc]; [rewrite Hl; by eapply lookup_lt_Some|].
  destruct (S4 sg (Z.of_nat i) Hsg) as (gr' & Hgr' & Eg'); [by eapply list_elem_of_lookup_2|].
  rewrite Nat2Z.id in Hgr'. assert (gr' = gr) as -> by congruence.
  destruct (Hcol j _ col Hj Hc) as [Hlen Hpool]. exists col.
  pose proof (Hcols j _ Hj) as Eb. rewrite Nat2Z.id, Hc in Eb. rewrite Ebsz, Eg'.
  split_and!; try done. rewrite <-Hlen. apply Z_mod_mult.
Qed.

Lemma unitary_lookup :
  coord_kind c = UnitaryKVCacheCoordinator → lookup_cfg c →
  wp (coord_find_longest_cache_hit hashes limit)
    (λ res c', c' = c ∧ covers c res.1.1 res.1.2 ∧ 0 ≤ res.1.2 ≤ limit ∧ 0 ≤ res.2) c.
Proof using Hinv Hhbs Hlim Henough.
  intros Ek (Hdcp & Hpcp & Hc). rewrite Ek in Hc. destruct Hc as (g & m & Eg & Em & Eb & He & Hse & Hatt).
  unfold coord_find_longest_cache_hit. wp_steps. rewrite Ek. apply wp_zoom.
  unfold unitary_find_longest_cache_hit. rewrite Eg, Hdcp, Hpcp, bool_decide_false by done. simpl.
  apply wp_bind, wp_ret, wp_bind.
  set (sg := mkSpecGroup (group_spec g) (group_layout g) [0] false) in *.
  assert (valid_groups (sg_group_ids sg)) as Hv by (split; [done|]; by apply Forall_singleton).
  pose proof (group_laws (block_pool c) hashes (spec_block_size (group_spec g)) l Hinv limit Hhbs Henough sg Hse Hv) as [_ Hf].
  eapply wp_mono; [apply (Hf limit); lia|]. simpl.
  intros [cols hit] p' (-> & Hh & Hl & _ & Ht & _). wp_steps. simpl in *. split; [by destruct c|]. split; [|done].
  split; [by rewrite Em|].
  destruct (hit_columns (block_pool c) l Hinv hashes _ sg cols hit Hhbs Hse Hatt Ht) as [_ Hcol].
  intros i m' Hm'. rewrite Em in Hm'. destruct i; [|done]. injection Hm' as <-.
  destruct cols as [|col cols]; [done|]. exists col. destruct (Hcol 0%nat 0 col) as [Hlen Hpool]; [done..|].
  simpl in Hlen. rewrite Eb. split_and!; try done. rewrite <-Hlen. apply Z_mod_mult.
Qed.

Lemma lookup_spec :
  lookup_cfg c →
  wp (coord_find_longest_cache_hit hashes limit)
    (λ res c', c' = c ∧ covers c res.1.1 res.1.2 ∧ 0 ≤ res.1.2 ≤ limit ∧ 0 ≤ res.2) c.
Proof using Hinv Hhbs Hlim Henough.
  intros Hc. destruct (coord_kind c) eqn:Ek; [|by apply unitary_lookup|by apply hybrid_lookup].
  unfold coord_find_longest_cache_hit. wp_steps. rewrite Ek. wp_steps. simpl. split_and!; try done.
  split; [by rewrite length_replicate|]. intros i m Hm. exists []. split_and!; try done.
  apply lookup_replicate_2. by eapply lookup_lt_Some.
Qed.
End lookup.

(** ** Lookup, then admission *)

Section admission.
Context (sha256 : bytes → bytes) (use_int : bool) (s : KVCacheManager) (l : list ref).
Context (request : Request) (H : kvm_inv s l).

(** A request the manager does not know yet, with the hashes of its tokens; block reports off. *)
Record lookup_call : Prop := {
  lc_cfg : lookup_cfg (coordinator s);
  lc_new : ∀ i m, managers s !! i = Some m →
    table m (request_id request) = [] ∧ num_cached_block m !! request_id request = None;
  lc_tokens : num_computed_tokens request = 0 ∧ 1 ≤ num_tokens request;
  lc_hashes : num_tokens request / hash_block_size (pool s) ≤ zlen (block_hashes request);
  lc_groups : managers s ≠ [];
  lc_report : kvm_enable_kv_cache_events s = false ∨ kv_cache_report_mode request ≠ "full"%string;
}.

(** The result of a lookup: tables of exactly [n] tokens, the shared empty object for none. *)
Record found (blocks : KVCacheBlocks) (n : Z) : Prop := {
  fo_covers : covers (coordinator s) (kcb_blocks blocks) n;
  fo_bounds : 0 ≤ n < num_tokens request;
  fo_none : n = 0 → blocks = empty_kv_cache_blocks s;
  fo_some : 0 < n → managers s ≠ [] → is_empty_object blocks = false;
  fo_caching : kvm_enable_caching s = false → n = 0;
}.

Lemma empty_covers : covers (coordinator s) (kcb_blocks (empty_kv_cache_blocks s)) 0.
Proof using H.
  pose proof (ki_num _ _ H) as En. unfold managers in En. simpl. split; [by rewrite length_replicate|].
  intros i m Hm. exists []. split_and!; try done. rewrite En. apply lookup_replicate_2.
  by eapply lookup_lt_Some.
Qed.

(** No blocks for an empty hit, some for the others. *)
Lemma created_blocks cols n :
  covers (coordinator s) cols n → 0 ≤ n →
  covers (coordinator s) (kcb_blocks (create_kv_cache_blocks s cols)) n
  ∧ (n = 0 → create_kv_cache_blocks s cols = empty_kv_cache_blocks s)
  ∧ (0 < n → managers s ≠ [] → is_empty_object (create_kv_cache_blocks s cols) = false).
Proof using H.
  intros [Hl Hc] Hn.
  assert (∀ i m, managers s !! i = Some m → 0 < block_size m) as Hb.
  { intros i m Hm. eapply mo_bsz, (ci_mgrs _ _ _ (ki_coord _ _ H) i m Hm). }
  unfold create_kv_cache_blocks. destruct (existsb _ cols) eqn:E.
  - split_and!; try done. intros ->. apply existsb_exists in E as (col & Hin & Hne).
    apply list_elem_of_In, list_elem_of_lookup in Hin as [i Hi].
    destruct (lookup_lt_is_Some_2 (managers s) i) as [m Hm].
    { unfold managers. rewrite <-Hl. by eapply lookup_lt_Some. }
    destruct (Hc i m Hm) as (col' & Hi' & E0 & _). simplify_eq. specialize (Hb i m Hm).
    apply negb_true_iff, Z.eqb_neq in Hne. nia.
  - assert (0 < n → managers s = []) as Hno.
    { intros Hpos. destruct (managers s) as [|m ms] eqn:Em; [done|]. exfalso.
      destruct (Hc 0%nat m) as (col & Hi & E0 & _); [by unfold managers in Em; rewrite Em|].
      rewrite (no_new_blocks _ _ _ E Hi) in E0. unfold zlen in E0. simpl in E0. lia. }
    split_and!; [|done|tauto]. destruct (decide (n = 0)) as [->|]; [apply empty_covers|].
    unfold managers in Hno. split; [simpl; rewrite length_replicate; apply (ki_num _ _ H)|].
    intros i m Hm. by rewrite Hno in Hm by lia.
Qed.

Lemma get_computed_blocks_spec :
  lookup_call →
  wp (get_computed_blocks sha256 use_int request) (λ res s', s' = s ∧ found res.1.1 res.1.2) s.
Proof using H.
  intros [C1 C2 [C3 C4] C5 C7 C6]. unfold get_computed_blocks. wp_steps.
  assert (found (empty_kv_cache_blocks s) 0) as Hnone.
  { split; try done; [apply empty_covers|lia]. }
  destruct (prefix_cache_lookup_enabled s request) eqn:Een; simpl; [|by wp_steps].
  apply wp_bind, wp_on_coordinator. destruct (ki_sched _ _ H) as (_ & _ & Hhb).
  eapply wp_mono; [apply (lookup_spec (coordinator s) l); [apply (ki_coord _ _ H)|done|lia| |done]|].
  { etrans; [|exact C5]. apply Z.div_le_mono; [done|lia]. }
  simpl. intros [[cols n] x] c' (-> & Hc & Hn & Hx). simpl in *.
  assert (kvm_enable_kv_cache_events s && bool_decide (kv_cache_report_mode request = "full"%string) = false) as Er.
  { destruct C6 as [->|Hm]; [done|]. rewrite bool_decide_false by done. apply andb_false_r. }
  rewrite <-andb_assoc, Er, andb_false_r. replace (set_coordinator (coordinator s) s) with s by (by destruct s).
  apply wp_bind, wp_when; [done|intros _]. wp_steps. simpl. split; [done|]. destruct (created_blocks cols n Hc) as (K1 & K2 & K3); [lia|].
  split; try done; [lia|]. intros Hoff. unfold prefix_cache_lookup_enabled in Een. by rewrite Hoff in Een.
Qed.

(** The result of a lookup is a call [allocate_slots] supports. *)
Lemma found_call blocks n a :
  lookup_call → found blocks n → new_computed_blocks a = Some blocks →
  num_new_computed_tokens a = n → 0 ≤ num_external_computed_tokens a →
  extend_call s request a ∨ admit_call s request a.
Proof using H.
  intros [C1 C2 [C3 C4] C5 C7 C6] [[F0 F1] F2 F3 F4 F5] Eb En He.
  assert (passed_blocks s a = blocks) as Ep by (unfold passed_blocks; by rewrite Eb).
  destruct (decide (n = 0 ∧ num_external_computed_tokens a = 0)) as [[-> E0]|Hne].
  - left. split; [by rewrite Ep, F3|done|]. intros i m Hm. right. destruct (C2 i m Hm) as [-> _].
    rewrite C3. unfold skipped_blocks, zlen. simpl.
    destruct (kvm_group _ _ _ _ H Hm) as (Hatt & Hk & _).
    pose proof (skipped_bounds (mgr_kind m) 0 Hk Hatt ltac:(lia)) as Hsk.
    replace (get_num_skipped_tokens (mgr_kind m) 0) with 0 by lia. by rewrite Zdiv_0_l.
  - assert (is_empty_object blocks = false ∨ 0 < num_external_computed_tokens a) as Hb.
    { destruct (decide (0 < n)); [left; by apply F4|right; lia]. }
    assert (local_tokens request a = n) as El by (unfold local_tokens; rewrite C3, En; lia).
    right. split; [by rewrite Ep| |]; rewrite El.
    + intros i m Hm. destruct (F1 i m Hm) as (col & Hcol & Hlen & Hpool & Hmod). exists col.
      rewrite Ep. split; [done|]. destruct (kvm_group _ _ _ _ H Hm) as (Hatt & Hk & Hph).
      destruct (C2 i m Hm). pose proof (mo_bsz _ _ (ci_mgrs _ _ _ (ki_coord _ _ H) i m Hm)) as Hbsz.
      split; simpl; try done.
      * intros Hoff. rewrite (go_caching _ _ (ki_groups _ _ H i m Hm)) in Hoff.
        rewrite (F5 Hoff) in Hlen. apply length_zero_iff_nil. unfold zlen in Hlen. nia.
      * lia.
      * by rewrite <-Hlen, cdiv_mul.
    + intros i m Hm. by destruct (F1 i m Hm) as (col & _ & _ & _ & ?).
Qed.
End admission.
