(* ===== verification/KVCacheTheorems.v ===== *)
(** The properties of the KV cache manager: [allocate_slots] does what it promises, lookup and
    admission compose, and from construction on every sequence of supported calls keeps the
    books balanced and the tables within the model length. *)

From S2P Require Import Prelude MathUtils Request BlockHash BlockHashFacts FreeQueue.
From S2P Require Import FreeQueueFacts BlockPool BlockPoolFacts BlockPoolSpec BlockPoolTheorems.
From S2P Require Import Managers ManagerFacts AllocationFacts ReleaseFacts HitFacts WindowFacts.
From S2P Require Import SearchFacts RegistrationFacts Coordinator CoordinatorFacts CoordinatorSteps.
From S2P Require Import CommonHitFacts CoordinatorTheorems KVCacheManager KVCacheFacts KVCacheSteps.
From S2P Require Import KVCacheLookup.

Set Warnings "-level-tolerance,-clear-no-such-hyp".

(** ** Sequences of calls *)

Inductive kvm_call :=
  | Lookup (request : Request)
  | Slots (request : Request) (a : SlotArgs)
  | Register (request : Request) (n : Z)
  | Trim (rid : string) (processed np : Z)
  | Release (request : Request)
  | Evict (ids : list Z)
  | ResetCache
  | TakeEvents
  | TakeStats.

Section machine.
Context (sha256 : bytes → bytes) (use_int : bool) (mml : Z).
Implicit Types (s : KVCacheManager) (l : list ref) (call : kvm_call).

Definition perform call : M KVCacheManager unit :=
  match call with
  | Lookup request => get_computed_blocks sha256 use_int request;; mret tt
  | Slots request a => allocate_slots sha256 use_int request a;; mret tt
  | Register request n => kvm_cache_blocks sha256 use_int request n
  | Trim rid processed np => kvm_remove_skipped_blocks rid processed (Some np)
  | Release request => kvm_free request
  | Evict ids => kvm_evict_blocks use_int ids
  | ResetCache => kvm_reset_prefix_cache;; mret tt
  | TakeEvents => kvm_take_events;; mret tt
  | TakeStats => make_prefix_cache_stats;; mret tt
  end.

(** What the scheduler ensures before a call. *)
Definition allowed s call : Prop :=
  match call with
  | Lookup request => lookup_call s request
  | Slots request a => call_ok s request a ∧ (extend_call s request a ∨ admit_call s request a)
  | Register request n => registrable_call s request n
  | Trim _ processed np => 0 ≤ processed ∧ 0 ≤ np
  | Evict ids => Forall (λ i, 0 ≤ i < num_gpu_blocks (pool s)) ids
  | Release _ | ResetCache | TakeEvents | TakeStats => True
  end.

(** States after a sequence of allowed calls, whatever each of them returned. *)
Inductive reachable s0 : KVCacheManager → Prop :=
  | reach_init : reachable s0 s0
  | reach_call s call : reachable s0 s → allowed s call → reachable s0 (perform call s).2.

(** No table is longer than the model length needs. *)
Definition within_model_len s : Prop :=
  ∀ i m rid, managers s !! i = Some m →
    zlen (table m rid) ≤ cdiv (kvm_max_model_len s) (block_size m).

Record machine_inv s : Prop := {
  mi_inv : ∃ l, kvm_inv s l;
  mi_stats : is_Some (prefix_cache_stats s) ∨ log_stats s = false;
  mi_max : kvm_max_model_len s = mml;
  mi_len : within_model_len s;
}.

(** A step that leaves the settings alone. *)
Lemma machine_step s s' l :
  machine_inv s → kvm_inv s' l → kvm_max_model_len s' = kvm_max_model_len s →
  log_stats s' = log_stats s → (is_Some (prefix_cache_stats s) → is_Some (prefix_cache_stats s')) →
  same_config (coordinator s) (coordinator s') →
  (∀ i m m' rid, managers s !! i = Some m → managers s' !! i = Some m' →
     zlen (table m' rid) ≤ Z.max (zlen (table m rid)) (cdiv (kvm_max_model_len s) (block_size m))) →
  machine_inv s'.
Proof using.
  intros [_ Hst Hmax Hlen] H' Em El Est Hcfg Hb.
  split; [by exists l|rewrite El; naive_solver|congruence|].
  intros i m' rid Hm'. destruct (Forall2_lookup_r _ _ _ _ _ Hcfg Hm') as (m & Hm & Hs).
  pose proof (Hb i m m' rid Hm Hm') as Hle. pose proof (Hlen i m rid Hm). unfold static in Hs.
  injection Hs as _ _ -> _ _ _ _ _. rewrite Em. lia.
Qed.

(** A step that keeps the managers. *)
Lemma machine_keep s s' l :
  machine_inv s → kvm_inv s' l → kvm_max_model_len s' = kvm_max_model_len s →
  log_stats s' = log_stats s → (is_Some (prefix_cache_stats s) → is_Some (prefix_cache_stats s')) →
  managers s' = managers s → machine_inv s'.
Proof using.
  intros Hi H' Em El Est Ems. eapply machine_step; [done..| |].
  - unfold same_config. fold (managers s) (managers s'). rewrite Ems.
    by apply Forall_Forall2_diag, Forall_forall.
  - intros i m m' rid Hm Hm'. rewrite Ems in Hm'. simplify_eq. lia.
Qed.

Lemma slots_step s l request a :
  machine_inv s → kvm_inv s l → call_ok s request a → extend_call s request a ∨ admit_call s request a →
  wp (allocate_slots sha256 use_int request a) (λ _ s', machine_inv s') s.
Proof using.
  intros Hi H Hcall Hmode. eapply wp_mono; [by apply (allocate_slots_spec sha256 use_int s l)|].
  simpl. intros res s' (l' & H' & Es & Hcfg & _ & Hres). eapply machine_step; [done|exact H'|by rewrite Es..|done|].
  intros i m m' rid Hm Hm'. destruct res as [new|]; simpl in Hres.
  - destruct (proj2 Hres i m m' Hm Hm') as [[_ S2 S3 _ _] _].
    destruct (decide (rid = request_id request)) as [->|Hne]; [|rewrite S3 by done; lia].
    pose proof (mo_bsz _ _ (ci_mgrs _ _ _ (ki_coord _ _ H) i m Hm)) as Hb.
    etrans; [exact S2|]. apply Z.max_le_compat_l, cdiv_mono; [done|]. unfold slot_tokens. lia.
  - destruct Hres as [Href _]. destruct (Href i m m' Hm Hm') as [->|Htr]; [lia|].
    destruct (decide (rid = request_id request)) as [->|Hne].
    + rewrite (tr_len _ _ _ _ _ _ Htr). lia.
    + rewrite (tr_other _ _ _ _ _ _ Htr) by done. lia.
Qed.

Lemma release_step s l request :
  machine_inv s → kvm_inv s l → wp (kvm_free request) (λ _ s', machine_inv s') s.
Proof using.
  intros Hi H. eapply wp_mono; [by apply (kvm_free_spec s l)|].
  simpl. intros _ s' (l' & H' & Es & Hcfg & _ & Ht). eapply machine_step; [done|exact H'|by rewrite Es..|done|].
  intros i m m' rid Hm Hm'. destruct (Ht i m m' Hm Hm') as [-> _].
  pose proof (zlen_nonneg (table m rid)). case_decide; [unfold zlen in *; simpl; lia|lia].
Qed.

Lemma trim_step s l rid processed np :
  machine_inv s → kvm_inv s l → 0 ≤ processed → 0 ≤ np →
  wp (kvm_remove_skipped_blocks rid processed (Some np)) (λ _ s', machine_inv s') s.
Proof using.
  intros Hi H Hp Hnp. eapply wp_mono; [by apply (kvm_trim_spec s l)|].
  simpl. intros _ s' (l' & H' & Es & Hcfg & Ht). eapply machine_step; [done|exact H'|by rewrite Es..|done|].
  intros i m m' rid' Hm Hm'. pose proof (Ht i m m' Hm Hm') as Htr.
  destruct (decide (rid' = rid)) as [->|Hne].
  - rewrite (tr_len _ _ _ _ _ _ Htr). lia.
  - rewrite (tr_other _ _ _ _ _ _ Htr) by done. lia.
Qed.

Lemma register_call_step s l request n :
  machine_inv s → kvm_inv s l → registrable_call s request n →
  wp (kvm_cache_blocks sha256 use_int request n) (λ _ s', machine_inv s') s.
Proof using.
  intros Hi H Hr. eapply wp_mono; [by apply (kvm_register_spec sha256 use_int s l)|].
  simpl. intros _ s' (H' & Es & Hcfg & Ht). eapply machine_step; [done|exact H'|by rewrite Es..|done|].
  intros i m m' rid Hm Hm'. destruct (Ht i m m' Hm Hm') as [-> _]. lia.
Qed.

(** Every allowed call returns and keeps the invariant. *)
Lemma perform_step s call :
  machine_inv s → allowed s call → wp (perform call) (λ _ s', machine_inv s') s.
Proof using.
  intros Hi Ha. destruct (mi_inv s Hi) as [l H]. destruct call as [r|r a|r n|rid pr np|r|ids| | |]; simpl in *.
  - apply wp_bind. eapply wp_mono; [by apply (get_computed_blocks_spec sha256 use_int s l)|].
    simpl. intros res s' [-> _]. by wp_steps.
  - destruct Ha as [Hc Hm]. apply wp_bind. eapply wp_mono; [by apply (slots_step s l)|].
    simpl. intros res s' Hs'. by wp_steps.
  - by apply (register_call_step s l).
  - destruct Ha. by apply (trim_step s l).
  - by apply (release_step s l).
  - eapply wp_mono; [by apply (kvm_evict_spec use_int s l)|]. simpl. intros _ s' (H' & Em & Es).
    eapply machine_keep; [done|exact H'|by rewrite Es..|done].
  - apply wp_bind. eapply wp_mono; [by apply (kvm_reset_spec s l), (mi_stats s)|]. simpl.
    intros _ s' (H' & Em & El & Eg & Est). wp_steps. by eapply machine_keep.
  - apply wp_bind. eapply wp_mono; [by apply (kvm_take_events_spec s l)|]. simpl.
    intros _ s' (H' & Em & Es). wp_steps. eapply machine_keep; [done|exact H'|by rewrite Es..|done].
  - apply wp_bind. unfold make_prefix_cache_stats. wp_steps. destruct (negb (log_stats s)); wp_steps; [done|].
    eapply machine_keep; [done|by apply kvm_inv_stats|done..].
Qed.

Lemma reachable_inv s0 s : machine_inv s0 → reachable s0 s → machine_inv s.
Proof using.
  intros H0. induction 1 as [|s call Hr IH Ha]; [done|].
  destruct (perform_step s call IH Ha) as ([] & s' & -> & Hs'). done.
Qed.
End machine.

(** ** The initial state *)

Lemma init_machine cfg mml sbs hbs mif caching eagle npl stats events dcp pcp wok wm md s :
  KVCacheManager_init cfg mml sbs hbs mif caching eagle npl stats events dcp pcp wok wm md = inr s →
  supported cfg sbs hbs dcp caching → 0 ≤ wm → 0 ≤ mml → machine_inv mml s.
Proof.
  intros H Hsup Hwm Hm. destruct (KVCacheManager_init_inv _ _ _ _ _ _ _ _ _ _ _ _ _ _ _ _ H Hsup Hwm)
    as (Hinv & Hf & _). unfold KVCacheManager_init in H. apply result_bind_inr in H as (c & _ & H).
  apply result_bind_inr in H as (u & _ & H).
  assert (kvm_max_model_len s = mml) as Emm by (by injection H as <-).
  split; [by eexists|injection H as <-; simpl; destruct stats; [by left; eexists|by right]|done|].
  intros i m rid Hi. rewrite Forall_lookup in Hf. destruct (Hf i m Hi) as (Hb & Et & _).
  unfold table. rewrite Et, lookup_empty. unfold zlen. simpl. apply cdiv_nonneg; [done|]. lia.
Qed.

Section safety.
Context (sha256 : bytes → bytes) (use_int : bool).
Context (cfg : KVCacheConfig) (mml sbs hbs : Z) (mif : option Z) (caching eagle : bool) (npl : Z).
Context (stats events : bool) (dcp pcp : Z) (wok : bool) (wm : Z) (md : list (string * option Z)).
Context (s0 s : KVCacheManager).
Context (Hinit : KVCacheManager_init cfg mml sbs hbs mif caching eagle npl stats events dcp pcp
                   wok wm md = inr s0).
Context (Hsup : supported cfg sbs hbs dcp caching) (Hwm : 0 ≤ wm) (Hmml : 0 ≤ mml).
Context (Hreach : reachable sha256 use_int s0 s).

Lemma machine_reachable : machine_inv mml s.
Proof using Hinit Hsup Hwm Hmml Hreach. eapply reachable_inv; [by eapply init_machine|done]. Qed.

(** C5: the books of the manager balance in every reachable state.  After any sequence of
    supported calls on a new manager (lookups, allocations that succeed or are refused,
    registrations, trimming, releases, evictions, resets), no supported call raises; the
    reference count of every block is the number of times the tables, pending copies and pins
    hold it; the free list is exactly the blocks nobody holds; and when all requests are
    released, every block but the null block is free: nothing leaks. *)
Theorem kvm_reachable_safe :
  (∀ call, allowed s call → (perform sha256 use_int call s).1 = inr tt)
  ∧ (∀ r, usable (pool s) r →
       rc (pool s) r = total_refs (managers s) r + table_refs (_partial_tail_pins s) r)
  ∧ (∃ l, queue_rep (free_block_queue (pool s)) l
       ∧ ∀ r, r ∈ l ↔ usable (pool s) r
           ∧ total_refs (managers s) r + table_refs (_partial_tail_pins s) r = 0)
  ∧ (idle s → get_num_free_blocks (pool s) = num_gpu_blocks (pool s) - 1).
Proof using Hinit Hsup Hwm Hmml Hreach.
  pose proof machine_reachable as Hi. destruct (mi_inv _ _ Hi) as [l H].
  pose proof (ci_pool _ _ _ (ki_coord _ _ H)) as Hp. pose proof (ci_refs _ _ _ (ki_coord _ _ H)) as Hr.
  split_and!; [|exact Hr| |].
  - intros call Ha. destruct (perform_step sha256 use_int mml s call Hi Ha) as ([] & s' & -> & _). done.
  - exists l. split; [apply Hp|]. intros r. rewrite (free_iff _ _ r Hp).
    split; intros [Hu Hz]; (split; [done|]); [by rewrite <-Hr|by rewrite Hr].
  - intros Hid. rewrite (free_blocks_len s l H). by apply idle_free.
Qed.

(** C9: in every reachable state no table of any request has more entries than the model length
    needs, the width of the block tables of the workers. *)
Theorem kvm_tables_within_model_len i m rid :
  managers s !! i = Some m → zlen (table m rid) ≤ cdiv mml (block_size m).
Proof using Hinit Hsup Hwm Hmml Hreach.
  intros Hm. pose proof machine_reachable as Hi. rewrite <-(mi_max _ _ Hi). by apply (mi_len _ _ Hi i).
Qed.
End safety.

(** ** Slots *)

Section slots.
Context (sha256 : bytes → bytes) (use_int : bool) (s : KVCacheManager) (l : list ref).
Context (request : Request) (H : kvm_inv s l).

(** C4: [allocate_slots] does what it promises.  For a request without hits whose tables cover
    its computed tokens, or a new request with hits at block boundaries in every group, the
    call never raises.  It refuses only when the blocks it predicted, with the watermark and
    the reserved blocks, are not free, and then at most trims the request to its attention
    window.  When it succeeds, every group has slots for all tokens up to the lookahead
    (capped at the model length) and no more blocks than that, the blocks of tokens that may
    still be read are where they were, the hits come first, other requests keep their tables,
    the blocks returned for a running request are exactly those its tables gained, and the
    reserved blocks and the watermark are still free.  The reference counts stay balanced and
    full blocks are registered once. *)
Theorem allocate_slots_correct a :
  call_ok s request a → extend_call s request a ∨ admit_call s request a →
  wp (allocate_slots sha256 use_int request a)
    (λ res s', ∃ l', kvm_inv s' l' ∧ s' = set_coordinator (coordinator s') s
       ∧ slots_result s request a res s') s.
Proof using H.
  intros Hcall Hmode. eapply wp_mono; [by apply (allocate_slots_spec sha256 use_int s l)|].
  simpl. intros res s' (l' & ? & ? & _ & _ & ?). by exists l'.
Qed.

(** C8: lookup and admission compose, when no group uses EAGLE or partial hits ([lookup_cfg] in
    [lookup_call]).  For a request the manager does not know, the lookup
    returns tables for some number [n] of its tokens, less than all of them, without changing
    the state; and whatever it returns, the following [allocate_slots] with these blocks (and
    any external tokens) does not raise and succeeds or refuses as [allocate_slots_correct]
    says, so the hits become the beginning of the request's tables in every group. *)
Theorem lookup_then_allocate (args : KVCacheBlocks → Z → SlotArgs) :
  lookup_call s request →
  (∀ blocks n, found s request blocks n →
     new_computed_blocks (args blocks n) = Some blocks ∧ num_new_computed_tokens (args blocks n) = n
     ∧ call_ok s request (args blocks n)) →
  wp (hit ← get_computed_blocks sha256 use_int request;
      allocate_slots sha256 use_int request (args hit.1.1 hit.1.2))
    (λ res s', ∃ blocks n l', found s request blocks n ∧ kvm_inv s' l'
       ∧ slots_result s request (args blocks n) res s') s.
Proof using H.
  intros Hlook Hargs. apply wp_bind.
  eapply wp_mono; [by apply (get_computed_blocks_spec sha256 use_int s l)|].
  simpl. intros [[blocks n] x] s' [-> Hf]. simpl in *. destruct (Hargs blocks n Hf) as (E1 & E2 & Hcall).
  eapply wp_mono; [apply (allocate_slots_spec sha256 use_int s l request _ H Hcall)|].
  - eapply (found_call s l request H); [done..|]. by destruct (co_tokens _ _ _ Hcall) as (_ & _ & ? & _).
  - simpl. intros res s' (l' & ? & _ & _ & _ & ?). by exists blocks, n, l'.
Qed.
End slots.

(** ** A concrete manager *)

(** Full attention and a sliding window on eight blocks of two tokens, watermark one. *)
Definition wide_config : KVCacheConfig :=
  {| num_blocks := 8; kv_cache_groups := kv_cache_groups demo_config;
     prefix_cache_retention_interval := None; has_mixed_precision_kv_cache := false |}.
Definition demo_kvm : KVCacheManager :=
  match KVCacheManager_init wide_config 100 2 2 (Some 8) true false 0 true true 1 1 true 1 [] with
  | inr s => s
  | inl _ => mkKVM 0 false false false None demo_coordinator 0 [] ∅
  end.
Definition five : Request := demo_request [1; 2; 3; 4; 5].
Definition demo_slots (n : Z) (blocks : option KVCacheBlocks) : SlotArgs :=
  {| num_new_tokens := 5 - n; num_new_computed_tokens := n; new_computed_blocks := blocks;
     num_lookahead_tokens := 0; num_external_computed_tokens := 0; delay_cache_blocks := false;
     num_encoder_tokens := 0; full_sequence_must_fit := true; reserved_blocks := 0;
     has_scheduled_reqs := false |}.

(** The request runs, and is released. *)
Definition demo_running : KVCacheManager :=
  (perform no_digest false (Slots five (demo_slots 0 None)) demo_kvm).2.
Definition demo_released : KVCacheManager := (perform no_digest false (Release five) demo_running).2.

Section demo.
Lemma demo_kvm_init :
  KVCacheManager_init wide_config 100 2 2 (Some 8) true false 0 true true 1 1 true 1 [] = inr demo_kvm.
Proof. vm_compute. reflexivity. Qed.

Lemma wide_supported : supported wide_config 2 2 1 true.
Proof.
  split; [|by vm_compute|lia|lia]. intros g. simpl. rewrite !elem_of_cons.
  intros [->|[->|[]%elem_of_nil]]; simpl; split_and!; try done; lia.
Qed.

Lemma demo_call (s : KVCacheManager) n blocks :
  kvm_max_model_len s = 100 → hash_block_size (pool s) = 2 → 0 ≤ n < 5 →
  call_ok s five (demo_slots n blocks).
Proof.
  intros Em Eh Hn.
  assert (num_computed_tokens five = 0 ∧ num_tokens five = 5 ∧ zlen (block_hashes five) = 2
    ∧ num_prompt_tokens five = 5) as (E1 & E2 & E3 & E4) by (split_and!; vm_compute; reflexivity).
  split; unfold local_tokens; simpl; rewrite ?E1, ?E2, ?E3, ?E4, ?Em, ?Eh; lia || by vm_compute.
Qed.

Lemma demo_extend : extend_call demo_kvm five (demo_slots 0 None).
Proof.
  split; [done..|]. intros i m Hm. right.
  destruct i as [|[|i]]; vm_compute in Hm; [injection Hm as <-..|discriminate]; by vm_compute.
Qed.

Lemma demo_allowed : allowed demo_kvm (Slots five (demo_slots 0 None)).
Proof. split; [|left; exact demo_extend]. apply demo_call; [vm_compute; reflexivity..|lia]. Qed.

Lemma demo_reach : reachable no_digest false demo_kvm demo_running.
Proof. apply reach_call; [apply reach_init|exact demo_allowed]. Qed.

Lemma demo_reach_released : reachable no_digest false demo_kvm demo_released.
Proof. exact (reach_call no_digest false demo_kvm demo_running (Release five) demo_reach I). Qed.

Lemma demo_released_inv : ∃ l, kvm_inv demo_released l.
Proof.
  apply (mi_inv 100). eapply reachable_inv; [|exact demo_reach_released].
  apply (init_machine _ _ _ _ _ _ _ _ _ _ _ _ _ _ _ _ demo_kvm_init wide_supported); lia.
Qed.

(** The static structure survives the calls. *)
Lemma demo_released_static : hybrid_static (coordinator demo_released).
Proof.
  destruct (hybrid_constructed wide_config 100 8 false true 1 1 2 2 0 (coordinator demo_kvm)) as [];
    [vm_compute; discriminate|vm_compute; reflexivity|].
  by split.
Qed.

Lemma demo_lookup : lookup_call demo_released five.
Proof.
  split.
  - split_and!; [vm_compute; reflexivity..|].
    assert (coord_kind (coordinator demo_released) = HybridKVCacheCoordinator) as -> by (vm_compute; reflexivity).
    assert (attention_groups (coordinator demo_released)
      = [mkSpecGroup {| spec_block_size := 2; spec_kind := FullAttentionSpec |} [] [0] false;
         mkSpecGroup {| spec_block_size := 2; spec_kind := SlidingWindowSpec 2 0 |} [] [1] false]) as Eg
      by (vm_compute; reflexivity).
    split; [exact demo_released_static|]. split; [vm_compute; reflexivity|]. split; [vm_compute; discriminate|].
    rewrite Eg. split; [|do 2 eexists; split; [done|by apply Forall_singleton]].
    intros g. rewrite !elem_of_cons. unfold searchable.
    assert (hash_block_size (block_pool (coordinator demo_released)) = 2) as -> by (vm_compute; reflexivity).
    assert (coord_scheduler_block_size (coordinator demo_released) = 2) as -> by (vm_compute; reflexivity).
    intros [->|[->|[]%elem_of_nil]]; simpl; split_and!; try done; by exists 1.
  - intros i m Hm. destruct i as [|[|i]]; vm_compute in Hm; [injection Hm as <-..|discriminate];
      split; vm_compute; reflexivity.
  - split; vm_compute; [reflexivity|discriminate].
  - vm_compute. discriminate.
  - vm_compute. discriminate.
  - right. vm_compute. discriminate.
Qed.
End demo.

Lemma allocate_slots_correct_witness :
  ∃ new s' l', allocate_slots no_digest false five (demo_slots 0 None) demo_kvm = (inr (Some new), s')
    ∧ kvm_inv s' l' ∧ kcb_blocks new = [[Blk 1; Blk 2; Blk 3]; [Blk 4; Blk 5; Blk 6]].
Proof.
  assert (∃ l, kvm_inv demo_kvm l) as [l H].
  { apply (mi_inv 100), (init_machine _ _ _ _ _ _ _ _ _ _ _ _ _ _ _ _ demo_kvm_init wide_supported); lia. }
  destruct (allocate_slots_correct no_digest false demo_kvm l five H (demo_slots 0 None))
    as (res & s' & E & l' & H' & _).
  - apply demo_call; [vm_compute; reflexivity..|lia].
  - left. exact demo_extend.
  - assert (match (allocate_slots no_digest false five (demo_slots 0 None) demo_kvm).1 with
            | inr (Some new) => kcb_blocks new = [[Blk 1; Blk 2; Blk 3]; [Blk 4; Blk 5; Blk 6]]
            | _ => False end) as Hres by (vm_compute; reflexivity).
    rewrite E in Hres. destruct res as [new|]; [|destruct Hres]. exists new, s', l'.
    split; [exact E|]. split; [exact H'|exact Hres].
Defined.

Lemma kvm_reachable_safe_witness :
  get_num_free_blocks (pool demo_running) = 1 ∧ get_num_free_blocks (pool demo_released) = 7.
Proof.
  split; [vm_compute; reflexivity|].
  destruct (kvm_reachable_safe no_digest false wide_config 100 2 2 (Some 8) true false 0 true true 1 1
    true 1 [] demo_kvm demo_released demo_kvm_init wide_supported) as (_ & _ & _ & Hfree).
  - lia.
  - lia.
  - exact demo_reach_released.
  - rewrite Hfree; [vm_compute; reflexivity|]. split; [vm_compute; reflexivity|].
    intros m [i Hi]%list_elem_of_lookup.
    destruct i as [|[|i]]; vm_compute in Hi; [injection Hi as <-..|discriminate];
      (split; [intros rid; reflexivity|reflexivity]).
Defined.

Lemma kvm_tables_within_model_len_witness :
  ∃ m, managers demo_running !! 1%nat = Some m ∧ zlen (table m (request_id five)) = 3
    ∧ zlen (table m (request_id five)) ≤ cdiv 100 (block_size m).
Proof.
  destruct (managers demo_running !! 1%nat) as [m|] eqn:E; [|vm_compute in E; discriminate].
  exists m. split; [done|]. split; [vm_compute in E; injection E as <-; vm_compute; reflexivity|].
  apply (kvm_tables_within_model_len no_digest false wide_config 100 2 2 (Some 8) true false 0 true true
    1 1 true 1 [] demo_kvm demo_running demo_kvm_init wide_supported) with (i := 1%nat);
    [lia|lia|exact demo_reach|exact E].
Defined.

Lemma lookup_then_allocate_witness :
  ∃ new s' l', (hit ← get_computed_blocks no_digest false five;
      allocate_slots no_digest false five (demo_slots hit.1.2 (Some hit.1.1))) demo_released
    = (inr (Some new), s') ∧ kvm_inv s' l' ∧ kcb_blocks new = [[Blk 6]; [Blk 3]].
Proof.
  destruct demo_released_inv as [l H].
  destruct (lookup_then_allocate no_digest false demo_released l five H
    (λ blocks n, demo_slots n (Some blocks)) demo_lookup) as (res & s' & E & blocks & n & l' & _ & H' & _).
  - intros blocks n Hf. split_and!; [done..|]. apply demo_call; [vm_compute; reflexivity..|].
    assert (num_tokens five = 5) as E5 by (vm_compute; reflexivity).
    pose proof (fo_bounds _ _ _ _ Hf) as Hn. by rewrite E5 in Hn.
  - assert (match ((hit ← get_computed_blocks no_digest false five;
        allocate_slots no_digest false five (demo_slots hit.1.2 (Some hit.1.1))) demo_released).1 with
            | inr (Some new) => kcb_blocks new = [[Blk 6]; [Blk 3]]
            | _ => False end) as Hres by (vm_compute; reflexivity).
    rewrite E in Hres. destruct res as [new|]; [|destruct Hres]. exists new, s', l'.
    split; [exact E|]. split; [exact H'|exact Hres].
Defined.
