(* ===== verification/KVCacheService.v ===== *)
(** What the KV cache manager promises to the scheduler, as an interface: a request is unknown
    or has slots for a number of tokens; lookup, admission, extension and release change only
    the request they are called for.  The manager of [KVCacheManager.v] implements it. *)

From S2P Require Import Prelude MathUtils Request BlockHash BlockHashFacts FreeQueue.
From S2P Require Import FreeQueueFacts BlockPool BlockPoolFacts BlockPoolSpec BlockPoolTheorems.
From S2P Require Import Managers ManagerFacts AllocationFacts ReleaseFacts RegistrationFacts.
From S2P Require Import Coordinator CoordinatorFacts CoordinatorSteps CoordinatorTheorems.
From S2P Require Import KVCacheManager KVCacheFacts KVCacheSteps KVCacheLookup.

Set Warnings "-level-tolerance,-clear-no-such-hyp".

(** ** The interface *)

Section interface.
Context (sha256 : bytes → bytes) (use_int : bool) (mml hbs : Z) (events : bool).

(** A request the manager can serve. *)
Record servable (r : Request) : Prop := {
  sv_tokens : 1 ≤ num_tokens r ≤ mml;
  sv_computed : 0 ≤ num_computed_tokens r ≤ mml;
  sv_prompt : 0 ≤ num_prompt_tokens r;
  sv_hashes : num_tokens r / hbs ≤ zlen (block_hashes r);
  sv_report : events = false ∨ kv_cache_report_mode r ≠ "full"%string;
}.

(** A call for [n] more tokens after [start]. *)
Record more_tokens (a : SlotArgs) (start n : Z) : Prop := {
  mt_tokens : num_new_tokens a = n ∧ 1 ≤ n ∧ start + n ≤ mml;
  mt_lookahead : 0 ≤ num_lookahead_tokens a;
  mt_external : num_external_computed_tokens a = 0;
  mt_reserved : 0 ≤ reserved_blocks a;
}.

Class KVService := {
  (** The manager works; the request is not known to it; it has slots for [n] tokens; [blocks]
      are a hit of [n] tokens for a request of [t] tokens. *)
  kv_ready : KVCacheManager → Prop;
  kv_unknown : KVCacheManager → string → Prop;
  kv_slots : KVCacheManager → string → Z → Prop;
  kv_found : KVCacheManager → Z → KVCacheBlocks → Z → Prop;

  kv_slots_le s rid n n' : kv_ready s → kv_slots s rid n → n' ≤ n → kv_slots s rid n';
  kv_found_bounds s t blocks n : kv_found s t blocks n → 0 ≤ n < t;

  (** Only [rid] is affected. *)
  kv_keeps (rid : string) (s s' : KVCacheManager) : Prop :=
    ∀ rid', rid' ≠ rid → (kv_unknown s rid' → kv_unknown s' rid')
      ∧ ∀ n, kv_slots s rid' n → kv_slots s' rid' n;

  kv_lookup s r :
    kv_ready s → servable r → num_computed_tokens r = 0 → kv_unknown s (request_id r) →
    wp (get_computed_blocks sha256 use_int r)
      (λ res s', s' = s ∧ kv_found s (num_tokens r) res.1.1 res.1.2) s;
  kv_admit s r a blocks n k :
    kv_ready s → servable r → num_computed_tokens r = 0 → kv_unknown s (request_id r) →
    kv_found s (num_tokens r) blocks n → new_computed_blocks a = Some blocks →
    num_new_computed_tokens a = n → more_tokens a n k →
    wp (allocate_slots sha256 use_int r a)
      (λ res s', kv_ready s' ∧ kv_keeps (request_id r) s s'
         ∧ match res with
           | Some _ => kv_slots s' (request_id r) (n + k)
           | None => kv_unknown s' (request_id r)
           end) s;
  kv_extend s r a k :
    kv_ready s → servable r → kv_slots s (request_id r) (num_computed_tokens r) →
    new_computed_blocks a = None → num_new_computed_tokens a = 0 →
    more_tokens a (num_computed_tokens r) k →
    wp (allocate_slots sha256 use_int r a)
      (λ res s', kv_ready s' ∧ kv_keeps (request_id r) s s'
         ∧ kv_slots s' (request_id r)
             (match res with
              | Some _ => num_computed_tokens r + k
              | None => num_computed_tokens r
              end)) s;
  kv_release s r :
    kv_ready s →
    wp (kvm_free r) (λ _ s', kv_ready s' ∧ kv_keeps (request_id r) s s'
      ∧ kv_unknown s' (request_id r)) s;

  (** The calls that serve no request. *)
  kv_same (s s' : KVCacheManager) : Prop :=
    kv_ready s' ∧ (∀ rid, kv_unknown s rid → kv_unknown s' rid)
    ∧ ∀ rid n, kv_slots s rid n → kv_slots s' rid n;
  kv_record s r n : kv_ready s → wp (record_prefix_cache_stats r n) (λ _ s', kv_same s s') s;
  kv_new_step s : kv_ready s → wp kvm_new_step_starts (λ _ s', kv_same s s') s;
  kv_common_prefix s rid :
    kv_ready s → wp (kvm_get_num_common_prefix_blocks rid) (λ _ s', kv_same s s') s;
  kv_copies s :
    kv_ready s → wp take_kv_cache_block_copies (λ cs s', kv_same s s' ∧ cs.1 = []) s;
  kv_new_ids s : kv_ready s → wp kvm_take_new_block_ids (λ _ s', kv_same s s') s;
  kv_events s : kv_ready s → wp kvm_take_events (λ _ s', kv_same s s') s;
  kv_stats s : kv_ready s → wp make_prefix_cache_stats (λ _ s', kv_same s s') s;
  kv_estimate s r : kv_ready s → wp (estimate_cached_tokens r) (λ _ s', kv_same s s') s;
  (** The cache can be reset when no request is known. *)
  kv_reset s :
    kv_ready s → wp kvm_reset_prefix_cache (λ ok s', kv_same s s'
      ∧ ((∀ rid, kv_unknown s rid) → ok = true)) s;
}.
End interface.

#[global] Arguments kv_ready {_ _ _ _ _ _}.
#[global] Arguments kv_unknown {_ _ _ _ _ _}.
#[global] Arguments kv_slots {_ _ _ _ _ _}.
#[global] Arguments kv_found {_ _ _ _ _ _}.
#[global] Arguments kv_keeps {_ _ _ _ _ _}.
#[global] Arguments kv_same {_ _ _ _ _ _}.
#[global] Arguments kv_slots_le {_ _ _ _ _ _}.
#[global] Arguments kv_found_bounds {_ _ _ _ _ _}.
#[global] Arguments kv_lookup {_ _ _ _ _ _}.
#[global] Arguments kv_admit {_ _ _ _ _ _}.
#[global] Arguments kv_extend {_ _ _ _ _ _}.
#[global] Arguments kv_release {_ _ _ _ _ _}.
#[global] Arguments kv_record {_ _ _ _ _ _}.
#[global] Arguments kv_new_step {_ _ _ _ _ _}.
#[global] Arguments kv_common_prefix {_ _ _ _ _ _}.
#[global] Arguments kv_copies {_ _ _ _ _ _}.
#[global] Arguments kv_new_ids {_ _ _ _ _ _}.
#[global] Arguments kv_events {_ _ _ _ _ _}.
#[global] Arguments kv_stats {_ _ _ _ _ _}.
#[global] Arguments kv_estimate {_ _ _ _ _ _}.
#[global] Arguments kv_reset {_ _ _ _ _ _}.

(** ** The implementation *)

Lemma wp_zoom_inv {St St' A} (proj : St → St') upd (op : M St' A) Q (st : St) :
  wp (zoom proj upd op) Q st → wp op (λ a x, Q a (upd x st)) (proj st).
Proof.
  intros (a & st' & E & HQ). unfold zoom in E. destruct (op (proj st)) as [r x] eqn:Eo.
  injection E as -> <-. by exists a, x.
Qed.

(** The configuration of the lookup is constant. *)
Lemma lookup_cfg_step c c' : same_coord c c' → same_config c c' → lookup_cfg c → lookup_cfg c'.
Proof.
  intros (Ec & Hconf & Hlen) Hcfg (H1 & H2 & H3).
  assert (∀ al g, searchable (block_pool c) al g → searchable (block_pool c') al g) as Hse.
  { intros al g. unfold searchable. by destruct Hconf as (_ & _ & -> & _). }
  unfold lookup_cfg. rewrite Ec. simpl. split_and!; [done..|].
  destruct (coord_kind c) eqn:Ek; [done|..].
  - destruct H3 as (g & m & E1 & E2 & E3 & E4 & E5 & E6). unfold same_config in Hcfg. rewrite E2 in Hcfg.
    inversion Hcfg as [|? m' ? ? Hst Hnil Em Em']. inversion Hnil. subst. exists g, m'.
    unfold static in Hst. injection Hst as _ _ Eb _ _ _ _ _.
    split_and!; try done; [congruence|by apply Hse].
  - destruct H3 as ([S1 S2 S3 S4 S5 S6 S7 S8] & E1 & E2 & E3 & E4). split_and!; try done.
    + split; simpl; try done. eapply Forall2_trans; [|exact S2|exact Hcfg]. simpl.
      intros g m m' [Es Eb] Hst. unfold static in Hst. injection Hst as -> _ -> _ _ _ _ _. done.
    + intros g Hg. destruct (E3 g Hg) as (? & ? & ?). split_and!; [done|by apply Hse|done].
Qed.

Lemma found_tokens s r r' blocks n :
  num_tokens r = num_tokens r' → found s r blocks n → found s r' blocks n.
Proof. intros E [F1 F2 F3 F4 F5]. split; try done. by rewrite <-E. Qed.

Section implementation.
Context (sha256 : bytes → bytes) (use_int : bool) (mml hbs : Z) (events : bool).
Implicit Types (s : KVCacheManager) (c : Coordinator) (l : list ref) (m : Manager) (rid : string).

Record service_ok s : Prop := {
  so_inv : ∃ l, kvm_inv s l;
  so_stats : is_Some (prefix_cache_stats s) ∨ log_stats s = false;
  so_model_len : kvm_max_model_len s = mml;
  so_hbs : hash_block_size (pool s) = hbs;
  so_events : kvm_enable_kv_cache_events s = events;
  so_lookup : lookup_cfg (coordinator s);
  so_groups : managers s ≠ [];
  so_copies : ∀ i m, managers s !! i = Some m → _pending_cow_copies m = [];
  so_pins : _partial_tail_pins s = ∅;
}.

Definition unknown s rid : Prop :=
  ∀ i m, managers s !! i = Some m → table m rid = [] ∧ num_cached_block m !! rid = None.
Definition has_slots s rid (n : Z) : Prop :=
  ∀ i m, managers s !! i = Some m → cdiv n (block_size m) ≤ zlen (table m rid).
Definition hit_for s (t : Z) blocks (n : Z) : Prop :=
  ∃ r, num_tokens r = t ∧ found s r blocks n.

(** A step of the coordinator that leaves the requests of [P] alone. *)
Definition leaves (P : string → Prop) s s' : Prop :=
  ∀ i m m', managers s !! i = Some m → managers s' !! i = Some m' →
    (∀ id, P id → table m' id = table m id ∧ num_cached_block m' !! id = num_cached_block m !! id)
    ∧ _pending_cow_copies m' = _pending_cow_copies m.

Lemma config_lookup s s' i m' :
  same_config (coordinator s) (coordinator s') → managers s' !! i = Some m' →
  ∃ m, managers s !! i = Some m ∧ block_size m' = block_size m.
Proof using.
  intros Hc Hi. destruct (Forall2_lookup_r _ _ _ _ _ Hc Hi) as (m & Hm & Hst). exists m.
  split; [done|]. unfold static in Hst. by injection Hst as _ _ -> _ _ _ _ _.
Qed.

Lemma service_step s s' l' (P : string → Prop) :
  service_ok s → kvm_inv s' l' → kvm_max_model_len s' = kvm_max_model_len s →
  prefix_cache_stats s' = prefix_cache_stats s → log_stats s' = log_stats s →
  kvm_enable_kv_cache_events s' = kvm_enable_kv_cache_events s →
  (_partial_tail_pins s = ∅ → _partial_tail_pins s' = ∅) →
  same_coord (coordinator s) (coordinator s') → same_config (coordinator s) (coordinator s') →
  leaves P s s' →
  service_ok s' ∧ ∀ rid', P rid' → (unknown s rid' → unknown s' rid')
    ∧ ∀ n, has_slots s rid' n → has_slots s' rid' n.
Proof using.
  intros [H1 H2 H3 H4 H5 H6 H7 H8 H9] Hinv E1 E2 E3 E4 E5 Hsc Hcfg Ho. split; [split|].
  - by exists l'.
  - by rewrite E2, E3.
  - congruence.
  - rewrite <-H4. apply Hsc.
  - congruence.
  - by eapply lookup_cfg_step.
  - intros E. destruct Hsc as (_ & _ & El). unfold managers in *. rewrite E in El.
    destruct (single_type_managers (coordinator s)); done.
  - intros i m' Hm'. destruct (config_lookup _ _ _ _ Hcfg Hm') as (m & Hm & _).
    destruct (Ho i m m' Hm Hm') as (_ & ->). by eapply H8.
  - by apply E5.
  - intros rid' Hne. split.
    + intros Hu i m' Hm'. destruct (config_lookup _ _ _ _ Hcfg Hm') as (m & Hm & _).
      destruct (Ho i m m' Hm Hm') as [HP _]. destruct (HP rid' Hne) as [-> ->]. by apply (Hu i).
    + intros n Hs i m' Hm'. destruct (config_lookup _ _ _ _ Hcfg Hm') as (m & Hm & ->).
      destruct (Ho i m m' Hm Hm') as [HP _]. destruct (HP rid' Hne) as [-> _]. by apply (Hs i).
Qed.

(** ** The calls for one request *)

Lemma slots_skipped s l i m rid n :
  kvm_inv s l → managers s !! i = Some m → 0 ≤ n → has_slots s rid n → holds_computed rid n m.
Proof using.
  intros H Hm Hn Hs. right. etrans; [|by apply (Hs i m)].
  destruct (kvm_group _ _ _ _ H Hm) as (Hatt & Hk & _).
  pose proof (mo_bsz _ _ (ci_mgrs _ _ _ (ki_coord _ _ H) i m Hm)) as Hb.
  pose proof (skipped_bounds (mgr_kind m) n Hk Hatt Hn) as Hsk.
  unfold skipped_blocks. etrans; [by apply cdiv_div_le|]. apply cdiv_mono; [done|lia].
Qed.

(** Tables and counts of other requests after [allocate_slots]. *)
Lemma slots_others s r a res s' :
  slots_result s r a res s' → leaves (.≠ request_id r) s s'.
Proof using.
  intros Hres i m m' Hm Hm'. destruct res as [new|]; simpl in Hres.
  - destruct Hres as [_ Hres]. destruct (Hres i m m' Hm Hm') as [[_ _ S1 S2 S3 _ _] _].
    split; [|done]. intros id Hne. split; [by apply S1|by apply S2].
  - destruct Hres as [Hres _]. destruct (Hres i m m' Hm Hm') as [->|[_ _ _ T1 _ T2 T3]]; [done|].
    split; [|done]. intros id Hne. by rewrite T1, T2.
Qed.

Lemma slots_len s l r a new s' :
  kvm_inv s l → same_config (coordinator s) (coordinator s') → slots_result s r a (Some new) s' →
  ∀ n, n ≤ slot_tokens s r a → has_slots s' (request_id r) n.
Proof using.
  intros H Hcfg [_ Hres] n Hn i m' Hm'. destruct (config_lookup _ _ _ _ Hcfg Hm') as (m & Hm & ->).
  destruct (Hres i m m' Hm Hm') as [[S1 _ _ _ _ _ _] _]. etrans; [|exact S1]. apply cdiv_mono; [|done].
  apply (mo_bsz _ _ (ci_mgrs _ _ _ (ki_coord _ _ H) i m Hm)).
Qed.

Lemma refused_len s r a s' :
  same_config (coordinator s) (coordinator s') → slots_result s r a None s' →
  ∀ i m', managers s' !! i = Some m' → ∃ m, managers s !! i = Some m ∧ block_size m' = block_size m
    ∧ zlen (table m' (request_id r)) = zlen (table m (request_id r))
    ∧ num_cached_block m' = num_cached_block m.
Proof using.
  intros Hcfg [Hres _] i m' Hm'. destruct (config_lookup _ _ _ _ Hcfg Hm') as (m & Hm & Hb).
  exists m. destruct (Hres i m m' Hm Hm') as [->|[T1 _ _ _ _ T2 _]]; done.
Qed.

Lemma call_of s r a start n :
  service_ok s → servable mml hbs events r → more_tokens mml a start n →
  num_computed_tokens r + num_new_computed_tokens a = start → 0 ≤ num_new_computed_tokens a →
  call_ok s r a ∧ slot_tokens s r a = Z.min (start + n + num_lookahead_tokens a) mml.
Proof using.
  intros Hs [V1 V2 V3 V4 _] [(M1 & M2 & M3) M4 M5 M6] Hst Hnc.
  assert (local_tokens r a = start) as El by (unfold local_tokens; lia).
  split.
  - split; rewrite ?El, ?M5, ?(so_model_len s Hs), ?(so_hbs s Hs); try done; lia.
  - unfold slot_tokens, main_tokens, total_tokens. rewrite El, M1, M5, (so_model_len s Hs). lia.
Qed.

Lemma extend_service s r a k :
  service_ok s → servable mml hbs events r → has_slots s (request_id r) (num_computed_tokens r) →
  new_computed_blocks a = None → num_new_computed_tokens a = 0 →
  more_tokens mml a (num_computed_tokens r) k →
  wp (allocate_slots sha256 use_int r a)
    (λ res s', service_ok s'
       ∧ (∀ rid', rid' ≠ request_id r → (unknown s rid' → unknown s' rid')
            ∧ ∀ n, has_slots s rid' n → has_slots s' rid' n)
       ∧ has_slots s' (request_id r)
           (match res with Some _ => num_computed_tokens r + k | None => num_computed_tokens r end)) s.
Proof using.
  intros Hs Hv Hsl Ea En Hmt. destruct (so_inv s Hs) as [l H].
  destruct (call_of s r a (num_computed_tokens r) k Hs Hv Hmt ltac:(lia) ltac:(lia)) as [Hcall Hslot].
  assert (extend_call s r a) as Hext.
  { split; [unfold passed_blocks; by rewrite Ea|split; [done|apply Hmt]|].
    intros i m Hm. eapply slots_skipped; try done. by apply (sv_computed _ _ _ _ Hv). }
  eapply wp_mono; [apply (allocate_slots_spec sha256 use_int s l r a H Hcall); by left|].
  simpl. intros res s' (l' & H' & Es & Hcfg & Hsc & Hres).
  destruct (service_step s s' l' (.≠ request_id r) Hs H') as [Hs' Ho]; try (by rewrite Es); try done.
  { by eapply slots_others. }
  split_and!; [done..|]. destruct res as [new|].
  - apply (slots_len s l r a new s' H Hcfg Hres). rewrite Hslot. destruct Hmt as [(? & ? & ?) ? _ _]. lia.
  - intros i m' Hm'. destruct (refused_len _ _ _ _ Hcfg Hres i m' Hm') as (m & Hm & -> & -> & _).
    by apply (Hsl i).
Qed.

Lemma admit_service s r a blocks n k :
  service_ok s → servable mml hbs events r → num_computed_tokens r = 0 → unknown s (request_id r) →
  hit_for s (num_tokens r) blocks n → new_computed_blocks a = Some blocks →
  num_new_computed_tokens a = n → more_tokens mml a n k →
  wp (allocate_slots sha256 use_int r a)
    (λ res s', service_ok s'
       ∧ (∀ rid', rid' ≠ request_id r → (unknown s rid' → unknown s' rid')
            ∧ ∀ n, has_slots s rid' n → has_slots s' rid' n)
       ∧ match res with
         | Some _ => has_slots s' (request_id r) (n + k)
         | None => unknown s' (request_id r)
         end) s.
Proof using.
  intros Hs Hv Hc0 Hu (r0 & Er0 & Hf) Ea En Hmt. destruct (so_inv s Hs) as [l H].
  apply (found_tokens s r0 r _ _ Er0) in Hf. pose proof (fo_bounds _ _ _ _ Hf) as Hb.
  destruct (call_of s r a n k Hs Hv Hmt ltac:(lia) ltac:(lia)) as [Hcall Hslot].
  assert (lookup_call s r) as Hlc.
  { destruct Hv as [V1 _ _ V4 V5]. split; try done; [apply Hs|split; [done|lia]| |apply Hs|].
    - by rewrite (so_hbs s Hs).
    - by rewrite (so_events s Hs). }
  eapply wp_mono; [apply (allocate_slots_spec sha256 use_int s l r a H Hcall)|].
  { apply (found_call s l r H blocks n a Hlc Hf Ea En). by rewrite (mt_external _ _ _ _ Hmt). }
  simpl. intros res s' (l' & H' & Es & Hcfg & Hsc & Hres).
  destruct (service_step s s' l' (.≠ request_id r) Hs H') as [Hs' Ho]; try (by rewrite Es); try done.
  { by eapply slots_others. }
  split_and!; [done..|]. destruct res as [new|].
  - apply (slots_len s l r a new s' H Hcfg Hres). rewrite Hslot. destruct Hmt as [(? & ? & ?) ? _ _]. lia.
  - intros i m' Hm'. destruct (refused_len _ _ _ _ Hcfg Hres i m' Hm') as (m & Hm & _ & E1 & ->).
    destruct (Hu i m Hm) as [Et Ec]. split; [|done]. rewrite Et in E1. unfold zlen in E1.
    apply length_zero_iff_nil. simpl in E1. lia.
Qed.

Lemma lookup_service s r :
  service_ok s → servable mml hbs events r → num_computed_tokens r = 0 → unknown s (request_id r) →
  wp (get_computed_blocks sha256 use_int r)
    (λ res s', s' = s ∧ hit_for s (num_tokens r) res.1.1 res.1.2) s.
Proof using.
  intros Hs [V1 _ _ V4 V5] Hc0 Hu. destruct (so_inv s Hs) as [l H].
  eapply wp_mono; [apply (get_computed_blocks_spec sha256 use_int s l r H)|].
  - split; try done; [apply Hs|split; [done|lia]| |apply Hs|].
    + by rewrite (so_hbs s Hs).
    + by rewrite (so_events s Hs).
  - simpl. intros res s' [-> Hf]. split; [done|]. by exists r.
Qed.

Lemma release_service s r :
  service_ok s →
  wp (kvm_free r) (λ _ s', service_ok s'
    ∧ (∀ rid', rid' ≠ request_id r → (unknown s rid' → unknown s' rid')
         ∧ ∀ n, has_slots s rid' n → has_slots s' rid' n)
    ∧ unknown s' (request_id r)) s.
Proof using.
  intros Hs. destruct (so_inv s Hs) as [l H].
  eapply wp_mono; [apply (kvm_free_spec s l r H)|]. simpl. intros _ s' (l' & H' & Es & Hcfg & Hsc & Ht).
  destruct (service_step s s' l' (.≠ request_id r) Hs H') as [Hs' Ho]; try (by rewrite Es); try done.
  { rewrite Es. simpl. intros ->. apply delete_empty. }
  { intros i m m' Hm Hm'. destruct (Ht i m m' Hm Hm') as (T1 & T2 & T3). split; [|done].
    intros id Hne. by rewrite T1, T2, decide_False, lookup_delete_ne. }
  split_and!; [done..|]. intros i m' Hm'. destruct (config_lookup _ _ _ _ Hcfg Hm') as (m & Hm & _).
  destruct (Ht i m m' Hm Hm') as (T1 & T2 & _). by rewrite T1, T2, decide_True, lookup_delete_eq.
Qed.

(** ** The calls that serve no request *)

Definition same_service s s' : Prop :=
  service_ok s' ∧ (∀ rid, unknown s rid → unknown s' rid) ∧ ∀ rid n, has_slots s rid n → has_slots s' rid n.

Lemma same_service_refl s : service_ok s → same_service s s.
Proof using. unfold same_service. auto. Qed.

(** A manager as requests see it. *)
Definition quiet m m' : Prop :=
  (∀ id, table m' id = table m id) ∧ num_cached_block m' = num_cached_block m
  ∧ _partial_hit_reqs m' = _partial_hit_reqs m ∧ _pending_cow_copies m' = _pending_cow_copies m.

Lemma quiet_core p m m' F l :
  same_core m m' → num_cached_block m' = num_cached_block m → group_inv F (mkGroup p m) l →
  quiet m m' ∧ group_inv F (mkGroup p m') l ∧ advance p m l p m'.
Proof using.
  intros Hc Hn H. pose proof Hc as (_ & _ & _ & Et & Ep & Eh).
  assert (∀ id, table m' id = table m id) as Ht by (intros id; unfold table; by rewrite Et).
  split; [done|]. split; [by eapply group_inv_core|].
  apply advance_hashes; [done|done|]. intros id j b. by rewrite Ht.
Qed.

Lemma quiet_service {A} (op : nat → M GroupState A) s :
  service_ok s → (∀ i, keeps_static (op i)) →
  (∀ i m p l G, managers s !! i = Some m → group_inv G (mkGroup p m) l →
     wp (op i) (λ _ g', ∃ l', group_inv G g' l' ∧ same_conf p (g_pool g')
       ∧ advance p m l (g_pool g') (g_mgr g') ∧ quiet m (g_mgr g')) (mkGroup p m)) →
  wp (on_coordinator (each_manager op)) (λ _ s', same_service s s') s.
Proof using.
  intros Hs Hk Hop. destruct (so_inv s Hs) as [l H]. apply wp_on_coordinator.
  eapply wp_mono.
  { apply wp_config; [by apply kc_each|].
    apply (each_manager_keep _ (coordinator s) l op (λ _ m _ m', quiet m m') (ki_coord _ _ H)).
    intros i m p l' G Hi Hc HG. by apply (Hop i m p l' G). }
  simpl. intros xs c' (Hcfg & l' & H' & Hsc & Hr & Hp).
  assert (∀ i m m', managers s !! i = Some m → single_type_managers c' !! i = Some m' → quiet m m') as Hq.
  { intros i m m' Hm Hm'. by destruct (Hp i m m' Hm Hm') as (_ & _ & ?). }
  assert (kvm_inv (set_coordinator c' s) l') as Hinv.
  { eapply kvm_inv_step; try done.
    - intros Hca. by apply Hr, (ki_reg _ _ H).
    - intros i m' Hm'. destruct (same_coord_lookup _ _ _ _ Hsc Hm') as [m Hm].
      destruct (Hq i m m' Hm Hm') as (_ & _ & -> & _). apply (go_partial _ _ (ki_groups _ _ H i m Hm)). }
  destruct (service_step s (set_coordinator c' s) l' (λ _, True) Hs Hinv) as [Hs' Ho]; try done.
  - intros i m m' Hm Hm'. destruct (Hq i m m' Hm Hm') as (Ht & -> & _ & ->). by split.
  - split; [done|]. split; intros rid; [|intros n]; by apply Ho.
Qed.

Lemma new_step_service s : service_ok s → wp kvm_new_step_starts (λ _ s', same_service s s') s.
Proof using.
  intros Hs. unfold kvm_new_step_starts, coord_new_step_starts.
  eapply wp_ext; [|apply (wp_bind (on_coordinator (each_manager (λ _, new_step_starts))) (λ _, mret tt))].
  { unfold on_coordinator, zoom, mbind, M_bind. by destruct (each_manager _ _) as [[?|?] ?]. }
  eapply wp_mono; [apply (quiet_service _ s Hs); [intros; apply ks_new_step|]|].
  - intros i m p l G Hm HG. unfold new_step_starts, self, update_self. wp_steps. simpl.
    destruct (quiet_core p m m G l) as (? & ? & ?); [done..|].
    destruct (quiet_core p m (set_cached_blocks_this_step ∅ m) G l) as (? & ? & ?); [done..|].
    destruct (mgr_kind m); wp_steps; by exists l.
  - simpl. intros _ s' ?. by wp_steps.
Qed.

Lemma new_ids_service s : service_ok s → wp kvm_take_new_block_ids (λ _ s', same_service s s') s.
Proof using.
  intros Hs. unfold kvm_take_new_block_ids. apply wp_bind.
  eapply wp_mono; [apply (quiet_service _ s Hs)|].
  - intros _. unfold take_new_block_ids. static_steps.
  - intros i m p l G Hm HG. unfold take_new_block_ids, self, update_self. wp_steps. simpl.
    destruct (quiet_core p m (set_new_block_ids [] m) G l) as (? & ? & ?); [done..|].
    by exists l.
  - simpl. intros ids s' ?. by wp_steps.
Qed.

Lemma record_service s r n :
  service_ok s → wp (record_prefix_cache_stats r n) (λ _ s', same_service s s') s.
Proof using.
  intros Hs. unfold record_prefix_cache_stats. wp_steps.
  destruct (negb (log_stats s) || _) eqn:E; [wp_steps; by apply same_service_refl|].
  apply orb_false_iff in E as [E _]. apply negb_false_iff in E.
  destruct (so_stats s Hs) as [[st ->]|E']; [|congruence]. wp_steps.
  destruct Hs as [[l H] _ H3 H4 H5 H6 H7 H8 H9]. split; [|done].
  split; try done; [exists l; by apply kvm_inv_stats|]. left. by eexists.
Qed.

Lemma copies_service s :
  service_ok s → wp take_kv_cache_block_copies (λ cs s', same_service s s' ∧ cs.1 = []) s.
Proof using.
  intros Hs. unfold take_kv_cache_block_copies. apply wp_bind, wp_on_coordinator.
  eexists _, (coordinator s). split.
  { apply (each_manager_pure (coordinator s) _ (λ _ _, [])). intros i m Hm.
    unfold take_pending_cow_copies, self, update_self, mbind, M_bind. simpl.
    pose proof (so_copies s Hs i m Hm) as E. rewrite E. unfold mret, M_ret. simpl.
    assert (set_pending_cow_copies [] m = m) as ->; [|done]. rewrite <-E. by destruct m. }
  wp_steps. assert (concat (imap (λ (_ : nat) (_ : Manager), @nil (ref * ref)) (managers s)) = []) as E.
  { by induction (managers s). }
  unfold managers in E. rewrite E. split; [|done]. replace (set_coordinator (coordinator s) s) with s by (by destruct s).
  by apply same_service_refl.
Qed.

(** Counting the common prefix reads the table and the counts. *)
Lemma common_loop p l m n bs (Q : Z → GroupState → Prop) :
  pool_inv p l → Forall (in_pool p) bs → (∀ k, Q k (mkGroup p m)) →
  wp (common_prefix_loop n bs) Q (mkGroup p m).
Proof using.
  intros Hinv Hbs. revert Q. induction Hbs as [|b bs Hb _ IH]; intros Q HQ; simpl; [by wp_steps|].
  destruct (proj1 (inv_in_pool _ _ _ Hinv b) Hb) as [_ [blk Hblk]].
  apply wp_bind, wp_on_pool. eapply wp_block; [done|]. simpl.
  destruct (_ =? n); [|by wp_steps]. apply wp_bind, IH. intros k. wp_steps. apply HQ.
Qed.

Lemma ks_common_loop n bs : keeps_static (common_prefix_loop n bs).
Proof using.
  induction bs as [|b bs IH]; simpl; [apply ks_ret|].
  apply ks_bind; [apply ks_on_pool|]. intros blk. destruct (_ =? n); [|apply ks_ret].
  apply ks_bind; [done|]. intros k. apply ks_ret.
Qed.

Lemma common_prefix_service s rid :
  service_ok s → wp (kvm_get_num_common_prefix_blocks rid) (λ _ s', same_service s s') s.
Proof using.
  intros Hs. unfold kvm_get_num_common_prefix_blocks, coord_get_num_common_prefix_blocks.
  apply wp_on_coordinator. wp_steps. case_decide as Ek.
  { wp_steps. replace (set_coordinator (coordinator s) s) with s by (by destruct s).
    by apply same_service_refl. }
  apply (wp_zoom_inv coordinator set_coordinator _ (λ _ s', same_service s s')).
  apply (quiet_service (λ _, get_num_common_prefix_blocks rid) s Hs).
  - intros i. cbn beta. unfold get_num_common_prefix_blocks. apply ks_bind; [apply ks_self|].
    intros k. assert (keeps_static (bs ← req_blocks rid; n ← self (λ m, Z.of_nat (size (req_to_blocks m)));
      common_prefix_loop n bs)) as Hk.
    { apply ks_bind; [apply ks_req_blocks|]. intros bs. apply ks_bind; [apply ks_self|].
      intros n. apply ks_common_loop. }
    destruct k; first [exact Hk|apply ks_ret].
  - intros i m p l G Hm HG. unfold get_num_common_prefix_blocks, self. wp_steps. simpl.
    destruct (quiet_core p m m G l) as (? & ? & ?); [done..|].
    assert (wp (bs ← req_blocks rid; n ← gets ((λ m, Z.of_nat (size (req_to_blocks m))) ∘ g_mgr);
      common_prefix_loop n bs) (λ _ g', ∃ l', group_inv G g' l' ∧ same_conf p (g_pool g')
        ∧ advance p m l (g_pool g') (g_mgr g') ∧ quiet m (g_mgr g')) (mkGroup p m)) as Hloop.
    { apply wp_bind. eapply wp_mono; [apply req_blocks_spec|]. simpl. intros bs g' (-> & ->). wp_steps.
      simpl. apply (common_loop _ l); [apply HG|apply (gi_tables _ _ _ HG)|]. intros k. exists l. simpl.
      assert (∀ id, table (set_req_to_blocks (<[rid:=table m rid]> (req_to_blocks m)) m) id = table m id) as Ht.
      { intros id. rewrite table_insert. case_decide; [by subst|done]. }
      split; [by apply (group_inv_read G (mkGroup p m))|]. split; [done|]. split; [|done].
      apply advance_hashes; [done|done|]. intros id j b. by rewrite Ht. }
    destruct (mgr_kind m); try exact Hloop; wp_steps; by exists l.
Qed.

(** ** Statistics, events and the reset *)

(** An operation on the pool that keeps the counts and registers nothing. *)
Lemma pool_service {A} (op : M BlockPool A) (Q : A → Prop) s l :
  service_ok s → kvm_inv s l →
  wp op (λ a p', Q a ∧ pool_inv p' l ∧ same_conf (pool s) p' ∧ unregisters (pool s) p'
                 ∧ same_rc (pool s) p') (pool s) →
  wp (on_blocks op) (λ a s', Q a ∧ same_service s s'
    ∧ prefix_cache_stats s' = prefix_cache_stats s ∧ log_stats s' = log_stats s) s.
Proof using.
  intros Hs H (a & p' & E & HQ & Hinv & Hc & Hu & Hrc). apply wp_on_coordinator, wp_zoom.
  exists a, p'. split; [exact E|]. split; [done|]. split; [|done].
  assert (kvm_inv (set_coordinator (set_state p' (managers s) (coordinator s)) s) l) as H'.
  { apply (kvm_pool_step s l p' l (_partial_tail_pins s) H Hinv Hc Hu); [intros r _; by rewrite Hrc|].
    intros id bs. apply (ki_pins _ _ H). }
  destruct (service_step s _ l (λ _, True) Hs H') as [Hs' Ho]; try done.
  - unfold same_config. by apply Forall_Forall2_diag, Forall_forall.
  - intros i m m' Hm Hm'. change (managers s !! i = Some m') in Hm'. by simplify_eq.
Qed.

Lemma events_service s : service_ok s → wp kvm_take_events (λ _ s', same_service s s') s.
Proof using.
  intros Hs. destruct (so_inv s Hs) as [l H]. unfold kvm_take_events. apply wp_bind.
  eapply wp_mono; [apply (pool_service _ (λ _, True) s l Hs H)|].
  - eapply wp_mono; [apply (take_events_keeps (pool s) l), (ki_coord _ _ H)|]. simpl. intros evs p' ?. done.
  - simpl. intros evs s' (_ & ? & _). by wp_steps.
Qed.

Lemma stats_keep s st : service_ok s → (is_Some (prefix_cache_stats s) → is_Some st) → same_service s (set_stats st s).
Proof using.
  intros [[l H] H2 H3 H4 H5 H6 H7 H8 H9] Hst. split; [|done].
  split; try done; [exists l; by apply kvm_inv_stats|]. simpl. clear -H2 Hst. tauto.
Qed.

Lemma stats_service s : service_ok s → wp make_prefix_cache_stats (λ _ s', same_service s s') s.
Proof using.
  intros Hs. unfold make_prefix_cache_stats. wp_steps.
  destruct (negb (log_stats s)); wp_steps; [by apply same_service_refl|]. apply stats_keep; [done|]. by eexists.
Qed.

Lemma estimate_service s r : service_ok s → wp (estimate_cached_tokens r) (λ _ s', same_service s s') s.
Proof using.
  intros Hs. destruct (so_inv s Hs) as [l H]. unfold estimate_cached_tokens. wp_steps.
  eapply (wp_mono _ (λ _ s', s' = s)); [|simpl; intros a s' ->; wp_steps; by apply same_service_refl].
  apply (wp_fold_each _ (λ _ _ s', s' = s)); [done|]. intros pre [g bs] post acc s' E ->. simpl.
  destruct (is_cross_attention _); [by wp_steps|]. wp_steps. apply wp_on_coordinator, wp_zoom.
  assert (Forall (in_pool (pool s)) bs) as Hbs.
  { assert ((g, bs) ∈ zip (kv_cache_groups (kvm_config s)) (kcb_blocks (kvm_get_blocks s (request_id r)))) as Hin
      by (rewrite E; apply elem_of_app; right; by left).
    apply elem_of_zip_r in Hin. unfold kvm_get_blocks, create_kv_cache_blocks in Hin.
    destruct (existsb _ _); simpl in Hin; [|apply elem_of_replicate in Hin as [-> _]; constructor].
    unfold get_blocks in Hin. apply list_elem_of_fmap in Hin as (m & -> & Hm).
    apply list_elem_of_lookup in Hm as [i Hm]. apply (mo_tables _ _ (ci_mgrs _ _ _ (ki_coord _ _ H) i m Hm)). }
  eapply (wp_mono _ (λ _ p, p = pool s)).
  - apply (wp_fold_each _ (λ _ _ p, p = pool s)); [done|]. intros pre' b post' n p -> ->.
    apply Forall_app in Hbs as [_ Hbs]. apply Forall_cons in Hbs as [Hb _].
    destruct (proj1 (inv_in_pool _ _ _ (ci_pool _ _ _ (ki_coord _ _ H)) b) Hb) as [_ [blk Hblk]].
    wp_steps. eapply wp_block; [exact Hblk|]. by wp_steps.
  - simpl. intros n p ->. wp_steps. by destruct s as [? ? ? ? ? [] ? ? ?].
Qed.

Lemma reset_service s :
  service_ok s → wp kvm_reset_prefix_cache (λ ok s', same_service s s' ∧ ((∀ rid, unknown s rid) → ok = true)) s.
Proof using.
  intros Hs. destruct (so_inv s Hs) as [l H]. unfold kvm_reset_prefix_cache. apply wp_bind.
  eapply wp_mono; [apply (pool_service _ (λ ok, zlen l = num_gpu_blocks (pool s) - 1 → ok = true) s l Hs H)|].
  { eapply wp_mono; [apply (reset_keeps (pool s) l), (ki_coord _ _ H)|]. simpl. intros ok p' ?. done. }
  simpl. intros ok s' (Hok & Hsame & Est & El).
  assert ((∀ rid, unknown s rid) → ok = true) as Hall.
  { intros Hu. apply Hok, (idle_free s l H). split; [apply Hs|]. intros m [i Hm]%list_elem_of_lookup.
    split; [|by apply (so_copies s Hs i)]. intros rid. by apply (Hu rid i). }
  destruct ok; simpl; [|by wp_steps]. wp_steps. apply wp_when; intros Hlog; [|by wp_steps].
  destruct (so_stats s Hs) as [[st Est']|E]; [|congruence]. rewrite Est, Est'. wp_steps. split; [|done].
  destruct Hsame as (Hs' & Hu & Hsl). destruct (stats_keep s' (Some (mark_reset st)) Hs') as (? & ? & ?); [by eexists|].
  split; [done|]. split; eauto.
Qed.

#[global] Program Instance kvm_service : KVService sha256 use_int mml hbs events := {
  kv_ready := service_ok;
  kv_unknown := unknown;
  kv_slots := has_slots;
  kv_found := hit_for;
}.
Next Obligation.
  intros s rid n n' Hs Hn Hle i m Hm. destruct (so_inv s Hs) as [l H].
  etrans; [|by apply (Hn i m)]. apply cdiv_mono; [|done].
  apply (mo_bsz _ _ (ci_mgrs _ _ _ (ki_coord _ _ H) i m Hm)).
Qed.
Next Obligation. intros s t blocks n (r & <- & Hf). apply (fo_bounds _ _ _ _ Hf). Qed.
Next Obligation. exact lookup_service. Qed.
Next Obligation. exact admit_service. Qed.
Next Obligation. exact extend_service. Qed.
Next Obligation. exact release_service. Qed.
Next Obligation. exact record_service. Qed.
Next Obligation. exact new_step_service. Qed.
Next Obligation. exact common_prefix_service. Qed.
Next Obligation. exact copies_service. Qed.
Next Obligation. exact new_ids_service. Qed.
Next Obligation. exact events_service. Qed.
Next Obligation. exact stats_service. Qed.
Next Obligation. exact estimate_service. Qed.
Next Obligation. exact reset_service. Qed.
End implementation.

(** A new manager serves. *)
Lemma init_service cfg mml sbs hbs mif caching eagle npl stats events dcp pcp wok wm md s :
  KVCacheManager_init cfg mml sbs hbs mif caching eagle npl stats events dcp pcp wok wm md = inr s →
  supported cfg sbs hbs dcp caching → 0 ≤ wm → lookup_cfg (coordinator s) → managers s ≠ [] →
  service_ok mml hbs events s ∧ ∀ rid, unknown s rid.
Proof.
  intros H Hsup Hwm Hl Hm. destruct (KVCacheManager_init_inv _ _ _ _ _ _ _ _ _ _ _ _ _ _ _ _ H Hsup Hwm)
    as (Hinv & Hf & Hp & Hpins). rewrite Forall_lookup in Hf. split.
  - unfold KVCacheManager_init in H. apply result_bind_inr in H as (c & _ & H).
    apply result_bind_inr in H as (u & _ & H). split; try done.
    + by eexists.
    + injection H as <-. destruct stats; [by left; eexists|by right].
    + by injection H as <-.
    + by destruct Hp as (_ & _ & _ & ? & _).
    + by injection H as <-.
    + intros i m Hi. by destruct (Hf i m Hi) as (_ & _ & _ & _ & ?).
  - intros rid i m Hi. destruct (Hf i m Hi) as (_ & Et & Ec & _). unfold table. by rewrite Et, Ec, !lookup_empty.
Qed.
