(* ===== verification/SchedulerState.v ===== *)
(** The state of the scheduler ([vllm/v1/core/sched/scheduler.py], class [Scheduler]): its
    configuration, the request objects with the attributes only the scheduler uses, the queues,
    and the functions that decide how many tokens of a request to run.

    The configuration has no KV connector and no encoder-cache connector; the requests are not
    resumable (no streaming input). *)

From S2P Require Import Prelude MathUtils Request BlockHash FreeQueue BlockPool Managers.
From S2P Require Import Coordinator KVCacheManager EncoderCache RequestQueue SchedUtils.

Inductive PauseState := UNPAUSED | PAUSED_NEW | PAUSED_ALL.
#[global] Instance pause_eq_dec : EqDecision PauseState.
Proof. solve_decision. Defined.
#[global] Instance policy_eq_dec : EqDecision SchedulingPolicy.
Proof. solve_decision. Defined.

(** The attributes [__init__] computes from the configuration.  [max_loras] is [None] without
    a LoRA configuration; [draft_slots] is [spec.max_num_new_slots_for_drafting]. *)
Record SchedulerConfig := {
  max_num_running_reqs : Z;
  max_num_scheduled_tokens : Z;
  cfg_max_num_batched_tokens : Z;
  cfg_max_model_len : Z;
  num_sampled_tokens_per_step : Z;
  draft_slots : Z;
  long_prefill_token_threshold : Z;
  enable_chunked_prefill : bool;
  cfg_disable_chunked_mm_input : bool;
  is_encoder_decoder : bool;
  is_mm_encoder_only : bool;
  cfg_max_num_encoder_input_tokens : Z;
  num_spec_tokens : Z;
  cfg_num_lookahead_tokens : Z;
  num_prefill_lookahead : Z;
  dynamic_sd_lookup : option (list Z);
  scheduler_reserve_full_isl : bool;
  policy : SchedulingPolicy;
  max_loras : option Z;
  cfg_use_eagle : bool;
  cache_block_size : Z;
  sched_hash_block_size : Z;
  need_mamba_block_aligned_split : bool;
  mamba_has_prefill_checkpoint_blocks : bool;
  mamba_partial_cache_hit : bool;
  use_pp : bool;
  pp_size : Z;
  async_scheduling : bool;
  use_v2_model_runner : bool;
}.

(** ** Request objects *)

(** The attributes of a request that only the scheduler reads and writes, and whether it still
    has its [prefill_stats]. *)
Record SReq := mkSReq {
  req : Request;
  num_output_placeholders : Z;
  num_stale_output_tokens : Z;
  drop_stale_output : bool;
  next_decode_eligible_step : Z;
  is_prefill_chunk : bool;
  has_prefill_stats : bool;
}.

Definition new_sreq (r : Request) : SReq := mkSReq r 0 0 false 0 false true.

Definition set_req (f : Request → Request) (x : SReq) : SReq :=
  mkSReq (f (req x)) (num_output_placeholders x) (num_stale_output_tokens x) (drop_stale_output x)
    (next_decode_eligible_step x) (is_prefill_chunk x) (has_prefill_stats x).
Definition set_placeholders (n : Z) (x : SReq) : SReq :=
  mkSReq (req x) n (num_stale_output_tokens x) (drop_stale_output x)
    (next_decode_eligible_step x) (is_prefill_chunk x) (has_prefill_stats x).
Definition set_stale (n : Z) (dropped : bool) (x : SReq) : SReq :=
  mkSReq (req x) (num_output_placeholders x) n dropped
    (next_decode_eligible_step x) (is_prefill_chunk x) (has_prefill_stats x).
Definition set_eligible_step (n : Z) (x : SReq) : SReq :=
  mkSReq (req x) (num_output_placeholders x) (num_stale_output_tokens x) (drop_stale_output x)
    n (is_prefill_chunk x) (has_prefill_stats x).
Definition set_prefill_chunk (b : bool) (x : SReq) : SReq :=
  mkSReq (req x) (num_output_placeholders x) (num_stale_output_tokens x) (drop_stale_output x)
    (next_decode_eligible_step x) b (has_prefill_stats x).
Definition drop_prefill_stats (x : SReq) : SReq :=
  mkSReq (req x) (num_output_placeholders x) (num_stale_output_tokens x) (drop_stale_output x)
    (next_decode_eligible_step x) (is_prefill_chunk x) false.

(** Assignments to the attributes of a [Request] the scheduler changes. *)
Definition with_progress (computed in_flight : Z) (spec : list Z) (preemptions boundary : Z)
    (st : RequestStatus) (r : Request) : Request :=
  {| request_id := request_id r; priority := priority r; arrival_time := arrival_time r;
     sampling_params := sampling_params r; pooling_params := pooling_params r;
     max_tokens := max_tokens r; num_prompt_tokens := num_prompt_tokens r;
     _output_token_ids := _output_token_ids r; _all_token_ids := _all_token_ids r;
     spec_token_ids := spec; num_computed_tokens := computed; num_preemptions := preemptions;
     mm_features := mm_features r; lora_request := lora_request r; cache_salt := cache_salt r;
     prompt_embeds := prompt_embeds r; block_hashes := block_hashes r;
     shared_prefix_boundary := boundary; status := st; stop_reason := stop_reason r;
     num_in_flight_tokens := in_flight; kv_cache_report_mode := kv_cache_report_mode r |}.
Definition set_computed (n : Z) (r : Request) : Request :=
  with_progress n (num_in_flight_tokens r) (spec_token_ids r) (num_preemptions r)
    (shared_prefix_boundary r) (status r) r.
Definition set_in_flight (n : Z) (r : Request) : Request :=
  with_progress (num_computed_tokens r) n (spec_token_ids r) (num_preemptions r)
    (shared_prefix_boundary r) (status r) r.
Definition set_spec (spec : list Z) (r : Request) : Request :=
  with_progress (num_computed_tokens r) (num_in_flight_tokens r) spec (num_preemptions r)
    (shared_prefix_boundary r) (status r) r.
Definition set_boundary (n : Z) (r : Request) : Request :=
  with_progress (num_computed_tokens r) (num_in_flight_tokens r) (spec_token_ids r)
    (num_preemptions r) n (status r) r.
Definition become (st : RequestStatus) (r : Request) : Request :=
  with_progress (num_computed_tokens r) (num_in_flight_tokens r) (spec_token_ids r)
    (num_preemptions r) (shared_prefix_boundary r) st r.

(** ** The encoder cache *)

(** [EncoderDecoderCacheManager] for encoder-decoder models, [EncoderCacheManager] for others. *)
Inductive EncoderCache := EncoderOnly (m : EncoderCacheManager) | EncoderDecoder (m : EncoderDecoderCacheManager).

Definition on_encoder {A} (op : M EncoderCacheManager A) (ed_op : M EncoderDecoderCacheManager A)
    : M EncoderCache A := λ e,
  match e with
  | EncoderOnly m => let '(r, m') := op m in (r, EncoderOnly m')
  | EncoderDecoder m => let '(r, m') := ed_op m in (r, EncoderDecoder m')
  end.

Definition enc_check_and_update_cache (r : Request) (i : Z) : M EncoderCache bool :=
  on_encoder (check_and_update_cache r i) (ed_check_and_update_cache r i).
Definition enc_can_allocate (r : Request) (i budget scheduled : Z) : M EncoderCache bool :=
  on_encoder (can_allocate r i budget scheduled) (ed_can_allocate r i budget scheduled).
Definition enc_allocate (r : Request) (i : Z) : M EncoderCache unit :=
  on_encoder (allocate r i) (ed_allocate r i).
Definition enc_free_encoder_input (r : Request) (i : Z) : M EncoderCache unit :=
  on_encoder (free_encoder_input r i) (ed_free_encoder_input r i).
Definition enc_get_freed_mm_hashes : M EncoderCache (list string) :=
  on_encoder get_freed_mm_hashes ed_get_freed_mm_hashes.
Definition enc_get_cached_input_ids (r : Request) : M EncoderCache (gset Z) :=
  on_encoder (gets (λ m, get_cached_input_ids m r)) (mret (ed_get_cached_input_ids r)).

(** ** State *)

(** A request object is its key in [requests]; the queues and [running] hold these keys. *)
Record Scheduler := mkScheduler {
  kv_cache_manager : KVCacheManager;
  encoder_cache_manager : EncoderCache;
  requests : gmap string SReq;
  waiting : RequestQueue (A := string);
  skipped_waiting : RequestQueue (A := string);
  running : list string;
  finished_req_ids : gset string;
  reset_preempted_req_ids : gset string;
  prev_step_scheduled_req_ids : gset string;
  grammar_compile_error_reqs : gset string;
  _inflight_prefills : gset string;
  current_step : Z;
  prefill_capacity_bound : bool;
  _pause_state : PauseState;
}.

Section setters.
Implicit Types (s : Scheduler).
Definition set_kvm (x : KVCacheManager) s : Scheduler :=
  mkScheduler x (encoder_cache_manager s) (requests s) (waiting s) (skipped_waiting s) (running s)
    (finished_req_ids s) (reset_preempted_req_ids s) (prev_step_scheduled_req_ids s)
    (grammar_compile_error_reqs s) (_inflight_prefills s) (current_step s)
    (prefill_capacity_bound s) (_pause_state s).
Definition set_encoder (x : EncoderCache) s : Scheduler :=
  mkScheduler (kv_cache_manager s) x (requests s) (waiting s) (skipped_waiting s) (running s)
    (finished_req_ids s) (reset_preempted_req_ids s) (prev_step_scheduled_req_ids s)
    (grammar_compile_error_reqs s) (_inflight_prefills s) (current_step s)
    (prefill_capacity_bound s) (_pause_state s).
Definition set_requests (x : gmap string SReq) s : Scheduler :=
  mkScheduler (kv_cache_manager s) (encoder_cache_manager s) x (waiting s) (skipped_waiting s)
    (running s) (finished_req_ids s) (reset_preempted_req_ids s) (prev_step_scheduled_req_ids s)
    (grammar_compile_error_reqs s) (_inflight_prefills s) (current_step s)
    (prefill_capacity_bound s) (_pause_state s).
Definition set_queues (w sk : RequestQueue (A := string)) s : Scheduler :=
  mkScheduler (kv_cache_manager s) (encoder_cache_manager s) (requests s) w sk
    (running s) (finished_req_ids s) (reset_preempted_req_ids s) (prev_step_scheduled_req_ids s)
    (grammar_compile_error_reqs s) (_inflight_prefills s) (current_step s)
    (prefill_capacity_bound s) (_pause_state s).
Definition set_running (x : list string) s : Scheduler :=
  mkScheduler (kv_cache_manager s) (encoder_cache_manager s) (requests s) (waiting s)
    (skipped_waiting s) x (finished_req_ids s) (reset_preempted_req_ids s)
    (prev_step_scheduled_req_ids s) (grammar_compile_error_reqs s) (_inflight_prefills s)
    (current_step s) (prefill_capacity_bound s) (_pause_state s).
Definition set_id_sets (fin pre prev err infl : gset string) s : Scheduler :=
  mkScheduler (kv_cache_manager s) (encoder_cache_manager s) (requests s) (waiting s)
    (skipped_waiting s) (running s) fin pre prev err infl (current_step s)
    (prefill_capacity_bound s) (_pause_state s).
Definition set_clock (n : Z) (bound : bool) (p : PauseState) s : Scheduler :=
  mkScheduler (kv_cache_manager s) (encoder_cache_manager s) (requests s) (waiting s)
    (skipped_waiting s) (running s) (finished_req_ids s) (reset_preempted_req_ids s)
    (prev_step_scheduled_req_ids s) (grammar_compile_error_reqs s) (_inflight_prefills s)
    n bound p.

Definition set_finished (x : gset string) s : Scheduler :=
  set_id_sets x (reset_preempted_req_ids s) (prev_step_scheduled_req_ids s)
    (grammar_compile_error_reqs s) (_inflight_prefills s) s.
Definition set_preempted (x : gset string) s : Scheduler :=
  set_id_sets (finished_req_ids s) x (prev_step_scheduled_req_ids s)
    (grammar_compile_error_reqs s) (_inflight_prefills s) s.
Definition set_prev_step (x : gset string) s : Scheduler :=
  set_id_sets (finished_req_ids s) (reset_preempted_req_ids s) x
    (grammar_compile_error_reqs s) (_inflight_prefills s) s.
Definition set_grammar_errors (x : gset string) s : Scheduler :=
  set_id_sets (finished_req_ids s) (reset_preempted_req_ids s) (prev_step_scheduled_req_ids s)
    x (_inflight_prefills s) s.
Definition set_inflight (x : gset string) s : Scheduler :=
  set_id_sets (finished_req_ids s) (reset_preempted_req_ids s) (prev_step_scheduled_req_ids s)
    (grammar_compile_error_reqs s) x s.
End setters.

Definition on_kvm {A} (op : M KVCacheManager A) : M Scheduler A := zoom kv_cache_manager set_kvm op.
Definition on_enc {A} (op : M EncoderCache A) : M Scheduler A := zoom encoder_cache_manager set_encoder op.

(** The object of a request, and assignments to it. *)
Definition lookup_req (rid : string) : M Scheduler SReq :=
  s ← get; lift_option KeyError (requests s !! rid).
Definition update_req (rid : string) (f : SReq → SReq) : M Scheduler unit :=
  modify (λ s, set_requests (alter f rid (requests s)) s).
Definition assign (rid : string) (f : Request → Request) : M Scheduler unit :=
  update_req rid (set_req f).

(** [Request.__lt__] on the objects of two keys, which are their ids: priority, arrival time,
    id. *)
Definition rank (s : Scheduler) (rid : string) : Z * Z :=
  match requests s !! rid with
  | Some x => (priority (req x), arrival_time (req x))
  | None => (0, 0)
  end.
Definition key_lt (s : Scheduler) (a b : string) : bool :=
  if negb ((rank s a).1 =? (rank s b).1) then (rank s a).1 <? (rank s b).1
  else if negb ((rank s a).2 =? (rank s b).2) then (rank s a).2 <? (rank s b).2
  else String.ltb a b.

Definition Scheduler_init (cfg : SchedulerConfig) (kvm : KVCacheManager) (enc : EncoderCache)
    : Scheduler :=
  mkScheduler kvm enc ∅ (create_request_queue (policy cfg)) (create_request_queue (policy cfg)) []
    ∅ ∅ ∅ ∅ ∅ 0 false UNPAUSED.
