(* ===== verification/Scheduler.v ===== *)
(** One scheduling step: [Scheduler.schedule] of [vllm/v1/core/sched/scheduler.py] with the
    functions it calls. *)

From S2P Require Import Prelude OrderedDict MathUtils Request BlockHash FreeQueue BlockPool Managers.
From S2P Require Import Coordinator KVCacheManager EncoderCache RequestQueue SchedUtils.
From S2P Require Import SchedulerState.

(** ** How many tokens to run *)

(** [_mamba_block_aligned_split]: clip a prefill chunk so that it ends where the state of a
    recurrent layer must be cached. *)
Definition _mamba_block_aligned_split (cfg : SchedulerConfig) (r : Request)
    (num_new_tokens num_new_local num_external : Z) : Z :=
  let start := num_computed_tokens r + num_new_local + num_external in
  let prefill_end := Z.max (num_prompt_tokens r) (num_tokens r - 1) in
  if prefill_end <=? start then num_new_tokens
  else
    let bsz := cache_block_size cfg in
    let last0 := num_tokens r - num_tokens r mod bsz in
    let last1 := if cfg_use_eagle cfg then Z.max (last0 - bsz) 0 else last0 in
    let end0 := start + num_new_tokens in
    let use_internal_checkpoint :=
      mamba_has_prefill_checkpoint_blocks cfg && (start mod bsz =? 0) in
    let last_cache_position := if use_internal_checkpoint then 0 else last1 in
    let end1 :=
      if (end0 <? prefill_end) && negb use_internal_checkpoint then
        let max_prefill_tokens :=
          if 0 <? long_prefill_token_threshold cfg
          then Z.min (max_num_scheduled_tokens cfg) (long_prefill_token_threshold cfg)
          else max_num_scheduled_tokens cfg in
        let aligned_end := end0 / bsz * bsz in
        if (start <? aligned_end) || (bsz <=? max_prefill_tokens) then aligned_end else end0
      else end0 in
    let next_block_boundary := (start / bsz + 1) * bsz in
    let tail_boundary :=
      if mamba_partial_cache_hit cfg
      then num_prompt_tokens r / sched_hash_block_size cfg * sched_hash_block_size cfg else 0 in
    let stops :=
      [if negb (start mod bsz =? 0) then next_block_boundary else 0;
       last_cache_position;
       if (last_cache_position <? tail_boundary) && (tail_boundary <? num_prompt_tokens r)
       then tail_boundary else 0;
       if (start <? shared_prefix_boundary r) && (shared_prefix_boundary r <? end1)
       then start + (shared_prefix_boundary r - start) / bsz * bsz else 0] in
    let inside := filter (λ x, start < x ∧ x < end1) stops in
    let end2 := foldr Z.min end1 inside in
    Z.max (end2 - start) 0.

Definition _reserve_prefill_lookahead (cfg : SchedulerConfig) (r : Request)
    (computed num_new_tokens : Z) : Z :=
  let remaining := num_tokens r - computed - num_new_tokens in
  let n := if (0 <? remaining) && (remaining <? num_prefill_lookahead cfg)
           then num_new_tokens - (num_prefill_lookahead cfg - remaining) else num_new_tokens in
  Z.max n 0.

(** ** Encoder inputs *)

(** [bisect.bisect_left] on the keys. *)
Fixpoint bisect_left (fuel : nat) (keys : list Z) (x lo hi : Z) : exn + Z :=
  match fuel with
  | O => inl OutOfFuel
  | S fuel' =>
      if lo <? hi then
        let mid := (lo + hi) / 2 in
        k ← result_of_option IndexError (py_get keys mid);
        if k <? x then bisect_left fuel' keys x (mid + 1) hi else bisect_left fuel' keys x lo mid
      else mret lo
  end.

Definition get_mm_features_in_window (fs : list MultiModalFeatureSpec) (start stop : Z)
    : exn + (Z * Z) :=
  let n := zlen fs in
  lo ← bisect_left (S (length fs))
         ((λ f, offset (mm_position f) + pr_length (mm_position f)) <$> fs) (start + 1) 0 n;
  hi ← bisect_left (S (length fs)) ((λ f, offset (mm_position f)) <$> fs) stop 0 n;
  mret (lo, hi).

(** The local variables of the loop over the inputs. *)
Record EncoderPlan := mkPlan {
  encoder_inputs_to_schedule : list Z;
  plan_new_tokens : Z;
  plan_budget : Z;
  mm_hashes_to_schedule : gset string;
  num_embeds_to_schedule : Z;
}.

Fixpoint plan_inputs (cfg : SchedulerConfig) (r : Request) (computed shift window_end : Z)
    (ids : list Z) (p : EncoderPlan) : M EncoderCache EncoderPlan :=
  match ids with
  | [] => mret p
  | i :: ids' =>
      let next := plan_inputs cfg r computed shift window_end ids' in
      f ← lift_option IndexError (py_get (mm_features r) i);
      let start_pos := offset (mm_position f) in
      let num_encoder_tokens := pr_length (mm_position f) in
      let num_encoder_embeds := get_num_embeds (mm_position f) in
      if is_encoder_decoder cfg && (0 <? computed) then assert (start_pos =? 0);; next p
      else
        known ← (if is_encoder_decoder cfg then mret false
                 else if bool_decide (identifier f ∈ mm_hashes_to_schedule p) then mret true
                 else enc_check_and_update_cache r i);
        if (known : bool) then next p
        else
          let new := plan_new_tokens p in
          if cfg_disable_chunked_mm_input cfg && (computed <? start_pos)
             && (computed + new <? start_pos + num_encoder_tokens)
          then mret (mkPlan (encoder_inputs_to_schedule p)
                       (Z.max 0 (start_pos - (computed + shift))) (plan_budget p)
                       (mm_hashes_to_schedule p) (num_embeds_to_schedule p))
          else
            ok ← enc_can_allocate r i (plan_budget p) (num_embeds_to_schedule p);
            if negb ok then
              mret (mkPlan (encoder_inputs_to_schedule p)
                      (if computed + shift <? start_pos then start_pos - (computed + shift) else 0)
                      (plan_budget p) (mm_hashes_to_schedule p) (num_embeds_to_schedule p))
            else
              let start_idx_rel := Z.max 0 (computed - start_pos) in
              let end_idx_rel := Z.min num_encoder_tokens (window_end - start_pos) in
              range ← lift_option IndexError
                        (get_embeds_indices_in_range (mm_position f) start_idx_rel end_idx_rel);
              if range.2 - range.1 =? 0 then next p
              else next (mkPlan (encoder_inputs_to_schedule p ++ [i]) new
                           (plan_budget p - num_encoder_embeds)
                           ({[identifier f]} ∪ mm_hashes_to_schedule p)
                           (num_embeds_to_schedule p + num_encoder_embeds))
  end.

(** The inputs to run, the tokens that remain, and the budget that remains. *)
Definition _try_schedule_encoder_inputs (cfg : SchedulerConfig) (r : Request)
    (computed num_new_tokens budget shift : Z) : M EncoderCache (list Z * Z * Z) :=
  if (num_new_tokens =? 0) || negb (has_encoder_inputs r) then mret ([], num_new_tokens, budget)
  else
    let window_end := computed + num_new_tokens + shift in
    window ← lift_result (get_mm_features_in_window (mm_features r) computed window_end);
    let lo := if is_encoder_decoder cfg then 0 else window.1 in
    p ← plan_inputs cfg r computed shift window_end (py_range lo window.2)
          (mkPlan [] num_new_tokens budget ∅ 0);
    mret (encoder_inputs_to_schedule p, plan_new_tokens p, plan_budget p).

(** ** The local variables of a step *)

Record Step := mkStep {
  scheduled_new_reqs : list string;
  scheduled_resumed_reqs : list string;
  scheduled_running_reqs : list string;
  preempted_reqs : list string;
  req_to_new_blocks : gmap string KVCacheBlocks;
  num_scheduled_tokens : list (string * Z);
  token_budget : Z;
  input_budget : Z;
  encoder_compute_budget : Z;
  scheduled_encoder_inputs : gmap string (list Z);
  scheduled_spec_decode_tokens : gmap string (list Z);
  prefill_scheduled : bool;
  scheduled_loras : gset Z;
  step_skipped_waiting : RequestQueue (A := string);
}.

Inductive Flow := Continue (st : Step) | Break (st : Step).

Section setters.
Implicit Types (st : Step).
(** The request runs [n] tokens in this step. *)
Definition charge (cfg : SchedulerConfig) (rid : string) (n : Z) (bs : KVCacheBlocks) st : Step :=
  mkStep (scheduled_new_reqs st) (scheduled_resumed_reqs st) (scheduled_running_reqs st)
    (preempted_reqs st) (<[rid := bs]> (req_to_new_blocks st))
    (od_set (num_scheduled_tokens st) rid n) (token_budget st - n)
    (input_budget st - (n + draft_slots cfg)) (encoder_compute_budget st)
    (scheduled_encoder_inputs st) (scheduled_spec_decode_tokens st) (prefill_scheduled st)
    (scheduled_loras st) (step_skipped_waiting st).
Definition set_lists (new resumed run pre : list string) st : Step :=
  mkStep new resumed run pre (req_to_new_blocks st) (num_scheduled_tokens st) (token_budget st)
    (input_budget st) (encoder_compute_budget st) (scheduled_encoder_inputs st)
    (scheduled_spec_decode_tokens st) (prefill_scheduled st) (scheduled_loras st)
    (step_skipped_waiting st).
Definition set_prefill_scheduled (b : bool) st : Step :=
  mkStep (scheduled_new_reqs st) (scheduled_resumed_reqs st) (scheduled_running_reqs st)
    (preempted_reqs st) (req_to_new_blocks st) (num_scheduled_tokens st) (token_budget st)
    (input_budget st) (encoder_compute_budget st) (scheduled_encoder_inputs st)
    (scheduled_spec_decode_tokens st) b (scheduled_loras st) (step_skipped_waiting st).
Definition set_spec_tokens (m : gmap string (list Z)) st : Step :=
  mkStep (scheduled_new_reqs st) (scheduled_resumed_reqs st) (scheduled_running_reqs st)
    (preempted_reqs st) (req_to_new_blocks st) (num_scheduled_tokens st) (token_budget st)
    (input_budget st) (encoder_compute_budget st) (scheduled_encoder_inputs st)
    m (prefill_scheduled st) (scheduled_loras st) (step_skipped_waiting st).
Definition set_encoder_plan (budget : Z) (m : gmap string (list Z)) st : Step :=
  mkStep (scheduled_new_reqs st) (scheduled_resumed_reqs st) (scheduled_running_reqs st)
    (preempted_reqs st) (req_to_new_blocks st) (num_scheduled_tokens st) (token_budget st)
    (input_budget st) budget m (scheduled_spec_decode_tokens st) (prefill_scheduled st)
    (scheduled_loras st) (step_skipped_waiting st).
Definition set_loras (x : gset Z) st : Step :=
  mkStep (scheduled_new_reqs st) (scheduled_resumed_reqs st) (scheduled_running_reqs st)
    (preempted_reqs st) (req_to_new_blocks st) (num_scheduled_tokens st) (token_budget st)
    (input_budget st) (encoder_compute_budget st) (scheduled_encoder_inputs st)
    (scheduled_spec_decode_tokens st) (prefill_scheduled st) x (step_skipped_waiting st).
Definition set_step_skipped (q : RequestQueue (A := string)) st : Step :=
  mkStep (scheduled_new_reqs st) (scheduled_resumed_reqs st) (scheduled_running_reqs st)
    (preempted_reqs st) (req_to_new_blocks st) (num_scheduled_tokens st) (token_budget st)
    (input_budget st) (encoder_compute_budget st) (scheduled_encoder_inputs st)
    (scheduled_spec_decode_tokens st) (prefill_scheduled st) (scheduled_loras st) q.
(** The tokens of a preempted request go back to the budgets. *)
Definition refund (cfg : SchedulerConfig) (rid : string) (restored embeds : Z) st : Step :=
  mkStep (scheduled_new_reqs st) (scheduled_resumed_reqs st)
    (remove_one (scheduled_running_reqs st) rid) (preempted_reqs st)
    (delete rid (req_to_new_blocks st)) (od_del (num_scheduled_tokens st) rid)
    (token_budget st + restored) (input_budget st + (restored + draft_slots cfg))
    (encoder_compute_budget st + embeds) (delete rid (scheduled_encoder_inputs st))
    (delete rid (scheduled_spec_decode_tokens st)) (prefill_scheduled st) (scheduled_loras st)
    (step_skipped_waiting st).
End setters.

(** ** Preemption *)

(** [structured_output_request.grammar] of a waiting request: not compiled yet, an exception,
    or a grammar. *)
Inductive Grammar := NotCompiled | CompileError | Compiled.

Section scheduler.
Context (sha256 : bytes → bytes) (use_int : bool) (cfg : SchedulerConfig).
Context (iter_order : gset Z → list Z) (grammar : string → Grammar).

Definition enc_free (r : Request) : M EncoderCache unit :=
  on_encoder (free_encoder_inputs iter_order r) (ed_free r).

(** [_preempt_request]; [drop_stale] is its argument [drop_stale_output]. *)
Definition _preempt_request (rid : string) (drop_stale : bool) : M Scheduler unit :=
  x ← lookup_req rid;
  assert (bool_decide (status (req x) = RUNNING));;
  on_kvm (kvm_free (req x));;
  on_enc (enc_free (req x));;
  modify (λ s, set_inflight (_inflight_prefills s ∖ {[rid]}) s);;
  update_req rid (λ x,
    set_placeholders 0
      (set_stale (num_in_flight_tokens (req x))
         (drop_stale || (drop_stale_output x && (0 <? num_stale_output_tokens x)))
         (set_req (λ r, with_progress 0 (num_in_flight_tokens r) [] (num_preemptions r + 1)
                          (shared_prefix_boundary r) PREEMPTED r) x)));;
  s ← get;
  w ← lift_result (prepend_request (key_lt s) (waiting s) rid);
  modify (set_queues w (skipped_waiting s));;
  modify (λ s, set_preempted ({[rid]} ∪ reset_preempted_req_ids s) s).

(** [max(self.running, key=lambda r: (r.priority, r.arrival_time))]: the first of the largest. *)
Definition later (s : Scheduler) (a b : string) : bool :=
  match requests s !! a, requests s !! b with
  | Some x, Some y =>
      (priority (req x) <? priority (req y))
      || ((priority (req x) =? priority (req y)) && (arrival_time (req x) <? arrival_time (req y)))
  | _, _ => false
  end.
Definition lowest_priority (s : Scheduler) (ids : list string) : option string :=
  match ids with
  | [] => None
  | a :: ids' => Some (foldl (λ best b, if later s best b then b else best) a ids')
  end.

(** The victim of a preemption, taken out of [running]; its index moves the loop cursor, and
    what it was given in this step is taken back. *)
Definition take_victim (idx : nat) (st : Step) : M Scheduler (string * nat * Step) :=
  s ← get;
  match policy cfg with
  | PRIORITY =>
      victim ← lift_option ValueError (lowest_priority s (running s));
      index ← lift_option ValueError (fst <$> list_find (λ r, r = victim) (running s));
      modify (set_running (delete index (running s)));;
      let idx' := if bool_decide (index < idx)%nat then pred idx else idx in
      if bool_decide (victim ∈ scheduled_running_reqs st) then
        restored ← lift_option KeyError (od_get (num_scheduled_tokens st) victim);
        lift_option KeyError (req_to_new_blocks st !! victim);;
        x ← lookup_req victim;
        embeds ← lift_result (foldr (λ i acc, n ← get_num_encoder_embeds (req x) i; a ← acc; mret (n + a))
                   (mret 0) (default [] (scheduled_encoder_inputs st !! victim)));
        mret (victim, idx', refund cfg victim restored embeds st)
      else mret (victim, idx', st)
  | FCFS =>
      victim ← lift_option IndexError (last (running s));
      modify (set_running (take (pred (length (running s))) (running s)));;
      mret (victim, idx, st)
  end.

(** The arguments of [allocate_slots] for a running request. *)
Definition running_args (n : Z) : SlotArgs :=
  {| num_new_tokens := n; num_new_computed_tokens := 0; new_computed_blocks := None;
     num_lookahead_tokens := cfg_num_lookahead_tokens cfg; num_external_computed_tokens := 0;
     delay_cache_blocks := false; num_encoder_tokens := 0; full_sequence_must_fit := false;
     reserved_blocks := 0; has_scheduled_reqs := false |}.

(** Allocate, preempting until it succeeds or the request itself is preempted.  Every round
    takes a request out of [running]. *)
Fixpoint allocate_or_preempt (fuel : nat) (rid : string) (n : Z) (idx : nat) (st : Step)
    : M Scheduler (option KVCacheBlocks * nat * Step) :=
  match fuel with
  | O => raise OutOfFuel
  | S fuel' =>
      x ← lookup_req rid;
      new_blocks ← on_kvm (allocate_slots sha256 use_int (req x) (running_args n));
      match new_blocks with
      | Some bs => mret (Some bs, idx, st)
      | None =>
          v ← take_victim idx st;
          let '(victim, idx', st') := v in
          _preempt_request victim false;;
          let st'' := set_lists (scheduled_new_reqs st') (scheduled_resumed_reqs st')
                        (scheduled_running_reqs st') (preempted_reqs st' ++ [victim]) st' in
          if bool_decide (victim = rid) then mret (None, idx', st'')
          else allocate_or_preempt fuel' rid n idx' st''
      end
  end.

(** ** Running requests *)

(** The tokens a running request asks for, before encoder inputs. *)
Definition running_tokens (x : SReq) (st : Step) : Z :=
  let r := req x in
  let n0 := num_tokens_with_spec r + num_output_placeholders x - num_computed_tokens r in
  let n1 := if (0 <? long_prefill_token_threshold cfg) && (long_prefill_token_threshold cfg <? n0)
            then long_prefill_token_threshold cfg else n0 in
  let n2 := Z.min n1 (Z.min (token_budget st) (input_budget st - draft_slots cfg)) in
  let n3 := Z.min n2 (cfg_max_model_len cfg - num_computed_tokens r
                      - num_sampled_tokens_per_step cfg) in
  if need_mamba_block_aligned_split cfg then _mamba_block_aligned_split cfg r n3 0 0 else n3.

(** The request is passed over in this step. *)
Definition passed_over (s : Scheduler) (defer_prefills : bool) (x : SReq) : bool :=
  ((0 <? num_output_placeholders x)
   && (num_prompt_tokens (req x) + max_tokens (req x)
       <=? num_computed_tokens (req x) + 2 - num_output_placeholders x))
  || (current_step s <? next_decode_eligible_step x)
  || (defer_prefills && is_prefill_chunk x).

(** The draft tokens of a scheduled request; the request forgets them. *)
Definition schedule_spec_tokens (rid : string) (n : Z) (st : Step) : M Scheduler Step :=
  x ← lookup_req rid;
  match spec_token_ids (req x) with
  | [] => mret st
  | spec =>
      let k := n + num_computed_tokens (req x) - num_tokens (req x) - num_output_placeholders x in
      assign rid (set_spec []);;
      mret (if 0 <? k
            then set_spec_tokens (<[rid := if k <? zlen spec then py_slice spec 0 k else spec]>
                                    (scheduled_spec_decode_tokens st)) st
            else st)
  end.

(** The encoder inputs of a scheduled request. *)
Definition schedule_encoder (rid : string) (inputs : list Z) (budget : Z) (st : Step)
    : M Scheduler Step :=
  match inputs with
  | [] => mret st
  | _ =>
      x ← lookup_req rid;
      on_enc (for_each inputs (enc_allocate (req x)));;
      mret (set_encoder_plan budget (<[rid := inputs]> (scheduled_encoder_inputs st)) st)
  end.

(** The body of the loop over [running]. *)
Definition visit_running (defer_prefills : bool) (idx : nat) (st : Step)
    : M Scheduler (nat * Flow) :=
  s ← get;
  rid ← lift_option IndexError (running s !! idx);
  if input_budget st <=? draft_slots cfg then mret (idx, Break st)
  else
    x ← lookup_req rid;
    if passed_over s defer_prefills x then mret (S idx, Continue st)
    else
      let n0 := running_tokens x st in
      plan ← (if has_encoder_inputs (req x)
              then on_enc (_try_schedule_encoder_inputs cfg (req x) (num_computed_tokens (req x)) n0
                             (encoder_compute_budget st) (num_prefill_lookahead cfg))
              else mret ([], n0, encoder_compute_budget st));
      let '(inputs, n1, budget) := plan in
      let n := _reserve_prefill_lookahead cfg (req x) (num_computed_tokens (req x)) n1 in
      if n =? 0 then mret (S idx, Continue st)
      else
        a ← allocate_or_preempt (S (length (running s))) rid n idx st;
        let '(new_blocks, idx', st') := a in
        match new_blocks with
        | None => mret (idx', Break st')
        | Some bs =>
            let st1 := set_prefill_scheduled (prefill_scheduled st' || is_prefill_chunk x)
                         (set_lists (scheduled_new_reqs st') (scheduled_resumed_reqs st')
                            (scheduled_running_reqs st' ++ [rid]) (preempted_reqs st') st') in
            let st2 := charge cfg rid n bs st1 in
            st3 ← schedule_spec_tokens rid n st2;
            st4 ← schedule_encoder rid inputs budget st3;
            mret (S idx', Continue st4)
        end.

Fixpoint schedule_running (fuel : nat) (defer_prefills : bool) (idx : nat) (st : Step)
    : M Scheduler Step :=
  match fuel with
  | O => raise OutOfFuel
  | S fuel' =>
      s ← get;
      if bool_decide (idx < length (running s))%nat && (0 <? token_budget st) then
        r ← visit_running defer_prefills idx st;
        match r with
        | (_, Break st') => mret st'
        | (idx', Continue st') => schedule_running fuel' defer_prefills idx' st'
        end
      else mret st
  end.

(** ** Waiting requests *)

Definition _is_blocked_waiting_status (st : RequestStatus) : bool :=
  match st with
  | WAITING_FOR_STRUCTURED_OUTPUT_GRAMMAR | WAITING_FOR_REMOTE_KVS | WAITING_FOR_STREAMING_REQ => true
  | _ => false
  end.

(** [_select_waiting_queue_for_scheduling]: [true] for [waiting], [false] for
    [skipped_waiting]. *)
Definition _select_waiting_queue_for_scheduling (s : Scheduler) : exn + option bool :=
  let w := queue_bool (waiting s) in
  let sk := queue_bool (skipped_waiting s) in
  match policy cfg with
  | FCFS => mret (if sk then Some false else if w then Some true else None)
  | PRIORITY =>
      if w && sk then
        a ← peek_request (waiting s);
        b ← peek_request (skipped_waiting s);
        mret (Some (key_lt s a b))
      else mret (if w then Some true else if sk then Some false else None)
  end.

Definition peek_from (from_waiting : bool) : M Scheduler string :=
  s ← get; lift_result (peek_request (if from_waiting then waiting s else skipped_waiting s)).
Definition pop_from (from_waiting : bool) : M Scheduler string :=
  s ← get;
  r ← lift_result (pop_request (key_lt s) (if from_waiting then waiting s else skipped_waiting s));
  modify (if from_waiting then set_queues r.2 (skipped_waiting s) else set_queues (waiting s) r.2);;
  mret r.1.

(** [request_queue.pop_request(); step_skipped_waiting.prepend_request(request); continue]. *)
Definition skip_request (from_waiting : bool) (rid : string) (st : Step) : M Scheduler Flow :=
  pop_from from_waiting;;
  s ← get;
  q ← lift_result (prepend_request (key_lt s) (step_skipped_waiting st) rid);
  mret (Continue (set_step_skipped q st)).

(** [_try_promote_blocked_waiting_request], without a connector: no request waits for remote
    blocks or for streaming input, and one that did would not be promoted. *)
Definition _try_promote_blocked_waiting_request (rid : string) : M Scheduler bool :=
  x ← lookup_req rid;
  match status (req x) with
  | WAITING_FOR_REMOTE_KVS | WAITING_FOR_STREAMING_REQ => mret false
  | WAITING_FOR_STRUCTURED_OUTPUT_GRAMMAR =>
      match grammar rid with
      | NotCompiled => mret false
      | CompileError =>
          modify (λ s, set_grammar_errors ({[rid]} ∪ grammar_compile_error_reqs s) s);; mret false
      | Compiled => assign rid (become WAITING);; mret true
      end
  | _ => raise AssertionError
  end.

(** Scheduling the request would exceed [max_loras]. *)
Definition exceeds_loras (r : Request) (st : Step) : bool :=
  match max_loras cfg, lora_request r with
  | Some k, Some l =>
      (Z.of_nat (size (scheduled_loras st)) =? k)
      && negb (bool_decide (lora_int_id l ∈ scheduled_loras st))
  | _, _ => false
  end.

(** The cached prefix of a waiting request: its blocks, the number of tokens, whether it was
    looked up. *)
Definition cached_prefix (rid : string) : M Scheduler (KVCacheBlocks * Z * bool) :=
  x ← lookup_req rid;
  if num_computed_tokens (req x) =? 0 then
    hit ← on_kvm (get_computed_blocks sha256 use_int (req x));
    let '(blocks, n, boundary) := hit in
    assign rid (set_boundary boundary);;
    assert (n <=? num_tokens (req x));;
    when (has_prefill_stats x && (num_preemptions (req x) <=? 0))
      (assert (n <=? num_prompt_tokens (req x)));;
    mret (blocks, n, true)
  else
    s ← get;
    mret (empty_kv_cache_blocks (kv_cache_manager s), 0, false).

(** The tokens to run of a waiting request and whether it is padded with draft tokens; [None]
    is a [break]. *)
Definition waiting_tokens (r : Request) (computed local : Z) (defer_prefills : bool) (st : Step)
    : exn + option (Z * bool) :=
  if defer_prefills && (computed <? num_tokens r - 1) then mret None
  else
    let request_token_budget := Z.min (token_budget st) (input_budget st - draft_slots cfg) in
    let n0 := num_tokens r - computed in
    let pad := (0 <? num_spec_tokens cfg) && bool_decide (dynamic_sd_lookup cfg = None)
               && (0 <? num_sampled_tokens_per_step cfg) && (n0 =? 1)
               && negb (bool_decide (scheduled_running_reqs st = [])) && negb (prefill_scheduled st) in
    let n1 := if pad then 1 + num_spec_tokens cfg else n0 in
    if pad && ((request_token_budget <? n1) || (cfg_max_model_len cfg <? computed + n1)) then mret None
    else
      let threshold := long_prefill_token_threshold cfg in
      let n2 := if (0 <? threshold) && (threshold <? n1) then threshold else n1 in
      if negb (enable_chunked_prefill cfg) && (request_token_budget <? n2) then mret None
      else
        let n3 := Z.min n2 request_token_budget in
        result_assert (0 <? n3) ≫= λ _,
        if need_mamba_block_aligned_split cfg then
          let n4 := _mamba_block_aligned_split cfg r n3 local 0 in
          mret (if n4 =? 0 then None else Some (n4, pad))
        else mret (Some (n3, pad)).

(** The arguments of [allocate_slots] for a waiting request. *)
Definition waiting_args (s : Scheduler) (blocks : KVCacheBlocks) (n local enc_tokens : Z) : SlotArgs :=
  {| num_new_tokens := n; num_new_computed_tokens := local; new_computed_blocks := Some blocks;
     num_lookahead_tokens := cfg_num_lookahead_tokens cfg; num_external_computed_tokens := 0;
     delay_cache_blocks := false; num_encoder_tokens := enc_tokens;
     full_sequence_must_fit := scheduler_reserve_full_isl cfg; reserved_blocks := 0;
     has_scheduled_reqs := negb (bool_decide (running s = [])) |}.

(** The request joins [running]. *)
Definition start_request (from_waiting : bool) (rid : string) (n computed : Z) (pad : bool)
    (inputs : list Z) (budget : Z) (st : Step) : M Scheduler Step :=
  pop_from from_waiting;;
  modify (λ s, set_running (running s ++ [rid]) s);;
  x ← lookup_req rid;
  st1 ← match status (req x) with
        | WAITING => mret (set_lists (scheduled_new_reqs st ++ [rid]) (scheduled_resumed_reqs st)
                             (scheduled_running_reqs st) (preempted_reqs st) st)
        | PREEMPTED => mret (set_lists (scheduled_new_reqs st) (scheduled_resumed_reqs st ++ [rid])
                               (scheduled_running_reqs st) (preempted_reqs st) st)
        | _ => raise RuntimeError
        end;
  let st2 := match max_loras cfg, lora_request (req x) with
             | Some _, Some l => set_loras ({[lora_int_id l]} ∪ scheduled_loras st1) st1
             | _, _ => st1
             end in
  s ← get;
  let st3 := charge cfg rid n (kvm_get_blocks (kv_cache_manager s) rid) st2 in
  assign rid (λ r, set_computed computed (become RUNNING r));;
  let st4 := if pad then set_spec_tokens
               (<[rid := replicate (Z.to_nat (num_spec_tokens cfg)) (-1)]>
                  (scheduled_spec_decode_tokens st3)) st3 else st3 in
  when (computed + n <? num_tokens (req x))
    (modify (λ s, set_inflight ({[rid]} ∪ _inflight_prefills s) s));;
  schedule_encoder rid inputs budget st4.

(** The body of the loop over the waiting queues, after the checks that skip a request. *)
Definition admit_request (defer_prefills from_waiting : bool) (rid : string) (st : Step)
    : M Scheduler Flow :=
  prefix ← cached_prefix rid;
  let '(blocks, local, looked_up) := prefix in
  x ← lookup_req rid;
  let r := req x in
  let computed := if (looked_up : bool) then local else num_computed_tokens r in
  want ← lift_result (waiting_tokens r computed local defer_prefills st);
  match want with
  | None => mret (Break st)
  | Some (n0, pad) =>
      plan ← (if has_encoder_inputs r
              then on_enc (_try_schedule_encoder_inputs cfg r computed n0 (encoder_compute_budget st)
                             (num_prefill_lookahead cfg))
              else mret ([], n0, encoder_compute_budget st));
      let '(inputs, n1, budget) := plan in
      let n := _reserve_prefill_lookahead cfg r computed n1 in
      if n =? 0 then mret (Break st)
      else
        enc_tokens ← lift_result
          (if is_encoder_decoder cfg && has_encoder_inputs r
           then foldr (λ i acc, k ← get_num_encoder_embeds r i; a ← acc; mret (k + a)) (mret 0) inputs
           else mret 0);
        s ← get;
        new_blocks ← on_kvm (allocate_slots sha256 use_int r (waiting_args s blocks n local enc_tokens));
        match new_blocks with
        | None => when (has_encoder_inputs r) (on_enc (enc_free r));; mret (Break st)
        | Some _ =>
            when looked_up (on_kvm (record_prefix_cache_stats r local));;
            st' ← start_request from_waiting rid n computed pad inputs budget st;
            mret (Continue st')
        end
  end.

Definition visit_waiting (defer_prefills : bool) (st : Step) : M Scheduler Flow :=
  s ← get;
  if input_budget st <=? draft_slots cfg then mret (Break st)
  else if max_num_running_reqs cfg <=? zlen (running s) then mret (Break st)
  else
    choice ← lift_result (_select_waiting_queue_for_scheduling s);
    from_waiting ← lift_option AssertionError choice;
    rid ← peek_from from_waiting;
    x ← lookup_req rid;
    promoted ← (if _is_blocked_waiting_status (status (req x))
                then _try_promote_blocked_waiting_request rid else mret true);
    if negb promoted then skip_request from_waiting rid st
    else if (0 <? num_stale_output_tokens x) && negb (drop_stale_output x)
    then skip_request from_waiting rid st
    else if exceeds_loras (req x) st then skip_request from_waiting rid st
    else admit_request defer_prefills from_waiting rid st.

Fixpoint schedule_waiting (fuel : nat) (defer_prefills : bool) (st : Step) : M Scheduler Step :=
  match fuel with
  | O => raise OutOfFuel
  | S fuel' =>
      s ← get;
      if (queue_bool (waiting s) || queue_bool (skipped_waiting s)) && (0 <? token_budget st) then
        flow ← visit_waiting defer_prefills st;
        match flow with
        | Break st' => mret st'
        | Continue st' => schedule_waiting fuel' defer_prefills st'
        end
      else mret st
  end.

(** The second part of a step: admit waiting requests unless something was preempted. *)
Definition admit_waiting (defer_prefills : bool) (st : Step) : M Scheduler Step :=
  s ← get;
  if bool_decide (preempted_reqs st = []) && bool_decide (_pause_state s = UNPAUSED) then
    st' ← schedule_waiting
            (S (Z.to_nat (queue_len (waiting s) + queue_len (skipped_waiting s)))) defer_prefills
            (set_step_skipped (create_request_queue (policy cfg)) st);
    s ← get;
    when (queue_bool (step_skipped_waiting st'))
      (q ← lift_result (prepend_requests (key_lt s) (skipped_waiting s) (step_skipped_waiting st'));
       modify (set_queues (waiting s) q));;
    modify (λ s, if defer_prefills then s
                 else set_clock (current_step s) (queue_bool (waiting s)) (_pause_state s) s);;
    mret st'
  else mret st.

(** ** The output of a step *)

(** The fields of [NewRequestData] that do not just copy the request. *)
Record NewRequestData := mkNewData {
  new_req_id : string;
  new_block_ids : list (list Z);
  new_num_computed_tokens : Z;
  prefill_token_ids : option (list Z);
}.

Record CachedRequestData := mkCachedData {
  cached_req_ids : list string;
  resumed_req_ids : gset string;
  cached_new_token_ids : list (list Z);
  cached_all_token_ids : gmap string (list Z);
  cached_new_block_ids : list (option (list (list Z)));
  cached_num_computed_tokens : list Z;
  cached_num_output_tokens : list Z;
}.

Record SchedulerOutput := mkOutput {
  out_new_reqs : list NewRequestData;
  out_cached_reqs : CachedRequestData;
  out_num_scheduled_tokens : list (string * Z);
  total_num_scheduled_tokens : Z;
  out_spec_decode_tokens : gmap string (list Z);
  out_encoder_inputs : gmap string (list Z);
  num_common_prefix_blocks : list Z;
  preempted_req_ids : gset string;
  out_finished_req_ids : gset string;
  free_encoder_mm_hashes : list string;
  new_block_ids_to_zero : option (list Z);
  kv_cache_block_copies : option (list (Z * Z));
  num_spec_tokens_to_schedule : Z;
}.

Definition new_request_data (st : Step) (rid : string) : M Scheduler NewRequestData :=
  x ← lookup_req rid;
  bs ← lift_option KeyError (req_to_new_blocks st !! rid);
  ids ← lift_option TypeError (get_block_ids false bs);
  mret (mkNewData rid ids (num_computed_tokens (req x))
          (if use_v2_model_runner cfg then Some (_all_token_ids (req x)) else None)).

(** One iteration of [_make_cached_request_data]. *)
Definition cached_request (st : Step) (num_running : nat) (acc : CachedRequestData)
    (ir : nat * string) : M Scheduler CachedRequestData :=
  let '(i, rid) := ir in
  x ← lookup_req rid;
  let r := req x in
  s ← get;
  toks ← (if use_pp cfg && negb (async_scheduling cfg) then
            n ← lift_option KeyError (od_get (num_scheduled_tokens st) rid);
            let k := n - zlen (default [] (scheduled_spec_decode_tokens st !! rid)) in
            mret [py_slice (_all_token_ids r) (num_computed_tokens r) (num_computed_tokens r + k)]
          else mret []);
  bs ← lift_option KeyError (req_to_new_blocks st !! rid);
  mret (mkCachedData (cached_req_ids acc ++ [rid])
    (if bool_decide (num_running ≤ i)%nat then {[rid]} ∪ resumed_req_ids acc else resumed_req_ids acc)
    (cached_new_token_ids acc ++ toks)
    (if negb (use_v2_model_runner cfg) && negb (bool_decide (rid ∈ prev_step_scheduled_req_ids s))
     then <[rid := _all_token_ids r]> (cached_all_token_ids acc) else cached_all_token_ids acc)
    (cached_new_block_ids acc ++ [get_block_ids true bs])
    (cached_num_computed_tokens acc ++ [num_computed_tokens r])
    (cached_num_output_tokens acc ++ [num_output_tokens r + num_output_placeholders x])).

Definition _make_cached_request_data (st : Step) (running_reqs resumed_reqs : list string)
    : M Scheduler CachedRequestData :=
  fold_each (imap pair (running_reqs ++ resumed_reqs)) (cached_request st (length running_reqs))
    (mkCachedData [] ∅ [] ∅ [] [] []).

(** [_get_new_block_ids_to_zero]; without async loads no block is skipped. *)
Definition _get_new_block_ids_to_zero : M Scheduler (option (list Z)) :=
  ids ← on_kvm kvm_take_new_block_ids;
  s ← get;
  mret (if needs_kv_cache_zeroing (kvm_config (kv_cache_manager s)) && negb (bool_decide (ids = []))
        then Some ids else None).

Definition _free_cow_retained_blocks (bs : list ref) : M Scheduler unit :=
  on_kvm (on_blocks (free_blocks bs)).

(** The requests of a step advance by their tokens. *)
Definition advance_request (rn : string * Z) : M Scheduler unit :=
  let '(rid, n) := rn in
  lookup_req rid;;
  assign rid (λ r, set_in_flight (num_in_flight_tokens r + n)
                     (set_computed (num_computed_tokens r + n) r));;
  x ← lookup_req rid;
  let chunk := num_computed_tokens (req x) <? num_tokens (req x) + num_output_placeholders x in
  update_req rid (set_prefill_chunk chunk);;
  when (negb chunk) (modify (λ s, set_inflight (_inflight_prefills s ∖ {[rid]}) s)).

Definition base_update_after_schedule (out : SchedulerOutput) : M Scheduler unit :=
  for_each (out_num_scheduled_tokens out) advance_request;;
  modify (λ s, set_preempted ∅ (set_finished ∅ s)).

(** [AsyncScheduler._update_after_schedule]: placeholders for the tokens that will be sampled. *)
Definition add_placeholders (out : SchedulerOutput) (rn : string * Z) : M Scheduler unit :=
  let rid := rn.1 in
  x ← lookup_req rid;
  if is_prefill_chunk x then mret tt
  else
    s ← get;
    let spec := zlen (default [] (out_spec_decode_tokens out !! rid)) in
    update_req rid (λ x, set_placeholders
      (num_output_placeholders x + (num_sampled_tokens_per_step cfg + spec)) x);;
    assign rid (set_spec (replicate (Z.to_nat (num_spec_tokens_to_schedule out)) (-1)));;
    when (use_v2_model_runner cfg) (update_req rid (set_eligible_step (current_step s + pp_size cfg))).
Definition async_update_after_schedule (out : SchedulerOutput) : M Scheduler unit :=
  base_update_after_schedule out;;
  for_each (out_num_scheduled_tokens out) (add_placeholders out).

Definition _update_after_schedule (out : SchedulerOutput) : M Scheduler unit :=
  if async_scheduling cfg then async_update_after_schedule out else base_update_after_schedule out.

(** ** The step *)

(** The LoRAs of the running requests. *)
Definition running_loras (s : Scheduler) (st : Step) : gset Z :=
  list_to_set (omap (λ rid,
    match requests s !! rid ≫= λ x, lora_request (req x) with
    | Some l => if 0 <? lora_int_id l then Some (lora_int_id l) else None
    | None => None
    end) (scheduled_running_reqs st)).

Definition record_loras (st : Step) : M Scheduler Step :=
  match max_loras cfg with
  | None => mret st
  | Some k =>
      s ← get;
      let loras := running_loras s st in
      assert (Z.of_nat (size loras) <=? k);;
      mret (set_loras loras st)
  end.

Definition initial_step (paused : bool) : Step :=
  mkStep [] [] [] [] ∅ [] (if paused then 0 else max_num_scheduled_tokens cfg)
    (cfg_max_num_batched_tokens cfg) (cfg_max_num_encoder_input_tokens cfg) ∅ ∅ false ∅
    (create_request_queue (policy cfg)).

(** From the choice of the requests to the output for the workers. *)
Definition make_output (st : Step) : M Scheduler SchedulerOutput :=
  let total := sum_list (snd <$> num_scheduled_tokens st) in
  s ← get;
  assert (total <=? max_num_scheduled_tokens cfg);;
  assert (0 <=? token_budget st);;
  assert (0 <=? input_budget st);;
  assert (zlen (running s) <=? max_num_running_reqs cfg);;
  assert (zlen (scheduled_new_reqs st) + zlen (scheduled_resumed_reqs st)
          + zlen (scheduled_running_reqs st) <=? zlen (running s));;
  common ← match running s with
           | [] => mret (replicate (length (kv_cache_groups (kvm_config (kv_cache_manager s)))) 0)
           | rid :: _ => on_kvm (kvm_get_num_common_prefix_blocks rid)
           end;
  let '(new_reqs, resumed) :=
    if use_v2_model_runner cfg
    then (scheduled_new_reqs st ++ scheduled_resumed_reqs st, [])
    else (scheduled_new_reqs st, scheduled_resumed_reqs st) in
  new_data ← map_each new_reqs (new_request_data st);
  cached ← _make_cached_request_data st (scheduled_running_reqs st) resumed;
  when (negb (use_v2_model_runner cfg))
    (modify (set_prev_step (list_to_set (num_scheduled_tokens st).*1)));;
  copies ← on_kvm take_kv_cache_block_copies;
  when (negb (bool_decide (copies.1 = []))) (_free_cow_retained_blocks copies.2);;
  spec_tokens ← match dynamic_sd_lookup cfg, num_scheduled_tokens st with
                | Some tbl, _ :: _ => lift_option IndexError (tbl !! length (num_scheduled_tokens st))
                | _, _ => mret (num_spec_tokens cfg)
                end;
  freed ← on_enc enc_get_freed_mm_hashes;
  zero ← _get_new_block_ids_to_zero;
  s ← get;
  mret (mkOutput new_data cached (num_scheduled_tokens st) total (scheduled_spec_decode_tokens st)
          (scheduled_encoder_inputs st) common (reset_preempted_req_ids s) (finished_req_ids s)
          freed zero (if bool_decide (copies.1 = []) then None else Some copies.1) spec_tokens).

Definition schedule (throttle_prefills : bool) : M Scheduler SchedulerOutput :=
  modify (λ s, set_clock (current_step s + 1) (prefill_capacity_bound s) (_pause_state s) s);;
  s ← get;
  on_kvm kvm_new_step_starts;;
  let defer_prefills :=
    (throttle_prefills && negb (prefill_capacity_bound s))
    && existsb (λ rid, match requests s !! rid with
                       | Some x => negb (is_prefill_chunk x) | None => false end) (running s) in
  st1 ← schedule_running (S (length (running s))) defer_prefills 0
          (initial_step (bool_decide (_pause_state s = PAUSED_ALL)));
  st2 ← record_loras st1;
  st3 ← admit_waiting defer_prefills st2;
  out ← make_output st3;
  _update_after_schedule out;;
  mret out.
End scheduler.
