(* ===== verification/SchedulerUpdate.v ===== *)
(** The rest of the scheduler ([vllm/v1/core/sched/scheduler.py] and [async_scheduler.py]):
    the output of the model, finishing and adding requests, draft tokens, resets. *)

From S2P Require Import Prelude MathUtils Request BlockHash FreeQueue BlockPool Managers.
From S2P Require Import Coordinator KVCacheManager EncoderCache RequestQueue SchedUtils.
From S2P Require Import SchedulerState Scheduler.

(** What the scheduler reads of a [ModelRunnerOutput]. *)
Record ModelRunnerOutput := mkRunnerOutput {
  req_id_to_index : gmap string nat;
  sampled_token_ids : list (list Z);
  pooler_output : list bool; (** whether there is an output, per request *)
}.

Record EngineCoreOutput := mkEngineOutput {
  eco_request_id : string;
  eco_new_token_ids : list Z;
  eco_finish_reason : option FinishReason;
  eco_stop_reason : option StopReason;
}.

(** The local variables of the loop over the scheduled requests. *)
Record Outcome := mkOutcome {
  outputs : list EngineCoreOutput;
  stopped_running_reqs : gset string;
  stopped_preempted_reqs : gset string;
}.

Section update.
Context (sha256 : bytes → bytes) (use_int : bool) (cfg : SchedulerConfig).
Context (iter_order : gset Z → list Z) (hasher : option (Request → exn + list bytes)).
(** [should_advance] holds and the grammar does not accept the tokens. *)
Context (grammar_rejects : Request → list Z → bool).
(** [grammar.validate_tokens] for a request whose grammar advances; the drafts otherwise. *)
Context (validate_tokens : Request → list Z → list Z).

(** ** Finishing requests *)

Definition _free_request_blocks (r : Request) : M Scheduler unit := on_kvm (kvm_free r).

Definition _free_blocks (rid : string) : M Scheduler unit :=
  x ← lookup_req rid;
  assert (is_finished (req x));;
  _free_request_blocks (req x);;
  modify (λ s, set_requests (delete rid (requests s)) s).

Definition _free_request (rid : string) : M Scheduler unit :=
  x ← lookup_req rid;
  assert (is_finished (req x));;
  modify (λ s, set_inflight (_inflight_prefills s ∖ {[rid]}) s);;
  on_enc (enc_free iter_order (req x));;
  modify (λ s, set_finished ({[rid]} ∪ finished_req_ids s) s);;
  _free_blocks rid.

(** The first pass of [finish_requests]: the valid requests, the running and the waiting
    ones. *)
Definition collect_finished (s : Scheduler) (ids : list string) : list string * list string * list string :=
  foldl (λ acc rid,
    let '(valid, run, wait) := acc in
    match requests s !! rid with
    | Some x =>
        if is_finished (req x) then acc
        else if bool_decide (status (req x) = RUNNING) then (valid ++ [rid], run ++ [rid], wait)
        else (valid ++ [rid], run, wait ++ [rid])
    | None => acc
    end) ([], [], []) ids.

Definition remove_from_queues (ids : list string) : M Scheduler unit :=
  s ← get;
  w ← lift_result (remove_requests (key_lt s) (waiting s) ids);
  sk ← lift_result (remove_requests (key_lt s) (skipped_waiting s) ids);
  modify (set_queues w sk).

(** The ids are distinct; [None] stands for all requests. *)
Definition finish_requests (request_ids : option (list string)) (st : RequestStatus)
    : M Scheduler (list string) :=
  assert (status_is_finished st);;
  s ← get;
  let ids := match request_ids with Some ids => ids | None => (map_to_list (requests s)).*1 end in
  let '(valid, run, wait) := collect_finished s ids in
  when (negb (bool_decide (run = [])))
    (modify (set_running (remove_all (running s) (list_to_set run))));;
  when (negb (bool_decide (wait = []))) (remove_from_queues wait);;
  for_each valid (λ rid, assign rid (become st);; _free_request rid);;
  mret valid.

(** ** New tokens *)

(** Append token by token until a stop condition holds; the tokens kept. *)
Fixpoint append_tokens (rid : string) (toks : list Z) : M Scheduler (list Z * bool) :=
  match toks with
  | [] => mret ([], false)
  | t :: toks' =>
      x ← lookup_req rid;
      r ← lift_result (append_output_token_ids hasher [t] (req x));
      assign rid (λ _, r);;
      res ← lift_result (check_stop r (cfg_max_model_len cfg));
      assign rid (λ _, res.2);;
      if (res.1 : bool) then mret ([t], true)
      else rest ← append_tokens rid toks'; mret (t :: rest.1, rest.2)
  end.

(** [AsyncScheduler._update_request_with_output] on top of [Scheduler]'s. *)
Definition _update_request_with_output (rid : string) (toks : list Z) (stale : bool)
    : M Scheduler (list Z * bool) :=
  x ← lookup_req rid;
  res ← append_tokens rid toks;
  when (async_scheduling cfg)
    (when (negb stale)
       (update_req rid (λ x, set_placeholders (num_output_placeholders x - zlen res.1) x);;
        x ← lookup_req rid;
        assert (0 <=? num_output_placeholders x));;
     when (bool_decide (status (req x) = RUNNING))
       (x ← lookup_req rid;
        on_kvm (kvm_cache_blocks sha256 use_int (req x)
                  (num_computed_tokens (req x) - num_output_placeholders x))));;
  mret res.

(** An encoder input is freed once its tokens are computed. *)
Definition free_computed_input (x : SReq) (i : Z) : M EncoderCache unit :=
  let r := req x in
  f ← lift_option IndexError (py_get (mm_features r) i);
  when ((is_encoder_decoder cfg && (0 <? num_computed_tokens r))
        || (offset (mm_position f) + pr_length (mm_position f) + num_prefill_lookahead cfg
            <=? num_computed_tokens r - num_output_placeholders x))
    (enc_free_encoder_input r i).
Definition _free_encoder_inputs (rid : string) : M Scheduler unit :=
  x ← lookup_req rid;
  ids ← on_enc (enc_get_cached_input_ids (req x));
  on_enc (for_each (iter_order ids) (free_computed_input x)).

(** Rejected draft tokens roll back the computed tokens. *)
Definition apply_rejections (rid : string) (spec generated : list Z) (stale : bool)
    : M Scheduler unit :=
  when (negb (bool_decide (spec = []))
        && (negb (bool_decide (generated = [])) || (num_sampled_tokens_per_step cfg =? 0))
        && negb stale)
    (let num_accepted := Z.max (zlen generated - num_sampled_tokens_per_step cfg) 0 in
     let num_rejected := zlen spec - num_accepted in
     update_req rid (λ x,
       let x1 := if 0 <? num_computed_tokens (req x)
                 then set_req (set_computed (num_computed_tokens (req x) - num_rejected)) x else x in
       if 0 <? num_output_placeholders x1
       then set_placeholders (num_output_placeholders x1 - num_rejected) x1 else x1)).

(** Did the request stop, and with which tokens. *)
Definition apply_output (rid : string) (generated : list Z) (pooled stale : bool)
    : M Scheduler (list Z * bool) :=
  x ← lookup_req rid;
  match generated with
  | _ :: _ => _update_request_with_output rid generated stale
  | [] =>
      if (bool_decide (is_Some (pooling_params (req x))) && pooled)
         || (is_mm_encoder_only cfg && (num_prompt_tokens (req x) <=? num_computed_tokens (req x)))
      then assign rid (become FINISHED_STOPPED);; mret ([], true)
      else mret ([], false)
  end.

(** The rest of an iteration, for a request that is neither finished nor dropped. *)
Definition deliver (out : SchedulerOutput) (mro : ModelRunnerOutput) (rid : string) (stale : bool)
    (acc : Outcome) : M Scheduler Outcome :=
  index ← lift_option KeyError (req_id_to_index mro !! rid);
  generated ← (match sampled_token_ids mro with
               | [] => mret []
               | ts => lift_option IndexError (ts !! index)
               end);
  apply_rejections rid (default [] (out_spec_decode_tokens out !! rid)) generated stale;;
  x ← lookup_req rid;
  when (has_encoder_inputs (req x)) (_free_encoder_inputs rid);;
  pooled ← (match pooler_output mro with
            | [] => mret false
            | ps => lift_option IndexError (ps !! index)
            end);
  let status_before_stop := status (req x) in
  res ← apply_output rid generated pooled stale;
  let '(new_token_ids, stopped0) := res in
  y ← lookup_req rid;
  let rejected := negb (bool_decide (new_token_ids = [])) && grammar_rejects (req y) new_token_ids in
  when rejected (assign rid (become FINISHED_ERROR));;
  let stopped := stopped0 || rejected in
  y ← lookup_req rid;
  let emit := negb (bool_decide (new_token_ids = [])) || pooled || stopped in
  when (emit && has_prefill_stats y)
    (on_kvm (estimate_cached_tokens (req y));; update_req rid drop_prefill_stats);;
  when stopped (_free_request rid);;
  let running_stop := bool_decide (status_before_stop = RUNNING) in
  mret (mkOutcome
    (if emit then outputs acc ++ [mkEngineOutput rid new_token_ids
                 (if stopped then get_finished_reason (req y) else None) (stop_reason (req y))]
     else outputs acc)
    (if stopped && running_stop then {[rid]} ∪ stopped_running_reqs acc else stopped_running_reqs acc)
    (if stopped && negb running_stop then {[rid]} ∪ stopped_preempted_reqs acc
     else stopped_preempted_reqs acc)).

(** One iteration of the loop over [num_scheduled_tokens]. *)
Definition process_request (out : SchedulerOutput) (mro : ModelRunnerOutput) (acc : Outcome)
    (rn : string * Z) : M Scheduler Outcome :=
  let '(rid, n) := rn in
  assert (0 <? n);;
  s ← get;
  match requests s !! rid with
  | None => mret acc
  | Some x =>
      assign rid (λ r, set_in_flight (num_in_flight_tokens r - n) r);;
      let stale := 0 <? num_stale_output_tokens x in
      when stale
        (update_req rid (λ x, set_stale (num_stale_output_tokens x - n) (drop_stale_output x) x);;
         assert (0 <=? num_stale_output_tokens x - n));;
      if is_finished (req x) then mret acc
      else if stale && drop_stale_output x then mret acc
      else deliver out mro rid stale acc
  end.

Definition update_from_output (out : SchedulerOutput) (mro : ModelRunnerOutput)
    : M Scheduler (list EngineCoreOutput) :=
  acc ← fold_each (out_num_scheduled_tokens out) (process_request out mro) (mkOutcome [] ∅ ∅);
  when (negb (bool_decide (stopped_running_reqs acc = ∅)))
    (modify (λ s, set_running (remove_all (running s) (stopped_running_reqs acc)) s));;
  when (negb (bool_decide (stopped_preempted_reqs acc = ∅)))
    (remove_from_queues (elements (stopped_preempted_reqs acc)));;
  s ← get;
  let errors := elements (grammar_compile_error_reqs s) in
  modify (set_grammar_errors ∅);;
  failed ← (match errors with
            | [] => mret []
            | _ => finish_requests (Some errors) FINISHED_ERROR
            end);
  on_kvm kvm_take_events;;
  on_kvm make_prefix_cache_stats;;
  mret (outputs acc
        ++ ((λ rid, mkEngineOutput rid [] (status_get_finished_reason FINISHED_ERROR) None) <$> failed)).

(** ** Adding requests *)

Definition _enqueue_waiting_request (rid : string) : M Scheduler unit :=
  s ← get;
  x ← lookup_req rid;
  if _is_blocked_waiting_status (status (req x)) then
    q ← lift_result (add_request (key_lt s) (skipped_waiting s) rid);
    modify (set_queues (waiting s) q)
  else
    q ← lift_result (add_request (key_lt s) (waiting s) rid);
    modify (set_queues q (skipped_waiting s)).

(** [add_request] of a request that is not resumable; a known id is a duplicate. *)
Definition sched_add_request (r : Request) : M Scheduler unit :=
  s ← get;
  match requests s !! request_id r with
  | Some _ => raise AssertionError
  | None =>
      modify (set_requests (<[request_id r := new_sreq r]> (requests s)));;
      _enqueue_waiting_request (request_id r)
  end.

(** ** Draft tokens *)

Definition update_draft_token_ids (drafts : list (string * list Z)) : M Scheduler unit :=
  for_each drafts (λ '(rid, spec),
    s ← get;
    match requests s !! rid with
    | None => mret tt
    | Some x =>
        if is_finished (req x) then mret tt
        else if is_prefill_chunk x then assign rid (set_spec [])
        else assign rid (set_spec (validate_tokens (req x) spec))
    end).

(** The drafts of a step, trimmed, validated and padded to the scheduled number, and how many
    were invalid. *)
Definition draft_for (s : Scheduler) (acc : gmap string (list Z) * gmap string Z)
    (d : string * list Z) : gmap string (list Z) * gmap string Z :=
  let '(rid, spec) := d in
  match requests s !! rid, acc.1 !! rid with
  | Some x, Some (p :: ps) =>
      if is_finished (req x) then acc
      else
        let num := length (p :: ps) in
        let valid := validate_tokens (req x) (take num spec) in
        let invalid := Z.of_nat num - zlen valid in
        (<[rid := valid ++ replicate (Z.to_nat invalid) (-1)]> acc.1,
         if invalid =? 0 then acc.2 else <[rid := invalid]> acc.2)
  | _, _ => acc
  end.
Definition update_draft_token_ids_in_output (s : Scheduler) (drafts : list (string * list Z))
    (scheduled : gmap string (list Z)) : gmap string (list Z) * gmap string Z :=
  foldl (draft_for s) (scheduled, ∅) drafts.

(** ** Counters, pause and reset *)

Definition get_request_counts (s : Scheduler) : Z * Z :=
  (zlen (running s), queue_len (waiting s) + queue_len (skipped_waiting s)).
Definition set_pause_state (p : PauseState) (s : Scheduler) : Scheduler :=
  set_clock (current_step s) (prefill_capacity_bound s) p s.
Definition get_num_unfinished_requests (s : Scheduler) : Z :=
  match _pause_state s with
  | PAUSED_ALL => 0
  | PAUSED_NEW => zlen (running s)
  | UNPAUSED => queue_len (waiting s) + queue_len (skipped_waiting s) + zlen (running s)
  end.
Definition has_finished_requests (s : Scheduler) : bool :=
  negb (bool_decide (finished_req_ids s = ∅)).

(** [while self.running: ...]: preempt in reverse order. *)
Fixpoint preempt_all (fuel : nat) : M Scheduler unit :=
  match fuel with
  | O => raise OutOfFuel
  | S fuel' =>
      s ← get;
      match last (running s) with
      | None => mret tt
      | Some rid =>
          modify (set_running (take (pred (length (running s))) (running s)));;
          _preempt_request iter_order rid true;;
          preempt_all fuel'
      end
  end.

Definition sched_reset_prefix_cache (reset_running_requests : bool) : M Scheduler bool :=
  s ← get;
  when reset_running_requests
    (preempt_all (S (length (running s)));; modify (set_prev_step ∅));;
  ok ← on_kvm kvm_reset_prefix_cache;
  if reset_running_requests && negb ok then raise RuntimeError else mret ok.

Definition reset_encoder_cache : M Scheduler unit := on_enc (on_encoder encoder_reset ed_reset).
End update.
