(* ===== verification/SchedulerQueues.v ===== *)
(** The waiting queues of the scheduler hold request keys; their operations succeed and keep
    the keys, under both policies. *)

From S2P Require Import Prelude MathUtils Request BlockHash FreeQueue BlockPool Managers.
From S2P Require Import Coordinator KVCacheManager EncoderCache RequestQueue RequestQueueFacts SchedUtils.
From S2P Require Import SchedulerState.

Section order.
Context (s : Scheduler).

Lemma key_lt_lex a b :
  key_lt s a b = true ↔
    (rank s a).1 < (rank s b).1
    ∨ (rank s a).1 = (rank s b).1
      ∧ ((rank s a).2 < (rank s b).2
         ∨ (rank s a).2 = (rank s b).2 ∧ String.compare a b = Lt).
Proof using.
  unfold key_lt.
  destruct (Z.eqb_spec (rank s a).1 (rank s b).1) as [E1|N1]; simpl; [|rewrite Z.ltb_lt; lia].
  destruct (Z.eqb_spec (rank s a).2 (rank s b).2) as [E2|N2]; simpl; [|rewrite Z.ltb_lt; lia].
  rewrite string_ltb_lt. intuition (try done; lia).
Qed.

#[global] Instance key_lt_total : StrictTotal (key_lt s).
Proof using.
  split.
  - intros a. destruct (key_lt s a a) eqn:E; [|done]. apply key_lt_lex in E.
    rewrite string_compare_refl in E. intuition (try done; lia).
  - intros a b c. rewrite !key_lt_lex.
    intros [?|[? [?|[? H1]]]] [?|[? [?|[? H2]]]]; try (left; lia); right; (split; [lia|]);
      try (left; lia); right; (split; [lia|]). by eapply string_compare_trans.
  - intros a b Ha Hb. apply not_true_iff_false in Ha, Hb. rewrite key_lt_lex in Ha, Hb.
    assert ((rank s a).1 = (rank s b).1) as E1.
    { destruct (Z.lt_trichotomy (rank s a).1 (rank s b).1) as [?|[?|?]]; tauto. }
    assert ((rank s a).2 = (rank s b).2) as E2.
    { destruct (Z.lt_trichotomy (rank s a).2 (rank s b).2) as [?|[?|?]]; [tauto|done|].
      destruct Hb. right. by split; [|left]. }
    pose proof (String.compare_antisym a b) as Hanti.
    destruct (String.compare a b) eqn:E; [by apply String.compare_eq_iff|tauto|].
    destruct Hb. right. split; [done|]. right. split; [done|].
    destruct (String.compare b a); done.
Qed.
End order.

(** ** Contents *)

Definition qids (q : RequestQueue (A := string)) : list string :=
  match q with FCFSQueue l | PriorityQueue l => l end.

(** The queue has the shape of the policy; a priority queue is a heap. *)
Definition queue_wf (p : SchedulingPolicy) (s : Scheduler) (q : RequestQueue (A := string)) : Prop :=
  match p, q with
  | FCFS, FCFSQueue _ => True
  | PRIORITY, PriorityQueue h => heap_from (key_lt s) 0 h
  | _, _ => False
  end.

Section queues.
Context (p : SchedulingPolicy) (s : Scheduler).
Implicit Types (q : RequestQueue (A := string)) (rid : string).

Lemma create_wf : queue_wf p s (create_request_queue p) ∧ qids (create_request_queue (A := string) p) = [].
Proof using. destruct p; [done|]. split; [|done]. intros i x y Hi _ Hx. by rewrite lookup_nil in Hx. Qed.

Lemma queue_bool_iff q : queue_bool q = true ↔ qids q ≠ [].
Proof using.
  unfold queue_bool, queue_len, zlen. destruct q as [[|x l]|[|x l]]; simpl; split; try done;
    intros _; apply Z.ltb_lt; lia.
Qed.

Lemma queue_len_ids q : queue_len q = zlen (qids q).
Proof using. by destruct q. Qed.

Lemma add_wf q rid :
  queue_wf p s q → ∃ q', add_request (key_lt s) q rid = inr q' ∧ queue_wf p s q' ∧ qids q' ≡ₚ rid :: qids q.
Proof using.
  destruct p, q as [l|h]; simpl; try done.
  - intros _. eexists. split; [done|]. split; [done|]. simpl. by rewrite Permutation_app_comm.
  - intros Hh. destruct (heappush_spec (key_lt s) h rid Hh) as (h' & -> & Hh' & Hp). by exists (PriorityQueue h').
Qed.

Lemma prepend_wf q rid :
  queue_wf p s q →
  ∃ q', prepend_request (key_lt s) q rid = inr q' ∧ queue_wf p s q' ∧ qids q' ≡ₚ rid :: qids q.
Proof using.
  intros Hq. destruct q as [l|h] eqn:E; [|by apply add_wf].
  destruct p; [|done]. by exists (FCFSQueue (rid :: l)).
Qed.

Lemma peek_pop q :
  queue_wf p s q → qids q ≠ [] →
  ∃ rid q', peek_request q = inr rid ∧ pop_request (key_lt s) q = inr (rid, q')
    ∧ queue_wf p s q' ∧ qids q ≡ₚ rid :: qids q'.
Proof using.
  destruct p, q as [[|rid l]|[|rid h]]; simpl; try done.
  - intros _ _. by exists rid, (FCFSQueue l).
  - intros Hh _. destruct (heappop_spec (key_lt s) (rid :: h) rid Hh eq_refl) as (h' & E & Hh' & Hp).
    rewrite E. by exists rid, (PriorityQueue h').
Qed.

Lemma add_each_wf rs q :
  queue_wf p s q → ∃ q', add_each (key_lt s) q rs = inr q' ∧ queue_wf p s q' ∧ qids q' ≡ₚ rs ++ qids q.
Proof using.
  revert q. induction rs as [|r rs IH]; intros q Hq; simpl; [by exists q|].
  destruct (add_wf q r Hq) as (q1 & -> & Hq1 & Hp1). simpl.
  destruct (IH q1 Hq1) as (q2 & -> & Hq2 & Hp2). exists q2. split_and!; [done..|].
  rewrite Hp2, Hp1. symmetry. apply Permutation_middle.
Qed.

Lemma drain_perm h : heap_from (key_lt s) 0 h → ∃ l, drain (key_lt s) (length h) h = inr l ∧ l ≡ₚ h.
Proof using.
  remember (length h) as n eqn:En. revert h En. induction n as [|n IH]; intros h En Hh; simpl.
  { exists []. split; [done|]. by destruct h. }
  destruct h as [|x h]; [done|].
  destruct (heappop_spec (key_lt s) (x :: h) x Hh eq_refl) as (h' & -> & Hh' & Hp). simpl.
  assert (n = length h') as En'. { apply Permutation_length in Hp. simpl in *. lia. }
  destruct (IH h' En' Hh') as (l & -> & Hl). exists (x :: l). split; [done|]. by rewrite Hp, Hl.
Qed.

Lemma prepend_requests_wf q q2 :
  queue_wf p s q → queue_wf p s q2 →
  ∃ q', prepend_requests (key_lt s) q q2 = inr q' ∧ queue_wf p s q' ∧ qids q' ≡ₚ qids q2 ++ qids q.
Proof using.
  pose proof add_each_wf as Hadd. revert Hadd.
  unfold prepend_requests, queue_iter. destruct p, q as [l|h], q2 as [l2|h2]; simpl; intros Hadd; try done.
  - intros _ _. eexists. split; [done|]. split; [done|]. simpl. by rewrite <-Permutation_rev.
  - intros Hq Hq2. destruct (drain_perm h2 Hq2) as (xs & -> & Hx). simpl.
    destruct (Hadd xs (PriorityQueue h) Hq) as (q' & E & Hq' & Hp).
    exists q'. split_and!; [done..|]. by rewrite Hp, Hx.
Qed.

Lemma remove_requests_wf q ids :
  queue_wf p s q →
  ∃ q', remove_requests (key_lt s) q ids = inr q' ∧ queue_wf p s q'
    ∧ qids q' ≡ₚ filter (.∉ ids) (qids q).
Proof using.
  unfold remove_requests. destruct p, q as [l|h]; simpl; try done.
  - intros _. by eexists.
  - intros Hh. destruct (heapify_spec (key_lt s) (filter (.∉ ids) h)) as (h' & -> & Hh' & Hp). by eexists (PriorityQueue h').
Qed.

(** Only the ranks of the members matter. *)
Lemma queue_wf_rank s' q :
  (∀ rid, rid ∈ qids q → rank s' rid = rank s rid) → queue_wf p s q → queue_wf p s' q.
Proof using.
  intros Hr. destruct p, q as [l|h]; simpl; try done. intros Hh i x y Hi Hp Hx Hy.
  pose proof (Hh i x y Hi Hp Hx Hy) as Hle. unfold le, key_lt in *. simpl in Hr.
  by rewrite !Hr by (by eapply list_elem_of_lookup_2).
Qed.
End queues.
