(* ===== verification/SchedulerFrame.v ===== *)
(** What a scheduling step does not touch: a property of every request object that the
    operations of the step keep, on normal return and on exceptions alike. *)

From S2P Require Import Prelude MathUtils Request BlockHash FreeQueue BlockPool Managers.
From S2P Require Import Coordinator KVCacheManager EncoderCache RequestQueue SchedUtils.
From S2P Require Import SchedulerState Scheduler.

Set Warnings "-level-tolerance,-clear-no-such-hyp".

Definition all_requests (P : string → SReq → Prop) (s : Scheduler) : Prop :=
  ∀ rid x, requests s !! rid = Some x → P rid x.

Section frame.
Context (P : string → SReq → Prop).
Implicit Types (s : Scheduler) (rid : string) (x : SReq).

Definition kept {A} (op : M Scheduler A) : Prop :=
  ∀ s r s', op s = (r, s') → all_requests P s → all_requests P s'.

(** A postcondition for normal return. *)
Definition after {A} (op : M Scheduler A) (Q : A → Scheduler → Prop) : Prop :=
  ∀ s a s', op s = (inr a, s') → all_requests P s → Q a s'.

Lemma kept_bind {A B} (m : M Scheduler A) (f : A → M Scheduler B) :
  kept m → (∀ a, kept (f a)) → kept (m ≫= f).
Proof using.
  intros Hm Hf s r s' E Hs. unfold mbind, M_bind in E.
  destruct (m s) as [[e|a] s1] eqn:Em; [injection E as <- <-|]; pose proof (Hm _ _ _ Em Hs) as H1; [done|].
  by eapply Hf.
Qed.
Lemma after_bind {A B} (m : M Scheduler A) (f : A → M Scheduler B) Q :
  kept m → (∀ a, after (f a) Q) → after (m ≫= f) Q.
Proof using.
  intros Hm Hf s b s' E Hs. unfold mbind, M_bind in E.
  destruct (m s) as [[e|a] s1] eqn:Em; [done|]. eapply Hf; [exact E|]. by eapply Hm.
Qed.
Lemma after_wp {A} (op : M Scheduler A) Q R s :
  after op Q → all_requests P s → wp op R s → wp op (λ a s', R a s' ∧ Q a s') s.
Proof using. intros Ha Hs (a & s' & E & HR). exists a, s'. split; [done|]. split; [done|]. by eapply Ha. Qed.

Lemma kept_read {A} (op : M Scheduler A) : (∀ s, requests (op s).2 = requests s) → kept op.
Proof using. intros Hop s r s' E Hs rid x. specialize (Hop s). rewrite E in Hop. simpl in Hop. rewrite Hop. apply Hs. Qed.
Lemma kept_ret {A} (a : A) : kept (mret a).
Proof using. by apply kept_read. Qed.
Lemma kept_raise {A} e : kept (raise (A := A) e).
Proof using. by apply kept_read. Qed.
Lemma kept_get : kept get.
Proof using. by apply kept_read. Qed.
Lemma kept_modify f : (∀ s, requests (f s) = requests s) → kept (modify f).
Proof using. intros Hf. by apply kept_read. Qed.
Lemma kept_assert b : kept (assert b).
Proof using. apply kept_read. by destruct b. Qed.
Lemma kept_option {A} e (o : option A) : kept (lift_option e o).
Proof using. apply kept_read. by destruct o. Qed.
Lemma kept_result {A} (r : exn + A) : kept (lift_result r).
Proof using. by apply kept_read. Qed.
Lemma kept_when b m : kept m → kept (when b m).
Proof using. destruct b; [done|]. intros _. apply kept_ret. Qed.
Lemma kept_kvm {A} (op : M KVCacheManager A) : kept (on_kvm op).
Proof using. apply kept_read. intros s. unfold on_kvm, zoom. by destruct (op _). Qed.
Lemma kept_enc {A} (op : M EncoderCache A) : kept (on_enc op).
Proof using. apply kept_read. intros s. unfold on_enc, zoom. by destruct (op _). Qed.
Lemma kept_lookup rid : kept (lookup_req rid).
Proof using. apply kept_read. intros s. unfold lookup_req, mbind, M_bind. simpl. by destruct (requests s !! rid). Qed.
Lemma kept_update rid f : (∀ x, P rid x → P rid (f x)) → kept (update_req rid f).
Proof using.
  intros Hf s r s' E Hs rid' x. injection E as <- <-. simpl. rewrite lookup_alter_Some.
  intros [(<- & y & Hy & ->)|[_ Hx]]; [apply Hf|]; by apply Hs.
Qed.
Lemma kept_for_each {A} (l : list A) f : (∀ a, kept (f a)) → kept (for_each l f).
Proof using. intros Hf. induction l as [|a l IH]; simpl; [apply kept_ret|]. by apply kept_bind. Qed.
Lemma kept_map_each {A B} (l : list A) (f : A → M Scheduler B) : (∀ a, kept (f a)) → kept (map_each l f).
Proof using.
  intros Hf. induction l as [|a l IH]; simpl; [apply kept_ret|]. apply kept_bind; [done|]. intros b.
  apply kept_bind; [done|]. intros bs. apply kept_ret.
Qed.
Lemma kept_fold_each {A B} (l : list A) (f : B → A → M Scheduler B) b :
  (∀ b a, kept (f b a)) → kept (fold_each l f b).
Proof using.
  intros Hf. revert b. induction l as [|a l IH]; intros b; simpl; [apply kept_ret|]. by apply kept_bind.
Qed.
End frame.

Create HintDb kept.
#[export] Hint Resolve kept_ret kept_raise kept_get kept_assert kept_option kept_result kept_kvm
  kept_enc kept_lookup : kept.

(** One step of the program: sequencing, a branch, a leaf. *)
Ltac kept_step :=
  match goal with
  | |- kept _ (mbind _ _) => apply kept_bind; [|intros]
  | |- kept _ (when _ _) => apply kept_when
  | |- kept _ (modify _) => apply kept_modify; intros; by repeat case_match
  | |- kept _ (for_each _ _) => apply kept_for_each; intros
  | |- kept _ (map_each _ _) => apply kept_map_each; intros
  | |- kept _ (fold_each _ _ _) => apply kept_fold_each; intros
  | |- kept _ (let '(_, _) := ?p in _) => destruct p
  | |- kept _ (match ?x with _ => _ end) => destruct x
  | |- _ => solve [eauto with kept]
  end.
Ltac kept_steps := repeat (simpl; kept_step).

(** ** The operations of a step *)

(** The attributes a step may change before its last part: the progress of a request other than
    its tokens in flight; a preemption turns the tokens in flight stale. *)
Record step_frame (P : string → SReq → Prop) : Prop := {
  sf_progress : ∀ rid x computed spec pre bd st, P rid x →
    P rid (set_req (λ r, with_progress computed (num_in_flight_tokens r) spec pre bd st r) x);
  sf_preempt : ∀ rid x drop, P rid x →
    P rid (set_placeholders 0 (set_stale (num_in_flight_tokens (req x)) drop
      (set_req (λ r, with_progress 0 (num_in_flight_tokens r) [] (num_preemptions r + 1)
                       (shared_prefix_boundary r) PREEMPTED r) x)));
}.

Section step_frame.
Context (P : string → SReq → Prop) (HP : step_frame P).
Context (sha256 : bytes → bytes) (use_int : bool) (cfg : SchedulerConfig).
Context (iter_order : gset Z → list Z) (grammar : string → Grammar).

(** Assignments that go through [with_progress]. *)
Lemma kept_progress rid f :
  (∀ r, ∃ c sp pre bd st, f r = with_progress c (num_in_flight_tokens r) sp pre bd st r) →
  kept P (assign rid f).
Proof using HP.
  intros Hf. apply kept_update. intros x Hx. destruct (Hf (req x)) as (c & sp & pre & bd & st & E).
  pose proof (sf_progress P HP rid x c sp pre bd st Hx) as H. unfold set_req in *. by rewrite E.
Qed.

Lemma kept_preempt rid drop : kept P (_preempt_request iter_order rid drop).
Proof using HP.
  unfold _preempt_request. kept_steps. apply kept_update. intros x Hx. by apply (sf_preempt P HP).
Qed.

Lemma kept_victim idx st : kept P (take_victim cfg idx st).
Proof using. unfold take_victim. kept_steps. Qed.

#[local] Hint Resolve kept_preempt kept_victim : kept.

Lemma kept_allocate fuel rid n idx st :
  kept P (allocate_or_preempt sha256 use_int cfg iter_order fuel rid n idx st).
Proof using HP.
  revert idx st. induction fuel as [|fuel IH]; intros idx st; kept_steps.
Qed.

Lemma kept_spec_tokens rid n st : kept P (schedule_spec_tokens rid n st).
Proof using HP. unfold schedule_spec_tokens. kept_steps. apply kept_progress. intros r. by eexists _, _, _, _, _. Qed.

Lemma kept_encoder rid inputs budget st : kept P (schedule_encoder rid inputs budget st).
Proof using. unfold schedule_encoder. kept_steps. Qed.

#[local] Hint Resolve kept_allocate kept_spec_tokens kept_encoder : kept.

Lemma kept_running fuel defer idx st :
  kept P (schedule_running sha256 use_int cfg iter_order fuel defer idx st).
Proof using HP.
  revert idx st. induction fuel as [|fuel IH]; intros idx st; [kept_steps|]. simpl.
  apply kept_bind; [kept_step|]. intros s. destruct (_ && _); [|kept_step].
  apply kept_bind; [unfold visit_running; kept_steps|]. intros [idx' [st'|st']]; kept_steps.
Qed.

Lemma kept_promote rid : kept P (_try_promote_blocked_waiting_request grammar rid).
Proof using HP.
  unfold _try_promote_blocked_waiting_request. kept_steps. apply kept_progress. intros r. by eexists _, _, _, _, _.
Qed.

Lemma kept_pop b : kept P (pop_from b).
Proof using. unfold pop_from. kept_steps. Qed.
#[local] Hint Resolve kept_promote kept_pop : kept.

Lemma kept_skip b rid st : kept P (skip_request b rid st).
Proof using. unfold skip_request. kept_steps. Qed.

Lemma kept_prefix rid : kept P (cached_prefix sha256 use_int rid).
Proof using HP. unfold cached_prefix. kept_steps. apply kept_progress. intros r. by eexists _, _, _, _, _. Qed.

Lemma kept_start b rid n computed pad inputs budget st :
  kept P (start_request cfg b rid n computed pad inputs budget st).
Proof using HP.
  unfold start_request. kept_steps. apply kept_progress. intros r. by eexists _, _, _, _, _.
Qed.
#[local] Hint Resolve kept_skip kept_prefix kept_start : kept.

Lemma kept_admit defer b rid st : kept P (admit_request sha256 use_int cfg iter_order defer b rid st).
Proof using HP. unfold admit_request. kept_steps. Qed.
#[local] Hint Resolve kept_admit : kept.

Lemma kept_waiting fuel defer st :
  kept P (schedule_waiting sha256 use_int cfg iter_order grammar fuel defer st).
Proof using HP.
  revert st. induction fuel as [|fuel IH]; intros st; [kept_steps|]. simpl.
  apply kept_bind; [kept_step|]. intros s. destruct (_ && _); [|kept_step].
  apply kept_bind; [unfold visit_waiting, peek_from; kept_steps|]. intros [st'|st']; kept_steps.
Qed.
#[local] Hint Resolve kept_running kept_waiting : kept.
#[local] Arguments schedule_running : simpl never.
#[local] Arguments schedule_waiting : simpl never.

Lemma kept_admit_waiting defer st : kept P (admit_waiting sha256 use_int cfg iter_order grammar defer st).
Proof using HP. unfold admit_waiting. kept_steps. Qed.

Lemma kept_make_output st : kept P (make_output cfg st).
Proof using.
  unfold make_output, new_request_data, _make_cached_request_data, cached_request, _free_cow_retained_blocks,
    _get_new_block_ids_to_zero. kept_steps.
Qed.
#[local] Hint Resolve kept_admit_waiting kept_make_output : kept.

(** A step ends with the update of the requests it scheduled. *)
Lemma schedule_after throttle Q :
  (∀ out, after P (_update_after_schedule cfg out;; mret out) Q) →
  after P (schedule sha256 use_int cfg iter_order grammar throttle) Q.
Proof using HP.
  intros HQ. unfold schedule, record_loras. do 7 (apply after_bind; [kept_steps|intros]). apply HQ.
Qed.
End step_frame.
