(* ===== verification/SchedulerInv.v ===== *)
(** The invariant of the scheduler: every request is in [running] or in one waiting queue;
    running requests have slots for their computed tokens, the others none; and the changes of
    one component that keep it.  Requests without multi-modal inputs. *)

From S2P Require Import Prelude MathUtils Request BlockHash FreeQueue BlockPool Managers.
From S2P Require Import Coordinator KVCacheManager EncoderCache RequestQueue RequestQueueFacts SchedUtils.
From S2P Require Import KVCacheService SchedulerState Scheduler SchedulerQueues.

Set Warnings "-level-tolerance,-clear-no-such-hyp".

Section invariant.
Context {sha256 : bytes → bytes} {use_int : bool} {mml hbs : Z} {events : bool}.
Context `{KV : !KVService sha256 use_int mml hbs events} (cfg : SchedulerConfig).
Implicit Types (s : Scheduler) (rid : string) (x : SReq) (ex : list string).

(** ** The invariant *)

Record req_ok rid x : Prop := {
  rk_id : request_id (req x) = rid;
  rk_serve : servable mml hbs events (req x);
  rk_text : mm_features (req x) = [];
  rk_preempted : 0 ≤ num_preemptions (req x);
  rk_placeholders : 0 ≤ num_output_placeholders x;
}.

(** A request in a waiting queue: nothing of it is computed; a request that never ran has at
    most one token after its prompt. *)
Record waits x : Prop := {
  wt_status : match status (req x) with
              | WAITING | PREEMPTED | WAITING_FOR_STRUCTURED_OUTPUT_GRAMMAR => True
              | _ => False
              end;
  wt_start : num_computed_tokens (req x) = 0;
  wt_prompt : num_preemptions (req x) ≤ 0 → num_tokens (req x) ≤ num_prompt_tokens (req x) + 1;
}.

Definition runs (k : KVCacheManager) rid x : Prop :=
  status (req x) = RUNNING ∧ kv_slots k rid (num_computed_tokens (req x)).

(** The requests in the waiting queues; [ex] are those set aside in the current step. *)
Definition queued ex s : list string := qids (waiting s) ++ qids (skipped_waiting s) ++ ex.

Definition enc_idle (e : EncoderCache) : Prop :=
  match e with EncoderOnly m => request_cached_ids m = ∅ | EncoderDecoder _ => True end.

Record inv ex s : Prop := {
  si_kv : kv_ready (kv_cache_manager s);
  si_enc : enc_idle (encoder_cache_manager s);
  si_req : ∀ rid x, requests s !! rid = Some x → req_ok rid x;
  si_waiting_wf : queue_wf (policy cfg) s (waiting s);
  si_skipped_wf : queue_wf (policy cfg) s (skipped_waiting s);
  si_nodup : NoDup (running s ++ queued ex s);
  si_running : ∀ rid, rid ∈ running s → ∃ x, requests s !! rid = Some x ∧ runs (kv_cache_manager s) rid x;
  si_waiting : ∀ rid, rid ∈ queued ex s → ∃ x, requests s !! rid = Some x ∧ waits x
    ∧ kv_unknown (kv_cache_manager s) rid;
  si_absent : ∀ rid, requests s !! rid = None → kv_unknown (kv_cache_manager s) rid;
  si_all : ∀ rid, is_Some (requests s !! rid) → rid ∈ running s ++ queued ex s;
  si_max : zlen (running s) ≤ max_num_running_reqs cfg;
}.

Definition sched_inv s : Prop := inv [] s.

Lemma inv_not_queued ex s rid : inv ex s → rid ∈ running s → rid ∉ queued ex s.
Proof using. intros H Hr Hq. pose proof (si_nodup _ _ H) as Hn. apply NoDup_app in Hn as (_ & Hd & _). by eapply Hd. Qed.

Lemma inv_unknown ex s rid :
  inv ex s → rid ∉ running s → kv_unknown (kv_cache_manager s) rid.
Proof using.
  intros H Hr. destruct (requests s !! rid) as [x|] eqn:E; [|by apply (si_absent _ _ H)].
  pose proof (si_all _ _ H rid ltac:(by eexists)) as Hin. apply elem_of_app in Hin as [?|Hq]; [done|].
  by destruct (si_waiting _ _ H rid Hq) as (? & _ & _ & ?).
Qed.

(** ** Changes of the KV cache manager *)

Lemma inv_kvm ex s rid k :
  inv ex s → kv_ready k → kv_keeps rid (kv_cache_manager s) k →
  (rid ∉ running s → kv_unknown k rid) →
  (∀ x, rid ∈ running s → requests s !! rid = Some x → kv_slots k rid (num_computed_tokens (req x))) →
  inv ex (set_kvm k s).
Proof using.
  intros H Hk Hkeep Hu Hs. pose proof H as [H1 H2 H3 H4 H5 H6 H7 H8 H9 H10 H11]. split; simpl; try done.
  - intros rid' Hr. destruct (H7 rid' Hr) as (x & Hx & Hst & Hsl). exists x. split; [done|]. split; [done|].
    destruct (decide (rid' = rid)) as [->|Hne]; [by apply Hs|by apply Hkeep].
  - intros rid' Hq. destruct (H8 rid' Hq) as (x & Hx & Hw & Hun). exists x. split_and!; [done..|].
    destruct (decide (rid' = rid)) as [->|Hne]; [|by apply Hkeep]. apply Hu.
    intros Hr. by eapply inv_not_queued.
  - intros rid' Hn. destruct (decide (rid' = rid)) as [->|Hne]; [|by apply Hkeep; [|apply H9]].
    apply Hu. intros Hr. destruct (H7 rid Hr) as (x & Hx & _). congruence.
Qed.

Lemma inv_same ex s k : inv ex s → kv_same (kv_cache_manager s) k → inv ex (set_kvm k s).
Proof using.
  intros [H1 H2 H3 H4 H5 H6 H7 H8 H9 H10 H11] (Hk & Hu & Hs). split; simpl; try done.
  - intros rid Hr. destruct (H7 rid Hr) as (x & ? & ? & ?). exists x. split; [done|]. split; [done|]. by apply Hs.
  - intros rid Hq. destruct (H8 rid Hq) as (x & ? & ? & ?). exists x. split_and!; [done..|]. by apply Hu.
  - intros rid Hn. by apply Hu, H9.
Qed.

(** ** Changes of a request object *)

Lemma rank_alter s rid f rid' :
  (∀ x, requests s !! rid = Some x →
     priority (req (f x)) = priority (req x) ∧ arrival_time (req (f x)) = arrival_time (req x)) →
  rank (set_requests (alter f rid (requests s)) s) rid' = rank s rid'.
Proof using.
  intros Hf. unfold rank. simpl. rewrite lookup_alter. case_decide as E; [|done]. subst rid'.
  destruct (requests s !! rid) as [x|] eqn:Ex; [|done]. simpl. by destruct (Hf x eq_refl) as [-> ->].
Qed.

Lemma inv_alter ex s rid f x :
  inv ex s → requests s !! rid = Some x → req_ok rid (f x) →
  priority (req (f x)) = priority (req x) → arrival_time (req (f x)) = arrival_time (req x) →
  (rid ∈ running s → runs (kv_cache_manager s) rid (f x)) →
  (rid ∈ queued ex s → waits (f x)) →
  inv ex (set_requests (alter f rid (requests s)) s).
Proof using.
  intros [H1 H2 H3 H4 H5 H6 H7 H8 H9 H10 H11] Hx Hok Ep Ea Hr Hw.
  assert (∀ rid', rank (set_requests (alter f rid (requests s)) s) rid' = rank s rid') as Hrank.
  { intros rid'. apply rank_alter. intros x' Hx'. by simplify_eq. }
  split; simpl; try done.
  - intros rid' x'. rewrite lookup_alter. case_decide as E; [|apply H3]. subst. rewrite Hx. by intros [= <-].
  - by eapply queue_wf_rank; [|exact H4].
  - by eapply queue_wf_rank; [|exact H5].
  - intros rid' Hin. rewrite lookup_alter. case_decide as E; [|by apply H7]. subst. rewrite Hx.
    exists (f x). split; [done|]. by apply Hr.
  - intros rid' Hin. destruct (H8 rid' Hin) as (x' & Hx' & Hw' & Hu). rewrite lookup_alter. case_decide as E.
    + subst. rewrite Hx. exists (f x). split_and!; [done|by apply Hw|done].
    + by exists x'.
  - intros rid'. rewrite lookup_alter. case_decide as E; [|apply H9]. subst. by rewrite Hx.
  - intros rid'. rewrite lookup_alter. case_decide as E; [|apply H10]. subst. intros _. apply H10. by eexists.
Qed.

(** The sets of ids and the clock play no role. *)
Lemma inv_ids ex s a b c d e : inv ex s → inv ex (set_id_sets a b c d e s).
Proof using. by intros []. Qed.
Lemma inv_clock ex s n b p : inv ex s → inv ex (set_clock n b p s).
Proof using. by intros []. Qed.

(** ** Moving a request *)

(** The lists after some requests moved between them. *)
Lemma inv_lists ex ex' s s' :
  inv ex s → kv_cache_manager s' = kv_cache_manager s → encoder_cache_manager s' = encoder_cache_manager s →
  requests s' = requests s → queue_wf (policy cfg) s (waiting s') → queue_wf (policy cfg) s (skipped_waiting s') →
  running s' = running s → queued ex' s' ≡ₚ queued ex s → inv ex' s'.
Proof using.
  intros [H1 H2 H3 H4 H5 H6 H7 H8 H9 H10 H11] Ek Ee Er Hw Hs Erun Hq.
  assert (∀ rid, rank s' rid = rank s rid) as Hrank by (intros rid; unfold rank; by rewrite Er).
  split; rewrite ?Ek, ?Ee, ?Er, ?Erun; try done.
  - by eapply queue_wf_rank; [|exact Hw].
  - by eapply queue_wf_rank; [|exact Hs].
  - by rewrite Hq.
  - intros rid. rewrite Hq. apply H8.
  - intros rid. rewrite Hq. apply H10.
Qed.

Lemma wp_lookup_req rid x (Q : SReq → Scheduler → Prop) s :
  requests s !! rid = Some x → Q x s → wp (lookup_req rid) Q s.
Proof using. intros Hx HQ. unfold lookup_req. wp_steps. by eapply wp_lift_option. Qed.

Lemma wp_on_kvm {A} (op : M KVCacheManager A) (Q : A → Scheduler → Prop) s :
  wp op (λ a k, Q a (set_kvm k s)) (kv_cache_manager s) → wp (on_kvm op) Q s.
Proof using. apply wp_zoom. Qed.
Lemma wp_on_enc {A} (op : M EncoderCache A) (Q : A → Scheduler → Prop) s :
  wp op (λ a e, Q a (set_encoder e s)) (encoder_cache_manager s) → wp (on_enc op) Q s.
Proof using. apply wp_zoom. Qed.

Context (iter_order : gset Z → list Z) (Hiter : ∀ X, iter_order X ≡ₚ elements X).

Lemma enc_free_idle r e :
  enc_idle e → mm_features r = [] → wp (enc_free iter_order r) (λ _ e', e' = e) e.
Proof using Hiter.
  intros He Hm. unfold enc_free, on_encoder. destruct e as [m|m]; simpl in He.
  - assert (iter_order ∅ = []) as Ei.
    { apply Permutation_nil. by rewrite (Hiter ∅), elements_empty. }
    exists tt, (EncoderOnly m). split; [|done]. unfold free_encoder_inputs, get_cached_input_ids.
    unfold mbind, M_bind, gets. rewrite He, lookup_empty. simpl. by rewrite Ei.
  - exists tt, (EncoderDecoder m). split; [|done]. unfold ed_free. by rewrite Hm.
Qed.

(** A victim that was taken out of [running] goes back to the waiting queue. *)
Lemma preempt_spec ex s victim rest drop_stale :
  inv ex s → running s ≡ₚ victim :: rest →
  wp (_preempt_request iter_order victim drop_stale)
    (λ _ s', inv ex s' ∧ running s' = rest ∧ kv_keeps victim (kv_cache_manager s) (kv_cache_manager s')
       ∧ ∀ rid, rid ≠ victim → requests s' !! rid = requests s !! rid) (set_running rest s).
Proof using Hiter.
  intros H Hrun. pose proof H as [H1 H2 H3 H4 H5 H6 H7 H8 H9 H10 H11].
  assert (victim ∈ running s) as Hv by (rewrite Hrun; by left).
  destruct (H7 victim Hv) as (x & Hx & Hst & Hsl). pose proof (H3 victim x Hx) as [K1 K2 K3 K4 K5].
  unfold _preempt_request. apply wp_bind. eapply wp_lookup_req; [exact Hx|].
  apply wp_bind, wp_assert; [by apply bool_decide_eq_true_2|].
  apply wp_bind, wp_on_kvm. simpl.
  eapply wp_mono; [apply (kv_release (kv_cache_manager s) (req x) H1)|]. simpl. rewrite K1.
  intros _ k (Hk & Hkeep & Hunk). apply wp_bind, wp_on_enc. simpl.
  eapply wp_mono; [by apply enc_free_idle|]. simpl. intros _ e ->. unfold update_req. wp_steps.
  set (F := λ y : SReq, set_placeholders 0 _). set (s1 := set_requests _ _).
  assert (∀ rid, rank s1 rid = rank s rid) as Hrank.
  { intros rid. apply (rank_alter s victim F rid). intros y _. done. }
  destruct (prepend_wf (policy cfg) s1 (waiting s) victim) as (w & Ew & Hw & Hp).
  { by eapply queue_wf_rank; [|exact H4]. }
  eapply wp_lift_result; [exact Ew|]. wp_steps.
  assert (NoDup (rest ++ victim :: queued ex s)) as Hnd.
  { rewrite <-Permutation_middle. change (NoDup ((victim :: rest) ++ queued ex s)). by rewrite <-Hrun. }
  assert (∀ rid, rid ∈ qids w ++ qids (skipped_waiting s) ++ ex ↔ rid = victim ∨ rid ∈ queued ex s) as Hin.
  { intros rid. rewrite Hp. unfold queued. simpl. by rewrite elem_of_cons. }
  assert (victim ∉ rest ∧ victim ∉ queued ex s) as [Hv1 Hv2].
  { rewrite <-Permutation_middle in Hnd. apply NoDup_cons in Hnd as [Hn _].
    rewrite elem_of_app in Hn. tauto. }
  split_and!; [|done|done|intros rid Hne; simpl; by rewrite lookup_alter_ne].
  split; simpl; try done.
  - intros rid y. rewrite lookup_alter. case_decide as E; [|apply H3]. subst. rewrite Hx. intros [= <-].
    destruct K2 as [V1 V2 V3 V4 V5]. split; simpl; try done; [|lia]. split; simpl; try done. lia.
  - eapply queue_wf_rank; [|exact H5]. intros rid _. exact (Hrank rid).
  - unfold queued. simpl. rewrite Hp. exact Hnd.
  - intros rid Hr. assert (rid ≠ victim) as Hne by (by intros ->).
    destruct (H7 rid) as (y & Hy & Hsy & Hly); [rewrite Hrun; by right|].
    exists y. rewrite lookup_alter_ne by done. split; [done|]. split; [done|]. by apply Hkeep.
  - intros rid Hq. apply Hin in Hq as [->|Hq].
    + exists (F x). rewrite lookup_alter_eq, Hx. split; [done|]. split; [|done]. split; simpl; [done|done|lia].
    + assert (rid ≠ victim) as Hne by (by intros ->). destruct (H8 rid Hq) as (y & Hy & Hw' & Hu).
      exists y. rewrite lookup_alter_ne by done. split_and!; [done..|]. by apply Hkeep.
  - intros rid. rewrite lookup_alter. case_decide as E; [|intros Hn; apply Hkeep; [by intros ->|by apply H9]].
    subst. by rewrite Hx.
  - intros rid Hs. assert (is_Some (requests s !! rid)) as Hs'.
    { rewrite lookup_alter in Hs. case_decide; [|done]. subst. by eexists. }
    apply H10 in Hs'. rewrite elem_of_app, Hrun, elem_of_cons in Hs'. rewrite elem_of_app.
    unfold queued at 1. simpl. rewrite Hin. tauto.
  - apply Permutation_length in Hrun. unfold zlen in *. simpl in *. lia.
Qed.
End invariant.
