(* ===== verification/SchedulerRequests.v ===== *)
(** Requests that come and go: adding a request, finishing requests, preempting all of them. *)

From S2P Require Import Prelude MathUtils Request BlockHash FreeQueue BlockPool Managers.
From S2P Require Import Coordinator KVCacheManager KVCacheFacts EncoderCache EncoderCacheFacts RequestQueue.
From S2P Require Import RequestQueueFacts SchedUtils SchedUtilsFacts KVCacheService SchedulerState Scheduler.
From S2P Require Import SchedulerUpdate SchedulerQueues SchedulerInv.

Set Warnings "-level-tolerance,-clear-no-such-hyp".

Lemma filter_ext_elem {A} (P Q : A → Prop) `{∀ x, Decision (P x), ∀ x, Decision (Q x)} (l : list A) :
  (∀ x, x ∈ l → P x ↔ Q x) → filter P l = filter Q l.
Proof.
  induction l as [|x l IH]; intros Hl; [done|]. rewrite !filter_cons, IH by (intros y Hy; apply Hl; by right).
  apply decide_ext, Hl. by left.
Qed.
Section requests.
Context {sha256 : bytes → bytes} {use_int : bool} {mml hbs : Z} {events : bool}.
Context `{KV : !KVService sha256 use_int mml hbs events} (cfg : SchedulerConfig).
Context (iter_order : gset Z → list Z) (Hiter : ∀ X, iter_order X ≡ₚ elements X).
Implicit Types (s : Scheduler) (rid : string) (x : SReq) (D : gset string).

#[local] Abbreviation req_ok := (SchedulerInv.req_ok (mml := mml) (hbs := hbs) (events := events)).

(** ** A new scheduler, a new request *)

Lemma init_sched kvm enc :
  kv_ready kvm → (∀ rid, kv_unknown kvm rid) → enc_idle enc → 0 ≤ max_num_running_reqs cfg →
  sched_inv cfg (Scheduler_init cfg kvm enc).
Proof using.
  intros Hk Hu He Hm. destruct (create_wf (policy cfg) (Scheduler_init cfg kvm enc)) as [Hw Hq].
  assert (queued [] (Scheduler_init cfg kvm enc) = []) as Eq by (unfold queued; simpl; by rewrite Hq).
  split; simpl; rewrite ?Eq; try done.
  - apply NoDup_nil_2.
  - by intros rid ?%elem_of_nil.
  - by intros rid ?%elem_of_nil.
  - intros rid [x Hx]. by rewrite lookup_empty in Hx.
Qed.

(** A request as the engine submits it. *)
Record fresh_request (r : Request) : Prop := {
  fr_serve : servable mml hbs events r;
  fr_text : mm_features r = [];
  fr_status : status r = WAITING ∨ status r = WAITING_FOR_STRUCTURED_OUTPUT_GRAMMAR;
  fr_start : num_computed_tokens r = 0 ∧ num_preemptions r = 0;
  fr_prompt : num_tokens r = num_prompt_tokens r;
}.

Lemma add_request_spec s r :
  sched_inv cfg s → fresh_request r → requests s !! request_id r = None →
  wp (sched_add_request r) (λ _ s', sched_inv cfg s'
    ∧ requests s' = <[request_id r := new_sreq r]> (requests s) ∧ running s' = running s
    ∧ kv_cache_manager s' = kv_cache_manager s) s.
Proof using.
  intros H [F1 F2 F3 [F4 F5] F6] Hn. pose proof H as [H1 H2 H3 H4 H5 H6 H7 H8 H9 H10 H11].
  unfold sched_add_request. set (rid := request_id r) in *. wp_steps. rewrite Hn. wp_steps.
  set (s1 := set_requests _ s).
  assert (rid ∉ running s ++ queued [] s) as Hout.
  { intros [Hr|Hq]%elem_of_app.
    - destruct (H7 rid Hr) as (x & Hx & _). congruence.
    - destruct (H8 rid Hq) as (x & Hx & _). congruence. }
  assert (∀ rid', rid' ≠ rid → rank s1 rid' = rank s rid') as Hrank.
  { intros rid' Hne. unfold rank. simpl. by rewrite lookup_insert_ne. }
  assert (∀ q, queue_wf (policy cfg) s q → (∀ rid', rid' ∈ qids q → rid' ∈ queued [] s) →
    queue_wf (policy cfg) s1 q) as Hwf.
  { intros q Hq Hsub. eapply queue_wf_rank; [|exact Hq]. intros rid' Hin. apply Hrank. intros ->.
    apply Hout, elem_of_app. right. by apply Hsub. }
  assert (queue_wf (policy cfg) s1 (waiting s)) as Hw1 by (apply Hwf; [done|clear; unfold queued; set_solver]).
  assert (queue_wf (policy cfg) s1 (skipped_waiting s)) as Hs1 by (apply Hwf; [done|clear; unfold queued; set_solver]).
  assert (∀ w sk, queue_wf (policy cfg) s1 w → queue_wf (policy cfg) s1 sk →
    qids w ++ qids sk ≡ₚ rid :: qids (waiting s) ++ qids (skipped_waiting s) →
    sched_inv cfg (set_queues w sk s1)) as Hfin.
  { intros w sk Hw Hsk Hp.
    assert (queued [] (set_queues w sk s1) ≡ₚ rid :: queued [] s) as Hq.
    { unfold queued. simpl. by rewrite !app_nil_r. }
    split; simpl; try done.
    - intros rid' y. rewrite lookup_insert. case_decide as E; [|apply H3]. subst. intros [= <-].
      split; simpl; try done. lia.
    - rewrite Hq, <-Permutation_middle. by apply NoDup_cons.
    - intros rid' Hr. rewrite lookup_insert_ne; [by apply H7|]. intros <-. apply Hout, elem_of_app. by left.
    - intros rid' Hin. rewrite Hq in Hin. apply elem_of_cons in Hin as [->|Hin].
      + exists (new_sreq r). rewrite lookup_insert_eq. split; [done|]. split; [|by apply H9].
        split; simpl; [by destruct F3 as [->| ->]|done|lia].
      + rewrite lookup_insert_ne; [by apply H8|]. intros <-. apply Hout, elem_of_app. by right.
    - intros rid'. rewrite lookup_insert. case_decide; [done|]. apply H9.
    - intros rid'. rewrite lookup_insert, Hq. case_decide as E; [subst; clear; set_solver|]. intros Hs. apply H10 in Hs. clear -Hs. set_solver. }
  unfold _enqueue_waiting_request. wp_steps. eapply wp_lookup_req; [simpl; by rewrite lookup_insert_eq|].
  simpl. destruct (_is_blocked_waiting_status (status r)); apply wp_bind.
  - destruct (add_wf (policy cfg) s1 (skipped_waiting s) rid Hs1) as (q & Eq & Hq & Hp).
    eapply wp_lift_result; [exact Eq|]. wp_steps. split; [|done]. apply Hfin; try done.
    rewrite Hp. symmetry. apply Permutation_middle.
  - destruct (add_wf (policy cfg) s1 (waiting s) rid Hw1) as (q & Eq & Hq & Hp).
    eapply wp_lift_result; [exact Eq|]. wp_steps. split; [|done]. apply Hfin; try done. by rewrite Hp.
Qed.

(** ** Requests that leave *)

(** The invariant while the requests of [D] are leaving: they are in no queue, may still be in
    [running], and may still hold blocks as long as they are in [requests]. *)
Record leave_inv D s : Prop := {
  li_kv : kv_ready (kv_cache_manager s);
  li_enc : enc_idle (encoder_cache_manager s);
  li_req : ∀ rid x, requests s !! rid = Some x → req_ok rid x;
  li_waiting_wf : queue_wf (policy cfg) s (waiting s);
  li_skipped_wf : queue_wf (policy cfg) s (skipped_waiting s);
  li_nodup : NoDup (running s ++ queued [] s);
  li_queues : ∀ rid, rid ∈ D → rid ∉ queued [] s;
  li_running : ∀ rid, rid ∈ running s → rid ∉ D →
    ∃ x, requests s !! rid = Some x ∧ runs (kv_cache_manager s) rid x;
  li_waiting : ∀ rid, rid ∈ queued [] s → ∃ x, requests s !! rid = Some x ∧ waits x
    ∧ kv_unknown (kv_cache_manager s) rid;
  li_absent : ∀ rid, requests s !! rid = None → kv_unknown (kv_cache_manager s) rid;
  li_all : ∀ rid, is_Some (requests s !! rid) → rid ∉ D → rid ∈ running s ++ queued [] s;
  li_max : zlen (running s) ≤ max_num_running_reqs cfg;
}.

Lemma leave_none s : sched_inv cfg s → leave_inv ∅ s.
Proof using. intros []. split; try done; auto. Qed.

(** More running requests may leave. *)
Lemma leave_more D D' s :
  leave_inv D s → D ⊆ D' → (∀ rid, rid ∈ D' → rid ∉ queued [] s) → leave_inv D' s.
Proof using.
  intros [] Hsub Hq. split; try done.
  - intros rid Hr Hn. apply li_running0; [done|]. clear -Hsub Hn. set_solver.
  - intros rid Hs Hn. apply li_all0; [done|]. clear -Hsub Hn. set_solver.
Qed.

(** All of them are gone. *)
Lemma leave_done D s :
  leave_inv D s → (∀ rid, rid ∈ D → requests s !! rid = None) → (∀ rid, rid ∈ D → rid ∉ running s) →
  sched_inv cfg s.
Proof using.
  intros [] Hg Hr. split; try done.
  - intros rid Hin. apply li_running0; [done|]. intros HD. by apply (Hr rid HD).
  - intros rid [x Hx]. apply li_all0; [by eexists|]. intros HD. rewrite (Hg rid HD) in Hx. done.
Qed.

Lemma leave_ids D s a b c d e : leave_inv D s → leave_inv D (set_id_sets a b c d e s).
Proof using. by intros []. Qed.
Lemma leave_clock D s n b p : leave_inv D s → leave_inv D (set_clock n b p s).
Proof using. by intros []. Qed.

(** A leaving request changes. *)
Lemma leave_alter D s rid f x :
  leave_inv D s → rid ∈ D → requests s !! rid = Some x → req_ok rid (f x) →
  leave_inv D (set_requests (alter f rid (requests s)) s).
Proof using.
  intros [L1 L2 L3 L4 L5 L6 L7 L8 L9 L10 L11 L12] HD Hx Hok.
  assert (∀ rid', rid' ≠ rid → rank (set_requests (alter f rid (requests s)) s) rid' = rank s rid') as Hrank.
  { intros rid' Hne. unfold rank. simpl. by rewrite lookup_alter_ne. }
  assert (∀ rid', rid' ∈ queued [] s → rid' ≠ rid) as Hne by (intros rid' Hq ->; by apply (L7 rid)).
  split; simpl; try done.
  - intros rid' y. rewrite lookup_alter. case_decide as E; [|apply L3]. subst. rewrite Hx. by intros [= <-].
  - eapply queue_wf_rank; [|exact L4]. intros rid' Hin. apply Hrank, Hne. unfold queued. clear -Hin. set_solver.
  - eapply queue_wf_rank; [|exact L5]. intros rid' Hin. apply Hrank, Hne. unfold queued. clear -Hin. set_solver.
  - intros rid' Hr Hn. rewrite lookup_alter_ne by (by intros ->). by apply L8.
  - intros rid' Hq. rewrite lookup_alter_ne; [by apply L9|]. intros ->. by apply (Hne rid').
  - intros rid'. rewrite lookup_alter. case_decide as E; [|apply L10]. subst. by rewrite Hx.
  - intros rid'. rewrite lookup_alter. case_decide as E; [|apply L11]. by subst.
Qed.

(** A leaving request gives back its blocks and is forgotten. *)
Lemma leave_gone D s rid k :
  leave_inv D s → rid ∈ D → kv_ready k → kv_keeps rid (kv_cache_manager s) k → kv_unknown k rid →
  leave_inv D (set_requests (delete rid (requests s)) (set_kvm k s)).
Proof using.
  intros [L1 L2 L3 L4 L5 L6 L7 L8 L9 L10 L11 L12] HD Hk Hkeep Hu.
  assert (∀ rid', rid' ≠ rid → rank (set_requests (delete rid (requests s)) (set_kvm k s)) rid' = rank s rid') as Hrank.
  { intros rid' Hne. unfold rank. simpl. by rewrite lookup_delete_ne. }
  assert (∀ rid', rid' ∈ queued [] s → rid' ≠ rid) as Hne by (intros rid' Hq ->; by apply (L7 rid)).
  split; simpl; try done.
  - intros rid' y. rewrite lookup_delete. case_decide; [done|apply L3].
  - eapply queue_wf_rank; [|exact L4]. intros rid' Hin. apply Hrank, Hne. unfold queued. clear -Hin. set_solver.
  - eapply queue_wf_rank; [|exact L5]. intros rid' Hin. apply Hrank, Hne. unfold queued. clear -Hin. set_solver.
  - intros rid' Hr Hn. assert (rid' ≠ rid) as Hne' by (by intros ->). rewrite lookup_delete_ne by done.
    destruct (L8 rid' Hr Hn) as (y & Hy & Hs & Hsl). exists y. split; [done|]. split; [done|]. by apply Hkeep.
  - intros rid' Hq. pose proof (Hne rid' Hq). rewrite lookup_delete_ne by done.
    destruct (L9 rid' Hq) as (y & Hy & Hw & Hun). exists y. split_and!; [done..|]. by apply Hkeep.
  - intros rid'. destruct (decide (rid' = rid)) as [->|Hn]; [done|]. rewrite lookup_delete_ne by done.
    intros Hno. apply Hkeep; [done|by apply L10].
  - intros rid'. rewrite lookup_delete. case_decide as E; [by intros [? ?]|apply L11].
Qed.

Lemma free_request_spec D s rid x :
  leave_inv D s → rid ∈ D → requests s !! rid = Some x → is_finished (req x) = true →
  wp (_free_request iter_order rid) (λ _ s', leave_inv D s' ∧ requests s' = delete rid (requests s)
    ∧ running s' = running s ∧ waiting s' = waiting s ∧ skipped_waiting s' = skipped_waiting s
    ∧ grammar_compile_error_reqs s' = grammar_compile_error_reqs s) s.
Proof using Hiter.
  intros H HD Hx Hfin. destruct (li_req _ _ H rid x Hx) as [K1 K2 K3 K4].
  unfold _free_request, _free_blocks, _free_request_blocks. wp_steps. eapply wp_lookup_req; [exact Hx|].
  apply wp_bind, wp_assert; [done|]. wp_steps. apply wp_on_enc. simpl.
  eapply wp_mono; [apply enc_free_idle; [done|apply H|done]|]. simpl. intros _ e ->. wp_steps.
  eapply wp_lookup_req; [exact Hx|]. apply wp_bind, wp_assert; [done|]. wp_steps. apply wp_on_kvm. simpl.
  eapply wp_mono; [apply (kv_release (kv_cache_manager s) (req x) (li_kv _ _ H))|]. rewrite K1. simpl.
  intros _ k (Hk & Hkeep & Hu). wp_steps. split; [|done].
  set (s1 := set_encoder _ _). set (s2 := set_finished _ s1).
  change (leave_inv D (set_requests (delete rid (requests s2)) (set_kvm k s2))).
  apply leave_gone; try done. apply leave_ids.
  assert (s1 = set_inflight (_inflight_prefills s ∖ {[rid]}) s) as -> by (by destruct s).
  by apply leave_ids.
Qed.

(** ** Finishing requests *)

Lemma runs_unfinished k rid x : runs k rid x → is_finished (req x) = false.
Proof using. intros [E _]. unfold is_finished. by rewrite E. Qed.
Lemma waits_unfinished x : waits x → is_finished (req x) = false ∧ status (req x) ≠ RUNNING.
Proof using. intros [Hs _ _]. unfold is_finished. by destruct (status (req x)). Qed.

(** The requests among [ids] by where they are. *)
Lemma collect_finished_spec s ids :
  sched_inv cfg s →
  collect_finished s ids = (filter (λ rid, is_Some (requests s !! rid)) ids,
                            filter (.∈ running s) ids, filter (.∈ queued [] s) ids).
Proof using.
  intros H. unfold collect_finished.
  assert (∀ acc : list string * list string * list string, foldl (λ acc rid,
    let '(valid, run, wait) := acc in
    match requests s !! rid with
    | Some x =>
        if is_finished (req x) then acc
        else if bool_decide (status (req x) = RUNNING) then (valid ++ [rid], run ++ [rid], wait)
        else (valid ++ [rid], run, wait ++ [rid])
    | None => acc
    end) acc ids = (acc.1.1 ++ filter (λ rid, is_Some (requests s !! rid)) ids,
                    acc.1.2 ++ filter (.∈ running s) ids, acc.2 ++ filter (.∈ queued [] s) ids)) as Hgen.
  { induction ids as [|rid ids IH]; intros [[v r] w]; simpl; [by rewrite !filter_nil, !app_nil_r|].
    rewrite IH. destruct (requests s !! rid) as [x|] eqn:Hx.
    - rewrite filter_cons_True by (rewrite Hx; by eexists). destruct (decide (rid ∈ running s)) as [Hr|Hr].
      + pose proof (inv_not_queued cfg [] s rid H Hr) as Hq.
        destruct (si_running _ _ _ H rid Hr) as (y & Hy & Hruns). assert (y = x) as -> by congruence.
        rewrite (runs_unfinished _ _ _ Hruns), bool_decide_eq_true_2 by apply Hruns.
        rewrite filter_cons_True, filter_cons_False by done. simpl. by rewrite <-!app_assoc.
      + assert (rid ∈ queued [] s) as Hq.
        { pose proof (si_all _ _ _ H rid ltac:(by eexists)) as Hin. by apply elem_of_app in Hin as [?|?]. }
        destruct (si_waiting _ _ _ H rid Hq) as (y & Hy & Hw & _). assert (y = x) as -> by congruence.
        destruct (waits_unfinished _ Hw) as [-> Hst]. rewrite bool_decide_eq_false_2 by done.
        rewrite filter_cons_False, filter_cons_True by done. simpl. by rewrite <-!app_assoc.
    - rewrite !filter_cons_False; [done|..].
      + intros Hq. destruct (si_waiting _ _ _ H rid Hq) as (y & Hy & _). congruence.
      + intros Hr. destruct (si_running _ _ _ H rid Hr) as (y & Hy & _). congruence.
      + rewrite Hx. by intros [? ?]. }
  by rewrite Hgen.
Qed.

(** The queues without some requests. *)
Lemma remove_from_queues_spec s ids :
  queue_wf (policy cfg) s (waiting s) → queue_wf (policy cfg) s (skipped_waiting s) →
  wp (remove_from_queues ids) (λ _ s', ∃ w sk, s' = set_queues w sk s
    ∧ queue_wf (policy cfg) s w ∧ queue_wf (policy cfg) s sk
    ∧ queued [] s' ≡ₚ filter (.∉ ids) (queued [] s)) s.
Proof using.
  intros Hw Hs. unfold remove_from_queues. wp_steps.
  destruct (remove_requests_wf (policy cfg) s (waiting s) ids Hw) as (w & E1 & Hw' & P1).
  destruct (remove_requests_wf (policy cfg) s (skipped_waiting s) ids Hs) as (sk & E2 & Hs' & P2).
  eapply wp_lift_result; [exact E1|]. wp_steps. eapply wp_lift_result; [exact E2|]. wp_steps.
  exists w, sk. split_and!; [done..|]. unfold queued. simpl. rewrite !app_nil_r, filter_app. by rewrite P1, P2.
Qed.

(** The state after the leaving requests were taken off the lists. *)
Lemma leave_lists D s s' :
  sched_inv cfg s → kv_cache_manager s' = kv_cache_manager s →
  encoder_cache_manager s' = encoder_cache_manager s → requests s' = requests s →
  queue_wf (policy cfg) s (waiting s') → queue_wf (policy cfg) s (skipped_waiting s') →
  running s' = filter (.∉ D) (running s) → queued [] s' ≡ₚ filter (.∉ D) (queued [] s) →
  leave_inv D s'.
Proof using.
  intros [H1 H2 H3 H4 H5 H6 H7 H8 H9 H10 H11] Ek Ee Er Hw Hs Erun Hq.
  assert (∀ rid, rank s' rid = rank s rid) as Hrank by (intros rid; unfold rank; by rewrite Er).
  assert (∀ rid, rid ∈ running s' ↔ rid ∉ D ∧ rid ∈ running s) as Hr by (intros rid; by rewrite Erun, list_elem_of_filter).
  assert (∀ rid, rid ∈ queued [] s' ↔ rid ∉ D ∧ rid ∈ queued [] s) as Hq' by (intros rid; by rewrite Hq, list_elem_of_filter).
  split; rewrite ?Ek, ?Ee, ?Er; try done.
  - by eapply queue_wf_rank; [|exact Hw].
  - by eapply queue_wf_rank; [|exact Hs].
  - rewrite Hq, Erun, <-filter_app. by apply NoDup_filter.
  - intros rid HD. rewrite Hq'. by intros [? _].
  - intros rid. rewrite Hr. intros [_ ?] _. by apply H7.
  - intros rid. rewrite Hq'. intros [_ ?]. by apply H8.
  - intros rid Hsome HD. rewrite elem_of_app, Hr, Hq'. apply H10 in Hsome. apply elem_of_app in Hsome. clear -Hsome HD. tauto.
  - rewrite Erun. pose proof (length_filter (.∉ D) (running s)). unfold zlen in *. lia.
Qed.

(** The requests of [ids] that the scheduler knows. *)
Definition known s (ids : list string) : list string := filter (λ rid, is_Some (requests s !! rid)) ids.

Lemma listed_known s rid : sched_inv cfg s → rid ∈ running s ∨ rid ∈ queued [] s → is_Some (requests s !! rid).
Proof using.
  intros H [Hr|Hq].
  - destruct (si_running _ _ _ H rid Hr) as (x & Hx & _). by eexists.
  - destruct (si_waiting _ _ _ H rid Hq) as (x & Hx & _). by eexists.
Qed.

(** The first part of [finish_requests]: the requests leave the lists. *)
Lemma drop_lists_spec s ids :
  sched_inv cfg s →
  let run := filter (.∈ running s) ids in
  let wait := filter (.∈ queued [] s) ids in
  wp (when (negb (bool_decide (run = []))) (modify (set_running (remove_all (running s) (list_to_set run))));;
      when (negb (bool_decide (wait = []))) (remove_from_queues wait))
    (λ _ s', leave_inv (list_to_set (known s ids)) s' ∧ requests s' = requests s
       ∧ running s' = filter (.∉ ids) (running s)
       ∧ grammar_compile_error_reqs s' = grammar_compile_error_reqs s) s.
Proof using.
  intros H run wait. set (D := list_to_set (known s ids) : gset string).
  assert (∀ rid, rid ∈ D ↔ rid ∈ ids ∧ is_Some (requests s !! rid)) as HD.
  { intros rid. unfold D, known. rewrite elem_of_list_to_set, list_elem_of_filter. clear. tauto. }
  assert (NoDup (running s)) as Hnr by (pose proof (si_nodup _ _ _ H) as Hn; by apply NoDup_app in Hn as [? _]).
  assert (remove_all (running s) (list_to_set run) = filter (.∉ ids) (running s)) as Erm.
  { rewrite remove_all_filter by done. apply filter_ext_elem. intros rid Hin.
    unfold run. rewrite elem_of_list_to_set, list_elem_of_filter. clear -Hin. tauto. }
  assert (filter (.∉ ids) (running s) = filter (.∉ D) (running s)) as ErD.
  { apply filter_ext_elem. intros rid Hin. rewrite HD. pose proof (listed_known s rid H (or_introl Hin)) as Hk.
    clear -Hk. tauto. }
  apply wp_bind. eapply (wp_mono _ (λ _ s', s' = set_running (filter (.∉ ids) (running s)) s)).
  { apply wp_when; intros Hw; wp_steps; [by rewrite Erm|].
    apply negb_false_iff, bool_decide_eq_true_1 in Hw. rewrite <-Erm, Hw.
    assert (remove_all (running s) (list_to_set []) = running s) as ->; [|by destruct s].
    by unfold remove_all; rewrite list_to_set_nil, elements_empty. }
  simpl. intros _ s1 ->. set (s1 := set_running _ s).
  assert (∀ w sk, queue_wf (policy cfg) s w → queue_wf (policy cfg) s sk →
    queued [] (set_queues w sk s1) ≡ₚ filter (.∉ wait) (queued [] s) → leave_inv D (set_queues w sk s1)) as Hleave.
  { intros w sk Hw Hsk Hq. apply (leave_lists D s); try done. rewrite Hq.
    enough (filter (.∉ wait) (queued [] s) = filter (.∉ D) (queued [] s)) as -> by done.
    apply filter_ext_elem. intros rid Hin. unfold wait. rewrite list_elem_of_filter, HD.
    pose proof (listed_known s rid H (or_intror Hin)) as Hk. clear -Hin Hk. tauto. }
  apply wp_when; intros Hw.
  - eapply wp_mono; [apply (remove_from_queues_spec s1); [apply H|apply H]|].
    simpl. intros _ s2 (w & sk & -> & Hw' & Hsk & Hq). split; [|done]. by apply Hleave.
  - wp_steps. split; [|done]. apply negb_false_iff, bool_decide_eq_true_1 in Hw.
    change s1 with (set_queues (waiting s) (skipped_waiting s) s1). apply Hleave; [apply H|apply H|].
    rewrite Hw, filter_all; [done|]. intros rid _. apply not_elem_of_nil.
Qed.

(** The second part: they are finished and freed. *)
Lemma free_each_spec D s ids st :
  leave_inv D s → NoDup ids → (∀ rid, rid ∈ ids → rid ∈ D ∧ is_Some (requests s !! rid)) →
  status_is_finished st = true →
  wp (for_each ids (λ rid, assign rid (become st);; _free_request iter_order rid))
    (λ _ s', leave_inv D s'
       ∧ (∀ rid, requests s' !! rid = if decide (rid ∈ ids) then None else requests s !! rid)
       ∧ running s' = running s ∧ grammar_compile_error_reqs s' = grammar_compile_error_reqs s) s.
Proof using Hiter.
  intros H Hnd Hin Hst. pose (I := λ (pre : list string) s', leave_inv D s'
    ∧ (∀ rid, requests s' !! rid = if decide (rid ∈ pre) then None else requests s !! rid)
    ∧ running s' = running s ∧ grammar_compile_error_reqs s' = grammar_compile_error_reqs s).
  eapply wp_mono; [apply (wp_for_each _ I); unfold I|done].
  { split_and!; [done| |done..]. intros rid. by rewrite decide_False by apply not_elem_of_nil. }
  intros pre rid post s1 Ev (Hl & Er & Erun & Eg).
  destruct (Hin rid) as [HrD [x Hx]]; [rewrite Ev; apply elem_of_app; right; by left|].
  assert (rid ∉ pre) as Hpre.
  { rewrite Ev in Hnd. apply NoDup_app in Hnd as (_ & Hd & _). intros Hp. apply (Hd rid Hp). by left. }
  assert (requests s1 !! rid = Some x) as Hx1 by (rewrite Er; by rewrite decide_False).
  unfold assign, update_req. wp_steps. destruct (li_req _ _ Hl rid x Hx1) as [K1 K2 K3 K4].
  eapply wp_mono; [apply (free_request_spec D _ rid (set_req (become st) x))|].
  - apply (leave_alter D s1 rid _ x); try done. by destruct K2.
  - done.
  - simpl. by rewrite lookup_alter_eq, Hx1.
  - done.
  - simpl. intros _ s2 (Hl2 & Er2 & Erun2 & _ & _ & Eg2). split_and!; [done| |congruence|congruence].
    intros rid'. rewrite Er2, lookup_delete. case_decide as E.
    + subst. rewrite decide_True; [done|]. apply elem_of_app. right. by left.
    + rewrite lookup_alter_ne, Er by done. apply decide_ext. rewrite elem_of_app, list_elem_of_singleton. clear -E. naive_solver.
Qed.

Lemma finish_requests_spec s ids st :
  sched_inv cfg s → NoDup ids → status_is_finished st = true →
  wp (finish_requests iter_order (Some ids) st) (λ res s', sched_inv cfg s' ∧ res = known s ids
    ∧ (∀ rid, requests s' !! rid = if decide (rid ∈ ids) then None else requests s !! rid)
    ∧ running s' = filter (.∉ ids) (running s)
    ∧ grammar_compile_error_reqs s' = grammar_compile_error_reqs s) s.
Proof using Hiter.
  intros H Hnd Hst. unfold finish_requests. apply wp_bind, wp_assert; [done|]. wp_steps.
  rewrite (collect_finished_spec s ids H). fold (known s ids).
  apply wp_bind. eapply wp_mono; [exact (wp_bind_inv _ _ _ _ (drop_lists_spec s ids H))|]. simpl. intros _ s0 Hq.
  apply wp_bind. eapply wp_mono; [exact Hq|]. simpl. intros _ s1 (Hl1 & Er1 & Erun1 & Eg1). apply wp_bind.
  eapply wp_mono; [apply (free_each_spec _ s1 (known s ids) st Hl1); [by apply NoDup_filter| |done]|].
  { intros rid Hin. rewrite Er1. split; [by apply elem_of_list_to_set|].
    by apply list_elem_of_filter in Hin as [? _]. }
  simpl. intros _ s2 (Hl2 & Er2 & Erun2 & Eg2). wp_steps.
  assert (∀ rid, requests s2 !! rid = if decide (rid ∈ ids) then None else requests s !! rid) as Hreq.
  { intros rid. rewrite Er2, Er1. unfold known. destruct (requests s !! rid) eqn:E; [|by repeat case_decide].
    apply decide_ext. rewrite list_elem_of_filter, E. clear. naive_solver. }
  split_and!; try done; [|congruence|congruence].
  eapply leave_done; [done|..]; intros rid [? Hin]%elem_of_list_to_set%list_elem_of_filter.
  - rewrite Hreq. by rewrite decide_True.
  - rewrite Erun2, Erun1, list_elem_of_filter. by intros [? _].
Qed.
(** ** Reset *)

Lemma preempt_all_spec fuel s :
  sched_inv cfg s → (length (running s) < fuel)%nat →
  wp (preempt_all iter_order fuel) (λ _ s', sched_inv cfg s' ∧ running s' = []) s.
Proof using Hiter.
  revert s. induction fuel as [|fuel IH]; intros s H Hf; [lia|]. simpl. wp_steps.
  destruct (last (running s)) as [rid|] eqn:El.
  2: { wp_steps. split; [done|]. by apply last_None. }
  apply last_Some in El as [rest Er]. wp_steps. rewrite Er, length_app. simpl.
  replace (pred (length rest + 1)) with (length rest) by lia. rewrite take_app_length.
  eapply wp_mono; [apply (preempt_spec cfg iter_order Hiter [] s rid rest true H)|].
  { rewrite Er. by rewrite Permutation_app_comm. }
  simpl. intros _ s' (H' & Er' & _). apply IH; [done|]. rewrite Er, length_app in Hf. rewrite Er'. simpl in Hf. lia.
Qed.

(** With [reset_running_requests] nothing holds blocks any more, and the reset succeeds. *)
Lemma reset_spec s reset_running :
  sched_inv cfg s →
  wp (sched_reset_prefix_cache iter_order reset_running) (λ ok s', sched_inv cfg s'
    ∧ (reset_running = true → ok = true ∧ running s' = [])) s.
Proof using Hiter.
  intros H. unfold sched_reset_prefix_cache. wp_steps.
  eapply (wp_mono _ (λ _ s', sched_inv cfg s' ∧ (reset_running = true → running s' = []))).
  { apply wp_when; intros Hr; [|by wp_steps; rewrite Hr].
    wp_steps. eapply wp_mono; [apply preempt_all_spec; [done|lia]|].
    simpl. intros _ s' [H' E]. wp_steps. split; [by apply inv_ids|done]. }
  simpl. clear s H. intros _ s [H Er]. apply wp_bind, wp_on_kvm.
  eapply wp_mono; [apply (kv_reset (kv_cache_manager s) (si_kv _ _ _ H))|]. simpl. intros ok k [Hsame Hok].
  assert (sched_inv cfg (set_kvm k s)) as H' by (by apply inv_same).
  destruct reset_running; simpl; [|by wp_steps].
  rewrite Hok; simpl; [by wp_steps; auto|]. intros rid. apply (inv_unknown cfg [] s rid H).
  rewrite Er by done. apply not_elem_of_nil.
Qed.
End requests.
