(* ===== verification/SchedulerSteps.v ===== *)
(** The bookkeeping of one scheduling step: how many tokens a request may get, and the budgets
    against what was given. *)

From S2P Require Import Prelude OrderedDict MathUtils Request BlockHash FreeQueue BlockPool Managers.
From S2P Require Import Coordinator KVCacheManager EncoderCache EncoderCacheFacts RequestQueue.
From S2P Require Import RequestQueueFacts SchedUtils KVCacheService SchedulerState Scheduler.
From S2P Require Import SchedulerQueues SchedulerInv.

Set Warnings "-level-tolerance,-clear-no-such-hyp".

(** The configurations the step is proved for: no LoRA limit; sizes are not negative; a decode
    step padded with draft tokens is not clipped. *)
Record cfg_ok (mml : Z) (cfg : SchedulerConfig) : Prop := {
  cf_mml : cfg_max_model_len cfg = mml;
  cf_sampled : 0 ≤ num_sampled_tokens_per_step cfg;
  cf_draft : 0 ≤ draft_slots cfg;
  cf_lookahead : 0 ≤ cfg_num_lookahead_tokens cfg;
  cf_spec : 0 ≤ num_spec_tokens cfg;
  cf_mamba : need_mamba_block_aligned_split cfg = true → 0 < cache_block_size cfg;
  cf_loras : max_loras cfg = None;
  cf_budget : 0 ≤ max_num_scheduled_tokens cfg ∧ 0 ≤ cfg_max_num_batched_tokens cfg;
  cf_table : ∀ tbl, dynamic_sd_lookup cfg = Some tbl → max_num_running_reqs cfg < zlen tbl;
  cf_pad : 0 < num_spec_tokens cfg → need_mamba_block_aligned_split cfg = false
    ∧ (long_prefill_token_threshold cfg ≤ 0 ∨ num_spec_tokens cfg < long_prefill_token_threshold cfg);
}.

(** ** Numbers of tokens *)

Section tokens.
Context (cfg : SchedulerConfig).

Lemma foldr_min_le (xs : list Z) e : foldr Z.min e xs ≤ e.
Proof using. induction xs; simpl; lia. Qed.

(** Splitting at block boundaries only takes tokens away. *)

Lemma mamba_split_bound r n local ext :
  0 < cache_block_size cfg → _mamba_block_aligned_split cfg r n local ext ≤ Z.max n 0.
Proof using.
  intros Hb. unfold _mamba_block_aligned_split. destruct (_ <=? _); [lia|]. cbv zeta.
  set (start := num_computed_tokens r + local + ext). set (b := cache_block_size cfg) in *.
  set (end1 := if _ : bool then _ else start + n).
  assert (end1 ≤ start + n) as He.
  { unfold end1. destruct (_ && _); [|lia]. destruct (_ || _); [|lia].
    pose proof (Z.mul_div_le (start + n) b Hb). lia. }
  set (inside := filter _ _). pose proof (foldr_min_le inside end1). lia.
Qed.

Lemma reserve_bound r computed n : _reserve_prefill_lookahead cfg r computed n ≤ Z.max n 0.
Proof using.
  unfold _reserve_prefill_lookahead. cbv zeta. destruct (_ && _) eqn:E; [|lia].
  apply andb_prop in E as [E1 E2]. apply Z.ltb_lt in E1, E2. lia.
Qed.

Lemma reserve_nonneg r computed n : 0 ≤ _reserve_prefill_lookahead cfg r computed n.
Proof using. unfold _reserve_prefill_lookahead. lia. Qed.

(** What a running request gets fits the budgets and the model length. *)
Lemma running_tokens_bound mml x st n :
  cfg_ok mml cfg →
  n = _reserve_prefill_lookahead cfg (req x) (num_computed_tokens (req x)) (running_tokens cfg x st) →
  n ≠ 0 →
  1 ≤ n ∧ n ≤ token_budget st ∧ n + draft_slots cfg ≤ input_budget st
  ∧ num_computed_tokens (req x) + n ≤ mml.
Proof using.
  intros [C1 C2 C3 _ _ C6 _ _ _ _] -> Hn.
  pose proof (reserve_bound (req x) (num_computed_tokens (req x)) (running_tokens cfg x st)) as Hle.
  pose proof (reserve_nonneg (req x) (num_computed_tokens (req x)) (running_tokens cfg x st)) as Hge.
  unfold running_tokens in *. cbv zeta in *. rewrite C1 in *.
  set (n3 := Z.min _ (mml - _ - _)) in *.
  assert (n3 ≤ token_budget st ∧ n3 ≤ input_budget st - draft_slots cfg
    ∧ n3 ≤ mml - num_computed_tokens (req x) - num_sampled_tokens_per_step cfg) as (A1 & A2 & A3).
  { unfold n3. lia. }
  clearbody n3. destruct (need_mamba_block_aligned_split cfg); [|lia].
  pose proof (mamba_split_bound (req x) n3 0 0 (C6 eq_refl)). lia.
Qed.

(** What a waiting request gets; it asks for at least one token. *)
Lemma waiting_tokens_spec mml r computed local defer st :
  cfg_ok mml cfg → 0 ≤ computed < num_tokens r → num_tokens r ≤ mml →
  0 < token_budget st → draft_slots cfg < input_budget st →
  ∃ res, waiting_tokens cfg r computed local defer st = inr res
    ∧ ∀ n pad, res = Some (n, pad) →
        n ≤ token_budget st ∧ n + draft_slots cfg ≤ input_budget st ∧ computed + n ≤ mml
        ∧ (pad = true → n = 1 + num_spec_tokens cfg ∧ num_tokens r = computed + 1).
Proof using.
  intros [C1 C2 C3 _ C5 C6 _ _ _ C10] Hc Hm Ht Hi. unfold waiting_tokens. cbv zeta.
  destruct (defer && _); [by eexists|]. set (budget := Z.min _ _).
  set (pad := _ && negb (prefill_scheduled st)). set (n1 := if pad then _ else _).
  destruct (pad && _) eqn:Ep; [by eexists|].
  assert (1 ≤ n1 ∧ computed + n1 ≤ mml) as [Hn1 Hn1'].
  { unfold n1. destruct pad; [|lia]. simpl in Ep. apply orb_false_iff in Ep as [_ Ep].
    apply Z.ltb_ge in Ep. rewrite C1 in Ep. unfold n1 in Ep. lia. }
  assert (pad = true → 0 < num_spec_tokens cfg ∧ num_tokens r = computed + 1
    ∧ n1 = 1 + num_spec_tokens cfg ∧ n1 ≤ budget) as Hpad.
  { intros E. unfold n1. rewrite E. unfold n1 in Ep. rewrite E in Ep. simpl in Ep.
    apply orb_false_iff in Ep as [Ep%Z.ltb_ge _]. unfold pad in E. repeat apply andb_prop in E as [E ?].
    apply Z.ltb_lt in E. apply Z.eqb_eq in H1. lia. }
  clearbody n1 pad. set (n2 := if _ && (_ <? n1) then _ else n1).
  assert (1 ≤ n2 ≤ n1) as Hn2.
  { unfold n2. set (t := long_prefill_token_threshold cfg). destruct (Z.ltb_spec 0 t), (Z.ltb_spec t n1); simpl; lia. }
  assert (pad = true → n2 = n1) as Hpad2.
  { intros (Hs & _ & E & _)%Hpad. destruct (C10 Hs) as [_ Hthr]. unfold n2.
    set (t := long_prefill_token_threshold cfg) in *. destruct (Z.ltb_spec 0 t), (Z.ltb_spec t n1); simpl; lia. }
  clearbody n2. destruct (negb _ && _); [by eexists|].
  assert (1 ≤ budget ≤ token_budget st ∧ budget ≤ input_budget st - draft_slots cfg) as [Hb1 Hb2].
  { unfold budget. lia. }
  clearbody budget. unfold result_assert. rewrite (proj2 (Z.ltb_lt 0 (Z.min n2 budget))) by lia.
  change (inr tt ≫= ?f) with (f tt). cbv beta.
  destruct (need_mamba_block_aligned_split cfg).
  - pose proof (mamba_split_bound r (Z.min n2 budget) local 0 (C6 eq_refl)) as Hs.
    eexists. split; [done|]. intros n pd. destruct (_ =? 0); [done|]. intros [= <- <-]. split_and!; [lia..|].
    intros (H & _)%Hpad. by destruct (C10 H).
  - eexists. split; [done|]. intros n pd [= <- <-]. split_and!; [lia..|]. intros E.
    destruct (Hpad E) as (? & ? & ? & ?). rewrite (Hpad2 E). lia.
Qed.
End tokens.

(** ** Budgets *)

Definition scheduled (st : Step) : list string :=
  scheduled_new_reqs st ++ scheduled_resumed_reqs st ++ scheduled_running_reqs st.

Section budgets.
Context (cfg : SchedulerConfig) (budget : Z).
Implicit Types (st : Step) (rid : string) (d : list (string * Z)).

(** The tokens given and the tokens left add up; a scheduled request has its number of tokens
    and its blocks. *)
Record balanced st : Prop := {
  ba_tokens : token_budget st + sum_list (num_scheduled_tokens st).*2 = budget ∧ 0 ≤ token_budget st;
  ba_input : input_budget st + sum_list ((λ n, n + draft_slots cfg) <$> (num_scheduled_tokens st).*2)
             = cfg_max_num_batched_tokens cfg ∧ 0 ≤ input_budget st;
  ba_ids : (num_scheduled_tokens st).*1 ≡ₚ scheduled st;
  ba_nodup : NoDup (scheduled st);
  ba_blocks : ∀ rid, rid ∈ scheduled st → is_Some (req_to_new_blocks st !! rid);
  ba_encoder : scheduled_encoder_inputs st = ∅;
  ba_spec : ∀ rid, is_Some (scheduled_spec_decode_tokens st !! rid) → rid ∈ scheduled st;
}.

Lemma od_sum_del d k v :
  od_get d k = Some v → NoDup d.*1 →
  d.*1 ≡ₚ k :: (od_del d k).*1 ∧ d.*2 ≡ₚ v :: (od_del d k).*2
  ∧ (∀ e, e ∈ od_del d k → e ∈ d ∧ e.1 ≠ k).
Proof using.
  intros Hg Hn. destruct (od_get_split d k v (conj Hg Hn)) as (d1 & d2 & -> & -> & Hk).
  rewrite !fmap_app, !fmap_cons. simpl. split_and!; [by rewrite Permutation_middle..|].
  intros e He. split; [set_solver|]. intros E. apply Hk. rewrite <-E. by apply list_elem_of_fmap_2.
Qed.

Lemma sum_list_perm (xs ys : list Z) : xs ≡ₚ ys → sum_list xs = sum_list ys.
Proof using. induction 1; simpl; lia. Qed.

(** What [charge] does to the books. *)
Record charged rid (n : Z) bs st st' : Prop := {
  cg_tokens : token_budget st' = token_budget st - n;
  cg_input : input_budget st' = input_budget st - (n + draft_slots cfg);
  cg_given : num_scheduled_tokens st' = od_set (num_scheduled_tokens st) rid n;
  cg_blocks : req_to_new_blocks st' = <[rid := bs]> (req_to_new_blocks st);
  cg_encoder : scheduled_encoder_inputs st' = scheduled_encoder_inputs st;
  cg_lists : scheduled st' ≡ₚ rid :: scheduled st;
  cg_spec : ∀ rid', rid' ≠ rid →
    scheduled_spec_decode_tokens st' !! rid' = scheduled_spec_decode_tokens st !! rid';
}.

Lemma charged_given rid n bs st st' :
  balanced st → charged rid n bs st st' → rid ∉ scheduled st →
  num_scheduled_tokens st' = num_scheduled_tokens st ++ [(rid, n)].
Proof using. intros Hb Hc Hf. rewrite (cg_given _ _ _ _ _ Hc). apply od_set_fresh. by rewrite (ba_ids _ Hb). Qed.

Lemma balanced_charge rid n bs st st' :
  balanced st → charged rid n bs st st' → rid ∉ scheduled st →
  n ≤ token_budget st → n + draft_slots cfg ≤ input_budget st → balanced st'.
Proof using.
  intros Hb Hc Hf Hn Hi. pose proof (charged_given _ _ _ _ _ Hb Hc Hf) as Eg.
  destruct Hb as [[B1 B1'] [B2 B2'] B3 B4 B5 B6 B7], Hc as [C1 C2 C3 C4 C5 C6 C7].
  assert (∀ xs (z : Z), sum_list (xs ++ [z]) = sum_list xs + z) as Hsum.
  { intros xs z. induction xs; simpl; lia. }
  split; rewrite ?C1, ?C2, ?C5, ?Eg, ?fmap_app; simpl; rewrite ?fmap_app, ?Hsum; simpl.
  - lia.
  - lia.
  - rewrite C6, B3. by rewrite Permutation_app_comm.
  - rewrite C6. by apply NoDup_cons.
  - intros rid'. rewrite C6, C4, elem_of_cons, lookup_insert. case_decide as E; [by eexists|].
    intros [->|?]; [done|by apply B5].
  - done.
  - intros rid' Hs. rewrite C6, elem_of_cons. destruct (decide (rid' = rid)) as [|Hne]; [by left|].
    right. apply B7. by rewrite <-C7.
Qed.

(** A victim gives back what it got. *)
Lemma balanced_refund rid n st :
  balanced st → rid ∈ scheduled_running_reqs st → od_get (num_scheduled_tokens st) rid = Some n → 0 ≤ n →
  0 ≤ draft_slots cfg →
  let st' := refund cfg rid n 0 st in
  balanced st' ∧ scheduled st ≡ₚ rid :: scheduled st'
  ∧ ∀ e, e ∈ num_scheduled_tokens st' → e ∈ num_scheduled_tokens st.
Proof using.
  intros [[B1 B1'] [B2 B2'] B3 B4 B5 B6 B7] Hin Hg Hn Hd st'.
  assert (NoDup (num_scheduled_tokens st).*1) as Hnd by (by rewrite B3).
  destruct (od_sum_del _ _ _ Hg Hnd) as (P1 & P2 & P3).
  assert (∀ xs : list string, rid ∈ xs → xs ≡ₚ rid :: remove_one xs rid) as Hrm.
  { induction xs as [|y xs IH]; [by intros ?%elem_of_nil|]. simpl. case_decide as E; [by subst|].
    intros [->|Hx]%elem_of_cons; [done|]. rewrite (IH Hx) at 1. apply Permutation_swap. }
  assert (scheduled st ≡ₚ rid :: scheduled st') as Hs.
  { unfold scheduled. simpl. rewrite (Hrm _ Hin) at 1.
    rewrite !Permutation_middle. done. }
  split_and!; [|done|intros e He; by apply P3].
  assert (rid ∉ scheduled st') as Hnot.
  { rewrite Hs in B4. by apply NoDup_cons in B4 as [? _]. }
  pose proof (sum_list_perm _ _ P2) as S1.
  pose proof (sum_list_perm _ _ (fmap_Permutation (λ n, n + draft_slots cfg) _ _ P2)) as S2.
  rewrite fmap_cons in S2. simpl in S1, S2. split; simpl.
  - lia.
  - change (list_fmap Z Z ?f) with (fmap (M := list) f) in S2. lia.
  - rewrite P1 in B3. rewrite Hs in B3. by apply Permutation_cons_inv in B3.
  - rewrite Hs in B4. by apply NoDup_cons in B4 as [_ ?].
  - intros rid' Hr. rewrite lookup_delete_ne by (intros ->; done). apply B5. rewrite Hs. by right.
  - by rewrite B6, delete_empty.
  - intros rid'. rewrite lookup_delete. case_decide as E; [by intros [? ?]|]. intros Hr%B7.
    rewrite Hs in Hr. by apply elem_of_cons in Hr as [->|?].
Qed.
End budgets.
