(* ===== verification/SchedulerRunning.v ===== *)
(** The first part of a scheduling step: the loop over the running requests, with preemption. *)

From S2P Require Import Prelude OrderedDict MathUtils Request BlockHash FreeQueue BlockPool Managers.
From S2P Require Import Coordinator KVCacheManager EncoderCache EncoderCacheFacts RequestQueue.
From S2P Require Import RequestQueueFacts SchedUtils KVCacheService SchedulerState Scheduler.
From S2P Require Import BlockPoolSpec SchedulerQueues SchedulerInv SchedulerSteps.

Set Warnings "-level-tolerance,-clear-no-such-hyp".

Section running.
Context {sha256 : bytes → bytes} {use_int : bool} {mml hbs : Z} {events : bool}.
Context `{KV : !KVService sha256 use_int mml hbs events} (cfg : SchedulerConfig).
Context (iter_order : gset Z → list Z) (Hiter : ∀ X, iter_order X ≡ₚ elements X).
Context (Hcfg : cfg_ok mml cfg) (budget : Z).
Implicit Types (s : Scheduler) (rid : string) (x : SReq) (st : Step).

(** Every scheduled request has slots for the tokens it was given; its drafts are among them. *)
Definition drafts st rid : list Z := default [] (scheduled_spec_decode_tokens st !! rid).
Definition grants s st : Prop :=
  ∀ rid n, (rid, n) ∈ num_scheduled_tokens st → 1 ≤ n
    ∧ ∃ x, requests s !! rid = Some x ∧ num_computed_tokens (req x) + n ≤ mml
        ∧ kv_slots (kv_cache_manager s) rid (num_computed_tokens (req x) + n)
        ∧ zlen (drafts st rid) ≤ num_computed_tokens (req x) + n.

(** The scheduled requests are before the cursor. *)
Definition before (idx : nat) (rs : list string) st : Prop :=
  ∀ rid, rid ∈ scheduled st → ∃ j, (j < idx)%nat ∧ rs !! j = Some rid.

Record run_inv idx s st : Prop := {
  ru_inv : inv cfg [] s;
  ru_bal : balanced cfg budget st;
  ru_grants : grants s st;
  ru_before : before idx (running s) st;
  ru_lists : scheduled_new_reqs st = [] ∧ scheduled_resumed_reqs st = [];
}.

Lemma given_scheduled st rid n :
  balanced cfg budget st → (rid, n) ∈ num_scheduled_tokens st → rid ∈ scheduled st.
Proof using.
  intros Hb Hin. rewrite <-(ba_ids _ _ _ Hb). by apply (list_elem_of_fmap_2 fst) in Hin.
Qed.

(** The grants survive a change that keeps the progress and the slots of the scheduled. *)
Lemma grants_frame s s' st :
  balanced cfg budget st → grants s st →
  (∀ rid x, rid ∈ scheduled st → requests s !! rid = Some x →
     ∃ x', requests s' !! rid = Some x' ∧ num_computed_tokens (req x') = num_computed_tokens (req x)
       ∧ ∀ n, kv_slots (kv_cache_manager s) rid n → kv_slots (kv_cache_manager s') rid n) →
  grants s' st.
Proof using.
  intros Hb Hg Hf rid n Hin. destruct (Hg rid n Hin) as (Hn & x & Hx & Hm & Hs & Hd). split; [done|].
  destruct (Hf rid x (given_scheduled _ _ _ Hb Hin) Hx) as (x' & Hx' & E & Hs'). exists x'.
  rewrite E. split_and!; try done. by apply Hs'.
Qed.

(** ** The victim of a preemption *)

Lemma lowest_priority_elem s ids v : lowest_priority s ids = Some v → v ∈ ids.
Proof using.
  destruct ids as [|a ids]; [done|]. simpl. intros [= <-].
  revert a. induction ids as [|c ids IH]; intros a; simpl; [by left|].
  destruct (later s a c); [right; apply IH|].
  specialize (IH a). apply elem_of_cons in IH as [->|?]; [by left|by right; right].
Qed.

(** What [take_victim] returns when the cursor [idx] is at [rid]. *)
Record taken idx rid s st (victim : string) (idx' : nat) st' (rest : list string) : Prop := {
  tk_perm : running s ≡ₚ victim :: rest;
  tk_bal : balanced cfg budget st';
  tk_given : ∀ e, e ∈ num_scheduled_tokens st' → e ∈ num_scheduled_tokens st;
  tk_spec : ∀ r, r ≠ victim → drafts st' r = drafts st r;
  tk_out : victim ∉ scheduled st';
  tk_before : before idx' rest st';
  tk_cursor : victim ≠ rid → rest !! idx' = Some rid;
  tk_left : (length rest - idx' ≤ length (running s) - idx)%nat;
  tk_budget : token_budget st ≤ token_budget st' ∧ input_budget st ≤ input_budget st';
  tk_lists : scheduled_new_reqs st' = [] ∧ scheduled_resumed_reqs st' = [];
}.

(** Taking position [i] out of a list moves the later ones. *)
Lemma delete_cursor (rs : list string) i victim (idx j : nat) r :
  rs !! i = Some victim → r ≠ victim → rs !! j = Some r →
  let moved (k : nat) := if bool_decide (i < k)%nat then pred k else k in
  delete i rs !! moved j = Some r
  ∧ ((j < idx)%nat → (moved j < moved idx)%nat).
Proof using.
  intros Hi Hne Hj moved. assert (i ≠ j) by congruence. unfold moved.
  repeat case_bool_decide; (split; [|lia]).
  - rewrite list_lookup_delete_ge by lia. by replace (S (pred j)) with j by lia.
  - rewrite list_lookup_delete_ge by lia. by replace (S (pred j)) with j by lia.
  - by rewrite list_lookup_delete_lt by lia.
  - by rewrite list_lookup_delete_lt by lia.
Qed.

Lemma priority_taken idx rid s st i victim st' :
  run_inv idx s st → running s !! idx = Some rid → running s !! i = Some victim →
  balanced cfg budget st' → (∀ e, e ∈ num_scheduled_tokens st' → e ∈ num_scheduled_tokens st) →
  (∀ r, r ≠ victim → drafts st' r = drafts st r) →
  victim ∉ scheduled st' → (∀ r, r ∈ scheduled st' → r ∈ scheduled st) →
  token_budget st ≤ token_budget st' ∧ input_budget st ≤ input_budget st' →
  scheduled_new_reqs st' = [] ∧ scheduled_resumed_reqs st' = [] →
  taken idx rid s st victim (if bool_decide (i < idx)%nat then pred idx else idx) st'
    (delete i (running s)).
Proof using.
  intros [H1 H2 H3 H4 H5] Hidx Hi Hb Hg Hsp Hv Hsub Hbud Hl.
  pose proof (lookup_lt_Some _ _ _ Hidx) as L1. pose proof (lookup_lt_Some _ _ _ Hi) as L2.
  split; try done.
  - by apply delete_Permutation.
  - intros r Hr. destruct (H4 r (Hsub r Hr)) as (j & Hj & Hrj).
    assert (r ≠ victim) as Hne by congruence.
    destruct (delete_cursor _ i victim idx j r Hi Hne Hrj) as [D1 D2]. eauto.
  - intros Hne. by apply (delete_cursor _ i victim idx idx rid Hi).
  - rewrite length_delete by (by eexists). case_bool_decide; lia.
Qed.

Lemma take_victim_spec idx rid s st :
  run_inv idx s st → running s !! idx = Some rid →
  wp (take_victim cfg idx st)
    (λ v s', ∃ rest, s' = set_running rest s ∧ taken idx rid s st v.1.1 v.1.2 v.2 rest) s.
Proof using Hcfg.
  intros Hru Hidx. pose proof Hru as [H1 H2 H3 H4 [H5 H6]]. pose proof (lookup_lt_Some _ _ _ Hidx) as L1.
  unfold take_victim. wp_steps. destruct (policy cfg); wp_steps.
  - destruct (last_is_Some (running s)) as [_ Hl].
    destruct Hl as [victim Hlast]; [by destruct (running s)|].
    eapply wp_lift_option; [exact Hlast|]. wp_steps. eexists. split; [done|]. simpl.
    rewrite last_lookup in Hlast. set (n := pred (length (running s))) in *.
    assert (n < length (running s))%nat as Ln by (unfold n; lia).
    assert (take n (running s) = delete n (running s)) as ->.
    { rewrite delete_take_drop. rewrite (drop_ge (running s) (S n)) by (unfold n; lia). by rewrite app_nil_r. }
    assert (victim ∉ scheduled st) as Hout.
    { intros Hin. destruct (H4 victim Hin) as (j & Hj & Hvj).
      assert (j = n) as ->; [|lia]. eapply NoDup_lookup; [|done..].
      pose proof (si_nodup _ _ _ H1) as Hnd. by apply NoDup_app in Hnd as [? _]. }
    pose proof (priority_taken idx rid s st n victim st Hru Hidx Hlast) as Ht.
    rewrite bool_decide_eq_false_2 in Ht by lia. by apply Ht.
  - destruct (lowest_priority s (running s)) as [victim|] eqn:Elow.
    2: { destruct (running s); done. }
    apply lowest_priority_elem in Elow as Hv. eapply wp_lift_option; [done|]. wp_steps.
    destruct (list_find_elem_of (λ r, r = victim) (running s) victim Hv eq_refl) as [[i v] Hf].
    pose proof Hf as (Hi & -> & _)%list_find_Some. 
    eapply (wp_lift_option ValueError _ i); [by rewrite Hf|]. wp_steps.
    case_bool_decide as Hs.
    + assert (victim ∈ scheduled st) as Hsch by (unfold scheduled; rewrite H5, H6; done).
      destruct (od_get_Some (num_scheduled_tokens st) victim) as [n Hn].
      { by rewrite (ba_ids _ _ _ H2). }
      destruct (ba_blocks _ _ _ H2 victim Hsch) as [bs Hbs].
      destruct (H3 victim n (od_get_elem _ _ _ Hn)) as (Hpos & x & Hx & _).
      wp_steps. eapply wp_lift_option; [exact Hn|]. wp_steps. eapply wp_lift_option; [exact Hbs|]. wp_steps.
      eapply wp_lookup_req; [exact Hx|]. wp_steps. rewrite (ba_encoder _ _ _ H2), lookup_empty. simpl.
      eapply wp_lift_result; [done|]. wp_steps. eexists. split; [done|]. simpl.
      destruct (balanced_refund cfg budget victim n st H2 Hs Hn ltac:(lia) (cf_draft _ _ Hcfg)) as (R1 & R2 & R3).
      apply priority_taken; try done.
      * intros r Hr. unfold drafts. simpl. by rewrite lookup_delete_ne.
      * intros Hin'. pose proof (ba_nodup _ _ _ H2) as Hnd. rewrite R2 in Hnd. by apply NoDup_cons in Hnd as [? _].
      * intros r Hr. rewrite R2. by right.
      * simpl. pose proof (cf_draft _ _ Hcfg). lia.
    + wp_steps. eexists. split; [done|]. simpl. apply priority_taken; try done.
      unfold scheduled. by rewrite H5, H6.
Qed.

(** ** Allocation with preemption *)

(** The result for the request at the cursor, which has [c] computed tokens and asks for [n]. *)
Record allocated idx rid x (n : Z) s st (res : option KVCacheBlocks) (idx' : nat) st' s' : Prop := {
  al_run : run_inv idx' s' st';
  al_left : (length (running s') - idx' ≤ length (running s) - idx)%nat;
  al_budget : token_budget st ≤ token_budget st' ∧ input_budget st ≤ input_budget st';
  al_some : is_Some res → running s' !! idx' = Some rid ∧ requests s' !! rid = Some x
    ∧ kv_slots (kv_cache_manager s') rid (num_computed_tokens (req x) + n);
}.

Lemma run_inv_kvm idx s st rid k :
  run_inv idx s st → inv cfg [] (set_kvm k s) → kv_keeps rid (kv_cache_manager s) k → rid ∉ scheduled st →
  run_inv idx (set_kvm k s) st.
Proof using.
  intros [H1 H2 H3 H4 H5] Hi Hk Hn. split; try done. apply (grants_frame s); [done..|].
  intros rid' x Hin Hx. exists x. split_and!; [done..|]. simpl. apply Hk. by intros ->.
Qed.

Lemma running_args_ok c n : 1 ≤ n → c + n ≤ mml → more_tokens mml (running_args cfg n) c n.
Proof using Hcfg. intros. split; simpl; try done. apply (cf_lookahead _ _ Hcfg). Qed.

Lemma cursor_fresh idx s st rid : run_inv idx s st → running s !! idx = Some rid → rid ∉ scheduled st.
Proof using.
  intros Hru Hidx Hin. destruct (ru_before _ _ _ Hru rid Hin) as (j & Hj & Hrj).
  assert (j = idx) as ->; [|lia]. eapply NoDup_lookup; [|done..].
  pose proof (si_nodup _ _ _ (ru_inv _ _ _ Hru)) as Hnd. by apply NoDup_app in Hnd as [? _].
Qed.

Lemma allocate_or_preempt_spec fuel idx rid x n s st :
  run_inv idx s st → running s !! idx = Some rid → requests s !! rid = Some x →
  1 ≤ n → num_computed_tokens (req x) + n ≤ mml → (length (running s) < fuel)%nat →
  wp (allocate_or_preempt sha256 use_int cfg iter_order fuel rid n idx st)
    (λ r s', allocated idx rid x n s st r.1.1 r.1.2 r.2 s') s.
Proof using Hcfg Hiter.
  revert idx s st. induction fuel as [|fuel IH]; intros idx s st Hru Hidx Hx Hn Hm Hf; [lia|]. simpl.
  pose proof Hru as [H1 H2 H3 H4 H5]. pose proof (cursor_fresh _ _ _ _ Hru Hidx) as Hfresh.
  assert (rid ∈ running s) as Hr by (by eapply list_elem_of_lookup_2).
  destruct (si_running _ _ _ H1 rid Hr) as (x' & Hx' & Hst & Hsl). assert (x' = x) as -> by congruence.
  destruct (si_req _ _ _ H1 rid x Hx) as [K1 K2 K3 K4].
  apply wp_bind. eapply wp_lookup_req; [exact Hx|]. apply wp_bind, wp_on_kvm.
  eapply wp_mono; [apply (kv_extend (kv_cache_manager s) (req x) (running_args cfg n) n (si_kv _ _ _ H1) K2)|].
  { by rewrite K1. }
  { done. }
  { done. }
  { by apply running_args_ok. }
  rewrite K1. simpl. intros res k (Hk & Hkeep & Hsl').
  assert (inv cfg [] (set_kvm k s)) as Hi1.
  { apply (inv_kvm cfg [] s rid k H1 Hk Hkeep); [done|]. intros y _ Hy. assert (y = x) as -> by congruence.
    destruct res; [|done]. eapply kv_slots_le; [done..|]. lia. }
  pose proof (run_inv_kvm _ _ _ _ _ Hru Hi1 Hkeep Hfresh) as Hru1.
  destruct res as [bs|].
  - wp_steps. by split.
  - apply wp_bind. eapply wp_mono; [apply (take_victim_spec idx rid (set_kvm k s) st Hru1 Hidx)|].
    simpl. intros [[victim idx'] st1] s1 (rest & -> & [T1 T2 T3 Tsp T4 T5 T6 T7 T8 T9]). simpl in *.
    apply wp_bind. eapply wp_mono; [apply (preempt_spec cfg iter_order Hiter [] (set_kvm k s) victim rest false Hi1 T1)|].
    simpl. intros _ s2 (Hi2 & Er2 & Hk2 & Hq2).
    set (st2 := set_lists _ _ _ _ st1).
    assert (run_inv idx' s2 st2) as Hru2.
    { split; [done| | | |done].
      - by destruct T2.
      - apply (grants_frame (set_kvm k s)); [by destruct T2| |].
        + intros r m Hin. destruct (ru_grants _ _ _ Hru1 r m) as (Hm1 & y & Hy & Hy1 & Hy2 & Hy3); [by apply T3|].
          split; [done|]. exists y. split_and!; try done. change (drafts st2 r) with (drafts st1 r). rewrite Tsp; [done|].
          intros ->. apply T4. by apply (given_scheduled st1 victim m).
        + intros r y Hin Hy. assert (r ≠ victim) as Hne by (intros ->; by apply T4).
          exists y. rewrite Hq2 by done. split_and!; [done..|]. by apply Hk2.
      - by rewrite Er2. }
    assert (length (running s) = S (length rest)) as Elen by (by apply Permutation_length in T1).
    case_bool_decide as Hv.
    + wp_steps. split; simpl; [done|by rewrite Er2|done|by intros [? ?]].
    + assert (rid ≠ victim) as Hne by done.
      eapply wp_mono; [apply (IH idx' s2 st2 Hru2)|].
      * rewrite Er2. by apply T6.
      * by rewrite Hq2.
      * done.
      * done.
      * rewrite Er2. lia.
      * simpl. intros r s3 [A1 A2 A3 A4]. simpl in *. split; [done| |lia|done]. rewrite Er2 in A2. lia.
Qed.

(** ** The loop *)

Lemma text_no_inputs r : mm_features r = [] → has_encoder_inputs r = false.
Proof using. intros E. unfold has_encoder_inputs, num_encoder_inputs. by rewrite E. Qed.

(** The request at the cursor was charged for its tokens. *)
Lemma run_charge idx s st rid x n bs st' :
  run_inv idx s st → running s !! idx = Some rid → requests s !! rid = Some x →
  1 ≤ n → num_computed_tokens (req x) + n ≤ mml →
  kv_slots (kv_cache_manager s) rid (num_computed_tokens (req x) + n) →
  n ≤ token_budget st → n + draft_slots cfg ≤ input_budget st →
  charged cfg rid n bs st st' → scheduled_spec_decode_tokens st' = scheduled_spec_decode_tokens st →
  scheduled_new_reqs st' = [] ∧ scheduled_resumed_reqs st' = [] →
  run_inv (S idx) s st'.
Proof using.
  intros Hru Hidx Hx Hn Hm Hs Ht Hi Hc Esp Hl. pose proof (cursor_fresh _ _ _ _ Hru Hidx) as Hf.
  pose proof Hru as [H1 H2 H3 H4 H5]. split; try done.
  - by eapply balanced_charge.
  - intros r k Hin. rewrite (charged_given cfg budget _ _ _ _ _ H2 Hc Hf) in Hin.
    unfold drafts. rewrite Esp.
    apply elem_of_app in Hin as [Hin|Hin]; [by apply H3|]. apply list_elem_of_singleton in Hin as [= -> ->].
    split; [done|]. exists x. split_and!; try done.
    destruct (scheduled_spec_decode_tokens st !! rid) eqn:Ed; [by destruct Hf; apply (ba_spec _ _ _ H2); eexists|].
    pose proof (sv_computed _ _ _ _ (rk_serve _ _ (si_req _ _ _ H1 rid x Hx))). unfold zlen. simpl. lia.
  - intros r. rewrite (cg_lists _ _ _ _ _ _ Hc), elem_of_cons. intros [->|Hin].
    + exists idx. split; [lia|done].
    + destruct (H4 r Hin) as (j & Hj & Hrj). exists j. split; [lia|done].
Qed.

Lemma run_spec_tokens idx s st rid n :
  run_inv (S idx) s st → rid ∈ running s → (rid, n) ∈ num_scheduled_tokens st →
  wp (schedule_spec_tokens rid n st) (λ st' s', run_inv (S idx) s' st' ∧ running s' = running s) s.
Proof using.
  intros Hru Hr Hgiven. pose proof Hru as [H1 H2 H3 H4 H5].
  destruct (si_running _ _ _ H1 rid Hr) as (x & Hx & Hst & Hsl).
  unfold schedule_spec_tokens. apply wp_bind. eapply wp_lookup_req; [exact Hx|].
  destruct (spec_token_ids (req x)) as [|t ts] eqn:Es; [by wp_steps|].
  unfold assign, update_req. wp_steps. split; [|done].
  assert (inv cfg [] (set_requests (alter (set_req (set_spec [])) rid (requests s)) s)) as Hi.
  { destruct (si_req _ _ _ H1 rid x Hx) as [K1 [V1 V2 V3 V4 V5] K3 K4 K5].
    apply (inv_alter cfg [] s rid _ x H1 Hx); try done.
    intros Hq. by destruct (inv_not_queued cfg [] s rid H1 Hr). }
  assert (grants (set_requests (alter (set_req (set_spec [])) rid (requests s)) s) st) as Hg.
  { apply (grants_frame s); [done..|]. intros r y _ Hy. simpl. rewrite lookup_alter. case_decide as E.
    - subst r. rewrite Hy. by exists (set_req (set_spec []) y).
    - by exists y. }
  set (k := n + num_computed_tokens (req x) - num_tokens (req x) - num_output_placeholders x).
  destruct (Z.ltb_spec 0 k) as [Hk|]; [|by split].
  pose proof (given_scheduled st rid n H2 Hgiven) as Hsch. split; try done.
  - destruct H2 as [? ? ? ? ? ? B7]. split; try done. simpl. intros r. rewrite lookup_insert.
    case_decide as E; [by subst|]. apply B7.
  - intros r m Hin. destruct (Hg r m Hin) as (Hm1 & y & Hy & Hy1 & Hy2 & Hy3). split; [done|]. exists y.
    split_and!; try done. unfold drafts. simpl. rewrite lookup_insert. case_decide as E; [|exact Hy3]. subst r.
    simpl in Hy. rewrite lookup_alter_eq, Hx in Hy. injection Hy as <-. simpl.
    assert (m = n) as ->.
    { assert (NoDup (num_scheduled_tokens st).*1) as Hnd by (rewrite (ba_ids _ _ _ H2); apply H2).
      pose proof (od_get_in _ _ _ Hnd Hin). pose proof (od_get_in _ _ _ Hnd Hgiven). congruence. }
    destruct (si_req _ _ _ H1 rid x Hx) as [K1 [V1 V2 V3 V4 V5] K3 K4 K5].
    destruct (Z.ltb_spec k (zlen (t :: ts))); [rewrite zlen_py_slice by lia|]; lia.
Qed.

Lemma visit_running_spec defer idx s st :
  run_inv idx s st → (idx < length (running s))%nat →
  wp (visit_running sha256 use_int cfg iter_order defer idx st)
    (λ r s', match r.2 with
             | Break st' => ∃ idx', run_inv idx' s' st'
             | Continue st' => run_inv r.1 s' st'
                 ∧ (length (running s') - r.1 < length (running s) - idx)%nat
             end) s.
Proof using Hcfg Hiter.
  intros Hru Hlt. pose proof Hru as [H1 H2 H3 H4 H5]. unfold visit_running. wp_steps.
  destruct (lookup_lt_is_Some_2 (running s) idx Hlt) as [rid Hidx].
  eapply wp_lift_option; [exact Hidx|]. destruct (Z.leb_spec (input_budget st) (draft_slots cfg)).
  { wp_steps. by exists idx. }
  assert (rid ∈ running s) as Hr by (by eapply list_elem_of_lookup_2).
  destruct (si_running _ _ _ H1 rid Hr) as (x & Hx & Hst & Hsl).
  destruct (si_req _ _ _ H1 rid x Hx) as [K1 K2 K3 K4].
  assert (run_inv (S idx) s st) as Hskip.
  { split; try done. intros r Hin. destruct (H4 r Hin) as (j & ? & ?). exists j. split; [lia|done]. }
  apply wp_bind. eapply wp_lookup_req; [exact Hx|]. destruct (passed_over s defer x).
  { wp_steps. split; [done|]. simpl. lia. }
  rewrite (text_no_inputs _ K3). wp_steps.
  set (n := _reserve_prefill_lookahead _ _ _ _). destruct (Z.eqb_spec n 0) as [|Hn].
  { wp_steps. split; [done|]. simpl. lia. }
  destruct (running_tokens_bound cfg mml x st n Hcfg eq_refl Hn) as (N1 & N2 & N3 & N4).
  apply wp_bind. eapply wp_mono; [by apply (allocate_or_preempt_spec _ idx rid x n s st); [..|lia]|].
  simpl. intros [[res idx'] st1] s1 [A1 A2 [A3 A3'] A4]. simpl in *. destruct res as [bs|].
  2: { wp_steps. by exists idx'. }
  destruct A4 as (B1 & B2 & B3); [by eexists|]. apply wp_bind.
  assert (rid ∈ running s1) as Hr1 by (by eapply list_elem_of_lookup_2).
  destruct (ru_lists _ _ _ A1) as [L1 L2].
  eapply wp_mono; [apply run_spec_tokens; [|done|]|].
  { eapply (run_charge idx' s1 st1 rid x n bs); try done; [lia|lia|].
    split; simpl; try done. unfold scheduled. simpl. rewrite L1, L2. simpl. by rewrite Permutation_app_comm. }
  { simpl. rewrite od_set_fresh; [apply elem_of_app; right; by left|].
    rewrite (ba_ids _ _ _ (ru_bal _ _ _ A1)). by apply (cursor_fresh idx' s1 st1). }
  simpl. intros st2 s2 [Hru2 Er]. wp_steps. split; [done|]. simpl. rewrite Er.
  apply lookup_lt_Some in B1. lia.
Qed.

Lemma schedule_running_spec fuel defer idx s st :
  run_inv idx s st → (length (running s) - idx < fuel)%nat →
  wp (schedule_running sha256 use_int cfg iter_order fuel defer idx st)
    (λ st' s', ∃ idx', run_inv idx' s' st') s.
Proof using Hcfg Hiter.
  revert idx s st. induction fuel as [|fuel IH]; intros idx s st Hru Hf; [lia|]. simpl. wp_steps.
  destruct (bool_decide (idx < length (running s))%nat && (0 <? token_budget st)) eqn:E.
  2: { wp_steps. by exists idx. }
  apply andb_prop in E as [Hlt%bool_decide_eq_true_1 _]. wp_steps.
  eapply wp_mono; [by apply visit_running_spec|]. simpl. intros [idx' [st'|st']] s' Hr; simpl in Hr.
  - destruct Hr as [Hru' Hless]. apply IH; [done|lia].
  - by wp_steps.
Qed.
End running.
