(* ===== verification/SchedulerWaiting.v ===== *)
(** The second part of a scheduling step: admitting requests from the waiting queues. *)

From S2P Require Import Prelude MathUtils Request BlockHash FreeQueue BlockPool Managers.
From S2P Require Import Coordinator KVCacheManager EncoderCache EncoderCacheFacts RequestQueue.
From S2P Require Import RequestQueueFacts SchedUtils KVCacheService SchedulerState Scheduler.
From S2P Require Import SchedulerQueues SchedulerInv SchedulerSteps SchedulerRunning.

Set Warnings "-level-tolerance,-clear-no-such-hyp".

Section waiting.
Context {sha256 : bytes → bytes} {use_int : bool} {mml hbs : Z} {events : bool}.
Context `{KV : !KVService sha256 use_int mml hbs events} (cfg : SchedulerConfig).
Context (iter_order : gset Z → list Z) (Hiter : ∀ X, iter_order X ≡ₚ elements X).
Context (grammar : string → Grammar) (Hcfg : cfg_ok mml cfg) (budget : Z).
Implicit Types (s : Scheduler) (rid : string) (x : SReq) (st : Step) (ex : list string).

#[local] Abbreviation req_ok := (SchedulerInv.req_ok (mml := mml) (hbs := hbs) (events := events)).

Definition aside st : list string := qids (step_skipped_waiting st).
Definition queue_of (from_waiting : bool) s : RequestQueue (A := string) :=
  if from_waiting then waiting s else skipped_waiting s.
Definition left s : nat := (length (qids (waiting s)) + length (qids (skipped_waiting s)))%nat.

Record wait_inv s st : Prop := {
  wa_inv : inv cfg (aside st) s;
  wa_bal : balanced cfg budget st;
  wa_grants : grants (KV := KV) s st;
  wa_running : ∀ rid, rid ∈ scheduled st → rid ∈ running s;
  wa_aside : queue_wf (policy cfg) s (step_skipped_waiting st);
}.

(** ** The queues *)

Lemma select_spec ex s :
  inv cfg ex s → queue_bool (waiting s) || queue_bool (skipped_waiting s) = true →
  ∃ b, _select_waiting_queue_for_scheduling cfg s = inr (Some b) ∧ qids (queue_of b s) ≠ [].
Proof using.
  intros H Hq. unfold _select_waiting_queue_for_scheduling.
  pose proof (queue_bool_iff (waiting s)) as Hw. pose proof (queue_bool_iff (skipped_waiting s)) as Hs.
  destruct (queue_bool (waiting s)), (queue_bool (skipped_waiting s)); try done; destruct (policy cfg) eqn:Ep; simpl;
    try (exists true; split; [done|by apply Hw]); try (exists false; split; [done|by apply Hs]).
  destruct (peek_pop (policy cfg) s (waiting s)) as (a & q & -> & _); [apply H|by apply Hw|].
  destruct (peek_pop (policy cfg) s (skipped_waiting s)) as (b & q' & -> & _); [apply H|by apply Hs|].
  simpl. exists (key_lt s a b). split; [done|]. destruct (key_lt s a b); simpl; [by apply Hw|by apply Hs].
Qed.

(** Popping the request that was peeked. *)
Lemma pop_spec ex s b rid :
  queue_wf (policy cfg) s (waiting s) → queue_wf (policy cfg) s (skipped_waiting s) →
  peek_request (queue_of b s) = inr rid → qids (queue_of b s) ≠ [] →
  wp (pop_from b) (λ r s', ∃ w sk, s' = set_queues w sk s
    ∧ queue_wf (policy cfg) s w ∧ queue_wf (policy cfg) s sk
    ∧ queued ex s ≡ₚ rid :: queued ex s' ∧ left s = S (left s')) s.
Proof using.
  intros Hw Hsk Hp Hne. unfold pop_from. wp_steps. fold (queue_of b s).
  destruct (peek_pop (policy cfg) s (queue_of b s)) as (rid' & q & Hp' & -> & Hq & Hperm); [|done|].
  { by destruct b. }
  assert (rid' = rid) as -> by congruence. eapply wp_lift_result; [done|]. wp_steps.
  apply Permutation_length in Hperm as Hlen. simpl in Hlen.
  destruct b; simpl in *; eexists _, _; (split; [done|]); unfold queued, left; simpl; (split_and!; [..|lia]).
  - done.
  - done.
  - by rewrite Hperm.
  - done.
  - done.
  - rewrite Hperm. simpl. symmetry. apply Permutation_middle.
Qed.

Lemma skip_spec s st b rid :
  wait_inv s st → peek_request (queue_of b s) = inr rid → qids (queue_of b s) ≠ [] →
  wp (skip_request b rid st) (λ f s', ∃ st', f = Continue st' ∧ wait_inv s' st' ∧ left s = S (left s')) s.
Proof using.
  intros [H1 H2 H3 H4 H5] Hp Hne. unfold skip_request. apply wp_bind.
  eapply wp_mono; [by apply (pop_spec (aside st) s b rid); [apply H1|apply H1|..]|]. simpl. intros _ s' (w & sk & -> & Hw & Hsk & Hperm & Hleft). wp_steps.
  destruct (prepend_wf (policy cfg) s (step_skipped_waiting st) rid H5) as (q & Eq & Hq & Hpq).
  eapply wp_lift_result; [exact Eq|]. wp_steps. eexists. split; [done|]. split; [|done]. split; simpl; try done.
  - apply (inv_lists cfg (aside st) _ s); try done. unfold queued, aside in *. simpl in *.
    rewrite Hpq, Hperm, !app_assoc. by rewrite <-Permutation_middle.
  - by destruct H2.
Qed.

(** ** The request under consideration *)

Lemma queued_out s st rid : wait_inv s st → rid ∈ queued (aside st) s → rid ∉ running s ∧ rid ∉ scheduled st.
Proof using.
  intros [H1 H2 H3 H4 H5] Hq. assert (rid ∉ running s) as Hr.
  { intros Hr. by eapply inv_not_queued. }
  split; [done|]. intros Hs. by apply Hr, H4.
Qed.

Lemma wait_alter s st rid x f :
  wait_inv s st → rid ∈ queued (aside st) s → requests s !! rid = Some x → req_ok rid (f x) →
  priority (req (f x)) = priority (req x) → arrival_time (req (f x)) = arrival_time (req x) →
  waits (f x) → wait_inv (set_requests (alter f rid (requests s)) s) st.
Proof using.
  intros Hwi Hq Hx Hok Ep Ea Hw. destruct (queued_out _ _ _ Hwi Hq) as [Hr Hs].
  destruct Hwi as [H1 H2 H3 H4 H5]. split; try done.
  - by apply (inv_alter cfg _ s rid f x).
  - apply (grants_frame cfg budget s); [done..|]. intros rid' y Hin Hy. exists y. simpl.
    rewrite lookup_alter_ne by (intros ->; done). done.
  - eapply queue_wf_rank; [|exact H5]. intros rid' _. apply rank_alter. intros y Hy. by simplify_eq.
Qed.

Lemma wait_kvm s st rid k :
  wait_inv s st → rid ∈ queued (aside st) s → kv_ready k → kv_keeps rid (kv_cache_manager s) k →
  kv_unknown k rid → wait_inv (set_kvm k s) st.
Proof using.
  intros Hwi Hq Hk Hkeep Hu. destruct (queued_out _ _ _ Hwi Hq) as [Hr Hs].
  destruct Hwi as [H1 H2 H3 H4 H5]. split; try done.
  - by apply (inv_kvm cfg _ s rid).
  - apply (grants_frame cfg budget s); [done..|]. intros rid' y Hin Hy. exists y.
    split_and!; [done..|]. simpl. apply Hkeep. by intros ->.
Qed.

(** The request moves from a queue to [running]. *)
Lemma inv_start ex s k w sk rid x f :
  inv cfg ex s → kv_ready k → kv_keeps rid (kv_cache_manager s) k → requests s !! rid = Some x →
  queue_wf (policy cfg) s w → queue_wf (policy cfg) s sk →
  queued ex s ≡ₚ rid :: qids w ++ qids sk ++ ex → req_ok rid (f x) →
  priority (req (f x)) = priority (req x) → arrival_time (req (f x)) = arrival_time (req x) →
  runs k rid (f x) → zlen (running s) < max_num_running_reqs cfg →
  inv cfg ex (set_requests (alter f rid (requests s))
    (set_running (running s ++ [rid]) (set_queues w sk (set_kvm k s)))).
Proof using.
  intros [H1 H2 H3 H4 H5 H6 H7 H8 H9 H10 H11] Hk Hkeep Hx Hw Hsk Hp Hok Ep Ea Hruns Hmax.
  assert (∀ rid', rank (set_requests (alter f rid (requests s)) s) rid' = rank s rid') as Hrank.
  { intros rid'. apply rank_alter. intros y Hy. by simplify_eq. }
  assert (NoDup ((running s ++ [rid]) ++ qids w ++ qids sk ++ ex)) as Hnd.
  { rewrite <-app_assoc. simpl. by rewrite <-Hp. }
  assert (rid ∉ running s ∧ rid ∉ qids w ++ qids sk ++ ex) as [Hr1 Hr2].
  { rewrite <-app_assoc in Hnd. simpl in Hnd. rewrite <-Permutation_middle in Hnd.
    apply NoDup_cons in Hnd as [Hn _]. rewrite elem_of_app in Hn. clear -Hn. tauto. }
  split; simpl; try done.
  - intros rid' y. rewrite lookup_alter. case_decide as E; [|apply H3]. subst. rewrite Hx. by intros [= <-].
  - eapply queue_wf_rank; [|exact Hw]. intros rid' _. exact (Hrank rid').
  - eapply queue_wf_rank; [|exact Hsk]. intros rid' _. exact (Hrank rid').
  - intros rid'. rewrite elem_of_app, list_elem_of_singleton. intros [Hr| ->].
    + assert (rid' ≠ rid) as Hne by (by intros ->). destruct (H7 rid' Hr) as (y & Hy & Hs & Hsl). exists y.
      rewrite lookup_alter_ne by done. split; [done|]. split; [done|]. by apply Hkeep.
    + exists (f x). by rewrite lookup_alter_eq, Hx.
  - intros rid' Hq. assert (rid' ≠ rid) as Hne by (by intros ->).
    destruct (H8 rid') as (y & Hy & Hw' & Hu); [rewrite Hp; by right|]. exists y.
    rewrite lookup_alter_ne by done. split_and!; [done..|]. by apply Hkeep.
  - intros rid'. rewrite lookup_alter. case_decide as E; [subst; by rewrite Hx|].
    intros Hn. apply Hkeep; [done|by apply H9].
  - intros rid' Hs. assert (is_Some (requests s !! rid')) as Hs'.
    { rewrite lookup_alter in Hs. case_decide; [|done]. subst. by eexists. }
    apply H10 in Hs'. rewrite elem_of_app, Hp, elem_of_cons in Hs'. unfold queued. simpl.
    rewrite !elem_of_app, list_elem_of_singleton. rewrite !elem_of_app in Hs'. clear -Hs'. tauto.
  - rewrite zlen_app. unfold zlen at 2. simpl. lia.
Qed.

(** ** Admission *)

Lemma wait_ids s st a b c d e : wait_inv s st → wait_inv (set_id_sets a b c d e s) st.
Proof using. intros [H1 H2 H3 H4 H5]. split; try done. by apply inv_ids. Qed.

(** The request runs and was charged for its tokens. *)
Lemma wait_charge s st k w sk rid x (n computed : Z) bs st' :
  let f := set_req (λ r, set_computed computed (become RUNNING r)) in
  let s' := set_requests (alter f rid (requests s))
              (set_running (running s ++ [rid]) (set_queues w sk (set_kvm k s))) in
  wait_inv s st → rid ∈ queued (aside st) s → requests s !! rid = Some x → inv cfg (aside st) s' →
  kv_keeps rid (kv_cache_manager s) k → kv_slots k rid (computed + n) → 1 ≤ n → computed + n ≤ mml →
  n ≤ token_budget st → n + draft_slots cfg ≤ input_budget st → charged cfg rid n bs st st' →
  zlen (drafts st' rid) ≤ computed + n →
  step_skipped_waiting st' = step_skipped_waiting st → wait_inv s' st'.
Proof using.
  intros f s' Hwi Hq Hx Hi Hkeep Hs Hn Hm Ht Hib Hc Hd Ea. destruct (queued_out _ _ _ Hwi Hq) as [Hr Hsch].
  destruct Hwi as [H1 H2 H3 H4 H5]. split.
  - unfold aside. by rewrite Ea.
  - by eapply balanced_charge.
  - intros r m Hin. rewrite (charged_given cfg budget _ _ _ _ _ H2 Hc Hsch) in Hin.
    apply elem_of_app in Hin as [Hin|Hin].
    + assert (r ≠ rid) as Hne by (intros ->; by apply Hsch; eapply given_scheduled).
      destruct (H3 r m Hin) as (Hm1 & y & Hy & Hy1 & Hy2 & Hy3). split; [done|]. exists y. simpl.
      rewrite lookup_alter_ne by done. unfold drafts. rewrite (cg_spec _ _ _ _ _ _ Hc) by done.
      split_and!; try done. by apply Hkeep.
    + apply list_elem_of_singleton in Hin as [= -> ->]. split; [done|]. exists (f x). simpl.
      by rewrite lookup_alter_eq, Hx.
  - intros r. rewrite (cg_lists _ _ _ _ _ _ Hc). simpl. rewrite elem_of_cons, elem_of_app, list_elem_of_singleton.
    intros [->|Hin]; [by right|left; by apply H4].
  - rewrite Ea. eapply queue_wf_rank; [|exact H5]. intros r _. apply (rank_alter s). intros y Hy. done.
Qed.

(** The steps after a successful allocation, from the state [s] before it. *)
Lemma start_spec s st b rid x n computed pad plan k :
  wait_inv s st → peek_request (queue_of b s) = inr rid → qids (queue_of b s) ≠ [] →
  requests s !! rid = Some x → rid ∈ queued (aside st) s →
  status (req x) = WAITING ∨ status (req x) = PREEMPTED →
  kv_ready k → kv_keeps rid (kv_cache_manager s) k → kv_slots k rid (computed + n) →
  1 ≤ n → 0 ≤ computed → computed + n ≤ mml →
  n ≤ token_budget st → n + draft_slots cfg ≤ input_budget st →
  zlen (running s) < max_num_running_reqs cfg → (pad = true → num_spec_tokens cfg ≤ computed + n) →
  wp (start_request cfg b rid n computed pad [] plan st)
    (λ st' s', wait_inv s' st' ∧ left s = S (left s')) (set_kvm k s).
Proof using Hcfg.
  intros Hwi Hp Hne Hx Hq Hst Hk Hkeep Hs Hn Hc Hm Ht Hi Hmax Hpad. destruct (queued_out _ _ _ Hwi Hq) as [_ Hfresh].
  pose proof Hwi as [H1 H2 H3 H4 H5]. unfold start_request. apply wp_bind.
  eapply wp_mono; [apply (pop_spec (aside st) (set_kvm k s) b rid); [apply H1|apply H1|done..]|].
  simpl. intros _ s' (w & sk & -> & Hw & Hsk & Hperm & Hleft). wp_steps.
  eapply wp_lookup_req; [exact Hx|]. wp_steps.
  assert (inv cfg (aside st) (set_requests
    (alter (set_req (λ r, set_computed computed (become RUNNING r))) rid (requests s))
    (set_running (running s ++ [rid]) (set_queues w sk (set_kvm k s))))) as Hi2.
  { destruct (si_req _ _ _ H1 rid x Hx) as [K1 [V1 V2 V3 V4 V5] K3 K4].
    apply (inv_start (aside st) s k w sk rid x); try done.
    - split; try done. split; try done. simpl. lia.
    - split; [done|]. eapply kv_slots_le; [done..|]. simpl. lia. }
  assert (∀ new res bs, (new ++ res) ++ scheduled_running_reqs st ≡ₚ rid :: scheduled st →
    let st1 := charge cfg rid n bs (set_lists new res (scheduled_running_reqs st) (preempted_reqs st) st) in
    ∀ st2, st2 = (if pad then set_spec_tokens (<[rid := replicate (Z.to_nat (num_spec_tokens cfg)) (-1)]>
                               (scheduled_spec_decode_tokens st1)) st1 else st1) →
    wait_inv (set_requests
      (alter (set_req (λ r, set_computed computed (become RUNNING r))) rid (requests s))
      (set_running (running s ++ [rid]) (set_queues w sk (set_kvm k s)))) st2) as Hfin.
  { intros new res bs Hl st1 st2 Hst2.
    apply (wait_charge s st k w sk rid x n computed bs st2); try done.
    - split; rewrite Hst2; destruct pad; simpl; try done; try (unfold scheduled; simpl; by rewrite app_assoc).
      intros rid' Hne'. by rewrite lookup_insert_ne.
    - rewrite Hst2. unfold drafts. destruct pad; simpl.
      + rewrite lookup_insert_eq. simpl. unfold zlen. rewrite length_replicate.
        specialize (Hpad eq_refl). pose proof (cf_spec _ _ Hcfg). lia.
      + destruct (scheduled_spec_decode_tokens st !! rid) eqn:Ed; [by destruct Hfresh; apply (ba_spec _ _ _ H2); eexists|].
        unfold zlen. simpl. lia.
    - rewrite Hst2. by destruct pad. }
  rewrite (cf_loras _ _ Hcfg).
  unfold assign, update_req. destruct Hst as [Est|Est]; rewrite Est; wp_steps; simpl;
    apply wp_when; intros _; wp_steps; (split; [|exact Hleft]); try apply wait_ids;
    eapply Hfin; try done; unfold scheduled.
  all: rewrite <-!app_assoc; simpl; symmetry.
  all: try apply Permutation_middle; rewrite !app_assoc; apply Permutation_middle.
Qed.

(** A request that is not in the cache yet: the hit is shorter than the request. *)
Lemma cached_prefix_spec s st rid x :
  wait_inv s st → rid ∈ queued (aside st) s → requests s !! rid = Some x → waits x →
  wp (cached_prefix sha256 use_int rid)
    (λ r s', ∃ bd, s' = set_requests (alter (set_req (set_boundary bd)) rid (requests s)) s
       ∧ wait_inv s' st ∧ r.2 = true ∧ kv_found (kv_cache_manager s) (num_tokens (req x)) r.1.1 r.1.2) s.
Proof using.
  intros Hwi Hq Hx Hw. pose proof Hwi as [H1 _ _ _ _].
  destruct (si_req _ _ _ H1 rid x Hx) as [K1 K2 K3 K4].
  destruct (si_waiting _ _ _ H1 rid Hq) as (x' & Hx' & _ & Hu). assert (x' = x) as -> by congruence.
  unfold cached_prefix. apply wp_bind. eapply wp_lookup_req; [exact Hx|].
  rewrite (wt_start _ Hw). simpl. apply wp_bind, wp_on_kvm.
  eapply wp_mono; [apply (kv_lookup (kv_cache_manager s) (req x) (si_kv _ _ _ H1) K2 (wt_start _ Hw)); by rewrite K1|].
  simpl. intros [[blocks n] bd] k [-> Hf]. simpl in *. pose proof (kv_found_bounds _ _ _ _ Hf) as Hb.
  replace (set_kvm (kv_cache_manager s) s) with s by (by destruct s).
  unfold assign, update_req. wp_steps. apply wp_assert; [apply Z.leb_le; lia|]. wp_steps.
  set (s' := set_requests _ _).
  assert (wait_inv s' st) as Hwi'.
  { apply (wait_alter s st rid x); try done.
    - by destruct K2.
    - by destruct Hw. }
  apply wp_when; intros Hp; [apply wp_assert|]; [|wp_steps; by exists bd..].
  apply andb_prop in Hp as [_ Hp%Z.leb_le]. apply Z.leb_le. pose proof (wt_prompt _ Hw Hp). lia.
Qed.

Lemma promote_blocked_spec s st rid x :
  wait_inv s st → rid ∈ queued (aside st) s → requests s !! rid = Some x → waits x →
  wp (if _is_blocked_waiting_status (status (req x))
      then _try_promote_blocked_waiting_request grammar rid else mret true)
    (λ ok s', wait_inv s' st ∧ waiting s' = waiting s ∧ skipped_waiting s' = skipped_waiting s
       ∧ running s' = running s
       ∧ (ok = true → ∃ x', requests s' !! rid = Some x' ∧ waits x'
            ∧ num_stale_output_tokens x' = num_stale_output_tokens x ∧ drop_stale_output x' = drop_stale_output x
            ∧ lora_request (req x') = lora_request (req x)
            ∧ (status (req x') = WAITING ∨ status (req x') = PREEMPTED))) s.
Proof using.
  intros Hwi Hq Hx Hw. pose proof Hw as [W1 W2 W3]. destruct (status (req x)) eqn:Est; simpl; try done.
  - wp_steps. split_and!; [done..|]. intros _. exists x. rewrite Est. split_and!; try done. by left.
  - unfold _try_promote_blocked_waiting_request. apply wp_bind. eapply wp_lookup_req; [exact Hx|].
    rewrite Est. destruct (grammar rid); wp_steps.
    + done.
    + split_and!; try done. by apply wait_ids.
    + unfold assign, update_req. wp_steps. pose proof Hwi as [H1 _ _ _ _].
      destruct (si_req _ _ _ H1 rid x Hx) as [K1 K2 K3 K4]. split_and!; try done.
      * apply (wait_alter s st rid x); try done. by destruct K2.
      * intros _. exists (set_req (become WAITING) x). simpl. rewrite lookup_alter_eq, Hx.
        split_and!; try done. by left.
  - wp_steps. split_and!; [done..|]. intros _. exists x. rewrite Est. split_and!; try done. by right.
Qed.

(** ** The loop *)

(** What one round leaves. *)
Definition round s (flow : Flow) s' : Prop :=
  match flow with
  | Break st' => wait_inv s' st'
  | Continue st' => wait_inv s' st' ∧ left s = S (left s')
  end.

Lemma keeps_same rid k k1 k2 : kv_keeps rid k k1 → kv_same k1 k2 → kv_keeps rid k k2.
Proof using. intros Hk (_ & Hu & Hs) rid' Hne. destruct (Hk rid' Hne) as [Hk1 Hk2]. split; [auto|]. intros n ?. auto. Qed.

Lemma waiting_args_ok s blocks n computed enc :
  1 ≤ n → computed + n ≤ mml → more_tokens mml (waiting_args cfg s blocks n computed enc) computed n.
Proof using Hcfg. intros. split; simpl; try done. apply (cf_lookahead _ _ Hcfg). Qed.

Lemma admit_spec s st b rid x defer :
  wait_inv s st → peek_request (queue_of b s) = inr rid → qids (queue_of b s) ≠ [] →
  requests s !! rid = Some x → rid ∈ queued (aside st) s → waits x →
  status (req x) = WAITING ∨ status (req x) = PREEMPTED →
  0 < token_budget st → draft_slots cfg < input_budget st →
  zlen (running s) < max_num_running_reqs cfg →
  wp (admit_request sha256 use_int cfg iter_order defer b rid st) (λ flow s', round s flow s') s.
Proof using Hcfg Hiter.
  intros Hwi Hp Hne Hx Hq Hw Hst Ht Hi Hmax. unfold admit_request. apply wp_bind.
  eapply wp_mono; [by apply (cached_prefix_spec s st rid x)|].
  simpl. intros [[blocks local] looked] s1 (bd & -> & Hwi1 & E & Hf). simpl in *. subst looked.
  pose proof (kv_found_bounds _ _ _ _ Hf) as Hb. set (s1 := set_requests _ s) in *.
  pose proof Hwi as [H1 _ _ _ _]. destruct (si_req _ _ _ H1 rid x Hx) as [K1 K2 K3 K4].
  pose proof (sv_tokens _ _ _ _ K2) as Htok.
  set (x1 := set_req (set_boundary bd) x).
  assert (requests s1 !! rid = Some x1) as Hx1 by (simpl; by rewrite lookup_alter_eq, Hx).
  apply wp_bind. eapply wp_lookup_req; [exact Hx1|]. apply wp_bind.
  destruct (waiting_tokens_spec cfg mml (req x1) local local defer st Hcfg Hb) as (want & -> & Hwant); [apply Htok|done|done|].
  eapply wp_lift_result; [done|]. destruct want as [[n0 pad]|]; [|by wp_steps].
  destruct (Hwant n0 pad eq_refl) as (N1 & N2 & N3 & N4).
  assert (has_encoder_inputs (req x1) = false) as Ei by (by apply text_no_inputs).
  rewrite Ei, andb_false_r. wp_steps.
  set (n := _reserve_prefill_lookahead _ _ _ _). destruct (Z.eqb_spec n 0) as [|Hn]; [by wp_steps|].
  pose proof (reserve_bound cfg (req x1) local n0 : n ≤ _). pose proof (reserve_nonneg cfg (req x1) local n0 : 0 ≤ n).
  wp_steps. eapply wp_lift_result; [done|]. wp_steps. apply wp_on_kvm.
  assert (rid ∈ queued (aside st) s1) as Hq1 by done.
  eapply wp_mono; [apply (kv_admit (kv_cache_manager s) (req x1) (waiting_args cfg s1 blocks n local 0) blocks local n)|].
  { apply H1. }
  { by destruct K2. }
  { apply (wt_start _ Hw). }
  { destruct (si_waiting _ _ _ H1 rid Hq) as (_ & _ & _ & Hu). simpl. by rewrite K1. }
  { done. }
  { done. }
  { done. }
  { apply waiting_args_ok; lia. }
  change (request_id (req x1)) with (request_id (req x)). rewrite K1.
  simpl. intros res k (Hk & Hkeep & Hres). destruct res as [bs|].
  - apply wp_bind. simpl. apply wp_on_kvm. eapply wp_mono; [apply (kv_record k (req x1) local Hk)|].
    simpl. intros _ k2 Hsame. pose proof Hsame as (Hk2 & _ & Hsl).
    apply wp_bind. change (set_kvm k2 (set_kvm k s1)) with (set_kvm k2 s1).
    eapply wp_mono; [apply (start_spec s1 st b rid x1 n local pad (encoder_compute_budget st) k2); try done; try lia|].
    + by eapply keeps_same.
    + by apply Hsl.
    + intros E. destruct (N4 E) as [-> Hone]. unfold n, _reserve_prefill_lookahead. cbv zeta.
      rewrite (proj2 (Z.ltb_ge 0 _)) by (rewrite Hone; pose proof (cf_spec _ _ Hcfg); lia). simpl. lia.
    + simpl. intros st' s' Hr. wp_steps. exact Hr.
  - wp_steps. simpl. by apply (wait_kvm s1 st rid k).
Qed.

Lemma visit_waiting_spec s st defer :
  wait_inv s st → queue_bool (waiting s) || queue_bool (skipped_waiting s) = true → 0 < token_budget st →
  wp (visit_waiting sha256 use_int cfg iter_order grammar defer st) (λ flow s', round s flow s') s.
Proof using Hcfg Hiter.
  intros Hwi Hqb Ht. pose proof Hwi as [H1 _ _ _ _]. unfold visit_waiting. wp_steps.
  destruct (Z.leb_spec (input_budget st) (draft_slots cfg)); [by wp_steps|].
  destruct (Z.leb_spec (max_num_running_reqs cfg) (zlen (running s))); [by wp_steps|]. wp_steps.
  destruct (select_spec _ s H1 Hqb) as (b & -> & Hne). eapply wp_lift_result; [done|]. wp_steps.
  eapply wp_lift_option; [done|]. unfold peek_from. wp_steps. fold (queue_of b s).
  destruct (peek_pop (policy cfg) s (queue_of b s)) as (rid & q & Hp & _ & _ & Hperm); [destruct b; apply H1|done|].
  eapply wp_lift_result; [exact Hp|].
  assert (rid ∈ queued (aside st) s) as Hq.
  { assert (rid ∈ qids (queue_of b s)) as Hin by (rewrite Hperm; by left). unfold queued.
    rewrite !elem_of_app. destruct b; simpl in Hin; tauto. }
  destruct (si_waiting _ _ _ H1 rid Hq) as (x & Hx & Hw & _).
  wp_steps. eapply wp_lookup_req; [exact Hx|]. wp_steps.
  eapply wp_mono; [by apply (promote_blocked_spec s st rid x)|].
  simpl. intros ok s1 (Hwi1 & Ew & Es & Er & Hok).
  assert (left s = left s1) as El by (unfold left; by rewrite Ew, Es).
  assert (queue_of b s1 = queue_of b s) as Eq by (destruct b; simpl; done).
  assert (wp (skip_request b rid st) (λ flow s', round s flow s') s1) as Hskip.
  { eapply wp_mono; [by apply (skip_spec s1 st b rid); rewrite ?Eq|]. simpl.
    intros flow s' (st' & -> & Hwi' & Hleft). split; [done|]. congruence. }
  destruct ok; simpl; [|done]. destruct (_ && _); [done|]. destruct (exceeds_loras _ _ _); [done|].
  destruct (Hok eq_refl) as (x1 & Hx1 & Hw1 & _ & _ & _ & Hst1).
  eapply wp_mono; [apply (admit_spec s1 st b rid x1 defer); try done; rewrite ?Eq, ?Er; try done|].
  { unfold queued in *. by rewrite Ew, Es. }
  simpl. intros [st'|st'] s'; simpl; [|done]. by rewrite El.
Qed.

Lemma schedule_waiting_spec fuel s st defer :
  wait_inv s st → (left s < fuel)%nat →
  wp (schedule_waiting sha256 use_int cfg iter_order grammar fuel defer st) (λ st' s', wait_inv s' st') s.
Proof using Hcfg Hiter.
  revert s st. induction fuel as [|fuel IH]; intros s st Hwi Hf; [lia|]. simpl. wp_steps.
  destruct (_ && _) eqn:E; [|by wp_steps]. apply andb_prop in E as [Hqb Ht%Z.ltb_lt]. apply wp_bind.
  eapply wp_mono; [by apply visit_waiting_spec|]. simpl. intros [st'|st'] s' Hr; simpl in Hr.
  - destruct Hr as [Hwi' Hl]. apply IH; [done|lia].
  - by wp_steps.
Qed.
End waiting.
