(* ===== verification/SchedulerSchedule.v ===== *)
(** A whole scheduling step: both parts, the output for the workers, and the update of the
    requests. *)

From S2P Require Import Prelude OrderedDict MathUtils Request BlockHash FreeQueue BlockPool Managers.
From S2P Require Import Coordinator KVCacheManager EncoderCache EncoderCacheFacts RequestQueue.
From S2P Require Import RequestQueueFacts SchedUtils KVCacheService SchedulerState Scheduler.
From S2P Require Import SchedulerQueues SchedulerInv SchedulerSteps SchedulerRunning SchedulerWaiting.

Set Warnings "-level-tolerance,-clear-no-such-hyp".

Lemma wp_map_each_read {St A B} (f : A → M St B) (l : list A) (σ : St) :
  (∀ a, a ∈ l → wp (f a) (λ _ σ', σ' = σ) σ) → wp (map_each l f) (λ _ σ', σ' = σ) σ.
Proof.
  induction l as [|a l IH]; intros Hf; simpl; [by wp_steps|].
  apply wp_bind. eapply wp_mono; [apply Hf; by left|]. simpl. intros b σ' ->.
  apply wp_bind. eapply wp_mono; [apply IH; intros a' Ha; apply Hf; by right|]. simpl. intros bs σ' ->. by wp_steps.
Qed.

Section schedule.
Context {sha256 : bytes → bytes} {use_int : bool} {mml hbs : Z} {events : bool}.
Context `{KV : !KVService sha256 use_int mml hbs events} (cfg : SchedulerConfig).
Context (iter_order : gset Z → list Z) (Hiter : ∀ X, iter_order X ≡ₚ elements X).
Context (grammar : string → Grammar) (Hcfg : cfg_ok mml cfg) (budget : Z).
Implicit Types (s : Scheduler) (rid : string) (x : SReq) (st : Step).

(** The plan of a step: who runs how many tokens. *)
Record plan_ok s st : Prop := {
  po_inv : sched_inv cfg s;
  po_bal : balanced cfg budget st;
  po_grants : grants (KV := KV) s st;
  po_running : ∀ rid, rid ∈ scheduled st → rid ∈ running s;
}.

Lemma run_plan idx s st : run_inv cfg budget idx s st → plan_ok s st.
Proof using.
  intros [H1 H2 H3 H4 H5]. split; try done. intros rid Hin. destruct (H4 rid Hin) as (j & _ & Hj).
  by eapply list_elem_of_lookup_2.
Qed.

Lemma admit_waiting_spec s st defer :
  plan_ok s st → wp (admit_waiting sha256 use_int cfg iter_order grammar defer st) (λ st' s', plan_ok s' st') s.
Proof using Hcfg Hiter.
  intros Hp. pose proof Hp as [H1 H2 H3 H4]. unfold admit_waiting. wp_steps.
  destruct (_ && _); [|by wp_steps]. apply wp_bind.
  destruct (create_wf (policy cfg) s) as [Hcw Hce].
  eapply wp_mono; [apply (schedule_waiting_spec cfg iter_order Hiter grammar Hcfg budget)|].
  { split; try done; simpl.
    - unfold aside. simpl. by rewrite Hce.
    - by destruct H2. }
  { rewrite !queue_len_ids. unfold left, zlen. lia. }
  simpl. intros st' s' [W1 W2 W3 W4 W5]. wp_steps.
  assert (∀ s2, sched_inv cfg s2 → kv_cache_manager s2 = kv_cache_manager s' → requests s2 = requests s' →
    running s2 = running s' → plan_ok s2 st') as Hfin.
  { intros s2 Hi Ek Er Erun. split; try done; [|by rewrite Erun].
    apply (grants_frame cfg budget s'); [done..|]. intros rid y _ Hy. exists y. by rewrite Ek, Er. }
  assert (∀ s2, plan_ok s2 st' → plan_ok (if defer then s2
    else set_clock (current_step s2) (queue_bool (waiting s2)) (_pause_state s2) s2) st') as Hclock.
  { intros s2 [P1 P2 P3 P4]. destruct defer; split; try done. by apply inv_clock. }
  apply wp_when; intros Hq.
  - destruct (prepend_requests_wf (policy cfg) s' (skipped_waiting s') (step_skipped_waiting st')) as (q & Eq & Hqw & Hperm).
    { apply W1. }
    { done. }
    apply wp_bind. eapply wp_lift_result; [exact Eq|]. wp_steps. apply Hclock, Hfin; try done.
    apply (inv_lists cfg (aside st') [] s'); try done; [apply W1|].
    unfold queued. simpl. rewrite Hperm, app_nil_r. unfold aside. by rewrite (Permutation_app_comm (qids (skipped_waiting s'))).
  - wp_steps. apply Hclock, Hfin; try done.
    assert (aside st' = []) as Ea.
    { unfold aside. destruct (qids (step_skipped_waiting st')) as [|r l] eqn:E; [done|].
      assert (queue_bool (step_skipped_waiting st') = true) as Hb by (apply queue_bool_iff; by rewrite E). congruence. }
    by rewrite Ea in W1.
Qed.

(** ** The output *)

Lemma plan_request s st rid : plan_ok s st → rid ∈ scheduled st → is_Some (requests s !! rid).
Proof using.
  intros [H1 _ _ H4] Hin. destruct (si_running _ _ _ H1 rid (H4 rid Hin)) as (x & Hx & _). by eexists.
Qed.

Lemma new_request_data_spec s st rid :
  plan_ok s st → rid ∈ scheduled st → wp (new_request_data cfg st rid) (λ _ s', s' = s) s.
Proof using.
  intros Hp Hin. destruct (plan_request _ _ _ Hp Hin) as [x Hx].
  destruct (ba_blocks _ _ _ (po_bal _ _ Hp) rid Hin) as [bs Hbs].
  unfold new_request_data. wp_steps. eapply wp_lookup_req; [exact Hx|]. wp_steps.
  eapply wp_lift_option; [exact Hbs|]. wp_steps. eapply wp_lift_option; [done|]. by wp_steps.
Qed.

Lemma cached_data_spec s st run res :
  plan_ok s st → (∀ rid, rid ∈ run ++ res → rid ∈ scheduled st) →
  wp (_make_cached_request_data cfg st run res) (λ _ s', s' = s) s.
Proof using.
  intros Hp Hsub. unfold _make_cached_request_data.
  apply (wp_fold_each _ (λ _ _ s', s' = s)); [done|]. intros pre [i rid] post acc s' E ->.
  assert (rid ∈ scheduled st) as Hin.
  { apply Hsub. assert ((i, rid) ∈ imap pair (run ++ res)) as Hi by (rewrite E; apply elem_of_app; right; by left).
    apply elem_of_lookup_imap in Hi as (j & y & [= -> ->] & Hj). by eapply list_elem_of_lookup_2. }
  destruct (plan_request _ _ _ Hp Hin) as [x Hx].
  destruct (ba_blocks _ _ _ (po_bal _ _ Hp) rid Hin) as [bs Hbs].
  destruct (od_get_Some (num_scheduled_tokens st) rid) as [n Hn].
  { by rewrite (ba_ids _ _ _ (po_bal _ _ Hp)). }
  unfold cached_request. wp_steps. eapply wp_lookup_req; [exact Hx|]. wp_steps.
  destruct (use_pp cfg && negb (async_scheduling cfg)).
  - apply wp_bind. eapply wp_lift_option; [exact Hn|]. wp_steps.
    eapply wp_lift_option; [exact Hbs|]. by wp_steps.
  - wp_steps. eapply wp_lift_option; [exact Hbs|]. by wp_steps.
Qed.

Lemma scheduled_len s st : plan_ok s st → (length (scheduled st) ≤ length (running s))%nat.
Proof using.
  intros [_ H2 _ H4]. apply submseteq_length, NoDup_submseteq; [apply (ba_nodup _ _ _ H2)|done].
Qed.

Lemma inv_enc ex s e : inv cfg ex s → enc_idle e → inv cfg ex (set_encoder e s).
Proof using. by intros [] He. Qed.

Lemma freed_idle e :
  enc_idle e → wp enc_get_freed_mm_hashes (λ _ e', enc_idle e') e.
Proof using.
  intros He. unfold enc_get_freed_mm_hashes, on_encoder. destruct e as [m|m]; simpl in *.
  - by eexists _, _.
  - by eexists _, _.
Qed.

(** Changes of the caches that keep the plan. *)
Lemma plan_same s st k : plan_ok s st → kv_same (kv_cache_manager s) k → plan_ok (set_kvm k s) st.
Proof using.
  intros [H1 H2 H3 H4] Hk. split; try done; [by apply inv_same|].
  apply (grants_frame cfg budget s); [done..|]. intros rid y _ Hy. exists y. split_and!; [done..|].
  simpl. by apply Hk.
Qed.
Lemma plan_enc s st e : plan_ok s st → enc_idle e → plan_ok (set_encoder e s) st.
Proof using. intros [H1 H2 H3 H4] He. split; try done. by apply inv_enc. Qed.
Lemma plan_ids s st a b c d e : plan_ok s st → plan_ok (set_id_sets a b c d e s) st.
Proof using. intros [H1 H2 H3 H4]. split; try done. by apply inv_ids. Qed.

(** The books of the output. *)
Definition output_of st (out : SchedulerOutput) : Prop :=
  out_num_scheduled_tokens out = num_scheduled_tokens st
  ∧ total_num_scheduled_tokens out = sum_list (num_scheduled_tokens st).*2
  ∧ out_spec_decode_tokens out = scheduled_spec_decode_tokens st.

Lemma make_output_spec s st :
  plan_ok s st → budget ≤ max_num_scheduled_tokens cfg →
  wp (make_output cfg st) (λ out s', plan_ok s' st ∧ output_of st out) s.
Proof using Hcfg.
  intros Hp Hb. pose proof Hp as [H1 H2 H3 H4]. pose proof (scheduled_len _ _ Hp) as Hlen.
  destruct (ba_tokens _ _ _ H2) as [T1 T2], (ba_input _ _ _ H2) as [I1 I2].
  unfold make_output. wp_steps.
  apply wp_assert; [apply Z.leb_le; lia|]. wp_steps. apply wp_assert; [by apply Z.leb_le|]. wp_steps.
  apply wp_assert; [by apply Z.leb_le|]. wp_steps.
  apply wp_assert; [apply Z.leb_le, (si_max _ _ _ H1)|]. wp_steps.
  apply wp_assert.
  { apply Z.leb_le. unfold scheduled, zlen in *. rewrite !length_app in Hlen. lia. }
  apply wp_bind. eapply (wp_mono _ (λ _ s', plan_ok s' st)).
  { destruct (running s) as [|rid rs]; [by wp_steps|]. apply wp_on_kvm.
    eapply wp_mono; [apply (kv_common_prefix (kv_cache_manager s) rid (si_kv _ _ _ H1))|].
    simpl. intros _ k Hk. by apply plan_same. }
  clear s Hp H1 H3 H4 Hlen. simpl. intros common s Hp.
  destruct (if use_v2_model_runner cfg then _ else _) as [new_reqs resumed] eqn:En.
  assert (∀ rid, rid ∈ new_reqs → rid ∈ scheduled st) as Hnew.
  { intros rid. unfold scheduled. destruct (use_v2_model_runner cfg); injection En as <- <-; clear; set_solver. }
  assert (∀ rid, rid ∈ scheduled_running_reqs st ++ resumed → rid ∈ scheduled st) as Hres.
  { intros rid. unfold scheduled. destruct (use_v2_model_runner cfg); injection En as <- <-; clear; set_solver. }
  apply wp_bind. eapply wp_mono; [apply wp_map_each_read; intros rid Hin; by apply new_request_data_spec, Hnew|].
  simpl. intros new_data s' ->. apply wp_bind. eapply wp_mono; [by apply cached_data_spec|]. simpl.
  intros cached s' ->. apply wp_bind.
  eapply (wp_mono _ (λ _ s', plan_ok s' st)).
  { apply wp_when; intros _; wp_steps; [by apply plan_ids|done]. }
  clear s Hp. simpl. intros _ s Hp. apply wp_bind, wp_on_kvm.
  eapply wp_mono; [apply (kv_copies (kv_cache_manager s) (si_kv _ _ _ (po_inv _ _ Hp)))|].
  simpl. intros copies k [Hk Ec]. rewrite Ec. simpl. apply (plan_same _ _ k) in Hp; [|done].
  wp_steps. generalize dependent (set_kvm k s). clear s k Hk. intros s Hp.
  assert (plan_ok s st) as Hp' by done.
  eapply (wp_mono _ (λ _ s', s' = s)).
  { destruct (dynamic_sd_lookup cfg) as [tbl|] eqn:Et; [|by wp_steps].
    destruct (num_scheduled_tokens st) as [|e d] eqn:Ed; [by wp_steps|]. rewrite <-Ed.
    destruct (lookup_lt_is_Some_2 tbl (length (num_scheduled_tokens st))) as [n Hn].
    - pose proof (cf_table _ _ Hcfg tbl Et). pose proof (scheduled_len _ _ Hp).
      pose proof (si_max _ _ _ (po_inv _ _ Hp)).
      assert (length (num_scheduled_tokens st) = length (scheduled st)) as El.
      { rewrite <-(Permutation_length (ba_ids _ _ _ H2)). by rewrite length_fmap. }
      unfold zlen in *. lia.
    - by eapply wp_lift_option. }
  simpl. intros spec s' ->. apply wp_bind, wp_on_enc.
  eapply wp_mono; [apply freed_idle, (si_enc _ _ _ (po_inv _ _ Hp))|]. simpl. intros freed e He.
  apply (plan_enc _ _ e) in Hp; [|done]. generalize dependent (set_encoder e s). clear s Hp' e He. intros s Hp.
  unfold _get_new_block_ids_to_zero. apply wp_bind, wp_bind, wp_on_kvm.
  eapply wp_mono; [apply (kv_new_ids (kv_cache_manager s) (si_kv _ _ _ (po_inv _ _ Hp)))|].
  simpl. intros ids k Hk. wp_steps. split; [by apply plan_same|done].
Qed.

(** ** The update of the requests *)

Definition granted s rid (n : Z) : Prop :=
  1 ≤ n ∧ ∃ x, requests s !! rid = Some x ∧ num_computed_tokens (req x) + n ≤ mml
    ∧ kv_slots (kv_cache_manager s) rid (num_computed_tokens (req x) + n).

(** The requests of [given] advanced by their tokens, the others did not move. *)
Definition advanced (given : list (string * Z)) s s' : Prop :=
  (∀ rid n, (rid, n) ∈ given → ∃ x x', requests s !! rid = Some x ∧ requests s' !! rid = Some x'
     ∧ num_computed_tokens (req x') = num_computed_tokens (req x) + n)
  ∧ ∀ rid, rid ∉ given.*1 → requests s' !! rid = requests s !! rid.

Lemma advance_spec s rid n :
  sched_inv cfg s → rid ∈ running s → granted s rid n →
  wp (advance_request (rid, n)) (λ _ s', sched_inv cfg s' ∧ running s' = running s
    ∧ kv_cache_manager s' = kv_cache_manager s ∧ advanced [(rid, n)] s s') s.
Proof using.
  intros H Hr (Hn & x & Hx & Hm & Hs). unfold advance_request. apply wp_bind.
  eapply wp_lookup_req; [exact Hx|]. unfold assign, update_req. wp_steps.
  destruct (si_req _ _ _ H rid x Hx) as [K1 [V1 V2 V3 V4 V5] K3 K4 K5].
  destruct (si_running _ _ _ H rid Hr) as (x' & Hx' & Hst & _). assert (x' = x) as -> by congruence.
  assert (∀ f, num_computed_tokens (req (f x)) = num_computed_tokens (req x) + n →
    num_output_placeholders (f x) = num_output_placeholders x →
    (∃ g, req (f x) = set_in_flight g (set_computed (num_computed_tokens (req x) + n) (req x))) →
    sched_inv cfg (set_requests (alter f rid (requests s)) s)
    ∧ advanced [(rid, n)] s (set_requests (alter f rid (requests s)) s)) as Halter.
  { intros f Ec Epl [g Eg]. split.
    - apply (inv_alter cfg [] s rid f x H Hx); rewrite ?Eg; try done.
      + split; rewrite ?Eg, ?Epl; try done. split; simpl; try done. lia.
      + intros _. split; rewrite Eg; [done|exact Hs].
      + intros Hq. by destruct (inv_not_queued cfg [] s rid H Hr).
    - split.
      + intros r m [= -> ->]%list_elem_of_singleton. exists x, (f x). simpl. by rewrite lookup_alter_eq, Hx.
      + intros r. simpl. rewrite list_elem_of_singleton. intros Hne. by rewrite lookup_alter_ne. }
  set (f := set_req _). eapply wp_lookup_req; [simpl; by rewrite lookup_alter_eq, Hx|]. wp_steps.
  set (chunk := _ <? _). simpl. rewrite alter_alter_eq.
  destruct (Halter (set_prefill_chunk chunk ∘ f)) as [Hi Ha]; [done|done|by eexists|].
  apply wp_when; intros _; wp_steps.
  - split_and!; try done. by apply inv_ids.
  - done.
Qed.

Lemma advance_all_spec s given :
  sched_inv cfg s → NoDup given.*1 →
  (∀ rid n, (rid, n) ∈ given → rid ∈ running s ∧ granted s rid n) →
  wp (for_each given advance_request) (λ _ s', sched_inv cfg s' ∧ running s' = running s
    ∧ kv_cache_manager s' = kv_cache_manager s ∧ advanced given s s') s.
Proof using.
  intros H Hnd Hg.
  eapply wp_mono; [apply (wp_for_each _ (λ pre s', sched_inv cfg s' ∧ running s' = running s
    ∧ kv_cache_manager s' = kv_cache_manager s ∧ advanced pre s s'))|done].
  { split_and!; try done. split; [by intros ? ? ?%elem_of_nil|done]. }
  intros pre [rid n] post s' -> (Hi & Er & Ek & Ha1 & Ha2).
  rewrite fmap_app in Hnd. simpl in Hnd. apply NoDup_app in Hnd as (_ & Hd & _).
  assert (rid ∉ pre.*1) as Hout by (intros Hin; apply (Hd rid Hin); by left).
  destruct (Hg rid n) as (Hr & Hn & x & Hx & Hm & Hs); [apply elem_of_app; right; by left|].
  eapply wp_mono; [apply (advance_spec s' rid n Hi)|].
  { by rewrite Er. }
  { split; [done|]. exists x. by rewrite (Ha2 rid Hout), Ek. }
  simpl. intros _ s2 (Hi2 & Er2 & Ek2 & Hb1 & Hb2). split_and!; [done|congruence|congruence|].
  split.
  - intros r m Hin. apply elem_of_app in Hin as [Hin|Hin].
    + destruct (Ha1 r m Hin) as (y & y' & Hy & Hy' & E). exists y, y'. rewrite Hb2; [done|].
      simpl. rewrite list_elem_of_singleton. intros ->. apply Hout. by apply (list_elem_of_fmap_2 fst) in Hin.
    + destruct (Hb1 r m Hin) as (y & y' & Hy & Hy' & E). exists y, y'. rewrite <-Ha2; [done|].
      apply list_elem_of_singleton in Hin as [= -> ->]. done.
  - intros r. rewrite fmap_app, elem_of_app. intros Hr'. rewrite Hb2, Ha2; [done|clear -Hr'; tauto..].
Qed.

(** Placeholders do not change what the invariant sees. *)
Lemma placeholders_spec s out rn :
  sched_inv cfg s → rn.1 ∈ running s →
  wp (add_placeholders cfg out rn) (λ _ s', sched_inv cfg s' ∧ running s' = running s
    ∧ kv_cache_manager s' = kv_cache_manager s
    ∧ ∀ rid, num_computed_tokens ∘ req <$> requests s' !! rid = num_computed_tokens ∘ req <$> requests s !! rid) s.
Proof using Hcfg.
  intros H Hr. destruct (si_running _ _ _ H rn.1 Hr) as (x & Hx & Hst & Hsl). unfold add_placeholders.
  apply wp_bind. eapply wp_lookup_req; [exact Hx|]. destruct (is_prefill_chunk x); [by wp_steps|].
  unfold assign, update_req. wp_steps. simpl.
  destruct (si_req _ _ _ H rn.1 x Hx) as [K1 [V1 V2 V3 V4 V5] K3 K4 K5].
  assert (∀ f, (∃ t, req (f x) = set_spec t (req x)) → 0 ≤ num_output_placeholders (f x) →
    sched_inv cfg (set_requests (alter f rn.1 (requests s)) s)
    ∧ ∀ rid, num_computed_tokens ∘ req <$> alter f rn.1 (requests s) !! rid
             = num_computed_tokens ∘ req <$> requests s !! rid) as Halter.
  { intros f [t E] Hpl. split.
    - apply (inv_alter cfg [] s rn.1 f x H Hx); rewrite ?E; try done.
      + split; rewrite ?E; done.
      + intros _. split; rewrite E; [done|exact Hsl].
      + intros Hq. by destruct (inv_not_queued cfg [] s rn.1 H Hr).
    - intros rid. rewrite lookup_alter. case_decide; [|done]. subst. rewrite Hx. simpl. by rewrite E. }
  apply wp_when; intros _; wp_steps; simpl; rewrite ?alter_alter_eq; (split_and!; [|done|done|]);
    (apply Halter; [by eexists|]); simpl; pose proof (cf_sampled _ _ Hcfg); unfold zlen; lia.
Qed.

(** What a step promises of its output: its books, and that every request of it runs, moved on
    by its tokens, has slots for all of them, and has no more drafts than tokens. *)
Record output_ok (limit : Z) (out : SchedulerOutput) s : Prop := {
  oo_total : total_num_scheduled_tokens out = sum_list (out_num_scheduled_tokens out).*2
             ∧ total_num_scheduled_tokens out ≤ limit;
  oo_input : sum_list ((λ n, n + draft_slots cfg) <$> (out_num_scheduled_tokens out).*2)
             ≤ cfg_max_num_batched_tokens cfg;
  oo_ids : NoDup (out_num_scheduled_tokens out).*1;
  oo_given : ∀ rid n, (rid, n) ∈ out_num_scheduled_tokens out → rid ∈ running s ∧ 1 ≤ n
    ∧ ∃ x, requests s !! rid = Some x ∧ n ≤ num_computed_tokens (req x) ≤ mml
        ∧ kv_slots (kv_cache_manager s) rid (num_computed_tokens (req x))
        ∧ zlen (default [] (out_spec_decode_tokens out !! rid)) ≤ num_computed_tokens (req x);
}.

Lemma output_ready s s' st out given :
  plan_ok s st → output_of st out → given = out_num_scheduled_tokens out →
  sched_inv cfg s' → running s' = running s → kv_cache_manager s' = kv_cache_manager s →
  (∀ rid n, (rid, n) ∈ given → ∃ x x', requests s !! rid = Some x ∧ requests s' !! rid = Some x'
     ∧ num_computed_tokens (req x') = num_computed_tokens (req x) + n) →
  output_ok budget out s'.
Proof using.
  intros [H1 H2 H3 H4] (E1 & E2 & E3) -> Hi Er Ek Ha. destruct (ba_tokens _ _ _ H2), (ba_input _ _ _ H2).
  split; rewrite ?E1, ?E2; [split; [done|lia]|lia|by rewrite (ba_ids _ _ _ H2); apply H2|].
  intros rid n Hin. destruct (H3 rid n Hin) as (Hn & x & Hx & Hm & Hs & Hd).
  pose proof (given_scheduled _ _ _ _ _ H2 Hin) as Hsch.
  split; [rewrite Er; by apply H4|]. split; [done|]. rewrite <-E1 in Hin.
  destruct (Ha rid n Hin) as (y & x' & Hy & Hx' & E). assert (y = x) as -> by congruence.
  exists x'. rewrite E, Ek, E3. split_and!; [done| |done|done|done].
  pose proof (sv_computed _ _ _ _ (rk_serve _ _ (si_req _ _ _ H1 rid x Hx))). lia.
Qed.

Lemma update_spec s st out :
  plan_ok s st → output_of st out →
  wp (_update_after_schedule cfg out) (λ _ s', sched_inv cfg s' ∧ output_ok budget out s') s.
Proof using Hcfg.
  intros Hp Ho. pose proof Hp as [H1 H2 H3 H4]. pose proof Ho as (E1 & _ & _).
  assert (wp (base_update_after_schedule out) (λ _ s', sched_inv cfg s' ∧ running s' = running s
    ∧ kv_cache_manager s' = kv_cache_manager s ∧ advanced (out_num_scheduled_tokens out) s s') s) as Hbase.
  { unfold base_update_after_schedule. apply wp_bind. rewrite E1.
    eapply wp_mono; [apply advance_all_spec; [done| |]|].
    - rewrite (ba_ids _ _ _ H2). apply H2.
    - intros rid n Hin. split; [by apply H4; eapply given_scheduled|].
      destruct (H3 rid n Hin) as (? & x & ? & ? & ? & _). split; [done|]. by exists x.
    - simpl. intros _ s' (Hi & ? & ? & ?). wp_steps. split_and!; try done. apply inv_ids. by apply inv_ids. }
  unfold _update_after_schedule, async_update_after_schedule. destruct (async_scheduling cfg).
  - apply wp_bind. eapply wp_mono; [exact Hbase|]. simpl. intros _ s1 (Hi1 & Er1 & Ek1 & [Ha1 _]).
    eapply wp_mono; [apply (wp_for_each _ (λ _ s', sched_inv cfg s' ∧ running s' = running s1
      ∧ kv_cache_manager s' = kv_cache_manager s1
      ∧ ∀ rid, num_computed_tokens ∘ req <$> requests s' !! rid = num_computed_tokens ∘ req <$> requests s1 !! rid))|].
    + done.
    + intros pre [rid n] post s' Eq (Hi & Er & Ek & Hc).
      eapply wp_mono; [apply (placeholders_spec s' out (rid, n) Hi)|].
      * simpl. rewrite Er, Er1. apply H4. apply (given_scheduled cfg budget st rid n H2).
        rewrite <-E1, Eq. apply elem_of_app. right. by left.
      * simpl. intros _ s2 (Hi2 & Er2 & Ek2 & Hc2). split_and!; [done|congruence|congruence|].
        intros r. by rewrite Hc2.
    + simpl. intros _ s2 (Hi2 & Er2 & Ek2 & Hc2). split; [done|].
      apply (output_ready s s2 st out (out_num_scheduled_tokens out)); try done; [congruence|congruence|].
      intros rid n Hin. destruct (Ha1 rid n Hin) as (x & x' & Hx & Hx' & E). specialize (Hc2 rid).
      rewrite Hx' in Hc2. destruct (requests s2 !! rid) as [x2|]; [|done]. simpl in Hc2. injection Hc2 as Hc2.
      exists x, x2. split_and!; [done..|]. congruence.
  - eapply wp_mono; [exact Hbase|]. simpl. intros _ s1 (Hi1 & Er1 & Ek1 & [Ha1 _]). split; [done|].
    by apply (output_ready s s1 st out (out_num_scheduled_tokens out)).
Qed.
End schedule.

Section step.
Context {sha256 : bytes → bytes} {use_int : bool} {mml hbs : Z} {events : bool}.
Context `{KV : !KVService sha256 use_int mml hbs events} (cfg : SchedulerConfig).
Context (iter_order : gset Z → list Z) (Hiter : ∀ X, iter_order X ≡ₚ elements X).
Context (grammar : string → Grammar) (Hcfg : cfg_ok mml cfg).

Lemma initial_balanced (paused : bool) :
  balanced cfg (if paused then 0 else max_num_scheduled_tokens cfg) (initial_step cfg paused).
Proof using Hcfg.
  destruct (cf_budget _ _ Hcfg). split; simpl; try done; try lia.
  - destruct paused; lia.
  - apply NoDup_nil_2.
  - by intros rid ?%elem_of_nil.
  - intros rid [l Hl]. by rewrite lookup_empty in Hl.
Qed.

#[local] Arguments schedule_running : simpl never.
#[local] Arguments schedule_waiting : simpl never.

(** The budget of a step. *)
Definition step_budget (s : Scheduler) : Z :=
  if bool_decide (_pause_state s = PAUSED_ALL) then 0 else max_num_scheduled_tokens cfg.

Lemma schedule_spec s throttle :
  sched_inv (KV := KV) cfg s →
  wp (schedule sha256 use_int cfg iter_order grammar throttle)
    (λ out s', sched_inv cfg s' ∧ output_ok cfg (step_budget s) out s') s.
Proof using Hcfg Hiter.
  intros H. unfold schedule. wp_steps. apply wp_on_kvm. simpl.
  eapply wp_mono; [apply (kv_new_step (kv_cache_manager s) (si_kv _ _ _ H))|]. simpl. intros _ k Hk.
  set (s1 := set_kvm k _).
  assert (sched_inv cfg s1) as H1 by (apply inv_same; [by apply inv_clock|done]).
  change (running s) with (running s1) at 2.
  wp_steps. eapply wp_mono.
  { apply (schedule_running_spec cfg iter_order Hiter Hcfg (step_budget s)).
    - split; try done.
      + apply initial_balanced.
      + by intros rid n ?%elem_of_nil.
      + by intros rid ?%elem_of_nil.
    - simpl. lia. }
  simpl. intros st1 s2 [idx Hru]. apply wp_bind. unfold record_loras. rewrite (cf_loras _ _ Hcfg). wp_steps.
  eapply wp_mono; [by apply (admit_waiting_spec cfg iter_order Hiter grammar Hcfg (step_budget s)); eapply run_plan|].
  simpl. intros st3 s3 Hp3. wp_steps.
  eapply wp_mono; [apply (make_output_spec cfg Hcfg (step_budget s) s3 st3 Hp3)|].
  { unfold step_budget. destruct (cf_budget _ _ Hcfg). case_bool_decide; lia. }
  simpl. intros out s4 [Hp4 Ho]. wp_steps.
  eapply wp_mono; [by apply (update_spec cfg Hcfg (step_budget s) s4 st3 out)|]. simpl. intros _ s5 ?. by wp_steps.
Qed.
End step.
