(* ===== verification/SchedulerTokens.v ===== *)
(** The tokens a step produces: what the block hasher promises, and appending tokens to a request
    until it stops. *)

From S2P Require Import Prelude MathUtils Request BlockHash BlockHashFacts FreeQueue BlockPool Managers.
From S2P Require Import Coordinator KVCacheManager EncoderCache EncoderCacheFacts RequestQueue.
From S2P Require Import RequestQueueFacts SchedUtils SchedUtilsFacts KVCacheService SchedulerState Scheduler.
From S2P Require Import SchedulerUpdate SchedulerQueues SchedulerFrame SchedulerInv SchedulerRequests.

Set Warnings "-level-tolerance,-clear-no-such-hyp".

(** ** The hasher of a request *)

(** [request.block_hashes] keeps up with the tokens. *)
Class Hashing (hbs : Z) (hasher : option (Request → exn + list bytes)) := {
  hashed : Request → Prop;
  hashed_len r : hashed r → num_tokens r / hbs ≤ zlen (block_hashes r);
  hashed_frame r r' :
    same_keys r r' → _all_token_ids r' = _all_token_ids r → block_hashes r' = block_hashes r →
    hashed r → hashed r';
  hashed_append r toks : hashed r →
    ∃ hs, let r' := set_block_hashes (set_tokens r (_output_token_ids r ++ toks) (_all_token_ids r ++ toks)) hs in
      append_output_token_ids hasher toks r = inr r' ∧ hashed r';
}.

#[global] Arguments hashed {_ _ _}.
#[global] Arguments hashed_len {_ _ _}.
#[global] Arguments hashed_frame {_ _ _}.
#[global] Arguments hashed_append {_ _ _}.

(** The hasher of [get_request_block_hasher]. *)
Section block_hasher.
Context (sha256 : bytes → bytes) (hash_function : bytes * list Z * option (list ExtraKey) → bytes).
Context (NONE_HASH : bytes) (hbs : Z).

#[global] Program Instance block_hashing (Hhbs : 0 < hbs) :
    Hashing hbs (Some (request_block_hasher sha256 hash_function NONE_HASH hbs)) := {
  hashed := hashes_ok sha256 hash_function NONE_HASH hbs;
}.
Next Obligation. intros _ r [-> _]. lia. Qed.
Next Obligation. intros _ r r'. apply hashes_ok_ext. Qed.
Next Obligation.
  intros Hhbs r toks Hok. destruct (append_hashed sha256 hash_function NONE_HASH hbs r toks Hhbs Hok) as (hs & ? & ?).
  by exists (block_hashes r ++ hs).
Qed.
End block_hasher.

Lemma alter_insert_eq {A} (m : gmap string A) k f x : m !! k = Some x → alter f k m = <[k := f x]> m.
Proof.
  intros Hx. apply map_eq. intros k'. rewrite lookup_alter, lookup_insert. case_decide; [|done]. subst. by rewrite Hx.
Qed.

Section tokens.
Context {sha256 : bytes → bytes} {use_int : bool} {mml hbs : Z} {events : bool}.
Context `{KV : !KVService sha256 use_int mml hbs events} (cfg : SchedulerConfig).
Context {hasher : option (Request → exn + list bytes)} `{HH : !Hashing hbs hasher}.
Implicit Types (s : Scheduler) (rid : string) (x y : SReq) (r : Request) (D : gset string).

#[local] Abbreviation req_ok := (SchedulerInv.req_ok (mml := mml) (hbs := hbs) (events := events)).

(** A request that can take another token: it was not at the model length, and [min_tokens] does
    not ask for more than the model length allows. *)
Record tokens_ok r : Prop := {
  to_hashed : hashed (hasher := hasher) r;
  to_len : num_tokens r = num_prompt_tokens r + num_output_tokens r;
  to_room : pooling_params r = None → ∃ sp, sampling_params r = Some sp
    ∧ num_tokens r < mml ∧ num_prompt_tokens r + min_tokens sp ≤ mml;
}.

Lemma tokens_ok_progress r c f sp pre bd st : tokens_ok r → tokens_ok (with_progress c f sp pre bd st r).
Proof using. intros [H1 H2 H3]. split; try done. by eapply (hashed_frame r). Qed.

(** What appending tokens does not change. *)
Definition same_request r r' : Prop :=
  request_id r' = request_id r ∧ num_computed_tokens r' = num_computed_tokens r
  ∧ num_in_flight_tokens r' = num_in_flight_tokens r ∧ num_prompt_tokens r' = num_prompt_tokens r
  ∧ mm_features r' = mm_features r ∧ num_preemptions r' = num_preemptions r
  ∧ kv_cache_report_mode r' = kv_cache_report_mode r ∧ pooling_params r' = pooling_params r.

#[global] Instance same_request_refl : Reflexive same_request.
Proof using. by intros r. Qed.
#[global] Instance same_request_trans : Transitive same_request.
Proof using. intros r1 r2 r3. unfold same_request. intuition congruence. Qed.

Lemma req_ok_tokens rid x y :
  req_ok rid x → same_request (req x) (req y) → y = set_req (λ _, req y) x →
  1 ≤ num_tokens (req y) ≤ mml → hashed (hasher := hasher) (req y) → req_ok rid y.
Proof using.
  intros [K1 [V1 V2 V3 V4 V5] K3 K4 K5] (E1 & E2 & E3 & E4 & E5 & E6 & E7 & E8) Ey Ht Hh.
  split; [congruence| |congruence|congruence|by rewrite Ey].
  split; [done|congruence|congruence|by apply (hashed_len (hasher := hasher))|congruence].
Qed.

(** One token: the request after [append_output_token_ids] and [check_stop]. *)
Lemma append_one r t :
  tokens_ok r → pooling_params r = None → 1 ≤ num_tokens r →
  ∃ r1 b r2, append_output_token_ids hasher [t] r = inr r1 ∧ check_stop r1 mml = inr (b, r2)
    ∧ same_request r r1 ∧ same_request r r2 ∧ hashed (hasher := hasher) r1 ∧ hashed (hasher := hasher) r2
    ∧ num_tokens r1 = num_tokens r + 1 ∧ num_tokens r2 = num_tokens r + 1 ∧ num_tokens r + 1 ≤ mml
    ∧ _output_token_ids r2 = _output_token_ids r ++ [t]
    ∧ (if b then is_finished r2 = true else tokens_ok r2 ∧ status r2 = status r).
Proof using.
  intros [H1 H2 H3] Hp Ht. destruct (H3 Hp) as (sp & Hsp & Hroom & Hmin).
  destruct (hashed_append r [t] H1) as (hs & E1 & Hh1). set (r1 := set_block_hashes _ hs) in *.
  assert (num_tokens r1 = num_tokens r + 1) as Et by (unfold num_tokens; simpl; by rewrite zlen_app).
  assert (num_output_tokens r1 = num_output_tokens r + 1) as Eo by (unfold num_output_tokens; simpl; by rewrite zlen_app).
  destruct (check_stop_spec r1 mml sp Hp Hsp) as (b & r2 & E2 & Es & Hb & Hst).
  { simpl. by destruct (_output_token_ids r). }
  exists r1, b, r2. split_and!; try done; try (by rewrite Es); try lia.
  - rewrite Es. by eapply (hashed_frame r1).
  - destruct b; [by destruct Hst|]. rewrite Hst. split; [|done]. split; [done|simpl; lia|].
    intros _. exists sp. simpl. split_and!; [done| |done].
    destruct (Z.le_gt_cases (min_tokens sp) (num_output_tokens r1)) as [Hle|]; [|lia].
    assert (length_capped r1 mml = false) as Hl.
    { destruct (length_capped r1 mml); [|done]. destruct Hb as [_ Hb]. discriminate Hb. auto. }
    unfold length_capped in Hl. apply bool_decide_eq_false_1 in Hl. lia.
Qed.

(** Appending until a stop condition holds, for a request that may leave. *)
Lemma append_tokens_spec D s rid x toks :
  cfg_max_model_len cfg = mml → leave_inv cfg D s → rid ∈ D → requests s !! rid = Some x →
  tokens_ok (req x) → pooling_params (req x) = None →
  wp (append_tokens cfg hasher rid toks) (λ res s', ∃ y, s' = set_requests (<[rid := y]> (requests s)) s
    ∧ leave_inv cfg D s' ∧ y = set_req (λ _, req y) x ∧ same_request (req x) (req y)
    ∧ res.1 `prefix_of` toks ∧ _output_token_ids (req y) = _output_token_ids (req x) ++ res.1
    ∧ (if res.2 then is_finished (req y) = true
       else tokens_ok (req y) ∧ status (req y) = status (req x) ∧ res.1 = toks)) s.
Proof using.
  intros Hmml. revert s x. induction toks as [|t toks IH]; intros s x H HD Hx Hok Hp; simpl.
  { wp_steps. exists x. rewrite insert_id by done. split_and!; try done; try (by destruct s, x).
    by rewrite app_nil_r. }
  pose proof (li_req _ _ _ H rid x Hx) as Hreq. pose proof (sv_tokens _ _ _ _ (rk_serve _ _ Hreq)) as Htok.
  destruct (append_one (req x) t Hok Hp ltac:(lia)) as (r1 & b & r2 & E1 & E2 & S1 & S2 & G1 & G2 & T1 & T2 & T3 & O2 & Hb).
  apply wp_bind. eapply wp_lookup_req; [exact Hx|]. apply wp_bind. eapply wp_lift_result; [exact E1|].
  unfold assign, update_req. wp_steps. eapply wp_lift_result; [rewrite Hmml; exact E2|]. wp_steps. simpl.
  rewrite alter_alter_eq. rewrite (alter_insert_eq _ _ _ _ Hx). change ((set_req (λ _, r2) ∘ set_req (λ _, r1)) x) with (set_req (λ _, r2) x). set (y := set_req (λ _, r2) x).
  assert (leave_inv cfg D (set_requests (<[rid := y]> (requests s)) s)) as Hl.
  { rewrite <-(alter_insert_eq _ _ (λ _, y) _ Hx). apply (leave_alter cfg D s rid _ x); try done.
    apply (req_ok_tokens rid x); try done. simpl. lia. }
  destruct b; simpl.
  { wp_steps. exists y. split_and!; try done. simpl. apply prefix_cons, prefix_nil. }
  destruct Hb as [Hok2 Hst2]. apply wp_bind. set (s2 := set_requests _ s) in *.
  eapply wp_mono; [apply (IH s2 y Hl HD)|].
  - simpl. by rewrite lookup_insert_eq.
  - done.
  - simpl. by destruct S2 as (_ & _ & _ & _ & _ & _ & _ & ->).
  - simpl. intros [new stop] s3 (z & -> & L3 & Ez & Sz & Pz & Oz & Hz). simpl in *. wp_steps. exists z.
    unfold s2 in L3 |- *. simpl in L3 |- *. rewrite insert_insert_eq in L3 |- *. split_and!; try done.
    + by etrans.
    + by apply prefix_cons.
    + rewrite Oz, O2. by rewrite <-app_assoc.
    + destruct stop; [done|]. destruct Hz as (? & ? & ->). split_and!; [done|congruence|done].
Qed.
End tokens.
