(* ===== verification/SchedulerProcess.v ===== *)
(** The output of the model: the tokens of every scheduled request are delivered, and the
    requests that stop leave.  Synchronous scheduling. *)

From S2P Require Import Prelude MathUtils Request BlockHash BlockHashFacts FreeQueue BlockPool Managers.
From S2P Require Import Coordinator KVCacheManager EncoderCache EncoderCacheFacts RequestQueue.
From S2P Require Import RequestQueueFacts SchedUtils SchedUtilsFacts KVCacheService SchedulerState Scheduler.
From S2P Require Import SchedulerUpdate SchedulerQueues SchedulerFrame SchedulerInv SchedulerRequests.
From S2P Require Import SchedulerSteps SchedulerTokens.

Set Warnings "-level-tolerance,-clear-no-such-hyp".

Section process.
Context {sha256 : bytes → bytes} {use_int : bool} {mml hbs : Z} {events : bool}.
Context `{KV : !KVService sha256 use_int mml hbs events} (cfg : SchedulerConfig).
Context {hasher : option (Request → exn + list bytes)} `{HH : !Hashing hbs hasher}.
Context (iter_order : gset Z → list Z) (Hiter : ∀ X, iter_order X ≡ₚ elements X).
Context (grammar_rejects : Request → list Z → bool).
Context (Hmml : cfg_max_model_len cfg = mml) (Hsync : async_scheduling cfg = false).
Implicit Types (s : Scheduler) (rid : string) (x y : SReq) (r : Request) (D : gset string).
Implicit Types (out : SchedulerOutput) (mro : ModelRunnerOutput) (acc : Outcome).

#[local] Abbreviation req_ok := (SchedulerInv.req_ok (mml := mml) (hbs := hbs) (events := events)).
#[local] Abbreviation tokens_ok := (tokens_ok (mml := mml) (hbs := hbs) (hasher := hasher)).
#[local] Abbreviation leave_inv := (leave_inv (KV := KV) cfg).

(** The invariant with the request taken out, and with it back. *)
Lemma leave_hold D s rid : leave_inv D s → rid ∈ running s → leave_inv ({[rid]} ∪ D) s.
Proof using.
  intros H Hr. apply (leave_more cfg D); [done|apply union_subseteq_r|]. intros rid' [->%elem_of_singleton|HD]%elem_of_union.
  - intros Hq. pose proof (li_nodup _ _ _ H) as Hn. apply NoDup_app in Hn as (_ & Hd & _). by eapply Hd.
  - by apply (li_queues _ _ _ H).
Qed.
Lemma leave_back D s rid x :
  leave_inv ({[rid]} ∪ D) s → rid ∈ running s → requests s !! rid = Some x → runs (kv_cache_manager s) rid x →
  leave_inv D s.
Proof using.
  intros [L1 L2 L3 L4 L5 L6 L7 L8 L9 L10 L11 L12] Hr Hx Hruns. split; try done.
  - intros rid' HD. apply L7. apply elem_of_union. by right.
  - intros rid' Hr' HD. destruct (decide (rid' = rid)) as [->|Hne]; [by exists x|]. apply L8; [done|].
    rewrite elem_of_union, elem_of_singleton. clear -Hne HD. tauto.
  - intros rid' Hs HD. destruct (decide (rid' = rid)) as [->|Hne]; [apply elem_of_app; by left|]. apply L11; [done|].
    rewrite elem_of_union, elem_of_singleton. clear -Hne HD. tauto.
Qed.
Lemma leave_same D s k : leave_inv D s → kv_same (kv_cache_manager s) k → leave_inv D (set_kvm k s).
Proof using.
  intros [L1 L2 L3 L4 L5 L6 L7 L8 L9 L10 L11 L12] (Hk & Hu & Hs). split; simpl; try done.
  - intros rid Hr HD. destruct (L8 rid Hr HD) as (x & ? & ? & ?). exists x. split; [done|]. split; [done|]. by apply Hs.
  - intros rid Hq. destruct (L9 rid Hq) as (x & ? & ? & ?). exists x. split_and!; [done..|]. by apply Hu.
  - intros rid Hn. by apply Hu, L10.
Qed.
Lemma leave_insert D s rid x y :
  leave_inv D s → rid ∈ D → requests s !! rid = Some x → req_ok rid y →
  leave_inv D (set_requests (<[rid := y]> (requests s)) s).
Proof using.
  intros H HD Hx Hy. rewrite <-(alter_insert_eq _ _ (λ _, y) _ Hx). by apply (leave_alter cfg D s rid _ x).
Qed.

(** ** One request *)

(** Rejected drafts take computed tokens back. *)
Lemma rejections_spec s rid x spec generated stale :
  requests s !! rid = Some x → num_output_placeholders x = 0 →
  zlen spec ≤ num_computed_tokens (req x) → zlen generated ≤ zlen spec + num_sampled_tokens_per_step cfg →
  0 ≤ num_sampled_tokens_per_step cfg →
  wp (apply_rejections cfg rid spec generated stale) (λ _ s', ∃ c, 0 ≤ c ≤ num_computed_tokens (req x)
    ∧ s' = set_requests (<[rid := set_req (set_computed c) x]> (requests s)) s) s.
Proof using.
  intros Hx Hpl Hspec Hgen Hsam. unfold apply_rejections. pose proof (zlen_nonneg spec) as Hs.
  pose proof (zlen_nonneg generated) as Hg.
  assert (set_req (set_computed (num_computed_tokens (req x))) x = x) as Eid by (by destruct x as [[]]).
  apply wp_when; intros _.
  - unfold update_req. wp_steps. rewrite (alter_insert_eq _ _ _ _ Hx).
    set (rejected := zlen spec - _).
    assert (0 ≤ rejected ≤ zlen spec) as Hr by (unfold rejected; lia).
    destruct (Z.ltb_spec 0 (num_computed_tokens (req x))) as [Hc|Hc].
    + simpl. rewrite Hpl. simpl. exists (num_computed_tokens (req x) - rejected). split; [lia|done].
    + rewrite Hpl. simpl. exists (num_computed_tokens (req x)). rewrite Eid. split; [lia|done].
  - wp_steps. exists (num_computed_tokens (req x)). rewrite Eid, insert_id by done. split; [lia|by destruct s].
Qed.

Lemma apply_output_spec D s rid x generated pooled stale :
  leave_inv D s → rid ∈ D → requests s !! rid = Some x → tokens_ok (req x) →
  (generated ≠ [] → pooling_params (req x) = None) →
  wp (apply_output sha256 use_int cfg hasher rid generated pooled stale) (λ res s', ∃ y,
    s' = set_requests (<[rid := y]> (requests s)) s ∧ leave_inv D s' ∧ y = set_req (λ _, req y) x
    ∧ same_request (req x) (req y)
    ∧ (if res.2 then is_finished (req y) = true else tokens_ok (req y) ∧ status (req y) = status (req x))) s.
Proof using Hmml Hsync.
  intros H HD Hx Hok Hpool. unfold apply_output. apply wp_bind. eapply wp_lookup_req; [exact Hx|].
  destruct generated as [|t ts].
  - destruct (_ || _).
    + unfold assign, update_req. wp_steps. rewrite (alter_insert_eq _ _ _ _ Hx). eexists. split; [done|].
      split; [|done]. apply (leave_insert D s rid x); try done. destruct (li_req _ _ _ H rid x Hx) as [K1 K2 K3 K4 K5].
      by destruct K2.
    + wp_steps. exists x. rewrite insert_id by done. split_and!; try done; by destruct s, x.
  - unfold _update_request_with_output. rewrite Hsync. wp_steps. eapply wp_lookup_req; [exact Hx|]. wp_steps.
    eapply wp_mono; [apply (append_tokens_spec cfg D s rid x (t :: ts) Hmml H HD Hx Hok); by apply Hpool|].
    simpl. intros res s' (y & -> & L & Ey & Sy & _ & _ & Hy). wp_steps. exists y. split_and!; try done.
    destruct (res.2); [done|]. by destruct Hy as (? & ? & _).
Qed.

(** What the workers return for a request. *)
Record answer out mro rid : Prop := {
  an_index : is_Some (req_id_to_index mro !! rid);
  an_tokens : ∀ i ts, req_id_to_index mro !! rid = Some i → sampled_token_ids mro = ts → ts ≠ [] →
    ∃ g, ts !! i = Some g
      ∧ zlen g ≤ zlen (default [] (out_spec_decode_tokens out !! rid)) + num_sampled_tokens_per_step cfg;
  an_pooled : ∀ i, req_id_to_index mro !! rid = Some i → pooler_output mro ≠ [] → is_Some (pooler_output mro !! i);
}.
Definition generates mro rid : Prop :=
  ∃ i g, req_id_to_index mro !! rid = Some i ∧ sampled_token_ids mro !! i = Some g ∧ g ≠ [].

(** The request is gone, or it runs on. *)
Definition delivered D s rid x acc acc' s' : Prop :=
  stopped_preempted_reqs acc' = stopped_preempted_reqs acc
  ∧ running s' = running s ∧ grammar_compile_error_reqs s' = grammar_compile_error_reqs s
  ∧ (∀ rid', rid' ≠ rid → requests s' !! rid' = requests s !! rid')
  ∧ ((leave_inv D s' ∧ stopped_running_reqs acc' = stopped_running_reqs acc
      ∧ ∃ y, requests s' !! rid = Some y ∧ tokens_ok (req y)
        ∧ num_in_flight_tokens (req y) = num_in_flight_tokens (req x)
        ∧ num_stale_output_tokens y = num_stale_output_tokens x ∧ num_output_placeholders y = 0)
     ∨ leave_inv ({[rid]} ∪ D) s' ∧ requests s' !! rid = None
       ∧ stopped_running_reqs acc' = {[rid]} ∪ stopped_running_reqs acc).

(** The state while the output of a request is delivered: only the request [rid] changed, from
    [x] to [y], and it has its slots. *)
Record held D s0 rid x s y : Prop := {
  he_leave : leave_inv ({[rid]} ∪ D) s;
  he_req : requests s = <[rid := y]> (requests s0);
  he_running : running s = running s0;
  he_errors : grammar_compile_error_reqs s = grammar_compile_error_reqs s0;
  he_slots : kv_slots (kv_cache_manager s) rid (num_computed_tokens (req y));
  he_flight : num_in_flight_tokens (req y) = num_in_flight_tokens (req x);
  he_stale : num_stale_output_tokens y = num_stale_output_tokens x;
  he_place : num_output_placeholders y = 0;
}.

Lemma held_lookup D s0 rid x s y : held D s0 rid x s y → requests s !! rid = Some y.
Proof using. intros H. by rewrite (he_req _ _ _ _ _ _ H), lookup_insert_eq. Qed.

(** The request object changes. *)
Lemma held_assign D s0 rid x s y z :
  held D s0 rid x s y → req_ok rid z → num_computed_tokens (req z) = num_computed_tokens (req y) →
  num_in_flight_tokens (req z) = num_in_flight_tokens (req y) →
  num_stale_output_tokens z = num_stale_output_tokens y → num_output_placeholders z = 0 →
  held D s0 rid x (set_requests (<[rid := z]> (requests s)) s) z.
Proof using.
  intros H Hz E1 E2 E3 E4. pose proof (held_lookup _ _ _ _ _ _ H) as Hy. destruct H as [H1 H2 H3 H4 H5 H6 H7 H8].
  split; simpl; try done; try congruence.
  - eapply leave_insert; [done| |done..]. apply elem_of_union_l, elem_of_singleton_2. done.
  - by rewrite H2, insert_insert_eq.
Qed.
Lemma held_kvm D s0 rid x s y k :
  held D s0 rid x s y → kv_same (kv_cache_manager s) k → held D s0 rid x (set_kvm k s) y.
Proof using. intros [H1 H2 H3 H4 H5 H6 H7 H8] Hk. split; try done; [by apply leave_same|]. by apply Hk. Qed.

(** The statistics of the prefill are reported once. *)
Lemma report_spec D s0 rid x s y (b : bool) :
  held D s0 rid x s y →
  wp (when b (on_kvm (estimate_cached_tokens (req y));; update_req rid drop_prefill_stats))
    (λ _ s', ∃ z, held D s0 rid x s' z ∧ req z = req y) s.
Proof using.
  intros H. pose proof (held_lookup _ _ _ _ _ _ H) as Hy. apply wp_when; intros _; [|by exists y].
  wp_steps. apply wp_on_kvm. eapply wp_mono; [apply kv_estimate, (li_kv _ _ _ (he_leave _ _ _ _ _ _ H))|].
  simpl. intros _ k Hk. unfold update_req. wp_steps. simpl. rewrite (alter_insert_eq _ _ _ _ Hy).
  exists (drop_prefill_stats y). split; [|done].
  apply (held_assign D s0 rid x (set_kvm k s) y); try done; [by apply held_kvm| |apply H].
  by destruct (li_req _ _ _ (he_leave _ _ _ _ _ _ H) rid y Hy).
Qed.

(** A request that stopped is freed; one that did not stop runs on. *)
Lemma settle_spec D s0 rid x s y acc acc' (stopped : bool) :
  held D s0 rid x s y → rid ∈ running s0 →
  (if stopped then is_finished (req y) = true else tokens_ok (req y) ∧ status (req y) = RUNNING) →
  stopped_running_reqs acc' = (if stopped then {[rid]} ∪ stopped_running_reqs acc else stopped_running_reqs acc) →
  stopped_preempted_reqs acc' = stopped_preempted_reqs acc →
  wp (when stopped (_free_request iter_order rid);; mret acc') (λ a s', delivered D s0 rid x acc a s') s.
Proof using Hiter.
  intros H Hr Hst Ea Eb. pose proof (held_lookup _ _ _ _ _ _ H) as Hy. destruct H as [H1 H2 H3 H4 H5 H6 H7 H8].
  assert (∀ rid', rid' ≠ rid → requests s !! rid' = requests s0 !! rid') as Hoth.
  { intros rid' Hne. by rewrite H2, lookup_insert_ne. }
  wp_steps. destruct stopped; simpl.
  - eapply wp_mono; [apply (free_request_spec cfg iter_order Hiter ({[rid]} ∪ D) s rid y H1); try done|].
    { apply elem_of_union_l, elem_of_singleton_2. done. }
    simpl. intros _ s' (L & Er & Erun & _ & _ & Eg). wp_steps. split_and!; [done|congruence|congruence| |].
    + intros rid' Hne. rewrite Er, lookup_delete_ne by done. by apply Hoth.
    + right. rewrite Er, lookup_delete_eq. done.
  - wp_steps. destruct Hst as [Hok Hstat]. split_and!; try done. left. split; [|split; [done|by exists y]].
    apply (leave_back D s rid y); try done. by rewrite H3.
Qed.

Lemma deliver_spec D s out mro rid x acc stale :
  leave_inv D s → rid ∉ D → rid ∈ running s → requests s !! rid = Some x → tokens_ok (req x) →
  num_output_placeholders x = 0 → answer out mro rid → (generates mro rid → pooling_params (req x) = None) →
  zlen (default [] (out_spec_decode_tokens out !! rid)) ≤ num_computed_tokens (req x) →
  0 ≤ num_sampled_tokens_per_step cfg →
  wp (deliver sha256 use_int cfg iter_order hasher grammar_rejects out mro rid stale acc)
    (λ acc' s', delivered D s rid x acc acc' s') s.
Proof using Hiter Hmml Hsync.
  intros H HD Hr Hx Hok Hpl [[i Hi] Htok Hpool] Hgen Hspec Hsam.
  destruct (li_running _ _ _ H rid Hr HD) as (x' & Hx' & Hst & Hsl). assert (x' = x) as -> by congruence.
  pose proof (leave_hold _ _ _ H Hr) as H'. assert (rid ∈ {[rid]} ∪ D) as HD'.
  { apply elem_of_union_l, elem_of_singleton_2. done. }
  unfold deliver. wp_steps. eapply wp_lift_option; [exact Hi|]. wp_steps.
  eapply (wp_mono _ (λ g s', s' = s ∧ (g ≠ [] → generates mro rid)
    ∧ zlen g ≤ zlen (default [] (out_spec_decode_tokens out !! rid)) + num_sampled_tokens_per_step cfg)).
  { destruct (sampled_token_ids mro) as [|t ts] eqn:Ets.
    - wp_steps. split_and!; try done. pose proof (zlen_nonneg (default [] (out_spec_decode_tokens out !! rid))).
      unfold zlen in *. simpl in *. lia.
    - destruct (Htok i (t :: ts) Hi eq_refl) as (g & Hg & Hlen); [done|]. eapply wp_lift_option; [exact Hg|].
      split_and!; try done. intros Hne. exists i, g. by rewrite Ets. }
  simpl. intros generated s' (-> & Hg & Hlen). wp_steps.
  eapply wp_mono; [apply (rejections_spec s rid x); [exact Hx|exact Hpl|exact Hspec|exact Hlen|exact Hsam]|]. simpl. intros _ s' (c & Hc & ->).
  set (x1 := set_req (set_computed c) x).
  destruct (li_req _ _ _ H rid x Hx) as [K1 [V1 V2 V3 V4 V5] K3 K4 K5].
  assert (held D s rid x (set_requests (<[rid := x1]> (requests s)) s) x1) as Hh.
  { split; try done.
    - apply (leave_insert _ s rid x); try done. split; try done. split; try done. simpl. lia.
    - eapply kv_slots_le; [apply H|exact Hsl|]. simpl. lia. }
  clear Hc. set (s1 := set_requests _ s) in *. wp_steps. eapply wp_lookup_req; [by eapply held_lookup|]. wp_steps.
  assert (has_encoder_inputs (req x1) = false) as ->.
  { unfold has_encoder_inputs, num_encoder_inputs. simpl. by rewrite K3. }
  wp_steps. apply wp_when; [done|]. intros _. wp_steps. eapply (wp_mono _ (λ _ s', s' = s1)).
  { destruct (pooler_output mro) as [|p ps] eqn:Ep; [by wp_steps|]. destruct (Hpool i Hi) as [b Hb]; [done|].
    by eapply wp_lift_option. }
  simpl. intros pooled s' ->. wp_steps.
  eapply wp_mono; [apply (apply_output_spec ({[rid]} ∪ D) s1 rid x1); try done|].
  { apply Hh. }
  { by eapply held_lookup. }
  { by apply tokens_ok_progress. }
  { intros Hne. by apply Hgen, Hg. }
  simpl. intros [new stop] s2 (y & -> & L2 & Ey & Sy & Hy). simpl in Hy.
  assert (held D s rid x (set_requests (<[rid := y]> (requests s1)) s1) y) as Hh2.
  { destruct Sy as (_ & E2 & E3 & _). apply (held_assign D s rid x s1 x1); try done; try (by rewrite Ey).
    apply (li_req _ _ _ L2). simpl. by rewrite lookup_insert_eq. }
  clear Hh L2. set (s2 := set_requests _ s1) in *. wp_steps. eapply wp_lookup_req; [by eapply held_lookup|]. wp_steps.
  set (rejected := negb _ && _).
  eapply (wp_mono _ (λ _ s', ∃ z, held D s rid x s' z
    ∧ if stop || rejected then is_finished (req z) = true else tokens_ok (req z) ∧ status (req z) = RUNNING)).
  { apply wp_when; intros Erej.
    - unfold assign, update_req. wp_steps. rewrite (alter_insert_eq _ _ _ _ (held_lookup _ _ _ _ _ _ Hh2)).
      exists (set_req (become FINISHED_ERROR) y). split; [|by rewrite Erej, orb_true_r]. apply (held_assign D s rid x s2 y); try done; [|apply Hh2].
      destruct (li_req _ _ _ (he_leave _ _ _ _ _ _ Hh2) rid y (held_lookup _ _ _ _ _ _ Hh2)) as [? [] ? ?]. done.
    - exists y. split; [done|]. rewrite Erej, orb_false_r. destruct stop; [done|]. destruct Hy as [? ->]. by split. }
  simpl. clear Hh2 Hy. intros _ s3 (z & Hh3 & Hz). wp_steps. eapply wp_lookup_req; [by eapply held_lookup|]. wp_steps.
  eapply wp_mono; [by apply (report_spec D s rid x s3 z)|]. simpl. intros _ s4 (w & Hh4 & Ew).
  rewrite (bool_decide_eq_true_2 (status (req x) = RUNNING)) by done. rewrite andb_true_r, andb_false_r.
  apply (settle_spec D s rid x s4 w acc); try done. by rewrite Ew.
Qed.
End process.
