(* ===== verification/SchedulerLoop.v ===== *)
(** The loop over the scheduled requests and the whole of [update_from_output]: between two
    steps no tokens are in flight. *)

From S2P Require Import Prelude OrderedDict MathUtils Request BlockHash BlockHashFacts FreeQueue BlockPool Managers.
From S2P Require Import Coordinator KVCacheManager EncoderCache EncoderCacheFacts RequestQueue.
From S2P Require Import RequestQueueFacts SchedUtils SchedUtilsFacts KVCacheService SchedulerState Scheduler.
From S2P Require Import SchedulerUpdate SchedulerQueues SchedulerFrame SchedulerInv SchedulerRequests.
From S2P Require Import SchedulerSteps SchedulerTokens SchedulerProcess.

Set Warnings "-level-tolerance,-clear-no-such-hyp".

Section loop.
Context {sha256 : bytes → bytes} {use_int : bool} {mml hbs : Z} {events : bool}.
Context `{KV : !KVService sha256 use_int mml hbs events} (cfg : SchedulerConfig).
Context {hasher : option (Request → exn + list bytes)} `{HH : !Hashing hbs hasher}.
Context (iter_order : gset Z → list Z) (Hiter : ∀ X, iter_order X ≡ₚ elements X).
Context (grammar_rejects : Request → list Z → bool).
Context (Hcfg : cfg_ok mml cfg) (Hsync : async_scheduling cfg = false).
Implicit Types (s : Scheduler) (rid : string) (x y : SReq) (r : Request) (D : gset string).
Implicit Types (out : SchedulerOutput) (mro : ModelRunnerOutput) (acc : Outcome) (g : list (string * Z)).

#[local] Abbreviation tokens_ok := (tokens_ok (mml := mml) (hbs := hbs) (hasher := hasher)).
#[local] Abbreviation leave_inv := (leave_inv (KV := KV) cfg).
#[local] Abbreviation sched_inv := (sched_inv (KV := KV) cfg).

(** A request while the tokens of [g] are in flight. *)
Record calm g rid x : Prop := {
  ca_flight : num_in_flight_tokens (req x) = default 0 (od_get g rid);
  ca_stale : num_stale_output_tokens x = 0;
  ca_place : num_output_placeholders x = 0;
  ca_tokens : tokens_ok (req x);
}.

(** The scheduled requests that were not aborted meanwhile still run. *)
Record in_flight out s : Prop := {
  if_ids : NoDup (out_num_scheduled_tokens out).*1;
  if_given : ∀ rid n, (rid, n) ∈ out_num_scheduled_tokens out → 1 ≤ n
    ∧ ∀ x, requests s !! rid = Some x → rid ∈ running s
        ∧ zlen (default [] (out_spec_decode_tokens out !! rid)) ≤ num_computed_tokens (req x);
}.

(** What the workers return: a well-formed answer for every scheduled request, and tokens only
    for requests that sample. *)
Definition answers out mro s : Prop :=
  ∀ rid n, (rid, n) ∈ out_num_scheduled_tokens out → answer cfg out mro rid
    ∧ ∀ x, requests s !! rid = Some x → generates mro rid → pooling_params (req x) = None.

(** ** The loop *)

(** After the requests of [pre]. *)
Record loop_inv out s0 (pre : list (string * Z)) acc s : Prop := {
  lo_leave : leave_inv (stopped_running_reqs acc) s;
  lo_preempted : stopped_preempted_reqs acc = ∅;
  lo_running : running s = running s0;
  lo_errors : grammar_compile_error_reqs s = grammar_compile_error_reqs s0;
  lo_stopped : ∀ rid, rid ∈ stopped_running_reqs acc → rid ∈ pre.*1 ∧ requests s !! rid = None;
  lo_todo : ∀ rid, rid ∉ pre.*1 → requests s !! rid = requests s0 !! rid;
  lo_done : ∀ rid x, rid ∈ pre.*1 → requests s !! rid = Some x → calm [] rid x;
}.

Lemma process_spec out mro s0 pre post rid n acc s :
  all_requests (calm (out_num_scheduled_tokens out)) s0 → in_flight out s0 → answers out mro s0 →
  out_num_scheduled_tokens out = pre ++ (rid, n) :: post → loop_inv out s0 pre acc s →
  wp (process_request sha256 use_int cfg iter_order hasher grammar_rejects out mro acc (rid, n))
    (λ acc' s', loop_inv out s0 (pre ++ [(rid, n)]) acc' s') s.
Proof using Hiter Hcfg Hsync.
  intros Hcalm [Hids Hgiven] Hans Eg [H1 H2 H3 H4 H5 H6 H7].
  assert ((rid, n) ∈ out_num_scheduled_tokens out) as Hin by (rewrite Eg; apply elem_of_app; right; by left).
  pose proof (od_get_in _ _ _ Hids Hin) as Hget.
  assert (rid ∉ pre.*1) as Hpre.
  { rewrite Eg, fmap_app in Hids. apply NoDup_app in Hids as (_ & Hd & _). intros Hp. apply (Hd rid Hp). by left. }
  assert (∀ rid', rid' ∈ (pre ++ [(rid, n)]).*1 ↔ rid' ∈ pre.*1 ∨ rid' = rid) as Hpre'.
  { intros rid'. rewrite fmap_app, elem_of_app. simpl. by rewrite list_elem_of_singleton. }
  destruct (Hgiven rid n Hin) as [Hn Hrun]. destruct (Hans rid n Hin) as [Hanswer Hgen].
  unfold process_request. apply wp_bind, wp_assert; [apply Z.ltb_lt; lia|]. wp_steps.
  destruct (requests s !! rid) as [x|] eqn:Hx.
  2: { wp_steps. split; try done.
       - intros rid' HD. destruct (H5 rid' HD). rewrite Hpre'. auto.
       - intros rid' Hn'. apply H6. rewrite Hpre' in Hn'. tauto.
       - intros rid' y Hp Hy. rewrite Hpre' in Hp. destruct Hp as [Hp| ->]; [by apply H7|congruence]. }
  assert (requests s0 !! rid = Some x) as Hx0 by (by rewrite <-H6).
  destruct (Hrun x Hx0) as [Hr Hspec]. destruct (Hcalm rid x Hx0) as [C1 C2 C3 C4].
  rewrite Hget in C1. simpl in C1.
  assert (rid ∉ stopped_running_reqs acc) as HnD by (intros HD; by destruct (H5 rid HD)).
  destruct (li_running _ _ _ H1 rid ltac:(by rewrite H3) HnD) as (x' & Hx' & Hruns). assert (x' = x) as -> by congruence.
  unfold assign, update_req. wp_steps. simpl. rewrite C2. simpl.
  rewrite (alter_insert_eq _ _ _ _ Hx). set (x1 := set_req _ x). set (s1 := set_requests _ s).
  wp_steps. rewrite (runs_unfinished _ _ _ Hruns). simpl.
  assert (requests s1 !! rid = Some x1) as Hx1 by (simpl; by rewrite lookup_insert_eq).
  assert (leave_inv (stopped_running_reqs acc) s1) as L1.
  { apply (leave_back cfg _ s1 rid x1); try done; [|by rewrite <-H3 in Hr].
    apply (leave_insert cfg _ s rid x); try done.
    - apply leave_hold; [done|]. by rewrite H3.
    - apply elem_of_union_l, elem_of_singleton_2. done.
    - destruct (li_req _ _ _ H1 rid x Hx) as [? [] ? ? ?]. done. }
  eapply wp_mono; [apply (deliver_spec cfg iter_order Hiter grammar_rejects (cf_mml _ _ Hcfg) Hsync
    (stopped_running_reqs acc) s1 out mro rid x1 acc false L1); try done|].
  { simpl. by rewrite H3. }
  { by apply tokens_ok_progress. }
  { intros Hg. by apply (Hgen x Hx0). }
  { apply (cf_sampled _ _ Hcfg). }
  simpl. intros acc' s' (E1 & E2 & E3 & Hoth & Hres). simpl in E2, E3.
  assert (∀ rid', rid' ≠ rid → requests s' !! rid' = requests s !! rid') as Hoth'.
  { intros rid' Hne. rewrite Hoth by done. simpl. by rewrite lookup_insert_ne. }
  assert (∀ rid', rid' ∉ (pre ++ [(rid, n)]).*1 → requests s' !! rid' = requests s0 !! rid') as Htodo.
  { intros rid' Hn'. rewrite Hpre' in Hn'. rewrite Hoth', H6; [done|clear -Hn'; tauto..]. }
  assert (∀ rid' y, rid' ∈ pre.*1 → requests s' !! rid' = Some y → calm [] rid' y) as Hdone.
  { intros rid' y Hp Hy. apply H7; [done|]. rewrite <-Hoth'; [done|]. intros ->. done. }
  destruct Hres as [(L & Es & y & Hy & Y1 & Y2 & Y3 & Y4)|(L & Hnone & Es)].
  - split; try done; [by rewrite Es|congruence|congruence|congruence| |].
    + intros rid' HD. rewrite Es in HD. destruct (H5 rid' HD) as [Hp Hno]. rewrite Hpre'. split; [by left|].
      rewrite Hoth'; [done|]. intros ->. done.
    + intros rid' z Hp Hz. rewrite Hpre' in Hp. destruct Hp as [Hp| ->]; [by apply Hdone|].
      assert (z = y) as -> by congruence. split; [rewrite Y2; simpl; lia|by rewrite Y3|done|done].
  - split; try done; [by rewrite Es|congruence|congruence|congruence| |].
    + intros rid' HD. rewrite Es, elem_of_union, elem_of_singleton in HD. rewrite Hpre'.
      destruct HD as [->|HD]; [auto|]. destruct (H5 rid' HD) as [Hp Hno]. split; [by left|].
      rewrite Hoth'; [done|]. intros ->. done.
    + intros rid' z Hp Hz. rewrite Hpre' in Hp. destruct Hp as [Hp| ->]; [by apply Hdone|congruence].
Qed.

(** ** The whole update *)

Lemma leave_drop D s :
  leave_inv D s → (∀ rid, rid ∈ D → requests s !! rid = None) →
  sched_inv (set_running (filter (.∉ D) (running s)) s).
Proof using.
  intros [L1 L2 L3 L4 L5 L6 L7 L8 L9 L10 L11 L12] Hgone. split; simpl; try done.
  - change (queued [] (set_running (filter (.∉ D) (running s)) s)) with (queued [] s).
    apply NoDup_app in L6 as (N1 & N2 & N3). apply NoDup_app. split_and!; [by apply NoDup_filter| |done].
    intros rid [_ Hr]%list_elem_of_filter. by apply N2.
  - intros rid [HD Hr]%list_elem_of_filter. by apply L8.
  - intros rid Hs. assert (rid ∉ D) as HD by (intros HD; rewrite (Hgone rid HD) in Hs; by destruct Hs).
    pose proof (L11 rid Hs HD) as Hin. apply elem_of_app in Hin. apply elem_of_app.
    rewrite list_elem_of_filter. destruct Hin as [?|?]; [by left|by right].
  - pose proof (length_filter (.∉ D) (running s)). unfold zlen in *. lia.
Qed.

Lemma update_from_output_spec s out mro :
  sched_inv s → all_requests (calm (out_num_scheduled_tokens out)) s → in_flight out s → answers out mro s →
  wp (update_from_output sha256 use_int cfg iter_order hasher grammar_rejects out mro)
    (λ _ s', sched_inv s' ∧ all_requests (calm []) s') s.
Proof using Hiter Hcfg Hsync.
  intros H Hcalm Hfl Hans. unfold update_from_output. apply wp_bind. eapply wp_mono.
  { apply (wp_fold_each _ (λ pre acc s', loop_inv out s pre acc s')).
    - split; simpl; try done; [by apply leave_none|by intros rid x ?%elem_of_nil].
    - intros pre [rid n] post acc s' Eg Hlo. by eapply process_spec. }
  simpl. intros acc s1 [H1 H2 H3 H4 H5 H6 H7].
  assert (sched_inv (set_running (filter (.∉ stopped_running_reqs acc) (running s1)) s1)) as Hi.
  { apply leave_drop; [done|]. intros rid HD. by apply H5. }
  assert (all_requests (calm []) s1) as Hc1.
  { intros rid x Hx. destruct (decide (rid ∈ (out_num_scheduled_tokens out).*1)) as [Hp|Hp]; [by apply H7|].
    rewrite H6 in Hx by done. destruct (Hcalm rid x Hx) as [C1 C2 C3 C4]. split; try done. rewrite C1. simpl.
    destruct (od_get _ rid) as [n|] eqn:E; [|done]. apply od_get_elem in E. destruct Hp. by apply (list_elem_of_fmap_2 fst) in E. }
  apply wp_bind. eapply (wp_mono _ (λ _ s', sched_inv s' ∧ all_requests (calm []) s')).
  { assert (NoDup (running s1)) as Hnd.
    { pose proof (li_nodup _ _ _ H1) as Hn. by apply NoDup_app in Hn as [? _]. }
    apply wp_when; intros Hs; wp_steps; [by rewrite remove_all_filter|].
    apply negb_false_iff, bool_decide_eq_true_1 in Hs. rewrite Hs in Hi.
    rewrite filter_all in Hi by (intros; apply not_elem_of_empty). by destruct s1. }
  clear s1 H1 H3 H4 H5 H6 H7 Hi Hc1. simpl. intros _ s1 [Hi Hc]. rewrite H2. wp_steps.
  apply wp_when; [by rewrite bool_decide_eq_true_2|]. intros _. wp_steps. set (s2 := set_grammar_errors ∅ s1).
  eapply (wp_mono _ (λ _ s', sched_inv s' ∧ all_requests (calm []) s')).
  { destruct (elements (grammar_compile_error_reqs s1)) as [|e errors] eqn:Ee; [wp_steps; split; [by apply inv_ids|done]|].
    eapply wp_mono; [apply (finish_requests_spec cfg iter_order Hiter s2 (e :: errors) FINISHED_ERROR)|].
    - by apply inv_ids.
    - rewrite <-Ee. apply NoDup_elements.
    - done.
    - simpl. intros res s' (Hi' & _ & Er & _). split; [done|]. intros rid x. rewrite Er. case_decide; [done|]. apply Hc. }
  simpl. clear s1 s2 Hi Hc. intros failed s1 [Hi Hc]. wp_steps. apply wp_on_kvm.
  eapply wp_mono; [apply kv_events, (si_kv _ _ _ Hi)|]. simpl. intros evs k Hk.
  apply (inv_same cfg [] s1 k) in Hi; [|done]. wp_steps. apply wp_on_kvm.
  eapply wp_mono; [apply kv_stats, (si_kv _ _ _ Hi)|]. simpl. intros st k' Hk'. wp_steps.
  split; [|done]. by apply (inv_same cfg [] (set_kvm k s1) k').
Qed.
End loop.
