(* ===== verification/EngineCore.v ===== *)
(** The engine loop around the scheduler ([vllm/v1/engine/core.py], class [EngineCore]): adding
    and aborting requests, a step, draft tokens, pause and reset.

    The workers are not part of this code: what [execute_model] and [sample_tokens] return for a
    scheduler output, the abort messages that arrive meanwhile, and the draft tokens the workers
    hold are arguments. *)

From S2P Require Import Prelude MathUtils Request BlockHash FreeQueue BlockPool Managers.
From S2P Require Import Coordinator KVCacheManager EncoderCache RequestQueue SchedUtils.
From S2P Require Import SchedulerState Scheduler SchedulerUpdate.

Inductive PauseMode := PauseKeep | PauseAbort | PauseWait.

Section engine.
Context (sha256 : bytes → bytes) (use_int : bool) (cfg : SchedulerConfig).
Context (iter_order : gset Z → list Z) (set_order : gset string → list string).
Context (grammar : string → Grammar) (hasher : option (Request → exn + list bytes)).
Context (grammar_rejects : Request → list Z → bool) (validate_tokens : Request → list Z → list Z).

(** [Scheduler.has_requests], without connectors. *)
Definition has_requests (s : Scheduler) : bool :=
  (0 <? get_num_unfinished_requests s) || has_finished_requests s.

(** [finish_requests] turns the ids into a set; [set_order] is its iteration order. *)
Definition abort_requests (request_ids : list string) : M Scheduler unit :=
  finish_requests iter_order (Some (set_order (list_to_set request_ids))) FINISHED_ABORTED;; mret tt.

(** [task_ok] says that a pooling request asks for a supported task. *)
Definition engine_add_request (r : Request) (task_ok abort_immediately : bool) : M Scheduler unit :=
  if bool_decide (is_Some (pooling_params r)) && negb task_ok then raise ValueError
  else
    sched_add_request r;;
    when abort_immediately (abort_requests [request_id r]).

(** The messages in the queue are lists of ids. *)
Definition _process_aborts_queue (queue : list (list string)) : M Scheduler unit :=
  when (negb (bool_decide (queue = []))) (abort_requests (concat queue)).

(** [EngineCore.step]: schedule, execute, process the aborts that arrived, update. *)
Definition engine_step (throttle : bool) (execute : SchedulerOutput → ModelRunnerOutput)
    (aborts : list (list string)) : M Scheduler (list EngineCoreOutput * bool) :=
  s ← get;
  if negb (has_requests s) then mret ([], false)
  else
    out ← schedule sha256 use_int cfg iter_order grammar throttle;
    _process_aborts_queue aborts;;
    outputs ← update_from_output sha256 use_int cfg iter_order hasher grammar_rejects out (execute out);
    mret (outputs, 0 <? total_num_scheduled_tokens out).

(** [post_step]; [drafts] is what [take_draft_token_ids] returns. *)
Definition post_step (check_for_draft_tokens model_executed : bool)
    (drafts : option (list (string * list Z))) : M Scheduler unit :=
  when (check_for_draft_tokens && negb (async_scheduling cfg) && model_executed)
    (match drafts with
     | Some ds => update_draft_token_ids validate_tokens ds
     | None => mret tt
     end).

(** Without a connector [reset_connector] does nothing. *)
Definition engine_reset_prefix_cache (reset_running_requests : bool) : M Scheduler bool :=
  sched_reset_prefix_cache iter_order reset_running_requests.
Definition _reset_caches : M Scheduler unit :=
  engine_reset_prefix_cache true;; reset_encoder_cache.

Definition pause_scheduler (mode : PauseMode) (clear_cache : bool) : M Scheduler unit :=
  match mode with
  | PauseWait => raise ValueError
  | _ =>
      when (match mode with PauseAbort => true | _ => false end)
        (finish_requests iter_order None FINISHED_ABORTED;; mret tt);;
      modify (set_pause_state (match mode with PauseKeep => PAUSED_ALL | _ => PAUSED_NEW end));;
      when clear_cache _reset_caches
  end.
Definition resume_scheduler : M Scheduler unit := modify (set_pause_state UNPAUSED).
Definition is_scheduler_paused (s : Scheduler) : bool := negb (bool_decide (_pause_state s = UNPAUSED)).
End engine.
