(* ===== verification/EngineFacts.v ===== *)
(** The engine keeps the scheduler in a good state: the invariant between two calls, and what
    each call does to it.  Synchronous scheduling. *)

From S2P Require Import Prelude OrderedDict MathUtils Request BlockHash BlockHashFacts FreeQueue BlockPool Managers.
From S2P Require Import Coordinator KVCacheManager KVCacheFacts EncoderCache EncoderCacheFacts RequestQueue.
From S2P Require Import RequestQueueFacts SchedUtils SchedUtilsFacts KVCacheService SchedulerState Scheduler.
From S2P Require Import SchedulerUpdate SchedulerQueues SchedulerFrame SchedulerInv SchedulerRequests.
From S2P Require Import SchedulerSteps SchedulerSchedule SchedulerTokens SchedulerProcess SchedulerLoop.
From S2P Require Import EngineCore.

Set Warnings "-level-tolerance,-clear-no-such-hyp".

Section engine.
Context {sha256 : bytes → bytes} {use_int : bool} {mml hbs : Z} {events : bool}.
Context `{KV : !KVService sha256 use_int mml hbs events} (cfg : SchedulerConfig).
Context {hasher : option (Request → exn + list bytes)} `{HH : !Hashing hbs hasher}.
Context (iter_order : gset Z → list Z) (Hiter : ∀ X, iter_order X ≡ₚ elements X).
Context (set_order : gset string → list string) (Hset : ∀ X, set_order X ≡ₚ elements X).
Context (grammar : string → Grammar) (grammar_rejects : Request → list Z → bool).
Context (validate_tokens : Request → list Z → list Z).
Context (Hcfg : cfg_ok mml cfg) (Hsync : async_scheduling cfg = false).
Implicit Types (s : Scheduler) (rid : string) (x y : SReq) (r : Request).
Implicit Types (out : SchedulerOutput) (mro : ModelRunnerOutput) (g : list (string * Z)).

#[local] Abbreviation sched_inv := (sched_inv (KV := KV) cfg).
#[local] Abbreviation calm := (calm (mml := mml) (hbs := hbs) (hasher := hasher)).
#[local] Abbreviation tokens_ok := (tokens_ok (mml := mml) (hbs := hbs) (hasher := hasher)).

(** Between two calls: the invariant of the scheduler, and no tokens in flight. *)
Definition engine_ok s : Prop := sched_inv s ∧ all_requests (calm []) s.

(** ** The step of the scheduler *)

(** The request objects after the step are those before it: [same] keeps what never changes. *)
Definition same_pooling s0 rid x : Prop :=
  ∃ x0, requests s0 !! rid = Some x0 ∧ pooling_params (req x) = pooling_params (req x0).
Definition at_rest s0 g rid x : Prop := calm g rid x ∧ same_pooling s0 rid x.

Lemma rest_frame s0 : step_frame (at_rest s0 []).
Proof using.
  split.
  - intros rid x c sp pre bd st [[C1 C2 C3 C4] Hp]. split; [|done]. split; try done. by apply tokens_ok_progress.
  - intros rid x drop [[C1 C2 C3 C4] Hp]. split; [|done]. split; try done. by apply tokens_ok_progress.
Qed.

Lemma advance_rest s0 g rid n s s' :
  advance_request (rid, n) s = (inr tt, s') → rid ∉ g.*1 →
  all_requests (at_rest s0 g) s → all_requests (at_rest s0 (g ++ [(rid, n)])) s'.
Proof using.
  intros E Hn Hs. destruct (requests s !! rid) as [x|] eqn:Hx.
  2: { unfold advance_request, lookup_req, mbind, M_bind in E. simpl in E. by rewrite Hx in E. }
  assert (wp (advance_request (rid, n)) (λ _ s', ∃ b, requests s' = <[rid := set_prefill_chunk b (set_req (λ r,
    set_in_flight (num_in_flight_tokens r + n) (set_computed (num_computed_tokens r + n) r)) x)]> (requests s)) s) as Hw.
  { unfold advance_request, assign, update_req. wp_steps. eapply wp_lookup_req; [exact Hx|]. wp_steps.
    rewrite (alter_insert_eq _ _ _ _ Hx). eapply wp_lookup_req; [simpl; apply lookup_insert_eq|]. wp_steps. simpl.
    rewrite (alter_insert_eq _ _ _ _ (lookup_insert_eq _ _ _)), insert_insert_eq.
    apply wp_when; intros _; wp_steps; by eexists. }
  destruct Hw as ([] & s2 & E2 & b & Er). rewrite E in E2. injection E2 as <-.
  intros rid' y. rewrite Er, lookup_insert. case_decide as E'.
  - subst rid'. intros [= <-]. destruct (Hs rid x Hx) as [[C1 C2 C3 C4] Hp]. split; [|done]. split; try done.
    + rewrite od_get_snoc, decide_True by done. simpl. rewrite C1.
      destruct (od_get g rid) as [m|] eqn:Eg; [|done]. apply od_get_elem in Eg. destruct Hn.
      by apply (list_elem_of_fmap_2 fst) in Eg.
    + simpl. by apply tokens_ok_progress, tokens_ok_progress.
  - intros Hy. destruct (Hs rid' y Hy) as [[C1 C2 C3 C4] Hp]. split; [|done]. split; try done.
    by rewrite od_get_snoc, decide_False by done.
Qed.

Lemma advance_all_rest s0 l g s s' :
  for_each l advance_request s = (inr tt, s') → NoDup (g ++ l).*1 →
  all_requests (at_rest s0 g) s → all_requests (at_rest s0 (g ++ l)) s'.
Proof using.
  revert g s. induction l as [|[rid n] l IH]; intros g s E Hnd Hs; cbn [for_each] in E.
  { injection E as <-. by rewrite app_nil_r. }
  unfold mbind, M_bind in E. destruct (advance_request (rid, n) s) as [[e|[]] s1] eqn:E1; [done|].
  rewrite cons_middle, app_assoc in Hnd |- *. eapply IH; [exact E|done|].
  eapply advance_rest; [exact E1| |done].
  rewrite !fmap_app in Hnd. apply NoDup_app in Hnd as (Hnd & _ & _). apply NoDup_app in Hnd as (_ & Hd & _).
  intros Hin. apply (Hd rid Hin). by left.
Qed.

Lemma schedule_rest s0 throttle :
  after (at_rest s0 []) (schedule sha256 use_int cfg iter_order grammar throttle)
    (λ out s', NoDup (out_num_scheduled_tokens out).*1 →
       all_requests (at_rest s0 (out_num_scheduled_tokens out)) s').
Proof using Hsync.
  apply schedule_after; [apply rest_frame|]. intros out s a s' E Hs Hnd.
  unfold _update_after_schedule, base_update_after_schedule in E. rewrite Hsync in E.
  unfold mbind, M_bind in E. destruct (for_each _ _ s) as [[e|[]] s1] eqn:E1; [done|]. simpl in E. injection E as <- <-.
  intros rid x Hx. by eapply (advance_all_rest s0 (out_num_scheduled_tokens out) [] s s1).
Qed.

Lemma schedule_step_spec s throttle :
  engine_ok s →
  wp (schedule sha256 use_int cfg iter_order grammar throttle) (λ out s', sched_inv s'
    ∧ all_requests (at_rest s (out_num_scheduled_tokens out)) s' ∧ in_flight out s') s.
Proof using Hiter Hcfg Hsync.
  intros [H Hc]. eapply wp_mono; [eapply (after_wp (at_rest s [])); [apply (schedule_rest s throttle)|..]|].
  - intros rid x Hx. split; [by apply Hc|]. by exists x.
  - by apply (schedule_spec cfg iter_order Hiter grammar Hcfg s throttle).
  - simpl. intros out s' [[Hi Ho] Hrest]. pose proof (oo_ids _ _ _ _ Ho) as Hids. split_and!; [done|by apply Hrest|].
    split; [done|]. intros rid n Hin. destruct (oo_given _ _ _ _ Ho rid n Hin) as (Hr & Hn & x & Hx & _ & _ & Hd).
    split; [done|]. intros y Hy. assert (y = x) as -> by congruence. done.
Qed.

(** ** Aborts *)

Lemma aborts_distinct ids : NoDup (set_order (list_to_set ids)) ∧ ∀ rid, rid ∈ set_order (list_to_set ids) ↔ rid ∈ ids.
Proof using Hset.
  split; [rewrite Hset; apply NoDup_elements|]. intros rid. by rewrite Hset, elem_of_elements, elem_of_list_to_set.
Qed.

Lemma abort_spec s ids :
  sched_inv s →
  wp (abort_requests iter_order set_order ids) (λ _ s', sched_inv s'
    ∧ (∀ rid, requests s' !! rid = if decide (rid ∈ ids) then None else requests s !! rid)
    ∧ running s' = filter (.∉ ids) (running s)) s.
Proof using Hiter Hset.
  intros H. destruct (aborts_distinct ids) as [Hnd Hin]. unfold abort_requests. apply wp_bind.
  eapply wp_mono; [by apply (finish_requests_spec cfg iter_order Hiter s _ FINISHED_ABORTED)|].
  simpl. intros _ s' (Hi & _ & Er & Erun & _). wp_steps. split_and!; [done| |].
  - intros rid. rewrite Er. by apply decide_ext.
  - rewrite Erun. apply filter_ext_elem. intros rid _. by rewrite Hin.
Qed.

Lemma process_aborts_spec s queue :
  sched_inv s →
  wp (_process_aborts_queue iter_order set_order queue) (λ _ s', sched_inv s'
    ∧ (∀ rid x, requests s' !! rid = Some x → requests s !! rid = Some x)
    ∧ (∀ rid x, requests s' !! rid = Some x → rid ∈ running s → rid ∈ running s')) s.
Proof using Hiter Hset.
  intros H. unfold _process_aborts_queue. apply wp_when; intros _; [|done].
  eapply wp_mono; [by apply abort_spec|]. simpl. intros _ s' (Hi & Er & Erun). split_and!; [done|..].
  - intros rid x. rewrite Er. by case_decide.
  - intros rid x Hx Hr. rewrite Erun, list_elem_of_filter. split; [|done]. rewrite Er in Hx. by case_decide.
Qed.

(** ** The step of the engine *)

(** What the workers promise for the outputs of the step from [s]. *)
Definition workers_ok s (execute : SchedulerOutput → ModelRunnerOutput) : Prop :=
  ∀ out rid n, (rid, n) ∈ out_num_scheduled_tokens out → answer cfg out (execute out) rid
    ∧ ∀ x, requests s !! rid = Some x → generates (execute out) rid → pooling_params (req x) = None.

Lemma engine_step_spec s throttle execute aborts :
  engine_ok s → workers_ok s execute →
  wp (engine_step sha256 use_int cfg iter_order set_order grammar hasher grammar_rejects throttle execute aborts)
    (λ _ s', engine_ok s') s.
Proof using Hiter Hset Hcfg Hsync.
  intros H Hw. unfold engine_step. wp_steps. destruct (negb (has_requests s)); [by wp_steps|].
  wp_steps. eapply wp_mono; [by apply schedule_step_spec|]. simpl. intros out s1 (Hi1 & Hr1 & [Hids Hfl]). wp_steps.
  eapply wp_mono; [by apply process_aborts_spec|]. simpl. intros _ s2 (Hi2 & Hsub & Hrun). wp_steps.
  eapply wp_mono; [apply (update_from_output_spec cfg iter_order Hiter grammar_rejects Hcfg Hsync s2 out (execute out) Hi2)|].
  - intros rid x Hx. by apply (Hr1 rid x), Hsub.
  - split; [done|]. intros rid n Hin. destruct (Hfl rid n Hin) as [Hn Hx]. split; [done|]. intros x Hx2.
    destruct (Hx x (Hsub rid x Hx2)) as [Hr Hd]. split; [by eapply Hrun|done].
  - intros rid n Hin. destruct (Hw out rid n Hin) as [Ha Hp]. split; [done|]. intros x Hx Hg.
    destruct (Hr1 rid x (Hsub rid x Hx)) as [_ (x0 & Hx0 & ->)]. by apply (Hp x0).
  - simpl. intros res s3 ?. by wp_steps.
Qed.

(** ** The other calls *)

(** A request the engine accepts. *)
Record submitted r : Prop := {
  sb_fresh : fresh_request (mml := mml) (hbs := hbs) (events := events) r;
  sb_tokens : tokens_ok r;
  sb_flight : num_in_flight_tokens r = 0;
}.

Lemma engine_add_spec s r task_ok abort_now :
  engine_ok s → submitted r → requests s !! request_id r = None →
  (is_Some (pooling_params r) → task_ok = true) →
  wp (engine_add_request iter_order set_order r task_ok abort_now) (λ _ s', engine_ok s'
    ∧ ∀ rid, requests s' !! rid = if decide (rid = request_id r)
        then (if abort_now then None else Some (new_sreq r)) else requests s !! rid) s.
Proof using Hiter Hset.
  intros [H Hc] [F1 F2 F3] Hn Ht. unfold engine_add_request.
  assert (bool_decide (is_Some (pooling_params r)) && negb task_ok = false) as ->.
  { case_bool_decide as Hp; [|done]. by rewrite Ht. }
  wp_steps. eapply wp_mono; [by apply (add_request_spec cfg s r)|]. simpl. intros _ s1 (Hi & Er & _).
  assert (all_requests (calm []) s1) as Hc1.
  { intros rid x. rewrite Er, lookup_insert. case_decide; [|apply Hc]. subst. intros [= <-]. by split. }
  apply wp_when; intros ->.
  - eapply wp_mono; [by apply abort_spec|]. simpl. intros _ s2 (Hi2 & Er2 & _).
    assert (∀ rid, requests s2 !! rid = if decide (rid = request_id r) then None else requests s !! rid) as Hreq.
    { intros rid. rewrite Er2, Er, lookup_insert. repeat case_decide; try done.
      - by apply list_elem_of_singleton in H0.
      - subst. by apply not_elem_of_cons in H0 as [? _]. }
    split; [split; [done|]|done]. intros rid x. rewrite Hreq. case_decide; [done|]. apply Hc.
  - split; [done|]. intros rid. rewrite Er, lookup_insert. repeat case_decide; congruence || done.
Qed.

Lemma drafts_spec s drafts :
  engine_ok s → wp (update_draft_token_ids validate_tokens drafts) (λ _ s', engine_ok s') s.
Proof using.
  intros H. unfold update_draft_token_ids. apply (wp_for_each _ (λ _ s', engine_ok s')); [done|].
  clear s H. intros pre [rid spec] post s _ [H Hc]. wp_steps. destruct (requests s !! rid) as [x|] eqn:Hx; [|by wp_steps].
  destruct (is_finished (req x)); [by wp_steps|].
  assert (∀ toks, wp (assign rid (set_spec toks)) (λ _ s', engine_ok s') s) as Hset'.
  { intros toks. unfold assign, update_req. wp_steps. destruct (si_req _ _ _ H rid x Hx) as [K1 [V1 V2 V3 V4 V5] K3 K4 K5].
    split.
    - apply (inv_alter cfg [] s rid _ x H Hx); try done.
      + intros Hr. destruct (si_running _ _ _ H rid Hr) as (y & Hy & ? & ?). assert (y = x) as -> by congruence. done.
      + intros Hq. destruct (si_waiting _ _ _ H rid Hq) as (y & Hy & [] & _). assert (y = x) as -> by congruence. done.
    - intros rid' y. simpl. rewrite lookup_alter_Some. intros [(<- & z & Hz & ->)|[_ Hy]]; [|by apply Hc].
      destruct (Hc rid z Hz) as [C1 C2 C3 C4]. split; try done. by apply tokens_ok_progress. }
  destruct (is_prefill_chunk x); apply Hset'.
Qed.

Lemma post_step_spec s check executed drafts :
  engine_ok s → wp (post_step cfg validate_tokens check executed drafts) (λ _ s', engine_ok s') s.
Proof using.
  intros H. unfold post_step. apply wp_when; intros _; [|done]. destruct drafts; [by apply drafts_spec|by wp_steps].
Qed.

Lemma kept_preempt_all P fuel : step_frame P → kept P (preempt_all iter_order fuel).
Proof using.
  intros HP. induction fuel as [|fuel IH]; simpl; [apply kept_raise|]. apply kept_bind; [apply kept_get|].
  intros s. destruct (last (running s)); [|apply kept_ret]. apply kept_bind; [by apply kept_modify|]. intros _.
  apply kept_bind; [by apply kept_preempt|done].
Qed.

Lemma engine_reset_spec s reset_running :
  engine_ok s →
  wp (engine_reset_prefix_cache iter_order reset_running) (λ ok s', engine_ok s'
    ∧ (reset_running = true → ok = true ∧ running s' = [])
    ∧ ∀ rid, requests s !! rid = None → requests s' !! rid = None) s.
Proof using Hiter.
  intros [H Hc].
  assert (kept (at_rest s []) (engine_reset_prefix_cache iter_order reset_running)) as Hk.
  { unfold engine_reset_prefix_cache, sched_reset_prefix_cache.
    apply kept_bind; [apply kept_get|]. intros s'. apply kept_bind.
    - apply kept_when, kept_bind; [apply kept_preempt_all, rest_frame|]. intros _. by apply kept_modify.
    - intros _. apply kept_bind; [apply kept_kvm|]. intros ok. destruct (_ && _); [apply kept_raise|apply kept_ret]. }
  eapply wp_mono; [eapply (after_wp (at_rest s []) _ (λ _ s', all_requests (at_rest s []) s'))|].
  - intros s1 a s2 E Hs. by eapply Hk.
  - intros rid x Hx. split; [by apply Hc|]. by exists x.
  - by apply (reset_spec cfg iter_order Hiter s reset_running).
  - simpl. intros ok s' [[Hi Hres] Hr]. split_and!; [split; [done|]|done|].
    + intros rid x Hx. by apply (Hr rid x).
    + intros rid Hno. destruct (requests s' !! rid) as [x|] eqn:Hx; [|done].
      destruct (Hr rid x Hx) as [_ (x0 & ? & _)]. congruence.
Qed.

Lemma reset_caches_spec s :
  engine_ok s → wp (_reset_caches iter_order) (λ _ s', engine_ok s' ∧ running s' = []
    ∧ ∀ rid, requests s !! rid = None → requests s' !! rid = None) s.
Proof using Hiter.
  intros H. unfold _reset_caches. wp_steps. eapply wp_mono; [by apply engine_reset_spec|].
  simpl. intros ok s' ([Hi Hc] & Hr & Hno). destruct (Hr eq_refl) as [_ Er]. apply wp_on_enc. unfold on_encoder.
  destruct (encoder_cache_manager s') as [m|m] eqn:Ee; eexists _, _; (split; [done|]); (split; [split|done]); try done;
    by apply inv_enc.
Qed.

(** The requests of [s] that remain keep their state. *)
Lemma engine_sub s s' :
  engine_ok s → sched_inv s' → (∀ rid x, requests s' !! rid = Some x → requests s !! rid = Some x) → engine_ok s'.
Proof using. intros [_ Hc] Hi Hsub. split; [done|]. intros rid x Hx. by apply Hc, Hsub. Qed.

Lemma finish_all_spec s st :
  sched_inv s → status_is_finished st = true →
  wp (finish_requests iter_order None st) (λ _ s', sched_inv s' ∧ requests s' = ∅) s.
Proof using Hiter.
  intros H Hst. set (ids := (map_to_list (requests s)).*1).
  eapply (wp_ext _ (finish_requests iter_order (Some ids) st)).
  { unfold finish_requests, assert. by rewrite Hst. }
  eapply wp_mono; [apply (finish_requests_spec cfg iter_order Hiter s ids st H); [apply NoDup_fst_map_to_list|done]|].
  simpl. intros _ s' (Hi & _ & Er & _). split; [done|]. apply map_empty. intros rid. rewrite Er.
  destruct (requests s !! rid) as [x|] eqn:Hx; [|by case_decide]. rewrite decide_True; [done|].
  unfold ids. apply list_elem_of_fmap. exists (rid, x). split; [done|]. by apply elem_of_map_to_list.
Qed.

Lemma pause_spec s mode clear :
  engine_ok s → mode ≠ PauseWait →
  wp (pause_scheduler iter_order mode clear) (λ _ s', engine_ok s'
    ∧ (mode = PauseAbort → requests s' = ∅) ∧ (clear = true → running s' = [])) s.
Proof using Hiter.
  intros H Hm. assert (∀ s', engine_ok s' → (mode = PauseAbort → requests s' = ∅) → ∀ p,
    wp (modify (set_pause_state p);; when clear (_reset_caches iter_order)) (λ _ s', engine_ok s'
      ∧ (mode = PauseAbort → requests s' = ∅) ∧ (clear = true → running s' = [])) s') as Hrest.
  { intros s' [Hi Hc] He p. wp_steps. set (s1 := set_pause_state p s').
    assert (engine_ok s1) as H1 by (split; [by apply inv_clock|done]).
    apply wp_when; intros Hcl; [|by rewrite Hcl]. eapply wp_mono; [apply (reset_caches_spec s1 H1)|].
    simpl. intros _ s2 (H2 & Er & Hno). split_and!; [done| |done]. intros E. apply map_empty. intros rid.
    apply Hno. simpl. by rewrite He, lookup_empty. }
  unfold pause_scheduler. destruct mode; [| |done]; simpl.
  - wp_steps. by apply Hrest.
  - wp_steps. eapply wp_mono; [apply finish_all_spec; [apply H|done]|]. simpl. intros _ s' [Hi Er]. wp_steps. apply Hrest; [|done].
    apply (engine_sub s); try done. intros rid x. by rewrite Er, lookup_empty.
Qed.

Lemma resume_spec s : engine_ok s → wp resume_scheduler (λ _ s', engine_ok s') s.
Proof using. intros [Hi Hc]. unfold resume_scheduler. wp_steps. split; [by apply inv_clock|done]. Qed.

Lemma init_engine kvm enc :
  kv_ready kvm → (∀ rid, kv_unknown kvm rid) → enc_idle enc → 0 ≤ max_num_running_reqs cfg →
  engine_ok (Scheduler_init cfg kvm enc).
Proof using.
  intros Hk Hu He Hm. split; [by apply init_sched|]. intros rid x Hx. simpl in Hx. by rewrite lookup_empty in Hx.
Qed.
End engine.
