(* ===== verification/EngineTheorems.v ===== *)
(** The engine loop on the real components: the scheduler with the KV cache manager of
    [KVCacheManager.v] and the block hasher of [BlockHash.v].  Whatever sequence of calls arrives,
    no call raises and the books of scheduler and cache agree. *)

From S2P Require Import Prelude MathUtils Request BlockHash BlockHashFacts FreeQueue BlockPool.
From S2P Require Import BlockPoolSpec BlockPoolTheorems Managers ManagerFacts Coordinator.
From S2P Require Import CoordinatorFacts CoordinatorTheorems KVCacheManager KVCacheFacts KVCacheSteps KVCacheLookup.
From S2P Require Import KVCacheTheorems KVCacheService EncoderCache EncoderCacheFacts RequestQueue SchedUtils.
From S2P Require Import SchedulerState Scheduler SchedulerUpdate SchedulerQueues SchedulerFrame SchedulerInv.
From S2P Require Import SchedulerRequests SchedulerSteps SchedulerSchedule SchedulerTokens SchedulerProcess SchedulerLoop.
From S2P Require Import EngineCore EngineFacts.

Set Warnings "-level-tolerance,-clear-no-such-hyp".

(** ** Calls and reachable states *)

Inductive engine_call :=
  | EAdd (r : Request) (task_ok abort_immediately : bool)
  | EAbort (ids : list string)
  | EStep (throttle : bool) (execute : SchedulerOutput → ModelRunnerOutput) (aborts : list (list string))
  | EPostStep (check executed : bool) (drafts : option (list (string * list Z)))
  | EResetPrefix (reset_running : bool)
  | EPause (mode : PauseMode) (clear : bool)
  | EResume.

Section machine.
Context (sha256 : bytes → bytes) (hash_function : bytes * list Z * option (list ExtraKey) → bytes).
Context (NONE_HASH : bytes) (use_int : bool) (mml hbs : Z) (events : bool) (Hhbs : 0 < hbs).
Context (cfg : SchedulerConfig) (iter_order : gset Z → list Z) (set_order : gset string → list string).
Context (grammar : string → Grammar) (grammar_rejects : Request → list Z → bool).
Context (validate_tokens : Request → list Z → list Z).
Implicit Types (s : Scheduler) (call : engine_call) (rid : string) (r : Request).

Definition engine_hasher : option (Request → exn + list bytes) :=
  Some (request_block_hasher sha256 hash_function NONE_HASH hbs).
#[local] Instance engine_hashing : Hashing hbs engine_hasher := block_hashing sha256 hash_function NONE_HASH hbs Hhbs.
#[local] Existing Instance kvm_service.

Definition perform_call call : M Scheduler unit :=
  match call with
  | EAdd r task_ok abort_now => engine_add_request iter_order set_order r task_ok abort_now
  | EAbort ids => abort_requests iter_order set_order ids
  | EStep throttle execute aborts =>
      engine_step sha256 use_int cfg iter_order set_order grammar engine_hasher grammar_rejects throttle execute aborts;;
      mret tt
  | EPostStep check executed drafts => post_step cfg validate_tokens check executed drafts
  | EResetPrefix reset_running => engine_reset_prefix_cache iter_order reset_running;; mret tt
  | EPause mode clear => pause_scheduler iter_order mode clear
  | EResume => resume_scheduler
  end.

(** A text request as the input processor builds it: its prompt is shorter than the model length
    and leaves room for [min_tokens], and its blocks are hashed. *)
Record admissible r : Prop := {
  ad_tokens : 1 ≤ num_tokens r ≤ mml ∧ num_tokens r = num_prompt_tokens r ∧ num_output_tokens r = 0;
  ad_room : pooling_params r = None → ∃ sp, sampling_params r = Some sp
    ∧ num_tokens r < mml ∧ num_prompt_tokens r + min_tokens sp ≤ mml;
  ad_hashes : hashes_ok sha256 hash_function NONE_HASH hbs r;
  ad_report : events = false ∨ kv_cache_report_mode r ≠ "full"%string;
  ad_text : mm_features r = [];
  ad_status : status r = WAITING ∨ status r = WAITING_FOR_STRUCTURED_OUTPUT_GRAMMAR;
  ad_start : num_computed_tokens r = 0 ∧ num_preemptions r = 0 ∧ num_in_flight_tokens r = 0;
}.

(** What the front end and the workers ensure. *)
Definition acceptable s call : Prop :=
  match call with
  | EAdd r task_ok _ => admissible r ∧ requests s !! request_id r = None
      ∧ (is_Some (pooling_params r) → task_ok = true)
  | EStep _ execute _ => workers_ok cfg s execute
  | EPause mode _ => mode ≠ PauseWait
  | EAbort _ | EPostStep _ _ _ | EResetPrefix _ | EResume => True
  end.

Inductive engine_reach s0 : Scheduler → Prop :=
  | engine_start : engine_reach s0 s0
  | engine_next s call : engine_reach s0 s → acceptable s call → engine_reach s0 (perform_call call s).2.

Lemma admissible_submitted r :
  admissible r → submitted (mml := mml) (hbs := hbs) (events := events) (hasher := engine_hasher) r.
Proof using.
  intros [(A1 & A2 & A3) A4 A5 A6 A7 A8 (A9 & A10 & A11)]. pose proof A5 as [A5' _].
  split; [split; [split|..]|split|]; try done; lia.
Qed.

Context (Hiter : ∀ X, iter_order X ≡ₚ elements X) (Hset : ∀ X, set_order X ≡ₚ elements X).
Context (Hcfg : cfg_ok mml cfg) (Hsync : async_scheduling cfg = false).

#[local] Abbreviation kvs := (kvm_service sha256 use_int mml hbs events).
#[local] Abbreviation good := (engine_ok (sha256 := sha256) (use_int := use_int) (mml := mml) (hbs := hbs)
  (events := events) (hasher := engine_hasher) cfg).

Lemma perform_call_spec s call : good s → acceptable s call → wp (perform_call call) (λ _ s', good s') s.
Proof using Hiter Hset Hcfg Hsync.
  intros H Ha. destruct call as [r task now|ids|thr ex ab|ch exd dr|b|mode clear|]; simpl in *.
  - destruct Ha as (Hr & Hn & Ht). eapply wp_mono; [apply (engine_add_spec (KV := kvs) (HH := engine_hashing) cfg iter_order Hiter set_order Hset s r); try done|].
    { by apply admissible_submitted. }
    simpl. by intros _ s' [? _].
  - eapply wp_mono; [apply (abort_spec (KV := kvs) cfg iter_order Hiter set_order Hset s ids), H|]. simpl. intros _ s' (Hi & Er & _).
    apply (engine_sub (KV := kvs) (HH := engine_hashing) cfg s); [done..|]. intros rid x. rewrite Er. by case_decide.
  - apply wp_bind. eapply wp_mono; [by apply (engine_step_spec (KV := kvs) (HH := engine_hashing) cfg iter_order Hiter set_order Hset grammar grammar_rejects Hcfg Hsync)|].
    simpl. intros _ s' ?. by wp_steps.
  - by apply (post_step_spec (KV := kvs) (HH := engine_hashing) cfg).
  - apply wp_bind. eapply wp_mono; [by apply (engine_reset_spec (KV := kvs) (HH := engine_hashing) cfg iter_order Hiter)|]. simpl. intros _ s' [? _]. by wp_steps.
  - eapply wp_mono; [by apply (pause_spec (KV := kvs) (HH := engine_hashing) cfg iter_order Hiter)|]. simpl. by intros _ s' [? _].
  - by apply (resume_spec (KV := kvs) (HH := engine_hashing) cfg).
Qed.

Lemma engine_reach_good s0 s : good s0 → engine_reach s0 s → good s.
Proof using Hiter Hset Hcfg Hsync.
  intros H0. induction 1 as [|s call Hr IH Ha]; [done|].
  destruct (perform_call_spec s call IH Ha) as (a & s' & E & H'). by rewrite E.
Qed.
End machine.

(** ** Safety of the engine loop *)

Section safety.
Context (sha256 : bytes → bytes) (hash_function : bytes * list Z * option (list ExtraKey) → bytes).
Context (NONE_HASH : bytes) (use_int : bool) (mml hbs : Z) (events : bool) (Hhbs : 0 < hbs).
Context (cfg : SchedulerConfig) (iter_order : gset Z → list Z) (set_order : gset string → list string).
Context (grammar : string → Grammar) (grammar_rejects : Request → list Z → bool).
Context (validate_tokens : Request → list Z → list Z).
Context (Hiter : ∀ X, iter_order X ≡ₚ elements X) (Hset : ∀ X, set_order X ≡ₚ elements X).
Context (Hcfg : cfg_ok mml cfg) (Hsync : async_scheduling cfg = false) (Hmax : 0 ≤ max_num_running_reqs cfg).
Context (kcfg : KVCacheConfig) (sbs : Z) (mif : option Z) (caching eagle : bool) (npl : Z) (stats : bool).
Context (dcp pcp : Z) (wok : bool) (wm : Z) (md : list (string * option Z)) (kvm : KVCacheManager) (enc : EncoderCache).
Context (Hinit : KVCacheManager_init kcfg mml sbs hbs mif caching eagle npl stats events dcp pcp wok wm md = inr kvm).
Context (Hsup : supported kcfg sbs hbs dcp caching) (Hwm : 0 ≤ wm) (Hlookup : lookup_cfg (coordinator kvm)).
Context (Hgroups : managers kvm ≠ []) (Henc : enc_idle enc).
Implicit Types (s : Scheduler) (rid : string).

#[local] Abbreviation perform :=
  (perform_call sha256 hash_function NONE_HASH use_int hbs cfg iter_order set_order grammar grammar_rejects validate_tokens).
#[local] Abbreviation accepts := (acceptable sha256 hash_function NONE_HASH mml hbs events cfg).
#[local] Abbreviation reach := (engine_reach sha256 hash_function NONE_HASH use_int mml hbs events cfg iter_order
  set_order grammar grammar_rejects validate_tokens (Scheduler_init cfg kvm enc)).
#[local] Abbreviation kvs := (kvm_service sha256 use_int mml hbs events).

Lemma reach_good s :
  reach s → engine_ok (KV := kvs) (HH := engine_hashing sha256 hash_function NONE_HASH hbs Hhbs) cfg s.
Proof using Hiter Hset Hcfg Hsync Hmax Hinit Hsup Hwm Hlookup Hgroups Henc.
  destruct (init_service _ _ _ _ _ _ _ _ _ _ _ _ _ _ _ _ Hinit Hsup Hwm Hlookup Hgroups) as [Hr Hu].
  intros Hreach. eapply engine_reach_good; [done..| |exact Hreach]. by apply (init_engine (KV := kvs)).
Qed.

(** Nothing runs, so nothing holds a block. *)
Lemma quiet_free s :
  sched_inv (KV := kvs) cfg s → running s = [] →
  get_num_free_blocks (pool (kv_cache_manager s)) = num_gpu_blocks (pool (kv_cache_manager s)) - 1.
Proof using.
  intros H Hr. pose proof (si_kv _ _ _ H) as Hk. destruct (so_inv _ _ _ _ Hk) as [l Hl].
  rewrite (free_blocks_len _ l Hl). apply (idle_free _ l Hl). split; [apply Hk|]. intros m [i Hm]%list_elem_of_lookup.
  split; [|by apply (so_copies _ _ _ _ Hk i)]. intros rid.
  destruct (inv_unknown cfg [] s rid H) with (i := i) (m := m) as [? _]; [rewrite Hr; apply not_elem_of_nil|done..].
Qed.

(** C1: the engine loop is safe, for a supported KV cache configuration without EAGLE groups in
    the lookup ([supported], [lookup_cfg]).  From a new scheduler and a new KV cache manager, after any
    sequence of calls (adding and aborting requests, whole engine steps with aborts arriving
    while the model runs and with any well-formed worker output, draft tokens, resets, pauses),
    every further acceptable call returns without an exception; every known request is in
    exactly one place, [running] or one waiting queue, and [running] is within its limit; a
    running request has in every KV cache group slots for all its computed tokens, and a request
    that is not running holds no block. *)
Theorem engine_loop_safe s :
  reach s →
  (∀ call, accepts s call → (perform call s).1 = inr tt)
  ∧ NoDup (running s ++ queued [] s) ∧ zlen (running s) ≤ max_num_running_reqs cfg
  ∧ (∀ rid, is_Some (requests s !! rid) ↔ rid ∈ running s ++ queued [] s)
  ∧ (∀ rid x i m, requests s !! rid = Some x → rid ∈ running s →
       managers (kv_cache_manager s) !! i = Some m →
       cdiv (num_computed_tokens (req x)) (block_size m) ≤ zlen (table m rid))
  ∧ (∀ rid i m, rid ∉ running s → managers (kv_cache_manager s) !! i = Some m → table m rid = []).
Proof using Hiter Hset Hcfg Hsync Hmax Hinit Hsup Hwm Hlookup Hgroups Henc Hhbs.
  intros Hreach. pose proof (reach_good s Hreach) as Hg. pose proof Hg as [H _]. split_and!.
  - intros call Ha. by destruct (perform_call_spec sha256 hash_function NONE_HASH use_int mml hbs events Hhbs cfg
      iter_order set_order grammar grammar_rejects validate_tokens Hiter Hset Hcfg Hsync s call Hg Ha) as ([] & s' & -> & _).
  - apply H.
  - apply H.
  - intros rid. split; [apply H|]. rewrite elem_of_app. by apply (listed_known (KV := kvs) cfg).
  - intros rid x i m Hx Hr Hm. destruct (si_running _ _ _ H rid Hr) as (y & Hy & _ & Hs).
    assert (y = x) as -> by congruence. by apply (Hs i).
  - intros rid i m Hr Hm. by apply (inv_unknown cfg [] s rid H Hr i).
Qed.

(** C2: the engine never leaks KV cache blocks.  In every reachable state in which no request
    runs (all requests finished, aborted, preempted or still waiting), all blocks but the null
    block are free; and pausing in abort mode always reaches such a state, with no request left. *)
Theorem engine_no_leak s :
  reach s →
  (running s = [] →
     get_num_free_blocks (pool (kv_cache_manager s)) = num_gpu_blocks (pool (kv_cache_manager s)) - 1)
  ∧ ∀ clear, wp (pause_scheduler iter_order PauseAbort clear) (λ _ s', requests s' = ∅ ∧ running s' = []
      ∧ get_num_free_blocks (pool (kv_cache_manager s')) = num_gpu_blocks (pool (kv_cache_manager s')) - 1) s.
Proof using Hiter Hset Hcfg Hsync Hmax Hinit Hsup Hwm Hlookup Hgroups Henc Hhbs.
  intros Hreach. pose proof (reach_good s Hreach) as Hg. split; [intros Hr; by apply quiet_free; [apply Hg|]|].
  intros clear. eapply wp_mono; [by apply (pause_spec (KV := kvs) cfg iter_order Hiter s PauseAbort clear Hg)|].
  simpl. intros _ s' ([Hi _] & He & _). specialize (He eq_refl). split; [done|].
  assert (running s' = []) as Er.
  { destruct (running s') as [|rid rs] eqn:E; [done|]. destruct (si_running _ _ _ Hi rid) as (x & Hx & _).
    - rewrite E. by left.
    - by rewrite He, lookup_empty in Hx. }
  split; [done|]. by apply quiet_free.
Qed.
End safety.

(** ** One scheduling step *)

Section step.
Context (sha256 : bytes → bytes) (use_int : bool) (mml hbs : Z) (events : bool) (cfg : SchedulerConfig).
Context (iter_order : gset Z → list Z) (grammar : string → Grammar).
Context (Hiter : ∀ X, iter_order X ≡ₚ elements X) (Hcfg : cfg_ok mml cfg).
#[local] Abbreviation kvs := (kvm_service sha256 use_int mml hbs events).

(** C3: a scheduling step, synchronous or asynchronous, never raises, its loops terminate, and it
    keeps the invariant of the scheduler.  The scheduled tokens add up to the reported total and
    stay within the budget of the step (zero when paused); with the slots for drafting they stay
    within the input budget.  No request is scheduled twice; every scheduled request runs, gets
    at least one token, does not pass the model length, has in every KV cache group slots for all
    tokens scheduled so far, and has no more draft tokens than tokens. *)
Theorem schedule_correct s throttle :
  sched_inv (KV := kvs) cfg s →
  wp (schedule sha256 use_int cfg iter_order grammar throttle) (λ out s',
    sched_inv (KV := kvs) cfg s'
    ∧ total_num_scheduled_tokens out = sum_list (out_num_scheduled_tokens out).*2
    ∧ total_num_scheduled_tokens out
      ≤ (if bool_decide (_pause_state s = PAUSED_ALL) then 0 else max_num_scheduled_tokens cfg)
    ∧ sum_list ((λ n, n + draft_slots cfg) <$> (out_num_scheduled_tokens out).*2) ≤ cfg_max_num_batched_tokens cfg
    ∧ NoDup (out_num_scheduled_tokens out).*1
    ∧ ∀ rid n, (rid, n) ∈ out_num_scheduled_tokens out → rid ∈ running s' ∧ 1 ≤ n
        ∧ ∃ x, requests s' !! rid = Some x ∧ n ≤ num_computed_tokens (req x) ≤ mml
            ∧ zlen (default [] (out_spec_decode_tokens out !! rid)) ≤ num_computed_tokens (req x)
            ∧ ∀ i m, managers (kv_cache_manager s') !! i = Some m →
                cdiv (num_computed_tokens (req x)) (block_size m) ≤ zlen (table m rid)) s.
Proof using Hiter Hcfg.
  intros H. eapply wp_mono; [apply (schedule_spec (KV := kvs) cfg iter_order Hiter grammar Hcfg s throttle H)|].
  simpl. intros out s' [Hi [[O1 O2] O3 O4 O5]]. split_and!; try done. intros rid n Hin.
  destruct (O5 rid n Hin) as (Hr & Hn & x & Hx & Hc & Hs & Hd). split; [done|]. split; [done|].
  exists x. split; [done|]. split; [exact Hc|]. split; [exact Hd|exact Hs].
Qed.
End step.

(** ** Error paths *)

(** C35: calls the engine refuses leave no trace.  A request with a known id, a pooling request for
    an unsupported task, finishing with a status that is not final, and the pause mode the
    in-process engine does not support raise their exception with the state unchanged. *)
Theorem engine_refusals (iter_order : gset Z → list Z) (set_order : gset string → list string) s :
  (∀ r task_ok now, is_Some (requests s !! request_id r) → (is_Some (pooling_params r) → task_ok = true) →
     engine_add_request iter_order set_order r task_ok now s = (inl AssertionError, s))
  ∧ (∀ r now, is_Some (pooling_params r) →
       engine_add_request iter_order set_order r false now s = (inl ValueError, s))
  ∧ (∀ ids st, status_is_finished st = false → finish_requests iter_order ids st s = (inl AssertionError, s))
  ∧ ∀ clear, pause_scheduler iter_order PauseWait clear s = (inl ValueError, s).
Proof.
  split_and!.
  - intros r task_ok now [x Hx] Ht. unfold engine_add_request, sched_add_request, mbind, M_bind.
    assert (bool_decide (is_Some (pooling_params r)) && negb task_ok = false) as ->.
    { case_bool_decide as Hp; [|done]. by rewrite Ht. }
    simpl. by rewrite Hx.
  - intros r now Hp. unfold engine_add_request. by rewrite bool_decide_eq_true_2.
  - intros ids st Hst. unfold finish_requests, assert, mbind, M_bind. by rewrite Hst.
  - done.
Qed.

(** ** Requests that ask for more tokens than the model length allows *)

(** C36: [min_tokens] wins over the model length.  A running text request that has not produced
    [min_tokens] tokens and whose computed tokens reached the model length is not stopped by the
    stop check, and the loop over the running requests passes over it in every step: it gets no
    tokens, nothing changes, and it keeps its place in [running] and its blocks. *)
Theorem min_tokens_starves (sha256 : bytes → bytes) (use_int : bool) (cfg : SchedulerConfig)
    (iter_order : gset Z → list Z) (s : Scheduler) (st : Step) (idx : nat) (rid : string) (x : SReq)
    (sp : SamplingParams) (defer : bool) :
  running s !! idx = Some rid → requests s !! rid = Some x → mm_features (req x) = [] →
  pooling_params (req x) = None → sampling_params (req x) = Some sp →
  num_output_tokens (req x) < min_tokens sp → need_mamba_block_aligned_split cfg = false →
  cfg_max_model_len cfg ≤ num_computed_tokens (req x) + num_sampled_tokens_per_step cfg →
  check_stop (req x) (cfg_max_model_len cfg) = inr (false, req x)
  ∧ ∃ flow, visit_running sha256 use_int cfg iter_order defer idx st s = (inr flow, s)
      ∧ (flow = (idx, Break st) ∨ flow = (S idx, Continue st)).
Proof.
  intros Hidx Hx Hmm Hp Hsp Hmin Hmamba Hlen. split.
  { unfold check_stop. rewrite bool_decide_eq_true_2, Hsp by done. simpl.
    by rewrite (proj2 (Z.ltb_lt _ _) Hmin). }
  unfold visit_running, lookup_req, mbind, M_bind. simpl. rewrite Hidx. simpl.
  destruct (input_budget st <=? draft_slots cfg); [by eexists; split; [done|left]|]. rewrite Hx. simpl.
  destruct (passed_over s defer x); [by eexists; split; [done|right]|].
  assert (has_encoder_inputs (req x) = false) as ->.
  { unfold has_encoder_inputs, num_encoder_inputs. by rewrite Hmm. }
  simpl. assert (running_tokens cfg x st ≤ 0) as Hn by (unfold running_tokens; rewrite Hmamba; lia).
  assert (_reserve_prefill_lookahead cfg (req x) (num_computed_tokens (req x)) (running_tokens cfg x st) = 0) as ->.
  { unfold _reserve_prefill_lookahead. cbv zeta.
    destruct (Z.ltb_spec 0 (num_tokens (req x) - num_computed_tokens (req x) - running_tokens cfg x st)),
      (Z.ltb_spec (num_tokens (req x) - num_computed_tokens (req x) - running_tokens cfg x st) (num_prefill_lookahead cfg));
      simpl; lia. }
  simpl. eexists. split; [done|by right].
Qed.

(** ** A concrete engine *)

(** Eight tokens per step, two running requests, first come first served, on the manager
    [demo_kvm]. *)
Definition demo_cfg : SchedulerConfig :=
  {| max_num_running_reqs := 2; max_num_scheduled_tokens := 8; cfg_max_num_batched_tokens := 8;
     cfg_max_model_len := 100; num_sampled_tokens_per_step := 1; draft_slots := 0;
     long_prefill_token_threshold := 0; enable_chunked_prefill := true;
     cfg_disable_chunked_mm_input := false; is_encoder_decoder := false; is_mm_encoder_only := false;
     cfg_max_num_encoder_input_tokens := 0; num_spec_tokens := 0; cfg_num_lookahead_tokens := 0;
     num_prefill_lookahead := 0; dynamic_sd_lookup := None; scheduler_reserve_full_isl := false;
     policy := FCFS; max_loras := None; cfg_use_eagle := false; cache_block_size := 2;
     sched_hash_block_size := 2; need_mamba_block_aligned_split := false;
     mamba_has_prefill_checkpoint_blocks := false; mamba_partial_cache_hit := false; use_pp := false;
     pp_size := 1; async_scheduling := false; use_v2_model_runner := false |}.

(** Workers that sample token 7 for every request. *)
Definition demo_workers (out : SchedulerOutput) : ModelRunnerOutput :=
  let ids := (out_num_scheduled_tokens out).*1 in
  mkRunnerOutput (list_to_map (imap (λ i rid, (rid, i)) ids)) ((λ _, [7]) <$> ids) [].

Definition demo_encoder : EncoderCache := EncoderOnly (EncoderCacheManager_init 0).
Definition demo_perform (call : engine_call) : M Scheduler unit :=
  perform_call no_digest ideal_hash ideal_none_hash false 2 demo_cfg elements elements
    (λ _, NotCompiled) (λ _ _, false) (λ _ ds, ds) call.
Definition demo_start : Scheduler := Scheduler_init demo_cfg demo_kvm demo_encoder.
Definition demo_added : Scheduler := (demo_perform (EAdd five true false) demo_start).2.
Definition demo_stepped : Scheduler := (demo_perform (EStep false demo_workers []) demo_added).2.

Section demo.
Lemma demo_cfg_ok : cfg_ok 100 demo_cfg.
Proof. split; simpl; try done; lia. Qed.

Lemma demo_lookup_cfg : lookup_cfg (coordinator demo_kvm).
Proof.
  split_and!; [vm_compute; reflexivity..|].
  assert (coord_kind (coordinator demo_kvm) = HybridKVCacheCoordinator) as -> by (vm_compute; reflexivity).
  assert (attention_groups (coordinator demo_kvm)
    = [mkSpecGroup {| spec_block_size := 2; spec_kind := FullAttentionSpec |} [] [0] false;
       mkSpecGroup {| spec_block_size := 2; spec_kind := SlidingWindowSpec 2 0 |} [] [1] false]) as Eg
    by (vm_compute; reflexivity).
  split.
  { destruct (hybrid_constructed wide_config 100 8 false true 1 1 2 2 0 (coordinator demo_kvm)) as [];
      [vm_compute; discriminate|vm_compute; reflexivity|by split]. }
  split; [vm_compute; reflexivity|]. split; [vm_compute; discriminate|].
  rewrite Eg. split; [|do 2 eexists; split; [done|by apply Forall_singleton]].
  intros g. rewrite !elem_of_cons. unfold searchable.
  assert (hash_block_size (block_pool (coordinator demo_kvm)) = 2) as -> by (vm_compute; reflexivity).
  assert (coord_scheduler_block_size (coordinator demo_kvm) = 2) as -> by (vm_compute; reflexivity).
  intros [->|[->|[]%elem_of_nil]]; simpl; split_and!; try done; by exists 1.
Qed.

Lemma demo_groups : managers demo_kvm ≠ [].
Proof. vm_compute. discriminate. Qed.

Lemma five_admissible : admissible no_digest ideal_hash ideal_none_hash 100 2 true five.
Proof.
  assert (num_tokens five = 5 ∧ num_prompt_tokens five = 5 ∧ num_output_tokens five = 0) as (E1 & E2 & E3)
    by (split_and!; vm_compute; reflexivity).
  split; rewrite ?E1, ?E2, ?E3.
  - lia.
  - intros _. exists {| sp_max_tokens := Some 16; sp_structured_outputs := false;
       min_tokens := 0; eos_token_id := None; stop_token_ids := [];
       repetition_detection := None; sp_skip_reading_prefix_cache := None; sp_kv_cache_report_mode := None |}.
    split; [vm_compute; reflexivity|]. simpl. lia.
  - apply demo_request_ok.
  - right. vm_compute. discriminate.
  - vm_compute. reflexivity.
  - left. vm_compute. reflexivity.
  - split_and!; vm_compute; reflexivity.
Qed.

Lemma demo_workers_ok s :
  (∀ rid x, requests s !! rid = Some x → pooling_params (req x) = None) → workers_ok demo_cfg s demo_workers.
Proof.
  intros Hp out rid n Hin. split; [|intros x Hx _; by eapply Hp].
  assert (rid ∈ (out_num_scheduled_tokens out).*1) as Hid by (by apply (list_elem_of_fmap_2 fst) in Hin).
  set (ids := (out_num_scheduled_tokens out).*1) in *.
  assert (∀ i, req_id_to_index (demo_workers out) !! rid = Some i → ids !! i = Some rid) as Hidx.
  { intros i Hi. simpl in Hi. apply elem_of_list_to_map_2 in Hi.
    apply elem_of_lookup_imap in Hi as (j & y & [= -> ->] & Hj). done. }
  split.
  - apply list_elem_of_lookup in Hid as [j Hj]. simpl. apply not_eq_None_Some. intros Hno.
    apply not_elem_of_list_to_map in Hno. apply Hno. apply list_elem_of_fmap. exists (rid, j). split; [done|].
    apply elem_of_lookup_imap. by exists j, rid.
  - intros i ts Hi <- _. exists [7]. simpl. rewrite list_lookup_fmap. fold ids. rewrite (Hidx i Hi). split; [done|].
    pose proof (zlen_nonneg (default [] (out_spec_decode_tokens out !! rid))). unfold zlen in *. simpl. lia.
  - done.
Qed.
End demo.

Section demo_reach.
Abbreviation demo_reaches := (engine_reach no_digest ideal_hash ideal_none_hash false 100 2 true demo_cfg
  elements elements (λ _, NotCompiled) (λ _ _, false) (λ _ ds, ds) demo_start).

Lemma demo_reach_added : demo_reaches demo_added.
Proof.
  refine (engine_next _ _ _ _ _ _ _ _ _ _ _ _ _ _ demo_start (EAdd five true false) (engine_start _ _ _ _ _ _ _ _ _ _ _ _ _ _) _).
  split; [exact five_admissible|]. split; [vm_compute; reflexivity|done].
Qed.

Lemma demo_reach_stepped : demo_reaches demo_stepped.
Proof.
  refine (engine_next _ _ _ _ _ _ _ _ _ _ _ _ _ _ demo_added (EStep false demo_workers []) demo_reach_added _).
  apply demo_workers_ok. intros rid x Hx.
  assert (requests demo_added = {[request_id five := new_sreq five]}) as E by (vm_compute; reflexivity).
  rewrite E in Hx. apply lookup_singleton_Some in Hx as [_ <-]. vm_compute. reflexivity.
Qed.
End demo_reach.

Lemma engine_loop_safe_witness :
  running demo_stepped = [request_id five]
  ∧ (demo_perform (EAbort [request_id five]) demo_stepped).1 = inr tt
  ∧ ∀ i m, managers (kv_cache_manager demo_stepped) !! i = Some m →
      cdiv 5 (block_size m) ≤ zlen (table m (request_id five)).
Proof.
  destruct (engine_loop_safe no_digest ideal_hash ideal_none_hash false 100 2 true ltac:(lia) demo_cfg elements elements
    (λ _, NotCompiled) (λ _ _, false) (λ _ ds, ds) (λ X, reflexivity _) (λ X, reflexivity _) demo_cfg_ok eq_refl ltac:(done)
    wide_config 2 (Some 8) true false 0 true 1 1 true 1 [] demo_kvm demo_encoder demo_kvm_init wide_supported ltac:(lia)
    demo_lookup_cfg demo_groups eq_refl demo_stepped demo_reach_stepped) as (Hcall & _ & _ & _ & Hslots & _).
  assert (running demo_stepped = [request_id five]) as Er by (vm_compute; reflexivity).
  split; [exact Er|]. split; [exact (Hcall (EAbort [request_id five]) I)|].
  assert ((λ x, num_computed_tokens (req x)) <$> requests demo_stepped !! request_id five = Some 5) as E5
    by (vm_compute; reflexivity).
  apply fmap_Some in E5 as (x & Hx & E5). intros i m Hm. rewrite E5. refine (Hslots (request_id five) x i m Hx _ Hm). rewrite Er. apply list_elem_of_here.
Defined.

Lemma engine_no_leak_witness :
  get_num_free_blocks (pool (kv_cache_manager demo_added)) = 7
  ∧ wp (pause_scheduler elements PauseAbort true) (λ _ s', requests s' = ∅
      ∧ get_num_free_blocks (pool (kv_cache_manager s')) = num_gpu_blocks (pool (kv_cache_manager s')) - 1) demo_stepped.
Proof.
  split; [vm_compute; reflexivity|].
  destruct (engine_no_leak no_digest ideal_hash ideal_none_hash false 100 2 true ltac:(lia) demo_cfg elements elements
    (λ _, NotCompiled) (λ _ _, false) (λ _ ds, ds) (λ X, reflexivity _) (λ X, reflexivity _) demo_cfg_ok eq_refl ltac:(done)
    wide_config 2 (Some 8) true false 0 true 1 1 true 1 [] demo_kvm demo_encoder demo_kvm_init wide_supported ltac:(lia)
    demo_lookup_cfg demo_groups eq_refl demo_stepped demo_reach_stepped) as [_ Hpause].
  eapply wp_mono; [exact (Hpause true)|]. simpl. intros _ s' (H1 & _ & H2). split; [exact H1|exact H2].
Defined.

Lemma schedule_correct_witness :
  wp (schedule no_digest false demo_cfg elements (λ _, NotCompiled) false) (λ out s',
    total_num_scheduled_tokens out ≤ 8 ∧ NoDup (out_num_scheduled_tokens out).*1) demo_added.
Proof.
  eapply wp_mono; [apply (schedule_correct no_digest false 100 2 true demo_cfg elements (λ _, NotCompiled)
    (λ X, reflexivity _) demo_cfg_ok demo_added false)|].
  - apply (reach_good no_digest ideal_hash ideal_none_hash false 100 2 true ltac:(lia) demo_cfg elements elements
      (λ _, NotCompiled) (λ _ _, false) (λ _ ds, ds) (λ X, reflexivity _) (λ X, reflexivity _) demo_cfg_ok eq_refl ltac:(done)
      wide_config 2 (Some 8) true false 0 true 1 1 true 1 [] demo_kvm demo_encoder demo_kvm_init wide_supported ltac:(lia)
      demo_lookup_cfg demo_groups eq_refl demo_added demo_reach_added).
  - simpl. intros out s' (_ & _ & H1 & _ & H2 & _). split; [exact H1|exact H2].
Defined.

(** A request that asks for four tokens after a prompt of ninety-nine. *)
Definition greedy_sampling : SamplingParams :=
  {| sp_max_tokens := None; sp_structured_outputs := false; min_tokens := 4; eos_token_id := None;
     stop_token_ids := []; repetition_detection := None; sp_skip_reading_prefix_cache := None;
     sp_kv_cache_report_mode := None |}.
Definition greedy : SReq :=
  new_sreq (with_progress 99 0 [] 0 0 RUNNING
    {| request_id := "g"; priority := 0; arrival_time := 0; sampling_params := Some greedy_sampling;
       pooling_params := None; max_tokens := 1; num_prompt_tokens := 99; _output_token_ids := [7];
       _all_token_ids := replicate 100 7; spec_token_ids := []; num_computed_tokens := 99;
       num_preemptions := 0; mm_features := []; lora_request := None; cache_salt := None;
       prompt_embeds := None; block_hashes := []; shared_prefix_boundary := 0; status := RUNNING;
       stop_reason := None; num_in_flight_tokens := 0; kv_cache_report_mode := "incremental" |}).
Definition greedy_state : Scheduler := set_running ["g"%string] (set_requests {["g"%string := greedy]} demo_start).

Lemma min_tokens_starves_witness :
  check_stop (req greedy) 100 = inr (false, req greedy)
  ∧ ∃ flow, visit_running no_digest false demo_cfg elements false 0 (initial_step demo_cfg false) greedy_state
      = (inr flow, greedy_state)
      ∧ (flow = (0%nat, Break (initial_step demo_cfg false)) ∨ flow = (1%nat, Continue (initial_step demo_cfg false))).
Proof.
  refine (min_tokens_starves no_digest false demo_cfg elements greedy_state (initial_step demo_cfg false) 0 "g"
    greedy greedy_sampling false eq_refl (lookup_singleton_eq "g"%string greedy) eq_refl eq_refl eq_refl _ eq_refl _).
  - vm_compute. reflexivity.
  - vm_compute. discriminate.
Defined.
