(* ===== verification/PyFloat.v ===== *)
(** Python floats: IEEE 754 binary64 numbers, computed with the reference operations of the
    Standard Library, and the conversions between floats and integers.

    The facts bound the results of the rounded operations: they are never NaN on numbers, keep
    their sign and have a mantissa of at most 53 bits. *)

From Corelib Require Import SpecFloat.
From S2P Require Import Prelude.

(** ** Operations *)

Definition py_float (n : Z) : spec_float := binary_normalize 53 1024 n 0 false.
Definition float_add : spec_float → spec_float → spec_float := SFadd 53 1024.
Definition float_sub : spec_float → spec_float → spec_float := SFsub 53 1024.
Definition float_div : spec_float → spec_float → spec_float := SFdiv 53 1024.
(** [max(a, b)] and [min(a, b)]: the first argument unless the second is larger (smaller). *)
Definition float_max (a b : spec_float) : spec_float := if SFltb a b then b else a.
Definition float_min (a b : spec_float) : spec_float := if SFltb b a then b else a.
(** [int(x)]: truncation. *)
Definition py_int (x : spec_float) : exn + Z :=
  match x with
  | S754_zero _ => inr 0
  | S754_finite s m e =>
      let a := Z.shiftl (Zpos m) e in inr (if s then - a else a)
  | S754_infinity _ => inl OverflowError
  | S754_nan => inl ValueError
  end.

(** ** Shifts of mantissas *)

Lemma digits2_pos_bound m : 2 ^ (Zpos (digits2_pos m) - 1) ≤ Zpos m < 2 ^ Zpos (digits2_pos m).
Proof.
  induction m as [m IH|m IH|]; simpl digits2_pos; [| |simpl; lia];
    rewrite Pos2Z.inj_succ; replace (Z.succ (Zpos (digits2_pos m)) - 1) with (Z.succ (Zpos (digits2_pos m) - 1)) by lia;
    rewrite !Z.pow_succ_r by lia; lia.
Qed.

Lemma digits2_bound m : 0 ≤ m → m < 2 ^ Zdigits2 m.
Proof. intros Hm. destruct m as [|m|m]; simpl; [lia| |lia]. apply digits2_pos_bound. Qed.

Lemma digits2_le m d : 0 ≤ m → 0 ≤ d → m < 2 ^ d → Zdigits2 m ≤ d.
Proof.
  intros Hm Hd H. destruct m as [|m|m]; simpl; [lia| |lia].
  pose proof (digits2_pos_bound m) as [Hb _].
  assert (2 ^ (Zpos (digits2_pos m) - 1) < 2 ^ d) as Hlt by lia.
  apply Z.pow_lt_mono_r_iff in Hlt; lia.
Qed.

Lemma shr_1_div r : 0 ≤ shr_m r → shr_m (shr_1 r) = shr_m r / 2.
Proof.
  destruct r as [m b c]. simpl. intros Hm. rewrite <-Z.div2_div.
  destruct m as [|[m|m|]|m]; simpl; try lia; done.
Qed.

Lemma iter_shr p r : 0 ≤ shr_m r → shr_m (SpecFloat.iter_pos shr_1 p r) = shr_m r / 2 ^ Zpos p.
Proof.
  revert r. induction p as [p IH|p IH|]; intros r Hr; simpl SpecFloat.iter_pos.
  - assert (0 ≤ shr_m (shr_1 r)) as H1 by (rewrite shr_1_div by done; apply Z.div_pos; lia).
    assert (0 ≤ shr_m (SpecFloat.iter_pos shr_1 p (shr_1 r))) as H2 by (rewrite IH by done; apply Z.div_pos; lia).
    rewrite (IH _ H2), (IH _ H1), shr_1_div by done. rewrite !Z.div_div by lia. f_equal.
    replace (Zpos p~1) with (1 + Zpos p + Zpos p) by lia. rewrite !Z.pow_add_r by lia. lia.
  - assert (0 ≤ shr_m (SpecFloat.iter_pos shr_1 p r)) as H1 by (rewrite IH by done; apply Z.div_pos; lia).
    rewrite (IH _ H1), (IH _ Hr), Z.div_div by lia. f_equal.
    replace (Zpos p~0) with (Zpos p + Zpos p) by lia. rewrite !Z.pow_add_r by lia. lia.
  - by rewrite shr_1_div.
Qed.

(** Shifting to the canonical exponent leaves at most 53 bits. *)
Lemma shr_fexp_spec m e l r e' :
  0 ≤ m → shr_fexp 53 1024 m e l = (r, e') →
  0 ≤ shr_m r < 2 ^ 53 ∧ e' = Z.max e (Z.max (Zdigits2 m + e - 53) (-1074)).
Proof.
  intros Hm. unfold shr_fexp, fexp, emin. change (3 - 1024 - 53) with (-1074).
  set (k := Z.max (Zdigits2 m + e - 53) (-1074)).
  assert (shr_m (shr_record_of_loc m l) = m) as Em by (destruct l as [|[]]; done).
  pose proof (digits2_bound m Hm) as Hd. unfold shr.
  destruct (k - e) as [|p|p] eqn:Ek; intros [= <- <-].
  - rewrite Em. split; [|lia]. split; [done|]. eapply Z.lt_le_trans; [done|]. apply Z.pow_le_mono_r; lia.
  - rewrite iter_shr, Em by (by rewrite Em). split; [|lia]. split; [apply Z.div_pos; lia|].
    apply Z.div_lt_upper_bound; [lia|]. rewrite <-Z.pow_add_r by lia.
    eapply Z.lt_le_trans; [done|]. apply Z.pow_le_mono_r; lia.
  - rewrite Em. split; [|lia]. split; [done|]. eapply Z.lt_le_trans; [done|]. apply Z.pow_le_mono_r; lia.
Qed.

(** ** Rounded results *)

(** Zero, a number with the given sign or the infinity of that sign; mantissas have 53 bits. *)
Definition rounded (s : bool) (x : spec_float) : Prop :=
  match x with
  | S754_zero _ => True
  | S754_infinity s' => s' = s
  | S754_finite s' m _ => s' = s ∧ Zpos m < 2 ^ 53
  | S754_nan => False
  end.

Lemma round_even_bound m l : 0 ≤ m → m ≤ round_nearest_even m l ≤ m + 1.
Proof. intros Hm. destruct l as [|[]]; simpl; try lia. destruct (Z.even m); lia. Qed.

Lemma round_aux_rounded s m e l : 0 ≤ m → rounded s (binary_round_aux 53 1024 s m e l).
Proof.
  intros Hm. unfold binary_round_aux. destruct (shr_fexp 53 1024 m e l) as [r1 e1] eqn:E1.
  destruct (shr_fexp_spec _ _ _ _ _ Hm E1) as [[Hr1 _] _].
  pose proof (round_even_bound (shr_m r1) (loc_of_shr_record r1) Hr1) as Hm2.
  destruct (shr_fexp 53 1024 _ e1 loc_Exact) as [r2 e2] eqn:E2.
  destruct (λ H, shr_fexp_spec _ _ _ _ _ H E2) as [[Hr2 Hr2'] _]; [lia|].
  destruct (shr_m r2) as [|p|p]; [done| |lia]. by destruct (e2 <=? 1024 - 53).
Qed.

(** A number from zero to [2 ^ b]. *)
Definition at_most (b : Z) (x : spec_float) : Prop :=
  match x with
  | S754_zero _ => True
  | S754_finite false m e => e ≤ b ∧ Zpos m ≤ 2 ^ (b - e)
  | _ => False
  end.

Lemma shr_fexp_value m e l r e' b :
  0 ≤ m < 2 ^ (b - e) → e ≤ b → -1000 ≤ b → shr_fexp 53 1024 m e l = (r, e') →
  0 ≤ shr_m r < 2 ^ (b - e') ∧ e ≤ e' ≤ b ∧ (e' = e → shr_m r = m ∧ r = shr_record_of_loc m l).
Proof.
  intros Hm He Hb E. destruct (shr_fexp_spec _ _ _ _ _ (proj1 Hm) E) as [[H1 _] He'].
  assert (Zdigits2 m ≤ b - e) as Hd by (apply digits2_le; lia).
  unfold shr_fexp in E. assert (shr_m (shr_record_of_loc m l) = m) as Em by (destruct l as [|[]]; done).
  unfold shr in E. destruct (fexp 53 1024 (Zdigits2 m + e) - e) as [|p|p] eqn:Ep; injection E as <- E2; subst e'.
  - rewrite Em. split; [lia|]. split; [lia|done].
  - rewrite iter_shr, Em in * by (rewrite Em; lia). split; [|split; [lia|intros; lia]]. split; [done|].
    apply Z.div_lt_upper_bound; [lia|]. rewrite <-Z.pow_add_r by lia.
    replace (Zpos p + (b - (e + Zpos p))) with (b - e) by lia. lia.
  - rewrite Em. split; [lia|]. split; [lia|done].
Qed.

Lemma round_aux_at_most m e b :
  0 ≤ m < 2 ^ (b - e) → e ≤ b → -1000 ≤ b ≤ 900 → at_most b (binary_round_aux 53 1024 false m e loc_Exact).
Proof.
  intros Hm He Hb. unfold binary_round_aux. destruct (shr_fexp 53 1024 m e loc_Exact) as [r1 e1] eqn:E1.
  destruct (shr_fexp_value _ _ _ _ _ b Hm He ltac:(lia) E1) as (H1 & He1 & Hsame).
  pose proof (round_even_bound (shr_m r1) (loc_of_shr_record r1) (proj1 H1)) as Hm2.
  set (m2 := round_nearest_even (shr_m r1) (loc_of_shr_record r1)) in *.
  destruct (shr_fexp 53 1024 m2 e1 loc_Exact) as [r2 e2] eqn:E2.
  destruct (λ H, shr_fexp_spec _ _ _ _ _ H E2) as [[Hr2 _] He2]; [lia|].
  assert (shr_m r2 * 2 ^ (e2 - e1) ≤ m2) as Hv.
  { unfold shr_fexp, shr in E2. destruct (fexp 53 1024 (Zdigits2 m2 + e1) - e1) as [|p|p] eqn:Ep;
      injection E2 as <- <-; simpl; rewrite ?Z.sub_diag; try lia.
    rewrite iter_shr by (simpl; lia). simpl. replace (e1 + Zpos p - e1) with (Zpos p) by lia.
    rewrite Z.mul_comm. apply Z.mul_div_le. lia. }
  assert (Zdigits2 m2 ≤ b - e1 + 1) as Hd.
  { apply digits2_le; [lia..|]. rewrite Z.pow_add_r by lia. lia. }
  assert (m2 ≤ 2 ^ (b - e1)) as Hm2' by lia. destruct (shr_m r2) as [|p|p] eqn:Ep; [done| |lia].
  assert (e2 ≤ b) as Hb2 by lia.
  rewrite (proj2 (Z.leb_le e2 (1024 - 53))) by lia. split; [lia|].
  apply (Z.mul_le_mono_pos_r _ _ (2 ^ (e2 - e1))); [apply Z.pow_pos_nonneg; lia|].
  rewrite <-Z.pow_add_r by lia. replace (b - e2 + (e2 - e1)) with (b - e1) by lia. lia.
Qed.

Lemma shl_align_bound mx ex ex' :
  ex' ≤ ex → Zpos (fst (shl_align mx ex ex')) = Zpos mx * 2 ^ (ex - ex').
Proof.
  intros H. unfold shl_align. destruct (ex' - ex) as [|d|d] eqn:E; simpl; [|lia|].
  - replace (ex - ex') with 0 by lia. lia.
  - replace (ex - ex') with (Zpos d) by lia. clear. induction d as [|d IH] using Pos.peano_ind.
    + simpl. lia.
    + rewrite Pos.iter_succ, Pos2Z.inj_succ, Z.pow_succ_r, Pos2Z.inj_xO, IH by lia. lia.
Qed.

Lemma shl_align_spec m e k :
  ∃ mz ez, shl_align m e k = (mz, ez) ∧ Zpos mz = Zpos m * 2 ^ (e - ez) ∧ ez ≤ e.
Proof.
  destruct (shl_align m e k) as [mz ez] eqn:E. exists mz, ez. split; [done|].
  pose proof (shl_align_bound m e k) as Hb. unfold shl_align in *.
  destruct (k - e) as [|d|d] eqn:Ed; injection E as <- <-; [rewrite Z.sub_diag; lia..|].
  split; [|lia]. rewrite <-Hb by lia. done.
Qed.

Lemma normalize_rounded m e : 0 ≤ m → rounded false (binary_normalize 53 1024 m e false).
Proof.
  destruct m as [|m|m]; intros Hm; [done| |lia]. simpl. unfold binary_round.
  destruct (shl_align_spec m e (fexp 53 1024 (Zpos (digits2_pos m) + e))) as (mz & ez & -> & _).
  apply round_aux_rounded. lia.
Qed.

Lemma normalize_at_most m e b :
  0 ≤ m < 2 ^ (b - e) → e ≤ b → -1000 ≤ b ≤ 900 → at_most b (binary_normalize 53 1024 m e false).
Proof.
  destruct m as [|m|m]; intros Hm He Hb; [done| |lia]. simpl. unfold binary_round.
  destruct (shl_align_spec m e (fexp 53 1024 (Zpos (digits2_pos m) + e))) as (mz & ez & -> & Hv & Hz).
  apply round_aux_at_most; [|lia|done]. rewrite Hv. split; [lia|].
  replace (b - ez) with (b - e + (e - ez)) by lia. rewrite Z.pow_add_r by lia.
  apply Z.mul_lt_mono_pos_r; [apply Z.pow_pos_nonneg|]; lia.
Qed.

Lemma normalize_negative m e : m < 0 → ∃ x, binary_normalize 53 1024 m e false = x ∧ rounded true x.
Proof.
  destruct m as [|m|m]; intros Hm; [lia..|]. simpl. eexists. split; [done|]. unfold binary_round.
  destruct (shl_align_spec m e (fexp 53 1024 (Zpos (digits2_pos m) + e))) as (mz & ez & -> & _).
  apply round_aux_rounded. lia.
Qed.

(** ** Positive steps *)

(** A positive number or infinity. *)
Definition positive_float (x : spec_float) : Prop :=
  match x with
  | S754_finite false m _ => Zpos m < 2 ^ 53
  | S754_infinity false => True
  | _ => False
  end.

Lemma py_int_at_most b x : at_most b x → ∃ n, py_int x = inr n.
Proof. destruct x as [?|?| |[] m e]; simpl; try done; by eexists. Qed.

Lemma py_float_at_most n b : 0 ≤ n < 2 ^ b → 0 ≤ b ≤ 900 → at_most b (py_float n).
Proof. intros Hn Hb. apply normalize_at_most; [|lia..]. by rewrite Z.sub_0_r. Qed.

Lemma py_float_rounded n : 0 ≤ n → rounded false (py_float n).
Proof. apply normalize_rounded. Qed.

(** [min(x + d, cap)] stays a number below the bound of the cap. *)
Lemma capped_add_at_most x d cap b :
  at_most b x → rounded false x → positive_float d → at_most (b - 60) cap →
  at_most b (float_min (float_add x d) cap) ∧ rounded false (float_min (float_add x d) cap) ∨
  float_min (float_add x d) cap = cap.
Proof.
  intros Hx Hrx Hd Hcap. unfold float_min. destruct (SFltb cap (float_add x d)) eqn:Elt; [by right|]. left.
  assert (rounded false (float_add x d)) as Hr.
  { destruct x as [sx|?| |[] mx ex], d as [sd|[]| |[] md ed]; simpl in *; try done; try tauto.
    refine (normalize_rounded (Zpos _ + Zpos _) _ _). lia. }
  split; [|done]. destruct (float_add x d) as [s|s| |[] m e]; simpl in Hr; [done| |done|by destruct Hr|].
  - subst s. by destruct cap as [?|?| |[] mc ec].
  - destruct Hr as [_ Hm]. destruct cap as [?|?| |[] mc ec]; simpl in *; try done.
    destruct Hcap as [Hec _]. unfold SFltb in Elt. simpl in Elt.
    assert (e ≤ ec) by (destruct (Z.compare_spec e ec), (Z.compare_spec ec e); try lia; done).
    split; [lia|]. apply Z.le_trans with (2 ^ 53); [lia|]. apply Z.pow_le_mono_r; lia.
Qed.

(** [max(x - d, 0)] stays a number below the same bound. *)
Lemma floored_sub_at_most x d b :
  at_most b x → rounded false x → positive_float d → -1000 ≤ b ≤ 900 →
  at_most b (float_max (float_sub x d) (py_float 0)) ∧ rounded false (float_max (float_sub x d) (py_float 0)).
Proof.
  intros Hx Hrx Hd Hb. unfold float_max.
  destruct x as [sx|?| |[] mx ex], d as [sd|[]| |[] md ed]; simpl in Hx, Hd; try done.
  destruct Hx as [Hex Hmx]. unfold float_sub. cbn [SFsub cond_Zopp].
  set (ez := Z.min ex ed). rewrite !shl_align_bound by lia.
  set (m := Zpos mx * 2 ^ (ex - ez) - Zpos md * 2 ^ (ed - ez)).
  destruct (Z_lt_le_dec m 0) as [Hneg|Hpos].
  - destruct (normalize_negative m ez Hneg) as (y & -> & Hy).
    destruct y as [?|[]| |[] my ey]; simpl in Hy; try done; by destruct Hy.
  - assert (m < 2 ^ (b - ez)) as Hlt.
    { assert (Zpos mx * 2 ^ (ex - ez) ≤ 2 ^ (b - ez)) as H1.
      { replace (b - ez) with (b - ex + (ex - ez)) by lia. rewrite Z.pow_add_r by lia.
        apply Z.mul_le_mono_nonneg_r; [apply Z.pow_nonneg|]; lia. }
      assert (0 < Zpos md * 2 ^ (ed - ez)) by (apply Z.mul_pos_pos; [lia|apply Z.pow_pos_nonneg; lia]). lia. }
    pose proof (normalize_at_most m ez b ltac:(lia) ltac:(lia) Hb) as H1.
    pose proof (normalize_rounded m ez Hpos) as H2. by destruct (SFltb _ _).
Qed.

Lemma max_one_positive y : (∀ s m e, y = S754_finite s m e → Zpos m < 2 ^ 53) → positive_float (float_max (py_float 1) y).
Proof.
  intros Hy. unfold float_max. destruct (SFltb (py_float 1) y) eqn:E; [|vm_compute; done].
  destruct y as [?|[]| |[] m e]; try done. simpl. by apply (Hy false m e).
Qed.

Lemma float_div_bits x y s m e : float_div x y = S754_finite s m e → Zpos m < 2 ^ 53.
Proof.
  unfold float_div. destruct x as [?|?| |sx mx ex], y as [?|?| |sy my ey]; simpl; try done.
  unfold SFdiv_core_binary.
  set (m' := match _ with Z0 => _ | Zpos _ => _ | Zneg _ => _ end).
  assert (0 ≤ m') as Hm'.
  { subst m'. destruct (_ - _ - _); [lia| |lia]. apply Z.shiftl_nonneg. lia. }
  destruct (Z.div_eucl m' (Zpos my)) as [q r] eqn:Eq.
  assert (0 ≤ q) as Hq.
  { change q with (q, r).1. rewrite <-Eq. apply (Z.div_pos m' (Zpos my)); lia. }
  intros E. assert (rounded (xorb sx sy) (S754_finite s m e)) as [_ Hr]; [|exact Hr].
  rewrite <-E. by apply round_aux_rounded.
Qed.
