(* ===== verification/Offload.v ===== *)
(** Offloading of KV blocks to CPU memory: keys and results ([vllm/v1/kv_offload/base.py]), the
    cache policies ([vllm/v1/kv_offload/cpu/policies]) and the manager that owns the CPU slots
    ([vllm/v1/kv_offload/cpu/manager.py]).

    A [BlockStatus] object is reached only through the policy, under its key, so it is a value
    of the policy's dictionary and an assignment to [ref_cnt] is an update at the key.  The
    float [target_t1_size] of the ARC policy is an IEEE 754 binary64 number. *)

From Corelib Require Import SpecFloat.
From S2P Require Import Prelude OrderedDict PyFloat Request BlockHash.

(** ** Keys *)

Abbreviation OffloadKey := bytes.

Definition make_offload_key (block_hash : bytes) (group_idx : Z) : exn + OffloadKey :=
  g ← to_bytes4 group_idx; mret (block_hash ++ g).
Definition get_offload_block_hash (key : OffloadKey) : bytes := take (length key - 4) key.
Definition get_offload_group_idx (key : OffloadKey) : Z := get_group_id key.

Inductive LookupResult := MISS | HIT | HIT_PENDING | RETRY.

(** ** Blocks *)

Record BlockStatus := mkBlockStatus {
  bs_ref_cnt : Z; (** [c_int32] *)
  bs_block_id : Z; (** [c_int64] *)
}.
Definition BlockStatus_init (block_id : Z) : BlockStatus := mkBlockStatus (-1) (c_int 64 block_id).
Definition set_ref_cnt (n : Z) (b : BlockStatus) : BlockStatus := mkBlockStatus (c_int 32 n) (bs_block_id b).
Definition is_ready (b : BlockStatus) : bool := 0 <=? bs_ref_cnt b.

(** ** The interface of a policy *)

Class CachePolicy (P : Type) := {
  policy_init : Z → P;
  policy_get : P → OffloadKey → option BlockStatus;
  policy_insert : OffloadKey → BlockStatus → M P unit;
  policy_remove : OffloadKey → M P unit;
  policy_touch : list OffloadKey → M P unit;
  policy_evict : Z → gset OffloadKey → M P (option (list (OffloadKey * BlockStatus)));
  policy_clear : M P unit;
  policy_mark_evictable : OffloadKey → M P unit;
  policy_mark_non_evictable : OffloadKey → M P unit;
  (** An assignment to the object [get] returns. *)
  policy_assign : OffloadKey → (BlockStatus → BlockStatus) → P → P;
}.

(** [del d[k]]. *)
Definition od_remove {K V} `{EqDecision K} (d : list (K * V)) (k : K) : exn + list (K * V) :=
  match od_get d k with Some _ => inr (od_del d k) | None => inl KeyError end.

(** ** Least recently used *)

Module LRU.
Record LRUCachePolicy := mkLRU {
  lru_capacity : Z;
  evictable_blocks : list (OffloadKey * unit);
  lru_blocks : gmap OffloadKey BlockStatus;
}.
Definition set_evictable (e : list (OffloadKey * unit)) (p : LRUCachePolicy) : LRUCachePolicy :=
  mkLRU (lru_capacity p) e (lru_blocks p).
Definition set_lru_blocks (b : gmap OffloadKey BlockStatus) (p : LRUCachePolicy) : LRUCachePolicy :=
  mkLRU (lru_capacity p) (evictable_blocks p) b.

Definition lru_init (capacity : Z) : LRUCachePolicy := mkLRU capacity [] ∅.
Definition lru_get (p : LRUCachePolicy) (key : OffloadKey) : option BlockStatus := lru_blocks p !! key.

Definition lru_insert (key : OffloadKey) (block : BlockStatus) : M LRUCachePolicy unit :=
  modify (λ p, set_lru_blocks (<[key := block]> (lru_blocks p)) p);;
  when (bs_ref_cnt block =? 0) (modify (λ p, set_evictable (od_set (evictable_blocks p) key tt) p)).

Definition lru_remove (key : OffloadKey) : M LRUCachePolicy unit :=
  p ← get;
  lift_option KeyError (lru_blocks p !! key);;
  modify (set_lru_blocks (delete key (lru_blocks p)));;
  modify (λ p, set_evictable (od_del (evictable_blocks p) key) p).

Definition lru_touch_key (key : OffloadKey) : M LRUCachePolicy unit :=
  p ← get;
  match od_get (evictable_blocks p) key with
  | Some _ => e ← lift_result (od_move_to_end (evictable_blocks p) key); modify (set_evictable e)
  | None => mret tt
  end.
Definition lru_touch (keys : list OffloadKey) : M LRUCachePolicy unit := for_each (rev keys) lru_touch_key.

Definition lru_clear : M LRUCachePolicy unit := modify (λ p, mkLRU (lru_capacity p) [] ∅).

(** The first [n] evictable blocks that are not protected, or all of them. *)
Fixpoint lru_candidates (blocks : gmap OffloadKey BlockStatus) (n : Z) (protected : gset OffloadKey)
    (entries : list (OffloadKey * unit)) (candidates : list (OffloadKey * BlockStatus))
    : exn + list (OffloadKey * BlockStatus) :=
  match entries with
  | [] => mret candidates
  | (key, _) :: rest =>
      if bool_decide (key ∈ protected) then lru_candidates blocks n protected rest candidates
      else
        block ← result_of_option KeyError (blocks !! key);
        result_assert (bs_ref_cnt block =? 0) ≫= λ _,
        let candidates' := candidates ++ [(key, block)] in
        if zlen candidates' =? n then mret candidates'
        else lru_candidates blocks n protected rest candidates'
  end.

Definition lru_delete (key : OffloadKey) : M LRUCachePolicy unit :=
  p ← get;
  e ← lift_result (od_remove (evictable_blocks p) key);
  modify (set_evictable e);;
  lift_option KeyError (lru_blocks p !! key);;
  modify (λ p, set_lru_blocks (delete key (lru_blocks p)) p).

Definition lru_evict (n : Z) (protected : gset OffloadKey)
    : M LRUCachePolicy (option (list (OffloadKey * BlockStatus))) :=
  if n =? 0 then mret (Some [])
  else
    p ← get;
    candidates ← lift_result (lru_candidates (lru_blocks p) n protected (evictable_blocks p) []);
    if zlen candidates <? n then mret None
    else for_each candidates (λ e, lru_delete e.1);; mret (Some candidates).

Definition lru_mark_evictable (key : OffloadKey) : M LRUCachePolicy unit :=
  modify (λ p, set_evictable (od_set (evictable_blocks p) key tt) p).
Definition lru_mark_non_evictable (key : OffloadKey) : M LRUCachePolicy unit :=
  p ← get; e ← lift_result (od_remove (evictable_blocks p) key); modify (set_evictable e).

Definition lru_assign (key : OffloadKey) (f : BlockStatus → BlockStatus) (p : LRUCachePolicy) : LRUCachePolicy :=
  set_lru_blocks (alter f key (lru_blocks p)) p.
End LRU.

#[global] Instance lru_policy : CachePolicy LRU.LRUCachePolicy := {
  policy_init := LRU.lru_init;
  policy_get := LRU.lru_get;
  policy_insert := LRU.lru_insert;
  policy_remove := LRU.lru_remove;
  policy_touch := LRU.lru_touch;
  policy_evict := LRU.lru_evict;
  policy_clear := LRU.lru_clear;
  policy_mark_evictable := LRU.lru_mark_evictable;
  policy_mark_non_evictable := LRU.lru_mark_non_evictable;
  policy_assign := LRU.lru_assign;
}.

(** ** Adaptive replacement *)

Module ARC.
Record ARCCachePolicy := mkARC {
  arc_capacity : Z;
  target_t1_size : spec_float;
  t1 : list (OffloadKey * BlockStatus);
  t2 : list (OffloadKey * BlockStatus);
  b1 : list (OffloadKey * unit);
  b2 : list (OffloadKey * unit);
}.
Definition set_resident (x y : list (OffloadKey * BlockStatus)) (p : ARCCachePolicy) : ARCCachePolicy :=
  mkARC (arc_capacity p) (target_t1_size p) x y (b1 p) (b2 p).
Definition set_ghosts (target : spec_float) (x y : list (OffloadKey * unit)) (p : ARCCachePolicy)
    : ARCCachePolicy :=
  mkARC (arc_capacity p) target (t1 p) (t2 p) x y.

Definition arc_init (capacity : Z) : ARCCachePolicy := mkARC capacity (S754_zero false) [] [] [] [].
Definition arc_get (p : ARCCachePolicy) (key : OffloadKey) : option BlockStatus :=
  match od_get (t1 p) key with Some b => Some b | None => od_get (t2 p) key end.

Definition arc_insert (key : OffloadKey) (block : BlockStatus) : M ARCCachePolicy unit :=
  modify (λ p, set_ghosts (target_t1_size p) (od_del (b1 p) key) (od_del (b2 p) key)
                 (set_resident (od_set (t1 p) key block) (t2 p) p)).
Definition arc_remove (key : OffloadKey) : M ARCCachePolicy unit :=
  modify (λ p, match od_get (t1 p) key with
               | Some _ => set_resident (od_del (t1 p) key) (t2 p) p
               | None => set_resident (t1 p) (od_del (t2 p) key) p
               end).

(** [max(1, len(a) / len(b))]. *)
Definition ghost_delta (a b : list (OffloadKey * unit)) : spec_float :=
  float_max (py_float 1) (float_div (py_float (zlen a)) (py_float (zlen b))).

Definition arc_touch_key (key : OffloadKey) : M ARCCachePolicy unit :=
  p ← get;
  match od_get (t1 p) key with
  | Some block =>
      if is_ready block then modify (set_resident (od_del (t1 p) key) (od_set (t2 p) key block))
      else modify (set_resident (od_set (od_del (t1 p) key) key block) (t2 p))
  | None =>
      match od_get (t2 p) key, od_get (b1 p) key, od_get (b2 p) key with
      | Some _, _, _ => l ← lift_result (od_move_to_end (t2 p) key); modify (set_resident (t1 p) l)
      | None, Some _, _ =>
          let target := float_min (float_add (target_t1_size p) (ghost_delta (b2 p) (b1 p)))
                          (py_float (arc_capacity p)) in
          l ← lift_result (od_move_to_end (b1 p) key);
          modify (set_ghosts target l (b2 p))
      | None, None, Some _ =>
          let target := float_max (float_sub (target_t1_size p) (ghost_delta (b1 p) (b2 p))) (py_float 0) in
          l ← lift_result (od_move_to_end (b2 p) key);
          modify (set_ghosts target (b1 p) l)
      | None, None, None => mret tt
      end
  end.
Definition arc_touch (keys : list OffloadKey) : M ARCCachePolicy unit := for_each (rev keys) arc_touch_key.

Definition arc_clear : M ARCCachePolicy unit := modify (λ p, arc_init (arc_capacity p)).

(** The next idle entry of an iterator that is not protected, and what is left of it. *)
Fixpoint next_candidate (protected : gset OffloadKey) (entries : list (OffloadKey * BlockStatus))
    : option (OffloadKey * BlockStatus) * list (OffloadKey * BlockStatus) :=
  match entries with
  | [] => (None, [])
  | e :: rest =>
      if (bs_ref_cnt e.2 =? 0) && negb (bool_decide (e.1 ∈ protected)) then (Some e, rest)
      else next_candidate protected rest
  end.

(** [n] rounds of the selection; the flag says that the block is taken from T1. *)
Fixpoint select_candidates (protected : gset OffloadKey) (target : Z) (n : nat) (virtual_t1_size : Z)
    (t1_iter t2_iter : list (OffloadKey * BlockStatus))
    : option (list (OffloadKey * BlockStatus * bool)) :=
  match n with
  | O => Some []
  | S n' =>
      let '(from_t1, t1_rest) :=
        if target <=? virtual_t1_size then next_candidate protected t1_iter else (None, t1_iter) in
      match from_t1 with
      | Some e => cons (e, true) <$> select_candidates protected target n' (virtual_t1_size - 1) t1_rest t2_iter
      | None =>
          let '(from_t2, t2_rest) := next_candidate protected t2_iter in
          match from_t2 with
          | Some e => cons (e, false) <$> select_candidates protected target n' virtual_t1_size t1_rest t2_rest
          | None => None
          end
      end
  end.

Definition apply_eviction (c : OffloadKey * BlockStatus * bool) : M ARCCachePolicy unit :=
  let '(key, _, from_t1) := c in
  p ← get;
  if (from_t1 : bool) then
    l ← lift_result (od_remove (t1 p) key);
    modify (set_resident l (t2 p));;
    modify (set_ghosts (target_t1_size p) (od_set (b1 p) key tt) (b2 p))
  else
    l ← lift_result (od_remove (t2 p) key);
    modify (set_resident (t1 p) l);;
    modify (set_ghosts (target_t1_size p) (b1 p) (od_set (b2 p) key tt)).

(** [n] times [ghost.popitem(last=False)]. *)
Fixpoint pop_oldest {V} (n : nat) (ghost : list (OffloadKey * V)) : exn + list (OffloadKey * V) :=
  match n, ghost with
  | O, _ => inr ghost
  | S n', _ :: rest => pop_oldest n' rest
  | S _, [] => inl KeyError
  end.
Definition trim_ghosts : M ARCCachePolicy unit :=
  p ← get;
  x ← lift_result (pop_oldest (Z.to_nat (zlen (b1 p) - arc_capacity p)) (b1 p));
  modify (set_ghosts (target_t1_size p) x (b2 p));;
  y ← lift_result (pop_oldest (Z.to_nat (zlen (b2 p) - arc_capacity p)) (b2 p));
  modify (set_ghosts (target_t1_size p) x y).

Definition arc_evict (n : Z) (protected : gset OffloadKey)
    : M ARCCachePolicy (option (list (OffloadKey * BlockStatus))) :=
  if n =? 0 then mret (Some [])
  else
    p ← get;
    target ← lift_result (py_int (target_t1_size p));
    match select_candidates protected target (Z.to_nat n) (zlen (t1 p)) (t1 p) (t2 p) with
    | None => mret None
    | Some candidates =>
        for_each candidates apply_eviction;;
        trim_ghosts;;
        mret (Some candidates.*1)
    end.

Definition arc_assign (key : OffloadKey) (f : BlockStatus → BlockStatus) (p : ARCCachePolicy) : ARCCachePolicy :=
  let upd (e : OffloadKey * BlockStatus) := if decide (e.1 = key) then (e.1, f e.2) else e in
  match od_get (t1 p) key with
  | Some _ => set_resident (upd <$> t1 p) (t2 p) p
  | None => set_resident (t1 p) (upd <$> t2 p) p
  end.
End ARC.

#[global] Instance arc_policy : CachePolicy ARC.ARCCachePolicy := {
  policy_init := ARC.arc_init;
  policy_get := ARC.arc_get;
  policy_insert := ARC.arc_insert;
  policy_remove := ARC.arc_remove;
  policy_touch := ARC.arc_touch;
  policy_evict := ARC.arc_evict;
  policy_clear := ARC.arc_clear;
  policy_mark_evictable := λ _, mret tt;
  policy_mark_non_evictable := λ _, mret tt;
  policy_assign := ARC.arc_assign;
}.
