(* ===== verification/OffloadFacts.v ===== *)
(** What a cache policy promises to the offloading manager, and that the two policies keep the
    promise. *)

From Corelib Require Import SpecFloat.
From S2P Require Import Prelude OrderedDict PyFloat Request BlockHash Offload.

Set Warnings "-level-tolerance,-clear-no-such-hyp".

Abbreviation contents := (gmap OffloadKey BlockStatus).

(** The keys of the blocks no transfer uses. *)
Definition idle_keys (m : contents) : gset OffloadKey := dom (filter (λ e, bs_ref_cnt e.2 = 0) m).
Definition without (m : contents) (l : list OffloadKey) : contents := filter (λ e, e.1 ∉ l) m.

(** [pol_rep p m e]: the policy holds the blocks [m], of which it was told that [e] are
    evictable.  [pol_refuses p m n protected]: what is known of a policy that declined to evict
    [n] blocks; [pol_picks p n protected l]: how the evicted keys [l] were chosen. *)
Class PolicyLaws (P : Type) `{CachePolicy P} := {
  pol_rep : P → contents → gset OffloadKey → Prop;
  pol_refuses : P → contents → Z → gset OffloadKey → Prop;
  pol_picks : P → Z → gset OffloadKey → list OffloadKey → Prop;
  law_init n : 0 ≤ n < 2 ^ 63 → pol_rep (policy_init n) ∅ ∅;
  law_get p m e k : pol_rep p m e → policy_get p k = m !! k;
  law_insert p m e k b : pol_rep p m e → m !! k = None → bs_ref_cnt b ≠ 0 →
    wp (policy_insert k b) (λ _ p', pol_rep p' (<[k := b]> m) e) p;
  law_remove p m e k : pol_rep p m e → is_Some (m !! k) →
    wp (policy_remove k) (λ _ p', pol_rep p' (delete k m) (e ∖ {[k]})) p;
  law_touch p m e ks : pol_rep p m e → wp (policy_touch ks) (λ _ p', pol_rep p' m e) p;
  law_evict p m n protected : pol_rep p m (idle_keys m) → 0 < n →
    wp (policy_evict n protected) (λ r p', match r with
      | None => p' = p ∧ pol_refuses p m n protected
      | Some l => pol_picks p n protected l.*1 ∧ zlen l = n ∧ NoDup l.*1
          ∧ (∀ k b, (k, b) ∈ l → m !! k = Some b ∧ bs_ref_cnt b = 0 ∧ k ∉ protected)
          ∧ pol_rep p' (without m l.*1) (idle_keys (without m l.*1))
      end) p;
  law_clear p m e : pol_rep p m e → wp policy_clear (λ _ p', pol_rep p' ∅ ∅) p;
  law_mark p m e k : pol_rep p m e → is_Some (m !! k) →
    wp (policy_mark_evictable k) (λ _ p', pol_rep p' m ({[k]} ∪ e)) p;
  law_unmark p m e k : pol_rep p m e → k ∈ e →
    wp (policy_mark_non_evictable k) (λ _ p', pol_rep p' m (e ∖ {[k]})) p;
  law_assign p m e k f : pol_rep p m e → pol_rep (policy_assign k f p) (alter f k m) e;
}.

Lemma elem_of_idle m k : k ∈ idle_keys m ↔ ∃ b, m !! k = Some b ∧ bs_ref_cnt b = 0.
Proof.
  unfold idle_keys. rewrite elem_of_dom. split.
  - intros [b [Hb H0]%map_lookup_filter_Some]. by exists b.
  - intros (b & Hb & H0). exists b. by apply map_lookup_filter_Some.
Qed.

Lemma lookup_without m l k : without m l !! k = if decide (k ∈ l) then None else m !! k.
Proof.
  unfold without. case_decide as E.
  - apply map_lookup_filter_None. right. intros x _. simpl. tauto.
  - destruct (m !! k) as [b|] eqn:Eb; [by apply map_lookup_filter_Some|]. apply map_lookup_filter_None. by left.
Qed.

Lemma without_nil m : without m [] = m.
Proof. apply map_eq. intros k. rewrite lookup_without, decide_False; [done|]. apply not_elem_of_nil. Qed.

Lemma without_snoc m l k : without m (l ++ [k]) = delete k (without m l).
Proof.
  apply map_eq. intros k'. rewrite lookup_delete, !lookup_without.
  repeat case_decide; try done; exfalso; set_solver.
Qed.

Lemma without_idle m l k : k ∈ idle_keys (without m l) ↔ k ∈ idle_keys m ∧ k ∉ l.
Proof.
  rewrite !elem_of_idle. setoid_rewrite lookup_without. case_decide; [|naive_solver].
  split; [by intros (? & ? & _)|]. tauto.
Qed.

(** ** Least recently used *)

Section lru.
Import LRU.
Implicit Types (p : LRUCachePolicy) (k : OffloadKey) (m : contents) (e : gset OffloadKey).

(** The evictable keys, least recently used first. *)
Definition lru_order p : list OffloadKey := (evictable_blocks p).*1.

Record lru_rep p m e : Prop := {
  lr_blocks : lru_blocks p = m;
  lr_nodup : NoDup (lru_order p);
  lr_marked k : k ∈ lru_order p ↔ k ∈ e;
  lr_known k : k ∈ e → is_Some (m !! k);
}.

Lemma lru_insert_law p m e k b :
  lru_rep p m e → m !! k = None → bs_ref_cnt b ≠ 0 →
  wp (lru_insert k b) (λ _ p', lru_rep p' (<[k := b]> m) e) p.
Proof.
  intros [R1 R2 R3 R4] Hk Hb. unfold lru_insert. wp_steps. rewrite (proj2 (Z.eqb_neq _ _) Hb). simpl. wp_steps.
  split; simpl; [by rewrite R1|done|done|]. intros k' Hk'. destruct (decide (k = k')) as [->|Hne].
  - rewrite lookup_insert_eq. by eexists.
  - rewrite lookup_insert_ne by done. by apply R4.
Qed.

(** Dropping a key from both dictionaries. *)
Lemma lru_drop p m e k :
  lru_rep p m e →
  lru_rep (mkLRU (lru_capacity p) (od_del (evictable_blocks p) k) (delete k (lru_blocks p))) (delete k m) (e ∖ {[k]}).
Proof.
  intros [R1 R2 R3 R4]. split; unfold lru_order; simpl.
  - by rewrite R1.
  - by apply od_del_nodup.
  - intros k'. rewrite elem_of_difference, elem_of_singleton, <-R3. unfold lru_order. rewrite !list_elem_of_fmap.
    setoid_rewrite elem_of_od_del. naive_solver.
  - intros k' [Hk' Hne]%elem_of_difference. rewrite not_elem_of_singleton in Hne.
    rewrite lookup_delete_ne by done. by apply R4.
Qed.

Lemma lru_remove_law p m e k :
  lru_rep p m e → is_Some (m !! k) → wp (lru_remove k) (λ _ p', lru_rep p' (delete k m) (e ∖ {[k]})) p.
Proof.
  intros R [b Hb]. unfold lru_remove. wp_steps. eapply wp_lift_option; [by rewrite (lr_blocks _ _ _ R)|].
  wp_steps. by apply (lru_drop p).
Qed.

Lemma lru_touch_law p m e ks : lru_rep p m e → wp (lru_touch ks) (λ _ p', lru_rep p' m e) p.
Proof.
  intros R. unfold lru_touch. apply (wp_for_each _ (λ _ p', lru_rep p' m e)); [done|]. clear R p.
  intros _ k _ p _ R. unfold lru_touch_key. wp_steps.
  destruct (od_get (evictable_blocks p) k) as [u|] eqn:E; [|by wp_steps]. wp_steps.
  destruct (od_move_to_end (evictable_blocks p) k) as [?|d] eqn:Em; [unfold od_move_to_end in Em; by rewrite E in Em|].
  eapply wp_lift_result; [done|]. wp_steps. destruct R as [R1 R2 R3 R4].
  destruct (od_move_perm _ _ _ R2 Em) as [Hp _]. split; unfold lru_order in *; simpl; [done|by rewrite Hp| |done].
  intros k'. by rewrite Hp.
Qed.

(** The candidates are the first unprotected evictable keys, all when there are fewer. *)
Lemma lru_candidates_spec m n protected entries acc :
  0 < n → zlen acc < n → (∀ k, k ∈ entries.*1 → ∃ b, m !! k = Some b ∧ bs_ref_cnt b = 0) →
  ∃ l, lru_candidates m n protected entries acc = inr (acc ++ l)
    ∧ l.*1 = take (Z.to_nat (n - zlen acc)) (filter (λ k, k ∉ protected) entries.*1)
    ∧ ∀ k b, (k, b) ∈ l → m !! k = Some b ∧ bs_ref_cnt b = 0.
Proof.
  intros Hn. revert acc. induction entries as [|[k u] entries IH]; intros acc Ha He.
  - exists []. rewrite app_nil_r. simpl. split; [done|]. split; [by destruct (Z.to_nat (n - zlen acc))|]. by intros k b ?%elem_of_nil.
  - cbn [lru_candidates]. rewrite fmap_cons, filter_cons. cbn [fst]. case_bool_decide as Ep.
    + rewrite decide_False by tauto. apply IH; [done|]. intros k' Hk'. apply He. by right.
    + rewrite decide_True by done. destruct (He k) as (b & Hb & H0); [by left|]. rewrite Hb. simpl.
      rewrite H0. simpl. assert (zlen (acc ++ [(k, b)]) = zlen acc + 1) as El by (by rewrite zlen_app).
      destruct (Z.eqb_spec (zlen (acc ++ [(k, b)])) n) as [E|E].
      * exists [(k, b)]. split; [done|]. replace (Z.to_nat (n - zlen acc)) with 1%nat by lia.
        split; [by rewrite firstn_cons|]. by intros k' b' [= -> ->]%list_elem_of_singleton.
      * destruct (IH (acc ++ [(k, b)])) as (l & -> & El' & Hl); [lia|intros; apply He; by right|].
        exists ((k, b) :: l). rewrite <-(assoc_L (++)). split; [done|].
        replace (Z.to_nat (n - zlen acc)) with (S (Z.to_nat (n - zlen (acc ++ [(k, b)])))) by lia.
        split; [by rewrite fmap_cons, firstn_cons, El'|].
        intros k' b' [[= -> ->]|Hin]%elem_of_cons; [done|]. by apply Hl.
Qed.

Lemma lru_delete_all p m l :
  lru_rep p m (idle_keys m) → NoDup l.*1 → (∀ k b, (k, b) ∈ l → m !! k = Some b ∧ bs_ref_cnt b = 0) →
  wp (for_each l (λ c, lru_delete c.1)) (λ _ p', lru_rep p' (without m l.*1) (idle_keys (without m l.*1))
    ∧ lru_order p' = filter (λ k, k ∉ l.*1) (lru_order p)) p.
Proof.
  intros R Hn Hl. set (I := λ (done' : list (OffloadKey * BlockStatus)) p',
    lru_rep p' (without m done'.*1) (idle_keys (without m done'.*1))
    ∧ lru_order p' = filter (λ k, k ∉ done'.*1) (lru_order p)).
  change (wp (for_each l (λ c, lru_delete c.1)) (λ _ p', I l p') p). apply wp_for_each; unfold I; clear I.
  - simpl. rewrite without_nil. split; [done|]. symmetry. apply filter_all. intros k _. apply not_elem_of_nil.
  - intros pre [k b] post p' -> [R' Ho]. destruct (Hl k b) as [Hb H0]; [set_solver|].
    rewrite fmap_app, fmap_cons in Hn. apply NoDup_app in Hn as (_ & Hnot & _). simpl in Hnot.
    assert (k ∉ pre.*1) as Hk by (intros Hin; apply (Hnot k Hin); by left).
    assert (without m pre.*1 !! k = Some b) as Hw by (by rewrite lookup_without, decide_False).
    unfold lru_delete. wp_steps. unfold od_remove. simpl.
    destruct (od_get (evictable_blocks p') k) as [u|] eqn:Eu.
    2:{ apply od_get_None in Eu. exfalso. apply Eu. apply (lr_marked _ _ _ R'), elem_of_idle. by exists b. }
    eapply wp_lift_result; [done|]. wp_steps. eapply wp_lift_option; [by rewrite (lr_blocks _ _ _ R')|].
    wp_steps. rewrite fmap_app. simpl. rewrite without_snoc. pose proof (lru_drop p' _ _ k R') as Rd. split.
    + destruct Rd as [D1 D2 D3 D4]. assert (∀ k', k' ∈ idle_keys (without m pre.*1) ∖ {[k]} ↔ k' ∈ idle_keys (delete k (without m pre.*1))) as Heq.
      { intros k'. rewrite elem_of_difference, elem_of_singleton, !elem_of_idle. setoid_rewrite lookup_delete_Some. naive_solver. }
      split; simpl in *; [done|done|intros k'; by rewrite <-Heq|intros k' Hk'; apply D4; by rewrite Heq].
    + unfold lru_order in *. simpl. rewrite od_del_keys, Ho, list_filter_filter. apply list_filter_iff. intros x. rewrite elem_of_app, list_elem_of_singleton. tauto.
Qed.

Lemma lru_evict_spec p m n protected :
  lru_rep p m (idle_keys m) → 0 < n →
  wp (lru_evict n protected) (λ r p', match r with
    | None => p' = p ∧ zlen (filter (λ k, k ∉ protected) (lru_order p)) < n
    | Some l => l.*1 = take (Z.to_nat n) (filter (λ k, k ∉ protected) (lru_order p))
        ∧ zlen l = n ∧ NoDup l.*1
        ∧ (∀ k b, (k, b) ∈ l → m !! k = Some b ∧ bs_ref_cnt b = 0 ∧ k ∉ protected)
        ∧ lru_rep p' (without m l.*1) (idle_keys (without m l.*1))
        ∧ lru_order p' = filter (λ k, k ∉ l.*1) (lru_order p)
    end) p.
Proof.
  intros R Hn. unfold lru_evict. destruct (Z.eqb_spec n 0) as [|_]; [lia|]. wp_steps.
  destruct (lru_candidates_spec m n protected (evictable_blocks p) []) as (l & El & Ek & Hl).
  { done. } { by rewrite zlen_nil. } { intros k Hk. by apply elem_of_idle, (lr_marked _ _ _ R). }
  rewrite (lr_blocks _ _ _ R), El. eapply wp_lift_result; [done|]. simpl.
  rewrite zlen_nil, Z.sub_0_r in Ek. fold (lru_order p) in Ek.
  assert (zlen l = Z.min n (zlen (filter (λ k, k ∉ protected) (lru_order p)))) as Hlen.
  { unfold zlen. rewrite <-(length_fmap fst l), Ek, length_take. lia. }
  destruct (Z.ltb_spec (zlen l) n) as [Hlt|Hge].
  - wp_steps. split; [done|]. lia.
  - assert (NoDup l.*1) as Hnd.
    { rewrite Ek. eapply sublist_NoDup; [|apply sublist_take]. apply NoDup_filter, R. }
    wp_steps. eapply wp_mono; [by apply (lru_delete_all p m l)|]. intros _ p' [R' Ho]. wp_steps.
    split_and!; try done; [lia|]. intros k b Hin. destruct (Hl k b Hin). split_and!; [done..|].
    assert (k ∈ l.*1) as Hk by (by apply (list_elem_of_fmap_2 fst) in Hin). rewrite Ek in Hk.
    apply elem_of_take in Hk as (i & Hk & _). apply list_elem_of_lookup_2, list_elem_of_filter in Hk. apply Hk.
Qed.

Lemma lru_mark_law p m e k :
  lru_rep p m e → is_Some (m !! k) → wp (lru_mark_evictable k) (λ _ p', lru_rep p' m ({[k]} ∪ e)) p.
Proof.
  intros [R1 R2 R3 R4] Hk. unfold lru_mark_evictable. wp_steps. unfold lru_order in *.
  split; unfold lru_order; simpl; [done| | |].
  - destruct (decide (k ∈ (evictable_blocks p).*1)) as [Hin|Hout].
    + by rewrite od_set_keys.
    + rewrite od_set_fresh, fmap_app by done. apply NoDup_app. split_and!; [done| |apply NoDup_singleton].
      intros k' H1 ->%list_elem_of_singleton. done.
  - intros k'. rewrite elem_of_union, elem_of_singleton, <-R3.
    destruct (decide (k ∈ (evictable_blocks p).*1)) as [Hin|Hout].
    + rewrite od_set_keys by done. naive_solver.
    + rewrite od_set_fresh, fmap_app, elem_of_app by done. simpl. rewrite list_elem_of_singleton. tauto.
  - intros k' [->%elem_of_singleton|H']%elem_of_union; [done|by apply R4].
Qed.

Lemma lru_unmark_law p m e k :
  lru_rep p m e → k ∈ e → wp (lru_mark_non_evictable k) (λ _ p', lru_rep p' m (e ∖ {[k]})) p.
Proof.
  intros R Hk. unfold lru_mark_non_evictable. wp_steps. unfold od_remove.
  destruct (od_get_Some (evictable_blocks p) k) as [u Eu]; [by apply (lr_marked _ _ _ R)|]. rewrite Eu.
  eapply wp_lift_result; [done|]. wp_steps. destruct (lru_drop p m e k R) as [D1 D2 D3 D4]. destruct R as [R1 R2 R3 R4].
  split; [done|exact D2|exact D3|]. intros k' [H' _]%elem_of_difference. by apply R4.
Qed.

Lemma lru_assign_law p m e k f : lru_rep p m e → lru_rep (lru_assign k f p) (alter f k m) e.
Proof.
  intros [R1 R2 R3 R4]. split; simpl; [by rewrite R1|done|done|]. intros k' Hk'.
  destruct (R4 k' Hk') as [b Hb]. destruct (decide (k = k')) as [->|Hne].
  - rewrite lookup_alter_eq, Hb. by eexists.
  - rewrite lookup_alter_ne, Hb by done. by eexists.
Qed.
End lru.

(** An LRU policy declines only when there are fewer unprotected idle blocks. *)
Definition lru_refuses (p : LRU.LRUCachePolicy) (m : contents) (n : Z) (protected : gset OffloadKey) : Prop :=
  Z.of_nat (size (idle_keys m ∖ protected)) < n.

(** It evicts the least recently used of them. *)
Definition lru_picks (p : LRU.LRUCachePolicy) (n : Z) (protected : gset OffloadKey) (l : list OffloadKey) : Prop :=
  l = take (Z.to_nat n) (filter (λ k, k ∉ protected) (lru_order p)).

Lemma lru_unprotected p m protected :
  lru_rep p m (idle_keys m) →
  zlen (filter (λ k, k ∉ protected) (lru_order p)) = Z.of_nat (size (idle_keys m ∖ protected)).
Proof.
  intros R. unfold zlen. f_equal. rewrite <-(size_list_to_set (C := gset OffloadKey)) by (apply NoDup_filter, R).
  f_equal. apply set_eq. intros k. rewrite elem_of_list_to_set, list_elem_of_filter, elem_of_difference.
  rewrite (lr_marked _ _ _ R). tauto.
Qed.

#[global] Program Instance lru_laws : PolicyLaws LRU.LRUCachePolicy :=
  {| pol_rep := lru_rep; pol_refuses := lru_refuses; pol_picks := lru_picks |}.
Next Obligation. intros n _. split; simpl; [done|apply NoDup_nil_2| |]; set_solver. Qed.
Next Obligation. intros p m e k R. simpl. unfold LRU.lru_get. by rewrite (lr_blocks _ _ _ R). Qed.
Next Obligation. intros. by apply lru_insert_law. Qed.
Next Obligation. intros. by apply lru_remove_law. Qed.
Next Obligation. intros. by apply lru_touch_law. Qed.
Next Obligation.
  intros p m n protected R Hn. eapply wp_mono; [by apply lru_evict_spec|]. intros [l|] p'; [naive_solver|].
  intros [-> H]. split; [done|]. unfold lru_refuses. by rewrite <-(lru_unprotected p).
Qed.
Next Obligation.
  intros p m e R. simpl. unfold LRU.lru_clear. wp_steps. split; simpl; [done|apply NoDup_nil_2| |]; set_solver.
Qed.
Next Obligation. intros. by apply lru_mark_law. Qed.
Next Obligation. intros. by apply lru_unmark_law. Qed.
Next Obligation. intros. by apply lru_assign_law. Qed.
