(* ===== verification/OffloadArc.v ===== *)
(** The adaptive replacement policy keeps the promise of a cache policy: every key is in one of
    its four lists, the ghost lists stay within the capacity, and the target is a number. *)

From Corelib Require Import SpecFloat.
From S2P Require Import Prelude OrderedDict PyFloat Request BlockHash Offload OffloadFacts.

Set Warnings "-level-tolerance,-clear-no-such-hyp".

Lemma od_get_perm {K V} `{EqDecision K} (d d' : list (K * V)) k :
  NoDup d.*1 → d ≡ₚ d' → od_get d k = od_get d' k.
Proof.
  intros Hn Hp. assert (NoDup d'.*1) as Hn' by (by rewrite <-Hp).
  destruct (od_get d k) as [v|] eqn:E.
  - symmetry. apply od_get_in; [done|]. rewrite <-Hp. by apply od_get_elem.
  - symmetry. apply od_get_None. rewrite <-Hp. by apply od_get_None.
Qed.

Lemma od_del_sublist {K V} `{EqDecision K} (d : list (K * V)) k : (od_del d k).*1 `sublist_of` d.*1.
Proof.
  unfold od_del. induction d as [|e d IH]; [done|]. rewrite fmap_cons, filter_cons.
  case_decide; [rewrite fmap_cons; by apply sublist_skip|by apply sublist_cons].
Qed.

Section arc.
Import ARC.
Implicit Types (p : ARCCachePolicy) (k : OffloadKey) (m : contents) (e : gset OffloadKey).

Definition residents p : list (OffloadKey * BlockStatus) := t1 p ++ t2 p.
Definition all_keys p : list OffloadKey := (residents p).*1 ++ (b1 p).*1 ++ (b2 p).*1.

(** Everything but the bound on the ghost lists. *)
Record arc_core p m : Prop := {
  ac_get k : od_get (residents p) k = m !! k;
  ac_nodup : NoDup (all_keys p);
  ac_capacity : 0 ≤ arc_capacity p < 2 ^ 63;
  ac_target : at_most 123 (target_t1_size p) ∧ rounded false (target_t1_size p);
}.
Record arc_rep p m e : Prop := {
  ar_core : arc_core p m;
  ar_ghosts : zlen (b1 p) ≤ arc_capacity p ∧ zlen (b2 p) ≤ arc_capacity p;
}.

Lemma arc_get_residents p k : arc_get p k = od_get (residents p) k.
Proof. unfold arc_get, residents. by rewrite od_get_app. Qed.

Lemma resident_nodup p m : arc_core p m → NoDup (residents p).*1.
Proof. intros H. pose proof (ac_nodup _ _ H) as Hn. by apply NoDup_app in Hn as [? _]. Qed.

(** Reordering the lists and moving the target changes nothing a client sees. *)
Lemma arc_reorder p p' m e :
  arc_rep p m e → residents p' ≡ₚ residents p → b1 p' ≡ₚ b1 p → b2 p' ≡ₚ b2 p →
  arc_capacity p' = arc_capacity p → at_most 123 (target_t1_size p') ∧ rounded false (target_t1_size p') →
  arc_rep p' m e.
Proof.
  intros [C G] Hr H1 H2 Hc Ht. pose proof (resident_nodup _ _ C) as Hn. destruct C as [C1 C2 C3 C4].
  split; [split|]; rewrite ?Hc; try done.
  - intros k. rewrite <-C1. symmetry. by apply od_get_perm.
  - unfold all_keys. by rewrite Hr, H1, H2.
  - unfold zlen. by rewrite H1, H2.
Qed.

Lemma arc_init_law n : 0 ≤ n < 2 ^ 63 → arc_rep (arc_init n) ∅ ∅.
Proof. intros Hn. split; [split|]; simpl; try done; [apply NoDup_nil_2|]. rewrite zlen_nil. lia. Qed.

Lemma fresh_nodup p k :
  NoDup (all_keys p) → k ∉ (residents p).*1 →
  NoDup (k :: (residents p).*1 ++ (od_del (b1 p) k).*1 ++ (od_del (b2 p) k).*1).
Proof.
  intros Hn Hk. apply NoDup_cons. split.
  - rewrite !elem_of_app. intros [H|[H|H]]; [done|..];
      apply list_elem_of_fmap in H as (x & -> & [_ Hx]%elem_of_od_del); done.
  - eapply sublist_NoDup; [exact Hn|]. apply sublist_app; [done|]. by apply sublist_app; apply od_del_sublist.
Qed.

Lemma zlen_od_del {V} (d : list (OffloadKey * V)) k : zlen (od_del d k) ≤ zlen d.
Proof.
  pose proof (sublist_length _ _ (od_del_sublist d k)) as H. rewrite !length_fmap in H. unfold zlen. lia.
Qed.

Lemma arc_insert_law p m e k b :
  arc_rep p m e → m !! k = None → wp (arc_insert k b) (λ _ p', arc_rep p' (<[k := b]> m) e) p.
Proof.
  intros [C G] Hk. unfold arc_insert. wp_steps. pose proof (ac_get _ _ C k) as Hg. rewrite Hk in Hg.
  pose proof (proj1 (od_get_None _ _) Hg) as Hfresh. unfold residents in Hfresh. rewrite fmap_app, elem_of_app in Hfresh.
  pose proof (fresh_nodup p k (ac_nodup _ _ C) (proj1 (od_get_None _ _) Hg)) as Hn. destruct C as [C1 C2 C3 C4].
  split; [split|]; simpl; try done.
  - intros k'. unfold residents in *. simpl. rewrite od_get_app, od_get_set, lookup_insert.
    destruct (decide (k' = k)) as [->|Hne]; [by rewrite decide_True|]. rewrite decide_False by done.
    by rewrite <-C1, od_get_app.
  - unfold all_keys, residents in *. simpl. rewrite od_set_fresh by tauto.
    assert (((t1 p ++ [(k, b)]) ++ t2 p).*1 ≡ₚ k :: (t1 p ++ t2 p).*1) as ->; [|exact Hn].
    rewrite !fmap_app. simpl. solve_Permutation.
  - pose proof (zlen_od_del (b1 p) k). pose proof (zlen_od_del (b2 p) k). lia.
Qed.

Lemma arc_remove_law p m e k : arc_rep p m e → wp (arc_remove k) (λ _ p', arc_rep p' (delete k m) (e ∖ {[k]})) p.
Proof.
  intros [C G]. unfold arc_remove. wp_steps. pose proof (resident_nodup _ _ C) as Hn. destruct C as [C1 C2 C3 C4].
  assert (∀ x y, x = od_del (t1 p) k ∧ y = t2 p ∧ k ∉ (t2 p).*1 ∨ x = t1 p ∧ y = od_del (t2 p) k ∧ k ∉ (t1 p).*1 →
    arc_rep (set_resident x y p) (delete k m) (e ∖ {[k]})) as Hcase.
  { intros x y Hxy. assert (x = od_del (t1 p) k ∧ y = od_del (t2 p) k) as [-> ->].
    { destruct Hxy as [(-> & -> & H)|(-> & -> & H)]; split; try done; by rewrite od_del_fresh. }
    split; [split|]; simpl; try done.
    - intros k'. unfold residents in *. simpl. rewrite od_get_app, !od_get_del, lookup_delete.
      destruct (decide (k' = k)) as [->|Hne]; [by rewrite decide_True|]. rewrite decide_False by done.
      by rewrite <-C1, od_get_app.
    - eapply sublist_NoDup; [exact C2|]. unfold all_keys, residents. simpl. rewrite !fmap_app.
      apply sublist_app; [|done]. apply sublist_app; apply od_del_sublist. }
  unfold residents in Hn. rewrite fmap_app in Hn. apply NoDup_app in Hn as (_ & Hd & _).
  destruct (od_get (t1 p) k) as [b|] eqn:E; apply Hcase; [left|right].
  - split_and!; [done..|]. apply Hd. apply od_get_elem in E. by apply (list_elem_of_fmap_2 fst) in E.
  - split_and!; [done..|]. by apply od_get_None.
Qed.

(** ** Touching *)

Lemma ghost_delta_positive x y : positive_float (ghost_delta x y).
Proof. apply max_one_positive. intros s m e. apply float_div_bits. Qed.

Lemma target_raised t d cap :
  at_most 123 t ∧ rounded false t → positive_float d → 0 ≤ cap < 2 ^ 63 →
  at_most 123 (float_min (float_add t d) (py_float cap)) ∧ rounded false (float_min (float_add t d) (py_float cap)).
Proof.
  intros [H1 H2] Hd Hc. pose proof (py_float_at_most cap 63 Hc ltac:(lia)) as Hcap.
  destruct (capped_add_at_most t d (py_float cap) 123) as [?|E]; [done..|]. rewrite E.
  split; [|apply py_float_rounded; lia]. destruct (py_float cap) as [?|?| |[] mc ec]; simpl in *; try done.
  split; [lia|]. apply Z.le_trans with (2 ^ (63 - ec)); [lia|]. apply Z.pow_le_mono_r; lia.
Qed.

Lemma arc_touch_law p m e ks : arc_rep p m e → wp (arc_touch ks) (λ _ p', arc_rep p' m e) p.
Proof.
  intros R. unfold arc_touch. apply (wp_for_each _ (λ _ p', arc_rep p' m e)); [done|]. clear R p.
  intros _ k _ p _ R. pose proof (ar_core _ _ _ R) as C. pose proof (ac_nodup _ _ C) as Hn.
  unfold all_keys, residents in Hn. rewrite fmap_app, <-!(assoc_L (++)) in Hn.
  apply NoDup_app in Hn as (Hn1 & Hd1 & Hn). apply NoDup_app in Hn as (Hn2 & _ & Hn).
  apply NoDup_app in Hn as (Hn3 & _ & Hn4).
  assert (∀ (V : Type) (d : list (OffloadKey * V)) v, NoDup d.*1 → od_get d k = Some v →
    ∃ d', od_move_to_end d k = inr d' ∧ d' ≡ₚ d) as Hmove.
  { intros V d v Hd E. destruct (od_move_to_end d k) as [?|d'] eqn:Em; [unfold od_move_to_end in Em; by rewrite E in Em|].
    exists d'. split; [done|]. by apply (od_move_perm d k). }
  unfold arc_touch_key. wp_steps. destruct (od_get (t1 p) k) as [b|] eqn:E1.
  - pose proof (od_del_perm _ _ _ Hn1 E1) as Hp.
    assert (k ∈ (t1 p).*1) as Hk by (apply od_get_elem in E1; by apply (list_elem_of_fmap_2 fst) in E1).
    assert (k ∉ (t2 p).*1) as Hk2 by (intros H; apply (Hd1 k Hk); set_solver).
    destruct (is_ready b); wp_steps; apply (arc_reorder p); simpl; try done; try apply C; unfold residents; simpl.
    + rewrite od_set_fresh by done. rewrite Hp at 2. solve_Permutation.
    + rewrite od_set_fresh. 2:{ intros (x & -> & [_ Hx]%elem_of_od_del)%list_elem_of_fmap. done. }
      rewrite Hp at 2. solve_Permutation.
  - destruct (od_get (t2 p) k) as [b|] eqn:E2; [|destruct (od_get (b1 p) k) as [u|] eqn:E3; [|destruct (od_get (b2 p) k) as [u|] eqn:E4]].
    + destruct (Hmove _ _ _ Hn2 E2) as (d' & -> & Hp). wp_steps. eapply wp_lift_result; [done|]. wp_steps.
      apply (arc_reorder p); simpl; try done; [|apply C]. unfold residents. simpl. by rewrite Hp.
    + destruct (Hmove _ _ _ Hn3 E3) as (d' & -> & Hp). wp_steps. eapply wp_lift_result; [done|]. wp_steps.
      apply (arc_reorder p); simpl; try done. apply target_raised; [apply C|apply ghost_delta_positive|apply C].
    + destruct (Hmove _ _ _ Hn4 E4) as (d' & -> & Hp). wp_steps. eapply wp_lift_result; [done|]. wp_steps.
      apply (arc_reorder p); simpl; try done.
      apply floored_sub_at_most; [apply C|apply C|apply ghost_delta_positive|lia].
    + by wp_steps.
Qed.

(** ** Eviction *)

Definition evictable (protected : gset OffloadKey) (x : OffloadKey * BlockStatus) : Prop :=
  bs_ref_cnt x.2 = 0 ∧ x.1 ∉ protected.

Lemma next_candidate_spec protected entries r rest :
  next_candidate protected entries = (r, rest) →
  match r with
  | Some x => evictable protected x ∧ x :: rest `sublist_of` entries
  | None => rest = []
  end.
Proof.
  induction entries as [|x entries IH]; simpl; [by intros [= <- <-]|].
  destruct (_ && _) eqn:E.
  - intros [= <- <-]. bool_hyps. by split.
  - intros H. specialize (IH H). destruct r as [y|]; [|done]. destruct IH. split; [done|]. by apply sublist_cons.
Qed.

(** The candidates taken from T1 and from T2 are distinct evictable entries of the lists. *)
Lemma select_candidates_spec protected target n v l1 l2 c :
  select_candidates protected target n v l1 l2 = Some c →
  length c = n ∧ Forall (evictable protected) c.*1
  ∧ (filter (λ x, x.2 = true) c).*1 `sublist_of` l1 ∧ (filter (λ x, x.2 = false) c).*1 `sublist_of` l2.
Proof.
  revert v l1 l2 c. induction n as [|n IH]; intros v l1 l2 c; cbn [select_candidates].
  { intros [= <-]. simpl. split_and!; [done|by apply Forall_nil|apply sublist_nil_l..]. }
  destruct (if target <=? v then next_candidate protected l1 else (None, l1)) as [r1 rest1] eqn:E1.
  assert (match r1 with Some x => evictable protected x ∧ x :: rest1 `sublist_of` l1 | None => rest1 `sublist_of` l1 end) as H1.
  { destruct (target <=? v); [|by injection E1 as <- <-]. apply next_candidate_spec in E1.
    destruct r1; [done|]. subst. apply sublist_nil_l. }
  clear E1. destruct r1 as [x|].
  - destruct (select_candidates protected target n (v - 1) rest1 l2) as [c'|] eqn:Ec; [|done].
    intros [= <-]. destruct (IH _ _ _ _ Ec) as (Hl & Hf & Hs1 & Hs2). rewrite fmap_cons, !filter_cons. simpl.
    split_and!; [by f_equal|constructor; [apply H1|done]| |done]. transitivity (x :: rest1); [by apply sublist_skip|apply H1].
  - destruct (next_candidate protected l2) as [r2 rest2] eqn:E2. apply next_candidate_spec in E2.
    destruct r2 as [x|]; [|done]. destruct (select_candidates protected target n v rest1 rest2) as [c'|] eqn:Ec; [|done].
    intros [= <-]. destruct (IH _ _ _ _ Ec) as (Hl & Hf & Hs1 & Hs2). rewrite fmap_cons, !filter_cons. simpl.
    split_and!; [by f_equal|constructor; [apply E2|done]|by transitivity rest1|].
    transitivity (x :: rest2); [by apply sublist_skip|apply E2].
Qed.

Lemma next_candidate_head protected entries r rest :
  next_candidate protected entries = (r, rest) →
  filter (evictable protected) entries = match r with Some x => x :: filter (evictable protected) rest | None => [] end.
Proof.
  induction entries as [|x entries IH]; simpl; [by intros [= <- <-]|].
  destruct (_ && _) eqn:E.
  - intros [= <- <-]. bool_hyps. by rewrite filter_cons, decide_True by (by split).
  - intros Hnext. rewrite filter_cons, decide_False; [by apply IH|]. intros [H1 H2].
    rewrite (proj2 (Z.eqb_eq _ _) H1), (bool_decide_eq_false_2 _ H2) in E. done.
Qed.

(** Fewer than [n] candidates in T2 when the selection fails. *)
Lemma select_candidates_None protected target n v l1 l2 :
  select_candidates protected target n v l1 l2 = None → (length (filter (evictable protected) l2) < n)%nat.
Proof.
  revert v l1 l2. induction n as [|n IH]; intros v l1 l2; cbn [select_candidates]; [done|].
  destruct (if target <=? v then _ else _) as [[x|] rest1].
  - rewrite fmap_None. intros H%IH. lia.
  - destruct (next_candidate protected l2) as [r2 rest2] eqn:E2. rewrite (next_candidate_head _ _ _ _ E2).
    destruct r2 as [x|]; simpl; [|lia]. rewrite fmap_None. intros H%IH. lia.
Qed.

(** The candidates of each list are its oldest ones; T1 is drawn on while it is not below its
    target, and T2 when T1 is below its target or has no candidate left. *)
Definition arc_split (protected : gset OffloadKey) (target v : Z) (l1 l2 x y : list (OffloadKey * BlockStatus)) : Prop :=
  x = take (length x) (filter (evictable protected) l1) ∧ y = take (length y) (filter (evictable protected) l2)
  ∧ (x = [] ∨ target ≤ v - zlen x + 1)
  ∧ (y = [] ∨ v - zlen x < target ∨ x = filter (evictable protected) l1).

Lemma select_candidates_split protected target n v l1 l2 c :
  select_candidates protected target n v l1 l2 = Some c →
  arc_split protected target v l1 l2 (filter (λ x, x.2 = true) c).*1 (filter (λ x, x.2 = false) c).*1.
Proof.
  revert v l1 l2 c. induction n as [|n IH]; intros v l1 l2 c; cbn [select_candidates].
  { intros [= <-]. unfold arc_split. simpl. split_and!; try done; by left. }
  destruct (if target <=? v then next_candidate protected l1 else (None, l1)) as [r1 rest1] eqn:E1.
  assert (match r1 with
    | Some x => target ≤ v ∧ filter (evictable protected) l1 = x :: filter (evictable protected) rest1
    | None => (v < target ∧ rest1 = l1) ∨ (rest1 = [] ∧ filter (evictable protected) l1 = [])
    end) as H1.
  { destruct (Z.leb_spec target v); [|injection E1 as <- <-; by left]. pose proof (next_candidate_spec _ _ _ _ E1).
    apply next_candidate_head in E1. destruct r1; [done|]. by right. }
  clear E1. destruct r1 as [x|].
  - destruct H1 as [Hv E1]. destruct (select_candidates protected target n (v - 1) rest1 l2) as [c'|] eqn:Ec; [|done].
    intros [= <-]. destruct (IH _ _ _ _ Ec) as (S1 & S2 & S3 & S4). rewrite !filter_cons. cbn [snd]. rewrite decide_True, decide_False, fmap_cons by done. unfold arc_split.
    rewrite E1. cbn [length]. rewrite firstn_cons, zlen_cons. split_and!; [by f_equal|done| |].
    + right. destruct S3 as [->|S3]; [change (zlen (@nil (OffloadKey * BlockStatus))) with 0; lia|lia].
    + destruct S4 as [S4|[S4|S4]]; [by left|right; left; lia|right; right; by f_equal].
  - destruct (next_candidate protected l2) as [[y|] rest2] eqn:E2; [|done]. apply next_candidate_head in E2.
    destruct (select_candidates protected target n v rest1 rest2) as [c'|] eqn:Ec; [|done]. intros [= <-].
    destruct (IH _ _ _ _ Ec) as (S1 & S2 & S3 & S4). rewrite !filter_cons. cbn [snd]. rewrite (decide_False (P := false = true)), decide_True, fmap_cons by done. unfold arc_split. rewrite E2.
    cbn [length]. rewrite firstn_cons. destruct H1 as [[Hv ->]|[-> F1]].
    + assert ((filter (λ x, x.2 = true) c').*1 = []) as E.
      { destruct S3 as [S3|S3]; [done|]. destruct (filter (λ x, x.2 = true) c').*1 as [|z r]; [done|].
        rewrite zlen_cons in S3. pose proof (zlen_nonneg r). lia. }
      rewrite E in *. split_and!; [done|by f_equal|by left|]. right. left. by rewrite zlen_nil, Z.sub_0_r.
    + rewrite F1. rewrite filter_nil, take_nil in S1. rewrite S1. split_and!; [done|by f_equal|by left|by right; right].
Qed.

(** An ARC policy declines only when T2 has fewer unprotected idle blocks. *)
Definition arc_refuses p (m : contents) (n : Z) (protected : gset OffloadKey) : Prop :=
  zlen (filter (evictable protected) (t2 p)) < n.
Definition arc_picks p (n : Z) (protected : gset OffloadKey) (l : list OffloadKey) : Prop :=
  ∃ target x y, py_int (target_t1_size p) = inr target ∧ l ≡ₚ x.*1 ++ y.*1
    ∧ arc_split protected target (zlen (t1 p)) (t1 p) (t2 p) x y.

(** What is left of a list without some keys. *)
Definition left_of (l : list (OffloadKey * BlockStatus)) (ks : list OffloadKey) : list (OffloadKey * BlockStatus) :=
  filter (λ x, x.1 ∉ ks) l.

Lemma left_of_del l ks k : od_del (left_of l ks) k = left_of l (ks ++ [k]).
Proof.
  unfold od_del, left_of. rewrite list_filter_filter. apply list_filter_iff. intros x.
  rewrite elem_of_app, list_elem_of_singleton. tauto.
Qed.

Lemma left_of_get l ks k : od_get (left_of l ks) k = if decide (k ∈ ks) then None else od_get l k.
Proof.
  unfold od_get, left_of. case_decide as E.
  - destruct (filter (λ x, x.1 = k) (filter _ l)) as [|x r] eqn:Ef; [done|].
    assert (x ∈ filter (λ x, x.1 = k) (filter (λ x, x.1 ∉ ks) l)) as [<- [Hx _]%list_elem_of_filter]%list_elem_of_filter
      by (rewrite Ef; by left). done.
  - f_equal. rewrite list_filter_filter_l; [done|]. by intros x ->.
Qed.

(** After the evictions of [pre]. *)
Record evicted_from p0 m (pre : list (OffloadKey * BlockStatus * bool)) p : Prop := {
  ev_core : arc_core p (without m pre.*1.*1);
  ev_t1 : t1 p = left_of (t1 p0) pre.*1.*1;
  ev_t2 : t2 p = left_of (t2 p0) pre.*1.*1;
  ev_capacity : arc_capacity p = arc_capacity p0;
}.

Lemma apply_eviction_spec p0 m pre p k b from_t1 :
  evicted_from p0 m pre p → k ∉ pre.*1.*1 → NoDup (residents p0).*1 →
  (k, b) ∈ (if (from_t1 : bool) then t1 p0 else t2 p0) →
  wp (apply_eviction (k, b, from_t1)) (λ _ p', evicted_from p0 m (pre ++ [(k, b, from_t1)]) p') p.
Proof.
  intros [C E1 E2 Ec] Hk Hn Hin. unfold residents in Hn. rewrite fmap_app in Hn. apply NoDup_app in Hn as (Hn1 & Hd & Hn2).
  assert (od_get (if from_t1 then t1 p else t2 p) k = Some b) as Hget.
  { destruct from_t1; rewrite ?E1, ?E2, left_of_get, decide_False by done; by apply od_get_in. }
  assert (k ∉ (if from_t1 then t2 p0 else t1 p0).*1) as Hother.
  { apply (list_elem_of_fmap_2 fst) in Hin. simpl in Hin. destruct from_t1; [by apply Hd|]. intros H. by apply (Hd k H). }
  assert (od_del (if from_t1 then t2 p else t1 p) k = (if from_t1 then t2 p else t1 p)) as Hsame.
  { apply od_del_fresh. intros (x & -> & Hx)%list_elem_of_fmap. apply Hother.
    destruct from_t1; rewrite ?E1, ?E2 in Hx; apply list_elem_of_filter in Hx as [_ Hx]; by apply list_elem_of_fmap_2. }
  pose proof (resident_nodup _ _ C) as Hnr. pose proof (ac_nodup _ _ C) as Hna.
  assert (∀ q, t1 q = od_del (t1 p) k → t2 q = od_del (t2 p) k → all_keys q ≡ₚ all_keys p →
    arc_capacity q = arc_capacity p → target_t1_size q = target_t1_size p →
    evicted_from p0 m (pre ++ [(k, b, from_t1)]) q) as Hq.
  { intros q Q1 Q2 Q3 Q4 Q5. split; rewrite ?fmap_app; simpl.
    - rewrite without_snoc. destruct C as [C1 C2 C3 C4]. split; [|by rewrite Q3|by rewrite Q4|by rewrite Q5].
      intros k'. unfold residents in *. rewrite Q1, Q2, od_get_app, !od_get_del, lookup_delete.
      destruct (decide (k' = k)) as [->|Hne]; [by rewrite decide_True|]. rewrite decide_False by done.
      by rewrite <-C1, od_get_app.
    - by rewrite Q1, E1, left_of_del.
    - by rewrite Q2, E2, left_of_del.
    - by rewrite Q4. }
  assert ((residents p).*1 ≡ₚ k :: (od_del (t1 p) k ++ od_del (t2 p) k).*1) as Hperm.
  { unfold residents in *. rewrite !fmap_app in *. apply NoDup_app in Hnr as (N1 & _ & N2).
    destruct from_t1; rewrite Hsame.
    - rewrite (od_del_perm (t1 p) k b) at 1 by done. done.
    - rewrite (od_del_perm (t2 p) k b) at 1 by done. rewrite fmap_cons. simpl. solve_Permutation. }
  assert (k ∉ (b1 p).*1 ∧ k ∉ (b2 p).*1) as [Hb1 Hb2].
  { unfold all_keys in Hna. apply NoDup_app in Hna as (_ & Hdis & _). specialize (Hdis k).
    rewrite Hperm, elem_of_app in Hdis. specialize (Hdis ltac:(by left)). tauto. }
  unfold apply_eviction. wp_steps. unfold od_remove.
  destruct from_t1; rewrite Hget; wp_steps; (eapply wp_lift_result; [done|]); wp_steps; apply Hq; simpl; try done.
  - unfold all_keys at 2. rewrite Hperm. unfold all_keys, residents. simpl. rewrite od_set_fresh, Hsame by done.
    rewrite !fmap_app. simpl. solve_Permutation.
  - unfold all_keys at 2. rewrite Hperm. unfold all_keys, residents. simpl. rewrite od_set_fresh, Hsame by done.
    rewrite !fmap_app. simpl. solve_Permutation.
Qed.

Lemma pop_oldest_drop {V} n (d : list (OffloadKey * V)) : (n ≤ length d)%nat → pop_oldest n d = inr (drop n d).
Proof. revert d. induction n as [|n IH]; intros [|x d]; simpl; try done; [lia|]. intros H. apply IH. lia. Qed.

Lemma trim_spec p m : arc_core p m → wp trim_ghosts (λ _ p', arc_rep p' m (idle_keys m)) p.
Proof.
  intros C. pose proof (ac_capacity _ _ C) as Hc. unfold trim_ghosts. wp_steps.
  eapply wp_lift_result; [apply pop_oldest_drop; unfold zlen; lia|]. wp_steps.
  eapply wp_lift_result; [apply pop_oldest_drop; unfold zlen; lia|]. wp_steps.
  destruct C as [C1 C2 C3 C4]. split; [split|]; simpl; try done.
  - eapply sublist_NoDup; [exact C2|]. unfold all_keys, residents. simpl. rewrite !fmap_drop.
    apply sublist_app; [done|]. apply sublist_app; apply sublist_drop.
  - unfold zlen in *. rewrite !length_drop. lia.
Qed.

Lemma arc_evict_law p m n protected :
  arc_rep p m (idle_keys m) → 0 < n →
  wp (arc_evict n protected) (λ r p', match r with
    | None => p' = p ∧ arc_refuses p m n protected
    | Some l => arc_picks p n protected l.*1 ∧ zlen l = n ∧ NoDup l.*1
        ∧ (∀ k b, (k, b) ∈ l → m !! k = Some b ∧ bs_ref_cnt b = 0 ∧ k ∉ protected)
        ∧ arc_rep p' (without m l.*1) (idle_keys (without m l.*1))
    end) p.
Proof.
  intros [C G] Hn. unfold arc_evict. destruct (Z.eqb_spec n 0) as [|_]; [lia|]. wp_steps.
  destruct (py_int_at_most 123 _ (proj1 (ac_target _ _ C))) as [target Et]. rewrite Et.
  eapply wp_lift_result; [done|]. simpl.
  destruct (select_candidates protected target (Z.to_nat n) (zlen (t1 p)) (t1 p) (t2 p)) as [c|] eqn:Ec.
  2:{ wp_steps. split; [done|]. unfold arc_refuses, zlen. apply select_candidates_None in Ec. lia. }
  destruct (select_candidates_spec _ _ _ _ _ _ _ Ec) as (Hlen & Hf & Hs1 & Hs2).
  pose proof (resident_nodup _ _ C) as Hnr.
  assert (∀ x : OffloadKey * BlockStatus * bool, x ∈ c → x.1 ∈ (if x.2 then t1 p else t2 p)) as Hin.
  { intros [x [|]] Hx; simpl; [eapply elem_of_sublist, Hs1|eapply elem_of_sublist, Hs2];
      apply list_elem_of_fmap; eexists; (split; [|apply list_elem_of_filter; split; [|exact Hx]]); done. }
  assert (c ≡ₚ filter (λ x, x.2 = true) c ++ filter (λ x, x.2 = false) c) as Hparts.
  { clear. induction c as [|[x [|]] c IH]; simpl; [done|..].
    - rewrite !filter_cons. simpl. by rewrite IH at 1.
    - rewrite !filter_cons. simpl. rewrite IH at 1. solve_Permutation. }
  assert (NoDup c.*1.*1) as Hnd.
  { rewrite Hparts. rewrite !fmap_app. eapply sublist_NoDup; [exact Hnr|]. unfold residents. rewrite fmap_app.
    apply sublist_app; by apply fmap_sublist. }
  wp_steps. eapply wp_mono.
  { apply (wp_for_each _ (evicted_from p m)).
    - split; simpl; [by rewrite without_nil|..|done]; unfold left_of; symmetry; apply filter_all; intros x _; apply not_elem_of_nil.
    - intros pre [[k b] f] post p' -> Hev. rewrite !fmap_app, !fmap_cons in Hnd. apply NoDup_app in Hnd as (_ & Hdis & _).
      apply apply_eviction_spec; [done| |done|].
      + intros Hk. apply (Hdis k Hk). by left.
      + apply (Hin (k, b, f)). set_solver. }
  simpl. intros _ p1 Hev. wp_steps. eapply wp_mono; [by apply trim_spec, Hev|]. intros ? p2 R2. wp_steps.
  split_and!; [|unfold zlen; rewrite length_fmap; lia|done| |done].
  { exists target, (filter (λ x, x.2 = true) c).*1, (filter (λ x, x.2 = false) c).*1. split_and!; [done| |].
    - rewrite <-!fmap_app. by rewrite <-Hparts.
    - by eapply select_candidates_split. }
  intros k b ([[k' b'] f] & [= -> ->] & Hx)%list_elem_of_fmap. split.
  - rewrite <-(ac_get _ _ C). apply od_get_in; [done|]. unfold residents. rewrite elem_of_app.
    specialize (Hin _ Hx). destruct f; simpl in Hin; tauto.
  - assert ((k', b') ∈ c.*1) as Hk by (by apply (list_elem_of_fmap_2 fst) in Hx).
    rewrite Forall_forall in Hf. by destruct (Hf _ Hk).
Qed.

(** ** Assignments *)

Definition update_at k (f : BlockStatus → BlockStatus) (x : OffloadKey * BlockStatus) : OffloadKey * BlockStatus :=
  if decide (x.1 = k) then (x.1, f x.2) else x.

Lemma update_at_keys k f l : (update_at k f <$> l).*1 = l.*1.
Proof. rewrite <-list_fmap_compose. apply list_fmap_ext. intros _ x _. unfold update_at. simpl. by case_decide. Qed.

Lemma update_at_get k f l k' : od_get (update_at k f <$> l) k' = if decide (k' = k) then f <$> od_get l k else od_get l k'.
Proof.
  induction l as [|[k0 b] l IH]; [by case_decide|]. rewrite fmap_cons. unfold update_at at 1. cbn [fst snd].
  destruct (decide (k0 = k)) as [->|Hne]; rewrite !od_get_cons, IH; repeat case_decide; subst; try done.
Qed.

Lemma arc_assign_law p m e k f : arc_rep p m e → arc_rep (arc_assign k f p) (alter f k m) e.
Proof.
  intros [C G]. pose proof (resident_nodup _ _ C) as Hn. destruct C as [C1 C2 C3 C4].
  unfold residents in Hn. rewrite fmap_app in Hn. apply NoDup_app in Hn as (_ & Hd & _).
  assert (∀ x y, x.*1 = (t1 p).*1 → y.*1 = (t2 p).*1 →
    (∀ k', od_get (x ++ y) k' = if decide (k' = k) then f <$> od_get (t1 p ++ t2 p) k else od_get (t1 p ++ t2 p) k') →
    arc_rep (set_resident x y p) (alter f k m) e) as Hcase.
  { intros x y Hx Hy Hg. split; [split|]; simpl; try done.
    - intros k'. unfold residents in *. simpl. rewrite Hg, !C1, lookup_alter. by repeat case_decide; subst.
    - unfold all_keys, residents in *. simpl. by rewrite fmap_app, Hx, Hy, <-fmap_app. }
  unfold arc_assign. fold (update_at k f). destruct (od_get (t1 p) k) as [b|] eqn:E.
  - apply Hcase; [apply update_at_keys|done|]. intros k'. rewrite !od_get_app, update_at_get, E.
    destruct (decide (k' = k)) as [->|]; [done|]. done.
  - apply Hcase; [done|apply update_at_keys|]. intros k'. rewrite !od_get_app, update_at_get, E.
    destruct (decide (k' = k)) as [->|]; [by rewrite E|]. done.
Qed.
End arc.

#[global] Program Instance arc_laws : PolicyLaws ARC.ARCCachePolicy :=
  {| pol_rep := arc_rep; pol_refuses := arc_refuses; pol_picks := arc_picks |}.
Next Obligation. intros. by apply arc_init_law. Qed.
Next Obligation. intros p m e k R. simpl. rewrite arc_get_residents. apply R. Qed.
Next Obligation. intros. by apply arc_insert_law. Qed.
Next Obligation. intros. by apply arc_remove_law. Qed.
Next Obligation. intros. by apply arc_touch_law. Qed.
Next Obligation. intros. by apply arc_evict_law. Qed.
Next Obligation.
  intros p m e R. simpl. unfold ARC.arc_clear. wp_steps. apply arc_init_law, (ac_capacity _ _ (ar_core _ _ _ R)).
Qed.
Next Obligation. intros p m e k [C G] _. simpl. by wp_steps. Qed.
Next Obligation. intros p m e k [C G] _. simpl. by wp_steps. Qed.
Next Obligation. intros. by apply arc_assign_law. Qed.
