(* ===== verification/OffloadManager.v ===== *)
(** [CPUOffloadingManager] of [vllm/v1/kv_offload/cpu/manager.py], over any cache policy. *)

From S2P Require Import Prelude OrderedDict Request BlockHash Offload.

(** [medium] is [CPU] in every event. *)
Record OffloadingEvent := mkOffloadingEvent {
  event_keys : list OffloadKey;
  event_removed : bool;
}.

(** [store_spec] holds the ids of the CPU blocks. *)
Record PrepareStoreOutput := mkPrepareStore {
  keys_to_store : list OffloadKey;
  store_spec : list Z;
  evicted_keys : list OffloadKey;
}.

Section manager.
Context {P : Type} `{CachePolicy P}.

Record CPUOffloadingManager := mkOffloadManager {
  _num_blocks : Z;
  _num_allocated_blocks : Z;
  _free_list : list Z;
  off_events : option (list OffloadingEvent);
  _policy : P;
  _num_evictable_cache_blocks : Z;
  _num_write_pending_blocks : Z;
  store_threshold : Z;
  max_tracker_size : Z;
  stores_skipped_in_current_batch : Z;
  allocation_sizes_in_current_batch : list Z;
  counts : option (list (OffloadKey * Z));
}.
Implicit Types (s : CPUOffloadingManager) (key : OffloadKey) (keys : list OffloadKey).

(** Assignments to the attributes. *)
Definition set_slots_state (allocated : Z) (free : list Z) s : CPUOffloadingManager :=
  mkOffloadManager (_num_blocks s) allocated free (off_events s) (_policy s)
    (_num_evictable_cache_blocks s) (_num_write_pending_blocks s) (store_threshold s) (max_tracker_size s)
    (stores_skipped_in_current_batch s) (allocation_sizes_in_current_batch s) (counts s).
Definition set_policy (p : P) s : CPUOffloadingManager :=
  mkOffloadManager (_num_blocks s) (_num_allocated_blocks s) (_free_list s) (off_events s) p
    (_num_evictable_cache_blocks s) (_num_write_pending_blocks s) (store_threshold s) (max_tracker_size s)
    (stores_skipped_in_current_batch s) (allocation_sizes_in_current_batch s) (counts s).
Definition add_evictable (n : Z) s : CPUOffloadingManager :=
  mkOffloadManager (_num_blocks s) (_num_allocated_blocks s) (_free_list s) (off_events s) (_policy s)
    (_num_evictable_cache_blocks s + n) (_num_write_pending_blocks s) (store_threshold s) (max_tracker_size s)
    (stores_skipped_in_current_batch s) (allocation_sizes_in_current_batch s) (counts s).
Definition add_pending (n : Z) s : CPUOffloadingManager :=
  mkOffloadManager (_num_blocks s) (_num_allocated_blocks s) (_free_list s) (off_events s) (_policy s)
    (_num_evictable_cache_blocks s) (_num_write_pending_blocks s + n) (store_threshold s) (max_tracker_size s)
    (stores_skipped_in_current_batch s) (allocation_sizes_in_current_batch s) (counts s).
Definition set_off_events (e : option (list OffloadingEvent)) s : CPUOffloadingManager :=
  mkOffloadManager (_num_blocks s) (_num_allocated_blocks s) (_free_list s) e (_policy s)
    (_num_evictable_cache_blocks s) (_num_write_pending_blocks s) (store_threshold s) (max_tracker_size s)
    (stores_skipped_in_current_batch s) (allocation_sizes_in_current_batch s) (counts s).
Definition set_batch (skipped : Z) (sizes : list Z) s : CPUOffloadingManager :=
  mkOffloadManager (_num_blocks s) (_num_allocated_blocks s) (_free_list s) (off_events s) (_policy s)
    (_num_evictable_cache_blocks s) (_num_write_pending_blocks s) (store_threshold s) (max_tracker_size s)
    skipped sizes (counts s).
Definition set_counts (c : option (list (OffloadKey * Z))) s : CPUOffloadingManager :=
  mkOffloadManager (_num_blocks s) (_num_allocated_blocks s) (_free_list s) (off_events s) (_policy s)
    (_num_evictable_cache_blocks s) (_num_write_pending_blocks s) (store_threshold s) (max_tracker_size s)
    (stores_skipped_in_current_batch s) (allocation_sizes_in_current_batch s) c.

Definition on_policy {A} (op : M P A) : M CPUOffloadingManager A := zoom _policy set_policy op.
Definition get_block key : M CPUOffloadingManager (option BlockStatus) := gets (λ s, policy_get (_policy s) key).
(** [block.ref_cnt = n] for the block of a key. *)
Definition assign_ref_cnt key (n : Z) : M CPUOffloadingManager unit :=
  modify (λ s, set_policy (policy_assign key (set_ref_cnt n) (_policy s)) s).
Definition emit keys (removed : bool) : M CPUOffloadingManager unit :=
  modify (λ s, match off_events s with
               | Some es => set_off_events (Some (es ++ [mkOffloadingEvent keys removed])) s
               | None => s
               end).

Definition CPUOffloadingManager_init (num_blocks : Z) (enable_events : bool) (threshold max_tracker : Z)
    : CPUOffloadingManager :=
  mkOffloadManager num_blocks 0 [] (if enable_events then Some [] else None) (policy_init num_blocks) 0 0
    threshold max_tracker 0 [] (if 2 <=? threshold then Some [] else None).

(** ** The block pool *)

Definition _get_num_free_blocks s : Z := zlen (_free_list s) + _num_blocks s - _num_allocated_blocks s.

Definition allocate_fresh : M CPUOffloadingManager BlockStatus :=
  s ← get;
  modify (set_slots_state (_num_allocated_blocks s + 1) (_free_list s));;
  mret (BlockStatus_init (_num_allocated_blocks s)).
(** [BlockStatus(self._free_list.pop())]. *)
Definition allocate_reused : M CPUOffloadingManager BlockStatus :=
  s ← get;
  id ← lift_option IndexError (last (_free_list s));
  modify (set_slots_state (_num_allocated_blocks s) (take (pred (length (_free_list s))) (_free_list s)));;
  mret (BlockStatus_init id).
(** [n] times. *)
Fixpoint repeat_op {A} (n : nat) (op : M CPUOffloadingManager A) (acc : list A) : M CPUOffloadingManager (list A) :=
  match n with
  | O => mret acc
  | S n' => a ← op; repeat_op n' op (acc ++ [a])
  end.
Definition _allocate_blocks keys : M CPUOffloadingManager (list BlockStatus) :=
  s ← get;
  let num_fresh := Z.min (zlen keys) (_num_blocks s - _num_allocated_blocks s) in
  let num_reused := zlen keys - num_fresh in
  assert (num_reused <=? zlen (_free_list s));;
  fresh ← repeat_op (Z.to_nat num_fresh) allocate_fresh [];
  repeat_op (Z.to_nat num_reused) allocate_reused fresh.

Definition _free_block (b : BlockStatus) : M CPUOffloadingManager unit :=
  modify (λ s, set_slots_state (_num_allocated_blocks s) (_free_list s ++ [bs_block_id b]) s).

Definition _get_load_store_spec (blocks : list BlockStatus) : list Z := bs_block_id <$> blocks.

(** ** Operations *)

(** The references of a key, for [store_threshold]. *)
Definition count_reference key : M CPUOffloadingManager unit :=
  s ← get;
  match counts s with
  | None => mret tt
  | Some c =>
      match od_get c key with
      | Some n =>
          c' ← lift_result (od_move_to_end c key);
          modify (set_counts (Some (od_set c' key (n + 1))))
      | None =>
          c' ← (if max_tracker_size s <=? zlen c then lift_result (ARC.pop_oldest 1 c) else mret c);
          modify (set_counts (Some (od_set c' key 1)))
      end
  end.

Definition off_lookup key : M CPUOffloadingManager LookupResult :=
  count_reference key;;
  block ← get_block key;
  mret (match block with
        | None => MISS
        | Some b => if is_ready b then HIT else HIT_PENDING
        end).

Definition load_key (blocks : list BlockStatus) key : M CPUOffloadingManager (list BlockStatus) :=
  found ← get_block key;
  block ← lift_option AssertionError found;
  assert (is_ready block);;
  when (bs_ref_cnt block =? 0)
    (on_policy (policy_mark_non_evictable key);;
     modify (add_evictable (-1));;
     s ← get; assert (0 <=? _num_evictable_cache_blocks s));;
  assign_ref_cnt key (bs_ref_cnt block + 1);;
  mret (blocks ++ [block]).
Definition prepare_load keys : M CPUOffloadingManager (list Z) :=
  blocks ← fold_each keys load_key [];
  mret (_get_load_store_spec blocks).

Definition off_touch keys : M CPUOffloadingManager unit := on_policy (policy_touch keys).

Definition unload_key key : M CPUOffloadingManager unit :=
  found ← get_block key;
  block ← lift_option AssertionError found;
  assert (0 <? bs_ref_cnt block);;
  let n := c_int 32 (bs_ref_cnt block - 1) in
  assign_ref_cnt key n;;
  when (n =? 0)
    (modify (add_evictable 1);; on_policy (policy_mark_evictable key)).
Definition complete_load keys : M CPUOffloadingManager unit := for_each keys unload_key.

(** The keys that were looked up often enough; the others are skipped. *)
Definition filter_counted keys : M CPUOffloadingManager (list OffloadKey) :=
  s ← get;
  match counts s with
  | None => mret keys
  | Some c =>
      let keys' := filter (λ k, store_threshold s ≤ default 0 (od_get c k)) keys in
      modify (set_batch (stores_skipped_in_current_batch s + (zlen keys - zlen keys'))
                (allocation_sizes_in_current_batch s));;
      mret keys'
  end.

(** Make room for [n] blocks; [None] when that is not possible. *)
Definition make_room (n : Z) keys : M CPUOffloadingManager (option (list OffloadKey)) :=
  s ← get;
  if 0 <? n then
    if _num_evictable_cache_blocks s <? n then mret None
    else
      evicted ← on_policy (policy_evict n (list_to_set keys));
      match evicted with
      | None => mret None
      | Some l =>
          modify (add_evictable (- zlen l));;
          s ← get;
          assert (0 <=? _num_evictable_cache_blocks s);;
          for_each l (λ e, _free_block e.2);;
          mret (Some l.*1)
      end
  else mret (Some []).

Definition prepare_store keys0 : M CPUOffloadingManager (option PrepareStoreOutput) :=
  keys ← filter_counted keys0;
  s ← get;
  let to_store := filter (λ k, policy_get (_policy s) k = None) keys in
  if bool_decide (to_store = []) then mret (Some (mkPrepareStore [] [] []))
  else
    modify (set_batch (stores_skipped_in_current_batch s)
              (allocation_sizes_in_current_batch s ++ [zlen to_store]));;
    room ← make_room (zlen to_store - _get_num_free_blocks s) keys;
    match room with
    | None => mret None
    | Some to_evict =>
        when (negb (bool_decide (to_evict = []))) (emit to_evict true);;
        blocks ← _allocate_blocks to_store;
        assert (bool_decide (length blocks = length to_store));;
        for_each (zip to_store blocks) (λ e, on_policy (policy_insert e.1 e.2));;
        modify (add_pending (zlen to_store));;
        mret (Some (mkPrepareStore to_store (_get_load_store_spec blocks) to_evict))
    end.

Definition store_done (stored : list OffloadKey) key : M CPUOffloadingManager (list OffloadKey) :=
  block ← get_block key;
  match block with
  | Some b =>
      if is_ready b then mret stored
      else
        assign_ref_cnt key 0;;
        modify (add_pending (-1));;
        modify (add_evictable 1);;
        on_policy (policy_mark_evictable key);;
        mret (stored ++ [key])
  | None => mret stored
  end.
Definition store_failed key : M CPUOffloadingManager unit :=
  block ← get_block key;
  match block with
  | Some b =>
      if is_ready b then mret tt
      else
        modify (add_pending (-1));;
        on_policy (policy_remove key);;
        _free_block b
  | None => mret tt
  end.
Definition complete_store keys (success : bool) : M CPUOffloadingManager unit :=
  stored ← (if success then fold_each keys store_done []
            else for_each keys store_failed;; mret []);
  when (negb (bool_decide (stored = []))) (emit stored false).

Definition reset_cache : M CPUOffloadingManager unit :=
  on_policy policy_clear;;
  modify (λ s, add_evictable (- _num_evictable_cache_blocks s) (add_pending (- _num_write_pending_blocks s) s));;
  modify (set_slots_state 0 []).

(** The events of the generator, read to its end. *)
Definition off_take_events : M CPUOffloadingManager (list OffloadingEvent) :=
  s ← get;
  match off_events s with
  | Some es => modify (set_off_events (Some []));; mret es
  | None => mret []
  end.

(** The numbers [get_stats] reports: used blocks, write-pending blocks, allocation sizes and
    skipped stores. *)
Definition get_stats : M CPUOffloadingManager (Z * Z * list Z * option Z) :=
  s ← get;
  let num_used := _num_allocated_blocks s - zlen (_free_list s) - _num_evictable_cache_blocks s in
  modify (set_batch (stores_skipped_in_current_batch s) []);;
  skipped ← (if 2 <=? store_threshold s then modify (set_batch 0 []);; mret (Some (stores_skipped_in_current_batch s))
             else mret None);
  mret (num_used, _num_write_pending_blocks s, allocation_sizes_in_current_batch s, skipped).
End manager.
Arguments CPUOffloadingManager : clear implicits.
