(* ===== verification/OffloadSteps.v ===== *)
(** The invariant of the offloading manager: its counters and its slots agree with the blocks the
    policy holds, and a block has one reference per running load.  Every operation keeps it, for
    every policy with [PolicyLaws]. *)

From S2P Require Import Prelude OrderedDict Request BlockHash Offload OffloadFacts OffloadManager.

Set Warnings "-level-tolerance,-clear-no-such-hyp".

(** ** Contents *)

(** The keys of the blocks with reference count [n]. *)
Definition keys_with (n : Z) (m : contents) : gset OffloadKey := dom (filter (λ e, bs_ref_cnt e.2 = n) m).
Definition slot_ids (m : contents) : list Z := (λ e, bs_block_id e.2) <$> map_to_list m.
(** The number of running loads of a key. *)
Definition loading (loads : list OffloadKey) (k : OffloadKey) : Z := zlen (filter (λ x, x = k) loads).

Section contents.
Implicit Types (m : contents) (k : OffloadKey) (b : BlockStatus).

Lemma elem_of_keys_with n m k : k ∈ keys_with n m ↔ ∃ b, m !! k = Some b ∧ bs_ref_cnt b = n.
Proof.
  unfold keys_with. rewrite elem_of_dom. split.
  - intros [b [Hb H0]%map_lookup_filter_Some]. by exists b.
  - intros (b & Hb & H0). exists b. by apply map_lookup_filter_Some.
Qed.

Lemma keys_with_insert n m k b :
  keys_with n (<[k := b]> m) = (if decide (bs_ref_cnt b = n) then {[k]} else ∅) ∪ keys_with n m ∖ {[k]}.
Proof.
  apply set_eq. intros k'. rewrite elem_of_union, elem_of_difference, elem_of_singleton, !elem_of_keys_with.
  destruct (decide (k' = k)) as [->|Hne].
  - rewrite lookup_insert_eq. case_decide; set_solver.
  - rewrite lookup_insert_ne by done. case_decide; set_solver.
Qed.

Lemma keys_with_delete n m k : keys_with n (delete k m) = keys_with n m ∖ {[k]}.
Proof.
  apply set_eq. intros k'. rewrite elem_of_difference, elem_of_singleton, !elem_of_keys_with.
  setoid_rewrite lookup_delete_Some. naive_solver.
Qed.

(** How many blocks have count [n], when a block changes or goes. *)
Lemma size_keys_insert n m k b :
  Z.of_nat (size (keys_with n (<[k := b]> m)))
  = Z.of_nat (size (keys_with n m)) + (if decide (bs_ref_cnt b = n) then 1 else 0)
    - (if decide (k ∈ keys_with n m) then 1 else 0).
Proof.
  rewrite keys_with_insert. set (X := keys_with n m).
  rewrite size_union by (case_decide; set_solver).
  assert (size (X ∖ {[k]}) + (if decide (k ∈ X) then 1 else 0) = size X)%nat as E.
  { case_decide as Hk.
    - rewrite <-(size_singleton (C := gset OffloadKey) k), <-size_union by set_solver. f_equal.
      apply set_eq. intros x. destruct (decide (x = k)) as [->|]; set_solver.
    - rewrite Nat.add_0_r. f_equal. set_solver. }
  destruct (decide (bs_ref_cnt b = n)); rewrite ?size_singleton, ?size_empty; case_decide; lia.
Qed.

Lemma size_keys_delete n m k :
  Z.of_nat (size (keys_with n (delete k m)))
  = Z.of_nat (size (keys_with n m)) - (if decide (k ∈ keys_with n m) then 1 else 0).
Proof.
  rewrite keys_with_delete. set (X := keys_with n m). case_decide as Hk.
  - rewrite size_difference by set_solver. rewrite size_singleton.
    assert (size X ≠ 0)%nat; [|lia]. intros E. apply size_empty_inv in E. set_solver.
  - replace (X ∖ {[k]}) with X by set_solver. lia.
Qed.

Lemma slot_ids_insert m k b : m !! k = None → slot_ids (<[k := b]> m) ≡ₚ bs_block_id b :: slot_ids m.
Proof. intros H. unfold slot_ids. by rewrite map_to_list_insert. Qed.

Lemma slot_ids_delete m k b : m !! k = Some b → slot_ids m ≡ₚ bs_block_id b :: slot_ids (delete k m).
Proof. intros H. rewrite <-slot_ids_insert by apply lookup_delete_eq. by rewrite insert_delete_id. Qed.

Lemma slot_ids_update m k b b' : m !! k = Some b → bs_block_id b' = bs_block_id b → slot_ids (<[k := b']> m) ≡ₚ slot_ids m.
Proof.
  intros H E. rewrite (slot_ids_delete m k b H), <-E, <-slot_ids_insert by apply lookup_delete_eq.
  by rewrite insert_delete_eq.
Qed.

Lemma alter_known m k b f : m !! k = Some b → alter f k m = <[k := f b]> m.
Proof.
  intros H. apply map_eq. intros k'. destruct (decide (k = k')) as [<-|Hne].
  - by rewrite lookup_alter_eq, lookup_insert_eq, H.
  - by rewrite lookup_alter_ne, lookup_insert_ne.
Qed.

Lemma loading_snoc l k k' : loading (l ++ [k]) k' = loading l k' + (if decide (k = k') then 1 else 0).
Proof.
  unfold loading. rewrite filter_app, zlen_app, filter_cons. f_equal. case_decide; done.
Qed.
Lemma loading_nonneg l k : 0 ≤ loading l k ≤ zlen l.
Proof. unfold loading, zlen. pose proof (length_filter (λ x, x = k) l). lia. Qed.
Lemma loading_perm l l' k : l ≡ₚ l' → loading l k = loading l' k.
Proof. intros H. unfold loading, zlen. by rewrite H. Qed.
Lemma loading_pos l k : k ∈ l ↔ 0 < loading l k.
Proof.
  unfold loading. split.
  - intros H. destruct (filter (λ x, x = k) l) as [|x r] eqn:E; [|rewrite zlen_cons; pose proof (zlen_nonneg r); lia].
    assert (k ∈ filter (λ x, x = k) l) as Hk by (by apply list_elem_of_filter). rewrite E in Hk. by apply elem_of_nil in Hk.
  - destruct (filter (λ x, x = k) l) as [|x r] eqn:E; [unfold zlen; simpl; lia|]. intros _.
    assert (x ∈ filter (λ x, x = k) l) as [<- Hx]%list_elem_of_filter by (rewrite E; by left). done.
Qed.

Lemma evicted_slots m l :
  NoDup l.*1 → (∀ k b, (k, b) ∈ l → m !! k = Some b ∧ bs_ref_cnt b = 0) →
  slot_ids m ≡ₚ (bs_block_id <$> l.*2) ++ slot_ids (without m l.*1)
  ∧ Z.of_nat (size (keys_with 0 (without m l.*1))) = Z.of_nat (size (keys_with 0 m)) - zlen l
  ∧ keys_with (-1) (without m l.*1) = keys_with (-1) m.
Proof.
  induction l as [|[k b] l IH] using rev_ind; intros Hn Hl.
  { simpl. rewrite without_nil. split_and!; [done|unfold zlen; simpl; lia|done]. }
  rewrite !fmap_app in *. simpl in *. apply NoDup_app in Hn as (Hn & Hk & _).
  destruct IH as (I1 & I2 & I3); [done|intros k' b' H'; apply Hl; set_solver|].
  destruct (Hl k b) as [Hb H0]; [set_solver|].
  assert (k ∉ l.*1) as Hkl by (intros H; apply (Hk k H); by left).
  assert (without m l.*1 !! k = Some b) as Hw by (by rewrite lookup_without, decide_False).
  rewrite without_snoc. split_and!.
  - rewrite I1, (slot_ids_delete _ k b Hw), <-(assoc_L (++)). done.
  - rewrite size_keys_delete, I2, zlen_app, decide_True; [by change (zlen [(k, b)]) with 1; lia|].
    apply elem_of_keys_with. by exists b.
  - rewrite keys_with_delete, I3. apply set_eq. intros k'. rewrite elem_of_difference, elem_of_singleton.
    split; [tauto|]. intros H'. split; [done|]. intros ->. apply elem_of_keys_with in H' as (b' & Hb' & E).
    assert (b' = b) as -> by congruence. lia.
Qed.
End contents.

(** ** The invariant *)

Section manager.
Context {P : Type} `{CP : CachePolicy P} `{PL : !PolicyLaws P}.
Implicit Types (s : CPUOffloadingManager P) (m : contents) (k : OffloadKey) (ks loads : list OffloadKey).

(** The slots: every allocated slot is that of one cached block or free. *)
Record slots_ok s m : Prop := {
  sl_ids : slot_ids m ++ _free_list s ≡ₚ py_range 0 (_num_allocated_blocks s);
  sl_bound : 0 ≤ _num_allocated_blocks s ≤ _num_blocks s ∧ _num_blocks s < 2 ^ 63;
}.
(** A block that is being written has no reader; the count of any other is its number of
    running loads. *)
Record refs_ok m loads : Prop := {
  rf_count k b : m !! k = Some b → (bs_ref_cnt b = -1 ∧ loading loads k = 0) ∨ bs_ref_cnt b = loading loads k;
  rf_known k : k ∈ loads → is_Some (m !! k);
  rf_loads : zlen loads < 2 ^ 31;
}.
Definition counts_ok s : Prop :=
  1 ≤ max_tracker_size s ∧ match counts s with
  | Some c => NoDup c.*1 ∧ zlen c ≤ max_tracker_size s
  | None => True
  end.
Record off_inv s m loads : Prop := {
  oi_rep : pol_rep (_policy s) m (keys_with 0 m);
  oi_idle : _num_evictable_cache_blocks s = Z.of_nat (size (keys_with 0 m));
  oi_pending : _num_write_pending_blocks s = Z.of_nat (size (keys_with (-1) m));
  oi_slots : slots_ok s m;
  oi_refs : refs_ok m loads;
  oi_counts : counts_ok s;
}.

Lemma off_get s m loads k : off_inv s m loads → policy_get (_policy s) k = m !! k.
Proof. intros Hi. by apply (law_get _ m (keys_with 0 m)), Hi. Qed.

(** The attributes the invariant does not mention. *)
Lemma off_inv_ext s s' m loads :
  off_inv s m loads → _policy s' = _policy s → _num_evictable_cache_blocks s' = _num_evictable_cache_blocks s →
  _num_write_pending_blocks s' = _num_write_pending_blocks s → _free_list s' = _free_list s →
  _num_allocated_blocks s' = _num_allocated_blocks s → _num_blocks s' = _num_blocks s → counts_ok s' →
  off_inv s' m loads.
Proof. intros [I1 I2 I3 [I4 I5] I6 I7] E1 E2 E3 E4 E5 E6 Hc. split; [..|done]; rewrite ?E1, ?E2, ?E3; try done. by split; rewrite ?E4, ?E5, ?E6. Qed.

(** ** Loads *)

Lemma refs_update m loads loads' k b n :
  refs_ok m loads → m !! k = Some b → loading loads k = bs_ref_cnt b → n = loading loads' k →
  (∀ k', k' ≠ k → loading loads' k' = loading loads k') → zlen loads' < 2 ^ 31 →
  refs_ok (<[k := mkBlockStatus n (bs_block_id b)]> m) loads'.
Proof.
  intros [R1 R2 R3] Hb Hl Hn Ho Hz. split; [| |done].
  - intros k' b' Hb'. destruct (decide (k = k')) as [<-|Hne].
    + rewrite lookup_insert_eq in Hb'. injection Hb' as <-. by right.
    + rewrite lookup_insert_ne in Hb' by done. rewrite Ho by done. by apply R1.
  - intros k' Hk'. destruct (decide (k = k')) as [<-|Hne]; [rewrite lookup_insert_eq; by eexists|].
    rewrite lookup_insert_ne by done. apply R2, loading_pos. rewrite <-Ho by done. by apply loading_pos.
Qed.

(** The count of an idle or loading block changes to [n]; the counters follow. *)
Lemma off_inv_ref s m loads loads' k b n p e :
  off_inv s m loads → m !! k = Some b → loading loads k = bs_ref_cnt b → n = loading loads' k →
  (∀ k', k' ≠ k → loading loads' k' = loading loads k') → zlen loads' < 2 ^ 31 →
  pol_rep p (<[k := mkBlockStatus n (bs_block_id b)]> m) (keys_with 0 (<[k := mkBlockStatus n (bs_block_id b)]> m)) →
  e = (if decide (n = 0) then 1 else 0) - (if decide (bs_ref_cnt b = 0) then 1 else 0) →
  off_inv (add_evictable e (set_policy p s)) (<[k := mkBlockStatus n (bs_block_id b)]> m) loads'.
Proof.
  intros [I1 I2 I3 [I4 I5] I6 I7] Hb Hl Hn Ho Hz Hrep He. set (m' := <[k := _]> m) in *.
  pose proof (loading_nonneg loads k) as Hl1. pose proof (loading_nonneg loads' k) as Hl2.
  assert (∀ z, k ∈ keys_with z m ↔ bs_ref_cnt b = z) as Hk.
  { intros z. rewrite elem_of_keys_with. split; [intros (b' & Hb' & <-); congruence|by exists b]. }
  split; [done| | |split; [|done]|by apply (refs_update m loads)|done]; simpl.
  - unfold m'. rewrite size_keys_insert, I2, He. simpl. rewrite (decide_ext (k ∈ keys_with 0 m) (bs_ref_cnt b = 0)) by apply Hk. lia.
  - unfold m'. rewrite size_keys_insert, I3. simpl. rewrite !decide_False; [lia|rewrite Hk; lia|lia].
  - unfold m'. by rewrite (slot_ids_update m k b).
Qed.

Lemma load_key_spec s m loads k b acc :
  off_inv s m loads → m !! k = Some b → is_ready b = true → zlen loads + 1 < 2 ^ 31 →
  wp (load_key acc k) (λ r s', r = acc ++ [b] ∧ _num_blocks s' = _num_blocks s
    ∧ off_inv s' (<[k := mkBlockStatus (bs_ref_cnt b + 1) (bs_block_id b)]> m) (loads ++ [k])) s.
Proof.
  intros Hi Hb Hr Hz. pose proof Hi as [I1 I2 I3 I4 I5 I6]. unfold load_key, get_block, on_policy. wp_steps.
  rewrite (off_get _ _ _ k Hi), Hb. eapply wp_lift_option; [done|]. wp_steps. apply wp_assert; [done|].
  apply Z.leb_le in Hr. assert (loading loads k = bs_ref_cnt b) as Hl by (destruct (rf_count _ _ I5 k b Hb) as [[? _]|?]; lia).
  pose proof (loading_nonneg loads k) as Hnn.
  set (b' := mkBlockStatus (bs_ref_cnt b + 1) (bs_block_id b)).
  assert (set_ref_cnt (bs_ref_cnt b + 1) b = b') as Eb by (unfold set_ref_cnt; by rewrite c_int32_id by lia).
  assert (∀ p e, pol_rep p m e → e = keys_with 0 (<[k := b']> m) →
    pol_rep (policy_assign k (set_ref_cnt (bs_ref_cnt b + 1)) p) (<[k := b']> m) (keys_with 0 (<[k := b']> m))) as Hrep.
  { intros p e Hp <-. rewrite <-Eb, <-alter_known by done. by apply law_assign. }
  assert (keys_with 0 m ∖ {[k]} = keys_with 0 (<[k := b']> m)) as Ek.
  { rewrite keys_with_insert. simpl. rewrite decide_False by lia. set_solver. }
  assert (∀ p e, pol_rep p (<[k := b']> m) (keys_with 0 (<[k := b']> m)) →
    e = - (if decide (bs_ref_cnt b = 0) then 1 else 0) → off_inv (add_evictable e (set_policy p s)) (<[k := b']> m) (loads ++ [k])) as Hnew.
  { intros p e Hp He. apply (off_inv_ref s m loads); try done.
    - rewrite loading_snoc, decide_True by done. lia.
    - intros k' Hne. rewrite loading_snoc, decide_False by done. lia.
    - rewrite zlen_app. change (zlen [k]) with 1. lia.
    - rewrite He, (decide_False (P := bs_ref_cnt b + 1 = 0)) by lia. lia. }
  wp_steps. apply wp_when; intros E; bool_hyps.
  - assert (k ∈ keys_with 0 m) as Hk by (apply elem_of_keys_with; by exists b).
    wp_steps. eapply wp_mono; [by apply (law_unmark _ m (keys_with 0 m))|]. simpl. intros _ p' Hp'. wp_steps.
    apply wp_assert.
    { simpl. apply Z.leb_le. rewrite I2. assert (size (keys_with 0 m) ≠ 0)%nat; [|lia].
      intros E0. apply size_empty_inv in E0. set_solver. }
    unfold assign_ref_cnt. wp_steps. split; [done|]. split; [done|].
    refine (off_inv_ext _ _ _ _ (Hnew _ (-1) (Hrep p' _ Hp' Ek) _) _ _ _ _ _ _ _); try done. by rewrite decide_True.
  - unfold assign_ref_cnt. wp_steps. split; [done|]. split; [done|].
    assert (k ∉ keys_with 0 m) as Hk by (rewrite elem_of_keys_with; intros (b2 & Hb2 & E2); congruence).
    refine (off_inv_ext _ _ _ _ (Hnew _ 0 (Hrep (_policy s) _ I1 _) _) _ _ _ _ _ _ _); try done; simpl; try lia.
    + rewrite <-Ek. set_solver.
    + by rewrite decide_False.
Qed.

Lemma prepare_load_spec s m loads ks :
  off_inv s m loads → (∀ k, k ∈ ks → ∃ b, m !! k = Some b ∧ is_ready b = true) → zlen loads + zlen ks < 2 ^ 31 →
  wp (prepare_load ks) (λ ids s', _num_blocks s' = _num_blocks s
    ∧ (∃ m', off_inv s' m' (loads ++ ks) ∧ ∀ k, bs_block_id <$> m' !! k = bs_block_id <$> m !! k)
    ∧ Forall2 (λ k id, bs_block_id <$> m !! k = Some id) ks ids) s.
Proof.
  intros Hi Hks Hz. unfold prepare_load. wp_steps. eapply wp_mono.
  { apply (wp_fold_each _ (λ pre acc s', _num_blocks s' = _num_blocks s ∧ ∃ m', off_inv s' m' (loads ++ pre)
      ∧ (∀ k, bs_block_id <$> m' !! k = bs_block_id <$> m !! k)
      ∧ (∀ k, k ∈ ks → ∃ b, m' !! k = Some b ∧ is_ready b = true)
      ∧ Forall2 (λ k b, bs_block_id <$> m !! k = Some (bs_block_id b)) pre acc)).
    - split; [done|]. exists m. rewrite app_nil_r. by split_and!.
    - intros pre k post acc s' -> (En & m' & Hi' & Hid & Hrd & Hf). rewrite zlen_app, zlen_cons in Hz.
      destruct (Hrd k) as (b & Hb & Hr); [set_solver|]. pose proof (zlen_nonneg post) as Hp.
      eapply wp_mono; [apply (load_key_spec s' m' (loads ++ pre) k b acc Hi' Hb Hr); rewrite zlen_app; lia|].
      simpl. intros r s'' (-> & En' & Hi''). rewrite <-(assoc_L (++)) in Hi''. split; [congruence|].
      eexists. split; [exact Hi''|]. split_and!.
      + intros k'. rewrite <-Hid. destruct (decide (k = k')) as [<-|Hne]; [by rewrite lookup_insert_eq, Hb|].
        by rewrite lookup_insert_ne.
      + intros k' Hk'. destruct (decide (k = k')) as [<-|Hne].
        * rewrite lookup_insert_eq. eexists. split; [done|]. unfold is_ready in *. simpl. bool_hyps. apply Z.leb_le. lia.
        * rewrite lookup_insert_ne by done. by apply Hrd.
      + apply Forall2_app; [done|]. constructor; [|constructor]. by rewrite <-Hid, Hb. }
  simpl. intros acc s' (En & m' & Hi' & Hid & _ & Hf). wp_steps. split; [done|]. split; [by exists m'|].
  unfold _get_load_store_spec. by apply Forall2_fmap_r.
Qed.

Lemma unload_key_spec s m loads k loads' :
  off_inv s m loads → loads ≡ₚ k :: loads' →
  wp (unload_key k) (λ _ s', _num_blocks s' = _num_blocks s ∧ ∃ m', off_inv s' m' loads'
    ∧ ∀ k, bs_block_id <$> m' !! k = bs_block_id <$> m !! k) s.
Proof.
  intros Hi Hp. pose proof Hi as [I1 I2 I3 I4 I5 I6]. unfold unload_key, get_block, on_policy. wp_steps.
  assert (k ∈ loads) as Hk by (rewrite Hp; by left).
  destruct (rf_known _ _ I5 k Hk) as [b Hb]. rewrite (off_get _ _ _ k Hi), Hb. eapply wp_lift_option; [done|]. wp_steps.
  assert (0 < loading loads k) as Hpos by (by apply loading_pos).
  assert (loading loads k = bs_ref_cnt b) as Hl by (destruct (rf_count _ _ I5 k b Hb) as [[_ ?]|?]; lia).
  pose proof (loading_nonneg loads k) as Hnn. pose proof (rf_loads _ _ I5) as Hlen.
  apply wp_assert; [apply Z.ltb_lt; lia|].
  assert (∀ k', loading loads k' = loading loads' k' + (if decide (k = k') then 1 else 0)) as Hld.
  { intros k'. rewrite (loading_perm _ _ k' Hp). change (k :: loads') with ([k] ++ loads').
    rewrite (loading_perm ([k] ++ loads') (loads' ++ [k])) by solve_Permutation. apply loading_snoc. }
  rewrite c_int32_id by lia. set (n := bs_ref_cnt b - 1). set (b' := mkBlockStatus n (bs_block_id b)).
  assert (set_ref_cnt n b = b') as Eb by (unfold set_ref_cnt; by rewrite c_int32_id by (unfold n; lia)).
  unfold assign_ref_cnt. wp_steps.
  pose proof (law_assign _ _ _ k (set_ref_cnt n) I1) as Hrep. rewrite (alter_known m k b), Eb in Hrep by done.
  assert (∀ k0, bs_block_id <$> <[k := b']> m !! k0 = bs_block_id <$> m !! k0) as Hids.
  { intros k0. destruct (decide (k = k0)) as [<-|Hne]; [by rewrite lookup_insert_eq, Hb|by rewrite lookup_insert_ne]. }
  assert (∀ p e, pol_rep p (<[k := b']> m) (keys_with 0 (<[k := b']> m)) → e = (if decide (n = 0) then 1 else 0) →
    off_inv (add_evictable e (set_policy p s)) (<[k := b']> m) loads') as Hnew.
  { intros p e Hr He. apply (off_inv_ref s m loads); try done.
    - specialize (Hld k). rewrite decide_True in Hld by done. unfold n. lia.
    - intros k' Hne. specialize (Hld k'). rewrite decide_False in Hld by done. lia.
    - assert (zlen loads = zlen (k :: loads')) as E by (unfold zlen; by rewrite Hp). rewrite zlen_cons in E. lia.
    - rewrite He, (decide_False (P := bs_ref_cnt b = 0)) by lia. lia. }
  assert (k ∉ keys_with 0 m) as Hk0 by (rewrite elem_of_keys_with; intros (b2 & Hb2 & E2); assert (b2 = b) by congruence; subst; lia).
  apply wp_when; intros E; bool_hyps.
  - wp_steps. eapply wp_mono; [apply (law_mark _ (<[k := b']> m) (keys_with 0 m)); [done|rewrite lookup_insert_eq; by eexists]|].
    simpl. intros _ p' Hp'. split; [done|]. exists (<[k := b']> m). split; [|done].
    refine (off_inv_ext _ _ _ _ (Hnew p' 1 _ _) _ _ _ _ _ _ _); try done; [|by rewrite decide_True].
    replace (keys_with 0 (<[k := b']> m)) with ({[k]} ∪ keys_with 0 m); [done|].
    rewrite keys_with_insert. simpl. rewrite decide_True by done. set_solver.
  - split; [done|]. exists (<[k := b']> m). split; [|done].
    refine (off_inv_ext _ _ _ _ (Hnew _ 0 _ _) _ _ _ _ _ _ _); try done; simpl; [|by rewrite decide_False|lia].
    replace (keys_with 0 (<[k := b']> m)) with (keys_with 0 m); [exact Hrep|].
    rewrite keys_with_insert. simpl. rewrite decide_False by done. set_solver.
Qed.

Lemma complete_load_spec s m loads ks loads' :
  off_inv s m loads → loads ≡ₚ ks ++ loads' →
  wp (complete_load ks) (λ _ s', _num_blocks s' = _num_blocks s ∧ ∃ m', off_inv s' m' loads'
    ∧ ∀ k, bs_block_id <$> m' !! k = bs_block_id <$> m !! k) s.
Proof.
  revert s m loads. unfold complete_load. induction ks as [|k ks IH]; intros s m loads Hi Hp; simpl.
  - wp_steps. split; [done|]. exists m. split; [|done]. destruct Hi as [I1 I2 I3 I4 [R1 R2 R3] I6].
    split; try done. split; [intros k b Hb; rewrite <-(loading_perm loads loads' k Hp); by apply R1| |unfold zlen in *; by rewrite <-Hp].
    intros k Hk. apply R2. by rewrite Hp.
  - wp_steps. eapply wp_mono; [by apply (unload_key_spec s m loads k (ks ++ loads'))|]. simpl.
    intros _ s' (En & m' & Hi' & Hid). eapply wp_mono; [by apply (IH s' m' (ks ++ loads'))|]. simpl.
    intros _ s'' (En' & m'' & Hi'' & Hid'). split; [congruence|]. exists m''. split; [done|]. intros k'. by rewrite Hid', Hid.
Qed.

(** ** Slots *)

Lemma repeat_fresh n s acc :
  0 ≤ _num_allocated_blocks s → _num_allocated_blocks s + Z.of_nat n < 2 ^ 63 →
  wp (repeat_op n allocate_fresh acc) (λ r s',
    r = acc ++ (mkBlockStatus (-1) <$> py_range (_num_allocated_blocks s) (_num_allocated_blocks s + Z.of_nat n))
    ∧ s' = set_slots_state (_num_allocated_blocks s + Z.of_nat n) (_free_list s) s) s.
Proof.
  revert s acc. induction n as [|n IH]; intros s acc H0 Hn; cbn [repeat_op].
  - wp_steps. rewrite Z.add_0_r, py_range_nil, app_nil_r by lia. split; [done|]. by destruct s.
  - wp_steps. unfold allocate_fresh. wp_steps. eapply wp_mono; [apply IH; simpl; lia|]. simpl.
    intros r s' [-> ->]. rewrite <-(assoc_L (++)). unfold BlockStatus_init. rewrite c_int64_id by lia.
    replace (_num_allocated_blocks s + Z.of_nat (S n)) with (_num_allocated_blocks s + 1 + Z.of_nat n) by lia.
    by rewrite (py_range_cons (_num_allocated_blocks s)) by lia.
Qed.

Lemma repeat_reused n s acc :
  (n ≤ length (_free_list s))%nat → Forall (λ id, 0 ≤ id < 2 ^ 63) (_free_list s) →
  wp (repeat_op n allocate_reused acc) (λ r s', ∃ ids fl, r = acc ++ (mkBlockStatus (-1) <$> ids)
    ∧ length ids = n ∧ ids ++ fl ≡ₚ _free_list s ∧ s' = set_slots_state (_num_allocated_blocks s) fl s) s.
Proof.
  revert s acc. induction n as [|n IH]; intros s acc Hn Hf; cbn [repeat_op].
  - wp_steps. exists [], (_free_list s). rewrite app_nil_r. split_and!; [done..|]. by destruct s.
  - wp_steps. unfold allocate_reused. wp_steps. destruct (_free_list s) as [|id fl _] eqn:Ef using rev_ind; [simpl in Hn; lia|].
    rewrite last_snoc. eapply wp_lift_option; [done|]. wp_steps.
    assert (take (pred (length (fl ++ [id]))) (fl ++ [id]) = fl) as Et.
    { rewrite length_app. simpl. replace (pred (length fl + 1)) with (length fl) by lia. by rewrite take_app_length. }
    rewrite Et. rewrite length_app in Hn. simpl in Hn. apply Forall_app in Hf as [Hf [Hid _]%Forall_cons].
    eapply wp_mono; [apply IH; simpl; [lia|done]|]. simpl. intros r s' (ids & fl' & -> & Hl & Hp & ->).
    exists (id :: ids), fl'. unfold BlockStatus_init. rewrite c_int64_id by lia. rewrite <-(assoc_L (++)).
    split_and!; [done|simpl; lia|simpl; rewrite Hp; solve_Permutation|done].
Qed.

Lemma slots_free s m : slots_ok s m → Forall (λ id, 0 ≤ id < _num_allocated_blocks s) (slot_ids m ++ _free_list s).
Proof. intros [S1 S2]. rewrite S1. apply Forall_forall. intros id. by rewrite elem_of_py_range. Qed.

Lemma py_range_app a b c : a ≤ b ≤ c → py_range a c = py_range a b ++ py_range b c.
Proof.
  intros Hb. unfold py_range. replace (Z.to_nat (c - a)) with (Z.to_nat (b - a) + Z.to_nat (c - b))%nat by lia.
  rewrite seq_app, fmap_app. f_equal. simpl. rewrite <-(Nat.add_0_r (Z.to_nat (b - a))) at 1.
  rewrite <-fmap_add_seq, <-list_fmap_compose. apply list_fmap_ext. intros i x _. simpl. lia.
Qed.

Lemma allocate_blocks_spec s m ks :
  slots_ok s m → zlen ks ≤ _get_num_free_blocks s →
  wp (_allocate_blocks ks) (λ r s', ∃ ids fl a, r = mkBlockStatus (-1) <$> ids ∧ zlen ids = zlen ks
    ∧ s' = set_slots_state a fl s ∧ 0 ≤ a ≤ _num_blocks s
    ∧ (slot_ids m ++ ids) ++ fl ≡ₚ py_range 0 a) s.
Proof.
  intros Hs Hn. pose proof (slots_free s m Hs) as Hf. destruct Hs as [S1 [S2 S3]]. apply Forall_app in Hf as [_ Hf].
  unfold _allocate_blocks, _get_num_free_blocks in *. pose proof (zlen_nonneg ks) as Hk. wp_steps.
  remember (Z.min (zlen ks) (_num_blocks s - _num_allocated_blocks s)) as nf eqn:Hnf.
  pose proof (zlen_nonneg (_free_list s)) as Hfl.
  apply wp_assert; [apply Z.leb_le; lia|]. wp_steps. eapply wp_mono; [apply repeat_fresh; lia|]. simpl.
  intros r1 s1 [-> ->]. eapply wp_mono.
  { apply repeat_reused; simpl; [unfold zlen in *; lia|]. eapply Forall_impl; [exact Hf|]. simpl. lia. }
  simpl. intros r2 s2 (ids & fl & -> & Hl & Hp & ->). rewrite Z2Nat.id by lia.
  exists (py_range (_num_allocated_blocks s) (_num_allocated_blocks s + nf) ++ ids), fl, (_num_allocated_blocks s + nf).
  rewrite fmap_app. split_and!; try done; try lia.
  - unfold zlen in *. rewrite length_app, length_py_range, Hl. lia.
  - rewrite (py_range_app 0 (_num_allocated_blocks s)) by lia. rewrite <-S1, <-Hp. solve_Permutation.
Qed.

(** ** Stores *)

Definition inserts m (l : list (OffloadKey * BlockStatus)) : contents := foldl (λ m e, <[e.1 := e.2]> m) m l.

Lemma inserts_snoc m l e : inserts m (l ++ [e]) = <[e.1 := e.2]> (inserts m l).
Proof. unfold inserts. by rewrite foldl_app. Qed.

Lemma inserts_fresh m l k : k ∉ l.*1 → inserts m l !! k = m !! k.
Proof.
  induction l as [|e l IH] using rev_ind; [done|]. rewrite fmap_app, elem_of_app, inserts_snoc. simpl.
  rewrite list_elem_of_singleton. intros Hk. rewrite lookup_insert_ne by (intros E; by apply Hk; right). apply IH. tauto.
Qed.

Lemma inserts_elem m l k b : NoDup l.*1 → (k, b) ∈ l → inserts m l !! k = Some b.
Proof.
  induction l as [|e l IH] using rev_ind; [by intros _ ?%elem_of_nil|]. rewrite fmap_app, inserts_snoc.
  intros (Hn & Hd & _)%NoDup_app [Hin|<-%list_elem_of_singleton]%elem_of_app; [|apply lookup_insert_eq].
  rewrite lookup_insert_ne; [by apply IH|]. intros E. apply (list_elem_of_fmap_2 fst) in Hin. simpl in Hin.
  apply (Hd k Hin), list_elem_of_fmap. exists e. split; [done|by left].
Qed.

Lemma inserts_books m l :
  NoDup l.*1 → (∀ k, k ∈ l.*1 → m !! k = None) → Forall (λ b, bs_ref_cnt b = -1) l.*2 →
  slot_ids (inserts m l) ≡ₚ slot_ids m ++ (bs_block_id <$> l.*2)
  ∧ keys_with 0 (inserts m l) = keys_with 0 m
  ∧ Z.of_nat (size (keys_with (-1) (inserts m l))) = Z.of_nat (size (keys_with (-1) m)) + zlen l.
Proof.
  induction l as [|e l IH] using rev_ind; intros Hn Hm Hf.
  { simpl. rewrite app_nil_r. split_and!; [done..|unfold zlen; simpl; lia]. }
  rewrite !fmap_app in *. apply NoDup_app in Hn as (Hn & Hd & _). apply Forall_app in Hf as [Hf He].
  apply Forall_cons in He as [He _]. destruct IH as (I1 & I2 & I3); [done|intros k Hk; apply Hm; set_solver|done|].
  assert (e.1 ∉ l.*1) as Hl by (intros Hk; apply (Hd _ Hk); simpl; by left).
  assert (inserts m l !! e.1 = None) as Hnone by (rewrite inserts_fresh by done; apply Hm; simpl; set_solver).
  assert (∀ z, e.1 ∉ keys_with z (inserts m l)) as Hk by (intros z; rewrite elem_of_keys_with, Hnone; naive_solver).
  rewrite inserts_snoc. split_and!.
  - rewrite slot_ids_insert by done. rewrite I1. simpl. solve_Permutation.
  - rewrite keys_with_insert, He. simpl. rewrite I2 in *. specialize (Hk 0). rewrite I2 in Hk. set_solver.
  - rewrite size_keys_insert, He, I3, zlen_app. rewrite decide_True, decide_False by done. change (zlen [e]) with 1. lia.
Qed.

Lemma free_blocks_loop s l :
  wp (for_each l (λ e : OffloadKey * BlockStatus, _free_block e.2)) (λ _ s',
    s' = set_slots_state (_num_allocated_blocks s) (_free_list s ++ (bs_block_id <$> l.*2)) s) s.
Proof.
  revert s. induction l as [|e l IH]; intros s; simpl; wp_steps.
  - rewrite app_nil_r. by destruct s.
  - unfold _free_block. wp_steps. eapply wp_mono; [apply IH|]. simpl. intros _ s' ->. by rewrite <-(assoc_L (++)).
Qed.

(** Why [n] slots cannot be freed. *)
Definition refused s m (n : Z) ks : Prop :=
  0 < n ∧ (Z.of_nat (size (keys_with 0 m)) < n ∨ pol_refuses (_policy s) m n (list_to_set ks)).

(** Evicting idle blocks frees their slots. *)
Lemma make_room_spec s m loads n ks :
  off_inv s m loads →
  wp (make_room n ks) (λ r s', match r with
    | None => s' = s ∧ refused s m n ks
    | Some ev => off_inv s' (without m ev) loads ∧ (NoDup ev ∧ (0 < n → pol_picks (_policy s) n (list_to_set ks) ev))
        ∧ zlen ev = Z.max 0 n
        ∧ _get_num_free_blocks s' = _get_num_free_blocks s + zlen ev
        ∧ (∀ k, k ∈ ev → k ∈ keys_with 0 m ∧ k ∉ ks)
        ∧ _num_blocks s' = _num_blocks s ∧ counts s' = counts s ∧ store_threshold s' = store_threshold s
    end) s.
Proof.
  intros Hi. unfold make_room. wp_steps. destruct (Z.ltb_spec 0 n) as [Hn|Hn].
  2:{ wp_steps. rewrite without_nil. change (zlen (@nil OffloadKey)) with 0. split_and!; try done; [apply NoDup_nil_2|lia..|].
      intros k Hk. by apply elem_of_nil in Hk. }
  destruct (Z.ltb_spec (_num_evictable_cache_blocks s) n) as [Hlt|Hge].
  { wp_steps. split; [done|]. split; [done|]. left. by rewrite <-(oi_idle _ _ _ Hi). }
  wp_steps. unfold on_policy. wp_steps.
  pose proof Hi as [I1 I2 I3 [I4 I5] [R1 R2 R3] I6].
  eapply wp_mono; [by apply (law_evict (_policy s) m n (list_to_set ks))|]. simpl.
  intros [l|] p' Hl; [|destruct Hl as [-> Hl]; wp_steps; split; [by destruct s|split; [done|by right]]]. destruct Hl as (Hpick & Hlen & Hnd & Hin & Hrep).
  destruct (evicted_slots m l Hnd) as (E1 & E2 & E3); [naive_solver|].
  wp_steps. apply wp_assert; [simpl; apply Z.leb_le; lia|]. wp_steps. eapply wp_mono; [apply free_blocks_loop|].
  simpl. intros _ s' ->. wp_steps. assert (zlen l.*1 = zlen l) as Ez by (unfold zlen; by rewrite length_fmap).
  assert (∀ k, k ∈ l.*1 → k ∈ keys_with 0 m ∧ k ∉ ks) as Hev.
  { intros k ([k' b] & -> & Hkb)%list_elem_of_fmap. destruct (Hin _ _ Hkb) as (? & ? & Hp). simpl. split.
    - apply elem_of_keys_with. by exists b.
    - by rewrite <-(elem_of_list_to_set (C := gset OffloadKey)). }
  split_and!; try done; try lia.
  - split; simpl; [done|rewrite E2; lia|by rewrite E3| | |done].
    + split; [|done]. simpl. rewrite <-I4, E1. solve_Permutation.
    + split; [| |done].
      * intros k b. rewrite lookup_without. case_decide; [done|]. apply R1.
      * intros k Hk. rewrite lookup_without. case_decide as Hd; [|by apply R2].
        apply Hev in Hd as [(b & Hb & H0)%elem_of_keys_with _]. apply loading_pos in Hk.
        destruct (R1 k b Hb) as [[? _]|?]; lia.
  - unfold _get_num_free_blocks. simpl. rewrite zlen_app. unfold zlen. rewrite !length_fmap. lia.
Qed.

(** The keys that were looked up often enough. *)
Definition counted s ks : list OffloadKey :=
  match counts s with
  | None => ks
  | Some c => filter (λ k, store_threshold s ≤ default 0 (od_get c k)) ks
  end.

Lemma filter_counted_spec s m loads ks :
  off_inv s m loads →
  wp (filter_counted ks) (λ r s', r = counted s ks ∧ off_inv s' m loads ∧ _num_blocks s' = _num_blocks s
    ∧ _get_num_free_blocks s' = _get_num_free_blocks s ∧ _policy s' = _policy s) s.
Proof.
  intros Hi. unfold filter_counted, counted. wp_steps. destruct (counts s) as [c|] eqn:Ec; wp_steps; [|done].
  split_and!; try done. apply (off_inv_ext s); try done. apply Hi.
Qed.

Lemma insert_all_spec s m l loads :
  pol_rep (_policy s) m (keys_with 0 m) → NoDup l.*1 → (∀ k, k ∈ l.*1 → m !! k = None) →
  Forall (λ b, bs_ref_cnt b = -1) l.*2 →
  wp (for_each l (λ e, on_policy (policy_insert e.1 e.2))) (λ _ s', ∃ p, s' = set_policy p s
    ∧ pol_rep p (inserts m l) (keys_with 0 (inserts m l))) s.
Proof.
  intros Hr Hn Hm Hf. apply (wp_for_each _ (λ pre s', ∃ p, s' = set_policy p s
    ∧ pol_rep p (inserts m pre) (keys_with 0 (inserts m pre)))); [by exists (_policy s); destruct s|].
  intros pre e post s' -> (p & -> & Hp). unfold on_policy. wp_steps. simpl.
  rewrite !fmap_app in *. simpl in *. pose proof Hn as (Hn1 & Hd & _)%NoDup_app. apply Forall_app in Hf as [Hf1 [He Hf2]%Forall_cons].
  eapply wp_mono; [apply (law_insert p _ _ e.1 e.2 Hp)|].
  - rewrite inserts_fresh; [apply Hm; set_solver|]. intros Hk. apply (Hd _ Hk). by left.
  - rewrite He. lia.
  - simpl. intros _ p' Hp'. exists p'. split; [done|]. rewrite inserts_snoc.
    destruct (inserts_books m pre) as (_ & E0 & _); [done|intros k Hk; apply Hm; set_solver|done|].
    destruct (inserts_books m (pre ++ [e])) as (_ & E1 & _).
    { rewrite fmap_app. rewrite cons_middle, (assoc_L (++)) in Hn. by apply NoDup_app in Hn as [? _]. }
    { rewrite fmap_app. intros k Hk. apply Hm. set_solver. }
    { rewrite fmap_app. apply Forall_app. split; [done|]. by apply Forall_singleton. }
    rewrite inserts_snoc in E1. rewrite E1, <-E0. done.
Qed.

(** What a store leaves in the cache. *)
Definition stored m (out : PrepareStoreOutput) : contents :=
  inserts (without m (evicted_keys out)) (zip (keys_to_store out) (mkBlockStatus (-1) <$> store_spec out)).

Record store_ok m ks (out : PrepareStoreOutput) : Prop := {
  st_keys : keys_to_store out = filter (λ k, m !! k = None) ks;
  st_distinct : NoDup (evicted_keys out);
  st_ids : length (store_spec out) = length (keys_to_store out);
  st_evicted k : k ∈ evicted_keys out → k ∈ keys_with 0 m ∧ k ∉ ks;
}.

Lemma zip_keys {A B} (l : list A) (l' : list B) : length l = length l' → (zip l l').*1 = l ∧ (zip l l').*2 = l'.
Proof. intros E. split; [apply fst_zip|apply snd_zip]; lia. Qed.

Lemma emit_inv s m loads ks b : off_inv s m loads → wp (emit ks b) (λ _ s', off_inv s' m loads ∧ _num_blocks s' = _num_blocks s
  ∧ _policy s' = _policy s ∧ _free_list s' = _free_list s ∧ _num_allocated_blocks s' = _num_allocated_blocks s) s.
Proof.
  intros Hi. unfold emit. wp_steps. destruct (off_events s); split_and!; try done. by apply (off_inv_ext s); try done; apply Hi.
Qed.

(** Blocks of distinct new keys join the cache in slots of their own. *)
Lemma stored_inv s m loads l ids a fl p :
  off_inv s m loads → NoDup l → (∀ k, k ∈ l → m !! k = None) → length ids = length l →
  0 ≤ a ≤ _num_blocks s → (slot_ids m ++ ids) ++ fl ≡ₚ py_range 0 a →
  let m' := inserts m (zip l (mkBlockStatus (-1) <$> ids)) in
  pol_rep p m' (keys_with 0 m') →
  off_inv (add_pending (zlen l) (set_policy p (set_slots_state a fl s))) m' loads.
Proof.
  intros [I1 I2 I3 [I4 I5] [R1 R2 R3] I6] Hn Hm Hl Ha Hp m' Hrep.
  destruct (zip_keys l (mkBlockStatus (-1) <$> ids)) as [Ek Eb]; [by rewrite length_fmap|].
  assert (Forall (λ b, bs_ref_cnt b = -1) (mkBlockStatus (-1) <$> ids)) as Hf by (apply Forall_fmap, Forall_true; done).
  destruct (inserts_books m (zip l (mkBlockStatus (-1) <$> ids))) as (B1 & B2 & B3).
  { by rewrite Ek. } { by rewrite Ek. } { by rewrite Eb. }
  fold m' in B1, B2, B3. split; simpl; [done|by rewrite B2| | | |done].
  - rewrite B3, I3. f_equal. unfold zlen. rewrite <-(length_fmap fst), Ek. done.
  - split; [|simpl; lia]. simpl. rewrite B1, Eb, <-list_fmap_compose. rewrite <-Hp. simpl.
    assert (bs_block_id ∘ mkBlockStatus (-1) <$> ids = ids) as ->; [|done]. apply list_fmap_id.
  - split; [| |done].
    + intros k b Hb. destruct (decide (k ∈ l)) as [Hk|Hk].
      * left. assert (k ∈ (zip l (mkBlockStatus (-1) <$> ids)).*1) as Hz by (by rewrite Ek).
        apply list_elem_of_fmap in Hz as ([k' b'] & -> & Hz). simpl in *.
        unfold m' in Hb. rewrite (inserts_elem _ _ k' b') in Hb; [|by rewrite Ek|done]. injection Hb as <-.
        apply (list_elem_of_fmap_2 snd) in Hz. rewrite Eb in Hz. rewrite Forall_forall in Hf. split; [by apply Hf|].
        pose proof (loading_nonneg loads k'). destruct (decide (loading loads k' = 0)) as [|Hne]; [done|].
        assert (k' ∈ loads) as Hk' by (apply loading_pos; lia). destruct (R2 k' Hk') as [b2 Hb2]. by rewrite Hm in Hb2.
      * unfold m' in Hb. rewrite inserts_fresh in Hb by (by rewrite Ek). by apply R1.
    + intros k Hk. destruct (R2 k Hk) as [b Hb]. unfold m'. rewrite inserts_fresh; [by eexists|].
      rewrite Ek. intros Hin. by rewrite Hm in Hb.
Qed.

Lemma prepare_store_spec s m loads ks :
  off_inv s m loads → NoDup ks →
  wp (prepare_store ks) (λ r s', _num_blocks s' = _num_blocks s ∧ match r with
    | None => off_inv s' m loads
        ∧ refused s m (zlen (filter (λ k, m !! k = None) (counted s ks)) - _get_num_free_blocks s) (counted s ks)
    | Some out => store_ok m (counted s ks) out ∧ off_inv s' (stored m out) loads
        ∧ zlen (evicted_keys out) = Z.max 0 (zlen (keys_to_store out) - _get_num_free_blocks s)
        ∧ (0 < zlen (evicted_keys out) →
           pol_picks (_policy s) (zlen (evicted_keys out)) (list_to_set (counted s ks)) (evicted_keys out))
    end) s.
Proof.
  intros Hi Hn. unfold prepare_store. wp_steps. eapply wp_mono; [by apply (filter_counted_spec s m loads)|]. simpl.
  intros ks' s1 (-> & Hi1 & En1 & Ep1 & Epol). wp_steps. set (cs := counted s ks).
  assert (NoDup cs) as Hcs by (unfold cs, counted; destruct (counts s); [by apply NoDup_filter|done]).
  assert (filter (λ k, policy_get (_policy s1) k = None) cs = filter (λ k, m !! k = None) cs) as ->.
  { apply list_filter_iff. intros k. by rewrite (off_get _ _ _ k Hi1). }
  set (l := filter (λ k, m !! k = None) cs). case_bool_decide as El.
  { wp_steps. split; [done|]. split_and!; [split; [symmetry; exact El|apply NoDup_nil_2|done|by intros k ?%elem_of_nil]| | |].
    - unfold stored. simpl. by rewrite without_nil.
    - pose proof (oi_slots _ _ _ Hi) as [_ Hb]. pose proof (zlen_nonneg (_free_list s)).
      unfold _get_num_free_blocks. simpl. unfold zlen at 1 2. simpl. lia.
    - simpl. unfold zlen. simpl. lia. }
  wp_steps. set (s2 := set_batch _ _ s1).
  assert (off_inv s2 m loads) as Hi2 by (apply (off_inv_ext s1); try done; apply Hi1).
  change (_get_num_free_blocks s1) with (_get_num_free_blocks s2).
  eapply wp_mono; [by apply (make_room_spec s2 m loads)|]. simpl. intros [ev|] s3 Hr.
  2:{ destruct Hr as [-> Hr]. wp_steps. split; [done|]. split; [done|]. unfold refused in *. simpl in Hr.
      rewrite Epol in Hr. rewrite <-Ep1. exact Hr. }
  destruct Hr as (Hi3 & [Hnev Hpick] & Hev1 & Hfree & Hev & En3 & _).
  assert (NoDup l) as Hnl by (by apply NoDup_filter).
  assert (∀ k, k ∈ l → without m ev !! k = None) as Hln.
  { intros k [Hk _]%list_elem_of_filter. rewrite lookup_without. by case_decide. }
  wp_steps. eapply (wp_mono _ (λ _ s4, off_inv s4 (without m ev) loads ∧ _num_blocks s4 = _num_blocks s3
    ∧ _get_num_free_blocks s4 = _get_num_free_blocks s3)).
  { apply wp_when; intros _; [|done]. eapply wp_mono; [by apply emit_inv|]. simpl.
    intros _ s4 (Hi4 & En4 & _ & Ef & Ea). split_and!; try done. unfold _get_num_free_blocks. by rewrite Ef, Ea, En4. }
  simpl. intros _ s4 (Hi4 & En4 & Ef4). wp_steps.
  eapply wp_mono; [apply (allocate_blocks_spec s4 (without m ev)); [apply Hi4|rewrite Ef4, Hfree; lia]|]. simpl.
  intros bs s5 (ids & fl & a & -> & Hlen & -> & Ha & Hp). wp_steps.
  assert (length ids = length l) as Hl by (unfold zlen in Hlen; lia).
  apply wp_assert; [apply bool_decide_eq_true; by rewrite length_fmap|]. wp_steps.
  destruct (zip_keys l (mkBlockStatus (-1) <$> ids)) as [Ek Eb]; [by rewrite length_fmap|].
  eapply wp_mono.
  { apply (insert_all_spec _ (without m ev) _ loads); [apply Hi4|by rewrite Ek|by rewrite Ek|rewrite Eb; apply Forall_fmap, Forall_true; done]. }
  simpl. intros _ s6 (p & -> & Hrep). wp_steps. split; [simpl; congruence|].
  assert (_get_load_store_spec (mkBlockStatus (-1) <$> ids) = ids) as Eids.
  { unfold _get_load_store_spec. rewrite <-list_fmap_compose. apply list_fmap_id. }
  split_and!; [split; simpl; rewrite ?Eids; done| |simpl; rewrite Hev1, <-Ep1; done|simpl].
  2:{ intros Hpos. rewrite Hev1 in Hpos |- *. rewrite Z.max_r in Hpos |- * by lia. rewrite <-Epol. by apply Hpick. }
  unfold stored. simpl. rewrite Eids. by apply stored_inv.
Qed.

(** A completed store makes the block idle, a failed one removes it. *)
Lemma pending_zero m loads k b :
  refs_ok m loads → m !! k = Some b → is_ready b = false → bs_ref_cnt b = -1 ∧ loading loads k = 0.
Proof.
  intros R Hb Hr. apply Z.leb_gt in Hr. pose proof (loading_nonneg loads k).
  destruct (rf_count _ _ R k b Hb) as [?|?]; [done|lia].
Qed.

(** The blocks after a store of [k] has ended well, or badly. *)
Definition done_key m k : contents :=
  match m !! k with
  | Some b => if is_ready b then m else <[k := mkBlockStatus 0 (bs_block_id b)]> m
  | None => m
  end.
Definition failed_key m k : contents :=
  match m !! k with
  | Some b => if is_ready b then m else delete k m
  | None => m
  end.

Lemma store_done_spec s m loads acc k :
  off_inv s m loads →
  wp (store_done acc k) (λ _ s', _num_blocks s' = _num_blocks s ∧ off_inv s' (done_key m k) loads) s.
Proof.
  intros Hi. pose proof Hi as [I1 I2 I3 [I4 I5] I6 I7]. unfold store_done, get_block, done_key. wp_steps.
  rewrite (off_get _ _ _ k Hi). destruct (m !! k) as [b|] eqn:Hb; [|by wp_steps].
  destruct (is_ready b) eqn:Er; [by wp_steps|].
  destruct (pending_zero m loads k b I6 Hb Er) as [Hb1 Hl0].
  set (b' := mkBlockStatus 0 (bs_block_id b)).
  assert (set_ref_cnt 0 b = b') as Eb by (unfold set_ref_cnt; by rewrite c_int32_id by lia).
  unfold assign_ref_cnt, on_policy. wp_steps. simpl.
  pose proof (law_assign _ _ _ k (set_ref_cnt 0) I1) as Hrep. rewrite (alter_known m k b), Eb in Hrep by done.
  eapply wp_mono; [apply (law_mark _ (<[k := b']> m) (keys_with 0 m)); [done|rewrite lookup_insert_eq; by eexists]|].
  simpl. intros _ p' Hp'. wp_steps. split; [done|].
  assert (∀ z, k ∈ keys_with z m ↔ z = -1) as Hk.
  { intros z. rewrite elem_of_keys_with. split; [intros (b2 & Hb2 & <-); congruence|intros ->; by exists b]. }
  split; simpl; [| | |split; [|done]| |done].
  - replace (keys_with 0 (<[k := b']> m)) with ({[k]} ∪ keys_with 0 m); [done|].
    rewrite keys_with_insert, decide_True by done. specialize (Hk 0). set_solver.
  - rewrite size_keys_insert, I2, decide_True, decide_False by (rewrite ?Hk; done). lia.
  - rewrite size_keys_insert, I3, decide_False, decide_True by (rewrite ?Hk; done). lia.
  - simpl. by rewrite (slot_ids_update m k b).
  - destruct I6 as [R1 R2 R3]. split; [| |done].
    + intros k' b2. destruct (decide (k = k')) as [<-|Hne].
      * rewrite lookup_insert_eq. intros [= <-]. right. simpl. lia.
      * rewrite lookup_insert_ne by done. apply R1.
    + intros k' Hk'. destruct (decide (k = k')) as [<-|Hne]; [rewrite lookup_insert_eq; by eexists|].
      rewrite lookup_insert_ne by done. by apply R2.
Qed.

Lemma store_failed_spec s m loads k :
  off_inv s m loads → wp (store_failed k) (λ _ s', _num_blocks s' = _num_blocks s ∧ off_inv s' (failed_key m k) loads) s.
Proof.
  intros Hi. pose proof Hi as [I1 I2 I3 [I4 I5] I6 I7]. unfold store_failed, get_block, failed_key. wp_steps.
  rewrite (off_get _ _ _ k Hi). destruct (m !! k) as [b|] eqn:Hb; [|by wp_steps].
  destruct (is_ready b) eqn:Er; [by wp_steps|].
  destruct (pending_zero m loads k b I6 Hb Er) as [Hb1 Hl0].
  assert (∀ z, k ∈ keys_with z m ↔ z = -1) as Hk.
  { intros z. rewrite elem_of_keys_with. split; [intros (b2 & Hb2 & <-); congruence|intros ->; by exists b]. }
  unfold on_policy, _free_block. wp_steps. simpl.
  eapply wp_mono; [apply (law_remove _ m (keys_with 0 m)); [done|by eexists]|]. simpl. intros _ p' Hp'. wp_steps.
  split; [done|]. rewrite <-keys_with_delete in Hp'.
  split; simpl; [done| | |split; [|done]| |done].
  - rewrite size_keys_delete, I2, decide_False by (rewrite Hk; done). lia.
  - rewrite size_keys_delete, I3, decide_True by (by rewrite Hk). lia.
  - simpl. rewrite <-I4, (slot_ids_delete m k b Hb). solve_Permutation.
  - destruct I6 as [R1 R2 R3]. split; [| |done].
    + intros k' b2 [_ Hb2]%lookup_delete_Some. by apply R1.
    + intros k' Hk'. rewrite lookup_delete_ne; [by apply R2|]. intros <-. apply loading_pos in Hk'. lia.
Qed.

Definition completed (ok : bool) m ks : contents := foldl (if ok then done_key else failed_key) m ks.

Lemma lookup_done ks m k :
  completed true m ks !! k = (λ b, if decide (k ∈ ks) then if is_ready b then b else mkBlockStatus 0 (bs_block_id b) else b) <$> m !! k.
Proof.
  unfold completed. revert m. induction ks as [|k0 ks IH]; intros m; simpl.
  { by destruct (m !! k). }
  rewrite IH. clear IH. assert (done_key m k0 !! k
    = (λ b, if decide (k = k0) then if is_ready b then b else mkBlockStatus 0 (bs_block_id b) else b) <$> m !! k) as ->.
  { unfold done_key. destruct (decide (k = k0)) as [->|Hne].
    - destruct (m !! k0) as [b|] eqn:E; simpl; [|by rewrite E]. destruct (is_ready b); [by rewrite E|]. by rewrite lookup_insert_eq.
    - destruct (m !! k0) as [b|]; [destruct (is_ready b)|]; rewrite ?lookup_insert_ne by done; by destruct (m !! k). }
  destruct (m !! k) as [b|]; simpl; [|done]. f_equal. repeat case_decide; simpl; try done; try (exfalso; set_solver);
    by destruct (is_ready b) eqn:E; rewrite ?E.
Qed.

Lemma lookup_failed ks m k :
  completed false m ks !! k = b ← m !! k; if decide (k ∈ ks ∧ is_ready b = false) then None else Some b.
Proof.
  unfold completed. revert m. induction ks as [|k0 ks IH]; intros m; simpl.
  { by destruct (m !! k). }
  rewrite IH. clear IH. assert (failed_key m k0 !! k
    = b ← m !! k; if decide (k = k0 ∧ is_ready b = false) then None else Some b) as ->.
  { unfold failed_key. destruct (decide (k = k0)) as [->|Hne].
    - destruct (m !! k0) as [b|] eqn:E; simpl; [|by rewrite E]. destruct (is_ready b) eqn:Er.
      + rewrite E, decide_False by (by intros [_ ?]). done.
      + by rewrite lookup_delete_eq, decide_True.
    - assert (∀ o : option BlockStatus, o = b ← o; if decide (k = k0 ∧ is_ready b = false) then None else Some b) as <-.
      { intros [b|]; simpl; [|done]. by rewrite decide_False by (by intros [? _]). }
      destruct (m !! k0) as [b|]; [destruct (is_ready b)|]; by rewrite ?lookup_delete_ne. }
  destruct (m !! k) as [b|]; simpl; [|done]. repeat case_decide; simpl; try done; repeat case_decide; try done; exfalso; set_solver.
Qed.

Lemma complete_store_spec s m loads ks ok :
  off_inv s m loads →
  wp (complete_store ks ok) (λ _ s', _num_blocks s' = _num_blocks s ∧ off_inv s' (completed ok m ks) loads) s.
Proof.
  intros Hi. unfold complete_store, completed. wp_steps.
  set (I := λ pre s', _num_blocks s' = _num_blocks s ∧ off_inv s' (foldl (if ok then done_key else failed_key) m pre) loads).
  eapply (wp_mono _ (λ _ s', I ks s')); [assert (I [] s) by done; destruct ok; [|wp_steps; eapply wp_mono]|].
  - apply (wp_fold_each _ (λ pre _ s', I pre s')); [done|]. intros pre k post acc s' _ [En Hi'].
    eapply wp_mono; [by apply store_done_spec|]. simpl. intros _ s'' [En' Hi'']. split; [congruence|]. by rewrite foldl_snoc.
  - apply (wp_for_each _ I); [done|]. intros pre k post s' _ [En Hi'].
    eapply wp_mono; [by apply store_failed_spec|]. simpl. intros _ s'' [En' Hi'']. split; [congruence|]. by rewrite foldl_snoc.
  - simpl. intros _ s' Hs. by wp_steps.
  - simpl. intros l s' [En Hi']. apply wp_when; intros _; [|done].
    eapply wp_mono; [by apply emit_inv|]. simpl. intros _ s'' (Hi'' & En' & _). split; [congruence|done].
Qed.

(** ** The other calls *)

Lemma off_lookup_spec s m loads k :
  off_inv s m loads →
  wp (off_lookup k) (λ r s', off_inv s' m loads ∧ _num_blocks s' = _num_blocks s
    ∧ r = match m !! k with None => MISS | Some b => if is_ready b then HIT else HIT_PENDING end) s.
Proof.
  intros Hi. pose proof (oi_counts _ _ _ Hi) as [Hmax Hc]. unfold off_lookup, get_block. wp_steps.
  eapply (wp_mono _ (λ _ s', off_inv s' m loads ∧ _num_blocks s' = _num_blocks s)).
  - unfold count_reference. wp_steps. destruct (counts s) as [c|]; [|by wp_steps]. destruct Hc as [Hn Hlen].
    assert (∀ c', NoDup c'.*1 → zlen c' ≤ max_tracker_size s → off_inv (set_counts (Some c') s) m loads) as Hnew.
    { intros c' H1 H2. by apply (off_inv_ext s). }
    destruct (od_get c k) as [n|] eqn:Eg.
    + wp_steps. destruct (od_move_to_end c k) as [?|c'] eqn:Em; [unfold od_move_to_end in Em; by rewrite Eg in Em|].
      eapply wp_lift_result; [done|]. wp_steps. split; [|done]. destruct (od_move_perm _ _ _ Hn Em) as [Hp _].
      assert (k ∈ c'.*1) as Hk by (rewrite Hp; apply od_get_elem in Eg; by apply (list_elem_of_fmap_2 fst) in Eg).
      assert ((od_set c' k (n + 1)).*1 = c'.*1) as E by (by apply od_set_keys). apply Hnew; [by rewrite E, Hp|].
      unfold zlen in *. rewrite <-(length_fmap fst), E, length_fmap. by rewrite Hp.
    + apply od_get_None in Eg. wp_steps. destruct (Z.leb_spec (max_tracker_size s) (zlen c)) as [Hle|Hlt].
      * destruct c as [|e c]; [change (zlen (@nil (OffloadKey * Z))) with 0 in *; lia|]. simpl. eapply wp_lift_result; [done|].
        wp_steps. split; [|done]. rewrite fmap_cons in *. apply NoDup_cons in Hn as [_ Hn]. apply not_elem_of_cons in Eg as [_ Eg].
        rewrite od_set_fresh by done. rewrite zlen_cons in *. apply Hnew.
        -- rewrite fmap_app. apply NoDup_app. split_and!; [done| |apply NoDup_singleton]. intros x Hx ->%list_elem_of_singleton. done.
        -- rewrite zlen_app. change (zlen [(k, 1)]) with 1. lia.
      * wp_steps. split; [|done]. rewrite od_set_fresh by done. apply Hnew.
        -- rewrite fmap_app. apply NoDup_app. split_and!; [done| |apply NoDup_singleton]. intros x Hx ->%list_elem_of_singleton. done.
        -- rewrite zlen_app. change (zlen [(k, 1)]) with 1. lia.
  - simpl. intros _ s' [Hi' En]. wp_steps. split_and!; try done. by rewrite (off_get _ _ _ k Hi').
Qed.

Lemma off_touch_spec s m loads ks : off_inv s m loads → wp (off_touch ks) (λ _ s', off_inv s' m loads ∧ _num_blocks s' = _num_blocks s) s.
Proof.
  intros [I1 I2 I3 [I4 I5] I6 I7]. unfold off_touch, on_policy. wp_steps.
  eapply wp_mono; [by apply (law_touch _ m (keys_with 0 m))|]. simpl. intros _ p' Hp'. split; [|done]. by split; try done; split.
Qed.

Lemma off_reset_spec s m loads : off_inv s m loads → wp reset_cache (λ _ s', off_inv s' ∅ [] ∧ _num_blocks s' = _num_blocks s) s.
Proof.
  intros [I1 I2 I3 [I4 I5] I6 I7]. unfold reset_cache, on_policy. wp_steps.
  eapply wp_mono; [by apply (law_clear _ m (keys_with 0 m))|]. simpl. intros _ p' Hp'. wp_steps. split; [|done].
  assert (∀ z, keys_with z ∅ = ∅) as E.
  { intros z. apply set_eq. intros k. rewrite elem_of_keys_with. setoid_rewrite lookup_empty. set_solver. }
  split; simpl; rewrite ?E; [done|rewrite size_empty; lia..| | |done].
  - split; [|simpl; lia]. done.
  - split; [by intros k b; rewrite lookup_empty|by intros k ?%elem_of_nil|done].
Qed.
End manager.
