(* ===== verification/OffloadTheorems.v ===== *)
(** The offloading manager under any sequence of calls a client may make, for every policy with
    [PolicyLaws]; what a store and a load return; and the two policies side by side. *)

From S2P Require Import Prelude OrderedDict PyFloat Request BlockHash Offload OffloadFacts OffloadArc OffloadManager.
From S2P Require Import OffloadSteps.

Set Warnings "-level-tolerance,-clear-no-such-hyp".

Inductive off_call :=
  | OLookup (k : OffloadKey)
  | OPrepareLoad (ks : list OffloadKey)
  | OCompleteLoad (ks : list OffloadKey)
  | OTouch (ks : list OffloadKey)
  | OPrepareStore (ks : list OffloadKey)
  | OCompleteStore (ks : list OffloadKey) (success : bool)
  | OReset
  | OTakeEvents
  | OStats.

Section machine.
Context {P : Type} `{CP : CachePolicy P}.
Implicit Types (s : CPUOffloadingManager P) (k : OffloadKey) (ks loads : list OffloadKey).

Definition off_perform (c : off_call) : M (CPUOffloadingManager P) unit :=
  match c with
  | OLookup k => off_lookup k;; mret tt
  | OPrepareLoad ks => prepare_load ks;; mret tt
  | OCompleteLoad ks => complete_load ks
  | OTouch ks => off_touch ks
  | OPrepareStore ks => prepare_store ks;; mret tt
  | OCompleteStore ks ok => complete_store ks ok
  | OReset => reset_cache
  | OTakeEvents => off_take_events;; mret tt
  | OStats => get_stats;; mret tt
  end.

(** The block of a key can be read. *)
Definition readable s k : Prop := ∃ b, policy_get (_policy s) k = Some b ∧ is_ready b = true.

(** A client loads readable blocks, ends loads that run, stores distinct keys, and forgets its
    loads when it resets the cache; the third list has the loads that run afterwards. *)
Inductive off_allowed s : list OffloadKey → off_call → list OffloadKey → Prop :=
  | ok_lookup loads k : off_allowed s loads (OLookup k) loads
  | ok_load loads ks : Forall (readable s) ks → zlen loads + zlen ks < 2 ^ 31 →
      off_allowed s loads (OPrepareLoad ks) (loads ++ ks)
  | ok_loaded loads ks loads' : loads ≡ₚ ks ++ loads' → off_allowed s loads (OCompleteLoad ks) loads'
  | ok_touch loads ks : off_allowed s loads (OTouch ks) loads
  | ok_store loads ks : NoDup ks → off_allowed s loads (OPrepareStore ks) loads
  | ok_stored loads ks ok : off_allowed s loads (OCompleteStore ks ok) loads
  | ok_reset loads : off_allowed s loads OReset []
  | ok_events loads : off_allowed s loads OTakeEvents loads
  | ok_stats loads : off_allowed s loads OStats loads.

(** The states of a manager created with the given arguments, with the loads that run. *)
Inductive off_reach (n : Z) (events : bool) (threshold tracker : Z) : CPUOffloadingManager P → list OffloadKey → Prop :=
  | reach_init : off_reach n events threshold tracker (CPUOffloadingManager_init n events threshold tracker) []
  | reach_step s loads c loads' s' : off_reach n events threshold tracker s loads → off_allowed s loads c loads' →
      off_perform c s = (inr tt, s') → off_reach n events threshold tracker s' loads'.

Context `{PL : !PolicyLaws P}.

Lemma off_init_inv n events threshold tracker :
  0 ≤ n < 2 ^ 63 → 1 ≤ tracker → off_inv (CPUOffloadingManager_init n events threshold tracker) ∅ [].
Proof.
  intros Hn Ht. assert (∀ z, keys_with z ∅ = ∅) as E.
  { intros z. apply set_eq. intros k. rewrite elem_of_keys_with. setoid_rewrite lookup_empty. set_solver. }
  split; simpl; rewrite ?E, ?size_empty; try done.
  - by apply law_init.
  - split; simpl; [done|lia].
  - split; [by intros k b; rewrite lookup_empty|by intros k ?%elem_of_nil|done].
  - unfold counts_ok. simpl. split; [done|]. destruct (2 <=? threshold); [|done]. split; [apply NoDup_nil_2|unfold zlen; simpl; lia].
Qed.

Lemma off_step_spec s m loads c loads' :
  off_inv s m loads → off_allowed s loads c loads' →
  wp (off_perform c) (λ _ s', _num_blocks s' = _num_blocks s ∧ ∃ m', off_inv s' m' loads') s.
Proof.
  intros Hi Ha. destruct Ha as [loads k|loads ks Hr Hz|loads ks loads' Hp|loads ks|loads ks Hn|loads ks ok|loads|loads|loads];
    simpl; wp_steps.
  - eapply wp_mono; [by apply (off_lookup_spec s m loads)|]. simpl. intros _ s' (? & ? & _). wp_steps. split; [done|by exists m].
  - eapply wp_mono; [apply (prepare_load_spec s m loads); [done| |done]|].
    + intros k Hk. rewrite Forall_forall in Hr. destruct (Hr k Hk) as (b & Hb & ?). exists b.
      by rewrite (off_get _ _ _ k Hi) in Hb.
    + simpl. intros ids s' (? & (m' & ? & _) & _). wp_steps. split; [done|by exists m'].
  - eapply wp_mono; [by apply (complete_load_spec s m loads)|]. naive_solver.
  - eapply wp_mono; [by apply (off_touch_spec s m loads)|]. naive_solver.
  - eapply wp_mono; [by apply (prepare_store_spec s m loads)|]. simpl. intros [o|] s'; intros; wp_steps; naive_solver.
  - eapply wp_mono; [by apply (complete_store_spec s m loads)|]. naive_solver.
  - eapply wp_mono; [by apply (off_reset_spec s m loads)|]. naive_solver.
  - unfold off_take_events. wp_steps. destruct (off_events s); wp_steps; (split; [done|exists m]); [|done].
    apply (off_inv_ext s); try done. apply Hi.
  - unfold get_stats. wp_steps. destruct (2 <=? store_threshold s); wp_steps; (split; [done|exists m]);
      apply (off_inv_ext s); try done; apply Hi.
Qed.

Lemma off_reach_inv n events threshold tracker s loads :
  0 ≤ n < 2 ^ 63 → 1 ≤ tracker → off_reach n events threshold tracker s loads →
  _num_blocks s = n ∧ ∃ m, off_inv s m loads.
Proof.
  intros Hn Ht. induction 1 as [|s loads c loads' s' Hr [En [m Hi]] Ha E].
  - split; [done|]. exists ∅. by apply off_init_inv.
  - destruct (off_step_spec s m loads c loads' Hi Ha) as (a & s2 & E2 & En2 & Hm). rewrite E in E2.
    injection E2 as <- <-. split; [congruence|done].
Qed.

(** Slots of the invariant. *)
Lemma slot_ids_elem m k b : m !! k = Some b → bs_block_id b ∈ slot_ids m.
Proof.
  intros Hb. unfold slot_ids. apply list_elem_of_fmap. exists (k, b). split; [done|]. by apply elem_of_map_to_list.
Qed.
Lemma slots_distinct s m : slots_ok s m → NoDup (slot_ids m ++ _free_list s).
Proof.
  intros [E _]. rewrite E. clear. unfold py_range. apply NoDup_fmap_2; [|apply NoDup_seq]. intros x y. lia.
Qed.
Lemma slots_injective m k k' b b' :
  NoDup (slot_ids m) → m !! k = Some b → m !! k' = Some b' → bs_block_id b = bs_block_id b' → k = k'.
Proof.
  intros Hn Hb Hb' E. destruct (decide (k = k')) as [|Hne]; [done|]. exfalso.
  rewrite (slot_ids_delete m k b Hb) in Hn. apply NoDup_cons in Hn as [Hn _]. apply Hn. rewrite E.
  apply (slot_ids_elem _ k'). by rewrite lookup_delete_ne.
Qed.
Lemma slots_count s m : slots_ok s m → Z.of_nat (size m) = _num_blocks s - _get_num_free_blocks s.
Proof.
  intros [E [Hb _]]. apply Permutation_length in E. rewrite length_app, length_py_range in E. unfold slot_ids in E.
  rewrite length_fmap, length_map_to_list in E. unfold _get_num_free_blocks, zlen. lia.
Qed.
End machine.

(** ** Safety *)

Section safety.
Context {P : Type} `{CP : CachePolicy P} `{PL : !PolicyLaws P}.
Implicit Types (s : CPUOffloadingManager P) (k : OffloadKey) (ks loads : list OffloadKey).

(** C16: In every state a client can reach no call raises, whatever the policy.  Two cached keys
    never share a slot, the slot of a cached key is one of the [n] slots and is not on the free
    list, a block that is being loaded stays cached and has one reference per load, and the
    counters are exact. *)
Theorem offload_reachable_safe n events threshold tracker s loads :
  0 ≤ n < 2 ^ 63 → 1 ≤ tracker → off_reach n events threshold tracker s loads →
  (∀ c loads', off_allowed s loads c loads' → ∃ s', off_perform c s = (inr tt, s'))
  ∧ (∀ k k' b b', policy_get (_policy s) k = Some b → policy_get (_policy s) k' = Some b' →
      bs_block_id b = bs_block_id b' → k = k')
  ∧ (∀ k b, policy_get (_policy s) k = Some b → 0 ≤ bs_block_id b < n ∧ bs_block_id b ∉ _free_list s)
  ∧ NoDup (_free_list s)
  ∧ (∀ k, k ∈ loads → ∃ b, policy_get (_policy s) k = Some b ∧ bs_ref_cnt b = loading loads k)
  ∧ ∃ m : contents, (∀ k, policy_get (_policy s) k = m !! k)
      ∧ _get_num_free_blocks s = n - Z.of_nat (size m) ∧ 0 ≤ _get_num_free_blocks s
      ∧ _num_evictable_cache_blocks s = Z.of_nat (size (keys_with 0 m))
      ∧ _num_write_pending_blocks s = Z.of_nat (size (keys_with (-1) m)).
Proof using PL.
  intros Hn Ht Hr. destruct (off_reach_inv n events threshold tracker s loads Hn Ht Hr) as [En [m Hi]].
  pose proof (λ k, off_get s m loads k Hi) as Hg. pose proof Hi as [I1 I2 I3 I4 [R1 R2 _] _].
  pose proof (slots_distinct s m I4) as Hnd. apply NoDup_app in Hnd as (Hnd & Hfree & Hnf).
  pose proof (slots_count s m I4) as Hcount.
  split_and!.
  - intros c loads' Ha. destruct (off_step_spec s m loads c loads' Hi Ha) as ([] & s' & E & _). by exists s'.
  - intros k k' b b'. rewrite !Hg. by apply slots_injective.
  - intros k b. rewrite Hg. intros Hb. pose proof (slot_ids_elem m k b Hb) as Hk. split; [|by apply Hfree].
    pose proof (slots_free s m I4) as Hf. rewrite Forall_app, !Forall_forall in Hf. destruct Hf as [Hf _].
    specialize (Hf _ Hk). simpl in Hf. destruct I4 as [_ Hb4]. lia.
  - done.
  - intros k Hk. destruct (R2 k Hk) as [b Hb]. exists b. rewrite Hg. split; [done|].
    apply loading_pos in Hk. destruct (R1 k b Hb) as [[_ ?]|?]; lia.
  - exists m. split_and!; try done; [lia|]. destruct I4 as [_ Hb4]. unfold _get_num_free_blocks.
    pose proof (zlen_nonneg (_free_list s)). lia.
Qed.

(** ** Stores and loads *)

Lemma lookup_stored m out k :
  length (store_spec out) = length (keys_to_store out) → NoDup (keys_to_store out) →
  (∀ i, keys_to_store out !! i = Some k → stored m out !! k = mkBlockStatus (-1) <$> store_spec out !! i)
  ∧ (k ∉ keys_to_store out → stored m out !! k = without m (evicted_keys out) !! k).
Proof.
  intros Hl Hn. unfold stored.
  destruct (zip_keys (keys_to_store out) (mkBlockStatus (-1) <$> store_spec out)) as [E1 E2]; [by rewrite length_fmap|].
  split; [|intros Hk; apply inserts_fresh; by rewrite E1].
  intros i Hi. destruct (lookup_lt_is_Some_2 (store_spec out) i) as [id Hid].
  { rewrite Hl. by eapply lookup_lt_Some. }
  rewrite Hid. simpl. apply inserts_elem; [by rewrite E1|]. apply list_elem_of_lookup. exists i.
  apply lookup_zip_with_Some. eexists k, _. split_and!; [done|done|]. by rewrite list_lookup_fmap, Hid.
Qed.

(** C17: What a store does.  The keys it writes are the requested ones that were looked up often
    enough and are not cached, each in a slot of its own.  It evicts exactly the blocks it lacks,
    none of them requested or in use; every other block is as before.  A refused store changes
    no block and happens only when slots are lacking. *)
Theorem prepare_store_correct n events threshold tracker s loads ks :
  0 ≤ n < 2 ^ 63 → 1 ≤ tracker → off_reach n events threshold tracker s loads → NoDup ks →
  let wanted := filter (λ k, policy_get (_policy s) k = None) (counted s ks) in
  wp (prepare_store ks) (λ r s', match r with
    | None => (∀ k, policy_get (_policy s') k = policy_get (_policy s) k) ∧ _get_num_free_blocks s < zlen wanted
    | Some o => keys_to_store o = wanted ∧ length (store_spec o) = length wanted ∧ NoDup (store_spec o)
        ∧ NoDup (evicted_keys o) ∧ zlen (evicted_keys o) = Z.max 0 (zlen wanted - _get_num_free_blocks s)
        ∧ (∀ k, k ∈ evicted_keys o → k ∉ counted s ks ∧ k ∉ loads
            ∧ ∃ b, policy_get (_policy s) k = Some b ∧ bs_ref_cnt b = 0)
        ∧ (∀ i k, wanted !! i = Some k → policy_get (_policy s') k = mkBlockStatus (-1) <$> store_spec o !! i)
        ∧ (∀ k, k ∉ wanted → policy_get (_policy s') k
            = if decide (k ∈ evicted_keys o) then None else policy_get (_policy s) k)
    end) s.
Proof using PL.
  intros Hn Ht Hr Hk wanted. destruct (off_reach_inv n events threshold tracker s loads Hn Ht Hr) as [_ [m Hi]].
  assert (wanted = filter (λ k, m !! k = None) (counted s ks)) as Ew.
  { apply list_filter_iff. intros k. by rewrite (off_get s m loads k Hi). }
  eapply wp_mono; [by apply (prepare_store_spec s m loads)|]. simpl. intros [o|] s' [_ H].
  - destruct H as ([S1 S2 S3 S4] & Hi' & Hz & _). rewrite <-Ew in S1. rewrite S1 in S3, Hz.
    assert (NoDup wanted) as Hw.
    { apply NoDup_filter. unfold counted. destruct (counts s); [by apply NoDup_filter|done]. }
    pose proof (λ k, lookup_stored m o k) as Hl. rewrite S1 in Hl. specialize (λ k, Hl k S3 Hw).
    split_and!; try done.
    + pose proof (slots_distinct s' _ (oi_slots _ _ _ Hi')) as (Hnd & _)%NoDup_app. apply NoDup_alt.
      intros i j id Ei Ej. destruct (lookup_lt_is_Some_2 wanted i) as [ki Ki]; [rewrite <-S3; by eapply lookup_lt_Some|].
      destruct (lookup_lt_is_Some_2 wanted j) as [kj Kj]; [rewrite <-S3; by eapply lookup_lt_Some|].
      assert (ki = kj) as E.
      { apply (slots_injective _ ki kj (mkBlockStatus (-1) id) (mkBlockStatus (-1) id) Hnd); [| |done].
        - by rewrite (proj1 (Hl ki) i Ki), Ei.
        - by rewrite (proj1 (Hl kj) j Kj), Ej. }
      subst kj. exact (NoDup_lookup wanted i j ki Hw Ki Kj).
    + intros k Hev. destruct (S4 k Hev) as [(b & Hb & H0)%elem_of_keys_with Hc]. split_and!; [done| |].
      * intros Hload%loading_pos. destruct (rf_count _ _ (oi_refs _ _ _ Hi) k b Hb) as [[? ?]|?]; lia.
      * exists b. by rewrite (off_get s m loads k Hi).
    + intros i k Ki. rewrite (off_get s' _ loads k Hi'). by apply (Hl k).
    + intros k Hkw. rewrite (off_get s' _ loads k Hi'), (proj2 (Hl k) Hkw), lookup_without.
      case_decide; [done|]. by rewrite (off_get s m loads k Hi).
  - destruct H as [Hi' [Hpos _]]. rewrite <-Ew in Hpos. split; [|lia].
    intros k. by rewrite (off_get s' m loads k Hi'), (off_get s m loads k Hi).
Qed.

(** The keys of a store that is under way. *)
Lemma stored_pending m o k :
  length (store_spec o) = length (keys_to_store o) → NoDup (keys_to_store o) → k ∈ keys_to_store o →
  ∃ i id, keys_to_store o !! i = Some k ∧ store_spec o !! i = Some id
    ∧ stored m o !! k = Some (mkBlockStatus (-1) id).
Proof using.
  intros Hl Hn [i Hi]%list_elem_of_lookup. destruct (lookup_lt_is_Some_2 (store_spec o) i) as [id Hid].
  { rewrite Hl. by eapply lookup_lt_Some. }
  exists i, id. split_and!; [done..|]. by rewrite (proj1 (lookup_stored m o k Hl Hn) i Hi), Hid.
Qed.

(** C18: A store that succeeds can be read back: after its completion a load of the stored keys
    is granted and names the slots the store was told to write, in the same order.  After a
    failed store the cache holds what it held before, less the evicted blocks. *)
Theorem store_load_roundtrip n events threshold tracker s loads ks :
  0 ≤ n < 2 ^ 63 → 1 ≤ tracker → off_reach n events threshold tracker s loads → NoDup ks →
  zlen loads + zlen ks < 2 ^ 31 →
  wp (prepare_store ks) (λ r s1, ∀ o, r = Some o →
    wp (complete_store (keys_to_store o) true) (λ _ s2,
      wp (prepare_load (keys_to_store o)) (λ ids _, ids = store_spec o) s2) s1
    ∧ wp (complete_store (keys_to_store o) false) (λ _ s2,
        ∀ k, policy_get (_policy s2) k = if decide (k ∈ evicted_keys o) then None else policy_get (_policy s) k) s1) s.
Proof using PL.
  intros Hn Ht Hr Hk Hz. destruct (off_reach_inv n events threshold tracker s loads Hn Ht Hr) as [_ [m Hi]].
  eapply wp_mono; [by apply (prepare_store_spec s m loads)|]. simpl. intros ? s1 [_ H] o ->.
  destruct H as ([S1 S2 S3 S4] & Hi1 & _).
  assert (NoDup (counted s ks) ∧ zlen (counted s ks) ≤ zlen ks) as [Hc Hcz].
  { unfold counted. destruct (counts s); [|done]. split; [by apply NoDup_filter|]. unfold zlen.
    pose proof (length_filter (λ k, store_threshold s ≤ default 0 (od_get l k)) ks). lia. }
  assert (NoDup (keys_to_store o)) as Hw by (rewrite S1; by apply NoDup_filter).
  assert (zlen (keys_to_store o) ≤ zlen ks) as Hlen.
  { rewrite S1. pose proof (length_filter (λ k, m !! k = None) (counted s ks)). unfold zlen in *. lia. }
  pose proof (λ k, stored_pending m o k S3 Hw) as Hp. split.
  - eapply wp_mono; [by apply (complete_store_spec s1 (stored m o) loads)|]. simpl. intros _ s2 [_ Hi2].
    assert (∀ k, k ∈ keys_to_store o → ∃ i id, keys_to_store o !! i = Some k ∧ store_spec o !! i = Some id
      ∧ completed true (stored m o) (keys_to_store o) !! k = Some (mkBlockStatus 0 id)) as Hdone.
    { intros k Hin. destruct (Hp k Hin) as (i & id & Ki & Ii & E). exists i, id. split_and!; [done..|].
      rewrite lookup_done, E. simpl. by rewrite decide_True. }
    eapply wp_mono; [apply (prepare_load_spec s2 _ loads _ Hi2); [|lia]|].
    + intros k Hin. destruct (Hdone k Hin) as (i & id & _ & _ & E). by eexists.
    + simpl. intros ids s3 (_ & _ & Hf). apply list_eq. intros i. destruct (keys_to_store o !! i) as [k|] eqn:Ki.
      * destruct (Forall2_lookup_l _ _ _ _ _ Hf Ki) as (id & Ii & E). rewrite Ii.
        destruct (Hdone k) as (j & id' & Kj & Ij & E'); [by eapply list_elem_of_lookup_2|].
        assert (j = i) as -> by (by eapply NoDup_lookup). rewrite E' in E. injection E as <-. done.
      * apply lookup_ge_None in Ki. rewrite (lookup_ge_None_2 ids), (lookup_ge_None_2 (store_spec o)); [done|lia|].
        apply Forall2_length in Hf. lia.
  - eapply wp_mono; [by apply (complete_store_spec s1 (stored m o) loads)|]. simpl. intros _ s2 [_ Hi2] k.
    rewrite (off_get s2 _ loads k Hi2), (off_get s m loads k Hi), lookup_failed.
    destruct (decide (k ∈ keys_to_store o)) as [Hin|Hout].
    + destruct (Hp k Hin) as (i & id & _ & _ & E). rewrite E. simpl. rewrite decide_True by done.
      rewrite S1 in Hin. apply list_elem_of_filter in Hin as [-> _]. by case_decide.
    + rewrite (proj2 (lookup_stored m o k S3 Hw) Hout), lookup_without. case_decide; [done|].
      destruct (m !! k); simpl; [|done]. by rewrite decide_False by (by intros [? _]).
Qed.
End safety.

(** ** Least recently used *)

Section lru.
Import LRU.
Implicit Types (p : LRUCachePolicy) (s : CPUOffloadingManager LRUCachePolicy) (k : OffloadKey).

(** The keys [ks] moved to the end of [order]. *)
Definition moved_last (order ks : list OffloadKey) : list OffloadKey :=
  filter (λ x, x ∉ ks) order ++ filter (λ x, x ∈ order) ks.

Lemma moved_last_elem order ks k : k ∈ moved_last order ks ↔ k ∈ order.
Proof. unfold moved_last. rewrite elem_of_app, !list_elem_of_filter. destruct (decide (k ∈ ks)); tauto. Qed.

Lemma moved_last_snoc order ks k : k ∉ ks → moved_last (moved_last order ks) [k] = moved_last order (ks ++ [k]).
Proof.
  intros Hk. unfold moved_last at 1 3. rewrite (filter_app _ ks [k]), (assoc_L (++)). f_equal.
  - unfold moved_last. rewrite filter_app. f_equal.
    + rewrite list_filter_filter. apply list_filter_iff. intros x. rewrite elem_of_app. tauto.
    + apply filter_all. intros x [_ Hx]%list_elem_of_filter ->%list_elem_of_singleton. done.
  - apply list_filter_iff. intros x. apply moved_last_elem.
Qed.

Lemma lru_touch_key_order k p : wp (lru_touch_key k) (λ _ p', lru_order p' = moved_last (lru_order p) [k]) p.
Proof.
  unfold lru_touch_key, lru_order, moved_last. wp_steps. destruct (od_get (evictable_blocks p) k) as [u|] eqn:E.
  - unfold od_move_to_end. rewrite E. wp_steps. eapply wp_lift_result; [done|]. wp_steps. simpl.
    rewrite fmap_app, od_del_keys. f_equal.
    + apply list_filter_iff. intros x. by rewrite list_elem_of_singleton.
    + rewrite filter_cons, decide_True; [done|]. apply od_get_elem in E. by apply (list_elem_of_fmap_2 fst) in E.
  - apply od_get_None in E. wp_steps. rewrite filter_cons, decide_False, app_nil_r by done. symmetry.
    apply filter_all. by intros x Hx ->%list_elem_of_singleton.
Qed.

(** Touching keys makes the idle ones the most recently used blocks, the first key of the
    list the very last to be evicted, and keeps the order of the others; no block changes. *)
Theorem lru_touch_order p ks :
  NoDup ks →
  wp (lru_touch ks) (λ _ p', lru_order p' = filter (λ k, k ∉ ks) (lru_order p) ++ filter (λ k, k ∈ lru_order p) (rev ks)
    ∧ lru_blocks p' = lru_blocks p) p.
Proof.
  intros Hn. assert (NoDup (rev ks)) as Hr by (by rewrite <-(Permutation_rev ks)).
  eapply (wp_mono _ (λ _ p', lru_order p' = moved_last (lru_order p) (rev ks) ∧ lru_blocks p' = lru_blocks p)).
  - unfold lru_touch. apply (wp_for_each _ (λ pre p', lru_order p' = moved_last (lru_order p) pre ∧ lru_blocks p' = lru_blocks p)).
    + split; [|done]. unfold moved_last. rewrite app_nil_r. symmetry. apply filter_all. intros x _. apply not_elem_of_nil.
    + intros pre k post p' E [Ho Hb]. rewrite E in Hr. apply NoDup_app in Hr as (_ & Hr & _).
      assert (k ∉ pre) as Hk by (intros H; apply (Hr k H); by left).
      destruct (lru_touch_key_order k p') as (a & p'' & Er & Ho'). exists a, p''. split; [done|]. split.
      * by rewrite Ho', Ho, moved_last_snoc.
      * rewrite <-Hb. clear -Er. unfold lru_touch_key in Er. revert Er. unfold get, mbind, M_bind. simpl.
        destruct (od_get _ _); [destruct (od_move_to_end _ _)|]; simpl; by intros [= <- <-].
  - intros _ p' [-> ->]. split; [|done]. unfold moved_last. f_equal. apply list_filter_iff. intros x.
    by rewrite (Permutation_rev ks) at 2.
Qed.

(** C19: With the LRU policy a store is refused exactly when the slots it lacks outnumber the idle
    blocks that were not requested; otherwise it evicts the least recently used of them. *)
Theorem lru_store_correct n events threshold tracker s loads ks :
  0 ≤ n < 2 ^ 63 → 1 ≤ tracker → off_reach n events threshold tracker s loads → NoDup ks →
  let lacking := zlen (filter (λ k, policy_get (_policy s) k = None) (counted s ks)) - _get_num_free_blocks s in
  let victims := filter (λ k, k ∉ counted s ks) (lru_order (_policy s)) in
  (∀ k, k ∈ lru_order (_policy s) ↔ ∃ b, policy_get (_policy s) k = Some b ∧ bs_ref_cnt b = 0)
  ∧ wp (prepare_store ks) (λ r _, match r with
      | None => zlen victims < lacking
      | Some o => lacking ≤ zlen victims ∧ evicted_keys o = take (Z.to_nat lacking) victims
      end) s.
Proof.
  intros Hn Ht Hr Hk lacking victims. destruct (off_reach_inv n events threshold tracker s loads Hn Ht Hr) as [_ [m Hi]].
  pose proof (oi_rep _ _ _ Hi) as R. simpl in R. change (lru_rep (_policy s) m (idle_keys m)) in R.
  split.
  { intros k. rewrite (lr_marked _ _ _ R), elem_of_idle. by rewrite (off_get s m loads k Hi). }
  assert (zlen victims = Z.of_nat (size (idle_keys m ∖ list_to_set (counted s ks)))) as Hv.
  { rewrite <-(lru_unprotected (_policy s)) by done. f_equal. apply list_filter_iff. intros k. by rewrite elem_of_list_to_set. }
  assert (lacking = zlen (filter (λ k, m !! k = None) (counted s ks)) - _get_num_free_blocks s) as El.
  { unfold lacking. do 2 f_equal. apply list_filter_iff. intros k. by rewrite (off_get s m loads k Hi). }
  eapply wp_mono; [by apply (prepare_store_spec s m loads)|]. simpl. intros [o|] s' [_ H].
  - destruct H as ([S1 S2 S3 S4] & _ & Hz & Hp). rewrite S1, <-El in Hz.
    destruct (decide (0 < lacking)) as [Hpos|Hneg].
    + rewrite Z.max_r in Hz by lia. rewrite Hz in Hp. specialize (Hp Hpos). unfold lru_picks in Hp.
      assert (evicted_keys o = take (Z.to_nat lacking) victims) as E.
      { rewrite Hp. f_equal. apply list_filter_iff. intros k. by rewrite elem_of_list_to_set. }
      split; [|done]. rewrite E in Hz. unfold zlen in *. rewrite length_take in Hz. lia.
    + pose proof (zlen_nonneg victims). split; [lia|]. replace (Z.to_nat lacking) with 0%nat by lia.
      rewrite Z.max_l in Hz by lia. destruct (evicted_keys o) as [|x l]; [done|]. rewrite zlen_cons in Hz.
      pose proof (zlen_nonneg l). exfalso. lia.
  - destruct H as [_ [Hpos Hd]]. rewrite <-El in *. rewrite Hv. destruct Hd as [Hd|Hd].
    + change (keys_with 0 m) with (idle_keys m) in Hd.
      assert (size (idle_keys m ∖ list_to_set (counted s ks)) ≤ size (idle_keys m))%nat by (apply subseteq_size; set_solver). lia.
    + exact Hd.
Qed.
End lru.

(** ** Adaptive replacement *)

Section arc.
Import ARC.
Implicit Types (s : CPUOffloadingManager ARCCachePolicy) (k : OffloadKey).

(** C20: With the ARC policy a store that lacks slots evicts the oldest evictable entries of T1
    and of T2: T1 is drawn on only while it is not below its target size, and T2 only when T1 is
    below its target or has nothing left to evict.  It is refused only when T2 has fewer
    evictable entries than slots are lacking. *)
Theorem arc_store_correct n events threshold tracker s loads ks :
  0 ≤ n < 2 ^ 63 → 1 ≤ tracker → off_reach n events threshold tracker s loads → NoDup ks →
  let lacking := zlen (filter (λ k, policy_get (_policy s) k = None) (counted s ks)) - _get_num_free_blocks s in
  let candidates l := filter (evictable (list_to_set (counted s ks))) l in
  wp (prepare_store ks) (λ r _, match r with
    | None => zlen (candidates (t2 (_policy s))) < lacking
    | Some o => 0 < lacking → ∃ target i j,
        py_int (target_t1_size (_policy s)) = inr target ∧ Z.of_nat i + Z.of_nat j = lacking
        ∧ evicted_keys o ≡ₚ (take i (candidates (t1 (_policy s)))).*1 ++ (take j (candidates (t2 (_policy s)))).*1
        ∧ (i ≤ length (candidates (t1 (_policy s))))%nat ∧ (j ≤ length (candidates (t2 (_policy s))))%nat
        ∧ (i = 0%nat ∨ target ≤ zlen (t1 (_policy s)) - Z.of_nat i + 1)
        ∧ (j = 0%nat ∨ zlen (t1 (_policy s)) - Z.of_nat i < target ∨ i = length (candidates (t1 (_policy s))))
    end) s.
Proof.
  intros Hn Ht Hr Hk lacking candidates. destruct (off_reach_inv n events threshold tracker s loads Hn Ht Hr) as [_ [m Hi]].
  assert (lacking = zlen (filter (λ k, m !! k = None) (counted s ks)) - _get_num_free_blocks s) as El.
  { unfold lacking. do 2 f_equal. apply list_filter_iff. intros k. by rewrite (off_get s m loads k Hi). }
  eapply wp_mono; [by apply (prepare_store_spec s m loads)|]. simpl. intros [o|] s' [_ H].
  - destruct H as ([S1 S2 S3 S4] & _ & Hz & Hp). intros Hpos. rewrite S1, <-El, Z.max_r in Hz by lia. rewrite Hz in Hp.
    destruct (Hp Hpos) as (target & x & y & Et & Hperm & Hx & Hy & H1 & H2). exists target, (length x), (length y).
    fold (candidates (t1 (_policy s))) in Hx, H2. fold (candidates (t2 (_policy s))) in Hy.
    apply (f_equal length) in Hx as Hx', Hy as Hy'. rewrite length_take in Hx', Hy'. rewrite <-Hx, <-Hy.
    split_and!; [done| |done|lia|lia| |].
    + rewrite <-Hz. unfold zlen. rewrite Hperm, length_app, !length_fmap. lia.
    + destruct H1 as [->|H1]; [by left|by right].
    + destruct H2 as [->|[H2| ->]]; [by left|by right; left|by right; right].
  - destruct H as [_ [Hpos Hd]]. rewrite <-El in *. destruct Hd as [Hd|Hd]; [|exact Hd].
    eapply Z.le_lt_trans; [|exact Hd]. apply oi_rep in Hi. destruct Hi as [C _]. simpl in C.
    pose proof (resident_nodup _ _ C) as Hnr. unfold residents in Hnr. rewrite fmap_app in Hnr.
    apply NoDup_app in Hnr as (_ & _ & Hn2). unfold zlen. rewrite <-(length_fmap fst).
    assert (NoDup (candidates (t2 (_policy s))).*1) as Hnc.
    { eapply sublist_NoDup; [exact Hn2|]. apply fmap_sublist. unfold candidates. apply sublist_filter. }
    rewrite <-(size_list_to_set (C := gset OffloadKey)) by done. apply inj_le, subseteq_size.
    intros k ([k' b] & -> & [[H0 _] Hin]%list_elem_of_filter)%elem_of_list_to_set%list_elem_of_fmap. simpl in *.
    apply elem_of_keys_with. exists b. split; [|done]. rewrite <-(ac_get _ _ C).
    apply od_get_in; [apply (resident_nodup _ _ C)|]. unfold residents. apply elem_of_app. by right.
Qed.
End arc.

(** ** Concrete runs *)

Section runs.
Context {P : Type} `{CP : CachePolicy P}.

Definition after (calls : list off_call) (s : CPUOffloadingManager P) : CPUOffloadingManager P :=
  (for_each calls off_perform s).2.

Lemma reach_after n events threshold tracker s loads c loads' :
  off_reach n events threshold tracker s loads → off_allowed s loads c loads' → (off_perform c s).1 = inr tt →
  off_reach n events threshold tracker (off_perform c s).2 loads'.
Proof. intros Hr Ha E. eapply reach_step; [done|done|]. rewrite <-E. by destruct (off_perform c s). Qed.

(** Two blocks stored in two slots, one of which is being loaded. *)
Definition key (n : nat) : OffloadKey := [default x00 (Byte.of_nat n)].
Definition run0 : CPUOffloadingManager P := CPUOffloadingManager_init 2 true 1 100.
Definition run1 : CPUOffloadingManager P := (off_perform (OPrepareStore [key 1; key 2]) run0).2.
Definition run2 : CPUOffloadingManager P := (off_perform (OCompleteStore [key 1; key 2] true) run1).2.
Definition run3 : CPUOffloadingManager P := (off_perform (OPrepareLoad [key 1]) run2).2.

Lemma run3_reach :
  (off_perform (OPrepareStore [key 1; key 2]) run0).1 = inr tt →
  (off_perform (OCompleteStore [key 1; key 2] true) run1).1 = inr tt →
  (off_perform (OPrepareLoad [key 1]) run2).1 = inr tt → readable run2 (key 1) →
  off_reach 2 true 1 100 run3 [key 1].
Proof.
  intros E1 E2 E3 Hr. apply (reach_after _ _ _ _ run2 []); [|by apply (ok_load _ []); [apply Forall_singleton|]|done].
  apply (reach_after _ _ _ _ run1 []); [|apply ok_stored|done].
  apply (reach_after _ _ _ _ run0 []); [apply reach_init|apply ok_store|done].
  apply (bool_decide_unpack _). by vm_compute.
Qed.
End runs.

Lemma lru_run3 : off_reach (P := LRU.LRUCachePolicy) 2 true 1 100 run3 [key 1].
Proof.
  apply run3_reach; [vm_compute; exact eq_refl..|]. exists (mkBlockStatus 0 0). split; vm_compute; exact eq_refl.
Qed.
Lemma arc_run3 : off_reach (P := ARC.ARCCachePolicy) 2 true 1 100 run3 [key 1].
Proof.
  apply run3_reach; [vm_compute; exact eq_refl..|]. exists (mkBlockStatus 0 0). split; vm_compute; exact eq_refl.
Qed.

Lemma offload_reachable_safe_witness :
  policy_get (_policy (run3 (P := LRU.LRUCachePolicy))) (key 1) = Some (mkBlockStatus 1 0)
  ∧ 0 ≤ 0 < 2
  ∧ ∃ b, policy_get (_policy (run3 (P := ARC.ARCCachePolicy))) (key 1) = Some b ∧ bs_ref_cnt b = loading [key 1] (key 1).
Proof.
  assert (policy_get (_policy (run3 (P := LRU.LRUCachePolicy))) (key 1) = Some (mkBlockStatus 1 0)) as E by (vm_compute; exact eq_refl).
  destruct (offload_reachable_safe 2 true 1 100 run3 [key 1] ltac:(lia) ltac:(lia) lru_run3) as (_ & _ & H & _).
  destruct (offload_reachable_safe 2 true 1 100 run3 [key 1] ltac:(lia) ltac:(lia) arc_run3) as (_ & _ & _ & _ & H' & _).
  split; [exact E|]. split; [exact (proj1 (H (key 1) _ E))|]. apply H'. by left.
Defined.

Lemma distinct_keys (l : list OffloadKey) : bool_decide (NoDup l) = true → NoDup l.
Proof. apply bool_decide_eq_true_1. Qed.

Lemma prepare_store_correct_witness :
  wp (prepare_store [key 3]) (λ r s', match r with
    | None => False
    | Some o => evicted_keys o = [key 2] ∧ zlen (evicted_keys o) = 1 end) (run3 (P := LRU.LRUCachePolicy)).
Proof.
  pose proof (prepare_store_correct 2 true 1 100 run3 [key 1] [key 3] ltac:(lia) ltac:(lia) lru_run3
    (distinct_keys [key 3] ltac:(vm_compute; exact eq_refl))) as (r & s' & E & H).
  exists r, s'. split; [exact E|].
  assert (option_map evicted_keys r = Some [key 2]) as Er.
  { transitivity (option_map evicted_keys match (prepare_store [key 3] (run3 (P := LRU.LRUCachePolicy))).1 with inr a => a | inl _ => None end).
    - rewrite E. exact eq_refl.
    - vm_compute. exact eq_refl. }
  destruct r as [o|]; [|discriminate Er]. injection Er as Er. split; [exact Er|].
  destruct H as (_ & _ & _ & _ & Hz & _). rewrite Hz. vm_compute. exact eq_refl.
Defined.

Lemma store_load_roundtrip_witness :
  ∃ o s1, prepare_store [key 3] (run3 (P := ARC.ARCCachePolicy)) = (inr (Some o), s1)
    ∧ wp (complete_store [key 3] true) (λ _ s2, wp (prepare_load [key 3]) (λ ids _, ids = [1]) s2) s1.
Proof.
  destruct (store_load_roundtrip 2 true 1 100 run3 [key 1] [key 3] ltac:(lia) ltac:(lia) arc_run3
    (distinct_keys [key 3] ltac:(vm_compute; exact eq_refl)) ltac:(vm_compute; exact eq_refl)) as (r & s1 & E & H).
  assert (option_map (λ o, (keys_to_store o, store_spec o)) r = Some ([key 3], [1])) as Er.
  { transitivity (option_map (λ o, (keys_to_store o, store_spec o))
      match (prepare_store [key 3] (run3 (P := ARC.ARCCachePolicy))).1 with inr a => a | inl _ => None end).
    - rewrite E. exact eq_refl.
    - vm_compute. exact eq_refl. }
  destruct r as [o|]; [|discriminate Er]. injection Er as Ek Es. exists o, s1. split; [exact E|].
  destruct (H o eq_refl) as [Hok _]. rewrite Ek, Es in Hok. exact Hok.
Defined.

Lemma lru_touch_order_witness :
  wp (LRU.lru_touch [key 1; key 4]) (λ _ p', lru_order p' = [key 2; key 1]) (_policy (run2 (P := LRU.LRUCachePolicy))).
Proof.
  destruct (lru_touch_order (_policy (run2 (P := LRU.LRUCachePolicy))) [key 1; key 4]
    (distinct_keys [key 1; key 4] ltac:(vm_compute; exact eq_refl))) as (r & p' & E & Ho & _).
  exists r, p'. split; [exact E|]. rewrite Ho. vm_compute. exact eq_refl.
Defined.

(** The block in use is not evicted: two more blocks find no room, one does. *)
Lemma lru_store_correct_witness :
  wp (prepare_store [key 3; key 4]) (λ r _, r = None) (run3 (P := LRU.LRUCachePolicy)).
Proof.
  destruct (lru_store_correct 2 true 1 100 run3 [key 1] [key 3; key 4] ltac:(lia) ltac:(lia) lru_run3
    (distinct_keys [key 3; key 4] ltac:(vm_compute; exact eq_refl))) as [_ (r & s' & E & H)].
  exists r, s'. split; [exact E|]. destruct r as [o|]; [|reflexivity]. exfalso. destruct H as [H _].
  vm_compute in H. exact (H eq_refl).
Defined.

Lemma arc_store_correct_witness :
  wp (prepare_store [key 3; key 4]) (λ r _, r = None) (run3 (P := ARC.ARCCachePolicy)).
Proof.
  destruct (arc_store_correct 2 true 1 100 run3 [key 1] [key 3; key 4] ltac:(lia) ltac:(lia) arc_run3
    (distinct_keys [key 3; key 4] ltac:(vm_compute; exact eq_refl))) as (r & s' & E & H).
  exists r, s'. split; [exact E|]. destruct r as [o|]; [|reflexivity]. exfalso.
  assert (0 < zlen (filter (λ k, policy_get (_policy (run3 (P := ARC.ARCCachePolicy))) k = None) (counted run3 [key 3; key 4]))
    - _get_num_free_blocks (run3 (P := ARC.ARCCachePolicy))) as Hpos by (vm_compute; exact eq_refl).
  destruct (H Hpos) as (target & i & j & _ & Hij & _ & Hi & Hj & _).
  vm_compute in Hi, Hj. assert (Z.of_nat i + Z.of_nat j = 2) as H2 by (rewrite Hij; vm_compute; exact eq_refl). lia.
Defined.

(** *** A refusal with every block idle *)

(** Three slots: blocks 1, 2 and 3 are stored, block 4 takes the place of block 1, and block 1
    is asked for three times. *)
Definition ghost_hits : list off_call :=
  [OPrepareStore [key 1; key 2; key 3]; OCompleteStore [key 1; key 2; key 3] true; OPrepareStore [key 4];
   OCompleteStore [key 4] true; OTouch [key 1]; OTouch [key 1]; OTouch [key 1]].

(** The ARC policy refuses a store although every block is idle and none is requested: once
    the target of T1 has grown to the capacity, T1 falls below it after one eviction, T2 is
    empty, and the search does not return to T1.  The LRU policy grants the same store. *)
Theorem arc_refuses_idle_blocks :
  let arc : CPUOffloadingManager ARC.ARCCachePolicy := after ghost_hits (CPUOffloadingManager_init 3 false 1 100) in
  let lru : CPUOffloadingManager LRU.LRUCachePolicy := after ghost_hits (CPUOffloadingManager_init 3 false 1 100) in
  _num_evictable_cache_blocks arc = 3 ∧ _num_evictable_cache_blocks lru = 3
  ∧ (prepare_store [key 5; key 6] arc).1 = inr None
  ∧ (prepare_store [key 5; key 6] lru).1 = inr (Some (mkPrepareStore [key 5; key 6] [2; 1] [key 2; key 3])).
Proof. vm_compute. split_and!; exact eq_refl. Qed.
