(* ===== verification/Detokenizer.v ===== *)
(** Incremental detokenization: [vllm/v1/engine/detokenizer.py] and
    [vllm/tokenizers/detokenizer_utils.py].

    A Python string is the list of its code points.  The tokenizer and its decode stream are
    library code: the functions of them that are called are arguments. *)

From S2P Require Import Prelude Request.

Abbreviation text := (list Z).

(** ** Strings *)

(** [s.find(sub)] on the part of a string that begins at index [i]. *)
Fixpoint find_from (s sub : text) (i : Z) : Z :=
  if bool_decide (sub `prefix_of` s) then i
  else match s with [] => -1 | _ :: s' => find_from s' sub (i + 1) end.
(** [s.find(sub, start)]. *)
Definition py_find (s sub : text) (start : Z) : Z :=
  let start := if start <? 0 then Z.max 0 (zlen s + start) else start in
  if zlen s <? start then -1 else find_from (drop (Z.to_nat start) s) sub start.
Definition maxsize : Z := 2 ^ 63 - 1.
(** [s[:b]]. *)
Definition py_prefix {A} (s : list A) (b : Z) : list A := take (Z.to_nat (if b <? 0 then zlen s + b else b)) s.
(** The replacement character U+FFFD. *)
Definition replacement : Z := 65533.
(** [s.endswith] of it. *)
Definition ends_replaced (s : text) : bool := bool_decide (last s = Some replacement).
(** [sep.join(l)]. *)
Fixpoint py_join (sep : text) (l : list text) : text :=
  match l with [] => [] | [s] => s | s :: l' => s ++ sep ++ py_join sep l' end.

(** ** Stop strings *)

(** The best stop string so far with its index and its end. *)
Definition better_stop (output_text : text) (new_char_count : Z) (best : option text * Z * Z) (stop_str : text)
    : option text * Z * Z :=
  let '(best_stop_str, best_stop_index, best_end) := best in
  let stop_index := py_find output_text stop_str (1 - new_char_count - zlen stop_str) in
  if stop_index =? -1 then best
  else
    let end' := stop_index + zlen stop_str in
    if end' <? best_end then (Some stop_str, stop_index, end') else best.

Definition check_stop_strings (output_text : text) (new_char_count : Z) (stop : list text) (include_in_output : bool)
    : option (text * Z) :=
  if (new_char_count =? 0) || bool_decide (stop = []) then None
  else
    let '(best_stop_str, best_stop_index, best_end) :=
      foldl (better_stop output_text new_char_count) (None, 0, maxsize) stop in
    match best_stop_str with
    | None => None
    | Some s =>
        if include_in_output then Some (s, if zlen output_text <=? best_end then -1 else best_end)
        else Some (s, best_stop_index)
    end.

(** ** The detokenizer *)

(** Without a tokenizer only the tokens are kept. *)
Definition IncrementalDetokenizer : Type := list Z.
Definition plain_update (new_token_ids : list Z) : M IncrementalDetokenizer (option text) :=
  modify (λ ids, ids ++ new_token_ids);; mret None.
Definition plain_get_next_output_text : M IncrementalDetokenizer text := mret [].

(** What the subclasses add: their state, how many of [token_ids] are the prompt's, and the text
    of the next token. *)
Class Decoder (D : Type) := {
  dec_prompt_len : D → Z;
  decode_next : list Z → Z → M D text;
}.

(** [sampling_params.stop]. *)
Inductive StopParam := NoStop | OneStop (s : text) | StopList (l : list text).

Record Detokenizer (D : Type) := mkDetok {
  dt_token_ids : list Z;
  dt_stop : list text;
  dt_min_tokens : Z;
  include_stop_str_in_output : bool;
  stop_buffer_length : Z;
  _last_output_text_offset : Z;
  output_text : text;
  dt_decoder : D;
}.
Arguments mkDetok {D}.
Arguments dt_token_ids {D}. Arguments dt_stop {D}. Arguments dt_min_tokens {D}.
Arguments include_stop_str_in_output {D}. Arguments stop_buffer_length {D}.
Arguments _last_output_text_offset {D}. Arguments output_text {D}. Arguments dt_decoder {D}.

Section detokenizer.
Context {D : Type} `{Decoder D}.
Implicit Types s : Detokenizer D.

Definition set_token_ids (ids : list Z) s : Detokenizer D :=
  mkDetok ids (dt_stop s) (dt_min_tokens s) (include_stop_str_in_output s) (stop_buffer_length s)
    (_last_output_text_offset s) (output_text s) (dt_decoder s).
Definition set_output_text (t : text) s : Detokenizer D :=
  mkDetok (dt_token_ids s) (dt_stop s) (dt_min_tokens s) (include_stop_str_in_output s) (stop_buffer_length s)
    (_last_output_text_offset s) t (dt_decoder s).
Definition set_last_offset (n : Z) s : Detokenizer D :=
  mkDetok (dt_token_ids s) (dt_stop s) (dt_min_tokens s) (include_stop_str_in_output s) (stop_buffer_length s)
    n (output_text s) (dt_decoder s).
Definition set_decoder (d : D) s : Detokenizer D :=
  mkDetok (dt_token_ids s) (dt_stop s) (dt_min_tokens s) (include_stop_str_in_output s) (stop_buffer_length s)
    (_last_output_text_offset s) (output_text s) d.

Definition num_output_tokens s : Z := zlen (dt_token_ids s) - dec_prompt_len (dt_decoder s).
Definition output_token_ids s : list Z := drop (Z.to_nat (dec_prompt_len (dt_decoder s))) (dt_token_ids s).

(** [max(len(s) for s in stop)] for a non-empty list. *)
Definition max_stop_len (stop : list text) : Z := foldr (λ x n, Z.max (zlen x) n) 0 stop.
Definition BaseIncrementalDetokenizer_init (stop : StopParam) (min_tokens : Z) (include : bool) (ids : list Z) (d : D)
    : Detokenizer D :=
  let stop := match stop with NoStop => [] | OneStop x => [x] | StopList l => l end in
  let buffer := if negb (bool_decide (stop = [])) && negb include then max_stop_len stop - 1 else 0 in
  mkDetok ids stop min_tokens include buffer 0 [] d.

(** One token of the loop of [update], which keeps the offset of the stop check. *)
Definition feed_token (stop_check_offset : Z) (new_token_id : Z) : M (Detokenizer D) Z :=
  modify (λ s, set_token_ids (dt_token_ids s ++ [new_token_id]) s);;
  s ← get;
  new_text ← zoom dt_decoder set_decoder (decode_next (dt_token_ids s) new_token_id);
  modify (λ s, set_output_text (output_text s ++ new_text) s);;
  s ← get;
  mret (if negb (dt_min_tokens s =? 0) && (num_output_tokens s <=? dt_min_tokens s) then zlen (output_text s)
        else stop_check_offset).

(** The evaluation of the stop strings. *)
Definition evaluate_stop (stop_check_offset : Z) : M (Detokenizer D) (option text) :=
  s ← get;
  if negb (bool_decide (dt_stop s = [])) && (dt_min_tokens s <? num_output_tokens s) then
    match check_stop_strings (output_text s) (zlen (output_text s) - stop_check_offset) (dt_stop s)
            (include_stop_str_in_output s) with
    | None => mret None
    | Some (stop_string, truncate_to) =>
        when (negb (truncate_to =? -1)) (modify (set_output_text (py_prefix (output_text s) truncate_to)));;
        mret (Some stop_string)
    end
  else mret None.

Definition dt_update (new_token_ids : list Z) (stop_terminated : bool) : M (Detokenizer D) (option text) :=
  if bool_decide (new_token_ids = []) then mret None
  else
    s ← get;
    let skip := stop_terminated && negb (include_stop_str_in_output s) in
    let ids := if skip then take (pred (length new_token_ids)) new_token_ids else new_token_ids in
    offset ← fold_each ids feed_token (zlen (output_text s));
    when skip (modify (λ s, set_token_ids (dt_token_ids s ++ drop (pred (length new_token_ids)) new_token_ids) s));;
    evaluate_stop offset.

Definition get_next_output_text (finished delta : bool) : M (Detokenizer D) text :=
  s ← get;
  let buffer_length := if finished then 0 else stop_buffer_length s in
  if negb delta then
    mret (if buffer_length =? 0 then output_text s else py_prefix (output_text s) (- buffer_length))
  else
    let length := zlen (output_text s) - buffer_length in
    let last_offset := _last_output_text_offset s in
    if last_offset <? length then
      modify (set_last_offset length);; mret (py_slice (output_text s) last_offset length)
    else mret [].
End detokenizer.

(** ** With the decode stream of the tokenizers library *)

(** How [stream.step] fails: an invalid id ([OverflowError], [TypeError]), an exception with the
    message [Invalid prefix encountered], or another one. *)
Inductive StepError := InvalidId (e : exn) | InvalidPrefix | OtherError (e : exn).

Record FastDecoder (Stream : Type) := mkFast {
  stream : Stream;
  fd_spaces_between_special_tokens : bool;
  added_token_ids : gmap Z text;
  last_special : bool;
}.
Arguments mkFast {Stream}. Arguments stream {Stream}. Arguments fd_spaces_between_special_tokens {Stream}.
Arguments added_token_ids {Stream}. Arguments last_special {Stream}.

Section fast.
Context {Stream : Type} (stream_step : Z → Stream → (StepError + option text) * Stream) (fresh_stream : Stream).

Definition FastIncrementalDetokenizer_init (primed : Stream) (skip_special_tokens spaces_between : bool)
    (added : gmap Z text) : FastDecoder Stream :=
  let spaces := skip_special_tokens || spaces_between in
  mkFast primed (spaces || bool_decide (added = ∅)) added false.

Definition set_stream (x : Stream) (d : FastDecoder Stream) : FastDecoder Stream :=
  mkFast x (fd_spaces_between_special_tokens d) (added_token_ids d) (last_special d).
Definition set_last_special (b : bool) (d : FastDecoder Stream) : FastDecoder Stream :=
  mkFast (stream d) (fd_spaces_between_special_tokens d) (added_token_ids d) b.

Definition step_stream (next_token_id : Z) : M (FastDecoder Stream) (StepError + option text) :=
  d ← get;
  let '(r, x) := stream_step next_token_id (stream d) in
  modify (set_stream x);; mret r.
(** An exception that is not caught; the class of one with the prefix message is not told. *)
Definition reraise {A} (e : StepError) : M (FastDecoder Stream) A :=
  raise (match e with InvalidId e => e | InvalidPrefix => RuntimeError | OtherError e => e end).

Definition _protected_step (next_token_id : Z) : M (FastDecoder Stream) (option text) :=
  r ← step_stream next_token_id;
  match r with
  | inr token => mret token
  | inl (InvalidId _) => mret None
  | inl (OtherError e) => raise e
  | inl InvalidPrefix =>
      modify (set_stream fresh_stream);;
      r' ← step_stream next_token_id;
      match r' with inr token => mret token | inl e => reraise e end
  end.

Definition fast_decode_next (next_token_id : Z) : M (FastDecoder Stream) text :=
  token ← _protected_step next_token_id;
  d ← get;
  token ← (if negb (fd_spaces_between_special_tokens d) then
             let special_token := added_token_ids d !! next_token_id in
             modify (set_last_special (bool_decide (is_Some special_token)));;
             mret (if bool_decide (is_Some special_token) && last_special d then special_token else token)
           else mret token);
  mret (default [] token).

Definition fast_decoder : Decoder (FastDecoder Stream) := {|
  dec_prompt_len := λ _, 0;
  decode_next := λ _ t, fast_decode_next t
|}.
End fast.

(** ** In Python *)

(** The functions of a tokenizer; a list of ids gives a list of tokens, [None] for unknown ids. *)
Record TokenizerLike := {
  tokenizer_len : Z;
  convert_ids_to_tokens : list Z → bool → list (option text);
  convert_tokens_to_string : list text → text;
  is_fast : bool;
  added_vocab : gset text;
  all_special_tokens : gset text;
}.

Record SlowDecoder := mkSlow {
  sd_tokens : list text;
  prefix_offset : Z;
  read_offset : Z;
  sd_prompt_len : Z;
}.

Section slow.
Context (tokenizer : TokenizerLike) (skip_special_tokens spaces_between_special_tokens : bool).

Definition _replace_none_with_empty (tokens : list (option text)) : list text := default [] <$> tokens.

(** One token of the loop; the texts so far and the tokens not yet converted. *)
Definition add_token (acc : list text * list text) (token : text) : list text * list text :=
  let '(sub_texts, current) := acc in
  if skip_special_tokens && bool_decide (token ∈ all_special_tokens tokenizer) then acc
  else if bool_decide (token ∈ added_vocab tokenizer) then
    (sub_texts ++ (if bool_decide (current = []) then [] else [convert_tokens_to_string tokenizer current]) ++ [token], [])
  else (sub_texts, current ++ [token]).
Definition _convert_tokens_to_string_with_added_encoders (output_tokens : list text) : text :=
  let '(sub_texts, current) := foldl add_token ([], []) output_tokens in
  let sub_texts := sub_texts ++ (if bool_decide (current = []) then [] else [convert_tokens_to_string tokenizer current]) in
  py_join (if spaces_between_special_tokens then [32] else []) sub_texts.

Definition INITIAL_INCREMENTAL_DETOKENIZATION_OFFSET : Z := 5.
Definition convert_prompt_ids_to_tokens (prompt_ids : list Z) : list text * Z * Z :=
  let new_tokens := convert_ids_to_tokens tokenizer
    (drop (length prompt_ids - Z.to_nat (INITIAL_INCREMENTAL_DETOKENIZATION_OFFSET + 2)) prompt_ids) skip_special_tokens in
  let read_offset := zlen new_tokens in
  (_replace_none_with_empty new_tokens, Z.max (read_offset - INITIAL_INCREMENTAL_DETOKENIZATION_OFFSET) 0, read_offset).

(** The conversion of the tokens, with or without the detour over the added vocabulary. *)
Definition tokens_to_string (tokens : list text) : text :=
  if is_fast tokenizer || bool_decide (added_vocab tokenizer = ∅) then convert_tokens_to_string tokenizer tokens
  else _convert_tokens_to_string_with_added_encoders tokens.

(** The tokens of a new id. *)
Definition tokens_of_id (new_token_id : Z) : list text :=
  if (0 <=? new_token_id) && (new_token_id <? tokenizer_len tokenizer)
  then _replace_none_with_empty (convert_ids_to_tokens tokenizer [new_token_id] skip_special_tokens)
  else [[]].

(** The new tokens, the new text, and the two offsets. *)
Definition detokenize_incrementally (all_input_ids : list Z) (prev_tokens : option (list text)) (prefix read : Z)
    : exn + (list text * text * Z * Z) :=
  new_token_id ← result_of_option IndexError (last all_input_ids);
  let is_first_iter := bool_decide (prev_tokens = None) in
  let '(prev, prefix, read) := match prev_tokens with
    | Some l => (l, prefix, read)
    | None => convert_prompt_ids_to_tokens (take (pred (length all_input_ids)) all_input_ids)
    end in
  let new_tokens := tokens_of_id new_token_id in
  let output_tokens := prev ++ new_tokens in
  let new_tokens := if is_first_iter then output_tokens else new_tokens in
  let prefix_text := tokens_to_string (py_slice output_tokens prefix read) in
  let new_text := tokens_to_string (drop (Z.to_nat prefix) output_tokens) in
  if (zlen new_text <=? zlen prefix_text) || ends_replaced new_text
  then mret (new_tokens, [], prefix, read)
  else mret (new_tokens, drop (length prefix_text) new_text, read, zlen output_tokens).

Definition SlowIncrementalDetokenizer_init (prompt_token_ids : option (list Z)) (prompt_len : Z) : SlowDecoder :=
  match prompt_token_ids with
  | Some ids => let '(tokens, prefix, read) := convert_prompt_ids_to_tokens ids in mkSlow tokens prefix read prompt_len
  | None => mkSlow (replicate (Z.to_nat prompt_len) []) 0 0 prompt_len
  end.

(** The ids a new detokenizer starts with. *)
Definition slow_prompt_ids (prompt_token_ids : option (list Z)) (prompt_len : Z) : list Z :=
  match prompt_token_ids with
  | Some (i :: ids) => i :: ids
  | _ => replicate (Z.to_nat prompt_len) 0
  end.

Definition slow_decode_next (token_ids : list Z) : M SlowDecoder text :=
  d ← get;
  '(new_tokens, decoded_text, prefix, read) ←
    lift_result (detokenize_incrementally token_ids (Some (sd_tokens d)) (prefix_offset d) (read_offset d));
  modify (λ d, mkSlow (sd_tokens d ++ new_tokens) prefix read (sd_prompt_len d));;
  mret decoded_text.

Definition slow_decoder : Decoder SlowDecoder := {|
  dec_prompt_len := sd_prompt_len;
  decode_next := λ ids _, slow_decode_next ids
|}.
End slow.
