(* ===== verification/DetokenizerFacts.v ===== *)
(** Stop strings and chunks: the stop check against a scan character by character, and [update] on
    several tokens against one token at a time. *)

From S2P Require Import Prelude Request Detokenizer.

Set Warnings "-level-tolerance,-clear-no-such-hyp".

(** ** The stop check *)

(** The stop string that ends at position [e], the first of the list if several do. *)
Definition stop_at (t : text) (stops : list text) (e : nat) : option text :=
  head (filter (λ x, x `suffix_of` take e t) stops).
(** The first position after [o], of [n], where a stop string ends. *)
Fixpoint scan (t : text) (stops : list text) (o n : nat) : option (text * nat) :=
  match n with
  | O => None
  | S n' => match stop_at t stops (S o) with Some x => Some (x, S o) | None => scan t stops (S o) n' end
  end.

Lemma stop_at_app t l l' e : stop_at t (l ++ l') e = match stop_at t l e with Some x => Some x | None => stop_at t l' e end.
Proof. unfold stop_at. rewrite filter_app. by destruct (filter _ l). Qed.

Lemma stop_at_one t x e : stop_at t [x] e = if decide (x `suffix_of` take e t) then Some x else None.
Proof. unfold stop_at. rewrite filter_cons. by case_decide. Qed.

Lemma stop_at_prefix t u l e : (e ≤ length t)%nat → stop_at (t ++ u) l e = stop_at t l e.
Proof. intros He. unfold stop_at. by rewrite take_app_le. Qed.

Lemma scan_first t l o n x e :
  (o < e ≤ o + n)%nat → stop_at t l e = Some x → (∀ e', (o < e' < e)%nat → stop_at t l e' = None) →
  scan t l o n = Some (x, e).
Proof.
  revert o. induction n as [|n IH]; intros o He Hx Hn; [lia|]. simpl.
  destruct (decide (e = S o)) as [->|Hne]; [by rewrite Hx|]. rewrite Hn by lia.
  apply IH; [lia|done|]. intros e' He'. apply Hn. lia.
Qed.
Lemma scan_none t l o n : (∀ e', (o < e' ≤ o + n)%nat → stop_at t l e' = None) → scan t l o n = None.
Proof. revert o. induction n as [|n IH]; intros o Hn; [done|]. simpl. rewrite Hn by lia. apply IH. intros e' He'. apply Hn. lia. Qed.
Lemma scan_bounds t l o n x e : scan t l o n = Some (x, e) → (o < e ≤ o + n)%nat ∧ x ∈ l ∧ x `suffix_of` take e t.
Proof.
  revert o. induction n as [|n IH]; intros o; simpl; [done|]. destruct (stop_at t l (S o)) as [y|] eqn:E.
  - intros [= <- <-]. unfold stop_at in E. split; [lia|]. apply head_Some in E as [r E].
    assert (y ∈ filter (λ x, x `suffix_of` take (S o) t) l) as Hx by (rewrite E; by left).
    apply list_elem_of_filter in Hx. tauto.
  - intros [H ?]%IH. split; [lia|done].
Qed.
Lemma scan_split t l o n m :
  scan t l o (n + m) = match scan t l o n with Some r => Some r | None => scan t l (o + n) m end.
Proof.
  revert o. induction n as [|n IH]; intros o; simpl; [f_equal; lia|].
  destruct (stop_at t l (S o)); [done|]. rewrite IH. by replace (S o + n)%nat with (o + S n)%nat by lia.
Qed.
Lemma scan_prefix t u l o n : (o + n ≤ length t)%nat → scan (t ++ u) l o n = scan t l o n.
Proof.
  revert o. induction n as [|n IH]; intros o H; [done|]. simpl. rewrite stop_at_prefix by lia.
  destruct (stop_at t l (S o)); [done|]. apply IH. lia.
Qed.

(** Where a string begins and where it ends. *)
Lemma occurs_end (t x : text) k :
  (k ≤ length t)%nat → x `prefix_of` drop k t ↔ (k + length x ≤ length t)%nat ∧ x `suffix_of` take (k + length x) t.
Proof.
  intros Hk. split.
  - intros [r E]. assert (length (drop k t) = length (x ++ r)) as El by (by rewrite E). rewrite length_drop, length_app in El.
    split; [lia|]. exists (take k t). rewrite <-(take_drop k t) at 1. rewrite E.
    rewrite take_app_ge, length_take by (rewrite length_take; lia).
    replace (k + length x - k `min` length t)%nat with (length x) by lia. by rewrite take_app_length.
  - intros [Hl [r E]]. exists (drop (k + length x) t).
    assert (length r = k) as Hr.
    { apply (f_equal length) in E. rewrite length_take, length_app in E. lia. }
    rewrite <-(take_drop (k + length x) t) at 1. rewrite E, <-(assoc_L (++)), <-Hr. by rewrite drop_app_length.
Qed.

Lemma find_from_spec s x i :
  (find_from s x i = -1 ∧ ∀ k, (k ≤ length s)%nat → ¬ x `prefix_of` drop k s)
  ∨ ∃ k, find_from s x i = i + Z.of_nat k ∧ (k ≤ length s)%nat ∧ x `prefix_of` drop k s
      ∧ ∀ j, (j < k)%nat → ¬ x `prefix_of` drop j s.
Proof.
  revert i. induction s as [|c s IH]; intros i; cbn [find_from]; case_bool_decide as Hp.
  - right. exists 0%nat. split_and!; [lia|lia|done|lia].
  - left. split; [done|]. intros k _. by rewrite drop_nil.
  - right. exists 0%nat. split_and!; [lia|lia|done|lia].
  - destruct (IH (i + 1)) as [[E H]|(k & E & Hk & H & Hn)].
    + left. split; [done|]. intros [|k] Hk; [done|]. apply H. simpl in Hk. lia.
    + right. exists (S k). split_and!; [lia|simpl; lia|done|]. intros [|j] Hj; [done|]. apply Hn. lia.
Qed.

(** The search of one stop string: the first of its ends after [o]. *)
Lemma stop_find t x o :
  (o < length t)%nat → x ≠ [] →
  let r := py_find t x (1 - (zlen t - Z.of_nat o) - zlen x) in
  (r = -1 ∧ ∀ e, (o < e ≤ length t)%nat → ¬ x `suffix_of` take e t)
  ∨ ∃ e, r = Z.of_nat e - zlen x ∧ 0 ≤ r ∧ (o < e ≤ length t)%nat ∧ x `suffix_of` take e t
      ∧ ∀ e', (o < e' < e)%nat → ¬ x `suffix_of` take e' t.
Proof.
  intros Ho Hx r. subst r. unfold py_find. assert (0 < length x)%nat as Hl by (destruct x; [done|simpl; lia]).
  destruct (Z.ltb_spec (1 - (zlen t - Z.of_nat o) - zlen x) 0) as [_|H]; [|unfold zlen in H; lia].
  set (k0 := (S o - length x)%nat). replace (Z.max 0 _) with (Z.of_nat k0) by (unfold zlen, k0; lia).
  destruct (Z.ltb_spec (zlen t) (Z.of_nat k0)) as [H|_]; [unfold zlen in H; lia|]. rewrite Nat2Z.id.
  assert (∀ k, x `prefix_of` drop k (drop k0 t) ↔ x `prefix_of` drop (k0 + k) t) as Hd by (intros k; by rewrite drop_drop).
  assert (∀ e, (o < e ≤ length t)%nat → x `suffix_of` take e t →
    ∃ k, (k ≤ length (drop k0 t))%nat ∧ e = (k0 + k + length x)%nat ∧ x `prefix_of` drop k (drop k0 t)) as Hend.
  { intros e He Hs. assert (length x ≤ e)%nat as Hle.
    { destruct Hs as [r E]. apply (f_equal length) in E. rewrite length_take, length_app in E. lia. }
    exists (e - length x - k0)%nat. rewrite length_drop, Hd, occurs_end by lia.
    replace (k0 + (e - length x - k0) + length x)%nat with e by lia. split_and!; [lia|lia|lia|done]. }
  destruct (find_from_spec (drop k0 t) x (Z.of_nat k0)) as [[E H]|(k & E & Hk & H & Hn)]; rewrite E.
  - left. split; [done|]. intros e He Hs. destruct (Hend e He Hs) as (k & Hk & _ & Hp). by apply (H k).
  - right. rewrite length_drop in Hk. rewrite Hd, occurs_end in H by lia. destruct H as [Hle Hs].
    exists (k0 + k + length x)%nat. unfold zlen. split_and!; [lia|lia|lia|done|done|].
    intros e' He' Hs'. destruct (Hend e') as (j & Hj & Ej & Hp); [lia|done|]. apply (Hn j); [lia|done].
Qed.

(** The best stop string among those seen. *)
Definition best_ok (t : text) (o : nat) (seen : list text) (best : option text * Z * Z) : Prop :=
  (best = (None, 0, maxsize) ∧ ∀ e, (o < e ≤ length t)%nat → stop_at t seen e = None)
  ∨ ∃ x e, best = (Some x, Z.of_nat e - zlen x, Z.of_nat e) ∧ (o < e ≤ length t)%nat ∧ stop_at t seen e = Some x
      ∧ ∀ e', (o < e' < e)%nat → stop_at t seen e' = None.

Lemma better_stop_ok t o seen best x :
  (o < length t)%nat → zlen t < maxsize → x ≠ [] → best_ok t o seen best →
  best_ok t o (seen ++ [x]) (better_stop t (zlen t - Z.of_nat o) best x).
Proof.
  intros Ho Hm Hx Hb. assert (∀ e, stop_at t (seen ++ [x]) e = match stop_at t seen e with Some y => Some y
    | None => if decide (x `suffix_of` take e t) then Some x else None end) as Happ.
  { intros e. by rewrite stop_at_app, stop_at_one. }
  unfold better_stop. destruct best as [[b i] f].
  destruct (stop_find t x o Ho Hx) as [[E H]|(e & E & H0 & He & Hs & Hn)].
  - rewrite E. simpl. destruct Hb as [[Eb Hb]|(y & e & Eb & He & Hy & Hb)]; [left|right; exists y, e]; split_and!; try done; try lia.
    + intros e He. rewrite Happ, Hb by done. by rewrite decide_False by auto.
    + by rewrite Happ, Hy.
    + intros e' He'. rewrite Happ, Hb by done. rewrite decide_False; [done|]. apply H. lia.
  - destruct (Z.eqb_spec (py_find t x (1 - (zlen t - Z.of_nat o) - zlen x)) (-1)) as [|_]; [lia|].
    replace (py_find _ _ _ + zlen x) with (Z.of_nat e) by lia.
    assert (stop_at t seen e = None → (∀ e', (o < e' < e)%nat → stop_at t seen e' = None) →
      best_ok t o (seen ++ [x]) (Some x, Z.of_nat e - zlen x, Z.of_nat e)) as Hnew.
    { intros Hse Hse'. right. exists x, e. split_and!; try done; try lia; [|].
      - by rewrite Happ, Hse, decide_True.
      - intros e' He'. rewrite Happ, Hse' by done. rewrite decide_False; [done|]. by apply Hn. }
    destruct Hb as [[[= -> -> ->] Hb]|(y & f' & [= -> -> ->] & Hf & Hy & Hb)].
    + destruct (Z.ltb_spec (Z.of_nat e) maxsize) as [_|Hbad]; [|unfold zlen in Hm; lia].
      rewrite E. apply Hnew; [by apply Hb|]. intros e' He'. apply Hb. lia.
    + destruct (Z.ltb_spec (Z.of_nat e) (Z.of_nat f')) as [Hlt|Hge].
      * rewrite E. apply Hnew; [apply Hb; lia|]. intros e' He'. apply Hb. lia.
      * right. exists y, f'. split_and!; try done; try lia; [by rewrite Happ, Hy|].
        intros e' He'. rewrite Happ, Hb by done. rewrite decide_False; [done|]. apply Hn. lia.
Qed.

Lemma check_stop_scan t o stops include :
  (o ≤ length t)%nat → zlen t < maxsize → Forall (λ x, x ≠ []) stops →
  check_stop_strings t (zlen t - Z.of_nat o) stops include
  = match scan t stops o (length t - o) with
    | None => None
    | Some (x, e) => Some (x, if include then if (length t <=? e)%nat then -1 else Z.of_nat e else Z.of_nat e - zlen x)
    end.
Proof.
  intros Ho Hm Hs. unfold check_stop_strings.
  destruct (Z.eqb_spec (zlen t - Z.of_nat o) 0) as [E|Hne]; simpl.
  { replace (length t - o)%nat with 0%nat by (unfold zlen in E; lia). done. }
  case_bool_decide as Es.
  { subst. rewrite scan_none; [done|]. by intros. }
  assert (o < length t)%nat as Ho' by (unfold zlen in Hne; lia).
  assert (∀ l seen best, Forall (λ x, x ≠ []) l → best_ok t o seen best →
    best_ok t o (seen ++ l) (foldl (better_stop t (zlen t - Z.of_nat o)) best l)) as Hfold.
  { intros l. induction l as [|x l IH]; intros seen best Hl Hb; simpl; [by rewrite app_nil_r|].
    apply Forall_cons in Hl as [Hx Hl]. rewrite cons_middle, (assoc_L (++)). apply IH; [done|]. by apply better_stop_ok. }
  destruct (Hfold stops [] (None, 0, maxsize)) as [[E H]|(x & e & E & He & Hx & H)]; [done|by left| |].
  - rewrite E. rewrite scan_none; [done|]. intros e He. apply H. lia.
  - rewrite E. rewrite (scan_first _ _ _ _ x e); [|lia|done|done]. destruct include; [|done].
    f_equal. f_equal. destruct (Z.leb_spec (zlen t) (Z.of_nat e)), (Nat.leb_spec (length t) e); unfold zlen in *; (done || lia).
Qed.

(** ** Updates *)

(** The decoder never raises and does not change the length of the prompt. *)
Class DecoderLaws (D : Type) `{Decoder D} := {
  decode_total ids t d : ∃ x d', decode_next (ids ++ [t]) t d = (inr x, d') ∧ dec_prompt_len d' = dec_prompt_len d;
}.

Section update.
Context {D : Type} `{DC : Decoder D} `{DL : !DecoderLaws D}.
Implicit Types (s : Detokenizer D) (ts : list Z).

(** A token appended and decoded. *)
Definition feed s (t : Z) : Detokenizer D :=
  let ids := dt_token_ids s ++ [t] in
  let '(r, d) := decode_next ids t (dt_decoder s) in
  mkDetok ids (dt_stop s) (dt_min_tokens s) (include_stop_str_in_output s) (stop_buffer_length s)
    (_last_output_text_offset s) (output_text s ++ match r with inr x => x | inl _ => [] end) d.
Definition feeds s ts : Detokenizer D := foldl feed s ts.

(** Tokens that do not reach the minimum are not searched. *)
Definition exempt s : bool := negb (dt_min_tokens s =? 0) && (num_output_tokens s <=? dt_min_tokens s).
Fixpoint check_offset (o : nat) s ts : nat :=
  match ts with
  | [] => o
  | t :: ts' => check_offset (if exempt (feed s t) then length (output_text (feed s t)) else o) (feed s t) ts'
  end.

Lemma feed_facts s t :
  dt_stop (feed s t) = dt_stop s ∧ dt_min_tokens (feed s t) = dt_min_tokens s
  ∧ include_stop_str_in_output (feed s t) = include_stop_str_in_output s
  ∧ stop_buffer_length (feed s t) = stop_buffer_length s
  ∧ _last_output_text_offset (feed s t) = _last_output_text_offset s
  ∧ num_output_tokens (feed s t) = num_output_tokens s + 1
  ∧ output_text s `prefix_of` output_text (feed s t).
Proof using DL.
  unfold feed. destruct (decode_total (dt_token_ids s) t (dt_decoder s)) as (x & d & E & Hp). rewrite E. simpl.
  split_and!; try done; [|by exists x]. unfold num_output_tokens. simpl. rewrite Hp, zlen_app. change (zlen [t]) with 1. lia.
Qed.
Lemma feeds_facts s ts :
  dt_stop (feeds s ts) = dt_stop s ∧ dt_min_tokens (feeds s ts) = dt_min_tokens s
  ∧ include_stop_str_in_output (feeds s ts) = include_stop_str_in_output s
  ∧ stop_buffer_length (feeds s ts) = stop_buffer_length s
  ∧ _last_output_text_offset (feeds s ts) = _last_output_text_offset s
  ∧ num_output_tokens (feeds s ts) = num_output_tokens s + zlen ts
  ∧ output_text s `prefix_of` output_text (feeds s ts).
Proof using DL.
  revert s. induction ts as [|t ts IH]; intros s; simpl; [rewrite zlen_nil; split_and!; (done || lia)|].
  destruct (IH (feed s t)) as (-> & -> & -> & -> & -> & -> & Hp). destruct (feed_facts s t) as (-> & -> & -> & -> & -> & -> & Hp').
  rewrite zlen_cons. split_and!; try done; [lia|]. by transitivity (output_text (feed s t)).
Qed.

Lemma feed_token_run (o : nat) t s :
  feed_token (Z.of_nat o) t s = (inr (Z.of_nat (if exempt (feed s t) then length (output_text (feed s t)) else o)), feed s t).
Proof using DL.
  destruct (decode_total (dt_token_ids s) t (dt_decoder s)) as (x & d & E & Hp).
  unfold feed_token, feed, exempt, zoom, modify, get, mbind, M_bind, mret, M_ret. simpl. rewrite E. simpl.
  by destruct (_ && _).
Qed.
Lemma feed_loop_run (o : nat) ts s :
  fold_each ts feed_token (Z.of_nat o) s = (inr (Z.of_nat (check_offset o s ts)), feeds s ts).
Proof using DL.
  revert o s. induction ts as [|t ts IH]; intros o s; [done|]. cbn [fold_each check_offset]. unfold mbind, M_bind.
  rewrite feed_token_run. apply IH.
Qed.

Lemma check_offset_bounds o s ts :
  (o ≤ length (output_text s))%nat →
  (o ≤ check_offset o s ts ≤ length (output_text (feeds s ts)))%nat.
Proof using DL.
  revert o s. induction ts as [|t ts IH]; intros o s Ho; simpl; [lia|].
  destruct (feed_facts s t) as (_ & _ & _ & _ & _ & _ & Hp). apply prefix_length in Hp.
  destruct (exempt (feed s t)).
  - destruct (IH (length (output_text (feed s t))) (feed s t)); lia.
  - destruct (IH o (feed s t)); lia.
Qed.

(** Once the minimum is passed nothing is exempt. *)
Lemma check_offset_past o s ts : dt_min_tokens s ≤ num_output_tokens s → check_offset o s ts = o.
Proof using DL.
  revert o s. induction ts as [|t ts IH]; intros o s Hm; simpl; [done|].
  destruct (feed_facts s t) as (_ & Em & _ & _ & _ & En & _). rewrite IH by lia.
  unfold exempt. rewrite Em, En. rewrite (proj2 (Z.leb_gt _ _)) by lia. by rewrite andb_false_r.
Qed.
(** When the last token is exempt, so is all the text. *)
Lemma check_offset_last o s ts :
  0 ≤ num_output_tokens s → ts ≠ [] → num_output_tokens (feeds s ts) ≤ dt_min_tokens s →
  check_offset o s ts = length (output_text (feeds s ts)).
Proof using DL.
  revert o s. induction ts as [|t ts IH]; intros o s Hn Hts Hm; [done|]. simpl in *.
  destruct (feed_facts s t) as (_ & Em & _ & _ & _ & En & _).
  destruct (feeds_facts (feed s t) ts) as (_ & _ & _ & _ & _ & En' & _). pose proof (zlen_nonneg ts) as Hz.
  assert (exempt (feed s t) = true) as ->.
  { unfold exempt. rewrite Em, En. rewrite (proj2 (Z.eqb_neq _ _)), (proj2 (Z.leb_le _ _)) by lia. done. }
  destruct ts as [|t' ts]; [done|]. apply IH; [lia|done|lia].
Qed.
(** The first offset is forgotten when the first token is exempt. *)
Lemma check_offset_forget o o' s t ts :
  0 ≤ num_output_tokens s → num_output_tokens s < dt_min_tokens s → check_offset o s (t :: ts) = check_offset o' s (t :: ts).
Proof using DL.
  intros Hn Hm. simpl. destruct (feed_facts s t) as (_ & Em & _ & _ & _ & En & _).
  assert (exempt (feed s t) = true) as ->; [|done].
  unfold exempt. rewrite Em, En. rewrite (proj2 (Z.eqb_neq _ _)), (proj2 (Z.leb_le _ _)) by lia. done.
Qed.

(** What the stop check finds after offset [o], and what it leaves. *)
Definition verdict s (o : nat) : option (text * nat) :=
  if negb (bool_decide (dt_stop s = [])) && (dt_min_tokens s <? num_output_tokens s)
  then scan (output_text s) (dt_stop s) o (length (output_text s) - o) else None.
Definition cut (include : bool) (x : text) (e : nat) : nat := if include then e else (e - length x)%nat.
Definition settle s (v : option (text * nat)) : Detokenizer D :=
  match v with
  | None => s
  | Some (x, e) => set_output_text (take (cut (include_stop_str_in_output s) x e) (output_text s)) s
  end.

Lemma evaluate_run s (o : nat) :
  (o ≤ length (output_text s))%nat → zlen (output_text s) < maxsize → Forall (λ x, x ≠ []) (dt_stop s) →
  evaluate_stop (Z.of_nat o) s = (inr (fst <$> verdict s o), settle s (verdict s o)).
Proof.
  intros Ho Hm Hs. unfold evaluate_stop, verdict, get, modify, when, mbind, M_bind, mret, M_ret. simpl.
  destruct (_ && _); [|done]. rewrite check_stop_scan by done.
  destruct (scan (output_text s) (dt_stop s) o (length (output_text s) - o)) as [[x e]|] eqn:E; [|done].
  apply scan_bounds in E as (He & Hx & r & Er). apply (f_equal length) in Er. rewrite length_take, length_app in Er.
  unfold settle, cut, py_prefix. destruct (include_stop_str_in_output s) eqn:Ei.
  - destruct (Nat.leb_spec (length (output_text s)) e) as [Hle|Hlt]; simpl.
    + rewrite take_ge by lia. by destruct s.
    + rewrite (proj2 (Z.eqb_neq _ _)), (proj2 (Z.ltb_ge _ _)), Nat2Z.id by lia. done.
  - simpl. rewrite (proj2 (Z.eqb_neq _ _)), (proj2 (Z.ltb_ge _ _)) by (unfold zlen; lia).
    replace (Z.to_nat (Z.of_nat e - zlen x)) with (e - length x)%nat by (unfold zlen; lia). done.
Qed.

(** The tokens that are decoded, and the state once all are recorded. *)
Definition decoded_ids s ts (st : bool) : list Z :=
  if st && negb (include_stop_str_in_output s) then take (pred (length ts)) ts else ts.
Definition skipped_ids s ts (st : bool) : list Z :=
  if st && negb (include_stop_str_in_output s) then drop (pred (length ts)) ts else [].
Definition fed s ts st : Detokenizer D :=
  let s' := feeds s (decoded_ids s ts st) in set_token_ids (dt_token_ids s' ++ skipped_ids s ts st) s'.
(** What [update] returns and leaves. *)
Definition final s ts st : option (text * nat) :=
  verdict (fed s ts st) (check_offset (length (output_text s)) s (decoded_ids s ts st)).

Lemma decoded_skipped s ts st : decoded_ids s ts st ++ skipped_ids s ts st = ts.
Proof. unfold decoded_ids, skipped_ids. destruct (_ && _); [apply take_drop|apply app_nil_r]. Qed.

Lemma feeds_app s a b : feeds s (a ++ b) = feeds (feeds s a) b.
Proof. apply foldl_app. Qed.
Lemma check_offset_app o s a b : check_offset o s (a ++ b) = check_offset (check_offset o s a) (feeds s a) b.
Proof. revert o s. induction a as [|t a IH]; intros o s; [done|]. simpl. apply IH. Qed.

Lemma fed_facts s ts st :
  dt_stop (fed s ts st) = dt_stop s ∧ dt_min_tokens (fed s ts st) = dt_min_tokens s
  ∧ include_stop_str_in_output (fed s ts st) = include_stop_str_in_output s
  ∧ num_output_tokens (fed s ts st) = num_output_tokens s + zlen ts
  ∧ output_text (fed s ts st) = output_text (feeds s (decoded_ids s ts st))
  ∧ output_text s `prefix_of` output_text (fed s ts st)
  ∧ output_text (fed s ts st) `prefix_of` output_text (feeds s ts)
  ∧ _last_output_text_offset (fed s ts st) = _last_output_text_offset s
  ∧ stop_buffer_length (fed s ts st) = stop_buffer_length s.
Proof using DL.
  destruct (feeds_facts s (decoded_ids s ts st)) as (E1 & E2 & E3 & E4 & E5 & E6 & E7). unfold fed. simpl. split_and!; try done.
  - assert (zlen ts = zlen (decoded_ids s ts st) + zlen (skipped_ids s ts st)) as Hz.
    { rewrite <-(decoded_skipped s ts st) at 1. apply zlen_app. }
    unfold num_output_tokens in *. simpl. rewrite zlen_app. lia.
  - rewrite <-(decoded_skipped s ts st) at 2. rewrite feeds_app. apply feeds_facts.
Qed.

Lemma update_run s ts st :
  ts ≠ [] → zlen (output_text (feeds s ts)) < maxsize → Forall (λ x, x ≠ []) (dt_stop s) →
  dt_update ts st s = (inr (fst <$> final s ts st), settle (fed s ts st) (final s ts st)).
Proof using DL.
  intros Hts Hm Hs. unfold dt_update. rewrite bool_decide_eq_false_2 by done.
  destruct (fed_facts s ts st) as (F1 & _ & _ & _ & F5 & _ & F7 & _ & _). apply prefix_length in F7.
  unfold get, mbind, M_bind. fold (decoded_ids s ts st). change (zlen (output_text s)) with (Z.of_nat (length (output_text s))).
  rewrite feed_loop_run. destruct (check_offset_bounds (length (output_text s)) s (decoded_ids s ts st)) as [_ Ho]; [lia|].
  assert (when (st && negb (include_stop_str_in_output s)) (modify (λ s0, set_token_ids (dt_token_ids s0 ++ drop (pred (length ts)) ts) s0))
    (feeds s (decoded_ids s ts st)) = (inr tt, fed s ts st)) as ->.
  { unfold when, fed, skipped_ids, modify, mret, M_ret. cbn zeta.
    generalize (feeds s (decoded_ids s ts st)). intros x. destruct (st && _); [done|]. rewrite app_nil_r. by destruct x. }
  rewrite <-F5 in Ho. unfold zlen in Hm. apply evaluate_run; [done|unfold zlen; lia|by rewrite F1].
Qed.

Lemma settle_text s v : output_text (settle s v) = match v with None => output_text s
  | Some (x, e) => take (cut (include_stop_str_in_output s) x e) (output_text s) end.
Proof. by destruct v as [[x e]|]. Qed.

(** Two chunks: the second is looked at only when the first has no stop string, and then the
    result is that of both at once. *)
Lemma final_app s a b st :
  0 ≤ num_output_tokens s → a ≠ [] → b ≠ [] →
  fed s (a ++ b) st = fed (feeds s a) b st
  ∧ match final s a false with
    | None => final s (a ++ b) st = final (feeds s a) b st
    | Some r => final s (a ++ b) st = Some r
        ∧ output_text (settle (fed s (a ++ b) st) (Some r)) = output_text (settle (feeds s a) (Some r))
    end.
Proof using DL.
  intros Hn Ha Hb. set (s1 := feeds s a). destruct (feeds_facts s a) as (E1 & E2 & E3 & _ & _ & E6 & _). fold s1 in E1, E2, E3, E6.
  assert (decoded_ids s (a ++ b) st = a ++ decoded_ids s1 b st ∧ skipped_ids s (a ++ b) st = skipped_ids s1 b st) as [Ed Es].
  { unfold decoded_ids, skipped_ids. rewrite E3. destruct (_ && _); [|done]. rewrite length_app.
    assert (pred (length a + length b) = length a + pred (length b))%nat as -> by (destruct b; [done|simpl; lia]).
    by rewrite take_app_add, drop_app_add. }
  assert (fed s (a ++ b) st = fed s1 b st) as Ef by (unfold fed; rewrite Ed, Es, feeds_app; done).
  split; [done|]. set (oa := check_offset (length (output_text s)) s a).
  assert (final s (a ++ b) st = verdict (fed s1 b st) (check_offset oa s1 (decoded_ids s1 b st))) as ->.
  { unfold final. by rewrite Ef, Ed, check_offset_app. }
  assert (fed s a false = s1) as Efa.
  { unfold fed, decoded_ids, skipped_ids. simpl. rewrite app_nil_r. fold s1. by destruct s1. }
  assert (final s a false = verdict s1 oa) as -> by (unfold final; rewrite Efa; done).
  destruct (fed_facts s1 b st) as (F1 & F2 & F3 & F4 & F5 & F6 & _). pose proof (zlen_nonneg b) as Hzb.
  destruct (Z.le_gt_cases (num_output_tokens s1) (dt_min_tokens s1)) as [Hle|Hgt].
  - assert (verdict s1 oa = None) as ->.
    { unfold verdict. rewrite (proj2 (Z.ltb_ge _ _)) by lia. by rewrite andb_false_r. }
    unfold final. assert (oa = length (output_text s1)) as ->; [|done]. apply check_offset_last; [done|done|]. fold s1. lia.
  - rewrite check_offset_past by lia. unfold final. rewrite check_offset_past by lia. unfold verdict.
    rewrite F1, F2, (proj2 (Z.ltb_lt (dt_min_tokens s1) (num_output_tokens s1))) by lia.
    rewrite (proj2 (Z.ltb_lt (dt_min_tokens s1) (num_output_tokens (fed s1 b st)))) by lia.
    destruct (negb _); [|done]. cbn [andb]. destruct F6 as [u Eu].
    destruct (check_offset_bounds (length (output_text s)) s a) as [_ Hoa]; [lia|]. fold oa s1 in Hoa.
    rewrite Eu, length_app.
    replace (length (output_text s1) + length u - oa)%nat with ((length (output_text s1) - oa) + length u)%nat by lia.
    rewrite scan_split, scan_prefix by lia.
    replace (oa + (length (output_text s1) - oa))%nat with (length (output_text s1)) by lia.
    replace (length (output_text s1) + length u - length (output_text s1))%nat with (length u) by lia.
    destruct (scan (output_text s1) (dt_stop s1) oa (length (output_text s1) - oa)) as [[x e]|] eqn:Esc; [|done].
    split; [done|]. rewrite !settle_text, Ef, F3, Eu. apply scan_bounds in Esc as (He & _ & _).
    rewrite take_app_le; [done|]. unfold cut. destruct (include_stop_str_in_output s1); lia.
Qed.
End update.
