(* ===== verification/DetokenizerTheorems.v ===== *)
(** The text a client receives: it does not depend on how the tokens were grouped into steps, the
    streamed pieces add up to it, and it is the decoding of all tokens at once. *)

From S2P Require Import Prelude Request Detokenizer DetokenizerFacts.

Set Warnings "-level-tolerance,-clear-no-such-hyp".

(** The stop check finds the stop string a reader would meet first who goes through the new
    characters one by one, the first of the list if two end at the same character, and cuts the
    text before it, or after it when it is to be included. *)
Theorem stop_check_is_scan t o stops include :
  (o ≤ length t)%nat → zlen t < maxsize → Forall (λ x, x ≠ []) stops →
  check_stop_strings t (zlen t - Z.of_nat o) stops include
  = match scan t stops o (length t - o) with
    | None => None
    | Some (x, e) => Some (x, if include then if (length t <=? e)%nat then -1 else Z.of_nat e else Z.of_nat e - zlen x)
    end.
Proof. apply check_stop_scan. Qed.

Section chunks.
Context {D : Type} `{DC : Decoder D} `{DL : !DecoderLaws D}.
Implicit Types (s : Detokenizer D) (ts : list Z).

(** One call of [update] per token, until a stop string is found. *)
Fixpoint update_each ts (st : bool) : M (Detokenizer D) (option text) :=
  match ts with
  | [] => mret None
  | t :: ts' =>
      if bool_decide (ts' = []) then dt_update [t] st
      else r ← dt_update [t] false; match r with Some x => mret (Some x) | None => update_each ts' st end
  end.

(** Calls of [update] can be made on this state with these tokens. *)
Record usable s ts : Prop := {
  us_num : 0 ≤ num_output_tokens s;
  us_stop : Forall (λ x, x ≠ []) (dt_stop s);
  us_len : zlen (output_text (feeds s ts)) < maxsize;
}.

Lemma usable_app s a b : usable s (a ++ b) → usable s a ∧ usable (feeds s a) b.
Proof using DL.
  intros [U1 U2 U3]. rewrite feeds_app in U3. destruct (feeds_facts s a) as (E1 & _ & _ & _ & _ & E6 & _).
  destruct (feeds_facts (feeds s a) b) as (_ & _ & _ & _ & _ & _ & Hp). apply prefix_length in Hp.
  pose proof (zlen_nonneg a). unfold zlen in U3. split; split; try done; [unfold zlen; lia|lia|by rewrite E1].
Qed.

Lemma fed_plain s ts : fed s ts false = feeds s ts.
Proof. unfold fed, decoded_ids, skipped_ids. simpl. rewrite app_nil_r. by destruct (feeds s ts). Qed.

(** [update] on the first tokens, then on the others. *)
Lemma update_two s a b st :
  usable s (a ++ b) → a ≠ [] → b ≠ [] →
  (dt_update a false s = (inr None, feeds s a) ∧ dt_update (a ++ b) st s = dt_update b st (feeds s a))
  ∨ ∃ x s1 s2, dt_update a false s = (inr (Some x), s1) ∧ dt_update (a ++ b) st s = (inr (Some x), s2)
      ∧ output_text s1 = output_text s2 ∧ s1 = settle (fed s a false) (final s a false).
Proof using DL.
  intros U Ha Hb. destruct (usable_app s a b U) as [Ua Ub].
  assert (a ++ b ≠ []) as Hab by (by destruct a).
  rewrite (update_run s a false Ha (us_len _ _ Ua) (us_stop _ _ Ua)), (update_run s (a ++ b) st Hab (us_len _ _ U) (us_stop _ _ U)).
  rewrite (update_run (feeds s a) b st Hb (us_len _ _ Ub) (us_stop _ _ Ub)).
  destruct (final_app s a b st (us_num _ _ U) Ha Hb) as [Ef H]. rewrite Ef in *. rewrite !fed_plain.
  destruct (final s a false) as [[x e]|] eqn:E.
  - right. destruct H as [-> H]. eexists x, _, _. split_and!; [done|done| |done]. by symmetry.
  - left. split; [done|]. by rewrite H.
Qed.

(** C22: Processing several tokens in one call gives the stop string and the text of processing
    them one at a time, also with a minimum number of tokens and a final stop token; without a
    stop string the whole state is the same. *)
Theorem update_batch_is_sequential s ts st :
  usable s ts → ts ≠ [] →
  ∃ r s1 s2, dt_update ts st s = (inr r, s1) ∧ update_each ts st s = (inr r, s2)
    ∧ output_text s1 = output_text s2 ∧ (r = None → s1 = s2).
Proof using DL.
  revert s. induction ts as [|t ts IH]; intros s U Hts; [done|]. cbn [update_each]. case_bool_decide as E.
  { subst. rewrite (update_run s [t] st) by (done || apply U). by eexists _, _, _. }
  change (t :: ts) with ([t] ++ ts) in U |- *. destruct (usable_app s [t] ts U) as [_ U'].
  destruct (update_two s [t] ts st U) as [[E1 E2]|(x & s1 & s2 & E1 & E2 & Ht & _)]; [done|done| |].
  - unfold mbind, M_bind. rewrite E1, E2. by apply IH.
  - unfold mbind, M_bind. rewrite E1, E2. by eexists _, _, _.
Qed.

(** ** Streaming *)

(** The client reads the new text after every chunk but the last, and the rest when the request
    has finished. *)
Fixpoint stream_deltas (chunks : list (list Z)) (last_chunk : list Z) (st : bool) : M (Detokenizer D) (list text) :=
  match chunks with
  | [] => dt_update last_chunk st;; x ← get_next_output_text true true; mret [x]
  | c :: chunks' =>
      r ← dt_update c false;
      match r with
      | Some _ => x ← get_next_output_text true true; mret [x]
      | None => x ← get_next_output_text false true; xs ← stream_deltas chunks' last_chunk st; mret (x :: xs)
      end
  end.

(** The text that was streamed leaves out what a stop string can still take back. *)
Record streamable s : Prop := {
  sm_buffer : stop_buffer_length s
    = if negb (bool_decide (dt_stop s = [])) && negb (include_stop_str_in_output s) then max_stop_len (dt_stop s) - 1 else 0;
  sm_offset : 0 ≤ _last_output_text_offset s ≤ Z.max 0 (zlen (output_text s) - stop_buffer_length s);
}.
Definition streamed s : text := take (Z.to_nat (_last_output_text_offset s)) (output_text s).

Lemma max_stop_len_elem (l : list text) x : x ∈ l → zlen x ≤ max_stop_len l.
Proof. induction l as [|y l IH]; simpl; [by intros ?%elem_of_nil|]. intros [->|H%IH]%elem_of_cons; lia. Qed.
Lemma buffer_nonneg s : Forall (λ x, x ≠ []) (dt_stop s) → streamable s → 0 ≤ stop_buffer_length s.
Proof.
  intros Hs [Eb _]. rewrite Eb. destruct (dt_stop s) as [|x l]; [done|]. apply Forall_cons in Hs as [Hx _].
  destruct (_ && _); [|done]. pose proof (max_stop_len_elem (x :: l) x ltac:(by left)) as H.
  destruct x; [done|]. rewrite zlen_cons in H. pose proof (zlen_nonneg x). lia.
Qed.

(** A stop string never reaches into the streamed text. *)
Lemma streamed_kept s ts st :
  usable s ts → streamable s →
  let s1 := settle (fed s ts st) (final s ts st) in
  _last_output_text_offset s1 = _last_output_text_offset s ∧ _last_output_text_offset s ≤ zlen (output_text s1)
  ∧ streamed s1 = streamed s.
Proof using DL.
  intros U SM s1. pose proof (buffer_nonneg s (us_stop _ _ U) SM) as Hbuf. destruct SM as [Eb Ho].
  destruct (fed_facts s ts st) as (F1 & F2 & F3 & F4 & F5 & [u F6] & _ & F8 & _).
  set (o := Z.to_nat (_last_output_text_offset s)). assert (o ≤ length (output_text s))%nat as Hol by (unfold o, zlen in *; lia).
  assert (_last_output_text_offset s1 = _last_output_text_offset s) as E0.
  { unfold s1. rewrite <-F8. by destruct (final s ts st) as [[x e]|]. }
  assert (o ≤ length (output_text s1) ∧ take o (output_text s1) = take o (output_text s))%nat as [H1 H2].
  { unfold s1. rewrite settle_text. destruct (final s ts st) as [[x e]|] eqn:E.
    - unfold final, verdict in E. destruct (negb (bool_decide (dt_stop (fed s ts st) = [])) && _) eqn:Ec; [|done]. apply andb_true_iff in Ec as [Ec _]. rewrite F1 in E, Ec.
      apply scan_bounds in E as (He & Hx & _). apply max_stop_len_elem in Hx.
      destruct (check_offset_bounds (length (output_text s)) s (decoded_ids s ts st)) as [Hlo _]; [lia|].
      assert (o ≤ cut (include_stop_str_in_output s) x e)%nat as Hcut.
      { unfold cut. rewrite Ec in Eb. simpl in Eb. destruct (include_stop_str_in_output s); simpl in Eb; unfold o, zlen in *; lia. }
      rewrite F3, length_take, take_take, (min_l _ _ Hcut), F6, length_app, take_app_le by lia. split; [lia|done].
    - rewrite F6, length_app, take_app_le by lia. split; [lia|done]. }
  split_and!; [done|unfold o, zlen in *; lia|]. unfold streamed. by rewrite E0.
Qed.

(** Reading the rest of the text. *)
Lemma read_rest s :
  0 ≤ _last_output_text_offset s ≤ zlen (output_text s) →
  wp (get_next_output_text true true) (λ x s', streamed s ++ x = output_text s ∧ output_text s' = output_text s) s.
Proof.
  intros Ho. unfold get_next_output_text, streamed. wp_steps. cbn [negb]. cbv zeta. rewrite Z.sub_0_r.
  destruct (Z.ltb_spec (_last_output_text_offset s) (zlen (output_text s))) as [Hlt|Hge]; wp_steps; (split; [|done]).
  - unfold py_slice. rewrite (take_ge (drop _ _)); [apply take_drop|]. rewrite length_drop. unfold zlen. lia.
  - rewrite app_nil_r, take_ge; [done|]. unfold zlen in *. lia.
Qed.

(** Reading what may be streamed. *)
Lemma read_some s :
  Forall (λ x, x ≠ []) (dt_stop s) → streamable s →
  wp (get_next_output_text false true) (λ x s', ∃ n, s' = set_last_offset n s ∧ streamed s ++ x = streamed s' ∧ streamable s') s.
Proof.
  intros Hs SM. pose proof (buffer_nonneg s Hs SM) as Hbuf. destruct SM as [Eb Ho].
  unfold get_next_output_text. wp_steps. cbn [negb]. cbv zeta.
  destruct (Z.ltb_spec (_last_output_text_offset s) (zlen (output_text s) - stop_buffer_length s)) as [Hlt|Hge]; wp_steps.
  - eexists. split; [done|]. split; [|split; [done|simpl; lia]]. unfold streamed, py_slice. simpl.
    set (a := Z.to_nat (_last_output_text_offset s)). set (b := Z.to_nat (zlen (output_text s) - stop_buffer_length s)).
    replace b with (a + (b - a))%nat by (unfold a, b; lia). rewrite <-take_take_drop. do 2 f_equal. lia.
  - exists (_last_output_text_offset s). rewrite app_nil_r. split; [by destruct s|]. split; [done|by split].
Qed.

(** What was streamed has no effect on the updates. *)
Lemma feeds_offset n s ts : feeds (set_last_offset n s) ts = set_last_offset n (feeds s ts).
Proof.
  revert s. induction ts as [|t ts IH]; intros s; [done|]. simpl. rewrite <-IH. f_equal.
  unfold feed. simpl. by destruct (decode_next _ _ _).
Qed.
Lemma check_offset_offset n o s ts : check_offset o (set_last_offset n s) ts = check_offset o s ts.
Proof.
  revert o s. induction ts as [|t ts IH]; intros o s; [done|]. simpl.
  pose proof (feeds_offset n s [t]) as E. simpl in E. rewrite E. apply IH.
Qed.
Lemma final_offset n s ts st :
  final (set_last_offset n s) ts st = final s ts st
  ∧ output_text (settle (fed (set_last_offset n s) ts st) (final s ts st)) = output_text (settle (fed s ts st) (final s ts st)).
Proof.
  assert (fed (set_last_offset n s) ts st = set_last_offset n (fed s ts st)) as E.
  { unfold fed, decoded_ids, skipped_ids. simpl. by rewrite feeds_offset. }
  split; [|rewrite E; by destruct (final s ts st) as [[x e]|]]. unfold final. rewrite E. unfold decoded_ids. simpl.
  by rewrite check_offset_offset.
Qed.

Lemma stream_deltas_spec chunks last_chunk st s :
  usable s (concat chunks ++ last_chunk) → streamable s → last_chunk ≠ [] →
  wp (stream_deltas chunks last_chunk st) (λ xs s', streamed s ++ concat xs = output_text s'
    ∧ output_text s' = output_text (settle (fed s (concat chunks ++ last_chunk) st) (final s (concat chunks ++ last_chunk) st))) s.
Proof using DL.
  intros U SM Hl. revert s U SM. induction chunks as [|c chunks IH]; intros s U SM; cbn [concat] in U |- *; cbn [stream_deltas].
  - wp_steps. eexists _, _. split; [apply update_run; [done|apply U|apply U]|]. wp_steps.
    destruct (streamed_kept s last_chunk st U SM) as (E1 & E2 & E3). pose proof (sm_offset _ SM) as Ho.
    eapply wp_mono; [apply read_rest; rewrite E1; lia|]. intros x s' [Hx Ht]. wp_steps. simpl.
    by rewrite app_nil_r, <-E3, Ht.
  - rewrite <-(assoc_L (++)) in U |- *. set (rest := concat chunks ++ last_chunk) in *.
    assert (rest ≠ []) as Hrest by (unfold rest; by intros [_ ?]%app_eq_nil).
    destruct c as [|t c].
    { unfold dt_update at 1. wp_steps. simpl. wp_steps. eapply wp_mono; [by apply read_some; [apply U|]|]. simpl.
      intros x s' (n & -> & Hx & SM'). wp_steps. destruct U as [U1 U2 U3].
      eapply wp_mono; [apply IH; [split; try done; by rewrite feeds_offset|done]|]. intros xs s' [H1 H2]. wp_steps.
      destruct (final_offset n s rest st) as [Ef Et]. simpl. rewrite (assoc_L (++)), Hx. split; [done|]. by rewrite H2, Ef. }
    set (a := t :: c) in *. destruct (usable_app s a rest U) as [Ua Ub].
    pose proof (streamed_kept s a false Ua SM) as (E1 & E2 & E3). destruct (sm_offset _ SM) as [Ho _].
    destruct (final_app s a rest st (us_num _ _ U)) as [Ef H]; [done|done|]. rewrite Ef.
    wp_steps. eexists _, _. split; [apply update_run; [done|apply Ua|apply Ua]|].
    destruct (final s a false) as [[x e]|] eqn:Efin.
    + destruct H as [-> H]. cbn [fmap option_fmap option_map fst]. wp_steps.
      eapply wp_mono; [apply read_rest; rewrite E1; lia|]. intros y s' [Hy Ht]. wp_steps. simpl. rewrite app_nil_r, <-E3, Hy, Ht.
      split; [done|]. rewrite Ef in H. rewrite fed_plain. exact (eq_sym H).
    + rewrite H. cbn [fmap option_fmap option_map settle]. rewrite fed_plain in *. simpl in E1, E2, E3.
      destruct (feeds_facts s a) as (G1 & _ & G3 & G4 & G5 & _ & G7). apply prefix_length in G7.
      assert (streamable (feeds s a)) as SM1.
      { destruct SM as [Eb Hof]. split; rewrite ?G1, ?G3, ?G4, ?G5; [done|]. unfold zlen in *. lia. }
      wp_steps. eapply wp_mono; [apply read_some; [apply Ub|done]|]. simpl. intros y s' (n & -> & Hy & SM2). wp_steps.
      destruct Ub as [B1 B2 B3]. eapply wp_mono; [apply IH; [split; try done; by rewrite feeds_offset|done]|].
      intros xs s' [H1 H2]. wp_steps. destruct (final_offset n (feeds s a) rest st) as [En Et]. simpl.
      rewrite (assoc_L (++)), <-E3, Hy. split; [done|]. rewrite H2. refine (eq_trans _ Et).
      apply (f_equal (λ v, output_text (settle _ v))). exact En.
Qed.

(** C21: The pieces streamed to a client, whatever the chunks in which the tokens arrive, add up
    to the final text of the request, and that is the text one call with all the tokens gives:
    nothing that a stop string takes back was sent before. *)
Theorem stream_deltas_text chunks last_chunk st stop min_tokens include ids d :
  let s := BaseIncrementalDetokenizer_init stop min_tokens include ids d in
  dec_prompt_len d ≤ zlen ids → Forall (λ x, x ≠ []) (dt_stop s) →
  zlen (output_text (feeds s (concat chunks ++ last_chunk))) < maxsize → last_chunk ≠ [] →
  wp (stream_deltas chunks last_chunk st) (λ xs s', concat xs = output_text s'
    ∧ wp (dt_update (concat chunks ++ last_chunk) st) (λ _ s1, output_text s1 = output_text s') s) s.
Proof using DL.
  intros s Hd Hs Hm Hl. assert (usable s (concat chunks ++ last_chunk)) as U.
  { split; [unfold s, num_output_tokens; simpl; lia|done|done]. }
  assert (streamable s) as SM by (split; [done|simpl; lia]).
  eapply wp_mono; [by apply stream_deltas_spec|]. simpl. intros xs s' [H1 H2]. split; [exact H1|].
  eexists _, _. split; [apply update_run; [by intros [_ ?]%app_eq_nil|done|done]|]. by rewrite H2.
Qed.
End chunks.

(** ** Decoding with a stream *)

Section fast.
Context {Stream : Type} (stream_step : Z → Stream → (StepError + option text) * Stream) (fresh_stream : Stream).
(** The stream fails only for an invalid id or with the prefix error, and a new stream accepts
    any token. *)
Context (Hstep : ∀ t x e, (stream_step t x).1 ≠ inl (OtherError e)).
Context (Hfresh : ∀ t, ∃ r, (stream_step t fresh_stream).1 = inr r).
#[local] Instance fast_dec : Decoder (FastDecoder Stream) := fast_decoder stream_step fresh_stream.

#[local] Instance fast_laws : DecoderLaws (FastDecoder Stream).
Proof using Hstep Hfresh.
  split. intros ids t d. simpl. unfold fast_decode_next.
  assert (∃ x d', _protected_step stream_step fresh_stream t d = (inr x, d')) as (x & d' & E).
  { unfold _protected_step, step_stream, get, modify, mbind, M_bind, mret, M_ret.
    specialize (Hstep t (stream d)). destruct (stream_step t (stream d)) as [[[e| |e]|r] y]; simpl in *; [by eexists _, _| |by destruct (Hstep e)|by eexists _, _].
    destruct (Hfresh t) as [r Er]. destruct (stream_step t fresh_stream) as [r' z]. simpl in *. subst. by eexists _, _. }
  unfold mbind, M_bind. rewrite E. unfold get, modify, mret, M_ret. destruct (negb _); by eexists _, _.
Qed.
End fast.

(** ** Decoding in Python *)

Section slow.
Context (tokenizer : TokenizerLike) (skip spaces : bool).
#[local] Existing Instance slow_decoder.
#[local] Instance slow_dec : Decoder SlowDecoder := slow_decoder tokenizer skip spaces.
Abbreviation to_string := (tokens_to_string tokenizer skip spaces).

Lemma detokenize_last ids t tokens prefix read :
  detokenize_incrementally tokenizer skip spaces (ids ++ [t]) (Some tokens) prefix read
  = let output_tokens := tokens ++ tokens_of_id tokenizer skip t in
    let prefix_text := to_string (py_slice output_tokens prefix read) in
    let new_text := to_string (drop (Z.to_nat prefix) output_tokens) in
    inr (if (zlen new_text <=? zlen prefix_text) || ends_replaced new_text
         then (tokens_of_id tokenizer skip t, [], prefix, read)
         else (tokens_of_id tokenizer skip t, drop (length prefix_text) new_text, read, zlen output_tokens)).
Proof.
  unfold detokenize_incrementally. rewrite last_snoc. simpl. by destruct (_ || _).
Qed.

#[local] Instance slow_laws : DecoderLaws SlowDecoder.
Proof.
  split. intros ids t d. simpl. unfold slow_decode_next, get, modify, lift_result, mbind, M_bind. rewrite detokenize_last.
  cbv zeta. destruct (_ || _); by eexists _, _.
Qed.

Lemma ends_replaced_app (x y : text) : y ≠ [] → ends_replaced (x ++ y) = ends_replaced y.
Proof using. intros Hy. unfold ends_replaced. rewrite last_app. destruct (last y) eqn:E; [done|]. by apply last_None in E. Qed.

(** The tokens carry text: after some tokens they change the decoded text. *)
Definition adds_text (b : list text) : Prop := ∃ a, to_string (a ++ b) ≠ to_string a.

(** How decoding depends on the surrounding tokens: the text that [c] adds after tokens [b] may
    depend on [b] (a leading space is kept or not, a space is inserted or not), but once [b]
    carries text and does not end in an incomplete character it does not depend on what precedes
    [b]; and then tokens after [b] that complete the text are complete on their own. *)
Record context_laws : Prop := {
  cl_context b c : adds_text b → ends_replaced (to_string b) = false →
    ∃ x, ∀ a, to_string (a ++ b ++ c) = to_string (a ++ b) ++ x;
  cl_complete b c : adds_text b → ends_replaced (to_string b) = false →
    ends_replaced (to_string (b ++ c)) = false → ends_replaced (to_string c) = false;
}.
Context (Hlaws : context_laws).

(** After the prompt's tokens [pre] and the output's tokens [toks]: the text is what the first [k]
    output tokens add, the others make up no complete character, and the tokens between the two
    offsets are a context. *)
Record slow_ok (pre toks : list text) (d : SlowDecoder) (txt : text) (k : nat) (W : list text) : Prop := {
  so_tokens : sd_tokens d = pre ++ toks;
  so_read : read_offset d = zlen pre + Z.of_nat k ∧ (k ≤ length toks)%nat;
  so_window : ∃ A, pre ++ take k toks = A ++ W ∧ prefix_offset d = zlen A;
  so_context : adds_text W ∧ ends_replaced (to_string W) = false;
  so_text a : to_string (a ++ pre ++ take k toks) = to_string (a ++ pre) ++ txt;
  so_pending : ∃ x, (∀ a, to_string (a ++ W ++ drop k toks) = to_string (a ++ W) ++ x)
    ∧ (x = [] ∨ ends_replaced x = true);
}.

Lemma window_split (pre toks new A W : list text) (k : nat) :
  pre ++ take k toks = A ++ W → (k ≤ length toks)%nat → pre ++ toks ++ new = A ++ W ++ drop k (toks ++ new).
Proof using.
  intros EA Hk. rewrite (assoc_L (++) A), <-EA, <-(assoc_L (++)). f_equal.
  rewrite <-(take_drop k (toks ++ new)) at 1. by rewrite take_app_le.
Qed.

(** The two slices the decoder converts. *)
Lemma slow_slices pre toks d txt k W new :
  slow_ok pre toks d txt k W →
  py_slice (sd_tokens d ++ new) (prefix_offset d) (read_offset d) = W
  ∧ drop (Z.to_nat (prefix_offset d)) (sd_tokens d ++ new) = W ++ drop k (toks ++ new).
Proof using.
  intros [Et [Er Hk] (A & EA & Ep) _ _ _].
  assert (sd_tokens d ++ new = A ++ W ++ drop k (toks ++ new)) as E.
  { rewrite Et, <-(assoc_L (++)). by apply window_split. }
  assert (zlen pre + Z.of_nat k = zlen A + zlen W) as El.
  { rewrite <-zlen_app, <-EA, zlen_app. unfold zlen. rewrite length_take. lia. }
  rewrite Ep, Er, El, E. unfold py_slice, zlen. rewrite Nat2Z.id, drop_app_length. split; [|done].
  rewrite take_app_le, take_ge by lia. done.
Qed.

Lemma slow_step pre toks d txt k W ids t :
  slow_ok pre toks d txt k W →
  ∃ x d' k' W', slow_decode_next tokenizer skip spaces (ids ++ [t]) d = (inr x, d')
    ∧ slow_ok pre (toks ++ tokens_of_id tokenizer skip t) d' (txt ++ x) k' W'.
Proof using Hlaws.
  intros H. pose proof H as [Et [Er Hk] (A & EA & Ep) [Hadd Hc] Htxt _]. set (new := tokens_of_id tokenizer skip t).
  unfold slow_decode_next, get, modify, lift_result, mbind, M_bind. rewrite detokenize_last. fold new. cbv zeta.
  destruct (slow_slices _ _ _ _ _ _ new H) as [-> ->].
  destruct (cl_context Hlaws W (drop k (toks ++ new)) Hadd Hc) as [x Hx].
  pose proof (Hx []) as Hx0. simpl in Hx0. rewrite Hx0, zlen_app.
  assert (sd_tokens d ++ new = pre ++ toks ++ new) as Et' by (by rewrite Et, (assoc_L (++))).
  assert (x = [] ∨ ends_replaced x = true →
    slow_ok pre (toks ++ new) (mkSlow (sd_tokens d ++ new) (prefix_offset d) (read_offset d) (sd_prompt_len d))
      (txt ++ []) k W) as Hkeep.
  { intros Hpend. rewrite app_nil_r. split; simpl; [done|rewrite length_app; lia| |done| |by exists x].
    - exists A. by rewrite take_app_le.
    - intros a. by rewrite take_app_le. }
  destruct (decide (x = [])) as [->|HN].
  { rewrite zlen_nil, Z.add_0_r, Z.leb_refl. simpl. eexists _, _, k, W. split; [done|]. apply Hkeep. by left. }
  rewrite (proj2 (Z.leb_gt _ _)) by (destruct x; [done|rewrite zlen_cons; pose proof (zlen_nonneg x); lia]).
  simpl. rewrite ends_replaced_app by done. destruct (ends_replaced x) eqn:EN.
  { eexists _, _, k, W. split; [done|]. apply Hkeep. by right. }
  eexists _, _, (length (toks ++ new)), (drop k (toks ++ new)). split; [done|]. rewrite drop_app_length.
  split; simpl; [done| | | | |].
  - rewrite Et', !zlen_app. unfold zlen. rewrite length_app. lia.
  - exists (pre ++ take k toks). rewrite (take_ge (toks ++ new)) by lia. split.
    + rewrite EA, <-(assoc_L (++)). by apply window_split.
    + rewrite Er, zlen_app. unfold zlen. rewrite length_take. lia.
  - split; [|apply (cl_complete Hlaws W); [done..|]; rewrite Hx0; by rewrite ends_replaced_app].
    exists W. rewrite Hx0. intros E. apply HN. rewrite <-(app_nil_r (to_string W)) in E at 2. by apply app_inv_head in E.
  - intros a. rewrite (take_ge (toks ++ new)) by lia. rewrite (assoc_L (++) _ txt x), <-Htxt, EA.
    rewrite (assoc_L (++) a A W), <-Hx, (window_split pre toks new A W k) by done. by rewrite (assoc_L (++) a A).
  - exists []. rewrite (drop_ge (toks ++ new) (length (toks ++ new))) by lia. split; [|by left]. intros a. by rewrite !app_nil_r.
Qed.

Lemma slow_feeds pre toks s k W ts :
  slow_ok pre toks (dt_decoder s) (output_text s) k W →
  ∃ k' W', slow_ok pre (toks ++ concat (tokens_of_id tokenizer skip <$> ts)) (dt_decoder (feeds s ts)) (output_text (feeds s ts)) k' W'.
Proof using Hlaws.
  revert toks s k W. induction ts as [|t ts IH]; intros toks s k W Hs; simpl; [rewrite app_nil_r; by exists k, W|].
  destruct (slow_step _ _ _ _ _ _ (dt_token_ids s) t Hs) as (x & d & k1 & W1 & E & Hok).
  rewrite (assoc_L (++)). apply (IH _ (feed s t) k1 W1). unfold feed. simpl. by rewrite E.
Qed.

(** C23: The Python detokenizer, without stop strings, produces the text the output tokens add to
    that of the prompt.  The tokenizer satisfies [context_laws] (what tokens add depends on the
    tokens before them, but only on a context that carries text), and the last tokens of the
    prompt, which the decoder keeps as context, carry text that does not end in an incomplete
    character.  Then decoding the prompt's tokens, whatever precedes the ones kept, followed by
    all output tokens at once gives the prompt's text followed by some [full], and the text
    produced token by token is [full], or the beginning of it while [full] ends in an incomplete
    character. *)
Theorem slow_text_exact prompt ts min_tokens include :
  let d := SlowIncrementalDetokenizer_init tokenizer skip (Some prompt) (zlen prompt) in
  let s := BaseIncrementalDetokenizer_init NoStop min_tokens include (slow_prompt_ids (Some prompt) (zlen prompt)) d in
  let tokens := concat (tokens_of_id tokenizer skip <$> ts) in
  let context := drop (Z.to_nat (prefix_offset d)) (sd_tokens d) in
  adds_text context → ends_replaced (to_string context) = false →
  wp (dt_update ts false) (λ r s', r = None ∧ ∃ full,
    (∀ earlier, to_string (earlier ++ sd_tokens d ++ tokens) = to_string (earlier ++ sd_tokens d) ++ full)
    ∧ output_text s' `prefix_of` full ∧ (ends_replaced full = false → output_text s' = full)) s.
Proof using Hlaws.
  intros d s tokens context Hadd Hc.
  assert (0 ≤ prefix_offset d ≤ zlen (sd_tokens d) ∧ read_offset d = zlen (sd_tokens d)) as [Hp Hr].
  { unfold d, SlowIncrementalDetokenizer_init, convert_prompt_ids_to_tokens, _replace_none_with_empty. simpl.
    unfold INITIAL_INCREMENTAL_DETOKENIZATION_OFFSET, zlen. rewrite length_fmap. lia. }
  assert (slow_ok (sd_tokens d) [] d [] 0 context) as Hok.
  { split; [by rewrite app_nil_r|split; [rewrite Hr; lia|done]| |done| |]; cbn [take drop].
    - exists (take (Z.to_nat (prefix_offset d)) (sd_tokens d)). unfold context. rewrite take_drop, app_nil_r.
      split; [done|]. unfold zlen in *. rewrite length_take. lia.
    - intros a. by rewrite !app_nil_r.
    - exists []. split; [|by left]. intros a. by rewrite !app_nil_r. }
  assert (dt_update ts false s = (inr None, feeds s ts)) as E.
  { unfold dt_update. case_bool_decide as Ets; [by subst|]. unfold get, mbind, M_bind. cbn [andb]. cbv zeta.
    change (zlen (output_text s)) with (Z.of_nat 0). rewrite feed_loop_run. unfold when, mret, M_ret, evaluate_stop, get, mbind, M_bind.
    destruct (feeds_facts s ts) as (-> & _). done. }
  eexists _, _. split; [exact E|]. split; [done|].
  destruct (slow_feeds (sd_tokens d) [] s 0 context ts Hok) as (k & W & [_ [_ Hk] (A & EA & _) _ Htxt (x & Hx & Hend)]).
  simpl in *. fold tokens in Hk, EA, Htxt, Hx. exists (output_text (feeds s ts) ++ x). split_and!.
  - intros a. rewrite (assoc_L (++) _ (output_text _) x), <-Htxt, EA, (assoc_L (++) a A W), <-Hx.
    rewrite <-(app_nil_r tokens) at 1. rewrite (window_split _ tokens [] A W k EA Hk), app_nil_r. by rewrite (assoc_L (++) a A).
  - by exists x.
  - destruct Hend as [->|Hx1]; [by rewrite app_nil_r|].
    destruct (decide (x = [])) as [->|Hne]; [by rewrite app_nil_r|]. rewrite ends_replaced_app by done. congruence.
Qed.
End slow.

(** ** Concrete runs *)

(** A tokenizer whose tokens are single characters. *)
Definition char_tokenizer : TokenizerLike := {|
  tokenizer_len := 128;
  convert_ids_to_tokens := λ ids _, (λ i, Some [i]) <$> ids;
  convert_tokens_to_string := @concat Z;
  is_fast := true;
  added_vocab := ∅;
  all_special_tokens := ∅;
|}.
#[local] Instance char_dec : Decoder SlowDecoder := slow_decoder char_tokenizer false true.
#[local] Instance char_laws : DecoderLaws SlowDecoder := slow_laws char_tokenizer false true.
Definition char_detok (stop : list text) (min_tokens : Z) : Detokenizer SlowDecoder :=
  BaseIncrementalDetokenizer_init (StopList stop) min_tokens false [7]
    (SlowIncrementalDetokenizer_init char_tokenizer false (Some [7]) 1).

Lemma stop_check_is_scan_witness : check_stop_strings [1; 2; 3; 4] 3 [[3; 4]; [2; 3]] false = Some ([2; 3], 1).
Proof.
  apply (stop_check_is_scan [1; 2; 3; 4] 1 [[3; 4]; [2; 3]] false); [vm_compute; lia|vm_compute; reflexivity|].
  repeat constructor; discriminate.
Defined.

(** The stop string [2; 3] is complete before [3; 4]; the first two tokens are exempt. *)
Lemma update_batch_is_sequential_witness :
  ∃ s1 s2, dt_update [2; 3; 2; 3; 4] false (char_detok [[3; 4]; [2; 3]] 2) = (inr (Some [2; 3]), s1)
    ∧ update_each [2; 3; 2; 3; 4] false (char_detok [[3; 4]; [2; 3]] 2) = (inr (Some [2; 3]), s2)
    ∧ output_text s1 = output_text s2.
Proof.
  destruct (update_batch_is_sequential (char_detok [[3; 4]; [2; 3]] 2) [2; 3; 2; 3; 4] false) as (r & s1 & s2 & E1 & E2 & Ht & _).
  - split; [vm_compute; discriminate|repeat constructor; discriminate|vm_compute; reflexivity].
  - discriminate.
  - assert (r = Some [2; 3]) as Er.
    { assert ((dt_update [2; 3; 2; 3; 4] false (char_detok [[3; 4]; [2; 3]] 2)).1 = inr r) as E by (rewrite E1; exact eq_refl).
      vm_compute in E. injection E as E. symmetry. exact E. }
    rewrite Er in E1, E2. exists s1, s2. split; [exact E1|]. split; [exact E2|exact Ht].
Defined.

Lemma stream_deltas_text_witness :
  wp (stream_deltas [[5; 2]; [9; 2; 3]] [4] false) (λ xs s', concat xs = output_text s') (char_detok [[2; 3]] 0).
Proof.
  destruct (stream_deltas_text [[5; 2]; [9; 2; 3]] [4] false (StopList [[2; 3]]) 0 false [7]
    (SlowIncrementalDetokenizer_init char_tokenizer false (Some [7]) 1)) as (xs & s' & E & H & _).
  - vm_compute. discriminate.
  - repeat constructor; discriminate.
  - vm_compute. reflexivity.
  - discriminate.
  - exists xs, s'. split; [exact E|exact H].
Defined.

(** A tokenizer in the style of SentencePiece: every token starts with a space, and the first
    space of the decoded text is dropped. *)
Definition strip_space (l : text) : text := match l with 32 :: l' => l' | _ => l end.
Definition space_tokenizer : TokenizerLike := {|
  tokenizer_len := 128;
  convert_ids_to_tokens := λ ids _, (λ i, Some [32; i]) <$> ids;
  convert_tokens_to_string := λ tokens, strip_space (concat tokens);
  is_fast := true;
  added_vocab := ∅;
  all_special_tokens := ∅;
|}.

Lemma strip_space_app l l' : l ≠ [] → strip_space (l ++ l') = strip_space l ++ l'.
Proof. destruct l as [|z l]; [done|]. intros _. unfold strip_space. simpl. by repeat case_match. Qed.

Lemma strip_space_replaced l : ends_replaced (strip_space l) = ends_replaced l.
Proof.
  unfold strip_space. destruct l as [|z l]; [done|]. destruct (decide (z = 32)) as [->|Hz].
  - destruct l as [|y l]; [done|]. symmetry. by apply (ends_replaced_app [32]).
  - by destruct z as [|p|p]; [|repeat (destruct p as [p|p|]; try done)|].
Qed.

Lemma space_laws : context_laws space_tokenizer false true.
Proof.
  assert (∀ b, adds_text space_tokenizer false true b → concat b ≠ []) as Hne.
  { intros b [a Ha] E. apply Ha. unfold tokens_to_string. simpl. by rewrite concat_app, E, app_nil_r. }
  split; unfold tokens_to_string; simpl; intros b c Hb%Hne Hc.
  - exists (concat c). intros a. rewrite (assoc_L (++)), (concat_app (a ++ b)). apply strip_space_app.
    rewrite concat_app. by intros [_ ?]%app_nil.
  - rewrite !strip_space_replaced, concat_app. destruct (decide (concat c = [])) as [->|Hcn]; [done|].
    by rewrite ends_replaced_app.
Qed.

#[local] Instance space_dec : Decoder SlowDecoder := slow_decoder space_tokenizer false true.

(** The space between the prompt and the output is kept, although decoding the output alone
    drops it. *)
Lemma slow_text_exact_witness :
  tokens_to_string space_tokenizer false true [[32; 5]; [32; 6]] = [5; 32; 6]
  ∧ wp (dt_update [5; 6] false) (λ _ s', output_text s' = [32; 5; 32; 6])
    (BaseIncrementalDetokenizer_init NoStop 0 false [7] (SlowIncrementalDetokenizer_init space_tokenizer false (Some [7]) 1)).
Proof.
  split; [exact eq_refl|].
  destruct (slow_text_exact space_tokenizer false true space_laws [7] [5; 6] 0 false)
    as (r & s' & E & _ & full & Hfull & _ & H).
  - exists []. discriminate.
  - vm_compute. reflexivity.
  - exists r, s'. split; [exact E|]. specialize (Hfull []).
    assert (full = [32; 5; 32; 6]) as Ef by (vm_compute in Hfull; injection Hfull as Hfull; symmetry; exact Hfull).
    rewrite Ef in H. apply H. vm_compute. reflexivity.
Defined.
