(* ===== verification/Ngram.v ===== *)
(** Speculative tokens by n-gram lookup: [vllm/v1/spec_decode/ngram_proposer.py].

    The loop of [_find_longest_matched_ngram_and_propose_tokens] keeps indices, which are natural
    numbers; it runs with twice the number of tokens as fuel, since a round that does not advance
    lowers [prev_lps].  The threads of the batch version write distinct rows, so the rows are
    written one after the other. *)

From S2P Require Import Prelude Request.

Record LoopState := mkLoop {
  lps : list nat;
  longest_ngram : nat;
  position : nat;
  prev_lps : nat;
  loop_i : nat;
}.

(** One round of the loop at an index below the number of tokens. *)
Definition ngram_round (tokens : list Z) (max_ngram : nat) (x : LoopState) : exn + LoopState :=
  let i := loop_i x in
  a ← result_of_option IndexError (tokens !! prev_lps x);
  b ← result_of_option IndexError (tokens !! i);
  if (a =? b)%Z then
    let p := S (prev_lps x) in
    let '(longest, pos) := if (longest_ngram x <=? p)%nat then (p, i) else (longest_ngram x, position x) in
    let table := if (i <? max_ngram)%nat then <[i := p]> (lps x) else lps x in
    p' ← (if (p =? max_ngram)%nat then result_of_option IndexError (table !! (max_ngram - 1)%nat) else mret p);
    mret (mkLoop table longest pos p' (S i))
  else if negb (prev_lps x =? 0)%nat then
    p' ← result_of_option IndexError (lps x !! (prev_lps x - 1)%nat);
    mret (mkLoop (lps x) (longest_ngram x) (position x) p' i)
  else mret (mkLoop (lps x) (longest_ngram x) (position x) (prev_lps x) (S i)).

Fixpoint ngram_loop (fuel : nat) (tokens : list Z) (max_ngram : nat) (x : LoopState) : exn + LoopState :=
  if (loop_i x <? length tokens)%nat then
    match fuel with
    | O => inl OutOfFuel
    | S fuel' => x' ← ngram_round tokens max_ngram x; ngram_loop fuel' tokens max_ngram x'
    end
  else mret x.

Definition _find_longest_matched_ngram_and_propose_tokens (origin_tokens : list Z) (min_ngram max_ngram : nat)
    (max_model_len k : Z) : exn + list Z :=
  let total_token := length origin_tokens in
  if (total_token <? min_ngram)%nat then mret []
  else
    let k := Z.min k (max_model_len - Z.of_nat total_token) in
    if k <=? 0 then mret []
    else
      let tokens := rev origin_tokens in
      x ← ngram_loop (2 * total_token) tokens max_ngram (mkLoop (replicate max_ngram 0%nat) 0 0 0 1);
      if (longest_ngram x <? min_ngram)%nat then mret []
      else
        let start_position := (total_token - 1 - position x + longest_ngram x)%nat in
        let k := Z.min k (Z.of_nat total_token - Z.of_nat start_position) in
        mret (py_slice origin_tokens (Z.of_nat start_position) (Z.of_nat start_position + k)).

(** ** The proposer *)

Record NgramProposer := mkNgram {
  min_n : nat;
  max_n : nat;
  ng_k : Z;
  ng_max_model_len : Z;
  valid_ngram_draft : list (list Z);
  valid_ngram_num_drafts : list Z;
}.

(** The buffers of a new proposer. *)
Definition NgramProposer_init (min_n max_n : nat) (k max_model_len : Z) (max_num_seqs : nat) : NgramProposer :=
  mkNgram min_n max_n k max_model_len (replicate max_num_seqs (replicate (Z.to_nat k) 0)) (replicate max_num_seqs 0).

(** [a[i] = v], and [row[:len(v)] = v] on the row [a[i]]. *)
Definition store {A} (a : list A) (i : nat) (v : A) : exn + list A :=
  if (i <? length a)%nat then mret (<[i := v]> a) else inl IndexError.
Definition store_row (row v : list Z) : exn + list Z :=
  if (length v <=? length row)%nat then mret (v ++ drop (length v) row) else inl ValueError.

(** One request of [batch_propose_numba]. *)
Definition propose_one (num_tokens_no_spec : list nat) (token_ids_cpu : list (list Z)) (k : Z) (idx : nat)
    : M NgramProposer unit :=
  p ← get;
  num_tokens ← lift_option IndexError (num_tokens_no_spec !! idx);
  row ← lift_option IndexError (token_ids_cpu !! idx);
  drafter_output ← lift_result (_find_longest_matched_ngram_and_propose_tokens (take num_tokens row) (min_n p) (max_n p)
    (ng_max_model_len p) k);
  nums ← lift_result (store (valid_ngram_num_drafts p) idx (zlen drafter_output));
  modify (λ p, mkNgram (min_n p) (max_n p) (ng_k p) (ng_max_model_len p) (valid_ngram_draft p) nums);;
  when (negb (bool_decide (drafter_output = [])))
    (p ← get;
     draft ← lift_option IndexError (valid_ngram_draft p !! idx);
     draft' ← lift_result (store_row draft drafter_output);
     modify (λ p, mkNgram (min_n p) (max_n p) (ng_k p) (ng_max_model_len p) (<[idx := draft']> (valid_ngram_draft p))
                    (valid_ngram_num_drafts p))).
Definition batch_propose_numba (valid_ngram_requests : list nat) (num_tokens_no_spec : list nat)
    (token_ids_cpu : list (list Z)) (k : Z) : M NgramProposer unit :=
  for_each valid_ngram_requests (propose_one num_tokens_no_spec token_ids_cpu k).

(** The draft of a request, read from the buffers. *)
Definition read_draft (valid_ngram_requests : list nat) (i : nat) : M NgramProposer (list Z) :=
  p ← get;
  if bool_decide (i ∈ valid_ngram_requests) then
    n ← lift_option IndexError (valid_ngram_num_drafts p !! i);
    if 0 <? n then
      row ← lift_option IndexError (valid_ngram_draft p !! i); mret (take (Z.to_nat n) row)
    else mret []
  else mret [].
Definition batch_propose (num_requests : nat) (valid_ngram_requests : list nat) (num_tokens_no_spec : list nat)
    (token_ids_cpu : list (list Z)) (k : Z) : M NgramProposer (list (list Z)) :=
  batch_propose_numba valid_ngram_requests num_tokens_no_spec token_ids_cpu k;;
  fold_each (seq 0 num_requests) (λ acc i, d ← read_draft valid_ngram_requests i; mret (acc ++ [d])) [].

(** Requests without a sampled token or at the model length get no draft. *)
Definition needs_draft (max_model_len : Z) (num_tokens_no_spec : list nat) (valid : list nat) (e : nat * list Z)
    : exn + list nat :=
  if bool_decide (e.2 = []) then mret valid
  else
    num_tokens ← result_of_option IndexError (num_tokens_no_spec !! e.1);
    mret (if max_model_len <=? Z.of_nat num_tokens then valid else valid ++ [e.1]).
Definition propose (num_speculative_tokens : Z) (sampled_token_ids : list (list Z)) (num_tokens_no_spec : list nat)
    (token_ids_cpu : list (list Z)) : M NgramProposer (list (list Z)) :=
  p ← get;
  assert (num_speculative_tokens <=? ng_k p);;
  valid ← fold_each (imap pair sampled_token_ids)
            (λ valid e, lift_result (needs_draft (ng_max_model_len p) num_tokens_no_spec valid e)) [];
  batch_propose (length sampled_token_ids) valid num_tokens_no_spec token_ids_cpu num_speculative_tokens.

Example ngram_repeat : _find_longest_matched_ngram_and_propose_tokens [1; 2; 3; 4; 1; 2; 3] 2 3 100 2 = inr [4; 1].
Proof. reflexivity. Qed.
