(* ===== verification/NgramFacts.v ===== *)
(** The lookup finds the longest repeated n-gram at its earliest place, and a batch answers for
    each request from its own tokens. *)

From S2P Require Import Prelude Request Ngram.

Set Warnings "-level-tolerance,-clear-no-such-hyp".

(** ** Borders *)

Section borders.
Context (t : list Z).
Implicit Types (i v w n P : nat).

(** The first [v] tokens end at position [n]. *)
Definition ends v n : Prop := take v t `suffix_of` take n t.

Lemma ends_zero n : ends 0 n.
Proof. exists (take n t). by rewrite app_nil_r. Qed.
Lemma ends_trans u v n : ends u v → ends v n → ends u n.
Proof. unfold ends. intros. by transitivity (take v t). Qed.
(** Of two that end at the same place the shorter ends where the longer does. *)
Lemma ends_shorter w v n : (w ≤ v ≤ length t)%nat → ends v n → ends w n → ends w v.
Proof.
  intros Hl [x Ex] [y Ey]. rewrite Ex in Ey.
  assert (length x ≤ length y)%nat as Hxy.
  { apply (f_equal length) in Ey. rewrite !length_app, !length_take in Ey. lia. }
  exists (drop (length x) y). rewrite <-(take_drop (length x) y), <-(assoc_L (++)) in Ey.
  apply app_inj_1 in Ey as [_ Ey]; [done|]. rewrite length_take. lia.
Qed.
Lemma ends_snoc v n : (v < length t)%nat → (n < length t)%nat → ends (S v) (S n) ↔ ends v n ∧ t !! v = t !! n.
Proof.
  intros Hv Hn. destruct (lookup_lt_is_Some_2 t v Hv) as [a Ea]. destruct (lookup_lt_is_Some_2 t n Hn) as [b Eb].
  unfold ends. rewrite (take_S_r t v a Ea), (take_S_r t n b Eb), Ea, Eb. split.
  - intros [x E]. rewrite (assoc_L (++)) in E. apply app_inj_tail in E as [E ->]. split; [|done]. by exists x.
  - intros [[x E] [= ->]]. exists x. by rewrite E, (assoc_L (++)).
Qed.

(** The longest proper border of the first [n] tokens. *)
Definition is_lps n v : Prop := (v < n)%nat ∧ ends v n ∧ ∀ w, (w < n)%nat → ends w n → (w ≤ v)%nat.

(** An n-gram of length [v], at most [P], that ends at index [j]. *)
Definition matched P j v : Prop := (1 ≤ v ≤ P)%nat ∧ (v ≤ j)%nat ∧ ends v (S j).

(** What the loop knows before index [i]. *)
Record loop_ok P (x : LoopState) : Prop := {
  lo_i : (1 ≤ loop_i x)%nat;
  lo_len : length (lps x) = P;
  lo_lps j : (j < loop_i x)%nat → (j < P)%nat → ∃ v, lps x !! j = Some v ∧ is_lps (S j) v;
  lo_zero j : (loop_i x ≤ j)%nat → (j < P)%nat → lps x !! j = Some 0%nat;
  lo_prev : (prev_lps x < P)%nat ∧ (prev_lps x < loop_i x)%nat ∧ ends (prev_lps x) (loop_i x);
  lo_next w : (prev_lps x < w < P)%nat → (w < loop_i x)%nat → ends w (loop_i x) → t !! w ≠ t !! loop_i x;
  lo_best j v : (j < loop_i x)%nat → matched P j v → (v ≤ longest_ngram x)%nat;
  lo_pos : longest_ngram x ≠ 0%nat → (position x < loop_i x)%nat ∧ matched P (position x) (longest_ngram x)
    ∧ ∀ j, (position x < j < loop_i x)%nat → ¬ matched P j (longest_ngram x);
}.

(** A match at index [i] extends one that ends before it. *)
Lemma matched_pred P i v : (i < length t)%nat → matched P i v → ∃ w, v = S w ∧ (w < P)%nat ∧ (w < i)%nat ∧ ends w i ∧ t !! w = t !! i.
Proof.
  intros Hi ([H1 H2] & H3 & H4). destruct v as [|w]; [lia|]. exists w.
  apply ends_snoc in H4 as [H4 H5]; [|lia|done]. split_and!; try done; lia.
Qed.
End borders.

Lemma ngram_init_ok t P : (0 < P)%nat → loop_ok t P (mkLoop (replicate P 0%nat) 0 0 0 1).
Proof.
  intros HP. split; simpl.
  - lia.
  - by rewrite length_replicate.
  - intros j Hj HjP. exists 0%nat. replace j with 0%nat by lia. split; [by apply lookup_replicate|].
    split; [lia|]. split; [apply ends_zero|]. intros w Hw. lia.
  - intros j _ HjP. by apply lookup_replicate.
  - split; [done|]. split; [lia|]. apply ends_zero.
  - intros w Hw Hw'. lia.
  - intros j v Hj ([? _] & ? & _). lia.
  - done.
Qed.

(** Nothing longer than [prev_lps + 1] matches at the current index, and only that if the tokens
    agree. *)
Lemma match_bound t P x v :
  loop_ok t P x → (loop_i x < length t)%nat → matched t P (loop_i x) v →
  (v ≤ S (prev_lps x))%nat ∧ (v = S (prev_lps x) → t !! prev_lps x = t !! loop_i x).
Proof.
  intros Hok Hi Hm. destruct (matched_pred t P _ v Hi Hm) as (w & -> & Hw & Hw' & He & Ht).
  destruct (decide (w ≤ prev_lps x)%nat) as [Hle|Hgt].
  - split; [lia|]. intros [= ->]. done.
  - exfalso. apply (lo_next _ _ _ Hok w); [lia|done|done|done].
Qed.

(** The tokens agree: the match grows by one. *)
Lemma advance_ok t P x table p' longest pos :
  loop_ok t P x → (loop_i x < length t)%nat → t !! prev_lps x = t !! loop_i x →
  let i := loop_i x in let p := S (prev_lps x) in
  table = (if (i <? P)%nat then <[i := p]> (lps x) else lps x) →
  (if (p =? P)%nat then table !! (P - 1)%nat = Some p' else p' = p) →
  (longest, pos) = (if (longest_ngram x <=? p)%nat then (p, i) else (longest_ngram x, position x)) →
  loop_ok t P (mkLoop table longest pos p' (S i)).
Proof.
  intros Hok Hi Ht i p Etab Ep' Ebest. pose proof Hok as [O1 O2 O3 O4 (O5 & O6 & O7) O8 O9 O10].
  assert (matched t P i p) as Hm.
  { split; [unfold p; lia|]. split; [unfold p, i; lia|]. apply ends_snoc; [lia|done|]. by split. }
  assert (∀ v, matched t P i v → (v ≤ p)%nat) as Hmax by (intros v Hv; by apply (match_bound t P x v)).
  assert (∀ j, j ≠ i → table !! j = lps x !! j) as Hother.
  { intros j Hj. rewrite Etab. destruct (i <? P)%nat; [|done]. by rewrite list_lookup_insert_ne. }
  assert (∀ j, (j < S i)%nat → (j < P)%nat → ∃ v, table !! j = Some v ∧ is_lps t (S j) v) as Htab.
  { intros j Hj HjP. destruct (decide (j = i)) as [->|Hne].
    - exists p. rewrite Etab, (proj2 (Nat.ltb_lt _ _) HjP). split; [apply list_lookup_insert_eq; lia|].
      destruct Hm as (_ & Hm1 & Hm2). split; [lia|]. split; [done|]. intros [|w] Hw He; [lia|]. apply Hmax. split; [lia|]. split; [lia|done].
    - rewrite Hother by done. apply O3; unfold i in *; lia. }
  assert ((p' < P)%nat ∧ (p' ≤ p)%nat ∧ ends t p' (S i) ∧ ∀ w, (p' < w < P)%nat → (w < S i)%nat → ¬ ends t w (S i)) as (A1 & A2 & A3 & A4).
  { destruct Hm as (Hm0 & Hm1 & Hm2). destruct (Nat.eqb_spec p P) as [E|Hne].
    - assert ((P - 1 < i)%nat) as Hlt by lia. destruct (Htab (P - 1)%nat) as (v & Ev & Hv1 & Hv2 & Hv3); [lia|lia|].
      replace (S (P - 1)) with P in * by lia. assert (v = p') as -> by congruence. rewrite E in Hm2.
      split_and!; [done|lia|by apply (ends_trans t _ P)|]. intros w Hw Hw' He.
      assert (w ≤ p')%nat; [|lia]. apply Hv3; [lia|]. apply (ends_shorter t w P (S i)); [lia|done|done].
    - subst p'. split_and!; [lia|lia|done|]. intros w Hw Hw' He. assert (w ≤ p)%nat; [|lia]. apply Hmax. split; [lia|]. split; [lia|done]. }
  assert ((longest_ngram x ≤ longest)%nat ∧ (p ≤ longest)%nat) as [B1 B2].
  { destruct (Nat.leb_spec (longest_ngram x) p); injection Ebest as -> ->; lia. }
  split; simpl; try done; try lia.
  - rewrite Etab. destruct (i <? P)%nat; [by rewrite length_insert|done].
  - intros j Hj HjP. rewrite Hother by lia. apply O4; unfold i in *; lia.
  - split_and!; [done|unfold p, i in *; lia|done].
  - intros w Hw Hw' He. by destruct (A4 w Hw Hw').
  - intros j v Hj Hv. destruct (decide (j = i)) as [->|Hne]; [apply Hmax in Hv; lia|].
    assert (v ≤ longest_ngram x)%nat; [|lia]. apply (O9 j); [unfold i in *; lia|done].
  - intros _. destruct (Nat.leb_spec (longest_ngram x) p) as [Hle|Hgt]; injection Ebest as -> ->.
    + split_and!; [lia|done|]. intros j Hj. lia.
    + destruct O10 as (P1 & P2 & P3); [lia|]. split_and!; [unfold i; lia|done|].
      intros j Hj Hv. destruct (decide (j = i)) as [->|Hne]; [apply Hmax in Hv; lia|]. apply (P3 j); [unfold i in *; lia|done].
Qed.

(** They differ and a shorter candidate is tried. *)
Lemma fallback_ok t P x p' :
  loop_ok t P x → (loop_i x < length t)%nat → t !! prev_lps x ≠ t !! loop_i x → prev_lps x ≠ 0%nat →
  lps x !! (prev_lps x - 1)%nat = Some p' →
  (p' < prev_lps x)%nat ∧ loop_ok t P (mkLoop (lps x) (longest_ngram x) (position x) p' (loop_i x)).
Proof.
  intros Hok Hi Ht H0 Ep. pose proof Hok as [O1 O2 O3 O4 (O5 & O6 & O7) O8 O9 O10].
  destruct (O3 (prev_lps x - 1)%nat) as (v & Ev & Hv1 & Hv2 & Hv3); [lia|lia|].
  replace (S (prev_lps x - 1)) with (prev_lps x) in * by lia. assert (v = p') as -> by congruence.
  split; [done|]. split; simpl; try done.
  - split_and!; [lia|lia|by apply (ends_trans t _ (prev_lps x))].
  - intros w Hw Hw' He. destruct (Nat.lt_trichotomy w (prev_lps x)) as [Hlt|[->|Hgt]]; [|done|apply O8; [lia|done|done]].
    assert (w ≤ p')%nat; [|lia]. apply Hv3; [done|]. apply (ends_shorter t w (prev_lps x) (loop_i x)); [lia|done|done].
Qed.

(** They differ and there is no candidate: nothing matches here. *)
Lemma skip_ok t P x :
  loop_ok t P x → (loop_i x < length t)%nat → t !! prev_lps x ≠ t !! loop_i x → prev_lps x = 0%nat →
  loop_ok t P (mkLoop (lps x) (longest_ngram x) (position x) (prev_lps x) (S (loop_i x))).
Proof.
  intros Hok Hi Ht H0. pose proof Hok as [O1 O2 O3 O4 (O5 & O6 & O7) O8 O9 O10].
  assert (∀ v, ¬ matched t P (loop_i x) v) as Hno.
  { intros v Hv. destruct (match_bound t P x v Hok Hi Hv) as [Hb Hb']. destruct Hv as ([Hv _] & _). apply Ht, Hb'. lia. }
  split; simpl; try done; try lia.
  - intros j Hj HjP. destruct (decide (j = loop_i x)) as [->|Hne]; [|apply O3; lia]. exists 0%nat.
    split; [by apply O4|]. split; [lia|]. split; [apply ends_zero|]. intros [|w] Hw He; [lia|].
    destruct (Hno (S w)). split; [lia|]. split; [lia|done].
  - intros j Hj HjP. apply O4; lia.
  - split_and!; [done|lia|]. rewrite H0. apply ends_zero.
  - intros w Hw Hw' He. destruct (Hno w). split; [lia|]. split; [lia|done].
  - intros j v Hj Hv. destruct (decide (j = loop_i x)) as [->|Hne]; [by destruct (Hno v)|]. apply (O9 j); [lia|done].
  - intros Hl. destruct (O10 Hl) as (P1 & P2 & P3). split_and!; [lia|done|].
    intros j Hj Hv. destruct (decide (j = loop_i x)) as [->|Hne]; [by destruct (Hno _ Hv)|]. apply (P3 j); [lia|done].
Qed.

(** A round keeps the invariant and comes closer to the end. *)
Lemma ngram_round_ok t P x :
  loop_ok t P x → (loop_i x < length t)%nat →
  ∃ x', ngram_round t P x = inr x' ∧ loop_ok t P x'
    ∧ (2 * (length t - loop_i x') + prev_lps x' < 2 * (length t - loop_i x) + prev_lps x)%nat ∧ (loop_i x' ≤ S (loop_i x))%nat.
Proof.
  intros Hok Hi. pose proof (lo_prev _ _ _ Hok) as (O5 & O6 & _). unfold ngram_round.
  destruct (lookup_lt_is_Some_2 t (prev_lps x)) as [a Ea]; [lia|]. destruct (lookup_lt_is_Some_2 t (loop_i x) Hi) as [b Eb].
  rewrite Ea, Eb. cbn [result_of_option mbind result_bind]. destruct (Z.eqb_spec a b) as [->|Hne].
  - destruct (if (longest_ngram x <=? S (prev_lps x))%nat then _ else _) as [longest pos] eqn:Eb'.
    set (table := if (loop_i x <? P)%nat then _ else _).
    assert (∃ p', (if (S (prev_lps x) =? P)%nat then result_of_option IndexError (table !! (P - 1)%nat) else mret (S (prev_lps x))) = inr p'
      ∧ (if (S (prev_lps x) =? P)%nat then table !! (P - 1)%nat = Some p' else p' = S (prev_lps x))) as (p' & Ep & Ep').
    { destruct (Nat.eqb_spec (S (prev_lps x)) P) as [E|_]; [|by eexists].
      destruct (lookup_lt_is_Some_2 table (P - 1)) as [p' Ep']; [|exists p'; by rewrite Ep'].
      unfold table. pose proof (lo_len _ _ _ Hok). destruct (_ <? _)%nat; rewrite ?length_insert; lia. }
    rewrite Ep. eexists. split; [done|].
    assert (loop_ok t P (mkLoop table longest pos p' (S (loop_i x)))) as Hok'.
    { apply (advance_ok t P x); try done. congruence. }
    split; [done|]. simpl. pose proof (lo_prev _ _ _ Hok') as (L1 & L2 & _). simpl in L1, L2.
    assert (p' ≤ S (prev_lps x))%nat; [|lia]. destruct (Nat.eqb_spec (S (prev_lps x)) P); lia.
  - assert (t !! prev_lps x ≠ t !! loop_i x) as Ht by congruence. destruct (Nat.eqb_spec (prev_lps x) 0) as [E0|H0]; simpl.
    + eexists. split; [done|]. split; [by apply skip_ok|]. simpl. lia.
    + destruct (lookup_lt_is_Some_2 (lps x) (prev_lps x - 1)) as [p' Ep]; [pose proof (lo_len _ _ _ Hok); lia|].
      rewrite Ep. simpl. eexists. split; [done|]. destruct (fallback_ok t P x p' Hok Hi Ht H0 Ep) as [Hlt Hok']. split; [done|].
      simpl. lia.
Qed.

Lemma ngram_loop_ok t P fuel x :
  loop_ok t P x → (2 * (length t - loop_i x) + prev_lps x ≤ fuel)%nat → (loop_i x ≤ Nat.max 1 (length t))%nat →
  ∃ x', ngram_loop fuel t P x = inr x' ∧ loop_ok t P x' ∧ (length t ≤ loop_i x' ≤ Nat.max 1 (length t))%nat.
Proof.
  revert x. induction fuel as [|fuel IH]; intros x Hok Hf Hb; cbn [ngram_loop].
  - destruct (Nat.ltb_spec (loop_i x) (length t)); [lia|]. exists x. split_and!; (done || lia).
  - destruct (Nat.ltb_spec (loop_i x) (length t)) as [Hi|Hi]; [|exists x; split_and!; (done || lia)].
    destruct (ngram_round_ok t P x Hok Hi) as (x' & -> & Hok' & Hlt & Hs). cbn [mbind result_bind]. apply IH; [done|lia|lia].
Qed.

(** ** The lookup *)

(** The last [v] tokens of [l] occur at position [q], and end before the end of [l]. *)
Definition occurs (l : list Z) (v q : nat) : Prop := (q + v < length l)%nat ∧ drop (length l - v) l `prefix_of` drop q l.

Lemma rev_suffix (a b : list Z) : rev a `suffix_of` rev b ↔ a `prefix_of` b.
Proof.
  split.
  - intros [k E]. exists (rev k). by rewrite <-(rev_involutive b), E, rev_app_distr, rev_involutive.
  - intros [k ->]. exists (rev k). apply rev_app_distr.
Qed.

Lemma matched_occurs l P j v :
  (j < length l)%nat → matched (rev l) P j v ↔ (1 ≤ v ≤ P)%nat ∧ occurs l v (length l - 1 - j).
Proof.
  intros Hj. unfold matched, occurs, ends. rewrite !firstn_rev, rev_suffix.
  replace (length l - S j)%nat with (length l - 1 - j)%nat by lia. split; intros (? & ? & ?); split_and!; try lia; done.
Qed.

(** The longest of the allowed n-grams, at its earliest place. *)
Definition best_ngram (l : list Z) (P v q : nat) : Prop :=
  (1 ≤ v ≤ P)%nat ∧ occurs l v q ∧ (∀ v' q', (v < v' ≤ P)%nat → ¬ occurs l v' q') ∧ (∀ q', (q' < q)%nat → ¬ occurs l v q').

Lemma search_spec l P :
  (0 < P)%nat →
  ∃ x, ngram_loop (2 * length l) (rev l) P (mkLoop (replicate P 0%nat) 0 0 0 1) = inr x
    ∧ ((longest_ngram x = 0%nat ∧ ∀ v q, (1 ≤ v ≤ P)%nat → ¬ occurs l v q)
       ∨ best_ngram l P (longest_ngram x) (length l - 1 - position x) ∧ (position x < length l)%nat).
Proof.
  intros HP. destruct (ngram_loop_ok (rev l) P (2 * length l) (mkLoop (replicate P 0%nat) 0 0 0 1)) as (x & E & Hok & Hi).
  { by apply ngram_init_ok. } { simpl. rewrite length_rev. lia. } { simpl. lia. }
  exists x. split; [done|]. rewrite length_rev in Hi.
  assert (∀ v q, (1 ≤ v ≤ P)%nat → occurs l v q → (v ≤ longest_ngram x)%nat
    ∧ matched (rev l) P (length l - 1 - q) v ∧ q = (length l - 1 - (length l - 1 - q))%nat) as Hall.
  { intros v q Hv Ho. pose proof Ho as [Hq _].
    assert (matched (rev l) P (length l - 1 - q) v) as Hm.
    { apply matched_occurs; [lia|]. split; [done|]. by replace (length l - 1 - (length l - 1 - q))%nat with q by lia. }
    split_and!; [|done|lia]. apply (lo_best _ _ _ Hok (length l - 1 - q)); [lia|done]. }
  destruct (decide (longest_ngram x = 0%nat)) as [E0|H0].
  - left. split; [done|]. intros v q Hv Ho. destruct (Hall v q Hv Ho) as [? _]. lia.
  - right. destruct (lo_pos _ _ _ Hok H0) as (P1 & P2 & P3).
    assert (position x < length l)%nat as Hp.
    { destruct P2 as ([Hv _] & Hvp & _). lia. }
    apply matched_occurs in P2 as [Hv Ho]; [|done]. split; [|done]. split_and!; [lia|lia|done| |].
    + intros v' q' Hv' Ho'. destruct (Hall v' q') as [? _]; [lia|done|]. lia.
    + intros q' Hq' Ho'. destruct (Hall (longest_ngram x) q') as (_ & Hm & Eq); [done|done|].
      destruct Ho' as [Hq _]. apply (P3 (length l - 1 - q')%nat); [lia|done].
Qed.

Lemma ngram_lookup_spec l (lo hi : nat) max_model_len k :
  (1 ≤ lo ≤ hi)%nat →
  let k' := Z.min k (max_model_len - zlen l) in
  ∃ r, _find_longest_matched_ngram_and_propose_tokens l lo hi max_model_len k = inr r
    ∧ ((r = [] ∧ (k' ≤ 0 ∨ ∀ v q, (lo ≤ v ≤ hi)%nat → ¬ occurs l v q))
       ∨ (0 < k' ∧ r ≠ [] ∧ ∃ v q, (lo ≤ v)%nat ∧ best_ngram l hi v q ∧ r = take (Z.to_nat k') (drop (q + v) l))).
Proof.
  intros Hlo k'. unfold _find_longest_matched_ngram_and_propose_tokens. fold (zlen l) k'.
  destruct (Nat.ltb_spec (length l) lo) as [Hlt|Hge].
  { exists []. split; [done|]. left. split; [done|]. right. intros v q Hv [Hq _]. lia. }
  destruct (Z.leb_spec k' 0) as [Hk|Hk]; [exists []; split; [done|]; left; split; [done|by left]|].
  destruct (search_spec l hi) as (x & -> & Hx); [lia|]. cbn [mbind result_bind].
  destruct (Nat.ltb_spec (longest_ngram x) lo) as [Hshort|Hlong].
  - exists []. split; [done|]. left. split; [done|]. right. intros v q Hv Ho.
    destruct Hx as [[_ Hx]|[(_ & _ & Hx & _) _]]; [by apply (Hx v q); [lia|]|]. apply (Hx v q); [lia|done].
  - destruct Hx as [[E _]|[Hb Hp]]; [lia|]. set (v := longest_ngram x) in *. set (q := (length l - 1 - position x)%nat) in *.
    pose proof Hb as (_ & [Hq _] & _ & _).
    set (m := Z.min k' (Z.of_nat (length l) - Z.of_nat (q + v))).
    assert (py_slice l (Z.of_nat (q + v)) (Z.of_nat (q + v) + m) = take (Z.to_nat k') (drop (q + v) l)) as Es.
    { unfold py_slice. rewrite Nat2Z.id. replace (Z.to_nat (Z.of_nat (q + v) + m) - (q + v))%nat with (Z.to_nat m) by lia.
      destruct (decide (k' ≤ Z.of_nat (length l) - Z.of_nat (q + v))) as [Hle|Hgt].
      - by replace m with k' by lia.
      - rewrite !take_ge; [done|rewrite length_drop; lia..]. }
    exists (take (Z.to_nat k') (drop (q + v) l)). split; [by rewrite <-Es|]. right. split; [done|]. split; [|by exists v, q].
    intros E. apply (f_equal length) in E. rewrite length_take, length_drop in E. simpl in E. lia.
Qed.

(** C24: The draft is what follows the longest n-gram, of at most [max_ngram] tokens, that ends the
    text and occurs before in it, at its first occurrence, cut to the number of tokens asked for
    and to the model length; there is none exactly when the model length is reached or no n-gram
    of an allowed length is repeated.  The search always ends. *)
Theorem ngram_lookup_correct l (lo hi : nat) max_model_len k :
  (1 ≤ lo ≤ hi)%nat →
  let k' := Z.min k (max_model_len - zlen l) in
  ∃ r, _find_longest_matched_ngram_and_propose_tokens l lo hi max_model_len k = inr r
    ∧ ((r = [] ∧ (k' ≤ 0 ∨ ∀ v q, (lo ≤ v ≤ hi)%nat → ¬ occurs l v q))
       ∨ (0 < k' ∧ r ≠ [] ∧ ∃ v q, (lo ≤ v)%nat ∧ best_ngram l hi v q ∧ r = take (Z.to_nat k') (drop (q + v) l))).
Proof. apply ngram_lookup_spec. Qed.

Lemma ngram_lookup_correct_witness :
  ∃ r, _find_longest_matched_ngram_and_propose_tokens [1; 2; 3; 4; 1; 2; 3] 2 3 100 2 = inr r ∧ r = [4; 1].
Proof.
  destruct (ngram_lookup_correct [1; 2; 3; 4; 1; 2; 3] 2 3 100 2) as (r & E & _); [lia|].
  exists r. split; [exact E|]. vm_compute in E. injection E as E. symmetry. exact E.
Defined.

(** ** Batches *)

Section batch.
Context (nums : list nat) (rows : list (list Z)) (k : Z).
Implicit Types (p : NgramProposer) (i : nat).

(** The draft of request [i], from its own tokens. *)
Definition draft_of p i : list Z :=
  match nums !! i, rows !! i with
  | Some n, Some row =>
      match _find_longest_matched_ngram_and_propose_tokens (take n row) (min_n p) (max_n p) (ng_max_model_len p) k with
      | inr r => r
      | inl _ => []
      end
  | _, _ => []
  end.

(** Buffers for [size] requests. *)
Record buffers_ok p (size : nat) : Prop := {
  bf_lengths : (1 ≤ min_n p ≤ max_n p)%nat;
  bf_nums : length (valid_ngram_num_drafts p) = size;
  bf_rows : length (valid_ngram_draft p) = size;
  bf_width : Forall (λ row, Z.of_nat (length row) = Z.max 0 (ng_k p)) (valid_ngram_draft p);
}.
(** The buffers hold the draft of [i]. *)
Definition holds p i : Prop :=
  valid_ngram_num_drafts p !! i = Some (zlen (draft_of p i))
  ∧ (draft_of p i ≠ [] → ∃ rest, valid_ngram_draft p !! i = Some (draft_of p i ++ rest)).
Definition same_settings p p' : Prop :=
  min_n p' = min_n p ∧ max_n p' = max_n p ∧ ng_k p' = ng_k p ∧ ng_max_model_len p' = ng_max_model_len p.

Lemma draft_same p p' i : same_settings p p' → draft_of p' i = draft_of p i.
Proof. intros (E1 & E2 & _ & E4). unfold draft_of. by rewrite E1, E2, E4. Qed.

Lemma draft_length p i : (1 ≤ min_n p ≤ max_n p)%nat → zlen (draft_of p i) ≤ Z.max 0 k.
Proof.
  intros Hn. unfold draft_of. destruct (nums !! i) as [n|]; [|unfold zlen; simpl; lia].
  destruct (rows !! i) as [row|]; [|unfold zlen; simpl; lia].
  destruct (ngram_lookup_spec (take n row) (min_n p) (max_n p) (ng_max_model_len p) k Hn) as (r & -> & [[-> _]|(_ & _ & v & q & _ & _ & ->)]).
  - unfold zlen. simpl. lia.
  - unfold zlen. rewrite length_take. lia.
Qed.

Lemma propose_one_spec p size i :
  buffers_ok p size → k ≤ ng_k p → (i < size)%nat → (i < length nums)%nat → (i < length rows)%nat →
  wp (propose_one nums rows k i) (λ _ p', buffers_ok p' size ∧ same_settings p p' ∧ holds p' i
    ∧ ∀ j, holds p j → holds p' j) p.
Proof.
  intros B Hk Hi Hin Hir. pose proof B as [B1 B2 B3 B4]. unfold propose_one. wp_steps.
  destruct (lookup_lt_is_Some_2 nums i Hin) as [n En]. destruct (lookup_lt_is_Some_2 rows i Hir) as [row Er].
  eapply wp_lift_option; [done|]. wp_steps. eapply wp_lift_option; [done|]. wp_steps.
  destruct (ngram_lookup_spec (take n row) (min_n p) (max_n p) (ng_max_model_len p) k B1) as (r & Ef & _).
  eapply wp_lift_result; [done|]. wp_steps.
  assert (draft_of p i = r) as Ed by (unfold draft_of; by rewrite En, Er, Ef).
  unfold store. rewrite B2, (proj2 (Nat.ltb_lt _ _) Hi). eapply wp_lift_result; [done|]. wp_steps.
  pose proof (draft_length p i B1) as Hlen. rewrite Ed in Hlen.
  destruct (lookup_lt_is_Some_2 (valid_ngram_draft p) i) as [d Edr]; [lia|].
  assert (Z.of_nat (length d) = Z.max 0 (ng_k p)) as Hd by (by eapply (Forall_lookup_1 _ _ i d B4)).
  (* the two outcomes write the row or leave it *)
  assert (∀ drafts, length drafts = size → Forall (λ row, Z.of_nat (length row) = Z.max 0 (ng_k p)) drafts →
    (r ≠ [] → ∃ rest, drafts !! i = Some (r ++ rest)) → (∀ j, j ≠ i → drafts !! j = valid_ngram_draft p !! j) →
    let p' := mkNgram (min_n p) (max_n p) (ng_k p) (ng_max_model_len p) drafts (<[i := zlen r]> (valid_ngram_num_drafts p)) in
    buffers_ok p' size ∧ same_settings p p' ∧ holds p' i ∧ ∀ j, holds p j → holds p' j) as Hfin.
  { intros drafts H1 H2 H3 H4 p'. assert (same_settings p p') as Hs by done. split_and!.
    - split; simpl; [done|by rewrite length_insert|done|done].
    - done.
    - unfold holds. rewrite (draft_same p p' i Hs), Ed. simpl. split; [apply list_lookup_insert_eq; lia|done].
    - intros j Hj. destruct (decide (j = i)) as [->|Hne].
      + unfold holds. rewrite (draft_same p p' i Hs), Ed. simpl. split; [apply list_lookup_insert_eq; lia|done].
      + unfold holds in *. rewrite (draft_same p p' j Hs). simpl. rewrite list_lookup_insert_ne, H4 by done. done. }
  apply wp_when; intros Ene.
  - apply negb_true_iff, bool_decide_eq_false in Ene. wp_steps. simpl. eapply wp_lift_option; [done|]. wp_steps. unfold store_row.
    assert ((length r <=? length d)%nat = true) as -> by (apply Nat.leb_le; unfold zlen in Hlen; lia).
    eapply wp_lift_result; [done|]. wp_steps. apply Hfin.
    + by rewrite length_insert.
    + apply Forall_insert; [done|]. rewrite length_app, length_drop. unfold zlen in Hlen. lia.
    + intros _. exists (drop (length r) d). apply list_lookup_insert_eq. simpl. lia.
    + intros j Hj. by rewrite list_lookup_insert_ne.
  - apply negb_false_iff, bool_decide_eq_true in Ene. apply Hfin; try done.
Qed.

Lemma batch_spec p size valid :
  buffers_ok p size → k ≤ ng_k p → Forall (λ i, (i < size)%nat ∧ (i < length nums)%nat ∧ (i < length rows)%nat) valid →
  wp (batch_propose_numba valid nums rows k) (λ _ p', buffers_ok p' size ∧ same_settings p p' ∧ ∀ i, i ∈ valid → holds p' i) p.
Proof.
  intros B Hk Hv. unfold batch_propose_numba.
  apply (wp_for_each _ (λ pre p', buffers_ok p' size ∧ same_settings p p' ∧ ∀ i, i ∈ pre → holds p' i)).
  - split_and!; try done. by intros i ?%elem_of_nil.
  - intros pre i post p' -> (B' & S' & Hh). apply Forall_app in Hv as [_ [(H1 & H2 & H3) _]%Forall_cons].
    pose proof S' as (_ & _ & Ek & _). eapply wp_mono; [apply (propose_one_spec p' size i); try done; lia|].
    simpl. intros _ p'' (B'' & (F1 & F2 & F3 & F4) & Hi & Hkeep). destruct S' as (E1 & E2 & E3 & E4).
    split_and!; try done; [split_and!; congruence|]. intros j [Hj| ->%list_elem_of_singleton]%elem_of_app; [by apply Hkeep, Hh|done].
Qed.

Lemma read_spec p size valid i :
  buffers_ok p size → (∀ i, i ∈ valid → (i < size)%nat ∧ holds p i) →
  wp (read_draft valid i) (λ d p', d = (if decide (i ∈ valid) then draft_of p i else []) ∧ p' = p) p.
Proof.
  intros B Hv. unfold read_draft. wp_steps. case_bool_decide as E; [|wp_steps; by rewrite decide_False].
  destruct (Hv i E) as (Hi & Hn & Hd). rewrite decide_True by done. wp_steps. eapply wp_lift_option; [done|]. simpl.
  destruct (Z.ltb_spec 0 (zlen (draft_of p i))) as [Hpos|Hz].
  - destruct Hd as [rest Er]; [intros Ed; rewrite Ed in Hpos; done|]. wp_steps. eapply wp_lift_option; [done|]. wp_steps.
    split; [|done]. unfold zlen. by rewrite Nat2Z.id, take_app_length.
  - wp_steps. split; [|done]. destruct (draft_of p i) as [|x r]; [done|]. rewrite zlen_cons in Hz. pose proof (zlen_nonneg r). lia.
Qed.

(** Request [i] gets a draft: it has sampled tokens and is below the model length. *)
Definition wants_draft (max_model_len : Z) (sampled : list (list Z)) (i : nat) : Prop :=
  (∃ ids, sampled !! i = Some ids ∧ ids ≠ []) ∧ ∃ n, nums !! i = Some n ∧ Z.of_nat n < max_model_len.

Lemma valid_spec p max_model_len sampled :
  (length sampled ≤ length nums)%nat →
  wp (fold_each (imap pair sampled) (λ valid e, lift_result (needs_draft max_model_len nums valid e)) [])
    (λ valid p', p' = p ∧ ∀ i, i ∈ valid ↔ wants_draft max_model_len sampled i) p.
Proof.
  intros Hl. eapply wp_mono.
  - apply (wp_fold_each _ (λ pre valid p', p' = p ∧ ∀ i, i ∈ valid ↔ (i < length pre)%nat ∧ wants_draft max_model_len sampled i)).
    { split; [done|]. intros i. simpl. split; [by intros ?%elem_of_nil|lia]. }
    intros pre [j ids] post valid p' E [-> Hv].
    assert (j = length pre ∧ sampled !! j = Some ids) as [-> Es].
    { assert (imap pair sampled !! length pre = Some (j, ids)) as El by (rewrite E; by apply list_lookup_middle).
      rewrite list_lookup_imap in El. apply fmap_Some in El as (x & Ex & [= -> ->]). done. }
    assert (length pre < length nums)%nat as Hlt by (apply lookup_lt_Some in Es; lia).
    destruct (lookup_lt_is_Some_2 nums _ Hlt) as [n En]. unfold needs_draft. simpl.
    assert (∀ b : bool, (b = true ↔ wants_draft max_model_len sampled (length pre)) →
      ∀ i, i ∈ (if b then valid ++ [length pre] else valid) ↔ (i < length (pre ++ [(length pre, ids)]))%nat ∧ wants_draft max_model_len sampled i) as Hstep.
    { intros b Hb i. rewrite length_app. simpl. destruct b.
      - rewrite elem_of_app, list_elem_of_singleton, Hv. split; [intros [[? ?]| ->]; split; (lia || tauto)|].
        intros [? ?]. destruct (decide (i = length pre)); [by right|left; split; [lia|done]].
      - rewrite Hv. split; [intros [? ?]; split; (lia || done)|]. intros [? Hw]. split; [|done].
        destruct (decide (i = length pre)) as [->|]; [by apply Hb in Hw|lia]. }
    case_bool_decide as Ei.
    + eapply wp_lift_result; [done|]. split; [done|]. apply (Hstep false). split; [done|].
      intros [(ids' & E' & Hne) _]. congruence.
    + rewrite En. simpl. eapply wp_lift_result; [done|]. split; [done|].
      destruct (Z.leb_spec max_model_len (Z.of_nat n)) as [Hge|Hlt'].
      * apply (Hstep false). split; [done|]. intros [_ (n' & En' & Hn')]. assert (n' = n) by congruence. lia.
      * apply (Hstep true). split; [|done]. intros _. split; [by exists ids|by exists n].
  - simpl. intros valid p' [-> Hv]. split; [done|]. intros i. rewrite Hv, length_imap. split; [tauto|].
    intros Hw. split; [|done]. destruct Hw as [(ids & E & _) _]. by eapply lookup_lt_Some.
Qed.

(** C25: A batch gives every request the draft that the lookup finds in that request's own tokens,
    and none to a request without a sampled token or at the model length, whatever earlier
    batches left in the buffers. *)
Theorem ngram_batch_correct p size sampled :
  buffers_ok p size → k ≤ ng_k p → (length sampled ≤ size)%nat → (length sampled ≤ length nums)%nat →
  (length sampled ≤ length rows)%nat →
  wp (propose k sampled nums rows) (λ ds p', buffers_ok p' size ∧ same_settings p p' ∧ length ds = length sampled
    ∧ ∀ i d, ds !! i = Some d →
        (wants_draft (ng_max_model_len p) sampled i → d = draft_of p i)
        ∧ (¬ wants_draft (ng_max_model_len p) sampled i → d = [])) p.
Proof.
  intros B Hk H1 H2 H3. unfold propose, batch_propose. wp_steps. apply wp_assert; [by apply Z.leb_le|]. wp_steps.
  eapply wp_mono; [by apply (valid_spec p)|]. simpl. intros valid p0 [-> Hv]. wp_steps.
  assert (∀ i, i ∈ valid → (i < length sampled)%nat) as Hlt.
  { intros i Hi. apply Hv in Hi as [(ids & E & _) _]. by eapply lookup_lt_Some. }
  eapply wp_mono; [apply (batch_spec p size valid); try done|].
  { apply Forall_forall. intros i Hi. specialize (Hlt i Hi). split_and!; lia. }
  simpl. intros _ p' (B' & Hs & Hh).
  eapply wp_mono.
  - apply (wp_fold_each _ (λ pre acc p'', p'' = p' ∧ acc = (λ i, if decide (i ∈ valid) then draft_of p' i else []) <$> pre)); [done|].
    intros pre i post acc p'' _ [-> ->]. wp_steps. eapply wp_mono; [apply (read_spec p' size); [done|]|].
    + intros j Hj. split; [specialize (Hlt j Hj); lia|by apply Hh].
    + simpl. intros d p'' [-> ->]. wp_steps. split; [done|]. by rewrite fmap_app.
  - simpl. intros ds p'' [-> ->]. split_and!; try done; [by rewrite length_fmap, length_seq|].
    intros i d E. apply list_lookup_fmap_Some in E as (j & -> & E). apply lookup_seq in E as [-> Hi]. simpl.
    rewrite (draft_same p p' i Hs). split; intros Hw.
    + by rewrite decide_True by (by apply Hv).
    + rewrite decide_False; [done|]. by rewrite Hv.
Qed.
End batch.

Lemma ngram_batch_correct_witness :
  wp (propose 2 [[3]; []; [9]] [7%nat; 7%nat; 1%nat] [[1; 2; 3; 4; 1; 2; 3]; [1; 2; 3; 4; 1; 2; 3]; [9]])
    (λ ds _, length ds = 3%nat) (NgramProposer_init 2 3 2 100 4).
Proof.
  destruct (ngram_batch_correct [7%nat; 7%nat; 1%nat] [[1; 2; 3; 4; 1; 2; 3]; [1; 2; 3; 4; 1; 2; 3]; [9]] 2
    (NgramProposer_init 2 3 2 100 4) 4 [[3]; []; [9]]) as (ds & p' & E & _ & _ & Hl & _).
  - split; [simpl; lia|reflexivity|reflexivity|]. repeat constructor.
  - simpl. lia.
  - simpl. lia.
  - simpl. lia.
  - simpl. lia.
  - exists ds, p'. split; [exact E|exact Hl].
Defined.
