(* ===== verification/BlockTable.v ===== *)
(** Block tables of the worker: [vllm/v1/worker/block_table.py], from the block ids the scheduler
    sends to the memory slot of every token.

    A table is a CPU buffer of 32-bit numbers with a copy on the GPU ([commit_block_table]
    copies rows); the kernel reads the GPU copy as flat memory.  The programs of a kernel launch
    run in any order: the order is an argument. *)

From S2P Require Import Prelude MathUtils Request.

Definition PAD_SLOT_ID : Z := -1.

(** [kernel_block_size] and [token_alignment] may be [None]; both and [block_size] are positive
    where they are used as divisors. *)
Definition get_block_table_width (max_num_blocks block_size : Z) (kernel_block_size token_alignment : option Z) : exn + Z :=
  let kernel_block_size := default block_size kernel_block_size in
  if negb (block_size mod kernel_block_size =? 0) then inl ValueError
  else
    match token_alignment with
    | None => mret (max_num_blocks * block_size / kernel_block_size)
    | Some a =>
        if a <=? 0 then inl ValueError
        else
          let block_alignment := a / Z.gcd a block_size in
          mret (cdiv max_num_blocks block_alignment * block_alignment * block_size / kernel_block_size)
    end.

Inductive SlotMappingMode := TOKEN_TO_KV_SLOT | SLOT_MAPPING_NONE.
#[global] Instance SlotMappingMode_eq_dec : EqDecision SlotMappingMode.
Proof. solve_decision. Defined.

Record BlockTable := mkBlockTable {
  max_num_batched_tokens : nat;
  kv_cache_block_size : Z;
  kernel_block_size : Z; (** the attribute [block_size] *)
  blocks_per_kv_block : Z;
  use_hybrid_blocks : bool;
  row_width : nat; (** [max_num_blocks_per_req] *)
  table_np : list (list Z);
  table_gpu : list (list Z);
  num_blocks_per_row : list nat;
  slot_mapping : list Z; (** on the GPU *)
  dcp_world_size : Z;
  dcp_rank : Z;
  interleave_size : Z;
  slot_mapping_mode : SlotMappingMode;
}.

Definition BlockTable_init (block_size : Z) (max_num_reqs max_num_blocks_per_req max_tokens : nat) (kernel_size interleave : Z)
    (world rank : Z) (mode : SlotMappingMode) : exn + BlockTable :=
  let hybrid := negb (kernel_size =? block_size) in
  if hybrid && negb (block_size mod kernel_size =? 0) then inl ValueError
  else
    let blocks_per := if hybrid then block_size / kernel_size else 1 in
    let width := (max_num_blocks_per_req * Z.to_nat blocks_per)%nat in
    let zeros := replicate max_num_reqs (replicate width 0) in
    mret (mkBlockTable max_tokens block_size (if hybrid then kernel_size else block_size) blocks_per hybrid width
            zeros zeros (replicate max_num_reqs 0%nat) (replicate max_tokens 0) world rank interleave mode).

Definition set_table (np : list (list Z)) (nums : list nat) (t : BlockTable) : BlockTable :=
  mkBlockTable (max_num_batched_tokens t) (kv_cache_block_size t) (kernel_block_size t) (blocks_per_kv_block t)
    (use_hybrid_blocks t) (row_width t) np (table_gpu t) nums (slot_mapping t) (dcp_world_size t) (dcp_rank t)
    (interleave_size t) (slot_mapping_mode t).
Definition set_gpu (gpu : list (list Z)) (slots : list Z) (t : BlockTable) : BlockTable :=
  mkBlockTable (max_num_batched_tokens t) (kv_cache_block_size t) (kernel_block_size t) (blocks_per_kv_block t)
    (use_hybrid_blocks t) (row_width t) (table_np t) gpu (num_blocks_per_row t) slots (dcp_world_size t) (dcp_rank t)
    (interleave_size t) (slot_mapping_mode t).

(** ** Rows *)

(** [row[start : start + len(v)] = v] in numpy: the slice ends with the row, and one value is
    repeated. *)
Definition assign_slice (row : list Z) (start : nat) (v : list Z) : exn + list Z :=
  let m := Nat.min (length v) (length row - start) in
  if (length v =? m)%nat then mret (take start row ++ v ++ drop (start + m) row)
  else match v with
       | [x] => mret (take start row ++ replicate m x ++ drop (start + m) row)
       | _ => inl ValueError
       end.

(** A list of Python integers must fit the 32-bit buffer; an array is converted by truncation. *)
Definition fits_int32 (n : Z) : bool := (- 2 ^ 31 <=? n) && (n <? 2 ^ 31).
Definition map_to_kernel_blocks (ids : list Z) (blocks_per : Z) : list Z :=
  if blocks_per =? 1 then ids else mbind (λ b, (λ i, b * blocks_per + i) <$> py_range 0 blocks_per) ids.

Definition get_row (row_idx : nat) : M BlockTable (list Z * nat) :=
  t ← get;
  row ← lift_option IndexError (table_np t !! row_idx);
  n ← lift_option IndexError (num_blocks_per_row t !! row_idx);
  mret (row, n).
Definition put_num (row_idx n : nat) : M BlockTable unit :=
  modify (λ t, set_table (table_np t) (<[row_idx := n]> (num_blocks_per_row t)) t).
Definition put_row (row_idx : nat) (row : list Z) : M BlockTable unit :=
  modify (λ t, set_table (<[row_idx := row]> (table_np t)) (num_blocks_per_row t) t).

Definition append_row (block_ids : list Z) (row_idx : nat) : M BlockTable unit :=
  if bool_decide (block_ids = []) then mret tt
  else
    t ← get;
    let ids := if use_hybrid_blocks t then c_int 32 <$> map_to_kernel_blocks block_ids (blocks_per_kv_block t) else block_ids in
    '(row, start) ← get_row row_idx;
    put_num row_idx (start + length ids);;
    (if forallb fits_int32 ids then mret tt else raise OverflowError);;
    row' ← lift_result (assign_slice row start ids);
    put_row row_idx row'.

Definition add_row (block_ids : list Z) (row_idx : nat) : M BlockTable unit :=
  get_row row_idx;; put_num row_idx 0;; append_row block_ids row_idx.

(** [row[:n] = 0]. *)
Definition zero_prefix (row : list Z) (n : nat) : list Z := replicate (Nat.min n (length row)) 0 ++ drop n row.

Definition clear_row (row_idx : nat) : M BlockTable unit :=
  '(row, n) ← get_row row_idx;
  when (0 <? n)%nat (put_row row_idx (zero_prefix row n));;
  put_num row_idx 0.

Definition move_row (src tgt : nat) : M BlockTable unit :=
  '(from, n) ← get_row src;
  '(to, _) ← get_row tgt;
  put_row tgt (take n from ++ drop n to);;
  put_num tgt n;;
  '(from, _) ← get_row src;
  put_row src (zero_prefix from n);;
  put_num src 0.

Definition swap_row (src tgt : nat) : M BlockTable unit :=
  '(row_s, n_s) ← get_row src;
  '(row_t, n_t) ← get_row tgt;
  put_num src n_t;; put_num tgt n_s;;
  put_row src row_t;; put_row tgt row_s.

Definition commit_block_table (num_reqs : nat) : M BlockTable unit :=
  modify (λ t, set_gpu (take num_reqs (table_np t) ++ drop num_reqs (table_gpu t)) (slot_mapping t) t).

(** [clear] fills both buffers and keeps [num_blocks_per_row]. *)
Definition clear_table : M BlockTable unit :=
  modify (λ t, let zero := fmap (M := list) (fmap (M := list) (λ _ : Z, 0)) in
               set_gpu (zero (table_gpu t)) (slot_mapping t) (set_table (zero (table_np t)) (num_blocks_per_row t) t)).

(** ** The slot mapping kernel *)

Definition TRITON_BLOCK_SIZE : Z := 1024.

Section kernel.
Context (t : BlockTable) (num_reqs : nat) (query_start_loc positions : list Z).

(** One lane: where a position is stored on this rank, or [PAD_SLOT_ID]. *)
Definition is_local (pos : Z) : bool :=
  let virtual_block_size := kv_cache_block_size t * dcp_world_size t in
  let offset := pos - pos / virtual_block_size * virtual_block_size in
  (offset / interleave_size t) mod dcp_world_size t =? dcp_rank t.
Definition local_block_offset (pos : Z) : Z :=
  let virtual_block_size := kv_cache_block_size t * dcp_world_size t in
  let offset := pos - pos / virtual_block_size * virtual_block_size in
  offset / (dcp_world_size t * interleave_size t) * interleave_size t + offset mod interleave_size t.
Definition block_index (pos : Z) : Z :=
  let virtual_block_size := kv_cache_block_size t * dcp_world_size t in
  pos / virtual_block_size * blocks_per_kv_block t + local_block_offset pos / kernel_block_size t.
Definition slot_of (req_idx : nat) (pos : Z) : exn + Z :=
  if is_local pos then
    block_number ← result_of_option IndexError
      (concat (table_gpu t) !! Z.to_nat (Z.of_nat req_idx * Z.of_nat (row_width t) + block_index pos));
    mret (block_number * kernel_block_size t + local_block_offset pos mod kernel_block_size t)
  else mret PAD_SLOT_ID.

(** The lanes of a loop over [range(a, b, BLOCK_SIZE)] that the mask keeps. *)
Definition lanes (a b : Z) : list Z :=
  mbind (λ i, filter (λ o, o < b) ((λ j, i + j) <$> py_range 0 TRITON_BLOCK_SIZE)) (py_range_step a b TRITON_BLOCK_SIZE).

Definition write_slot (slots : list Z) (o v : Z) : exn + list Z :=
  if (0 <=? o) && (o <? zlen slots) then mret (<[Z.to_nat o := v]> slots) else inl IndexError.

(** A loop of writes. *)
Fixpoint write_lanes (value : Z → exn + Z) (offsets : list Z) (slots : list Z) : exn + list Z :=
  match offsets with
  | [] => mret slots
  | o :: rest => v ← value o; slots' ← write_slot slots o v; write_lanes value rest slots'
  end.

(** The program of request [req_idx]; the last one pads. *)
Definition slot_program (req_idx : nat) (slots : list Z) : exn + list Z :=
  if (req_idx =? num_reqs)%nat then
    write_lanes (λ _, mret PAD_SLOT_ID) (lanes (zlen positions) (Z.of_nat (max_num_batched_tokens t))) slots
  else
    start_idx ← result_of_option IndexError (query_start_loc !! req_idx);
    end_idx ← result_of_option IndexError (query_start_loc !! S req_idx);
    write_lanes (λ o, pos ← result_of_option IndexError (positions !! Z.to_nat o); slot_of req_idx pos)
      (lanes start_idx end_idx) slots.

Fixpoint run_programs (order : list nat) (slots : list Z) : exn + list Z :=
  match order with
  | [] => mret slots
  | r :: rest => slots' ← slot_program r slots; run_programs rest slots'
  end.
End kernel.

(** [order] is the order in which the programs [0, ..., num_reqs] run. *)
Definition compute_slot_mapping (order : list nat) (num_reqs : nat) (query_start_loc positions : list Z) : M BlockTable unit :=
  t ← get;
  if bool_decide (slot_mapping_mode t = SLOT_MAPPING_NONE) then mret tt
  else
    slots ← lift_result (run_programs t num_reqs query_start_loc positions order (slot_mapping t));
    modify (set_gpu (table_gpu t) slots).

(** ** Several groups *)

Definition MultiGroupBlockTable : Type := list BlockTable.

(** The width of the table of each group; only tables with a slot mapping are aligned. *)
Definition group_widths (max_num_blocks block_sizes : list Z) (modes : list SlotMappingMode) : exn + list Z :=
  mapM (λ '(n, size, mode), get_block_table_width n size None
          (if bool_decide (mode = SLOT_MAPPING_NONE) then None else Some 128))
    (zip (zip max_num_blocks block_sizes) modes).
Definition MultiGroupBlockTable_init (max_num_reqs max_tokens : nat) (block_sizes kernel_block_sizes max_num_blocks : list Z)
    (interleave world rank : Z) (slot_mapping_modes : option (list SlotMappingMode)) : exn + MultiGroupBlockTable :=
  if negb (length kernel_block_sizes =? length block_sizes)%nat then inl ValueError
  else
    let modes := default (replicate (length block_sizes) TOKEN_TO_KV_SLOT) slot_mapping_modes in
    if negb (length modes =? length block_sizes)%nat then inl ValueError
    else if negb (length max_num_blocks =? length block_sizes)%nat then inl ValueError
    else
      widths ← group_widths max_num_blocks block_sizes modes;
      mapM (λ '(size, kernel_size, width, mode),
              BlockTable_init size max_num_reqs (Z.to_nat width) max_tokens kernel_size interleave world rank mode)
        (zip (zip (zip block_sizes kernel_block_sizes) widths) modes).

Definition on_table {A} (i : nat) (op : M BlockTable A) : M MultiGroupBlockTable A :=
  ts ← get;
  t ← lift_option IndexError (ts !! i);
  let '(r, t') := op t in
  modify (<[i := t']>);; lift_result r.
Definition each_table (op : nat → M BlockTable unit) : M MultiGroupBlockTable unit :=
  ts ← get; for_each (seq 0 (length ts)) (λ i, on_table i (op i)).

Definition group_ids (block_ids : list (list Z)) (i : nat) (op : list Z → M BlockTable unit) : M BlockTable unit :=
  ids ← lift_option IndexError (block_ids !! i); op ids.
Definition multi_append_row (block_ids : list (list Z)) (row_idx : nat) : M MultiGroupBlockTable unit :=
  each_table (λ i, group_ids block_ids i (λ ids, append_row ids row_idx)).
Definition multi_add_row (block_ids : list (list Z)) (row_idx : nat) : M MultiGroupBlockTable unit :=
  each_table (λ i, group_ids block_ids i (λ ids, add_row ids row_idx)).
Definition multi_clear_row (row_idx : nat) : M MultiGroupBlockTable unit := each_table (λ _, clear_row row_idx).
Definition multi_move_row (src tgt : nat) : M MultiGroupBlockTable unit := each_table (λ _, move_row src tgt).
Definition multi_swap_row (src tgt : nat) : M MultiGroupBlockTable unit := each_table (λ _, swap_row src tgt).
Definition multi_commit_block_table (num_reqs : nat) : M MultiGroupBlockTable unit :=
  each_table (λ _, commit_block_table num_reqs).
Definition multi_compute_slot_mapping (order : list nat) (num_reqs : nat) (query_start_loc positions : list Z)
    : M MultiGroupBlockTable unit :=
  each_table (λ _, compute_slot_mapping order num_reqs query_start_loc positions).
Definition multi_clear : M MultiGroupBlockTable unit := each_table (λ _, clear_table).
