(* ===== verification/BlockTableFacts.v ===== *)
(** Block tables as lists of block ids, and the slots of tokens: every position of a request has
    one rank and one slot, inside its block, and no two positions share it. *)

From S2P Require Import Prelude MathUtils Request BlockTable.

Set Warnings "-level-tolerance,-clear-no-such-hyp".

(** ** Rows *)

(** Row [i] of the table stands for the ids [rows !! i]. *)
Record table_rep (t : BlockTable) (rows : list (list Z)) : Prop := {
  tr_np : length (table_np t) = length rows;
  tr_nums : length (num_blocks_per_row t) = length rows;
  tr_gpu : length (table_gpu t) = length rows ∧ Forall (λ row, length row = row_width t) (table_gpu t);
  tr_row i r : rows !! i = Some r → ∃ row, table_np t !! i = Some row ∧ length row = row_width t
    ∧ num_blocks_per_row t !! i = Some (length r) ∧ r `prefix_of` row;
}.

(** The parts of a table that do not change. *)
Definition same_layout (t t' : BlockTable) : Prop :=
  kv_cache_block_size t' = kv_cache_block_size t ∧ kernel_block_size t' = kernel_block_size t
  ∧ blocks_per_kv_block t' = blocks_per_kv_block t ∧ use_hybrid_blocks t' = use_hybrid_blocks t
  ∧ row_width t' = row_width t ∧ dcp_world_size t' = dcp_world_size t ∧ dcp_rank t' = dcp_rank t
  ∧ interleave_size t' = interleave_size t ∧ slot_mapping_mode t' = slot_mapping_mode t
  ∧ max_num_batched_tokens t' = max_num_batched_tokens t ∧ length (slot_mapping t') = length (slot_mapping t).
#[global] Instance same_layout_preorder : PreOrder same_layout.
Proof.
  split; [by intros t|]. intros t t' t'' H1 H2. unfold same_layout in *. destruct_and!. split_and!; congruence.
Qed.

(** The kernel block ids of some blocks, which must fit 32 bits. *)
Definition kernel_ids (t : BlockTable) (ids : list Z) : list Z :=
  if use_hybrid_blocks t then map_to_kernel_blocks ids (blocks_per_kv_block t) else ids.
Definition small_ids (t : BlockTable) (ids : list Z) : Prop := Forall (λ n, - 2 ^ 31 ≤ n < 2 ^ 31) (kernel_ids t ids).

Section rows.
Implicit Types (t : BlockTable) (rows : list (list Z)) (i : nat).

Lemma get_row_spec t rows i r :
  table_rep t rows → rows !! i = Some r →
  wp (get_row i) (λ x t', t' = t ∧ ∃ row, x = (row, length r) ∧ table_np t !! i = Some row ∧ length row = row_width t ∧ r `prefix_of` row) t.
Proof.
  intros R Hr. destruct (tr_row _ _ R i r Hr) as (row & E & Hl & En & Hp). unfold get_row. wp_steps.
  eapply wp_lift_option; [done|]. wp_steps. eapply wp_lift_option; [done|]. wp_steps. split; [done|]. by exists row.
Qed.

(** Writing row [i] and its length. *)
Lemma put_both t rows i row r :
  table_rep t rows → (i < length rows)%nat → length row = row_width t → r `prefix_of` row →
  table_rep (set_table (<[i := row]> (table_np t)) (<[i := length r]> (num_blocks_per_row t)) t) (<[i := r]> rows).
Proof.
  intros [R1 R2 R3 R4] Hi Hl Hp. split; simpl; rewrite ?length_insert; try done.
  intros j r' Hj. destruct (decide (j = i)) as [->|Hne].
  - rewrite list_lookup_insert_eq in Hj by done. injection Hj as <-. exists row.
    rewrite !list_lookup_insert_eq by congruence. done.
  - rewrite list_lookup_insert_ne in Hj by done. rewrite !list_lookup_insert_ne by done. by apply R4.
Qed.

Lemma append_row_spec t rows i r ids :
  table_rep t rows → rows !! i = Some r → small_ids t ids → (length r + length (kernel_ids t ids) ≤ row_width t)%nat →
  wp (append_row ids i) (λ _ t', table_rep t' (<[i := r ++ kernel_ids t ids]> rows) ∧ same_layout t t') t.
Proof.
  intros R Hr Hs Hw. unfold append_row. case_bool_decide as E.
  { subst. wp_steps. assert (kernel_ids t [] = []) as ->.
    { unfold kernel_ids, map_to_kernel_blocks. by destruct (use_hybrid_blocks t), (blocks_per_kv_block t =? 1). }
    rewrite app_nil_r, list_insert_id by done. done. }
  wp_steps. eapply wp_mono; [by apply (get_row_spec t rows i r)|]. simpl.
  intros x t' (-> & row & -> & En & Hl & rest & Ep). simpl in *. unfold put_num, put_row. wp_steps.
  assert ((if use_hybrid_blocks t then c_int 32 <$> map_to_kernel_blocks ids (blocks_per_kv_block t) else ids) = kernel_ids t ids) as ->.
  { unfold small_ids, kernel_ids in *. destruct (use_hybrid_blocks t); [|done]. rewrite <-(list_fmap_id (map_to_kernel_blocks _ _)) at 2.
    apply list_fmap_ext. intros j x Ex. apply c_int32_id. by eapply (Forall_lookup_1 _ _ j x Hs). }
  assert (forallb fits_int32 (kernel_ids t ids) = true) as ->.
  { apply forallb_forall. intros x Hx%list_elem_of_In. unfold small_ids in Hs. rewrite Forall_forall in Hs. specialize (Hs x Hx).
    unfold fits_int32. apply andb_true_iff. split; [apply Z.leb_le|apply Z.ltb_lt]; lia. }
  wp_steps. assert (length row = length r + length rest)%nat as Hlr by (by rewrite Ep, length_app).
  unfold assign_slice. set (k := kernel_ids t ids) in *.
  replace (length k `min` (length row - length r))%nat with (length k) by lia. rewrite Nat.eqb_refl.
  eapply wp_lift_result; [done|]. wp_steps. split; [|done]. simpl.
  assert (length (r ++ k) = length r + length k)%nat as El by apply length_app.
  assert (i < length rows)%nat as Hi by (by eapply lookup_lt_Some).
  rewrite <-El. apply (put_both t rows i); [done|done| |].
  - rewrite Ep, take_app_length, !length_app, length_drop, length_app. lia.
  - exists (drop (length r + length k) row). assert (take (length r) row = r) as -> by (by rewrite Ep, take_app_length).
    by rewrite (assoc_L (++)), El.
Qed.

Lemma add_row_spec t rows i r ids :
  table_rep t rows → rows !! i = Some r → small_ids t ids → (length (kernel_ids t ids) ≤ row_width t)%nat →
  wp (add_row ids i) (λ _ t', table_rep t' (<[i := kernel_ids t ids]> rows) ∧ same_layout t t') t.
Proof.
  intros R Hr Hs Hw. unfold add_row. wp_steps. eapply wp_mono; [by apply (get_row_spec t rows i r)|]. simpl.
  intros x t' (-> & row & -> & En & Hl & _). simpl in *. unfold put_num. wp_steps.
  assert (i < length rows)%nat as Hi by (by eapply lookup_lt_Some).
  pose proof (put_both t rows i row [] R Hi Hl ltac:(apply prefix_nil)) as R'. rewrite (list_insert_id (table_np t) i row En) in R'.
  eapply wp_mono; [apply (append_row_spec _ (<[i := []]> rows) i [] ids R'); [by apply list_lookup_insert_eq|done|done]|].
  simpl. intros _ t' [R2 L2]. rewrite list_insert_insert_eq in R2. done.
Qed.

Lemma zero_prefix_length row n : length (zero_prefix row n) = length row.
Proof. unfold zero_prefix. rewrite length_app, length_replicate, length_drop. lia. Qed.

Lemma clear_row_spec t rows i r :
  table_rep t rows → rows !! i = Some r →
  wp (clear_row i) (λ _ t', table_rep t' (<[i := []]> rows) ∧ same_layout t t') t.
Proof.
  intros R Hr. unfold clear_row. wp_steps. eapply wp_mono; [by apply (get_row_spec t rows i r)|]. simpl.
  intros x t' (-> & row & -> & En & Hl & _). simpl in *. wp_steps. unfold put_row, put_num.
  assert (i < length rows)%nat as Hi by (by eapply lookup_lt_Some).
  apply wp_when; intros E; wp_steps.
  - split; [|done]. apply (put_both t rows i _ []); [done|done|by rewrite zero_prefix_length|apply prefix_nil].
  - split; [|done]. pose proof (put_both t rows i row [] R Hi Hl ltac:(apply prefix_nil)) as R'.
    by rewrite (list_insert_id (table_np t) i row En) in R'.
Qed.

Lemma move_row_spec t rows src tgt r r' :
  table_rep t rows → rows !! src = Some r → rows !! tgt = Some r' → src ≠ tgt →
  wp (move_row src tgt) (λ _ t', table_rep t' (<[src := []]> (<[tgt := r]> rows)) ∧ same_layout t t') t.
Proof.
  intros R Hr Hr' Hne. unfold move_row. wp_steps. eapply wp_mono; [by apply (get_row_spec t rows src r)|]. simpl.
  intros x t' (-> & from & -> & Ef & Hlf & rest & Ep). simpl in *. wp_steps.
  eapply wp_mono; [by apply (get_row_spec t rows tgt r')|]. simpl. intros x t' (-> & to & -> & Et & Hlt & _). simpl in *. wp_steps.
  assert (src < length rows)%nat as Hi by (by eapply lookup_lt_Some). assert (tgt < length rows)%nat as Hi' by (by eapply lookup_lt_Some).
  assert (length from = length r + length rest)%nat as Hlr by (by rewrite Ep, length_app).
  pose proof (put_both t rows tgt (take (length r) from ++ drop (length r) to) r R Hi') as R'.
  rewrite length_app, length_take, length_drop in R'. specialize (R' ltac:(lia)).
  assert (r `prefix_of` take (length r) from ++ drop (length r) to) as Hpre.
  { rewrite Ep, take_app_length. by exists (drop (length r) to). }
  specialize (R' Hpre). unfold put_row, put_num. wp_steps.
  set (t1 := set_table _ (<[tgt := length r]> (num_blocks_per_row t)) t) in R'.
  match goal with |- wp _ _ ?s => change s with t1 end.
  eapply wp_mono; [apply (get_row_spec _ _ src r R'); by rewrite list_lookup_insert_ne|]. simpl.
  intros x t' (-> & from' & -> & Ef' & Hlf' & _). simpl in *. wp_steps. split; [|done].
  pose proof (put_both t1 (<[tgt := r]> rows) src (zero_prefix from' (length r)) [] R') as R2.
  rewrite length_insert, zero_prefix_length in R2. exact (R2 Hi Hlf' (prefix_nil _)).
Qed.

Lemma swap_row_spec t rows src tgt r r' :
  table_rep t rows → rows !! src = Some r → rows !! tgt = Some r' →
  wp (swap_row src tgt) (λ _ t', table_rep t' (<[tgt := r]> (<[src := r']> rows)) ∧ same_layout t t') t.
Proof.
  intros R Hr Hr'. unfold swap_row. wp_steps. eapply wp_mono; [by apply (get_row_spec t rows src r)|]. simpl.
  intros x t' (-> & rs & -> & Es & Hls & Hps). simpl in *. wp_steps.
  eapply wp_mono; [by apply (get_row_spec t rows tgt r')|]. simpl. intros x t' (-> & rt & -> & Et & Hlt & Hpt). simpl in *.
  unfold put_row, put_num. wp_steps. split; [|done]. simpl.
  assert (src < length rows)%nat as Hi by (by eapply lookup_lt_Some). assert (tgt < length rows)%nat as Hi' by (by eapply lookup_lt_Some).
  pose proof (put_both t rows src rt r' R Hi Hlt Hpt) as R1.
  pose proof (put_both _ _ tgt rs r R1) as R2. rewrite length_insert in R2. by apply R2.
Qed.
End rows.

(** ** Slots *)

Section arithmetic.
Context (K w il : Z) (HK : 0 < K) (Hw : 0 < w) (Hil : 0 < il) (Hdiv : K mod il = 0).

(** The offset of a position in its virtual block, its rank, and its offset in the block there. *)
Definition voffset (pos : Z) : Z := pos mod (K * w).
Definition owner (pos : Z) : Z := (voffset pos / il) mod w.
Definition offset_in_block (pos : Z) : Z := voffset pos / (w * il) * il + voffset pos mod il.

Lemma voffset_bound pos : 0 ≤ voffset pos < K * w.
Proof using HK Hw. apply Z.mod_pos_bound. nia. Qed.
Lemma owner_bound pos : 0 ≤ owner pos < w.
Proof using Hw. apply Z.mod_pos_bound. lia. Qed.

Lemma offset_parts pos : offset_in_block pos / il = voffset pos / (w * il) ∧ offset_in_block pos mod il = voffset pos mod il.
Proof using Hil.
  unfold offset_in_block. pose proof (Z.mod_pos_bound (voffset pos) il Hil) as Hm.
  rewrite Z.add_comm. split; [rewrite Z.div_add, Z.div_small by lia; lia|]. rewrite Z.mod_add, Z.mod_small by lia. done.
Qed.

Lemma offset_in_block_bound pos : 0 ≤ offset_in_block pos < K.
Proof using HK Hw Hil Hdiv.
  pose proof (voffset_bound pos) as Hv. unfold offset_in_block. pose proof (Z.mod_pos_bound (voffset pos) il Hil) as Hm.
  apply Z.div_exact in Hdiv; [|lia]. set (c := K / il) in *.
  assert (0 ≤ voffset pos / (w * il) < c) as Hq; [|nia].
  split; [apply Z.div_pos; nia|]. apply Z.div_lt_upper_bound; [nia|]. nia.
Qed.

(** The rank and the offset there determine the position in the virtual block. *)
Lemma voffset_of pos :
  voffset pos = offset_in_block pos / il * (w * il) + owner pos * il + offset_in_block pos mod il.
Proof using Hw Hil.
  destruct (offset_parts pos) as [-> ->]. unfold owner. set (o := voffset pos).
  replace (w * il) with (il * w) by lia. rewrite <-Z.div_div by lia.
  pose proof (Z.div_mod o il ltac:(lia)). pose proof (Z.div_mod (o / il) w ltac:(lia)). nia.
Qed.
End arithmetic.

(** A table for blocks of [kv_cache_block_size] tokens cut into kernel blocks. *)
Record layout_ok (t : BlockTable) : Prop := {
  ly_size : 0 < kernel_block_size t ∧ 0 < blocks_per_kv_block t
    ∧ kv_cache_block_size t = kernel_block_size t * blocks_per_kv_block t;
  ly_hybrid : use_hybrid_blocks t = false → blocks_per_kv_block t = 1;
  ly_ranks : 0 < dcp_world_size t ∧ 0 ≤ dcp_rank t < dcp_world_size t;
  ly_interleave : 0 < interleave_size t ∧ kv_cache_block_size t mod interleave_size t = 0;
}.

Section slots.
Implicit Types (t : BlockTable) (bs : list Z).

Lemma kernel_ids_lookup t bs j b i :
  layout_ok t → bs !! j = Some b → (Z.of_nat i < blocks_per_kv_block t) →
  kernel_ids t bs !! (j * Z.to_nat (blocks_per_kv_block t) + i)%nat = Some (b * blocks_per_kv_block t + Z.of_nat i).
Proof.
  intros [(L1 & L2 & L3) L4 _ _] Hb Hi. unfold kernel_ids, map_to_kernel_blocks.
  assert (blocks_per_kv_block t = 1 → bs !! (j * Z.to_nat (blocks_per_kv_block t) + i)%nat
    = Some (b * blocks_per_kv_block t + Z.of_nat i)) as H1.
  { intros E. rewrite E in *. replace (j * Z.to_nat 1 + i)%nat with j by lia. rewrite Hb. f_equal. lia. }
  destruct (use_hybrid_blocks t); [|by apply H1, L4]. destruct (Z.eqb_spec (blocks_per_kv_block t) 1) as [E|_]; [by apply H1|].
  clear H1. set (n := blocks_per_kv_block t) in *. revert j Hb. induction bs as [|b0 bs IH]; intros [|j] Hb; [done..| |].
  - injection Hb as ->. simpl. rewrite lookup_app_l by (rewrite length_fmap, length_py_range; lia).
    rewrite list_lookup_fmap. unfold py_range. rewrite list_lookup_fmap, lookup_seq_lt by lia. done.
  - simpl in Hb |- *. rewrite lookup_app_r; rewrite length_fmap, length_py_range, Z.sub_0_r; [|lia].
    replace (Z.to_nat n + j * Z.to_nat n + i - Z.to_nat n)%nat with (j * Z.to_nat n + i)%nat by lia. by apply IH.
Qed.

Lemma concat_lookup {A} (l : list (list A)) W i row j :
  Forall (λ r, length r = W) l → l !! i = Some row → (j < W)%nat → concat l !! (i * W + j)%nat = row !! j.
Proof.
  intros Hf. revert i. induction l as [|r l IH]; intros [|i] Hi Hj; [done..| |]; apply Forall_cons in Hf as [Hr Hf]; simpl in *.
  - injection Hi as ->. by rewrite lookup_app_l by lia.
  - rewrite lookup_app_r by lia. rewrite Hr. replace (W + i * W + j - W)%nat with (i * W + j)%nat by lia. by apply IH.
Qed.

(** The arithmetic of the kernel. *)
Lemma virtual_offset t pos : layout_ok t →
  let V := kv_cache_block_size t * dcp_world_size t in
  0 < V ∧ pos - pos / V * V = voffset (kv_cache_block_size t) (dcp_world_size t) pos.
Proof.
  intros [(L1 & L2 & L3) _ [L4 _] _] V. assert (0 < V) as HV by (unfold V; nia). split; [done|].
  unfold voffset. fold V. rewrite Zmod_eq_full by lia. done.
Qed.
Lemma is_local_owner t pos : layout_ok t →
  is_local t pos = (owner (kv_cache_block_size t) (dcp_world_size t) (interleave_size t) pos =? dcp_rank t).
Proof. intros L. unfold is_local, owner. by rewrite (proj2 (virtual_offset t pos L)). Qed.
Lemma local_offset t pos : layout_ok t →
  local_block_offset t pos = offset_in_block (kv_cache_block_size t) (dcp_world_size t) (interleave_size t) pos.
Proof. intros L. unfold local_block_offset, offset_in_block. by rewrite (proj2 (virtual_offset t pos L)). Qed.

(** The slot of a position of a request with the blocks [bs]. *)
Definition slot_in (t : BlockTable) bs (pos : Z) : option Z :=
  b ← bs !! Z.to_nat (pos / (kv_cache_block_size t * dcp_world_size t));
  Some (if owner (kv_cache_block_size t) (dcp_world_size t) (interleave_size t) pos =? dcp_rank t
        then b * kv_cache_block_size t + offset_in_block (kv_cache_block_size t) (dcp_world_size t) (interleave_size t) pos
        else PAD_SLOT_ID).

Lemma slot_of_spec t bs req row pos :
  layout_ok t → Forall (λ r, length r = row_width t) (table_gpu t) → table_gpu t !! req = Some row →
  kernel_ids t bs `prefix_of` row → 0 ≤ pos < zlen bs * (kv_cache_block_size t * dcp_world_size t) →
  ∃ v, slot_of t req pos = inr v ∧ slot_in t bs pos = Some v.
Proof.
  intros L Hg Hrow Hp Hpos. pose proof L as [(L1 & L2 & L3) _ (L4 & L5) (L6 & L7)].
  set (V := kv_cache_block_size t * dcp_world_size t) in *. destruct (virtual_offset t pos L) as [HV _]. fold V in HV.
  assert (0 ≤ pos / V < zlen bs) as Hq by (split; [apply Z.div_pos; lia|apply Z.div_lt_upper_bound; lia]).
  destruct (lookup_lt_is_Some_2 bs (Z.to_nat (pos / V))) as [b Hb]; [unfold zlen in Hq; lia|].
  unfold slot_of, slot_in. rewrite is_local_owner, local_offset by done. fold V. rewrite Hb. simpl.
  destruct (_ =? _); [|by eexists]. eexists. split; [|done].
  assert (0 < kv_cache_block_size t) as HK by (rewrite L3; nia).
  pose proof (offset_in_block_bound _ _ _ HK L4 L6 L7 pos) as Ho. set (o := offset_in_block _ _ _ pos) in *.
  assert (0 ≤ o / kernel_block_size t < blocks_per_kv_block t) as Hd.
  { split; [apply Z.div_pos; lia|]. apply Z.div_lt_upper_bound; [lia|]. nia. }
  pose proof (kernel_ids_lookup t bs _ b (Z.to_nat (o / kernel_block_size t)) L Hb ltac:(lia)) as Hk.
  set (j := (Z.to_nat (pos / V) * Z.to_nat (blocks_per_kv_block t) + Z.to_nat (o / kernel_block_size t))%nat) in *.
  assert (row !! j = Some (b * blocks_per_kv_block t + o / kernel_block_size t)) as Hr.
  { rewrite (prefix_lookup_Some _ _ _ _ Hk Hp). f_equal. lia. }
  assert (j < row_width t)%nat as Hj.
  { apply lookup_lt_Some in Hr. by rewrite (Forall_lookup_1 _ _ req row Hg Hrow) in Hr. }
  assert (Z.to_nat (Z.of_nat req * Z.of_nat (row_width t) + block_index t pos) = (req * row_width t + j)%nat) as ->.
  { unfold block_index. rewrite local_offset by done. fold V o. unfold j. nia. }
  rewrite (concat_lookup _ (row_width t) req row j Hg Hrow Hj), Hr. simpl. unfold mret, result_ret. f_equal.
  pose proof (Z.div_mod o (kernel_block_size t) ltac:(lia)). rewrite L3. nia.
Qed.
End slots.
