(* ===== verification/BlockTableTheorems.v ===== *)
(** The worker's block tables refine lists of block ids, and the slot mapping kernel sends every
    scheduled token to its own place in its own block. *)

From S2P Require Import Prelude MathUtils Request BlockTable BlockTableFacts.

Set Warnings "-level-tolerance,-clear-no-such-hyp".

(** ** Sequences of row operations *)

Inductive row_op :=
  | RAppend (ids : list Z) (i : nat)
  | RAdd (ids : list Z) (i : nat)
  | RClear (i : nat)
  | RMove (src tgt : nat)
  | RSwap (src tgt : nat).

Definition perform_row (op : row_op) : M BlockTable unit :=
  match op with
  | RAppend ids i => append_row ids i
  | RAdd ids i => add_row ids i
  | RClear i => clear_row i
  | RMove src tgt => move_row src tgt
  | RSwap src tgt => swap_row src tgt
  end.

(** The same operation on lists of ids. *)
Definition abstract_row (t : BlockTable) (rows : list (list Z)) (op : row_op) : list (list Z) :=
  match op with
  | RAppend ids i => alter (λ r, r ++ kernel_ids t ids) i rows
  | RAdd ids i => <[i := kernel_ids t ids]> rows
  | RClear i => <[i := []]> rows
  | RMove src tgt => <[src := []]> (<[tgt := default [] (rows !! src)]> rows)
  | RSwap src tgt => <[tgt := default [] (rows !! src)]> (<[src := default [] (rows !! tgt)]> rows)
  end.

(** Rows exist, ids fit 32 bits and the row has room for them. *)
Definition row_op_ok (t : BlockTable) (rows : list (list Z)) (op : row_op) : Prop :=
  match op with
  | RAppend ids i => ∃ r, rows !! i = Some r ∧ small_ids t ids ∧ (length r + length (kernel_ids t ids) ≤ row_width t)%nat
  | RAdd ids i => is_Some (rows !! i) ∧ small_ids t ids ∧ (length (kernel_ids t ids) ≤ row_width t)%nat
  | RClear i => is_Some (rows !! i)
  | RMove src tgt => is_Some (rows !! src) ∧ is_Some (rows !! tgt) ∧ src ≠ tgt
  | RSwap src tgt => is_Some (rows !! src) ∧ is_Some (rows !! tgt)
  end.
Fixpoint row_ops_ok (t : BlockTable) (rows : list (list Z)) (ops : list row_op) : Prop :=
  match ops with
  | [] => True
  | op :: ops' => row_op_ok t rows op ∧ row_ops_ok t (abstract_row t rows op) ops'
  end.

Lemma same_layout_ids t t' : same_layout t t' → kernel_ids t' = kernel_ids t ∧ row_width t' = row_width t.
Proof. intros (_ & _ & E1 & E2 & E3 & _). unfold kernel_ids. by rewrite E1, E2, E3. Qed.
Lemma abstract_row_same t t' rows op : same_layout t t' → abstract_row t' rows op = abstract_row t rows op.
Proof. intros L. destruct (same_layout_ids t t' L) as [E _]. destruct op; simpl; by rewrite ?E. Qed.
Lemma row_op_ok_same t t' rows op : same_layout t t' → row_op_ok t' rows op ↔ row_op_ok t rows op.
Proof. intros L. destruct (same_layout_ids t t' L) as [E1 E2]. unfold row_op_ok, small_ids. destruct op; by rewrite ?E1, ?E2. Qed.

Lemma perform_row_spec t rows op :
  table_rep t rows → row_op_ok t rows op →
  wp (perform_row op) (λ _ t', table_rep t' (abstract_row t rows op) ∧ same_layout t t') t.
Proof.
  intros R Hok. destruct op as [ids i|ids i|i|src tgt|src tgt]; simpl in *.
  - destruct Hok as (r & Hr & Hs & Hw). eapply wp_mono; [by apply (append_row_spec t rows i r)|]. simpl. intros _ t' H.
    replace (alter (λ r0, r0 ++ kernel_ids t ids) i rows) with (<[i := r ++ kernel_ids t ids]> rows); [done|].
    apply list_eq. intros j. destruct (decide (j = i)) as [->|Hne].
    + rewrite list_lookup_alter_eq, Hr, list_lookup_insert_eq by (by eapply lookup_lt_Some). done.
    + by rewrite list_lookup_alter_ne, list_lookup_insert_ne.
  - destruct Hok as ([r Hr] & Hs & Hw). by apply (add_row_spec t rows i r).
  - destruct Hok as [r Hr]. by apply (clear_row_spec t rows i r).
  - destruct Hok as ([r Hr] & [r' Hr'] & Hne). rewrite Hr. by apply (move_row_spec t rows src tgt r r').
  - destruct Hok as ([r Hr] & [r' Hr']). rewrite Hr, Hr'. by apply (swap_row_spec t rows src tgt r r').
Qed.

Lemma row_ops_spec t rows ops :
  table_rep t rows → row_ops_ok t rows ops →
  wp (for_each ops perform_row) (λ _ t', table_rep t' (foldl (abstract_row t) rows ops) ∧ same_layout t t') t.
Proof.
  intros R Hok. assert (∀ s, same_layout t s → table_rep s rows →
    wp (for_each ops perform_row) (λ _ t', table_rep t' (foldl (abstract_row t) rows ops) ∧ same_layout t t') s) as H; [|by apply H].
  clear R. revert rows Hok. induction ops as [|op ops IH]; intros rows Hok s L R; simpl; [by wp_steps|]. destruct Hok as [H1 H2].
  wp_steps. eapply wp_mono; [apply (perform_row_spec s rows op R); by apply (row_op_ok_same t s)|]. simpl. intros _ s' [R' L'].
  rewrite (abstract_row_same t s) in R' by done. apply IH; [done|by transitivity s|done].
Qed.

(** A table of zeros. *)
Lemma zeros_rep mt K k bp hy n w slots world rank il mode :
  table_rep (mkBlockTable mt K k bp hy w (replicate n (replicate w 0)) (replicate n (replicate w 0)) (replicate n 0%nat) slots
    world rank il mode) (replicate n []).
Proof.
  split; simpl; rewrite ?length_replicate; try done; [split; [done|apply Forall_replicate; by rewrite length_replicate]|].
  intros i r [-> Hi]%lookup_replicate. eexists. split_and!; [by apply lookup_replicate|by rewrite length_replicate|
    by apply lookup_replicate|apply prefix_nil].
Qed.

Lemma BlockTable_init_spec size n width max_tokens kernel_size il world rank mode t :
  0 < size → 0 < kernel_size →
  BlockTable_init size n width max_tokens kernel_size il world rank mode = inr t →
  table_rep t (replicate n [])
  ∧ (0 ≤ rank < world → 0 < il → size mod il = 0 → layout_ok t)
  ∧ Z.of_nat (row_width t) * kernel_block_size t = Z.of_nat width * size
  ∧ slot_mapping t = replicate max_tokens 0 ∧ max_num_batched_tokens t = max_tokens.
Proof.
  intros Hs Hk. unfold BlockTable_init. destruct (Z.eqb_spec kernel_size size) as [->|Hne]; simpl.
  - injection 1 as <-. split; [apply zeros_rep|]. simpl. split_and!; [|lia|done|done].
    intros. split; simpl; (done || lia).
  - destruct (Z.eqb_spec (size mod kernel_size) 0) as [Hd|]; [|done]. simpl. injection 1 as <-. split; [apply zeros_rep|]. simpl.
    pose proof (Z.div_mod size kernel_size ltac:(lia)) as Hdm.
    assert (0 < size / kernel_size) by (rewrite Hd in Hdm; nia).
    split_and!; [|rewrite Nat2Z.inj_mul, Z2Nat.id by lia; nia|done|done].
    intros. split; simpl; (done || lia).
Qed.

(** C28: Any sequence of row operations on a new table behaves like the same operations on a list
    of block id lists; ids of large blocks are replaced by the ids of their kernel blocks. *)
Theorem block_table_refines_rows size n width max_tokens kernel_size il world rank mode t ops :
  0 < size → 0 < kernel_size →
  BlockTable_init size n width max_tokens kernel_size il world rank mode = inr t →
  row_ops_ok t (replicate n []) ops →
  wp (for_each ops perform_row) (λ _ t', table_rep t' (foldl (abstract_row t) (replicate n []) ops) ∧ same_layout t t') t.
Proof. intros Hs Hk E Hok. apply row_ops_spec; [|done]. by destruct (BlockTable_init_spec _ _ _ _ _ _ _ _ _ _ Hs Hk E) as [? _]. Qed.

(** ** The kernel *)

Lemma elem_of_lanes a b o : o ∈ lanes a b ↔ a ≤ o < b.
Proof.
  unfold lanes, TRITON_BLOCK_SIZE. rewrite list_elem_of_bind. split.
  - intros (i & [Ho (j & -> & [Hj1 Hj2]%elem_of_py_range)%list_elem_of_fmap]%list_elem_of_filter & Hi).
    apply list_elem_of_fmap in Hi as (n & -> & _). lia.
  - intros Ho. exists (a + (o - a) / 1024 * 1024). split.
    + apply list_elem_of_filter. split; [lia|]. apply list_elem_of_fmap. exists ((o - a) mod 1024).
      split; [pose proof (Z.div_mod (o - a) 1024); lia|]. apply elem_of_py_range. apply Z.mod_pos_bound. lia.
    + apply list_elem_of_fmap. exists (Z.to_nat ((o - a) / 1024)). split; [rewrite Z2Nat.id; [done|apply Z.div_pos; lia]|].
      apply elem_of_seq. pose proof (Z.div_pos (o - a) 1024 ltac:(lia) ltac:(lia)).
      assert ((o - a) / 1024 < (b - a + 1024 - 1) / 1024); [|lia].
      apply Z.div_lt_upper_bound; [lia|]. pose proof (Z.div_mod (b - a + 1024 - 1) 1024). pose proof (Z.mod_pos_bound (b - a + 1024 - 1) 1024). lia.
Qed.

(** Writes at offsets of the buffer, whose values do not depend on the order. *)
Lemma write_lanes_spec value (f : Z → Z) offsets slots :
  (∀ o, o ∈ offsets → 0 ≤ o < zlen slots ∧ value o = inr (f o)) →
  ∃ slots', write_lanes value offsets slots = inr slots' ∧ length slots' = length slots
    ∧ (∀ o, o ∈ offsets → slots' !! Z.to_nat o = Some (f o))
    ∧ (∀ o, 0 ≤ o → o ∉ offsets → slots' !! Z.to_nat o = slots !! Z.to_nat o).
Proof.
  revert slots. induction offsets as [|o offsets IH]; intros slots H; simpl.
  { exists slots. split_and!; try done. by intros o ?%elem_of_nil. }
  destruct (H o) as [Ho Ev]; [by left|]. rewrite Ev. simpl. unfold write_slot.
  rewrite (proj2 (Z.leb_le _ _)), (proj2 (Z.ltb_lt _ _)) by lia. simpl.
  destruct (IH (<[Z.to_nat o := f o]> slots)) as (slots' & E & Hl & H1 & H2).
  { intros o' Ho'. unfold zlen. rewrite length_insert. apply H. by right. }
  rewrite length_insert in Hl. exists slots'. split_and!; [done|done| |].
  - intros o' Ho'. destruct (decide (o' ∈ offsets)) as [Hin|Hout]; [by apply H1|].
    apply elem_of_cons in Ho' as [->|]; [|done]. rewrite H2 by (done || lia). apply list_lookup_insert_eq. unfold zlen in Ho. lia.
  - intros o' Hp [Hne Hout]%not_elem_of_cons. rewrite H2 by done. apply list_lookup_insert_ne. lia.
Qed.

Section launch.
Context (t : BlockTable) (qsl positions : list Z) (blocks : list (list Z)).
Let num_reqs := length blocks.

(** A batch of the requests with the given blocks: request [r] has the tokens from [qsl !! r] to
    [qsl !! S r], at positions its blocks cover, and its row is on the GPU. *)
Record batch_ok : Prop := {
  ba_layout : layout_ok t;
  ba_gpu : Forall (λ row, length row = row_width t) (table_gpu t);
  ba_rows r bs : blocks !! r = Some bs → ∃ row, table_gpu t !! r = Some row ∧ kernel_ids t bs `prefix_of` row;
  ba_qsl : length qsl = S num_reqs ∧ (∀ r a b, qsl !! r = Some a → qsl !! S r = Some b → a ≤ b)
    ∧ qsl !! 0%nat = Some 0 ∧ qsl !! num_reqs = Some (zlen positions);
  ba_pos r bs a b o pos : blocks !! r = Some bs → qsl !! r = Some a → qsl !! S r = Some b → a ≤ o < b →
    positions !! Z.to_nat o = Some pos → 0 ≤ pos < zlen bs * (kv_cache_block_size t * dcp_world_size t);
  ba_room : zlen positions ≤ Z.of_nat (max_num_batched_tokens t) ∧ length (slot_mapping t) = max_num_batched_tokens t;
}.
Context (B : batch_ok).

Lemma qsl_mono r r' a a' : (r ≤ r')%nat → qsl !! r = Some a → qsl !! r' = Some a' → a ≤ a'.
Proof using B.
  intros Hle Ha Ha'. destruct (ba_qsl B) as (_ & Hm & _). revert a' Ha'. induction Hle as [|r' Hle IH]; intros a' Ha'; [naive_solver lia|].
  destruct (lookup_lt_is_Some_2 qsl r') as [x Hx]; [apply lookup_lt_Some in Ha'; lia|].
  specialize (IH x Hx). specialize (Hm r' x a' Hx Ha'). lia.
Qed.

(** The tokens of request [r], and those of the padding. *)
Definition token_of (r : nat) (o : Z) : Prop :=
  if (r =? num_reqs)%nat then zlen positions ≤ o < Z.of_nat (max_num_batched_tokens t)
  else ∃ a b, qsl !! r = Some a ∧ qsl !! S r = Some b ∧ a ≤ o < b.
Definition written (r : nat) (slots : list Z) : Prop :=
  ∀ o, token_of r o → ∃ v, slots !! Z.to_nat o = Some v
    ∧ if (r =? num_reqs)%nat then v = PAD_SLOT_ID
      else ∃ bs pos, blocks !! r = Some bs ∧ positions !! Z.to_nat o = Some pos ∧ slot_in t bs pos = Some v.

Lemma token_bounds r o : (r ≤ num_reqs)%nat → token_of r o →
  0 ≤ o < Z.of_nat (max_num_batched_tokens t) ∧ (r = num_reqs ∨ o < zlen positions).
Proof using B.
  intros Hr. destruct (ba_qsl B) as (Hl & _ & H0 & Hn). destruct (ba_room B) as [Hroom _]. unfold token_of.
  destruct (Nat.eqb_spec r num_reqs) as [->|Hne].
  - intros H. pose proof (zlen_nonneg positions). split; [lia|by left].
  - intros (a & b & Ha & Hb & Ho). pose proof (qsl_mono 0 r 0 a ltac:(lia) H0 Ha).
    pose proof (qsl_mono (S r) num_reqs b _ ltac:(lia) Hb Hn). split; [lia|]. right. lia.
Qed.
Lemma token_disjoint r r' o : (r < r' ≤ num_reqs)%nat → token_of r o → token_of r' o → False.
Proof using B.
  intros Hr Hto Hto'. destruct (token_bounds r o) as [_ [->|Hlt]]; [lia|done|lia|]. unfold token_of in *.
  destruct (Nat.eqb_spec r num_reqs) as [->|_]; [lia|]. destruct (Nat.eqb_spec r' num_reqs) as [->|_]; [lia|].
  destruct Hto as (a & b & Ha & Hb & Ho), Hto' as (a' & b' & Ha' & Hb' & Ho').
  pose proof (qsl_mono (S r) r' b a' ltac:(lia) Hb Ha'). lia.
Qed.

Lemma slot_program_spec r slots :
  (r ≤ num_reqs)%nat → length slots = max_num_batched_tokens t →
  ∃ slots', slot_program t num_reqs qsl positions r slots = inr slots' ∧ length slots' = length slots
    ∧ written r slots' ∧ ∀ o, 0 ≤ o → ¬ token_of r o → slots' !! Z.to_nat o = slots !! Z.to_nat o.
Proof using B.
  intros Hr Hl. unfold slot_program, written, token_of. destruct (Nat.eqb_spec r num_reqs) as [E|Hne].
  - destruct (write_lanes_spec (λ _, mret PAD_SLOT_ID) (λ _, PAD_SLOT_ID) (lanes (zlen positions) (Z.of_nat (max_num_batched_tokens t))) slots)
      as (slots' & Es & Hl' & H1 & H2).
    { intros o Ho%elem_of_lanes. pose proof (zlen_nonneg positions). unfold zlen at 1. split; [lia|done]. }
    exists slots'. split_and!; [done|done| |].
    + intros o Ho. exists PAD_SLOT_ID. split; [|done]. apply H1, elem_of_lanes. done.
    + intros o Hp Ho. apply H2; [done|]. by rewrite elem_of_lanes.
  - destruct (ba_qsl B) as (Hlen & _ & _ & _).
    destruct (lookup_lt_is_Some_2 qsl r) as [a Ha]; [lia|]. destruct (lookup_lt_is_Some_2 qsl (S r)) as [b Hb]; [lia|].
    rewrite Ha, Hb. simpl. destruct (lookup_lt_is_Some_2 blocks r) as [bs Hbs]; [unfold num_reqs in *; lia|].
    assert (∀ o, a ≤ o < b → 0 ≤ o < zlen slots ∧ ∃ pos v, positions !! Z.to_nat o = Some pos ∧ slot_of t r pos = inr v ∧ slot_in t bs pos = Some v) as Hval.
    { intros o Ho. assert (token_of r o) as Hto.
      { unfold token_of. rewrite (proj2 (Nat.eqb_neq _ _) Hne). by exists a, b. }
      destruct (token_bounds r o Hr Hto) as [Hb1 [|Hb2]]; [done|]. split; [unfold zlen; lia|].
      destruct (lookup_lt_is_Some_2 positions (Z.to_nat o)) as [pos Hpos]; [unfold zlen in Hb2; lia|].
      destruct (ba_rows B r bs Hbs) as (row & Hrow & Hp).
      destruct (slot_of_spec t bs r row pos (ba_layout B) (ba_gpu B) Hrow Hp) as (v & E1 & E2); [by eapply (ba_pos B)|]. by exists pos, v. }
    set (f := λ o, match positions !! Z.to_nat o with Some pos => default 0 (slot_in t bs pos) | None => 0 end).
    destruct (write_lanes_spec (λ o, pos ← result_of_option IndexError (positions !! Z.to_nat o); slot_of t r pos) f (lanes a b) slots)
      as (slots' & Es & Hl' & H1 & H2).
    { intros o Ho%elem_of_lanes. destruct (Hval o Ho) as [Hin (pos & v & E1 & E2 & E3)]. split; [done|].
      unfold f. rewrite E1. simpl. by rewrite E2, E3. }
    exists slots'. split_and!; [done|done| |].
    + intros o (a' & b' & Ha' & Hb' & Ho). assert (a' = a) as -> by congruence. assert (b' = b) as -> by congruence.
      destruct (Hval o Ho) as [_ (pos & v & E1 & E2 & E3)]. exists v. split; [|by exists bs, pos].
      rewrite H1 by (by apply elem_of_lanes). unfold f. by rewrite E1, E3.
    + intros o Hp Ho. apply H2; [done|]. rewrite elem_of_lanes. intros H. apply Ho. by exists a, b.
Qed.

Lemma run_programs_spec order slots :
  NoDup order → Forall (λ r, (r ≤ num_reqs)%nat) order → length slots = max_num_batched_tokens t →
  ∃ slots', run_programs t num_reqs qsl positions order slots = inr slots' ∧ length slots' = length slots
    ∧ (∀ r, r ∈ order → written r slots') ∧ (∀ o, 0 ≤ o → (∀ r, r ∈ order → ¬ token_of r o) → slots' !! Z.to_nat o = slots !! Z.to_nat o).
Proof using B.
  revert slots. induction order as [|r order IH]; intros slots Hn Hf Hl; simpl.
  { exists slots. split_and!; try done. by intros r ?%elem_of_nil. }
  apply NoDup_cons in Hn as [Hr Hn]. apply Forall_cons in Hf as [Hrn Hf].
  destruct (slot_program_spec r slots Hrn Hl) as (s1 & -> & Hl1 & Hw & Hkeep). simpl.
  destruct (IH s1 Hn Hf) as (s2 & -> & Hl2 & Hw2 & Hkeep2); [congruence|]. exists s2. split_and!; [done|congruence| |].
  - intros r' [->|Hr']%elem_of_cons; [|by apply Hw2]. intros o Ho. rewrite Hkeep2; [by apply Hw| |].
    + destruct (token_bounds r o Hrn Ho) as [? _]. lia.
    + intros r' Hr' Ho'. rewrite Forall_forall in Hf. specialize (Hf r' Hr').
      destruct (Nat.lt_trichotomy r r') as [|[->|]]; [by apply (token_disjoint r r' o)|done|by apply (token_disjoint r' r o)].
  - intros o Hp Ho. rewrite Hkeep2; [apply Hkeep; [done|]; apply Ho; by left|done|]. intros r' Hr'. apply Ho. by right.
Qed.
End launch.

Lemma slot_kernel_spec t qsl positions blocks order :
  batch_ok t qsl positions blocks → slot_mapping_mode t = TOKEN_TO_KV_SLOT → order ≡ₚ seq 0 (S (length blocks)) →
  wp (compute_slot_mapping order (length blocks) qsl positions) (λ _ t',
    (∀ r bs a b o pos, blocks !! r = Some bs → qsl !! r = Some a → qsl !! S r = Some b → a ≤ o < b →
      positions !! Z.to_nat o = Some pos → ∃ v, slot_in t bs pos = Some v ∧ slot_mapping t' !! Z.to_nat o = Some v)
    ∧ (∀ o, zlen positions ≤ o < Z.of_nat (max_num_batched_tokens t) → slot_mapping t' !! Z.to_nat o = Some PAD_SLOT_ID)) t.
Proof.
  intros B Hm Ho. unfold compute_slot_mapping. wp_steps. rewrite bool_decide_eq_false_2 by (by rewrite Hm).
  assert (∀ r, r ∈ order ↔ (r ≤ length blocks)%nat) as Hin by (intros r; rewrite Ho, elem_of_seq; lia).
  destruct (run_programs_spec t qsl positions blocks B order (slot_mapping t)) as (s & E & _ & Hw & _).
  - rewrite Ho. apply NoDup_seq.
  - apply Forall_forall. intros r Hr. by apply Hin.
  - apply (ba_room _ _ _ _ B).
  - rewrite E. wp_steps. eapply wp_lift_result; [done|]. wp_steps. simpl. split.
    + intros r bs a b o pos Hbs Ha Hb Hab Hpos.
      assert (r < length blocks)%nat as Hr by (by eapply lookup_lt_Some).
      destruct (Hw r ltac:(apply Hin; lia) o) as (v & Ev & H).
      { unfold token_of. rewrite (proj2 (Nat.eqb_neq _ _)) by lia. by exists a, b. }
      rewrite (proj2 (Nat.eqb_neq _ _)) in H by lia. destruct H as (bs' & pos' & E1 & E2 & E3).
      exists v. split; [|done]. congruence.
    + intros o Hb. destruct (Hw (length blocks) ltac:(by apply Hin) o) as (v & Ev & H).
      { unfold token_of. by rewrite Nat.eqb_refl. }
      rewrite Nat.eqb_refl in H. by rewrite Ev, H.
Qed.

(** The tokens of a step: request [r] has those from [qsl !! r] to [qsl !! S r], at positions that
    its blocks cover. *)
Record tokens_fit (t : BlockTable) (qsl positions : list Z) (blocks : list (list Z)) : Prop := {
  tf_qsl : length qsl = S (length blocks) ∧ (∀ r a b, qsl !! r = Some a → qsl !! S r = Some b → a ≤ b)
    ∧ qsl !! 0%nat = Some 0 ∧ qsl !! length blocks = Some (zlen positions);
  tf_pos r bs a b o pos : blocks !! r = Some bs → qsl !! r = Some a → qsl !! S r = Some b → a ≤ o < b →
    positions !! Z.to_nat o = Some pos → 0 ≤ pos < zlen bs * (kv_cache_block_size t * dcp_world_size t);
  tf_room : zlen positions ≤ Z.of_nat (max_num_batched_tokens t) ∧ length (slot_mapping t) = max_num_batched_tokens t;
}.

Lemma commit_slots_spec t rows qsl positions blocks order :
  table_rep t rows → layout_ok t → slot_mapping_mode t = TOKEN_TO_KV_SLOT →
  (∀ r bs, blocks !! r = Some bs → rows !! r = Some (kernel_ids t bs)) → tokens_fit t qsl positions blocks →
  order ≡ₚ seq 0 (S (length blocks)) →
  wp (commit_block_table (length blocks);; compute_slot_mapping order (length blocks) qsl positions) (λ _ t',
    (∀ r bs a b o pos, blocks !! r = Some bs → qsl !! r = Some a → qsl !! S r = Some b → a ≤ o < b →
      positions !! Z.to_nat o = Some pos → ∃ v, slot_in t bs pos = Some v ∧ slot_mapping t' !! Z.to_nat o = Some v)
    ∧ (∀ o, zlen positions ≤ o < Z.of_nat (max_num_batched_tokens t) → slot_mapping t' !! Z.to_nat o = Some PAD_SLOT_ID)) t.
Proof.
  intros R L Hm Hrows [T1 T2 T3] Ho. unfold commit_block_table. wp_steps. set (t1 := set_gpu _ _ t).
  apply (slot_kernel_spec t1 qsl positions blocks order); [|done|done]. destruct R as [R1 R2 [R3 R4] R5].
  split; try done; simpl.
  - destruct L as [L1 L2 L3 L4]. by split.
  - apply Forall_app. split; [apply Forall_take|by apply Forall_drop]. apply Forall_lookup. intros i row Hi.
    destruct (lookup_lt_is_Some_2 rows i) as [x Hx]; [apply lookup_lt_Some in Hi; lia|].
    destruct (R5 i x Hx) as (row' & Hr' & Hl & _). by simplify_eq.
  - intros r bs Hbs. destruct (R5 r _ (Hrows r bs Hbs)) as (row & Hr & Hl & _ & Hp). exists row. split; [|done].
    assert (r < length blocks)%nat by (by eapply lookup_lt_Some).
    rewrite lookup_app_l, lookup_take_lt by (rewrite ?length_take; apply lookup_lt_Some in Hr; lia). done.
Qed.

(** C27: Once the rows are on the GPU the kernel, whatever the order of its programs, gives every
    scheduled token the slot of its position in the blocks of its request (or the padding slot
    when another rank stores it), and the padding slot to the rest of the buffer. *)
Theorem slot_mapping_correct t rows qsl positions blocks order :
  table_rep t rows → layout_ok t → slot_mapping_mode t = TOKEN_TO_KV_SLOT →
  (∀ r bs, blocks !! r = Some bs → rows !! r = Some (kernel_ids t bs)) → tokens_fit t qsl positions blocks →
  order ≡ₚ seq 0 (S (length blocks)) →
  wp (commit_block_table (length blocks);; compute_slot_mapping order (length blocks) qsl positions) (λ _ t',
    (∀ r bs a b o pos, blocks !! r = Some bs → qsl !! r = Some a → qsl !! S r = Some b → a ≤ o < b →
      positions !! Z.to_nat o = Some pos → ∃ v, slot_in t bs pos = Some v ∧ slot_mapping t' !! Z.to_nat o = Some v)
    ∧ (∀ o, zlen positions ≤ o < Z.of_nat (max_num_batched_tokens t) → slot_mapping t' !! Z.to_nat o = Some PAD_SLOT_ID)) t.
Proof. apply commit_slots_spec. Qed.

(** A position with a slot on this rank is owned by it, the slot lies in the memory of its own
    block, and two positions with the same slot are at the same place of the same block. *)
Lemma slot_in_injective t bs bs' pos pos' v :
  layout_ok t → 0 ≤ pos → 0 ≤ pos' →
  slot_in t bs pos = Some v → slot_in t bs' pos' = Some v → v ≠ PAD_SLOT_ID →
  let V := kv_cache_block_size t * dcp_world_size t in
  owner (kv_cache_block_size t) (dcp_world_size t) (interleave_size t) pos = dcp_rank t
  ∧ (∃ b, bs !! Z.to_nat (pos / V) = Some b ∧ bs' !! Z.to_nat (pos' / V) = Some b
      ∧ b * kv_cache_block_size t ≤ v < (b + 1) * kv_cache_block_size t)
  ∧ pos mod V = pos' mod V.
Proof.
  intros L Hp Hp' E E' Hv V. pose proof L as [(L1 & L2 & L3) _ (L4 & L5) (L6 & L7)].
  assert (0 < kv_cache_block_size t) as HK by (rewrite L3; nia). assert (0 < V) as HV by (unfold V; nia).
  unfold slot_in in E, E'. fold V in E, E'.
  destruct (bs !! Z.to_nat (pos / V)) as [b|] eqn:Eb; [|done]. destruct (bs' !! Z.to_nat (pos' / V)) as [b'|] eqn:Eb'; [|done].
  simpl in E, E'. injection E as E. injection E' as E'.
  destruct (Z.eqb_spec (owner (kv_cache_block_size t) (dcp_world_size t) (interleave_size t) pos) (dcp_rank t)) as [Ho|]; [|congruence].
  destruct (Z.eqb_spec (owner (kv_cache_block_size t) (dcp_world_size t) (interleave_size t) pos') (dcp_rank t)) as [Ho'|]; [|congruence].
  pose proof (offset_in_block_bound _ _ _ HK L4 L6 L7 pos) as B. pose proof (offset_in_block_bound _ _ _ HK L4 L6 L7 pos') as B'.
  assert (b = b') as <- by nia.
  assert (offset_in_block (kv_cache_block_size t) (dcp_world_size t) (interleave_size t) pos
    = offset_in_block (kv_cache_block_size t) (dcp_world_size t) (interleave_size t) pos') as Eo by lia.
  assert (pos mod V = pos' mod V) as Em.
  { change (voffset (kv_cache_block_size t) (dcp_world_size t) pos = voffset (kv_cache_block_size t) (dcp_world_size t) pos').
    rewrite (voffset_of _ _ (interleave_size t) L4 L6 pos), (voffset_of _ _ (interleave_size t) L4 L6 pos'), Eo, Ho, Ho'. done. }
  split_and!; [done|exists b; split_and!; [done|done|nia|nia]|done].
Qed.

(** Token [o] of the step belongs to request [r] and is at position [pos]. *)
Definition token_at (qsl positions : list Z) (r : nat) (o pos : Z) : Prop :=
  ∃ a b, qsl !! r = Some a ∧ qsl !! S r = Some b ∧ a ≤ o < b ∧ positions !! Z.to_nat o = Some pos.

(** The tokens a request has in the step are at distinct positions, and a block some token is
    written to is written by no other request of the step and at no other index of the same
    request.  Nothing is asked of blocks the step does not write: shared prefix blocks and
    repeated null blocks in a table are allowed. *)
Record writes_private (t : BlockTable) (qsl positions : list Z) (blocks : list (list Z)) : Prop := {
  wr_positions r o o' pos : token_at qsl positions r o pos → token_at qsl positions r o' pos → o = o';
  wr_blocks r r' bs bs' o o' pos pos' x :
    blocks !! r = Some bs → blocks !! r' = Some bs' →
    token_at qsl positions r o pos → token_at qsl positions r' o' pos' →
    bs !! Z.to_nat (pos / (kv_cache_block_size t * dcp_world_size t)) = Some x →
    bs' !! Z.to_nat (pos' / (kv_cache_block_size t * dcp_world_size t)) = Some x →
    r = r' ∧ pos / (kv_cache_block_size t * dcp_world_size t) = pos' / (kv_cache_block_size t * dcp_world_size t);
}.

(** Every token of the step belongs to a request. *)
Lemma token_request t qsl positions blocks o :
  tokens_fit t qsl positions blocks → 0 ≤ o < zlen positions →
  ∃ r bs a b pos, blocks !! r = Some bs ∧ qsl !! r = Some a ∧ qsl !! S r = Some b ∧ a ≤ o < b
    ∧ positions !! Z.to_nat o = Some pos.
Proof.
  intros [(Hl & Hm & H0 & Hn) _ _] Ho.
  destruct (lookup_lt_is_Some_2 positions (Z.to_nat o)) as [pos Hpos]; [unfold zlen in *; lia|].
  assert (∀ n e, (n ≤ length blocks)%nat → qsl !! n = Some e → o < e →
    ∃ r a b, (r < n)%nat ∧ qsl !! r = Some a ∧ qsl !! S r = Some b ∧ a ≤ o < b) as Hr.
  { intros n. induction n as [|n IH]; intros e Hle He Hlt; [simplify_eq; lia|].
    destruct (lookup_lt_is_Some_2 qsl n) as [a Ha]; [lia|]. destruct (decide (o < a)).
    - destruct (IH a) as (r & a' & b' & ? & ?); [lia|done|done|]. exists r, a', b'. split; [lia|done].
    - exists n, a, e. split_and!; (lia || done). }
  destruct (Hr _ _ (Nat.le_refl _) Hn) as (r & a & b & Hlt & Ha & Hb & Hab); [lia|].
  destruct (lookup_lt_is_Some_2 blocks r Hlt) as [bs Hbs]. by exists r, bs, a, b, pos.
Qed.

(** A block of a request covers at least one token. *)
Lemma virtual_block_pos t : layout_ok t → 0 < kv_cache_block_size t * dcp_world_size t.
Proof. intros [(L1 & L2 & L3) _ (L4 & L5) _]. rewrite L3. nia. Qed.

(** C26: No two tokens of a step are written to the same place, provided that the tokens of a
    request are at distinct positions and that a block written to is written by one request at
    one index only ([writes_private]): the slots the kernel computes for different tokens are
    then different, except for [PAD_SLOT_ID], which marks tokens another context-parallel rank
    stores; and each slot lies in the block at the token's position. *)
Theorem slots_not_shared t rows qsl positions blocks order :
  table_rep t rows → layout_ok t → slot_mapping_mode t = TOKEN_TO_KV_SLOT →
  (∀ r bs, blocks !! r = Some bs → rows !! r = Some (kernel_ids t bs)) → tokens_fit t qsl positions blocks →
  writes_private t qsl positions blocks → order ≡ₚ seq 0 (S (length blocks)) →
  wp (commit_block_table (length blocks);; compute_slot_mapping order (length blocks) qsl positions) (λ _ t',
    (∀ o o' v, 0 ≤ o < zlen positions → 0 ≤ o' < zlen positions → v ≠ PAD_SLOT_ID →
      slot_mapping t' !! Z.to_nat o = Some v → slot_mapping t' !! Z.to_nat o' = Some v → o = o')
    ∧ (∀ o v, 0 ≤ o < zlen positions → v ≠ PAD_SLOT_ID → slot_mapping t' !! Z.to_nat o = Some v →
      ∃ r bs pos x, blocks !! r = Some bs ∧ positions !! Z.to_nat o = Some pos
        ∧ bs !! Z.to_nat (pos / (kv_cache_block_size t * dcp_world_size t)) = Some x
        ∧ x * kv_cache_block_size t ≤ v < (x + 1) * kv_cache_block_size t)) t.
Proof.
  intros R L Hm Hrows T [W1 W2] Ho. eapply wp_mono; [by apply (commit_slots_spec t rows)|]. simpl. intros _ t' [S1 _].
  assert (∀ o v, 0 ≤ o < zlen positions → slot_mapping t' !! Z.to_nat o = Some v →
    ∃ r bs a b pos, blocks !! r = Some bs ∧ qsl !! r = Some a ∧ qsl !! S r = Some b ∧ a ≤ o < b
      ∧ positions !! Z.to_nat o = Some pos ∧ slot_in t bs pos = Some v ∧ 0 ≤ pos) as Hslot.
  { intros o v Hr Hv. destruct (token_request t qsl positions blocks o T Hr) as (r & bs & a & b & pos & E1 & E2 & E3 & E4 & E5).
    destruct (S1 _ _ _ _ _ _ E1 E2 E3 E4 E5) as (v' & Es & Ev). pose proof (tf_pos _ _ _ _ T _ _ _ _ _ _ E1 E2 E3 E4 E5).
    simplify_eq. exists r, bs, a, b, pos. split_and!; (done || lia). }
  split.
  - intros o o' v Hr Hr' Hp Hv Hv'.
    destruct (Hslot o v Hr Hv) as (r & bs & a & b & pos & E1 & E2 & E3 & E4 & E5 & E6 & E7).
    destruct (Hslot o' v Hr' Hv') as (r' & bs' & a' & b' & pos' & F1 & F2 & F3 & F4 & F5 & F6 & F7).
    destruct (slot_in_injective t bs bs' pos pos' v L E7 F7 E6 F6 Hp) as (_ & (x & Hx & Hx' & _) & Hmod).
    assert (token_at qsl positions r o pos) as Ht by (by exists a, b).
    assert (token_at qsl positions r' o' pos') as Ht' by (by exists a', b').
    destruct (W2 r r' bs bs' o o' pos pos' x) as [<- Hdiv]; [done..|].
    assert (pos = pos') as <-.
    { pose proof (virtual_block_pos t L).
      rewrite (Z.div_mod pos (kv_cache_block_size t * dcp_world_size t)),
        (Z.div_mod pos' (kv_cache_block_size t * dcp_world_size t)) by lia. by rewrite Hdiv, Hmod. }
    by eapply (W1 r).
  - intros o v Hr Hp Hv. destruct (Hslot o v Hr Hv) as (r & bs & a & b & pos & E1 & E2 & E3 & E4 & E5 & E6 & E7).
    destruct (slot_in_injective t bs bs pos pos v L E7 E7 E6 E6 Hp) as (_ & (x & Hx & _ & Hb) & _). by exists r, bs, pos, x.
Qed.

(** ** Concrete runs *)

(** Blocks of four tokens cut into kernel blocks of two, on the second of two ranks. *)
Definition demo_table : BlockTable :=
  mkBlockTable 8 4 2 2 true 4 [[0; 0; 0; 0]; [0; 0; 0; 0]] [[0; 0; 0; 0]; [0; 0; 0; 0]] [0%nat; 0%nat]
    (replicate 8 0) 2 1 1 TOKEN_TO_KV_SLOT.
Example demo_table_init : BlockTable_init 4 2 2 8 2 1 2 1 TOKEN_TO_KV_SLOT = inr demo_table.
Proof. reflexivity. Qed.

Definition demo_ops : list row_op := [RAdd [3] 0; RAdd [5] 1; RAppend [7] 0; RSwap 0 1].

Lemma small_ids_check t ids : forallb fits_int32 (kernel_ids t ids) = true → small_ids t ids.
Proof.
  intros H. unfold small_ids. apply Forall_forall. intros x Hx. apply list_elem_of_In in Hx.
  rewrite forallb_forall in H. apply H in Hx. unfold fits_int32 in Hx. bool_hyps. lia.
Qed.

Lemma block_table_refines_rows_witness :
  wp (for_each demo_ops perform_row) (λ _ t', table_rep t' [[10; 11]; [6; 7; 14; 15]]) demo_table.
Proof.
  destruct (block_table_refines_rows 4 2 2 8 2 1 2 1 TOKEN_TO_KV_SLOT demo_table demo_ops ltac:(lia) ltac:(lia) demo_table_init)
    as (r & t' & E & R & _).
  - repeat split; try (exists []; split; [reflexivity|]); try (apply small_ids_check; reflexivity);
      try (eexists; reflexivity); try (apply Nat.leb_le; reflexivity).
    exists [6; 7]. split; [reflexivity|]. split; [apply small_ids_check; reflexivity|apply Nat.leb_le; reflexivity].
  - exists r, t'. split; [exact E|exact R].
Defined.

Definition demo_filled : BlockTable :=
  mkBlockTable 8 4 2 2 true 4 [[10; 11; 0; 0]; [6; 7; 14; 15]] [[0; 0; 0; 0]; [0; 0; 0; 0]] [2%nat; 4%nat]
    (replicate 8 0) 2 1 1 TOKEN_TO_KV_SLOT.
Lemma demo_layout : layout_ok demo_filled.
Proof. split; simpl; [lia|done|lia|by split]. Qed.

Definition demo_rows : list (list Z) := [[10; 11]; [6; 7; 14; 15]].
Lemma demo_filled_rep : table_rep demo_filled demo_rows.
Proof.
  split; [done|done|by split; [|repeat constructor]|]. intros i r Hr.
  pose proof (lookup_lt_Some _ _ _ Hr) as Hi. simpl in Hi. destruct i as [|[|i]]; [..|lia]; simplify_eq/=; eexists; split_and!; (done || by eexists).
Qed.
Lemma demo_filled_rows r bs : [[5]; [3; 7]] !! r = Some bs → demo_rows !! r = Some (kernel_ids demo_filled bs).
Proof. intros Hr. pose proof (lookup_lt_Some _ _ _ Hr) as Hi. simpl in Hi. destruct r as [|[|r]]; [..|lia]; by simplify_eq/=. Qed.
Lemma demo_tokens : tokens_fit demo_filled [0; 1; 3] [1; 2; 9] [[5]; [3; 7]].
Proof.
  split; [|intros r bs a b o pos Hr Ha Hb Ho Hp; pose proof (lookup_lt_Some _ _ _ Hr) as Hi; simpl in Hi;
    destruct r as [|[|r]]; [..|lia]; simplify_eq/=|vm_compute; split; [discriminate|done]].
  - split_and!; [done| |done|done]. intros r a b Ha Hb. pose proof (lookup_lt_Some _ _ _ Hb) as Hr. simpl in Hr.
    destruct r as [|[|r]]; simplify_eq/=; lia.
  - assert (o = 0) as -> by lia. simplify_eq/=. vm_compute. split; [discriminate|done].
  - assert (o = 1 ∨ o = 2) as [-> | ->] by lia; simplify_eq/=; vm_compute; (split; [discriminate|done]).
Qed.

Lemma slot_mapping_correct_witness :
  wp (commit_block_table 2;; compute_slot_mapping [2; 0; 1]%nat 2 [0; 1; 3] [1; 2; 9]) (λ _ t',
    slot_mapping t' !! Z.to_nat 0 = Some 20 ∧ slot_mapping t' !! Z.to_nat 3 = Some PAD_SLOT_ID) demo_filled.
Proof.
  destruct (slot_mapping_correct demo_filled demo_rows [0; 1; 3] [1; 2; 9] [[5]; [3; 7]] [2; 0; 1]%nat
    demo_filled_rep demo_layout eq_refl demo_filled_rows demo_tokens) as (x & t' & E & H1 & H2).
  - simpl. solve_Permutation.
  - exists x, t'. split; [exact E|]. split; [|apply H2; vm_compute; split; [discriminate|done]].
    destruct (H1 0%nat [5] 0 1 0 1 eq_refl eq_refl eq_refl ltac:(lia) eq_refl) as (v & Ev & Es).
    rewrite Es. vm_compute in Ev. exact (eq_sym Ev).
Defined.

Lemma demo_token_at r o pos :
  token_at [0; 1; 3] [1; 2; 9] r o pos → (r, o, pos) ∈ [(0%nat, 0, 1); (1%nat, 1, 2); (1%nat, 2, 9)].
Proof.
  intros (a & b & Ha & Hb & Ho & Hp). pose proof (lookup_lt_Some _ _ _ Hb) as Hi. simpl in Hi.
  destruct r as [|[|r]]; [..|lia]; simplify_eq/=.
  - assert (o = 0) as -> by lia. simplify_eq/=. set_solver.
  - assert (o = 1 ∨ o = 2) as [-> | ->] by lia; simplify_eq/=; set_solver.
Qed.

Lemma demo_private : writes_private demo_filled [0; 1; 3] [1; 2; 9] [[5]; [3; 7]].
Proof.
  split.
  - intros r o o' pos H%demo_token_at H'%demo_token_at.
    rewrite !elem_of_cons, elem_of_nil in H, H'. naive_solver.
  - intros r r' bs bs' o o' pos pos' x Hr Hr' H%demo_token_at H'%demo_token_at Hx Hx'.
    rewrite !elem_of_cons, elem_of_nil in H, H'. destruct_or!; try done; simplify_eq/=; try done;
      vm_compute in Hx, Hx'; by simplify_eq.
Qed.

Lemma slots_not_shared_witness :
  wp (commit_block_table 2;; compute_slot_mapping [2; 0; 1]%nat 2 [0; 1; 3] [1; 2; 9]) (λ _ t',
    slot_mapping t' !! 0%nat = Some 20 ∧ slot_mapping t' !! 2%nat = Some 28
    ∧ ∀ o, 0 ≤ o < 3 → slot_mapping t' !! Z.to_nat o = Some 20 → o = 0) demo_filled.
Proof.
  destruct (slots_not_shared demo_filled demo_rows [0; 1; 3] [1; 2; 9] [[5]; [3; 7]] [2; 0; 1]%nat
    demo_filled_rep demo_layout eq_refl demo_filled_rows demo_tokens demo_private) as (x & t' & E & H1 & _).
  - simpl. solve_Permutation.
  - assert (slot_mapping t' = [20; -1; 28; -1; -1; -1; -1; -1]) as Es.
    { assert (slot_mapping ((commit_block_table 2;; compute_slot_mapping [2; 0; 1]%nat 2 [0; 1; 3] [1; 2; 9]) demo_filled).2
        = slot_mapping t') as <- by (simpl length in E; rewrite E; exact eq_refl).
      vm_compute. exact eq_refl. }
    exists x, t'. split; [exact E|]. rewrite Es. split; [exact eq_refl|]. split; [exact eq_refl|]. rewrite <-Es. intros o Ho Hv.
    apply (H1 o 0 20); [exact Ho|vm_compute; split; [discriminate|exact eq_refl]|discriminate|exact Hv|rewrite Es; exact eq_refl].
Defined.
