(* ===== verification/LayerSpec.v ===== *)
(** KV cache formats of layers: [vllm/v1/kv_cache_interface.py], the physical layouts of
    [vllm/v1/kv_cache_layout.py] and the grouping base of [vllm/v1/kv_cache_spec_registry.py].

    The subclasses of [AttentionSpec] are the constructors of [AttentionKind]; an overridden
    method is a match on it.  A page size can fail its assertion, so it is a value of the
    exception monad.  Block sizes are positive where the code divides by them. *)

From S2P Require Import Prelude MathUtils OrderedDict.

(** [max(l)] and [min(l)]. *)
Definition py_max (l : list Z) : exn + Z :=
  match l with [] => inl ValueError | x :: l' => mret (foldl Z.max x l') end.
Definition py_min (l : list Z) : exn + Z :=
  match l with [] => inl ValueError | x :: l' => mret (foldl Z.min x l') end.
(** [len(set(l)) == 1]. *)
Definition all_same {A} `{EqDecision A} (l : list A) : bool :=
  match l with [] => false | x :: l' => forallb (λ y, bool_decide (y = x)) l' end.
Definition sum_Z (l : list Z) : Z := foldr Z.add 0 l.

(** ** Physical layouts *)

Inductive KVCacheLayout := LBHNC | LBNHC | LHBNC | BLHNC | BLNHC | BHLNC.
#[global] Instance KVCacheLayout_eq_dec : EqDecision KVCacheLayout.
Proof. solve_decision. Defined.

Definition _DIM_L : nat := 0.
Definition _DIM_B : nat := 1.
Definition stride_order (layout : KVCacheLayout) : list nat :=
  match layout with
  | LBHNC => [0; 1; 2; 3; 4] | LBNHC => [0; 1; 3; 2; 4] | LHBNC => [0; 2; 1; 3; 4]
  | BLHNC => [1; 0; 2; 3; 4] | BLNHC => [1; 0; 3; 2; 4] | BHLNC => [1; 2; 0; 3; 4]
  end%nat.
Definition is_layer_compact (layout : KVCacheLayout) : bool := bool_decide (stride_order layout !! _DIM_L = Some 0%nat).
Definition is_block_compact (layout : KVCacheLayout) : bool :=
  bool_decide (list_to_set (take 2 (stride_order layout)) =@{gset nat} {[_DIM_L; _DIM_B]}).
Definition is_block_outermost (layout : KVCacheLayout) : bool := bool_decide (stride_order layout !! 0%nat = Some _DIM_B).

(** ** Specs *)

(** A torch data type, with the size of its elements. *)
Record dtype := { dtype_name : string; element_size : Z }.
#[global] Instance dtype_eq_dec : EqDecision dtype.
Proof. solve_decision. Defined.
Definition get_dtype_size : dtype → Z := element_size.

Inductive KVQuantMode :=
  | QUANT_NONE | FP8_PER_TENSOR | INT8_PER_TOKEN_HEAD | FP8_PER_TOKEN_HEAD | INT4_PER_TOKEN_HEAD | NVFP4
  | TURBOQUANT_K8V4 | TURBOQUANT_4BIT_NC | TURBOQUANT_K3V4_NC | TURBOQUANT_3BIT_NC.
#[global] Instance KVQuantMode_eq_dec : EqDecision KVQuantMode.
Proof. solve_decision. Defined.

(** The fields of [AttentionSpec].  [tokens_per_state], an integer or a fraction, is a numerator
    and a positive denominator without common divisor. *)
Record AttentionSpec := mkAttention {
  a_block_size : Z;
  num_kv_heads : Z;
  head_size : Z;
  a_dtype : dtype;
  head_size_v : Z;
  kv_quant_mode : KVQuantMode;
  a_page_size_padded : option Z;
  num_head_slots : option Z;
  state_content_bytes : option Z;
  tokens_per_state : Z * Z;
}.
#[global] Instance AttentionSpec_eq_dec : EqDecision AttentionSpec.
Proof. solve_decision. Defined.

(** What [FullAttentionSpec] adds, and what [MLAAttentionSpec] adds to it. *)
Record FullFields := mkFull { f_sliding_window : option Z; f_attention_chunk_size : option Z; non_causal : bool }.
Record MLAFields := mkMLA { cache_dtype_str : option string; alignment : option Z; model_version : option string }.
#[global] Instance FullFields_eq_dec : EqDecision FullFields.
Proof. solve_decision. Defined.
#[global] Instance MLAFields_eq_dec : EqDecision MLAFields.
Proof. solve_decision. Defined.

Inductive AttentionKind :=
  | FullAttention (f : FullFields)
  | MLAAttention (f : FullFields) (m : MLAFields) (non_causal_multi_token_decode : bool)
  | HiddenStateCache (f : FullFields) (m : MLAFields) (non_causal_multi_token_decode : bool)
  | RSWA (f : FullFields) (rswa_window : Z)
  | SinkFullAttention (f : FullFields) (sink_len : option Z)
  | ChunkedLocalAttention (attention_chunk_size : Z)
  | SlidingWindow (sliding_window extra_retained_tokens : Z)
  | SlidingWindowMLA (sliding_window extra_retained_tokens : Z) (m : MLAFields)
  | EncoderOnlyAttention
  | CrossAttention.
#[global] Instance AttentionKind_eq_dec : EqDecision AttentionKind.
Proof. solve_decision. Defined.

Inductive MambaCacheMode := MambaNone | MambaAlign | MambaAll.
#[global] Instance MambaCacheMode_eq_dec : EqDecision MambaCacheMode.
Proof. solve_decision. Defined.

Record MambaSpec := mkMamba {
  m_block_size : Z;
  shapes : list (list Z);
  dtypes : list dtype;
  m_page_size_padded : option Z;
  mamba_type : string;
  m_cache_mode : MambaCacheMode;
  num_speculative_blocks : Z;
  num_prefill_checkpoint_blocks : Z;
  m_num_heads : Z;
  m_tokens_per_state : Z;
}.
#[global] Instance MambaSpec_eq_dec : EqDecision MambaSpec.
Proof. solve_decision. Defined.

(** The format of one layer. *)
Inductive KVCacheSpec := Attention (a : AttentionSpec) (k : AttentionKind) | Mamba (m : MambaSpec).
#[global] Instance KVCacheSpec_eq_dec : EqDecision KVCacheSpec.
Proof. solve_decision. Defined.

(** [isinstance] tests. *)
Definition full_fields (s : KVCacheSpec) : option FullFields :=
  match s with
  | Attention _ (FullAttention f | MLAAttention f _ _ | HiddenStateCache f _ _ | RSWA f _ | SinkFullAttention f _) => Some f
  | _ => None
  end.
Definition is_full (s : KVCacheSpec) : bool := bool_decide (is_Some (full_fields s)).
Definition is_mla (s : KVCacheSpec) : bool :=
  match s with Attention _ (MLAAttention _ _ _ | HiddenStateCache _ _ _) => true | _ => false end.
Definition is_hidden_state (s : KVCacheSpec) : bool :=
  match s with Attention _ (HiddenStateCache _ _ _) => true | _ => false end.
Definition is_sliding_window (s : KVCacheSpec) : bool :=
  match s with Attention _ (SlidingWindow _ _ | SlidingWindowMLA _ _ _) => true | _ => false end.
Definition is_sliding_window_mla (s : KVCacheSpec) : bool :=
  match s with Attention _ (SlidingWindowMLA _ _ _) => true | _ => false end.
Definition is_chunked_local (s : KVCacheSpec) : bool :=
  match s with Attention _ (ChunkedLocalAttention _) => true | _ => false end.
Definition is_cross (s : KVCacheSpec) : bool := match s with Attention _ CrossAttention => true | _ => false end.

(** ** Page sizes *)

Definition spec_block_size (s : KVCacheSpec) : Z :=
  match s with Attention a _ => a_block_size a | Mamba m => m_block_size m end.
Definition page_size_padded (s : KVCacheSpec) : option Z :=
  match s with Attention a _ => a_page_size_padded a | Mamba m => m_page_size_padded m end.
Definition num_heads (s : KVCacheSpec) : Z :=
  match s with Attention a _ => default (num_kv_heads a) (num_head_slots a) | Mamba m => m_num_heads m end.
Definition state_content_size_bytes (s : KVCacheSpec) : Z :=
  match s with
  | Attention a _ => default ((head_size a + head_size_v a) * get_dtype_size (a_dtype a)) (state_content_bytes a)
  | Mamba m => sum_Z (zip_with (λ shape d, foldr Z.mul 1 shape * get_dtype_size d) (shapes m) (dtypes m))
  end.
Definition spec_tokens_per_state (s : KVCacheSpec) : Z * Z :=
  match s with Attention a _ => tokens_per_state a | Mamba m => (m_tokens_per_state m, 1) end.
Definition get_num_kernel_states (s : KVCacheSpec) (kernel_block_size : Z) : Z :=
  let '(n, d) := spec_tokens_per_state s in
  if 0 <? n then kernel_block_size * d / n else 1.
Definition num_states (s : KVCacheSpec) : Z := get_num_kernel_states s (spec_block_size s).

Definition unpadded_page_size_bytes (s : KVCacheSpec) : Z :=
  match s with
  | Attention _ _ => num_heads s * num_states s * state_content_size_bytes s
  | Mamba _ => state_content_size_bytes s
  end.
Definition page_size_bytes (s : KVCacheSpec) : exn + Z :=
  match page_size_padded s with
  | Some p => result_assert (unpadded_page_size_bytes s <=? p);; mret p
  | None => mret (unpadded_page_size_bytes s)
  end.

(** ** Construction *)

Definition set_attention_padded (p : option Z) (a : AttentionSpec) : AttentionSpec :=
  mkAttention (a_block_size a) (num_kv_heads a) (head_size a) (a_dtype a) (head_size_v a) (kv_quant_mode a) p
    (num_head_slots a) (state_content_bytes a) (tokens_per_state a).
Definition set_padded (p : option Z) (s : KVCacheSpec) : KVCacheSpec :=
  match s with
  | Attention a k => Attention (set_attention_padded p a) k
  | Mamba m => Mamba (mkMamba (m_block_size m) (shapes m) (dtypes m) p (mamba_type m) (m_cache_mode m)
                 (num_speculative_blocks m) (num_prefill_checkpoint_blocks m) (m_num_heads m) (m_tokens_per_state m))
  end.
Definition set_block_size (b : Z) (s : KVCacheSpec) : KVCacheSpec :=
  match s with
  | Attention a k => Attention (mkAttention b (num_kv_heads a) (head_size a) (a_dtype a) (head_size_v a) (kv_quant_mode a)
                       (a_page_size_padded a) (num_head_slots a) (state_content_bytes a) (tokens_per_state a)) k
  | Mamba m => Mamba (mkMamba b (shapes m) (dtypes m) (m_page_size_padded m) (mamba_type m) (m_cache_mode m)
                 (num_speculative_blocks m) (num_prefill_checkpoint_blocks m) (m_num_heads m) (m_tokens_per_state m))
  end.
Definition mla_fields (s : KVCacheSpec) : option MLAFields :=
  match s with
  | Attention _ (MLAAttention _ m _ | HiddenStateCache _ m _ | SlidingWindowMLA _ _ m) => Some m
  | _ => None
  end.
Definition _apply_alignment_padding (s : KVCacheSpec) : KVCacheSpec :=
  match m ← mla_fields s; alignment m with
  | None => s
  | Some al =>
      let padded := round_up (unpadded_page_size_bytes s) al in
      if padded =? unpadded_page_size_bytes s then s else set_padded (Some padded) s
  end.
(** [__post_init__], which [replace] runs again. *)
Definition post_init (s : KVCacheSpec) : exn + KVCacheSpec :=
  result_assert (match s with
                 | Attention _ (SlidingWindowMLA _ _ m) =>
                     bool_decide (model_version m = None ∨ model_version m = Some "deepseek_v4"%string)
                 | _ => true
                 end);;
  mret (_apply_alignment_padding s).
Definition replace_block_size (b : Z) (s : KVCacheSpec) : exn + KVCacheSpec := post_init (set_block_size b s).
Definition replace_padded (p : Z) (s : KVCacheSpec) : exn + KVCacheSpec := post_init (set_padded (Some p) s).

(** ** Merging *)

Definition merge_window_sizes (window_sizes : list Z) : exn + option Z :=
  match window_sizes with
  | [] => mret None
  | w :: l => if forallb (Z.eqb w) l then mret (Some w) else inl ValueError
  end.

Definition attention_of (s : KVCacheSpec) : option AttentionSpec :=
  match s with Attention a _ => Some a | Mamba _ => None end.
(** Every attention field of every spec is that of the merged one. *)
Definition same_attention (a : AttentionSpec) (specs : list KVCacheSpec) : bool :=
  forallb (λ s, bool_decide (attention_of s = Some a)) specs.

(** The common part of [FullAttentionSpec.merge] and [SinkFullAttentionSpec.merge]: the fields of
    the merged spec, whose attention fields are [a]. *)
Definition merge_full (a : AttentionSpec) (specs : list KVCacheSpec) : exn + FullFields :=
  result_assert (forallb is_full specs);;
  let fs := omap full_fields specs in
  result_assert (negb (existsb is_mla specs));;
  w ← merge_window_sizes (omap f_sliding_window fs);
  c ← merge_window_sizes (omap f_attention_chunk_size fs);
  let merged := mkFull w c (existsb non_causal fs) in
  result_assert (same_attention a specs);;
  result_assert (negb (bool_decide (is_Some w) && bool_decide (is_Some c)));;
  mret merged.

Definition set_tokens_per_state (t : Z * Z) (a : AttentionSpec) : AttentionSpec :=
  mkAttention (a_block_size a) (num_kv_heads a) (head_size a) (a_dtype a) (head_size_v a) (kv_quant_mode a)
    (a_page_size_padded a) (num_head_slots a) (state_content_bytes a) t.
(** The attention fields a merged MLA spec is built from: its second head size is the default. *)
Definition mla_attention (q : KVQuantMode) (a : AttentionSpec) : AttentionSpec :=
  mkAttention (a_block_size a) (num_kv_heads a) (head_size a) (a_dtype a) 0 q
    (a_page_size_padded a) (num_head_slots a) (state_content_bytes a) (tokens_per_state a).
Definition multi_token_decode (s : KVCacheSpec) : bool :=
  match s with Attention _ (MLAAttention _ _ b | HiddenStateCache _ _ b) => b | _ => false end.

(** [MLAAttentionSpec.merge]; the result has no alignment. *)
Definition merge_mla (a : AttentionSpec) (specs : list KVCacheSpec) : exn + (AttentionSpec * MLAFields * bool) :=
  result_assert (forallb is_mla specs);;
  let ms := omap mla_fields specs in
  result_assert (all_same (cache_dtype_str <$> ms) && all_same (tokens_per_state <$> omap attention_of specs)
                 && all_same (model_version <$> ms));;
  m ← result_of_option IndexError (head ms);
  let merged := mla_attention (kv_quant_mode a) a in
  result_assert (same_attention merged specs);;
  mret (merged, mkMLA (cache_dtype_str m) None (model_version m), existsb multi_token_decode specs).

(** [SlidingWindowMLASpec.merge], which does not compare the attention fields. *)
Definition sliding_fields (s : KVCacheSpec) : option (Z * Z) :=
  match s with Attention _ (SlidingWindow w e | SlidingWindowMLA w e _) => Some (w, e) | _ => None end.
Definition merge_sliding_mla (a : AttentionSpec) (w e : Z) (m : MLAFields) (specs : list KVCacheSpec) : exn + KVCacheSpec :=
  result_assert (forallb is_sliding_window_mla specs);;
  let ms := omap mla_fields specs in
  result_assert (all_same (cache_dtype_str <$> ms) && all_same (tokens_per_state <$> omap attention_of specs)
                 && all_same (model_version <$> ms) && all_same (fst <$> omap sliding_fields specs)
                 && all_same (snd <$> omap sliding_fields specs));;
  mret (Attention (mla_attention QUANT_NONE a) (SlidingWindowMLA w e (mkMLA (cache_dtype_str m) None (model_version m)))).

Definition rswa_window_of (s : KVCacheSpec) : option Z :=
  match s with Attention _ (RSWA _ w) => Some w | _ => None end.

(** [specs[0].merge(specs)]. *)
Definition merge (specs : list KVCacheSpec) : exn + KVCacheSpec :=
  match specs with
  | [] => inl IndexError
  | s0 :: rest =>
      match s0 with
      | Attention a (FullAttention _) => f ← merge_full a specs; mret (Attention a (FullAttention f))
      | Attention a (RSWA _ w) =>
          result_assert (forallb (λ s, bool_decide (is_Some (rswa_window_of s))) specs);;
          result_assert (all_same (omap rswa_window_of specs));;
          f ← merge_full a specs; mret (Attention a (RSWA f w))
      | Attention a (SinkFullAttention _ l) =>
          let a' := set_tokens_per_state (1, 1) a in
          f ← merge_full a' specs; mret (Attention a' (SinkFullAttention f l))
      | Attention a (MLAAttention _ _ _) =>
          '(a', m, b) ← merge_mla a specs; mret (Attention a' (MLAAttention (mkFull None None false) m b))
      | Attention a (HiddenStateCache _ _ _) =>
          '(a', m, b) ← merge_mla a specs; mret (Attention a' (HiddenStateCache (mkFull None None false) m b))
      | Attention a (SlidingWindowMLA w e m) => merge_sliding_mla a w e m specs
      | _ => result_assert (forallb (λ s, bool_decide (s = s0)) rest);; mret s0
      end
  end.

(** ** Layers that need the same number of slots *)

(** [KVCacheSpecRegistry.get_uniform_type_base_spec] for the built-in specs; encoder-only layers
    are not registered. *)
Inductive BaseSpec := BaseFull | BaseSliding | BaseSlidingMLA | BaseMamba | BaseChunked | BaseCross.
Definition get_uniform_type_base_spec (s : KVCacheSpec) : option BaseSpec :=
  match s with
  | Attention _ (FullAttention _ | MLAAttention _ _ _ | HiddenStateCache _ _ _ | RSWA _ _ | SinkFullAttention _ _) => Some BaseFull
  | Attention _ (SlidingWindow _ _) => Some BaseSliding
  | Attention _ (SlidingWindowMLA _ _ _) => Some BaseSlidingMLA
  | Attention _ (ChunkedLocalAttention _) => Some BaseChunked
  | Attention _ CrossAttention => Some BaseCross
  | Attention _ EncoderOnlyAttention => None
  | Mamba _ => Some BaseMamba
  end.
Definition instance_of (b : BaseSpec) (s : KVCacheSpec) : bool :=
  match b with
  | BaseFull => is_full s
  | BaseSliding => is_sliding_window s
  | BaseSlidingMLA => is_sliding_window_mla s
  | BaseMamba => match s with Mamba _ => true | _ => false end
  | BaseChunked => is_chunked_local s
  | BaseCross => is_cross s
  end.

Definition is_uniform_with_collection (s : KVCacheSpec) (specs : list KVCacheSpec) : exn + bool :=
  match s with
  | Attention _ (ChunkedLocalAttention c) =>
      mret (forallb (λ x, match x with Attention _ (ChunkedLocalAttention c') => c' =? c | _ => false end) specs)
  | Attention _ (SlidingWindow w _) =>
      mret (forallb (λ x, bool_decide (fst <$> sliding_fields x = Some w)) specs)
  | Attention _ (SlidingWindowMLA w _ _) =>
      mret (forallb (λ x, is_sliding_window_mla x && bool_decide (fst <$> sliding_fields x = Some w)) specs)
  | Mamba m =>
      mret (forallb (λ x, match x with
                          | Mamba m' => (num_speculative_blocks m' =? num_speculative_blocks m)
                                        && (num_prefill_checkpoint_blocks m' =? num_prefill_checkpoint_blocks m)
                          | _ => false
                          end) specs)
  | _ =>
      b ← result_of_option AssertionError (get_uniform_type_base_spec s);
      mret (forallb (instance_of b) specs)
  end.

(** A group keeps one spec, or one per layer: [UniformTypeKVCacheSpecs]. *)
Inductive GroupSpec :=
  | OneSpec (s : KVCacheSpec)
  | UniformTypeKVCacheSpecs (block_size : Z) (kv_cache_specs : list (string * KVCacheSpec)).

Definition is_uniform_type (specs : list (string * KVCacheSpec)) : exn + bool :=
  if negb (all_same (spec_block_size <$> specs.*2)) && negb (bool_decide (specs = [])) then mret false
  else first ← result_of_option StopIteration (head specs.*2); is_uniform_with_collection first specs.*2.
Definition from_specs (specs : list (string * KVCacheSpec)) : exn + option GroupSpec :=
  b ← is_uniform_type specs;
  if (b : bool) then
    first ← result_of_option StopIteration (head specs.*2);
    mret (Some (UniformTypeKVCacheSpecs (spec_block_size first) specs))
  else mret None.
Definition iter_layer_specs (g : GroupSpec) : list KVCacheSpec :=
  match g with OneSpec s => [s] | UniformTypeKVCacheSpecs _ specs => specs.*2 end.
Definition group_block_size (g : GroupSpec) : Z :=
  match g with OneSpec s => spec_block_size s | UniformTypeKVCacheSpecs b _ => b end.
Definition group_page_size_bytes (g : GroupSpec) : exn + Z :=
  match g with
  | OneSpec s => page_size_bytes s
  | UniformTypeKVCacheSpecs _ specs => l ← mapM page_size_bytes specs.*2; mret (sum_Z l)
  end.

(** ** Memory of a request *)

(** The parts of the configuration that the cache configuration reads. *)
Record SpeculativeConfig := { num_speculative_tokens : Z; use_multi_module_mtp : bool; use_eagle : bool }.
Record VllmConfig := mkConfig {
  max_model_len : Z;
  original_max_model_len : Z;
  decode_context_parallel_size : Z;
  max_in_flight_tokens : Z;
  mamba_cache_mode : MambaCacheMode;
  max_num_encoder_input_tokens : Z;
  num_gpu_blocks_override : option Z;
  kv_cache_layout : option KVCacheLayout;
  disable_hybrid_kv_cache_manager : bool;
  retention_interval : option Z;
  speculative_config : option SpeculativeConfig;
}.
Definition set_max_model_len (n : Z) (c : VllmConfig) : VllmConfig :=
  mkConfig n (original_max_model_len c) (decode_context_parallel_size c) (max_in_flight_tokens c) (mamba_cache_mode c)
    (max_num_encoder_input_tokens c) (num_gpu_blocks_override c) (kv_cache_layout c) (disable_hybrid_kv_cache_manager c)
    (retention_interval c) (speculative_config c).
Definition set_kv_cache_layout (l : option KVCacheLayout) (c : VllmConfig) : VllmConfig :=
  mkConfig (max_model_len c) (original_max_model_len c) (decode_context_parallel_size c) (max_in_flight_tokens c) (mamba_cache_mode c)
    (max_num_encoder_input_tokens c) (num_gpu_blocks_override c) l (disable_hybrid_kv_cache_manager c)
    (retention_interval c) (speculative_config c).

(** [max_admission_blocks_per_request] of the two local attentions. *)
Definition chunked_admission_blocks (chunk block_size in_flight max_len : Z) : Z :=
  cdiv (Z.min (chunk + in_flight) max_len) block_size.
Definition sliding_admission_blocks (window extra block_size in_flight max_len : Z) : Z :=
  cdiv (Z.min (window - 1 + extra + in_flight) max_len) block_size + 1.

(** The pages one request can need, by kind; each [max_memory_usage_bytes] multiplies its own by the
    page size. *)
Definition full_max_pages (c : VllmConfig) (block_size : Z) : Z :=
  let dcp_world_size := decode_context_parallel_size c in
  cdiv (if 1 <? dcp_world_size then cdiv (max_model_len c) dcp_world_size else max_model_len c) block_size.
Definition chunked_max_pages (c : VllmConfig) (chunk block_size : Z) : Z :=
  chunked_admission_blocks chunk block_size (max_in_flight_tokens c) (max_model_len c).
Definition sliding_max_pages (c : VllmConfig) (window extra block_size : Z) : exn + Z :=
  result_assert (decode_context_parallel_size c =? 1);;
  mret (sliding_admission_blocks window extra block_size (max_in_flight_tokens c) (max_model_len c)).
Definition cross_max_pages (c : VllmConfig) (block_size : Z) : Z := cdiv (max_num_encoder_input_tokens c) block_size.
Definition mamba_max_pages (c : VllmConfig) (m : MambaSpec) : Z :=
  match mamba_cache_mode c with
  | MambaAll => cdiv (max_model_len c) (m_block_size m) + num_speculative_blocks m
  | MambaAlign => 2 + num_speculative_blocks m + num_prefill_checkpoint_blocks m
  | MambaNone => 1 + num_speculative_blocks m
  end.
Definition max_pages (c : VllmConfig) (s : KVCacheSpec) : exn + Z :=
  match s with
  | Attention a k =>
      let bs := a_block_size a in
      match k with
      | FullAttention _ | MLAAttention _ _ _ | HiddenStateCache _ _ _ | RSWA _ _ | SinkFullAttention _ _ =>
          mret (full_max_pages c bs)
      | ChunkedLocalAttention n => mret (chunked_max_pages c n bs)
      | SlidingWindow w e | SlidingWindowMLA w e _ => sliding_max_pages c w e bs
      | EncoderOnlyAttention => mret 0
      | CrossAttention => mret (cross_max_pages c bs)
      end
  | Mamba m => mret (mamba_max_pages c m)
  end.
(** Encoder-only layers need none, whatever their page. *)
Definition spec_max_memory_usage_bytes (c : VllmConfig) (s : KVCacheSpec) : exn + Z :=
  match s with
  | Attention _ EncoderOnlyAttention => mret 0
  | _ => n ← max_pages c s; p ← page_size_bytes s; mret (n * p)
  end.
Definition pages_used (c : VllmConfig) (s : KVCacheSpec) : exn + Z :=
  u ← spec_max_memory_usage_bytes c s; p ← page_size_bytes s; result_divisor p;; mret (cdiv u p).
Definition max_memory_usage_pages (c : VllmConfig) (specs : list (string * KVCacheSpec)) : exn + Z :=
  l ← mapM (pages_used c) specs.*2; py_max l.
Definition group_max_memory_usage_bytes (c : VllmConfig) (g : GroupSpec) : exn + Z :=
  match g with
  | OneSpec s => spec_max_memory_usage_bytes c s
  | UniformTypeKVCacheSpecs _ specs =>
      n ← max_memory_usage_pages c specs; p ← group_page_size_bytes g; mret (n * p)
  end.

Definition spec_max_num_blocks_per_req (c : VllmConfig) (max_len : Z) (s : KVCacheSpec) : exn + Z :=
  match s with
  | Attention a _ => mret (cdiv max_len (a_block_size a * decode_context_parallel_size c))
  | Mamba m =>
      match mamba_cache_mode c with
      | MambaAlign => mret (cdiv max_len (m_block_size m) + num_speculative_blocks m)
      | _ => pages_used c s
      end
  end.
Definition group_max_num_blocks_per_req (c : VllmConfig) (max_len : Z) (g : GroupSpec) : exn + Z :=
  match g with
  | OneSpec s => spec_max_num_blocks_per_req c max_len s
  | UniformTypeKVCacheSpecs _ specs =>
      widths ← mapM (spec_max_num_blocks_per_req c max_len) specs.*2;
      result_assert (all_same widths);; result_of_option StopIteration (head widths)
  end.

Definition get_num_layer_tuples (specs : list (string * KVCacheSpec)) : exn + Z :=
  sizes ← mapM page_size_bytes specs.*2;
  match sizes with
  | [] => inl IndexError
  | _ => py_max ((λ x, zlen (filter (x =.) sizes)) <$> sizes)
  end.

(** ** Strides *)

(** The shape [(B, H, N, C)] of the cache of a layer, [C] in bytes. *)
Definition compute_layer_kv_cache_shape_bytes (s : KVCacheSpec) (num_blocks : Z) (kernel_block_size : option Z)
    : exn + list Z :=
  let bs := default (spec_block_size s) kernel_block_size in
  result_assert (spec_block_size s mod bs =? 0);;
  mret [num_blocks * (spec_block_size s / bs); num_heads s; get_num_kernel_states s bs; state_content_size_bytes s].

Definition index_of (d : nat) (order : list nat) : nat := default 0%nat (fst <$> list_find (d =.) order).

(** The loop over the physical dimensions, innermost first, which keeps the strides by logical
    dimension and the current stride; [page_end] is the last dimension of the page grid if pages
    are padded. *)
Fixpoint strides_loop (shape : list Z) (fixed : list (option Z)) (page_end : option (nat * Z)) (dims : list (nat * nat))
    (strides : list Z) (current : Z) : exn + list Z :=
  match dims with
  | [] => mret strides
  | (idx, dim) :: rest =>
      current ← (match page_end with
                 | Some (e, padded) =>
                     if (idx =? e)%nat then
                       let current := Z.max current padded in
                       result_assert (current mod padded =? 0);; mret current
                     else mret current
                 | None => mret current
                 end);
      let stride := match fixed !! dim with Some (Some f) => if f =? 0 then current else f | _ => current end in
      n ← result_of_option IndexError (shape !! dim);
      strides_loop shape fixed page_end rest (<[dim := stride]> strides) (stride * n)
  end.

Definition compute_layout_strides (s : KVCacheSpec) (num_blocks num_layers : Z) (layout : KVCacheLayout)
    (kernel_block_size : option Z) (fixed : list (option Z)) : exn + list Z :=
  result_assert (length fixed =? 5)%nat;;
  result_assert (forallb (λ f, match f with Some x => 0 <? x | None => true end) fixed);;
  shape4 ← compute_layer_kv_cache_shape_bytes s num_blocks kernel_block_size;
  let shape := num_layers :: shape4 in
  let order := stride_order layout in
  page_end ← (match page_size_padded s with
              | None => mret None
              | Some padded =>
                  result_assert (match kernel_block_size with Some k => k =? spec_block_size s | None => true end);;
                  let grid_end := S (Nat.max (index_of _DIM_L order) (index_of _DIM_B order)) in
                  let grid := (λ d, default 0 (shape !! d)) <$> take grid_end order in
                  result_assert (foldr Z.mul 1 grid =? num_layers * num_blocks);;
                  mret (Some (pred grid_end, padded))
              end);
  strides_loop shape fixed page_end (rev (imap pair order)) (replicate 5 0) 1.
