(* ===== verification/CacheConfig.v ===== *)
(** The KV cache configuration made at start-up: the second half of
    [vllm/v1/core/kv_cache_utils.py] (groups of layers, memory checks, placement of the layers in
    one allocation), the choice of a layout in [vllm/v1/attention/backends/utils.py] and the views
    of [allocate_kv_cache] in [vllm/v1/worker/utils.py].

    A dictionary from layer names to specs is an association list in insertion order.  The model
    length and the layout are the only fields of the configuration that are written
    ([M VllmConfig]). *)

From S2P Require Import Prelude MathUtils OrderedDict LayerSpec.

Abbreviation layer_specs := (list (string * KVCacheSpec)).

Record KVCacheGroupSpec := mkGroup {
  layer_names : list string;
  group_spec : GroupSpec;
  is_eagle_group : bool;
}.
Record KVCacheTensor := mkTensor {
  tensor_size : Z;
  tensor_layers : list string;
  layer_stride : Z;
  block_stride : Z;
  tensor_offset : Z;
}.
Record KVCacheConfig := mkKVConfig {
  num_blocks : Z;
  kv_cache_tensors : list KVCacheTensor;
  kv_cache_groups : list KVCacheGroupSpec;
  prefix_cache_retention_interval : option Z;
}.

(** [l[i::n]] for [0 <= i] and [0 < n]. *)
Definition py_stride {A} (l : list A) (i n : Z) : list A :=
  snd <$> filter (λ e, i ≤ Z.of_nat e.1 ∧ (Z.of_nat e.1 - i) mod n = 0) (imap pair l).
(** [d[k].append(v)] on a dictionary of lists. *)
Definition od_append {K V} `{EqDecision K} (d : list (K * list V)) (k : K) (v : V) : list (K * list V) :=
  od_set d k (default [] (od_get d k) ++ [v]).

(** ** Merging and uniform models *)

Definition create_kv_cache_group_specs (specs : layer_specs) (grouped : list (list string)) : exn + list KVCacheGroupSpec :=
  mapM (λ names,
          ss ← mapM (λ n, result_of_option KeyError (od_get specs n)) names;
          merged ← merge ss; mret (mkGroup names (OneSpec merged) false)) grouped.

(** Only an assertion means that the specs differ. *)
Definition is_kv_cache_spec_uniform (specs : layer_specs) : exn + bool :=
  if bool_decide (specs = []) then mret true
  else match merge specs.*2 with
       | inr _ => mret true
       | inl AssertionError => mret false
       | inl e => inl e
       end.
(** [is_kv_cache_spec_uniform(...) or UniformTypeKVCacheSpecs.is_uniform_type(...)]. *)
Definition is_one_type (specs : layer_specs) : exn + bool :=
  b ← is_kv_cache_spec_uniform specs;
  if (b : bool) then mret true else is_uniform_type specs.

Definition get_uniform_page_size (sizes : list Z) : exn + Z :=
  result_assert (all_same sizes);; result_of_option AssertionError (head sizes).

Definition _get_kv_cache_groups_uniform_spec (specs : layer_specs) : exn + list KVCacheGroupSpec :=
  create_kv_cache_group_specs specs [specs.*1].
Definition _get_kv_cache_groups_uniform_type (g : GroupSpec) (specs : layer_specs) : list KVCacheGroupSpec :=
  [mkGroup specs.*1 g false].

(** ** Page sizes *)

(** A layer whose page is smaller than the largest. *)
Definition enlarge_page (max_page_size : Z) (s : KVCacheSpec) : exn + KVCacheSpec :=
  page ← page_size_bytes s;
  if page =? max_page_size then mret s
  else
    new_spec ← (match s with
                | Mamba _ => replace_padded max_page_size s
                | Attention a _ =>
                    result_divisor page;;
                    if max_page_size mod page =? 0 then replace_block_size (a_block_size a * (max_page_size / page)) s
                    else if negb (is_mla s) then replace_padded max_page_size s
                    else inl NotImplementedError
                end);
    new_page ← page_size_bytes new_spec;
    result_assert (new_page =? max_page_size);; mret new_spec.
Definition unify_kv_cache_spec_page_size (specs : layer_specs) : exn + layer_specs :=
  sizes ← mapM page_size_bytes specs.*2;
  if all_same sizes || bool_decide (sizes = []) then mret specs
  else
    max_page_size ← py_max sizes;
    mapM (λ '(name, s), s' ← enlarge_page max_page_size s; mret (name, s')) specs.

(** ** Groups of the same number of layers *)

Definition same_type_layers (specs : layer_specs) : list (KVCacheSpec * list string) :=
  foldl (λ d '(name, s), od_append d s name) [] specs.

(** A spec joins the first bucket it can be merged with. *)
Fixpoint add_to_bucket (buckets : list (list string * list KVCacheSpec)) (s : KVCacheSpec) (names : list string)
    : exn + list (list string * list KVCacheSpec) :=
  match buckets with
  | [] => mret [(names, [s])]
  | (ns, ss) :: rest =>
      match merge (ss ++ [s]) with
      | inr _ => mret ((ns ++ names, ss ++ [s]) :: rest)
      | inl (AssertionError | ValueError) => rest' ← add_to_bucket rest s names; mret ((ns, ss) :: rest')
      | inl e => inl e
      end
  end.
Fixpoint make_buckets (buckets : list (list string * list KVCacheSpec)) (l : list (KVCacheSpec * list string))
    : exn + list (list string * list KVCacheSpec) :=
  match l with
  | [] => mret buckets
  | (s, names) :: l' => buckets' ← add_to_bucket buckets s names; make_buckets buckets' l'
  end.

(** The comparison with 1.5 times the smallest bucket is exact. *)
Definition choose_group_size (sizes : list Z) : exn + Z :=
  min_num_layers ← py_min sizes;
  max_num_layers ← py_max sizes;
  mret (if 2 * max_num_layers <? 3 * min_num_layers then max_num_layers else min_num_layers).
Definition split_bucket (group_size : Z) (layers : list string) : list (list string) :=
  let num_groups := cdiv (zlen layers) group_size in
  (λ i, py_stride layers i num_groups) <$> py_range 0 num_groups.

Definition _get_kv_cache_groups_uniform_page_size (specs : layer_specs) : exn + list KVCacheGroupSpec :=
  buckets ← make_buckets [] (same_type_layers specs);
  group_size ← choose_group_size (zlen <$> buckets.*1);
  create_kv_cache_group_specs specs (mbind (split_bucket group_size) buckets.*1).

(** ** Local attention as full attention *)

Definition promoted_page_size_padded (s : KVCacheSpec) (block_size : Z) : option Z :=
  p ← page_size_padded s;
  Some (Z.max p (unpadded_page_size_bytes s * block_size / spec_block_size s)).
(** [replace_as] with the target class, if there is one. *)
Definition promote_layer (full_block_size : option Z) (s : KVCacheSpec) : exn + KVCacheSpec :=
  let bs := match full_block_size with Some b => if b =? 0 then spec_block_size s else b | None => spec_block_size s end in
  let padded := promoted_page_size_padded s bs in
  let rebuild a k := post_init (set_padded padded (set_block_size bs (Attention a k))) in
  match s with
  | Attention a (SlidingWindowMLA w _ m) => rebuild a (MLAAttention (mkFull (Some w) None false) m false)
  | Attention a (SlidingWindow w _) => rebuild a (FullAttention (mkFull (Some w) None false))
  | Attention a (ChunkedLocalAttention c) => rebuild a (FullAttention (mkFull None (Some c) false))
  | _ => mret s
  end.
Definition _promote_local_kv_cache_specs (specs : layer_specs) : exn + layer_specs :=
  one ← is_one_type specs;
  if (one : bool) then mret specs
  else
    let full_block_sizes := spec_block_size <$> filter (λ s, is_full s) specs.*2 in
    let full_block_size := if all_same full_block_sizes then head full_block_sizes else None in
    promoted ←
      (if existsb is_full specs.*2 && (existsb is_sliding_window specs.*2 || existsb is_chunked_local specs.*2)
       then mapM (λ '(name, s), s' ← promote_layer full_block_size s; mret (name, s')) specs
       else mret specs);
    one' ← is_one_type promoted;
    if (one' : bool) then mret promoted else inl ValueError.

Definition _try_get_full_allocation_fallback_groups (specs : layer_specs) : exn + option (list KVCacheGroupSpec) :=
  if existsb is_hidden_state specs.*2 then mret None
  else if existsb (λ s, is_sliding_window_mla s || is_chunked_local s) specs.*2 then mret None
  else if negb (existsb is_mla specs.*2 && existsb is_sliding_window specs.*2) then mret None
  else
    match _promote_local_kv_cache_specs specs with
    | inl ValueError => mret None
    | inl e => inl e
    | inr promoted =>
        uniform ← from_specs promoted;
        mret (match uniform with Some g => Some (_get_kv_cache_groups_uniform_type g promoted) | None => None end)
    end.

Definition unify_hybrid_kv_cache_specs (specs : layer_specs) : exn + layer_specs :=
  one ← is_one_type specs;
  if (one : bool) then mret specs else _promote_local_kv_cache_specs specs.

(** ** Several page sizes (DeepSeek V4) *)

Definition group_and_unify_kv_cache_specs (specs : layer_specs) : exn + option (list layer_specs) :=
  if negb (existsb is_sliding_window_mla specs.*2) then mret None
  else
    sizes ← mapM page_size_bytes specs.*2;
    if all_same sizes then mret None
    else
      let mla_specs := filter (λ e, is_sliding_window_mla e.2 = false ∧ is_mla e.2 = true) specs in
      let grouped := foldl (λ d e, match sliding_fields e.2 with
                                   | Some (w, _) => if is_sliding_window_mla e.2
                                                    then od_append d (spec_block_size e.2, w) e else d
                                   | None => d
                                   end) [] specs in
      result_assert (negb (bool_decide (mla_specs = [])));;
      u ← from_specs mla_specs;
      result_assert (bool_decide (is_Some (u : option GroupSpec)));;
      mapM (λ d, u ← from_specs d; result_assert (bool_decide (is_Some (u : option GroupSpec)))) grouped.*2;;
      mret (Some (mla_specs :: grouped.*2)).

(** One candidate of the loop of [_approximate_gcd], with the best so far. *)
Definition padding_of (values : list Z) (d : Z) : Z := sum_Z ((λ x, (d - x mod d) mod d) <$> values).
Definition better_divisor (values : list Z) (best : Z * option Z) (d : Z) : Z * option Z :=
  let pad := padding_of values d in
  match best.2 with
  | None => (d, Some pad)
  | Some best_pad => if (pad <? best_pad) || ((pad =? best_pad) && (best.1 <? d)) then (d, Some pad) else best
  end.
Definition _approximate_gcd (values : list Z) (lower_bound : option Z) : exn + Z :=
  if bool_decide (values = []) then inl ValueError
  else if existsb (λ x, x <=? 0) values then inl ValueError
  else
    let min_d := Z.max 1 (default 1 lower_bound) in
    max_d ← py_max values;
    if max_d <? min_d then mret min_d
    else mret (foldl (better_divisor values) (min_d, None) (py_range min_d (max_d + 1))).1.

(** The tuples [zip] makes of lists of the same length. *)
Definition transpose {A} (l : list (list A)) (n : nat) : list (list A) :=
  (λ i, omap (.!! i) l) <$> seq 0 n.

(** The groups of one sliding-window spec. *)
Definition split_layer_tuples (num_layer_tuples : Z) (specs : layer_specs) : exn + list KVCacheGroupSpec :=
  sized ← mapM (λ '(name, s), p ← page_size_bytes s; mret (p, name)) specs;
  let per_size := foldl (λ d '(p, name), od_append d p name) [] sized in
  result_assert (all_same (length <$> per_size.*2));;
  let num_layers := default 0%nat (length <$> head per_size.*2) in
  let num_tuple_groups := cdiv (Z.of_nat num_layers) num_layer_tuples in
  let layer_tuples := transpose per_size.*2 num_layers in
  mapM (λ i,
          let names := concat (py_stride layer_tuples i num_tuple_groups) in
          sub ← mapM (λ n, s ← result_of_option KeyError (od_get specs n); mret (n, s)) names;
          u ← from_specs sub;
          g ← result_of_option AssertionError u;
          mret (mkGroup names g false)) (py_range 0 num_tuple_groups).

Definition _get_kv_cache_groups_uniform_groups (grouped : list layer_specs) : exn + list KVCacheGroupSpec :=
  match grouped with
  | [] => inl AssertionError
  | full :: swa =>
      result_assert (forallb is_mla full.*2);;
      full_block ← result_of_option StopIteration (head full.*2);
      let full_group := mkGroup full.*1 (UniformTypeKVCacheSpecs (spec_block_size full_block) full) false in
      tuples ← mapM get_num_layer_tuples grouped;
      num_layer_tuples ← _approximate_gcd tuples (head tuples);
      result_assert (forallb (λ d, forallb is_sliding_window_mla d.*2) swa);;
      gs ← mapM (split_layer_tuples num_layer_tuples) swa;
      mret (full_group :: concat gs)
  end.

Definition version_of (s : KVCacheSpec) : option string := m ← mla_fields s; model_version m.
(** Flags the first group with the last layer. *)
Fixpoint flag_group (name : string) (groups : list KVCacheGroupSpec) : list KVCacheGroupSpec :=
  match groups with
  | [] => []
  | g :: rest =>
      if bool_decide (name ∈ layer_names g) then mkGroup (layer_names g) (group_spec g) true :: rest
      else g :: flag_group name rest
  end.
Definition _annotate_eagle_groups_deepseek_v4 (c : VllmConfig) (specs : layer_specs) (groups : list KVCacheGroupSpec)
    : list KVCacheGroupSpec :=
  if match speculative_config c with Some sc => use_eagle sc | None => false end
     && existsb (λ s, bool_decide (version_of s = Some "deepseek_v4"%string)) specs.*2
  then match last specs with Some (name, _) => flag_group name groups | None => groups end
  else groups.

(** ** All groups *)

Fixpoint largest_divisor_from (value : Z) (candidates : list Z) : Z :=
  match candidates with
  | [] => 1
  | d :: rest => if value mod d =? 0 then d else largest_divisor_from value rest
  end.
Definition _largest_divisor_at_most (value limit : Z) : Z :=
  largest_divisor_from value (py_range_down 1 (Z.min value limit + 1)).

(** A hidden-state layer gets a group of its own. *)
Definition hidden_group (common_page block_size : Z) (e : string * KVCacheSpec) : exn + KVCacheGroupSpec :=
  match e.2 with
  | Attention a _ =>
      let per_token := num_kv_heads a * head_size a * get_dtype_size (a_dtype a) in
      result_divisor per_token;;
      let new_bs := _largest_divisor_at_most block_size (Z.max (common_page / per_token) 1) in
      result_divisor common_page;;
      aligned ← post_init (set_padded (Some common_page) (set_block_size new_bs e.2));
      mret (mkGroup [e.1] (OneSpec aligned) false)
  | Mamba _ => inl AttributeError
  end.

Definition get_kv_cache_groups (c : VllmConfig) (specs0 : layer_specs) : exn + list KVCacheGroupSpec :=
  specs ← (if disable_hybrid_kv_cache_manager c then unify_hybrid_kv_cache_specs specs0 else mret specs0);
  if bool_decide (specs = []) then mret []
  else
    uniform ← is_kv_cache_spec_uniform specs;
    if (uniform : bool) then _get_kv_cache_groups_uniform_spec specs
    else
      uniform_spec ← from_specs specs;
      match (uniform_spec : option GroupSpec) with
      | Some g => mret (_get_kv_cache_groups_uniform_type g specs)
      | None =>
          grouped ← group_and_unify_kv_cache_specs specs;
          match (grouped : option (list layer_specs)) with
          | Some l =>
              groups ← _get_kv_cache_groups_uniform_groups l;
              mret (_annotate_eagle_groups_deepseek_v4 c specs groups)
          | None =>
              let hidden := filter (λ e, is_hidden_state e.2 = true) specs in
              let filtered := filter (λ e, is_hidden_state e.2 = false) specs in
              match unify_kv_cache_spec_page_size filtered with
              | inl NotImplementedError =>
                  fallback ← _try_get_full_allocation_fallback_groups specs;
                  result_of_option NotImplementedError (fallback : option (list KVCacheGroupSpec))
              | inl e => inl e
              | inr filtered' =>
                  groups ← _get_kv_cache_groups_uniform_page_size filtered';
                  if bool_decide (hidden = []) then mret groups
                  else
                    sizes ← mapM (λ g, group_page_size_bytes (group_spec g)) groups;
                    common_page ← get_uniform_page_size sizes;
                    let block_size := foldr Z.gcd 0 ((λ g, group_block_size (group_spec g)) <$> groups) in
                    extra ← mapM (hidden_group common_page block_size) hidden;
                    mret (groups ++ extra)
              end
          end
      end.

(** ** Bytes per block *)

Definition _get_per_layer_spec (g : KVCacheGroupSpec) (name : string) : exn + KVCacheSpec :=
  match group_spec g with
  | UniformTypeKVCacheSpecs _ specs => result_of_option KeyError (od_get specs name)
  | OneSpec s => mret s
  end.
Definition group_bytes_per_block (g : KVCacheGroupSpec) : exn + Z :=
  sizes ← mapM (λ n, s ← _get_per_layer_spec g n; page_size_bytes s) (layer_names g); mret (sum_Z sizes).
Definition _get_kv_cache_bytes_per_block (groups : list KVCacheGroupSpec) : exn + Z :=
  sizes ← mapM group_bytes_per_block groups;
  bytes_per_block ← py_max sizes;
  result_assert (0 <? bytes_per_block);; mret bytes_per_block.
Definition _pool_bytes_per_block (groups : list KVCacheGroupSpec) : exn + Z := _get_kv_cache_bytes_per_block groups.

Definition validate_kv_cache_layout (layout : KVCacheLayout) (groups : list KVCacheGroupSpec) : exn + unit :=
  page_sizes ← mapM (λ g, mapM (λ n, s ← _get_per_layer_spec g n; page_size_bytes s) (layer_names g)) groups;
  if all_same (concat page_sizes) then mret tt
  else if negb (is_block_compact layout) || ((1 <? zlen groups) && is_layer_compact layout) then inl ValueError
  else mret tt.

(** ** Placement *)

Definition may_override_num_blocks (c : VllmConfig) (n : Z) : Z := default n (num_gpu_blocks_override c).

Definition layers_by_spec (g : KVCacheGroupSpec) : list (KVCacheSpec * list string) :=
  match group_spec g with
  | UniformTypeKVCacheSpecs _ specs => same_type_layers specs
  | OneSpec s => if bool_decide (layer_names g = []) then [] else [(s, layer_names g)]
  end.
(** The regions of one group, one after the other from [byte_offset] on. *)
Fixpoint place_regions (nb size : Z) (layout : KVCacheLayout) (interleaved : option Z)
    (regions : list (KVCacheSpec * list string)) (byte_offset : Z) : exn + list KVCacheTensor :=
  match regions with
  | [] => mret []
  | (s, names) :: rest =>
      strides ← compute_layout_strides s nb (zlen names) layout None [None; interleaved; None; None; None];
      page ← page_size_bytes s;
      result_divisor page;;
      let ls := default 0 (strides !! 0%nat) in
      let bs := default 0 (strides !! 1%nat) in
      ts ← place_regions nb size layout interleaved rest (byte_offset + zlen names * page);
      mret (mkTensor size names ls bs (byte_offset * Z.max ls page / page) :: ts)
  end.

Definition get_kv_cache_config_from_groups (c : VllmConfig) (groups : list KVCacheGroupSpec) (available_memory : Z)
    : exn + KVCacheConfig :=
  if bool_decide (groups = []) then mret (mkKVConfig 1 [] groups (retention_interval c))
  else
    layout ← result_of_option ValueError (kv_cache_layout c);
    validate_kv_cache_layout layout groups;;
    bytes_per_block ← _get_kv_cache_bytes_per_block groups;
    let interleaved := if is_block_outermost layout then Some bytes_per_block else None in
    let nb := may_override_num_blocks c (available_memory / bytes_per_block) in
    let size := bytes_per_block * nb in
    tensors ← mapM (λ g, place_regions nb size layout interleaved (layers_by_spec g) 0) groups;
    mret (mkKVConfig nb (concat tensors) groups (retention_interval c)).

(** ** Memory checks *)

Definition max_memory_usage_bytes (c : VllmConfig) (specs : list KVCacheSpec) : exn + Z :=
  l ← mapM (spec_max_memory_usage_bytes c) specs; mret (sum_Z l).
(** The blocks one request can take in a group. *)
Definition group_max_blocks (c : VllmConfig) (g : KVCacheGroupSpec) : exn + Z :=
  match group_spec g with
  | UniformTypeKVCacheSpecs _ specs => max_memory_usage_pages c specs
  | OneSpec s => pages_used c s
  end.
Definition _max_memory_usage_bytes_from_groups (c : VllmConfig) (groups : list KVCacheGroupSpec) : exn + Z :=
  if bool_decide (groups = []) then mret 0
  else
    bytes_per_block ← _pool_bytes_per_block groups;
    l ← mapM (group_max_blocks c) groups;
    mret (bytes_per_block * sum_Z l).

(** [fits] sets the model length and computes the memory. *)
Definition fits_in (usage : VllmConfig → exn + Z) (available_memory model_len : Z) : M VllmConfig bool :=
  modify (set_max_model_len model_len);;
  c ← get;
  needed ← lift_result (usage c);
  mret (needed <=? available_memory).
(** The binary search; every round makes the interval smaller. *)
Fixpoint search_loop (fuel : nat) (fits : Z → M VllmConfig bool) (left' right' result : Z) : M VllmConfig Z :=
  if left' <=? right' then
    match fuel with
    | O => raise OutOfFuel
    | S fuel' =>
        let mid := (left' + right') / 2 in
        b ← fits mid;
        if (b : bool) then search_loop fuel' fits (mid + 1) right' mid
        else search_loop fuel' fits left' (mid - 1) result
    end
  else mret result.
(** [try: ... finally:] with the length restored. *)
Definition restoring {A} (m : M VllmConfig A) : M VllmConfig A := λ c,
  let '(r, c') := m c in (r, set_max_model_len (max_model_len c) c').
Definition search_max_len (usage : VllmConfig → exn + Z) (available_memory : Z) : M VllmConfig Z :=
  c ← get;
  restoring
    (b ← fits_in usage available_memory 1;
     if negb b then mret 0
     else search_loop (Z.to_nat (max_model_len c)) (fits_in usage available_memory) 1 (max_model_len c) 1).
Definition estimate_max_model_len (specs : layer_specs) (available_memory : Z) : M VllmConfig Z :=
  search_max_len (λ c, max_memory_usage_bytes c specs.*2) available_memory.
Definition _estimate_max_model_len_from_groups (groups : list KVCacheGroupSpec) (available_memory : Z) : M VllmConfig Z :=
  search_max_len (λ c, _max_memory_usage_bytes_from_groups c groups) available_memory.

(** The estimate is only part of the message. *)
Definition _check_enough_kv_cache_memory (usage : VllmConfig → exn + Z) (available_memory : Z) : M VllmConfig unit :=
  if available_memory <=? 0 then raise ValueError
  else
    c ← get;
    needed ← lift_result (usage c);
    if available_memory <? needed then search_max_len usage available_memory;; raise ValueError else mret tt.
Definition check_enough_kv_cache_memory (specs : layer_specs) (available_memory : Z) : M VllmConfig unit :=
  when (negb (bool_decide (specs = [])))
    (c ← get;
     groups ← lift_result (get_kv_cache_groups c specs);
     reserved ← lift_result (if bool_decide (groups = []) then mret 0 else _pool_bytes_per_block groups);
     _check_enough_kv_cache_memory (λ c, max_memory_usage_bytes c specs.*2) (available_memory - reserved)).

(** One worker of the loop of [_auto_fit_max_model_len]. *)
Definition fit_worker (auto_fit_max : Z) (e : list KVCacheGroupSpec * Z) : M VllmConfig Z :=
  if bool_decide (e.1 = []) then mret auto_fit_max
  else worker_max ← _estimate_max_model_len_from_groups e.1 e.2; mret (Z.min auto_fit_max worker_max).
Definition _auto_fit_max_model_len (projected : list (list KVCacheGroupSpec)) (available_memory : list Z) : M VllmConfig unit :=
  if forallb (λ g, bool_decide (g = [])) projected then mret tt
  else
    c ← get;
    lift_option IndexError (head available_memory);;
    auto_fit_max ← fold_each (zip projected available_memory) fit_worker (max_model_len c);
    if auto_fit_max <=? 0 then raise ValueError
    else if max_model_len c <=? auto_fit_max then mret tt
    else modify (set_max_model_len auto_fit_max).

(** ** The configuration of all workers *)

Definition _project_kv_cache_groups_to_worker (groups : list KVCacheGroupSpec) (worker_spec : layer_specs)
    : exn + list KVCacheGroupSpec :=
  mapM (λ g,
          let names := filter (λ n, n ∈ worker_spec.*1) (layer_names g) in
          spec ← (match group_spec g with
                  | UniformTypeKVCacheSpecs b specs =>
                      if bool_decide (names = []) then mret (group_spec g)
                      else own ← mapM (λ n, s ← result_of_option KeyError (od_get specs n); mret (n, s)) names;
                           mret (UniformTypeKVCacheSpecs b own)
                  | OneSpec s => mret (OneSpec s)
                  end);
          mret (mkGroup names spec (is_eagle_group g && negb (bool_decide (names = []))))) groups.

(** The specs of all workers; workers with the same layer agree on it. *)
Fixpoint merge_worker (merged : layer_specs) (worker : layer_specs) : exn + layer_specs :=
  match worker with
  | [] => mret merged
  | (name, s) :: rest =>
      match od_get merged name with
      | None => merge_worker (merged ++ [(name, s)]) rest
      | Some s' => result_assert (bool_decide (s' = s));; merge_worker merged rest
      end
  end.
Fixpoint merge_workers (merged : layer_specs) (workers : list layer_specs) : exn + layer_specs :=
  match workers with
  | [] => mret merged
  | w :: rest => merged' ← merge_worker merged w; merge_workers merged' rest
  end.
Definition check_kv_cache_spec_registry (specs : layer_specs) : exn + unit :=
  if forallb (λ s, match get_uniform_type_base_spec s with Some _ => true | None => false end) specs.*2
  then mret tt else inl ValueError.
(** Sliding windows keep more tokens with several speculative modules. *)
Definition retain_extra (c : VllmConfig) (s : KVCacheSpec) : exn + KVCacheSpec :=
  let extra := match speculative_config c with
               | Some sc => if use_multi_module_mtp sc then num_speculative_tokens sc - 1 else 0
               | None => 0
               end in
  match s with
  | Attention a (SlidingWindow w _) => post_init (Attention a (SlidingWindow w extra))
  | Attention a (SlidingWindowMLA w _ m) => post_init (Attention a (SlidingWindowMLA w extra m))
  | _ => mret s
  end.

(** The null block is reserved; without groups there is no pool. *)
Definition usable_memory (groups : list KVCacheGroupSpec) (available_memory : Z) : exn + Z :=
  if bool_decide (groups = []) then mret available_memory
  else b ← _pool_bytes_per_block groups; mret (available_memory - b).
Definition overridden_memory (c : VllmConfig) (groups : list KVCacheGroupSpec) (available_memory : Z) : exn + Z :=
  match num_gpu_blocks_override c with
  | None => mret available_memory
  | Some n => if bool_decide (groups = []) then mret available_memory
              else b ← _pool_bytes_per_block groups; mret (n * b)
  end.

(** The workers with more blocks than the smallest are planned again. *)
Definition shrink_config (c : VllmConfig) (min_num_blocks : Z) (k : KVCacheConfig) : exn + KVCacheConfig :=
  if num_blocks k =? min_num_blocks then mret k
  else
    b ← _pool_bytes_per_block (kv_cache_groups k);
    get_kv_cache_config_from_groups c (kv_cache_groups k) (min_num_blocks * b).

(** The configuration of one worker, all its layers being in a group. *)
Definition worker_config (c : VllmConfig) (e : list KVCacheGroupSpec * layer_specs * Z) : exn + KVCacheConfig :=
  let '(groups, specs, memory) := e in
  result_assert (sum_Z ((λ g, zlen (layer_names g)) <$> groups) =? zlen specs);;
  get_kv_cache_config_from_groups c groups memory.

Definition get_kv_cache_configs (worker_specs : list layer_specs) (available_memory : list Z) : M VllmConfig (list KVCacheConfig) :=
  merged ← lift_result (merge_workers [] worker_specs);
  lift_result (check_kv_cache_spec_registry merged);;
  c ← get;
  specs ← lift_result (mapM (λ '(name, s), s' ← retain_extra c s; mret (name, s')) merged);
  groups ← lift_result (get_kv_cache_groups c specs);
  projected ← lift_result (mapM (_project_kv_cache_groups_to_worker groups) worker_specs);
  memory ← lift_result (match num_gpu_blocks_override c with
                        | None => mret available_memory
                        | Some _ => mapM (λ '(g, m), overridden_memory c g m) (zip projected available_memory)
                        end);
  check_memory ← lift_result (mapM (λ '(g, m), usable_memory g m) (zip projected memory));
  when (original_max_model_len c =? -1) (_auto_fit_max_model_len projected check_memory);;
  for_each (zip projected check_memory) (λ '(g, m),
    when (negb (bool_decide (g = [])))
      (_check_enough_kv_cache_memory (λ c, _max_memory_usage_bytes_from_groups c g) m));;
  c ← get;
  configs ← lift_result (mapM (worker_config c) (zip (zip projected worker_specs) memory));
  min_num_blocks ← lift_result (py_min (num_blocks <$> configs));
  lift_result (mapM (shrink_config c min_num_blocks) configs).

(** The scheduler's copy has one spec per group. *)
Definition generate_scheduler_kv_cache_config (configs : list KVCacheConfig) : exn + KVCacheConfig :=
  first ← result_of_option IndexError (head configs);
  result_assert (forallb (λ k, num_blocks k =? num_blocks first) configs);;
  groups ← mapM (λ g, match group_spec g with
                      | UniformTypeKVCacheSpecs _ specs =>
                          s ← result_of_option StopIteration (head specs.*2);
                          mret (mkGroup (layer_names g) (OneSpec s) (is_eagle_group g))
                      | OneSpec _ => mret g
                      end) (kv_cache_groups first);
  mret (mkKVConfig (num_blocks first) (kv_cache_tensors first) groups (prefix_cache_retention_interval first)).

(** ** The layout of a model, and the views of the workers *)

(** Whether the shapes [(H, N, page)] of the layers differ. *)
Definition mixed_shapes (specs : list KVCacheSpec) : exn + bool :=
  shapes ← mapM (λ s, p ← page_size_bytes s; mret (num_heads s, num_states s, p)) specs;
  mret (negb (all_same shapes) && negb (bool_decide (shapes = []))).
(** The choice among the layouts the workers report, most preferred first, with the requested
    layout and the preference of the connector; layouts are given by member, not by name. *)
Definition choose_layout (supported : list (list KVCacheLayout)) (specs : list KVCacheSpec)
    (requested connector : option KVCacheLayout) : exn + KVCacheLayout :=
  first ← result_of_option AssertionError (head supported);
  result_assert (forallb (λ l, negb (bool_decide (l = []))) supported);;
  result_assert (forallb (λ l, bool_decide (l = first)) supported);;
  mixed ← mixed_shapes specs;
  candidates ← (if (mixed : bool) then
                  let l := filter (λ m, is_block_compact m) first in
                  if bool_decide (l = []) then inl ValueError else mret l
                else mret first);
  match requested, connector with
  | Some layout, _ => if bool_decide (layout ∈ candidates) then mret layout else inl ValueError
  | None, Some layout =>
      if bool_decide (layout ∈ candidates) then mret layout else result_of_option IndexError (head candidates)
  | None, None => result_of_option IndexError (head candidates)
  end.
(** The layout is recorded in the configuration, and the recorded one is kept. *)
Definition resolve_kv_cache_layout (supported : list (list KVCacheLayout)) (specs : list KVCacheSpec)
    (requested connector : option KVCacheLayout) : M VllmConfig KVCacheLayout :=
  c ← get;
  match kv_cache_layout c with
  | Some layout => mret layout
  | None =>
      layout ← lift_result (choose_layout supported specs requested connector);
      modify (set_kv_cache_layout (Some layout));;
      mret layout
  end.

(** A view of the allocation: its first byte, its shape and its strides. *)
Record KVCacheView := mkView { view_base : Z; view_shape : list Z; view_strides : list Z }.

(** [torch.as_strided] refuses a view with elements past the end of its storage. *)
Definition as_strided_fits (storage : Z) (size strides : list Z) (offset : Z) : bool :=
  negb (forallb (Z.ltb 0) size) || (offset + sum_Z (zip_with (λ n st, (n - 1) * st) size strides) <? storage).
Definition create_kv_cache_views (s : KVCacheSpec) (nb : Z) (layout : KVCacheLayout) (t : KVCacheTensor)
    (kernel_block_size : option Z) : exn + list KVCacheView :=
  shape ← compute_layer_kv_cache_shape_bytes s nb kernel_block_size;
  result_divisor nb;;
  let ratio := default 0 (head shape) / nb in
  bs ← (if 1 <? ratio then
          dense ← compute_layer_kv_cache_shape_bytes s 1 None;
          if negb (block_stride t =? foldr Z.mul 1 (drop 1 dense)) then inl ValueError
          else result_assert (block_stride t mod ratio =? 0);; mret (block_stride t / ratio)
        else mret (block_stride t));
  strides ← compute_layout_strides s nb (zlen (tensor_layers t)) layout kernel_block_size
              [Some (layer_stride t); Some bs; None; None; None];
  (if as_strided_fits (tensor_size t) (zlen (tensor_layers t) :: shape) strides (tensor_offset t)
   then mret tt else inl RuntimeError);;
  mret ((λ l, mkView (tensor_offset t + l * default 0 (head strides)) shape (drop 1 strides))
          <$> py_range 0 (zlen (tensor_layers t))).

Definition allocate_tensor (k : KVCacheConfig) (layout : KVCacheLayout) (kernel_block_sizes : option (list Z)) (t : KVCacheTensor)
    : exn + list (string * KVCacheView) :=
  name ← result_of_option IndexError (head (tensor_layers t));
  '(gid, g) ← result_of_option StopIteration (list_find (λ g, name ∈ layer_names g) (kv_cache_groups k));
  s ← _get_per_layer_spec g name;
  views ← create_kv_cache_views s (num_blocks k) layout t (kernel_block_sizes ≫= (.!! gid));
  mret (zip (tensor_layers t) views).
Definition allocate_kv_cache (k : KVCacheConfig) (layout : KVCacheLayout) (kernel_block_sizes : option (list Z))
    : exn + list (string * KVCacheView) :=
  match kv_cache_tensors k with
  | [] => mret []
  | t :: ts =>
      result_assert (forallb (λ t', tensor_size t' =? tensor_size t) ts);;
      l ← mapM (allocate_tensor k layout kernel_block_sizes) (t :: ts); mret (concat l)
  end.
