(* ===== verification/LayoutFacts.v ===== *)
(** The strides of a cache layout, and where the bytes of a layer lie. *)

From S2P Require Import Prelude MathUtils OrderedDict LayerSpec CacheConfig.

Set Warnings "-level-tolerance,-clear-no-such-hyp".

(** ** The exception monad *)

Lemma result_assert_inr b u : result_assert b = inr u ↔ b = true.
Proof. destruct b, u; split; done. Qed.
Lemma result_divisor_inr b u : result_divisor b = inr u ↔ b ≠ 0.
Proof. unfold result_divisor. destruct u, (Z.eqb_spec b 0); split; done. Qed.
Lemma result_of_option_inr {A} e (o : option A) a : result_of_option e o = inr a ↔ o = Some a.
Proof. destruct o; simpl; split; intros; simplify_eq; done. Qed.
Lemma mapM_inr {A B} (f : A → exn + B) l r : mapM f l = inr r ↔ Forall2 (λ x y, f x = inr y) l r.
Proof.
  revert r. induction l as [|x l IH]; intros r; simpl.
  - split; [intros [= <-]; constructor|by intros ->%Forall2_nil_inv_l].
  - rewrite result_bind_inr. split.
    + intros (y & Hy & (l' & Hl & [= <-])%result_bind_inr). constructor; [done|by apply IH].
    + intros H. apply Forall2_cons_inv_l in H as (y & l' & Hy & Hl & ->). exists y. split; [done|].
      apply result_bind_inr. exists l'. split; [by apply IH|done].
Qed.

(** Splits the hypotheses about computations that return. *)
Ltac inr_hyps :=
  repeat match goal with
  | H : _ ≫= _ = inr _ |- _ => apply result_bind_inr in H as (? & ? & ?)
  | H : result_assert _ = inr _ |- _ => apply result_assert_inr in H
  | H : result_of_option _ _ = inr _ |- _ => apply result_of_option_inr in H
  | H : mret _ = inr _ |- _ => injection H as H
  | H : inr _ = inr _ |- _ => injection H as H
  end.

(** ** Well-formed specs *)

(** A page has positive size and room for its heads, states and content. *)
Record spec_ok (s : KVCacheSpec) (page : Z) : Prop := {
  so_page : page_size_bytes s = inr page;
  so_shape : 0 < num_heads s ∧ 0 < num_states s ∧ 0 < state_content_size_bytes s;
  so_unpadded : unpadded_page_size_bytes s = num_heads s * num_states s * state_content_size_bytes s;
  so_block : 0 < spec_block_size s;
}.

Lemma spec_page s page : spec_ok s page →
  0 < num_heads s * num_states s * state_content_size_bytes s ≤ page
  ∧ page = default (num_heads s * num_states s * state_content_size_bytes s) (page_size_padded s).
Proof.
  intros [Hp (H1 & H2 & H3) Hu _]. unfold page_size_bytes in Hp. rewrite Hu in Hp.
  assert (0 < num_heads s * num_states s * state_content_size_bytes s) by (repeat apply Z.mul_pos_pos; done).
  destruct (page_size_padded s) as [p|]; simpl in *; inr_hyps; subst; bool_hyps; lia.
Qed.

(** ** Strides *)

(** The strides of the heads and the states, from those of the layers and the blocks. *)
Definition inner_strides (layout : KVCacheLayout) (s : KVCacheSpec) (nb num_layers ls bs : Z) : list Z :=
  let H := num_heads s in let N := num_states s in let C := state_content_size_bytes s in
  match layout with
  | LBHNC | BLHNC => [N * C; C; 1]
  | LBNHC | BLNHC => [C; H * C; 1]
  | LHBNC => [bs * nb; C; 1]
  | BHLNC => [ls * num_layers; C; 1]
  end.
(** The bytes of a block and head when the heads are outside the pages; the stride of the blocks
    when it is not given, and that of the layers. *)
Definition head_bytes (s : KVCacheSpec) : Z := default (num_states s * state_content_size_bytes s) (page_size_padded s).
Definition own_block_stride (layout : KVCacheLayout) (s : KVCacheSpec) (page : Z) : Z :=
  match layout with LHBNC => head_bytes s | _ => page end.
Definition own_layer_stride (layout : KVCacheLayout) (s : KVCacheSpec) (page nb : Z) : Z :=
  match layout with
  | LBHNC | LBNHC | LHBNC => page * nb
  | BLHNC | BLNHC => page
  | BHLNC => head_bytes s
  end.

Lemma shape_none s nb : 0 < spec_block_size s →
  compute_layer_kv_cache_shape_bytes s nb None = inr [nb; num_heads s; num_states s; state_content_size_bytes s].
Proof.
  intros Hb. unfold compute_layer_kv_cache_shape_bytes. simpl.
  rewrite Z.mod_same by lia. simpl. rewrite Z.div_same by lia. by rewrite Z.mul_1_r.
Qed.

(** Dimensions between those of the layers and the blocks are single where pages are padded. *)
Definition heads_fit (layout : KVCacheLayout) (s : KVCacheSpec) : Prop :=
  is_Some (page_size_padded s) → layout = LHBNC ∨ layout = BHLNC → num_heads s = 1.

(** Evaluates a stride computation that returns, one assertion after the other. *)
Ltac eval_strides E :=
  cbv -[Z.mul Z.max Z.modulo Z.eqb Z.ltb andb num_heads num_states state_content_size_bytes] in E;
  repeat match type of E with
  | context [if ?b then inr () else inl AssertionError] =>
      lazymatch b with
      | context [if _ then _ else _] => fail
      | _ => destruct b eqn:?; [|discriminate E];
             cbv -[Z.mul Z.max Z.modulo Z.eqb Z.ltb andb num_heads num_states state_content_size_bytes] in E
      end
  end.

Lemma stride_max x pd : x ≤ pd → x `max` pd = pd.
Proof. lia. Qed.
Lemma heads_single nb L H : 0 < nb → 0 < L → nb * (H * (L * 1)) = L * nb ∨ L * (H * (nb * 1)) = L * nb → H = 1.
Proof. nia. Qed.
Lemma cons2 {A} (a b x y : A) inner : a = x → b = y → ∃ i, a :: b :: inner = x :: y :: i.
Proof. intros -> ->. by eexists. Qed.
Ltac eval_outermost :=
  repeat match goal with
  | |- context [is_block_outermost ?l] => let v := eval vm_compute in (is_block_outermost l) in change (is_block_outermost l) with v
  end.

(** The strides of a planned tensor. *)
Lemma plan_strides s page nb L layout bpb st :
  spec_ok s page → 0 < nb → 0 < L → 0 < bpb →
  compute_layout_strides s nb L layout None
    [None; (if is_block_outermost layout then Some bpb else None); None; None; None] = inr st →
  heads_fit layout s
  ∧ ∃ inner, st = own_layer_stride layout s page nb
      :: (if is_block_outermost layout then bpb else own_block_stride layout s page) :: inner.
Proof.
  intros Hs Hnb HL Hbpb E. destruct (spec_page s page Hs) as [Hp1 Hp2].
  pose proof (so_shape _ _ Hs) as (H1 & H2 & H3). unfold compute_layout_strides in E.
  rewrite shape_none in E by (apply Hs). assert (bpb =? 0 = false) as Hb0 by (apply Z.eqb_neq; lia).
  assert (num_states s * state_content_size_bytes s ≤ num_heads s * num_states s * state_content_size_bytes s) as Hle by nia.
  unfold own_layer_stride, own_block_stride, head_bytes, heads_fit.
  destruct (page_size_padded s) as [pd|] eqn:Epd; simpl in Hp2; subst page; destruct layout; eval_strides E;
    rewrite ?Hb0 in E; injection E as <-; (split; [try (by intros [? [=]]); try (by intros _ [[=]|[=]]); intros _ _|]).
  all: eval_outermost; cbn [default]; try (match goal with |- _ = 1 => apply (heads_single nb L); bool_hyps; tauto end).
  all: try (assert (num_heads s = 1) as HH by (apply (heads_single nb L); bool_hyps; tauto); rewrite HH in * ).
  all: apply cons2; rewrite ?stride_max by lia; unfold id; lia.
Qed.

Lemma max_mod x pd : 0 < x ≤ pd → (x `max` pd) mod pd = 0.
Proof. intros H. rewrite Z.max_r by lia. apply Z.mod_same. lia. Qed.
Ltac check_strides :=
  cbv -[Z.mul Z.max Z.modulo Z.eqb Z.ltb andb num_heads num_states state_content_size_bytes];
  repeat match goal with
  | |- context [if ?b then inr () else inl AssertionError] =>
      lazymatch b with
      | context [if _ then _ else _] => fail
      | _ => replace b with true by (symmetry; bool_hyps; first [done | apply Z.eqb_eq; first [apply max_mod; lia | lia]]);
             cbv -[Z.mul Z.max Z.modulo Z.eqb Z.ltb andb num_heads num_states state_content_size_bytes]
      end
  end.

(** The strides of a view, from those of its tensor. *)
Lemma view_strides_ok s page nb L layout ls bs :
  spec_ok s page → 0 < nb → 0 < L → 0 < ls → 0 < bs → heads_fit layout s →
  compute_layout_strides s nb L layout None [Some ls; Some bs; None; None; None]
  = inr (ls :: bs :: inner_strides layout s nb L ls bs).
Proof.
  intros Hs Hnb HL Hls Hbs Hh. destruct (spec_page s page Hs) as [Hp1 Hp2].
  pose proof (so_shape _ _ Hs) as (H1 & H2 & H3). unfold compute_layout_strides.
  rewrite shape_none by (apply Hs). simpl length.
  assert (num_states s * state_content_size_bytes s ≤ num_heads s * num_states s * state_content_size_bytes s) as Hle by nia.
  assert ((ls =? 0) = false) as Hl0 by (apply Z.eqb_neq; lia). assert ((bs =? 0) = false) as Hb0 by (apply Z.eqb_neq; lia).
  assert ((0 <? ls) = true) as Hl1 by (apply Z.ltb_lt; lia). assert ((0 <? bs) = true) as Hb1 by (apply Z.ltb_lt; lia).
  unfold heads_fit in Hh. destruct (page_size_padded s) as [pd|] eqn:Epd; simpl in Hp2; subst page.
  all: destruct layout; try (assert (num_heads s = 1) as HH by (apply Hh; [by eexists|tauto]); rewrite HH in * ).
  all: check_strides; rewrite Hl0, Hb0, Hl1, Hb1; cbn [andb]; apply f_equal; repeat (apply (f_equal2 cons); [lia|]); done.
Qed.

(** ** Addresses *)

(** The place of a byte in the cache of a layer. *)
Record cell := mkCell { cell_block : Z; cell_head : Z; cell_state : Z; cell_byte : Z }.
Definition in_shape (nb : Z) (s : KVCacheSpec) (x : cell) : Prop :=
  0 ≤ cell_block x < nb ∧ 0 ≤ cell_head x < num_heads s ∧ 0 ≤ cell_state x < num_states s
  ∧ 0 ≤ cell_byte x < state_content_size_bytes s.
(** The address of a byte of a view. *)
Definition cell_address (v : KVCacheView) (x : cell) : Z :=
  view_base v + sum_Z (zip_with Z.mul [cell_block x; cell_head x; cell_state x; cell_byte x] (view_strides v)).

(** Two-digit numbers. *)
Lemma digits_inj m a b x y : 0 ≤ x < m → 0 ≤ y < m → a * m + x = b * m + y → a = b ∧ x = y.
Proof. intros. assert (a = b) as <- by nia. lia. Qed.
Lemma digits_bound m n a x : 0 ≤ a < n → 0 ≤ x < m → 0 ≤ a * m + x < n * m.
Proof. nia. Qed.

(** The offset of a byte in a page, for layouts whose pages are contiguous. *)
Definition page_byte (layout : KVCacheLayout) (s : KVCacheSpec) (x : cell) : Z :=
  match layout with
  | LBNHC | BLNHC => (cell_state x * num_heads s + cell_head x) * state_content_size_bytes s + cell_byte x
  | _ => (cell_head x * num_states s + cell_state x) * state_content_size_bytes s + cell_byte x
  end.
Lemma page_byte_bound layout s page nb x : spec_ok s page → in_shape nb s x → 0 ≤ page_byte layout s x < page.
Proof.
  intros Hs (H1 & H2 & H3 & H4). destruct (spec_page s page Hs) as [Hp _]. unfold page_byte.
  assert (0 ≤ (cell_state x * num_heads s + cell_head x) * state_content_size_bytes s + cell_byte x
    < num_states s * num_heads s * state_content_size_bytes s) by (apply digits_bound; [by apply digits_bound|done]).
  assert (0 ≤ (cell_head x * num_states s + cell_state x) * state_content_size_bytes s + cell_byte x
    < num_heads s * num_states s * state_content_size_bytes s) by (apply digits_bound; [by apply digits_bound|done]).
  destruct layout; lia.
Qed.
Lemma page_byte_inj layout s nb x y : in_shape nb s x → in_shape nb s y → page_byte layout s x = page_byte layout s y →
  cell_head x = cell_head y ∧ cell_state x = cell_state y ∧ cell_byte x = cell_byte y.
Proof.
  intros (_ & H2 & H3 & H4) (_ & G2 & G3 & G4) E. unfold page_byte in E.
  destruct layout; apply digits_inj in E as [E ?]; try done; apply digits_inj in E as [? ?]; done.
Qed.

Lemma head_bytes_page layout s page : spec_ok s page → heads_fit layout s → layout = LHBNC ∨ layout = BHLNC →
  num_heads s * head_bytes s = page ∧ num_states s * state_content_size_bytes s ≤ head_bytes s ∧ 0 < head_bytes s.
Proof.
  intros Hs Hh Hl. destruct (spec_page s page Hs) as [Hp1 Hp2]. pose proof (so_shape _ _ Hs) as (H1 & H2 & H3).
  unfold head_bytes, heads_fit in *. destruct (page_size_padded s) as [pd|]; simpl in *; subst page; [|nia].
  rewrite (Hh ltac:(by eexists) Hl) in *. unfold id. lia.
Qed.
(** The offset of a byte among those of its block and head. *)
Definition head_byte (s : KVCacheSpec) (x : cell) : Z := cell_state x * state_content_size_bytes s + cell_byte x.
Lemma head_byte_bound layout s page nb x : spec_ok s page → heads_fit layout s → layout = LHBNC ∨ layout = BHLNC →
  in_shape nb s x → 0 ≤ head_byte s x < head_bytes s.
Proof.
  intros Hs Hh Hl (_ & _ & H3 & H4). destruct (head_bytes_page layout s page Hs Hh Hl) as (_ & Hle & _).
  pose proof (digits_bound _ _ _ _ H3 H4). unfold head_byte. lia.
Qed.

(** A region of [L] layers from byte [P] of the blocks on: the tensor made for it, and the
    address of a byte of its layer [l]. *)
Section region.
Context (layout : KVCacheLayout) (s : KVCacheSpec) (page nb bpb L P : Z).
Context (Hs : spec_ok s page) (Hh : heads_fit layout s) (Hnb : 0 < nb) (HP : 0 ≤ P).

Definition region_layer_stride : Z := own_layer_stride layout s page nb.
Definition region_block_stride : Z := if is_block_outermost layout then bpb else own_block_stride layout s page.
Definition region_offset : Z := P * Z.max region_layer_stride page / page.
Definition region_view (l : Z) : KVCacheView :=
  mkView (region_offset + l * region_layer_stride) [nb; num_heads s; num_states s; state_content_size_bytes s]
    (region_block_stride :: inner_strides layout s nb L region_layer_stride region_block_stride).

Lemma region_layer_stride_pos : 0 < region_layer_stride.
Proof using Hs Hh Hnb.
  destruct (spec_page s page Hs) as [Hp _]. unfold region_layer_stride, own_layer_stride.
  destruct layout; try nia. destruct (head_bytes_page BHLNC s page Hs Hh ltac:(tauto)) as (_ & _ & ?). lia.
Qed.
Lemma region_block_stride_pos : 0 < bpb → 0 < region_block_stride.
Proof using Hs Hh.
  intros Hb. destruct (spec_page s page Hs) as [Hp _]. unfold region_block_stride, own_block_stride.
  destruct layout; eval_outermost; try lia. destruct (head_bytes_page LHBNC s page Hs Hh ltac:(tauto)) as (_ & _ & ?). lia.
Qed.

Lemma region_offset_eq : region_offset = if is_block_outermost layout then P else P * nb.
Proof using Hs Hh Hnb.
  destruct (spec_page s page Hs) as [Hp _]. unfold region_offset, region_layer_stride, own_layer_stride.
  destruct layout; eval_outermost.
  1-3: rewrite Z.max_l by nia; rewrite (Z.mul_comm page nb), Z.mul_assoc; apply Z.div_mul; lia.
  1-2: rewrite Z.max_id; apply Z.div_mul; lia.
  destruct (head_bytes_page BHLNC s page Hs Hh ltac:(tauto)) as (? & _ & ?). pose proof (so_shape _ _ Hs) as (H1 & _).
  rewrite Z.max_r by nia. apply Z.div_mul. lia.
Qed.

(** Where the layers are outermost. *)
Lemma layer_compact_address l x : is_block_outermost layout = false →
  cell_address (region_view l) x
  = (P + l * page) * nb
    + (if bool_decide (layout = LHBNC) then (cell_head x * nb + cell_block x) * head_bytes s + head_byte s x
       else cell_block x * page + page_byte layout s x).
Proof using Hs Hh Hnb.
  intros Ho. unfold cell_address, region_view. simpl view_base. rewrite region_offset_eq, Ho. simpl view_strides.
  unfold region_block_stride, region_layer_stride, own_layer_stride, own_block_stride, page_byte, head_byte. rewrite Ho.
  destruct layout; try discriminate Ho; rewrite ?bool_decide_eq_true_2, ?bool_decide_eq_false_2 by done; simpl; lia.
Qed.
(** Where the blocks are outermost. *)
Definition block_byte (l : Z) (x : cell) : Z :=
  match layout with
  | BHLNC => (cell_head x * L + l) * head_bytes s + head_byte s x
  | _ => l * page + page_byte layout s x
  end.
Lemma block_outermost_address l x : is_block_outermost layout = true →
  cell_address (region_view l) x = cell_block x * bpb + (P + block_byte l x).
Proof using Hs Hh Hnb.
  intros Ho. unfold cell_address, region_view. simpl view_base. rewrite region_offset_eq, Ho. simpl view_strides.
  unfold region_block_stride, region_layer_stride, own_layer_stride, own_block_stride, block_byte, page_byte, head_byte. rewrite Ho.
  destruct layout; try discriminate Ho; simpl; lia.
Qed.

Lemma block_byte_bound l x : is_block_outermost layout = true → 0 ≤ l < L → in_shape nb s x → 0 ≤ block_byte l x < L * page.
Proof using Hs Hh.
  intros Ho Hl Hx. pose proof (page_byte_bound layout s page nb x Hs Hx) as Hb. unfold block_byte.
  destruct layout; try discriminate Ho; try (by apply digits_bound).
  destruct (head_bytes_page BHLNC s page Hs Hh ltac:(tauto)) as (Hp & _ & _).
  pose proof (head_byte_bound BHLNC s page nb x Hs Hh ltac:(tauto) Hx). destruct Hx as (_ & H2 & _).
  pose proof (digits_bound L (num_heads s) (cell_head x) l H2 Hl) as H3.
  pose proof (digits_bound _ _ _ _ H3 H). nia.
Qed.
Lemma block_byte_inj l l' x y : is_block_outermost layout = true → 0 ≤ l < L → 0 ≤ l' < L → in_shape nb s x → in_shape nb s y →
  block_byte l x = block_byte l' y →
  l = l' ∧ cell_head x = cell_head y ∧ cell_state x = cell_state y ∧ cell_byte x = cell_byte y.
Proof using Hs Hh.
  intros Ho Hl Hl' Hx Hy E. unfold block_byte in E. destruct layout eqn:El; try discriminate Ho.
  1-2: rewrite <-El in *; apply digits_inj in E as [? E]; [|by eapply page_byte_bound..]; split; [done|by eapply page_byte_inj].
  apply digits_inj in E as [E E']; [|by eapply (head_byte_bound BHLNC); eauto..].
  apply digits_inj in E as [? ?]; [|done..]. unfold head_byte in E'. apply digits_inj in E' as [? ?]; [done|apply Hx|apply Hy].
Qed.

(** The offset of a byte among those of its layer, where the layers are outermost. *)
Definition layer_byte (x : cell) : Z :=
  if bool_decide (layout = LHBNC) then (cell_head x * nb + cell_block x) * head_bytes s + head_byte s x
  else cell_block x * page + page_byte layout s x.
Lemma layer_byte_bound x : in_shape nb s x → 0 ≤ layer_byte x < page * nb.
Proof using Hs Hh.
  intros Hx. unfold layer_byte. case_bool_decide as El.
  - destruct (head_bytes_page layout s page Hs Hh ltac:(tauto)) as (Hp & _ & _).
    pose proof (head_byte_bound layout s page nb x Hs Hh ltac:(tauto) Hx) as H. destruct Hx as (H1 & H2 & _).
    pose proof (digits_bound nb (num_heads s) (cell_head x) (cell_block x) H2 H1) as H3.
    pose proof (digits_bound _ _ _ _ H3 H). nia.
  - pose proof (page_byte_bound layout s page nb x Hs Hx) as Hb. rewrite (Z.mul_comm page nb). apply digits_bound; [apply Hx|done].
Qed.
(** All bytes of the region lie in the allocation, so its views can be made. *)
Lemma region_address_bound l x : 0 ≤ l < L → P + L * page ≤ bpb → in_shape nb s x →
  0 ≤ cell_address (region_view l) x < bpb * nb.
Proof using Hs Hh Hnb HP.
  intros Hl Hfit Hx. destruct (spec_page s page Hs) as [Hp _]. destruct (is_block_outermost layout) eqn:Ho.
  - rewrite block_outermost_address by done. pose proof (block_byte_bound l x Ho Hl Hx).
    rewrite (Z.mul_comm bpb nb). apply digits_bound; [apply Hx|lia].
  - rewrite layer_compact_address by done. pose proof (layer_byte_bound x Hx) as Hb.
    unfold layer_byte in Hb. assert ((P + (l + 1) * page) * nb ≤ bpb * nb) by (apply Z.mul_le_mono_nonneg_r; nia). nia.
Qed.
Lemma region_view_fits : 0 < L → P + L * page ≤ bpb →
  as_strided_fits (bpb * nb) (L :: view_shape (region_view 0)) (region_layer_stride :: view_strides (region_view 0)) region_offset = true.
Proof using Hs Hh Hnb HP.
  intros HL Hfit. pose proof (so_shape _ _ Hs) as (H1 & H2 & H3). unfold as_strided_fits. apply orb_true_iff. right. apply Z.ltb_lt.
  pose proof (region_address_bound (L - 1) (mkCell (nb - 1) (num_heads s - 1) (num_states s - 1) (state_content_size_bytes s - 1))
    ltac:(lia) Hfit) as Hb.
  destruct Hb as [_ Hb]; [unfold in_shape; simpl; lia|].
  unfold cell_address, region_view in Hb. simpl in Hb |- *. lia.
Qed.
Lemma layer_byte_inj x y : in_shape nb s x → in_shape nb s y → layer_byte x = layer_byte y → x = y.
Proof using Hs Hh.
  intros Hx Hy E. unfold layer_byte in E. assert (cell_block x = cell_block y ∧ cell_head x = cell_head y
    ∧ cell_state x = cell_state y ∧ cell_byte x = cell_byte y) as (E1 & E2 & E3 & E4); [|by destruct x, y; simpl in *; subst].
  case_bool_decide as El.
  - apply digits_inj in E as [E E']; [|by eapply (head_byte_bound layout); eauto..].
    apply digits_inj in E as [? ?]; [|apply Hx|apply Hy]. unfold head_byte in E'. apply digits_inj in E' as [? ?]; [done|apply Hx|apply Hy].
  - apply digits_inj in E as [? E]; [|by eapply page_byte_bound..]. split; [done|by eapply page_byte_inj].
Qed.
(** A view does not overlap itself. *)
Lemma region_view_inj l x y : 0 ≤ l < L → P + L * page ≤ bpb → in_shape nb s x → in_shape nb s y →
  cell_address (region_view l) x = cell_address (region_view l) y → x = y.
Proof using Hs Hh Hnb HP.
  intros Hl Hfit Hx Hy. destruct (is_block_outermost layout) eqn:Ho.
  - rewrite !block_outermost_address by done. intros E.
    pose proof (block_byte_bound l x Ho Hl Hx). pose proof (block_byte_bound l y Ho Hl Hy).
    apply digits_inj in E as [Eb E]; [|lia..].
    destruct (block_byte_inj l l x y Ho Hl Hl Hx Hy ltac:(lia)) as (_ & ? & ? & ?). destruct x, y; simpl in *; by subst.
  - rewrite !layer_compact_address by done. intros E. apply layer_byte_inj; [done|done|]. unfold layer_byte. lia.
Qed.
End region.

(** The block of an address where the layers are outermost and all have the same page (and the
    same heads where these are outside the blocks). *)
Lemma layer_compact_block layout s s' page nb j j' x y :
  spec_ok s page → spec_ok s' page → heads_fit layout s → heads_fit layout s' →
  (layout = LHBNC → num_heads s = num_heads s') → in_shape nb s x → in_shape nb s' y →
  j * page * nb + layer_byte layout s page nb x = j' * page * nb + layer_byte layout s' page nb y →
  cell_block x = cell_block y.
Proof.
  intros Hs Hs' Hh Hh' Hsame Hx Hy E. unfold layer_byte in E. case_bool_decide as El.
  - destruct (head_bytes_page layout s page Hs Hh ltac:(tauto)) as (Hp & _ & Hpos).
    destruct (head_bytes_page layout s' page Hs' Hh' ltac:(tauto)) as (Hp' & _ & Hpos').
    assert (head_bytes s' = head_bytes s) as Eb by (pose proof (Hsame El); pose proof (so_shape _ _ Hs); nia).
    assert (((j * num_heads s + cell_head x) * nb + cell_block x) * head_bytes s + head_byte s x
      = ((j' * num_heads s + cell_head y) * nb + cell_block y) * head_bytes s + head_byte s' y) as E' by (rewrite Eb in E; nia).
    apply digits_inj in E' as [E' _]; [|by eapply (head_byte_bound layout); eauto|].
    + apply digits_inj in E' as [_ ?]; [done|apply Hx|apply Hy].
    + rewrite <-Eb. by eapply (head_byte_bound layout); eauto.
  - assert ((j * nb + cell_block x) * page + page_byte layout s x = (j' * nb + cell_block y) * page + page_byte layout s' y) as E' by lia.
    apply digits_inj in E' as [E' _]; [|by eapply page_byte_bound..]. apply digits_inj in E' as [_ ?]; [done|apply Hx|apply Hy].
Qed.
