(* ===== verification/PlacementFacts.v ===== *)
(** Where the layers of all groups lie in the allocation of a worker. *)

From S2P Require Import Prelude MathUtils OrderedDict LayerSpec CacheConfig LayoutFacts.

Set Warnings "-level-tolerance,-clear-no-such-hyp".

(** The page of a spec whose page size is defined. *)
Definition page_of (s : KVCacheSpec) : Z := match page_size_bytes s with inr p => p | inl _ => 0 end.
Lemma page_of_ok s page : spec_ok s page → page_of s = page.
Proof. intros [H _ _ _]. unfold page_of. by rewrite H. Qed.
Definition well_formed (s : KVCacheSpec) : Prop := spec_ok s (page_of s).
Lemma well_formed_page s : well_formed s → page_size_bytes s = inr (page_of s) ∧ 0 < page_of s.
Proof. intros H. split; [apply H|]. destruct (spec_page s _ H). lia. Qed.

(** ** The regions of a group *)

(** Regions with the byte of a block at which they begin. *)
Fixpoint starts (P : Z) (regions : list (KVCacheSpec * list string)) : list (KVCacheSpec * list string * Z) :=
  match regions with
  | [] => []
  | (s, names) :: rest => (s, names, P) :: starts (P + zlen names * page_of s) rest
  end.
Definition region_bytes (regions : list (KVCacheSpec * list string)) : Z :=
  sum_Z ((λ r, zlen r.2 * page_of r.1) <$> regions).
Lemma region_bytes_cons s names l : region_bytes ((s, names) :: l) = zlen names * page_of s + region_bytes l.
Proof. done. Qed.
Definition region_ok (r : KVCacheSpec * list string) : Prop := well_formed r.1 ∧ r.2 ≠ [].

Lemma region_bytes_nonneg regions : Forall region_ok regions → 0 ≤ region_bytes regions.
Proof.
  induction 1 as [|[s names] l [Hr _] _ IH]; [done|]. rewrite region_bytes_cons. pose proof (zlen_nonneg names).
  destruct (well_formed_page _ Hr). simpl in *. nia.
Qed.
Lemma starts_bound P regions s names P' : Forall region_ok regions → (s, names, P') ∈ starts P regions →
  P ≤ P' ∧ P' + zlen names * page_of s ≤ P + region_bytes regions ∧ (s, names) ∈ regions.
Proof.
  intros Hok. revert P. induction Hok as [|[s0 n0] l [Hr _] Hl IH]; intros P H; simpl in *; [by apply elem_of_nil in H|].
  pose proof (zlen_nonneg n0). destruct (well_formed_page _ Hr) as [_ ?]. pose proof (region_bytes_nonneg l Hl).
  rewrite region_bytes_cons. simpl in *. apply elem_of_cons in H as [[= -> -> ->]|H].
  - split_and!; [done|lia|by apply list_elem_of_here].
  - destruct (IH _ H) as (G1 & G2 & G3). split_and!; [nia|lia|by apply list_elem_of_further].
Qed.
(** Different regions do not overlap. *)
Lemma starts_disjoint P regions i j s names P1 s' names' P2 : Forall region_ok regions →
  starts P regions !! i = Some (s, names, P1) → starts P regions !! j = Some (s', names', P2) → (i < j)%nat →
  P1 + zlen names * page_of s ≤ P2.
Proof.
  intros Hok. revert P i j. induction Hok as [|[s0 n0] l Hr Hl IH]; intros P i j Hi Hj Hij; simpl in *; [done|].
  destruct j as [|j]; [lia|]. destruct i as [|i]; simpl in *.
  - simplify_eq. apply list_elem_of_lookup_2 in Hj. by destruct (starts_bound _ _ _ _ _ Hl Hj) as [? _].
  - eapply IH; [done|done|lia].
Qed.

(** The tensor of a region. *)
Definition region_tensor (layout : KVCacheLayout) (nb size bpb : Z) (r : KVCacheSpec * list string * Z) : KVCacheTensor :=
  let '(s, names, P) := r in
  mkTensor size names (region_layer_stride layout s (page_of s) nb) (region_block_stride layout s (page_of s) bpb)
    (region_offset layout s (page_of s) nb P).
Lemma place_regions_spec layout nb size bpb regions P ts :
  Forall region_ok regions → 0 < nb → 0 < bpb →
  place_regions nb size layout (if is_block_outermost layout then Some bpb else None) regions P = inr ts →
  ts = region_tensor layout nb size bpb <$> starts P regions ∧ Forall (λ r, heads_fit layout r.1) regions.
Proof.
  intros Hok Hnb Hbpb. revert P ts. induction Hok as [|[s names] l [Hr Hne] Hl IH]; intros P ts E; simpl in *.
  - inr_hyps. by subst.
  - destruct (well_formed_page s Hr) as [Hp _]. inr_hyps. subst.
    assert (x0 = page_of s) as -> by congruence.
    assert (0 < zlen names) by (unfold zlen; destruct names; [done|simpl; lia]).
    match goal with H : compute_layout_strides _ _ _ _ _ _ = inr _ |- _ =>
      destruct (plan_strides s (page_of s) nb (zlen names) layout bpb _ Hr Hnb ltac:(done) Hbpb H) as (Hh & inner & ->) end.
    match goal with H : place_regions _ _ _ _ _ _ = inr _ |- _ => destruct (IH _ _ H) as [-> ?] end. split; [done|by constructor].
Qed.

(** ** Groups *)

(** Layers of the same spec are together, in order. *)
Lemma od_append_perm {K V} `{EqDecision K} (d : list (K * list V)) k v :
  NoDup d.*1 → concat (od_append d k v).*2 ≡ₚ v :: concat d.*2.
Proof.
  intros Hnd. unfold od_append. destruct (decide (k ∈ d.*1)) as [Hin|Hn].
  - induction d as [|[k' vs] d IH]; simpl in *; [by apply elem_of_nil in Hin|]. apply NoDup_cons in Hnd as [Hk Hnd].
    rewrite od_get_cons. destruct (decide (k' = k)) as [->|Hne]; simpl; [solve_Permutation|].
    apply elem_of_cons in Hin as [?|Hin]; [done|]. rewrite IH by done. solve_Permutation.
  - rewrite od_set_fresh by done. apply od_get_None in Hn as ->. rewrite fmap_app, concat_app. simpl. solve_Permutation.
Qed.
Lemma od_append_keys {K V} `{EqDecision K} (d : list (K * list V)) k v : NoDup d.*1 → NoDup (od_append d k v).*1.
Proof.
  intros Hnd. unfold od_append. destruct (decide (k ∈ d.*1)) as [Hin|Hn]; [by rewrite od_set_keys|].
  rewrite od_set_fresh by done. rewrite fmap_app. apply NoDup_app. split_and!; [done| |apply NoDup_singleton].
  intros x Hx ->%list_elem_of_singleton. done.
Qed.
Lemma od_append_elem {K V} `{EqDecision K} (d : list (K * list V)) k v k' vs v' : NoDup d.*1 →
  (k', vs) ∈ od_append d k v → v' ∈ vs → (k' = k ∧ v' = v) ∨ ∃ vs', (k', vs') ∈ d ∧ v' ∈ vs'.
Proof.
  intros Hnd Hin Hv. pose proof (od_append_keys d k v Hnd) as Hnd'. apply (od_get_in _ _ _ Hnd') in Hin.
  unfold od_append in Hin. rewrite od_get_set in Hin. case_decide as E.
  - subst k'. injection Hin as <-. apply elem_of_app in Hv as [Hv|Hv%list_elem_of_singleton]; [right|by left].
    destruct (od_get d k) as [vs'|] eqn:Eg; [|by apply elem_of_nil in Hv]. exists vs'. split; [by apply od_get_elem|done].
  - right. exists vs. split; [by apply od_get_elem|done].
Qed.

Lemma same_type_spec (specs : layer_specs) d0 :
  NoDup d0.*1 →
  let d := foldl (λ d '(name, s), od_append d s name) d0 specs in
  NoDup d.*1 ∧ concat d.*2 ≡ₚ concat d0.*2 ++ specs.*1
  ∧ ∀ s names n, (s, names) ∈ d → n ∈ names → (∃ names0, (s, names0) ∈ d0 ∧ n ∈ names0) ∨ (n, s) ∈ specs.
Proof.
  revert d0. induction specs as [|[n0 s0] specs IH]; intros d0 Hnd; simpl.
  - split_and!; [done|by rewrite app_nil_r|]. intros s names n Hs Hn. left. by exists names.
  - destruct (IH (od_append d0 s0 n0) (od_append_keys _ _ _ Hnd)) as (H1 & H2 & H3). split_and!; [done| |].
    + rewrite H2, (od_append_perm d0 s0 n0 Hnd). solve_Permutation.
    + intros s names n Hs Hn. destruct (H3 s names n Hs Hn) as [(vs & Hvs & Hin)|Hin]; [|right; by apply list_elem_of_further].
      destruct (od_append_elem d0 s0 n0 s vs n Hnd Hvs Hin) as [[-> ->]|H]; [right; by apply list_elem_of_here|by left].
Qed.
Lemma same_type_nonempty (specs : layer_specs) d0 : Forall (λ e, e.2 ≠ []) d0 →
  Forall (λ e : KVCacheSpec * list string, e.2 ≠ []) (foldl (λ d '(name, s), od_append d s name) d0 specs).
Proof.
  revert d0. induction specs as [|[n0 s0] specs IH]; intros d0 H; simpl; [done|]. apply IH. unfold od_append.
  clear IH. generalize (default [] (od_get d0 s0)). intros l. induction H as [|[k vs] d Hk Hd IH]; simpl.
  - constructor; [by destruct l|constructor].
  - case_decide; constructor; try done. simpl. by destruct l.
Qed.

(** Every layer of a group has a well-formed spec; a dictionary has exactly the layers of the
    group.  A pipeline stage may have no layer of the group. *)
Record group_ok (g : KVCacheGroupSpec) : Prop := {
  go_names : NoDup (layer_names g);
  go_specs : match group_spec g with
             | OneSpec s => well_formed s
             | UniformTypeKVCacheSpecs _ specs => specs.*1 = layer_names g ∧ Forall well_formed specs.*2
             end;
}.
Definition spec_of (g : KVCacheGroupSpec) (n : string) (s : KVCacheSpec) : Prop := _get_per_layer_spec g n = inr s.

Lemma spec_of_ok g n s : group_ok g → spec_of g n s → well_formed s.
Proof.
  intros [Hn Hg] Hs. unfold spec_of, _get_per_layer_spec in Hs. destruct (group_spec g) as [s'|b specs].
  - inr_hyps. by subst.
  - destruct Hg as [_ Hf]. inr_hyps. apply od_get_elem in Hs. rewrite Forall_forall in Hf. apply Hf.
    by apply (list_elem_of_fmap_2' snd _ _ _ Hs).
Qed.
Lemma layers_by_spec_ok g : group_ok g →
  Forall region_ok (layers_by_spec g) ∧ concat (layers_by_spec g).*2 ≡ₚ layer_names g
  ∧ ∀ s names n, (s, names) ∈ layers_by_spec g → n ∈ names → spec_of g n s.
Proof.
  intros [Hn Hg]. unfold layers_by_spec, spec_of, _get_per_layer_spec. destruct (group_spec g) as [s|b specs].
  - case_bool_decide as Hne; simpl.
    + rewrite Hne. split_and!; [constructor|done|]. by intros s' names n ?%elem_of_nil.
    + rewrite app_nil_r. split_and!; [by apply Forall_singleton|done|]. intros s' names n [= -> ->]%list_elem_of_singleton _. done.
  - destruct Hg as [Hk Hf]. destruct (same_type_spec specs [] ltac:(constructor)) as (_ & H2 & H3). fold (same_type_layers specs) in *.
    simpl in H2. assert (∀ s names n, (s, names) ∈ same_type_layers specs → n ∈ names → (n, s) ∈ specs) as Hin.
    { intros s names n Hs Hi. by destruct (H3 s names n Hs Hi) as [(? & []%elem_of_nil & _)|]. }
    split_and!; [|by rewrite H2, Hk|].
    + pose proof (same_type_nonempty specs [] ltac:(constructor)) as Hnon. fold (same_type_layers specs) in Hnon.
      rewrite Forall_forall in Hnon. rewrite Forall_forall in Hf. apply Forall_forall. intros [s names] Hs. split; [|by apply (Hnon _ Hs)].
      specialize (Hnon _ Hs). simpl in *. destruct names as [|n names]; [done|]. apply Hf.
      apply (list_elem_of_fmap_2' snd _ (n, s)); [|done]. apply (Hin s (n :: names)); [done|by apply list_elem_of_here].
    + intros s names n Hs Hi. apply result_of_option_inr. apply od_get_in; [by rewrite Hk|by eapply Hin].
Qed.

Definition layer_page (g : KVCacheGroupSpec) (n : string) : Z :=
  match _get_per_layer_spec g n with inr s => page_of s | inl _ => 0 end.

Lemma sum_Z_cons x l : sum_Z (x :: l) = x + sum_Z l.
Proof. done. Qed.
Lemma sum_Z_app l l' : sum_Z (l ++ l') = sum_Z l + sum_Z l'.
Proof. unfold sum_Z. induction l as [|x l IH]; simpl in *; lia. Qed.
#[global] Instance sum_Z_perm : Proper ((≡ₚ) ==> eq) sum_Z.
Proof. intros l l'. unfold sum_Z. induction 1; simpl in *; lia. Qed.

Lemma group_bytes_spec g n : group_ok g → group_bytes_per_block g = inr n →
  n = sum_Z (layer_page g <$> layer_names g).
Proof.
  intros Hg E. unfold group_bytes_per_block in E. inr_hyps. subst. f_equal.
  match goal with H : mapM _ _ = inr _ |- _ => apply mapM_inr in H; revert H end.
  generalize (layer_names g). intros l H. induction H as [|m p l l' Hm _ IH]; simpl; [done|]. f_equal; [|done].
  inr_hyps. unfold layer_page. match goal with H : _get_per_layer_spec g m = inr ?s |- _ => rewrite H end.
  unfold page_of. by match goal with H : page_size_bytes _ = inr _ |- _ => rewrite H end.
Qed.
Lemma region_bytes_names g : group_ok g → region_bytes (layers_by_spec g) = sum_Z (layer_page g <$> layer_names g).
Proof.
  intros Hg. destruct (layers_by_spec_ok g Hg) as (_ & Hp & Hs). rewrite <-Hp. clear Hp.
  induction (layers_by_spec g) as [|[s names] l IH]; [done|]. rewrite region_bytes_cons. simpl. rewrite fmap_app, sum_Z_app.
  rewrite IH by (intros; eapply Hs; [by apply list_elem_of_further|done]). f_equal.
  assert (∀ n, n ∈ names → spec_of g n s) as Hn by (intros; eapply Hs; [by apply list_elem_of_here|done]). clear -Hn.
  induction names as [|n names IH]; [done|]. rewrite zlen_cons.
  change (sum_Z (layer_page g <$> n :: names)) with (layer_page g n + sum_Z (layer_page g <$> names)).
  rewrite <-IH by (intros; by apply Hn, list_elem_of_further).
  assert (layer_page g n = page_of s) as ->; [|lia]. unfold layer_page. by rewrite (Hn n) by apply list_elem_of_here.
Qed.

Lemma concat_concat {A B} (f : A → list (list B)) (l : list A) : concat (concat (f <$> l)) = concat ((λ x, concat (f x)) <$> l).
Proof. induction l as [|x l IH]; [done|]. rewrite !fmap_cons. cbn [concat]. by rewrite concat_app, IH. Qed.
Lemma foldl_max_le (l : list Z) a : a ≤ foldl Z.max a l ∧ ∀ x, x ∈ l → x ≤ foldl Z.max a l.
Proof.
  revert a. induction l as [|y l IH]; intros a; simpl; [split; [done|by intros ? []%elem_of_nil]|].
  destruct (IH (a `max` y)) as [H1 H2]. split; [lia|]. intros x [->|Hx]%elem_of_cons; [lia|by apply H2].
Qed.
Lemma py_max_le l m x : py_max l = inr m → x ∈ l → x ≤ m.
Proof.
  destruct l as [|a l]; [done|]. simpl. intros [= <-] Hx. destruct (foldl_max_le l a) as [H1 H2].
  apply elem_of_cons in Hx as [->|Hx]; [done|by apply H2].
Qed.

(** The views of the layers of a region, with the manager's blocks. *)
Lemma create_region_views layout s nb bpb P names :
  well_formed s → heads_fit layout s → 0 < nb → 0 ≤ P → 0 < zlen names → P + zlen names * page_of s ≤ bpb →
  create_kv_cache_views s nb layout (region_tensor layout nb (bpb * nb) bpb (s, names, P)) None
  = inr (region_view layout s (page_of s) nb bpb (zlen names) P <$> py_range 0 (zlen names)).
Proof.
  intros Hs Hh Hnb HP HL Hfit. destruct (well_formed_page s Hs) as [_ Hpos]. assert (0 < bpb) as Hb by nia.
  pose proof (region_layer_stride_pos layout s (page_of s) nb Hs Hh Hnb) as H1.
  pose proof (region_block_stride_pos layout s (page_of s) bpb Hs Hh Hb) as H2.
  unfold create_kv_cache_views. apply result_bind_inr. eexists. split; [apply shape_none, Hs|].
  apply result_bind_inr. exists tt. split; [apply result_divisor_inr; lia|]. cbn [head default].
  rewrite Z.div_same by lia. change (1 <? 1) with false. cbv iota.
  apply result_bind_inr. eexists. split; [done|]. apply result_bind_inr. eexists. split; [by eapply view_strides_ok|].
  apply result_bind_inr. exists tt. split; [|done]. cbn [tensor_size tensor_layers tensor_offset layer_stride block_stride region_tensor].
  pose proof (region_view_fits layout s (page_of s) nb bpb (zlen names) P Hs Hh Hnb HP HL Hfit) as Hfits.
  unfold region_view in Hfits. cbn [view_shape view_strides] in Hfits. by rewrite Hfits.
Qed.

(** ** One worker *)

Section worker.
Context (groups : list KVCacheGroupSpec) (layout : KVCacheLayout).
Context (Hok : Forall group_ok groups) (Hnd : NoDup (concat (layer_names <$> groups))).

Lemma group_find i g n : groups !! i = Some g → n ∈ layer_names g →
  list_find (λ g, n ∈ layer_names g) groups = Some (i, g).
Proof using Hnd.
  clear Hok. intros Hi Hn. apply list_find_Some. split_and!; [done|done|]. intros j g' Hj Hlt Hn'.
  revert i j Hi Hj Hlt Hnd. induction groups as [|g0 l IH]; intros i j Hi Hj Hlt Hnd'; [done|].
  simpl in Hnd'. apply NoDup_app in Hnd' as (H1 & H2 & H3). destruct i as [|i]; [lia|]. destruct j as [|j]; simpl in *.
  - simplify_eq. apply (H2 n Hn'). apply list_elem_of_In, in_concat. exists (layer_names g). split; [|by apply list_elem_of_In].
    apply list_elem_of_In, list_elem_of_fmap_2. by eapply list_elem_of_lookup_2.
  - eapply (IH i j); [done|done|lia|done].
Qed.

(** The views of the layers of a region. *)
Definition region_views (nb bpb : Z) (r : KVCacheSpec * list string * Z) : list (string * KVCacheView) :=
  let '(s, names, P) := r in
  zip names (region_view layout s (page_of s) nb bpb (zlen names) P <$> py_range 0 (zlen names)).

Definition group_tensors (nb bpb : Z) (g : KVCacheGroupSpec) : list KVCacheTensor :=
  region_tensor layout nb (bpb * nb) bpb <$> starts 0 (layers_by_spec g).
Definition group_views (nb bpb : Z) (g : KVCacheGroupSpec) : list (string * KVCacheView) :=
  concat (region_views nb bpb <$> starts 0 (layers_by_spec g)).

(** What a plan that succeeds is. *)
Record planned (c : VllmConfig) (mem : Z) (k : KVCacheConfig) (bpb : Z) : Prop := {
  pn_bytes : _get_kv_cache_bytes_per_block groups = inr bpb ∧ 0 < bpb;
  pn_blocks : num_blocks k = may_override_num_blocks c (mem / bpb);
  pn_groups : kv_cache_groups k = groups;
  pn_valid : validate_kv_cache_layout layout groups = inr tt;
  pn_tensors : kv_cache_tensors k = concat (group_tensors (num_blocks k) bpb <$> groups);
  pn_fit : Forall (λ g, region_bytes (layers_by_spec g) ≤ bpb ∧ Forall (λ r, heads_fit layout r.1) (layers_by_spec g)) groups;
}.

Lemma bytes_per_block_bound bpb : _get_kv_cache_bytes_per_block groups = inr bpb →
  0 < bpb ∧ Forall (λ g, region_bytes (layers_by_spec g) ≤ bpb) groups.
Proof using Hok.
  clear Hnd. intros E. unfold _get_kv_cache_bytes_per_block in E. inr_hyps. subst. split; [by apply Z.ltb_lt|].
  match goal with H : mapM _ _ = inr ?l |- _ => rename l into sizes; apply mapM_inr in H; rename H into Hm end.
  match goal with H : py_max _ = inr _ |- _ => rename H into Hmax end.
  apply Forall_lookup. intros i g Hi. destruct (Forall2_lookup_l _ _ _ _ _ Hm Hi) as (x & Hx & Hg).
  assert (group_ok g) as Hgo by (by eapply Forall_lookup in Hi). rewrite region_bytes_names by done.
  rewrite <-(group_bytes_spec g x Hgo Hg). eapply py_max_le; [done|by eapply list_elem_of_lookup_2].
Qed.

Lemma config_planned c mem k : groups ≠ [] → kv_cache_layout c = Some layout →
  get_kv_cache_config_from_groups c groups mem = inr k → 0 < num_blocks k → ∃ bpb, planned c mem k bpb.
Proof using Hok.
  intros Hne Hl E Hnb. unfold get_kv_cache_config_from_groups in E. rewrite bool_decide_eq_false_2, Hl in E by done.
  simpl in E. inr_hyps. subst k. simpl in Hnb.
  match goal with H : _get_kv_cache_bytes_per_block _ = inr ?b |- _ => exists b; rename H into Hb; rename b into bpb end.
  match goal with H : validate_kv_cache_layout _ _ = inr ?u |- _ => destruct u; rename H into Hv end.
  match goal with H : mapM _ _ = inr ?l |- _ => apply mapM_inr in H; rename H into Hm; rename l into ts end.
  destruct (bytes_per_block_bound bpb Hb) as [Hpos Hfit].
  set (nb := may_override_num_blocks c (mem / bpb)) in *.
  assert (ts = group_tensors nb bpb <$> groups ∧ Forall (λ g, Forall (λ r, heads_fit layout r.1) (layers_by_spec g)) groups) as [-> Hh].
  { clear -Hm Hok Hnb Hpos. induction Hm as [|g t gs ts Hg _ IH]; [done|]. apply Forall_cons in Hok as [Ho Hok'].
    destruct (layers_by_spec_ok g Ho) as (Hr & _).
    destruct (place_regions_spec layout nb (bpb * nb) bpb _ 0 t Hr Hnb Hpos Hg) as [-> Hh]. destruct (IH Hok') as [-> ?].
    split; [done|by constructor]. }
  split; try done. apply Forall_and. done.
Qed.

(** A view of a group is that of a layer of one of its regions. *)
Record placed (nb bpb : Z) (g : KVCacheGroupSpec) (n : string) (v : KVCacheView) (j : nat) (s : KVCacheSpec)
    (names : list string) (P l : Z) : Prop := {
  pd_region : starts 0 (layers_by_spec g) !! j = Some (s, names, P);
  pd_name : names !! Z.to_nat l = Some n ∧ 0 ≤ l < zlen names;
  pd_view : v = region_view layout s (page_of s) nb bpb (zlen names) P l;
}.
Lemma view_placed nb bpb g n v : (n, v) ∈ group_views nb bpb g → ∃ j s names P l, placed nb bpb g n v j s names P l.
Proof.
  intros Hin. apply list_elem_of_In, in_concat in Hin as (vs & Hvs%list_elem_of_In & Hin%list_elem_of_In).
  apply list_elem_of_fmap in Hvs as ([[s names] P] & -> & Hr). apply list_elem_of_lookup in Hr as [j Hj].
  apply list_elem_of_lookup in Hin as [l Hl]. unfold region_views in Hl.
  apply lookup_zip_Some in Hl as [Hn Hv]. rewrite list_lookup_fmap, fmap_Some in Hv. destruct Hv as (l' & Hl' & ->).
  unfold py_range in Hl'. rewrite list_lookup_fmap, fmap_Some in Hl'. destruct Hl' as (m & Hm & ->).
  apply lookup_seq in Hm as [-> Hlt]. exists j, s, names, P, (0 + Z.of_nat (0 + l)).
  split; [done| |done]. replace (Z.to_nat (0 + Z.of_nat (0 + l))) with l by lia.
  split; [done|]. pose proof (lookup_lt_Some _ _ _ Hn). unfold zlen. lia.
Qed.

Lemma placed_facts nb bpb g n v j s names P l : group_ok g → placed nb bpb g n v j s names P l →
  well_formed s ∧ (s, names) ∈ layers_by_spec g ∧ 0 ≤ P ∧ P + zlen names * page_of s ≤ region_bytes (layers_by_spec g)
  ∧ n ∈ layer_names g ∧ spec_of g n s.
Proof.
  intros Hg [Hj [Hn Hl] _]. destruct (layers_by_spec_ok g Hg) as (Hreg & Hp & Hsp).
  apply list_elem_of_lookup_2 in Hj. destruct (starts_bound _ _ _ _ _ Hreg Hj) as (H1 & H2 & Hin).
  rewrite Forall_forall in Hreg. destruct (Hreg _ Hin) as [Hwf _]. apply list_elem_of_lookup_2 in Hn.
  split_and!; try done; [|by eapply Hsp]. rewrite <-Hp. apply list_elem_of_In, in_concat. exists names.
  split; [|by apply list_elem_of_In]. apply list_elem_of_In. by apply (list_elem_of_fmap_2' snd _ (s, names)).
Qed.

Definition in_view (v : KVCacheView) (x : cell) : Prop :=
  Forall2 (λ i n, 0 ≤ i < n) [cell_block x; cell_head x; cell_state x; cell_byte x] (view_shape v).
Lemma in_region_view s page nb bpb L P l x : in_view (region_view layout s page nb bpb L P l) x → in_shape nb s x.
Proof.
  unfold in_view, region_view, in_shape. simpl. intros H.
  repeat (apply Forall2_cons_1 in H as [? H]). done.
Qed.
End worker.
