(* ===== verification/PlacementTheorems.v ===== *)
(** No two layers of a worker share memory, except that a block can belong to any group.  An
    attention kernel may use smaller blocks than the cache manager, and the views of a layer then
    cut each block into equal pieces ([cuts_view]).  Such a view addresses bytes of the view with
    the manager's blocks only, those of a kernel block in the block it was cut from. *)

From S2P Require Import Prelude MathUtils OrderedDict LayerSpec CacheConfig LayoutFacts PlacementFacts.

Set Warnings "-level-tolerance,-clear-no-such-hyp".

(** ** Kernel blocks *)

(** The view [v] cuts the blocks of [v0] into pieces: [blocks_per_page] of them per block. *)
Definition blocks_per_page (nb : Z) (v : KVCacheView) : Z := default 0 (head (view_shape v)) / nb.
Record cuts_view (nb : Z) (v0 v : KVCacheView) : Prop := {
  cv_cell x : in_view v x → ∃ x0, in_view v0 x0 ∧ cell_address v0 x0 = cell_address v x
    ∧ cell_block x0 = cell_block x / blocks_per_page nb v;
  cv_inj x y : in_view v x → in_view v y → cell_address v x = cell_address v y → x = y;
}.

Section split.
Context (layout : KVCacheLayout) (s : KVCacheSpec) (page nb bpb L P kb : Z).
Context (Hs : spec_ok s page) (Hh : heads_fit layout s) (Hnb : 0 < nb) (HP : 0 ≤ P).
Context (HL : 0 < L) (Hfit : P + L * page ≤ bpb).
Context (Hkb : 0 < kb) (Hdiv : spec_block_size s mod kb = 0).

#[local] Abbreviation r := (spec_block_size s / kb).
#[local] Abbreviation K := (get_num_kernel_states s kb).
#[local] Abbreviation ls := (region_layer_stride layout s page nb).
#[local] Abbreviation bst := (region_block_stride layout s page bpb).

Lemma ratio_pos : 1 ≤ r.
Proof using Hs Hkb Hdiv. pose proof (so_block _ _ Hs). pose proof (Z.div_mod (spec_block_size s) kb). nia. Qed.

(** The states of the kernel blocks of a block are among those of the block. *)
Lemma kernel_states : 0 < (spec_tokens_per_state s).1 → r * K ≤ num_states s.
Proof using Hkb Hdiv Hs.
  unfold num_states, get_num_kernel_states. destruct (spec_tokens_per_state s) as [n d]. simpl. intros Hn.
  rewrite (proj2 (Z.ltb_lt 0 n)) by done. pose proof ratio_pos. apply Z.div_le_lower_bound; [done|].
  pose proof (Z.mul_div_le (kb * d) n Hn). pose proof (Z.div_mod (spec_block_size s) kb ltac:(lia)) as E.
  rewrite Hdiv, Z.add_0_r in E. rewrite E at 2. nia.
Qed.

(** The strides of the heads and the states of the pieces. *)
Definition split_inner (bs : Z) : list Z :=
  let H := num_heads s in let C := state_content_size_bytes s in
  match layout with
  | LBHNC | BLHNC => [K * C; C; 1]
  | LBNHC | BLNHC => [C; H * C; 1]
  | LHBNC => [bs * (nb * r); C; 1]
  | BHLNC => [ls * L; C; 1]
  end.
Definition split_shape : list Z := [nb * r; num_heads s; K; state_content_size_bytes s].
Definition split_view (l : Z) : KVCacheView :=
  mkView (region_offset layout s page nb P + l * ls) split_shape (bst / r :: split_inner (bst / r)).

Lemma split_shape_ok n : compute_layer_kv_cache_shape_bytes s n (Some kb) = inr [n * r; num_heads s; K; state_content_size_bytes s].
Proof using Hdiv. unfold compute_layer_kv_cache_shape_bytes. simpl. by rewrite Hdiv. Qed.

Lemma split_strides bs : page_size_padded s = None → 0 < bs → 0 < bpb →
  compute_layout_strides s nb L layout (Some kb) [Some ls; Some bs; None; None; None] = inr (ls :: bs :: split_inner bs).
Proof using Hs Hh Hnb Hdiv.
  intros Hpad Hbs Hb. pose proof (region_layer_stride_pos layout s page nb Hs Hh Hnb) as Hls.
  unfold compute_layout_strides. rewrite split_shape_ok, Hpad. unfold split_inner. generalize dependent ls. intros x Hx.
  assert ((x =? 0) = false) as Hl0 by (apply Z.eqb_neq; lia). assert ((bs =? 0) = false) as Hb0 by (apply Z.eqb_neq; lia).
  assert ((0 <? x) = true) as Hl1 by (apply Z.ltb_lt; lia). assert ((0 <? bs) = true) as Hb1 by (apply Z.ltb_lt; lia).
  destruct layout; cbv -[Z.mul Z.div Z.eqb Z.ltb andb num_heads get_num_kernel_states state_content_size_bytes spec_block_size];
    rewrite Hl0, Hb0, Hl1, Hb1; cbn [andb]; apply f_equal; repeat (apply (f_equal2 cons); [lia|]); done.
Qed.

(** Where a split is possible: pages are dense and follow one another. *)
Record dense : Prop := {
  de_unpadded : page = num_heads s * num_states s * state_content_size_bytes s;
  de_stride : bst = page;
  de_pieces : page mod r = 0;
  de_heads : 0 < K → layout = LHBNC ∨ layout = BHLNC → num_heads s = 1;
  de_alone : is_block_outermost layout = true → L = 1 ∧ P = 0;
}.

Lemma fits_dense : page_size_padded s = None → 1 < r → bst = page → page mod r = 0 →
  as_strided_fits (bpb * nb) (L :: split_shape) (ls :: bst / r :: split_inner (bst / r)) (region_offset layout s page nb P) = true →
  dense.
Proof using Hs Hh Hnb HP HL Hfit.
  intros Hpad Hr Hbst Hmod Hfits. destruct (spec_page s page Hs) as [Hp Ep]. rewrite Hpad in Ep. simpl in Ep.
  pose proof (so_shape _ _ Hs) as (H1 & H2 & H3).
  assert (is_block_outermost layout = true → L = 1 ∧ P = 0) as Hal.
  { intros Ho. unfold region_block_stride in Hbst. rewrite Ho in Hbst. nia. }
  split; try done. intros HK [El|El].
  - unfold region_block_stride, own_block_stride, head_bytes in Hbst. rewrite El, Hpad in Hbst. simpl in Hbst. nia.
  - assert (is_block_outermost layout = true) as Ho by (by rewrite El). destruct (Hal Ho) as [EL EP].
    assert (bpb = page) as Eb by (unfold region_block_stride in Hbst; by rewrite Ho in Hbst).
    assert (ls = num_states s * state_content_size_bytes s) as Els
      by (unfold region_layer_stride, own_layer_stride, head_bytes; by rewrite El, Hpad).
    unfold split_inner in Hfits. rewrite region_offset_eq, Ho, Hbst, Eb, EL, EP, Els, El in Hfits by done.
    unfold as_strided_fits, split_shape in Hfits. simpl in Hfits.
    assert ((0 <? nb * r) && ((0 <? num_heads s) && ((0 <? K) && ((0 <? state_content_size_bytes s) && true))) = true) as Hpos
      by (repeat (apply andb_true_intro; split; [apply Z.ltb_lt; nia|]); done).
    rewrite Hpos in Hfits. simpl in Hfits. apply Z.ltb_lt in Hfits. clear Hpos.
    assert (page = r * (page / r)) as Er by (pose proof (Z.div_mod page r ltac:(lia)); lia).
    set (q := page / r) in *. set (N := num_states s) in *. set (C := state_content_size_bytes s) in *. set (R := r) in *.
    assert ((num_heads s - 1) * (N * C) + K * C ≤ q) by nia.
    assert (0 < N * C) by nia. destruct (Z.le_gt_cases (num_heads s) 1); [lia|]. exfalso.
    assert (2 * q ≤ num_heads s * (N * C)) by nia. nia.
Qed.

(** The address of a byte: the layer, the block, and the offset in the block. *)
Definition layer_base (l : Z) : Z := region_offset layout s page nb P + l * ls.
Lemma dense_address l x : dense → 0 < K → in_shape nb s x →
  cell_address (region_view layout s page nb bpb L P l) x = layer_base l + cell_block x * page + page_byte layout s x.
Proof using.
  clear Hh. intros [_ Hst _ Hhd _] HK (_ & Hx & _). unfold cell_address, region_view, layer_base, page_byte. simpl. rewrite Hst.
  assert (layout = LHBNC ∨ layout = BHLNC → cell_head x = 0) as H0 by (intros E; specialize (Hhd HK E); lia).
  destruct layout; simpl; try lia; rewrite H0 by tauto; lia.
Qed.

Definition split_byte (x : cell) : Z :=
  match layout with
  | LBNHC | BLNHC => (cell_state x * num_heads s + cell_head x) * state_content_size_bytes s + cell_byte x
  | _ => (cell_head x * K + cell_state x) * state_content_size_bytes s + cell_byte x
  end.
Definition in_split (x : cell) : Prop :=
  0 ≤ cell_block x < nb * r ∧ 0 ≤ cell_head x < num_heads s ∧ 0 ≤ cell_state x < K
  ∧ 0 ≤ cell_byte x < state_content_size_bytes s.
Lemma in_split_view l x : in_view (split_view l) x → in_split x.
Proof using. unfold in_view, split_view, split_shape. simpl. intros H. repeat (apply Forall2_cons_1 in H as [? H]). done. Qed.
Lemma split_address l x : dense → in_split x →
  cell_address (split_view l) x = layer_base l + cell_block x * (page / r) + split_byte x.
Proof using.
  clear Hh. intros [_ Hst _ Hhd _] (_ & Hx & HK & _). unfold cell_address, split_view, layer_base, split_byte, split_inner. simpl. rewrite Hst.
  assert (layout = LHBNC ∨ layout = BHLNC → cell_head x = 0) as H0 by (intros E; specialize (Hhd ltac:(lia) E); lia).
  destruct layout; simpl; try lia; rewrite H0 by tauto; lia.
Qed.
Lemma split_byte_bound x : dense → 0 < (spec_tokens_per_state s).1 → in_split x → 0 ≤ split_byte x < page / r.
Proof using Hs Hkb Hdiv.
  clear Hh. intros [Ep _ _ _ _] Hst%kernel_states (_ & H1 & H2 & H3). pose proof ratio_pos as Hr.
  assert (num_heads s * K * state_content_size_bytes s ≤ page / r) as Hle.
  { apply Z.div_le_lower_bound; [lia|]. rewrite Ep.
    replace (r * (num_heads s * K * state_content_size_bytes s)) with (num_heads s * (r * K) * state_content_size_bytes s) by ring.
    apply Z.mul_le_mono_nonneg_r; [lia|]. apply Z.mul_le_mono_nonneg_l; lia. }
  assert (0 ≤ (cell_state x * num_heads s + cell_head x) * state_content_size_bytes s + cell_byte x
    < K * num_heads s * state_content_size_bytes s) by (apply digits_bound; [by apply digits_bound|done]).
  assert (0 ≤ (cell_head x * K + cell_state x) * state_content_size_bytes s + cell_byte x
    < num_heads s * K * state_content_size_bytes s) by (apply digits_bound; [by apply digits_bound|done]).
  unfold split_byte. destruct layout; lia.
Qed.
Lemma split_byte_inj x y : in_split x → in_split y → split_byte x = split_byte y →
  cell_head x = cell_head y ∧ cell_state x = cell_state y ∧ cell_byte x = cell_byte y.
Proof using.
  clear Hh. intros (_ & H2 & H3 & H4) (_ & G2 & G3 & G4) E. unfold split_byte in E.
  destruct layout; apply digits_inj in E as [E ?]; try done; apply digits_inj in E as [? ?]; done.
Qed.

(** Every byte of a dense page belongs to a head, a state and its content. *)
Lemma digits_onto m n o : 0 < m → 0 ≤ o < n * m → ∃ a b, o = a * m + b ∧ 0 ≤ a < n ∧ 0 ≤ b < m.
Proof using.
  intros Hm Ho. exists (o / m), (o mod m). pose proof (Z.div_mod o m ltac:(lia)). pose proof (Z.mod_pos_bound o m Hm).
  split_and!; [lia|apply Z.div_pos; lia|apply Z.div_lt_upper_bound; lia|lia|lia].
Qed.
Lemma page_byte_onto b o : dense → 0 ≤ b < nb → 0 ≤ o < page →
  ∃ x, in_shape nb s x ∧ cell_block x = b ∧ page_byte layout s x = o.
Proof using Hs.
  clear Hh. intros [Ep _ _ _ _] Hb Ho. rewrite Ep in Ho. pose proof (so_shape _ _ Hs) as (H1 & H2 & H3).
  destruct (digits_onto (state_content_size_bytes s) (num_heads s * num_states s) o H3 Ho) as (hn & c & -> & Hhn & Hc).
  destruct (digits_onto (num_states s) (num_heads s) hn H2 Hhn) as (h & n & Eh & Hh1 & Hn1).
  destruct (digits_onto (num_heads s) (num_states s) hn H1 ltac:(lia)) as (n' & h' & Eh' & Hn2 & Hh2).
  destruct (bool_decide (layout = LBNHC ∨ layout = BLNHC)) eqn:El.
  - apply bool_decide_eq_true in El. exists (mkCell b h' n' c). split; [done|]. split; [done|].
    unfold page_byte. simpl. rewrite Eh'. by destruct El as [-> | ->].
  - apply bool_decide_eq_false in El. exists (mkCell b h n c). split; [done|]. split; [done|].
    unfold page_byte. simpl. rewrite Eh. destruct layout; try done; exfalso; apply El; tauto.
Qed.

(** A view with kernel blocks cuts the view with the manager's blocks. *)
Lemma split_cuts l : dense → 0 < (spec_tokens_per_state s).1 →
  cuts_view nb (region_view layout s page nb bpb L P l) (split_view l).
Proof using Hs Hkb Hdiv Hnb.
  intros Hd Hst. pose proof ratio_pos as Hr.
  assert (page = r * (page / r)) as Epr by (pose proof (Z.div_mod page r ltac:(lia)); pose proof (de_pieces Hd); lia).
  assert (blocks_per_page nb (split_view l) = r) as Eb by (unfold blocks_per_page; simpl; rewrite Z.mul_comm; apply Z.div_mul; lia).
  split.
  - intros x Hx%in_split_view. pose proof (split_byte_bound x Hd Hst Hx) as Hsb. rewrite Eb, (split_address l x Hd Hx).
    pose proof (Z.div_mod (cell_block x) r ltac:(lia)) as Edm. pose proof (Z.mod_pos_bound (cell_block x) r ltac:(lia)) as Hm.
    assert (0 ≤ cell_block x / r < nb) as Hb.
    { destruct Hx as (Hx & _). split; [apply Z.div_pos; lia|]. apply Z.div_lt_upper_bound; lia. }
    destruct (page_byte_onto (cell_block x / r) (cell_block x mod r * (page / r) + split_byte x) Hd Hb) as (x0 & Hx0 & Ex0 & Ep).
    { pose proof (digits_bound _ _ _ _ Hm Hsb). lia. }
    exists x0. split; [|split; [|done]].
    + destruct Hx0 as (? & ? & ? & ?). unfold in_view. simpl. do 4 (constructor; [done|]). constructor.
    + rewrite dense_address by (try done; destruct Hx as (_ & _ & ? & _); lia). rewrite Ex0, Ep.
      assert (∀ b d m q, b = r * d + m → d * (r * q) + m * q = b * q) as Hq by (intros; subst; ring).
      specialize (Hq _ _ _ (page / r) Edm). rewrite <-Epr in Hq. lia.
  - intros x y Hx%in_split_view Hy%in_split_view. rewrite !split_address by done. intros E.
    pose proof (split_byte_bound x Hd Hst Hx). pose proof (split_byte_bound y Hd Hst Hy).
    assert (cell_block x * (page / r) + split_byte x = cell_block y * (page / r) + split_byte y) as E' by lia.
    apply digits_inj in E' as [E1 E2]; [|done..]. destruct (split_byte_inj x y Hx Hy E2) as (? & ? & ?).
    destruct x, y; simpl in *; by subst.
Qed.

Lemma split_fits : dense → 0 < (spec_tokens_per_state s).1 →
  as_strided_fits (bpb * nb) (L :: split_shape) (ls :: bst / r :: split_inner (bst / r)) (region_offset layout s page nb P) = true.
Proof using Hs Hh Hnb HP HL Hfit Hkb Hdiv.
  intros Hd Hst. unfold as_strided_fits. destruct (forallb (Z.ltb 0) (L :: split_shape)) eqn:Epos; [|done].
  apply orb_true_iff. right. apply Z.ltb_lt. unfold split_shape in Epos. cbn [forallb] in Epos. bool_hyps.
  set (x := mkCell (nb * r - 1) (num_heads s - 1) (K - 1) (state_content_size_bytes s - 1)).
  destruct (cv_cell _ _ _ (split_cuts (L - 1) Hd Hst) x) as (x0 & Hx0 & Ea & _).
  { unfold in_view, split_view, split_shape, x. simpl. do 4 (constructor; [lia|]). constructor. }
  pose proof (region_address_bound layout s page nb bpb L P Hs Hh Hnb HP (L - 1) x0 ltac:(lia) Hfit (in_region_view _ _ _ _ _ _ _ _ _ Hx0)) as [_ Hb].
  rewrite Ea in Hb. unfold cell_address, split_view, x in Hb. simpl in Hb |- *. lia.
Qed.
End split.

(** ** One tensor *)

(** The kernel block size of a layer does not exceed its block, unless its cache is not made of
    states per token, as [prepare_kernel_block_sizes] has it. *)
Definition kernel_ok (s : KVCacheSpec) (kernel_block_size : option Z) : Prop :=
  ∀ b, kernel_block_size = Some b → 0 < b ∧ (b = spec_block_size s ∨ 0 < (spec_tokens_per_state s).1).
(** Sizes for which the views can be made: blocks are not cut, or they are dense pages of a
    layout with the layers outermost. *)
Definition kernel_fits (layout : KVCacheLayout) (s : KVCacheSpec) (kernel_block_size : option Z) : Prop :=
  ∀ b, kernel_block_size = Some b → b = spec_block_size s
    ∨ (spec_block_size s mod b = 0 ∧ page_of s mod (spec_block_size s / b) = 0 ∧ page_size_padded s = None
       ∧ (layout = LBHNC ∨ layout = LBNHC)).

Lemma create_uncut s nb layout t :
  create_kv_cache_views s nb layout t (Some (spec_block_size s)) = create_kv_cache_views s nb layout t None.
Proof.
  unfold create_kv_cache_views, compute_layout_strides, compute_layer_kv_cache_shape_bytes. simpl. by rewrite Z.eqb_refl.
Qed.

Section tensor.
Context (layout : KVCacheLayout) (s : KVCacheSpec) (nb bpb P : Z) (names : list string).
Context (Hs : well_formed s) (Hh : heads_fit layout s) (Hnb : 0 < nb) (HP : 0 ≤ P).
Context (HL : 0 < zlen names) (Hfit : P + zlen names * page_of s ≤ bpb).

#[local] Abbreviation tensor := (region_tensor layout nb (bpb * nb) bpb (s, names, P)).
#[local] Abbreviation views0 := (region_view layout s (page_of s) nb bpb (zlen names) P <$> py_range 0 (zlen names)).

Lemma cuts_refl l : 0 ≤ l < zlen names →
  let v := region_view layout s (page_of s) nb bpb (zlen names) P l in cuts_view nb v v.
Proof using Hs Hh Hnb HP Hfit.
  intros Hl v. split.
  - intros x Hx. exists x. split_and!; [done|done|]. unfold blocks_per_page, v. simpl. rewrite Z.div_same, Z.div_1_r by lia. done.
  - intros x y Hx%in_region_view Hy%in_region_view. by apply (region_view_inj layout s (page_of s) nb bpb (zlen names) P Hs Hh Hnb HP).
Qed.

Lemma views_cut (f : Z → KVCacheView) :
  (∀ l, 0 ≤ l < zlen names → cuts_view nb (region_view layout s (page_of s) nb bpb (zlen names) P l) (f l)) →
  Forall2 (cuts_view nb) views0 (f <$> py_range 0 (zlen names)).
Proof using.
  intros Hf. apply Forall2_fmap_2, Forall_Forall2_diag, Forall_forall. intros l Hl. apply Hf.
  apply elem_of_py_range in Hl. lia.
Qed.

#[local] Abbreviation bst := (region_block_stride layout s (page_of s) bpb).
#[local] Abbreviation ls := (region_layer_stride layout s (page_of s) nb).
#[local] Abbreviation offset := (region_offset layout s (page_of s) nb P).

(** What cutting blocks takes, and the views it gives. *)
Record cut_ok (kb : Z) : Prop := {
  co_size : 0 < kb ∧ spec_block_size s mod kb = 0 ∧ 1 < spec_block_size s / kb;
  co_page : page_size_padded s = None ∧ bst = page_of s ∧ page_of s mod (spec_block_size s / kb) = 0;
  co_fits : as_strided_fits (bpb * nb) (zlen names :: split_shape s nb kb)
    (ls :: bst / (spec_block_size s / kb) :: split_inner layout s (page_of s) nb (zlen names) kb (bst / (spec_block_size s / kb))) offset = true;
}.

Lemma unpadded_page : page_size_padded s = None → page_of s = num_heads s * num_states s * state_content_size_bytes s.
Proof using Hs. intros Hpad. destruct (spec_page s _ Hs) as [_ Ep]. by rewrite Hpad in Ep. Qed.
Lemma cut_stride_pos kb : 1 < spec_block_size s / kb → bst = page_of s → page_of s mod (spec_block_size s / kb) = 0 →
  0 < bst / (spec_block_size s / kb).
Proof using Hs.
  intros Hr -> Hmod. destruct (well_formed_page s Hs) as [_ Hp].
  pose proof (Z.div_mod (page_of s) (spec_block_size s / kb) ltac:(lia)). nia.
Qed.

Lemma create_split_inv kb vs : 0 < kb → kb ≠ spec_block_size s →
  create_kv_cache_views s nb layout tensor (Some kb) = inr vs →
  cut_ok kb ∧ vs = split_view layout s (page_of s) nb bpb (zlen names) P kb <$> py_range 0 (zlen names).
Proof using Hs Hh Hnb HP HL Hfit.
  intros Hkb Hne E. unfold create_kv_cache_views in E. apply result_bind_inr in E as (shape & Esh & E).
  assert (spec_block_size s mod kb = 0) as Hdiv.
  { unfold compute_layer_kv_cache_shape_bytes in Esh. simpl in Esh. inr_hyps. by bool_hyps. }
  rewrite (split_shape_ok s kb Hdiv) in Esh. injection Esh as <-.
  pose proof (ratio_pos s (page_of s) kb Hs Hkb Hdiv) as Hr.
  assert (1 < spec_block_size s / kb) as Hr1.
  { pose proof (Z.div_mod (spec_block_size s) kb ltac:(lia)). destruct (decide (spec_block_size s / kb = 1)); [nia|lia]. }
  apply result_bind_inr in E as (? & _ & E). cbn [head default] in E. unfold id in E.
  assert (nb * (spec_block_size s / kb) / nb = spec_block_size s / kb) as Er by (rewrite Z.mul_comm; apply Z.div_mul; lia).
  rewrite Er in E. apply result_bind_inr in E as (bs & Ebs & E). rewrite (proj2 (Z.ltb_lt 1 _) Hr1) in Ebs.
  rewrite (shape_none s 1) in Ebs by (apply Hs). apply result_bind_inr in Ebs as (dense & [= <-] & Ebs). simpl in Ebs.
  case_match eqn:Ed; [done|]. apply result_bind_inr in Ebs as (? & Hmod & [= <-]). apply result_assert_inr, Z.eqb_eq in Hmod.
  apply negb_false_iff, Z.eqb_eq in Ed. apply result_bind_inr in E as (st & Est & E).
  assert (page_size_padded s = None) as Hpad.
  { destruct (page_size_padded s) as [pd|] eqn:Epd; [|done]. exfalso. unfold compute_layout_strides in Est. rewrite Epd in Est.
    inr_hyps. bool_hyps. done. }
  assert (bst = page_of s) as Hbst by (etrans; [exact Ed|]; rewrite unpadded_page by done; ring). rewrite Hbst in Hmod.
  pose proof (cut_stride_pos kb Hr1 Hbst Hmod) as Hq. assert (0 < bpb) as Hb by (destruct (well_formed_page s Hs); nia).
  cbn [region_tensor tensor_layers layer_stride tensor_size tensor_offset] in Est, E.
  rewrite (split_strides layout s (page_of s) nb bpb (zlen names) kb Hs Hh Hnb Hdiv _ Hpad Hq Hb) in Est.
  injection Est as <-. apply result_bind_inr in E as (? & Efit & [= <-]).
  split; [|done]. split; [done|done|]. unfold split_shape. by destruct (as_strided_fits _ _ _ _).
Qed.

(** The views made for any kernel block size cut those with the manager's blocks. *)
Lemma create_cut o vs : kernel_ok s o →
  create_kv_cache_views s nb layout tensor o = inr vs → Forall2 (cuts_view nb) views0 vs.
Proof using Hs Hh Hnb HP HL Hfit.
  intros Ho E. pose proof (create_region_views layout s nb bpb P names Hs Hh Hnb HP HL Hfit) as E0.
  assert (create_kv_cache_views s nb layout tensor None = inr vs → Forall2 (cuts_view nb) views0 vs) as Huncut.
  { intros E'. rewrite E0 in E'. injection E' as <-. apply views_cut, cuts_refl; done. }
  destruct o as [kb|]; [|by apply Huncut]. destruct (Ho kb eq_refl) as [Hkb Hst].
  destruct (decide (kb = spec_block_size s)) as [->|Hne]; [by rewrite create_uncut in E; apply Huncut|].
  destruct Hst as [|Hst]; [done|].
  destruct (create_split_inv kb vs Hkb Hne E) as [[(_ & Hdiv & Hr) (Hpad & Hbst & Hmod) Hf] ->].
  apply views_cut. intros l Hl. apply split_cuts; try done. by apply (fits_dense layout s (page_of s) nb bpb (zlen names) P kb).
Qed.

(** Blocks that are dense pages can be cut when the layers are outermost. *)
Lemma create_fits o : kernel_ok s o → kernel_fits layout s o →
  ∃ vs, create_kv_cache_views s nb layout tensor o = inr vs.
Proof using Hs Hh Hnb HP HL Hfit.
  intros Ho Hf. pose proof (create_region_views layout s nb bpb P names Hs Hh Hnb HP HL Hfit) as E0.
  destruct o as [kb|]; [|by eexists]. destruct (Ho kb eq_refl) as [Hkb Hst].
  destruct (Hf kb eq_refl) as [->|(Hdiv & Hmod & Hpad & Hl)]; [rewrite create_uncut; by eexists|].
  destruct (decide (kb = spec_block_size s)) as [->|Hne]; [rewrite create_uncut; by eexists|]. destruct Hst as [|Hst]; [done|].
  pose proof (ratio_pos s (page_of s) kb Hs Hkb Hdiv) as Hr. assert (1 < spec_block_size s / kb) as Hr1.
  { pose proof (Z.div_mod (spec_block_size s) kb ltac:(lia)). destruct (decide (spec_block_size s / kb = 1)); [nia|lia]. }
  assert (is_block_outermost layout = false) as Hout by (by destruct Hl as [-> | ->]).
  assert (bst = page_of s) as Hbst by (unfold region_block_stride, own_block_stride; rewrite Hout; by destruct Hl as [-> | ->]).
  assert (0 < bpb) as Hb by (destruct (well_formed_page s Hs); nia). pose proof (cut_stride_pos kb Hr1 Hbst Hmod) as Hq.
  eexists. unfold create_kv_cache_views. apply result_bind_inr. eexists. split; [by apply split_shape_ok|].
  apply result_bind_inr. exists tt. split; [apply result_divisor_inr; lia|]. cbn [head default]. unfold id.
  assert (nb * (spec_block_size s / kb) / nb = spec_block_size s / kb) as Er by (rewrite Z.mul_comm; apply Z.div_mul; lia).
  rewrite Er, (proj2 (Z.ltb_lt 1 _) Hr1), (shape_none s 1) by (apply Hs).
  apply result_bind_inr. exists (bst / (spec_block_size s / kb)). split.
  { apply result_bind_inr. eexists. split; [done|]. simpl. rewrite (proj2 (Z.eqb_eq bst _)) by (etrans; [exact Hbst|]; rewrite unpadded_page by done; ring).
    simpl. by rewrite Hbst, Hmod. }
  apply result_bind_inr. eexists. split; [by apply (split_strides layout s (page_of s) nb bpb (zlen names) kb)|].
  apply result_bind_inr. exists tt. split; [|done].
  assert (dense layout s (page_of s) bpb (zlen names) P kb) as Hd.
  { split; [by apply unpadded_page|done|done|by destruct Hl as [-> | ->]; intros _ [?|?]|congruence]. }
  pose proof (split_fits layout s (page_of s) nb bpb (zlen names) P kb Hs Hh Hnb HP HL Hfit Hkb Hdiv Hd Hst) as Hfits.
  unfold split_shape in Hfits. cbn [region_tensor tensor_layers layer_stride tensor_size tensor_offset]. by rewrite Hfits.
Qed.
End tensor.

Lemma Forall2_impl_elem {A B} (P Q : A → B → Prop) l k :
  Forall2 P l k → (∀ x y, x ∈ l → P x y → Q x y) → Forall2 Q l k.
Proof.
  induction 1 as [|x y l k Hxy _ IH]; intros HQ; constructor; [apply HQ; [apply list_elem_of_here|done]|].
  apply IH. intros x' y' Hx'. apply HQ. by apply list_elem_of_further.
Qed.
Lemma Forall2_choose {A B} (P : A → B → Prop) l : Forall (λ x, ∃ y, P x y) l → ∃ k, Forall2 P l k.
Proof. induction 1 as [|x l [y Hy] _ [k Hk]]; [exists []; constructor|]. exists (y :: k). by constructor. Qed.

(** ** One worker *)

(** Every layer of every group has a kernel block size with the property. *)
Definition kernel_sizes (Q : KVCacheSpec → option Z → Prop) (groups : list KVCacheGroupSpec) (kbs : option (list Z)) : Prop :=
  ∀ i g n s, groups !! i = Some g → n ∈ layer_names g → spec_of g n s → Q s (kbs ≫= (.!! i)).

Section worker.
Context (groups : list KVCacheGroupSpec) (layout : KVCacheLayout) (kbs : option (list Z)).
Context (Hok : Forall group_ok groups) (Hnd : NoDup (concat (layer_names <$> groups))).
Context (Hkbs : kernel_sizes kernel_ok groups kbs).

(** The allocation of a region makes the views of its spec. *)
Lemma allocate_tensor_region k nb bpb i g s names P :
  kv_cache_groups k = groups → num_blocks k = nb → groups !! i = Some g → (s, names, P) ∈ starts 0 (layers_by_spec g) →
  allocate_tensor k layout kbs (region_tensor layout nb (bpb * nb) bpb (s, names, P))
  = (views ← create_kv_cache_views s nb layout (region_tensor layout nb (bpb * nb) bpb (s, names, P)) (kbs ≫= (.!! i));
     mret (zip names views) : exn + list (string * KVCacheView))
  ∧ well_formed s ∧ 0 ≤ P ∧ 0 < zlen names ∧ P + zlen names * page_of s ≤ region_bytes (layers_by_spec g)
  ∧ (s, names) ∈ layers_by_spec g ∧ ∃ n, n ∈ layer_names g ∧ spec_of g n s.
Proof using Hok Hnd.
  intros Hk <- Hi Hr. assert (group_ok g) as Hg by (by eapply Forall_lookup in Hi).
  destruct (layers_by_spec_ok g Hg) as (Hreg & Hp & Hsp). destruct (starts_bound _ _ _ _ _ Hreg Hr) as (HP & HPe & Hin).
  rewrite Forall_forall in Hreg. destruct (Hreg _ Hin) as [Hwf Hne]. simpl in Hwf, Hne.
  destruct names as [|n0 names]; [done|]. assert (n0 ∈ n0 :: names) as Hn0 by apply list_elem_of_here.
  assert (n0 ∈ layer_names g) as Hng.
  { rewrite <-Hp. apply list_elem_of_In, in_concat. exists (n0 :: names). split; [|by apply list_elem_of_In].
    apply list_elem_of_In. by apply (list_elem_of_fmap_2' snd _ (s, n0 :: names)). }
  pose proof (Hsp s (n0 :: names) n0 Hin Hn0) as Hspec. pose proof (zlen_nonneg names). rewrite zlen_cons.
  split_and!; try done; [|lia|rewrite zlen_cons in HPe; lia|by exists n0].
  unfold allocate_tensor. simpl. unfold mbind at 1, result_bind at 1. simpl.
  rewrite Hk, (group_find groups Hnd i g n0 Hi Hng). simpl. unfold spec_of in Hspec. by rewrite Hspec.
Qed.

Lemma zip_cut nb (ns : list string) l l' : Forall2 (cuts_view nb) l l' →
  Forall2 (λ e0 e, e0.1 = e.1 ∧ cuts_view nb e0.2 e.2) (zip ns l) (zip ns l').
Proof using.
  intros H. revert ns. induction H as [|v0 v l l' Hv _ IH]; intros ns; destruct ns as [|n ns]; simpl; constructor; auto.
Qed.

Lemma allocate_region_cut k nb bpb i g s names P vs :
  kv_cache_groups k = groups → num_blocks k = nb → 0 < nb → groups !! i = Some g →
  (s, names, P) ∈ starts 0 (layers_by_spec g) → heads_fit layout s → region_bytes (layers_by_spec g) ≤ bpb →
  allocate_tensor k layout kbs (region_tensor layout nb (bpb * nb) bpb (s, names, P)) = inr vs →
  Forall2 (λ e0 e, e0.1 = e.1 ∧ cuts_view nb e0.2 e.2) (region_views layout nb bpb (s, names, P)) vs.
Proof using Hok Hnd Hkbs.
  intros Hk Hn Hnb Hi Hr Hh Hrb E.
  destruct (allocate_tensor_region k nb bpb i g s names P Hk Hn Hi Hr) as (Ea & Hwf & HP & HL & HPe & _ & n & Hng & Hsp).
  rewrite Ea in E. apply result_bind_inr in E as (views & Ev & [= <-]). apply zip_cut.
  apply (create_cut layout s nb bpb P names Hwf Hh Hnb HP HL ltac:(lia) (kbs ≫= (.!! i))); [by eapply Hkbs|done].
Qed.

(** The regions of all groups. *)
Definition all_regions : list (KVCacheGroupSpec * (KVCacheSpec * list string * Z)) :=
  concat ((λ g, (g,.) <$> starts 0 (layers_by_spec g)) <$> groups).
Lemma concat_regions {A} (f : KVCacheSpec * list string * Z → A) :
  concat ((λ g, f <$> starts 0 (layers_by_spec g)) <$> groups) = (λ e, f e.2) <$> all_regions.
Proof using.
  unfold all_regions. clear. induction groups as [|g gs IH]; [done|]. rewrite !fmap_cons. cbn [concat].
  by rewrite fmap_app, IH, <-list_fmap_compose.
Qed.
Lemma elem_of_regions g r : (g, r) ∈ all_regions → r ∈ starts 0 (layers_by_spec g) ∧ ∃ i, groups !! i = Some g.
Proof using.
  intros Hin. apply list_elem_of_In, in_concat in Hin as (l & Hl%list_elem_of_In & Hin%list_elem_of_In).
  apply list_elem_of_fmap in Hl as (g' & -> & Hg). apply list_elem_of_fmap in Hin as (r' & [= -> ->] & Hr).
  split; [done|by apply list_elem_of_lookup].
Qed.
Lemma Forall2_concat_lists {A B} (R : A → B → Prop) ls ls' : Forall2 (Forall2 R) ls ls' → Forall2 R (concat ls) (concat ls').
Proof using. induction 1; simpl; [constructor|]. by apply Forall2_app. Qed.

Lemma allocate_mapM k c mem bpb : groups ≠ [] → planned groups layout c mem k bpb →
  ∀ views, allocate_kv_cache k layout kbs = inr views ↔
    ∃ l, Forall2 (λ t v, allocate_tensor k layout kbs t = inr v) ((λ e, region_tensor layout (num_blocks k) (bpb * num_blocks k) bpb e.2) <$> all_regions) l
      ∧ views = concat l.
Proof using.
  intros Hne [_ _ _ _ Ht _] views.
  pose proof (concat_regions (region_tensor layout (num_blocks k) (bpb * num_blocks k) bpb)) as <-.
  rewrite <-(Ht : _ = concat ((λ g, _ <$> starts 0 (layers_by_spec g)) <$> groups)). unfold allocate_kv_cache.
  assert (∀ t, t ∈ kv_cache_tensors k → tensor_size t = bpb * num_blocks k) as Hsize.
  { intros t Hin. rewrite Ht in Hin. apply list_elem_of_In, in_concat in Hin as (l & Hl%list_elem_of_In & Hin%list_elem_of_In).
    apply list_elem_of_fmap in Hl as (g & -> & _). apply list_elem_of_fmap in Hin as ([[s names] P] & -> & _). done. }
  destruct (kv_cache_tensors k) as [|t ts] eqn:Ek.
  - split; [intros [= <-]; by exists []|]. intros (l & Hl%Forall2_nil_inv_l & ->). by subst.
  - rewrite (proj2 (forallb_forall _ ts)).
    + simpl result_assert. unfold mbind at 1, result_bind at 1. rewrite result_bind_inr. setoid_rewrite mapM_inr.
      split; [intros (l & Hl & [= <-]); eauto|]. intros (l & Hl & ->). by exists l.
    + intros t' Hin. apply Z.eqb_eq. rewrite !Hsize; [done|by apply list_elem_of_here|apply list_elem_of_further; by apply list_elem_of_In].
Qed.

Context (c : VllmConfig) (mem : Z) (k : KVCacheConfig) (bpb : Z).
Context (Hne : groups ≠ []) (Hplan : planned groups layout c mem k bpb) (Hnb : 0 < num_blocks k).

(** The views of all layers cut those with the manager's blocks. *)
Lemma allocate_cut views : allocate_kv_cache k layout kbs = inr views →
  Forall2 (λ e0 e, e0.1 = e.1 ∧ cuts_view (num_blocks k) e0.2 e.2) (concat (group_views layout (num_blocks k) bpb <$> groups)) views.
Proof using All.
  intros E. apply (allocate_mapM k c mem bpb Hne Hplan) in E as (l & Hl & ->). destruct Hplan as [_ _ Hg _ _ Hf].
  unfold group_views. rewrite <-(concat_concat (λ g, region_views layout (num_blocks k) bpb <$> starts 0 (layers_by_spec g))), concat_regions.
  apply Forall2_concat_lists. apply Forall2_fmap_l in Hl. apply Forall2_fmap_l. apply (Forall2_impl_elem _ _ _ _ Hl).
  intros [g [[s names] P]] vs [Hr [i Hi]]%elem_of_regions Ea. simpl in *.
  assert (group_ok g) as Hgo by (by eapply Forall_lookup in Hi). rewrite Forall_lookup in Hf. destruct (Hf i g Hi) as [Hb Hh].
  destruct (layers_by_spec_ok g Hgo) as (Hreg & _). destruct (starts_bound _ _ _ _ _ Hreg Hr) as (_ & _ & Hin).
  rewrite Forall_forall in Hh. eapply (allocate_region_cut k (num_blocks k)); try done. by apply (Hh _ Hin).
Qed.

(** The allocation succeeds where blocks are not cut or are dense pages. *)
Lemma allocate_fits : kernel_sizes (kernel_fits layout) groups kbs → ∃ views, allocate_kv_cache k layout kbs = inr views.
Proof using All.
  intros Hfits. setoid_rewrite (allocate_mapM k c mem bpb Hne Hplan). destruct Hplan as [_ _ Hg _ _ Hf].
  edestruct (Forall2_choose (λ t v, allocate_tensor k layout kbs t = inr v)) as [l Hl]; [|by exists (concat l), l].
  apply Forall_fmap, Forall_forall. intros [g [[s names] P]] [Hr [i Hi]]%elem_of_regions.
  cut (∃ vs, allocate_tensor k layout kbs (region_tensor layout (num_blocks k) (bpb * num_blocks k) bpb (s, names, P)) = inr vs); [done|].
  destruct (allocate_tensor_region k (num_blocks k) bpb i g s names P Hg eq_refl Hi Hr)
    as (-> & Hwf & HP & HL & HPe & Hin & n & Hng & Hsp).
  rewrite Forall_lookup in Hf. destruct (Hf i g Hi) as [Hb Hh]. rewrite Forall_forall in Hh.
  destruct (create_fits layout s (num_blocks k) bpb P names Hwf (Hh _ Hin) Hnb HP HL ltac:(lia) (kbs ≫= (.!! i))) as [vs Ev];
    [by eapply Hkbs|by eapply Hfits|]. rewrite Ev. by eexists.
Qed.
End worker.

(** ** The bytes of the layers *)

Section cells.
Context (groups : list KVCacheGroupSpec) (layout : KVCacheLayout) (nb bpb : Z).
Context (Hok : Forall group_ok groups) (Hnb : 0 < nb).
Context (Hfit : Forall (λ g, region_bytes (layers_by_spec g) ≤ bpb ∧ Forall (λ r, heads_fit layout r.1) (layers_by_spec g)) groups).

Lemma placed_fit i g n v j s names P l : groups !! i = Some g → placed layout nb bpb g n v j s names P l →
  well_formed s ∧ heads_fit layout s ∧ 0 ≤ P ∧ P + zlen names * page_of s ≤ bpb ∧ 0 < page_of s.
Proof using Hok Hfit.
  intros Hi Hp. assert (group_ok g) as Hg by (by eapply Forall_lookup in Hi).
  destruct (placed_facts layout nb bpb g n v j s names P l Hg Hp) as (H1 & H2 & H3 & H4 & _).
  rewrite Forall_lookup in Hfit. destruct (Hfit i g Hi) as [Hb Hh]. rewrite Forall_forall in Hh. specialize (Hh _ H2).
  destruct (well_formed_page s H1). split_and!; (done || lia).
Qed.

Lemma cell_bound i g n v j s names P l x : groups !! i = Some g → placed layout nb bpb g n v j s names P l → in_view v x →
  0 ≤ cell_address v x < bpb * nb.
Proof using Hok Hfit Hnb.
  intros Hi Hp Hx. destruct (placed_fit i g n v j s names P l Hi Hp) as (Hwf & Hh & HP & Hle & Hpos).
  destruct Hp as [_ [_ Hl] ->]. apply in_region_view in Hx. by apply region_address_bound.
Qed.

Lemma region_ordered i g j j' s names P s' names' P' : groups !! i = Some g →
  starts 0 (layers_by_spec g) !! j = Some (s, names, P) → starts 0 (layers_by_spec g) !! j' = Some (s', names', P') →
  (s, names, P) = (s', names', P') ∧ j = j' ∨ P + zlen names * page_of s ≤ P' ∨ P' + zlen names' * page_of s' ≤ P.
Proof using Hok.
  intros Hi Hj Hj'. assert (group_ok g) as Hg by (by eapply Forall_lookup in Hi). destruct (layers_by_spec_ok g Hg) as (Hr & _).
  destruct (lt_eq_lt_dec j j') as [[Hlt| ->]|Hlt]; [right; left|left|right; right].
  - by eapply starts_disjoint.
  - split; [congruence|done].
  - by eapply (starts_disjoint 0 _ j' j).
Qed.

(** Within a group an address has one meaning. *)
Lemma group_cells_disjoint i g n v j s names P l n' v' j' s' names' P' l' x y :
  groups !! i = Some g → placed layout nb bpb g n v j s names P l → placed layout nb bpb g n' v' j' s' names' P' l' →
  in_view v x → in_view v' y → cell_address v x = cell_address v' y → n = n' ∧ x = y.
Proof using Hok Hfit Hnb.
  intros Hi Hp Hp' Hx Hy E. destruct (placed_fit i g n v j s names P l Hi Hp) as (Hwf & Hh & HP & Hle & Hpos).
  destruct (placed_fit i g n' v' j' s' names' P' l' Hi Hp') as (Hwf' & Hh' & HP' & Hle' & Hpos').
  destruct Hp as [Hj [Hn Hl] ->], Hp' as [Hj' [Hn' Hl'] ->]. apply in_region_view in Hx, Hy.
  pose proof (region_ordered i g j j' _ _ _ _ _ _ Hi Hj Hj') as Hord. destruct (is_block_outermost layout) eqn:Ho.
  - rewrite !block_outermost_address in E by done.
    pose proof (block_byte_bound layout s (page_of s) nb _ Hwf Hh l x Ho Hl Hx).
    pose proof (block_byte_bound layout s' (page_of s') nb _ Hwf' Hh' l' y Ho Hl' Hy).
    apply digits_inj in E as [Eb E]; [|lia..]. destruct Hord as [[[= <- <- <-] _]|Hord]; [|lia].
    destruct (block_byte_inj layout s (page_of s) nb (zlen names) Hwf Hh l l' x y Ho Hl Hl' Hx Hy) as (-> & E1 & E2 & E3); [lia|].
    split; [congruence|]. destruct x, y; simpl in *; by subst.
  - rewrite !layer_compact_address in E by done.
    pose proof (layer_byte_bound layout s (page_of s) nb Hwf Hh x Hx) as Hb.
    pose proof (layer_byte_bound layout s' (page_of s') nb Hwf' Hh' y Hy) as Hb'.
    change ((P + l * page_of s) * nb + layer_byte layout s (page_of s) nb x = (P' + l' * page_of s') * nb + layer_byte layout s' (page_of s') nb y) in E.
    destruct Hord as [[[= <- <- <-] _]|Hord].
    + assert (l = l') as <- by nia. split; [congruence|]. apply (layer_byte_inj layout s (page_of s) nb Hwf Hh); [done|done|lia].
    + exfalso. assert (P + l * page_of s + page_of s ≤ P' + l' * page_of s' ∨ P' + l' * page_of s' + page_of s' ≤ P + l * page_of s) as [?|?]
        by (destruct Hord; [left|right]; nia); nia.
Qed.

(** Across groups an address has one block. *)
Lemma starts_multiple p P regions s names P' : Forall (λ r, page_of r.1 = p) regions → (∃ m, P = m * p) →
  (s, names, P') ∈ starts P regions → ∃ m, P' = m * p.
Proof.
  intros Hf. revert P. induction Hf as [|[s0 n0] l Hr _ IH]; intros P [m ->] Hin; simpl in *; [by apply elem_of_nil in Hin|].
  apply elem_of_cons in Hin as [[= -> -> ->]|Hin]; [by exists m|]. apply (IH _) in Hin; [done|].
  exists (m + zlen n0). rewrite Hr. lia.
Qed.
Lemma groups_cells_block i i' g g' n v j s names P l n' v' j' s' names' P' l' x y :
  (is_block_outermost layout = false → i ≠ i' → ∃ p, ∀ g s names, g ∈ groups → (s, names) ∈ layers_by_spec g → page_of s = p) →
  (layout = LHBNC → ∀ g g' s s' names names', g ∈ groups → g' ∈ groups → (s, names) ∈ layers_by_spec g →
    (s', names') ∈ layers_by_spec g' → num_heads s = num_heads s') →
  groups !! i = Some g → groups !! i' = Some g' → i ≠ i' →
  placed layout nb bpb g n v j s names P l → placed layout nb bpb g' n' v' j' s' names' P' l' →
  in_view v x → in_view v' y → cell_address v x = cell_address v' y → cell_block x = cell_block y.
Proof using Hok Hfit Hnb.
  intros Hpages Hheads Hi Hi' Hne Hp Hp' Hx Hy E. destruct (placed_fit i g n v j s names P l Hi Hp) as (Hwf & Hh & HP & Hle & Hpos).
  destruct (placed_fit i' g' n' v' j' s' names' P' l' Hi' Hp') as (Hwf' & Hh' & HP' & Hle' & Hpos').
  assert (group_ok g) as Hg by (by eapply Forall_lookup in Hi). assert (group_ok g') as Hg' by (by eapply Forall_lookup in Hi').
  destruct (placed_facts layout nb bpb g n v j s names P l Hg Hp) as (_ & Hs & _).
  destruct (placed_facts layout nb bpb g' n' v' j' s' names' P' l' Hg' Hp') as (_ & Hs' & _).
  apply list_elem_of_lookup_2 in Hi, Hi'.
  destruct Hp as [Hj [Hn Hl] ->], Hp' as [Hj' [Hn' Hl'] ->]. apply in_region_view in Hx, Hy.
  destruct (is_block_outermost layout) eqn:Ho.
  - rewrite !block_outermost_address in E by done.
    pose proof (block_byte_bound layout s (page_of s) nb _ Hwf Hh l x Ho Hl Hx).
    pose proof (block_byte_bound layout s' (page_of s') nb _ Hwf' Hh' l' y Ho Hl' Hy).
    apply digits_inj in E as [Eb E]; [done|lia..].
  - rewrite !layer_compact_address in E by done. destruct (Hpages eq_refl Hne) as [p Hpg].
    assert (page_of s = p) as Es by (by apply (Hpg g s names)). assert (page_of s' = p) as Es' by (by apply (Hpg g' s' names')).
    apply list_elem_of_lookup_2 in Hj, Hj'. apply (starts_multiple p) in Hj as [m ->]; [|apply Forall_forall; intros [s0 n0] H0; by apply (Hpg g s0 n0)|by exists 0].
    apply (starts_multiple p) in Hj' as [m' ->]; [|apply Forall_forall; intros [s0 n0] H0; by apply (Hpg g' s0 n0)|by exists 0].
    unfold well_formed in *. rewrite Es in *. rewrite Es' in *.
    eapply (layer_compact_block layout s s' p nb (m + l) (m' + l')); try done; [intros ->; by apply (Hheads eq_refl g g' s s' names names')|].
    unfold layer_byte. lia.
Qed.
End cells.

(** ** What a plan checks *)

Lemma all_same_eq {A} `{EqDecision A} (l : list A) : all_same l = true → ∃ a, ∀ x, x ∈ l → x = a.
Proof.
  destruct l as [|a l]; [done|]. simpl. intros H. exists a. intros x [->|Hx]%elem_of_cons; [done|].
  rewrite forallb_forall in H. apply list_elem_of_In in Hx. apply H in Hx. by apply bool_decide_eq_true in Hx.
Qed.

(** The layers a region can be of. *)
Lemma region_layer g s names : group_ok g → (s, names) ∈ layers_by_spec g → ∃ n, n ∈ layer_names g ∧ spec_of g n s.
Proof.
  intros Hg Hin. destruct (layers_by_spec_ok g Hg) as (Hr & Hp & Hsp). rewrite Forall_forall in Hr.
  destruct (Hr _ Hin) as [_ Hne]. simpl in Hne. destruct names as [|n names]; [done|]. exists n.
  assert (n ∈ n :: names) as Hn by apply list_elem_of_here. split; [|by eapply Hsp].
  rewrite <-Hp. apply list_elem_of_In, in_concat. exists (n :: names). split; [|by apply list_elem_of_In].
  apply list_elem_of_In. by apply (list_elem_of_fmap_2' snd _ (s, n :: names)).
Qed.
Lemma valid_same_pages layout groups i i' : Forall group_ok groups → validate_kv_cache_layout layout groups = inr tt →
  is_block_outermost layout = false → i ≠ i' → (i < length groups)%nat → (i' < length groups)%nat →
  ∃ p, ∀ g s names, g ∈ groups → (s, names) ∈ layers_by_spec g → page_of s = p.
Proof.
  intros Hok Hv Ho Hne Hi Hi'. unfold validate_kv_cache_layout in Hv. inr_hyps.
  match goal with H : mapM _ groups = inr ?l |- _ => apply mapM_inr in H; rename H into Hm; rename l into sizes end.
  match goal with H : (if _ then _ else _) = inr tt |- _ => rename H into Hif end.
  destruct (all_same (concat sizes)) eqn:Ha.
  - destruct (all_same_eq _ Ha) as [p Hp]. exists p. intros g s names Hg Hs. apply Hp.
    assert (group_ok g) as Hgo by (rewrite Forall_forall in Hok; by apply Hok).
    destruct (region_layer g s names Hgo Hs) as (n & Hn & Hsp). apply list_elem_of_lookup in Hg as [j Hj].
    destruct (Forall2_lookup_l _ _ _ _ _ Hm Hj) as (l & Hl & Hml). apply mapM_inr in Hml.
    apply list_elem_of_lookup in Hn as [m Hm']. destruct (Forall2_lookup_l _ _ _ _ _ Hml Hm') as (q & Hq & Eq).
    unfold spec_of in Hsp. rewrite Hsp in Eq. simpl in Eq. unfold page_of. rewrite Eq.
    apply list_elem_of_In, in_concat. exists l. split; apply list_elem_of_In; by eapply list_elem_of_lookup_2.
  - exfalso. assert ((1 <? zlen groups) = true) as Hlt by (apply Z.ltb_lt; unfold zlen; lia). rewrite Hlt in Hif.
    destruct layout; vm_compute in Ho, Hif; discriminate.
Qed.
Lemma mixed_same_heads groups : Forall group_ok groups →
  mixed_shapes (concat ((λ g, iter_layer_specs (group_spec g)) <$> groups)) = inr false →
  ∀ g g' s s' names names', g ∈ groups → g' ∈ groups → (s, names) ∈ layers_by_spec g →
    (s', names') ∈ layers_by_spec g' → num_heads s = num_heads s'.
Proof.
  intros Hok E. set (specs := concat _) in E. unfold mixed_shapes in E. inr_hyps.
  match goal with H : mapM _ specs = inr ?l |- _ => apply mapM_inr in H; rename H into Hm; rename l into shapes end.
  assert (∀ g s names, g ∈ groups → (s, names) ∈ layers_by_spec g → ∃ x, x ∈ shapes ∧ x.1.1 = num_heads s) as Hin.
  { intros g s names Hg Hs. assert (group_ok g) as Hgo by (rewrite Forall_forall in Hok; by apply Hok).
    destruct (region_layer g s names Hgo Hs) as (n & Hn & Hsp). assert (s ∈ specs) as Hs'.
    { apply list_elem_of_In, in_concat. exists (iter_layer_specs (group_spec g)).
      split; apply list_elem_of_In; [by apply list_elem_of_fmap_2'  with g|]. unfold spec_of, _get_per_layer_spec in Hsp.
      destruct (group_spec g) as [s0|b ss]; simpl; inr_hyps; [subst; apply list_elem_of_here|].
      apply od_get_elem in Hsp. by apply (list_elem_of_fmap_2' snd _ (n, s)). }
    apply list_elem_of_lookup in Hs' as [j Hj]. destruct (Forall2_lookup_l _ _ _ _ _ Hm Hj) as (x & Hx & Ex). inr_hyps. subst x.
    eexists. split; [by eapply list_elem_of_lookup_2|done]. }
  match goal with H : _ && _ = false |- _ => rename H into Hb end.
  intros g g' s s' names names' Hg Hg' Hs Hs'. destruct (Hin _ _ _ Hg Hs) as (x & Hx & <-). destruct (Hin _ _ _ Hg' Hs') as (y & Hy & <-).
  apply andb_false_iff in Hb as [Hb|Hb].
  - apply negb_false_iff in Hb. destruct (all_same_eq _ Hb) as [a Ha]. by rewrite (Ha x Hx), (Ha y Hy).
  - apply negb_false_iff, bool_decide_eq_true in Hb. rewrite Hb in Hx. by apply elem_of_nil in Hx.
Qed.

(** ** Views *)

Lemma region_views_names layout nb bpb P regions :
  (concat (region_views layout nb bpb <$> starts P regions)).*1 = concat regions.*2.
Proof.
  revert P. induction regions as [|[s names] l IH]; intros P; [done|]. cbn [starts]. rewrite fmap_cons. cbn [concat].
  rewrite fmap_app, IH, fmap_cons. cbn [concat snd]. f_equal. unfold region_views. apply fst_zip. rewrite length_fmap, length_py_range. unfold zlen. lia.
Qed.
Lemma all_views_names layout nb bpb groups : Forall group_ok groups →
  (concat (group_views layout nb bpb <$> groups)).*1 ≡ₚ concat (layer_names <$> groups).
Proof.
  induction 1 as [|g l Hg _ IH]; [done|]. rewrite !fmap_cons. cbn [concat]. rewrite fmap_app, IH.
  unfold group_views. rewrite region_views_names. by destruct (layers_by_spec_ok g Hg) as (_ & -> & _).
Qed.
(** The view of a layer of group [i] is placed in that group. *)
Lemma view_group layout nb bpb groups i g n v : Forall group_ok groups → NoDup (concat (layer_names <$> groups)) →
  groups !! i = Some g → n ∈ layer_names g → (n, v) ∈ concat (group_views layout nb bpb <$> groups) →
  ∃ j s names P l, placed layout nb bpb g n v j s names P l.
Proof.
  intros Hok Hnd Hi Hn Hin. apply list_elem_of_In, in_concat in Hin as (vs & Hvs%list_elem_of_In & Hin%list_elem_of_In).
  apply list_elem_of_fmap in Hvs as (g' & -> & Hg'). apply list_elem_of_lookup in Hg' as [i' Hi'].
  destruct (view_placed layout nb bpb g' n v Hin) as (j & s & names & P & l & Hp).
  assert (group_ok g') as Hgo by (by eapply Forall_lookup in Hi').
  destruct (placed_facts layout nb bpb g' n v j s names P l Hgo Hp) as (_ & _ & _ & _ & Hn' & _).
  pose proof (group_find groups Hnd i g n Hi Hn) as F. rewrite (group_find groups Hnd i' g' n Hi' Hn') in F.
  injection F as -> ->. by exists j, s, names, P, l.
Qed.
Lemma view_some_group layout nb bpb groups n v : Forall group_ok groups →
  (n, v) ∈ concat (group_views layout nb bpb <$> groups) →
  ∃ i g j s names P l, groups !! i = Some g ∧ placed layout nb bpb g n v j s names P l.
Proof.
  intros Hok Hin. apply list_elem_of_In, in_concat in Hin as (vs & Hvs%list_elem_of_In & Hin%list_elem_of_In).
  apply list_elem_of_fmap in Hvs as (g & -> & Hg). apply list_elem_of_lookup in Hg as [i Hi].
  destruct (view_placed layout nb bpb g n v Hin) as (j & s & names & P & l & Hp). by exists i, g, j, s, names, P, l.
Qed.

Lemma NoDup_fst_unique {K V} (l : list (K * V)) k v v' : NoDup l.*1 → (k, v) ∈ l → (k, v') ∈ l → v = v'.
Proof.
  intros Hnd [i Hi]%list_elem_of_lookup [j Hj]%list_elem_of_lookup.
  assert (i = j) as <- by (eapply (NoDup_lookup l.*1); [done|by rewrite list_lookup_fmap, Hi|by rewrite list_lookup_fmap, Hj]). congruence.
Qed.

(** The views with the manager's blocks: all bytes lie in the allocation, and a byte of two views
    is in the same block of both, and in one layer of a group. *)
Lemma uncut_views c groups mem layout k bpb :
  Forall group_ok groups → NoDup (concat (layer_names <$> groups)) →
  is_block_compact layout = true ∨ mixed_shapes (concat ((λ g, iter_layer_specs (group_spec g)) <$> groups)) = inr false →
  planned groups layout c mem k bpb → 0 < num_blocks k →
  let views := concat (group_views layout (num_blocks k) bpb <$> groups) in
  (∀ n v x, (n, v) ∈ views → in_view v x → 0 ≤ cell_address v x < bpb * num_blocks k)
  ∧ (∀ i j g g' n n' v v' x y, groups !! i = Some g → groups !! j = Some g' → n ∈ layer_names g → n' ∈ layer_names g' →
      (n, v) ∈ views → (n', v') ∈ views → in_view v x → in_view v' y → cell_address v x = cell_address v' y →
      cell_block x = cell_block y ∧ (i = j → n = n' ∧ x = y)).
Proof.
  intros Hok Hnd Hshape [[Hb Hpos] Hblocks Hg Hv Ht Hfit] Hnb views. split.
  - intros n v x Hin Hx. destruct (view_some_group _ _ _ _ _ _ Hok Hin) as (i & g & j & s & names & P & l & Hi & Hpl).
    by eapply (cell_bound groups layout).
  - intros i j g g' n n' v v' x y Hi Hj Hn Hn' Hin Hin' Hx Hy Ea.
    destruct (view_group _ _ _ _ _ _ _ _ Hok Hnd Hi Hn Hin) as (r & s & names & P & l & Hpl).
    destruct (view_group _ _ _ _ _ _ _ _ Hok Hnd Hj Hn' Hin') as (r' & s' & names' & P' & l' & Hpl').
    destruct (decide (i = j)) as [<-|Hij].
    + assert (g' = g) as -> by congruence.
      destruct (group_cells_disjoint groups layout (num_blocks k) bpb Hok Hnb Hfit i g n v r s names P l n' v' r' s' names' P' l' x y)
        as [-> ->]; done.
    + split; [|done]. eapply (groups_cells_block groups layout (num_blocks k) bpb Hok Hnb Hfit i j); try done.
      * intros Ho _. eapply (valid_same_pages layout groups i j); try done; by eapply lookup_lt_Some.
      * intros El. destruct Hshape as [Hc|Hm]; [rewrite El in Hc; vm_compute in Hc; discriminate|]. by apply mixed_same_heads.
Qed.

