(* ===== verification/CacheMemory.v ===== *)
(** The memory one request needs, and the search for the longest model length that fits. *)

From S2P Require Import Prelude MathUtils OrderedDict LayerSpec CacheConfig LayoutFacts PlacementFacts.

Set Warnings "-level-tolerance,-clear-no-such-hyp".

(** ** The search *)

Lemma set_max_model_len_twice m n c : set_max_model_len m (set_max_model_len n c) = set_max_model_len m c.
Proof. done. Qed.
Lemma set_max_model_len_id c : set_max_model_len (max_model_len c) c = c.
Proof. by destruct c. Qed.

Section search.
Context (usage : VllmConfig → exn + Z) (mem : Z) (c : VllmConfig) (f : Z → Z).
Context (Hf : ∀ n, 1 ≤ n → usage (set_max_model_len n c) = inr (f n)).
Context (Hmono : ∀ m n, 1 ≤ m → m ≤ n → f m ≤ f n).

Lemma fits_run n m : 1 ≤ n → fits_in usage mem n (set_max_model_len m c) = (inr (f n <=? mem), set_max_model_len n c).
Proof using Hf. intros Hn. unfold fits_in, modify, get, mbind, M_bind, lift_result. rewrite set_max_model_len_twice, Hf by done. done. Qed.

(** The interval shrinks; the result fits, and nothing beyond the interval does. *)
Lemma search_loop_spec fuel lo hi result m top :
  1 ≤ lo → hi ≤ top → hi - lo < Z.of_nat fuel → lo - 1 ≤ result → 1 ≤ result ≤ top → f result ≤ mem →
  (∀ n, hi < n ≤ top → mem < f n) →
  ∃ r m', search_loop fuel (fits_in usage mem) lo hi result (set_max_model_len m c) = (inr r, set_max_model_len m' c)
    ∧ 1 ≤ r ≤ top ∧ f r ≤ mem ∧ (∀ n, r < n ≤ top → mem < f n).
Proof using Hf Hmono.
  revert lo hi result m. induction fuel as [|fuel IH]; intros lo hi result m Hlo Hhi Hfuel Hres Hr Hfit Hout; simpl;
    destruct (Z.leb_spec lo hi) as [Hle|Hgt]; [lia| | |].
  1, 3: exists result, m; split; [done|]; split_and!; try lia; intros n Hn; apply Hout; lia.
  assert (lo ≤ (lo + hi) / 2 ≤ hi) as Hmid by (split; [apply Z.div_le_lower_bound|apply Z.div_le_upper_bound]; lia).
  unfold mbind, M_bind. rewrite fits_run by lia. destruct (Z.leb_spec (f ((lo + hi) / 2)) mem) as [Hy|Hn].
  - apply IH; (done || lia).
  - apply IH; try (done || lia). intros n Hn'. pose proof (Hmono ((lo + hi) / 2) n ltac:(lia) ltac:(lia)). lia.
Qed.

(** The longest length that fits, or zero; the configuration is left as it was. *)
Definition longest (top r : Z) : Prop :=
  0 ≤ r ≤ top ∧ (1 ≤ r → f r ≤ mem) ∧ (∀ n, r < n ≤ top → mem < f n).
Lemma search_max_len_spec : 1 ≤ max_model_len c → ∃ r, search_max_len usage mem c = (inr r, c) ∧ longest (max_model_len c) r.
Proof using Hf Hmono.
  intros Hc. unfold search_max_len, get, mbind, M_bind, restoring.
  replace (fits_in usage mem 1 c) with (fits_in usage mem 1 (set_max_model_len (max_model_len c) c)) by (by rewrite set_max_model_len_id).
  rewrite fits_run by lia. destruct (Z.leb_spec (f 1) mem) as [Hy|Hn]; cbn [negb]; cbv iota.
  - destruct (search_loop_spec (Z.to_nat (max_model_len c)) 1 (max_model_len c) 1 1 (max_model_len c))
      as (r & m & -> & Hr & Hfit & Hout); try lia. exists r. rewrite set_max_model_len_twice, set_max_model_len_id.
    split; [done|]. split_and!; (done || lia).
  - exists 0. unfold mret, M_ret. rewrite set_max_model_len_twice, set_max_model_len_id. split; [done|]. split_and!; try lia.
    intros n Hn'. pose proof (Hmono 1 n ltac:(lia) ltac:(lia)). lia.
Qed.
End search.

(** ** The need of a request *)

(** The pages of a request with the given length, where they are defined. *)
Definition pages (c : VllmConfig) (s : KVCacheSpec) : Z := match max_pages c s with inr n => n | inl _ => 0 end.
(** Sliding windows are not sharded, counts are positive. *)
Definition config_ok (c : VllmConfig) : Prop := 1 ≤ decode_context_parallel_size c ∧ 0 ≤ max_in_flight_tokens c ∧ 1 ≤ max_model_len c.
Definition supported (c : VllmConfig) (s : KVCacheSpec) : Prop :=
  well_formed s ∧ (is_sliding_window s = true → decode_context_parallel_size c = 1).

Lemma max_pages_ok c s : supported c s → max_pages c s = inr (pages c s).
Proof.
  intros [_ Hs]. unfold pages, max_pages, sliding_max_pages. destruct s as [a k|m]; [|done]. destruct k; simpl in *; try done.
  all: rewrite Hs by done; done.
Qed.
Lemma pages_used_ok c s : supported c s → pages_used c s = inr (pages c s).
Proof.
  intros Hs. pose proof (max_pages_ok c s Hs) as Hm. destruct (well_formed_page s (proj1 Hs)) as [Hp Hpos].
  assert (result_divisor (page_of s) = inr tt) as Hd by (apply result_divisor_inr; lia).
  unfold pages_used, spec_max_memory_usage_bytes. destruct s as [a k|m].
  - destruct k; rewrite ?Hm; simpl; rewrite ?Hp; simpl; rewrite ?Hp; simpl; rewrite Hd; simpl; try (by rewrite cdiv_mul). by rewrite cdiv_0.
  - rewrite Hm. simpl. rewrite Hp. simpl. rewrite Hd. simpl. by rewrite cdiv_mul.
Qed.
Lemma pages_mono c s m n : supported c s → 1 ≤ decode_context_parallel_size c → m ≤ n →
  pages (set_max_model_len m c) s ≤ pages (set_max_model_len n c) s.
Proof.
  intros Hs Hd Hmn. destruct (proj1 Hs) as [_ _ _ Hb]. unfold pages, max_pages, full_max_pages, chunked_max_pages, sliding_max_pages, cross_max_pages, mamba_max_pages.
  destruct s as [a k|x]; simpl in *; [|destruct (mamba_cache_mode c); simpl; pose proof (cdiv_mono (m_block_size x) Hb m n Hmn); lia].
  assert (∀ x y, x ≤ y → cdiv x (a_block_size a) ≤ cdiv y (a_block_size a)) as Hc by (intros; by apply cdiv_mono).
  destruct k; simpl; try lia; try (apply Hc; destruct (Z.ltb_spec 1 (decode_context_parallel_size c)); [apply cdiv_mono; lia|done]).
  - apply Hc. lia.
  - destruct Hs as [_ Hs]. simpl in Hs. rewrite Hs by done. simpl. unfold sliding_admission_blocks.
    match goal with |- cdiv ?x _ + _ ≤ cdiv ?y _ + _ => pose proof (Hc x y ltac:(lia)) end. lia.
  - destruct Hs as [_ Hs]. simpl in Hs. rewrite Hs by done. simpl. unfold sliding_admission_blocks.
    match goal with |- cdiv ?x _ + _ ≤ cdiv ?y _ + _ => pose proof (Hc x y ltac:(lia)) end. lia.
Qed.

(** The blocks of a request in a group, and in all groups. *)
Definition group_supported (c : VllmConfig) (g : KVCacheGroupSpec) : Prop :=
  iter_layer_specs (group_spec g) ≠ [] ∧ Forall (supported c) (iter_layer_specs (group_spec g)).
Definition max_list (l : list Z) : Z := match l with [] => 0 | x :: l' => foldl Z.max x l' end.
Definition group_need (c : VllmConfig) (g : KVCacheGroupSpec) : Z := max_list (pages c <$> iter_layer_specs (group_spec g)).
Definition need (c : VllmConfig) (groups : list KVCacheGroupSpec) : Z := sum_Z (group_need c <$> groups).

Lemma supported_len n c s : supported (set_max_model_len n c) s ↔ supported c s.
Proof. done. Qed.
Lemma group_need_ok c g : group_supported c g → group_max_blocks c g = inr (group_need c g).
Proof.
  intros [Hne Hs]. unfold group_max_blocks, group_need. destruct (group_spec g) as [s|b specs]; simpl in *.
  - apply Forall_cons in Hs as [Hs _]. by rewrite (pages_used_ok c s Hs).
  - unfold max_memory_usage_pages. assert (mapM (pages_used c) specs.*2 = inr (pages c <$> specs.*2)) as ->.
    { apply mapM_inr. clear Hne. induction Hs; simpl; constructor; [by apply pages_used_ok|done]. }
    simpl. destruct (specs.*2) as [|s l]; [done|]. done.
Qed.
Lemma foldl_max_mono l l' a a' : Forall2 Z.le l l' → a ≤ a' → foldl Z.max a l ≤ foldl Z.max a' l'.
Proof. intros H. revert a a'. induction H; intros a a' Ha; simpl; [done|]. apply IHForall2. lia. Qed.
Lemma group_need_mono c g m n : group_supported c g → 1 ≤ decode_context_parallel_size c → m ≤ n →
  group_need (set_max_model_len m c) g ≤ group_need (set_max_model_len n c) g.
Proof.
  intros [_ Hs] Hd Hmn. unfold group_need. destruct Hs as [|s l Hs Hl]; [done|]. simpl. apply foldl_max_mono; [|by apply pages_mono].
  clear Hs. induction Hl; simpl; constructor; [by apply pages_mono|done].
Qed.
Lemma need_mono c groups m n : Forall (group_supported c) groups → 1 ≤ decode_context_parallel_size c → m ≤ n →
  need (set_max_model_len m c) groups ≤ need (set_max_model_len n c) groups.
Proof.
  intros Hs Hd Hmn. unfold need. induction Hs as [|g l Hg _ IH]; [done|]. rewrite !fmap_cons, !sum_Z_cons.
  pose proof (group_need_mono c g m n Hg Hd Hmn). lia.
Qed.
Lemma usage_ok c groups bpb : Forall (group_supported c) groups → groups ≠ [] → _pool_bytes_per_block groups = inr bpb →
  _max_memory_usage_bytes_from_groups c groups = inr (bpb * need c groups).
Proof.
  intros Hs Hne Hb. unfold _max_memory_usage_bytes_from_groups. rewrite bool_decide_eq_false_2, Hb by done. simpl.
  assert (mapM (group_max_blocks c) groups = inr (group_need c <$> groups)) as ->; [|done].
  apply mapM_inr. clear Hne Hb. induction Hs; simpl; constructor; [by apply group_need_ok|done].
Qed.

(** ** Fitting the length to all workers *)

Section fit.
Context (c : VllmConfig) (Hc : config_ok c).
Implicit Types (e : list KVCacheGroupSpec * Z).

Definition worker_ok (g : list KVCacheGroupSpec) : Prop :=
  g = [] ∨ Forall (group_supported c) g ∧ ∃ bpb, _pool_bytes_per_block g = inr bpb ∧ 0 < bpb.
(** A request of length [n] fits a worker. *)
Definition worker_fits (n : Z) e : Prop :=
  e.1 = [] ∨ ∃ bpb, _pool_bytes_per_block e.1 = inr bpb ∧ bpb * need (set_max_model_len n c) e.1 ≤ e.2.

Lemma worker_fits_mono m n e : worker_ok e.1 → m ≤ n → worker_fits n e → worker_fits m e.
Proof using Hc.
  intros [Hn|(Hs & bpb & Hb & Hpos)] Hmn [Hn'|(bpb' & Hb' & Hfit)]; try (by left). right. exists bpb. split; [done|].
  assert (bpb' = bpb) as -> by congruence. pose proof (need_mono c e.1 m n Hs (proj1 Hc) Hmn). nia.
Qed.

Lemma estimate_spec g m : worker_ok g → g ≠ [] →
  ∃ r, _estimate_max_model_len_from_groups g m c = (inr r, c) ∧ 0 ≤ r ≤ max_model_len c
    ∧ (1 ≤ r → worker_fits r (g, m)) ∧ (∀ n, r < n ≤ max_model_len c → ¬ worker_fits n (g, m)).
Proof using Hc.
  intros [->|(Hs & bpb & Hb & Hpos)] Hne; [done|].
  destruct (search_max_len_spec (λ c, _max_memory_usage_bytes_from_groups c g) m c (λ n, bpb * need (set_max_model_len n c) g))
    as (r & E & Hr & Hfit & Hout).
  - intros n _. by apply usage_ok.
  - intros x y _ Hxy. pose proof (need_mono c g x y Hs (proj1 Hc) Hxy). nia.
  - apply Hc.
  - exists r. split_and!; [exact E|lia|lia| |].
    + intros H1. right. exists bpb. split; [done|by apply Hfit].
    + intros n Hn [?|(bpb' & Hb' & Hf)]; [done|]. assert (bpb' = bpb) as -> by (simpl in *; congruence).
      pose proof (Hout n Hn). simpl in *. lia.
Qed.

Lemma fit_workers_spec l acc done' :
  Forall (λ e, worker_ok e.1) (done' ++ l) → 0 ≤ acc ≤ max_model_len c →
  (1 ≤ acc → Forall (worker_fits acc) done') → (∀ n, acc < n ≤ max_model_len c → ¬ Forall (worker_fits n) done') →
  ∃ r, fold_each l fit_worker acc c = (inr r, c) ∧ 0 ≤ r ≤ max_model_len c
    ∧ (1 ≤ r → Forall (worker_fits r) (done' ++ l)) ∧ (∀ n, r < n ≤ max_model_len c → ¬ Forall (worker_fits n) (done' ++ l)).
Proof using Hc.
  revert acc done'. induction l as [|e l IH]; intros acc done' Hok Hacc Hfit Hout; simpl.
  { exists acc. rewrite app_nil_r. done. }
  assert (worker_ok e.1) as He by (apply Forall_app in Hok as [_ Hok]; by apply Forall_cons in Hok as [? _]).
  assert (Forall (λ e, worker_ok e.1) done') as Hd by (by apply Forall_app in Hok as [? _]).
  change (e :: l) with ([e] ++ l) in Hok |- *. rewrite (assoc_L (++) done' [e] l) in Hok |- *.
  unfold fit_worker at 2. unfold mbind, M_bind. case_bool_decide as Hne.
  - unfold mret, M_ret. apply IH; [done|done| |].
    + intros H1. apply Forall_app. split; [by apply Hfit|]. constructor; [by left|constructor].
    + intros n Hn Hf. apply (Hout n Hn). by apply Forall_app in Hf as [? _].
  - destruct (estimate_spec e.1 e.2 He Hne) as (r & -> & Hr & Hrf & Hro). unfold mret, M_ret. apply IH; [done|lia| |].
    + intros H1. apply Forall_app. split.
      * eapply Forall_impl; [apply Forall_and; split; [exact Hd|apply Hfit; lia]|]. simpl. intros x [Hx1 Hx2].
        eapply (worker_fits_mono _ acc); [done|lia|done].
      * apply Forall_singleton. destruct e as [g m]. eapply (worker_fits_mono _ r); [done|lia|]. apply Hrf. lia.
    + intros n Hn Hf. apply Forall_app in Hf as [Hf1 [Hf2 _]%Forall_cons]. destruct e as [g m].
      destruct (decide (acc < n)) as [?|?]; [apply (Hout n); [lia|done]|]. apply (Hro n); [simpl in *; lia|]. done.
Qed.
End fit.

(** One run of the fit: the configuration changes only if the length shrinks. *)
Lemma auto_fit_run c projected mems : config_ok c → Forall (worker_ok c) projected → length mems = length projected → projected ≠ [] →
  ∃ r, 0 ≤ r ≤ max_model_len c ∧ (1 ≤ r → Forall (worker_fits c r) (zip projected mems))
    ∧ (∀ n, r < n ≤ max_model_len c → ¬ Forall (worker_fits c n) (zip projected mems))
    ∧ _auto_fit_max_model_len projected mems c = if r <=? 0 then (inl ValueError, c) else (inr tt, set_max_model_len r c).
Proof.
  intros Hc Hok Hlen Hne. set (workers := zip projected mems). assert (Forall (λ e, worker_ok c e.1) workers) as Hok'.
  { apply Forall_forall. intros [g m] He. rewrite Forall_forall in Hok. apply Hok. by apply elem_of_zip_l in He. }
  pose proof Hc as (_ & _ & Hlen1). unfold _auto_fit_max_model_len.
  destruct (forallb (λ g, bool_decide (g = [])) projected) eqn:Ha.
  - exists (max_model_len c). assert (∀ n, Forall (worker_fits c n) workers) as Hempty.
    { intros n. apply Forall_forall. intros [g m] He. left. rewrite forallb_forall in Ha. simpl.
      apply elem_of_zip_l, list_elem_of_In in He. apply Ha in He. by apply bool_decide_eq_true in He. }
    split_and!; [lia|lia|intros _; apply Hempty|lia|]. destruct (Z.leb_spec (max_model_len c) 0); [lia|]. by rewrite set_max_model_len_id.
  - destruct (fit_workers_spec c Hc workers (max_model_len c) []) as (r & E & Hr & Hfit & Hout);
      [done|lia|intros; constructor|lia|]. exists r. split_and!; [lia|lia|done|done|].
    destruct mems as [|m ms]; [by destruct projected|]. unfold get, mbind, M_bind. cbn [head lift_option]. unfold mret, M_ret.
    unfold workers in E. rewrite E. destruct (r <=? 0); [done|]. destruct (Z.leb_spec (max_model_len c) r); [|done].
    assert (r = max_model_len c) as -> by lia. by rewrite set_max_model_len_id.
Qed.

(** C15: Fitting the model length chooses the longest length, up to the one asked for, with which
    one request fits the memory of every worker, and changes nothing else; if not even one token
    fits it raises [ValueError] and leaves the configuration as it was. *)
Theorem auto_fit_longest c projected mems :
  config_ok c → Forall (worker_ok c) projected → length mems = length projected → projected ≠ [] →
  let workers := zip projected mems in
  (Forall (worker_fits c 1) workers →
     wp (_auto_fit_max_model_len projected mems) (λ _ c', ∃ n, c' = set_max_model_len n c ∧ 1 ≤ n ≤ max_model_len c
       ∧ Forall (worker_fits c n) workers ∧ ∀ n', n < n' ≤ max_model_len c → ¬ Forall (worker_fits c n') workers) c)
  ∧ (¬ Forall (worker_fits c 1) workers → _auto_fit_max_model_len projected mems c = (inl ValueError, c)).
Proof.
  intros Hc Hok Hlen Hne workers. destruct (auto_fit_run c projected mems Hc Hok Hlen Hne) as (r & Hr & Hfit & Hout & E).
  fold workers in Hfit, Hout. pose proof Hc as (_ & _ & ?). destruct (Z.leb_spec r 0) as [Hr0|Hr0].
  - split; [|done]. intros H1. exfalso. apply (Hout 1); [lia|done].
  - split.
    + intros _. exists tt, (set_max_model_len r c). split; [done|]. exists r. split_and!; [done|lia|lia|apply Hfit; lia|done].
    + intros []. apply Forall_forall. intros e He. assert (worker_ok c e.1) as Hoke.
      { destruct e as [g m]. apply elem_of_zip_l in He. rewrite Forall_forall in Hok. by apply Hok. }
      apply (worker_fits_mono c Hc 1 r); [done|lia|]. assert (1 ≤ r) as H1 by lia. specialize (Hfit H1).
      rewrite Forall_forall in Hfit. by apply Hfit.
Qed.
