(* ===== verification/GroupingFacts.v ===== *)
(** Which layers the groups of a model have, and that layers of one group need equally many
    pages. *)

From S2P Require Import Prelude MathUtils OrderedDict LayerSpec CacheConfig LayoutFacts PlacementFacts.

Set Warnings "-level-tolerance,-clear-no-such-hyp".

(** ** Strided slices *)

Section classes.
Context {A : Type} (P : Z → A → Prop) `{∀ i x, Decision (P i x)}.

(** Filters that split a list, put together again. *)
Lemma class_nowhere x (R : list Z) L : (∀ i, i ∈ R → ¬ P i x) →
  concat ((λ i, filter (P i) (x :: L)) <$> R) = concat ((λ i, filter (P i) L) <$> R).
Proof.
  induction R as [|i R IH]; intros Hn; [done|]. rewrite !fmap_cons. cbn [concat].
  rewrite filter_cons_False by (apply Hn; apply list_elem_of_here). rewrite IH; [done|].
  intros j Hj. apply Hn. by apply list_elem_of_further.
Qed.
Lemma class_once x (R : list Z) L i : NoDup R → i ∈ R → P i x → (∀ j, j ∈ R → P j x → j = i) →
  concat ((λ i, filter (P i) (x :: L)) <$> R) ≡ₚ x :: concat ((λ i, filter (P i) L) <$> R).
Proof.
  intros Hnd. induction Hnd as [|k R Hk _ IH]; intros Hin Hi Hu; [by apply elem_of_nil in Hin|].
  rewrite !fmap_cons. cbn [concat]. destruct (decide (k = i)) as [->|Hne].
  - rewrite filter_cons_True by done. rewrite class_nowhere; [done|].
    intros j Hj Hp. assert (j = i) as -> by (apply Hu; [by apply list_elem_of_further|done]). done.
  - rewrite filter_cons_False by (intros Hp; apply Hne; apply Hu; [apply list_elem_of_here|done]).
    apply elem_of_cons in Hin as [?|Hin]; [done|]. rewrite IH; [solve_Permutation|done|done|].
    intros j Hj. apply Hu. by apply list_elem_of_further.
Qed.
Lemma classes_perm (R : list Z) L : NoDup R → (∀ x, x ∈ L → ∃ i, i ∈ R ∧ P i x ∧ ∀ j, j ∈ R → P j x → j = i) →
  concat ((λ i, filter (P i) L) <$> R) ≡ₚ L.
Proof.
  intros Hnd. induction L as [|x L IH]; intros Hc.
  - clear. induction R as [|i R IH]; [done|]. rewrite fmap_cons. cbn [concat]. rewrite IH. done.
  - destruct (Hc x) as (i & Hi & Hp & Hu); [apply list_elem_of_here|]. rewrite (class_once x R L i) by done.
    f_equiv. apply IH. intros y Hy. apply Hc. by apply list_elem_of_further.
Qed.
End classes.

Lemma NoDup_py_range a b : NoDup (py_range a b).
Proof.
  unfold py_range. apply NoDup_fmap_2_strong; [|apply NoDup_seq]. intros x y _ _ E. lia.
Qed.
Lemma imap_pair_snd {A} (l : list A) : (imap pair l).*2 = l.
Proof. rewrite fmap_imap. induction l as [|x l IH]; [done|]. simpl. f_equal. exact IH. Qed.

(** The slices [l[i::n]] have every element of [l] once. *)
Lemma strides_perm {A} (l : list A) n : 0 < n → concat ((λ i, py_stride l i n) <$> py_range 0 n) ≡ₚ l.
Proof.
  intros Hn. unfold py_stride.
  assert (∀ R, concat ((λ i, snd <$> filter (λ e, i ≤ Z.of_nat e.1 ∧ (Z.of_nat e.1 - i) mod n = 0) (imap pair l)) <$> R)
          = snd <$> concat ((λ i, filter (λ e, i ≤ Z.of_nat e.1 ∧ (Z.of_nat e.1 - i) mod n = 0) (imap pair l)) <$> R)) as ->.
  { intros R. induction R as [|i R IH]; [done|]. rewrite !fmap_cons. cbn [concat]. by rewrite fmap_app, IH. }
  rewrite (classes_perm (λ i (e : nat * A), i ≤ Z.of_nat e.1 ∧ (Z.of_nat e.1 - i) mod n = 0)); [by rewrite imap_pair_snd|apply NoDup_py_range|].
  intros [k x] _. exists (Z.of_nat k mod n). pose proof (Z.mod_pos_bound (Z.of_nat k) n Hn). simpl. split_and!.
  - by apply elem_of_py_range.
  - apply Z.mod_le; lia.
  - rewrite Zminus_mod, Zmod_mod, Z.sub_diag. by apply Zmod_0_l.
  - intros j Hj%elem_of_py_range [Hle Hm]. apply Z.mod_divide in Hm as [q Hq]; [|lia].
    apply (Z.mod_unique _ _ q); lia.
Qed.

Lemma stride_nonempty {A} (l : list A) i n : 0 ≤ i < zlen l → py_stride l i n ≠ [].
Proof.
  intros Hi E. destruct (lookup_lt_is_Some_2 l (Z.to_nat i)) as [x Hx]; [unfold zlen in Hi; lia|].
  unfold py_stride in E. apply fmap_nil_inv in E.
  assert ((Z.to_nat i, x) ∈ filter (λ e : nat * A, i ≤ Z.of_nat e.1 ∧ (Z.of_nat e.1 - i) mod n = 0) (imap pair l)) as Hin.
  { apply list_elem_of_filter. simpl. rewrite Z2Nat.id by lia. rewrite Z.sub_diag, Zmod_0_l. split; [done|].
    apply list_elem_of_lookup. exists (Z.to_nat i). by rewrite list_lookup_imap, Hx. }
  rewrite E in Hin. by apply elem_of_nil in Hin.
Qed.
Lemma stride_elem {A} (l : list A) i n x : x ∈ py_stride l i n → x ∈ l.
Proof.
  unfold py_stride. intros (e & -> & [_ He]%list_elem_of_filter)%list_elem_of_fmap.
  apply (list_elem_of_fmap_2 snd) in He. by rewrite imap_pair_snd in He.
Qed.
(** As many slices as it takes for [size] elements each. *)
Definition slices {A} (size : Z) (l : list A) : list (list A) :=
  let n := cdiv (zlen l) size in (λ i, py_stride l i n) <$> py_range 0 n.
Lemma slices_perm {A} size (l : list A) : 0 < size → concat (slices size l) ≡ₚ l ∧ Forall (.≠ []) (slices size l).
Proof.
  intros Hs. unfold slices. pose proof (zlen_nonneg l). split.
  - destruct (decide (0 < cdiv (zlen l) size)) as [Hn|Hn]; [by apply strides_perm|].
    assert (zlen l ≤ 0) as Hl by (pose proof (cdiv_spec size Hs (zlen l)); nia).
    destruct l as [|x l]; [|rewrite zlen_cons in Hl; pose proof (zlen_nonneg l); lia].
    rewrite py_range_nil by (unfold zlen in *; simpl in *; lia). done.
  - apply Forall_fmap, Forall_forall. intros i Hi%elem_of_py_range. simpl. apply stride_nonempty.
    pose proof (cdiv_spec size Hs (zlen l)). nia.
Qed.

(** ** Groups of the same number of layers *)

Lemma mapM_keys (f : KVCacheSpec → exn + KVCacheSpec) (l l' : layer_specs) :
  mapM (λ '(name, s), s' ← f s; mret (name, s')) l = inr l' →
  l'.*1 = l.*1 ∧ Forall2 (λ e e', f e.2 = inr e'.2) l l'.
Proof.
  intros H%mapM_inr. split; [|eapply Forall2_impl; [exact H|]; intros [n s] [n' s'] E; simpl in *; inr_hyps; by simplify_eq].
  induction H as [|[n s] [n' s'] l l' E _ IH]; [done|]. inr_hyps. simplify_eq. rewrite !fmap_cons. by f_equal.
Qed.
Lemma create_groups_names specs grouped groups :
  create_kv_cache_group_specs specs grouped = inr groups → layer_names <$> groups = grouped.
Proof.
  intros H%mapM_inr. induction H as [|names g l l' E _ IH]; [done|]. rewrite fmap_cons, IH. inr_hyps. by subst.
Qed.

Lemma add_to_bucket_spec buckets s names buckets' : add_to_bucket buckets s names = inr buckets' →
  concat buckets'.*1 ≡ₚ concat buckets.*1 ++ names
  ∧ (names ≠ [] → Forall (.≠ []) buckets.*1 → Forall (.≠ []) buckets'.*1).
Proof.
  revert buckets'. induction buckets as [|[ns ss] rest IH]; intros buckets' E; simpl in E.
  - injection E as <-. simpl. rewrite app_nil_r. split; [done|]. intros. by constructor.
  - destruct (merge (ss ++ [s])) as [e|m].
    + assert (∃ rest', add_to_bucket rest s names = inr rest' ∧ buckets' = (ns, ss) :: rest') as (rest' & Er & ->)
        by (destruct e; inr_hyps; try discriminate; subst; eauto).
      destruct (IH _ Er) as [Hp Hn]. simpl. rewrite Hp, (assoc_L (++)). split; [done|].
      intros Hne [H1 H2]%Forall_cons. constructor; [done|by apply Hn].
    + injection E as <-. simpl. split; [solve_Permutation|]. intros Hne [H1 H2]%Forall_cons. constructor; [by destruct ns|done].
Qed.
Lemma make_buckets_spec buckets l buckets' : make_buckets buckets l = inr buckets' →
  concat buckets'.*1 ≡ₚ concat buckets.*1 ++ concat l.*2
  ∧ (Forall (.≠ []) l.*2 → Forall (.≠ []) buckets.*1 → Forall (.≠ []) buckets'.*1).
Proof.
  revert buckets. induction l as [|[s names] l IH]; intros buckets E; simpl in E.
  - injection E as <-. simpl. by rewrite app_nil_r.
  - inr_hyps. match goal with H : add_to_bucket _ _ _ = inr _ |- _ => destruct (add_to_bucket_spec _ _ _ _ H) as [Hp Hn] end.
    destruct (IH _ H0) as [Hp' Hn']. simpl. rewrite Hp', Hp, <-(assoc_L (++)). split; [done|].
    intros [H1 H2]%Forall_cons H3. by apply Hn'; [|apply Hn].
Qed.
Lemma slices_all_perm {A} size (l : list (list A)) : 0 < size →
  concat (l ≫= slices size) ≡ₚ concat l ∧ Forall (.≠ []) (l ≫= slices size).
Proof.
  intros Hs. induction l as [|x l [IH1 IH2]]; [done|]. destruct (slices_perm size x Hs) as [H1 H2]. rewrite bind_cons, concat_app.
  split; [by rewrite H1, IH1|by apply Forall_app].
Qed.
Lemma foldl_min_in l a : foldl Z.min a l ∈ a :: l.
Proof.
  revert a. induction l as [|x l IH]; intros a; simpl; [apply list_elem_of_here|]. specialize (IH (Z.min a x)).
  set_unfold. destruct (Z.min_spec a x) as [[_ E]|[_ E]]; rewrite E in *; naive_solver.
Qed.
Lemma choose_group_size_pos sizes n : choose_group_size sizes = inr n → Forall (λ x, 0 < x) sizes → 0 < n.
Proof.
  unfold choose_group_size. intros E Hp. inr_hyps. rewrite Forall_forall in Hp. destruct sizes as [|y l]; [done|].
  pose proof (py_max_le _ _ y H0 (list_elem_of_here _ _)). simpl in H. inr_hyps.
  pose proof (Hp _ (foldl_min_in l y)). pose proof (Hp y (list_elem_of_here _ _)). subst. case_match; lia.
Qed.

(** Groups with the names of exactly the given layers, none without a layer. *)
Definition covers (groups : list KVCacheGroupSpec) (names : list string) : Prop :=
  concat (layer_names <$> groups) ≡ₚ names ∧ Forall (.≠ []) (layer_names <$> groups).

Lemma uniform_page_size_covers specs groups : _get_kv_cache_groups_uniform_page_size specs = inr groups → covers groups specs.*1.
Proof.
  unfold _get_kv_cache_groups_uniform_page_size. intros E. inr_hyps. rename x into buckets, x0 into size.
  apply create_groups_names in H1. destruct (make_buckets_spec _ _ _ H) as [Hp Hn].
  destruct (same_type_spec specs [] ltac:(constructor)) as (_ & H2 & _). fold (same_type_layers specs) in H2. simpl in Hp, H2.
  assert (Forall (.≠ []) buckets.*1) as Hne.
  { apply Hn; [|constructor]. apply Forall_fmap. apply (same_type_nonempty specs []). constructor. }
  apply choose_group_size_pos in H0.
  2: { apply Forall_fmap. eapply Forall_impl; [exact Hne|]. intros [|x l]; [done|]. simpl. rewrite zlen_cons. pose proof (zlen_nonneg l). lia. }
  destruct (slices_all_perm size buckets.*1 H0) as [G1 G2]. split; rewrite H1; [|exact G2]. by rewrite <-H2, <-Hp, <-G1.
Qed.

(** ** Layers of one type *)

(** All sliding windows keep the same number of extra tokens. *)
Definition extras (e : Z) (l : list KVCacheSpec) : Prop := Forall (λ s, ∀ w e', sliding_fields s = Some (w, e') → e' = e) l.
(** The layers need equally many pages, whatever the configuration. *)
Definition same_pages (l : list KVCacheSpec) : Prop := ∀ c s s', s ∈ l → s' ∈ l → max_pages c s = max_pages c s'.
(** A dictionary has the layers of its group, and they can share a block table. *)
Definition group_inv (g : KVCacheGroupSpec) : Prop :=
  match group_spec g with
  | OneSpec _ => True
  | UniformTypeKVCacheSpecs _ specs => specs.*1 = layer_names g ∧ specs ≠ [] ∧ same_pages specs.*2
  end.

Lemma all_same_head {A} `{EqDecision A} (l : list A) x y : all_same l = true → x ∈ l → y ∈ l → x = y.
Proof.
  destruct l as [|a l]; [done|]. simpl. rewrite forallb_forall. intros H.
  assert (∀ z, z ∈ a :: l → z = a) as Ha; [|intros Hx Hy; by rewrite (Ha x Hx), (Ha y Hy)].
  intros z [->|Hz]%elem_of_cons; [done|]. apply list_elem_of_In, H in Hz. by apply bool_decide_eq_true in Hz.
Qed.
(** The type of a layer that decides its pages, with the block size. *)
Definition page_class (s : KVCacheSpec) : option (BaseSpec * Z * Z) :=
  match s with
  | Attention _ (SlidingWindow w _ | SlidingWindowMLA w _ _) => Some (BaseSliding, w, 0)
  | Attention _ (ChunkedLocalAttention n) => Some (BaseChunked, n, 0)
  | Attention _ EncoderOnlyAttention => None
  | Attention _ CrossAttention => Some (BaseCross, 0, 0)
  | Attention _ _ => Some (BaseFull, 0, 0)
  | Mamba m => Some (BaseMamba, num_speculative_blocks m, num_prefill_checkpoint_blocks m)
  end.
Lemma class_pages c e s s' : page_class s = page_class s' → spec_block_size s = spec_block_size s' → extras e [s; s'] →
  max_pages c s = max_pages c s'.
Proof.
  intros Hc Hb He. apply Forall_cons in He as [H1 He]. apply Forall_cons in He as [H2 _]. unfold max_pages, full_max_pages, chunked_max_pages, sliding_max_pages, cross_max_pages, mamba_max_pages.
  destruct s as [a k|m], s' as [a' k'|m']; try destruct k; try destruct k'; simpl in *; simplify_eq; rewrite ?Hb; try done.
  5: by rewrite H, H0.
  all: by rewrite (H1 _ _ eq_refl), (H2 _ _ eq_refl).
Qed.
Lemma uniform_class s l : is_uniform_with_collection s l = inr true → ∀ s', s' ∈ l → page_class s' = page_class s.
Proof.
  intros H s' Hs. assert (∀ f, forallb f l = true → f s' = true) as Hf.
  { intros f. rewrite forallb_forall. intros Hall. apply Hall. by apply list_elem_of_In. }
  destruct s as [a k|m]; [destruct k|]; simpl in H; inr_hyps; try discriminate;
    (apply Hf in H0 || apply Hf in H); subst; simpl in *.
  all: destruct s' as [a' k'|m']; try destruct k'; simpl in *; try discriminate; try done.
  all: bool_hyps; simplify_eq; try done.
  by rewrite H, H0.
Qed.
Lemma from_specs_inv specs g e : from_specs specs = inr (Some g) → extras e specs.*2 →
  g = UniformTypeKVCacheSpecs (default 0 (spec_block_size <$> head specs.*2)) specs ∧ specs ≠ [] ∧ same_pages specs.*2.
Proof.
  unfold from_specs, is_uniform_type. intros E He. inr_hyps. rename x into b. destruct b; [|done].
  destruct (negb _ && negb _) eqn:Eb; [done|]. inr_hyps. simplify_eq.
  match goal with H : head _ = Some _ |- _ => rewrite H; rename H into Hh end.
  match goal with H : is_uniform_with_collection _ _ = inr true |- _ => rename H into Hu end. split; [done|].
  assert (specs ≠ []) as Hne by (by intros ->). split; [done|]. intros c s s' Hs Hs'.
  pose proof (uniform_class _ _ Hu) as Hc. rewrite (bool_decide_eq_false_2 (specs = []) Hne), andb_true_r in Eb. apply negb_false_iff in Eb.
  apply (class_pages c e); [by rewrite (Hc s Hs), (Hc s' Hs')| |].
  - apply (all_same_head _ _ _ Eb); by apply list_elem_of_fmap_2.
  - unfold extras in *. rewrite Forall_forall in He. repeat constructor; by apply He.
Qed.

(** ** Changed specs *)

(** Rebuilding a spec does not change its kind. *)
Definition same_kind (s s' : KVCacheSpec) : Prop :=
  sliding_fields s' = sliding_fields s ∧ is_mla s' = is_mla s ∧ is_sliding_window_mla s' = is_sliding_window_mla s.
#[global] Instance same_kind_refl : Reflexive same_kind.
Proof. by intros s. Qed.
Lemma set_padded_kind p s : same_kind s (set_padded p s).
Proof. by destruct s. Qed.
Lemma post_init_kind s s' : post_init s = inr s' → same_kind s s'.
Proof.
  unfold post_init. intros E. inr_hyps. subst s'. unfold _apply_alignment_padding.
  destruct (mla_fields s ≫= alignment) as [al|]; [|reflexivity]. cbv zeta.
  destruct (round_up _ al =? _); [reflexivity|apply set_padded_kind].
Qed.
(** What promotion can make of a layer: nothing, or full attention of the same family. *)
Lemma promote_layer_kind b s s' : promote_layer b s = inr s' →
  same_kind s s' ∨ sliding_fields s' = None ∧ is_sliding_window_mla s' = false ∧ (is_sliding_window_mla s = true → is_mla s' = true)
    ∧ is_mla s = false.
Proof.
  unfold promote_layer. destruct s as [a k|m]; [|intros [= <-]; left; reflexivity].
  destruct k; try (intros [= <-]; left; reflexivity); intros (H1 & H2 & H3)%post_init_kind; right; simpl in *; by rewrite H1, H2, H3.
Qed.

(** The layers the several-page-size path keeps. *)
Definition splittable (specs : layer_specs) : Prop :=
  Forall (λ s, is_sliding_window_mla s = false) specs.*2 ∨ Forall (λ s, is_mla s = true ∨ is_sliding_window_mla s = true) specs.*2.
Lemma promote_all b (l l' : layer_specs) e :
  mapM (λ '(name, s), s' ← promote_layer b s; mret (name, s')) l = inr l' →
  l'.*1 = l.*1 ∧ (extras e l.*2 → extras e l'.*2) ∧ (splittable l → splittable l').
Proof.
  intros [Hk Hf]%mapM_keys. split; [done|].
  assert (∀ (P Q : KVCacheSpec → Prop), (∀ s s', promote_layer b s = inr s' → P s → Q s') → Forall P l.*2 → Forall Q l'.*2) as Hmap.
  { intros P Q HPQ HP. clear Hk. induction Hf as [|x y l l' Hxy _ IH]; [constructor|]. rewrite !fmap_cons in *.
    apply Forall_cons in HP as [H1 H2]. constructor; [by eapply HPQ|by apply IH]. }
  split.
  - apply Hmap. intros s s' E%promote_layer_kind He w e' Hs.
    destruct E as [(E & _)|(E & _)]; [rewrite E in Hs; by apply (He w)|congruence].
  - intros [H|H]; [left|right]; revert H; apply Hmap; intros s s' E%promote_layer_kind Hs.
    + destruct E as [(_ & _ & E)|(_ & E & _)]; congruence.
    + destruct E as [(_ & E1 & E2)|(_ & E1 & E2 & E3)]; [by rewrite E1, E2|]. left. apply E2. destruct Hs; congruence.
Qed.
Lemma promote_local_spec specs specs' e : _promote_local_kv_cache_specs specs = inr specs' →
  specs'.*1 = specs.*1 ∧ (extras e specs.*2 → extras e specs'.*2) ∧ (splittable specs → splittable specs').
Proof.
  unfold _promote_local_kv_cache_specs. intros E. inr_hyps. rename x into b. destruct b; [inr_hyps; subst; tauto|]. inr_hyps.
  assert (x = specs') as -> by (destruct x0; [by inr_hyps|done]). destruct (existsb _ _ && _); [by eapply promote_all|inr_hyps; subst; tauto].
Qed.
Lemma unify_hybrid_spec specs specs' e : unify_hybrid_kv_cache_specs specs = inr specs' →
  specs'.*1 = specs.*1 ∧ (extras e specs.*2 → extras e specs'.*2) ∧ (splittable specs → splittable specs').
Proof.
  unfold unify_hybrid_kv_cache_specs. intros E. inr_hyps. rename x into b. destruct b; [inr_hyps; subst; tauto|]. by apply promote_local_spec.
Qed.

(** ** Several page sizes *)

Section collect.
Context {A K V : Type} `{EqDecision K} (key : A → K) (val : A → V).

(** Values collected by key. *)
Definition collect (d0 : list (K * list V)) (l : list A) : list (K * list V) := foldl (λ d x, od_append d (key x) (val x)) d0 l.
Lemma collect_perm d0 l : NoDup d0.*1 → NoDup (collect d0 l).*1 ∧ concat (collect d0 l).*2 ≡ₚ concat d0.*2 ++ (val <$> l).
Proof.
  revert d0. induction l as [|x l IH]; intros d0 Hd; simpl; [by rewrite app_nil_r|].
  destruct (IH (od_append d0 (key x) (val x)) (od_append_keys _ _ _ Hd)) as [H1 H2]. split; [done|].
  rewrite H2, od_append_perm by done. solve_Permutation.
Qed.
End collect.

Lemma concat_fmap_app {A B} (f g : A → list B) R :
  concat ((λ i, f i ++ g i) <$> R) ≡ₚ concat (f <$> R) ++ concat (g <$> R).
Proof. induction R as [|i R IH]; [done|]. rewrite !fmap_cons. cbn [concat]. rewrite IH. solve_Permutation. Qed.
Lemma concat_lookup_all {A} (l : list A) : concat ((λ i, option_list (l !! i)) <$> seq 0 (length l)) = l.
Proof.
  induction l as [|x l IH]; [done|]. cbn [length seq]. rewrite fmap_cons. cbn [concat]. simpl. f_equal.
  rewrite <-fmap_S_seq, <-list_fmap_compose. exact IH.
Qed.
Lemma transpose_perm {A} (ls : list (list A)) n : Forall (λ l, length l = n) ls → concat (transpose ls n) ≡ₚ concat ls.
Proof.
  unfold transpose. induction 1 as [|l ls Hl _ IH].
  - induction (seq 0 n) as [|i R IH]; [done|]. rewrite fmap_cons. cbn [concat]. rewrite IH. done.
  - cbn [concat]. rewrite <-IH. transitivity (concat ((λ i, option_list (l !! i)) <$> seq 0 n) ++ concat ((λ i, omap (.!! i) ls) <$> seq 0 n)).
    2: by rewrite <-Hl, concat_lookup_all.
    rewrite <-concat_fmap_app.
    assert ((λ i, omap (.!! i) (l :: ls)) <$> seq 0 n = (λ i, option_list (l !! i) ++ omap (.!! i) ls) <$> seq 0 n) as ->; [|done].
    apply list_fmap_ext. intros _ i _. simpl. by destruct (l !! i).
Qed.
Lemma transpose_nonempty {A} (ls : list (list A)) n : Forall (λ l, length l = n) ls → ls ≠ [] → Forall (.≠ []) (transpose ls n).
Proof.
  intros Hl Hne. unfold transpose. apply Forall_fmap, Forall_forall. intros i Hi%elem_of_seq. destruct Hl as [|l ls Hl _]; [done|].
  simpl. destruct (lookup_lt_is_Some_2 l i) as [x ->]; [lia|done].
Qed.

Lemma approximate_gcd_pos values lb d : _approximate_gcd values lb = inr d → 1 ≤ d.
Proof.
  unfold _approximate_gcd. case_match; [done|]. case_match; [done|]. intros E. inr_hyps. cbv zeta in *.
  set (m := Z.max 1 (default 1 lb)) in *. assert (1 ≤ m) as Hm by lia. destruct (x <? m); inr_hyps; [lia|]. subst d.
  assert (∀ R best, (∀ i, i ∈ R → 1 ≤ i) → 1 ≤ best.1 → 1 ≤ (foldl (better_divisor values) best R).1) as Hfold.
  { induction R as [|i R IH]; intros best HR Hb; [done|]. simpl. apply IH; [intros j Hj; apply HR; by apply list_elem_of_further|].
    pose proof (HR i (list_elem_of_here _ _)). unfold better_divisor. cbv zeta. repeat case_match; simpl; lia. }
  apply Hfold; [|done]. intros i Hi%elem_of_py_range. lia.
Qed.

(** The layers of one window, by page size. *)
Lemma per_size_perm (specs : layer_specs) sized :
  mapM (λ '(name, s), p ← page_size_bytes s; mret (p, name)) specs = inr sized →
  concat (foldl (λ d '(p, name), od_append d p name) [] sized).*2 ≡ₚ specs.*1.
Proof.
  intros H. assert (sized.*2 = specs.*1) as Hk.
  { apply mapM_inr in H. induction H as [|[n s] y l l' E _ IH]; [done|]. inr_hyps. subst y. rewrite !fmap_cons. by f_equal. }
  destruct (collect_perm fst snd [] sized ltac:(constructor)) as [_ Hp]. rewrite <-Hk, <-Hp.
  assert (∀ d, foldl (λ d '(p, name), od_append d p name) d sized = collect fst snd d sized) as ->; [|done].
  unfold collect. clear. induction sized as [|[p n] l IH]; intros d; [done|]. simpl. by rewrite IH.
Qed.
(** The specs looked up for the names of a group. *)
Lemma sub_specs (specs : layer_specs) names (sub : layer_specs) e :
  mapM (λ n, s ← result_of_option KeyError (od_get specs n); mret (n, s)) names = inr sub →
  sub.*1 = names ∧ (∀ x, x ∈ sub → x ∈ specs) ∧ (extras e specs.*2 → extras e sub.*2).
Proof.
  intros H%mapM_inr. assert (sub.*1 = names ∧ ∀ x, x ∈ sub → x ∈ specs) as [H1 H2].
  { induction H as [|n y l l' E _ [IH1 IH2]]; [split; [done|by intros x ?%elem_of_nil]|]. inr_hyps. subst y. split; [by rewrite fmap_cons, IH1|].
    intros z [->|Hz]%elem_of_cons; [by apply od_get_elem|by apply IH2]. }
  split_and!; [done|done|]. unfold extras. rewrite !Forall_forall. intros He s (x & -> & Hx)%list_elem_of_fmap.
  apply He. apply list_elem_of_fmap_2. by apply H2.
Qed.

Lemma concat_slices {A} (l : list (list (list A))) : concat (concat (A:=A) <$> l) = concat (concat l).
Proof. induction l as [|x l IH]; [done|]. rewrite fmap_cons. cbn [concat]. by rewrite concat_app, IH. Qed.
Lemma concat_nonempty {A} (l : list (list A)) : l ≠ [] → Forall (.≠ []) l → concat l ≠ [].
Proof. destruct l as [|x l]; [done|]. intros _ [Hx _]%Forall_cons. by destruct x. Qed.
#[global] Instance concat_perm {A} : Proper ((≡ₚ) ==> (≡ₚ)) (@concat A).
Proof. intros l l'. induction 1; cbn [concat]; [done|by f_equiv|solve_Permutation|by etrans]. Qed.

Lemma split_tuples_spec n specs groups e : 0 < n → split_layer_tuples n specs = inr groups →
  covers groups specs.*1 ∧ (extras e specs.*2 → Forall group_inv groups).
Proof.
  unfold split_layer_tuples. intros Hn E. inr_hyps. cbv zeta in *. rename x into sized.
  pose proof (per_size_perm _ _ H) as Hp. set (per := (foldl _ [] sized).*2) in *.
  match goal with Ha : all_same (length <$> per) = true |- _ => rename Ha into Hsame end.
  destruct per as [|l0 per'] eqn:Eper; [done|]. simpl in *. set (k := length l0) in *.
  assert (Forall (λ l, length l = k) (l0 :: per')) as Hk.
  { apply Forall_forall. intros l Hl. apply (all_same_head (length <$> l0 :: per')); [done|by apply list_elem_of_fmap_2|].
    apply list_elem_of_here. }
  set (tuples := transpose (l0 :: per') k) in *.
  assert (zlen tuples = Z.of_nat k) as Hz by (unfold zlen, tuples, transpose; by rewrite length_fmap, length_seq).
  rewrite <-Hz in *. match goal with Hm : mapM _ (py_range 0 _) = inr groups |- _ => apply mapM_inr in Hm; rename Hm into Hg end.
  assert (layer_names <$> groups = concat (A:=string) <$> slices n tuples) as Hnames.
  { unfold slices. rewrite <-list_fmap_compose. clear -Hg. induction Hg as [|i g R gs E _ IH]; [done|].
    rewrite !fmap_cons, IH. f_equal. inr_hyps. by subst. }
  destruct (slices_perm n tuples Hn) as [S1 S2]. split; [split|].
  - rewrite Hnames, concat_slices, S1, <-Hp. by apply (transpose_perm (l0 :: per')).
  - rewrite Hnames. apply Forall_fmap, Forall_forall. intros l Hl. simpl. rewrite Forall_forall in S2.
    apply concat_nonempty; [by apply S2|]. apply Forall_forall. intros t Ht.
    pose proof (transpose_nonempty (l0 :: per') k Hk ltac:(done)) as Ht'. rewrite Forall_forall in Ht'. apply Ht'.
    unfold slices in Hl. apply list_elem_of_fmap in Hl as (i & -> & _). by apply stride_elem in Ht.
  - intros He. clear -Hg He. apply Forall_forall. intros g Hin. apply list_elem_of_lookup in Hin as [j Hj].
    destruct (Forall2_lookup_r _ _ _ _ _ Hg Hj) as (i & _ & E). inr_hyps. subst g. unfold group_inv. simpl.
    destruct (sub_specs specs _ _ e H) as (Hs1 & _ & Hs3). subst x0. destruct (from_specs_inv _ _ e H0 (Hs3 He)) as (-> & Hne & Hsp). done.
Qed.

(** The layers of the MLA specs and of each window, by the specs of the model. *)
Lemma grouped_perm (specs : layer_specs) :
  let grouped := foldl (λ d e, match sliding_fields e.2 with
                               | Some (w, _) => if is_sliding_window_mla e.2 then od_append d (spec_block_size e.2, w) e else d
                               | None => d
                               end) [] specs in
  concat grouped.*2 ≡ₚ filter (λ e : string * KVCacheSpec, is_sliding_window_mla e.2 = true) specs.
Proof.
  intros grouped. set (key := λ e : string * KVCacheSpec, (spec_block_size e.2, default 0 (fst <$> sliding_fields e.2))).
  destruct (collect_perm key id [] (filter (λ e, is_sliding_window_mla e.2 = true) specs) ltac:(constructor)) as [_ Hp].
  rewrite list_fmap_id in Hp. simpl in Hp. rewrite <-Hp. unfold grouped. clear -specs.
  generalize (@nil (Z * Z * layer_specs)). unfold collect. induction specs as [|[n s] l IH]; intros d; [done|]. cbn [foldl].
  rewrite filter_cons. simpl. rewrite IH. destruct s as [a k|m]; [destruct k|]; simpl; done.
Qed.
Lemma mla_and_sliding (specs : layer_specs) : Forall (λ s, is_mla s = true ∨ is_sliding_window_mla s = true) specs.*2 →
  filter (λ e : string * KVCacheSpec, is_sliding_window_mla e.2 = false ∧ is_mla e.2 = true) specs
    ++ filter (λ e : string * KVCacheSpec, is_sliding_window_mla e.2 = true) specs ≡ₚ specs.
Proof.
  intros Hs. rewrite (comm (++)). etrans; [|apply (filter_app_complement (λ e : string * KVCacheSpec, is_sliding_window_mla e.2 = true))].
  apply Permutation_app_head, reflexive_eq.
  induction specs as [|x l IH]; [done|]. rewrite fmap_cons in Hs. apply Forall_cons in Hs as [Hx Hl]. rewrite !filter_cons, IH by done.
  destruct (is_sliding_window_mla x.2), (is_mla x.2); repeat case_decide; try done; naive_solver.
Qed.
(** Other layers are dropped. *)
Lemma mla_and_sliding_sub (specs : layer_specs) :
  filter (λ e : string * KVCacheSpec, is_sliding_window_mla e.2 = false ∧ is_mla e.2 = true) specs
    ++ filter (λ e : string * KVCacheSpec, is_sliding_window_mla e.2 = true) specs ⊆+ specs.
Proof.
  induction specs as [|x l IH]; [done|]. rewrite !filter_cons.
  destruct (is_sliding_window_mla x.2), (is_mla x.2); repeat case_decide; try naive_solver; try (by apply submseteq_skip);
    try (by apply submseteq_cons).
  all: rewrite <-Permutation_middle; by apply submseteq_skip.
Qed.
Lemma covers_app g1 g2 n1 n2 : covers g1 n1 → covers g2 n2 → covers (g1 ++ g2) (n1 ++ n2).
Proof.
  intros [H1 H2] [H3 H4]. unfold covers. rewrite fmap_app, concat_app, H1, H3. split; [done|by apply Forall_app].
Qed.
Lemma covers_perm g n n' : n ≡ₚ n' → covers g n → covers g n'.
Proof. intros E [H1 H2]. split; [by rewrite H1|done]. Qed.
Lemma extras_app e (l l' : layer_specs) : extras e (l ++ l').*2 ↔ extras e l.*2 ∧ extras e l'.*2.
Proof. unfold extras. by rewrite fmap_app, Forall_app. Qed.
#[global] Instance extras_perm e : Proper ((≡ₚ) ==> iff) (extras e).
Proof. intros l l' E. unfold extras. by rewrite E. Qed.

Lemma split_all_spec n (swa : list layer_specs) gs e : 0 < n → mapM (split_layer_tuples n) swa = inr gs →
  covers (concat gs) (concat swa).*1 ∧ (extras e (concat swa).*2 → Forall group_inv (concat gs)).
Proof.
  intros Hn H%mapM_inr. induction H as [|l g swa gs Hg _ [IH1 IH2]]; [split; [split; [done|constructor]|constructor]|].
  destruct (split_tuples_spec n l g e Hn Hg) as [H1 H2]. cbn [concat]. rewrite fmap_app, extras_app. split; [by apply covers_app|].
  intros [E1 E2]. apply Forall_app. split; [by apply H2|by apply IH2].
Qed.
Lemma group_and_unify_spec specs l e : group_and_unify_kv_cache_specs specs = inr (Some l) →
  (splittable specs → concat l ≡ₚ specs) ∧ concat l ⊆+ specs ∧ (extras e specs.*2 → extras e (concat l).*2)
  ∧ ∃ full swa g, l = full :: swa ∧ from_specs full = inr (Some g).
Proof.
  unfold group_and_unify_kv_cache_specs. intros E. destruct (existsb is_sliding_window_mla specs.*2) eqn:Hex; [|done]. simpl in E.
  pose proof (grouped_perm specs) as Hp. cbv zeta in Hp. apply result_bind_inr in E as (sizes & _ & E).
  destruct (all_same sizes); [done|]. cbv zeta in E. inr_hyps. simplify_eq. cbn [concat]. split_and!.
  - intros Hs. rewrite Hp. apply mla_and_sliding. destruct Hs as [Hs|Hs]; [|done]. rewrite Forall_forall in Hs.
    apply existsb_exists in Hex as (s & Hin%list_elem_of_In & Ht). rewrite (Hs s Hin) in Ht. done.
  - rewrite Hp. apply mla_and_sliding_sub.
  - rewrite Hp. unfold extras. rewrite !Forall_forall. intros He s (y & -> & Hy)%list_elem_of_fmap. apply He.
    apply elem_of_app in Hy as [[_ Hy]%list_elem_of_filter|[_ Hy]%list_elem_of_filter]; by apply list_elem_of_fmap_2.
  - match goal with H : from_specs _ = inr ?u, Hd : bool_decide (is_Some ?u) = true |- _ => apply bool_decide_eq_true in Hd as [g ->] end.
    by eexists _, _, g.
Qed.
Lemma uniform_groups_spec specs l groups e :
  group_and_unify_kv_cache_specs specs = inr (Some l) → _get_kv_cache_groups_uniform_groups l = inr groups →
  (splittable specs → covers groups specs.*1) ∧ concat (layer_names <$> groups) ⊆+ specs.*1
  ∧ (extras e specs.*2 → Forall group_inv groups).
Proof.
  intros E G. destruct (group_and_unify_spec specs l e E) as (Hp & Hsub & Hex & full & swa & g & -> & Hfull). simpl in G. inr_hyps.
  match goal with H : mapM (split_layer_tuples ?n) swa = inr ?gs, Ha : _approximate_gcd _ _ = inr ?n |- _ =>
    apply approximate_gcd_pos in Ha; destruct (split_all_spec n swa gs e ltac:(lia) H) as [Q1 Q2] end.
  match goal with H : head full.*2 = Some _ |- _ => rename H into Hhead end. cbn [concat] in Hp, Hsub, Hex. subst groups. split_and!.
  - intros Hs. apply (covers_perm _ (full.*1 ++ (concat swa).*1)); [by rewrite <-fmap_app, (Hp Hs)|].
    apply (covers_app [_]); [|done]. split; simpl; [by rewrite app_nil_r|]. constructor; [by destruct full|constructor].
  - rewrite fmap_cons. cbn [concat layer_names]. rewrite (proj1 Q1), <-fmap_app. by apply fmap_submseteq.
  - intros [He1 He2]%Hex%extras_app. constructor; [|by apply Q2].
    destruct (from_specs_inv full g e Hfull He1) as (_ & Hne & Hsp). done.
Qed.

(** Flagging a group changes only the flag. *)
Lemma flag_group_same name groups :
  layer_names <$> flag_group name groups = layer_names <$> groups
  ∧ (Forall group_inv groups → Forall group_inv (flag_group name groups)).
Proof.
  induction groups as [|g l [IH1 IH2]]; [done|]. cbn [flag_group]. case_bool_decide; rewrite !fmap_cons.
  - split; [done|]. intros [H1 H2]%Forall_cons. by constructor.
  - rewrite IH1. split; [done|]. intros [H1 H2]%Forall_cons. constructor; [done|by apply IH2].
Qed.
Lemma annotate_same c specs groups :
  layer_names <$> _annotate_eagle_groups_deepseek_v4 c specs groups = layer_names <$> groups
  ∧ (Forall group_inv groups → Forall group_inv (_annotate_eagle_groups_deepseek_v4 c specs groups)).
Proof.
  unfold _annotate_eagle_groups_deepseek_v4. destruct (_ && _); [|done]. destruct (last specs) as [[name s]|]; [|done]. apply flag_group_same.
Qed.

(** ** All groups *)

Lemma one_specs_inv specs grouped groups : create_kv_cache_group_specs specs grouped = inr groups → Forall group_inv groups.
Proof. intros H%mapM_inr. induction H as [|n g l l' E _ IH]; constructor; [|done]. inr_hyps. by subst. Qed.
Lemma uniform_type_spec (specs : layer_specs) g e : from_specs specs = inr (Some g) →
  covers (_get_kv_cache_groups_uniform_type g specs) specs.*1 ∧ (extras e specs.*2 → Forall group_inv (_get_kv_cache_groups_uniform_type g specs)).
Proof.
  intros H. assert (specs ≠ []) as Hne by (by intros ->). split.
  - split; simpl; [by rewrite app_nil_r|]. constructor; [by destruct specs|constructor].
  - intros He. destruct (from_specs_inv specs g e H He) as (-> & _ & Hsp). constructor; [done|constructor].
Qed.
Lemma hidden_groups_spec p b (hidden : layer_specs) extra : mapM (hidden_group p b) hidden = inr extra →
  covers extra hidden.*1 ∧ Forall group_inv extra.
Proof.
  intros H%mapM_inr. induction H as [|[n s] g l l' E _ [[IH1 IH2] IH3]]; [split; [split; [done|constructor]|constructor]|].
  unfold hidden_group in E. simpl in E. destruct s as [a k|m]; [|done]. inr_hyps. subst g.
  split; [|by constructor]. split; rewrite !fmap_cons; cbn [concat]; [by rewrite IH1|by constructor].
Qed.
Lemma fallback_spec specs groups e : _try_get_full_allocation_fallback_groups specs = inr (Some groups) →
  covers groups specs.*1 ∧ (extras e specs.*2 → Forall group_inv groups).
Proof.
  unfold _try_get_full_allocation_fallback_groups. intros E. repeat (case_match; [done|]).
  destruct (_promote_local_kv_cache_specs specs) as [x|promoted] eqn:Ep; [by destruct x|]. inr_hyps.
  destruct x as [g|]; [|done]. simplify_eq. destruct (promote_local_spec _ _ e Ep) as (<- & He & _).
  destruct (uniform_type_spec promoted g e) as [Q1 Q2]; [done|]. split; [done|]. intros Hx. by apply Q2, He.
Qed.

(** Every layer is in one group, except that layers are dropped where several page sizes are
    grouped and some layer is neither MLA nor sliding-window MLA. *)
Lemma get_groups_spec c specs groups e : get_kv_cache_groups c specs = inr groups →
  (splittable specs → covers groups specs.*1) ∧ concat (layer_names <$> groups) ⊆+ specs.*1 ∧ (extras e specs.*2 → Forall group_inv groups).
Proof.
  intros E. unfold get_kv_cache_groups in E. apply result_bind_inr in E as (specs' & E0 & E).
  assert (specs'.*1 = specs.*1 ∧ (extras e specs.*2 → extras e specs'.*2) ∧ (splittable specs → splittable specs')) as (<- & He & Hs).
  { destruct (disable_hybrid_kv_cache_manager c); [|inr_hyps; subst; done].
    by apply unify_hybrid_spec. }
  enough ((splittable specs' → covers groups specs'.*1) ∧ concat (layer_names <$> groups) ⊆+ specs'.*1
    ∧ (extras e specs'.*2 → Forall group_inv groups)) as (? & ? & ?) by (split_and!; auto).
  assert (covers groups specs'.*1 ∧ (extras e specs'.*2 → Forall group_inv groups) →
    (splittable specs' → covers groups specs'.*1) ∧ concat (layer_names <$> groups) ⊆+ specs'.*1
    ∧ (extras e specs'.*2 → Forall group_inv groups)) as Hcov.
  { intros [Hc Hi]. split_and!; [done| |done]. by rewrite (proj1 Hc). }
  clear E0 Hs He specs. rename specs' into specs. case_bool_decide as Hne; [apply Hcov; inr_hyps; subst; split; [by split; [|constructor]|constructor]|].
  apply result_bind_inr in E as ([] & Eu & E).
  { apply Hcov. split; [|intros _; by eapply one_specs_inv]. apply create_groups_names in E. unfold covers. rewrite E. simpl. rewrite app_nil_r. split; [done|].
    constructor; [by destruct specs|constructor]. }
  apply result_bind_inr in E as ([g|] & Ef & E); [inr_hyps; subst; apply Hcov; by apply uniform_type_spec|].
  apply result_bind_inr in E as ([l|] & Eg & E).
  { inr_hyps. subst groups. destruct (uniform_groups_spec _ _ _ e Eg H) as (Q1 & Q2 & Q3). destruct (annotate_same c specs x) as [A1 A2].
    unfold covers. rewrite A1. split_and!; [exact Q1|exact Q2|]. intros Hx. by apply A2, Q3. }
  cbv zeta in E. destruct (unify_kv_cache_spec_page_size _) as [[]|filtered] eqn:Ep; try done.
  { inr_hyps. subst. apply Hcov. by apply fallback_spec. }
  assert (filtered.*1 = (filter (λ e : string * KVCacheSpec, is_hidden_state e.2 = false) specs).*1) as Hk.
  { unfold unify_kv_cache_spec_page_size in Ep. inr_hyps. destruct (_ || _); [inr_hyps; by subst|]. inr_hyps.
    match goal with H : mapM _ _ = inr filtered |- _ => by apply mapM_keys in H as [-> _] end. }
  apply result_bind_inr in E as (groups0 & Eu0 & E). pose proof (uniform_page_size_covers _ _ Eu0) as Hc. rewrite Hk in Hc.
  assert (Forall group_inv groups0) as Hi by (unfold _get_kv_cache_groups_uniform_page_size in Eu0; inr_hyps; by eapply one_specs_inv).
  set (hidden := filter (λ e : string * KVCacheSpec, is_hidden_state e.2 = true) specs) in *.
  assert ((filter (λ e : string * KVCacheSpec, is_hidden_state e.2 = false) specs).*1 ++ hidden.*1 ≡ₚ specs.*1) as Hall.
  { rewrite <-fmap_app. f_equiv. rewrite (comm (++)). etrans; [|apply (filter_app_complement (λ e : string * KVCacheSpec, is_hidden_state e.2 = true))].
    unfold hidden. apply Permutation_app_head, reflexive_eq, list_filter_iff. intros x. by rewrite not_true_iff_false. }
  apply Hcov. case_bool_decide as Hh.
  - inr_hyps. subst groups0. rewrite Hh, app_nil_r in Hall. split; [by eapply covers_perm|done].
  - inr_hyps. subst groups. match goal with H : mapM (hidden_group _ _) _ = inr _ |- _ => destruct (hidden_groups_spec _ _ _ _ H) as [Q1 Q2] end. split; [|intros _; by apply Forall_app].
    eapply covers_perm; [exact Hall|]. by apply covers_app.
Qed.
