(* ===== verification/CacheConfigTheorems.v ===== *)
(** The configurations of all workers: every layer is in one group, and every worker has the
    blocks for the longest request. *)

From S2P Require Import Prelude MathUtils OrderedDict LayerSpec CacheConfig LayoutFacts PlacementFacts CacheMemory GroupingFacts.

Set Warnings "-level-tolerance,-clear-no-such-hyp".

(** ** Projection to a worker *)

(** A group of a worker needs as many blocks as the group of the model. *)
Definition same_need (g g' : KVCacheGroupSpec) : Prop := ∀ c, group_need c g' = group_need c g.

Lemma max_list_same l v : l ≠ [] → (∀ x, x ∈ l → x = v) → max_list l = v.
Proof.
  destruct l as [|x l]; [done|]. intros _ H. simpl. rewrite (H x (list_elem_of_here _ _)).
  assert (∀ y, y ∈ l → y = v) as Hl by (intros; apply H; by apply list_elem_of_further). clear H x.
  induction l as [|y l IH]; [done|]. simpl. rewrite (Hl y (list_elem_of_here _ _)), Z.max_id. apply IH.
  intros z Hz. apply Hl. by apply list_elem_of_further.
Qed.
Lemma need_subset (l l' : list KVCacheSpec) c : same_pages l → l' ≠ [] → (∀ s, s ∈ l' → s ∈ l) →
  max_list (pages c <$> l') = max_list (pages c <$> l).
Proof.
  intros Hs Hne Hsub. destruct l' as [|s0 l']; [done|]. pose proof (Hsub s0 (list_elem_of_here _ _)) as H0.
  assert (∀ s, s ∈ l → pages c s = pages c s0) as Hp by (intros s Hs'; unfold pages; by rewrite (Hs c s s0)).
  transitivity (pages c s0); [|symmetry]; apply max_list_same; [by rewrite fmap_cons| |by intros ->%fmap_nil_inv; apply elem_of_nil in H0|].
  all: intros x (s & -> & Hin)%list_elem_of_fmap; apply Hp; first [done|by apply Hsub].
Qed.
Lemma project_same_need groups w groups' : Forall group_inv groups → _project_kv_cache_groups_to_worker groups w = inr groups' →
  Forall2 same_need groups groups'.
Proof.
  intros Hi H%mapM_inr. induction H as [|g g' l l' E _ IH]; [constructor|]. apply Forall_cons in Hi as [Hg Hl]. constructor; [|by apply IH].
  intros c. cbv zeta in E. inr_hyps. subst g'. unfold group_inv, group_need in *. simpl. destruct (group_spec g) as [s|b specs]; [inr_hyps; by subst|].
  destruct Hg as (Hk & Hne & Hsp). case_bool_decide as Hn; [inr_hyps; by subst|]. inr_hyps. subst. simpl.
  match goal with H : mapM _ _ = inr ?own |- _ => destruct (sub_specs specs _ own 0 H) as (Ho1 & Ho2 & _); clear H; rename own into own' end.
  apply need_subset; [done| |].
  - intros E%fmap_nil_inv. subst own'. by rewrite <-Ho1 in Hn.
  - intros s (x & -> & Hx)%list_elem_of_fmap. by apply list_elem_of_fmap_2, Ho2.
Qed.
Lemma same_need_sum c groups groups' : Forall2 same_need groups groups' → need c groups' = need c groups.
Proof. intros H. unfold need. induction H as [|g g' l l' E _ IH]; [done|]. rewrite !fmap_cons, !sum_Z_cons, IH, (E c). done. Qed.

(** The extra tokens of sliding windows are the same in all layers. *)
Lemma retain_extra_extras c (merged specs : layer_specs) :
  mapM (λ '(name, s), s' ← retain_extra c s; mret (name, s')) merged = inr specs → ∃ e, extras e specs.*2.
Proof.
  intros [_ H]%mapM_keys. eexists (match speculative_config c with
    | Some sc => if use_multi_module_mtp sc then num_speculative_tokens sc - 1 else 0 | None => 0 end).
  induction H as [|[n s] [n' s'] l l' E _ IH]; [constructor|]. constructor; [|exact IH]. intros w e' Hs. simpl in *. unfold retain_extra in E.
  destruct s as [a k|m]; [|inr_hyps; by subst]. destruct k; try (inr_hyps; by subst).
  all: apply post_init_kind in E as [E _]; rewrite E in Hs; simpl in Hs; by simplify_eq.
Qed.

(** ** One worker *)

Lemma lift_bind_inr {St A B} (r : exn + A) (f : A → M St B) s b s' :
  (lift_result r ≫= f) s = (inr b, s') ↔ ∃ a, r = inr a ∧ f a s = (inr b, s').
Proof.
  rewrite run_bind_inr. unfold lift_result. split; [by intros (a & s1 & [= -> ->] & ?); exists a|].
  intros (a & -> & ?). by exists a, s.
Qed.
Lemma config_from_groups_blocks c g m k : get_kv_cache_config_from_groups c g m = inr k →
  kv_cache_groups k = g ∧ if decide (g = []) then num_blocks k = 1
    else ∃ bpb, _pool_bytes_per_block g = inr bpb ∧ 0 < bpb ∧ num_blocks k = may_override_num_blocks c (m / bpb).
Proof.
  unfold get_kv_cache_config_from_groups. destruct (decide (g = [])) as [->|Hne].
  - rewrite bool_decide_eq_true_2 by done. intros E. inr_hyps. by subst.
  - rewrite bool_decide_eq_false_2 by done. intros E. cbv zeta in E. inr_hyps. subst k. simpl. split; [done|].
    match goal with H : _get_kv_cache_bytes_per_block g = inr ?b |- _ => exists b; pose proof H as Hb end. split_and!; [done| |done].
    unfold _get_kv_cache_bytes_per_block in Hb. inr_hyps. bool_hyps. subst. lia.
Qed.
Lemma check_enough_inr usage m c u c' : _check_enough_kv_cache_memory usage m c = (inr u, c') →
  c' = c ∧ ∃ n, usage c = inr n ∧ n ≤ m.
Proof.
  unfold _check_enough_kv_cache_memory. destruct (m <=? 0); [done|].
  intros (c1 & s1 & [= <- <-] & H)%run_bind_inr. apply lift_bind_inr in H as (n & Hn & H).
  destruct (Z.ltb_spec m n); [by apply run_bind_inr in H as (? & ? & _ & H)|]. unfold mret, M_ret in H. injection H as _ <-. split; [done|]. by exists n.
Qed.
Lemma check_workers_inr (l : list (list KVCacheGroupSpec * Z)) c u c' :
  for_each l (λ '(g, m), when (negb (bool_decide (g = [])))
    (_check_enough_kv_cache_memory (λ c, _max_memory_usage_bytes_from_groups c g) m)) c = (inr u, c') →
  c' = c ∧ ∀ g m, (g, m) ∈ l → g ≠ [] → ∃ n, _max_memory_usage_bytes_from_groups c g = inr n ∧ n ≤ m.
Proof.
  induction l as [|[g m] l IH]; intros H; cbn [for_each] in H.
  - unfold mret, M_ret in H. injection H as _ <-. split; [done|]. by intros g m ?%elem_of_nil.
  - apply run_bind_inr in H as (v & c1 & H1 & H2).
    assert (c1 = c ∧ (g ≠ [] → ∃ n, _max_memory_usage_bytes_from_groups c g = inr n ∧ n ≤ m)) as [-> Hg].
    { case_bool_decide as Hg; simpl in H1; [unfold mret, M_ret in H1; by injection H1 as _ <-|].
      apply check_enough_inr in H1 as [-> ?]. done. }
    destruct (IH H2) as [-> Hl]. split; [done|]. intros g' m' [[= -> ->]|Hin]%elem_of_cons; [done|by apply Hl].
Qed.

(** The blocks a worker gets before the workers agree on a number. *)
Record worker_plan (c c' : VllmConfig) (g : list KVCacheGroupSpec) (avail : Z) (k : KVCacheConfig) : Prop := {
  wp_groups : kv_cache_groups k = g;
  wp_empty : g = [] → num_blocks k = 1;
  wp_blocks : g ≠ [] → Forall (group_supported c') g → ∃ bpb, _pool_bytes_per_block g = inr bpb ∧ 0 < bpb
    ∧ need c' g + 1 ≤ num_blocks k ∧ default (num_blocks k) (num_gpu_blocks_override c) = num_blocks k
    ∧ (num_gpu_blocks_override c = None → bpb * num_blocks k ≤ avail);
}.
Lemma plan_worker c n g avail mem u k : let c' := set_max_model_len n c in
  match num_gpu_blocks_override c with None => mem = avail | Some _ => overridden_memory c g avail = inr mem end →
  usable_memory g mem = inr u → (g ≠ [] → ∃ n, _max_memory_usage_bytes_from_groups c' g = inr n ∧ n ≤ u) →
  get_kv_cache_config_from_groups c' g mem = inr k → worker_plan c c' g avail k.
Proof.
  intros c' Hov Hu Hchk Hk. apply config_from_groups_blocks in Hk as [Hg Hb]. split; [done|intros ->; by rewrite decide_True in Hb|].
  intros Hne Hs. rewrite decide_False in Hb by done. destruct Hb as (bpb & Hbpb & Hpos & Hnb). exists bpb. split_and!; [done|done| | |].
  all: unfold may_override_num_blocks in Hnb; change (num_gpu_blocks_override c') with (num_gpu_blocks_override c) in Hnb.
  - unfold usable_memory in Hu. rewrite bool_decide_eq_false_2, Hbpb in Hu by done. injection Hu as <-.
    destruct (Hchk Hne) as (m & Hm & Hle). rewrite (usage_ok c' g bpb Hs Hne Hbpb) in Hm. injection Hm as <-.
    rewrite Hnb. unfold overridden_memory in Hov. destruct (num_gpu_blocks_override c) as [o|]; simpl in *.
    + rewrite bool_decide_eq_false_2, Hbpb in Hov by done. injection Hov as <-. nia.
    + apply Z.div_le_lower_bound; lia.
  - rewrite Hnb. by destruct (num_gpu_blocks_override c).
  - intros Ho. rewrite Ho in *. subst mem. rewrite Hnb. simpl. by apply Z.mul_div_le.
Qed.

(** ** All workers *)

Lemma foldl_min_le l a : foldl Z.min a l ≤ a ∧ ∀ x, x ∈ l → foldl Z.min a l ≤ x.
Proof.
  revert a. induction l as [|y l IH]; intros a; simpl; [split; [done|by intros x ?%elem_of_nil]|].
  destruct (IH (Z.min a y)) as [H1 H2]. split; [lia|]. intros x [->|Hx]%elem_of_cons; [lia|by apply H2].
Qed.
Lemma py_min_spec l m : py_min l = inr m → m ∈ l ∧ ∀ x, x ∈ l → m ≤ x.
Proof.
  destruct l as [|a l]; [done|]. simpl. intros [= <-]. split; [apply foldl_min_in|]. destruct (foldl_min_le l a) as [H1 H2].
  intros x [->|Hx]%elem_of_cons; [done|by apply H2].
Qed.

Section agree.
Context (c c' : VllmConfig) (projected : list (list KVCacheGroupSpec)) (avail : list Z) (configs : list KVCacheConfig).
Context (Hov : num_gpu_blocks_override c' = num_gpu_blocks_override c).
Context (Hplans : ∀ i g m k, projected !! i = Some g → avail !! i = Some m → configs !! i = Some k → worker_plan c c' g m k).
Context (Hlen : length avail = length projected ∧ length configs = length projected).
Context (Hsame : ∀ g g', g ∈ projected → g' ∈ projected → (g = [] ↔ g' = []) ∧ need c' g = need c' g').
Context (Hsup : Forall (Forall (group_supported c')) projected).

Lemma plan_of i k : configs !! i = Some k → ∃ g m, projected !! i = Some g ∧ avail !! i = Some m ∧ worker_plan c c' g m k
  ∧ Forall (group_supported c') g ∧ g ∈ projected.
Proof using Hplans Hlen Hsup.
  intros Hk. apply lookup_lt_Some in Hk as Hi. destruct Hlen as [H1 H2].
  destruct (lookup_lt_is_Some_2 projected i) as [g Hg]; [lia|]. destruct (lookup_lt_is_Some_2 avail i) as [m Hm]; [lia|].
  exists g, m. split_and!; [done|done|by eapply Hplans|by eapply Forall_lookup_1 in Hsup|by eapply list_elem_of_lookup_2].
Qed.
(** The smallest number of blocks is enough for every worker. *)
Lemma shrink_agree n i k k' : py_min (num_blocks <$> configs) = inr n → configs !! i = Some k → shrink_config c' n k = inr k' →
  num_blocks k' = n ∧ kv_cache_groups k' = kv_cache_groups k
  ∧ ∃ m, avail !! i = Some m ∧ (kv_cache_groups k' ≠ [] → need c' (kv_cache_groups k') + 1 ≤ n
      ∧ ∃ bpb, _pool_bytes_per_block (kv_cache_groups k') = inr bpb ∧ (num_gpu_blocks_override c = None → bpb * n ≤ m)).
Proof using All.
  intros Hmin Hk Hs. destruct (plan_of i k Hk) as (g & m & Hg & Hm & [Eg Hemp Hblk] & Hsg & Hin).
  apply py_min_spec in Hmin as [Hn Hle]. apply list_elem_of_fmap in Hn as (kj & -> & Hj). apply list_elem_of_lookup in Hj as [j Hj].
  destruct (plan_of j kj Hj) as (gj & mj & Hgj & Hmj & [Egj Hempj Hblkj] & Hsgj & Hinj).
  destruct (Hsame g gj Hin Hinj) as [He Hneed].
  assert (num_blocks kj ≤ num_blocks k) as Hlek by (apply Hle; by eapply list_elem_of_fmap_2, list_elem_of_lookup_2).
  assert (num_blocks k' = num_blocks kj ∧ kv_cache_groups k' = kv_cache_groups k) as [-> ->].
  { unfold shrink_config in Hs. destruct (Z.eqb_spec (num_blocks k) (num_blocks kj)) as [E|E]; [inr_hyps; by subst|]. inr_hyps.
    apply config_from_groups_blocks in H0 as [Hg' Hb']. split; [|done]. rewrite Eg in *. destruct (decide (g = [])) as [Hn|Hn].
    - exfalso. rewrite (Hemp Hn) in E. rewrite (Hempj (proj1 He Hn)) in E. done.
    - destruct Hb' as (bpb & Hb1 & Hb2 & ->). assert (x = bpb) as -> by congruence. rewrite Z.div_mul by lia.
      destruct (Hblk Hn Hsg) as (_ & _ & _ & _ & Ho & _). destruct Hblkj as (_ & _ & _ & _ & Hoj & _); [tauto|done|].
      unfold may_override_num_blocks. rewrite Hov. destruct (num_gpu_blocks_override c); simpl in *; lia. }
  split_and!; [done|done|]. exists m. split; [done|]. rewrite Eg. intros Hn. destruct (Hblk Hn Hsg) as (bpb & Hb1 & Hb2 & _ & _ & Hfit).
  destruct Hblkj as (_ & _ & _ & Hneedj & _); [tauto|done|]. split; [lia|]. exists bpb. split; [done|]. intros Ho. specialize (Hfit Ho). nia.
Qed.
End agree.

(** The state of the search for a length is the given configuration with some length. *)
Lemma auto_fit_state c projected mems u c' :
  config_ok c → Forall (worker_ok c) projected → length mems = length projected → projected ≠ [] →
  when (original_max_model_len c =? -1) (_auto_fit_max_model_len projected mems) c = (inr u, c') →
  ∃ n, c' = set_max_model_len n c ∧ 1 ≤ n ≤ max_model_len c ∧ (original_max_model_len c ≠ -1 → n = max_model_len c).
Proof.
  intros Hc Hok Hl Hne E. pose proof Hc as (_ & _ & ?). destruct (Z.eqb_spec (original_max_model_len c) (-1)) as [Ho|Ho]; simpl in E.
  - destruct (auto_fit_run c projected mems Hc Hok Hl Hne) as (r & Hr & _ & _ & Er). rewrite Er in E.
    destruct (Z.leb_spec r 0); [done|]. injection E as _ <-. exists r. split_and!; [done|lia|lia|done].
  - unfold mret, M_ret in E. injection E as _ <-. exists (max_model_len c). rewrite set_max_model_len_id. split_and!; (done || lia).
Qed.

Lemma mapM_zip {A B C} (f : A → B → exn + C) (l : list A) (l' : list B) r :
  mapM (λ '(x, y), f x y) (zip l l') = inr r → length l' = length l →
  length r = length l ∧ ∀ i x y, l !! i = Some x → l' !! i = Some y → ∃ z, r !! i = Some z ∧ f x y = inr z.
Proof.
  intros H%mapM_inr Hl. split; [apply Forall2_length in H; rewrite length_zip in H; lia|].
  intros i x y Hx Hy. assert (zip l l' !! i = Some (x, y)) as Hz by (apply lookup_zip_with_Some; by exists x, y).
  by destruct (Forall2_lookup_l _ _ _ _ _ H Hz) as (z & ? & ?); exists z.
Qed.
Lemma pool_pos g bpb : _pool_bytes_per_block g = inr bpb → 0 < bpb.
Proof. unfold _pool_bytes_per_block, _get_kv_cache_bytes_per_block. intros E. inr_hyps. bool_hyps. subst. lia. Qed.
Lemma shrink_groups c n k k' : shrink_config c n k = inr k' → kv_cache_groups k' = kv_cache_groups k.
Proof.
  unfold shrink_config. case_match; intros E; inr_hyps; [by subst|]. by apply config_from_groups_blocks in H1 as [-> _].
Qed.

(** The layers of all workers are merged by name. *)
Lemma merge_worker_keys w merged merged' : merge_worker merged w = inr merged' → NoDup merged.*1 → NoDup merged'.*1.
Proof.
  revert merged. induction w as [|[n s] w IH]; intros merged E Hnd; simpl in E; [inr_hyps; by subst|].
  destruct (od_get merged n) as [s'|] eqn:Eg; [inr_hyps; by eapply IH|]. eapply IH; [exact E|]. rewrite fmap_app. apply NoDup_app.
  split_and!; [done| |apply NoDup_singleton]. intros x Hx ->%list_elem_of_singleton. by apply od_get_None in Eg.
Qed.
Lemma merge_workers_keys ws merged merged' : merge_workers merged ws = inr merged' → NoDup merged.*1 → NoDup merged'.*1.
Proof.
  revert merged. induction ws as [|w ws IH]; intros merged E Hnd; simpl in E; inr_hyps; [by subst|].
  eapply IH; [done|]. by eapply merge_worker_keys.
Qed.

(** What a successful run has computed for each worker. *)
Record worker_run (c c' : VllmConfig) (usable : list Z) (i : nat) (g : list KVCacheGroupSpec) (m : Z) (k : KVCacheConfig) : Prop := {
  wr_memory : ∃ mem u,
    match num_gpu_blocks_override c with None => mem = m | Some _ => overridden_memory c g m = inr mem end
    ∧ usable_memory g mem = inr u ∧ get_kv_cache_config_from_groups c' g mem = inr k ∧ usable !! i = Some u;
  wr_check : ∀ u, usable !! i = Some u → g ≠ [] → ∃ n, _max_memory_usage_bytes_from_groups c' g = inr n ∧ n ≤ u;
}.
Lemma get_configs_run c ws avail configs c' : length avail = length ws → get_kv_cache_configs ws avail c = (inr configs, c') →
  ∃ groups projected usable configs0 nb,
    Forall group_inv groups ∧ NoDup (concat (layer_names <$> groups))
    ∧ (∀ i g w, projected !! i = Some g → ws !! i = Some w → sum_Z ((λ g, zlen (layer_names g)) <$> g) = zlen w)
    ∧ Forall2 (λ w g, _project_kv_cache_groups_to_worker groups w = inr g) ws projected
    ∧ length usable = length projected ∧ (∃ u, when (original_max_model_len c =? -1) (_auto_fit_max_model_len projected usable) c = (inr u, c'))
    ∧ length configs0 = length projected ∧ py_min (num_blocks <$> configs0) = inr nb
    ∧ Forall2 (λ k k', shrink_config c' nb k = inr k') configs0 configs
    ∧ ∀ i g m k, projected !! i = Some g → avail !! i = Some m → configs0 !! i = Some k → worker_run c c' usable i g m k.
Proof.
  intros Hla E. unfold get_kv_cache_configs in E.
  apply lift_bind_inr in E as (merged & Hmerged & E). apply lift_bind_inr in E as (_ & _ & E).
  apply run_bind_inr in E as (c0 & c1 & [= <- <-] & E).
  apply lift_bind_inr in E as (specs & Hspecs & E). apply lift_bind_inr in E as (groups & Hgroups & E).
  apply lift_bind_inr in E as (projected & Hproj%mapM_inr & E). apply lift_bind_inr in E as (memory & Hmem & E).
  apply lift_bind_inr in E as (usable & Husable & E). apply run_bind_inr in E as (u & c1 & Hfit & E).
  apply run_bind_inr in E as (u' & c2 & Hchk & E). apply check_workers_inr in Hchk as [-> Hchk].
  apply run_bind_inr in E as (c2 & c3 & [= <- <-] & E). apply lift_bind_inr in E as (configs0 & Hconf & E).
  apply lift_bind_inr in E as (nb & Hmin & E). unfold lift_result in E. injection E as Hshrink%mapM_inr <-.
  destruct (retain_extra_extras _ _ _ Hspecs) as [e He]. destruct (get_groups_spec _ _ _ e Hgroups) as (_ & Hsub & Hinv).
  assert (NoDup (concat (layer_names <$> groups))) as Hnd.
  { apply submseteq_Permutation in Hsub as [dropped Hd]. apply mapM_keys in Hspecs as [Ek _].
    assert (NoDup specs.*1) as Hnd by (rewrite Ek; eapply merge_workers_keys; [exact Hmerged|constructor]).
    rewrite Hd in Hnd. by apply NoDup_app in Hnd as [? _]. }
  pose proof (Forall2_length _ _ _ Hproj) as Hlp.
  assert (length memory = length projected ∧ ∀ i g m, projected !! i = Some g → avail !! i = Some m → ∃ mem, memory !! i = Some mem
    ∧ match num_gpu_blocks_override c with None => mem = m | Some _ => overridden_memory c g m = inr mem end) as [Hlm Hmem'].
  { destruct (num_gpu_blocks_override c); [apply mapM_zip; [done|lia]|]. injection Hmem as <-. split; [lia|]. intros i g m _ Hm. by exists m. }
  apply mapM_zip in Husable as [Hlu Husable]; [|done].
  apply (mapM_zip (λ e m, worker_config c1 (e, m))) in Hconf as [Hlc Hconf]; [|rewrite length_zip; lia].
  rewrite length_zip in Hlc. exists groups, projected, usable, configs0, nb. split_and!; try done; [by apply Hinv| |by exists u|lia|].
  { intros i g w Hg Hw. apply lookup_lt_Some in Hg as Hlt. destruct (lookup_lt_is_Some_2 memory i) as [mem Hi]; [lia|].
    destruct (Hconf i (g, w) mem) as (k1 & _ & Ek); [apply lookup_zip_with_Some; by exists g, w|done|]. simpl in Ek. inr_hyps. bool_hyps. done. }
  intros i g m k Hg Hm Hk. destruct (Hmem' i g m Hg Hm) as (mem & Hi & Hov). destruct (Husable i g mem Hg Hi) as (x & Hx & Hux).
  apply lookup_lt_Some in Hg as Hlt. destruct (lookup_lt_is_Some_2 ws i) as [w Hw]; [lia|].
  destruct (Hconf i (g, w) mem) as (k1 & Hk1 & Ek); [apply lookup_zip_with_Some; by exists g, w|done|]. assert (k1 = k) as -> by congruence.
  split; [exists mem, x; simpl in Ek; inr_hyps; done|]. intros y Hy Hne. apply (Hchk g y); [|done].
  apply list_elem_of_lookup_2 with i. apply lookup_zip_with_Some. by exists g, y.
Qed.

(** The groups of a worker have its layers of the groups of the model. *)
Lemma project_names groups w groups' : _project_kv_cache_groups_to_worker groups w = inr groups' →
  concat (layer_names <$> groups') = filter (λ n, n ∈ w.*1) (concat (layer_names <$> groups)).
Proof.
  intros H%mapM_inr. induction H as [|g g' l l' E _ IH]; [done|]. rewrite !fmap_cons. cbn [concat]. rewrite filter_app, IH. f_equal.
  cbv zeta in E. inr_hyps. by subst.
Qed.
Lemma project_dictionary groups w groups' : Forall group_inv groups → _project_kv_cache_groups_to_worker groups w = inr groups' →
  ∀ g b d, g ∈ groups' → group_spec g = UniformTypeKVCacheSpecs b d → layer_names g ≠ [] → d.*1 = layer_names g ∧ same_pages d.*2.
Proof.
  intros Hi H%mapM_inr g' b d [j Hj]%list_elem_of_lookup Hd Hne. destruct (Forall2_lookup_r _ _ _ _ _ H Hj) as (g & Hg & E).
  assert (group_inv g) as Hgi by (by eapply Forall_lookup in Hg). cbv zeta in E. inr_hyps. subst g'. simpl in *. unfold group_inv in Hgi.
  destruct (group_spec g) as [s|b0 specs]; [inr_hyps; by subst|]. rewrite bool_decide_eq_false_2 in H0 by done. inr_hyps. simplify_eq.
  match goal with H : mapM _ _ = inr d |- _ => destruct (sub_specs specs _ d 0 H) as (Ho1 & Ho2 & _) end. split; [done|].
  destruct Hgi as (_ & _ & Hsp). intros c s s' (x & -> & Hx)%list_elem_of_fmap (y & -> & Hy)%list_elem_of_fmap.
  apply Hsp; by apply list_elem_of_fmap_2, Ho2.
Qed.
Lemma sum_zlen_concat {A} (ls : list (list A)) : sum_Z (zlen <$> ls) = zlen (concat ls).
Proof. induction ls as [|l ls IH]; [done|]. rewrite fmap_cons, sum_Z_cons. cbn [concat]. rewrite zlen_app. lia. Qed.

(** C14: When the configuration of all workers succeeds, the groups of every worker contain each of
    its layers exactly once, on every path of the grouping: a layer the grouping drops (one that is
    neither MLA nor sliding-window MLA among layers of several page sizes) makes it fail.  The
    layers of a group that keeps one spec per layer are, if it has any, exactly the keys of its
    dictionary and need the same number of blocks in every configuration, so that one block table
    serves them. *)
Theorem every_layer_in_one_group c ws avail configs c' :
  length avail = length ws → get_kv_cache_configs ws avail c = (inr configs, c') →
  length configs = length ws ∧ ∀ i w k, ws !! i = Some w → configs !! i = Some k →
    concat (layer_names <$> kv_cache_groups k) ≡ₚ w.*1 ∧ NoDup (concat (layer_names <$> kv_cache_groups k))
    ∧ ∀ g b d, g ∈ kv_cache_groups k → group_spec g = UniformTypeKVCacheSpecs b d → layer_names g ≠ [] →
        d.*1 = layer_names g ∧ ∀ c'' s s', s ∈ d.*2 → s' ∈ d.*2 → max_pages c'' s = max_pages c'' s'.
Proof.
  intros Hla E. destruct (get_configs_run c ws avail configs c' Hla E)
    as (groups & projected & usable & configs0 & nb & Hinv & Hnd & Hsum & Hproj & _ & _ & Hlc & _ & Hshrink & Hrun).
  pose proof (Forall2_length _ _ _ Hproj). pose proof (Forall2_length _ _ _ Hshrink). split; [lia|]. intros i w k' Hw Hk'.
  destruct (Forall2_lookup_r _ _ _ _ _ Hshrink Hk') as (k & Hk & ->%shrink_groups).
  destruct (Forall2_lookup_l _ _ _ _ _ Hproj Hw) as (g & Hg & Ep). apply lookup_lt_Some in Hg as Hlt.
  destruct (lookup_lt_is_Some_2 avail i) as [m Hm]; [lia|].
  destruct (wr_memory _ _ _ _ _ _ _ (Hrun i g m k Hg Hm Hk)) as (mem & x & _ & _ & [-> _]%config_from_groups_blocks & _).
  assert (NoDup (concat (layer_names <$> g))) as Hndg by (rewrite (project_names _ _ _ Ep); by apply NoDup_filter).
  split_and!; [|done|by eapply project_dictionary].
  apply submseteq_length_Permutation; [apply NoDup_submseteq; [done|]|].
  - intros n. rewrite (project_names _ _ _ Ep). by intros [? _]%list_elem_of_filter.
  - specialize (Hsum i g w Hg Hw). change (λ g, zlen (layer_names g)) with (zlen ∘ layer_names) in Hsum.
    rewrite list_fmap_compose, sum_zlen_concat in Hsum. unfold zlen in Hsum. rewrite length_fmap. lia.
Qed.

(** A configuration that succeeds, for all workers. *)
Lemma configs_sized c ws avail configs c' :
  config_ok c → length avail = length ws → get_kv_cache_configs ws avail c = (inr configs, c') →
  Forall (λ k, Forall (group_supported c) (kv_cache_groups k)) configs →
  length configs = length ws
  ∧ (∃ n, c' = set_max_model_len n c ∧ 1 ≤ n ≤ max_model_len c ∧ (original_max_model_len c ≠ -1 → n = max_model_len c))
  ∧ ∃ nb, ∀ i k, configs !! i = Some k → num_blocks k = nb
    ∧ ∃ m, avail !! i = Some m ∧ (kv_cache_groups k ≠ [] → need c' (kv_cache_groups k) + 1 ≤ nb
        ∧ ∃ bpb, _pool_bytes_per_block (kv_cache_groups k) = inr bpb ∧ (num_gpu_blocks_override c = None → bpb * nb ≤ m)).
Proof.
  intros Hc Hla E Hsup. destruct (get_configs_run c ws avail configs c' Hla E)
    as (groups & projected & usable & configs0 & nb & Hinv & _ & _ & Hproj & Hlu & [u Hfit] & Hlc & Hmin & Hshrink & Hrun).
  pose proof (Forall2_length _ _ _ Hproj) as Hlp. pose proof (Forall2_length _ _ _ Hshrink) as Hls.
  assert (∀ i g, projected !! i = Some g → ∃ m k, avail !! i = Some m ∧ configs0 !! i = Some k ∧ kv_cache_groups k = g
    ∧ worker_run c c' usable i g m k) as Hworker.
  { intros i g Hg. apply lookup_lt_Some in Hg as Hlt. destruct (lookup_lt_is_Some_2 avail i) as [m Hm]; [lia|].
    destruct (lookup_lt_is_Some_2 configs0 i) as [k Hk]; [lia|]. pose proof (Hrun i g m k Hg Hm Hk) as Hr. exists m, k.
    split_and!; try done. destruct (wr_memory _ _ _ _ _ _ _ Hr) as (mem & x & _ & _ & Hk' & _). by apply config_from_groups_blocks in Hk' as [-> _]. }
  assert (Forall (Forall (group_supported c)) projected) as Hsup'.
  { apply Forall_lookup. intros i g Hg. destruct (Hworker i g Hg) as (m & k & _ & Hk & <- & _).
    destruct (Forall2_lookup_l _ _ _ _ _ Hshrink Hk) as (k' & Hk' & ->%shrink_groups%eq_sym). by eapply Forall_lookup_1 in Hsup. }
  assert (Forall (worker_ok c) projected) as Hok.
  { apply Forall_lookup. intros i g Hg. destruct (decide (g = [])) as [->|Hne]; [by left|]. right. split; [by eapply Forall_lookup_1 in Hsup'|].
    destruct (Hworker i g Hg) as (m & k & _ & _ & _ & [(mem & x & _ & Hu & _) _]). unfold usable_memory in Hu.
    rewrite bool_decide_eq_false_2 in Hu by done. inr_hyps. eexists. split; [done|by eapply pool_pos]. }
  destruct (auto_fit_state c projected usable u c' Hc Hok Hlu) as (n & Hn); [|done|].
  { intros ->. by destruct configs0. }
  split; [lia|]. split; [by exists n|]. destruct Hn as [-> _]. exists nb. intros i k' Hk'.
  destruct (Forall2_lookup_r _ _ _ _ _ Hshrink Hk') as (k & Hk & Es).
  destruct (shrink_agree c (set_max_model_len n c) projected avail configs0 eq_refl) with nb i k k' as (H1 & H2 & H3); try done.
  - intros j g m kj Hg Hm Hkj. destruct (Hrun j g m kj Hg Hm Hkj) as [(mem & x & Hov & Hu & Hcfg & Hx) Hchk].
    eapply plan_worker; [exact Hov|exact Hu| |exact Hcfg]. by apply Hchk.
  - lia.
  - intros g g' [j Hj]%list_elem_of_lookup [j' Hj']%list_elem_of_lookup.
    destruct (Forall2_lookup_r _ _ _ _ _ Hproj Hj) as (w & _ & Hw%project_same_need); [|done].
    destruct (Forall2_lookup_r _ _ _ _ _ Hproj Hj') as (w' & _ & Hw'%project_same_need); [|done].
    rewrite (same_need_sum _ _ _ Hw), (same_need_sum _ _ _ Hw'). split; [|done].
    apply Forall2_length in Hw, Hw'. rewrite <-!length_zero_iff_nil. lia.
Qed.

(** C12: When the configuration of all workers succeeds, only the model length can have changed, and
    only downwards and only if it was left open; all workers have the same number of blocks, these
    fit the memory of each worker unless the number was overridden, and beside the null block there
    is room on every worker for one request of the final model length. *)
Theorem longest_request_fits c ws avail configs c' :
  config_ok c → length avail = length ws → get_kv_cache_configs ws avail c = (inr configs, c') →
  Forall (λ k, Forall (group_supported c) (kv_cache_groups k)) configs →
  length configs = length ws
  ∧ (∃ n, c' = set_max_model_len n c ∧ 1 ≤ n ≤ max_model_len c ∧ (original_max_model_len c ≠ -1 → n = max_model_len c))
  ∧ ∃ nb, ∀ i k, configs !! i = Some k → num_blocks k = nb
    ∧ ∃ m, avail !! i = Some m ∧ (kv_cache_groups k ≠ [] → need c' (kv_cache_groups k) + 1 ≤ nb
        ∧ ∃ bpb, _pool_bytes_per_block (kv_cache_groups k) = inr bpb ∧ (num_gpu_blocks_override c = None → bpb * nb ≤ m)).
Proof. apply configs_sized. Qed.

(** ** The layout *)

Lemma choose_layout_spec supported specs requested connector layout :
  choose_layout supported specs requested connector = inr layout →
  (∀ l, l ∈ supported → layout ∈ l) ∧ (is_block_compact layout = true ∨ mixed_shapes specs = inr false)
  ∧ (∀ r, requested = Some r → layout = r).
Proof.
  intros E. unfold choose_layout in E. inr_hyps. rename x into first, x2 into mixed, x3 into candidates.
  assert (layout ∈ candidates ∧ ∀ r, requested = Some r → layout = r) as [Hin Hr].
  { destruct requested as [r|]; [case_bool_decide; [|done]; inr_hyps; subst; split; [done|congruence]|]. split; [|done].
    destruct connector as [l|]; [case_bool_decide; [inr_hyps; by subst|]|]; inr_hyps; by apply head_Some_elem_of. }
  assert (candidates ⊆ first ∧ (is_block_compact layout = true ∨ mixed = false)) as [Hsub Hcomp].
  { destruct mixed; [|inr_hyps; subst; by split; [|right]]. cbv zeta in *. case_bool_decide; [done|]. inr_hyps. subst candidates.
    split; [intros m [_ Hm]%list_elem_of_filter; done|]. left. apply list_elem_of_filter in Hin as [Hb _]. by apply Is_true_true in Hb. }
  split_and!; [|destruct Hcomp as [?| ->]; [by left|by right]|done].
  intros l Hl. match goal with H : forallb (λ l, bool_decide (l = first)) supported = true |- _ => rewrite forallb_forall in H;
    apply list_elem_of_In, H, bool_decide_eq_true in Hl as -> end. by apply Hsub.
Qed.

(** A layout that is chosen for a model is recorded and nothing else changes; every worker
    supports it; it keeps the blocks of a layer compact unless all layers have the same shape; a
    requested layout is the chosen one, or the choice raises and changes nothing. *)
Theorem resolved_layout_sound c supported specs requested connector r c' :
  kv_cache_layout c = None → resolve_kv_cache_layout supported specs requested connector c = (r, c') →
  match r with
  | inl _ => c' = c
  | inr layout => c' = set_kv_cache_layout (Some layout) c ∧ (∀ l, l ∈ supported → layout ∈ l)
      ∧ (is_block_compact layout = true ∨ mixed_shapes specs = inr false) ∧ (∀ l, requested = Some l → layout = l)
  end.
Proof.
  intros Hc E. unfold resolve_kv_cache_layout, get, mbind, M_bind, lift_result in E. rewrite Hc in E.
  destruct (choose_layout _ _ _ _) as [e|layout] eqn:El; injection E as <- <-; [done|]. split; [done|by apply (choose_layout_spec _ _ _ connector)].
Qed.
