(* ===== verification/CacheWitness.v ===== *)
(** Concrete models at which the theorems about the cache configuration apply, and what the code
    does with layers it does not expect. *)

From S2P Require Import Prelude MathUtils OrderedDict LayerSpec CacheConfig LayoutFacts PlacementFacts PlacementTheorems CacheMemory GroupingFacts CacheConfigTheorems.

Set Warnings "-level-tolerance,-clear-no-such-hyp".

Definition bf16 : dtype := {| dtype_name := "bf16"; element_size := 2 |}.
Definition attn (bs heads size : Z) : AttentionSpec := mkAttention bs heads size bf16 size QUANT_NONE None None None (1, 1).
Definition full_layer (bs heads size : Z) : KVCacheSpec := Attention (attn bs heads size) (FullAttention (mkFull None None false)).
Definition swa_layer (bs heads size w : Z) : KVCacheSpec := Attention (attn bs heads size) (SlidingWindow w 0).
Definition latent (bs size : Z) : AttentionSpec := mkAttention bs 1 size bf16 0 QUANT_NONE None None None (1, 1).
Definition v4 : MLAFields := mkMLA None None (Some "deepseek_v4"%string).
Definition mla_layer (bs size : Z) : KVCacheSpec := Attention (latent bs size) (MLAAttention (mkFull None None false) v4 false).
Definition swmla_layer (bs size w : Z) : KVCacheSpec := Attention (latent bs size) (SlidingWindowMLA w 0 v4).

Definition config (len original : Z) (layout : KVCacheLayout) : VllmConfig :=
  mkConfig len original 1 64 MambaNone 0 None (Some layout) false None None.

(** Two full layers and three with a window, on two pipeline stages. *)
Definition hybrid : layer_specs :=
  [("f0", full_layer 16 2 4); ("s0", swa_layer 16 2 4 32); ("s1", swa_layer 16 2 4 32);
   ("f1", full_layer 16 2 4); ("s2", swa_layer 16 2 4 32)]%string.
Definition hybrid_groups : list KVCacheGroupSpec :=
  [mkGroup ["f0"; "f1"]%string (OneSpec (full_layer 16 2 4)) false;
   mkGroup ["s0"; "s2"]%string (OneSpec (swa_layer 16 2 4 32)) false;
   mkGroup ["s1"]%string (OneSpec (swa_layer 16 2 4 32)) false].
Lemma hybrid_run : get_kv_cache_groups (config 100 100 BLHNC) hybrid = inr hybrid_groups.
Proof. vm_compute. reflexivity. Qed.

Ltac spec_ok_tac := split; [reflexivity|vm_compute; split_and!; reflexivity|reflexivity|reflexivity].
Lemma full_layer_ok : well_formed (full_layer 16 2 4).
Proof. spec_ok_tac. Qed.
Lemma swa_layer_ok : well_formed (swa_layer 16 2 4 32).
Proof. spec_ok_tac. Qed.
Lemma hybrid_groups_ok : Forall group_ok hybrid_groups.
Proof.
  repeat constructor; simpl; try apply full_layer_ok; try apply swa_layer_ok; try done; apply (bool_decide_unpack _); vm_compute; done.
Qed.

Definition hybrid_config : KVCacheConfig :=
  match get_kv_cache_config_from_groups (config 100 100 LBHNC) hybrid_groups 40000 with
  | inr k => k
  | inl _ => mkKVConfig 0 [] [] None
  end.
Lemma hybrid_kernel_sizes (Q : KVCacheSpec → option Z → Prop) :
  Q (full_layer 16 2 4) (Some 8) → Q (swa_layer 16 2 4 32) (Some 16) → Q (swa_layer 16 2 4 32) (Some 16) →
  kernel_sizes Q hybrid_groups (Some [8; 16; 16]).
Proof.
  intros H1 H2 H3 i g n s Hi _ Hs. pose proof (lookup_lt_Some _ _ _ Hi) as Hlt. simpl in Hlt.
  destruct i as [|[|[|i]]]; [..|lia]; simplify_eq/=; unfold spec_of, _get_per_layer_spec in Hs; simpl in Hs; inr_hyps; by subst.
Qed.

(** A model length left open, with eight blocks of 1024 bytes. *)
Lemma hybrid_supported c : decode_context_parallel_size c = 1 → Forall (group_supported c) hybrid_groups.
Proof.
  intros Hc. repeat constructor; simpl; try done; try apply full_layer_ok; try apply swa_layer_ok.
Qed.
Lemma fit_run_witness : ∃ n, _auto_fit_max_model_len [hybrid_groups] [8192] (config 100 (-1) BLHNC) = (inr tt, set_max_model_len n (config 100 (-1) BLHNC)) ∧ 1 ≤ n ≤ 100.
Proof.
  destruct (auto_fit_longest (config 100 (-1) BLHNC) [hybrid_groups] [8192]) as [H _].
  - vm_compute. split_and!; discriminate.
  - constructor; [|constructor]. right. split; [by apply hybrid_supported|]. exists 1024. split; reflexivity.
  - reflexivity.
  - done.
  - destruct H as (u & c' & E & n & -> & Hn & _).
    + constructor; [|constructor]. right. exists 1024. split; [reflexivity|]. vm_compute. discriminate.
    + exists n. destruct u. split; [exact E|exact Hn].
Defined.

(** The hybrid model on two stages with different memory. *)
Definition two_stages : list layer_specs := [take 2 hybrid; drop 2 hybrid].
Definition staged : (exn + list KVCacheConfig) * VllmConfig := get_kv_cache_configs two_stages [40000; 30000] (config 100 (-1) BLHNC).
Definition staged_configs : list KVCacheConfig := match staged.1 with inr l => l | inl _ => [] end.
Definition first_stage : KVCacheConfig := default (mkKVConfig 0 [] [] None) (head staged_configs).
Lemma every_layer_witness : staged_configs !! 0%nat = Some first_stage
  ∧ concat (layer_names <$> kv_cache_groups first_stage) ≡ₚ ["f0"; "s0"]%string.
Proof.
  assert (staged_configs !! 0%nat = Some first_stage) as Hk by (vm_compute; reflexivity). split; [exact Hk|].
  destruct (every_layer_in_one_group (config 100 (-1) BLHNC) two_stages [40000; 30000] staged_configs staged.2) as [_ H].
  - reflexivity.
  - vm_compute. reflexivity.
  - exact (proj1 (H 0%nat (take 2 hybrid) first_stage eq_refl Hk)).
Defined.
Lemma staged_supported : Forall (λ k, Forall (group_supported (config 100 (-1) BLHNC)) (kv_cache_groups k)) staged_configs.
Proof.
  apply (Forall_fmap kv_cache_groups (Forall (group_supported (config 100 (-1) BLHNC)))).
  assert (kv_cache_groups <$> staged_configs =
    [[mkGroup ["f0"]%string (OneSpec (full_layer 16 2 4)) false; mkGroup ["s0"]%string (OneSpec (swa_layer 16 2 4 32)) false;
      mkGroup [] (OneSpec (swa_layer 16 2 4 32)) false];
     [mkGroup ["f1"]%string (OneSpec (full_layer 16 2 4)) false; mkGroup ["s2"]%string (OneSpec (swa_layer 16 2 4 32)) false;
      mkGroup ["s1"]%string (OneSpec (swa_layer 16 2 4 32)) false]]) as -> by (vm_compute; reflexivity).
  repeat constructor; try done; simpl; try apply full_layer_ok; try apply swa_layer_ok.
Qed.
Lemma longest_request_witness : num_blocks <$> staged_configs = [58; 58]
  ∧ ∃ nb, ∀ i k, staged_configs !! i = Some k → num_blocks k = nb
    ∧ ∃ m, [40000; 30000] !! i = Some m ∧ (kv_cache_groups k ≠ [] → need staged.2 (kv_cache_groups k) + 1 ≤ nb).
Proof.
  split; [vm_compute; reflexivity|].
  destruct (longest_request_fits (config 100 (-1) BLHNC) two_stages [40000; 30000] staged_configs staged.2) as (_ & _ & nb & H).
  - vm_compute. split_and!; discriminate.
  - reflexivity.
  - vm_compute. reflexivity.
  - apply staged_supported.
  - exists nb. intros i k Hk. destruct (H i k Hk) as (H1 & m & H2 & H3). split; [exact H1|]. exists m. split; [exact H2|].
    intros Hne. exact (proj1 (H3 Hne)).
Defined.

(** ** Layers the code does not expect *)

(** Two latent layers and two with a window, split over two stages: the second group with a window
    has no layer on the first stage. *)
Definition latent_stages : list layer_specs :=
  [[("m0", mla_layer 16 8); ("a0", swmla_layer 16 4 32)]; [("a1", swmla_layer 16 4 32); ("m1", mla_layer 16 12)]]%string.
Definition latent_configs : (exn + list KVCacheConfig) * VllmConfig :=
  get_kv_cache_configs latent_stages [40000; 40000] (config 100 100 BLHNC).

(** A pipeline stage with no layer of a group that keeps one spec per layer still keeps the
    group's dictionary of all stages: the configuration succeeds and plans memory for the layers of
    the other stage, and the allocation of the stage raises [StopIteration]. *)
Theorem foreign_layers_planned : ∃ k k', latent_configs.1 = inr [k; k']
  ∧ (layer_names <$> kv_cache_groups k = [["m0"]; ["a0"]; []] ∧ "a1" ∈ concat (tensor_layers <$> kv_cache_tensors k))%string
  ∧ allocate_kv_cache k BLHNC None = inl StopIteration.
Proof.
  eexists _, _. split; [vm_compute; reflexivity|]. split; [split; [reflexivity|]|vm_compute; reflexivity].
  apply (bool_decide_unpack _). vm_compute. done.
Qed.

(** A latent, a sliding-window latent and a full attention layer with several page sizes: the
    grouping returns without the full attention layer.  The configuration of the workers notices,
    with an [AssertionError] about the number of layers. *)
Definition mixed_layers : layer_specs :=
  [("m0", mla_layer 16 8); ("a0", swmla_layer 16 4 32); ("f0", full_layer 16 2 4)]%string.
Theorem grouping_drops_layer :
  (∃ groups, get_kv_cache_groups (config 100 100 BLHNC) mixed_layers = inr groups
     ∧ layer_names <$> groups = [["m0"]; ["a0"]])%string
  ∧ (get_kv_cache_configs [mixed_layers] [40000] (config 100 100 BLHNC)).1 = inl AssertionError.
Proof. split; [eexists; split; vm_compute; reflexivity|vm_compute; reflexivity]. Qed.

(** One full attention layer with two heads, whose blocks of 16 tokens are cut into kernel blocks of
    eight.  Its pages are dense in both layouts.  With the layers outside the heads the views are
    made, and with the heads outside the layers the stride of the heads is still that of a whole
    block, and the view does not fit the allocation. *)
Definition one_layer_config (layout : KVCacheLayout) : exn + KVCacheConfig :=
  get_kv_cache_config_from_groups (config 100 100 layout) [mkGroup ["f0"]%string (OneSpec (full_layer 16 2 4)) false] 40000.
Theorem split_heads_misplaced :
  (∃ views, (k ← one_layer_config BLHNC; allocate_kv_cache k BLHNC (Some [8])) = inr views
     ∧ (λ e : string * KVCacheView, view_strides e.2) <$> views = [[256; 128; 16; 1]])
  ∧ (k ← one_layer_config BHLNC; allocate_kv_cache k BHLNC (Some [8])) = inl RuntimeError.
Proof. split; [eexists; split; vm_compute; reflexivity|vm_compute; reflexivity]. Qed.

(** Sliding-window latent layers of different sizes are merged. *)
Lemma sliding_mla_sizes_merged : merge [swmla_layer 16 4 32; swmla_layer 32 8 32] = inr (swmla_layer 16 4 32)
  ∧ page_size_bytes (swmla_layer 16 4 32) ≠ page_size_bytes (swmla_layer 32 8 32).
Proof. split; [vm_compute; reflexivity|]. vm_compute. discriminate. Qed.
(** Two window sizes make the uniformity test raise. *)
Lemma two_windows_raise :
  let windowed w := Attention (attn 16 2 4) (FullAttention (mkFull (Some w) None false)) in
  is_kv_cache_spec_uniform [("a", windowed 32); ("b", windowed 64)]%string = inl ValueError.
Proof. vm_compute. reflexivity. Qed.

(** Layers of two shapes need compact blocks. *)
Lemma resolved_layout_witness : LBHNC ∈ [LHBNC; LBHNC; BLHNC] ∧ is_block_compact LBHNC = true.
Proof.
  destruct (resolved_layout_sound (mkConfig 100 100 1 64 MambaNone 0 None None false None None) [[LHBNC; LBHNC; BLHNC]]
    [full_layer 16 2 4; full_layer 16 4 4] None None (inr LBHNC) (config 100 100 LBHNC)) as (_ & H1 & _ & _).
  - reflexivity.
  - vm_compute. reflexivity.
  - split; [apply H1; left|reflexivity].
Defined.
