(* ===== verification/StartupTheorems.v ===== *)
(** The cache that start-up sized, at run time: a new KV cache manager on it lets every request
    up to the model length pass its admission check. *)

From S2P Require Import Prelude MathUtils OrderedDict Request BlockHash FreeQueue BlockPool BlockPoolTheorems Managers ManagerFacts AllocationFacts.
From S2P Require Import Coordinator CoordinatorFacts CoordinatorTheorems KVCacheManager KVCacheFacts KVCacheSteps.
From S2P Require Import LayerSpec CacheConfig LayoutFacts PlacementFacts CacheMemory GroupingFacts CacheConfigTheorems CacheWitness.

Set Warnings "-level-tolerance,-clear-no-such-hyp".

(** ** The managers of a configuration *)

(** The manager of a spec, with the attributes it reads ([get_manager_class] for the built-in
    specs); encoder-only layers have none. *)
Definition manager_spec (s : LayerSpec.KVCacheSpec) : option Managers.KVCacheSpec :=
  kind ← match s with
         | Attention _ k =>
             match k with
             | FullAttention _ | MLAAttention _ _ _ | HiddenStateCache _ _ _ => Some FullAttentionSpec
             | RSWA _ w => Some (RSWASpec w)
             | SinkFullAttention _ l => SinkFullAttentionSpec <$> l
             | ChunkedLocalAttention n => Some (ChunkedLocalAttentionSpec n)
             | SlidingWindow w e | SlidingWindowMLA w e _ => Some (SlidingWindowSpec w e)
             | EncoderOnlyAttention => None
             | CrossAttention => Some CrossAttentionSpec
             end
         | Mamba m => Some (Managers.MambaSpec (bool_decide (m_cache_mode m = MambaAlign)) (LayerSpec.num_speculative_blocks m)
                              (num_prefill_checkpoint_blocks m))
         end;
  Some {| Managers.spec_block_size := LayerSpec.spec_block_size s; spec_kind := kind |}.
(** The scheduler's configuration, as its managers read it. *)
Record scheduler_view (k : CacheConfig.KVCacheConfig) (cfg : Coordinator.KVCacheConfig) : Prop := {
  sv_blocks : Coordinator.num_blocks cfg = CacheConfig.num_blocks k;
  sv_groups : Forall2 (λ g g', ∃ s, CacheConfig.group_spec g = OneSpec s ∧ manager_spec s = Some (Coordinator.group_spec g')
                                ∧ Coordinator.is_eagle_group g' = CacheConfig.is_eagle_group g)
                (CacheConfig.kv_cache_groups k) (Coordinator.kv_cache_groups cfg);
}.

(** The blocks a manager wants for a request that has none. *)
Definition wanted (m : Manager) (n : Z) : Z :=
  let r := match _max_admission_blocks_per_request m with
           | Some cap => Z.min (cdiv n (block_size m)) cap
           | None => cdiv n (block_size m)
           end in
  Z.max (r - Z.max (get_num_skipped_tokens (mgr_kind m) 0 / block_size m) 0) 0.
Lemma wanted_run p m id n main : fresh_mgr m → is_attention (mgr_kind m) = true →
  get_num_blocks_to_allocate id n [] 0 0 main true (Managers.mkGroup p m) = (inr (wanted m n), Managers.mkGroup p m).
Proof.
  intros (_ & Et & En & _) Ha. unfold get_num_blocks_to_allocate, self, gets, mbind, M_bind. simpl.
  assert (∀ A (a b : A), match mgr_kind m with Managers.MambaSpec _ _ _ => a | _ => b end = b) as ->
    by (intros; by destruct (mgr_kind m)).
  unfold base_get_num_blocks_to_allocate, self, gets, mbind, M_bind. simpl. rewrite Et, En, !lookup_empty. simpl.
  rewrite drop_nil. unfold wanted, _has_partial_local_hit. unfold on_pool, zoom. simpl. unfold mret, M_ret. by rewrite Z.add_0_r.
Qed.

(** ** What start-up reserved *)

(** A manager wants no more than start-up counted for its group. *)
Lemma wanted_pages c s ms n i caching sbs e z : manager_spec s = Some ms → CacheMemory.supported c s →
  is_attention (spec_kind ms) = true → decode_context_parallel_size c = 1 → 0 ≤ n ≤ max_model_len c → 0 ≤ max_in_flight_tokens c →
  kind_ok (spec_kind ms) →
  wanted (set_use_eagle e (new_manager ms (max_in_flight_tokens c) (max_model_len c) caching i sbs 1 z)) n ≤ pages c s.
Proof.
  intros Hms Hs Ha Hd Hn Hf Hk. pose proof (so_block _ _ (proj1 Hs)) as Hb. unfold wanted, pages. simpl.
  assert (cdiv n (LayerSpec.spec_block_size s) ≤ cdiv (max_model_len c) (LayerSpec.spec_block_size s)) as Hm by (apply cdiv_mono; lia).
  assert (∀ x, 0 ≤ x → 0 ≤ cdiv x (LayerSpec.spec_block_size s)) as H0 by (intros; by apply cdiv_nonneg).
  generalize (get_num_skipped_tokens (mgr_kind (set_use_eagle e
    (new_manager ms (max_in_flight_tokens c) (max_model_len c) caching i sbs 1 z))) 0 / Managers.spec_block_size ms). intros sk.
  unfold manager_spec in Hms. destruct s as [a k|m]; [|simpl in Hms; simplify_eq; simpl in Ha; done].
  unfold max_pages, full_max_pages, chunked_max_pages, sliding_max_pages, cross_max_pages, mamba_max_pages, max_admission_blocks_per_request. rewrite Hd. pose proof (H0 (max_model_len c) ltac:(lia)) as Hml.
  destruct k as [| | | |f o| | | | |]; try destruct o; simpl in Hms; simplify_eq; simpl in *; try lia; try done.
  - unfold chunked_admission_blocks.
    pose proof (H0 (Z.min (attention_chunk_size + max_in_flight_tokens c) (max_model_len c)) ltac:(lia)). lia.
  - unfold sliding_admission_blocks. set (x := Z.min (_ - 1 + _ + _) _).
    pose proof (H0 x ltac:(lia)). lia.
  - unfold sliding_admission_blocks. set (x := Z.min (_ - 1 + _ + _) _).
    pose proof (H0 x ltac:(lia)). lia.
Qed.

Lemma max_list_ge l x : x ∈ l → x ≤ max_list l.
Proof.
  destruct l as [|y l]; [by intros ?%elem_of_nil|]. simpl. destruct (foldl_max_le l y) as [H1 H2].
  intros [->|Hx]%elem_of_cons; [done|by apply H2].
Qed.
(** The scheduler's copy of a configuration has for every group the spec of one of its layers. *)
Lemma scheduler_copy configs k0 : generate_scheduler_kv_cache_config configs = inr k0 → ∃ k1, configs !! 0%nat = Some k1
  ∧ CacheConfig.num_blocks k0 = CacheConfig.num_blocks k1
  ∧ Forall2 (λ g g', ∀ s, CacheConfig.group_spec g' = OneSpec s → s ∈ iter_layer_specs (CacheConfig.group_spec g))
      (CacheConfig.kv_cache_groups k1) (CacheConfig.kv_cache_groups k0).
Proof.
  unfold generate_scheduler_kv_cache_config. intros E. inr_hyps. subst k0. exists x. split; [by destruct configs|]. split; [done|]. simpl.
  match goal with H : mapM _ _ = inr _ |- _ => apply mapM_inr in H; eapply Forall2_impl; [exact H|] end.
  intros g g' E s Hs. cbv beta in E. destruct (CacheConfig.group_spec g) as [s0|b specs] eqn:Eg.
  - injection E as <-. rewrite Eg in Hs. injection Hs as ->. apply list_elem_of_here.
  - inr_hyps. subst g'. simpl in Hs. injection Hs as ->. simpl. by apply head_Some_elem_of.
Qed.
(** All managers together want no more than start-up counted. *)
Lemma wanted_need c k1 k0 cfg ms n : decode_context_parallel_size c = 1 → 0 ≤ n ≤ max_model_len c → 0 ≤ max_in_flight_tokens c →
  Forall (group_supported c) (CacheConfig.kv_cache_groups k1) →
  Forall2 (λ g g', ∀ s, CacheConfig.group_spec g' = OneSpec s → s ∈ iter_layer_specs (CacheConfig.group_spec g))
      (CacheConfig.kv_cache_groups k1) (CacheConfig.kv_cache_groups k0) →
  scheduler_view k0 cfg →
  Forall2 (λ g m, is_attention (spec_kind (Coordinator.group_spec g)) = true ∧ kind_ok (spec_kind (Coordinator.group_spec g))
    ∧ ∃ e caching i sbs z, m = set_use_eagle e (new_manager (Coordinator.group_spec g) (max_in_flight_tokens c) (max_model_len c) caching i sbs 1 z))
    (Coordinator.kv_cache_groups cfg) ms →
  sum_list ((λ m, wanted m n) <$> ms) ≤ need c (CacheConfig.kv_cache_groups k1).
Proof.
  intros Hd Hn Hf Hs Hcopy [_ Hv] Hms. revert Hs Hv Hms. generalize (Coordinator.kv_cache_groups cfg). intros gs. revert gs ms.
  unfold need. induction Hcopy as [|g g' l l' Hg _ IH]; intros gs ms Hs Hv Hms.
  - apply Forall2_nil_inv_l in Hv as ->. apply Forall2_nil_inv_l in Hms as ->. done.
  - apply Forall2_cons_inv_l in Hv as (gc & gs' & (s & E1 & E2 & _) & Hv & ->).
    apply Forall2_cons_inv_l in Hms as (m & ms' & (Ha & Hk & e & caching & i & sbs & z & ->) & Hms & ->).
    apply Forall_cons in Hs as [[_ Hs1] Hs]. specialize (IH gs' ms' Hs Hv Hms). rewrite !fmap_cons, (sum_Z_cons (group_need c g)).
    pose proof (Hg s E1) as Hin. rewrite Forall_forall in Hs1.
    pose proof (wanted_pages c s _ n i caching sbs e z E2 (Hs1 s Hin) Ha Hd Hn Hf Hk) as Hw.
    assert (pages c s ≤ group_need c g) as Hp by (apply max_list_ge, list_elem_of_fmap_2, Hin).
    unfold sum_list in *. cbn [foldr]. lia.
Qed.

(** The prediction for a request without blocks on new managers. *)
Lemma fresh_prediction c id n enc main k :
  Forall fresh_mgr (single_type_managers c) → Forall (λ m, is_attention (mgr_kind m) = true) (single_type_managers c) →
  k = length (single_type_managers c) →
  coord_get_num_blocks_to_allocate id n (replicate k []) enc 0 0 main true c
  = (inr (sum_list ((λ m, wanted m n) <$> single_type_managers c)), c).
Proof.
  intros Hf Ha ->. unfold coord_get_num_blocks_to_allocate, mbind at 1, M_bind at 1.
  rewrite (each_manager_pure c _ (λ _ m, wanted m n)).
  - unfold mret, M_ret. repeat f_equal. generalize (single_type_managers c). intros l. by induction l as [|m l IH]; simpl; [|f_equal].
  - intros i m Hi. rewrite Forall_lookup in Hf, Ha. pose proof (Ha i m Hi) as Hatt.
    unfold self, group_blocks, mbind, M_bind, gets. simpl.
    assert (is_cross_attention (kv_cache_spec m) = false) as ->.
    { unfold is_cross_attention. unfold mgr_kind in Hatt. by destruct (spec_kind (kv_cache_spec m)). }
    rewrite lookup_replicate_2 by (by eapply lookup_lt_Some). simpl. apply wanted_run; [by apply (Hf i)|done].
Qed.

(** C11: Start-up sizing and run-time admission agree.  When the configuration of the workers
    succeeds and a KV cache manager is made for it, the check that a whole request must fit passes
    on the new manager for every request up to the final model length: the blocks it predicts over
    all groups are at most the free blocks, so no request the front end accepts waits forever for
    blocks that do not exist. *)
Theorem startup_admits_longest c ws avail configs c' k0 cfg sbs hbs caching eagle npl stats events pcp wok wm md s0 :
  config_ok c → decode_context_parallel_size c = 1 → length avail = length ws →
  get_kv_cache_configs ws avail c = (inr configs, c') → Forall (λ k, Forall (group_supported c) (CacheConfig.kv_cache_groups k)) configs →
  generate_scheduler_kv_cache_config configs = inr k0 → CacheConfig.kv_cache_groups k0 ≠ [] → scheduler_view k0 cfg →
  KVCacheSteps.supported cfg sbs hbs 1 caching → 0 ≤ wm →
  KVCacheManager_init cfg (max_model_len c') sbs hbs (Some (max_in_flight_tokens c')) caching eagle npl stats events 1 pcp wok wm md = inr s0 →
  ∀ id n enc main, 0 ≤ n ≤ max_model_len c' → ∃ k,
    coord_get_num_blocks_to_allocate id n (replicate (length (Coordinator.kv_cache_groups cfg)) []) enc 0 0 main true (coordinator s0)
      = (inr k, coordinator s0) ∧ k ≤ get_num_free_blocks (KVCacheFacts.pool s0).
Proof.
  intros Hc Hd Hla E Hsup Hgen Hne Hview Hsupp Hwm Hinit id n enc main Hn.
  destruct (configs_sized c ws avail configs c' Hc Hla E Hsup) as (_ & (len & -> & _) & nb & Hblocks).
  destruct (scheduler_copy configs k0 Hgen) as (k1 & Hk1 & Enb & Hcopy). destruct (Hblocks 0%nat k1 Hk1) as (Hnb & m & _ & Hneed).
  assert (CacheConfig.kv_cache_groups k1 ≠ []) as Hne1 by (intros E1; rewrite E1 in Hcopy; by apply Forall2_nil_inv_l in Hcopy).
  destruct (Hneed Hne1) as [Hroom _].
  destruct (KVCacheManager_init_inv _ _ _ _ _ _ _ _ _ _ _ _ _ _ _ _ Hinit Hsupp Hwm) as (Hinv & Hfresh & _).
  unfold KVCacheManager_init in Hinit. apply result_bind_inr in Hinit as (co & Hco & Hinit). apply result_bind_inr in Hinit as (u & _ & Hinit).
  assert (coordinator s0 = co) as Es by (by injection Hinit as <-).
  destruct (coordinator_built _ _ _ _ _ _ _ _ _ _ _ _ ltac:(done) Hco) as ([Hlen Hbuilt] & _).
  unfold managers in Hfresh. rewrite Es in *. set (c' := set_max_model_len len c) in *.
  assert (Forall2 (λ g m, is_attention (spec_kind (Coordinator.group_spec g)) = true ∧ kind_ok (spec_kind (Coordinator.group_spec g))
    ∧ ∃ e caching i sbs z, m = set_use_eagle e (new_manager (Coordinator.group_spec g) (max_in_flight_tokens c') (max_model_len c') caching i sbs 1 z))
    (Coordinator.kv_cache_groups cfg) (single_type_managers co)) as Hms.
  { apply Forall2_same_length_lookup_2; [done|]. intros i g mg Hg Hm. destruct (Hbuilt i mg Hm) as (g' & e & Hg' & ->).
    assert (g' = g) as -> by congruence. destruct (sup_group _ _ _ _ _ Hsupp g) as (_ & ? & ? & _); [by eapply list_elem_of_lookup_2|].
    split_and!; [done|done|]. by eexists e, _, _, _, _. }
  eexists. split; [apply fresh_prediction; [done| |done]|].
  - apply Forall_lookup. intros i mg Hm. destruct (Forall2_lookup_r _ _ _ _ _ Hms Hm) as (g & _ & Ha & _ & e & ? & ? & ? & ? & ->). done.
  - rewrite (free_blocks_len _ _ Hinv). unfold zlen. rewrite length_fmap, length_seq, (sv_blocks _ _ Hview).
    pose proof Hc as (_ & Hf & _). assert (Forall (group_supported c') (CacheConfig.kv_cache_groups k1)) as Hs1 by (by eapply Forall_lookup_1 in Hsup).
    pose proof (wanted_need c' k1 k0 cfg _ n Hd Hn Hf Hs1 Hcopy Hview Hms). lia.
Qed.

(** ** The hybrid model on two stages *)

Definition staged_copy : CacheConfig.KVCacheConfig :=
  match generate_scheduler_kv_cache_config staged_configs with inr k => k | inl _ => mkKVConfig 0 [] [] None end.
Definition staged_group (kind : SpecKind) : Coordinator.KVCacheGroupSpec :=
  {| Coordinator.group_spec := {| Managers.spec_block_size := 16; spec_kind := kind |}; group_layout := []; Coordinator.is_eagle_group := false |}.
Definition staged_view : Coordinator.KVCacheConfig :=
  {| Coordinator.num_blocks := 58;
     Coordinator.kv_cache_groups := [staged_group FullAttentionSpec; staged_group (SlidingWindowSpec 32 0); staged_group (SlidingWindowSpec 32 0)];
     Coordinator.prefix_cache_retention_interval := None; has_mixed_precision_kv_cache := false |}.
Definition staged_manager : exn + KVCacheManager :=
  KVCacheManager_init staged_view (max_model_len staged.2) 16 16 (Some (max_in_flight_tokens staged.2)) true false 0 false false 1 1 true 0 [].
Lemma staged_scheduler_view : scheduler_view staged_copy staged_view.
Proof.
  split; [vm_compute; reflexivity|].
  assert (CacheConfig.kv_cache_groups staged_copy =
    [mkGroup ["f0"]%string (OneSpec (full_layer 16 2 4)) false; mkGroup ["s0"]%string (OneSpec (swa_layer 16 2 4 32)) false;
     mkGroup [] (OneSpec (swa_layer 16 2 4 32)) false]) as -> by (vm_compute; reflexivity).
  repeat constructor; eexists; split_and!; reflexivity.
Qed.
Lemma staged_view_supported : KVCacheSteps.supported staged_view 16 16 1 true.
Proof.
  split; [|vm_compute; reflexivity|done|done]. intros g Hg. simpl in Hg.
  apply elem_of_cons in Hg as [->|Hg]; [done|]. apply elem_of_cons in Hg as [->|Hg]; [done|].
  apply elem_of_cons in Hg as [->|Hg]; [done|by apply elem_of_nil in Hg].
Qed.
Lemma startup_admits_witness : ∃ s0 k, staged_manager = inr s0 ∧ coord_get_num_blocks_to_allocate "r" 100 [[]; []; []] 0 0 0 100 true (coordinator s0)
  = (inr k, coordinator s0) ∧ k ≤ get_num_free_blocks (KVCacheFacts.pool s0).
Proof.
  destruct staged_manager as [e|s0] eqn:E; [vm_compute in E; discriminate|]. exists s0.
  destruct (startup_admits_longest (config 100 (-1) BLHNC) two_stages [40000; 30000] staged_configs staged.2 staged_copy staged_view
    16 16 true false 0 false false 1 true 0 [] s0) with "r"%string 100 0 100 as (k & H1 & H2).
  - vm_compute. split_and!; discriminate.
  - reflexivity.
  - reflexivity.
  - vm_compute. reflexivity.
  - apply staged_supported.
  - vm_compute. reflexivity.
  - vm_compute. discriminate.
  - apply staged_scheduler_view.
  - apply staged_view_supported.
  - lia.
  - exact E.
  - vm_compute. split; discriminate.
  - exists k. split; [reflexivity|]. split; [exact H1|exact H2].
Defined.
